(* ===== verification/_CoqProject ===== *)
-Q . S2P
Prelude.v
Unicode.v
GoStrings.v
Utf8Facts.v
Regex.v
RegexFacts.v
Breaker.v
SeenCache.v
GoSort.v
Matcher.v
TextFacts.v
Validate.v
Classify.v
Registry.v
SourceRep.v
Scoring.v
Outreach.v
Extract.v
Geo.v
Item.v
Hashes.v
FilterSignals.v
FilterGates.v
TgWeb.v
WebPain.v
Entity.v
EntityKeys.v
EntityKeyFacts.v
EntityDoc.v
EntityStore.v
EntityReview.v
EntityFacts.v
EntityProps.v
EntityReviewProps.v
EntityWitnesses.v
SourceRegistry.v
CrawlQueue.v
RegistryFacts.v
CrawlFacts.v
Gemini.v
Quota.v
QuotaFacts.v
ProxyBudget.v
SourceDisable.v
DorkDisable.v
Queues.v
Enrich.v
Effects.v
ProxyPool.v
PageText.v
Headless.v
SiteCrawl.v
LeadBatch.v
LeadStore.v
LeadStoreFacts.v
WarmPath.v
WarmLogic.v
WarmFacts.v
Spill.v
BatchApi.v
WarmBatch.v
WarmBatchFacts.v
WarmBatchAnswers.v
WarmBatchRuns.v
Discover.v
Suggestions.v
SuggestProps.v
ColdPath.v
ColdFacts.v
ColdProps.v
CrmStore.v
CrmFacts.v
EntityClassify.v
EntityClassifyFacts.v
Process.v
ProcessLogic.v
ProcessFacts.v
ProcessProps.v
Rounds.v
RoundFacts.v
