(* ===== verification/Prelude.v ===== *)
(** * BidShard lead miner: a verification library

    The program collects public posts (Telegram, forums, search results, job boards, site
    crawls), decides which are buying signals, extracts contacts, scores and deduplicates
    the leads, groups them into entities and hands them to stores and background paths.
    This library models its Go core, mostly under [src/internal/], and proves what makes
    it correct; the file and function of the source are named in each file, and
    definitions keep the names of the source.

    ** Conventions.  A Go [int], [int64] or [time.Duration] is a [Z]; where overflow can
    matter the wrap-around [wrap64] is written out (the breaker, the backoff, the budget).
    [float64] is [spec_float] at 53 bits.  A string is a list of bytes; UTF-8, case tables,
    [strings], [strconv] and sorting are modelled in Unicode.v, GoStrings.v and GoSort.v,
    regular expressions in Regex.v with the leftmost-first semantics of RE2.  The clock and
    the order of a [range] over a map are arguments.  Code outside the source is a
    parameter: type classes [MailLib], [JsonLib], [UrlLib], [HtmlLib], [TimeLib], [DayLib],
    [ErrorLib], the stores and models behind the pipeline, the Mongo collection, the answers
    of the language model and of its batch API, the encodings of JSON, random keys, the state
    files.  Whether a call of the Mongo driver fails is a function of the calls made so far; a
    call that fails changes nothing.  A mutex makes a method atomic; where the code holds no
    lock across two steps, the steps are separate and interleave: the quotas, the requests of
    the proxy transport, the pool of browsers, the calls of the bulk store, the merge loop and
    the classification of entities against the other writers of the collection.

    ** Parts and files
    - Text and language: Prelude, Unicode, GoStrings, Utf8Facts, Regex, RegexFacts,
      GoSort, TextFacts.
    - [breaker/]: Breaker.  [dedup/]: SeenCache, a list that refines the cache's map.
    - [scoring/]: Matcher (the weighted matcher), Registry (keyword files), Scoring,
      SourceRep, Outreach.  [validate/]: Validate.  [classify/]: Classify.
    - [extract/]: Extract.  [geo/]: Geo.  [filter/]: FilterSignals (what a text shows) and
      FilterGates (what the pipeline asks).  [sources/tgweb], [sources/webpain]: TgWeb,
      WebPain.  [model/]: Item.  [sink/leadid.go], [contacts.go]: Hashes, with SHA-256
      in full.
    - [entity/]: Entity (what the pipeline uses), EntityKeys, EntityDoc (documents, merging,
      heat), EntityStore (the merge loop over the class [SightingBackend], implemented by the
      memory store and, over the class [Collection] with the law of what other writers may do,
      by the Mongo store), EntityReview
      (splits, classification, links); facts, properties and witnesses in EntityKeyFacts,
      EntityFacts, EntityProps, EntityReviewProps, EntityWitnesses.
    - [sourceregistry/], [domaincascade/], [seedfeedback/], the queue of [sources/tgweb]:
      SourceRegistry, CrawlQueue, with RegistryFacts, CrawlFacts.
    - [httpclient/]: ProxyPool (the pool of proxies and the transport that rotates them).
      [sources/lander/]: PageText (the text of a page), Headless (pages over HTTP and by a
      browser, the queue of pages that wait for one).  The crawls of [sources/tgweb/] and
      [sources/lander/] and the drain of [app/headless_drain.go]: SiteCrawl.
    - [gemini/]: Gemini (answers), Quota (limits, attempts), QuotaFacts.  [enrich/]: Enrich.
    - [proxybudget/], [sourcedisable/], [dorkdisable/]: ProxyBudget, SourceDisable,
      DorkDisable.  [queue/], [batch/]: Queues.
    - [gemini/leads*.go], [batch_lead.go]: LeadBatch, the batch analysis of leads and its
      retries.  [sink/]: LeadStore, the documents of a lead, the upsert and the analysis
      patches over the class of lead stores, the Mongo store and the buffer in front of it,
      shared by goroutines whose calls are split at the lock; LeadStoreFacts.
    - [warmpath/]: WarmPath (the service: capture, filter, analyse, apply, notify), WarmLogic,
      WarmFacts; Spill (the spill files); BatchApi (the jobs of the batch API);
      WarmBatch (the batch worker), WarmBatchFacts, WarmBatchAnswers, WarmBatchRuns.  The
      spill file of Spill implements the queue interface WarmBatch is written against; that
      the service's spilling ends in the file the worker drains is said here, not proved.
    - The workers that classify entities and suggest links ([warmpath/entity_classify.go],
      [entity_link_suggest.go], with their sides in [gemini/] and [sink/]): EntityClassify,
      EntityClassifyFacts.  What the other writers of both collections do before each call of the
      driver is a parameter, so a flush is not atomic.
    - [discover/], [sink/keyword_stats.go]: Discover (queries, reports, tuning).
      [suggestions/]: Suggestions (applying by hand and within the weekly quota), SuggestProps.
    - [coldpath/], [sink/junk.go]: ColdPath (rejected posts, their analysis, reports and
      boosts), ColdFacts, ColdProps.
    - [crm/store/]: CrmStore (status, outcome, notes, lists, deletion, figures, entities and
      their splits), CrmFacts.
    - [pipeline/]: Process, [Processor.Process] stage by stage in the monad of Effects,
      which threads the state of the processor, the trace of its calls and early exits;
      ProcessLogic, ProcessFacts, ProcessProps.  Rounds: the counters of a round
      and the worker pool as a transition system; RoundFacts.

    The pipeline calls the parts in this order: gates of FilterGates and Geo, hard rejects
    of Registry, prescan, Extract and Validate, Scoring with SourceRep, Hashes and
    SeenCache, Gemini, Entity, the stores, Outreach.  Rounds runs it in workers.  CrawlQueue
    feeds accepted domains back to the crawlers.  Accepted leads enter LeadStore and the warm
    path, which analyses them in batches of LeadBatch or through the jobs of WarmBatch and
    patches the stored documents; rejected posts enter the cold path, whose reports feed
    Suggestions and, through its boosts, the CRM, which works on the documents of LeadStore
    and EntityStore.

    ** What the theorems show
    - The pipeline: an accepted lead passed every gate, has a contact, a score and an
      identity, and no verdict of a model or a lookup that it asked for was against it; no hash
      is handed to the stores twice; every rejection is audited; every call
      returns and releases what it reserved.
    - The pool: its counters add up, [Wait] means that all tasks are done, and the pool
      drains from any state whose tasks can be received; what goes wrong on cancellation and
      in the order of [TryEnqueue] is proved as it is.
    - Entities: recording in memory keeps documents well formed and their history; recording
      in Mongo is one atomic step of an abstract store; the hot tiers need sightings of two source
      families; keys do not
      depend on the order of contacts; splits and link suggestions are exact.
    - Registries: what an upsert does to every list; a dropped domain never comes back
      whatever is discovered, for addresses that normalise in one step; a fan-out reaches every crawler; a queued domain is crawled once
      per window.
    - Crawls: a domain gives at most one lead, from a page of its own that was fetched, and is
      marked only for it; a drain accounts for every page, exactly when its writes are made and
      the context is not done, and then the queue is worked off; a blocked proxy rests as long as it is told; the
      contacts of the static regions of a page are kept; the pool of browsers is bounded, and
      a fetch refused by the cap of its proxy blocks it for ever.
    - Budgets: quotas and the proxy cap hold up to the calls in flight, by an invariant of
      the interleavings; the backoff in 64 bits; the attempts of a call.
    - The lead store: an upsert keeps what sales has done; the buffer in front of the store loses
      no lead while writes succeed, and hides one only while a goroutine is writing it.
    - The warm path: every lead of a batch has one fate, every answer is one patch, the CRM is
      told only what was stored, a batch that fails is halved until it passes, and the batch
      worker neither loses nor doubles a record.
    - The review of the graph: the workers write the fields they own and nothing else, a mark
      for classification that a run finds is cleared only after a classification was stored in
      that run, and an entity rests between two of them; a mark set during one is lost.
    - Suggestions and the cold path: the weekly cap holds over every kind of run, an automatic
      run loses no query, the ranking of queries is exact, a false negative is boosted once, and
      the daily budget of shadow rows holds.
    - The CRM: no operation invents a lead or touches what the miner found, a split happens or
      does not, a deletion deletes what its filter says, and the pages of a list by score are
      the list.
    - Leaves: the matcher is the greedy choice of occurrences, phrase matching, e-mail
      acceptance, extraction, identities and keyword ids against their specifications;
      the cache refines a queue; the breaker blocks exactly its window.
    - Defects: theorems that state what the code does where it is not what it means to do.

    ** Bounds and fuel.  The matcher of regular expressions and the loops of the source are
    structural or run on the length of the text; the fuel of SHA-256 is its number of blocks.
    Cutting the blocks of a page takes as many steps as the page has bytes (cut_blocks_end), and
    waiting for a proxy as many as the theorem acquire_returns names.
    The attempt loops count down the attempts of the source.

    ** Not modelled.  Network, HTML and Mongo I/O, the fetching and parsing of the other
    crawlers, the discovery of paths in sitemaps, the Python scrapers, the HTTP handlers and the bot of the CRM, the command lines and the reading
    of the configuration, metrics and logs, the BPF collector: they carry data to and from the
    parts above, and what they decide is decided by the parts above.  Timeouts and cancellation
    of a context are modelled where the code looks at them (the pool, the drain of the warm
    path), not inside a call of a driver. *)
From Stdlib Require Export Lia ZArith.
From stdpp Require Export base numbers option strings list gmap.

(** ** Scope of the development and Go's integer types *)

Declare Scope go_scope.
Delimit Scope go_scope with go.

(** The empty Go string. *)
Abbreviation estr := EmptyString (only parsing).

(** Two's complement wrap-around of a 64-bit signed integer ([int], [int64],
    [time.Duration] on the targets the program is built for). *)
Definition wrap64 (z : Z) : Z := (z + 2 ^ 63) `mod` 2 ^ 64 - 2 ^ 63.

(** Wrap-around of an unsigned 64-bit integer. *)
Definition wrapu64 (z : Z) : Z := z `mod` 2 ^ 64.

Definition max_int64 : Z := 2 ^ 63 - 1.
Definition min_int64 : Z := - 2 ^ 63.

Lemma wrap64_range (z : Z) : (min_int64 ≤ wrap64 z ≤ max_int64)%Z.
Proof.
  unfold wrap64, min_int64, max_int64.
  pose proof (Z.mod_pos_bound (z + 2 ^ 63) (2 ^ 64)). lia.
Qed.

Lemma wrap64_small (z : Z) : (min_int64 ≤ z ≤ max_int64)%Z → wrap64 z = z.
Proof.
  unfold wrap64, min_int64, max_int64. intros H. rewrite Z.mod_small; lia.
Qed.

Lemma wrapu64_range (z : Z) : (0 ≤ wrapu64 z < 2 ^ 64)%Z.
Proof. unfold wrapu64. apply Z.mod_pos_bound. lia. Qed.

(** ** Time

    A [time.Time] is the number of nanoseconds since the zero time (January 1,
    year 1, UTC), so the zero value is [0]; a [time.Duration] is an [int64]
    number of nanoseconds. *)

Abbreviation Time := Z (only parsing).
Abbreviation Duration := Z (only parsing).

Definition zero_time : Z := 0.
Definition is_zero_time (t : Z) : bool := Z.eqb t zero_time.
Definition nanosecond : Z := 1.
Definition millisecond : Z := 1000000.
Definition second : Z := 1000 * millisecond.
Definition minute : Z := 60 * second.
Definition hour : Z := 60 * minute.

(** [t.Add(d)], [t.After(u)], [t.Before(u)]. *)
Definition time_add (t d : Z) : Z := (t + d)%Z.
Definition time_after (t u : Z) : bool := Z.ltb u t.
Definition time_before (t u : Z) : bool := Z.ltb t u.

(** [t.Sub(u)] saturates at the limits of [time.Duration]. *)
Definition time_sub (t u : Z) : Z := Z.max min_int64 (Z.min max_int64 (t - u)).

Lemma time_sub_pos (t u : Z) : (0 ≤ time_sub t u ↔ u ≤ t)%Z.
Proof. unfold time_sub, min_int64, max_int64. lia. Qed.

Lemma time_sub_le (t u d : Z) :
  (min_int64 ≤ d < max_int64 → time_sub t u ≤ d ↔ t - u ≤ d)%Z.
Proof. unfold time_sub, min_int64, max_int64. lia. Qed.

Create HintDb gotime.
#[export] Hint Unfold time_add time_after time_before is_zero_time zero_time : gotime.
#[global] Arguments wrap64 : simpl never.
#[global] Arguments time_sub : simpl never.
#[global] Arguments second : simpl never.
#[global] Arguments minute : simpl never.
#[global] Arguments hour : simpl never.

(** ** Tactics of the development *)

(** Turns boolean comparisons on [Z], [N] and [nat] in the context and the
    goal into propositions. *)
(** Case analysis on the comparisons of integers in the goal. *)
Ltac z_cases :=
  repeat match goal with
  | |- context [Z.eqb ?a ?b] => destruct (Z.eqb_spec a b)
  | |- context [Z.ltb ?a ?b] => destruct (Z.ltb_spec a b)
  end.

Ltac bool_to_prop :=
  repeat match goal with
  | H : Z.ltb _ _ = true |- _ => apply Z.ltb_lt in H
  | H : Z.ltb _ _ = false |- _ => apply Z.ltb_ge in H
  | H : Z.leb _ _ = true |- _ => apply Z.leb_le in H
  | H : Z.leb _ _ = false |- _ => apply Z.leb_gt in H
  | H : Z.eqb _ _ = true |- _ => apply Z.eqb_eq in H
  | H : Z.eqb _ _ = false |- _ => apply Z.eqb_neq in H
  | H : Nat.ltb _ _ = true |- _ => apply Nat.ltb_lt in H
  | H : Nat.ltb _ _ = false |- _ => apply Nat.ltb_ge in H
  | H : Nat.leb _ _ = true |- _ => apply Nat.leb_le in H
  | H : Nat.leb _ _ = false |- _ => apply Nat.leb_gt in H
  | H : Nat.eqb _ _ = true |- _ => apply Nat.eqb_eq in H
  | H : Nat.eqb _ _ = false |- _ => apply Nat.eqb_neq in H
  | H : N.ltb _ _ = true |- _ => apply N.ltb_lt in H
  | H : N.ltb _ _ = false |- _ => apply N.ltb_ge in H
  | H : N.leb _ _ = true |- _ => apply N.leb_le in H
  | H : N.leb _ _ = false |- _ => apply N.leb_gt in H
  | H : N.eqb _ _ = true |- _ => apply N.eqb_eq in H
  | H : N.eqb _ _ = false |- _ => apply N.eqb_neq in H
  | H : negb _ = true |- _ => apply negb_true_iff in H
  | H : negb _ = false |- _ => apply negb_false_iff in H
  | H : andb _ _ = true |- _ => apply andb_true_iff in H; destruct H
  | H : orb _ _ = false |- _ => apply orb_false_iff in H; destruct H
  end.

(** Case analysis on the scrutinee of every [if] in the goal, with the
    comparison it made as a hypothesis. *)
Ltac split_if :=
  match goal with
  | |- context [if ?b then _ else _] =>
      let E := fresh "E" in destruct b eqn:E
  end.

Ltac split_ifs := repeat split_if; bool_to_prop.

(** The same on a hypothesis. *)
Ltac split_if_in H :=
  match type of H with
  | context [if ?b then _ else _] =>
      let E := fresh "E" in destruct b eqn:E
  end.

(** ** Generic list lemmas *)

Section lists.
Context {A : Type}.
Implicit Types (l : list A).

Lemma existsb_elem (f : A → bool) l :
  existsb f l = true ↔ ∃ x, x ∈ l ∧ f x = true.
Proof.
  rewrite existsb_exists. setoid_rewrite list_elem_of_In. naive_solver.
Qed.

Lemma existsb_none (f : A → bool) l :
  existsb f l = false ↔ ∀ x, x ∈ l → f x = false.
Proof.
  induction l as [|a l IH]; simpl; [set_solver|].
  rewrite orb_false_iff, IH. set_solver.
Qed.

(** Dropping the prefix that satisfies a predicate, from either end. *)
Fixpoint drop_while (f : A → bool) l : list A :=
  match l with
  | [] => []
  | x :: l' => if f x then drop_while f l' else l
  end.

Definition drop_while_end (f : A → bool) l : list A :=
  reverse (drop_while f (reverse l)).

Lemma drop_while_suffix (f : A → bool) l : drop_while f l `suffix_of` l.
Proof.
  induction l as [|x l IH]; simpl; [done|].
  destruct (f x); [|done]. by apply suffix_cons_r.
Qed.

Lemma drop_while_hd (f : A → bool) l x l' :
  drop_while f l = x :: l' → f x = false.
Proof.
  induction l as [|y l IH]; simpl; [done|].
  destruct (f y) eqn:E; [done|]. by intros [= -> ->].
Qed.

Lemma drop_while_idemp (f : A → bool) l :
  drop_while f (drop_while f l) = drop_while f l.
Proof.
  destruct (drop_while f l) as [|x l'] eqn:E; [done|].
  simpl. by rewrite (drop_while_hd _ _ _ _ E).
Qed.

Lemma drop_while_none (f : A → bool) l :
  (∀ x, x ∈ l → f x = false) → drop_while f l = l.
Proof. destruct l as [|x l]; simpl; [done|]. intros H. rewrite H; set_solver. Qed.

Lemma drop_while_elem (f : A → bool) l x : x ∈ drop_while f l → x ∈ l.
Proof.
  intros H. destruct (drop_while_suffix f l) as [k ->]. set_solver.
Qed.

Lemma last_drop_while (f : A → bool) l x :
  last (drop_while f l) = Some x → last l = Some x.
Proof.
  destruct (drop_while_suffix f l) as [k Hk]. rewrite Hk at 2.
  rewrite last_app. by intros ->.
Qed.
End lists.

(** Number of elements that satisfy a boolean test, as a Go [int]. *)
Definition count_if {A} (f : A → bool) (l : list A) : Z :=
  Z.of_nat (length (List.filter f l)).

Lemma count_if_nonneg {A} (f : A → bool) l : (0 ≤ count_if f l)%Z.
Proof. unfold count_if. lia. Qed.

Lemma count_if_pos {A} (f : A → bool) l :
  (0 < count_if f l)%Z ↔ existsb f l = true.
Proof.
  unfold count_if. induction l as [|x l IH]; simpl; [lia|].
  destruct (f x); simpl; [lia|done].
Qed.

(** ** Order-preserving deduplication

    The idiom [if _, ok := seen[key]; ok { continue }; seen[key] = struct{}{};
    out = append(out, x)]: the first element of each key is kept, in order. *)

Section dedup.
Context {A : Type} (key : A → string).

Fixpoint dedup_from (seen : gset string) (l : list A) : list A :=
  match l with
  | [] => []
  | x :: l' =>
      if decide (key x ∈ seen) then dedup_from seen l'
      else x :: dedup_from ({[key x]} ∪ seen) l'
  end.

Definition dedup_on (l : list A) : list A := dedup_from ∅ l.

Lemma dedup_from_key seen l k :
  k ∈ key <$> dedup_from seen l ↔ k ∈ key <$> l ∧ k ∉ seen.
Proof.
  revert seen. induction l as [|x l IH]; intros seen; simpl; [set_solver|].
  case_decide as Hx; simpl.
  - rewrite IH. set_solver.
  - rewrite !elem_of_cons, IH. destruct (decide (k = key x)); set_solver.
Qed.

Lemma dedup_from_NoDup seen l : NoDup (key <$> dedup_from seen l).
Proof.
  revert seen. induction l as [|x l IH]; intros seen; simpl; [constructor|].
  case_decide; [done|]. simpl. constructor; [|done].
  rewrite dedup_from_key. set_solver.
Qed.

Lemma dedup_from_sublist seen l : dedup_from seen l `sublist_of` l.
Proof.
  revert seen. induction l as [|x l IH]; intros seen; simpl; [done|].
  case_decide; [by apply sublist_cons | by apply sublist_skip].
Qed.

Lemma dedup_from_id seen l :
  NoDup (key <$> l) → (∀ x, x ∈ l → key x ∉ seen) → dedup_from seen l = l.
Proof.
  revert seen. induction l as [|x l IH]; intros seen Hnd Hs; simpl; [done|].
  inversion Hnd as [|? ? Hx Hl]; subst.
  rewrite decide_False by set_solver. f_equal. apply IH; [done|].
  intros y Hy. rewrite not_elem_of_union, not_elem_of_singleton.
  split; [|set_solver]. intros E. apply Hx. rewrite <- E. set_solver.
Qed.

Lemma dedup_on_NoDup l : NoDup (key <$> dedup_on l).
Proof. apply dedup_from_NoDup. Qed.

Lemma dedup_on_key l k : k ∈ key <$> dedup_on l ↔ k ∈ key <$> l.
Proof. unfold dedup_on. rewrite dedup_from_key. set_solver. Qed.

Lemma dedup_on_idemp l : dedup_on (dedup_on l) = dedup_on l.
Proof. apply dedup_from_id; [apply dedup_from_NoDup | set_solver]. Qed.

Lemma dedup_on_sublist l : dedup_on l `sublist_of` l.
Proof. apply dedup_from_sublist. Qed.
End dedup.

Create HintDb golib.
#[export] Hint Resolve dedup_on_NoDup dedup_on_sublist count_if_nonneg
  wrap64_range wrapu64_range : golib.

Lemma filter_bool_perm {A} (f : A → bool) l1 l2 :
  l1 ≡ₚ l2 → List.filter f l1 ≡ₚ List.filter f l2.
Proof.
  induction 1 as [|x l1 l2 _ IH|x y l|l1 l2 l3 _ IH1 _ IH2]; simpl; [done| | |by etrans].
  - by destruct (f x); [constructor|].
  - destruct (f x), (f y); try done. apply Permutation_swap.
Qed.

Lemma elem_of_bool_filter {A} (f : A → bool) l x : x ∈ List.filter f l ↔ x ∈ l ∧ f x = true.
Proof. by rewrite !list_elem_of_In, filter_In. Qed.

Lemma filter_none {A} (f : A → bool) l : (∀ x, x ∈ l → f x = false) → List.filter f l = [].
Proof.
  induction l as [|x l IH]; intros Hf; [done|]. simpl. rewrite (Hf x) by by left.
  apply IH. intros y Hy. apply Hf. by right.
Qed.

Lemma filter_all {A} (f : A → bool) l : (∀ x, x ∈ l → f x = true) → List.filter f l = l.
Proof.
  induction l as [|x l IH]; intros Hf; [done|]. simpl. rewrite (Hf x) by by left.
  f_equal. apply IH. intros y Hy. apply Hf. by right.
Qed.

Lemma filter_sublist {A} (f : A → bool) l : List.filter f l `sublist_of` l.
Proof.
  induction l as [|x l IH]; [done|]. simpl.
  destruct (f x); [by apply sublist_skip|by apply sublist_cons].
Qed.
