(* ===== verification/Unicode.v ===== *)
(** Unicode tables of Go's [unicode] package (version 15.0.0, the one Go 1.25
    ships) and the predicates over them that the program uses: [IsLetter],
    [IsDigit], [IsSpace], membership in the Cyrillic script, [ToLower],
    [ToUpper] and the equivalence of [SimpleFold]. A rune is an [N]. *)
From S2P Require Import Prelude.

(** [CR lo hi stride delta]: the runes [lo, lo+stride, ..., hi] map to
    themselves plus [delta]. *)
Inductive case_range := CR (lo hi stride : N) (delta : Z).

(** Unicode 15.0 category L, the table behind [unicode.IsLetter]. *)
Definition letter_ranges : list (N * N) :=
  [(65,90); (97,122); (170,170); (181,181); (186,186); (192,214); (216,246); (248,705);
   (710,721); (736,740); (748,748); (750,750); (880,884); (886,887); (890,893); (895,895);
   (902,902); (904,906); (908,908); (910,929); (931,1013); (1015,1153); (1162,1327);
   (1329,1366); (1369,1369); (1376,1416); (1488,1514); (1519,1522); (1568,1610);
   (1646,1647); (1649,1747); (1749,1749); (1765,1766); (1774,1775); (1786,1788);
   (1791,1791); (1808,1808); (1810,1839); (1869,1957); (1969,1969); (1994,2026);
   (2036,2037); (2042,2042); (2048,2069); (2074,2074); (2084,2084); (2088,2088);
   (2112,2136); (2144,2154); (2160,2183); (2185,2190); (2208,2249); (2308,2361);
   (2365,2365); (2384,2384); (2392,2401); (2417,2432); (2437,2444); (2447,2448);
   (2451,2472); (2474,2480); (2482,2482); (2486,2489); (2493,2493); (2510,2510);
   (2524,2525); (2527,2529); (2544,2545); (2556,2556); (2565,2570); (2575,2576);
   (2579,2600); (2602,2608); (2610,2611); (2613,2614); (2616,2617); (2649,2652);
   (2654,2654); (2674,2676); (2693,2701); (2703,2705); (2707,2728); (2730,2736);
   (2738,2739); (2741,2745); (2749,2749); (2768,2768); (2784,2785); (2809,2809);
   (2821,2828); (2831,2832); (2835,2856); (2858,2864); (2866,2867); (2869,2873);
   (2877,2877); (2908,2909); (2911,2913); (2929,2929); (2947,2947); (2949,2954);
   (2958,2960); (2962,2965); (2969,2970); (2972,2972); (2974,2975); (2979,2980);
   (2984,2986); (2990,3001); (3024,3024); (3077,3084); (3086,3088); (3090,3112);
   (3114,3129); (3133,3133); (3160,3162); (3165,3165); (3168,3169); (3200,3200);
   (3205,3212); (3214,3216); (3218,3240); (3242,3251); (3253,3257); (3261,3261);
   (3293,3294); (3296,3297); (3313,3314); (3332,3340); (3342,3344); (3346,3386);
   (3389,3389); (3406,3406); (3412,3414); (3423,3425); (3450,3455); (3461,3478);
   (3482,3505); (3507,3515); (3517,3517); (3520,3526); (3585,3632); (3634,3635);
   (3648,3654); (3713,3714); (3716,3716); (3718,3722); (3724,3747); (3749,3749);
   (3751,3760); (3762,3763); (3773,3773); (3776,3780); (3782,3782); (3804,3807);
   (3840,3840); (3904,3911); (3913,3948); (3976,3980); (4096,4138); (4159,4159);
   (4176,4181); (4186,4189); (4193,4193); (4197,4198); (4206,4208); (4213,4225);
   (4238,4238); (4256,4293); (4295,4295); (4301,4301); (4304,4346); (4348,4680);
   (4682,4685); (4688,4694); (4696,4696); (4698,4701); (4704,4744); (4746,4749);
   (4752,4784); (4786,4789); (4792,4798); (4800,4800); (4802,4805); (4808,4822);
   (4824,4880); (4882,4885); (4888,4954); (4992,5007); (5024,5109); (5112,5117);
   (5121,5740); (5743,5759); (5761,5786); (5792,5866); (5873,5880); (5888,5905);
   (5919,5937); (5952,5969); (5984,5996); (5998,6000); (6016,6067); (6103,6103);
   (6108,6108); (6176,6264); (6272,6276); (6279,6312); (6314,6314); (6320,6389);
   (6400,6430); (6480,6509); (6512,6516); (6528,6571); (6576,6601); (6656,6678);
   (6688,6740); (6823,6823); (6917,6963); (6981,6988); (7043,7072); (7086,7087);
   (7098,7141); (7168,7203); (7245,7247); (7258,7293); (7296,7304); (7312,7354);
   (7357,7359); (7401,7404); (7406,7411); (7413,7414); (7418,7418); (7424,7615);
   (7680,7957); (7960,7965); (7968,8005); (8008,8013); (8016,8023); (8025,8025);
   (8027,8027); (8029,8029); (8031,8061); (8064,8116); (8118,8124); (8126,8126);
   (8130,8132); (8134,8140); (8144,8147); (8150,8155); (8160,8172); (8178,8180);
   (8182,8188); (8305,8305); (8319,8319); (8336,8348); (8450,8450); (8455,8455);
   (8458,8467); (8469,8469); (8473,8477); (8484,8484); (8486,8486); (8488,8488);
   (8490,8493); (8495,8505); (8508,8511); (8517,8521); (8526,8526); (8579,8580);
   (11264,11492); (11499,11502); (11506,11507); (11520,11557); (11559,11559);
   (11565,11565); (11568,11623); (11631,11631); (11648,11670); (11680,11686);
   (11688,11694); (11696,11702); (11704,11710); (11712,11718); (11720,11726);
   (11728,11734); (11736,11742); (11823,11823); (12293,12294); (12337,12341);
   (12347,12348); (12353,12438); (12445,12447); (12449,12538); (12540,12543);
   (12549,12591); (12593,12686); (12704,12735); (12784,12799); (13312,19903);
   (19968,42124); (42192,42237); (42240,42508); (42512,42527); (42538,42539);
   (42560,42606); (42623,42653); (42656,42725); (42775,42783); (42786,42888);
   (42891,42954); (42960,42961); (42963,42963); (42965,42969); (42994,43009);
   (43011,43013); (43015,43018); (43020,43042); (43072,43123); (43138,43187);
   (43250,43255); (43259,43259); (43261,43262); (43274,43301); (43312,43334);
   (43360,43388); (43396,43442); (43471,43471); (43488,43492); (43494,43503);
   (43514,43518); (43520,43560); (43584,43586); (43588,43595); (43616,43638);
   (43642,43642); (43646,43695); (43697,43697); (43701,43702); (43705,43709);
   (43712,43712); (43714,43714); (43739,43741); (43744,43754); (43762,43764);
   (43777,43782); (43785,43790); (43793,43798); (43808,43814); (43816,43822);
   (43824,43866); (43868,43881); (43888,44002); (44032,55203); (55216,55238);
   (55243,55291); (63744,64109); (64112,64217); (64256,64262); (64275,64279);
   (64285,64285); (64287,64296); (64298,64310); (64312,64316); (64318,64318);
   (64320,64321); (64323,64324); (64326,64433); (64467,64829); (64848,64911);
   (64914,64967); (65008,65019); (65136,65140); (65142,65276); (65313,65338);
   (65345,65370); (65382,65470); (65474,65479); (65482,65487); (65490,65495);
   (65498,65500); (65536,65547); (65549,65574); (65576,65594); (65596,65597);
   (65599,65613); (65616,65629); (65664,65786); (66176,66204); (66208,66256);
   (66304,66335); (66349,66368); (66370,66377); (66384,66421); (66432,66461);
   (66464,66499); (66504,66511); (66560,66717); (66736,66771); (66776,66811);
   (66816,66855); (66864,66915); (66928,66938); (66940,66954); (66956,66962);
   (66964,66965); (66967,66977); (66979,66993); (66995,67001); (67003,67004);
   (67072,67382); (67392,67413); (67424,67431); (67456,67461); (67463,67504);
   (67506,67514); (67584,67589); (67592,67592); (67594,67637); (67639,67640);
   (67644,67644); (67647,67669); (67680,67702); (67712,67742); (67808,67826);
   (67828,67829); (67840,67861); (67872,67897); (67968,68023); (68030,68031);
   (68096,68096); (68112,68115); (68117,68119); (68121,68149); (68192,68220);
   (68224,68252); (68288,68295); (68297,68324); (68352,68405); (68416,68437);
   (68448,68466); (68480,68497); (68608,68680); (68736,68786); (68800,68850);
   (68864,68899); (69248,69289); (69296,69297); (69376,69404); (69415,69415);
   (69424,69445); (69488,69505); (69552,69572); (69600,69622); (69635,69687);
   (69745,69746); (69749,69749); (69763,69807); (69840,69864); (69891,69926);
   (69956,69956); (69959,69959); (69968,70002); (70006,70006); (70019,70066);
   (70081,70084); (70106,70106); (70108,70108); (70144,70161); (70163,70187);
   (70207,70208); (70272,70278); (70280,70280); (70282,70285); (70287,70301);
   (70303,70312); (70320,70366); (70405,70412); (70415,70416); (70419,70440);
   (70442,70448); (70450,70451); (70453,70457); (70461,70461); (70480,70480);
   (70493,70497); (70656,70708); (70727,70730); (70751,70753); (70784,70831);
   (70852,70853); (70855,70855); (71040,71086); (71128,71131); (71168,71215);
   (71236,71236); (71296,71338); (71352,71352); (71424,71450); (71488,71494);
   (71680,71723); (71840,71903); (71935,71942); (71945,71945); (71948,71955);
   (71957,71958); (71960,71983); (71999,71999); (72001,72001); (72096,72103);
   (72106,72144); (72161,72161); (72163,72163); (72192,72192); (72203,72242);
   (72250,72250); (72272,72272); (72284,72329); (72349,72349); (72368,72440);
   (72704,72712); (72714,72750); (72768,72768); (72818,72847); (72960,72966);
   (72968,72969); (72971,73008); (73030,73030); (73056,73061); (73063,73064);
   (73066,73097); (73112,73112); (73440,73458); (73474,73474); (73476,73488);
   (73490,73523); (73648,73648); (73728,74649); (74880,75075); (77712,77808);
   (77824,78894); (78913,78918); (82944,83526); (92160,92728); (92736,92766);
   (92784,92862); (92880,92909); (92928,92975); (92992,92995); (93027,93047);
   (93053,93071); (93760,93823); (93952,94026); (94032,94032); (94099,94111);
   (94176,94177); (94179,94179); (94208,100343); (100352,101589); (101632,101640);
   (110576,110579); (110581,110587); (110589,110590); (110592,110882); (110928,110930);
   (110948,110951); (110960,111355); (113664,113770); (113776,113788); (113792,113800);
   (113808,113817); (119808,119892); (119894,119964); (119966,119967); (119970,119970);
   (119973,119974); (119977,119980); (119982,119993); (119995,119995); (119997,120003);
   (120005,120069); (120071,120074); (120077,120084); (120086,120092); (120094,120121);
   (120123,120126); (120128,120132); (120134,120134); (120138,120144); (120146,120485);
   (120488,120512); (120514,120538); (120540,120570); (120572,120596); (120598,120628);
   (120630,120654); (120656,120686); (120688,120712); (120714,120744); (120746,120770);
   (120772,120779); (122624,122654); (122661,122666); (122928,122989); (123136,123180);
   (123191,123197); (123214,123214); (123536,123565); (123584,123627); (124112,124139);
   (124896,124902); (124904,124907); (124909,124910); (124912,124926); (124928,125124);
   (125184,125251); (125259,125259); (126464,126467); (126469,126495); (126497,126498);
   (126500,126500); (126503,126503); (126505,126514); (126516,126519); (126521,126521);
   (126523,126523); (126530,126530); (126535,126535); (126537,126537); (126539,126539);
   (126541,126543); (126545,126546); (126548,126548); (126551,126551); (126553,126553);
   (126555,126555); (126557,126557); (126559,126559); (126561,126562); (126564,126564);
   (126567,126570); (126572,126578); (126580,126583); (126585,126588); (126590,126590);
   (126592,126601); (126603,126619); (126625,126627); (126629,126633); (126635,126651);
   (131072,173791); (173824,177976); (177984,178205); (178208,183969); (183984,191456);
   (194560,195101); (196608,201546); (201552,205743)]%N.

(** Unicode 15.0 category Nd, the table behind [unicode.IsDigit]. *)
Definition digit_ranges : list (N * N) :=
  [(48,57); (1632,1641); (1776,1785); (1984,1993); (2406,2415); (2534,2543); (2662,2671);
   (2790,2799); (2918,2927); (3046,3055); (3174,3183); (3302,3311); (3430,3439);
   (3558,3567); (3664,3673); (3792,3801); (3872,3881); (4160,4169); (4240,4249);
   (6112,6121); (6160,6169); (6470,6479); (6608,6617); (6784,6793); (6800,6809);
   (6992,7001); (7088,7097); (7232,7241); (7248,7257); (42528,42537); (43216,43225);
   (43264,43273); (43472,43481); (43504,43513); (43600,43609); (44016,44025);
   (65296,65305); (66720,66729); (68912,68921); (69734,69743); (69872,69881);
   (69942,69951); (70096,70105); (70384,70393); (70736,70745); (70864,70873);
   (71248,71257); (71360,71369); (71472,71481); (71904,71913); (72016,72025);
   (72784,72793); (73040,73049); (73120,73129); (73552,73561); (92768,92777);
   (92864,92873); (93008,93017); (120782,120831); (123200,123209); (123632,123641);
   (124144,124153); (125264,125273); (130032,130041)]%N.

(** Simple lower-case mapping, the table behind [unicode.ToLower]. *)
Definition lower_ranges : list case_range :=
  [CR 65 90 1 (32); CR 192 214 1 (32); CR 216 222 1 (32); CR 256 302 2 (1);
   CR 304 304 1 (-199); CR 306 310 2 (1); CR 313 327 2 (1); CR 330 374 2 (1);
   CR 376 376 1 (-121); CR 377 381 2 (1); CR 385 385 1 (210); CR 386 388 2 (1);
   CR 390 390 1 (206); CR 391 391 1 (1); CR 393 394 1 (205); CR 395 395 1 (1);
   CR 398 398 1 (79); CR 399 399 1 (202); CR 400 400 1 (203); CR 401 401 1 (1);
   CR 403 403 1 (205); CR 404 404 1 (207); CR 406 406 1 (211); CR 407 407 1 (209);
   CR 408 408 1 (1); CR 412 412 1 (211); CR 413 413 1 (213); CR 415 415 1 (214);
   CR 416 420 2 (1); CR 422 422 1 (218); CR 423 423 1 (1); CR 425 425 1 (218);
   CR 428 428 1 (1); CR 430 430 1 (218); CR 431 431 1 (1); CR 433 434 1 (217);
   CR 435 437 2 (1); CR 439 439 1 (219); CR 440 440 1 (1); CR 444 444 1 (1);
   CR 452 452 1 (2); CR 453 453 1 (1); CR 455 455 1 (2); CR 456 456 1 (1);
   CR 458 458 1 (2); CR 459 475 2 (1); CR 478 494 2 (1); CR 497 497 1 (2);
   CR 498 500 2 (1); CR 502 502 1 (-97); CR 503 503 1 (-56); CR 504 542 2 (1);
   CR 544 544 1 (-130); CR 546 562 2 (1); CR 570 570 1 (10795); CR 571 571 1 (1);
   CR 573 573 1 (-163); CR 574 574 1 (10792); CR 577 577 1 (1); CR 579 579 1 (-195);
   CR 580 580 1 (69); CR 581 581 1 (71); CR 582 590 2 (1); CR 880 882 2 (1);
   CR 886 886 1 (1); CR 895 895 1 (116); CR 902 902 1 (38); CR 904 906 1 (37);
   CR 908 908 1 (64); CR 910 911 1 (63); CR 913 929 1 (32); CR 931 939 1 (32);
   CR 975 975 1 (8); CR 984 1006 2 (1); CR 1012 1012 1 (-60); CR 1015 1015 1 (1);
   CR 1017 1017 1 (-7); CR 1018 1018 1 (1); CR 1021 1023 1 (-130); CR 1024 1039 1 (80);
   CR 1040 1071 1 (32); CR 1120 1152 2 (1); CR 1162 1214 2 (1); CR 1216 1216 1 (15);
   CR 1217 1229 2 (1); CR 1232 1326 2 (1); CR 1329 1366 1 (48); CR 4256 4293 1 (7264);
   CR 4295 4295 1 (7264); CR 4301 4301 1 (7264); CR 5024 5103 1 (38864);
   CR 5104 5109 1 (8); CR 7312 7354 1 (-3008); CR 7357 7359 1 (-3008); CR 7680 7828 2 (1);
   CR 7838 7838 1 (-7615); CR 7840 7934 2 (1); CR 7944 7951 1 (-8); CR 7960 7965 1 (-8);
   CR 7976 7983 1 (-8); CR 7992 7999 1 (-8); CR 8008 8013 1 (-8); CR 8025 8031 2 (-8);
   CR 8040 8047 1 (-8); CR 8072 8079 1 (-8); CR 8088 8095 1 (-8); CR 8104 8111 1 (-8);
   CR 8120 8121 1 (-8); CR 8122 8123 1 (-74); CR 8124 8124 1 (-9); CR 8136 8139 1 (-86);
   CR 8140 8140 1 (-9); CR 8152 8153 1 (-8); CR 8154 8155 1 (-100); CR 8168 8169 1 (-8);
   CR 8170 8171 1 (-112); CR 8172 8172 1 (-7); CR 8184 8185 1 (-128);
   CR 8186 8187 1 (-126); CR 8188 8188 1 (-9); CR 8486 8486 1 (-7517);
   CR 8490 8490 1 (-8383); CR 8491 8491 1 (-8262); CR 8498 8498 1 (28);
   CR 8544 8559 1 (16); CR 8579 8579 1 (1); CR 9398 9423 1 (26); CR 11264 11311 1 (48);
   CR 11360 11360 1 (1); CR 11362 11362 1 (-10743); CR 11363 11363 1 (-3814);
   CR 11364 11364 1 (-10727); CR 11367 11371 2 (1); CR 11373 11373 1 (-10780);
   CR 11374 11374 1 (-10749); CR 11375 11375 1 (-10783); CR 11376 11376 1 (-10782);
   CR 11378 11378 1 (1); CR 11381 11381 1 (1); CR 11390 11391 1 (-10815);
   CR 11392 11490 2 (1); CR 11499 11501 2 (1); CR 11506 11506 1 (1); CR 42560 42604 2 (1);
   CR 42624 42650 2 (1); CR 42786 42798 2 (1); CR 42802 42862 2 (1); CR 42873 42875 2 (1);
   CR 42877 42877 1 (-35332); CR 42878 42886 2 (1); CR 42891 42891 1 (1);
   CR 42893 42893 1 (-42280); CR 42896 42898 2 (1); CR 42902 42920 2 (1);
   CR 42922 42922 1 (-42308); CR 42923 42923 1 (-42319); CR 42924 42924 1 (-42315);
   CR 42925 42925 1 (-42305); CR 42926 42926 1 (-42308); CR 42928 42928 1 (-42258);
   CR 42929 42929 1 (-42282); CR 42930 42930 1 (-42261); CR 42931 42931 1 (928);
   CR 42932 42946 2 (1); CR 42948 42948 1 (-48); CR 42949 42949 1 (-42307);
   CR 42950 42950 1 (-35384); CR 42951 42953 2 (1); CR 42960 42960 1 (1);
   CR 42966 42968 2 (1); CR 42997 42997 1 (1); CR 65313 65338 1 (32);
   CR 66560 66599 1 (40); CR 66736 66771 1 (40); CR 66928 66938 1 (39);
   CR 66940 66954 1 (39); CR 66956 66962 1 (39); CR 66964 66965 1 (39);
   CR 68736 68786 1 (64); CR 71840 71871 1 (32); CR 93760 93791 1 (32);
   CR 125184 125217 1 (34)].

(** Simple upper-case mapping, the table behind [unicode.ToUpper]. *)
Definition upper_ranges : list case_range :=
  [CR 97 122 1 (-32); CR 181 181 1 (743); CR 224 246 1 (-32); CR 248 254 1 (-32);
   CR 255 255 1 (121); CR 257 303 2 (-1); CR 305 305 1 (-232); CR 307 311 2 (-1);
   CR 314 328 2 (-1); CR 331 375 2 (-1); CR 378 382 2 (-1); CR 383 383 1 (-300);
   CR 384 384 1 (195); CR 387 389 2 (-1); CR 392 392 1 (-1); CR 396 396 1 (-1);
   CR 402 402 1 (-1); CR 405 405 1 (97); CR 409 409 1 (-1); CR 410 410 1 (163);
   CR 414 414 1 (130); CR 417 421 2 (-1); CR 424 424 1 (-1); CR 429 429 1 (-1);
   CR 432 432 1 (-1); CR 436 438 2 (-1); CR 441 441 1 (-1); CR 445 445 1 (-1);
   CR 447 447 1 (56); CR 453 453 1 (-1); CR 454 454 1 (-2); CR 456 456 1 (-1);
   CR 457 457 1 (-2); CR 459 459 1 (-1); CR 460 460 1 (-2); CR 462 476 2 (-1);
   CR 477 477 1 (-79); CR 479 495 2 (-1); CR 498 498 1 (-1); CR 499 499 1 (-2);
   CR 501 501 1 (-1); CR 505 543 2 (-1); CR 547 563 2 (-1); CR 572 572 1 (-1);
   CR 575 576 1 (10815); CR 578 578 1 (-1); CR 583 591 2 (-1); CR 592 592 1 (10783);
   CR 593 593 1 (10780); CR 594 594 1 (10782); CR 595 595 1 (-210); CR 596 596 1 (-206);
   CR 598 599 1 (-205); CR 601 601 1 (-202); CR 603 603 1 (-203); CR 604 604 1 (42319);
   CR 608 608 1 (-205); CR 609 609 1 (42315); CR 611 611 1 (-207); CR 613 613 1 (42280);
   CR 614 614 1 (42308); CR 616 616 1 (-209); CR 617 617 1 (-211); CR 618 618 1 (42308);
   CR 619 619 1 (10743); CR 620 620 1 (42305); CR 623 623 1 (-211); CR 625 625 1 (10749);
   CR 626 626 1 (-213); CR 629 629 1 (-214); CR 637 637 1 (10727); CR 640 640 1 (-218);
   CR 642 642 1 (42307); CR 643 643 1 (-218); CR 647 647 1 (42282); CR 648 648 1 (-218);
   CR 649 649 1 (-69); CR 650 651 1 (-217); CR 652 652 1 (-71); CR 658 658 1 (-219);
   CR 669 669 1 (42261); CR 670 670 1 (42258); CR 837 837 1 (84); CR 881 883 2 (-1);
   CR 887 887 1 (-1); CR 891 893 1 (130); CR 940 940 1 (-38); CR 941 943 1 (-37);
   CR 945 961 1 (-32); CR 962 962 1 (-31); CR 963 971 1 (-32); CR 972 972 1 (-64);
   CR 973 974 1 (-63); CR 976 976 1 (-62); CR 977 977 1 (-57); CR 981 981 1 (-47);
   CR 982 982 1 (-54); CR 983 983 1 (-8); CR 985 1007 2 (-1); CR 1008 1008 1 (-86);
   CR 1009 1009 1 (-80); CR 1010 1010 1 (7); CR 1011 1011 1 (-116); CR 1013 1013 1 (-96);
   CR 1016 1016 1 (-1); CR 1019 1019 1 (-1); CR 1072 1103 1 (-32); CR 1104 1119 1 (-80);
   CR 1121 1153 2 (-1); CR 1163 1215 2 (-1); CR 1218 1230 2 (-1); CR 1231 1231 1 (-15);
   CR 1233 1327 2 (-1); CR 1377 1414 1 (-48); CR 4304 4346 1 (3008);
   CR 4349 4351 1 (3008); CR 5112 5117 1 (-8); CR 7296 7296 1 (-6254);
   CR 7297 7297 1 (-6253); CR 7298 7298 1 (-6244); CR 7299 7300 1 (-6242);
   CR 7301 7301 1 (-6243); CR 7302 7302 1 (-6236); CR 7303 7303 1 (-6181);
   CR 7304 7304 1 (35266); CR 7545 7545 1 (35332); CR 7549 7549 1 (3814);
   CR 7566 7566 1 (35384); CR 7681 7829 2 (-1); CR 7835 7835 1 (-59); CR 7841 7935 2 (-1);
   CR 7936 7943 1 (8); CR 7952 7957 1 (8); CR 7968 7975 1 (8); CR 7984 7991 1 (8);
   CR 8000 8005 1 (8); CR 8017 8023 2 (8); CR 8032 8039 1 (8); CR 8048 8049 1 (74);
   CR 8050 8053 1 (86); CR 8054 8055 1 (100); CR 8056 8057 1 (128); CR 8058 8059 1 (112);
   CR 8060 8061 1 (126); CR 8064 8071 1 (8); CR 8080 8087 1 (8); CR 8096 8103 1 (8);
   CR 8112 8113 1 (8); CR 8115 8115 1 (9); CR 8126 8126 1 (-7205); CR 8131 8131 1 (9);
   CR 8144 8145 1 (8); CR 8160 8161 1 (8); CR 8165 8165 1 (7); CR 8179 8179 1 (9);
   CR 8526 8526 1 (-28); CR 8560 8575 1 (-16); CR 8580 8580 1 (-1); CR 9424 9449 1 (-26);
   CR 11312 11359 1 (-48); CR 11361 11361 1 (-1); CR 11365 11365 1 (-10795);
   CR 11366 11366 1 (-10792); CR 11368 11372 2 (-1); CR 11379 11379 1 (-1);
   CR 11382 11382 1 (-1); CR 11393 11491 2 (-1); CR 11500 11502 2 (-1);
   CR 11507 11507 1 (-1); CR 11520 11557 1 (-7264); CR 11559 11559 1 (-7264);
   CR 11565 11565 1 (-7264); CR 42561 42605 2 (-1); CR 42625 42651 2 (-1);
   CR 42787 42799 2 (-1); CR 42803 42863 2 (-1); CR 42874 42876 2 (-1);
   CR 42879 42887 2 (-1); CR 42892 42892 1 (-1); CR 42897 42899 2 (-1);
   CR 42900 42900 1 (48); CR 42903 42921 2 (-1); CR 42933 42947 2 (-1);
   CR 42952 42954 2 (-1); CR 42961 42961 1 (-1); CR 42967 42969 2 (-1);
   CR 42998 42998 1 (-1); CR 43859 43859 1 (-928); CR 43888 43967 1 (-38864);
   CR 65345 65370 1 (-32); CR 66600 66639 1 (-40); CR 66776 66811 1 (-40);
   CR 66967 66977 1 (-39); CR 66979 66993 1 (-39); CR 66995 67001 1 (-39);
   CR 67003 67004 1 (-39); CR 68800 68850 1 (-64); CR 71872 71903 1 (-32);
   CR 93792 93823 1 (-32); CR 125218 125251 1 (-34)].

(** Simple case folding (CaseFolding.txt, statuses C and S), the orbits of [unicode.SimpleFold]. *)
Definition fold_ranges : list case_range :=
  [CR 65 90 1 (32); CR 181 181 1 (775); CR 192 214 1 (32); CR 216 222 1 (32);
   CR 256 302 2 (1); CR 306 310 2 (1); CR 313 327 2 (1); CR 330 374 2 (1);
   CR 376 376 1 (-121); CR 377 381 2 (1); CR 383 383 1 (-268); CR 385 385 1 (210);
   CR 386 388 2 (1); CR 390 390 1 (206); CR 391 391 1 (1); CR 393 394 1 (205);
   CR 395 395 1 (1); CR 398 398 1 (79); CR 399 399 1 (202); CR 400 400 1 (203);
   CR 401 401 1 (1); CR 403 403 1 (205); CR 404 404 1 (207); CR 406 406 1 (211);
   CR 407 407 1 (209); CR 408 408 1 (1); CR 412 412 1 (211); CR 413 413 1 (213);
   CR 415 415 1 (214); CR 416 420 2 (1); CR 422 422 1 (218); CR 423 423 1 (1);
   CR 425 425 1 (218); CR 428 428 1 (1); CR 430 430 1 (218); CR 431 431 1 (1);
   CR 433 434 1 (217); CR 435 437 2 (1); CR 439 439 1 (219); CR 440 440 1 (1);
   CR 444 444 1 (1); CR 452 452 1 (2); CR 453 453 1 (1); CR 455 455 1 (2);
   CR 456 456 1 (1); CR 458 458 1 (2); CR 459 475 2 (1); CR 478 494 2 (1);
   CR 497 497 1 (2); CR 498 500 2 (1); CR 502 502 1 (-97); CR 503 503 1 (-56);
   CR 504 542 2 (1); CR 544 544 1 (-130); CR 546 562 2 (1); CR 570 570 1 (10795);
   CR 571 571 1 (1); CR 573 573 1 (-163); CR 574 574 1 (10792); CR 577 577 1 (1);
   CR 579 579 1 (-195); CR 580 580 1 (69); CR 581 581 1 (71); CR 582 590 2 (1);
   CR 837 837 1 (116); CR 880 882 2 (1); CR 886 886 1 (1); CR 895 895 1 (116);
   CR 902 902 1 (38); CR 904 906 1 (37); CR 908 908 1 (64); CR 910 911 1 (63);
   CR 913 929 1 (32); CR 931 939 1 (32); CR 962 962 1 (1); CR 975 975 1 (8);
   CR 976 976 1 (-30); CR 977 977 1 (-25); CR 981 981 1 (-15); CR 982 982 1 (-22);
   CR 984 1006 2 (1); CR 1008 1008 1 (-54); CR 1009 1009 1 (-48); CR 1012 1012 1 (-60);
   CR 1013 1013 1 (-64); CR 1015 1015 1 (1); CR 1017 1017 1 (-7); CR 1018 1018 1 (1);
   CR 1021 1023 1 (-130); CR 1024 1039 1 (80); CR 1040 1071 1 (32); CR 1120 1152 2 (1);
   CR 1162 1214 2 (1); CR 1216 1216 1 (15); CR 1217 1229 2 (1); CR 1232 1326 2 (1);
   CR 1329 1366 1 (48); CR 4256 4293 1 (7264); CR 4295 4295 1 (7264);
   CR 4301 4301 1 (7264); CR 5112 5117 1 (-8); CR 7296 7296 1 (-6222);
   CR 7297 7297 1 (-6221); CR 7298 7298 1 (-6212); CR 7299 7300 1 (-6210);
   CR 7301 7301 1 (-6211); CR 7302 7302 1 (-6204); CR 7303 7303 1 (-6180);
   CR 7304 7304 1 (35267); CR 7312 7354 1 (-3008); CR 7357 7359 1 (-3008);
   CR 7680 7828 2 (1); CR 7835 7835 1 (-58); CR 7838 7838 1 (-7615); CR 7840 7934 2 (1);
   CR 7944 7951 1 (-8); CR 7960 7965 1 (-8); CR 7976 7983 1 (-8); CR 7992 7999 1 (-8);
   CR 8008 8013 1 (-8); CR 8025 8031 2 (-8); CR 8040 8047 1 (-8); CR 8072 8079 1 (-8);
   CR 8088 8095 1 (-8); CR 8104 8111 1 (-8); CR 8120 8121 1 (-8); CR 8122 8123 1 (-74);
   CR 8124 8124 1 (-9); CR 8126 8126 1 (-7173); CR 8136 8139 1 (-86); CR 8140 8140 1 (-9);
   CR 8152 8153 1 (-8); CR 8154 8155 1 (-100); CR 8168 8169 1 (-8); CR 8170 8171 1 (-112);
   CR 8172 8172 1 (-7); CR 8184 8185 1 (-128); CR 8186 8187 1 (-126); CR 8188 8188 1 (-9);
   CR 8486 8486 1 (-7517); CR 8490 8490 1 (-8383); CR 8491 8491 1 (-8262);
   CR 8498 8498 1 (28); CR 8544 8559 1 (16); CR 8579 8579 1 (1); CR 9398 9423 1 (26);
   CR 11264 11311 1 (48); CR 11360 11360 1 (1); CR 11362 11362 1 (-10743);
   CR 11363 11363 1 (-3814); CR 11364 11364 1 (-10727); CR 11367 11371 2 (1);
   CR 11373 11373 1 (-10780); CR 11374 11374 1 (-10749); CR 11375 11375 1 (-10783);
   CR 11376 11376 1 (-10782); CR 11378 11378 1 (1); CR 11381 11381 1 (1);
   CR 11390 11391 1 (-10815); CR 11392 11490 2 (1); CR 11499 11501 2 (1);
   CR 11506 11506 1 (1); CR 42560 42604 2 (1); CR 42624 42650 2 (1); CR 42786 42798 2 (1);
   CR 42802 42862 2 (1); CR 42873 42875 2 (1); CR 42877 42877 1 (-35332);
   CR 42878 42886 2 (1); CR 42891 42891 1 (1); CR 42893 42893 1 (-42280);
   CR 42896 42898 2 (1); CR 42902 42920 2 (1); CR 42922 42922 1 (-42308);
   CR 42923 42923 1 (-42319); CR 42924 42924 1 (-42315); CR 42925 42925 1 (-42305);
   CR 42926 42926 1 (-42308); CR 42928 42928 1 (-42258); CR 42929 42929 1 (-42282);
   CR 42930 42930 1 (-42261); CR 42931 42931 1 (928); CR 42932 42946 2 (1);
   CR 42948 42948 1 (-48); CR 42949 42949 1 (-42307); CR 42950 42950 1 (-35384);
   CR 42951 42953 2 (1); CR 42960 42960 1 (1); CR 42966 42968 2 (1); CR 42997 42997 1 (1);
   CR 43888 43967 1 (-38864); CR 65313 65338 1 (32); CR 66560 66599 1 (40);
   CR 66736 66771 1 (40); CR 66928 66938 1 (39); CR 66940 66954 1 (39);
   CR 66956 66962 1 (39); CR 66964 66965 1 (39); CR 68736 68786 1 (64);
   CR 71840 71871 1 (32); CR 93760 93791 1 (32); CR 125184 125217 1 (34)].

(** [unicode.Cyrillic], the script table. *)
Definition cyrillic_ranges : list (N * N) :=
  [(1024,1156); (1159,1327); (7296,7304); (7467,7467); (7544,7544);
   (11744,11775); (42560,42655); (65070,65071); (122928,122989); (123023,123023)]%N.

(** The Unicode property White_Space, as [unicode.IsSpace] tests it. *)
Definition space_ranges : list (N * N) :=
  [(9,13); (32,32); (133,133); (160,160); (5760,5760); (8192,8202);
   (8232,8233); (8239,8239); (8287,8287); (12288,12288)]%N.

(** Tables are sorted: the search stops at the first range above the rune. *)
Fixpoint in_ranges (rs : list (N * N)) (r : N) : bool :=
  match rs with
  | [] => false
  | (lo, hi) :: rs' =>
      if N.ltb r lo then false else if N.leb r hi then true else in_ranges rs' r
  end.

Definition is_letter (r : N) : bool := in_ranges letter_ranges r.
Definition is_digit (r : N) : bool := in_ranges digit_ranges r.
Definition is_space (r : N) : bool := in_ranges space_ranges r.
Definition is_cyrillic (r : N) : bool := in_ranges cyrillic_ranges r.

Definition cr_hit (c : case_range) (r : N) : bool :=
  let 'CR lo hi stride _ := c in
  N.leb lo r && N.leb r hi && N.eqb ((r - lo) `mod` stride) 0.

Fixpoint case_map (t : list case_range) (r : N) : N :=
  match t with
  | [] => r
  | (CR lo hi stride delta) as c :: t' =>
      if cr_hit c r then Z.to_N (Z.of_N r + delta) else case_map t' r
  end.

(** [unicode.ToLower], with its ASCII fast path. *)
Definition rune_to_lower (r : N) : N :=
  if N.ltb r 128
  then (if N.leb 65 r && N.leb r 90 then r + 32 else r)%N
  else case_map lower_ranges r.

Definition rune_to_upper (r : N) : N :=
  if N.ltb r 128
  then (if N.leb 97 r && N.leb r 122 then r - 32 else r)%N
  else case_map upper_ranges r.

(** Representative of the [SimpleFold] orbit of a rune. *)
Definition rune_fold (r : N) : N := case_map fold_ranges r.

(** The other members of the orbit with a given representative. *)
Fixpoint fold_preimages (t : list case_range) (f : N) : list N :=
  match t with
  | [] => []
  | (CR lo hi stride delta) as c :: t' =>
      let x := Z.to_N (Z.of_N f - delta) in
      if cr_hit c x then x :: fold_preimages t' f else fold_preimages t' f
  end.

(** All runes that [SimpleFold] iterates through from [r]. *)
Definition fold_orbit (r : N) : list N :=
  let f := rune_fold r in f :: fold_preimages fold_ranges f.

(** The ASCII letter and digit rules the tables start with. *)
Lemma is_letter_lower_ascii (r : N) :
  (97 ≤ r ≤ 122)%N → is_letter r = true.
Proof.
  intros [H1 H2]. unfold is_letter. simpl.
  rewrite (proj2 (N.ltb_ge r 65)) by lia. rewrite (proj2 (N.leb_gt r 90)) by lia.
  rewrite (proj2 (N.ltb_ge r 97)) by lia. rewrite (proj2 (N.leb_le r 122)) by lia.
  done.
Qed.

(** Lower-casing a rune twice is lower-casing it once: no rune of the image of
    the table is itself mapped. *)
Definition case_range_runes (c : case_range) : list N :=
  let 'CR lo hi stride _ := c in
  (λ k, lo + N.of_nat k * stride)%N
    <$> seq 0 (S (N.to_nat ((hi - lo) / stride))).

Definition table_runes : list N := lower_ranges ≫= case_range_runes.

Lemma cr_hit_runes (c : case_range) (r : N) :
  cr_hit c r = true → r ∈ case_range_runes c.
Proof.
  destruct c as [lo hi stride delta]. unfold cr_hit. intros H.
  bool_to_prop. destruct (N.eq_dec stride 0%N) as [->|Hs].
  - rewrite N.mod_0_r in H0. apply list_elem_of_fmap. exists 0%nat.
    split; [lia|]. apply elem_of_seq.
    generalize ((hi - lo) / 0)%N. lia.
  - apply list_elem_of_fmap. exists (N.to_nat ((r - lo) / stride)).
    pose proof (N.div_mod (r - lo) stride Hs) as Hd. rewrite H0 in Hd.
    split; [lia|]. apply elem_of_seq.
    pose proof (N.Div0.div_le_mono (r - lo) (hi - lo) stride). lia.
Qed.

Lemma case_map_or (t : list case_range) (r : N) :
  case_map t r = r ∨ r ∈ t ≫= case_range_runes.
Proof.
  induction t as [|[lo hi stride delta] t IH]; [by left|]. cbn [case_map].
  destruct (cr_hit _ r) eqn:E.
  - right. apply list_elem_of_bind. eexists. split; [|by apply list_elem_of_here].
    by apply cr_hit_runes in E.
  - destruct IH as [?|H]; [by left|]. right. apply list_elem_of_bind in H as (c & ? & ?).
    apply list_elem_of_bind. exists c. split; [done|]. by apply list_elem_of_further.
Qed.

Lemma table_runes_lower_idemp :
  forallb (λ r, N.eqb (rune_to_lower (rune_to_lower r)) (rune_to_lower r))
    table_runes = true.
Proof. vm_compute. reflexivity. Qed.

Lemma rune_to_lower_idemp (r : N) :
  rune_to_lower (rune_to_lower r) = rune_to_lower r.
Proof.
  destruct (N.ltb r 128) eqn:E.
  - unfold rune_to_lower at 2 3. rewrite E.
    destruct (N.leb 65 r && N.leb r 90) eqn:E2; bool_to_prop;
      unfold rune_to_lower.
    + rewrite (proj2 (N.ltb_lt (r + 32) 128)) by lia.
      by rewrite (proj2 (N.leb_gt (r + 32) 90)), andb_false_r by lia.
    + rewrite (proj2 (N.ltb_lt r 128)) by lia. by rewrite E2.
  - destruct (case_map_or lower_ranges r) as [H|H].
    + assert (rune_to_lower r = r) as Hr by (unfold rune_to_lower; by rewrite E).
      by rewrite !Hr.
    + pose proof table_runes_lower_idemp as T. rewrite forallb_forall in T.
      apply N.eqb_eq, T. by apply list_elem_of_In.
Qed.

#[global] Arguments is_letter : simpl never.
#[global] Arguments is_digit : simpl never.
#[global] Arguments is_space : simpl never.
#[global] Arguments is_cyrillic : simpl never.
#[global] Arguments rune_to_lower : simpl never.
#[global] Arguments rune_to_upper : simpl never.
#[global] Arguments rune_fold : simpl never.
#[global] Arguments fold_orbit : simpl never.
