(* ===== verification/GoStrings.v ===== *)
(** Go strings: byte sequences ([string] of the Standard Library), their UTF-8
    decoding as [unicode/utf8] does it (an invalid byte decodes to U+FFFD of
    width one), and the functions of package [strings] and [strconv] that the
    program calls.  Byte offsets are [nat]. *)
From Stdlib Require Export Ascii.
From S2P Require Import Prelude Unicode.
From stdpp Require Export pretty.

#[global] Arguments String.append !_ _ : simpl nomatch.

Open Scope string_scope.
Open Scope list_scope.

(** ** Bytes and runes *)

Definition code (a : ascii) : N := Ascii.N_of_ascii a.
Definition byte_of (n : N) : ascii := Ascii.ascii_of_N n.
Definition rune_error : N := 65533.

(** A decoded rune with the bytes it was decoded from. *)
Record chunk := Chunk { ck_rune : N; ck_bytes : string }.

Definition between (lo hi x : N) : bool := N.leb lo x && N.leb x hi.

(** Accept range of the second byte ([utf8.acceptRanges]). *)
Definition lo2 (b0 : N) : N :=
  if N.eqb b0 224 then 160 else if N.eqb b0 240 then 144 else 128.
Definition hi2 (b0 : N) : N :=
  if N.eqb b0 237 then 159 else if N.eqb b0 244 then 143 else 191.

(** [for i, r := range s]. *)
Fixpoint chunks (s : string) : list chunk :=
  match s with
  | EmptyString => []
  | String a s1 =>
      let b0 := code a in
      if N.ltb b0 128 then Chunk b0 (String a estr) :: chunks s1
      else if between 194 223 b0 then
        match s1 with
        | String b s2 =>
            if between 128 191 (code b)
            then Chunk ((b0 - 192) * 64 + (code b - 128)) (String a (String b estr)) :: chunks s2
            else Chunk rune_error (String a estr) :: chunks s1
        | EmptyString => [Chunk rune_error (String a estr)]
        end
      else if between 224 239 b0 then
        match s1 with
        | String b (String c s3) =>
            if between (lo2 b0) (hi2 b0) (code b) && between 128 191 (code c)
            then Chunk ((b0 - 224) * 4096 + (code b - 128) * 64 + (code c - 128))
                   (String a (String b (String c estr))) :: chunks s3
            else Chunk rune_error (String a estr) :: chunks s1
        | _ => Chunk rune_error (String a estr) :: chunks s1
        end
      else if between 240 244 b0 then
        match s1 with
        | String b (String c (String d s4)) =>
            if between (lo2 b0) (hi2 b0) (code b) && between 128 191 (code c)
               && between 128 191 (code d)
            then Chunk ((b0 - 240) * 262144 + (code b - 128) * 4096
                        + (code c - 128) * 64 + (code d - 128))
                   (String a (String b (String c (String d estr)))) :: chunks s4
            else Chunk rune_error (String a estr) :: chunks s1
        | _ => Chunk rune_error (String a estr) :: chunks s1
        end
      else Chunk rune_error (String a estr) :: chunks s1
  end%N.

Fixpoint concat_chunks (l : list chunk) : string :=
  match l with
  | [] => estr
  | c :: l' => ck_bytes c +:+ concat_chunks l'
  end.

Definition runes (s : string) : list N := ck_rune <$> chunks s.

(** [len([]rune(s))]. *)
Definition rune_len (s : string) : Z := Z.of_nat (length (runes s)).

Definition valid_rune (r : N) : bool :=
  N.ltb r 55296 || (N.leb 57344 r && N.leb r 1114111).

(** [utf8.AppendRune]. *)
Definition encode_rune (r : N) : string :=
  let r := if valid_rune r then r else rune_error in
  (if N.ltb r 128 then String (byte_of r) estr
   else if N.ltb r 2048 then
     String (byte_of (192 + r / 64)) (String (byte_of (128 + r mod 64)) estr)
   else if N.ltb r 65536 then
     String (byte_of (224 + r / 4096)) (String (byte_of (128 + (r / 64) mod 64))
       (String (byte_of (128 + r mod 64)) estr))
   else
     String (byte_of (240 + r / 262144)) (String (byte_of (128 + (r / 4096) mod 64))
       (String (byte_of (128 + (r / 64) mod 64)) (String (byte_of (128 + r mod 64)) estr))))%N.

Definition encode (l : list N) : string := foldr (λ r s, encode_rune r +:+ s) estr l.

(** ** Package strings *)

(** [len(s)]. *)
Definition slen (s : string) : nat := String.length s.

(** [s[n:]] and [s[:n]] for an offset in range. *)
Fixpoint sdrop (n : nat) (s : string) : string :=
  match n, s with
  | O, _ => s
  | S n', String _ s' => sdrop n' s'
  | S _, EmptyString => estr
  end.

Fixpoint stake (n : nat) (s : string) : string :=
  match n, s with
  | O, _ => estr
  | S n', String a s' => String a (stake n' s')
  | S _, EmptyString => estr
  end.

Fixpoint prefixb (p s : string) : bool :=
  match p, s with
  | EmptyString, _ => true
  | String a p', String b s' => Ascii.eqb a b && prefixb p' s'
  | String _ _, EmptyString => false
  end.

Definition HasPrefix (s p : string) : bool := prefixb p s.
Definition HasSuffix (s p : string) : bool :=
  Nat.leb (slen p) (slen s) && String.eqb (sdrop (slen s - slen p) s) p.

Definition TrimPrefix (s p : string) : string :=
  if HasPrefix s p then sdrop (slen p) s else s.
Definition TrimSuffix (s p : string) : string :=
  if HasSuffix s p then stake (slen s - slen p) s else s.

(** [strings.Index]; [None] stands for -1. *)
Fixpoint Index (s sub : string) : option nat :=
  if prefixb sub s then Some O
  else match s with
       | EmptyString => None
       | String _ s' => S <$> Index s' sub
       end.

Fixpoint Contains (s sub : string) : bool :=
  prefixb sub s ||
  match s with EmptyString => false | String _ s' => Contains s' sub end.

(** [strings.LastIndex]. *)
Fixpoint LastIndex (s sub : string) : option nat :=
  match s with
  | EmptyString => if prefixb sub s then Some O else None
  | String _ s' =>
      match LastIndex s' sub with
      | Some n => Some (S n)
      | None => if prefixb sub s then Some O else None
      end
  end.

Definition to_lower_runes (l : list N) : string := encode (rune_to_lower <$> l).
Definition ToLower (s : string) : string := to_lower_runes (runes s).
Definition ToUpper (s : string) : string := encode (rune_to_upper <$> runes s).

Definition space_chunk (c : chunk) : bool := is_space (ck_rune c).
Definition TrimSpace (s : string) : string :=
  concat_chunks (drop_while_end space_chunk (drop_while space_chunk (chunks s))).

(** [strings.Trim(s, cutset)] for a one-rune ASCII cutset. *)
Definition TrimByte (s : string) (r : N) : string :=
  concat_chunks (drop_while_end (λ c, N.eqb (ck_rune c) r)
    (drop_while (λ c, N.eqb (ck_rune c) r) (chunks s))).

Definition EqualFold (s t : string) : bool :=
  bool_decide (rune_fold <$> runes s = rune_fold <$> runes t).

(** [strings.FieldsFunc]; [strings.Fields] splits at white space. *)
Fixpoint fields_from (f : N → bool) (cur : string) (l : list chunk) : list string :=
  match l with
  | [] => if String.eqb cur estr then [] else [cur]
  | c :: l' =>
      if f (ck_rune c)
      then if String.eqb cur estr then fields_from f estr l'
           else cur :: fields_from f estr l'
      else fields_from f (cur +:+ ck_bytes c) l'
  end.
Definition FieldsFunc (s : string) (f : N → bool) : list string :=
  fields_from f estr (chunks s).
Definition Fields (s : string) : list string := FieldsFunc s is_space.

Fixpoint Join (l : list string) (sep : string) : string :=
  match l with
  | [] => estr
  | [x] => x
  | x :: l' => x +:+ sep +:+ Join l' sep
  end.

(** [strings.Split], [strings.ReplaceAll] and [strings.Count] for a non-empty
    separator: one pass over the bytes; [skip] bytes of a match remain to be
    skipped. *)
Fixpoint split_from (sep s : string) (skip : nat) (cur : string) : list string :=
  match s with
  | EmptyString => [cur]
  | String a s' =>
      match skip with
      | S k => split_from sep s' k cur
      | O => if prefixb sep s
             then cur :: split_from sep s' (slen sep - 1) estr
             else split_from sep s' O (cur +:+ String a estr)
      end
  end.
Definition Split (s sep : string) : list string := split_from sep s O estr.
Definition ReplaceAll (s old new : string) : string := Join (Split s old) new.
Definition Count (s sub : string) : Z := Z.of_nat (length (Split s sub)) - 1.

(** ** Package strconv *)

Definition Itoa (z : Z) : string := pretty z.

Definition digit_val (a : ascii) : option Z :=
  let n := code a in
  if between 48 57 n then Some (Z.of_N n - 48)%Z else None.

Fixpoint atoi_digits (acc : Z) (s : string) : option Z :=
  match s with
  | EmptyString => Some acc
  | String a s' =>
      match digit_val a with
      | Some d => atoi_digits (acc * 10 + d) s'
      | None => None
      end
  end.

(** [strconv.Atoi]: [None] stands for an error (syntax or range). *)
Definition Atoi (s : string) : option Z :=
  let '(neg, ds) :=
    match s with
    | String a s' =>
        if N.eqb (code a) 45 then (true, s')
        else if N.eqb (code a) 43 then (false, s') else (false, s)
    | EmptyString => (false, s)
    end in
  match ds with
  | EmptyString => None
  | _ =>
      match atoi_digits 0 ds with
      | Some v =>
          let v := if neg : bool then (- v)%Z else v in
          if Z.leb min_int64 v && Z.leb v max_int64 then Some v else None
      | None => None
      end
  end.

(** A double quote, for the literals that contain one. *)
Definition dq : string := String (byte_of 34) estr.

(** [slices.Contains] on strings, and membership in a Go set literal. *)
Definition mem (x : string) (l : list string) : bool := existsb (String.eqb x) l.

(** Whether any of the phrases occurs in the text. *)
Definition contains_any (s : string) (l : list string) : bool :=
  existsb (Contains s) l.

Definition has_any_prefix (s : string) (l : list string) : bool :=
  existsb (HasPrefix s) l.

(** ** Facts: offsets, prefixes, containment *)

Section offsets.
Implicit Types (s t p : string) (n : nat).

Lemma app_nil_r_s s : s +:+ estr = s.
Proof. induction s; simpl; congruence. Qed.

Lemma app_assoc_s s t p : s +:+ (t +:+ p) = (s +:+ t) +:+ p.
Proof. induction s; simpl; congruence. Qed.

Lemma slen_app s t : slen (s +:+ t) = slen s + slen t.
Proof. unfold slen. induction s; simpl; congruence. Qed.

Lemma stake_sdrop n s : stake n s +:+ sdrop n s = s.
Proof. revert s. induction n; intros [|a s]; simpl; congruence. Qed.

Lemma slen_stake n s : slen (stake n s) = n `min` slen s.
Proof. unfold slen. revert s. induction n; intros [|a s]; simpl; auto. Qed.

Lemma slen_sdrop n s : slen (sdrop n s) = slen s - n.
Proof. unfold slen. revert s. induction n; intros [|a s]; simpl; auto. Qed.

Lemma sdrop_app s t : sdrop (slen s) (s +:+ t) = t.
Proof. unfold slen. induction s; simpl; auto. Qed.

Lemma stake_app s t : stake (slen s) (s +:+ t) = s.
Proof. unfold slen. induction s; simpl; congruence. Qed.

Lemma stake_all s : stake (slen s) s = s.
Proof. unfold slen. induction s; simpl; congruence. Qed.

Lemma prefixb_spec p s : prefixb p s = true ↔ ∃ t, s = p +:+ t.
Proof.
  revert s. induction p as [|a p IH]; intros s; simpl; [naive_solver|].
  destruct s as [|b s]; [naive_solver|].
  rewrite andb_true_iff, IH, Ascii.eqb_eq. naive_solver.
Qed.

Lemma prefixb_app p t : prefixb p (p +:+ t) = true.
Proof. apply prefixb_spec. eauto. Qed.

Lemma HasPrefix_spec s p : HasPrefix s p = true ↔ s = p +:+ sdrop (slen p) s.
Proof.
  unfold HasPrefix. rewrite prefixb_spec. split; [|eauto].
  intros [t ->]. by rewrite sdrop_app.
Qed.

Lemma TrimPrefix_app p t : TrimPrefix (p +:+ t) p = t.
Proof. unfold TrimPrefix, HasPrefix. by rewrite prefixb_app, sdrop_app. Qed.

Lemma Contains_spec s p :
  Contains s p = true ↔ ∃ a b, s = a +:+ p +:+ b.
Proof.
  induction s as [|x s IH]; cbn [Contains]; rewrite orb_true_iff, prefixb_spec.
  - split.
    + intros [[t Ht]|?]; [|done]. by exists estr, t.
    + intros (a & b & H). left. destruct a; [|done]. by exists b.
  - rewrite IH. split.
    + intros [[t Ht]|(a & b & ->)]; [by exists estr, t|].
      by exists (String x a), b.
    + intros ([|y a] & b & H); simpl in H; [left; eauto|].
      injection H as -> ->. right. eauto.
Qed.

Lemma Contains_empty s : Contains s estr = true.
Proof. destruct s; done. Qed.

Lemma Contains_app_l s t p : Contains s p = true → Contains (s +:+ t) p = true.
Proof.
  rewrite !Contains_spec. intros (a & b & ->). exists a, (b +:+ t).
  by rewrite !app_assoc_s.
Qed.

Lemma Contains_app_r s t p : Contains t p = true → Contains (s +:+ t) p = true.
Proof.
  rewrite !Contains_spec. intros (a & b & ->). exists (s +:+ a), b.
  by rewrite !app_assoc_s.
Qed.

Lemma Contains_trans s t p :
  Contains s t = true → Contains t p = true → Contains s p = true.
Proof.
  intros (a & b & ->)%Contains_spec H.
  by apply Contains_app_r, Contains_app_l.
Qed.

Lemma Contains_len s p : Contains s p = true → (slen p ≤ slen s)%nat.
Proof. intros (a & b & ->)%Contains_spec. rewrite !slen_app. lia. Qed.

Lemma Index_None s p : Index s p = None ↔ Contains s p = false.
Proof.
  induction s as [|x s IH]; cbn [Index Contains]; destruct (prefixb p _) eqn:E;
    try done.
  cbn [orb]. rewrite <- IH. by destruct (Index s p).
Qed.

Lemma Index_Some s p n :
  Index s p = Some n → s = stake n s +:+ p +:+ sdrop (n + slen p) s.
Proof.
  revert n. induction s as [|x s IH]; intros n; cbn [Index];
    destruct (prefixb p _) eqn:E; intros H; try discriminate H.
  - injection H as <-. apply prefixb_spec in E as [t Ht]. destruct p; [|done].
    done.
  - injection H as <-. apply prefixb_spec in E as [t Ht]. rewrite Ht. simpl.
    by rewrite sdrop_app.
  - destruct (Index s p) as [m|]; simplify_eq/=. f_equal. by apply IH.
Qed.

Lemma Index_bound s p n : Index s p = Some n → (n + slen p ≤ slen s)%nat.
Proof.
  intros H. apply Index_Some in H as E. apply (f_equal slen) in E.
  rewrite !slen_app, slen_stake in E.
  assert (n ≤ slen s)%nat as Hn; [|lia].
  clear E. revert n H. unfold slen.
  induction s as [|x s IH]; intros n; cbn [Index]; destruct (prefixb p _);
    intros H; simplify_eq/=; try lia.
  destruct (Index s p) as [m|]; simplify_eq/=. specialize (IH _ eq_refl). lia.
Qed.

Lemma contains_any_elem s l :
  contains_any s l = true ↔ ∃ p, p ∈ l ∧ Contains s p = true.
Proof. apply existsb_elem. Qed.

Lemma contains_any_app_r s t l :
  contains_any t l = true → contains_any (s +:+ t) l = true.
Proof.
  rewrite !contains_any_elem. intros (p & ? & ?). eauto using Contains_app_r.
Qed.

Lemma contains_any_app_l s t l :
  contains_any s l = true → contains_any (s +:+ t) l = true.
Proof.
  rewrite !contains_any_elem. intros (p & ? & ?). eauto using Contains_app_l.
Qed.

Lemma mem_spec x l : mem x l = true ↔ x ∈ l.
Proof.
  unfold mem. rewrite existsb_elem. split.
  - intros (y & ? & ->%String.eqb_eq). done.
  - intros H. exists x. by rewrite String.eqb_refl.
Qed.
End offsets.

#[export] Hint Resolve Contains_empty Contains_app_l Contains_app_r
  contains_any_app_l contains_any_app_r : golib.
Create Rewrite HintDb gostr.
#[export] Hint Rewrite app_nil_r_s slen_app sdrop_app stake_app : gostr.
