(* ===== verification/Utf8Facts.v ===== *)
(** Facts about the UTF-8 decoding of [GoStrings]: decoding a string and
    concatenating the pieces gives the string back, a run of decoded pieces
    decodes to itself, encoding and decoding are inverse on valid runes.  From
    these follow the idempotence of [TrimSpace] and [ToLower], which the
    normalisation functions of the program rest on. *)
From S2P Require Import Prelude Unicode GoStrings.

(** One decoding step. *)
Definition decode1 (s : string) : option chunk := head (chunks s).

Lemma chunks_cons (a : ascii) (s : string) :
  ∃ c s', chunks (String a s) = c :: chunks s'
    ∧ String a s = ck_bytes c +:+ s' ∧ (slen s' ≤ slen s)%nat.
Proof.
  assert (∃ c s', chunks (String a s) = c :: chunks s'
    ∧ String a s = ck_bytes c +:+ s' ∧ (slen s' ≤ slen s)%nat) as H; [|done].
  cbn [chunks]. unfold slen.
  repeat (case_match; simplify_eq);
    match goal with
    | |- ∃ _ _, ?c :: chunks ?s' = _ ∧ _ => exists c, s'
    | |- ∃ _ _, [?c] = _ ∧ _ => exists c, estr
    end; simpl; repeat split; auto with arith.
Qed.

Lemma string_slen_ind (P : string → Prop) :
  (∀ s, (∀ t, (slen t < slen s)%nat → P t) → P s) → ∀ s, P s.
Proof.
  intros H s. remember (slen s) as n eqn:E. revert s E.
  induction n as [n IH] using lt_wf_ind. intros s ->. apply H.
  intros t Ht. by apply (IH (slen t)).
Qed.

Lemma concat_chunks_chunks (s : string) : concat_chunks (chunks s) = s.
Proof.
  induction s as [[|a s] IH] using string_slen_ind; [done|].
  destruct (chunks_cons a s) as (c & s' & -> & E & Hl). simpl.
  rewrite IH by (unfold slen in *; simpl; lia). done.
Qed.

Lemma concat_chunks_app (l1 l2 : list chunk) :
  concat_chunks (l1 ++ l2) = concat_chunks l1 +:+ concat_chunks l2.
Proof. induction l1 as [|c l1 IH]; simpl; [done|]. by rewrite IH, app_assoc_s. Qed.

(** A list of chunks that decodes to itself. *)
Definition decoded (l : list chunk) : Prop := chunks (concat_chunks l) = l.

Lemma decoded_chunks (s : string) : decoded (chunks s).
Proof. unfold decoded. by rewrite concat_chunks_chunks. Qed.

Lemma app_inj_s (b s t : string) : b +:+ s = b +:+ t → s = t.
Proof. induction b as [|x b IH]; simpl; [done|]. intros [= H]. auto. Qed.

Lemma decoded_tail (c : chunk) (l : list chunk) : decoded (c :: l) → decoded l.
Proof.
  unfold decoded. simpl. intros H.
  destruct (ck_bytes c +:+ concat_chunks l) as [|a s] eqn:E; [done|].
  destruct (chunks_cons a s) as (c' & s' & Hc & E' & _).
  rewrite Hc in H. injection H as -> H. rewrite E' in E.
  apply app_inj_s in E. by rewrite E.
Qed.

Lemma decoded_suffix (l1 l2 : list chunk) : decoded (l1 ++ l2) → decoded l2.
Proof. induction l1 as [|c l1 IH]; [done|]. intros H. by apply IH, (decoded_tail c). Qed.

(** A decoded piece is either self-delimiting or a single invalid byte. *)
Lemma chunks_piece (a : ascii) (s : string) :
  ∃ c s', chunks (String a s) = c :: chunks s' ∧ String a s = ck_bytes c +:+ s'
    ∧ ((∀ w, chunks (ck_bytes c +:+ w) = c :: chunks w)
       ∨ c = Chunk rune_error (String a estr)).
Proof.
  cbn [chunks].
  repeat (case_match; simplify_eq);
    match goal with
    | |- ∃ _ _, ?c :: chunks ?s' = _ ∧ _ => exists c, s'
    | |- ∃ _ _, [?c] = _ ∧ _ => exists c, estr
    end; (split; [done|]; split; [done|]);
    first [ right; reflexivity
          | left; intros w; cbn [ck_bytes String.append chunks];
            repeat match goal with
            | H : ?b = true |- context [if ?b then _ else _] => rewrite H
            | H : ?b = false |- context [if ?b then _ else _] => rewrite H
            end; reflexivity ].
Qed.

(** An invalid byte stays invalid when less text follows it. *)
Lemma chunks_error_cut (a : ascii) (w r : string) :
  chunks (String a (w +:+ r)) = Chunk rune_error (String a estr) :: chunks (w +:+ r) →
  chunks (String a w) = Chunk rune_error (String a estr) :: chunks w.
Proof.
  intros H. assert (N.ltb (code a) 128 = false) as Ha.
  { apply N.ltb_ge. destruct (N.lt_ge_cases (code a) 128) as [Hlt|]; [|done].
    cbn [chunks] in H. rewrite (proj2 (N.ltb_lt _ _) Hlt) in H.
    injection H as H. unfold rune_error in H. lia. }
  revert H. cbn [chunks]. rewrite Ha.
  destruct w as [|x [|y [|z w]]]; cbn [String.append].
  - intros _. repeat case_match; done.
  - intros H. repeat (case_match; try done).
  - intros H. repeat (case_match; try done).
  - intros H. repeat (case_match; try done).
Qed.

Lemma decoded_prefix (l1 l2 : list chunk) : decoded (l1 ++ l2) → decoded l1.
Proof.
  induction l1 as [|c l1 IH]; [done|]. intros H.
  pose proof (decoded_tail _ _ H) as Ht. specialize (IH Ht).
  unfold decoded in *. simpl in H |- *. rewrite concat_chunks_app in H.
  destruct (ck_bytes c +:+ concat_chunks l1 +:+ concat_chunks l2) as [|a s] eqn:E;
    [done|].
  destruct (chunks_piece a s) as (c' & s' & Hc & E' & Hor).
  rewrite Hc in H. injection H as -> H. destruct Hor as [Hor|Hor].
  - by rewrite Hor, IH.
  - subst c. cbn [ck_bytes String.append] in *. injection E as E. subst s. injection E' as E'.
    rewrite (chunks_error_cut a _ (concat_chunks l2)); [by rewrite IH|].
    by rewrite Hc, E'.
Qed.

Lemma decoded_drop_while (f : chunk → bool) (l : list chunk) :
  decoded l → decoded (drop_while f l).
Proof.
  destruct (drop_while_suffix f l) as [k Hk]. rewrite Hk at 1. apply decoded_suffix.
Qed.

Lemma decoded_drop_while_end (f : chunk → bool) (l : list chunk) :
  decoded l → decoded (drop_while_end f l).
Proof.
  unfold drop_while_end. destruct (drop_while_suffix f (reverse l)) as [k Hk].
  intros H. apply (decoded_prefix _ (reverse k)).
  rewrite <- reverse_app, <- Hk. by rewrite reverse_involutive.
Qed.

(** ** TrimSpace *)

Lemma chunks_TrimSpace (s : string) :
  chunks (TrimSpace s) = drop_while_end space_chunk (drop_while space_chunk (chunks s)).
Proof. apply decoded_drop_while_end, decoded_drop_while, decoded_chunks. Qed.

Lemma drop_while_end_head (f : chunk → bool) (l : list chunk) :
  drop_while f l = l → drop_while f (drop_while_end f l) = drop_while_end f l.
Proof.
  unfold drop_while_end. intros H.
  destruct (drop_while_suffix f (reverse l)) as [k Hk].
  apply (f_equal reverse) in Hk. rewrite reverse_involutive, reverse_app in Hk.
  destruct (reverse (drop_while f (reverse l))) as [|x m] eqn:E; [done|].
  rewrite Hk in H. simpl in H |- *. destruct (f x) eqn:Ex; [|done].
  exfalso. apply (f_equal length) in H.
  pose proof (suffix_length _ _ (drop_while_suffix f (m ++ reverse k))).
  simpl in H. lia.
Qed.

Lemma TrimSpace_idemp (s : string) : TrimSpace (TrimSpace s) = TrimSpace s.
Proof.
  unfold TrimSpace at 1. rewrite chunks_TrimSpace.
  rewrite drop_while_end_head by apply drop_while_idemp.
  unfold drop_while_end at 1 2. by rewrite reverse_involutive, drop_while_idemp.
Qed.

(** ** Encoding and decoding *)

Lemma code_byte_of (n : N) : (n < 256)%N → code (byte_of n) = n.
Proof. intros H. apply Ascii.N_ascii_embedding, H. Qed.

Lemma valid_rune_spec (r : N) :
  valid_rune r = true ↔ (r < 55296 ∨ 57344 ≤ r ≤ 1114111)%N.
Proof. unfold valid_rune. rewrite orb_true_iff, andb_true_iff, N.ltb_lt, !N.leb_le. lia. Qed.

Lemma between_spec (lo hi x : N) : between lo hi x = true ↔ (lo ≤ x ≤ hi)%N.
Proof. unfold between. rewrite andb_true_iff, !N.leb_le. done. Qed.

Lemma between_false (lo hi x : N) : (x < lo ∨ hi < x)%N → between lo hi x = false.
Proof. intros H. apply not_true_iff_false. rewrite between_spec. lia. Qed.

(** Decides the comparisons of the decoder from arithmetic facts. *)
Ltac decide_cmp :=
  repeat match goal with
  | |- context [N.ltb ?a ?b] =>
      first [ rewrite (proj2 (N.ltb_lt a b)) by lia
            | rewrite (proj2 (N.ltb_ge a b)) by lia ]
  | |- context [N.eqb ?a ?b] =>
      first [ rewrite (proj2 (N.eqb_neq a b)) by lia
            | rewrite (proj2 (N.eqb_eq a b)) by lia ]
  | |- context [between ?a ?b ?c] =>
      first [ rewrite (proj2 (between_spec a b c)) by lia
            | rewrite (between_false a b c) by lia ]
  end.

Section encode_decode.
Local Open Scope N_scope.

Lemma mod_64_bound (r : N) : r `mod` 64 < 64.
Proof. apply N.mod_lt. done. Qed.

Lemma chunks_encode_1 r s : r < 128 →
  chunks (String (byte_of r) s) = Chunk r (String (byte_of r) estr) :: chunks s.
Proof. intros H. cbn [chunks]. rewrite code_byte_of by lia. decide_cmp. done. Qed.

Lemma chunks_encode_2 x y s : 2 ≤ x < 32 → y < 64 →
  chunks (String (byte_of (192 + x)) (String (byte_of (128 + y)) s))
  = Chunk (x * 64 + y) (String (byte_of (192 + x)) (String (byte_of (128 + y)) estr))
    :: chunks s.
Proof.
  intros Hx Hy. cbn [chunks]. rewrite !code_byte_of by lia. decide_cmp.
  do 2 f_equal. lia.
Qed.

Lemma chunks_encode_3 x y z s :
  x < 16 → y < 64 → z < 64 → (x = 0 → 32 ≤ y) → (x = 13 → y < 32) →
  chunks (String (byte_of (224 + x)) (String (byte_of (128 + y))
    (String (byte_of (128 + z)) s)))
  = Chunk (x * 4096 + y * 64 + z)
      (String (byte_of (224 + x)) (String (byte_of (128 + y))
         (String (byte_of (128 + z)) estr))) :: chunks s.
Proof.
  intros Hx Hy Hz H0 H13. cbn [chunks]. rewrite !code_byte_of by lia.
  assert (between (lo2 (224 + x)) (hi2 (224 + x)) (128 + y) = true) as ->.
  { apply between_spec. unfold lo2, hi2.
    repeat case_match; bool_to_prop; lia. }
  decide_cmp. cbn [andb]. do 2 f_equal. lia.
Qed.

Lemma chunks_encode_4 x y z w s :
  x < 5 → y < 64 → z < 64 → w < 64 → (x = 0 → 16 ≤ y) → (x = 4 → y < 16) →
  chunks (String (byte_of (240 + x)) (String (byte_of (128 + y))
    (String (byte_of (128 + z)) (String (byte_of (128 + w)) s))))
  = Chunk (x * 262144 + y * 4096 + z * 64 + w)
      (String (byte_of (240 + x)) (String (byte_of (128 + y))
         (String (byte_of (128 + z)) (String (byte_of (128 + w)) estr)))) :: chunks s.
Proof.
  intros Hx Hy Hz Hw H0 H4. cbn [chunks]. rewrite !code_byte_of by lia.
  assert (between (lo2 (240 + x)) (hi2 (240 + x)) (128 + y) = true) as ->.
  { apply between_spec. unfold lo2, hi2.
    repeat case_match; bool_to_prop; lia. }
  decide_cmp. cbn [andb]. do 2 f_equal. lia.
Qed.

Lemma chunks_encode r s :
  valid_rune r = true →
  chunks (encode_rune r +:+ s) = Chunk r (encode_rune r) :: chunks s.
Proof.
  intros Hv. unfold encode_rune. rewrite Hv. apply valid_rune_spec in Hv.
  pose proof (mod_64_bound r). pose proof (mod_64_bound (r / 64)).
  pose proof (mod_64_bound (r / 4096)).
  pose proof (N.div_mod r 64 ltac:(done)) as D1.
  pose proof (N.div_mod (r / 64) 64 ltac:(done)) as D2.
  pose proof (N.div_mod (r / 4096) 64 ltac:(done)) as D3.
  assert (r / 64 / 64 = r / 4096) as E2 by (by rewrite N.Div0.div_div).
  assert (r / 4096 / 64 = r / 262144) as E3 by (by rewrite N.Div0.div_div).
  rewrite E2 in D2. rewrite E3 in D3. clear E2 E3.
  set (q1 := r / 64) in *. set (m1 := r mod 64) in *. set (q2 := r / 4096) in *.
  set (m2 := q1 mod 64) in *. set (q3 := r / 262144) in *. set (m3 := q2 mod 64) in *.
  clearbody m3 q3 m2 q2 m1 q1.
  repeat case_match; bool_to_prop; cbn [String.append].
  - by apply chunks_encode_1.
  - rewrite chunks_encode_2 by lia. do 2 f_equal. lia.
  - rewrite chunks_encode_3 by lia. do 2 f_equal. lia.
  - rewrite chunks_encode_4 by lia. do 2 f_equal. lia.
Qed.
End encode_decode.

Lemma runes_encode (l : list N) :
  Forall (λ r, valid_rune r = true) l → runes (encode l) = l.
Proof.
  induction 1 as [|r l Hr _ IH]; [done|]. unfold runes.
  change (encode (r :: l)) with (encode_rune r +:+ encode l).
  rewrite chunks_encode by done. rewrite fmap_cons. by f_equal.
Qed.

(** Every decoded rune is a Unicode scalar value. *)
Lemma chunks_valid (s : string) : Forall (λ c, valid_rune (ck_rune c) = true) (chunks s).
Proof.
  induction s as [[|a s] IH] using string_slen_ind; [constructor|].
  destruct (chunks_cons a s) as (c & s' & Hc & E & Hl). rewrite Hc.
  constructor; [|apply IH; unfold slen in *; simpl; lia]. clear IH Hl E.
  assert (Hb : (code a < 256)%N) by apply Ascii.N_ascii_bounded.
  revert Hc. cbn [chunks].
  repeat (case_match; simplify_eq); intros Hc; injection Hc as <- _;
    simpl; try done; apply valid_rune_spec; bool_to_prop;
    repeat match goal with
    | H : between _ _ _ = true |- _ => apply between_spec in H
    end; unfold lo2, hi2 in *; repeat case_match; bool_to_prop; lia.
Qed.

Lemma runes_valid (s : string) : Forall (λ r, valid_rune r = true) (runes s).
Proof. unfold runes. apply Forall_fmap. apply chunks_valid. Qed.

(** ** ToLower *)

Lemma table_runes_lower_valid :
  forallb (λ r, implb (valid_rune r) (valid_rune (rune_to_lower r))) table_runes = true.
Proof. vm_compute. reflexivity. Qed.

Lemma rune_to_lower_valid (r : N) :
  valid_rune r = true → valid_rune (rune_to_lower r) = true.
Proof.
  intros Hv. destruct (N.ltb r 128) eqn:E.
  - unfold rune_to_lower. rewrite E. apply valid_rune_spec. bool_to_prop.
    case_match; bool_to_prop; lia.
  - destruct (case_map_or lower_ranges r) as [H|H].
    + unfold rune_to_lower. by rewrite E, H.
    + pose proof table_runes_lower_valid as T. rewrite forallb_forall in T.
      specialize (T r). rewrite Hv in T. apply T. by apply list_elem_of_In.
Qed.

Lemma runes_ToLower (s : string) : runes (ToLower s) = rune_to_lower <$> runes s.
Proof.
  unfold ToLower, to_lower_runes. apply runes_encode, Forall_fmap.
  eapply Forall_impl; [apply runes_valid|]. intros r. apply rune_to_lower_valid.
Qed.

Lemma ToLower_idemp (s : string) : ToLower (ToLower s) = ToLower s.
Proof.
  unfold ToLower at 1. rewrite runes_ToLower.
  unfold ToLower, to_lower_runes. f_equal. rewrite <- list_fmap_compose.
  apply list_fmap_ext. intros i r _. simpl. apply rune_to_lower_idemp.
Qed.

#[export] Hint Rewrite TrimSpace_idemp ToLower_idemp runes_ToLower : gostr.
