(* ===== verification/Regex.v ===== *)
(** Go's [regexp] package on the syntax the program uses: a parser of the RE2
    pattern text into an abstract syntax, and a matcher with leftmost-first
    (Perl) preference.  [MatchString], [FindString], [FindAllString],
    [FindAllStringSubmatch] and [ReplaceAllString] are defined from it.

    The flags [i] and [s] are compiled away by the parser: under [(?i)] a
    literal or a class stands for the closure of its runes under [SimpleFold].
    The word boundary of RE2 looks at ASCII word characters only. *)
From S2P Require Import Prelude Unicode GoStrings.

Open Scope string_scope.
Open Scope list_scope.

(** ** Syntax *)

Inductive re :=
  | Eps
  | Cls (neg : bool) (rs : list (N * N))
  | Seq (r s : re)
  | Alt (r s : re)
  | Star (greedy : bool) (r : re)
  | Cap (n : nat) (r : re)
  | Bol
  | Eol
  | WordB
  | NWordB.

Definition opt (greedy : bool) (r : re) : re :=
  if greedy then Alt r Eps else Alt Eps r.

(** [x{n,m}]: [n] copies, then [m - n] nested optional copies. *)
Fixpoint opt_chain (greedy : bool) (r : re) (k : nat) : re :=
  match k with O => Eps | S k' => opt greedy (Seq r (opt_chain greedy r k')) end.
Fixpoint copies (r : re) (n : nat) (tail : re) : re :=
  match n with O => tail | S n' => Seq r (copies r n' tail) end.

(** ** Classes *)

Definition member (rs : list (N * N)) (c : N) : bool :=
  existsb (λ '(lo, hi), between lo hi c) rs.

Definition digit_class : list (N * N) := [(48, 57)]%N.
Definition space_class : list (N * N) := [(9, 10); (12, 13); (32, 32)]%N.
Definition word_class : list (N * N) := [(48, 57); (65, 90); (95, 95); (97, 122)]%N.

Definition is_word (c : N) : bool := member word_class c.

(** Runes between two bounds. *)
Definition range_runes (lo hi : N) : list N :=
  (λ k, (lo + N.of_nat k)%N) <$> seq 0 (N.to_nat (hi + 1 - lo)).

Definition fold_class (rs : list (N * N)) : list (N * N) :=
  rs ++ ((rs ≫= λ '(lo, hi), range_runes lo hi ≫= fold_orbit) ≫= λ c, [(c, c)]).

(** ** Pattern parser *)

Section parser.
Variables (fi fs : bool).
Local Open Scope N_scope.

Definition fcls (neg : bool) (rs : list (N * N)) : re :=
  Cls neg (if fi then fold_class rs else rs).

Definition lit (c : N) : re :=
  Cls false (if fi then (λ x, (x, x)) <$> fold_orbit c else [(c, c)]).

(** Perl classes [\d \s \w]; [\D \S \W] are their complements (taken after
    folding) and are not used inside brackets. *)
Definition perl_class (c : N) : option (list (N * N)) :=
  if N.eqb c 100 then Some digit_class
  else if N.eqb c 115 then Some space_class
  else if N.eqb c 119 then Some word_class
  else None.

Definition neg_perl_class (c : N) : option (list (N * N)) :=
  if N.eqb c 68 then Some digit_class
  else if N.eqb c 83 then Some space_class
  else if N.eqb c 87 then Some word_class
  else None.

(** The digits of [\xHH], which names a code point. *)
Definition hex_val (c : N) : option N :=
  if between 48 57 c then Some (c - 48)
  else if between 65 70 c then Some (c - 55)
  else if between 97 102 c then Some (c - 87)
  else None.

(** Control escapes. *)
Definition escape_char (c : N) : N :=
  if N.eqb c 110 then 10 else if N.eqb c 116 then 9
  else if N.eqb c 114 then 13 else c.

(** The inside of a bracket class, up to the closing bracket. *)
Fixpoint p_class (fuel : nat) (acc : list (N * N)) (s : list N)
    : option (list (N * N) * list N) :=
  match fuel with
  | O => None
  | S fuel' =>
      match s with
      | [] => None
      | 93 :: s' => Some (acc, s')
      | c :: s' =>
          let single :=
            if N.eqb c 92 then
              match s' with
              | e :: s'' =>
                  match perl_class e with
                  | Some rs => inl (rs, s'')
                  | None =>
                      match neg_perl_class e with
                      | Some _ => inr (None, s'')
                      | None => inr (Some (escape_char e), s'')
                      end
                  end
              | [] => inr (None, s')
              end
            else inr (Some c, s') in
          match single with
          | inl (rs, s2) => p_class fuel' (acc ++ rs) s2
          | inr (None, _) => None
          | inr (Some lo, s2) =>
              match s2 with
              | 45 :: hi :: s3 =>
                  if N.eqb hi 93 then p_class fuel' (acc ++ [(lo, lo)]) s2
                  else if N.eqb hi 92 then
                    match s3 with
                    | e :: s4 => p_class fuel' (acc ++ [(lo, escape_char e)]) s4
                    | [] => None
                    end
                  else p_class fuel' (acc ++ [(lo, hi)]) s3
              | _ => p_class fuel' (acc ++ [(lo, lo)]) s2
              end
          end
      end
  end.

Fixpoint p_num (acc : option N) (s : list N) : option N * list N :=
  match s with
  | c :: s' =>
      if between 48 57 c
      then p_num (Some (default 0 acc * 10 + (c - 48))) s'
      else (acc, s)
  | [] => (acc, s)
  end.

(** A repetition suffix applied to an atom. *)
Definition p_lazy (s : list N) : bool * list N :=
  match s with 63 :: s' => (false, s') | _ => (true, s) end.

Definition p_suffix (a : re) (s : list N) : option (re * list N) :=
  match s with
  | 42 :: s' => let '(g, s2) := p_lazy s' in Some (Star g a, s2)
  | 43 :: s' => let '(g, s2) := p_lazy s' in Some (Seq a (Star g a), s2)
  | 63 :: s' => let '(g, s2) := p_lazy s' in Some (opt g a, s2)
  | 123 :: s' =>
      match p_num None s' with
      | (Some n, 125 :: s2) => Some (copies a (N.to_nat n) Eps, s2)
      | (Some n, 44 :: s2) =>
          match p_num None s2 with
          | (None, 125 :: s3) =>
              let '(g, s4) := p_lazy s3 in Some (copies a (N.to_nat n) (Star g a), s4)
          | (Some m, 125 :: s3) =>
              let '(g, s4) := p_lazy s3 in
              Some (copies a (N.to_nat n) (opt_chain g a (N.to_nat m - N.to_nat n)), s4)
          | _ => None
          end
      | _ => None
      end
  | _ => Some (a, s)
  end.

(** Alternation, concatenation and atoms; [c] counts the capture groups. *)
Fixpoint p_alt (fuel : nat) (s : list N) (c : nat) : option (re * list N * nat) :=
  match fuel with
  | O => None
  | S fuel' =>
      match p_seq fuel' s c with
      | Some (r, 124 :: s2, c2) =>
          match p_alt fuel' s2 c2 with
          | Some (r2, s3, c3) => Some (Alt r r2, s3, c3)
          | None => None
          end
      | x => x
      end
  end
with p_seq (fuel : nat) (s : list N) (c : nat) : option (re * list N * nat) :=
  match fuel with
  | O => None
  | S fuel' =>
      match s with
      | [] | 41 :: _ | 124 :: _ => Some (Eps, s, c)
      | _ =>
          match p_atom fuel' s c with
          | Some (a, s2, c2) =>
              match p_suffix a s2 with
              | Some (a2, s3) =>
                  match p_seq fuel' s3 c2 with
                  | Some (r, s4, c4) => Some (Seq a2 r, s4, c4)
                  | None => None
                  end
              | None => None
              end
          | None => None
          end
      end
  end
with p_atom (fuel : nat) (s : list N) (c : nat) : option (re * list N * nat) :=
  match fuel with
  | O => None
  | S fuel' =>
      match s with
      | 40 :: 63 :: 58 :: s2 =>
          match p_alt fuel' s2 c with
          | Some (r, 41 :: s3, c3) => Some (r, s3, c3)
          | _ => None
          end
      | 40 :: s2 =>
          match p_alt fuel' s2 (S c) with
          | Some (r, 41 :: s3, c3) => Some (Cap c r, s3, c3)
          | _ => None
          end
      | 91 :: 94 :: s2 =>
          match p_class fuel' [] s2 with
          | Some (rs, s3) => Some (fcls true rs, s3, c)
          | None => None
          end
      | 91 :: s2 =>
          match p_class fuel' [] s2 with
          | Some (rs, s3) => Some (fcls false rs, s3, c)
          | None => None
          end
      | 46 :: s2 => Some (Cls true (if fs then [] else [(10, 10)]), s2, c)
      | 94 :: s2 => Some (Bol, s2, c)
      | 36 :: s2 => Some (Eol, s2, c)
      | 92 :: 120 :: h1 :: h2 :: s2 =>
          match hex_val h1, hex_val h2 with
          | Some a, Some b => Some (lit (16 * a + b), s2, c)
          | _, _ => None
          end
      | 92 :: e :: s2 =>
          if N.eqb e 98 then Some (WordB, s2, c)
          else if N.eqb e 66 then Some (NWordB, s2, c)
          else match perl_class e with
               | Some rs => Some (fcls false rs, s2, c)
               | None =>
                   match neg_perl_class e with
                   | Some rs => Some (fcls true rs, s2, c)
                   | None => Some (lit (escape_char e), s2, c)
                   end
               end
      | x :: s2 => Some (lit x, s2, c)
      | [] => None
      end
  end.
End parser.

(** A flag group at the start of the pattern. *)
Fixpoint p_flags (fi fs : bool) (s : list N) : option (bool * bool * list N) :=
  match s with
  | 105 :: s' => p_flags true fs s'
  | 115 :: s' => p_flags fi true s'
  | 41 :: s' => Some (fi, fs, s')
  | _ => None
  end%N.

Definition parse_re (pat : string) : option re :=
  let s := runes pat in
  let '(fi, fs, s) :=
    match s with
    | 40 :: 63 :: s' =>
        match p_flags false false s' with Some x => x | None => (false, false, s) end
    | _ => (false, false, s)
    end%N in
  match p_alt fi fs (4 * length s + 8) s 1 with
  | Some (r, [], _) => Some r
  | _ => None
  end.

(** [regexp.MustCompile]: every pattern of the program parses (checked at the
    definitions), so the default is never used. *)
Definition MustCompile (pat : string) : re :=
  match parse_re pat with Some r => r | None => Cls false [] end.

(** ** Matching *)

(** A position in the subject: the rune before it and the text after it. *)
Record pos := Pos { p_prev : option N; p_rest : list chunk }.

Definition caps := list (nat * string).

Definition word_at (o : option N) : bool :=
  match o with Some c => is_word c | None => false end.
Definition next_rune (p : pos) : option N := ck_rune <$> head (p_rest p).
Definition at_word_boundary (p : pos) : bool :=
  xorb (word_at (p_prev p)) (word_at (next_rune p)).

(** The text between two positions. *)
Definition text_between (p q : pos) : string :=
  concat_chunks (take (length (p_rest p) - length (p_rest q)) (p_rest p)).

Definition plen (p : pos) : nat := length (p_rest p).

(** Keeps the first of the results that end at the same place. *)
Fixpoint nodup_end (seen : list nat) (l : list (pos * caps)) : list (pos * caps) :=
  match l with
  | [] => []
  | x :: l' =>
      if existsb (Nat.eqb (plen x.1)) seen then nodup_end seen l'
      else x :: nodup_end (plen x.1 :: seen) l'
  end.

(** Iteration of a step function: the ends reachable in any number of steps
    that make progress, the longer ones first when greedy. *)
Fixpoint iter_ends (f : pos → caps → list (pos * caps)) (greedy : bool) (fuel : nat)
    (p : pos) (cs : caps) : list (pos * caps) :=
  match fuel with
  | O => [(p, cs)]
  | S fuel' =>
      let steps := List.filter (λ x, Nat.ltb (plen x.1) (plen p)) (f p cs) in
      let more := steps ≫= (λ x, iter_ends f greedy fuel' x.1 x.2) in
      nodup_end [] (if greedy then more ++ [(p, cs)] else (p, cs) :: more)
  end.

(** The ends of the matches of [r] that start at [p], in order of preference. *)
Fixpoint ends (r : re) (p : pos) (cs : caps) : list (pos * caps) :=
  match r with
  | Eps => [(p, cs)]
  | Cls neg rs =>
      match p_rest p with
      | [] => []
      | c :: l => if xorb neg (member rs (ck_rune c))
                  then [(Pos (Some (ck_rune c)) l, cs)] else []
      end
  | Seq r1 r2 => nodup_end [] (ends r1 p cs ≫= (λ x, ends r2 x.1 x.2))
  | Alt r1 r2 => nodup_end [] (ends r1 p cs ++ ends r2 p cs)
  | Star g r1 => iter_ends (ends r1) g (S (plen p)) p cs
  | Cap n r1 => (λ x, (x.1, (n, text_between p x.1) :: x.2)) <$> ends r1 p cs
  | Bol => match p_prev p with None => [(p, cs)] | Some _ => [] end
  | Eol => match p_rest p with [] => [(p, cs)] | _ => [] end
  | WordB => if at_word_boundary p then [(p, cs)] else []
  | NWordB => if at_word_boundary p then [] else [(p, cs)]
  end.

(** Leftmost match from a position: its start, its end and its captures. *)
Fixpoint find_from (r : re) (prev : option N) (l : list chunk) : option (pos * pos * caps) :=
  match ends r (Pos prev l) [] with
  | (q, cs) :: _ => Some (Pos prev l, q, cs)
  | [] => match l with
          | [] => None
          | c :: l' => find_from r (Some (ck_rune c)) l'
          end
  end.

Definition start_pos (s : string) : pos := Pos None (chunks s).

(** All successive non-overlapping matches ([regexp.allMatches]); [last] is the
    length of the text after the previous match. *)
Fixpoint find_all (fuel : nat) (r : re) (p : pos) (last : option nat)
    : list (pos * pos * caps) :=
  match fuel with
  | O => []
  | S fuel' =>
      match find_from r (p_prev p) (p_rest p) with
      | None => []
      | Some (a, b, cs) =>
          let accept :=
            negb (Nat.eqb (plen b) (plen p) && bool_decide (last = Some (plen a))) in
          let next :=
            if Nat.eqb (plen b) (plen p) then
              match p_rest p with
              | [] => None
              | c :: l => Some (Pos (Some (ck_rune c)) l)
              end
            else Some b in
          let rest := match next with
                      | None => []
                      | Some p' => find_all fuel' r p' (Some (plen b))
                      end in
          if accept then (a, b, cs) :: rest else rest
      end
  end.

Definition matches (r : re) (s : string) : list (pos * pos * caps) :=
  find_all (S (S (length (chunks s)))) r (start_pos s) None.

(** [re.MatchString(s)]. *)
Definition MatchString (r : re) (s : string) : bool :=
  match find_from r None (chunks s) with Some _ => true | None => false end.

(** [re.FindString(s)]: the empty string when there is no match. *)
Definition FindString (r : re) (s : string) : string :=
  match find_from r None (chunks s) with
  | Some (a, b, _) => text_between a b
  | None => estr
  end.

Definition FindAllString (r : re) (s : string) : list string :=
  (λ '(a, b, _), text_between a b) <$> matches r s.

Fixpoint cap_lookup (n : nat) (cs : caps) : string :=
  match cs with
  | [] => estr
  | (k, v) :: cs' => if Nat.eqb k n then v else cap_lookup n cs'
  end.

(** [m[n]] for each [m] of [re.FindAllStringSubmatch(s, -1)]. *)
Definition FindAllSubmatch (r : re) (n : nat) (s : string) : list string :=
  (λ '(_, _, cs), cap_lookup n cs) <$> matches r s.

(** [re.ReplaceAllString(s, repl)] for a replacement without [$]. *)
Fixpoint splice (l : list chunk) (ms : list (pos * pos * caps)) (repl : string) : string :=
  match ms with
  | [] => concat_chunks l
  | (a, b, _) :: ms' =>
      concat_chunks (take (length l - plen a) l) +:+ repl +:+ splice (p_rest b) ms' repl
  end.
Definition ReplaceAllString (r : re) (s repl : string) : string :=
  splice (chunks s) (matches r s) repl.

Definition match_any (rs : list re) (s : string) : bool :=
  existsb (λ r, MatchString r s) rs.
