(* ===== verification/RegexFacts.v ===== *)
(** The matcher of [Regex] decides the declarative meaning of a pattern: the
    positions it reports are exactly those related by [rmatch].  The second part
    derives what the declarative meaning says about RE2's ASCII word
    boundaries, on which several Cyrillic patterns of the program depend. *)
From S2P Require Import Prelude Unicode GoStrings Utf8Facts Regex.

(** ** Declarative semantics *)

Definition step_pos (c : chunk) (l : list chunk) : pos := Pos (Some (ck_rune c)) l.

Inductive rmatch : re → pos → pos → Prop :=
  | m_eps p : rmatch Eps p p
  | m_cls neg rs prev c l :
      xorb neg (member rs (ck_rune c)) = true →
      rmatch (Cls neg rs) (Pos prev (c :: l)) (step_pos c l)
  | m_seq r s p q u : rmatch r p q → rmatch s q u → rmatch (Seq r s) p u
  | m_alt_l r s p q : rmatch r p q → rmatch (Alt r s) p q
  | m_alt_r r s p q : rmatch s p q → rmatch (Alt r s) p q
  | m_star_nil g r p : rmatch (Star g r) p p
  | m_star_step g r p q u :
      rmatch r p q → rmatch (Star g r) q u → rmatch (Star g r) p u
  | m_cap n r p q : rmatch r p q → rmatch (Cap n r) p q
  | m_bol l : rmatch Bol (Pos None l) (Pos None l)
  | m_eol prev : rmatch Eol (Pos prev []) (Pos prev [])
  | m_word p : at_word_boundary p = true → rmatch WordB p p
  | m_nword p : at_word_boundary p = false → rmatch NWordB p p.

#[export] Hint Constructors rmatch : golib.

(** ** Positions only move forward *)

(** [q] is reached from [p] by reading runes. *)
Inductive reach : pos → pos → Prop :=
  | reach_refl p : reach p p
  | reach_step prev c l q : reach (step_pos c l) q → reach (Pos prev (c :: l)) q.

#[export] Hint Constructors reach : golib.

Lemma reach_trans p q u : reach p q → reach q u → reach p u.
Proof. induction 1; eauto with golib. Qed.

Lemma reach_len p q : reach p q → (plen q ≤ plen p)%nat.
Proof. induction 1; unfold plen in *; simpl in *; lia. Qed.

Lemma reach_det p q u : reach p q → reach p u → plen q = plen u → q = u.
Proof.
  intros Hq. revert u. induction Hq as [p|prev c l q Hq IH]; intros u Hu Hl.
  - inversion Hu as [|prev c l q Hr]; subst; [done|].
    apply reach_len in Hr. unfold plen in *. simpl in *. lia.
  - inversion Hu as [|? ? ? ? Hr]; subst; [|by apply IH].
    apply reach_len in Hq. unfold plen in *. simpl in *. lia.
Qed.

Lemma rmatch_reach r p q : rmatch r p q → reach p q.
Proof. induction 1; eauto using reach_trans with golib. Qed.

(** ** The results of the matcher *)

Abbreviation at_end q l := (q ∈ (l : list (pos * caps)).*1) (only parsing).

Lemma nodup_end_elem (p q : pos) (l : list (pos * caps)) (seen : list nat) :
  (∀ x, at_end x l → reach p x) →
  at_end q (nodup_end seen l) ↔ at_end q l ∧ plen q ∉ seen.
Proof.
  revert seen. induction l as [|[x cs] l IH]; intros seen Hr; [set_solver|].
  assert (∀ y, at_end y l → reach p y) as Hr' by set_solver.
  cbn [nodup_end fst]. destruct (existsb _ seen) eqn:E.
  - rewrite IH by done. apply existsb_elem in E as (n & Hn & Hx%Nat.eqb_eq).
    cbn [fst] in Hx. subst n. rewrite fmap_cons, elem_of_cons. cbn [fst].
    split; [tauto|]. intros [[->|?] ?]; tauto.
  - rewrite fmap_cons, elem_of_cons, IH by done.
    assert (plen x ∉ seen) as Hx.
    { intros Hx. pose proof (proj1 (existsb_none _ _) E _ Hx) as Hn.
      cbv beta in Hn. by rewrite Nat.eqb_refl in Hn. }
    cbn [fst]. rewrite not_elem_of_cons, fmap_cons, elem_of_cons. cbn [fst]. split.
    + intros [->|(? & ? & ?)]; auto.
    + intros [[->|Hl] Hs]; [by left|].
      destruct (decide (plen q = plen x)) as [Hp|Hp]; [left|by right].
      apply (reach_det p); [by apply Hr'|apply Hr; set_solver|done].
Qed.

Lemma at_end_bind q (l : list (pos * caps)) (f : pos * caps → list (pos * caps)) :
  at_end q (l ≫= f) ↔ ∃ x, x ∈ l ∧ at_end q (f x).
Proof.
  rewrite list_elem_of_fmap. setoid_rewrite list_elem_of_fmap.
  setoid_rewrite list_elem_of_bind. naive_solver.
Qed.

Lemma at_end_bind_pos q (l : list (pos * caps)) f (P : pos → Prop) :
  (∀ u cs, at_end q (f (u, cs)) ↔ P u) →
  at_end q (l ≫= f) ↔ ∃ u, at_end u l ∧ P u.
Proof.
  intros Hf. rewrite at_end_bind. split.
  - intros ([u cs] & Hl & Hq). exists u. rewrite <- (Hf u cs). split; [|done].
    apply list_elem_of_fmap. by exists (u, cs).
  - intros (u & ([u' cs] & -> & Hl)%list_elem_of_fmap & HP).
    exists (u', cs). split; [done|]. by apply Hf.
Qed.

(** The specification the recursion carries. *)
Definition decides (f : pos → caps → list (pos * caps)) (R : pos → pos → Prop) : Prop :=
  ∀ p cs q, at_end q (f p cs) ↔ R p q.

Lemma star_drop_idle g r p u :
  rmatch (Star g r) p u →
  u = p ∨ ∃ q, rmatch r p q ∧ (plen q < plen p)%nat ∧ rmatch (Star g r) q u.
Proof.
  intros H. remember (Star g r) as s eqn:Es.
  induction H as [| | | | |g' r' p|g' r' p q u H1 _ H2 IH| | | | |]; try discriminate Es.
  - by left.
  - injection Es as -> ->. specialize (IH eq_refl).
    pose proof (rmatch_reach _ _ _ H1) as Hr. pose proof (reach_len _ _ Hr) as Hl.
    destruct (decide (plen q = plen p)) as [E|E].
    + assert (q = p) as ->; [|done].
      apply (reach_det p); [done|constructor|done].
    + right. exists q. split; [done|]. split; [lia|done].
Qed.

Lemma iter_ends_spec g r f fuel :
  decides f (rmatch r) →
  ∀ p cs q, (plen p < fuel)%nat →
    at_end q (iter_ends f g fuel p cs) ↔ rmatch (Star g r) p q.
Proof.
  intros Hf. induction fuel as [|fuel IH]; intros p cs q Hp; [lia|].
  set (steps := List.filter (λ x, Nat.ltb (plen x.1) (plen p)) (f p cs)).
  assert (∀ u, at_end u steps ↔ rmatch r p u ∧ (plen u < plen p)%nat) as Hs.
  { intros u. unfold steps. rewrite <- (Hf p cs u), !list_elem_of_fmap.
    setoid_rewrite list_elem_of_In. setoid_rewrite filter_In.
    setoid_rewrite Nat.ltb_lt. naive_solver. }
  assert (∀ u, at_end u (steps ≫= (λ x, iter_ends f g fuel x.1 x.2)) ↔
            ∃ v, (rmatch r p v ∧ (plen v < plen p)%nat) ∧ rmatch (Star g r) v u) as Hm.
  { intros u. rewrite at_end_bind. split.
    - intros ([v cs'] & Hv & Hu). exists v.
      assert (rmatch r p v ∧ (plen v < plen p)%nat) as [? ?].
      { apply Hs. apply list_elem_of_fmap. by exists (v, cs'). }
      split; [done|]. apply (IH v cs'); [lia|done].
    - intros (v & Hv & Hu). apply Hs in Hv as Hv'.
      apply list_elem_of_fmap in Hv' as ([v' cs'] & -> & Hin).
      exists (v', cs'). split; [done|]. apply IH; [simpl in *; lia|done]. }
  cbn [iter_ends]. fold steps. rewrite (nodup_end_elem p).
  - assert (at_end q (if g
        then (steps ≫= (λ x, iter_ends f g fuel x.1 x.2)) ++ [(p, cs)]
        else (p, cs) :: (steps ≫= (λ x, iter_ends f g fuel x.1 x.2)))
      ↔ q = p ∨ at_end q (steps ≫= (λ x, iter_ends f g fuel x.1 x.2))) as ->.
    { destruct g; [rewrite fmap_app|rewrite fmap_cons]; set_solver. }
    rewrite Hm. split.
    + intros [[->|(v & [Hv _] & Hq)] _]; eauto with golib.
    + intros H. split; [|set_solver]. apply star_drop_idle in H as [->|H]; [by left|].
      right. destruct H as (v & ? & ? & ?). eauto.
  - intros x Hx. assert (x = p ∨ at_end x (steps ≫= (λ x, iter_ends f g fuel x.1 x.2)))
      as [->|Hx'] by (destruct g; set_solver).
    + constructor.
    + apply Hm in Hx' as (v & [Hv _] & Hx').
      eauto using reach_trans, rmatch_reach.
Qed.

(** The matcher reports exactly the declarative matches. *)
Lemma ends_spec r : decides (ends r) (rmatch r).
Proof.
  induction r as [|neg rs|r IHr s IHs|r IHr s IHs|g r IHr|n r IHr| | | |];
    intros p cs q; cbn [ends].
  - split; [intros H; assert (q = p) as -> by set_solver; constructor|].
    inversion 1; set_solver.
  - destruct p as [prev [|c l]]; cbn [p_rest].
    + split; [set_solver|inversion 1].
    + destruct (xorb _ _) eqn:E.
      * split; [intros H; assert (q = step_pos c l) as -> by set_solver; by constructor|].
        inversion 1; subst. set_solver.
      * split; [set_solver|]. inversion 1; subst. congruence.
  - assert (∀ u, at_end u (ends r p cs ≫= (λ x, ends s x.1 x.2)) ↔
              ∃ v, at_end v (ends r p cs) ∧ rmatch s v u) as Hb.
    { intros u. apply at_end_bind_pos. intros v cs'. apply IHs. }
    rewrite (nodup_end_elem p).
    + rewrite Hb. setoid_rewrite (IHr p cs). split.
      * intros [(v & ? & ?) _]. eauto with golib.
      * intros H. split; [inversion H; eauto|set_solver].
    + intros x Hx. apply Hb in Hx as (v & Hv & Hx). apply IHr in Hv.
      eauto using reach_trans, rmatch_reach.
  - rewrite (nodup_end_elem p).
    + rewrite fmap_app, elem_of_app, (IHr p cs), (IHs p cs). split.
      * intros [[?|?] _]; eauto with golib.
      * intros H. split; [inversion H; auto|set_solver].
    + intros x. rewrite fmap_app, elem_of_app, (IHr p cs), (IHs p cs).
      intros [?|?]; eauto using rmatch_reach.
  - apply iter_ends_spec; [done|lia].
  - rewrite <- list_fmap_compose. unfold compose. cbn [fst].
    change (at_end q (ends r p cs) ↔ rmatch (Cap n r) p q). rewrite (IHr p cs q).
    split; [eauto with golib|]. by inversion 1.
  - destruct p as [[c|] l]; cbn [p_prev].
    + split; [set_solver|inversion 1].
    + split; [intros H; assert (q = Pos None l) as -> by set_solver; constructor|].
      inversion 1; subst. set_solver.
  - destruct p as [prev [|c l]]; cbn [p_rest].
    + split; [intros H; assert (q = Pos prev []) as -> by set_solver; constructor|].
      inversion 1; subst. set_solver.
    + split; [set_solver|inversion 1].
  - destruct (at_word_boundary p) eqn:E.
    + split; [intros H; assert (q = p) as -> by set_solver; by constructor|].
      inversion 1; subst. set_solver.
    + split; [set_solver|]. inversion 1; subst. congruence.
  - destruct (at_word_boundary p) eqn:E.
    + split; [set_solver|]. inversion 1; subst. congruence.
    + split; [intros H; assert (q = p) as -> by set_solver; by constructor|].
      inversion 1; subst. set_solver.
Qed.

(** A pattern matches a subject when some position of it starts a match. *)
Lemma find_from_spec r prev l :
  is_Some (find_from r prev l) ↔
  ∃ p q, reach (Pos prev l) p ∧ rmatch r p q.
Proof.
  revert prev. induction l as [|c l IH]; intros prev; cbn [find_from];
    destruct (ends r _ []) as [|[q cs] es] eqn:E.
  - split; [intros [? [=]]|]. intros (p & q & Hr & Hm).
    inversion Hr; subst. apply (ends_spec r _ []) in Hm. rewrite E in Hm. set_solver.
  - split; [intros _|eauto]. exists (Pos prev []), q. split; [constructor|].
    apply (ends_spec r _ []). rewrite E. set_solver.
  - rewrite IH. split.
    + intros (p & q & ? & ?). exists p, q. split; [by constructor|done].
    + intros (p & q & Hr & Hm). inversion Hr as [|? ? ? ? Hr']; subst; [|eauto].
      apply (ends_spec r _ []) in Hm. rewrite E in Hm. set_solver.
  - split; [intros _|eauto]. exists (Pos prev (c :: l)), q. split; [constructor|].
    apply (ends_spec r _ []). rewrite E. set_solver.
Qed.

Lemma MatchString_spec r s :
  MatchString r s = true ↔ ∃ p q, reach (start_pos s) p ∧ rmatch r p q.
Proof.
  unfold MatchString, start_pos. rewrite <- find_from_spec.
  destruct (find_from r None (chunks s)); naive_solver.
Qed.

Lemma match_any_spec rs s :
  match_any rs s = true ↔ ∃ r, r ∈ rs ∧ MatchString r s = true.
Proof. apply existsb_elem. Qed.

(** ** Word boundaries *)

(** Every match of the pattern passes through a [\b]. *)
Fixpoint needs_boundary (r : re) : bool :=
  match r with
  | WordB => true
  | Seq r1 r2 => needs_boundary r1 || needs_boundary r2
  | Alt r1 r2 => needs_boundary r1 && needs_boundary r2
  | Cap _ r1 => needs_boundary r1
  | _ => false
  end.

Lemma needs_boundary_sound r p q :
  needs_boundary r = true → rmatch r p q →
  ∃ u, reach p u ∧ at_word_boundary u = true.
Proof.
  intros Hn H. induction H; cbn in Hn; try discriminate Hn.
  - apply orb_true_iff in Hn as [Hn|Hn]; [eauto|].
    destruct (IHrmatch2 Hn) as (v & ? & ?). eauto using reach_trans, rmatch_reach.
  - apply andb_true_iff in Hn as [Hn _]. eauto.
  - apply andb_true_iff in Hn as [_ Hn]. eauto.
  - eauto.
  - exists p. split; [constructor|done].
Qed.

(** No rune of the text is an ASCII letter, digit or underscore. *)
Definition no_ascii_word (s : string) : bool := forallb (λ r, negb (is_word r)) (runes s).

Lemma reach_no_boundary p q :
  reach p q → word_at (p_prev p) = false →
  forallb (λ c, negb (is_word (ck_rune c))) (p_rest p) = true →
  at_word_boundary q = false.
Proof.
  induction 1 as [p|prev c l q Hr IH]; intros Hp Hl.
  - unfold at_word_boundary, next_rune. rewrite Hp.
    destruct p as [prev [|c l]]; cbn in *; [done|].
    apply andb_true_iff in Hl as [Hc%negb_true_iff _]. by rewrite Hc.
  - cbn in Hl. apply andb_true_iff in Hl as [Hc%negb_true_iff Hl].
    apply IH; [done|done].
Qed.

Lemma forallb_fmap {A B} (f : A → B) (g : B → bool) (l : list A) :
  forallb g (f <$> l) = forallb (λ x, g (f x)) l.
Proof. induction l as [|x l IH]; simpl; [done|]. by f_equal. Qed.

(** RE2's [\b] never holds inside a text without ASCII word characters, so a
    pattern that needs one cannot match, whatever the Unicode letters are. *)
Lemma MatchString_no_ascii_word r s :
  needs_boundary r = true → no_ascii_word s = true → MatchString r s = false.
Proof.
  intros Hn Hs. apply not_true_iff_false. rewrite MatchString_spec.
  intros (p & q & Hp & Hm).
  destruct (needs_boundary_sound _ _ _ Hn Hm) as (u & Hu & Hb).
  rewrite (reach_no_boundary (start_pos s) u) in Hb; [done| |done|].
  - eauto using reach_trans.
  - cbn [p_rest start_pos]. rewrite <- (forallb_fmap ck_rune (λ r, negb (is_word r))).
    exact Hs.
Qed.

Lemma match_any_no_ascii_word rs s :
  forallb needs_boundary rs = true → no_ascii_word s = true → match_any rs s = false.
Proof.
  intros Hn Hs. apply existsb_none. intros r Hr.
  apply MatchString_no_ascii_word; [|done].
  rewrite forallb_forall in Hn. apply Hn. by apply list_elem_of_In.
Qed.

(** ** What the text of a match is made of

    Every rune a match consumes belongs to the classes of the pattern, and the strings
    [FindAllString] returns are made of those runes. *)

Local Open Scope nat_scope.

(** Every class of the pattern lies within [f]. *)
Fixpoint re_within (f : N → bool) (r : re) : bool :=
  match r with
  | Cls neg rs => negb neg && forallb (λ '(lo, hi), forallb f (range_runes lo hi)) rs
  | Seq r1 r2 | Alt r1 r2 => re_within f r1 && re_within f r2
  | Star _ r1 | Cap _ r1 => re_within f r1
  | _ => true
  end.

Definition all_in (f : N → bool) (l : list chunk) : Prop :=
  ∀ c, c ∈ l → f (ck_rune c) = true.

Lemma member_within f rs c :
  forallb (λ '(lo, hi), forallb f (range_runes lo hi)) rs = true →
  member rs c = true → f c = true.
Proof.
  rewrite forallb_forall. unfold member. rewrite existsb_exists.
  intros H ([lo hi] & Hin & Hc). specialize (H _ Hin). rewrite forallb_forall in H.
  apply H, list_elem_of_In. unfold range_runes.
  apply andb_true_iff in Hc as [H1%N.leb_le H2%N.leb_le].
  apply list_elem_of_fmap. exists (N.to_nat (c - lo)). split; [lia|].
  apply elem_of_seq. lia.
Qed.

(** A match reads a block of the text made of runes of the pattern. *)
Lemma rmatch_block f r p q :
  rmatch r p q → re_within f r = true →
  ∃ l, p_rest p = l ++ p_rest q ∧ all_in f l.
Proof.
  assert (∀ p : pos, ∃ l, p_rest p = l ++ p_rest p ∧ all_in f l) as Hnil.
  { intros u. exists []. split; [done|]. intros c Hc. by apply not_elem_of_nil in Hc. }
  assert (∀ p q u : pos, (∃ l, p_rest p = l ++ p_rest q ∧ all_in f l) →
    (∃ l, p_rest q = l ++ p_rest u ∧ all_in f l) →
    ∃ l, p_rest p = l ++ p_rest u ∧ all_in f l) as Happ.
  { intros p0 q0 u (l1 & -> & H1) (l2 & -> & H2). exists (l1 ++ l2).
    rewrite app_assoc. split; [done|]. intros c [?|?]%elem_of_app; auto. }
  induction 1 as [p|neg rs prev c l Hc|r s p q u _ IH1 _ IH2|r s p q _ IH|r s p q _ IH
    |g r p|g r p q u _ IH1 _ IH2|n r p q _ IH| | | |]; cbn [re_within]; intros Hw; auto.
  - apply andb_true_iff in Hw as [Hn Hw]. destruct neg; [done|]. simpl in Hc.
    exists [c]. split; [done|]. intros c' ->%list_elem_of_singleton.
    by eapply member_within.
  - apply andb_true_iff in Hw as [H1 H2]. eauto.
  - apply andb_true_iff in Hw as [H1 H2]. eauto.
  - apply andb_true_iff in Hw as [H1 H2]. eauto.
  - eauto.
Qed.

Lemma find_from_match r prev l a b cs :
  find_from r prev l = Some (a, b, cs) →
  rmatch r a b ∧ ∃ k, l = k ++ p_rest a.
Proof.
  assert (∀ p q cs es, ends r p [] = (q, cs) :: es → rmatch r p q) as He.
  { intros p q cs0 es E. apply (ends_spec r p [] q). rewrite E. apply list_elem_of_here. }
  revert prev. induction l as [|c l IH]; intros prev; cbn [find_from];
    destruct (ends r _ []) as [|[q cs'] es] eqn:E; intros H.
  - discriminate H.
  - injection H as <- <- <-. split; [by eapply He|]. by exists [].
  - destruct (IH _ H) as [Hm [k ->]]. split; [done|]. by exists (c :: k).
  - injection H as <- <- <-. split; [by eapply He|]. by exists [].
Qed.

Lemma reach_block p q : reach p q → ∃ k, p_rest p = k ++ p_rest q.
Proof.
  induction 1 as [p|prev c l q _ [k Hk]]; [by exists []|]. exists (c :: k).
  simpl in *. by rewrite Hk.
Qed.

Lemma find_all_match fuel r p last a b cs :
  (a, b, cs) ∈ find_all fuel r p last →
  rmatch r a b ∧ ∃ k, p_rest p = k ++ p_rest a.
Proof.
  revert p last. induction fuel as [|n IH]; intros p last; cbn [find_all];
    [intros H; by apply not_elem_of_nil in H|].
  destruct (find_from r (p_prev p) (p_rest p)) as [[[a' b'] cs']|] eqn:E;
    [|intros H; by apply not_elem_of_nil in H].
  apply find_from_match in E as [Hm [k Hk]].
  set (next := if Nat.eqb (plen b') (plen p) then _ else _).
  assert (∀ p', next = Some p' → ∃ k, p_rest p = k ++ p_rest p') as Hn.
  { intros p'. subst next. destruct (Nat.eqb _ _).
    - destruct (p_rest p) as [|c l]; [done|]. intros [= <-]. by exists [c].
    - intros [= <-]. apply rmatch_reach, reach_block in Hm as [k' Hk'].
      exists (k ++ k'). by rewrite Hk, Hk', app_assoc. }
  set (rest := match next with Some p' => _ | None => _ end).
  assert ((a, b, cs) ∈ rest → rmatch r a b ∧ ∃ k, p_rest p = k ++ p_rest a) as Hrest.
  { subst rest. destruct next as [p'|]; [|intros H; by apply not_elem_of_nil in H].
    intros H. apply IH in H as [H1 [k1 H2]]. split; [done|].
    destruct (Hn p' eq_refl) as [k2 ->]. exists (k2 ++ k1). by rewrite H2, app_assoc. }
  destruct (negb _); [|done].
  intros [H|H]%elem_of_cons; [|by apply Hrest]. injection H as -> -> ->. eauto.
Qed.

(** The text of a match of a pattern within [f] is made of runes in [f]. *)
Lemma match_text_within f r s k a b :
  re_within f r = true → chunks s = k ++ p_rest a → rmatch r a b →
  forallb f (runes (text_between a b)) = true.
Proof.
  intros Hw Hk Hm. apply rmatch_block with (f := f) in Hm as (l & Hl & Hall); [|done].
  assert (text_between a b = concat_chunks l) as ->.
  { unfold text_between. rewrite Hl, length_app.
    replace (length l + length (p_rest b) - length (p_rest b)) with (length l) by lia.
    by rewrite take_app_length. }
  assert (decoded l) as Hd.
  { apply (decoded_prefix l (p_rest b)). rewrite <- Hl.
    apply (decoded_suffix k). rewrite <- Hk. apply decoded_chunks. }
  unfold runes. rewrite Hd. apply forallb_forall. intros x Hx.
  apply list_elem_of_In, list_elem_of_fmap in Hx as (c & -> & Hc). by apply Hall.
Qed.

(** The strings found by a pattern within [f] are made of runes in [f]. *)
Lemma FindAllString_within f r s t :
  re_within f r = true → t ∈ FindAllString r s → forallb f (runes t) = true.
Proof.
  intros Hw. unfold FindAllString, matches. intros Ht.
  apply list_elem_of_fmap in Ht as ([[a b] cs] & -> & Ht).
  apply find_all_match in Ht as [Hm [k Hk]]. by apply (match_text_within f r s k a b).
Qed.

Lemma FindString_within f r s :
  re_within f r = true → forallb f (runes (FindString r s)) = true.
Proof.
  intros Hw. unfold FindString.
  destruct (find_from r None (chunks s)) as [[[a b] cs]|] eqn:E; [|done].
  apply find_from_match in E as [Hm [k Hk]]. by eapply match_text_within.
Qed.
