(* ===== verification/Breaker.v ===== *)
(** The per-source circuit breaker ([internal/breaker/breaker.go]).

    The state is the pair of maps guarded by the mutex; every exported method
    is one atomic step on it.  The current time is an argument of a step.
    [http.ParseTime] is a parameter of the methods that read a Retry-After
    header: the theorems hold for every date parser. *)
From S2P Require Import Prelude GoStrings.

Local Open Scope Z_scope.

Definition defaultFailThreshold : Z := 5.
Definition cloudflareFailThreshold : Z := 3.
Definition defaultOpenTimeout : Z := 60 * second.

Record SourceBreaker := {
  failures : gmap string Z;
  openUntil : gmap string Z;
  failThreshold : Z;
  openTimeout : Z;
}.

Definition NewSourceBreaker : SourceBreaker := {|
  failures := ∅;
  openUntil := ∅;
  failThreshold := defaultFailThreshold;
  openTimeout := defaultOpenTimeout;
|}.

Definition set_maps (b : SourceBreaker) (f o : gmap string Z) : SourceBreaker :=
  {| failures := f; openUntil := o;
     failThreshold := failThreshold b; openTimeout := openTimeout b |}.

(** [m[k]++] on a map with zero default. *)
Definition bump (m : gmap string Z) (k : string) : gmap string Z :=
  <[k := default 0 (m !! k) + 1]> m.

Definition Allow (b : SourceBreaker) (source : string) (now : Z) : bool * SourceBreaker :=
  match openUntil b !! source with
  | None => (true, b)
  | Some until =>
      if time_after now until
      then (true, set_maps b (delete source (failures b)) (delete source (openUntil b)))
      else (false, b)
  end.

Definition WaitDuration (b : SourceBreaker) (source : string) (now : Z) : Z :=
  match openUntil b !! source with
  | None => 0
  | Some until =>
      let remaining := time_sub until now in
      if remaining <? 0 then 0 else remaining
  end.

Definition RecordSuccess (b : SourceBreaker) (source : string) : SourceBreaker :=
  set_maps b (delete source (failures b)) (delete source (openUntil b)).

Definition RecordCloudflareBlock (b : SourceBreaker) (source : string) (now : Z)
    : SourceBreaker :=
  let f := bump (failures b) source in
  if default 0 (f !! source) <? cloudflareFailThreshold
  then set_maps b f (openUntil b)
  else set_maps b f (<[source := time_add now (openTimeout b)]> (openUntil b)).

Definition StatusOK : Z := 200.
Definition StatusNoContent : Z := 204.
Definition StatusForbidden : Z := 403.
Definition StatusTooManyRequests : Z := 429.
Definition StatusServiceUnavailable : Z := 503.

Definition recordFailure (b : SourceBreaker) (source : string) (statusCode retryAfter : Z)
    (threshold now : Z) : SourceBreaker :=
  if negb (statusCode =? StatusTooManyRequests) && (statusCode <? 500) then b
  else
    let f := bump (failures b) source in
    if default 0 (f !! source) <? threshold then set_maps b f (openUntil b)
    else
      let openFor := if openTimeout b <? retryAfter then retryAfter else openTimeout b in
      set_maps b f (<[source := time_add now openFor]> (openUntil b)).

Definition RecordFailure (b : SourceBreaker) (source : string)
    (statusCode retryAfter now : Z) : SourceBreaker :=
  recordFailure b source statusCode retryAfter defaultFailThreshold now.

Definition RecordTransportError (b : SourceBreaker) (source : string) (now : Z)
    : SourceBreaker :=
  RecordFailure b source StatusServiceUnavailable 0 now.

(** What the breaker reads of an [http.Response]. *)
Record Response := {
  StatusCode : Z;
  hdr_RetryAfter : string;
  hdr_CFRay : string;
}.

Section http_dates.
Variable ParseTime : string → option Z.

Definition ParseRetryAfter (header : string) (now : Z) : Z :=
  if String.eqb header estr then 0
  else match Atoi header with
       | Some secs => wrap64 (secs * second)
       | None =>
           match ParseTime header with
           | Some t => let d := time_sub t now in if d <? 0 then 0 else d
           | None => 0
           end
       end.

Definition RecordResponse (b : SourceBreaker) (source : string)
    (resp : option Response) (now : Z) : SourceBreaker :=
  match resp with
  | None => b
  | Some resp =>
      if (StatusCode resp =? StatusOK) || (StatusCode resp =? StatusNoContent)
      then RecordSuccess b source
      else
        let retryAfter := ParseRetryAfter (hdr_RetryAfter resp) now in
        if (StatusCode resp =? StatusForbidden) && negb (String.eqb (hdr_CFRay resp) estr)
        then RecordCloudflareBlock b source now
        else RecordFailure b source (StatusCode resp) retryAfter now
  end.

(** One call of a method at a time. *)
Inductive event :=
  | EvAllow (source : string)
  | EvSuccess (source : string)
  | EvFailure (source : string) (statusCode retryAfter : Z)
  | EvCloudflare (source : string)
  | EvTransport (source : string)
  | EvResponse (source : string) (resp : option Response).

Definition exec (b : SourceBreaker) (ev : Z * event) : SourceBreaker :=
  let '(now, e) := ev in
  match e with
  | EvAllow s => (Allow b s now).2
  | EvSuccess s => RecordSuccess b s
  | EvFailure s c r => RecordFailure b s c r now
  | EvCloudflare s => RecordCloudflareBlock b s now
  | EvTransport s => RecordTransportError b s now
  | EvResponse s r => RecordResponse b s r now
  end.

Definition run (b : SourceBreaker) (evs : list (Z * event)) : SourceBreaker :=
  foldl exec b evs.
End http_dates.

(** ** Component lemmas *)

Definition source_of (e : event) : string :=
  match e with
  | EvAllow s | EvSuccess s | EvFailure s _ _ | EvCloudflare s | EvTransport s
  | EvResponse s _ => s
  end.

(** The event reports a success of the source. *)
Definition reports_success (e : event) : bool :=
  match e with
  | EvSuccess _ => true
  | EvResponse _ (Some r) =>
      (StatusCode r =? StatusOK) || (StatusCode r =? StatusNoContent)
  | _ => false
  end.

(** What the breaker knows of one source. *)
Definition view (b : SourceBreaker) (s : string) : option Z * option Z :=
  (failures b !! s, openUntil b !! s).

Lemma view_set_maps b f o s : view (set_maps b f o) s = (f !! s, o !! s).
Proof. done. Qed.

Lemma recordFailure_view b source code ra th now s :
  s ≠ source → view (recordFailure b source code ra th now) s = view b s.
Proof.
  intros Hs. unfold recordFailure, bump. repeat case_match; try done;
    unfold view; simpl; by rewrite ?lookup_insert_ne by done.
Qed.

Lemma RecordCloudflareBlock_view b source now s :
  s ≠ source → view (RecordCloudflareBlock b source now) s = view b s.
Proof.
  intros Hs. unfold RecordCloudflareBlock, bump. repeat case_match;
    unfold view; simpl; by rewrite ?lookup_insert_ne by done.
Qed.

Lemma RecordSuccess_view b source s :
  s ≠ source → view (RecordSuccess b source) s = view b s.
Proof. intros Hs. unfold view; simpl. by rewrite !lookup_delete_ne. Qed.

Lemma Allow_view b source now s :
  s ≠ source → view (Allow b source now).2 s = view b s.
Proof.
  intros Hs. unfold Allow. repeat case_match; simpl; try done.
  unfold view; simpl. by rewrite !lookup_delete_ne.
Qed.

Create Rewrite HintDb breaker.
#[export] Hint Rewrite recordFailure_view RecordCloudflareBlock_view
  RecordSuccess_view Allow_view using done : breaker.

(** Calls for one source do not touch another one. *)
Lemma exec_frame P b now e s :
  s ≠ source_of e → view (exec P b (now, e)) s = view b s.
Proof.
  intros Hs. destruct e; cbn [source_of] in Hs; cbn [exec];
    unfold RecordTransportError, RecordFailure;
    autorewrite with breaker; try done.
  unfold RecordResponse, RecordFailure. repeat case_match;
    autorewrite with breaker; done.
Qed.

Lemma exec_timeout P b ev : openTimeout (exec P b ev) = openTimeout b.
Proof.
  destruct ev as [now []]; cbn [exec];
    unfold Allow, RecordTransportError, RecordResponse, RecordFailure,
      recordFailure, RecordCloudflareBlock;
    repeat case_match; done.
Qed.

(** The circuit of [s] stays closed to requests at least until [u]. *)
Definition open_at_least (b : SourceBreaker) (s : string) (u : Z) : Prop :=
  ∃ v, openUntil b !! s = Some v ∧ u ≤ v.

Lemma open_at_least_deny b s u now :
  open_at_least b s u → now ≤ u → Allow b s now = (false, b).
Proof.
  intros (v & Hv & Hu) Hn. unfold Allow, time_after. rewrite Hv.
  by rewrite (proj2 (Z.ltb_ge v now)) by lia.
Qed.

Lemma recordFailure_open b s code ra th now u :
  open_at_least b s u → u ≤ now + openTimeout b →
  open_at_least (recordFailure b s code ra th now) s u.
Proof.
  intros (v & Hv & Hu) Hn. unfold recordFailure, open_at_least.
  repeat case_match; simpl; bool_to_prop; eauto;
    rewrite lookup_insert_eq; eexists; (split; [done|]); unfold time_add; lia.
Qed.

Lemma RecordCloudflareBlock_open b s now u :
  open_at_least b s u → u ≤ now + openTimeout b →
  open_at_least (RecordCloudflareBlock b s now) s u.
Proof.
  intros (v & Hv & Hu) Hn. unfold RecordCloudflareBlock, open_at_least.
  repeat case_match; simpl; eauto;
    rewrite lookup_insert_eq; eexists; (split; [done|]); unfold time_add; lia.
Qed.

Lemma exec_open P b s u now e :
  open_at_least b s u → now ≤ u ≤ now + openTimeout b →
  ¬ (source_of e = s ∧ reports_success e = true) →
  open_at_least (exec P b (now, e)) s u.
Proof.
  intros Ho Hn He. destruct (decide (source_of e = s)) as [Hs|Hs].
  - subst s. destruct e; cbn [source_of exec] in *;
      unfold RecordTransportError, RecordFailure.
    + rewrite (open_at_least_deny _ _ u) by (done || lia). done.
    + exfalso. apply He. done.
    + apply recordFailure_open; [done|lia].
    + apply RecordCloudflareBlock_open; [done|lia].
    + apply recordFailure_open; [done|lia].
    + unfold RecordResponse. destruct resp as [r|]; [|done].
      cbn [reports_success] in He. destruct (_ || _); [exfalso; auto|].
      case_match; [apply RecordCloudflareBlock_open|apply recordFailure_open];
        (done || lia).
  - destruct Ho as (v & Hv & Hu). exists v. split; [|done].
    pose proof (exec_frame P b now e s ltac:(congruence)) as Hf.
    unfold view in Hf. congruence.
Qed.

Lemma run_snoc P b evs ev : run P b (evs ++ [ev]) = exec P (run P b evs) ev.
Proof. unfold run. by rewrite foldl_app. Qed.

Lemma run_timeout P b evs : openTimeout (run P b evs) = openTimeout b.
Proof.
  induction evs as [|ev evs IH] using rev_ind; [done|].
  rewrite run_snoc, exec_timeout. done.
Qed.

Lemma failure_opens b s code ra t :
  (code = 429 ∨ 500 ≤ code) →
  defaultFailThreshold ≤ default 0 (failures b !! s) + 1 →
  open_at_least (RecordFailure b s code ra t) s (t + openTimeout b).
Proof.
  intros Hcode Hth. unfold RecordFailure, recordFailure, open_at_least,
    StatusTooManyRequests, bump.
  destruct (negb _ && _) eqn:E1; bool_to_prop; [lia|].
  rewrite lookup_insert_eq. cbn [default from_option id].
  rewrite (proj2 (Z.ltb_ge _ _)) by done. cbn [openUntil set_maps].
  rewrite lookup_insert_eq. eexists. split; [done|]. unfold time_add.
  split_ifs; lia.
Qed.

(** ** Properties *)

(** A circuit that opens at time [t] (a counted failure whose count reaches
    the threshold) denies every request of that source until [t] plus the open
    timeout, whatever calls for any source come in between, unless one of them
    reports a success of the source. *)
Theorem breaker_blocks_open_window P b s code ra t evs now :
  (code = 429 ∨ 500 ≤ code) →
  defaultFailThreshold ≤ default 0 (failures b !! s) + 1 →
  Forall (λ ev, t ≤ ev.1 ≤ t + openTimeout b
            ∧ ¬ (source_of ev.2 = s ∧ reports_success ev.2 = true)) evs →
  now ≤ t + openTimeout b →
  (Allow (run P (RecordFailure b s code ra t) evs) s now).1 = false.
Proof.
  intros Hcode Hth Hevs Hnow.
  assert (open_at_least (run P (RecordFailure b s code ra t) evs) s (t + openTimeout b))
    as Hr; [|by rewrite (open_at_least_deny _ _ _ _ Hr Hnow)].
  induction evs as [|[now' e] evs IH] using rev_ind; [by apply failure_opens|].
  apply Forall_app in Hevs as [Hevs [[Hn He] _]%Forall_cons_1].
  rewrite run_snoc. apply exec_open; [by apply IH| |done].
  change (RecordFailure b s code ra t) with (exec P b (t, EvFailure s code ra)).
  rewrite run_timeout, exec_timeout. simpl in Hn. lia.
Qed.

Lemma breaker_blocks_open_window_witness :
  (Allow (run (λ _, None)
     (RecordFailure
        (run (λ _, None) NewSourceBreaker
           (replicate 4 (0, EvTransport "serp"))) "serp" 429 0 (10 * second))
     [(20 * second, EvFailure "serp" 503 0); (30 * second, EvSuccess "forum");
      (40 * second, EvAllow "serp")]) "serp" (60 * second)).1 = false.
Proof.
  apply breaker_blocks_open_window.
  - by left.
  - vm_compute. discriminate.
  - repeat constructor; try (vm_compute; discriminate); intros [? ?]; discriminate.
  - vm_compute. discriminate.
Defined.

Lemma recordFailure_count b s code ra now :
  (code = 429 ∨ 500 ≤ code) →
  failures (RecordFailure b s code ra now) !! s
    = Some (default 0 (failures b !! s) + 1).
Proof.
  intros Hc. unfold RecordFailure, recordFailure, StatusTooManyRequests, bump.
  repeat case_match; bool_to_prop; try lia; cbn [failures set_maps];
    by rewrite lookup_insert_eq.
Qed.

Lemma recordFailure_stays_closed b s code ra now :
  openUntil b !! s = None →
  default 0 (failures b !! s) + 1 < defaultFailThreshold →
  openUntil (RecordFailure b s code ra now) !! s = None.
Proof.
  intros Ho Hf. unfold RecordFailure, recordFailure, bump.
  case_match; [done|]. rewrite lookup_insert_eq. cbn [default from_option id].
  by rewrite (proj2 (Z.ltb_lt _ _)) by done.
Qed.

(** A run of counted failures of one source. *)
Definition failure_run (s : string) (l : list (Z * Z * Z)) : list (Z * event) :=
  (λ '(t, code, ra), (t, EvFailure s code ra)) <$> l.

(** Starting from a breaker that knows nothing of a source, a run of counted
    failures (429 or 5xx) lets requests through while there are fewer than five
    and denies them from the fifth on, for the open timeout after the last. *)
Theorem breaker_opens_at_threshold P b s l t code ra now :
  view b s = (None, None) →
  Forall (λ '(_, code, _), code = 429 ∨ 500 ≤ code) (l ++ [(t, code, ra)]) →
  now ≤ t + openTimeout b →
  (Allow (run P b (failure_run s (l ++ [(t, code, ra)]))) s now).1
    = (Z.of_nat (length l) + 1 <? defaultFailThreshold).
Proof.
  intros [= Hf Ho] Hc Hnow. unfold failure_run. rewrite fmap_app. cbn [fmap list_fmap].
  rewrite run_snoc. apply Forall_app in Hc as [Hl [Hc _]%Forall_cons_1].
  assert (default 0 (failures (run P b (failure_run s l)) !! s) = Z.of_nat (length l)
    ∧ (Z.of_nat (length l) < defaultFailThreshold →
       openUntil (run P b (failure_run s l)) !! s = None)) as [IHf IHo].
  { clear Hc. induction l as [|[[t' c'] r'] l IH] using rev_ind.
    - simpl. by rewrite Hf.
    - apply Forall_app in Hl as [Hl [Hc' _]%Forall_cons_1]. specialize (IH Hl) as [IH1 IH2].
      unfold failure_run. rewrite fmap_app. cbn [fmap list_fmap].
      rewrite run_snoc, length_app. cbn [exec length].
      rewrite recordFailure_count by done. fold (failure_run s l). cbn [default from_option id].
      split; [lia|]. intros Hlt. apply recordFailure_stays_closed; [apply IH2; lia|lia]. }
  fold (failure_run s l). cbn [exec]. destruct (Z.ltb_spec (Z.of_nat (length l) + 1) defaultFailThreshold).
  - unfold Allow. rewrite recordFailure_stays_closed; [done|apply IHo; lia|lia].
  - rewrite (open_at_least_deny _ _ (t + openTimeout b)); [done| |done].
    rewrite <- (run_timeout P b (failure_run s l)). apply failure_opens; [done|lia].
Qed.

Lemma breaker_opens_at_threshold_witness :
  (Allow (run (λ _, None) NewSourceBreaker
     (failure_run "reddit" (replicate 4 (0, 503, 0) ++ [(0, 429, 120 * second)])))
     "reddit" (30 * second)).1 = false.
Proof.
  rewrite (breaker_opens_at_threshold (λ _, None) NewSourceBreaker "reddit"
             (replicate 4 (0, 503, 0)) 0 429 (120 * second) (30 * second)).
  - reflexivity.
  - reflexivity.
  - repeat constructor; lia.
  - vm_compute. discriminate.
Defined.

(** A circuit heals: the first request after the window of an open circuit
    is let through, and the breaker has then forgotten the source, so that it
    takes a full run of failures to open it again. *)
Theorem breaker_heals_after_window b s u now :
  openUntil b !! s = Some u → u < now →
  (Allow b s now).1 = true ∧ view (Allow b s now).2 s = (None, None)
  ∧ WaitDuration (Allow b s now).2 s now = 0.
Proof.
  intros Hu Hn. unfold Allow, time_after, WaitDuration. rewrite Hu.
  rewrite (proj2 (Z.ltb_lt u now)) by done. unfold view. simpl.
  by rewrite !lookup_delete_eq.
Qed.

Lemma breaker_heals_after_window_witness :
  (Allow {| failures := {["serp" := 5]}; openUntil := {["serp" := 60]};
            failThreshold := 5; openTimeout := 60 |} "serp" 61).1 = true.
Proof. apply (breaker_heals_after_window _ _ 60); [reflexivity|lia]. Defined.

(** Retry-After in seconds: exact up to 9223372036 seconds, the largest
    count a [time.Duration] holds; one second more wraps around to a negative
    duration, so that the header is then ignored. *)
Theorem ParseRetryAfter_seconds P header secs now :
  Atoi header = Some secs →
  (0 ≤ secs ≤ 9223372036 → ParseRetryAfter P header now = secs * second)
  ∧ (secs = 9223372037 → ParseRetryAfter P header now < 0).
Proof.
  intros H. unfold ParseRetryAfter. rewrite H.
  destruct (String.eqb_spec header estr) as [->|_]; [discriminate H|].
  unfold second, millisecond. split.
  - intros Hs. apply wrap64_small. unfold min_int64, max_int64. lia.
  - intros ->. vm_compute. done.
Qed.

Lemma ParseRetryAfter_seconds_witness :
  ParseRetryAfter (λ _, None) "120" 0 = 120 * second.
Proof. apply (ParseRetryAfter_seconds _ "120" 120 0); [reflexivity|lia]. Defined.
