(* ===== verification/SeenCache.v ===== *)
(** The bounded in-memory cache of lead hashes already seen
    ([internal/dedup/seen.go]): a map from hash to the time it was marked and
    the insertion order of the keys.  The second half gives the abstract
    specification, a time-stamped queue, and the refinement. *)
From S2P Require Import Prelude GoStrings.

Local Open Scope Z_scope.

Record SeenCache := {
  items : gmap string Z;
  order : list string;
  maxSize : Z;
  ttl : Z;
}.

Definition NewSeenCache (maxSize ttl : Z) : SeenCache := {|
  items := ∅;
  order := [];
  maxSize := if maxSize <=? 0 then 50000 else maxSize;
  ttl := if ttl <=? 0 then 24 * hour else ttl;
|}.

Definition with_content (c : SeenCache) (m : gmap string Z) (o : list string) : SeenCache :=
  {| items := m; order := o; maxSize := maxSize c; ttl := ttl c |}.

(** The loop of [evictExpiredLocked] over the order: keys absent from the map
    are dropped, expired ones are also deleted, the others are kept. *)
Fixpoint sweep (m : gmap string Z) (o : list string) (now ttl : Z)
    : gmap string Z * list string :=
  match o with
  | [] => (m, [])
  | id :: o' =>
      match m !! id with
      | None => sweep m o' now ttl
      | Some seenAt =>
          if ttl <? time_sub now seenAt then sweep (delete id m) o' now ttl
          else let '(m', kept) := sweep m o' now ttl in (m', id :: kept)
      end
  end.

Definition evictExpiredLocked (c : SeenCache) (now : Z) : SeenCache :=
  if decide (size (items c) = 0%nat) then c
  else let '(m, o) := sweep (items c) (order c) now (ttl c) in with_content c m o.

(** [now] is read by [time.Now()] on entry, [since] by [time.Since] on return. *)
Definition Seen (c : SeenCache) (hashID : string) (now since : Z) : bool * SeenCache :=
  let c := evictExpiredLocked c now in
  match items c !! hashID with
  | Some seenAt => (time_sub since seenAt <=? ttl c, c)
  | None => (false, c)
  end.

(** The eviction loop of [Mark]; [None] is the panic of [c.order[0]] on an empty
    slice. *)
Fixpoint evict_oldest (m : gmap string Z) (o : list string) (max : Z)
    : option (gmap string Z * list string) :=
  if Z.of_nat (size m) <=? max then Some (m, o)
  else match o with
       | [] => None
       | oldest :: o' => evict_oldest (delete oldest m) o' max
       end.

Definition Mark (c : SeenCache) (hashID : string) (now : Z) : option SeenCache :=
  let c := evictExpiredLocked c now in
  let o := match items c !! hashID with
           | None => order c ++ [hashID]
           | Some _ => order c
           end in
  let m := <[hashID := now]> (items c) in
  '(m', o') ← evict_oldest m o (maxSize c);
  Some (with_content c m' o').

(** ** Abstract specification: a time-stamped queue *)

Abbreviation queue := (list (string * Z)).

Definition fresh_entry (now ttl : Z) (e : string * Z) : Prop := time_sub now e.2 ≤ ttl.
#[global] Instance fresh_entry_dec now ttl e : Decision (fresh_entry now ttl e).
Proof. unfold fresh_entry. apply _. Defined.

Definition q_purge (q : queue) (now ttl : Z) : queue := filter (fresh_entry now ttl) q.

Fixpoint q_lookup (q : queue) (k : string) : option Z :=
  match q with
  | [] => None
  | (k', t) :: q' => if decide (k = k') then Some t else q_lookup q' k
  end.

(** Re-marking refreshes the stamp in place, a new key goes to the back. *)
Fixpoint q_put (q : queue) (k : string) (now : Z) : queue :=
  match q with
  | [] => [(k, now)]
  | (k', t) :: q' => if decide (k = k') then (k, now) :: q' else (k', t) :: q_put q' k now
  end.

Definition q_bound (q : queue) (max : Z) : queue :=
  drop (length q - Z.to_nat max) q.

Definition q_mark (q : queue) (k : string) (now ttl max : Z) : queue :=
  q_bound (q_put (q_purge q now ttl) k now) max.

(** ** Representation *)

(** The cache holds exactly the entries of the queue, in its order. *)
Record represents (c : SeenCache) (q : queue) : Prop := {
  rep_order : order c = q.*1;
  rep_items : items c = list_to_map q;
  rep_nodup : NoDup q.*1;
}.

Definition cache_inv (c : SeenCache) : Prop :=
  0 < maxSize c ∧ 0 < ttl c < max_int64 ∧
  ∃ q, represents c q ∧ Z.of_nat (length q) ≤ maxSize c.

Lemma q_lookup_map (q : queue) k : q_lookup q k = (list_to_map q : gmap string Z) !! k.
Proof.
  induction q as [|[k' t] q IH]; simpl; [by rewrite lookup_empty|].
  case_decide as Hk; [subst; by rewrite lookup_insert_eq|].
  by rewrite lookup_insert_ne by done.
Qed.

Lemma size_list_to_map (q : queue) :
  NoDup q.*1 → size (list_to_map q : gmap string Z) = length q.
Proof.
  induction q as [|[k t] q IH]; simpl; intros Hnd; [apply map_size_empty|].
  inversion Hnd; subst. rewrite map_size_insert_None; [by rewrite IH|].
  by apply not_elem_of_list_to_map_1.
Qed.

Lemma sweep_spec (pre q : queue) now ttl :
  NoDup (pre ++ q).*1 →
  sweep (list_to_map (pre ++ q)) q.*1 now ttl
  = (list_to_map (pre ++ q_purge q now ttl), (q_purge q now ttl).*1).
Proof.
  revert pre. induction q as [|[k t] q IH]; intros pre Hnd.
  - done.
  - cbn [sweep fmap list_fmap fst].
    assert ((list_to_map (pre ++ (k, t) :: q) : gmap string Z) !! k = Some t) as Hk.
    { apply elem_of_list_to_map_1; [done|]. apply elem_of_app. right. left. }
    rewrite Hk. unfold q_purge.
    assert (k ∉ (pre ++ q).*1) as Hnk.
    { rewrite fmap_app in Hnd |- *. apply NoDup_app in Hnd as (H1 & H2 & H3).
      inversion H3; subst. rewrite elem_of_app. intros [Hp|]; [|done].
      apply (H2 _ Hp). set_solver. }
    destruct (Z.ltb_spec ttl (time_sub now t)).
    + rewrite filter_cons_False by (unfold fresh_entry; simpl; lia).
      assert (delete k (list_to_map (pre ++ (k, t) :: q) : gmap string Z)
              = list_to_map (pre ++ q)) as ->.
      { rewrite (list_to_map_proper (pre ++ (k, t) :: q) ((k, t) :: pre ++ q)); [|done|].
        - cbn [list_to_map foldr]. simpl. rewrite delete_insert_id; [done|].
          by apply not_elem_of_list_to_map_1.
        - symmetry. apply Permutation_middle. }
      apply IH. rewrite fmap_app in Hnd |- *. cbn in Hnd.
      eapply sublist_NoDup; [exact Hnd|]. apply sublist_app; [done|].
      by apply sublist_cons.
    + rewrite filter_cons_True by (unfold fresh_entry; simpl; lia).
      specialize (IH (pre ++ [(k, t)])). rewrite <- !app_assoc in IH. simpl in IH.
      by rewrite IH.
Qed.

Lemma q_purge_nodup q now ttl : NoDup q.*1 → NoDup (q_purge q now ttl).*1.
Proof.
  intros H. eapply sublist_NoDup; [done|].
  apply fmap_sublist, sublist_filter.
Qed.

Lemma evictExpired_represents c q now :
  represents c q → represents (evictExpiredLocked c now) (q_purge q now (ttl c)).
Proof.
  intros [Ho Hi Hn]. unfold evictExpiredLocked.
  rewrite Hi, size_list_to_map by done. case_decide as Hz.
  - destruct q; [by constructor|done].
  - rewrite Ho. pose proof (sweep_spec [] q now (ttl c) Hn) as Hs. simpl in Hs.
    rewrite Hs. constructor; try done. by apply q_purge_nodup.
Qed.

Lemma q_put_keys q k now :
  (q_put q k now).*1 = if decide (k ∈ q.*1) then q.*1 else q.*1 ++ [k].
Proof.
  induction q as [|[k' t] q IH]; cbn [q_put fmap list_fmap fst].
  - rewrite decide_False by set_solver. done.
  - destruct (decide (k = k')) as [->|Hk].
    + by rewrite decide_True by constructor.
    + cbn [fmap list_fmap fst]. rewrite IH.
      destruct (decide (k ∈ q.*1)); [by rewrite decide_True by by constructor|].
      rewrite decide_False; [done|]. by intros [->|?]%elem_of_cons.
Qed.

Lemma q_put_map q k now :
  NoDup q.*1 →
  (list_to_map (q_put q k now) : gmap string Z) = <[k := now]> (list_to_map q).
Proof.
  induction q as [|[k' t] q IH]; simpl; intros Hnd; [done|].
  inversion Hnd; subst. case_decide as Hk; simpl.
  - subst. by rewrite insert_insert_eq.
  - rewrite IH by done. by rewrite insert_insert_ne.
Qed.

Lemma q_put_nodup q k now : NoDup q.*1 → NoDup (q_put q k now).*1.
Proof.
  intros H. rewrite q_put_keys. case_decide; [done|].
  apply NoDup_app. split; [done|]. split; [|apply NoDup_singleton]. set_solver.
Qed.

Lemma evict_oldest_spec (q : queue) max :
  NoDup q.*1 → 0 < max →
  evict_oldest (list_to_map q) q.*1 max
  = Some (list_to_map (q_bound q max), (q_bound q max).*1).
Proof.
  intros Hn Hm. induction q as [|[k t] q IH].
  - cbn [evict_oldest fmap list_fmap list_to_map foldr]. rewrite map_size_empty.
    by destruct (Z.leb_spec (Z.of_nat 0) max); [|lia].
  - cbn [fmap list_fmap fst]. cbn [evict_oldest].
    rewrite size_list_to_map by done.
    inversion Hn as [|? ? Hk Hq]; subst.
    destruct (Z.leb_spec (Z.of_nat (length ((k, t) :: q))) max) as [Hl|Hl].
    + unfold q_bound. replace (_ - _)%nat with O by lia. done.
    + cbn [list_to_map foldr]. simpl. rewrite delete_insert_id.
      * rewrite IH by done. unfold q_bound. simpl in Hl |- *.
        replace (S (length q) - Z.to_nat max)%nat
          with (S (length q - Z.to_nat max)) by lia. done.
      * by apply not_elem_of_list_to_map_1.
Qed.

Lemma q_bound_length q max :
  0 < max → Z.of_nat (length (q_bound q max)) ≤ max.
Proof. intros H. unfold q_bound. rewrite length_drop. lia. Qed.

Lemma q_bound_nodup q max : NoDup q.*1 → NoDup (q_bound q max).*1.
Proof.
  intros H. unfold q_bound. rewrite fmap_drop.
  eapply sublist_NoDup; [exact H|]. apply sublist_drop.
Qed.

Lemma NewSeenCache_inv n t : t < max_int64 → cache_inv (NewSeenCache n t).
Proof.
  intros Ht. unfold cache_inv, NewSeenCache. simpl.
  split; [|split].
  - split_ifs; lia.
  - split_ifs; [split; vm_compute; reflexivity|lia].
  - exists []. split; [constructor; [done|done|constructor]|]. simpl.
    split_ifs; lia.
Qed.

(** [Mark] on a represented cache. *)
Lemma Mark_represents c q k now :
  cache_inv c → represents c q →
  ∃ c', Mark c k now = Some c'
    ∧ represents c' (q_mark q k now (ttl c) (maxSize c))
    ∧ cache_inv c' ∧ maxSize c' = maxSize c ∧ ttl c' = ttl c.
Proof.
  intros (Hm & Ht & _) Hr.
  pose proof (evictExpired_represents c q now Hr) as [Ho Hi Hn].
  assert (maxSize (evictExpiredLocked c now) = maxSize c
    ∧ ttl (evictExpiredLocked c now) = ttl c) as [Hms Htt].
  { unfold evictExpiredLocked. case_decide; [done|]. by destruct (sweep _ _ _ _). }
  set (p := q_purge q now (ttl c)) in *.
  pose proof (evict_oldest_spec (q_put p k now) (maxSize c) (q_put_nodup p k now Hn) Hm) as He.
  rewrite q_put_map, q_put_keys, <- Ho, <- Hi in He by done.
  unfold Mark. rewrite Hms.
  assert ((if decide (k ∈ order (evictExpiredLocked c now))
           then order (evictExpiredLocked c now)
           else order (evictExpiredLocked c now) ++ [k])
    = match items (evictExpiredLocked c now) !! k with
      | Some _ => order (evictExpiredLocked c now)
      | None => order (evictExpiredLocked c now) ++ [k]
      end) as Hord.
  { rewrite Ho, Hi. destruct (decide (k ∈ p.*1)) as [Hk|Hk].
    - destruct ((list_to_map p : gmap string Z) !! k) eqn:E; [done|].
      by apply not_elem_of_list_to_map_2 in E.
    - by rewrite (not_elem_of_list_to_map_1 p k Hk). }
  rewrite Hord in He. rewrite He. simpl. eexists. split; [done|].
  assert (represents (with_content (evictExpiredLocked c now)
    (list_to_map (q_bound (q_put p k now) (maxSize c)))
    (q_bound (q_put p k now) (maxSize c)).*1) (q_mark q k now (ttl c) (maxSize c))) as Hrep.
  { constructor; try done. apply q_bound_nodup, q_put_nodup, Hn. }
  split; [done|]. split; [|by simpl].
  unfold cache_inv. cbn [with_content maxSize ttl]. rewrite Hms, Htt.
  split; [done|]. split; [done|]. eexists. split; [done|].
  by apply q_bound_length.
Qed.

(** What [Seen] answers and leaves. *)
Lemma Seen_represents c q k now since :
  cache_inv c → represents c q →
  (Seen c k now since).1
    = match q_lookup (q_purge q now (ttl c)) k with
      | Some t => time_sub since t <=? ttl c
      | None => false
      end
  ∧ represents (Seen c k now since).2 (q_purge q now (ttl c))
  ∧ maxSize (Seen c k now since).2 = maxSize c ∧ ttl (Seen c k now since).2 = ttl c.
Proof.
  intros _ Hr. pose proof (evictExpired_represents c q now Hr) as [Ho Hi Hn].
  assert (ttl (evictExpiredLocked c now) = ttl c
    ∧ maxSize (evictExpiredLocked c now) = maxSize c) as [Htt Hm].
  { unfold evictExpiredLocked. case_decide; [done|]. by destruct (sweep _ _ _ _). }
  unfold Seen. rewrite q_lookup_map, <- Hi, Htt.
  destruct (items _ !! k); (split; [done|split; [by split|done]]).
Qed.

Lemma q_purge_length q now ttl : (length (q_purge q now ttl) ≤ length q)%nat.
Proof. apply length_filter. Qed.

(** [Seen] keeps the invariant. *)
Lemma Seen_inv c k now since : cache_inv c → cache_inv (Seen c k now since).2.
Proof.
  intros Hc. pose proof Hc as (Hm & Ht & q & Hr & Hl).
  pose proof (Seen_represents c q k now since Hc Hr) as (_ & Hr' & Hm' & Ht').
  unfold cache_inv. rewrite Hm', Ht'. split; [done|]. split; [done|].
  exists (q_purge q now (ttl c)). split; [done|].
  pose proof (q_purge_length q now (ttl c)). lia.
Qed.

(** ** Properties *)

(** C34. [Mark] refines the queue specification: on a cache in its invariant it
    never reaches the out-of-range index of its eviction loop, the cache it
    leaves represents the marked queue, and the invariant holds again (so the
    cache never exceeds its size). *)
Theorem Mark_refines_queue c q k now :
  cache_inv c → represents c q →
  ∃ c', Mark c k now = Some c'
    ∧ represents c' (q_mark q k now (ttl c) (maxSize c))
    ∧ cache_inv c' ∧ maxSize c' = maxSize c ∧ ttl c' = ttl c.
Proof. apply Mark_represents. Qed.

Lemma Mark_refines_queue_witness :
  ∃ c', Mark (NewSeenCache 2 hour) "a" 5 = Some c'
    ∧ represents c' (q_mark [] "a" 5 hour 2)
    ∧ cache_inv c' ∧ maxSize c' = 2 ∧ ttl c' = hour.
Proof.
  apply (Mark_refines_queue (NewSeenCache 2 hour) []).
  - split; [reflexivity|]. split; [split; reflexivity|]. exists [].
    split; [constructor; [reflexivity|reflexivity|constructor]|]. discriminate.
  - constructor; [reflexivity|reflexivity|constructor].
Defined.

(** [Seen] answers from the queue: true exactly when the hash is in the
    purged queue with a stamp at most [ttl] old; it never adds an entry. *)
Theorem Seen_refines_queue c q k now since :
  cache_inv c → represents c q →
  (Seen c k now since).1
    = match q_lookup (q_purge q now (ttl c)) k with
      | Some t => time_sub since t <=? ttl c
      | None => false
      end
  ∧ represents (Seen c k now since).2 (q_purge q now (ttl c)).
Proof.
  intros Hc Hr. by destruct (Seen_represents c q k now since Hc Hr) as (? & ? & _).
Qed.

Lemma Seen_refines_queue_witness :
  (Seen {| items := {["a" := 5]}; order := ["a"]; maxSize := 2; ttl := 10 |} "a" 9 9).1
  = true.
Proof.
  rewrite (proj1 (Seen_refines_queue
    {| items := {["a" := 5]}; order := ["a"]; maxSize := 2; ttl := 10 |}
    [("a", 5)] "a" 9 9
    ltac:(split; [reflexivity|split; [split; reflexivity|
      exists [("a", 5)]; split; [constructor; [reflexivity|reflexivity|apply NoDup_singleton]
                             |discriminate]]])
    ltac:(constructor; [reflexivity|reflexivity|apply NoDup_singleton]))).
  reflexivity.
Defined.
