(* ===== verification/GoSort.v ===== *)
(** [sort.Slice] of the Go library: it sorts in place and is not stable, so the
    order of elements that compare equal is not specified.  The development
    is written against the interface [Sorter]; [insertion_sorter] is the
    insertion sort [sort.Slice] runs on slices of at most twelve elements. *)
From S2P Require Import Prelude.
From Stdlib Require Import Sorted.

(** What a [less] function must satisfy for the result to be sorted. *)
Record weak_order {A} (less : A → A → bool) : Prop := {
  less_asym x y : less x y = true → less y x = false;
  less_trans x y z : less y x = false → less z y = false → less z x = false;
}.

Class Sorter := {
  sort_slice {A : Type} (less : A → A → bool) (l : list A) : list A;
  sort_slice_perm {A : Type} (less : A → A → bool) (l : list A) :
    sort_slice less l ≡ₚ l;
  sort_slice_sorted {A : Type} (less : A → A → bool) (l : list A) :
    weak_order less → StronglySorted (λ x y, less y x = false) (sort_slice less l);
}.

Section insertion.
Context {A : Type} (less : A → A → bool).

Fixpoint insert_sorted (x : A) (l : list A) : list A :=
  match l with
  | [] => [x]
  | y :: l' => if less x y then x :: l else y :: insert_sorted x l'
  end.

Definition insertion_sort (l : list A) : list A := foldl (λ acc x, insert_sorted x acc) [] l.

Lemma insert_sorted_perm x l : insert_sorted x l ≡ₚ x :: l.
Proof.
  induction l as [|y l IH]; simpl; [done|]. destruct (less x y); [done|].
  rewrite IH. apply Permutation_swap.
Qed.

Lemma insertion_sort_perm l : insertion_sort l ≡ₚ l.
Proof.
  unfold insertion_sort. rewrite <- (app_nil_r l) at 2. generalize (@nil A) as acc.
  induction l as [|x l IH]; intros acc; simpl; [done|].
  rewrite IH, insert_sorted_perm. by rewrite <- Permutation_middle.
Qed.

Lemma insert_sorted_sorted (W : weak_order less) x l :
  StronglySorted (λ x y, less y x = false) l →
  StronglySorted (λ x y, less y x = false) (insert_sorted x l).
Proof.
  induction 1 as [|y l Hs IH Hy]; simpl; [repeat constructor|].
  destruct (less x y) eqn:E.
  - constructor; [by constructor|]. apply (less_asym _ W) in E.
    constructor; [done|]. eapply Forall_impl; [exact Hy|].
    intros z Hz. by apply (less_trans _ W _ y).
  - constructor; [done|]. rewrite insert_sorted_perm. by constructor.
Qed.

Lemma insertion_sort_sorted (W : weak_order less) l :
  StronglySorted (λ x y, less y x = false) (insertion_sort l).
Proof.
  unfold insertion_sort.
  assert (StronglySorted (λ x y, less y x = false) (@nil A)) as H by constructor.
  revert H. generalize (@nil A) as acc. induction l as [|x l IH]; intros acc H; simpl; [done|].
  by apply IH, insert_sorted_sorted.
Qed.
End insertion.

Definition insertion_sorter : Sorter := {|
  sort_slice A := @insertion_sort A;
  sort_slice_perm A := @insertion_sort_perm A;
  sort_slice_sorted A less l W := @insertion_sort_sorted A less W l;
|}.

Section facts.
Context `{Sorter}.

Lemma sort_slice_length {A} less (l : list A) : length (sort_slice less l) = length l.
Proof. by rewrite sort_slice_perm. Qed.

Lemma sort_slice_elem {A} less (l : list A) x : x ∈ sort_slice less l ↔ x ∈ l.
Proof. by rewrite sort_slice_perm. Qed.
End facts.

(** ** The seen-map idiom on lists that are already clean *)

Section dedup_more.
Context {A : Type} (key : A → string).

Lemma dedup_from_absorb (seen : gset string) (l k : list A) :
  NoDup (key <$> l) → (∀ x, x ∈ l → key x ∉ seen) →
  (∀ x, x ∈ k → key x ∈ seen ∨ key x ∈ key <$> l) → dedup_from key seen (l ++ k) = l.
Proof.
  revert seen. induction l as [|x l IH]; intros seen Hn Hs Hk; simpl.
  - induction k as [|y k IHk]; simpl; [done|].
    rewrite decide_True; [apply IHk; set_solver|].
    destruct (Hk y) as [|Hy]; [by left|done|by apply not_elem_of_nil in Hy].
  - inversion Hn as [|? ? Hx Hl]; subst. rewrite decide_False by set_solver. f_equal.
    apply IH; [done| |].
    + intros y Hy. rewrite not_elem_of_union, not_elem_of_singleton. split; [|set_solver].
      intros E. apply Hx. rewrite <- E. by apply list_elem_of_fmap_2.
    + intros y Hy. destruct (Hk y Hy); set_solver.
Qed.

Lemma dedup_on_prefix (l k : list A) : NoDup (key <$> l) → l `prefix_of` dedup_on key (l ++ k).
Proof.
  unfold dedup_on. intros Hn.
  assert (∀ seen : gset string, (∀ x, x ∈ l → key x ∉ seen) →
    l `prefix_of` dedup_from key seen (l ++ k)) as Hall; [|apply Hall; set_solver].
  induction l as [|x l IH]; intros seen Hs; simpl; [apply prefix_nil|].
  inversion Hn as [|? ? Hx Hl]; subst. rewrite decide_False by set_solver.
  apply prefix_cons, IH; [done|].
  intros y Hy. rewrite not_elem_of_union, not_elem_of_singleton. split; [|set_solver].
  intros E. apply Hx. rewrite <- E. by apply list_elem_of_fmap_2.
Qed.
End dedup_more.
