(* ===== verification/Matcher.v ===== *)
(** Keyword matching ([internal/scoring/phrase.go], [matcher.go], [types.go]):
    phrases with word boundaries, and the greedy weighted matcher that claims
    non-overlapping spans, longest phrase first. *)
From S2P Require Import Prelude Unicode GoStrings Utf8Facts GoSort.
From Stdlib Require Import Sorted.

Local Open Scope nat_scope.

(** ** Runes at the ends of a slice ([unicode/utf8]) *)

Definition DecodeRune (s : string) : N * nat :=
  match chunks s with
  | [] => (rune_error, O)
  | c :: _ => (ck_rune c, slen (ck_bytes c))
  end.

Definition byte_at (s : string) (i : nat) : N :=
  match String.get i s with Some a => code a | None => 0%N end.

Definition RuneStart (b : N) : bool := negb (between 128 191 b).

(** [utf8.DecodeLastRuneInString]: scan back at most four bytes for the start
    of a rune. *)
Definition DecodeLastRune (s : string) : N :=
  let n := slen s in
  if Nat.eqb n 0 then rune_error
  else if N.ltb (byte_at s (n - 1)) 128 then byte_at s (n - 1)
  else
    let start :=
      if Nat.leb 2 n && RuneStart (byte_at s (n - 2)) then n - 2
      else if Nat.leb 3 n && RuneStart (byte_at s (n - 3)) then n - 3
      else if Nat.leb 4 n && RuneStart (byte_at s (n - 4)) then n - 4
      else n - 5 in
    let '(r, size) := DecodeRune (sdrop start s) in
    if Nat.eqb (start + size) n then r else rune_error.

(** ** Occurrences of a phrase *)

(** The loop both matchers run: look for the next occurrence from [start], keep
    it when [ok] holds, otherwise go on one byte further.  [slen text + 1] steps
    are enough ([find_occ_spec]). *)
Fixpoint find_occ (fuel : nat) (text phrase : string) (ok : nat → bool) (start : nat)
    : option nat :=
  match fuel with
  | O => None
  | S f =>
      match Index (sdrop start text) phrase with
      | None => None
      | Some idx =>
          let abs := start + idx in
          if ok abs then Some abs else find_occ f text phrase ok (abs + 1)
      end
  end.

Definition isWordChar (r : N) : bool := is_letter r || is_digit r || N.eqb r 95.

Definition phraseBounded (text : string) (start end_ : nat) : bool :=
  negb (Nat.ltb 0 start && isWordChar (DecodeLastRune (stake start text)))
  && negb (Nat.ltb end_ (slen text) && isWordChar (fst (DecodeRune (sdrop end_ text)))).

Definition PhraseMatches (text phrase : string) : bool :=
  let phrase := ToLower (TrimSpace phrase) in
  if String.eqb phrase estr then false
  else
    let text := ToLower text in
    if Contains phrase " " then Contains text phrase
    else bool_decide (is_Some (find_occ (S (slen text)) text phrase
                        (λ abs, phraseBounded text abs (abs + slen phrase)) 0)).

(** The guard [pos < 0] has no counterpart on [nat]. *)
Definition phraseMatchAt (text : string) (pos : nat) (phrase : string) : bool :=
  let phrase := ToLower (TrimSpace phrase) in
  if String.eqb phrase estr || Nat.ltb (slen text) (pos + slen phrase) then false
  else
    let lower := ToLower text in
    if negb (HasPrefix (sdrop pos lower) phrase) then false
    else if Contains phrase " " then true
    else phraseBounded lower pos (pos + slen phrase).

(** ** Rules ([types.go]) *)

Record keywordRule := KeywordRule {
  rule_id : string; rule_phrase : string; rule_weight : Z; rule_tag : string }.

Record keywordEntry := KeywordEntry {
  entry_ID : string; entry_Phrase : string; entry_Weight : Z; entry_Tag : string }.

Definition entryToRule (e : keywordEntry) : keywordRule :=
  KeywordRule (entry_ID e) (entry_Phrase e) (entry_Weight e) (entry_Tag e).

Fixpoint rulesFromEntries (entries : list keywordEntry) : list keywordRule :=
  match entries with
  | [] => []
  | e :: es =>
      if String.eqb (entry_Phrase e) estr then rulesFromEntries es
      else entryToRule e :: rulesFromEntries es
  end.

(** ** The weighted matcher ([matcher.go]) *)

Record MatchHit := { hit_Phrase : string; hit_Weight : Z; hit_Tag : string }.

Record MatchResult := {
  res_Score : Z; res_Hits : list MatchHit; res_Summary : list string }.

Record span := Span { sp_start : nat; sp_end : nat }.

Definition overlaps (claimed : list span) (start end_ : nat) : bool :=
  existsb (λ c, Nat.ltb start (sp_end c) && Nat.ltb (sp_start c) end_) claimed.

(** The digits are written backwards in a buffer of sixteen bytes; a number of
    more digits makes the Go code panic, which is not modelled ([itoa_pretty]
    gives the range). *)
Fixpoint itoa_digits (fuel : nat) (n : Z) (acc : string) : string :=
  match fuel with
  | O => acc
  | S f => if (0 <? n)%Z
           then itoa_digits f (n / 10)%Z (String (byte_of (Z.to_N (48 + n mod 10)%Z)) acc)
           else acc
  end.

Definition itoa (n : Z) : string :=
  if (n =? 0)%Z then "0" else itoa_digits 16 n estr.

Definition formatHit (h : MatchHit) : string :=
  if (hit_Weight h <? 0)%Z
  then hit_Phrase h +:+ "(-" +:+ itoa (- hit_Weight h)%Z +:+ ")"
  else hit_Phrase h +:+ "(+" +:+ itoa (hit_Weight h) +:+ ")".

(** Byte order of Go strings. *)
Fixpoint str_ltb (s t : string) : bool :=
  match s, t with
  | _, EmptyString => false
  | EmptyString, String _ _ => true
  | String a s', String b t' =>
      N.ltb (code a) (code b) || (N.eqb (code a) (code b) && str_ltb s' t')
  end.

Definition rule_less (x y : keywordRule) : bool :=
  if Nat.eqb (slen (rule_phrase x)) (slen (rule_phrase y))
  then (rule_weight y <? rule_weight x)%Z
  else Nat.ltb (slen (rule_phrase y)) (slen (rule_phrase x)).

Definition hit_less (x y : MatchHit) : bool :=
  if (hit_Weight x =? hit_Weight y)%Z then str_ltb (hit_Phrase x) (hit_Phrase y)
  else (hit_Weight y <? hit_Weight x)%Z.

Record match_state := {
  ms_claimed : list span; ms_hits : list MatchHit; ms_total : Z }.

Definition rule_span (text : string) (claimed : list span) (r : keywordRule) : option nat :=
  find_occ (S (slen text)) text (rule_phrase r)
    (λ abs, phraseMatchAt text abs (rule_phrase r)
            && negb (overlaps claimed abs (abs + slen (rule_phrase r)))) 0.

(** The body of the loop over the sorted rules. *)
Definition match_rule (text : string) (st : match_state) (r : keywordRule) : match_state :=
  if String.eqb (rule_phrase r) estr then st
  else match rule_span text (ms_claimed st) r with
       | None => st
       | Some abs => {|
           ms_claimed := ms_claimed st ++ [Span abs (abs + slen (rule_phrase r))];
           ms_hits := ms_hits st ++ [{| hit_Phrase := rule_phrase r;
                                        hit_Weight := rule_weight r;
                                        hit_Tag := rule_tag r |}];
           ms_total := (ms_total st + rule_weight r)%Z |}
       end.

Definition match_init : match_state :=
  {| ms_claimed := []; ms_hits := []; ms_total := 0 |}.

Definition match_loop (text : string) (rules : list keywordRule) : match_state :=
  foldl (match_rule text) match_init rules.

Section matcher.
Context `{Sorter}.

Definition matchWeighted (text : string) (rules : list keywordRule) : MatchResult :=
  let text := ToLower text in
  let sorted := sort_slice rule_less rules in
  let st := match_loop text sorted in
  let hits := sort_slice hit_less (ms_hits st) in
  {| res_Score := ms_total st;
     res_Hits := hits;
     res_Summary := formatHit <$> hits |}.
End matcher.

(** ** Facts about occurrences *)

Definition occurs_at (text p : string) (i : nat) : bool := prefixb p (sdrop i text).

Lemma sdrop_sdrop i j s : sdrop i (sdrop j s) = sdrop (j + i) s.
Proof.
  revert s. induction j as [|j IH]; intros s; [done|].
  destruct s; simpl; [by destruct i|apply IH].
Qed.

Lemma Index_first s p n :
  Index s p = Some n →
  occurs_at s p n = true ∧ ∀ m, (m < n)%nat → occurs_at s p m = false.
Proof.
  unfold occurs_at. revert n. induction s as [|x s IH]; intros n; cbn [Index];
    destruct (prefixb p _) eqn:E; intros H; simplify_eq/=;
    try (split; [done|lia]).
  destruct (Index s p) as [k|]; simplify_eq/=. destruct (IH _ eq_refl) as [H1 H2].
  split; [done|]. intros [|m] Hm; [done|]. apply H2. lia.
Qed.

Lemma Index_none_at s p m : Index s p = None → occurs_at s p m = false.
Proof.
  unfold occurs_at. revert m. induction s as [|x s IH]; intros m; cbn [Index];
    destruct (prefixb p _) eqn:E; intros H; try discriminate H.
  - by destruct m.
  - destruct (Index s p) eqn:E'; [discriminate H|]. destruct m; [done|]. by apply IH.
Qed.

Lemma occurs_at_bound s p i : p ≠ estr → occurs_at s p i = true → (i + slen p ≤ slen s)%nat.
Proof.
  unfold occurs_at. intros Hp (t & Ht)%prefixb_spec.
  apply (f_equal slen) in Ht as Hl. rewrite slen_sdrop, slen_app in Hl.
  assert (0 < slen p)%nat; [|lia]. destruct p; [done|]. unfold slen. simpl. lia.
Qed.

(** The search returns the first good occurrence from [start] on. *)
Lemma find_occ_spec fuel text p ok start :
  p ≠ estr → (slen text < fuel + start)%nat →
  match find_occ fuel text p ok start with
  | Some i => (start ≤ i)%nat ∧ occurs_at text p i = true ∧ ok i = true
              ∧ ∀ j, (start ≤ j < i)%nat → occurs_at text p j = true → ok j = false
  | None => ∀ j, (start ≤ j)%nat → occurs_at text p j = true → ok j = false
  end.
Proof.
  intros Hp. revert start. induction fuel as [|f IH]; intros start Hf; cbn [find_occ].
  - intros j Hj Ho. apply (occurs_at_bound _ _ _ Hp) in Ho. lia.
  - destruct (Index (sdrop start text) p) as [idx|] eqn:E.
    + apply Index_first in E as [E1 E2]. unfold occurs_at in E1, E2.
      rewrite sdrop_sdrop in E1.
      assert (∀ j, (start ≤ j < start + idx)%nat → occurs_at text p j = true → ok j = false)
        as Hskip.
      { intros j Hj Ho. specialize (E2 (j - start)). rewrite sdrop_sdrop in E2.
        replace (start + (j - start))%nat with j in E2 by lia.
        unfold occurs_at in Ho. rewrite E2 in Ho by lia. done. }
      destruct (ok (start + idx)) eqn:Eok; [repeat split; try done; lia|].
      specialize (IH (start + idx + 1)).
      assert (∀ j, (start ≤ j < start + idx + 1)%nat →
        occurs_at text p j = true → ok j = false) as Hskip'.
      { intros j Hj Ho. destruct (decide (j = start + idx)) as [->|]; [done|].
        apply Hskip; [lia|done]. }
      destruct (find_occ _ _ _ _ _) as [i|].
      * destruct IH as (? & ? & ? & Hlt); [lia|]. repeat split; try done; [lia|].
        intros j Hj. destruct (decide (j < start + idx + 1)%nat);
          [apply Hskip'|apply Hlt]; lia.
      * intros j Hj. destruct (decide (j < start + idx + 1)%nat);
          [apply Hskip'|apply IH]; lia.
    + intros j Hj Ho. apply (Index_none_at _ _ (j - start)) in E.
      unfold occurs_at in E, Ho. rewrite sdrop_sdrop in E.
      replace (start + (j - start))%nat with j in E by lia. congruence.
Qed.

Lemma rule_less_weak : weak_order rule_less.
Proof.
  split; unfold rule_less; intros *;
    repeat match goal with
    | |- context [Nat.eqb ?a ?b] => destruct (Nat.eqb_spec a b)
    | |- context [Nat.ltb ?a ?b] => destruct (Nat.ltb_spec a b)
    | |- context [(?a <? ?b)%Z] => destruct (Z.ltb_spec a b)
    end; intros; first [done | lia].
Qed.

(** ** The trace of the greedy loop *)

(** A rule together with the offset where its phrase was claimed. *)
Definition pl_span (x : keywordRule * nat) : span :=
  Span x.2 (x.2 + slen (rule_phrase x.1)).
Definition pl_hit (x : keywordRule * nat) : MatchHit :=
  {| hit_Phrase := rule_phrase x.1; hit_Weight := rule_weight x.1; hit_Tag := rule_tag x.1 |}.
Definition pl_weight (x : keywordRule * nat) : Z := rule_weight x.1.

Definition sum_Z (l : list Z) : Z := foldr Z.add 0%Z l.

Lemma sum_Z_app l k : sum_Z (l ++ k) = (sum_Z l + sum_Z k)%Z.
Proof. induction l; simpl; lia. Qed.

(** The phrase of the rule occurs at [i] with the word boundaries it needs. *)
Definition rule_at (text : string) (r : keywordRule) (i : nat) : bool :=
  occurs_at text (rule_phrase r) i && phraseMatchAt text i (rule_phrase r).

Definition apart (x y : keywordRule * nat) : Prop :=
  (sp_end (pl_span x) ≤ sp_start (pl_span y) ∨ sp_end (pl_span y) ≤ sp_start (pl_span x))%nat.

Definition meets (x y : keywordRule * nat) : Prop := ¬ apart x y.

(** What the claimed rules [tr] of a run over [rules] satisfy: each rule is
    claimed at most once, at a place where it matches, the claimed spans are
    pairwise disjoint, and a rule is left out only when each place where it
    matches meets the span of a claimed rule whose phrase is not shorter. *)
Record greedy_trace (text : string) (rules : list keywordRule)
    (tr : list (keywordRule * nat)) : Prop := {
  gt_once : tr.*1 ⊆+ rules;
  gt_match : ∀ r i, (r, i) ∈ tr → rule_at text r i = true;
  gt_apart : StronglySorted apart tr;
  gt_max : ∀ r, r ∈ rules → rule_phrase r ≠ estr → r ∉ tr.*1 →
    ∀ i, rule_at text r i = true →
    ∃ r' j, (r', j) ∈ tr ∧ meets (r', j) (r, i)
      ∧ (slen (rule_phrase r) ≤ slen (rule_phrase r'))%nat;
}.

Definition trace_state (tr : list (keywordRule * nat)) : match_state :=
  {| ms_claimed := pl_span <$> tr; ms_hits := pl_hit <$> tr;
     ms_total := sum_Z (pl_weight <$> tr) |}.

Lemma overlaps_spec tr r i :
  overlaps (pl_span <$> tr) i (i + slen (rule_phrase r)) = true ↔
  ∃ x, x ∈ tr ∧ meets x (r, i).
Proof.
  unfold overlaps. rewrite existsb_elem. setoid_rewrite list_elem_of_fmap. split.
  - intros (c & (x & -> & Hx) & H). exists x. split; [done|].
    bool_to_prop. unfold meets, apart. simpl in *. lia.
  - intros (x & Hx & H). exists (pl_span x). split; [eauto|].
    unfold meets, apart in H. simpl in *. apply andb_true_iff.
    rewrite !Nat.ltb_lt. lia.
Qed.

Lemma StronglySorted_snoc {A} (R : A → A → Prop) l x :
  StronglySorted R (l ++ [x]) ↔ StronglySorted R l ∧ ∀ y, y ∈ l → R y x.
Proof.
  induction l as [|a l IH]; simpl.
  - split; [intros _; split; [constructor|set_solver]|repeat constructor].
  - split.
    + inversion 1 as [|? ? Hs Ha]; subst. apply IH in Hs as [Hs Hx].
      rewrite Forall_app in Ha. destruct Ha as [Ha Hax].
      split; [by constructor|]. intros y [->|Hy]%elem_of_cons; [|auto].
      by inversion Hax.
    + intros [Hs Hx]. inversion Hs as [|? ? Hs' Ha]; subst. constructor.
      * apply IH. split; [done|]. intros y Hy. apply Hx. by right.
      * rewrite Forall_app. split; [done|]. constructor; [|done]. apply Hx. by left.
Qed.

Lemma rule_span_spec text tr r :
  rule_phrase r ≠ estr →
  match rule_span text (pl_span <$> tr) r with
  | Some i => rule_at text r i = true ∧ ∀ x, x ∈ tr → apart x (r, i)
  | None => ∀ i, rule_at text r i = true → ∃ x, x ∈ tr ∧ meets x (r, i)
  end.
Proof.
  intros Hp. unfold rule_span, rule_at.
  pose proof (find_occ_spec (S (slen text)) text (rule_phrase r)
    (λ abs, phraseMatchAt text abs (rule_phrase r)
            && negb (overlaps (pl_span <$> tr) abs (abs + slen (rule_phrase r)))) 0 Hp) as H.
  destruct (find_occ _ _ _ _ _) as [i|].
  - destruct H as (_ & Ho & Hok & _); [lia|]. apply andb_true_iff in Hok as [Hm Hov].
    rewrite Ho, Hm. split; [done|]. intros x Hx.
    destruct (decide (sp_end (pl_span x) ≤ i)%nat) as [|H1]; [by left|].
    destruct (decide (i + slen (rule_phrase r) ≤ x.2)%nat) as [|H2]; [by right|].
    assert (overlaps (pl_span <$> tr) i (i + slen (rule_phrase r)) = true) as Hx'.
    { apply overlaps_spec. exists x. split; [done|]. unfold meets, apart.
      simpl in *. lia. }
    by rewrite Hx' in Hov.
  - intros i [Ho Hm]%andb_true_iff. apply overlaps_spec.
    specialize (H ltac:(lia) i ltac:(lia) Ho). simpl in H. rewrite Hm in H. simpl in H.
    by apply negb_false_iff in H.
Qed.

Lemma match_rule_trace text tr r :
  match_rule text (trace_state tr) r =
  trace_state (if String.eqb (rule_phrase r) estr then tr
               else match rule_span text (pl_span <$> tr) r with
                    | Some i => tr ++ [(r, i)]
                    | None => tr
                    end).
Proof.
  unfold match_rule. destruct (String.eqb _ _); [done|]. cbn [trace_state ms_claimed].
  destruct (rule_span _ _ _) as [i|]; [|done]. unfold trace_state.
  rewrite !fmap_app, sum_Z_app. simpl. f_equal. unfold pl_weight. simpl. lia.
Qed.

Lemma greedy_trace_step text rules tr r :
  greedy_trace text rules tr →
  (∀ r', r' ∈ rules → slen (rule_phrase r) ≤ slen (rule_phrase r'))%nat →
  ∃ tr', match_rule text (trace_state tr) r = trace_state tr'
         ∧ greedy_trace text (rules ++ [r]) tr'.
Proof.
  intros [Hon Hma Hap Hmx] Hlen. rewrite match_rule_trace.
  assert (∀ r', r' ∈ tr.*1 → slen (rule_phrase r) ≤ slen (rule_phrase r'))%nat as Hlen'.
  { intros r' Hr'. apply Hlen. by eapply elem_of_submseteq. }
  destruct (String.eqb_spec (rule_phrase r) estr) as [He|He].
  { exists tr. split; [done|]. constructor; try done.
    - etrans; [exact Hon|]. apply submseteq_inserts_r. done.
    - intros r' [Hr'| ->%list_elem_of_singleton]%elem_of_app; [auto|done]. }
  pose proof (rule_span_spec text tr r He) as Hsp.
  destruct (rule_span _ _ _) as [i|]; eexists; (split; [done|]); constructor.
  - rewrite fmap_app. by apply submseteq_app.
  - intros r' j [Hj|Hj%list_elem_of_singleton]%elem_of_app; [auto|]. injection Hj as -> ->. apply Hsp.
  - apply StronglySorted_snoc. split; [done|apply Hsp].
  - intros r' [Hr'| ->%list_elem_of_singleton]%elem_of_app Hp Hn k Hk.
    + destruct (Hmx r' Hr' Hp) with (i := k) as (r2 & j & ? & ? & ?); [|done|].
      { intros Hin. apply Hn. rewrite fmap_app, elem_of_app. by left. }
      exists r2, j. rewrite elem_of_app. auto.
    + destruct Hn. rewrite fmap_app, elem_of_app. right. by left.
  - etrans; [exact Hon|]. by apply submseteq_inserts_r.
  - done.
  - done.
  - intros r' [Hr'| ->%list_elem_of_singleton]%elem_of_app Hp Hn k Hk; [by apply Hmx|].
    destruct (Hsp k Hk) as ([r2 j] & Hx & Hm). exists r2, j.
    split; [done|]. split; [done|]. apply Hlen'. apply list_elem_of_fmap. by exists (r2, j).
Qed.

Lemma match_loop_trace text rules :
  StronglySorted (λ x y, rule_less y x = false) rules →
  ∃ tr, match_loop text rules = trace_state tr ∧ greedy_trace text rules tr.
Proof.
  induction rules as [|r rules IH] using rev_ind; intros Hs.
  - exists []. split; [done|]. constructor; [done|set_solver|constructor|set_solver].
  - apply StronglySorted_snoc in Hs as [Hs Hr]. destruct (IH Hs) as (tr & He & Hg).
    unfold match_loop in *. rewrite foldl_app. simpl. rewrite He.
    apply greedy_trace_step; [done|]. intros r' Hr'. specialize (Hr r' Hr').
    unfold rule_less in Hr. split_if_in Hr; bool_to_prop; lia.
Qed.

Lemma greedy_trace_perm text rules rules' tr :
  rules ≡ₚ rules' → greedy_trace text rules tr → greedy_trace text rules' tr.
Proof.
  intros Hp [H1 H2 H3 H4]. constructor; try done.
  - by rewrite <- Hp.
  - intros r Hr. apply H4. by rewrite Hp.
Qed.

Lemma code_inj a b : code a = code b → a = b.
Proof.
  intros H. unfold code in H. rewrite <- (ascii_N_embedding a), H. apply ascii_N_embedding.
Qed.

Lemma str_ltb_asym s t : str_ltb s t = true → str_ltb t s = false.
Proof.
  revert t. induction s as [|a s IH]; intros [|b t]; simpl; try done.
  intros [H|[H1 H2]%andb_true_iff]%orb_true_iff; bool_to_prop.
  - apply orb_false_iff. split; [apply N.ltb_ge; lia|].
    apply andb_false_iff. left. apply N.eqb_neq. lia.
  - rewrite IH by done. apply orb_false_iff. split; [apply N.ltb_ge; lia|].
    by rewrite andb_false_r.
Qed.

Lemma str_ltb_trans s t u : str_ltb t s = false → str_ltb u t = false → str_ltb u s = false.
Proof.
  revert t u. induction s as [|a s IH]; intros [|b t] [|c u]; simpl; try done.
  rewrite !orb_false_iff, !andb_false_iff, !N.ltb_ge, !N.eqb_neq.
  intros [H1 H2] [H3 H4]. split; [lia|].
  destruct (decide (code c = code a)%N); [right|by left].
  apply (IH t); [destruct H2; [lia|done]|destruct H4; [lia|done]].
Qed.

Lemma hit_less_weak : weak_order hit_less.
Proof.
  split; unfold hit_less; intros *;
    z_cases; intros; first [done | lia | by apply str_ltb_asym | by eapply str_ltb_trans].
Qed.

(** ** Properties *)

(** [PhraseMatches] is exactly "the normalised phrase occurs in the lowered
    text", with word boundaries on both sides when the phrase is a single
    token: the search loop terminates within its bound, never skips a bounded
    occurrence and never reports an unbounded one. *)
Theorem PhraseMatches_spec text phrase :
  let p := ToLower (TrimSpace phrase) in
  let t := ToLower text in
  PhraseMatches text phrase = true ↔
  p ≠ estr ∧ ∃ i, occurs_at t p i = true ∧
    (Contains p " " = false → phraseBounded t i (i + slen p) = true).
Proof.
  intros p t. unfold PhraseMatches. fold p t.
  destruct (String.eqb_spec p estr) as [He|He]; [naive_solver|].
  destruct (Contains p " ") eqn:Esp.
  - split.
    + intros (a & b & ->)%Contains_spec. split; [done|]. exists (slen a).
      split; [|done]. unfold occurs_at. rewrite sdrop_app. apply prefixb_app.
    + intros (_ & i & (b & Hb)%prefixb_spec & _). apply Contains_spec.
      exists (stake i t), b. by rewrite <- Hb, stake_sdrop.
  - rewrite bool_decide_eq_true.
    pose proof (find_occ_spec (S (slen t)) t p
      (λ abs, phraseBounded t abs (abs + slen p)) 0 He ltac:(lia)) as H.
    destruct (find_occ _ _ _ _ _) as [i|]; split.
    + intros _. split; [done|]. exists i. naive_solver.
    + eauto.
    + by intros [? ?].
    + intros (_ & i & Hi & Hb). rewrite (H i ltac:(lia) Hi) in Hb. naive_solver.
Qed.

(** The weighted matcher is the greedy assignment of spans: whatever order
    the unstable sort leaves ties in, there is a trace in which every rule is
    claimed at most once, at an occurrence with its word boundaries, no two
    claimed spans overlap, the score is the sum of the claimed weights, the hits
    are the claimed rules in order of decreasing weight, and a rule that is not
    claimed has each of its occurrences covered by the span of a claimed phrase
    at least as long ("voluum alternative" hides "voluum", never the reverse). *)
Theorem matchWeighted_greedy `{Sorter} text rules :
  let res := matchWeighted text rules in
  ∃ tr, greedy_trace (ToLower text) rules tr
    ∧ res_Score res = sum_Z (pl_weight <$> tr)
    ∧ res_Hits res ≡ₚ pl_hit <$> tr
    ∧ StronglySorted (λ x y, hit_Weight y ≤ hit_Weight x)%Z (res_Hits res)
    ∧ res_Summary res = formatHit <$> res_Hits res.
Proof.
  unfold matchWeighted. cbn [res_Score res_Hits res_Summary].
  destruct (match_loop_trace (ToLower text) (sort_slice rule_less rules)) as (tr & -> & Hg).
  { apply sort_slice_sorted, rule_less_weak. }
  exists tr. split; [|split; [done|split; [apply sort_slice_perm|split; [|done]]]].
  - eapply greedy_trace_perm; [apply sort_slice_perm|done].
  - pose proof (sort_slice_sorted hit_less (ms_hits (trace_state tr)) hit_less_weak) as Hs.
    induction Hs as [|x l Hs IH Hx]; constructor; [done|].
    eapply Forall_impl; [exact Hx|]. intros y Hy. unfold hit_less in Hy.
    split_if_in Hy; bool_to_prop; lia.
Qed.
