(* ===== verification/TextFacts.v ===== *)
(** How the functions of package [strings] interact: trimming, lowering,
    prefixes and the normal form [ToLower (TrimSpace s)] that most of the
    program compares. *)
From S2P Require Import Prelude Unicode GoStrings Utf8Facts Matcher.

Local Open Scope nat_scope.

(** ** Rune classes under lowering *)

(** A class that lowering leaves alone, checked on ASCII and on the runes of
    the case tables. *)
Definition lower_stable_check (f : N → bool) : bool :=
  forallb (λ r, eqb (f (rune_to_lower r)) (f r))
    ((N.of_nat <$> seq 0 128) ++ table_runes).

Lemma lower_stable (f : N → bool) (r : N) :
  lower_stable_check f = true → f (rune_to_lower r) = f r.
Proof.
  unfold lower_stable_check. rewrite forallb_app, andb_true_iff, !forallb_forall.
  intros [H1 H2]. destruct (N.ltb r 128) eqn:E; bool_to_prop.
  - apply eqb_prop, H1, list_elem_of_In, list_elem_of_fmap.
    exists (N.to_nat r). split; [lia|]. apply elem_of_seq. lia.
  - destruct (case_map_or lower_ranges r) as [H|H].
    + unfold rune_to_lower. rewrite (proj2 (N.ltb_ge r 128)) by lia. by rewrite H.
    + by apply eqb_prop, H2, list_elem_of_In.
Qed.

Lemma is_space_lower r : is_space (rune_to_lower r) = is_space r.
Proof. apply (lower_stable is_space). vm_compute. reflexivity. Qed.

(** ** Trimming and lowering *)

Definition lower_chunk (c : chunk) : chunk :=
  Chunk (rune_to_lower (ck_rune c)) (encode_rune (rune_to_lower (ck_rune c))).

Lemma concat_lower_chunks l :
  concat_chunks (lower_chunk <$> l) = to_lower_runes (ck_rune <$> l).
Proof. unfold to_lower_runes. induction l; simpl; [done|]. by f_equal. Qed.

Lemma chunks_ToLower s : chunks (ToLower s) = lower_chunk <$> chunks s.
Proof.
  unfold ToLower, to_lower_runes, runes. pose proof (chunks_valid s) as H.
  induction H as [|c l Hc _ IH]; [done|].
  rewrite !fmap_cons.
  change (encode (rune_to_lower (ck_rune c) :: (rune_to_lower <$> (ck_rune <$> l))))
    with (encode_rune (rune_to_lower (ck_rune c)) +:+
          encode (rune_to_lower <$> (ck_rune <$> l))).
  rewrite chunks_encode by by apply rune_to_lower_valid. by rewrite IH.
Qed.

(** Only the empty string is lowered to the empty string. *)
Lemma ToLower_estr s : ToLower s = estr → s = estr.
Proof.
  intros E. destruct s as [|a s]; [done|]. exfalso.
  assert (chunks (ToLower (String a s)) = []) as Hc by by rewrite E.
  rewrite chunks_ToLower in Hc. apply fmap_nil_inv in Hc. revert Hc.
  cbn [chunks]. repeat case_match; done.
Qed.

Section drop_while_map.
Context {A B : Type} (f : A → bool) (g : B → bool) (h : A → B).
Hypothesis Hfg : ∀ x, g (h x) = f x.

Lemma drop_while_fmap l : drop_while g (h <$> l) = h <$> drop_while f l.
Proof. induction l as [|x l IH]; simpl; [done|]. rewrite Hfg. by destruct (f x). Qed.

Lemma drop_while_end_fmap l : drop_while_end g (h <$> l) = h <$> drop_while_end f l.
Proof.
  unfold drop_while_end. by rewrite <- fmap_reverse, drop_while_fmap, fmap_reverse.
Qed.
End drop_while_map.

Lemma TrimSpace_ToLower s : TrimSpace (ToLower s) = ToLower (TrimSpace s).
Proof.
  assert (∀ c, space_chunk (lower_chunk c) = space_chunk c) as Hc
    by (intros c; apply is_space_lower).
  unfold TrimSpace at 1. rewrite chunks_ToLower.
  rewrite (drop_while_fmap space_chunk) by done.
  rewrite (drop_while_end_fmap space_chunk) by done.
  rewrite <- chunks_TrimSpace, concat_lower_chunks. done.
Qed.

(** The normal form is a fixpoint of the normalisation. *)
Lemma lower_trim_idemp s :
  ToLower (TrimSpace (ToLower (TrimSpace s))) = ToLower (TrimSpace s).
Proof. by rewrite TrimSpace_ToLower, TrimSpace_idemp, ToLower_idemp. Qed.

Lemma trim_lower_trim s : TrimSpace (ToLower (TrimSpace s)) = ToLower (TrimSpace s).
Proof. by rewrite TrimSpace_ToLower, TrimSpace_idemp. Qed.

(** ** Prefixes and suffixes *)

Lemma HasPrefix_app p t : HasPrefix (p +:+ t) p = true.
Proof. apply prefixb_app. Qed.

Lemma slen_0 s : slen s = 0 ↔ s = estr.
Proof. unfold slen. destruct s; naive_solver. Qed.

Lemma app_cancel_len a b c d : slen a = slen c → a +:+ b = c +:+ d → a = c ∧ b = d.
Proof.
  unfold slen. revert c. induction a as [|x a IH]; intros [|y c] Hl H; simpl in *; try done.
  injection H as -> H. injection Hl as Hl. destruct (IH c Hl H). by subst.
Qed.

Lemma HasSuffix_spec s p : HasSuffix s p = true ↔ ∃ t, s = t +:+ p.
Proof.
  unfold HasSuffix. rewrite andb_true_iff, Nat.leb_le, String.eqb_eq. split.
  - intros [Hl Hs]. exists (stake (slen s - slen p) s). rewrite <- Hs at 2.
    by rewrite stake_sdrop.
  - intros [t ->]. rewrite slen_app. split; [lia|].
    replace (slen t + slen p - slen p) with (slen t) by lia. apply sdrop_app.
Qed.

Lemma HasPrefix_elim s p : HasPrefix s p = true → ∃ t, s = p +:+ t.
Proof. apply prefixb_spec. Qed.

(** Two prefixes of one string are comparable. *)
Lemma prefix_comparable a b s t :
  a +:+ s = b +:+ t → (∃ u, a = b +:+ u) ∨ (∃ u, b = a +:+ u).
Proof.
  revert b. induction a as [|x a IH]; intros b H; [right; by exists b|].
  destruct b as [|y b]; [left; by exists (String x a)|].
  injection H as -> H. destruct (IH b H) as [[u ->]|[u ->]]; [left|right]; by exists u.
Qed.

(** ** Splitting *)

Lemma split_from_no_sep c s cur :
  Contains s (String c estr) = false →
  split_from (String c estr) s 0 cur = [cur +:+ s].
Proof.
  revert cur. induction s as [|a s IH]; intros cur H; cbn [split_from].
  - by rewrite app_nil_r_s.
  - cbn [Contains] in H. apply orb_false_iff in H as [H1 H2]. rewrite H1.
    rewrite IH by done. by rewrite <- app_assoc_s.
Qed.

Lemma split_from_app c s t cur :
  Contains s (String c estr) = false →
  split_from (String c estr) (s +:+ String c t) 0 cur
  = (cur +:+ s) :: split_from (String c estr) t 0 estr.
Proof.
  revert cur. induction s as [|a s IH]; intros cur H.
  - cbn [split_from String.append]. unfold prefixb. rewrite Ascii.eqb_refl. simpl.
    by rewrite app_nil_r_s.
  - cbn [Contains] in H. apply orb_false_iff in H as [H1 H2].
    cbn [split_from String.append].
    assert (prefixb (String c estr) (String a (s +:+ String c t)) = false) as ->.
    { cbn in H1 |- *. exact H1. }
    rewrite IH by done. by rewrite <- app_assoc_s.
Qed.

(** A string with exactly one separator. *)
Lemma Split_pair c s t :
  Contains s (String c estr) = false → Contains t (String c estr) = false →
  Split (s +:+ String c t) (String c estr) = [s; t].
Proof.
  intros Hs Ht. unfold Split. rewrite split_from_app by done. simpl.
  by rewrite split_from_no_sep.
Qed.

Lemma Index_app_first c s t :
  Contains s (String c estr) = false → Index (s +:+ String c t) (String c estr) = Some (slen s).
Proof.
  unfold slen. induction s as [|a s IH]; intros H; cbn [String.append Index].
  - cbn. by rewrite Ascii.eqb_refl.
  - cbn [Contains] in H. apply orb_false_iff in H as [H1 H2].
    assert (prefixb (String c estr) (String a (s +:+ String c t)) = false) as ->.
    { cbn in H1 |- *. exact H1. }
    rewrite IH by done. done.
Qed.

Lemma Contains_app_false s t c :
  Contains (s +:+ t) (String c estr) = false ↔
  Contains s (String c estr) = false ∧ Contains t (String c estr) = false.
Proof.
  induction s as [|a s IH].
  - simpl. split; [|naive_solver]. intros H. by split.
  - cbn [String.append Contains]. rewrite !orb_false_iff, IH. cbn. naive_solver.
Qed.

(** ** ASCII bytes *)

Fixpoint has_byte (n : N) (s : string) : bool :=
  match s with
  | EmptyString => false
  | String a s' => N.eqb (code a) n || has_byte n s'
  end.

Lemma has_byte_app n s t : has_byte n (s +:+ t) = has_byte n s || has_byte n t.
Proof. induction s as [|a s IH]; simpl; [done|]. by rewrite IH, orb_assoc. Qed.

Lemma Contains_byte s c : Contains s (String c estr) = has_byte (code c) s.
Proof.
  induction s as [|a s IH]; [done|]. cbn [Contains has_byte]. rewrite IH. f_equal.
  cbn [prefixb]. rewrite andb_true_r. apply eq_true_iff_eq.
  rewrite Ascii.eqb_eq, N.eqb_eq. split; [by intros ->|]. intros E. by apply code_inj in E.
Qed.

(** A chunk holds an ASCII byte only if it is that rune. *)
Definition ascii_faithful (n : N) (c : chunk) : Prop := has_byte n (ck_bytes c) = N.eqb n (ck_rune c).

Lemma faithful_high n r bs :
  (n < 128)%N → (128 ≤ r)%N → has_byte n bs = false → ascii_faithful n (Chunk r bs).
Proof.
  intros Hn Hr Hb. unfold ascii_faithful. simpl. rewrite Hb. symmetry. apply N.eqb_neq. lia.
Qed.

Lemma eqb_high n b : (n < 128)%N → (128 ≤ b)%N → N.eqb b n = false.
Proof. intros. apply N.eqb_neq. lia. Qed.

Lemma lo2_high b : (128 ≤ lo2 b)%N ∧ (b = 224 → lo2 b = 160)%N ∧ (b = 240 → lo2 b = 144)%N.
Proof. unfold lo2. destruct (N.eqb_spec b 224), (N.eqb_spec b 240); lia. Qed.

Lemma chunks_faithful n s : (n < 128)%N → Forall (ascii_faithful n) (chunks s).
Proof.
  intros Hn. induction s as [[|a s] IH] using string_slen_ind; [constructor|].
  assert (∀ t, (slen t < slen (String a s))%nat → Forall (ascii_faithful n) (chunks t)) as IH' by done.
  clear IH. cbn [chunks]. destruct (N.ltb_spec (code a) 128) as [Ha|Ha].
  { constructor; [|apply IH'; unfold slen; simpl; lia]. unfold ascii_faithful. cbn.
    by rewrite orb_false_r, N.eqb_sym. }
  assert (Forall (ascii_faithful n) (Chunk rune_error (String a estr) :: chunks s)) as He.
  { constructor; [|apply IH'; unfold slen; simpl; lia].
    apply faithful_high; [done|done|]. cbn. by rewrite eqb_high. }
  pose proof (lo2_high (code a)) as Hlo.
  destruct (between 194 223 (code a)) eqn:E1; [|destruct (between 224 239 (code a)) eqn:E2;
    [|destruct (between 240 244 (code a)) eqn:E3; [|done]]].
  - apply between_spec in E1. destruct s as [|b s]; [exact He|].
    destruct (between 128 191 (code b)) eqn:Eb; [|done]. apply between_spec in Eb.
    constructor; [|apply IH'; unfold slen; simpl; lia].
    apply faithful_high; [done|lia|]. cbn. by rewrite !eqb_high by lia.
  - apply between_spec in E2. destruct s as [|b [|c s]]; [exact He..|].
    destruct (between (lo2 (code a)) _ (code b)) eqn:Eb; [|done]. apply between_spec in Eb.
    destruct (between 128 191 (code c)) eqn:Ec; [|done]. apply between_spec in Ec. cbn [andb].
    constructor; [|apply IH'; unfold slen; simpl; lia].
    apply faithful_high; [done|lia|]. cbn. by rewrite !eqb_high by lia.
  - apply between_spec in E3. destruct s as [|b [|c [|d s]]]; [exact He..|].
    destruct (between (lo2 (code a)) _ (code b)) eqn:Eb; [|done]. apply between_spec in Eb.
    destruct (between 128 191 (code c)) eqn:Ec; [|done]. apply between_spec in Ec.
    destruct (between 128 191 (code d)) eqn:Ed; [|done]. apply between_spec in Ed. cbn [andb].
    constructor; [|apply IH'; unfold slen; simpl; lia].
    apply faithful_high; [done|lia|]. cbn. by rewrite !eqb_high by lia.
Qed.

Lemma has_byte_runes n s : (n < 128)%N → has_byte n s = existsb (N.eqb n) (runes s).
Proof.
  intros Hn. rewrite <- (concat_chunks_chunks s) at 1. unfold runes.
  induction (chunks_faithful n s Hn) as [|c l Hc _ IH]; [done|].
  simpl. by rewrite has_byte_app, IH, Hc.
Qed.

Lemma has_byte_lower_trim n s :
  (n < 128)%N → lower_stable_check (N.eqb n) = true →
  has_byte n s = false → has_byte n (ToLower (TrimSpace s)) = false.
Proof.
  intros Hn Hl. rewrite !has_byte_runes by done. rewrite runes_ToLower.
  intros Hs. apply existsb_none. intros r Hr. apply list_elem_of_fmap in Hr as (r0 & -> & Hr).
  rewrite (lower_stable (N.eqb n)) by done.
  apply (proj1 (existsb_none _ _) Hs). unfold runes in *. rewrite chunks_TrimSpace in Hr.
  apply list_elem_of_fmap in Hr as (c & -> & Hc). apply list_elem_of_fmap_2.
  unfold drop_while_end in Hc. rewrite elem_of_reverse in Hc. apply drop_while_elem in Hc.
  rewrite elem_of_reverse in Hc. by apply drop_while_elem in Hc.
Qed.

Lemma has_byte_sdrop n k s : has_byte n s = false → has_byte n (sdrop k s) = false.
Proof.
  rewrite <- (stake_sdrop k s) at 1. rewrite has_byte_app, orb_false_iff. by intros [_ ?].
Qed.

Lemma has_byte_stake n k s : has_byte n s = false → has_byte n (stake k s) = false.
Proof.
  rewrite <- (stake_sdrop k s) at 1. rewrite has_byte_app, orb_false_iff. by intros [? _].
Qed.

Lemma Index_cut c s k :
  Index s (String c estr) = Some k → has_byte (code c) (stake k s) = false.
Proof.
  revert k. induction s as [|a s IH]; intros k; cbn [Index]; [done|].
  destruct (prefixb (String c estr) (String a s)) eqn:E; [by intros [= <-]|].
  destruct (Index s (String c estr)) as [m|]; [|done]. intros [= <-]. cbn [stake has_byte].
  rewrite IH by done. cbn [prefixb] in E. rewrite andb_true_r in E.
  rewrite orb_false_r. apply N.eqb_neq. intros Ec. apply code_inj in Ec as ->.
  by rewrite Ascii.eqb_refl in E.
Qed.

#[export] Hint Rewrite TrimSpace_ToLower lower_trim_idemp trim_lower_trim : gostr.
