(* ===== verification/Validate.v ===== *)
(** Validation of emails and of message texts ([internal/validate/]): disposable
    and blacklisted domains, role mailboxes, pain context, commercial intent,
    crypto-gray buyers, segment pain, marketing copy and pasted source code. *)
From S2P Require Import Prelude Unicode GoStrings Utf8Facts TextFacts Regex RegexFacts.

Local Open Scope Z_scope.

(** ** Files of one entry per line

    What [os.Open] and the scanner see of a configuration file.  A line of
    65,536 bytes or more makes [bufio.Scanner] stop with an error; the entries
    before it stay loaded. *)
Inductive file := NotExist | OpenFailed | Content (s : string).

Definition newline : string := String (byte_of 10) estr.
Definition drop_cr (s : string) : string := TrimSuffix s (String (byte_of 13) estr).

(** The lines a [bufio.Scanner] yields before it stops, and whether it stopped
    because of a line too long. *)
Fixpoint take_lines (l : list string) : list string * bool :=
  match l with
  | [] => ([], false)
  | x :: l' =>
      if Z.leb 65536 (Z.of_nat (slen x)) then ([], true)
      else let '(ls, err) := take_lines l' in (drop_cr x :: ls, err)
  end.

Definition drop_last_empty (l : list string) : list string :=
  match reverse l with
  | EmptyString :: r => reverse r
  | _ => l
  end.

Definition scan_lines (content : string) : list string * bool :=
  take_lines (drop_last_empty (Split content newline)).

(** ** State: the sets guarded by [blacklistMu] and [disposableMu] *)

Record validate_state := {
  blacklistedDomains : gset string;
  blacklistedEmails : gset string;
  disposableDomains : gset string;
}.

Definition builtin_disposable : list string :=
  [ "mailinator.com"; "guerrillamail.com"; "tempmail.com"; "10minutemail.com";
    "throwaway.email"; "example.com"; "test.com"; "yopmail.com"; "sharklasers.com";
    "trashmail.com"; "getnada.com"; "temp-mail.org"; "dispostable.com"; "maildrop.cc";
    "fakeinbox.com"; "spamgourmet.com"; "mailnesia.com"; "tempail.com"; "moakt.com";
    "emailondeck.com"; "mohmal.com"; "burnermail.io"; "mailcatch.com"; "mytemp.email";
    "tmpmail.net"; "tmpmail.org"; "mail-temp.com" ].
Definition initial_state : validate_state :=
  {| blacklistedDomains := ∅; blacklistedEmails := ∅;
     disposableDomains := list_to_set builtin_disposable |}.

Definition normalizeBlacklistEntry (line : string) : string :=
  let line := TrimSpace line in
  if String.eqb line estr || HasPrefix line "#" then estr
  else
    let line := match Index line "#" with
                | Some idx => TrimSpace (stake idx line)
                | None => line
                end in
    ToLower line.

Definition normalizeDisposableDomain (line : string) : string :=
  let line := TrimSpace line in
  if String.eqb line estr || HasPrefix line "#" then estr
  else
    let line := match Index line "#" with
                | Some idx => TrimSpace (stake idx line)
                | None => line
                end in
    TrimPrefix (ToLower line) "@".

(** The loading loop: every non-empty normalised line joins the set. *)
Definition load_entries (norm : string → string) (lines : list string) (s : gset string)
    : gset string :=
  foldl (λ acc l, let d := norm l in if String.eqb d estr then acc else {[d]} ∪ acc) s lines.

(** The result is the new state and whether an error is returned. *)
Definition LoadBlacklistDomains (path : string) (f : file) (st : validate_state)
    : validate_state * bool :=
  if String.eqb (TrimSpace path) estr then (st, false)
  else match f with
       | NotExist => (st, false)
       | OpenFailed => (st, true)
       | Content c =>
           let '(lines, err) := scan_lines c in
           ({| blacklistedDomains :=
                 load_entries normalizeBlacklistEntry lines (blacklistedDomains st);
               blacklistedEmails := blacklistedEmails st;
               disposableDomains := disposableDomains st |}, err)
       end.

Definition LoadBlacklistEmails (path : string) (f : file) (st : validate_state)
    : validate_state * bool :=
  if String.eqb (TrimSpace path) estr then (st, false)
  else match f with
       | NotExist => (st, false)
       | OpenFailed => (st, true)
       | Content c =>
           let '(lines, err) := scan_lines c in
           ({| blacklistedDomains := blacklistedDomains st;
               blacklistedEmails :=
                 load_entries normalizeBlacklistEntry lines (blacklistedEmails st);
               disposableDomains := disposableDomains st |}, err)
       end.

Definition LoadDisposableDomains (path : string) (f : file) (st : validate_state)
    : validate_state * bool :=
  if String.eqb (TrimSpace path) estr then (st, false)
  else match f with
       | NotExist => (st, false)
       | OpenFailed => (st, true)
       | Content c =>
           let '(lines, err) := scan_lines c in
           ({| blacklistedDomains := blacklistedDomains st;
               blacklistedEmails := blacklistedEmails st;
               disposableDomains :=
                 load_entries normalizeDisposableDomain lines (disposableDomains st) |}, err)
       end.

Definition BlacklistDomainCount (st : validate_state) : Z := Z.of_nat (size (blacklistedDomains st)).
Definition BlacklistEmailCount (st : validate_state) : Z := Z.of_nat (size (blacklistedEmails st)).
Definition DisposableDomainCount (st : validate_state) : Z := Z.of_nat (size (disposableDomains st)).

Definition IsBlacklisted (st : validate_state) (email domain : string) : bool :=
  let emailClean := ToLower (TrimSpace email) in
  (negb (String.eqb emailClean estr)
   && (bool_decide (emailClean ∈ blacklistedEmails st)
       || match Index emailClean "@" with
          | Some idx => bool_decide (sdrop (idx + 1)%nat emailClean ∈ blacklistedDomains st)
          | None => false
          end))
  || (let domainClean := ToLower (TrimSpace domain) in
      negb (String.eqb domainClean estr)
      && bool_decide (domainClean ∈ blacklistedDomains st)).

Definition IsBlacklistedDomain (st : validate_state) (domain : string) : bool :=
  let domain := TrimPrefix (ToLower (TrimSpace domain)) "www." in
  if String.eqb domain estr then false
  else if decide (domain ∈ blacklistedDomains st) then true
  else existsb (λ blocked, HasSuffix domain ("." +:+ blocked))
         (elements (blacklistedDomains st)).

Definition IsDisposableDomain (st : validate_state) (domain : string) : bool :=
  bool_decide (ToLower (TrimSpace domain) ∈ disposableDomains st).

(** ** Email quality ([email_quality.go]) *)

Definition plusTagBlockDomains : list string :=
  [ "gmail.com"; "googlemail.com"; "outlook.com"; "hotmail.com"; "live.com"; "yahoo.com";
    "icloud.com" ].
Definition executiveLocalParts : list string :=
  [ "ceo"; "cto"; "cio"; "cfo"; "cmo"; "coo"; "founder"; "owner" ].
Definition affiliateB2BLocalParts : list string :=
  [ "ads"; "partners"; "partnerships"; "partner"; "affiliate"; "affiliates"; "bizdev";
    "business"; "bd"; "growth"; "media"; "mediation"; "publisher"; "publishers"; "advertisers";
    "advertising" ].
Definition roleLocalParts : list string :=
  [ "support"; "info"; "contact"; "hello"; "admin"; "sales"; "noreply"; "no-reply";
    "donotreply"; "marketing"; "help"; "hr"; "careers"; "jobs"; "billing"; "service";
    "customerservice"; "customer-service"; "team"; "office"; "press"; "accounts"; "accounting";
    "finance"; "feedback"; "enquiries"; "inquiry"; "recruitment"; "recruiting"; "programmatic";
    "legal"; "compliance"; "newsletter"; "notifications"; "notify"; "postmaster"; "webmaster";
    "mail" ].
(** [net/mail.ParseAddress].  An input of plain address characters (visible
    ASCII without the RFC 5322 specials other than the at sign) is an address
    exactly when it is two dot-atoms joined by one at sign.  Inputs with display
    names, quotes, comments, white space or other runes go to [parse_other],
    the rest of the library parser. *)
Class MailLib := { parse_other : string → option string }.

Definition plain_addr_char (r : N) : bool :=
  between 33 126 r
  && negb (existsb (N.eqb r) [34; 40; 41; 44; 58; 59; 60; 62; 91; 92; 93]%N).

Definition dot_atom (s : string) : bool :=
  negb (String.eqb s estr) && negb (HasPrefix s ".") && negb (HasSuffix s ".")
  && negb (Contains s "..").

Definition ParseAddress `{MailLib} (s : string) : option string :=
  if forallb plain_addr_char (runes s) then
    match Split s "@" with
    | [l; d] => if dot_atom l && dot_atom d then Some s else None
    | _ => None
    end
  else parse_other s.

Definition hasBlockedPlusTag (local domain : string) : bool :=
  if mem domain plusTagBlockDomains then
    match Index local "+" with Some plus => Nat.ltb 0 plus | None => false end
  else false.

Definition IsRoleEmail (email : string) : bool :=
  match Split (ToLower (TrimSpace email)) "@" with
  | [local; _] =>
      let local := match Index local "+" with Some idx => stake idx local | None => local end in
      if mem local executiveLocalParts then false
      else if mem local affiliateB2BLocalParts then false
      else if mem local roleLocalParts then true
      else if has_any_prefix local ["support"; "sales"; "help"; "marketing"] then true
      else Contains local "noreply"
  | _ => false
  end.

Definition AcceptEmail `{MailLib} (st : validate_state) (email : string) : bool :=
  let email := ToLower (TrimSpace email) in
  if String.eqb email estr then false
  else if HasSuffix email ".png" || HasSuffix email ".jpg" then false
  else match ParseAddress email with
       | None => false
       | Some addr =>
           let email := ToLower addr in
           match Split email "@" with
           | [local; domain] =>
               if HasSuffix domain "users.noreply.github.com" then false
               else if IsDisposableDomain st domain then false
               else if IsBlacklistedDomain st domain then false
               else if Contains domain "ingest." && Contains domain "sentry" then false
               else if hasBlockedPlusTag local domain then false
               else if IsRoleEmail email then false
               else true
           | _ => false
           end
       end.

(** [Resolver.HasMX]; the DNS answer is an argument: an error or the number of
    records. *)
Definition HasMX (LookupMX : string → option nat) (email : string) : bool * bool :=
  match Split email "@" with
  | [_; d] => match LookupMX (ToLower d) with
              | None => (false, true)
              | Some n => (negb (Nat.eqb n 0), false)
              end
  | _ => (false, false)
  end.

(** ** Pain context ([context.go]) *)

Definition emailStripRe : re := MustCompile "[a-zA-Z0-9._%+\-]+@[a-zA-Z0-9.\-]+\.[a-zA-Z]{2,}".
Definition urlStripRe : re := MustCompile "(?i)https?://\S+".
Definition telegramStripRe : re := MustCompile "(?:telegram:)?@[a-zA-Z][a-zA-Z0-9_]{3,}".
Definition painContextHints : list string :=
  [ "voluum"; "keitaro"; "binom"; "redtrack"; "clickflare"; "bemob"; "thrivetracker";
    "postback"; "tracker"; "alternative"; "afterburn"; "ftd"; "self-hosted"; "self hosted";
    "cloak"; "cloaker"; "safe page"; "clickid"; "click id"; "conversion"; "billing";
    "expensive"; "migrate"; "switching from"; "s2s"; "openrtb"; "budget overburn";
    "missing ftd"; "per-event"; "media buyer"; "affiliate team"; "affiliate marketing";
    "igaming"; "partner program"; "media buying"; "cpa network"; "affiliate network";
    "performance marketing"; "arbitrage" ].
Definition strictPainContextHints : list string :=
  [ "voluum"; "keitaro"; "binom"; "redtrack"; "clickflare"; "bemob"; "thrivetracker";
    "postback"; "alternative"; "afterburn"; "ftd"; "self-hosted"; "self hosted"; "cloak";
    "cloaker"; "safe page"; "clickid"; "click id"; "conversion"; "billing"; "expensive";
    "migrate"; "switching from"; "s2s"; "openrtb"; "budget overburn"; "missing ftd";
    "per-event"; "tracker" ].
Definition affiliateNetworkHints : list string :=
  [ "affiliate program"; "partner program"; "affiliate network"; "affiliate marketing";
    "igaming"; "media buying"; "performance marketing"; "cpa network"; "become a partner";
    "partner with us"; "affiliate team"; "operators and affiliates" ].
Definition containsAny (lower : string) (hints : list string) : bool :=
  existsb (Contains lower) hints.

Definition HasStrictPainContext (text : string) : bool :=
  let lower := ToLower (TrimSpace text) in
  if String.eqb lower estr then false else existsb (Contains lower) strictPainContextHints.

Definition stripContactArtifacts (text : string) : string :=
  TrimSpace (ReplaceAllString telegramStripRe
    (ReplaceAllString urlStripRe
      (ReplaceAllString emailStripRe text " ") " ") " ").

Definition meaningfulRunes (s : string) : Z :=
  count_if (λ r, is_letter r || is_digit r) (runes s).

Definition HasPainContext (text : string) : bool :=
  let lower := ToLower (TrimSpace text) in
  if String.eqb lower estr then false
  else if existsb (Contains lower) painContextHints then true
  else 48 <=? meaningfulRunes (stripContactArtifacts lower).

Definition HasAffiliateNetworkContext (text : string) : bool :=
  let lower := ToLower (TrimSpace text) in
  if String.eqb lower estr then false else existsb (Contains lower) affiliateNetworkHints.

Definition EmailWithoutPainContext (text : string) : bool :=
  if negb (MatchString emailStripRe text) then false else negb (HasPainContext text).

(** ** Intent ([intent.go]) *)

Definition commercialPainRe : list re := MustCompile <$>
  [ "(?i)\b(?:recommend|suggest|advise)\w*\s+(?:me\s+)?(?:a\s+)?tracker";
    "(?i)\b(?:which|what)\s+tracker\b"; "(?i)\b(?:need|looking for)\s+(?:a\s+)?tracker\b";
    "(?i)\balternative\s+to\s+(?:keitaro|binom|voluum|redtrack|clickflare|bemob|adspect|cloaking\.house|fraudfilter|peerclick|funnelflux|thrivetracker)";
    "(?i)\b(?:keitaro|binom|voluum|redtrack|clickflare|adspect|cloaker|tds)\s+alternative";
    "(?i)\b(?:cloaker|cloaking|proxy|residential proxy|mobile proxy)\s+(?:down|failing|broken|not working)";
    "(?i)\b(?:s2s|postback)\s+(?:dropped|timeout|timed out|fault)";
    "(?i)\btracker\s+(?:fault|bug|broken|crash)";
    "(?i)\bwhat(?:'s| is)\s+better\s+for\s+(?:twa|fb|facebook)";
    "(?i)(?:not|doesn't|does not|won't)\s+track\s+clicks?";
    "(?i)postback\s+(?:fail(?:ed|ing|s)?|broken|not\s+work(?:ing)?|down)";
    "(?i)\bhow\s+to\s+(?:set\s+up|configure|setup)\s+cloak";
    "(?i)\bmigrat(?:e|ing|ion)\s+(?:from|to)\s+(?:keitaro|binom|voluum|redtrack)";
    "(?i)\bswitching\s+from\s+(?:keitaro|binom|voluum|redtrack)"; "(?i)посоветуйте\s+трекер";
    "(?i)какой\s+трекер\s+(?:взять|выбрать|лучше)";
    "(?i)альтернатива\s+(?:keitaro|binom|voluum|redtrack)";
    "(?i)что\s+лучше\s+для\s+(?:twa|fb|фб)"; "(?i)не\s+трекает\s+клик";
    "(?i)отвалился\s+постбек"; "(?i)постб[еэ]к\s+не\s+(?:доходит|работает)";
    "(?i)не\s+трека(?:ет|ются)\s+(?:клик|конверс)"; "(?i)не\s+доходят\s+конверси";
    "(?i)ищу\s+(?:трекер|альтернатив)";
    "(?i)(?:бл[яь][тд]?|пиздец|піздец|за[еї]б|наху[йя]|на\s*хер|йобан|їбан).{0,28}(?:трекер|постбек|постб[еэ]к|keitaro|binom|voluum|redtrack)";
    "(?i)(?:трекер|постбек|постб[еэ]к|keitaro|binom|voluum|redtrack).{0,28}(?:бл[яь][тд]?|пиздец|піздец|за[еї]б|наху[йя]|йобан|їбан)";
    "(?i)как\s+настроить\s+клоак" ].
Definition buyerQuestionRe : list re := MustCompile <$>
  [ "(?i)\b(?:anyone|somebody|who)\s+(?:use|using|recommend|suggest)";
    "(?i)\b(?:can|could)\s+(?:someone|anyone)\s+(?:help|recommend|suggest)";
    "(?i)\b(?:does|do)\s+anyone\s+(?:use|know|recommend)"; "(?i)\bкакой\s+(?:трекер|tracker)";
    "(?i)\bчто\s+(?:лучше|выбрать)" ].
Definition HasCommercialPainIntent (text : string) : bool :=
  let lower := ToLower (TrimSpace text) in
  if String.eqb lower estr then false else match_any commercialPainRe lower.

Definition intentMeaningfulRunes (s : string) : Z :=
  count_if (λ r, is_letter r || is_digit r) (runes s).

Definition HasBuyerQuestionPattern (text : string) : bool :=
  let lower := ToLower (TrimSpace text) in
  if String.eqb lower estr then false
  else if Contains lower "?" && (24 <=? intentMeaningfulRunes lower)
          && (HasCommercialPainIntent lower || HasPainContext lower) then true
  else match_any buyerQuestionRe lower.

(** ** Segment pain ([segment_pain.go]) and crypto-gray buyers ([crypto_icp.go]) *)

Definition pwaPainRe : list re := MustCompile <$>
  [ "(?i)\bpostback\s+from\s+app\b"; "(?i)\bwebview\s+stuck\b";
    "(?i)\bsub[_-]?id\b.{0,40}\b(?:keitaro|binom|voluum|tracker)\b";
    "(?i)\b(?:keitaro|binom|voluum|tracker)\b.{0,40}\bsub[_-]?id\b";
    "(?i)\bredirect\s+delay\b"; "(?i)\bs2s\s+from\s+pwa\b";
    "(?i)\bpwa\b.{0,40}\b(?:postback|tracker|keitaro)\b" ].
Definition hostingIncidentRe : list re := MustCompile <$>
  [ "(?i)\b502\b"; "(?i)\b503\b"; "(?i)\b504\b"; "(?i)\bupstream\b"; "(?i)\babuse\s+suspend";
    "(?i)\bhost(?:er|ing)\b.{0,40}\b(?:block|suspend|down)\b";
    "(?i)\bredirect\b.{0,30}\bdown\b"; "(?i)\bnginx\b.{0,40}\b(?:timeout|error|down)\b" ].
Definition pwaHints : list string :=
  [ "postback"; "keitaro"; "binom"; "voluum"; "tracker"; "sub_id"; "subid"; "s2s" ].
Definition cryptoPayoutHints : list string :=
  [ "trc20"; "erc20"; "usdt"; "crypto payout"; "crypto settlement"; "weekly usdt";
    "daily usdt"; "no kyc"; "capitalist" ].
Definition infraStackHints : list string :=
  [ "keitaro"; "binom"; "zeustrack"; "hideclick"; "cloaking.house"; "cloaking house";
    "fraudfilter"; "js fingerprint"; "maxmind"; "ipqualityscore"; "ipqs"; "voluum"; "redtrack";
    "clickflare"; "bemob" ].
Definition antifraudPainHints : list string :=
  [ "shaving"; "scrubbing"; "bot click"; "fake lead"; "fake leads"; "auto-fill"; "autofill";
    "trash deposit"; "cr drop"; "incentivized traffic"; "fraudulent traffic"; "balance frozen";
    "network froze"; "network frozen" ].
Definition trackerPainHints : list string :=
  [ "voluum"; "keitaro"; "binom"; "redtrack"; "postback"; "tracker"; "clickid"; "cloak"; "s2s" ].
Definition operationalPainHints : list string :=
  [ "failing"; "failed"; "fail"; "crash"; "crashed"; "timeout"; "timed out"; "migration";
    "migrate"; "broken"; "not working"; "doesn't work"; "does not work"; "502"; "503"; "504";
    "upstream"; "discrepancy"; "mismatch"; "nginx" ].
Definition hasPWAPainSignal (text : string) : bool :=
  let body := TrimSpace text in
  if String.eqb body estr then false
  else if match_any pwaPainRe body then true
  else
    let lower := ToLower body in
    if negb (Contains lower "pwa") && negb (Contains lower "webview") then false
    else existsb (Contains lower) pwaHints.

Definition hasHostingIncidentPain (text : string) : bool :=
  let body := TrimSpace text in
  if String.eqb body estr then false
  else if negb (match_any hostingIncidentRe body) then false
  else existsb (Contains (ToLower body)) trackerPainHints.

Definition HasCryptoGrayBuyerSignal (text : string) : bool :=
  let lower := ToLower (TrimSpace text) in
  if String.eqb lower estr then false
  else
    let infra := containsAny lower infraStackHints || containsAny lower trackerPainHints in
    if negb infra then false
    else containsAny lower cryptoPayoutHints || containsAny lower antifraudPainHints.

Definition CryptoGrayScoreBoost : Z := 18.

Definition HasTrackerPainMessage (text : string) : bool :=
  if HasCryptoGrayBuyerSignal text then true
  else if hasPWAPainSignal text || hasHostingIncidentPain text then true
  else
    let lower := ToLower (TrimSpace text) in
    if String.eqb lower estr then false
    else if negb (containsAny lower trackerPainHints) then false
    else containsAny lower operationalPainHints || HasCommercialPainIntent text.

(** ** Marketing copy ([marketing_copy.go]) *)

Definition listicleTitlePatterns : list re := MustCompile <$>
  [ "(?i)\b\d+\s+best\s+.+\s+alternatives?\b";
    "(?i)\bbest\s+.+\s+alternatives?\s+in\s+20\d{2}\b"; "(?i)\btop\s+\d+\s+";
    "(?i)\btop\s+.+\s+tools?\b"; "(?i)\b.+\s+vs\s+.+\b"; "(?i)\b(?:full\s+)?review\b";
    "(?i)\bpricing\b" ].
Definition seoMarketingPhrases : list string :=
  [ "top picks"; "best software"; "best affiliate tracking";
    "alternative designed specifically"; "designed specifically for"; "sign up for";
    "sign up now"; "get started free"; "pricing plans"; "compare plans"; "our top pick";
    "read our review"; "comparison guide"; "affiliate tracking software in 20";
    "tracking software in 202"; "free trial"; "start your free"; "book a demo";
    "request a demo" ].
Definition buyerVoice : list string :=
  [ "postback"; "not working"; "failing"; "broken"; "migrate"; "switching from"; "looking for";
    "need a tracker"; "need tracker"; "recommend"; "anyone"; "help with"; "does anyone";
    "how do i"; "what tracker" ].
Definition hasRealBuyerVoice (combined : string) : bool :=
  if HasBuyerQuestionPattern combined then true
  else existsb (Contains combined) buyerVoice.

Definition IsListicleTitle (title : string) : bool :=
  let title := TrimSpace title in
  if String.eqb title estr then false
  else if match_any listicleTitlePatterns title then true
  else
    let lower := ToLower title in
    if Contains lower "best " && Contains lower "alternative" then true
    else if Contains lower "top " && Contains lower "software" then true
    else false.

Definition ListicleScorePenalty (title : string) : Z :=
  if IsListicleTitle title then 200 else 0.

Definition IsSEOMarketingCopy (text title : string) : bool :=
  let combined := ToLower (TrimSpace (title +:+ " " +:+ text)) in
  if String.eqb combined estr then false
  else
    let marketing := existsb (Contains combined) seoMarketingPhrases || IsListicleTitle title in
    if negb marketing then false else negb (hasRealBuyerVoice combined).

(** ** Pasted source code ([github_code.go]) *)

Definition githubSourceCodeSignals : list re := MustCompile <$>
  [ ("(?i)\bimport\s+[\w*{]+\s+from\s+['" +:+ dq +:+ "]");
    "(?i)\bexport\s+default\s+(?:function|class)\b";
    "(?i)\buse(?:State|Effect|Callback|Memo|Ref)\s*\("; "(?i)\b(?:const|let|var)\s+\w+\s*=\s*";
    "(?i)\bframer-motion\b"; "(?i)\bnext/(?:js|image|link|head)\b";
    "(?i)\breact(?:\.|/|-dom)\b"; "(?i)\.tsx\b|\.jsx\b";
    "(?i)<(?:div|span|script|html|head|body)\b"; "(?i)\bpackage\.json\b";
    "(?i)\bnode_modules/"; "(?i)\bclassName\s*=" ].
Definition IsGitHubSourceCodePaste (text title : string) : bool :=
  let combined := TrimSpace (title +:+ " " +:+ text) in
  if String.eqb combined estr then false
  else if HasCommercialPainIntent combined || HasBuyerQuestionPattern combined then false
  else
    let hits := count_if (λ re, MatchString re combined) githubSourceCodeSignals in
    if 2 <=? hits then true
    else if (1 <=? hits) && (3 <=? Count combined ";") then true
    else false.

(** ** Facts *)

Definition compiled (r : re) : bool := match r with Cls false [] => false | _ => true end.

(** No pattern of the package falls in the default of [MustCompile]. *)
Lemma validate_patterns_compile :
  forallb compiled
    ([emailStripRe; urlStripRe; telegramStripRe] ++ commercialPainRe ++ buyerQuestionRe ++ pwaPainRe ++ hostingIncidentRe
     ++ listicleTitlePatterns ++ githubSourceCodeSignals) = true.
Proof. vm_compute. reflexivity. Qed.

(** The host and every host below it. *)
Definition host_under (host entry : string) : Prop :=
  host = entry ∨ ∃ sub, host = sub +:+ "." +:+ entry.

Definition crawl_host (domain : string) : string :=
  TrimPrefix (ToLower (TrimSpace domain)) "www.".

Lemma IsBlacklistedDomain_spec st domain :
  IsBlacklistedDomain st domain = true ↔
  crawl_host domain ≠ estr ∧
  ∃ b, b ∈ blacklistedDomains st ∧ host_under (crawl_host domain) b.
Proof.
  unfold IsBlacklistedDomain. fold (crawl_host domain). unfold host_under.
  destruct (String.eqb_spec (crawl_host domain) estr) as [E|E]; [naive_solver|].
  case_decide as Hin; [naive_solver|].
  rewrite existsb_elem. setoid_rewrite elem_of_elements. setoid_rewrite HasSuffix_spec.
  naive_solver.
Qed.

Lemma load_entries_spec norm lines s d :
  d ∈ load_entries norm lines s ↔
  d ∈ s ∨ (d ≠ estr ∧ ∃ l, l ∈ lines ∧ norm l = d).
Proof.
  unfold load_entries. revert s. induction lines as [|l lines IH]; intros s; simpl.
  - set_solver.
  - rewrite IH. destruct (String.eqb_spec (norm l) estr); set_solver.
Qed.

Lemma mem_incl_contains s l k :
  forallb (λ x, mem x k) l = true → existsb (Contains s) l = true →
  existsb (Contains s) k = true.
Proof.
  rewrite forallb_forall, !existsb_elem. intros H (x & Hx & Hc). exists x.
  split; [|done]. apply mem_spec, H. by apply list_elem_of_In.
Qed.

(** ** Properties *)

(** The email gate, in full: an address is accepted exactly when, lowered
    and trimmed, it is not an image name, the RFC 5322 parser reads one address
    from it, that address has one at sign, its domain is no GitHub noreply
    host, not disposable, not blacklisted together with its parent domains and
    no Sentry ingest host, it carries no plus tag at a consumer provider and
    its local part is no role mailbox. *)
Theorem AcceptEmail_iff `{MailLib} st email :
  let e := ToLower (TrimSpace email) in
  AcceptEmail st email = true ↔
  e ≠ estr ∧ HasSuffix e ".png" = false ∧ HasSuffix e ".jpg" = false ∧
  ∃ addr local domain,
    ParseAddress e = Some addr ∧ Split (ToLower addr) "@" = [local; domain]
    ∧ HasSuffix domain "users.noreply.github.com" = false
    ∧ (ToLower (TrimSpace domain) ∉ disposableDomains st)
    ∧ (∀ b, b ∈ blacklistedDomains st → crawl_host domain ≠ estr →
         ¬ host_under (crawl_host domain) b)
    ∧ ¬ (Contains domain "ingest." = true ∧ Contains domain "sentry" = true)
    ∧ hasBlockedPlusTag local domain = false
    ∧ IsRoleEmail (ToLower addr) = false.
Proof.
  intros e. unfold AcceptEmail. fold e.
  destruct (String.eqb_spec e estr) as [E|E]; [naive_solver|].
  destruct (HasSuffix e ".png"); [naive_solver|].
  destruct (HasSuffix e ".jpg"); [naive_solver|]. simpl.
  destruct (ParseAddress e) as [addr|] eqn:Ep; [|naive_solver].
  assert (∀ d, IsBlacklistedDomain st d = false ↔
    ∀ b, b ∈ blacklistedDomains st → crawl_host d ≠ estr → ¬ host_under (crawl_host d) b)
    as Hbl.
  { intros d. rewrite <- not_true_iff_false, IsBlacklistedDomain_spec. naive_solver. }
  assert (∀ d, IsDisposableDomain st d = false ↔ ToLower (TrimSpace d) ∉ disposableDomains st)
    as Hdi by (intros d; apply bool_decide_eq_false).
  destruct (Split (ToLower addr) "@") as [|l [|d [|x y]]] eqn:Es;
    [split; [done|]; intros (_ & _ & _ & a & l' & d' & [= <-] & Hs & _); congruence ..| |
     split; [done|]; intros (_ & _ & _ & a & l' & d' & [= <-] & Hs & _); congruence].
  split.
  - intros Ha. repeat split; [done..|]. exists addr, l, d. rewrite <- Hbl, <- Hdi.
    repeat (split_if_in Ha; [discriminate Ha|]).
    repeat split; try done. intros [Hi Hse]. by rewrite Hi, Hse in *.
  - intros (_ & _ & _ & addr' & l' & d' & [= <-] & Hs & H1 & H2 & H3 & H4 & H5 & H6).
    rewrite Es in Hs. injection Hs as <- <-.
    rewrite H1, (proj2 (Hdi _) H2), (proj2 (Hbl _) H3), H5, H6.
    destruct (Contains d "ingest."), (Contains d "sentry"); simpl; naive_solver.
Qed.

(** Loading a blacklist file: afterwards a host is blocked exactly when it
    was blocked before or it is, or lies under, an entry of the file, where the
    entries are the lines without comments and surrounding space, lowered. *)
Theorem LoadBlacklistDomains_blocks path content st host :
  TrimSpace path ≠ estr →
  IsBlacklistedDomain (LoadBlacklistDomains path (Content content) st).1 host = true ↔
  IsBlacklistedDomain st host = true ∨
  (crawl_host host ≠ estr ∧
   ∃ l, l ∈ (scan_lines content).1 ∧ normalizeBlacklistEntry l ≠ estr
        ∧ host_under (crawl_host host) (normalizeBlacklistEntry l)).
Proof.
  intros Hp. rewrite !IsBlacklistedDomain_spec. unfold LoadBlacklistDomains.
  rewrite (proj2 (String.eqb_neq _ _) Hp).
  destruct (scan_lines content) as [lines err]. cbn [fst blacklistedDomains].
  setoid_rewrite load_entries_spec. naive_solver.
Qed.

Lemma LoadBlacklistDomains_blocks_witness :
  IsBlacklistedDomain (LoadBlacklistDomains "black.txt"
    (Content ("# spam" +:+ newline +:+ " Spam.com # x")) initial_state).1 "mx.spam.com" = true.
Proof.
  apply (LoadBlacklistDomains_blocks "black.txt"
    ("# spam" +:+ newline +:+ " Spam.com # x") initial_state "mx.spam.com").
  - vm_compute. discriminate.
  - right. split; [vm_compute; discriminate|]. exists " Spam.com # x".
    split; [apply list_elem_of_In; vm_compute; tauto|].
    split; [vm_compute; discriminate|]. right. exists "mx". reflexivity.
Defined.

(** Plus tags never hide a role mailbox: whatever tag is added to the local
    part, the role test gives the answer of the bare address. *)
Theorem IsRoleEmail_plus_tag local tag domain :
  Contains local "+" = false → Contains local "@" = false →
  Contains tag "@" = false → Contains domain "@" = false →
  ToLower (TrimSpace (local +:+ "@" +:+ domain)) = local +:+ "@" +:+ domain →
  ToLower (TrimSpace (local +:+ "+" +:+ tag +:+ "@" +:+ domain))
    = local +:+ "+" +:+ tag +:+ "@" +:+ domain →
  IsRoleEmail (local +:+ "+" +:+ tag +:+ "@" +:+ domain)
  = IsRoleEmail (local +:+ "@" +:+ domain).
Proof.
  intros Hp Hl Ht Hd H1 H2. unfold IsRoleEmail. rewrite H1, H2.
  change ("@" +:+ domain) with (String "@" domain).
  replace (local +:+ "+" +:+ tag +:+ String "@" domain)
    with ((local +:+ String "+" tag) +:+ String "@" domain)
    by (by rewrite <- app_assoc_s).
  rewrite !Split_pair; [|done|done| |done].
  - rewrite Index_app_first by done. rewrite stake_app.
    by rewrite (proj2 (Index_None local "+") Hp).
  - apply Contains_app_false. split; [done|]. cbn [Contains]. by rewrite Ht.
Qed.

Lemma IsRoleEmail_plus_tag_witness :
  IsRoleEmail "support+x1@acme.io" = true.
Proof.
  assert (IsRoleEmail "support@acme.io" = true) as <- by (vm_compute; reflexivity).
  apply (IsRoleEmail_plus_tag "support" "x1" "acme.io"); vm_compute; reflexivity.
Defined.

(** A blacklist entry written with its [www.] is dead: the lookup strips the
    prefix from the host but the loader keeps it in the entry, so a file whose
    only entry is [www.x] blocks neither [www.x] nor [x]. *)
Theorem blacklist_www_entry_dead path content line x :
  TrimSpace path ≠ estr → (scan_lines content).1 = [line] →
  normalizeBlacklistEntry line = "www." +:+ x →
  crawl_host ("www." +:+ x) = x →
  let st := (LoadBlacklistDomains path (Content content) initial_state).1 in
  IsBlacklistedDomain st ("www." +:+ x) = false.
Proof.
  intros Hp Hl Hn Hx st. apply not_true_iff_false. rewrite IsBlacklistedDomain_spec, Hx.
  intros (_ & b & Hb & Hu). subst st. unfold LoadBlacklistDomains in Hb.
  rewrite (proj2 (String.eqb_neq _ _) Hp) in Hb.
  destruct (scan_lines content) as [lines err]. simpl in Hl. subst lines.
  apply load_entries_spec in Hb as [Hb|(_ & l & ->%list_elem_of_singleton & Hb)];
    [by apply not_elem_of_empty in Hb|].
  rewrite Hn in Hb. subst b.
  destruct Hu as [Hu|[sub Hu]]; apply (f_equal slen) in Hu;
    rewrite !slen_app in Hu; cbn in Hu; lia.
Qed.

Lemma blacklist_www_entry_dead_witness :
  IsBlacklistedDomain
    (LoadBlacklistDomains "black.txt" (Content "www.spam.com") initial_state).1
    "www.spam.com" = false.
Proof.
  apply (blacklist_www_entry_dead "black.txt" "www.spam.com" "www.spam.com" "spam.com").
  - vm_compute. discriminate.
  - reflexivity.
  - reflexivity.
  - reflexivity.
Defined.

(** The Russian buyer-question patterns are dead in Russian text: they start
    with [\b], which RE2 reads over ASCII word characters only, so in a text
    without ASCII letters or digits none of the patterns of [buyerQuestionRe]
    matches, not even the two written for Russian, and the question is only
    recognised through its question mark and pain context. *)
Theorem buyer_question_russian_dead text :
  no_ascii_word (ToLower (TrimSpace text)) = true →
  Contains (ToLower (TrimSpace text)) "?" = false →
  HasBuyerQuestionPattern text = false.
Proof.
  intros Hw Hq. unfold HasBuyerQuestionPattern.
  rewrite (match_any_no_ascii_word buyerQuestionRe); [|vm_compute; reflexivity|done].
  rewrite Hq. by destruct (String.eqb _ _).
Qed.

Lemma buyer_question_russian_dead_witness :
  HasBuyerQuestionPattern "какой трекер посоветуете" = false.
Proof. apply buyer_question_russian_dead; vm_compute; reflexivity. Defined.
