(* ===== verification/Classify.v ===== *)
(** Pain buckets and tier hints for sales cards
    ([internal/classify/bidshard_pain.go]). *)
From S2P Require Import Prelude GoStrings Regex RegexFacts.

Record BidShardPain := {
  PainBucket : string;
  TierHint : string;
  TierConfidence : string;
  PitchKey : string;
  PitchLine : string;
}.

Definition cloakStackRe : list re := MustCompile <$>
  [ "(?i)\b(?:hideclick|adspect|cloak\s*it|cloaking\.house)\b";
    "(?i)\bcloak\b.{0,40}\b(?:overprice|expensive|too\s+expensive|click\s+limit)";
    "(?i)\b(?:overprice|expensive)\b.{0,40}\bcloak\b" ].
Definition shaveRe : list re := MustCompile <$>
  [ "(?i)\b(?:shav(?:e|es|ing)|scrub(?:bing)?)\b.{0,60}\b(?:lead|deposit|ftd|conversion)";
    "(?i)\b(?:prove|proof)\b.{0,40}\b(?:shav|scrub|discrep)"; "(?i)\bdiscrep(?:ancy|ancies)\b";
    "(?i)\b(?:tracker|трекер)\b.{0,30}\b(?:network|партнерк)";
    "(?i)\b(?:network|партнерк)\b.{0,30}\b(?:tracker|трекер)" ].
Definition infraScaleRe : list re := MustCompile <$>
  [ "(?i)\b(?:keitaro|binom|voluum)\b.{0,40}\b(?:32\s*gb|ram|oom|502|503|504)\b";
    "(?i)\bmysql\b.{0,40}\b(?:cpu|100%|spike|slow)\b"; "(?i)\b(?:clickhouse|ingest)\b";
    "(?i)\b(?:redirect|click-to-land).{0,40}\b(?:slow|1\.5s|kill)\b";
    "(?i)\b\d{2,}\s*k\s*(?:click|clicks)\b"; "(?i)\b\d+\s*(?:к|k)\s*клик";
    "(?i)\badmin\b.{0,30}\b(?:min|load|hang)\b" ].
Definition abuseDDoSRe : list re := MustCompile <$>
  [ "(?i)\b(?:ddos|d\.dos)\b"; "(?i)\b(?:click\s+fraud|bot\s+link|competitor.{0,20}bot)\b";
    "(?i)\b(?:hoster|hosting)\b.{0,40}\b(?:block|abuse|ddos)\b";
    "(?i)\btracking\s+domain\b.{0,40}\b(?:attack|flood|bot)\b" ].
Definition volumeRe : re := MustCompile "(?i)(?:\d{2,}\s*k\s*(?:click|clicks)|\d+\s*(?:к|k)\s*клик)".
Definition anyMatch (body : string) (patterns : list re) : bool :=
  existsb (λ rx, MatchString rx body) patterns.

Definition ClassifyBidShardPain (text : string) : option BidShardPain :=
  let body := TrimSpace text in
  if String.eqb body estr then None
  else if anyMatch body abuseDDoSRe then
    let conf :=
      if MatchString volumeRe body then "high"
      else if negb (MatchString (MustCompile "(?i)\b(?:volume|clicks|клик|traffic)\b") body)
      then "low" else "med" in
    Some {| PainBucket := "abuse_ddos"; TierHint := "enterprise"; TierConfidence := conf;
            PitchKey := "ebpf_edge";
            PitchLine := "eBPF/XDP edge drop before TCP stack (qualify volume before Enterprise)" |}
  else if anyMatch body infraScaleRe then
    let tier :=
      if MatchString volumeRe body
         || MatchString (MustCompile "(?i)\b(?:network|agency)\b") body
      then "network" else "scale" in
    let conf := if MatchString volumeRe body then "med" else "low" in
    Some {| PainBucket := "infra_scale"; TierHint := tier; TierConfidence := conf;
            PitchKey := "clickhouse_ingest";
            PitchLine := "Go ingest + ClickHouse analytics; ms redirects on same VPS" |}
  else if anyMatch body shaveRe then
    Some {| PainBucket := "shave_discrepancy"; TierHint := "pro"; TierConfidence := "med";
            PitchKey := "postback_trail";
            PitchLine := "Postback Trail: every hop + raw gateway response; export shave proof" |}
  else if anyMatch body cloakStackRe then
    let tier :=
      if MatchString (MustCompile "(?i)\b(?:fb|facebook|google)\b") body
      then "pro" else "starter" in
    Some {| PainBucket := "cloak_stack_cost"; TierHint := tier; TierConfidence := "med";
            PitchKey := "cloak_filter_endpoint";
            PitchLine := "Built-in filter endpoint on VPS; decoy 202 vs external cloak APIs" |}
  else None.

(** [tier[:1]] cuts one byte. *)
Definition TierLabel (tier : string) : string :=
  if String.eqb tier "starter" then "Starter"
  else if String.eqb tier "pro" then "Pro"
  else if String.eqb tier "scale" then "Scale"
  else if String.eqb tier "network" then "Network"
  else if String.eqb tier "enterprise" then "Enterprise"
  else if String.eqb tier estr then estr
  else ToUpper (stake 1 tier) +:+ sdrop 1 tier.

Definition PainBucketLabel (bucket : string) : string :=
  if String.eqb bucket "cloak_stack_cost" then "cloak overprice"
  else if String.eqb bucket "shave_discrepancy" then "shave / discrepancy"
  else if String.eqb bucket "infra_scale" then "infra scale"
  else if String.eqb bucket "abuse_ddos" then "click fraud / DDoS"
  else ReplaceAll bucket "_" " ".

(** ** Properties *)

(** The tiers and buckets the sales cards know. *)
Definition known_tiers : list string := ["starter"; "pro"; "scale"; "network"; "enterprise"].
Definition known_buckets : list string :=
  ["cloak_stack_cost"; "shave_discrepancy"; "infra_scale"; "abuse_ddos"].

(** Abuse wins over infrastructure, infrastructure over shaving, shaving over
    cloaking: the bucket is the first class in that order that has a match. *)
Lemma ClassifyBidShardPain_bucket text :
  let body := TrimSpace text in
  PainBucket <$> ClassifyBidShardPain text =
  if String.eqb body estr then None
  else if anyMatch body abuseDDoSRe then Some "abuse_ddos"
  else if anyMatch body infraScaleRe then Some "infra_scale"
  else if anyMatch body shaveRe then Some "shave_discrepancy"
  else if anyMatch body cloakStackRe then Some "cloak_stack_cost" else None.
Proof.
  intros body. unfold ClassifyBidShardPain. fold body. by split_ifs.
Qed.

Lemma ClassifyBidShardPain_known text p :
  ClassifyBidShardPain text = Some p →
  PainBucket p ∈ known_buckets ∧ TierHint p ∈ known_tiers.
Proof.
  unfold ClassifyBidShardPain, known_buckets, known_tiers.
  repeat split_if; intros [= <-]; simpl; repeat split_if; set_solver.
Qed.
