(* ===== verification/Registry.v ===== *)
(** The keyword registry ([internal/scoring/registry.go], [keyword_ids.go]) and
    the competitor-pain expander ([expander.go]).  The registry is read and
    replaced under its lock, so every operation is one atomic step on the
    record. *)
From S2P Require Import Prelude Unicode GoStrings Utf8Facts TextFacts GoSort Matcher.

Local Open Scope Z_scope.

Record priorityConfig := { HighMin : Z; MediumMin : Z }.

Record keywordsFile := {
  Priority_cfg : priorityConfig;
  Keywords : list keywordEntry;
  Titles : list keywordEntry;
  Negative : list keywordEntry;
  HardReject_entries : list keywordEntry;
}.

Record Registry := {
  keywordRules : list keywordRule;
  titleRules : list keywordRule;
  negativeRules : list keywordRule;
  hardRejectRules : list keywordRule;
  phraseSet : gmap string string;
  highMin : Z;
  mediumMin : Z;
  jsonPath : string;
}.

Definition defaultHighMin : Z := 35.
Definition defaultMediumMin : Z := 15.

Definition NewRegistry (jsonPath : string) : Registry := {|
  keywordRules := []; titleRules := []; negativeRules := []; hardRejectRules := [];
  phraseSet := ∅; highMin := defaultHighMin; mediumMin := defaultMediumMin;
  jsonPath := jsonPath |}.

Definition NormalizePhrase (s : string) : string :=
  Join (Fields (ToLower (TrimSpace s))) " ".

(** ** Loading *)

Definition isHardRejectTag (tag : string) : bool :=
  let t := ToLower (TrimSpace tag) in
  String.eqb t "hard-reject" || String.eqb t "hard_reject".

Fixpoint splitHardRejectEntries (entries : list keywordEntry)
    : list keywordEntry * list keywordEntry :=
  match entries with
  | [] => ([], [])
  | e :: es =>
      let '(score, hard) := splitHardRejectEntries es in
      if isHardRejectTag (entry_Tag e) then (score, e :: hard) else (e :: score, hard)
  end.

Definition empty_file : keywordsFile := {|
  Priority_cfg := {| HighMin := 0; MediumMin := 0 |};
  Keywords := []; Titles := []; Negative := []; HardReject_entries := [] |}.

Definition normalizeKeywordFile (file : option keywordsFile) : keywordsFile :=
  match file with
  | None => empty_file
  | Some f =>
      let '(kw, kwHard) := splitHardRejectEntries (Keywords f) in
      let '(titles, titlesHard) := splitHardRejectEntries (Titles f) in
      let '(neg, negHard) := splitHardRejectEntries (Negative f) in
      {| Priority_cfg := Priority_cfg f; Keywords := kw; Titles := titles; Negative := neg;
         HardReject_entries :=
           ((HardReject_entries f ++ kwHard) ++ titlesHard) ++ negHard |}
  end.

(** The rules of a later list, and later rules of one list, win. *)
Definition add_phrases (m : gmap string string) (rules : list keywordRule)
    : gmap string string :=
  foldl (λ m r, <[NormalizePhrase (rule_phrase r) := rule_id r]> m) m rules.

Definition rebuildPhraseSet (kw title neg : list keywordRule) : gmap string string :=
  add_phrases (add_phrases (add_phrases ∅ kw) title) neg.

Section load.
(** [loadKeywordsFile]: reading and parsing the JSON of a path; [None] is an
    error. *)
Context (loadKeywordsFile : string → option keywordsFile).

Definition add_overlay (file : keywordsFile) (overlayPath : string) : keywordsFile :=
  if String.eqb (TrimSpace overlayPath) estr then file
  else match loadKeywordsFile overlayPath with
       | None => file
       | Some overlay => {|
           Priority_cfg := Priority_cfg file;
           Keywords := Keywords file ++ Keywords overlay;
           Titles := Titles file ++ Titles overlay;
           Negative := Negative file ++ Negative overlay;
           HardReject_entries := HardReject_entries file ++ HardReject_entries overlay |}
       end.

(** The new registry; [None] is the error of the base file, which leaves the
    registry as it was. *)
Definition loadFiles (r : Registry) (basePath : string) (overlayPaths : list string)
    : option Registry :=
  match loadKeywordsFile basePath with
  | None => None
  | Some file =>
      let file := normalizeKeywordFile (Some (foldl add_overlay file overlayPaths)) in
      let kw := rulesFromEntries (Keywords file) in
      let title := rulesFromEntries (Titles file) in
      let neg := rulesFromEntries (Negative file) in
      Some {|
        keywordRules := kw; titleRules := title; negativeRules := neg;
        hardRejectRules := rulesFromEntries (HardReject_entries file);
        phraseSet := rebuildPhraseSet kw title neg;
        highMin := if 0 <? HighMin (Priority_cfg file)
                   then HighMin (Priority_cfg file) else highMin r;
        mediumMin := if 0 <? MediumMin (Priority_cfg file)
                     then MediumMin (Priority_cfg file) else mediumMin r;
        jsonPath := jsonPath r |}
  end.

Definition Load (r : Registry) : option Registry := loadFiles r (jsonPath r) [estr].

Definition LoadWithOverlay (r : Registry) (basePath overlayPath : string)
    : option Registry :=
  if String.eqb overlayPath estr then loadFiles r basePath []
  else loadFiles r basePath [overlayPath].

Definition LoadWithOverlays (r : Registry) (basePath : string)
    (overlayPaths : list string) : option Registry :=
  loadFiles r basePath overlayPaths.
End load.

(** ** Queries *)

Record HardRejectHit := { hr_ID : string; hr_Phrase : string }.

Fixpoint first_hard (body : string) (rules : list keywordRule) : option HardRejectHit :=
  match rules with
  | [] => None
  | rule :: rs =>
      if String.eqb (rule_phrase rule) estr then first_hard body rs
      else if Contains body (rule_phrase rule)
           then Some {| hr_ID := rule_id rule; hr_Phrase := rule_phrase rule |}
           else first_hard body rs
  end.

(** A nil registry rejects nothing. *)
Definition HardReject (r : option Registry) (text : string) : option HardRejectHit :=
  match r with
  | None => None
  | Some r => first_hard (ToLower text) (hardRejectRules r)
  end.

Definition KeywordWeights (r : option Registry) : gmap string Z :=
  match r with
  | None => ∅
  | Some r =>
      foldl (λ m rule, if String.eqb (rule_id rule) estr then m
                       else <[rule_id rule := rule_weight rule]> m) ∅ (keywordRules r)
  end.

(** ** Keyword ids of a match summary ([keyword_ids.go]) *)

(** The guards [i > 0] leave a bracket at the first byte alone. *)
Definition cut_at (s : string) (i : option nat) : option string :=
  match i with
  | Some i => if Nat.ltb 0 i then Some (TrimSpace (stake i s)) else None
  | None => None
  end.

Definition matchedPhrase (s : string) : string :=
  match cut_at s (LastIndex s "(+") with
  | Some p => p
  | None => match cut_at s (LastIndex s "(-") with
            | Some p => p
            | None => TrimSpace s
            end
  end.

Fixpoint keyword_ids_from (phrases : gmap string string) (seen : gset string)
    (matched : list string) : list string :=
  match matched with
  | [] => []
  | m :: ms =>
      match phrases !! NormalizePhrase (matchedPhrase m) with
      | None => keyword_ids_from phrases seen ms
      | Some id =>
          if String.eqb id estr then keyword_ids_from phrases seen ms
          else if decide (id ∈ seen) then keyword_ids_from phrases seen ms
          else id :: keyword_ids_from phrases ({[id]} ∪ seen) ms
      end
  end.

Definition KeywordIDsFromMatched (r : option Registry) (matched : list string) : list string :=
  match r with
  | None => []
  | Some r => keyword_ids_from (phraseSet r) ∅ matched
  end.

(** ** Competitor-pain permutations ([expander.go]) *)

Definition competitors : list string :=
  [ "voluum"; "keitaro"; "redtrack"; "binom"; "funnelflux"; "bemob"; "kintura"; "cpv lab";
    "peerclick"; "prosper202"; "clickflare"; "scaleo"; "stape" ].
Definition painPhrases : list string :=
  [ "alternative"; "too expensive"; "postback failing"; "missing ftd"; "self-hosted";
    "postback error"; "migration"; "pricing"; "down"; "slow"; "tracking broken"; "event cap";
    "enterprise plan"; "click id not found"; "ftd discrepancy"; "event overage";
    "numbers don't match" ].
Definition locales : list string :=
  [ "en"; "es"; "pt"; "de"; "fr"; "pl" ].
Record KeywordExpander := {
  ke_competitors : list string; ke_painPhrases : list string; ke_locales : list string }.

Definition NewKeywordExpander : KeywordExpander :=
  {| ke_competitors := competitors; ke_painPhrases := painPhrases; ke_locales := locales |}.

Definition GeneratePermutations (e : KeywordExpander) : list string :=
  ke_competitors e ≫= λ comp, (λ pain, comp +:+ " " +:+ pain) <$> ke_painPhrases e.

(** The first competitor, and with it the first pain phrase, found in the text;
    [None] is the panic of the index [-1] when a list is empty. *)
Fixpoint match_pain (lower comp : string) (pains : list string) : option string :=
  match pains with
  | [] => None
  | pain :: ps =>
      if Contains lower pain then Some (comp +:+ " " +:+ pain) else match_pain lower comp ps
  end.

Fixpoint match_comp (lower : string) (comps pains : list string) : bool * string :=
  match comps with
  | [] => (false, estr)
  | comp :: cs =>
      if negb (Contains lower comp) then match_comp lower cs pains
      else match match_pain lower comp pains with
           | Some hit => (true, hit)
           | None => match_comp lower cs pains
           end
  end.

Definition MatchPermutation (e : KeywordExpander) (text : string) : option (bool * string) :=
  if String.eqb text estr then Some (false, estr)
  else match ke_competitors e, ke_painPhrases e with
       | _ :: _, _ :: _ =>
           Some (match_comp (ToLower text) (ke_competitors e) (ke_painPhrases e))
       | _, _ => None
       end.

(** ** Facts *)

Lemma splitHardRejectEntries_spec es :
  let '(score, hard) := splitHardRejectEntries es in
  score ++ hard ≡ₚ es
  ∧ (∀ e, e ∈ score → isHardRejectTag (entry_Tag e) = false)
  ∧ (∀ e, e ∈ hard → isHardRejectTag (entry_Tag e) = true).
Proof.
  induction es as [|e es IH]; simpl; [set_solver|].
  destruct (splitHardRejectEntries es) as [score hard]. destruct IH as (Hp & Hs & Hh).
  destruct (isHardRejectTag (entry_Tag e)) eqn:E; (split; [|set_solver]).
  - rewrite <- Permutation_middle. by rewrite Hp.
  - simpl. by rewrite Hp.
Qed.

Lemma rulesFromEntries_app es fs :
  rulesFromEntries (es ++ fs) = rulesFromEntries es ++ rulesFromEntries fs.
Proof.
  induction es as [|e es IH]; simpl; [done|]. rewrite IH. by destruct (String.eqb _ _).
Qed.

Lemma rulesFromEntries_perm es fs :
  es ≡ₚ fs → rulesFromEntries es ≡ₚ rulesFromEntries fs.
Proof.
  induction 1 as [| |x y l|]; simpl; [done| | |by etrans].
  - destruct (String.eqb _ _); [done|by constructor].
  - do 2 destruct (String.eqb _ _); try done. apply Permutation_swap.
Qed.

Lemma rulesFromEntries_elem es r :
  r ∈ rulesFromEntries es ↔
  ∃ e, e ∈ es ∧ entry_Phrase e ≠ estr ∧ r = entryToRule e.
Proof.
  induction es as [|e es IH]; simpl; [set_solver|].
  destruct (String.eqb_spec (entry_Phrase e) estr) as [E|E].
  - rewrite IH. set_solver.
  - rewrite elem_of_cons, IH. set_solver.
Qed.

(** Every entry of a normalised file, whatever list it is in. *)
Definition all_entries (f : keywordsFile) : list keywordEntry :=
  Keywords f ++ Titles f ++ Negative f ++ HardReject_entries f.

Lemma normalizeKeywordFile_perm f :
  all_entries (normalizeKeywordFile (Some f)) ≡ₚ all_entries f.
Proof.
  unfold normalizeKeywordFile, all_entries.
  pose proof (splitHardRejectEntries_spec (Keywords f)) as H1.
  pose proof (splitHardRejectEntries_spec (Titles f)) as H2.
  pose proof (splitHardRejectEntries_spec (Negative f)) as H3.
  destruct (splitHardRejectEntries (Keywords f)) as [s1 h1],
    (splitHardRejectEntries (Titles f)) as [s2 h2],
    (splitHardRejectEntries (Negative f)) as [s3 h3].
  destruct H1 as [H1 _], H2 as [H2 _], H3 as [H3 _]. simpl.
  rewrite <- H1, <- H2, <- H3. solve_Permutation.
Qed.

Lemma first_hard_spec body rules :
  match first_hard body rules with
  | Some h => ∃ l1 r l2, rules = l1 ++ r :: l2
      ∧ h = {| hr_ID := rule_id r; hr_Phrase := rule_phrase r |}
      ∧ rule_phrase r ≠ estr ∧ Contains body (rule_phrase r) = true
      ∧ ∀ r', r' ∈ l1 → rule_phrase r' ≠ estr → Contains body (rule_phrase r') = false
  | None => ∀ r, r ∈ rules → rule_phrase r ≠ estr → Contains body (rule_phrase r) = false
  end.
Proof.
  induction rules as [|r rs IH]; simpl; [set_solver|].
  destruct (String.eqb_spec (rule_phrase r) estr) as [E|E];
    [|destruct (Contains body (rule_phrase r)) eqn:Ec].
  2: { exists [], r, rs. set_solver. }
  all: destruct (first_hard body rs) as [h|];
    [destruct IH as (l1 & r0 & l2 & -> & ? & ? & ? & ?); exists (r :: l1), r0, l2; set_solver
    |set_solver].
Qed.

Lemma LastIndex_None s p : LastIndex s p = None ↔ Contains s p = false.
Proof.
  induction s as [|a s IH]; cbn [LastIndex Contains].
  - by destruct (prefixb p estr).
  - rewrite orb_false_iff, <- IH. destruct (LastIndex s p); [naive_solver|].
    destruct (prefixb p _); naive_solver.
Qed.

(** The last occurrence is the one after [a] when none starts later. *)
Lemma LastIndex_last a c p b :
  Contains (p +:+ b) (String c p) = false →
  LastIndex (a +:+ String c p +:+ b) (String c p) = Some (slen a).
Proof.
  intros H. unfold slen. induction a as [|x a IH].
  - cbn [String.append LastIndex]. apply LastIndex_None in H. rewrite H.
    cbn [prefixb]. by rewrite Ascii.eqb_refl, prefixb_app.
  - cbn [String.append LastIndex] in IH |- *. by rewrite IH.
Qed.

Lemma no_byte_no_phrase s c p :
  Contains s (String c estr) = false → Contains s (String c p) = false.
Proof.
  intros H. apply not_true_iff_false. intros Hc.
  enough (Contains s (String c estr) = true) by congruence.
  eapply Contains_trans; [exact Hc|].
  change (String c p) with (String c estr +:+ p). apply Contains_app_l.
  cbn. by rewrite Ascii.eqb_refl.
Qed.

(** A two-byte pattern across the seam of a concatenation. *)
Lemma Contains_app_pair s t c d :
  Contains s (String c (String d estr)) = false →
  Contains t (String c (String d estr)) = false →
  prefixb (String d estr) t = false →
  Contains (s +:+ t) (String c (String d estr)) = false.
Proof.
  intros Hs Ht Hd. induction s as [|a s IH]; [done|].
  cbn [Contains] in Hs. apply orb_false_iff in Hs as [H1 H2].
  cbn [String.append Contains]. rewrite IH, orb_false_r by done.
  cbn [prefixb] in H1 |- *. destruct (Ascii.eqb c a); [|done].
  destruct s as [|b s]; [exact Hd|exact H1].
Qed.

Lemma digit_byte_not n c :
  (0 <= n)%Z → (code c < 48)%N → Ascii.eqb c (byte_of (Z.to_N (48 + n mod 10)%Z)) = false.
Proof.
  intros Hn Hc. apply Ascii.eqb_neq. intros ->.
  pose proof (Z.mod_pos_bound n 10). rewrite code_byte_of in Hc; lia.
Qed.

Lemma itoa_no_low c n : (code c < 48)%N → Contains (itoa n) (String c estr) = false.
Proof.
  intros Hc. unfold itoa. destruct (Z.eqb_spec n 0).
  { cbn. rewrite andb_true_r, orb_false_r. apply Ascii.eqb_neq. intros ->. by vm_compute in Hc. }
  assert (Contains estr (String c estr) = false) as Ha by done. revert Ha.
  generalize estr at 1 3 as acc. generalize 16%nat as fuel. intros fuel. revert n n0.
  induction fuel as [|f IH]; intros n Hn acc Ha; cbn [itoa_digits]; [done|].
  destruct (Z.ltb_spec 0 n); [|done].
  assert (Contains (String (byte_of (Z.to_N (48 + n mod 10))) acc) (String c estr) = false)
    as Ha'.
  { cbn [Contains prefixb]. rewrite digit_byte_not by lia. done. }
  destruct (decide (n / 10 = 0)) as [->|]; [|by apply IH].
  by destruct f.
Qed.

Lemma matchedPhrase_formatHit h :
  hit_Phrase h ≠ estr → Contains (hit_Phrase h) "(+" = false →
  matchedPhrase (formatHit h) = TrimSpace (hit_Phrase h).
Proof.
  intros Hp Hc. unfold formatHit, matchedPhrase, cut_at.
  assert ((0 <? slen (hit_Phrase h))%nat = true) as Hl.
  { apply Nat.ltb_lt. pose proof (slen_0 (hit_Phrase h)). destruct (slen _); [naive_solver|lia]. }
  assert (∀ n, Contains (itoa n +:+ ")") "(" = false) as Ht.
  { intros n. apply Contains_app_false. split; [by apply itoa_no_low|done]. }
  destruct (hit_Weight h <? 0).
  - assert (LastIndex (hit_Phrase h +:+ "(-" +:+ itoa (- hit_Weight h) +:+ ")") "(+" = None)
      as ->.
    { apply LastIndex_None, Contains_app_pair; [done| |done].
      cbn [String.append Contains]. apply orb_false_iff. split; [done|].
      apply no_byte_no_phrase. apply Ht. }
    rewrite (LastIndex_last (hit_Phrase h) "("%char "-"), Hl, stake_app; [done|].
    apply no_byte_no_phrase. apply Ht.
  - rewrite (LastIndex_last (hit_Phrase h) "("%char "+"), Hl, stake_app; [done|].
    apply no_byte_no_phrase. apply Ht.
Qed.

Lemma add_phrases_lookup m rules k :
  k ∉ (NormalizePhrase ∘ rule_phrase) <$> rules → add_phrases m rules !! k = m !! k.
Proof.
  unfold add_phrases. revert m. induction rules as [|r rs IH]; intros m Hk; simpl; [done|].
  rewrite IH by set_solver. rewrite lookup_insert_ne; [done|]. intros <-. apply Hk. by left.
Qed.

Lemma add_phrases_in m rules r :
  NoDup ((NormalizePhrase ∘ rule_phrase) <$> rules) → r ∈ rules →
  add_phrases m rules !! NormalizePhrase (rule_phrase r) = Some (rule_id r).
Proof.
  unfold add_phrases. revert m. induction rules as [|r' rs IH]; intros m Hn Hr; [set_solver|].
  simpl. inversion Hn; subst. apply elem_of_cons in Hr as [->|Hr].
  - change (add_phrases (<[NormalizePhrase (rule_phrase r') := rule_id r']> m) rs
      !! NormalizePhrase (rule_phrase r') = Some (rule_id r')).
    rewrite add_phrases_lookup by done. by rewrite lookup_insert_eq.
  - by apply IH.
Qed.

Lemma rebuildPhraseSet_app kw title neg :
  rebuildPhraseSet kw title neg = add_phrases ∅ (kw ++ title ++ neg).
Proof. unfold rebuildPhraseSet, add_phrases. by rewrite !foldl_app. Qed.

Lemma keyword_ids_from_spec phrases seen ms rs :
  Forall2 (λ m r, phrases !! NormalizePhrase (matchedPhrase m) = Some (rule_id r)
                  ∧ rule_id r ≠ estr) ms rs →
  keyword_ids_from phrases seen ms = dedup_from id seen (rule_id <$> rs).
Proof.
  intros H. revert seen. induction H as [|m r ms rs [Hl Hn] _ IH]; intros seen; [done|].
  cbn [keyword_ids_from fmap list_fmap dedup_from]. rewrite Hl.
  rewrite (proj2 (String.eqb_neq _ _) Hn). change (id (rule_id r)) with (rule_id r).
  rewrite IH, IH. reflexivity.
Qed.

Lemma NormalizePhrase_trim s : NormalizePhrase (TrimSpace s) = NormalizePhrase s.
Proof. unfold NormalizePhrase. by rewrite TrimSpace_idemp. Qed.

Definition rule_hit (r : keywordRule) : MatchHit :=
  {| hit_Phrase := rule_phrase r; hit_Weight := rule_weight r; hit_Tag := rule_tag r |}.

Definition scoring_rules (r : Registry) : list keywordRule :=
  keywordRules r ++ titleRules r ++ negativeRules r.

(** ** Properties *)

(** Loading sorts every entry into exactly one side: the rules of the new
    registry are the entries of the base file and of the overlays that could be
    read (those with a phrase), as a multiset; the rules that score never carry
    a hard-reject tag, whichever list of the file they were written in; and a
    threshold changes only when the base file sets a positive one. *)
Theorem loadFiles_partition load r basePath overlayPaths file r' :
  load basePath = Some file →
  loadFiles load r basePath overlayPaths = Some r' →
  scoring_rules r' ++ hardRejectRules r'
    ≡ₚ rulesFromEntries (all_entries (foldl (add_overlay load) file overlayPaths))
  ∧ (∀ rule, rule ∈ scoring_rules r' → isHardRejectTag (rule_tag rule) = false)
  ∧ phraseSet r' = add_phrases ∅ (scoring_rules r')
  ∧ mediumMin r' = (if 0 <? MediumMin (Priority_cfg file)
                    then MediumMin (Priority_cfg file) else mediumMin r).
Proof.
  intros Hf Hl. unfold loadFiles in Hl. rewrite Hf in Hl.
  set (f := foldl (add_overlay load) file overlayPaths) in *.
  assert (Priority_cfg f = Priority_cfg file) as Hp.
  { subst f. clear Hf Hl. revert file. induction overlayPaths as [|p ps IH]; intros file;
      [done|]. simpl. rewrite IH. unfold add_overlay.
    destruct (String.eqb _ _); [done|]. by destruct (load p). }
  assert (Priority_cfg (normalizeKeywordFile (Some f)) = Priority_cfg file) as Hp'.
  { unfold normalizeKeywordFile. do 3 destruct (splitHardRejectEntries _). done. }
  remember (normalizeKeywordFile (Some f)) as nf eqn:Hnf.
  injection Hl as <-. unfold scoring_rules. cbn [keywordRules titleRules negativeRules
    hardRejectRules phraseSet mediumMin]. rewrite Hp', rebuildPhraseSet_app.
  split; [|split; [|done]]; subst nf.
  - rewrite <- !rulesFromEntries_app. apply rulesFromEntries_perm.
    rewrite <- normalizeKeywordFile_perm. unfold all_entries. by rewrite <- !app_assoc.
  - intros rule. rewrite <- !rulesFromEntries_app, rulesFromEntries_elem.
    intros (e & He & _ & ->). cbn. revert He. unfold normalizeKeywordFile.
    pose proof (splitHardRejectEntries_spec (Keywords f)) as H1.
    pose proof (splitHardRejectEntries_spec (Titles f)) as H2.
    pose proof (splitHardRejectEntries_spec (Negative f)) as H3.
    do 3 destruct (splitHardRejectEntries _). simpl. rewrite !elem_of_app.
    naive_solver.
Qed.

Definition sample_keywords : keywordsFile := {|
  Priority_cfg := {| HighMin := 40; MediumMin := 0 |};
  Keywords := [KeywordEntry "k1" "keitaro" 10 "tracker"; KeywordEntry "k2" "casino job" 3 " Hard-Reject"];
  Titles := []; Negative := [KeywordEntry "n1" "course" (-20) "noise"];
  HardReject_entries := [] |}.

Lemma loadFiles_partition_witness :
  ∃ r', loadFiles (λ _, Some sample_keywords) (NewRegistry "k.json") "k.json" [] = Some r'
    ∧ ∀ rule, rule ∈ scoring_rules r' → isHardRejectTag (rule_tag rule) = false.
Proof.
  eexists. split; [reflexivity|].
  eapply (loadFiles_partition (λ _, Some sample_keywords) (NewRegistry "k.json") "k.json" []
    sample_keywords); reflexivity.
Defined.

(** A hard reject is decided by the first rule, in file order, whose phrase
    occurs in the lowered text; without such a rule the text passes. *)
Theorem HardReject_first r text :
  match HardReject (Some r) text with
  | Some h => ∃ l1 rule l2, hardRejectRules r = l1 ++ rule :: l2
      ∧ h = {| hr_ID := rule_id rule; hr_Phrase := rule_phrase rule |}
      ∧ rule_phrase rule ≠ estr ∧ Contains (ToLower text) (rule_phrase rule) = true
      ∧ ∀ r', r' ∈ l1 → rule_phrase r' ≠ estr →
          Contains (ToLower text) (rule_phrase r') = false
  | None => ∀ rule, rule ∈ hardRejectRules r → rule_phrase rule ≠ estr →
      Contains (ToLower text) (rule_phrase rule) = false
  end.
Proof. apply first_hard_spec. Qed.

(** C40. Print and parse of the match summary: the statistics read the keyword
    ids back from the formatted lines ("phrase(+w)", "phrase(-w)") of exactly
    the rules that scored, each id once, in order; the registry's phrases must
    differ after normalisation and contain no "(+" themselves. *)
Theorem KeywordIDs_roundtrip r rs :
  phraseSet r = add_phrases ∅ (scoring_rules r) →
  NoDup ((NormalizePhrase ∘ rule_phrase) <$> scoring_rules r) →
  (∀ rule, rule ∈ rs → rule ∈ scoring_rules r ∧ rule_id rule ≠ estr
     ∧ rule_phrase rule ≠ estr ∧ Contains (rule_phrase rule) "(+" = false) →
  KeywordIDsFromMatched (Some r) ((formatHit ∘ rule_hit) <$> rs)
  = dedup_on id (rule_id <$> rs).
Proof.
  intros Hph Hn Hrs. apply keyword_ids_from_spec. rewrite Forall2_fmap_l.
  apply Forall_Forall2_diag, Forall_forall. intros rule Hr.
  destruct (Hrs rule Hr) as (Hin & Hid & Hne & Hc). split; [|done]. simpl.
  rewrite (matchedPhrase_formatHit (rule_hit rule)) by done.
  rewrite NormalizePhrase_trim, Hph. by apply add_phrases_in.
Qed.

Lemma KeywordIDs_roundtrip_witness :
  let rules := [KeywordRule "k1" "keitaro" 10 "t"; KeywordRule "n1" "media  buyer " (-7) "t"] in
  let r := {| keywordRules := rules; titleRules := []; negativeRules := [];
              hardRejectRules := []; phraseSet := add_phrases ∅ rules;
              highMin := 35; mediumMin := 15; jsonPath := estr |} in
  KeywordIDsFromMatched (Some r) ((formatHit ∘ rule_hit) <$> rules) = ["k1"; "n1"].
Proof.
  intros rules r.
  assert (NoDup ((NormalizePhrase ∘ rule_phrase) <$> scoring_rules r)) as Hnd
    by (vm_compute; repeat constructor; set_solver).
  rewrite (KeywordIDs_roundtrip r rules eq_refl Hnd).
  - vm_compute. reflexivity.
  - intros rule Hrule. repeat (apply elem_of_cons in Hrule as [->|Hrule];
      [split; [set_solver|]; repeat split; vm_compute; congruence|]). set_solver.
Defined.
