(* ===== verification/SourceRep.v ===== *)
(** Source reputation ([internal/scoring/source.go]): accepted and junk counts
    per source, and the score boost they give. *)
From Stdlib Require Import SpecFloat.
From S2P Require Import Prelude Unicode GoStrings Utf8Facts TextFacts.

Local Open Scope Z_scope.

(** ** float64, as IEEE 754 binary64 ([SpecFloat]) *)

Definition float_of_int (z : Z) : spec_float := binary_normalize 53 1024 z 0 false.
Definition float_div (x y : spec_float) : spec_float := SFdiv 53 1024 x y.
Definition float_ge (x y : spec_float) : bool := SFleb y x.
Definition float_lt (x y : spec_float) : bool := SFltb x y.

(** The nearest doubles of the literals 0.35, 0.2 and 0.08. *)
Definition f_0_35 : spec_float := S754_finite false 6305039478318694 (-54).
Definition f_0_2 : spec_float := S754_finite false 7205759403792794 (-55).
Definition f_0_08 : spec_float := S754_finite false 5764607523034235 (-56).

(** ** State *)

Record sourceCounts := { Accepted : Z; Junk : Z }.

Definition no_counts : sourceCounts := {| Accepted := 0; Junk := 0 |}.

Record SourceReputation := {
  counts : gmap string sourceCounts;
  maxBoost : Z;
}.

Definition NewSourceReputation : SourceReputation := {| counts := ∅; maxBoost := 8 |}.

(** What the reputation sends to its [SourceStatsWriter]. *)
Inductive stats_event := EvAccepted (source : string) | EvJunk (source : string).

Definition normalizeSourceKey (source : string) : string :=
  let lower := ToLower (TrimSpace source) in
  if HasPrefix lower "telegram:invite:" then "telegram:invite"
  else match Index lower "/" with
       | Some idx => if Nat.ltb 0 idx then stake idx lower else lower
       | None => lower
       end.

Definition counts_of (r : SourceReputation) (key : string) : sourceCounts :=
  default no_counts (counts r !! key).

(** A nil receiver records nothing; [writer] says whether a writer is set. *)
Definition RecordAccepted (writer : bool) (r : option SourceReputation) (source : string)
    : option SourceReputation * list stats_event :=
  match r with
  | None => (None, [])
  | Some r =>
      let key := normalizeSourceKey source in
      let c := counts_of r key in
      (Some {| counts := <[key := {| Accepted := Accepted c + 1; Junk := Junk c |}]> (counts r);
               maxBoost := maxBoost r |},
       if writer then [EvAccepted key] else [])
  end.

Definition RecordJunk (writer : bool) (r : option SourceReputation) (source : string)
    : option SourceReputation * list stats_event :=
  match r with
  | None => (None, [])
  | Some r =>
      let key := normalizeSourceKey source in
      let c := counts_of r key in
      (Some {| counts := <[key := {| Accepted := Accepted c; Junk := Junk c + 1 |}]> (counts r);
               maxBoost := maxBoost r |},
       if writer then [EvJunk key] else [])
  end.

Definition StaticSourceBoost (source : string) : Z :=
  let lower := ToLower (TrimSpace source) in
  if HasPrefix lower "telegram:invite" then -8
  else if HasPrefix lower "lander:" then -6
  else if HasPrefix lower "github:" then -4
  else if Contains lower "_news" || Contains lower "textlab" || Contains lower "seo_for" then -5
  else if HasPrefix lower "telegram:" && Contains lower "igaming" then 2
  else if HasPrefix lower "forum:" && Contains lower "stm" then 10
  else if HasPrefix lower "ads_txt:" then 8
  else if HasPrefix lower "reddit:" then 5
  else if HasPrefix lower "discord:" then 6
  else 0.

Definition dynamicBoost (c : sourceCounts) (max : Z) : Z :=
  let total := Accepted c + Junk c in
  if total <? 20 then 0
  else
    let ratio := float_div (float_of_int (Accepted c)) (float_of_int total) in
    if float_ge ratio f_0_35 then max
    else if float_ge ratio f_0_2 then max ÷ 2
    else if float_lt ratio f_0_08 then (- max) ÷ 2
    else 0.

(** [writer_boost] is the boost of the [SourceStatsWriter], if one is set. *)
Definition Boost (writer_boost : option (string → Z)) (r : option SourceReputation)
    (source : string) : Z :=
  let base := StaticSourceBoost source in
  let dynamic :=
    match r with
    | None => 0
    | Some r =>
        let key := normalizeSourceKey source in
        let dynamic := dynamicBoost (counts_of r key) (maxBoost r) in
        match writer_boost with
        | Some b => if dynamic <? b key then b key else dynamic
        | None => dynamic
        end
    end in
  base + dynamic.

(** ** A run of outcomes *)

Inductive outcome := OAccept (source : string) | OJunk (source : string).

Definition record (r : SourceReputation) (o : outcome) : SourceReputation :=
  match o with
  | OAccept s => default r (RecordAccepted false (Some r) s).1
  | OJunk s => default r (RecordJunk false (Some r) s).1
  end.

Definition record_all (r : SourceReputation) (os : list outcome) : SourceReputation :=
  foldl record r os.

Definition accepted_for (key : string) (o : outcome) : bool :=
  match o with OAccept s => String.eqb (normalizeSourceKey s) key | OJunk _ => false end.
Definition junk_for (key : string) (o : outcome) : bool :=
  match o with OJunk s => String.eqb (normalizeSourceKey s) key | OAccept _ => false end.

Lemma count_if_cons {A} (f : A → bool) x l :
  count_if f (x :: l) = (if f x then 1 else 0) + count_if f l.
Proof. unfold count_if. simpl. destruct (f x); simpl; lia. Qed.

Lemma record_counts r o key :
  counts_of (record r o) key =
  {| Accepted := Accepted (counts_of r key) + (if accepted_for key o then 1 else 0);
     Junk := Junk (counts_of r key) + (if junk_for key o then 1 else 0) |}.
Proof.
  assert (∀ c, c = {| Accepted := Accepted c + 0; Junk := Junk c + 0 |}) as Hid
    by (intros []; f_equal; simpl; lia).
  destruct o as [s|s]; simpl; unfold counts_of at 1; simpl;
    destruct (String.eqb_spec (normalizeSourceKey s) key) as [->|Hn];
    rewrite ?lookup_insert_eq, ?lookup_insert_ne by done; simpl;
    first [apply Hid | by rewrite ?Z.add_0_r].
Qed.

Lemma record_all_maxBoost r os : maxBoost (record_all r os) = maxBoost r.
Proof.
  revert r. induction os as [|o os IH]; intros r; [done|]. simpl.
  etrans; [apply IH|]. by destruct o.
Qed.

Lemma record_all_counts r os key :
  counts_of (record_all r os) key =
  {| Accepted := Accepted (counts_of r key) + count_if (accepted_for key) os;
     Junk := Junk (counts_of r key) + count_if (junk_for key) os |}.
Proof.
  revert r. induction os as [|o os IH]; intros r.
  - simpl. unfold count_if. simpl. rewrite !Z.add_0_r. by destruct (counts_of r key).
  - change (record_all r (o :: os)) with (record_all (record r o) os).
    rewrite IH, record_counts, !count_if_cons. cbn [Accepted Junk]. f_equal; lia.
Qed.

Lemma dynamicBoost_range c : -4 ≤ dynamicBoost c 8 ≤ 8.
Proof. unfold dynamicBoost. change (8 ÷ 2) with 4. change (- (8) ÷ 2) with (-4).
  split_ifs; lia. Qed.

Lemma StaticSourceBoost_range s : -8 ≤ StaticSourceBoost s ≤ 10.
Proof. unfold StaticSourceBoost. split_ifs; lia. Qed.

(** ** Properties *)

(** After any run of outcomes the boost of a source is the static boost of
    its family plus the dynamic boost of exactly the accepted and junk outcomes
    of the sources with the same key, in whatever order they came; below twenty
    outcomes the dynamic part is zero, and the boost stays in [-12, 18]. *)
Theorem Boost_after_run os source :
  let key := normalizeSourceKey source in
  let a := count_if (accepted_for key) os in
  let j := count_if (junk_for key) os in
  let b := Boost None (Some (record_all NewSourceReputation os)) source in
  b = StaticSourceBoost source + dynamicBoost {| Accepted := a; Junk := j |} 8
  ∧ (a + j < 20 → b = StaticSourceBoost source)
  ∧ -12 ≤ b ≤ 18.
Proof.
  intros key a j b. subst b. unfold Boost. fold key.
  rewrite record_all_counts, record_all_maxBoost. cbn [counts_of].
  change (counts_of NewSourceReputation key) with no_counts. cbn [Accepted Junk no_counts].
  fold a j. rewrite !Z.add_0_l. change (maxBoost NewSourceReputation) with 8.
  split; [done|]. split.
  - intros Hlt. unfold dynamicBoost. cbn [Accepted Junk].
    rewrite (proj2 (Z.ltb_lt _ _) Hlt). lia.
  - pose proof (dynamicBoost_range {| Accepted := a; Junk := j |}).
    pose proof (StaticSourceBoost_range source). lia.
Qed.
