(* ===== verification/Scoring.v ===== *)
(** Lead scoring ([internal/scoring/]: engine.go, spend.go, decay.go, stack.go,
    competitor.go, displacement.go, buyer_intent.go, bidshard_pain.go, pilot.go,
    prescan.go, tgweb_prescan_mode.go).  Scores are mathematical integers: the
    weights and boosts are small constants. *)
From S2P Require Import Prelude Unicode GoStrings Utf8Facts TextFacts Regex RegexFacts GoSort.
From S2P Require Import Matcher Validate Classify Registry SourceRep.

Local Open Scope Z_scope.

(** ** Spend signals ([spend.go]) *)

Definition spendBoost : Z := 15.

Definition spendPatterns : list re := MustCompile <$>
  [ "(?i)\$\s*\d+\s*k(?:\s*/\s*(?:mo|month))?"; "(?i)\$\d{2,3}(?:,\d{3})+\s*/\s*(?:mo|month)";
    "(?i)\b\d+\s*k\s*/\s*(?:mo|month)\b"; "(?i)\b(?:spend|spending|budget)\s+(?:is\s+)?\$?\d";
    "(?i)\bour buyers\b"; "(?i)\bwe run \d+ campaigns\b"; "(?i)\bmedia buying team\b";
    "(?i)\bteam of buyers\b"; "(?i)\$\d+k\+?\s*(?:spend|on traffic)";
    "(?i)\b\d{1,3}\s*k\s*/\s*(?:mo|month)\b"; "(?i)\$\d{1,3}k\s*/\s*(?:mo|month)";
    "(?i)\bwe run \d+\+?\s*campaigns?\b"; "(?i)\b\d+k\+?\s*(?:spend|budget)\b" ].
Definition competitorPhrases : list string :=
  [ "voluum"; "keitaro"; "binom"; "redtrack"; "bemob"; "clickflare"; "thrivetracker";
    "peerclick"; "peer click"; "voluumtrk" ].
Definition newbieNoBudgetPhrases : list string :=
  [ "can't afford"; "cant afford"; "cannot afford"; "want to start my journey";
    "start my journey"; "good and cheap"; "cheap tracker"; "first cpa offer" ].
Definition HasNewbieNoBudgetSignal (text : string) : bool :=
  existsb (Contains text) newbieNoBudgetPhrases.

Definition HasSpendSignal (text : string) : bool := match_any spendPatterns text.

Definition HasCompetitorMention (text : string) : bool :=
  existsb (PhraseMatches text) competitorPhrases.

Definition ApplySpendGate (score : Z) (text : string) (mediumMin : Z) : Z :=
  let body := ToLower text in
  let score := if HasSpendSignal body then score + spendBoost else score in
  if HasNewbieNoBudgetSignal body && negb (HasSpendSignal body) then
    let cap := mediumMin - 1 in
    let cap := if cap <? 0 then 0 else cap in
    if cap <? score then cap else score
  else if negb (HasSpendSignal body) && negb (HasCompetitorMention body) then
    let cap := mediumMin - 1 in
    let cap := if cap <? 0 then 0 else cap in
    if cap <? score then cap else score
  else score.

(** ** Time decay ([decay.go]) *)

Definition timeDecayFreshBoost : Z := 10.
Definition timeDecayRecentBoost : Z := 5.
Definition timeDecayAgedPenalty : Z := 5.
Definition timeDecayStalePenalty : Z := 10.

Record ScoreOpts := { PostedAt : Z; TimeDecay : bool; StructuredStack : bool }.

Definition no_opts : ScoreOpts :=
  {| PostedAt := zero_time; TimeDecay := false; StructuredStack := false |}.

Definition clampNonNegative (score : Z) : Z := if score <? 0 then 0 else score.

Definition ApplyTimeDecay (score postedAt now : Z) : Z :=
  if is_zero_time postedAt then score
  else
    let age := time_sub now postedAt in
    if age <=? 48 * hour then score + timeDecayFreshBoost
    else if age <=? 7 * 24 * hour then score + timeDecayRecentBoost
    else if age <=? 30 * 24 * hour then score
    else if age <=? 180 * 24 * hour then clampNonNegative (score - timeDecayAgedPenalty)
    else clampNonNegative (score - timeDecayStalePenalty).

(** ** Buyer intent ([buyer_intent.go]) and pilot signals ([pilot.go]) *)

Definition buyerIntentPhrases : list string :=
  [ "looking for"; "need a tracker"; "need tracker"; "anyone facing"; "does anyone";
    "has anyone"; "help with"; "recommend"; "our subscription"; "clients looking"; "we run";
    "i run"; "my team"; "our team"; "we are looking"; "i am looking"; "we're looking";
    "i'm looking" ].
Definition buyerIntentRe : list re := MustCompile <$>
  [ "(?i)\b(?:i|we)\s+(?:am|are|'m|'re)\s+(?:considering|evaluating|comparing)\b";
    "(?i)\b(?:can|could)\s+(?:someone|anyone)\s+(?:help|recommend)\b" ].
Definition spendRe : re := MustCompile "(?i)(?:\$\d+k?|\d+\$/day|500/day|budget|high spend|enterprise|1k|5k|10k)".
Definition painRe : re := MustCompile "(?i)(overburn|click loss|postback fail|missing ftd|billing|expensive|overpriced|broken|bug)".
Definition infraRe : re := MustCompile "(?i)(vps|server|hetzner|digitalocean|docker|clickhouse|self-hosted|aws|ovh)".
Definition usdtRe : re := MustCompile "(?i)(usdt|crypto|binance|trc20|tether|webmoney)".
Definition buyerRoleRe : re := MustCompile "(?i)(founder|co-founder|ceo|cto|cio|cfo|owner|president|managing director|general manager|head of (?:media|acquisition|affiliate|ad ops)|vp (?:of )?(?:engineering|media|acquisition|affiliate)|affiliate director|director of acquisition)".
Definition volumeRe : re := MustCompile "(?i)(100\+ ftd|high volume|scaling|10k clicks|50k clicks|volume|traffic)".
Definition migrRe : re := MustCompile "(?i)(switching from|migrate|migrating|looking for alternative|alternative to|replacing|replace)".
Definition competitorRe : re := MustCompile "(?i)(voluum|keitaro|binom|redtrack|clickflare|bemob|thrivetracker)".
Definition HasBuyerIntentSignal (text : string) : bool :=
  let lower := ToLower (TrimSpace text) in
  if String.eqb lower estr then false
  else if MatchString buyerRoleRe lower then true
  else if existsb (Contains lower) buyerIntentPhrases then true
  else if match_any buyerIntentRe lower then true
  else Contains lower "?" && (32 <=? rune_len lower).

(** ** Competitor stack ([competitor.go]) *)

Definition competitorPainBoost : Z := 20.

Definition competitorStackPatterns : list re := MustCompile <$>
  [ "(?i)voluumtrk"; "(?i)voluum\."; "(?i)keitaro"; "(?i)binom"; "(?i)redtrack";
    "(?i)clickflare"; "(?i)bemob" ].
(** The first hit of each pattern, lowered, each once. *)
Fixpoint stack_hits (body : string) (res : list re) (seen : gset string) : list string :=
  match res with
  | [] => []
  | r :: rs =>
      let hit := FindString r body in
      if String.eqb hit estr then stack_hits body rs seen
      else
        let key := ToLower hit in
        if decide (key ∈ seen) then stack_hits body rs seen
        else key :: stack_hits body rs ({[key]} ∪ seen)
  end.

Definition DetectCompetitorStack (body : string) : list string :=
  if String.eqb body estr then [] else stack_hits body competitorStackPatterns ∅.

Definition is_empty {A} (l : list A) : bool := match l with [] => true | _ => false end.

Definition CompetitorPainBoost (score : Z) (text : string) (stack : list string) : Z :=
  let stack := if is_empty stack then DetectCompetitorStack text else stack in
  if is_empty stack then score
  else if negb (HasPainContext text) && negb (HasCompetitorMention (ToLower text)) then score
  else score + competitorPainBoost.

Definition FormatStackHint (stack : list string) : string :=
  if is_empty stack then estr else "[stack:" +:+ Join stack "," +:+ "]".

(** ** Pilot qualification ([pilot.go]) *)

Definition TagPublisherSurface : string := "publisher-surface".
Definition TagPublisherAdsTxtContact : string := "publisher-ads-txt-contact".
Definition TagDiscordCommunityIntel : string := "discord-community-intel".
Definition TagForumTeamHiring : string := "forum-team-hiring".

Definition spendTierQualifies (tier : string) : bool :=
  negb (mem (ToLower (TrimSpace tier)) [estr; "unknown"; "none"]).

Definition tag_if (b : bool) (tag : string) : list string := if b then [tag] else [].

Definition PilotQualified (spendTier : string) (stack : list string) (text : string)
    : bool * list string :=
  let lower := ToLower text in
  let tags :=
    tag_if (MatchString spendRe lower || spendTierQualifies spendTier) "pilot-spend-budget"
    ++ tag_if (negb (is_empty stack) || negb (is_empty (DetectCompetitorStack text))
               || MatchString competitorRe lower) "pilot-competitor-stack"
    ++ tag_if (MatchString painRe lower) "pilot-tracker-pain"
    ++ tag_if (MatchString infraRe lower) "pilot-infra-vps"
    ++ tag_if (MatchString usdtRe lower) "pilot-usdt-ok"
    ++ tag_if (MatchString buyerRoleRe lower) "pilot-buyer-role"
    ++ tag_if (MatchString volumeRe lower) "pilot-high-volume"
    ++ tag_if (MatchString migrRe lower) "pilot-migration-intent" in
  let isQualified := Nat.leb 3 (length tags) in
  (isQualified,
   if isQualified then "pilot-qualified" :: tags else "pilot-nurture" :: tags).

(** ** Structured stack ([stack.go]) *)

Definition stackStructuredBoost : Z := 25.

(** A value of [encoding/json]; the fields of an object are listed in the order
    the iteration over its map visits them. *)
#[warnings="-register-all"]
Inductive json :=
  | JNull | JBool (b : bool) | JNumber
  | JString (s : string)
  | JArray (l : list json)
  | JObject (l : list (string * json)).

(** [json.Unmarshal] into an [any]; [None] for a text that is not valid. *)
Class JsonLib := { Unmarshal : string → option json }.

Definition nextDataScriptRe : re :=
  MustCompile ("(?is)<script[^>]*id=" +:+ dq +:+ "__NEXT_DATA__" +:+ dq
               +:+ "[^>]*>(.+?)</script>").
Definition nextFlightPushRe : re :=
  MustCompile ("(?:self\.)?__next_f\.push\(\[1," +:+ dq +:+ "((?:\\.|[^" +:+ dq
               +:+ "])*)" +:+ dq).

Fixpoint collectJSONStrings (v : json) : list string :=
  match v with
  | JObject l =>
      (fix go (l : list (string * json)) : list string :=
         match l with
         | [] => []
         | (_, x) :: l' => collectJSONStrings x ++ go l'
         end) l
  | JArray l =>
      (fix go (l : list json) : list string :=
         match l with
         | [] => []
         | x :: l' => collectJSONStrings x ++ go l'
         end) l
  | JString t => let s := TrimSpace t in if String.eqb s estr then [] else [s]
  | JNull | JBool _ | JNumber => []
  end.

Section stack.
Context `{JsonLib}.

Definition flattenStackJSON (raw : string) : string :=
  let raw := TrimSpace raw in
  if String.eqb raw estr then raw
  else match Unmarshal raw with
       | None => raw
       | Some v => Join (collectJSONStrings v) " "
       end.

Fixpoint add_all (vs : list string) (seen : gset string) : list string :=
  match vs with
  | [] => []
  | v :: vs' =>
      let v := ToLower (TrimSpace v) in
      if String.eqb v estr then add_all vs' seen
      else if decide (v ∈ seen) then add_all vs' seen
      else v :: add_all vs' ({[v]} ∪ seen)
  end.

Definition mergeStack (base extra : list string) : list string :=
  if is_empty extra then base else add_all (base ++ extra) ∅.

Definition CollectStack (crawlHTML : string) : list string * bool :=
  if String.eqb crawlHTML estr then ([], false)
  else
    let stack := DetectCompetitorStack crawlHTML in
    let baseLen := length stack in
    let next_data :=
      match FindAllSubmatch nextDataScriptRe 1 crawlHTML with
      | m :: _ => flattenStackJSON m +:+ " "
      | [] => estr
      end in
    let flight :=
      Join ((λ m, m +:+ " ") <$> FindAllSubmatch nextFlightPushRe 1 crawlHTML) estr in
    let payload := next_data +:+ flight in
    if String.eqb payload estr then (stack, false)
    else
      let extra := DetectCompetitorStack payload in
      let stack := mergeStack stack extra in
      let structured := negb (is_empty extra) && Nat.eqb baseLen 0 in
      let structured :=
        if negb (is_empty extra) && Nat.ltb 0 baseLen then true else structured in
      (stack, structured && negb (is_empty stack)).
End stack.

(** ** Displacement ([displacement.go]) *)

Inductive DisplacementTier := DisplacementNone | DisplacementWarm | DisplacementHot.

Definition displacementWarmBoost : Z := 12.
Definition displacementHotBoost : Z := 22.

Definition displacementMigrRe : list re := MustCompile <$>
  [ "(?i)\b(?:switching|switched|migrate|migrating|moving)\s+(?:from|off|away from|to)\b";
    "(?i)\b(?:looking for|need|searching for)\s+(?:an?\s+)?alternative\s+to\b";
    "(?i)\breplac(?:e|ing)\s+(?:our\s+)?(?:current\s+)?(?:tracker|stack|voluum|keitaro|binom)\b";
    "(?i)\bmove(?:d|ing)?\s+(?:off|away from)\s+(?:voluum|keitaro|binom|redtrack)\b" ].
Definition DetectDisplacementTier (text : string) (stack : list string)
    : DisplacementTier * Z :=
  let lower := ToLower text in
  let hasMigr := match_any displacementMigrRe lower in
  if negb hasMigr || negb (HasBuyerIntentSignal text) then (DisplacementNone, 0)
  else
    let hasComp := negb (is_empty stack) || HasCompetitorMention lower in
    if hasComp then (DisplacementHot, displacementHotBoost)
    else (DisplacementWarm, displacementWarmBoost).

Definition DisplacementTag (tier : DisplacementTier) : string :=
  match tier with
  | DisplacementNone => estr
  | DisplacementWarm => "displacement-warm"
  | DisplacementHot => "displacement-hot"
  end.

(** ** Pain buckets ([bidshard_pain.go]) *)

Definition bidShardBucketInfraBoost : Z := 40.
Definition bidShardBucketCloakBoost : Z := 20.
Definition bidShardCommercialIntentBoost : Z := 40.
Definition bidShardVolumeBoost : Z := 30.

Definition volumeSignalRe : re := MustCompile "(?i)(?:\d{2,}\s*k\s*(?:click|clicks)|\d+\s*(?:к|k)\s*клик)".
Definition HasVolumeSignal (text : string) : bool :=
  MatchString volumeSignalRe (TrimSpace text).

Definition BidShardPainBoost (score : Z) (text : string) : Z :=
  let score :=
    match ClassifyBidShardPain text with
    | Some pain =>
        if mem (PainBucket pain) ["infra_scale"; "shave_discrepancy"; "abuse_ddos"]
        then score + bidShardBucketInfraBoost
        else if String.eqb (PainBucket pain) "cloak_stack_cost"
        then score + bidShardBucketCloakBoost
        else score
    | None => score
    end in
  let score := if HasCommercialPainIntent text
               then score + bidShardCommercialIntentBoost else score in
  if HasVolumeSignal text then score + bidShardVolumeBoost else score.

(** ** The engine ([engine.go]) *)

Inductive Priority := PriorityLow | PriorityMedium | PriorityHigh.

Definition priority_rank (p : Priority) : Z :=
  match p with PriorityLow => 0 | PriorityMedium => 1 | PriorityHigh => 2 end.

Definition MeetsMinPriority (p min : Priority) : bool := priority_rank min <=? priority_rank p.

Record LeadText := {
  lt_Title : string;
  lt_Context : string;
  lt_Score : Z;
  lt_Matched : list string;
  lt_DisplacementTier : DisplacementTier;
}.

Section engine.
Context `{Sorter}.

Definition AnalyzeWithRegistry (reg : Registry) (text : string) : MatchResult :=
  let body := ToLower text in
  let kw := matchWeighted body (keywordRules reg) in
  let title := matchWeighted body (titleRules reg) in
  let neg := matchWeighted body (negativeRules reg) in
  {| res_Score := res_Score kw + res_Score title + res_Score neg;
     res_Hits := (res_Hits kw ++ res_Hits title) ++ res_Hits neg;
     res_Summary := (res_Summary kw ++ res_Summary title) ++ res_Summary neg |}.

Definition Prescan (reg : Registry) (text : string) : bool :=
  0 <? res_Score (AnalyzeWithRegistry reg text).

Definition PriorityFromScore (reg : Registry) (score : Z) : Priority :=
  if highMin reg <=? score then PriorityHigh
  else if mediumMin reg <=? score then PriorityMedium
  else PriorityLow.

(** [rep_boost] is [rep.Boost] when a reputation is given; [now] is the clock
    read by the time decay.  The lead text is returned updated. *)
Definition ScoreWithBoosts (reg : Registry) (text : LeadText) (source : string)
    (stack : list string) (rep_boost : option (string → Z)) (opts : ScoreOpts) (now : Z)
    : Priority * LeadText :=
  let combined := lt_Context text +:+ " " +:+ lt_Title text in
  let result := AnalyzeWithRegistry reg combined in
  let score := ApplySpendGate (res_Score result) combined (mediumMin reg) in
  let score := CompetitorPainBoost score combined stack in
  let score := if StructuredStack opts && negb (is_empty stack) && (res_Score result =? 0)
               then score + stackStructuredBoost else score in
  let '(tier, dispBoost) := DetectDisplacementTier combined stack in
  let score := score + dispBoost in
  let score := match rep_boost with Some b => score + b source | None => score end in
  let score := if IsSEOMarketingCopy (lt_Context text) (lt_Title text)
               then score - 100 else score in
  let score := score - ListicleScorePenalty (lt_Title text) in
  let score := if HasCryptoGrayBuyerSignal combined
               then score + CryptoGrayScoreBoost else score in
  let score := BidShardPainBoost score combined in
  let score := if TimeDecay opts then ApplyTimeDecay score (PostedAt opts) now else score in
  (if highMin reg <=? score then PriorityHigh
   else if mediumMin reg <=? score then PriorityMedium
   else PriorityLow,
   {| lt_Title := lt_Title text; lt_Context := lt_Context text; lt_Score := score;
      lt_Matched := res_Summary result; lt_DisplacementTier := tier |}).

Definition ScoreText (reg : Registry) (text : LeadText) (now : Z) : Priority * LeadText :=
  ScoreWithBoosts reg text estr [] None no_opts now.

(** ** Prescan ([prescan.go]) *)

Definition isTgWebSource (source : string) : bool :=
  HasPrefix (ToLower (TrimSpace source)) "tgweb:".

Definition PrescanPasses (source : string) (reg : option Registry) (text : string) : bool :=
  if HasCommercialPainIntent text || HasBuyerQuestionPattern text then true
  else if match reg with Some r => Prescan r text | None => false end then true
  else if isTgWebSource source
  then HasPainContext text || HasAffiliateNetworkContext text
  else false.
End engine.

Inductive TgWebPrescanMode := TgWebPrescanStrict | TgWebPrescanAggressive.

Definition ParseTgWebPrescanMode (raw : string) : TgWebPrescanMode :=
  if mem (ToLower (TrimSpace raw)) ["strict"; "conservative"]
  then TgWebPrescanStrict else TgWebPrescanAggressive.

Definition Aggressive (m : TgWebPrescanMode) : bool :=
  match m with TgWebPrescanAggressive => true | TgWebPrescanStrict => false end.

(** ** Facts *)

Lemma scoring_patterns_compile :
  forallb compiled
    (spendPatterns ++ buyerIntentRe
     ++ [spendRe; painRe; infraRe; usdtRe; buyerRoleRe; volumeRe; migrRe; competitorRe;
         nextDataScriptRe; nextFlightPushRe; volumeSignalRe]
     ++ competitorStackPatterns ++ displacementMigrRe
     ++ cloakStackRe ++ shaveRe ++ infraScaleRe ++ abuseDDoSRe ++ [Classify.volumeRe]) = true.
Proof. vm_compute. reflexivity. Qed.

Lemma ApplyTimeDecay_range score postedAt now :
  score - 10 ≤ ApplyTimeDecay score postedAt now ≤ Z.max 0 (score + 10).
Proof.
  unfold ApplyTimeDecay, clampNonNegative, timeDecayFreshBoost, timeDecayRecentBoost,
    timeDecayAgedPenalty, timeDecayStalePenalty. split_ifs; lia.
Qed.

Lemma BidShardPainBoost_range score text :
  score ≤ BidShardPainBoost score text ≤ score + 110.
Proof.
  unfold BidShardPainBoost, bidShardBucketInfraBoost, bidShardBucketCloakBoost,
    bidShardCommercialIntentBoost, bidShardVolumeBoost.
  destruct (ClassifyBidShardPain text); split_ifs; lia.
Qed.

Lemma ApplySpendGate_spec score text mediumMin :
  let body := ToLower text in
  ApplySpendGate score text mediumMin =
  if HasSpendSignal body then score + 15
  else if HasNewbieNoBudgetSignal body || negb (HasCompetitorMention body)
  then Z.min score (Z.max 0 (mediumMin - 1)) else score.
Proof.
  intros body. unfold ApplySpendGate, spendBoost. fold body. cbv zeta.
  assert (∀ c, (if c <? 0 then 0 else c) = Z.max 0 c) as Hcap
    by (intros c; split_ifs; lia).
  rewrite !Hcap. destruct (HasSpendSignal body), (HasNewbieNoBudgetSignal body), (HasCompetitorMention body);
    cbn [negb andb orb]; split_ifs; lia.
Qed.

Lemma DetectDisplacementTier_range text stack :
  0 ≤ (DetectDisplacementTier text stack).2 ≤ 22.
Proof.
  unfold DetectDisplacementTier, displacementHotBoost, displacementWarmBoost.
  split_ifs; simpl; lia.
Qed.

Lemma CompetitorPainBoost_range score text stack :
  score ≤ CompetitorPainBoost score text stack ≤ score + 20.
Proof. unfold CompetitorPainBoost, competitorPainBoost. split_ifs; lia. Qed.

Lemma add_all_NoDup vs seen :
  NoDup (add_all vs seen) ∧ ∀ v, v ∈ add_all vs seen → v ∉ seen.
Proof.
  revert seen. induction vs as [|v vs IH]; intros seen; simpl; [split; [constructor|set_solver]|].
  destruct (String.eqb _ _); [apply IH|].
  destruct (decide (ToLower (TrimSpace v) ∈ seen)) as [|Hn]; [apply IH|].
  destruct (IH ({[ToLower (TrimSpace v)]} ∪ seen)) as [H1 H2]. split.
  - constructor; [|done]. intros Hin. apply H2 in Hin. set_solver.
  - intros x [->|Hx]%elem_of_cons; [done|]. apply H2 in Hx. set_solver.
Qed.

Lemma stack_hits_NoDup body res seen :
  NoDup (stack_hits body res seen) ∧ ∀ v, v ∈ stack_hits body res seen → v ∉ seen.
Proof.
  revert seen. induction res as [|r rs IH]; intros seen; simpl; [split; [constructor|set_solver]|].
  destruct (String.eqb _ _); [apply IH|].
  destruct (decide (ToLower (FindString r body) ∈ seen)) as [|Hn]; [apply IH|].
  destruct (IH ({[ToLower (FindString r body)]} ∪ seen)) as [H1 H2]. split.
  - constructor; [|done]. intros Hin. apply H2 in Hin. set_solver.
  - intros x [->|Hx]%elem_of_cons; [done|]. apply H2 in Hx. set_solver.
Qed.

Lemma DetectCompetitorStack_NoDup body : NoDup (DetectCompetitorStack body).
Proof.
  unfold DetectCompetitorStack. destruct (String.eqb _ _); [constructor|].
  apply stack_hits_NoDup.
Qed.

(** ** Properties *)

(** The spend gate on every branch: proof of spend adds 15; a text without it
    that pleads a small budget, or names no competitor either, is capped just
    below the medium threshold (never below zero); the rest is unchanged.  So
    without spend and competitor no keyword sum alone reaches medium. *)
Theorem ApplySpendGate_caps reg score text :
  let body := ToLower text in
  let s := ApplySpendGate score text (mediumMin reg) in
  s = (if HasSpendSignal body then score + 15
       else if HasNewbieNoBudgetSignal body || negb (HasCompetitorMention body)
       then Z.min score (Z.max 0 (mediumMin reg - 1)) else score)
  ∧ (HasSpendSignal body = false → HasCompetitorMention body = false →
     0 < mediumMin reg ≤ highMin reg → PriorityFromScore reg s = PriorityLow).
Proof.
  intros body s. subst s. rewrite ApplySpendGate_spec. fold body. split; [done|].
  intros -> -> Hm. rewrite orb_true_r. unfold PriorityFromScore. split_ifs; [lia|lia|done].
Qed.

Lemma ApplySpendGate_caps_witness :
  PriorityFromScore (NewRegistry "k") (ApplySpendGate 90 "best tracker?" 15) = PriorityLow.
Proof.
  apply (ApplySpendGate_caps (NewRegistry "k") 90 "best tracker?");
    [vm_compute; reflexivity|vm_compute; reflexivity|].
  split; vm_compute; [reflexivity|discriminate].
Defined.

(** On a non-negative score the time decay is monotone in the age: of two
    dated posts the older never scores higher, the result stays non-negative and
    moves by at most 10. *)
Theorem ApplyTimeDecay_monotone score older newer now :
  0 ≤ score → 0 < older ≤ newer → now - older ≤ max_int64 → newer - now ≤ max_int64 →
  0 ≤ ApplyTimeDecay score older now ≤ ApplyTimeDecay score newer now ≤ score + 10.
Proof.
  intros Hs Ho H1 H2.
  assert (time_sub now newer ≤ time_sub now older) as Hage
    by (unfold time_sub, max_int64, min_int64 in *; split_ifs; lia).
  unfold ApplyTimeDecay, clampNonNegative, timeDecayFreshBoost, timeDecayRecentBoost,
    timeDecayAgedPenalty, timeDecayStalePenalty, is_zero_time, zero_time.
  rewrite !(proj2 (Z.eqb_neq _ 0)) by lia.
  generalize dependent (time_sub now newer). intros a1.
  generalize (time_sub now older). intros a2 Hage.
  assert (0 < hour) by done. split_ifs; lia.
Qed.

Lemma ApplyTimeDecay_monotone_witness :
  let now := 10 * hour + 200 * 24 * hour in
  ApplyTimeDecay 20 (10 * hour) now = 10
  ∧ 0 ≤ ApplyTimeDecay 20 (10 * hour) now ≤ ApplyTimeDecay 20 (20 * hour) now ≤ 20 + 10.
Proof.
  split; [reflexivity|].
  apply ApplyTimeDecay_monotone; vm_compute; intuition discriminate.
Defined.

(** On a negative score it is not: the clamp of the penalty branches lifts
    every negative score of a post older than thirty days to zero, above the
    score the same text gets when it is fresh. *)
Theorem ApplyTimeDecay_lifts_negative score postedAt now :
  score < - 10 → postedAt ≠ zero_time →
  30 * 24 * hour < time_sub now postedAt →
  ApplyTimeDecay score postedAt now = 0
  ∧ ∀ fresh, fresh ≠ zero_time → time_sub now fresh ≤ 48 * hour →
      ApplyTimeDecay score fresh now < 0.
Proof.
  intros Hs Hp Ha. assert (0 < hour) by done.
  unfold ApplyTimeDecay, clampNonNegative, timeDecayFreshBoost, timeDecayRecentBoost,
    timeDecayAgedPenalty, timeDecayStalePenalty, is_zero_time.
  rewrite (proj2 (Z.eqb_neq postedAt _)) by done. split.
  - split_ifs; lia.
  - intros fresh Hf Hfa. rewrite (proj2 (Z.eqb_neq fresh _)) by done.
    rewrite (proj2 (Z.leb_le _ (48 * hour))) by done. lia.
Qed.

Lemma ApplyTimeDecay_lifts_negative_witness :
  ApplyTimeDecay (-190) hour (hour + 31 * 24 * hour) = 0.
Proof.
  apply (ApplyTimeDecay_lifts_negative (-190) hour (hour + 31 * 24 * hour));
    vm_compute; congruence.
Defined.

(** Pilot qualification is three of the eight signals: the verdict counts
    them, the first tag states it, and the others are the signals themselves,
    each at most once. *)
Theorem PilotQualified_counts spendTier stack text :
  let lower := ToLower text in
  let signals :=
    [MatchString spendRe lower || spendTierQualifies spendTier;
     negb (is_empty stack) || negb (is_empty (DetectCompetitorStack text))
       || MatchString competitorRe lower;
     MatchString painRe lower; MatchString infraRe lower; MatchString usdtRe lower;
     MatchString buyerRoleRe lower; MatchString volumeRe lower; MatchString migrRe lower] in
  let r := PilotQualified spendTier stack text in
  r.1 = (3 <=? count_if id signals)
  ∧ head r.2 = Some (if r.1 then "pilot-qualified" else "pilot-nurture")
  ∧ Z.of_nat (length r.2) = 1 + count_if id signals
  ∧ NoDup r.2.
Proof.
  intros lower signals. unfold PilotQualified. fold lower. subst signals. unfold tag_if.
  generalize (MatchString spendRe lower || spendTierQualifies spendTier)
    (negb (is_empty stack) || negb (is_empty (DetectCompetitorStack text))
       || MatchString competitorRe lower)
    (MatchString painRe lower) (MatchString infraRe lower) (MatchString usdtRe lower)
    (MatchString buyerRoleRe lower) (MatchString volumeRe lower) (MatchString migrRe lower).
  intros b1 b2 b3 b4 b5 b6 b7 b8.
  destruct b1, b2, b3, b4, b5, b6, b7, b8; simpl;
    (split; [reflexivity|split; [reflexivity|split; [reflexivity|]]]);
    apply (bool_decide_unpack _); vm_compute; exact I.
Qed.

(** The stack of a page: no fingerprint twice, and [structured] is set
    whenever a script payload shows a fingerprint, also when the page shows it
    anyway: the flag does not mean "found only in the payloads". *)
Theorem CollectStack_structured `{JsonLib} html :
  let r := CollectStack html in
  NoDup r.1
  ∧ (r.2 = true → r.1 ≠ [])
  ∧ (∀ payload, html ≠ estr → payload ≠ estr →
     payload = match FindAllSubmatch nextDataScriptRe 1 html with
               | m :: _ => flattenStackJSON m +:+ " " | [] => estr end
               +:+ Join ((λ m, m +:+ " ") <$> FindAllSubmatch nextFlightPushRe 1 html) estr →
     r = (mergeStack (DetectCompetitorStack html) (DetectCompetitorStack payload),
          negb (is_empty (DetectCompetitorStack payload)) &&
          negb (is_empty (mergeStack (DetectCompetitorStack html)
                                     (DetectCompetitorStack payload))))).
Proof.
  assert (∀ b e, NoDup b → NoDup (mergeStack b e)) as Hm.
  { intros b e Hb. unfold mergeStack. destruct (is_empty e); [done|]. apply add_all_NoDup. }
  assert (∀ (A : Type) (l : list A), is_empty l = false → l ≠ []) as He by (by intros A []).
  unfold CollectStack. destruct (String.eqb_spec html estr) as [E|E].
  { simpl. split; [constructor|]. by split. }
  set (p := _ +:+ Join _ estr). destruct (String.eqb_spec p estr) as [E'|E'].
  { simpl. split; [apply DetectCompetitorStack_NoDup|]. split; [done|].
    intros payload _ Hne Hp. congruence. }
  cbn [fst snd]. split; [by apply Hm, DetectCompetitorStack_NoDup|]. split.
  - intros [_ Hn]%andb_true_iff. apply He. by apply negb_true_iff.
  - intros payload _ _ ->. fold p. f_equal. f_equal.
    destruct (is_empty (DetectCompetitorStack p)); [done|].
    by destruct (length (DetectCompetitorStack html)).
Qed.

(** "keitaro" is in the page text and again in a flight chunk. *)
Lemma CollectStack_structured_witness :
  @CollectStack {| Unmarshal := λ _, None |}
    ("<p>we use Keitaro</p> self.__next_f.push([1," +:+ dq +:+ "keitaro" +:+ dq)
  = (["keitaro"], true).
Proof.
  set (html := "<p>we use Keitaro</p> self.__next_f.push([1," +:+ dq +:+ "keitaro" +:+ dq).
  destruct (@CollectStack_structured {| Unmarshal := λ _, None |} html) as (_ & _ & H).
  rewrite (H "keitaro "); [vm_compute; reflexivity|vm_compute; discriminate|discriminate|].
  vm_compute. reflexivity.
Defined.

(** The engine in one statement: the priority is the one of the stored
    score, title and context are untouched, the stored summary is the match
    summary of the registry, and all boosts together lift the gated keyword
    score by at most 195 (205 with the freshness bonus), less 200 for a listicle
    title and 100 for vendor marketing copy, so pain words alone leave a listicle
    at most 5 above its gated keyword score and reputation. *)
Theorem ScoreWithBoosts_bounds `{Sorter} reg text source stack rep_boost opts now :
  let combined := lt_Context text +:+ " " +:+ lt_Title text in
  let result := AnalyzeWithRegistry reg combined in
  let rep := match rep_boost with Some b => b source | None => 0 end in
  let penalty := (if IsListicleTitle (lt_Title text) then 200 else 0)
    + (if IsSEOMarketingCopy (lt_Context text) (lt_Title text) then 100 else 0) in
  let '(p, t) := ScoreWithBoosts reg text source stack rep_boost opts now in
  p = PriorityFromScore reg (lt_Score t)
  ∧ lt_Title t = lt_Title text ∧ lt_Context t = lt_Context text
  ∧ lt_Matched t = res_Summary result
  ∧ (TimeDecay opts = false →
     ApplySpendGate (res_Score result) combined (mediumMin reg) + rep - penalty
       ≤ lt_Score t ≤
     ApplySpendGate (res_Score result) combined (mediumMin reg) + rep - penalty + 195)
  ∧ lt_Score t ≤ Z.max 0
      (ApplySpendGate (res_Score result) combined (mediumMin reg) + rep - penalty + 205).
Proof.
  intros combined result rep penalty. unfold ScoreWithBoosts. fold combined result.
  pose proof (DetectDisplacementTier_range combined stack) as Hd.
  destruct (DetectDisplacementTier combined stack) as [tier d]. simpl in Hd.
  set (s0 := ApplySpendGate _ _ _).
  pose proof (CompetitorPainBoost_range s0 combined stack) as Hc.
  set (s1 := CompetitorPainBoost _ _ _) in *.
  set (s2 := BidShardPainBoost _ _).
  match goal with s2 := BidShardPainBoost ?x ?y |- _ =>
    pose proof (BidShardPainBoost_range x y) as Hb; fold s2 in Hb; revert Hb;
    generalize s2; clear s2 end. intros s2 Hb.
  assert (s0 + rep - penalty ≤ s2 ≤ s0 + rep - penalty + 195) as Hs2.
  { revert Hb. subst rep penalty. unfold stackStructuredBoost, CryptoGrayScoreBoost,
      ListicleScorePenalty.
    destruct rep_boost; destruct (IsListicleTitle _), (IsSEOMarketingCopy _ _),
      (HasCryptoGrayBuyerSignal _), (StructuredStack opts && _ && _); intros; lia. }
  cbn [lt_Title lt_Context lt_Matched lt_Score]. split; [done|].
  do 3 (split; [done|]). pose proof (ApplyTimeDecay_range s2 (PostedAt opts) now).
  destruct (TimeDecay opts); split; intros; try done; lia.
Qed.
