(* ===== verification/Outreach.v ===== *)
(** The outreach queue ([internal/scoring/outreach_queue.go]) and the contact
    quality of the CRM inbox ([contact_quality.go]). *)
From Stdlib Require Import SpecFloat.
From S2P Require Import Prelude Unicode GoStrings Utf8Facts TextFacts SourceRep Scoring.

Local Open Scope Z_scope.

(** ** Channels *)

Definition ContactChannelTelegram : string := "telegram".
Definition ContactChannelEmail : string := "email".
Definition ContactChannelSkype : string := "skype".
Definition ContactChannelForum : string := "forum".
Definition ContactChannelReddit : string := "reddit".
Definition ContactChannelGitHub : string := "github".
Definition ContactChannelOther : string := "other".

Definition contactChannelOrder : list string :=
  [ContactChannelTelegram; ContactChannelEmail; ContactChannelSkype; ContactChannelForum;
   ContactChannelReddit; ContactChannelGitHub].

Definition channelFromContactLine (line : string) : string :=
  let line := TrimSpace line in
  if String.eqb line estr then estr
  else
    let lower := ToLower line in
    if HasPrefix lower "telegram:" || HasPrefix line "@" then ContactChannelTelegram
    else if HasPrefix lower "forum:user/" || HasPrefix lower "warrior:user/"
    then ContactChannelForum
    else if HasPrefix lower "reddit:" then ContactChannelReddit
    else if HasPrefix lower "github:" then ContactChannelGitHub
    else if HasPrefix lower "skype:" then ContactChannelSkype
    else if HasPrefix lower "email:" then ContactChannelEmail
    else if Contains line "@" then ContactChannelEmail
    else estr.

(** The [seen] idiom: the non-empty values in order, each once. *)
Fixpoint add_channels (chs : list string) (seen : gset string) : list string :=
  match chs with
  | [] => []
  | ch :: chs' =>
      if String.eqb ch estr then add_channels chs' seen
      else if decide (ch ∈ seen) then add_channels chs' seen
      else ch :: add_channels chs' ({[ch]} ∪ seen)
  end.

Definition ParseContactChannels (contacts : list string) : list string :=
  add_channels (channelFromContactLine <$> contacts) ∅.

Definition normalizeOutreachChannel (raw : string) : string :=
  let raw := ToLower (TrimSpace raw) in
  if mem raw [ContactChannelTelegram; ContactChannelEmail; ContactChannelForum;
              ContactChannelReddit; ContactChannelGitHub; ContactChannelSkype]
  then raw else estr.

Definition containsChannel (channels : list string) (want : string) : bool :=
  mem want channels.

Fixpoint first_channel (available order : list string) : string :=
  match order with
  | [] => ContactChannelOther
  | ch :: order' => if containsChannel available ch then ch else first_channel available order'
  end.

Definition PickContactChannel (available : list string) (outreachChannel : string) : string :=
  if is_empty available then ContactChannelOther
  else
    let pref := normalizeOutreachChannel outreachChannel in
    if negb (String.eqb pref estr) && containsChannel available pref then pref
    else first_channel available contactChannelOrder.

Definition NextActionForChannel (channel : string) : string :=
  if String.eqb channel ContactChannelTelegram then "telegram_dm"
  else if String.eqb channel ContactChannelEmail then "cold_email"
  else if String.eqb channel ContactChannelSkype then "skype_message"
  else if String.eqb channel ContactChannelForum then "forum_manual"
  else if String.eqb channel ContactChannelReddit then "reddit_dm"
  else if String.eqb channel ContactChannelGitHub then "github_reach"
  else "research_contact".

Definition AssignOutreachQueue (contacts : list string) (outreachChannel : string)
    : string * string :=
  let contactChannel := PickContactChannel (ParseContactChannels contacts) outreachChannel in
  (contactChannel, NextActionForChannel contactChannel).

Definition channel_of_type (t : string) : string :=
  let t := ToLower (TrimSpace t) in
  if String.eqb t "email" then ContactChannelEmail
  else if String.eqb t "telegram" then ContactChannelTelegram
  else if String.eqb t "forum_user" then ContactChannelForum
  else if String.eqb t "reddit" then ContactChannelReddit
  else if String.eqb t "github" then ContactChannelGitHub
  else if String.eqb t "skype" then ContactChannelSkype
  else estr.

Definition ChannelsFromContactTypes (types : list string) : list string :=
  add_channels (channel_of_type <$> types) ∅.

Definition SourcePrefersEmailOutreach (source : string) (channels : list string) : bool :=
  if negb (containsChannel channels ContactChannelEmail) then false
  else has_any_prefix (ToLower (TrimSpace source)) ["ads_txt:"; "lander:"; "tgweb:"; "supply:"].

(** ** Engage priority *)

Record EngagePriorityInput := {
  ep_Priority : Priority;
  ep_Score : Z;
  ep_DisplacementTier : DisplacementTier;
  ep_PilotQualified : bool;
  ep_Stack : list string;
  ep_EntityHeat : spec_float;
  ep_ContactQuality : string;
  ep_HasEngageDraft : bool;
  ep_SourceFamily : string;
}.

(** [int(f)] for a finite double: truncation towards zero. *)
Definition int_of_float (f : spec_float) : Z :=
  match f with
  | S754_finite s m e =>
      let v := if 0 <=? e then Z.pos m * 2 ^ e else Z.pos m / 2 ^ (- e) in
      if s then - v else v
  | _ => 0
  end.

Definition heat_points (heat : spec_float) : Z :=
  if float_lt (S754_zero false) heat
  then int_of_float (SFmul 53 1024 heat (float_of_int 20)) else 0.

Definition ComputeEngagePriority (i : EngagePriorityInput) : Z :=
  let priority := match ep_Priority i with
                  | PriorityHigh => 100 | PriorityMedium => 50 | PriorityLow => 10 end in
  let priority := if 40 <? ep_Score i then priority + 40
                  else if 0 <? ep_Score i then priority + ep_Score i else priority in
  let priority := match ep_DisplacementTier i with
                  | DisplacementHot => priority + 30
                  | DisplacementWarm => priority + 15
                  | DisplacementNone => priority end in
  let priority := if is_empty (ep_Stack i) then priority else priority + 10 in
  let priority := if ep_PilotQualified i then priority + 20 else priority in
  let priority := if ep_HasEngageDraft i then priority + 15 else priority in
  let priority := priority + heat_points (ep_EntityHeat i) in
  let priority := if String.eqb (ep_ContactQuality i) "verified" then priority + 10
                  else if String.eqb (ep_ContactQuality i) "role" then priority - 10
                  else priority in
  let priority := if HasPrefix (ToLower (ep_SourceFamily i)) "reddit:" then priority + 8
                  else if HasPrefix (ToLower (ep_SourceFamily i)) "forum:" then priority + 6
                  else priority in
  if priority <? 0 then 0 else priority.

(** ** Contact quality ([contact_quality.go]) *)

Definition ContactQualityNamed : string := "named".
Definition ContactQualityRoleAccount : string := "role_account".
Definition ContactQualityGeneric : string := "generic".

Definition roleLocalParts : list string :=
  [ "info"; "support"; "sales"; "contact"; "hello"; "admin"; "help"; "team"; "office";
    "noreply"; "no-reply"; "marketing"; "billing"; "accounts" ].
Definition scoreEmailLocal (email : string) : string :=
  let email := TrimSpace (ToLower email) in
  match LastIndex email "@" with
  | Some (S at_) =>
      let local := stake (S at_) email in
      if String.eqb local estr then ContactQualityGeneric
      else if mem local roleLocalParts then ContactQualityRoleAccount
      else if Contains local "." || Contains local "_" || Nat.leb 4 (slen local)
      then ContactQualityNamed
      else ContactQualityGeneric
  | _ => ContactQualityGeneric
  end.

(** [scoreEmailLocal] never answers the empty string, so the first email line
    decides. *)
Fixpoint quality_loop (contacts : list string) : string :=
  match contacts with
  | [] => ContactQualityGeneric
  | line :: rest =>
      let line := TrimSpace (ToLower line) in
      let q := if HasPrefix line "email:" then scoreEmailLocal (TrimPrefix line "email:")
               else estr in
      if negb (String.eqb q estr) then q
      else if HasPrefix line "telegram:" || HasPrefix line "@" then ContactQualityNamed
      else quality_loop rest
  end.

Definition ScoreContactQuality (contacts : list string) : string :=
  if is_empty contacts then ContactQualityGeneric else quality_loop contacts.

(** ** Facts *)

Lemma add_channels_spec chs seen :
  NoDup (add_channels chs seen)
  ∧ ∀ ch, ch ∈ add_channels chs seen ↔ ch ∈ chs ∧ ch ≠ estr ∧ ch ∉ seen.
Proof.
  revert seen. induction chs as [|c chs IH]; intros seen; simpl.
  { split; [constructor|set_solver]. }
  destruct (String.eqb_spec c estr) as [->|Hc].
  { destruct (IH seen) as [H1 H2]. split; [done|]. set_solver. }
  destruct (decide (c ∈ seen)) as [Hs|Hs].
  { destruct (IH seen) as [H1 H2]. split; [done|]. set_solver. }
  destruct (IH ({[c]} ∪ seen)) as [H1 H2]. split.
  - constructor; [|done]. rewrite H2. set_solver.
  - intros ch. rewrite elem_of_cons, H2. destruct (decide (ch = c)); set_solver.
Qed.

Lemma channelFromContactLine_known line :
  channelFromContactLine line = estr ∨ channelFromContactLine line ∈ contactChannelOrder.
Proof.
  unfold channelFromContactLine, contactChannelOrder. split_ifs; set_solver.
Qed.

Lemma first_channel_spec avail order :
  (∃ l1 l2, order = l1 ++ first_channel avail order :: l2
     ∧ first_channel avail order ∈ avail ∧ ∀ c, c ∈ l1 → c ∉ avail)
  ∨ (first_channel avail order = ContactChannelOther ∧ ∀ c, c ∈ order → c ∉ avail).
Proof.
  induction order as [|c order IH]; simpl; [right; set_solver|].
  unfold containsChannel. destruct (mem c avail) eqn:E.
  - left. exists [], order. apply mem_spec in E. set_solver.
  - assert (c ∉ avail) as Hc by (rewrite <- mem_spec; congruence).
    destruct IH as [(l1 & l2 & Ho & ? & ?)|[? ?]]; [left|right; set_solver].
    exists (c :: l1), l2. split; [by rewrite Ho at 1|]. set_solver.
Qed.

Definition tier_points (t : DisplacementTier) : Z :=
  match t with DisplacementHot => 30 | DisplacementWarm => 15 | DisplacementNone => 0 end.
Definition prio_points (p : Priority) : Z :=
  match p with PriorityHigh => 100 | PriorityMedium => 50 | PriorityLow => 10 end.

(** The part of the sum that neither the priority nor the boosts change. *)
Definition fixed_points (i : EngagePriorityInput) : Z :=
  Z.min 40 (Z.max 0 (ep_Score i)) + heat_points (ep_EntityHeat i)
  + (if String.eqb (ep_ContactQuality i) "verified" then 10
     else if String.eqb (ep_ContactQuality i) "role" then -10 else 0)
  + (if HasPrefix (ToLower (ep_SourceFamily i)) "reddit:" then 8
     else if HasPrefix (ToLower (ep_SourceFamily i)) "forum:" then 6 else 0).

Lemma ComputeEngagePriority_sum i :
  ComputeEngagePriority i =
  Z.max 0 (prio_points (ep_Priority i) + fixed_points i + tier_points (ep_DisplacementTier i)
    + (if is_empty (ep_Stack i) then 0 else 10) + (if ep_PilotQualified i then 20 else 0)
    + (if ep_HasEngageDraft i then 15 else 0)).
Proof.
  assert (∀ p s, (if 40 <? s then p + 40 else if 0 <? s then p + s else p)
    = p + Z.min 40 (Z.max 0 s)) as Hs by (intros; split_ifs; lia).
  unfold ComputeEngagePriority, fixed_points. cbv zeta. rewrite Hs.
  fold (prio_points (ep_Priority i)).
  assert (∀ p t, match t with DisplacementHot => p + 30 | DisplacementWarm => p + 15
    | DisplacementNone => p end = p + tier_points t) as Ht by (intros p []; simpl; lia).
  rewrite Ht. destruct (is_empty _), (ep_PilotQualified i), (ep_HasEngageDraft i);
    repeat match goal with
    | |- context [if String.eqb ?a ?b then _ else _] => destruct (String.eqb a b)
    | |- context [if HasPrefix ?a ?b then _ else _] => destruct (HasPrefix a b)
    end; split_if; bool_to_prop; lia.
Qed.

(** ** Properties *)

(** The outreach queue never points at a channel the lead does not have: with
    no contact line that names a channel the action is research; otherwise the
    channel is one of the lead's, the hinted one when the lead has it, and if
    not the first the lead has in the fixed order of channels. *)
Theorem AssignOutreachQueue_channel contacts hint :
  let avail := ParseContactChannels contacts in
  let '(ch, action) := AssignOutreachQueue contacts hint in
  NoDup avail
  ∧ (∀ c, c ∈ avail ↔ (c ≠ estr ∧ ∃ line, line ∈ contacts ∧ channelFromContactLine line = c))
  ∧ action = NextActionForChannel ch
  ∧ (((avail = []) ∧ ch = ContactChannelOther ∧ action = "research_contact")
     ∨ (ch ∈ avail ∧ action ≠ "research_contact"
        ∧ (ch = normalizeOutreachChannel hint
           ∨ ((normalizeOutreachChannel hint ∉ avail)
              ∧ ∃ l1 l2, contactChannelOrder = l1 ++ ch :: l2 ∧ ∀ c, c ∈ l1 → c ∉ avail)))).
Proof.
  intros avail. unfold AssignOutreachQueue. fold avail.
  destruct (add_channels_spec (channelFromContactLine <$> contacts) ∅) as [Hnd Hel].
  change (add_channels _ _) with avail in Hnd, Hel.
  assert (∀ c, c ∈ avail → c ∈ contactChannelOrder) as Hkn.
  { intros c (Hc & Hne & _)%Hel. apply list_elem_of_fmap in Hc as (l & -> & _).
    by destruct (channelFromContactLine_known l). }
  assert (∀ c, c ∈ avail → NextActionForChannel c ≠ "research_contact") as Hact.
  { intros c Hc%Hkn. unfold contactChannelOrder in Hc.
    repeat (apply elem_of_cons in Hc as [->|Hc]; [discriminate|]). set_solver. }
  split; [done|]. split.
  { intros c. rewrite Hel, list_elem_of_fmap. set_solver. }
  split; [done|]. unfold PickContactChannel.
  destruct (is_empty avail) eqn:Ee.
  { left. destruct avail; [done|discriminate]. }
  right. destruct (negb _ && _) eqn:Ep.
  - apply andb_true_iff in Ep as [_ Hp]. apply mem_spec in Hp. auto.
  - assert (normalizeOutreachChannel hint ∉ avail) as Hh.
    { intros Hin. apply andb_false_iff in Ep as [Ep|Ep].
      - apply negb_false_iff, String.eqb_eq in Ep. rewrite Ep in Hin.
        apply Hel in Hin. naive_solver.
      - unfold containsChannel in Ep. apply mem_spec in Hin. congruence. }
    destruct (first_channel_spec avail contactChannelOrder)
      as [(l1 & l2 & Ho & Hin & Hl)|[_ Hno]].
    + split; [done|]. split; [by apply Hact|]. right. split; [done|].
      exists l1, l2. by rewrite <- Ho.
    + exfalso. destruct avail as [|c l]; [discriminate|].
      apply (Hno c); [|by left]. apply Hkn. by left.
Qed.

(** An accepted lead's engage priority is never negative; a hot displacement
    tier, a stack, a pilot tag and a draft never lower it; and, clear of the
    clamp at zero, the same lead at High beats itself at Medium by exactly 50
    and at Medium beats itself at Low by 40. *)
Theorem ComputeEngagePriority_monotone i :
  let with_p p := {| ep_Priority := p; ep_Score := ep_Score i;
    ep_DisplacementTier := ep_DisplacementTier i; ep_PilotQualified := ep_PilotQualified i;
    ep_Stack := ep_Stack i; ep_EntityHeat := ep_EntityHeat i;
    ep_ContactQuality := ep_ContactQuality i; ep_HasEngageDraft := ep_HasEngageDraft i;
    ep_SourceFamily := ep_SourceFamily i |} in
  let hot := {| ep_Priority := ep_Priority i; ep_Score := ep_Score i;
    ep_DisplacementTier := DisplacementHot; ep_PilotQualified := true;
    ep_Stack := "keitaro" :: ep_Stack i; ep_EntityHeat := ep_EntityHeat i;
    ep_ContactQuality := ep_ContactQuality i; ep_HasEngageDraft := true;
    ep_SourceFamily := ep_SourceFamily i |} in
  0 ≤ ComputeEngagePriority i
  ∧ ComputeEngagePriority i ≤ ComputeEngagePriority hot
  ∧ ComputeEngagePriority (with_p PriorityLow) ≤ ComputeEngagePriority (with_p PriorityMedium)
      ≤ ComputeEngagePriority (with_p PriorityHigh)
  ∧ (0 < ComputeEngagePriority (with_p PriorityLow) →
     ComputeEngagePriority (with_p PriorityMedium)
       = ComputeEngagePriority (with_p PriorityLow) + 40
     ∧ ComputeEngagePriority (with_p PriorityHigh)
       = ComputeEngagePriority (with_p PriorityMedium) + 50).
Proof.
  intros with_p hot. rewrite !ComputeEngagePriority_sum.
  assert (∀ p, fixed_points (with_p p) = fixed_points i) as Hf by done.
  assert (fixed_points hot = fixed_points i) as Hh by done.
  rewrite !Hf, Hh. subst with_p hot. cbn [ep_Priority ep_DisplacementTier ep_Stack
    ep_PilotQualified ep_HasEngageDraft is_empty prio_points].
  generalize (fixed_points i) (prio_points (ep_Priority i)). intros f p.
  change (tier_points DisplacementHot) with 30.
  assert (0 ≤ tier_points (ep_DisplacementTier i) ≤ 30)
    by (destruct (ep_DisplacementTier i); simpl; lia).
  destruct (is_empty _), (ep_PilotQualified i), (ep_HasEngageDraft i); lia.
Qed.

Lemma quality_loop_values contacts :
  quality_loop contacts ∈ [ContactQualityNamed; ContactQualityRoleAccount; ContactQualityGeneric].
Proof.
  induction contacts as [|line rest IH]; [set_solver|]. cbn [quality_loop]. cbv zeta.
  assert (∀ e, scoreEmailLocal e ∈
    [ContactQualityNamed; ContactQualityRoleAccount; ContactQualityGeneric]) as He.
  { intros e. unfold scoreEmailLocal. destruct (LastIndex _ _) as [[|n]|]; [set_solver| |set_solver].
    cbv zeta. repeat (split_if; [by repeat (left || right)|]); by repeat (left || right). }
  generalize (HasPrefix (TrimSpace (ToLower line)) "email:")
    (HasPrefix (TrimSpace (ToLower line)) "telegram:" || HasPrefix (TrimSpace (ToLower line)) "@").
  intros b1 b2. destruct b1.
  - destruct (negb _); [apply He|]. destruct b2; [set_solver|done].
  - destruct (negb _) eqn:E; [by vm_compute in E|]. destruct b2; [set_solver|done].
Qed.

(** The contact quality never moves the engage priority: the processor and
    the warm path feed it with [ScoreContactQuality], whose answers are "named",
    "role_account" and "generic", while the priority rewards "verified" and
    penalises "role", so the ten points are never added or taken. *)
Theorem contact_quality_never_counts contacts i :
  let with_q q := {| ep_Priority := ep_Priority i; ep_Score := ep_Score i;
    ep_DisplacementTier := ep_DisplacementTier i; ep_PilotQualified := ep_PilotQualified i;
    ep_Stack := ep_Stack i; ep_EntityHeat := ep_EntityHeat i; ep_ContactQuality := q;
    ep_HasEngageDraft := ep_HasEngageDraft i; ep_SourceFamily := ep_SourceFamily i |} in
  ComputeEngagePriority (with_q (ScoreContactQuality contacts))
  = ComputeEngagePriority (with_q estr).
Proof.
  intros with_q.
  assert (ScoreContactQuality contacts ∈
    [ContactQualityNamed; ContactQualityRoleAccount; ContactQualityGeneric]) as Hq.
  { unfold ScoreContactQuality. destruct (is_empty contacts); [set_solver|].
    apply quality_loop_values. }
  unfold ComputeEngagePriority. cbn [with_q ep_ContactQuality ep_Priority ep_Score
    ep_DisplacementTier ep_PilotQualified ep_Stack ep_EntityHeat ep_HasEngageDraft ep_SourceFamily].
  repeat (apply elem_of_cons in Hq as [->|Hq]; [reflexivity|]). by apply not_elem_of_nil in Hq.
Qed.
