(* ===== verification/Extract.v ===== *)
(** Contact extraction ([internal/extract/]: contacts.go, junk_handles.go,
    tglinks.go, urls.go). *)
From S2P Require Import Prelude Unicode GoStrings Utf8Facts TextFacts Regex RegexFacts.
From S2P Require Import GoSort Validate SourceRep Scoring Outreach.

Local Open Scope Z_scope.

(** ** Contacts *)

Record Contact := MkContact { c_Type : string; c_Value : string }.

#[global] Instance Contact_eq_dec : EqDecision Contact.
Proof. solve_decision. Defined.

Record Result := { Contacts : list Contact; Rejected : bool; Reason : string }.

Definition emailRe : re := MustCompile "[a-zA-Z0-9._%+\-]+@[a-zA-Z0-9.\-]+\.[a-zA-Z]{2,}".
Definition linkedInRe : re := MustCompile "https?://(?:www\.)?linkedin\.com/in/[a-zA-Z0-9\-_%]+/?".
Definition telegramRe : re := MustCompile "(?:telegram:)?@([a-zA-Z][a-zA-Z0-9_]{4,})".
Definition tmeRe : re := MustCompile "(?i)(?:https?://)?(?:t\.me|telegram\.me)/([a-zA-Z][a-zA-Z0-9_]{4,})".
Definition skypeRe : re := MustCompile "(?i)(?:skype|live)\s*[:@]\s*([a-zA-Z][a-zA-Z0-9.,\-_]{3,32})".
(** ** Junk handles ([junk_handles.go]) *)

Definition junkTelegramHandles : list string :=
  [ "media"; "keyframes"; "starting"; "supports"; "import"; "charset"; "font-face"; "layer";
    "page"; "scope"; "container"; "namespace"; "document"; "property"; "counter-style";
    "viewport"; "skype"; "trustpilot"; "boost" ].
Definition falseTelegramHandles : list string :=
  [ "github"; "reddit"; "serp" ].
Definition IsJunkTelegramHandle (value : string) : bool :=
  let handle := ToLower (TrimSpace (TrimPrefix value "@")) in
  if String.eqb handle estr then true else mem handle junkTelegramHandles.

Definition telegramHandleCore (value : string) : string :=
  TrimPrefix (TrimPrefix (ToLower (TrimSpace value)) "telegram:") "@".

Definition IsFalseTelegramHandle (value : string) : bool :=
  let handle := telegramHandleCore value in
  if String.eqb handle estr then true
  else if mem handle falseTelegramHandles then true
  else if HasPrefix handle "serp:" then true
  else if Contains handle "." then true
  else false.

Definition IsSyntheticContact (value : string) : bool :=
  let v := TrimPrefix (TrimPrefix (ToLower (TrimSpace value)) "telegram:") "@" in
  HasPrefix v "serp:" || Contains v "@serp:".

Definition junk_contact (c : Contact) : bool :=
  String.eqb (c_Type c) "telegram"
  && (IsJunkTelegramHandle (c_Value c) || IsFalseTelegramHandle (c_Value c)
      || IsSyntheticContact (c_Value c)).

Definition FilterJunkContacts (contacts : list Contact) : list Contact :=
  List.filter (λ c, negb (junk_contact c)) contacts.

(** ** Extraction ([contacts.go]) *)

Definition contact_key (c : Contact) : string :=
  c_Type c +:+ ":" +:+ ToLower (TrimSpace (c_Value c)).

Record found := { fd_seen : gset string; fd_contacts : list Contact }.

(** The hint prefixes whose value is the rest of the hint: prefix, contact type
    and whether the value is lowered. *)
Definition value_hints : list (string * string * bool) :=
  [("reddit:", "reddit", false); ("discord:", "discord", false); ("domain:", "domain", true);
   ("github:", "github", true); ("jobboard:company/", "jobboard_company", false);
   ("forum:user/", "forum_user", false); ("warrior:user/", "forum_user", false);
   ("review:", "review", false); ("telegram:user_id:", "telegram_user_id", false)].

Section extract.
Context `{MailLib} (st : validate_state).

(** The closure [add]. *)
Definition add (typ value : string) (f : found) : found :=
  let value := TrimSpace value in
  if String.eqb value estr then f
  else if String.eqb typ "email" && negb (AcceptEmail st value) then f
  else
    let key := typ +:+ ":" +:+ ToLower value in
    if decide (key ∈ fd_seen f) then f
    else {| fd_seen := {[key]} ∪ fd_seen f;
            fd_contacts := fd_contacts f ++ [MkContact typ value] |}.

Definition add_all_contacts (cs : list (string * string)) (f : found) : found :=
  foldl (λ f '(typ, value), add typ value f) f cs.

Definition email_candidates (combined : string) : list (string * string) :=
  (λ email, ("email", ToLower email))
    <$> List.filter (λ email, negb (MatchString linkedInRe email))
          (FindAllString emailRe combined).

Definition strip_emails (combined : string) : string :=
  foldl (λ scratch email, ReplaceAll scratch email " ") combined
    (FindAllString emailRe combined).

Definition handle_candidates (rx : re) (scratch : string) : list (string * string) :=
  (λ handle, ("telegram", handle))
    <$> List.filter (λ handle, negb (IsFalseTelegramHandle handle || IsJunkTelegramHandle handle))
          ((λ m, "@" +:+ m) <$> FindAllSubmatch rx 1 scratch).

Definition skype_candidates (scratch : string) : list (string * string) :=
  (λ m, ("skype", ToLower m)) <$> FindAllSubmatch skypeRe 1 scratch.

Fixpoint value_hint (hint lower : string) (table : list (string * string * bool))
    : option (list (string * string)) :=
  match table with
  | [] => None
  | (p, typ, low) :: table' =>
      if HasPrefix lower p then
        let value := TrimSpace (sdrop (slen p) hint) in
        Some (if String.eqb value estr then []
              else [(typ, if low : bool then ToLower value else value)])
      else value_hint hint lower table'
  end.

(** What one hint adds. *)
Definition hint_candidates (hint : string) : list (string * string) :=
  let hint := TrimSpace hint in
  if String.eqb hint estr then []
  else
    let lower := ToLower hint in
    match value_hint hint lower value_hints with
    | Some cs => cs
    | None =>
        if HasPrefix lower "telegram:" then
          let val := TrimPrefix hint "telegram:" in
          if negb (IsJunkTelegramHandle val) && negb (IsFalseTelegramHandle val)
          then [("telegram", val)] else []
        else if HasPrefix lower "skype:" then [("skype", TrimPrefix lower "skype:")]
        else if Contains hint "@" && MatchString emailRe hint
        then [("email", ToLower (FindString emailRe hint))]
        else []
    end.

Definition candidates (text : string) (hints : list string) : list (string * string) :=
  let combined := Join (text :: hints) " " in
  let scratch := strip_emails combined in
  email_candidates combined
  ++ handle_candidates telegramRe scratch ++ handle_candidates tmeRe scratch
  ++ skype_candidates scratch ++ (hints ≫= hint_candidates).

Definition Extract (text : string) (hints : list string) : Result :=
  let combined := Join (text :: hints) " " in
  let contacts :=
    fd_contacts (add_all_contacts (candidates text hints)
                   {| fd_seen := ∅; fd_contacts := [] |}) in
  match contacts with
  | [] => if MatchString linkedInRe combined
          then {| Contacts := []; Rejected := true; Reason := "linkedin-only contact" |}
          else {| Contacts := []; Rejected := false; Reason := estr |}
  | _ => {| Contacts := contacts; Rejected := false; Reason := estr |}
  end.
End extract.

Definition Primary (contacts : list Contact) : string :=
  match List.find (λ c, String.eqb (c_Type c) "email" && negb (String.eqb (c_Value c) estr))
          contacts with
  | Some c => c_Value c
  | None => match List.find (λ c, negb (String.eqb (c_Value c) estr)) contacts with
            | Some c => c_Value c
            | None => estr
            end
  end.

(** One line of [FormatAll]. *)
Definition format_contact (c : Contact) : string :=
  let t := c_Type c in
  let v := c_Value c in
  if String.eqb t "telegram" && negb (HasPrefix v "telegram:") then "telegram:" +:+ v
  else if String.eqb t "reddit" then "reddit:" +:+ TrimPrefix v "reddit:"
  else if String.eqb t "discord" then "discord:" +:+ TrimPrefix v "discord:"
  else if String.eqb t "domain" then "domain:" +:+ TrimPrefix (ToLower v) "domain:"
  else if String.eqb t "github" then "github:" +:+ TrimPrefix (ToLower v) "github:"
  else if String.eqb t "jobboard_company"
  then "jobboard:company/" +:+ TrimPrefix v "jobboard:company/"
  else if String.eqb t "forum_user"
  then "forum:user/" +:+ TrimPrefix (TrimPrefix v "forum:user/") "warrior:user/"
  else if String.eqb t "review" then "review:" +:+ TrimPrefix v "review:"
  else if String.eqb t "skype" then "skype:" +:+ TrimPrefix (ToLower v) "skype:"
  else v.

Definition FormatAll (contacts : list Contact) : list string := format_contact <$> contacts.

Fixpoint role_loop (contacts : list Contact) (hasEmail : bool) : bool :=
  match contacts with
  | [] => hasEmail
  | c :: cs =>
      if negb (String.eqb (c_Type c) "email") then false
      else if negb (IsRoleEmail (c_Value c)) then false
      else role_loop cs true
  end.

Definition OnlyRoleEmails (contacts : list Contact) : bool := role_loop contacts false.

Definition HasReachableContact (contacts : list Contact) : bool :=
  existsb (λ c, mem (c_Type c) ["email"; "telegram"; "skype"]
                && negb (String.eqb (TrimSpace (c_Value c)) estr)) contacts.

Definition HasEnrichableIdentity (contacts : list Contact) : bool :=
  existsb (λ c, mem (c_Type c) ["forum_user"; "github"; "reddit"; "telegram_user_id"]
                && negb (String.eqb (TrimSpace (c_Value c)) estr)) contacts.

Definition IntelOnlyContacts (contacts : list Contact) : bool :=
  match contacts with
  | [] => false
  | _ => forallb (λ c, mem (c_Type c) ["jobboard_company"; "domain"; "review"]) contacts
  end.

Definition MergeContacts (base add : list Contact) : list Contact :=
  match add with
  | [] => base
  | _ => dedup_on contact_key (base ++ add)
  end.

(** ** Telegram links ([tglinks.go]) *)

Definition tmePublicRe : re := MustCompile "(?i)(?:https?://)?(?:t\.me|telegram\.me)/([a-zA-Z][a-zA-Z0-9_]{4,})".
Definition tmeInviteRe : re := MustCompile "(?i)(?:https?://)?(?:t\.me|telegram\.me)/\+([A-Za-z0-9_-]{10,})".
Definition joinChatRe : re := MustCompile "(?i)(?:https?://)?(?:t\.me|telegram\.me)/joinchat/([A-Za-z0-9_-]+)".
Definition atHandleRe : re := MustCompile "(?:^|[^\w])@([a-zA-Z][a-zA-Z0-9_]{4,})".
Definition isBlockedTelegramHandle (u : string) : bool :=
  mem u ["telegram"; "support"; "share"; "addstickers"; "joinchat"; "s"; "c"; "iv"]
  || HasSuffix u "bot".

Definition TelegramHandles (text : string) : list string :=
  dedup_on id
    (List.filter (λ u, negb (isBlockedTelegramHandle u))
       (ToLower <$> (FindAllSubmatch tmePublicRe 1 text ++ FindAllSubmatch atHandleRe 1 text))).

Definition TelegramInviteHashes (text : string) : list string :=
  dedup_on id (FindAllSubmatch tmeInviteRe 1 text ++ FindAllSubmatch joinChatRe 1 text).

(** ** Web domains ([urls.go]) *)

Definition blockedWebHosts : list string :=
  [ "t.me"; "telegram.me"; "telegram.org"; "instagram.com"; "facebook.com"; "fb.com";
    "twitter.com"; "x.com"; "youtube.com"; "youtu.be"; "google.com"; "linkedin.com"; "bit.ly";
    "tiktok.com"; "discord.gg"; "discord.com"; "wa.me"; "whatsapp.com"; "forms.gle"; "goo.gl";
    "linktr.ee"; "taplink.cc"; "vk.com"; "ok.ru"; "medium.com"; "github.com"; "notion.site";
    "docs.google.com"; "magiceden.io"; "jup.ag"; "raydium.io"; "knowyourmeme.com"; "pump.fun";
    "collab.land"; "telegra.ph"; "teletype.in"; "chatgpt.com"; "openai.com"; "binance.com";
    "bing.com"; "wikipedia.org"; "reddit.com"; "amazon.com"; "reuters.com"; "gov.uk";
    "legislation.gov.uk"; "gamblingcommission.gov.uk"; "niesr.ac.uk"; "icann.org";
    "cloudflare.com"; "sentry.io"; "google.co.uk"; "googleapis.com"; "gstatic.com"; "site.com";
    "site2.com"; "us.com"; "us.net"; "it.com" ].
Definition urlRe : re := MustCompile ("https?://[^\s<>" +:+ dq +:+ "']+").
Definition bareHostRe : re := MustCompile ("(?i)(?:^|[\s" +:+ dq +:+ "'<(])((?:[a-z0-9](?:[a-z0-9\-]{0,61}[a-z0-9])?\.)+[a-z]{2,})(?:[^\w.-]|$)").
Definition invalidSuffixes : list string :=
  [ ".jpg"; ".jpeg"; ".png"; ".gif"; ".webp"; ".svg"; ".pdf"; ".txt"; ".html"; ".htm"; ".php";
    ".css"; ".js"; ".json"; ".xml" ].
Definition invalidTLD : list string :=
  [ "gram"; "ggate"; "dxb"; "txt"; "html"; "htm"; "jpg"; "jpeg"; "png"; "gif"; "php"; "pdf";
    "local"; "bot" ].
(** [net/url.Parse], the host only.  A URL of visible ASCII without percent
    signs whose authority is a plain host with an optional port is read here;
    the rest of the library parser is [parse_url_other]. *)
Class UrlLib := { parse_url_other : string → option string }.

Definition plain_host_char (r : N) : bool :=
  between 48 57 r || between 65 90 r || between 97 122 r
  || existsb (N.eqb r) [45; 46; 95; 126; 58]%N.

Fixpoint authority (s : string) : string :=
  match s with
  | EmptyString => estr
  | String a s' =>
      if existsb (N.eqb (code a)) [47; 63; 35]%N then estr else String a (authority s')
  end.

Definition valid_port (host : string) : bool :=
  match LastIndex host ":" with
  | None => true
  | Some i => forallb (between 48 57) (runes (sdrop (i + 1)%nat host))
  end.

Definition url_host `{UrlLib} (m : string) : option string :=
  let rest := if HasPrefix m "https://" then sdrop 8 m else sdrop 7 m in
  if forallb (λ r, between 33 126 r && negb (N.eqb r 37)) (runes m)
     && forallb plain_host_char (runes (authority rest))
  then if valid_port (authority rest) then Some (authority rest) else None
  else parse_url_other m.

Definition normalizeWebHost (host : string) : string :=
  let host := TrimPrefix (TrimByte (ToLower (TrimSpace host)) 46) "www." in
  if String.eqb host estr then estr
  else if Contains host ":" then default estr (head (Split host ":")) else host.

Definition IsBlockedWebHost (st : validate_state) (host : string) : bool :=
  let host := normalizeWebHost host in
  if String.eqb host estr then true
  else if mem host blockedWebHosts then true
  else if IsBlacklistedDomain st host then true
  else if existsb (λ blocked, HasSuffix host ("." +:+ blocked)) blockedWebHosts then true
  else HasSuffix host ".bot" || HasSuffix host ".local".

Definition IsValidWebDomain (st : validate_state) (host : string) : bool :=
  let host := normalizeWebHost host in
  if String.eqb host estr || IsBlockedWebHost st host then false
  else if existsb (HasSuffix host) invalidSuffixes then false
  else
    let parts := Split host "." in
    if Nat.ltb (length parts) 2 then false
    else
      let tld := default estr (last parts) in
      if Nat.ltb (slen tld) 2 || Nat.ltb 24 (slen tld) then false
      else if mem tld invalidTLD then false
      else negb (existsb (String.eqb estr) parts).

Definition dropHyphenFragments (text : string) (hosts : list string) : list string :=
  List.filter (λ host, negb (Contains (ToLower text) ("-" +:+ host))) hosts.

Definition dropSuffixFragments (hosts : list string) : list string :=
  if Nat.ltb (length hosts) 2 then hosts
  else List.filter (λ host, negb (existsb (λ other,
         negb (String.eqb host other) && HasSuffix other ("." +:+ host)) hosts)) hosts.

Definition WebDomains `{UrlLib} (st : validate_state) (text : string) : list string :=
  let from_urls := FindAllString urlRe text ≫= (λ m, match url_host m with
                     | Some h => if String.eqb h estr then [] else [h]
                     | None => [] end) in
  let hosts := normalizeWebHost <$> (from_urls ++ FindAllSubmatch bareHostRe 1 text) in
  let out := dedup_on id
    (List.filter (λ host, negb (String.eqb host estr || IsBlockedWebHost st host
                                || negb (IsValidWebDomain st host))) hosts) in
  dropSuffixFragments (dropHyphenFragments text out).

(** ** Facts about extraction *)

Lemma extract_patterns_compile :
  forallb compiled [emailRe; linkedInRe; telegramRe; tmeRe; skypeRe; tmePublicRe; tmeInviteRe;
                    joinChatRe; atHandleRe; urlRe; bareHostRe] = true.
Proof. vm_compute. reflexivity. Qed.

Section add_facts.
Context `{MailLib} (st : validate_state).

(** What [add] keeps of a candidate. *)
Definition acceptable (x : string * string) : Prop :=
  TrimSpace x.2 ≠ estr ∧ (x.1 = "email" → AcceptEmail st (TrimSpace x.2) = true).

Definition candidate_contact (x : string * string) : Contact := MkContact x.1 (TrimSpace x.2).

Lemma candidate_key x :
  contact_key (candidate_contact x) = x.1 +:+ ":" +:+ ToLower (TrimSpace x.2).
Proof. unfold contact_key. simpl. by rewrite TrimSpace_idemp. Qed.

Record found_inv (cs : list (string * string)) (f : found) : Prop := {
  fi_nodup : NoDup (contact_key <$> fd_contacts f);
  fi_seen k : k ∈ fd_seen f ↔ k ∈ contact_key <$> fd_contacts f;
  fi_origin c : c ∈ fd_contacts f → ∃ x, x ∈ cs ∧ acceptable x ∧ c = candidate_contact x;
  fi_complete x : x ∈ cs → acceptable x →
    contact_key (candidate_contact x) ∈ contact_key <$> fd_contacts f;
}.

Lemma add_inv cs f x :
  found_inv cs f → found_inv (cs ++ [x]) (add st x.1 x.2 f).
Proof.
  intros [Hn Hs Ho Hc]. unfold add.
  assert ((¬ acceptable x ∨ contact_key (candidate_contact x) ∈ fd_seen f) →
    found_inv (cs ++ [x]) f) as Hskip.
  { intros Hx. constructor; [done|done| |].
    - intros c (y & Hy & Ha)%Ho. exists y. rewrite elem_of_app. auto.
    - intros y [Hy| ->%list_elem_of_singleton]%elem_of_app Ha; [auto|].
      rewrite <- Hs. by destruct Hx. }
  destruct (String.eqb_spec (TrimSpace x.2) estr) as [He|He].
  { apply Hskip. left. by intros [? _]. }
  destruct (String.eqb x.1 "email" && negb (AcceptEmail st (TrimSpace x.2))) eqn:Em.
  { apply Hskip. left. intros [_ Ha]. apply andb_true_iff in Em as [E1 E2].
    apply String.eqb_eq in E1. rewrite (Ha E1) in E2. done. }
  rewrite <- candidate_key. case_decide as Hk; [apply Hskip; auto|].
  assert (acceptable x) as Hacc.
  { split; [done|]. intros E. rewrite E in Em. simpl in Em. by apply negb_false_iff. }
  constructor; cbn [fd_contacts fd_seen].
  - rewrite fmap_app. apply NoDup_app. split; [done|]. split; [|apply NoDup_singleton].
    intros k Hk1 Hk2%list_elem_of_singleton. apply Hk. rewrite Hs. simpl in Hk2. by subst.
  - intros k. rewrite fmap_app, elem_of_app, <- Hs, elem_of_union, elem_of_singleton.
    cbn [fmap list_fmap]. rewrite list_elem_of_singleton. tauto.
  - intros c [Hin| ->%list_elem_of_singleton]%elem_of_app.
    + destruct (Ho c Hin) as (y & ? & ?). exists y. rewrite elem_of_app. auto.
    + exists x. rewrite elem_of_app. split; [right; by left|done].
  - intros y [Hy| ->%list_elem_of_singleton]%elem_of_app Ha; rewrite fmap_app, elem_of_app.
    + left. auto.
    + right. by left.
Qed.

Lemma add_all_inv cs :
  found_inv cs (add_all_contacts st cs {| fd_seen := ∅; fd_contacts := [] |}).
Proof.
  induction cs as [|x cs IH] using rev_ind.
  - constructor; simpl; [constructor|set_solver|set_solver|set_solver].
  - unfold add_all_contacts in *. rewrite foldl_app. simpl. destruct x as [typ v].
    by apply (add_inv cs _ (typ, v)).
Qed.

Lemma Extract_contacts text hints :
  Contacts (Extract st text hints) =
  fd_contacts (add_all_contacts st (candidates text hints)
                 {| fd_seen := ∅; fd_contacts := [] |}).
Proof. unfold Extract. destruct (fd_contacts _); [by destruct (MatchString _ _)|done]. Qed.
End add_facts.

(** ** Facts about emails *)

Definition email_char (r : N) : bool :=
  between 48 57 r || between 65 90 r || between 97 122 r
  || existsb (N.eqb r) [37; 43; 45; 46; 64; 95]%N.

Lemma email_char_ascii (P : N → bool) r :
  forallb (λ k, implb (email_char (N.of_nat k)) (P (N.of_nat k))) (seq 0 128) = true →
  email_char r = true → P r = true.
Proof.
  intros Hc H. assert (r < 128)%N as Hr.
  { unfold email_char in H. simpl in H. unfold between in H.
    repeat match goal with H : _ || _ = true |- _ => apply orb_true_iff in H as [H|H] end;
    bool_to_prop; try lia; done. }
  rewrite forallb_forall in Hc. specialize (Hc (N.to_nat r)).
  rewrite N2Nat.id, H in Hc. apply Hc, list_elem_of_In, elem_of_seq. lia.
Qed.

Lemma ascii_letters_lower r : email_char r = true → email_char (rune_to_lower r) = true.
Proof.
  apply (email_char_ascii (λ r, email_char (rune_to_lower r))). vm_compute. reflexivity.
Qed.

Lemma email_text_lower s :
  forallb email_char (runes s) = true → forallb email_char (runes (ToLower s)) = true.
Proof.
  rewrite runes_ToLower, !forallb_forall. intros H r Hr.
  apply list_elem_of_In, list_elem_of_fmap in Hr as (x & -> & Hx).
  by apply ascii_letters_lower, H, list_elem_of_In.
Qed.

Lemma forallb_mono {A} (f g : A → bool) l :
  (∀ x, f x = true → g x = true) → forallb f l = true → forallb g l = true.
Proof. intros Hfg. rewrite !forallb_forall. auto. Qed.

Lemma email_text_trim s : forallb email_char (runes s) = true → TrimSpace s = s.
Proof.
  intros Hs. unfold TrimSpace.
  assert (∀ c, c ∈ chunks s → space_chunk c = false) as Hn.
  { intros c Hc. rewrite forallb_forall in Hs. unfold space_chunk.
    apply negb_true_iff. apply (email_char_ascii (λ r, negb (is_space r))).
    - vm_compute. reflexivity.
    - apply Hs, list_elem_of_In, list_elem_of_fmap. eauto. }
  rewrite drop_while_none by done. unfold drop_while_end.
  rewrite drop_while_none by (intros c Hc; apply Hn; by rewrite <- elem_of_reverse).
  by rewrite reverse_involutive, concat_chunks_chunks.
Qed.

(** An accepted address made of email characters is no role mailbox. *)
Lemma AcceptEmail_not_role `{MailLib} st s :
  forallb email_char (runes s) = true → ToLower s = s →
  AcceptEmail st s = true → IsRoleEmail s = false.
Proof.
  intros Hs Hl. unfold AcceptEmail. rewrite email_text_trim, Hl by done.
  destruct (String.eqb s estr); [done|]. destruct (_ || _); [done|].
  unfold ParseAddress. rewrite (forallb_mono email_char); [| |done].
  2: { intros r Hr. apply (email_char_ascii plain_addr_char); [vm_compute; reflexivity|done]. }
  destruct (Split s "@") as [|l [|d [|x y]]]; try done.
  destruct (dot_atom l && dot_atom d); [|done]. rewrite Hl.
  destruct (Split s "@") as [|l' [|d' [|x' y']]]; try done.
  intros Ha. repeat (split_if_in Ha; [discriminate Ha|]). done.
Qed.

Lemma emails_within : re_within email_char emailRe = true.
Proof. vm_compute. reflexivity. Qed.

(** Every email candidate is a lowered string of email characters. *)
Lemma email_candidate_text text hints x :
  x ∈ candidates text hints → x.1 = "email" →
  forallb email_char (runes x.2) = true ∧ ToLower x.2 = x.2.
Proof.
  assert (∀ s, forallb email_char (runes s) = true →
    forallb email_char (runes (ToLower s)) = true ∧ ToLower (ToLower s) = ToLower s) as Hs.
  { intros s Hs. split; [by apply email_text_lower|apply ToLower_idemp]. }
  unfold candidates. rewrite !elem_of_app. intros [Hx|[Hx|[Hx|[Hx|Hx]]]] Ht.
  - unfold email_candidates in Hx. apply list_elem_of_fmap in Hx as (e & -> & He).
    apply list_elem_of_In, filter_In in He as [He _]. apply list_elem_of_In in He.
    apply Hs. by eapply FindAllString_within; [apply emails_within|].
  - by apply list_elem_of_fmap in Hx as (e & -> & _).
  - by apply list_elem_of_fmap in Hx as (e & -> & _).
  - by apply list_elem_of_fmap in Hx as (e & -> & _).
  - apply list_elem_of_bind in Hx as (h & Hx & _). revert Hx. unfold hint_candidates.
    destruct (String.eqb (TrimSpace h) estr); [set_solver|].
    destruct (value_hint _ _ _) as [cs|] eqn:Ev.
    + intros Hx. exfalso. revert Ev. unfold value_hints. cbn [value_hint].
      repeat (destruct (HasPrefix _ _); [intros [= <-]; revert Hx; destruct (String.eqb _ _);
        [set_solver|intros ->%list_elem_of_singleton; discriminate Ht]|]).
      done.
    + destruct (HasPrefix _ "telegram:").
      { destruct (_ && _); [intros ->%list_elem_of_singleton; discriminate Ht|set_solver]. }
      destruct (HasPrefix _ "skype:").
      { intros ->%list_elem_of_singleton. discriminate Ht. }
      destruct (_ && _); [|set_solver]. intros ->%list_elem_of_singleton.
      apply Hs, FindString_within, emails_within.
Qed.

Lemma role_loop_spec contacts b :
  role_loop contacts b = true ↔
  (b = true ∨ contacts ≠ [])
  ∧ ∀ c, c ∈ contacts → c_Type c = "email" ∧ IsRoleEmail (c_Value c) = true.
Proof.
  revert b. induction contacts as [|c cs IH]; intros b; cbn [role_loop].
  - split; [intros ->; split; [by left|set_solver]|]. intros [[?|?] _]; done.
  - destruct (String.eqb_spec (c_Type c) "email") as [E|E]; simpl.
    + destruct (IsRoleEmail (c_Value c)) eqn:Er; simpl.
      * rewrite IH. split.
        -- intros [_ Hall]. split; [by right|].
           intros x [->|Hx]%elem_of_cons; [done|by apply Hall].
        -- intros [_ Hall]. split; [by left|]. intros x Hx. apply Hall. by right.
      * split; [done|]. intros [_ H]. destruct (H c) as [_ H2]; [by left|congruence].
    + split; [done|]. intros [_ H]. destruct (H c) as [H1 _]; [by left|congruence].
Qed.

Lemma chunks_ascii a s : (code a < 128)%N → chunks (String a s) = Chunk (code a) (String a estr) :: chunks s.
Proof. intros H. cbn [chunks]. by rewrite (proj2 (N.ltb_lt _ _) H). Qed.

Lemma drop_while_end_snoc {A} (f : A → bool) l x :
  f x = false → ∀ k, drop_while_end f (l ++ x :: k) = l ++ x :: drop_while_end f k.
Proof.
  intros Hx k. unfold drop_while_end.
  assert (∀ m, drop_while f (reverse k ++ x :: m) = drop_while f (reverse k) ++ x :: m) as Hd.
  { intros m. induction (reverse k) as [|y ys IH]; simpl; [by rewrite Hx|].
    destruct (f y); [done|done]. }
  rewrite reverse_app, reverse_cons, <- app_assoc. simpl. rewrite Hd.
  rewrite reverse_app, reverse_cons, reverse_involutive, <- app_assoc. done.
Qed.

(** Trimming a string that starts with an ASCII word and a colon. *)
Fixpoint word_prefix (p : string) : bool :=
  match p with
  | EmptyString => false
  | String a EmptyString => negb (is_space (code a)) && N.ltb (code a) 128
  | String a p' => negb (is_space (code a)) && N.ltb (code a) 128 && word_prefix p'
  end.

Lemma word_prefix_chunks p s :
  word_prefix p = true →
  ∃ l x, chunks (p +:+ s) = l ++ x :: chunks s ∧ concat_chunks (l ++ [x]) = p
    ∧ space_chunk x = false ∧ drop_while space_chunk (chunks (p +:+ s)) = chunks (p +:+ s).
Proof.
  induction p as [|a p IH]; [done|]. intros H.
  assert (is_space (code a) = false ∧ (code a < 128)%N ∧ (p = estr ∨ word_prefix p = true))
    as (Hs & Ha & Hp).
  { destruct p; simpl in H; bool_to_prop; repeat split; try done; auto. }
  cbn [String.append]. rewrite chunks_ascii by done.
  assert (∀ l, drop_while space_chunk (Chunk (code a) (String a estr) :: l)
    = Chunk (code a) (String a estr) :: l) as Hd.
  { intros l. cbn [drop_while]. unfold space_chunk at 1. cbn [ck_rune]. by rewrite Hs. }
  destruct Hp as [->|Hp].
  - exists [], (Chunk (code a) (String a estr)). done.
  - destruct (IH Hp) as (l & x & E & Ec & Hx & _). rewrite E.
    exists (Chunk (code a) (String a estr) :: l), x. rewrite Hd. simpl. by rewrite Ec.
Qed.

Lemma TrimSpace_word_prefix p s :
  word_prefix p = true → ∃ t, TrimSpace (p +:+ s) = p +:+ t.
Proof.
  intros Hp. destruct (word_prefix_chunks p s Hp) as (l & x & E & Ec & Hx & Hd).
  unfold TrimSpace. rewrite Hd, E. rewrite drop_while_end_snoc by done.
  exists (concat_chunks (drop_while_end space_chunk (chunks s))).
  change (x :: drop_while_end space_chunk (chunks s))
    with ([x] ++ drop_while_end space_chunk (chunks s)).
  by rewrite app_assoc, concat_chunks_app, Ec.
Qed.

Fixpoint ascii_no_upper (p : string) : bool :=
  match p with
  | EmptyString => true
  | String a p' => N.ltb (code a) 128 && negb (between 65 90 (code a)) && ascii_no_upper p'
  end.

Lemma ToLower_ascii_app p s : ascii_no_upper p = true → ToLower (p +:+ s) = p +:+ ToLower s.
Proof.
  induction p as [|a p IH]; [done|]. cbn [ascii_no_upper].
  intros [[H1%N.ltb_lt H2%negb_true_iff]%andb_true_iff H]%andb_true_iff.
  unfold ToLower, runes. cbn [String.append]. rewrite chunks_ascii by done.
  unfold to_lower_runes. rewrite !fmap_cons. cbn [encode foldr ck_rune].
  assert (rune_to_lower (code a) = code a) as ->.
  { unfold rune_to_lower. rewrite (proj2 (N.ltb_lt _ _) H1). unfold between in H2.
    by rewrite H2. }
  assert (encode_rune (code a) = String a estr) as ->.
  { unfold encode_rune, valid_rune. rewrite (proj2 (N.ltb_lt (code a) 55296)) by lia.
    cbn [orb]. rewrite (proj2 (N.ltb_lt _ _) H1). unfold byte_of, code.
    by rewrite ascii_N_embedding. }
  cbn [String.append]. f_equal. by apply IH.
Qed.

(** The case analysis of [channelFromContactLine] on a trimmed line and its
    lowered form. *)
Definition channelFromContactLine_of (line lower : string) : string :=
  if String.eqb line estr then estr
  else if HasPrefix lower "telegram:" || HasPrefix line "@" then ContactChannelTelegram
  else if HasPrefix lower "forum:user/" || HasPrefix lower "warrior:user/"
  then ContactChannelForum
  else if HasPrefix lower "reddit:" then ContactChannelReddit
  else if HasPrefix lower "github:" then ContactChannelGitHub
  else if HasPrefix lower "skype:" then ContactChannelSkype
  else if HasPrefix lower "email:" then ContactChannelEmail
  else if Contains line "@" then ContactChannelEmail
  else estr.

(** ** Properties *)

(** C39. Extraction yields a clean contact list: no key (type and lowered value)
    twice, every value trimmed and non-empty, every email accepted by the email
    gate; and it loses nothing: the keys are exactly those of the acceptable
    candidates.  Only an empty list is ever rejected. *)
Theorem Extract_clean `{MailLib} st text hints :
  let r := Extract st text hints in
  NoDup (contact_key <$> Contacts r)
  ∧ (∀ c, c ∈ Contacts r → c_Value c ≠ estr ∧ TrimSpace (c_Value c) = c_Value c
       ∧ (c_Type c = "email" → AcceptEmail st (c_Value c) = true))
  ∧ (∀ k, k ∈ contact_key <$> Contacts r ↔
       ∃ x, x ∈ candidates text hints ∧ acceptable st x
            ∧ k = contact_key (candidate_contact x))
  ∧ (Rejected r = true ↔
       Contacts r = [] ∧ MatchString linkedInRe (Join (text :: hints) " ") = true).
Proof.
  intros r. subst r. rewrite Extract_contacts.
  destruct (add_all_inv st (candidates text hints)) as [Hn Hs Ho Hc].
  split; [done|]. split; [|split].
  - intros c (x & _ & [Hne Hem] & ->)%Ho. cbn [candidate_contact c_Value c_Type].
    by rewrite TrimSpace_idemp.
  - intros k. split.
    + intros (c & -> & (x & ? & ? & ->)%Ho)%list_elem_of_fmap. eauto.
    + intros (x & ? & ? & ->). auto.
  - unfold Extract. destruct (fd_contacts _) as [|c cs]; [|by split; [|intros [? _]]].
    destruct (MatchString _ _); split; try done. by intros [_ ?].
Qed.

(** The role-only verdict can never fire on extracted contacts: extraction
    keeps no role mailbox, so [OnlyRoleEmails] is false of its result for every
    text and every hint, whatever the mail parser does with exotic addresses. *)
Theorem Extract_never_only_role `{MailLib} st text hints :
  OnlyRoleEmails (Contacts (Extract st text hints)) = false.
Proof.
  apply not_true_iff_false. unfold OnlyRoleEmails. rewrite role_loop_spec, Extract_contacts.
  destruct (add_all_inv st (candidates text hints)) as [_ _ Ho _].
  intros [[?|Hne] Hall]; [done|]. destruct (fd_contacts _) as [|c cs]; [done|].
  destruct (Ho c) as (x & Hx & [_ Hem] & ->); [by left|].
  destruct (Hall (candidate_contact x)) as [Ht Hr]; [by left|]. simpl in Ht, Hr.
  destruct (email_candidate_text _ _ _ Hx Ht) as [Hch Hlow].
  rewrite email_text_trim in Hr by done. specialize (Hem Ht).
  rewrite email_text_trim in Hem by done.
  by rewrite (AcceptEmail_not_role st) in Hr.
Qed.

(** Merging contacts of the enricher: the base list stays a prefix, no key
    appears twice, the keys are those of both lists, and merging again changes
    nothing. *)
Theorem MergeContacts_spec base add :
  NoDup (contact_key <$> base) →
  let m := MergeContacts base add in
  base `prefix_of` m ∧ NoDup (contact_key <$> m)
  ∧ (∀ k, k ∈ contact_key <$> m ↔ k ∈ contact_key <$> base ∨ k ∈ contact_key <$> add)
  ∧ MergeContacts m add = m.
Proof.
  intros Hb m. assert (m = dedup_on contact_key (base ++ add)) as ->.
  { subst m. unfold MergeContacts. destruct add; [|done].
    rewrite app_nil_r. symmetry. apply dedup_from_id; [done|set_solver]. }
  split; [|split; [apply dedup_on_NoDup|split]].
  - apply dedup_on_prefix. done.
  - intros k. rewrite dedup_on_key, fmap_app, elem_of_app. done.
  - unfold MergeContacts. destruct add as [|a add]; [done|].
    set (l := a :: add). unfold dedup_on at 1.
    rewrite dedup_from_absorb; [done|apply dedup_on_NoDup| |].
    + set_solver.
    + intros c Hc. rewrite dedup_on_key, fmap_app, elem_of_app. right. right.
      by apply list_elem_of_fmap_2.
Qed.

Lemma MergeContacts_spec_witness :
  MergeContacts [MkContact "email" "A@x.io"] [MkContact "email" "a@x.io"; MkContact "reddit" "u"]
  = [MkContact "email" "A@x.io"; MkContact "reddit" "u"].
Proof.
  destruct (MergeContacts_spec [MkContact "email" "A@x.io"]
    [MkContact "email" "a@x.io"; MkContact "reddit" "u"]) as [_ _].
  - apply NoDup_singleton.
  - vm_compute. reflexivity.
Defined.

(** The printed contact lines are read back by the outreach queue: the line
    [FormatAll] prints for a telegram, reddit, github, skype or forum contact
    names the channel of its type, whatever the value. *)
Theorem format_contact_channel c :
  c_Type c ∈ ["telegram"; "reddit"; "github"; "skype"; "forum_user"] →
  channelFromContactLine (format_contact c) = channel_of_type (c_Type c).
Proof.
  destruct c as [t v]. cbn [c_Type].
  assert (∀ p s ch, word_prefix p = true →
    ascii_no_upper p = true →
    (∀ u w, channelFromContactLine_of (p +:+ u) (p +:+ w) = ch) →
    channelFromContactLine (p +:+ s) = ch) as Hline.
  { intros p s ch Hp Hl Hch. unfold channelFromContactLine.
    destruct (TrimSpace_word_prefix p s Hp) as [u ->]. rewrite ToLower_ascii_app by done.
    apply Hch. }
  assert (∀ v, HasPrefix v "telegram:" = true → ∃ s, v = "telegram:" +:+ s) as Htg
    by (intros; by apply HasPrefix_elim).
  intros Ht. repeat (apply elem_of_cons in Ht as [->|Ht]); [..|by apply not_elem_of_nil in Ht];
    unfold format_contact; cbn [c_Type c_Value String.eqb Ascii.eqb Bool.eqb andb negb].
  - destruct (HasPrefix v "telegram:") eqn:E; cbn [negb andb].
    + destruct (Htg v E) as [s ->]. by apply Hline.
    + by apply Hline.
  - by apply (Hline "reddit:").
  - by apply (Hline "github:").
  - by apply (Hline "skype:").
  - by apply (Hline "forum:user/").
Qed.

Lemma format_contact_channel_witness :
  channelFromContactLine (format_contact (MkContact "forum_user" " Joe ")) = "forum".
Proof.
  rewrite (format_contact_channel (MkContact "forum_user" " Joe ")); [reflexivity|].
  set_solver.
Defined.
