(* ===== verification/Geo.v ===== *)
(** The geographic gate ([internal/geo/filter.go], [h1_block.go]): RU/BY mail
    domains, phones, TLDs, infrastructure and locations, and the grey-market
    bookmakers, with the Ukrainian exemption. *)
From S2P Require Import Prelude Unicode GoStrings Utf8Facts TextFacts Regex RegexFacts.
From S2P Require Import Validate.

Local Open Scope Z_scope.

Record Result := { OK : bool; Reason : string }.

Definition accept : Result := {| OK := true; Reason := estr |}.
Definition reject (reason : string) : Result := {| OK := false; Reason := reason |}.

(** ** Core filter ([filter.go]) *)

Definition ruDomainRe : re := MustCompile "(?i)@[^@\s]+\.(ru|рф)([\s.,;]|$)".
Definition byDomainRe : re := MustCompile "(?i)@[^@\s]+\.(by|бел)([\s.,;]|$)".
Definition ruMailDomainRe : re := MustCompile
  "(?i)@(?:[^@\s]+\.)*(?:mail\.ru|yandex\.ru|ya\.ru|bk\.ru|list\.ru|inbox\.ru|rambler\.ru|internet\.ru)([\s.,;]|$)".
Definition ruPhoneRe : re := MustCompile "\+7[\d\s\-()]{8,}".
Definition byPhoneRe : re := MustCompile "\+375[\d\s\-()]{6,}".
Definition blockedTLDRe : re := MustCompile "(?i)\.(ru|by|su|рф|бел)\b".
Definition ruInfraAlwaysRe : re := MustCompile
  "(?i)(reg\.ru|beget\.|timeweb\.|сбер(?:банк)?|тинькофф|т-банк|сбп|юmoney|qiwi|юмани|карта мир|оплата руб|рубл)".
Definition ruLocationRe : re := MustCompile
  "(?i)(europe/moscow|\bmoscow\b|\bмосква\b|\bпитер\b|\bспб\b|санкт-петербург|\bminsk\b|\bминск\b|\brussia\b|\bроссия\b|\bbelarus\b|\bбеларусь\b)".
Definition uaAffinityRe : re := MustCompile
  "(?i)(киев|київ|днепр|дніпро|одесса|одеса|львов|львів|подол|\+380|монобанк|monobank|privat24|приват|remote ua|mac kyiv|sempro)".
Definition shouldCheckLocationMarkers (text body : string) : bool :=
  if Contains body "@" then true
  else if MatchString ruPhoneRe body || MatchString byPhoneRe body then true
  else
    let trimmed := TrimSpace text in
    if String.eqb trimmed estr then Nat.ltb 1 (length (Fields body))
    else Contains trimmed " ".

Definition Filter (text : string) (contacts : list string) : Result :=
  let body := Join (text :: contacts) " " in
  let lower := ToLower body in
  if MatchString ruMailDomainRe lower then reject "ru mail domain"
  else if MatchString ruDomainRe lower then reject "ru domain"
  else if MatchString byDomainRe lower then reject "by domain"
  else if MatchString ruPhoneRe body then reject "ru phone"
  else if MatchString byPhoneRe body then reject "by phone"
  else if MatchString blockedTLDRe body then reject "ru/by tld"
  else if MatchString ruInfraAlwaysRe body then reject "ru/by infrastructure"
  else if shouldCheckLocationMarkers text body && MatchString ruLocationRe body
  then reject "ru/by location"
  else accept.

Definition IsBlockedCountry (code : string) (blocked : list string) : bool :=
  let code := ToUpper (TrimSpace code) in
  existsb (λ b, String.eqb (ToUpper (TrimSpace b)) code) blocked.

Definition blockedTLDS : list string :=
  [ "ru"; "рф"; "by"; "бел"; "su" ].
Definition IsBlockedTLD (host : string) : bool :=
  let host := ToLower (TrimSpace host) in
  if String.eqb host estr then false
  else
    let parts := Split (TrimPrefix host "www.") "." in
    if Nat.ltb (length parts) 2 then false
    else mem (default estr (last parts)) blockedTLDS.

Definition russian_letter (r : N) : bool :=
  between 1072 1103 r || between 1040 1071 r || N.eqb r 1105 || N.eqb r 1025.

Fixpoint cyrillic_run (l : list N) (run min : Z) : bool :=
  match l with
  | [] => false
  | r :: l' =>
      if russian_letter r then
        if min <=? run + 1 then true else cyrillic_run l' (run + 1) min
      else cyrillic_run l' 0 min
  end.

Definition HasCyrillicRun (text : string) (min : Z) : bool := cyrillic_run (runes text) 0 min.

(** ** The H1 gate ([h1_block.go]) *)

Definition RejectCISGreyMarket : string := "cis_grey_market".
Definition RejectGeoBlockRUBY : string := "geo_block_ru_by".

Definition cisBookmakerRe : re := MustCompile
  "(?i)(?:\b1win\b|\b1xbet\b|\b1хбет\b|\bmelbet\b|\bmostbet\b|\bмостбет\b|pin-?up(?:\.ru)?|\bvavada\b|\bвавада\b)".
Definition cpaRipRe : re := MustCompile "(?i)cpa\.rip".
Definition ruSetupContextRe : re := MustCompile
  "(?i)(?:\b(?:ru|rf|рф|рб)\b|россия|russia|рубл|сбер|тинькофф|\.ru\b|\+7)".
Definition ruCountryMarkerRe : re := MustCompile "(?i)(?:\bрф\b|\bрб\b|\bRF\b|\bRU\b)".
Definition ruRubCardRe : re := MustCompile "(?i)(?:рублевые?\s+карт|карт[аы]\s+мир|оплата\s+руб)".
Definition ruDropRe : re := MustCompile "(?i)(?:дропы?\s+(?:рф|росси)|рф\s+дроп)".
Definition ruFlagEmojiRe : re := MustCompile "\xF0\x9F\x87\xB7\xF0\x9F\x87\xBA|🇷🇺".
Definition ruHandleRe : re := MustCompile "(?i)(?:^|@)[a-z0-9_][a-z0-9_.]*\.ru\b".
Definition wwBuyerVoiceRe : re := MustCompile
  "(?i)(?:voluum|redtrack|binom|keitaro|self-?hosted|postback|usdt|trc20|erc20|clickid|click\s+loss|alternative|migrat|502|nginx|mysql|clickhouse|tracker)".
Definition nl : string := String (byte_of 10) estr.

Definition buildH1Body (text username channelAbout : string) (contacts : list string) : string :=
  Join ([text; username; channelAbout] ++ contacts) nl.

Definition mergeH1Text (text username channelAbout : string) : string :=
  TrimSpace (Join [text; username; channelAbout] nl).

Definition filterGeoCore (text : string) (contacts : list string) : Result :=
  Filter text contacts.

Definition hasUAAffinity (body : string) : bool := MatchString uaAffinityRe body.

Definition isUALocationOnlyReject (reason : string) : bool :=
  String.eqb reason "ru/by location".

Definition hasWWBuyerVoice (lower : string) : bool := MatchString wwBuyerVoiceRe lower.

(** [Some detail] for a drop. *)
Definition rejectCISGreyMarket (body : string) : option string :=
  let lower := ToLower body in
  if MatchString cisBookmakerRe lower then
    if hasWWBuyerVoice lower then None else Some "cis bookmaker"
  else if MatchString cpaRipRe lower && MatchString ruSetupContextRe lower then
    if hasWWBuyerVoice lower then None else Some "cpa.rip ru setup"
  else None.

(** The empty string for no detail. *)
Definition rejectH1GeoMarkers (body : string) : string :=
  let lower := ToLower body in
  if MatchString ruRubCardRe lower then "rub card"
  else if MatchString ruDropRe lower then "ru drop"
  else if MatchString ruCountryMarkerRe body && negb (hasWWBuyerVoice lower)
  then "ru/by country marker"
  else estr.

Definition rejectH1Metadata (username channelAbout body : string) : string :=
  let meta := TrimSpace (username +:+ nl +:+ channelAbout) in
  let meta := if String.eqb meta estr then body else meta in
  if MatchString ruFlagEmojiRe meta then "ru flag in profile"
  else if MatchString ruHandleRe meta then "ru handle"
  else estr.

Definition FilterH1 (text username channelAbout : string) (contacts : list string) : Result :=
  let body := buildH1Body text username channelAbout contacts in
  if String.eqb body estr then accept
  else match rejectCISGreyMarket body with
       | Some detail => reject (RejectCISGreyMarket +:+ ": " +:+ detail)
       | None =>
           let res := filterGeoCore (mergeH1Text text username channelAbout) contacts in
           if negb (OK res) && negb (hasUAAffinity body && isUALocationOnlyReject (Reason res))
           then reject (RejectGeoBlockRUBY +:+ ": " +:+ Reason res)
           else
             let detail := rejectH1Metadata username channelAbout body in
             if negb (String.eqb detail estr)
             then reject (RejectGeoBlockRUBY +:+ ": " +:+ detail)
             else
               let detail := rejectH1GeoMarkers body in
               if negb (String.eqb detail estr)
               then reject (RejectGeoBlockRUBY +:+ ": " +:+ detail)
               else accept
       end.
