(* ===== verification/Item.v ===== *)
(** The raw item a source emits and the lead the pipeline stores
    ([internal/model/item.go], [payload.go]). *)
From S2P Require Import Prelude Unicode GoStrings TextFacts Scoring.
From stdpp Require Import strings.
From Stdlib Require Import SpecFloat.

Local Open Scope Z_scope.

Record RawItem := {
  it_Source : string; it_Raw : string; it_Contact : string; it_Title : string;
  it_Username : string; it_ForumUserID : string;
  it_MessageID : Z; it_SenderUserID : Z; it_ReplyToMessageID : Z;
  it_ReplyContext : string; it_ChatType : string; it_ChannelRole : string;
  it_ChannelAbout : string; it_SenderBio : string; it_LeadType : string;
  it_CompanyHint : string; it_SourceChat : string; it_DiscoveredVia : string;
  it_ColdOutreachFit : string; it_CrawlHTML : string; it_PostedAt : Time }.

(** The zero [RawItem], from which the witnesses build theirs. *)
Definition zero_item : RawItem := {|
  it_Source := estr; it_Raw := estr; it_Contact := estr; it_Title := estr;
  it_Username := estr; it_ForumUserID := estr;
  it_MessageID := 0; it_SenderUserID := 0; it_ReplyToMessageID := 0;
  it_ReplyContext := estr; it_ChatType := estr; it_ChannelRole := estr;
  it_ChannelAbout := estr; it_SenderBio := estr; it_LeadType := estr;
  it_CompanyHint := estr; it_SourceChat := estr; it_DiscoveredVia := estr;
  it_ColdOutreachFit := estr; it_CrawlHTML := estr; it_PostedAt := zero_time |}.

(** [Raw], [Contact] and [Source] set, the rest of [r] kept. *)
Definition item_with (source raw contact : string) (r : RawItem) : RawItem := {|
  it_Source := source; it_Raw := raw; it_Contact := contact; it_Title := it_Title r;
  it_Username := it_Username r; it_ForumUserID := it_ForumUserID r;
  it_MessageID := it_MessageID r; it_SenderUserID := it_SenderUserID r;
  it_ReplyToMessageID := it_ReplyToMessageID r;
  it_ReplyContext := it_ReplyContext r; it_ChatType := it_ChatType r;
  it_ChannelRole := it_ChannelRole r;
  it_ChannelAbout := it_ChannelAbout r; it_SenderBio := it_SenderBio r;
  it_LeadType := it_LeadType r;
  it_CompanyHint := it_CompanyHint r; it_SourceChat := it_SourceChat r;
  it_DiscoveredVia := it_DiscoveredVia r;
  it_ColdOutreachFit := it_ColdOutreachFit r; it_CrawlHTML := it_CrawlHTML r;
  it_PostedAt := it_PostedAt r |}.

Definition MaxCrawlHTMLBytes : Z := Z.shiftl 256 10.

Definition LimitCrawlHTML (html : string) : string :=
  if Z.of_nat (slen html) <=? MaxCrawlHTMLBytes then html
  else stake (Z.to_nat MaxCrawlHTMLBytes) html.

(** [task.Item.CrawlHTML = model.LimitCrawlHTML(task.Item.CrawlHTML)]. *)
Definition limit_item (r : RawItem) : RawItem := {|
  it_Source := it_Source r; it_Raw := it_Raw r; it_Contact := it_Contact r;
  it_Title := it_Title r;
  it_Username := it_Username r; it_ForumUserID := it_ForumUserID r;
  it_MessageID := it_MessageID r; it_SenderUserID := it_SenderUserID r;
  it_ReplyToMessageID := it_ReplyToMessageID r;
  it_ReplyContext := it_ReplyContext r; it_ChatType := it_ChatType r;
  it_ChannelRole := it_ChannelRole r;
  it_ChannelAbout := it_ChannelAbout r; it_SenderBio := it_SenderBio r;
  it_LeadType := it_LeadType r;
  it_CompanyHint := it_CompanyHint r; it_SourceChat := it_SourceChat r;
  it_DiscoveredVia := it_DiscoveredVia r;
  it_ColdOutreachFit := it_ColdOutreachFit r;
  it_CrawlHTML := LimitCrawlHTML (it_CrawlHTML r);
  it_PostedAt := it_PostedAt r |}.

(** [RawItem.Text]. *)
Definition Text `{JsonLib} (r : RawItem) : string :=
  let text := if String.eqb (it_Raw r) estr then it_Title r else it_Raw r in
  if negb (String.eqb (it_CrawlHTML r) estr)
     && negb (HasPrefix (ToLower (TrimSpace (it_Source r))) "lander:")
  then
    let hint := FormatStackHint (CollectStack (it_CrawlHTML r)).1 in
    if String.eqb hint estr then text else text +:+ " " +:+ hint
  else text.

Definition nonTelegramContactHint (lower : string) : bool :=
  has_any_prefix lower
    [ "domain:"; "serp:"; "jobboard:"; "github:"; "reddit:"; "discord:"; "forum:"; "warrior:";
      "review:"; "email:"; "skype:" ].

Definition normalizeTelegramContact (v : string) : string :=
  let v := TrimSpace v in
  if String.eqb v estr then estr
  else if HasPrefix (ToLower v) "telegram:" then v
  else if HasPrefix v "@" then "telegram:" +:+ v
  else "telegram:@" +:+ v.

Definition ContactTelegram (r : RawItem) : string :=
  if negb (String.eqb (it_Contact r) estr) then
    let contact := TrimSpace (it_Contact r) in
    let lower := ToLower contact in
    if HasPrefix lower "telegram:user_id:" then contact
    else if nonTelegramContactHint lower then estr
    else if Contains contact "@" && negb (HasPrefix contact "@")
            && negb (HasPrefix lower "telegram:") then estr
    else normalizeTelegramContact contact
  else if negb (String.eqb (it_Username r) estr)
  then normalizeTelegramContact (it_Username r)
  else estr.

Definition MaskedContact (r : RawItem) : string :=
  let contact := ContactTelegram r in
  let contact := if String.eqb contact estr then it_Contact r else contact in
  if String.eqb contact estr then estr
  else if Z.of_nat (slen contact) <=? 3 then "***"
  else stake 1 contact +:+ "***".

(** ** The lead

    The fields of [model.Lead] the pipeline sets, grouped by the step that sets
    them: the base is written once, by the literal of [Process]; the other
    groups are updated by the steps that follow. *)

Record LeadBase := {
  ld_TS : Time; ld_RoundID : string; ld_HashID : string; ld_Source : string;
  ld_Title : string; ld_Contacts : list string; ld_Matched : list string;
  ld_Snippet : string; ld_ICP : string; ld_SpendTier : string; ld_ICPWhy : string;
  ld_GeoCountry : string; ld_CompanyCountry : string; ld_CompanyName : string;
  ld_GeoSignals : list string; ld_GeoWhy : string; ld_WhoisCountry : string;
  ld_DomainAgeDays : Z; ld_DisplayName : string; ld_GravatarName : string;
  ld_EmailVerified : bool; ld_PostedAt : Time; ld_Stack : list string;
  ld_DisplacementTier : DisplacementTier; ld_Lang : string }.

Record PilotFields := {
  pl_PilotQualified : bool; pl_PilotWhy : string; pl_OutreachChannel : string;
  pl_OutreachSubject : string; pl_OutreachAngle : string; pl_OutreachDraft : string }.

Record SynthFields := {
  sy_CompanyType : string; sy_EnrichSummary : string; sy_GeoConfidence : string }.

Record EntityFields := {
  en_EntityID : string; en_SightingCount : Z; en_SourceCount : Z;
  en_EntityHeat : spec_float; en_HeatTier : string }.

Record QueueFields := {
  qu_ContactChannel : string; qu_NextAction : string; qu_ContactQuality : string;
  qu_EngagePriority : Z }.

Record Lead := {
  ld_Base : LeadBase; ld_Priority : Priority; ld_Score : Z; ld_Hot : bool;
  ld_Tags : list string; ld_Status : string; ld_AnalysisStatus : string;
  ld_Pilot : PilotFields; ld_Synth : SynthFields; ld_Entity : EntityFields;
  ld_Queue : QueueFields }.

Definition no_pilot : PilotFields := {|
  pl_PilotQualified := false; pl_PilotWhy := estr; pl_OutreachChannel := estr;
  pl_OutreachSubject := estr; pl_OutreachAngle := estr; pl_OutreachDraft := estr |}.
Definition no_synth : SynthFields := {|
  sy_CompanyType := estr; sy_EnrichSummary := estr; sy_GeoConfidence := estr |}.
Definition no_entity : EntityFields := {|
  en_EntityID := estr; en_SightingCount := 0; en_SourceCount := 0;
  en_EntityHeat := S754_zero false; en_HeatTier := estr |}.
Definition no_queue : QueueFields := {|
  qu_ContactChannel := estr; qu_NextAction := estr; qu_ContactQuality := estr;
  qu_EngagePriority := 0 |}.

Definition set_tags (l : Lead) (tags : list string) : Lead := {|
  ld_Base := ld_Base l; ld_Priority := ld_Priority l; ld_Score := ld_Score l;
  ld_Hot := ld_Hot l; ld_Tags := tags; ld_Status := ld_Status l;
  ld_AnalysisStatus := ld_AnalysisStatus l; ld_Pilot := ld_Pilot l;
  ld_Synth := ld_Synth l; ld_Entity := ld_Entity l; ld_Queue := ld_Queue l |}.

Definition set_status (l : Lead) (status analysis : string) : Lead := {|
  ld_Base := ld_Base l; ld_Priority := ld_Priority l; ld_Score := ld_Score l;
  ld_Hot := ld_Hot l; ld_Tags := ld_Tags l; ld_Status := status;
  ld_AnalysisStatus := analysis; ld_Pilot := ld_Pilot l;
  ld_Synth := ld_Synth l; ld_Entity := ld_Entity l; ld_Queue := ld_Queue l |}.

Definition set_pilot (l : Lead) (pilot : PilotFields) : Lead := {|
  ld_Base := ld_Base l; ld_Priority := ld_Priority l; ld_Score := ld_Score l;
  ld_Hot := ld_Hot l; ld_Tags := ld_Tags l; ld_Status := ld_Status l;
  ld_AnalysisStatus := ld_AnalysisStatus l; ld_Pilot := pilot;
  ld_Synth := ld_Synth l; ld_Entity := ld_Entity l; ld_Queue := ld_Queue l |}.

Definition set_synth (l : Lead) (synth : SynthFields) : Lead := {|
  ld_Base := ld_Base l; ld_Priority := ld_Priority l; ld_Score := ld_Score l;
  ld_Hot := ld_Hot l; ld_Tags := ld_Tags l; ld_Status := ld_Status l;
  ld_AnalysisStatus := ld_AnalysisStatus l; ld_Pilot := ld_Pilot l;
  ld_Synth := synth; ld_Entity := ld_Entity l; ld_Queue := ld_Queue l |}.

Definition set_entity (l : Lead) (entity : EntityFields) : Lead := {|
  ld_Base := ld_Base l; ld_Priority := ld_Priority l; ld_Score := ld_Score l;
  ld_Hot := ld_Hot l; ld_Tags := ld_Tags l; ld_Status := ld_Status l;
  ld_AnalysisStatus := ld_AnalysisStatus l; ld_Pilot := ld_Pilot l;
  ld_Synth := ld_Synth l; ld_Entity := entity; ld_Queue := ld_Queue l |}.

Definition set_queue (l : Lead) (queue : QueueFields) : Lead := {|
  ld_Base := ld_Base l; ld_Priority := ld_Priority l; ld_Score := ld_Score l;
  ld_Hot := ld_Hot l; ld_Tags := ld_Tags l; ld_Status := ld_Status l;
  ld_AnalysisStatus := ld_AnalysisStatus l; ld_Pilot := ld_Pilot l;
  ld_Synth := ld_Synth l; ld_Entity := ld_Entity l; ld_Queue := queue |}.

Definition set_heat (l : Lead) (priority : Priority) (score : Z) (tags : list string) : Lead := {|
  ld_Base := ld_Base l; ld_Priority := priority; ld_Score := score;
  ld_Hot := true; ld_Tags := tags; ld_Status := ld_Status l;
  ld_AnalysisStatus := ld_AnalysisStatus l; ld_Pilot := ld_Pilot l;
  ld_Synth := ld_Synth l; ld_Entity := ld_Entity l; ld_Queue := ld_Queue l |}.
