(* ===== verification/Hashes.v ===== *)
(** Lead hashes ([internal/sink/leadid.go], [contacts.go],
    [internal/pipeline/hard_reject_shadow.go]), over SHA-256 and FNV-1a as the Go
    library computes them. The lead hash depends on the stored contacts only, not on their order
    nor on the sort used, is empty exactly when no contact is stored, and is 32 hex digits long
    otherwise. *)
From S2P Require Import Prelude Unicode GoStrings GoSort Matcher TextFacts Extract.

Local Open Scope Z_scope.

(** ** SHA-256 ([crypto/sha256])

    Words are integers in [0, 2^32). *)

Module Sha256.

Definition w32 (z : Z) : Z := z `mod` 2 ^ 32.
Definition rotr (x n : Z) : Z :=
  Z.lor (Z.shiftr x n) (w32 (Z.shiftl x (32 - n))).

Definition big_sigma0 (x : Z) : Z := Z.lxor (rotr x 2) (Z.lxor (rotr x 13) (rotr x 22)).
Definition big_sigma1 (x : Z) : Z := Z.lxor (rotr x 6) (Z.lxor (rotr x 11) (rotr x 25)).
Definition small_sigma0 (x : Z) : Z := Z.lxor (rotr x 7) (Z.lxor (rotr x 18) (Z.shiftr x 3)).
Definition small_sigma1 (x : Z) : Z := Z.lxor (rotr x 17) (Z.lxor (rotr x 19) (Z.shiftr x 10)).
Definition choose (x y z : Z) : Z := Z.lxor (Z.land x y) (Z.land (Z.lxor x (2 ^ 32 - 1)) z).
Definition majority (x y z : Z) : Z :=
  Z.lxor (Z.land x y) (Z.lxor (Z.land x z) (Z.land y z)).

(** The constants: the first 32 bits of the fractional parts of the cube roots of
    the first 64 primes, and of the square roots of the first eight. *)
Definition is_prime (n : Z) : bool :=
  forallb (λ d, negb (n `mod` Z.of_nat d =? 0)) (seq 2 (Z.to_nat n - 2)).

Definition primes : list Z := List.filter is_prime (Z.of_nat <$> seq 2 310).

(** The largest [r] with [r ^ k <= n], bit by bit from [2 ^ (bits - 1)]. *)
Fixpoint root (k : Z) (bits : nat) (r n : Z) : Z :=
  match bits with
  | O => r
  | S b =>
      let r' := r + 2 ^ Z.of_nat b in
      root k b (if r' ^ k <=? n then r' else r) n
  end.

Definition root_fraction (k p : Z) : Z := w32 (root k 40 0 (p * 2 ^ (32 * k))).

Definition K : list Z := Eval vm_compute in root_fraction 3 <$> primes.
Definition H0 : list Z := Eval vm_compute in root_fraction 2 <$> take 8 primes.

Example sixty_four_constants : (length K, length H0) = (64%nat, 8%nat).
Proof. reflexivity. Qed.

(** The message schedule, the last sixteen words kept newest first. *)
Fixpoint schedule (n : nat) (last16 : list Z) (acc : list Z) : list Z :=
  match n with
  | O => reverse acc
  | S n' =>
      let w := w32 (small_sigma1 (nth 1 last16 0) + nth 6 last16 0
                    + small_sigma0 (nth 14 last16 0) + nth 15 last16 0) in
      schedule n' (w :: take 15 last16) (w :: acc)
  end.

Definition round (st : list Z) (kw : Z * Z) : list Z :=
  match st with
  | [a; b; c; d; e; f; g; h] =>
      let t1 := w32 (h + big_sigma1 e + choose e f g + kw.1 + kw.2) in
      let t2 := w32 (big_sigma0 a + majority a b c) in
      [w32 (t1 + t2); a; b; c; w32 (d + t1); e; f; g]
  | _ => st
  end.

Definition block (st : list Z) (words : list Z) : list Z :=
  let ws := words ++ schedule 48 (reverse words) [] in
  zip_with (λ x y, w32 (x + y)) st (foldl round st (zip K ws)).

(** Bytes to big-endian words and back. *)
Fixpoint words_of (bs : list Z) : list Z :=
  match bs with
  | a :: b :: c :: d :: rest => (((a * 256 + b) * 256 + c) * 256 + d) :: words_of rest
  | _ => []
  end.

Definition bytes_be (n : nat) (z : Z) : list Z :=
  reverse ((λ i, Z.shiftr z (8 * Z.of_nat i) `mod` 256) <$> seq 0 n).

Definition pad (bs : list Z) : list Z :=
  let len := Z.of_nat (length bs) in
  bs ++ 128 :: replicate (Z.to_nat ((55 - len) `mod` 64)) 0 ++ bytes_be 8 (len * 8).

Fixpoint blocks (fuel : nat) (st : list Z) (ws : list Z) : list Z :=
  match fuel with
  | O => st
  | S fuel' => if Nat.ltb (length ws) 16 then st
               else blocks fuel' (block st (take 16 ws)) (drop 16 ws)
  end.

Definition bytes_of (s : string) : list Z :=
  (λ a, Z.of_N (code a)) <$> String.list_ascii_of_string s.

(** [sha256.Sum256]: 32 bytes. *)
Definition Sum256 (s : string) : list Z :=
  let ws := words_of (pad (bytes_of s)) in
  mjoin (bytes_be 4 <$> blocks (length ws) H0 ws).

End Sha256.

Definition hex_digit (d : Z) : ascii :=
  byte_of (Z.to_N (if d <? 10 then 48 + d else 87 + d)).

(** [hex.EncodeToString]. *)
Definition hex_encode (bs : list Z) : string :=
  foldr (λ b s, String (hex_digit (b / 16)) (String (hex_digit (b `mod` 16)) s)) estr bs.

Example sha256_abc : hex_encode (Sha256.Sum256 "abc")
  = "ba7816bf8f01cfea414140de5dae2223b00361a396177a9cb410ff61f20015ad".
Proof. vm_compute. reflexivity. Qed.

Example sha256_two_blocks :
  hex_encode (Sha256.Sum256 "abcdbcdecdefdefgefghfghighijhijkijkljklmklmnlmnomnopnopq")
  = "248d6a61d20638b8e5c026930c3e6039a33ce45964ff2167f6ecedd419db06c1".
Proof. vm_compute. reflexivity. Qed.

(** [hex.EncodeToString(sum[:16])]. *)
Definition short_sum (s : string) : string := hex_encode (take 16 (Sha256.Sum256 s)).

(** ** FNV-1a ([hash/fnv], 32 bits) *)

Definition fnv32a (s : string) : Z :=
  foldl (λ h b, (Z.lxor h b * 16777619) `mod` 2 ^ 32) 2166136261 (Sha256.bytes_of s).

Example fnv32a_foobar : fnv32a "foobar" = 0xbf9cf968.
Proof. vm_compute. reflexivity. Qed.

Definition ShouldSampleHardRejectShadow (text : string) (pct : Z) : bool :=
  if pct <=? 0 then false
  else if 100 <=? pct then true
  else fnv32a text `mod` 100 <? pct.

(** ** Stored contacts ([contacts.go]) *)

Record StoredContact := { st_Type : string; st_Value : string }.

(** One contact; [None] for a contact that is not stored. *)
Definition stored (c : Contact) : option StoredContact :=
  let value := TrimSpace (c_Value c) in
  let some_value (typ v : string) :=
    if String.eqb v estr then None else Some {| st_Type := typ; st_Value := v |} in
  if String.eqb value estr then None
  else if String.eqb (c_Type c) "email" then
    Some {| st_Type := "email"; st_Value := ToLower value |}
  else if String.eqb (c_Type c) "telegram" then
    let value := TrimPrefix (TrimPrefix value "telegram:") "@" in
    if String.eqb value estr then None
    else Some {| st_Type := "telegram"; st_Value := "@" +:+ ToLower value |}
  else if String.eqb (c_Type c) "reddit" then
    let value := TrimPrefix (TrimPrefix (TrimPrefix value "reddit:") "u/") "/u/" in
    if String.eqb value estr then None
    else Some {| st_Type := "reddit"; st_Value := ToLower value |}
  else if String.eqb (c_Type c) "discord" then
    let value := TrimPrefix (TrimPrefix value "discord:") "@" in
    if String.eqb value estr then None
    else Some {| st_Type := "discord"; st_Value := ToLower value |}
  else if String.eqb (c_Type c) "domain" then
    some_value "domain" (TrimPrefix (ToLower value) "domain:")
  else if String.eqb (c_Type c) "github" then
    some_value "github" (TrimPrefix (ToLower value) "github:")
  else if String.eqb (c_Type c) "review" then
    let value := TrimPrefix value "review:" in
    if String.eqb value estr then None
    else Some {| st_Type := "review"; st_Value := ToLower value |}
  else if String.eqb (c_Type c) "skype" then
    some_value "skype" (TrimPrefix (ToLower value) "skype:")
  else None.

Definition ToStoredContacts (contacts : list Contact) : list StoredContact :=
  omap stored contacts.

Definition parse_formatted (raw : string) : option Contact :=
  let raw := TrimSpace raw in
  let lower := ToLower raw in
  if String.eqb raw estr then None
  else if HasPrefix lower "telegram:" then Some (MkContact "telegram" (TrimPrefix raw "telegram:"))
  else if HasPrefix lower "reddit:" then Some (MkContact "reddit" (TrimPrefix raw "reddit:"))
  else if HasPrefix lower "discord:" then Some (MkContact "discord" (TrimPrefix raw "discord:"))
  else if HasPrefix lower "domain:" then Some (MkContact "domain" (TrimPrefix raw "domain:"))
  else if HasPrefix lower "github:" then Some (MkContact "github" (TrimPrefix raw "github:"))
  else if HasPrefix lower "review:" then Some (MkContact "review" (TrimPrefix raw "review:"))
  else if HasPrefix lower "skype:" then Some (MkContact "skype" (TrimPrefix lower "skype:"))
  else if Contains raw "@" && negb (HasPrefix raw "@")
  then Some (MkContact "email" lower)
  else if HasPrefix raw "@" then Some (MkContact "telegram" raw)
  else None.

Definition ParseFormattedContacts (formatted : list string) : list Contact :=
  omap parse_formatted formatted.

(** ** Hash ids ([leadid.go]) *)

Section hash.
Context `{Sorter}.

Definition stored_part (c : StoredContact) : string :=
  st_Type c +:+ ":" +:+ ToLower (TrimSpace (st_Value c)).

Definition LeadHashID (contacts : list StoredContact) : string :=
  match stored_part <$> contacts with
  | [] => estr
  | parts => short_sum (Join (sort_slice str_ltb parts) "|")
  end.

Definition LeadHashIDFromExtract (contacts : list Contact) : string :=
  LeadHashID (ToStoredContacts contacts).

Definition LeadHashIDWithScope (scope : string) (contacts : list Contact) : string :=
  let base := LeadHashIDFromExtract contacts in
  if String.eqb base estr then estr
  else
    let scope := ToLower (TrimSpace scope) in
    if String.eqb scope estr then base
    else short_sum ("scope:" +:+ scope +:+ "|" +:+ base).
End hash.

Definition TelegramMessageHashID (source : string) (messageID : Z) : string :=
  let source := ToLower (TrimSpace source) in
  if (messageID <=? 0) || negb (HasPrefix source "telegram:") then estr
  else short_sum ("tgmsg:" +:+ source +:+ ":" +:+ Itoa messageID).

From stdpp Require Import sorting.

(** ** Sorting strings has one result *)

Lemma str_ltb_antisymm x y : str_ltb y x = false → str_ltb x y = false → x = y.
Proof.
  revert y. induction x as [|a x IH]; intros [|b y] H1 H2; cbn in *; try done.
  apply orb_false_iff in H1 as [H1a H1b], H2 as [H2a H2b].
  apply N.ltb_ge in H1a, H2a. assert (code a = code b) as Hc by lia.
  rewrite Hc, N.eqb_refl in *. cbn in H1b, H2b. f_equal; [by apply code_inj|by apply IH].
Qed.

Lemma str_weak_order : weak_order str_ltb.
Proof. constructor; [apply str_ltb_asym|apply str_ltb_trans]. Qed.

Lemma sort_unique {A} (less : A → A → bool) (S1 S2 : Sorter) (l1 l2 : list A) :
  weak_order less → (∀ x y, less y x = false → less x y = false → x = y) →
  l1 ≡ₚ l2 → @sort_slice S1 _ less l1 = @sort_slice S2 _ less l2.
Proof.
  intros W Ha Hp. apply (StronglySorted_unique_strong (λ x y, less y x = false)).
  - intros x y _ _. apply Ha.
  - by apply sort_slice_sorted.
  - by apply sort_slice_sorted.
  - by rewrite !sort_slice_perm.
Qed.

Lemma sort_strings_unique (S1 S2 : Sorter) (l1 l2 : list string) :
  l1 ≡ₚ l2 → @sort_slice S1 _ str_ltb l1 = @sort_slice S2 _ str_ltb l2.
Proof.
  apply sort_unique; [apply str_weak_order|apply str_ltb_antisymm].
Qed.

(** ** The length of a sum *)

Lemma round_length st kw : length st = 8%nat → length (Sha256.round st kw) = 8%nat.
Proof. unfold Sha256.round. intros H. do 8 (destruct st as [|? st]; [done|]). by destruct st. Qed.

Lemma block_length st ws : length st = 8%nat → length (Sha256.block st ws) = 8%nat.
Proof.
  intros Hst. unfold Sha256.block. rewrite length_zip_with.
  assert (∀ l st', length st' = 8%nat → length (foldl Sha256.round st' l) = 8%nat) as Hf.
  { intros l. induction l as [|x l IH]; intros st' H; [done|]. by apply IH, round_length. }
  rewrite Hf by done. lia.
Qed.

Lemma blocks_length fuel st ws : length st = 8%nat → length (Sha256.blocks fuel st ws) = 8%nat.
Proof.
  revert st ws. induction fuel as [|fuel IH]; intros st ws H; [done|]. cbn [Sha256.blocks].
  destruct (Nat.ltb _ _); [done|]. by apply IH, block_length.
Qed.

Lemma Sum256_length s : length (Sha256.Sum256 s) = 32%nat.
Proof.
  unfold Sha256.Sum256. cbv zeta.
  pose proof (blocks_length (length (Sha256.words_of (Sha256.pad (Sha256.bytes_of s)))) Sha256.H0
    (Sha256.words_of (Sha256.pad (Sha256.bytes_of s))) eq_refl) as H.
  revert H. generalize (Sha256.blocks (length (Sha256.words_of (Sha256.pad (Sha256.bytes_of s))))
    Sha256.H0 (Sha256.words_of (Sha256.pad (Sha256.bytes_of s)))) as l. intros l H.
  do 8 (destruct l as [|? l]; [done|]). by destruct l.
Qed.

Lemma hex_encode_length bs : String.length (hex_encode bs) = (2 * length bs)%nat.
Proof. induction bs as [|b bs IH]; [done|]. cbn. unfold hex_encode in IH. lia. Qed.

Lemma short_sum_length s : String.length (short_sum s) = 32%nat.
Proof. unfold short_sum. by rewrite hex_encode_length, length_take, Sum256_length. Qed.

Lemma short_sum_nonempty s : short_sum s ≠ estr.
Proof. intros H. pose proof (short_sum_length s) as Hl. by rewrite H in Hl. Qed.

(** ** The hash of a list of contacts *)

Lemma LeadHashID_perm (S1 S2 : Sorter) cs1 cs2 :
  cs1 ≡ₚ cs2 → @LeadHashID S1 cs1 = @LeadHashID S2 cs2.
Proof.
  intros Hp. unfold LeadHashID.
  assert (stored_part <$> cs1 ≡ₚ stored_part <$> cs2) as Hp' by by rewrite Hp.
  destruct (stored_part <$> cs1) as [|x l1] eqn:E1.
  - apply Permutation_nil_l in Hp'. by rewrite <- Hp'.
  - destruct (stored_part <$> cs2) as [|y l2] eqn:E2; [by apply Permutation_nil_r in Hp'|].
    by rewrite (sort_strings_unique S1 S2 _ _ Hp').
Qed.

Lemma LeadHashID_empty `{Sorter} cs : LeadHashID cs = estr ↔ cs = [].
Proof.
  unfold LeadHashID. destruct cs as [|c cs]; [done|]. cbn. split; [|done].
  intros H1. by apply short_sum_nonempty in H1.
Qed.

(** The contact types the store knows; all others are dropped. *)
Definition stored_types : list string :=
  ["email"; "telegram"; "reddit"; "discord"; "domain"; "github"; "review"; "skype"].

Lemma stored_type c s : stored c = Some s → c_Type c ∈ stored_types.
Proof.
  unfold stored, stored_types. cbv zeta. intros H.
  repeat match type of H with
  | context [String.eqb (c_Type c) ?t] =>
      destruct (String.eqb_spec (c_Type c) t) as [->|?]; [set_solver|]
  end.
  by destruct (String.eqb (TrimSpace (c_Value c)) estr).
Qed.

Lemma ToStoredContacts_none cs :
  Forall (λ c, c_Type c ∉ stored_types) cs → ToStoredContacts cs = [].
Proof.
  unfold ToStoredContacts. induction 1 as [|c cs Hc _ IH]; [done|]. cbn.
  destruct (stored c) eqn:E; [by apply stored_type in E|done].
Qed.

Lemma LeadHashIDFromExtract_empty `{Sorter} cs :
  LeadHashIDFromExtract cs = estr ↔ ToStoredContacts cs = [].
Proof. apply LeadHashID_empty. Qed.

Lemma LeadHashIDWithScope_empty `{Sorter} scope cs :
  LeadHashIDWithScope scope cs = estr ↔ ToStoredContacts cs = [].
Proof.
  unfold LeadHashIDWithScope. cbv zeta. rewrite <- LeadHashIDFromExtract_empty.
  destruct (String.eqb_spec (LeadHashIDFromExtract cs) estr) as [->|Hne]; [done|].
  destruct (String.eqb _ _); [done|]. split; [|done]. intros H1. by apply short_sum_nonempty in H1.
Qed.

(** ** Properties *)

(** The hash of a lead identifies its stored contacts: it does not depend on
    the order in which the contacts were found nor on the sort the runtime uses,
    it is empty exactly when no contact is stored, and is 32 digits otherwise. *)
Theorem LeadHashIDFromExtract_identity (S1 S2 : Sorter) cs1 cs2 :
  ToStoredContacts cs1 ≡ₚ ToStoredContacts cs2 →
  @LeadHashIDFromExtract S1 cs1 = @LeadHashIDFromExtract S2 cs2
  ∧ (@LeadHashIDFromExtract S1 cs1 = estr ↔ ToStoredContacts cs1 = [])
  ∧ (ToStoredContacts cs1 ≠ [] → String.length (@LeadHashIDFromExtract S1 cs1) = 32%nat).
Proof.
  intros Hp. split; [by apply LeadHashID_perm|]. split; [apply LeadHashIDFromExtract_empty|].
  intros Hne. unfold LeadHashIDFromExtract, LeadHashID.
  destruct (stored_part <$> ToStoredContacts cs1) eqn:E; [|apply short_sum_length].
  by destruct (ToStoredContacts cs1).
Qed.

Lemma LeadHashIDFromExtract_identity_witness :
  @LeadHashIDFromExtract insertion_sorter
    [MkContact "email" "Ops@Igaming-Team.com"; MkContact "telegram" "telegram:@bobby"]
  = @LeadHashIDFromExtract insertion_sorter
    [MkContact "telegram" "@Bobby "; MkContact "forum_user" "joe";
     MkContact "email" "ops@igaming-team.com"].
Proof.
  apply (LeadHashIDFromExtract_identity insertion_sorter insertion_sorter).
  vm_compute. apply Permutation_swap.
Defined.
