(* ===== verification/FilterSignals.v ===== *)
(** Text signals of the filters ([internal/filter/]: intent.go, ban_context.go,
    programmatic.go, supply_profile.go, newbie_budget.go, pwa_pain.go,
    hosting_incident.go, h8_payment.go, h2_pool.go, lang.go, instant_drop.go,
    author_profile.go).  A rejection is [Some reason], a pass [None].  The
    functions of [intent.go] carry the names of [validate/intent.go], which they
    repeat; the ones of [Validate] are written with that name. *)
From S2P Require Import Prelude Unicode GoStrings Utf8Facts TextFacts Regex RegexFacts.
From S2P Require Import Validate Scoring.

Local Open Scope Z_scope.

(** [strings.TrimSpace(title + " " + text)]. *)
Definition title_text (title text : string) : string := TrimSpace (title +:+ " " +:+ text).

(** [strings.Contains] of some element, as the loops over hint lists do. *)
Abbreviation has_hint lower hints := (existsb (Contains lower) hints).

(** Number of hints contained. *)
Definition hint_hits (lower : string) (hints : list string) : Z := count_if (Contains lower) hints.

Definition runeLen (s : string) : Z := rune_len s.

(** ** [ban_context.go] *)

Definition banContextPhrases : list string :=
  [ "facebook ban"; "fb ban"; "meta ban"; "ad account banned"; "account disabled";
    "ads account restricted"; "business manager disabled"; "bm disabled"; "account flagged";
    "ad account suspended"; "разбан"; "бан фб"; "бан аккаунта"; "штормит фб";
    "штормит facebook"; "ограничение рекламы"; "ads rejected"; "campaign rejected";
    "ad rejected"; "policy violation"; "restricted ad account"; "appeal rejected";
    "разблокировка аккаунта"; "аккаунт слетел"; "акки слетают"; "pixel not firing";
    "pixel not seeing"; "capi error"; "conversions not arriving"; "conversions not coming";
    "не доходят конверсии"; "конверсии не доходят"; "lead rejected"; "postback timeout";
    "postback not received" ].
Definition infraPainHints : list string :=
  [ "502 bad gateway"; "504 gateway timeout"; "upstream timed out"; "too many open files";
    "connection reset by peer"; "ssl handshake failed"; "keitaro упал"; "keitaro down";
    "keitaro crashed"; "binom завис"; "binom stuck"; "binom hangs"; "clickhouse cpu";
    "mysql lock"; "mysql slow"; "redirect delay"; "redirect latency"; "duplicate clicks";
    "duplicate click"; "click_id lost"; "click id lost"; "clickid lost"; "click_id потерялся";
    "postback timeout"; "capi error 400"; "capi error"; "lead rejected"; "rps limit";
    "million hits"; "traffic spike"; "swap full"; "swap забился"; "oom kill"; "out of memory";
    "hetzner abuse"; "hetzner abusing"; "штормит трафик"; "пик трафика"; "спайк трафика" ].
Definition HasBanContextSignal (text : string) : bool :=
  let lower := ToLower (TrimSpace text) in
  if String.eqb lower estr then false else has_hint lower banContextPhrases.

Definition InfraPainBypassPrescan (text : string) : bool :=
  if HasBanContextSignal text then true
  else has_hint (ToLower (TrimSpace text)) infraPainHints.

(** [hasPainKeyword] of [telegram.go]. *)
Definition painKeywordHints : list string :=
  [ "voluum"; "keitaro"; "binom"; "redtrack"; "postback"; "tracker"; "alternative";
    "afterburn"; "ftd"; "self-hosted"; "cloak"; "safe page" ].
Definition hasPainKeyword (lower : string) : bool :=
  if InfraPainBypassPrescan lower then true else has_hint lower painKeywordHints.

(** ** [intent.go] *)

Definition commercialPainRe : list re := MustCompile <$>
  [ "(?i)\b(?:recommend|suggest|advise)\w*\s+(?:me\s+)?(?:a\s+)?tracker";
    "(?i)\b(?:which|what)\s+tracker\b"; "(?i)\b(?:need|looking for)\s+(?:a\s+)?tracker\b";
    "(?i)\balternative\s+to\s+(?:keitaro|binom|voluum|redtrack|clickflare|bemob|adspect|cloaking\.house|fraudfilter|peerclick|funnelflux|thrivetracker)";
    "(?i)\b(?:keitaro|binom|voluum|redtrack|clickflare|adspect|cloaker|tds)\s+alternative";
    "(?i)\b(?:cloaker|cloaking|proxy|residential proxy|mobile proxy)\s+(?:down|failing|broken|not working)";
    "(?i)\b(?:s2s|postback)\s+(?:dropped|timeout|timed out|fault)";
    "(?i)\btracker\s+(?:fault|bug|broken|crash)";
    "(?i)\bwhat(?:'s| is)\s+better\s+for\s+(?:twa|fb|facebook)";
    "(?i)(?:not|doesn't|does not|won't)\s+track\s+clicks?";
    "(?i)postback\s+(?:fail(?:ed|ing|s)?|broken|not\s+work(?:ing)?|down)";
    "(?i)\bhow\s+to\s+(?:set\s+up|configure|setup)\s+cloak";
    "(?i)\bmigrat(?:e|ing|ion)\s+(?:from|to)\s+(?:keitaro|binom|voluum|redtrack)";
    "(?i)\bswitching\s+from\s+(?:keitaro|binom|voluum|redtrack)"; "(?i)посоветуйте\s+трекер";
    "(?i)какой\s+трекер\s+(?:взять|выбрать|лучше)";
    "(?i)альтернатива\s+(?:keitaro|binom|voluum|redtrack)";
    "(?i)что\s+лучше\s+для\s+(?:twa|fb|фб)"; "(?i)не\s+трекает\s+клик";
    "(?i)отвалился\s+постбек"; "(?i)постб[еэ]к\s+не\s+(?:доходит|работает)";
    "(?i)не\s+трека(?:ет|ются)\s+(?:клик|конверс)"; "(?i)не\s+доходят\s+конверси";
    "(?i)ищу\s+(?:трекер|альтернатив)";
    "(?i)(?:бл[яь][тд]?|пиздец|піздец|за[еї]б|наху[йя]|на\s*хер|йобан|їбан).{0,28}(?:трекер|постбек|постб[еэ]к|keitaro|binom|voluum|redtrack)";
    "(?i)(?:трекер|постбек|постб[еэ]к|keitaro|binom|voluum|redtrack).{0,28}(?:бл[яь][тд]?|пиздец|піздец|за[еї]б|наху[йя]|йобан|їбан)";
    "(?i)как\s+настроить\s+клоак" ].
Definition buyerQuestionRe : list re := MustCompile <$>
  [ "(?i)\b(?:anyone|somebody|who)\s+(?:use|using|recommend|suggest)";
    "(?i)\b(?:can|could)\s+(?:someone|anyone)\s+(?:help|recommend|suggest)";
    "(?i)\b(?:does|do)\s+anyone\s+(?:use|know|recommend)"; "(?i)\bкакой\s+(?:трекер|tracker)";
    "(?i)\bчто\s+(?:лучше|выбрать)" ].
Definition HasCommercialPainIntent (text : string) : bool :=
  let lower := ToLower (TrimSpace text) in
  if String.eqb lower estr then false else match_any commercialPainRe lower.

Definition HasBuyerQuestionPattern (text : string) : bool :=
  let lower := ToLower (TrimSpace text) in
  if String.eqb lower estr then false
  else if (Contains lower "?" && (24 <=? runeLen lower))
          && (HasCommercialPainIntent lower || hasPainKeyword lower) then true
  else match_any buyerQuestionRe lower.

(** ** [programmatic.go] *)

Definition programmaticMarkerRe : list re := MustCompile <$>
  [ "(?i)\bprogrammatic\b"; "(?i)\bopenrtb\b"; "(?i)\bopen\s+rtb\b";
    "(?i)\bheader\s+bidding\b"; "(?i)\bprebid\s+server\b"; "(?i)\bsupply-side\b";
    "(?i)\bsupply\s+path\s+optimization\b"; "(?i)\bprogrammatic\s+guaranteed\b";
    "(?i)\brtb\s+exchange\b"; "(?i)\breal-time\s+bidding\b"; "(?i)\bwhite-label\s+ssp\b";
    "(?i)\bwhite\s+label\s+exchange\b"; "(?i)\bpublishers?\s+monetization\b";
    "(?i)\byield\s+optimization\b"; "(?i)\bad\s+server\s+for\s+publishers\b"; "(?i)\bdooh\b";
    "(?i)\bpdooh\b"; "(?i)\bout\s+of\s+home\b"; "(?i)\bbillboard\b";
    "(?i)\bbrand\s+awareness\b"; "(?i)\bviewability\b"; "(?i)\bbrand\s+lift\b";
    "(?i)\bcpm\s+campaign\b"; "(?i)\bhead\s+of\s+programmatic\b"; "(?i)\bopenrtb\s+bidder\b";
    "(?i)\bdsp\s+bidder\b"; "(?i)\bssp\s+integration\b"; "(?i)\bprogrammatic\s+stack\b" ].
Definition programmaticTokenRe : list re := MustCompile <$>
  [ "(?i)\b(?:dsp|ssp)\b" ].
Definition performanceHints : list string :=
  [ "postback"; "voluum"; "keitaro"; "binom"; "redtrack"; "clickid"; "media buy";
    "media buying"; "fb traffic"; "igaming" ].
Definition hasProgrammaticMarker (text : string) : bool :=
  if match_any programmaticMarkerRe text then true else match_any programmaticTokenRe text.

Definition performanceBuyerBypass (text : string) : bool :=
  if HasCommercialPainIntent text || HasBuyerQuestionPattern text then true
  else if HasStrictPainContext text then true
  else has_hint (ToLower text) performanceHints.

Definition RejectProgrammaticContext (source text title : string) : option string :=
  let combined := title_text title text in
  if String.eqb combined estr then None
  else if negb (hasProgrammaticMarker combined) then None
  else if performanceBuyerBypass combined then None
  else Some "programmatic vertical".

(** ** [supply_profile.go] *)

Definition affiliateNetworkSupplyPhrases : list string :=
  [ "affiliate network"; "in-house media buying"; "in-house buying"; "partnership manager";
    "cpa network"; "direct advertiser"; "we offer traffic"; "our offers"; "manager @";
    "aff manager"; "affiliate manager" ].
Definition RejectAffiliateNetworkSupply (text title : string) : option string :=
  let combined := ToLower (title_text title text) in
  if String.eqb combined estr then None
  else if HasCommercialPainIntent combined || HasBuyerQuestionPattern combined then None
  else
    let hits := hint_hits combined affiliateNetworkSupplyPhrases in
    if 2 <=? hits then Some "affiliate network supply"
    else if (1 <=? hits) && (Contains combined "manager" || Contains combined "network")
    then Some "affiliate network supply"
    else None.

(** ** [newbie_budget.go] *)

Definition newbieNoBudgetPhrases : list string :=
  [ "can't afford"; "cant afford"; "cannot afford"; "want to start my journey";
    "start my journey"; "want to start promoting"; "starting my journey"; "want to start my";
    "just starting out"; "first cpa offer"; "first offer"; "good and cheap"; "cheap tracker";
    "i'm a beginner"; "i am a beginner"; "total beginner"; "no budget"; "zero budget";
    "no money for" ].
Definition infraBypassHints : list string :=
  [ "postback"; "not working"; "failing"; "broken"; "oom"; "out of memory"; "crash"; "migrate";
    "switching from"; "clicks per day"; "million clicks" ].
Definition hasInfraPainBypass (lower : string) : bool :=
  if Validate.HasCommercialPainIntent lower then has_hint lower infraBypassHints else false.

Definition RejectNewbieNoBudget (text title : string) : option string :=
  let combined := ToLower (title_text title text) in
  if String.eqb combined estr then None
  else if HasSpendSignal combined then None
  else if hasInfraPainBypass combined then None
  else if has_hint combined newbieNoBudgetPhrases then Some "newbie no budget"
  else None.

(** ** [pwa_pain.go] *)

Definition pwaPainRe : list re := MustCompile <$>
  [ "(?i)\bpostback\s+from\s+app\b"; "(?i)\bwebview\s+stuck\b";
    "(?i)\bsub[_-]?id\b.{0,40}\b(?:keitaro|binom|voluum|tracker)\b";
    "(?i)\b(?:keitaro|binom|voluum|tracker)\b.{0,40}\bsub[_-]?id\b";
    "(?i)\bredirect\s+delay\b"; "(?i)\bs2s\s+from\s+pwa\b";
    "(?i)\bpwa\b.{0,40}\b(?:postback|tracker|keitaro)\b";
    "(?i)\b(?:postback|tracker|keitaro)\b.{0,40}\bpwa\b" ].
Definition pwaProviderHints : list string :=
  [ "pwa.group"; "pwa.market"; "irent"; "td apps"; "pwa rent"; "ios rent"; "webview";
    "progressive web app" ].
Definition pwaPainHints : list string :=
  [ "postback"; "keitaro"; "binom"; "voluum"; "tracker"; "sub_id"; "subid"; "s2s" ].
Definition pwaChannelTokens : list string :=
  [ "pwa"; "webview"; "sub_id"; "ios rent" ].
Definition HasPWAPainSignal (text : string) : bool :=
  let body := TrimSpace text in
  if String.eqb body estr then false
  else if match_any pwaPainRe body then true
  else
    let lower := ToLower body in
    if negb (Contains lower "pwa" || Contains lower "webview") then false
    else has_hint lower pwaPainHints.

Definition channel_blob (username title query : string) : string :=
  ToLower (TrimSpace (username +:+ " " +:+ title +:+ " " +:+ query)).

Definition IsPWAChannelHint (username title query : string) : bool :=
  let combined := channel_blob username title query in
  if String.eqb combined estr then false
  else if has_hint combined pwaProviderHints then true
  else has_hint combined pwaChannelTokens.

(** ** [hosting_incident.go] *)

Definition hostingIncidentRe : list re := MustCompile <$>
  [ "(?i)\b502\b"; "(?i)\b503\b"; "(?i)\b504\b"; "(?i)\bupstream\b"; "(?i)\babuse\s+suspend";
    "(?i)\bhost(?:er|ing)\b.{0,40}\b(?:block|suspend|down)\b";
    "(?i)\bredirect\b.{0,30}\bdown\b"; "(?i)\bnginx\b.{0,40}\b(?:timeout|error|down)\b" ].
Definition hostingVendorHints : list string :=
  [ "alexhost"; "pq.hosting"; "pq hosting"; "zomro"; "friendhosting"; "bulletproof";
    "offshore hosting"; "abuse ticket" ].
Definition hostingTrackerHints : list string :=
  [ "keitaro"; "binom"; "voluum"; "redtrack"; "tracker"; "postback"; "clickid" ].
Definition HasHostingIncidentPain (text : string) : bool :=
  let body := TrimSpace text in
  if String.eqb body estr then false
  else if negb (match_any hostingIncidentRe body) then false
  else has_hint (ToLower body) hostingTrackerHints.

Definition IsHostingChannelHint (username title query : string) : bool :=
  let combined := channel_blob username title query in
  if String.eqb combined estr then false else has_hint combined hostingVendorHints.

(** ** [h8_payment.go] *)

Definition h8FOPTOVRe : re := MustCompile
  "(?i)(?:фоп|тов|гривн|grivna|\bfop\b|\btov\b|\buah\b|privatbank|monobank)".
Definition h8InfobizRe : re := MustCompile
  ("(?i)(?:инфобиз|infobiz|white\s+goods|курсы?\s+по\s+арбитраж|course\s+seller|"
   +:+ "how\s+to\s+buy\s+domain|купить\s+домен)").
Definition h8CryptoPayoutRe : re := MustCompile
  "(?i)(?:\busdt\b|\btrc20\b|\berc20\b|crypto\s+payout|crypto\s+settlement|weekly\s+usdt|daily\s+usdt)".
Definition h8BuyerHints : list string :=
  [ "voluum"; "keitaro"; "binom"; "redtrack"; "postback"; "tracker"; "usdt"; "trc20";
    "clickid"; "self-hosted"; "502"; "nginx"; "mysql" ].
Definition hasH8BuyerVoice (lower : string) : bool := has_hint lower h8BuyerHints.

Definition RejectH8PaymentVertical (text title : string) : option string :=
  let combined := ToLower (title_text title text) in
  if String.eqb combined estr then None
  else if MatchString h8FOPTOVRe combined && negb (hasH8BuyerVoice combined)
  then Some "h8 fop/tov/grivna"
  else if MatchString h8InfobizRe combined && negb (HasTrackerPainMessage text)
  then Some "h8 infobiz/off-vertical"
  else None.

Definition RejectCryptoPayoutOnly (text : string) : option string :=
  let body := TrimSpace text in
  if String.eqb body estr then None
  else if negb (MatchString h8CryptoPayoutRe (ToLower body)) then None
  else if HasTrackerPainMessage body then None
  else if Validate.HasCommercialPainIntent body || Validate.HasBuyerQuestionPattern body then None
  else Some "h8 crypto payout without pain".

(** ** [h2_pool.go] *)

Definition h2CISArbitrageHandles : list string :=
  [ "maximaffiliate"; "zuevaff"; "zuevchatcpa"; "traffic_trickster"; "bakalov_info";
    "seodroplab"; "po_ushi_v_gambling"; "frbs_team"; "g_gate_media"; "affwriter";
    "m2ensenchannel"; "cpalenta"; "cpa_lenta" ].
Definition h2CISArbitrageSubstrings : list string :=
  [ "zuevaff"; "maximaff"; "cpalent"; "cparip"; "arbitrage_ru"; "_ru_arb"; "ru_arbitrage" ].
Definition cisRUSetupHints : list string :=
  [ "россия"; "russia"; " ru "; " рф "; ".ru"; "+7"; "сбер"; "рубл" ].
Definition wwBuyerHintsH2 : list string :=
  [ "voluum"; "redtrack"; "binom"; "keitaro"; "self-hosted"; "postback"; "usdt"; "trc20";
    "tracker"; "alternative"; "clickhouse" ].
Definition cisRUSetupContext (lower : string) : bool := has_hint lower cisRUSetupHints.
Definition hasWWBuyerVoiceH2 (lower : string) : bool := has_hint lower wwBuyerHintsH2.

(** [strings.ToLower(strings.TrimPrefix(strings.TrimSpace(username), "@"))]. *)
Definition lower_handle (username : string) : string :=
  ToLower (TrimPrefix (TrimSpace username) "@").

(** The trimmed non-empty texts. *)
Definition text_parts (texts : list string) : list string :=
  List.filter (λ t, negb (String.eqb t estr)) (TrimSpace <$> texts).

Definition RejectH2CISPool (username : string) (texts : list string) : option string :=
  let user := lower_handle username in
  if negb (String.eqb user estr) && mem user h2CISArbitrageHandles then Some "h2_cis_arbitrage"
  else if negb (String.eqb user estr) && has_hint user h2CISArbitrageSubstrings
  then Some "h2_cis_username"
  else
    let blob := ToLower (Join (text_parts texts) " ") in
    if String.eqb blob estr then None
    else if Contains blob "cpa.rip" && cisRUSetupContext blob && negb (hasWWBuyerVoiceH2 blob)
    then Some "h2_cpa_rip_ru"
    else None.

(** ** [lang.go] *)

Definition minCyrillicRunes : Z := 40.

Definition latinAllowHints : list string :=
  [ " the "; " and "; " for "; " with "; " tracker"; " voluum"; " postback"; " alternative";
    " affiliate"; " traffic"; " campaign"; " de "; " la "; " el "; " para "; " com "; " não ";
    " tráfico"; " afiliado"; " dla "; " nie "; " mit "; " für "; " pour "; " avec " ].
Definition latin_letter (r : N) : bool := between 97 122 r || between 65 90 r.

Definition scriptCounts (text : string) : Z * Z :=
  (count_if is_cyrillic (runes text),
   count_if (λ r, negb (is_cyrillic r) && latin_letter r) (runes text)).

Definition hasLatinAllowHint (lower : string) : bool := has_hint lower latinAllowHints.

Definition RejectLongCyrillicWithoutLatin (text : string) : option string :=
  let '(cyr, lat) := scriptCounts text in
  if cyr <? minCyrillicRunes then None
  else if (12 <=? lat) || hasLatinAllowHint (ToLower text) then None
  else Some "long cyrillic without EN/ES/PT context".

Definition DetectLanguage (text : string) : string :=
  let lower := ToLower text in
  let '(cyr, lat) := scriptCounts text in
  if minCyrillicRunes <? cyr then "ru"
  else if lat =? 0 then "unknown"
  else if has_hint lower ["alternatywa"; "trackera"; "nie dziala"; "szukam"] then "pl"
  else if has_hint lower ["alternativa ao"; "muito caro"; "nao funciona"; "procurando"] then "pt"
  else if has_hint lower ["alternativa a"; "muy caro"; "no funciona"; "buscando"] then "es"
  else if has_hint lower ["zu teuer"; "funktioniert nicht"; "weiterleitung"; "suche tracker"]
  then "de"
  else if has_hint lower ["trop cher"; "ne fonctionne pas"; "rediriger"; "recherche tracker"]
  then "fr"
  else "en".

(** ** [instant_drop.go] *)

Definition instantDropPhrases : list string :=
  [ "agency account"; "agency accounts"; "ad account for sale"; "accounts for sale"; "buy fp";
    "buy fb account"; "buy facebook account"; "facebook account rent"; "farm account";
    "farm accounts"; "account farm"; "farming accounts"; "virtual card"; "virtual cards";
    "vcc for ads"; "virtual cc"; "drop service"; "drops available"; "aged accounts";
    "warmed bm"; "warmed bms"; "warm bm"; "warm bms"; "business manager rent"; "bm for rent";
    "first bill account"; "accounts with first bill"; "billing ready account";
    "агентские аккаунты"; "агентский аккаунт"; "купить фп"; "купить фб"; "фарм аккаунт";
    "фарм аккаунты"; "фарм акков"; "фарм акк"; "виртуальные карты"; "виртуалки";
    "виртуальная карта"; "дропы"; "дроп сервис"; "гретые бмы"; "гретые bm"; "гретый бм";
    "акки под первобил"; "аккаунты под первобил"; "под первобил"; "аренда аккаунтов";
    "продажа аккаунтов"; "аккаунты в наличии"; "creatives on order"; "custom creatives";
    "creative design service"; "landing page design"; "landing design service";
    "lander design order"; "reels editing"; "reel editing"; "video editing service";
    "voiceover service"; "video voiceover"; "креативы на заказ"; "дизайн лендингов";
    "дизайн лендинга на заказ"; "монтаж reels"; "монтаж рилс"; "озвучка видео";
    "озвучка на заказ"; "лендинг на заказ"; "креативы под ключ"; "join our team earn";
    "looking for workers"; "we need workers"; "training from scratch"; "earn from scratch";
    "earning scheme"; "profit share scheme"; "percent of profit"; "% of profit";
    "passive income scheme"; "work from phone"; "набор в тиму"; "набор в команду";
    "ищем воркеров"; "нужны воркеры"; "обучение с нуля"; "схема заработка";
    "процент с профита"; "% с профита"; "заработок с нуля"; "пассивный заработок";
    "работа с телефона" ].
(** The first phrase of the list contained in the text. *)
Fixpoint first_hint (lower : string) (hints : list string) : option string :=
  match hints with
  | [] => None
  | h :: hints' => if Contains lower h then Some h else first_hint lower hints'
  end.

Definition InstantDropSellerSpam (text : string) : option string :=
  let lower := ToLower (TrimSpace text) in
  if String.eqb lower estr then None
  else match first_hint lower instantDropPhrases with
       | Some phrase => Some ("seller spam: " +:+ phrase)
       | None => None
       end.

(** ** [author_profile.go] *)

Definition sellerAuthorTokenRe : re := MustCompile
  "(?i)(?:^|[\s._-])(shop|store|rent|agency|seller|support|storefront)(?:[\s._-]|$)".
Definition sellerAuthorCyrillic : list string :=
  [ "магазин"; "аренда"; "агентство"; "селлер"; "саппорт"; "поддержка"; "продажа аккаунтов";
    "accounts shop"; "account store" ].
Definition seller_tokens : list string :=
  ["shop"; "store"; "rent"; "agency"; "seller"; "support"; "storefront"].

Definition handle_separator (r : N) : bool :=
  N.eqb r 95 || N.eqb r 46 || N.eqb r 45 || N.eqb r 32 || N.eqb r 64.

Definition hasSellerAuthorToken (lower : string) : bool :=
  existsb (λ part, mem (TrimSpace part) seller_tokens) (FieldsFunc lower handle_separator).

Definition sellerAuthorProfile (username channelAbout title : string) : option string :=
  let combined := TrimSpace (username +:+ " " +:+ channelAbout +:+ " " +:+ title) in
  if String.eqb combined estr then None
  else
    let lower := ToLower combined in
    if MatchString sellerAuthorTokenRe lower || hasSellerAuthorToken lower
    then Some "seller author profile token"
    else match first_hint lower sellerAuthorCyrillic with
         | Some phrase => Some ("seller author profile: " +:+ phrase)
         | None => None
         end.

Definition SellerAuthorProfile (username channelAbout title : string) : option string :=
  sellerAuthorProfile username channelAbout title.

Definition SellerAuthorProfileForChannel (username channelAbout title channelRole : string)
    : option string :=
  if EqualFold (TrimSpace channelRole) "vendor_support" then sellerAuthorProfile username estr estr
  else sellerAuthorProfile username channelAbout title.

Definition VendorSupportBuyerBoost (text : string) : bool :=
  let lower := ToLower (TrimSpace text) in
  if String.eqb lower estr then false
  else has_hint lower ["$50k"; "50k spend"; "agency spend"; "$30k"]
       && has_hint lower ["usdt"; "trc20"]
       && has_hint lower ["postback"; "redirect"; "tracker"; "keitaro"].

Definition technicalAuthorSignals : list string :=
  [ "nginx"; "htop"; "upstream timed out"; "worker_connections"; "error.log"; "access.log";
    "stack trace"; "stacktrace"; "502 bad gateway"; "504 gateway timeout";
    "connection reset by peer"; "ssl handshake"; "too many open files"; "oom killed";
    "out of memory"; "clickhouse"; "mysql lock"; "redis timeout"; "php-fpm"; "server {";
    "location /"; "proxy_pass"; "fastcgi_pass"; "grep error"; "tail -f"; "journalctl"; "dmesg";
    "cpu 100%"; "load average"; "iowait"; "swap usage" ].
Definition teamBuyingSignals : list string :=
  [ "media buying team"; "team of buyers"; "multiple buyers"; "buying team";
    "multi-user keitaro"; "keitaro team"; "binom team"; "our media buyers";
    "head of acquisition"; "team lead media"; "affiliate director"; "self-hosted tracker";
    "self hosted tracker"; "on our vps"; "our vps"; "own server"; "our server";
    "dedicated vps"; "$30k"; "$50k"; "30k budget"; "50k spend"; "30k/month"; "50k/month";
    "parallel pilot"; "running keitaro"; "running binom" ].
Definition teamPainHints : list string :=
  [ "keitaro"; "binom"; "voluum"; "postback"; "tracker"; "self-hosted" ].
Definition TeamBuyingSignal (text title : string) : bool :=
  let combined := title_text title text in
  if String.eqb combined estr then false
  else
    let lower := ToLower combined in
    let hits := hint_hits lower teamBuyingSignals in
    if 2 <=? hits then true
    else if 1 <=? hits then has_hint lower teamPainHints
    else false.

Definition TechnicalAuthorSignal (text title : string) : bool :=
  let combined := title_text title text in
  if runeLen combined <? 120 then false
  else
    let lower := ToLower combined in
    let hits := hint_hits lower technicalAuthorSignals in
    if 2 <=? hits then true
    else if (1 <=? hits)
            && (Contains lower "?" || Contains lower "error" || Contains lower "config")
    then 200 <=? runeLen combined
    else false.
