(* ===== verification/FilterGates.v ===== *)
(** The source gates of the filters ([internal/filter/]: tgweb.go,
    source_gates.go, source_policy.go, source_mix.go, telegram.go,
    telegram_thread.go, telegram_discover.go, forum_gates.go, forum_hiring.go,
    serp_gates.go, discord_intel.go, context_drop.go, boilerplate.go) and the
    forum host allowlist ([internal/sources/forum/hosts.go]). *)
From S2P Require Import Prelude Unicode GoStrings Utf8Facts TextFacts Regex RegexFacts.
From S2P Require Import Validate Scoring Outreach Extract FilterSignals.

Local Open Scope Z_scope.

(** ** Source families *)

(** [strings.HasPrefix(strings.ToLower(strings.TrimSpace(source)), family)]. *)
Definition of_family (family source : string) : bool :=
  HasPrefix (ToLower (TrimSpace source)) family.

Definition IsTgWebSource (source : string) : bool := of_family "tgweb:" source.
Definition IsLanderSource (source : string) : bool := of_family "lander:" source.
Definition IsWebPainSource (source : string) : bool := of_family "webpain:" source.
Definition IsGitHubSource (source : string) : bool := of_family "github:" source.
Definition IsSerpSource (source : string) : bool := of_family "serp:" source.
Definition IsForumSource (source : string) : bool := of_family "forum:" source.
Definition IsDiscordSource (source : string) : bool := of_family "discord:" source.

(** Telegram alone is tested without trimming. *)
Definition isTelegramSource (source : string) : bool := HasPrefix (ToLower source) "telegram:".
Definition IsTelegramSource (source : string) : bool := isTelegramSource source.

Definition LanderDomainFromSource (source : string) : string :=
  TrimPrefix (ToLower (TrimSpace source)) "lander:".
Definition SerpDomainFromSource (source : string) : string :=
  TrimPrefix (ToLower (TrimSpace source)) "serp:".

Definition LanderBlacklistedSource (st : validate_state) (source : string) : bool :=
  if negb (IsLanderSource source) then false
  else IsBlacklistedDomain st (LanderDomainFromSource source).

Definition SerpBlacklistedSource (st : validate_state) (source : string) : bool :=
  if negb (IsSerpSource source) then false
  else IsBlacklistedDomain st (SerpDomainFromSource source).

Definition CollectPriorityHigh : Z := 100.
Definition CollectPriorityMedium : Z := 50.
Definition CollectPriorityLow : Z := 10.

Definition CollectPriorityFamily (family : string) : Z :=
  let f := ToLower (TrimSpace family) in
  if mem f ["reddit"; "forum"; "reviews"] then CollectPriorityHigh
  else if mem f ["supply"; "serp"; "discord"; "jobboard"] then CollectPriorityMedium
  else if mem f ["lander"; "github"; "webpain"] then CollectPriorityLow
  else CollectPriorityMedium.

Definition CollectPriority (source : string) : Z :=
  let source := ToLower (TrimSpace source) in
  if has_any_prefix source ["reddit:"; "forum:"; "reviews:"] then CollectPriorityHigh
  else if has_any_prefix source ["supply:"; "ads_txt:"; "serp:"; "discord:"; "jobboard:"]
  then CollectPriorityMedium
  else if has_any_prefix source ["webpain:"; "github:"; "lander:"] then CollectPriorityLow
  else if HasPrefix source "telegram:invite:" then CollectPriorityLow
  else if isTelegramSource source then CollectPriorityMedium
  else CollectPriorityMedium.

Definition SourceRequiresIntentGate (source chatType : string) : bool :=
  let source := ToLower (TrimSpace source) in
  if has_any_prefix source ["reddit:"; "forum:"; "reviews:"] then false
  else if has_any_prefix source ["lander:"; "github:"; "webpain:"] then true
  else if HasPrefix source "telegram:invite:" then true
  else if isTelegramSource source then EqualFold (TrimSpace chatType) "channel"
  else false.

Definition SourceMixHot : string := "hot".
Definition SourceMixWarm : string := "warm".
Definition SourceMixIntel : string := "intel".
Definition SourceMixDeprioritize : string := "deprioritize".

Definition TGFirstSources : string := "forum,serp,jobboard,tgweb".

Definition SourceMixTier (source : string) : string :=
  let source := ToLower (TrimSpace source) in
  if HasPrefix source "telegram:" then SourceMixHot
  else if has_any_prefix source ["forum:"; "reviews:"] then SourceMixHot
  else if has_any_prefix source ["serp:"; "jobboard:"; "discord:"] then SourceMixWarm
  else if has_any_prefix source ["tgweb:"; "infraosint:"; "lander:"; "supply:"]
  then SourceMixIntel
  else if has_any_prefix source ["reddit:"; "webpain:"; "github:"] then SourceMixDeprioritize
  else SourceMixWarm.

Definition IsH13DeprioritizedSource (source : string) : bool :=
  String.eqb (SourceMixTier source) SourceMixDeprioritize.

(** ** Telegram ([telegram.go], [telegram_thread.go], [source_gates.go]) *)

Definition minTelegramTextRunes : Z := 40.

Definition telegramSpamPhrases : list string :=
  [ "join our channel"; "subscribe to"; "subscribе to"; "via @"; "forwarded from";
    "dm me for course"; "free course"; "affiliate course"; "mentorship program";
    "signal group"; "vip signals"; "paid group"; "click the link below"; "limited slots" ].
Definition TelegramSpam (source text : string) : option string :=
  if negb (isTelegramSource source) then None
  else
    let body := TrimSpace text in
    if String.eqb body estr then Some "empty message"
    else
      let lower := ToLower body in
      match first_hint lower telegramSpamPhrases with
      | Some phrase => Some ("spam phrase: " +:+ phrase)
      | None =>
          if (runeLen body <? minTelegramTextRunes) && negb (hasPainKeyword lower)
          then Some "short message without pain signal" else None
      end.

Definition runeCountLetters (s : string) : Z := count_if is_letter (runes s).

Definition OnlyContactNoContext (text : string) : bool :=
  let body := TrimSpace text in
  if String.eqb body estr then true
  else
    let stripped := TrimSpace (TrimPrefix (TrimPrefix body "telegram:") "@") in
    if Contains stripped " " then false
    else if Contains stripped "@" && negb (Contains stripped " ")
    then runeCountLetters stripped <? 8
    else runeLen body <? 12.

Definition telegramReplyHelperPhrases : list string :=
  [ "dm me for"; "dm me privately"; "free course"; "affiliate course"; "mentorship program";
    "signal group"; "vip signals"; "paid group"; "join my channel"; "contact me for";
    "my service"; "i help ecommerce"; "i help e-commerce"; "we offer"; "open to connect" ].
Definition TelegramReplyHelperReject (text : string) : option string :=
  let body := ToLower (TrimSpace text) in
  if String.eqb body estr then None
  else match first_hint body telegramReplyHelperPhrases with
       | Some phrase => Some ("reply helper: " +:+ phrase)
       | None => None
       end.

Definition TelegramReplyThreadBuyer (replyToMessageID : Z) (replyContext text username : string)
    : bool :=
  if replyToMessageID <=? 0 then false
  else if String.eqb (TrimSpace username) estr then false
  else
    let parent := TrimSpace replyContext in
    if String.eqb parent estr then false
    else if negb (HasCommercialPainIntent parent) && negb (hasPainKeyword (ToLower parent))
    then false
    else match TelegramReplyHelperReject text with Some _ => false | None => true end.

Definition TelegramChannelBroadcastReject (source chatType : string) (replyToMessageID : Z)
    (text : string) : bool :=
  if negb (isTelegramSource source) then false
  else
    let kind := ToLower (TrimSpace chatType) in
    if mem kind [estr; "group"; "supergroup"] then false
    else if negb (String.eqb kind "channel") then false
    else if 0 <? replyToMessageID then false
    else if HasCommercialPainIntent text || HasBuyerQuestionPattern text then false
    else true.

Definition TelegramRequiresBuyerSignal (text : string) : bool :=
  Validate.HasBuyerQuestionPattern text || HasTrackerPainMessage text.

Definition telegramChannelFromSource (source : string) : string :=
  let source := TrimPrefix (ToLower (TrimSpace source)) "telegram:" in
  if HasPrefix source "invite:" then estr
  else TrimPrefix (TrimSpace source) "@".

Definition normalizeTelegramHandle (value : string) : string :=
  ToLower (TrimSpace (TrimPrefix value "@")).

Fixpoint self_broadcast (channel : string) (contacts : list Contact) : bool :=
  match contacts with
  | [] => true
  | c :: rest =>
      if mem (c_Type c) ["email"; "skype"; "forum_user"; "reddit"; "github"] then false
      else if String.eqb (c_Type c) "telegram" then
        let handle := normalizeTelegramHandle (c_Value c) in
        if HasPrefix (ToLower (TrimSpace (c_Value c))) "user_id:" then false
        else if String.eqb handle estr || IsJunkTelegramHandle (c_Value c)
        then self_broadcast channel rest
        else if negb (String.eqb handle channel) then false
        else self_broadcast channel rest
      else self_broadcast channel rest
  end.

Definition TelegramChannelSelfBroadcast (source : string) (contacts : list Contact) : bool :=
  if negb (isTelegramSource source) then false
  else
    let channel := telegramChannelFromSource source in
    if String.eqb channel estr then false else self_broadcast channel contacts.

Definition telegramDiscoverBlockHandles : list string :=
  [ "igaming_news"; "partnerkin_job"; "affiliatechannel_igaming"; "partneroff_pro";
    "soltrending"; "pumpspy"; "pumpalert"; "cryptopumpsignals"; "moonshotgems" ].
Definition telegramDiscoverBlockSubstrings : list string :=
  [ "_news"; "_jobs"; "_job_"; "jobboard"; "job_board"; "vacancy"; "partnerkin"; "soltrending";
    "pumpspy"; "pumpalert"; "cryptopump"; "moonshot"; "gemsalert"; "migrationspam";
    "migrate2us"; "usdtairdrop" ].
Definition telegramDiscoverSpamHints : list string :=
  [ "signal"; "signals"; "course"; "mentorship"; "vip group"; "paid tips"; "casino tips" ].
Definition telegramDiscoverPositiveHints : list string :=
  [ "affiliate"; "igaming"; "media buy"; "mediabuy"; "media_buy"; "mediabuying"; "arbitrage";
    "tracker"; "keitaro"; "binom"; "voluum"; "redtrack"; "clickflare"; "cpa"; "acquisition";
    "performance marketing"; "buyer"; "postback"; "s2s"; "clickid"; "ftd"; "cloak" ].
Definition TelegramIntelOnlyChannel (source : string) : bool :=
  if negb (isTelegramSource source) then false
  else
    let channel := telegramChannelFromSource source in
    if String.eqb channel estr then false
    else
      let user := ToLower channel in
      if mem user telegramDiscoverBlockHandles then true
      else has_hint user telegramDiscoverBlockSubstrings.

Definition IsIntelOnlySource (source : string) (landerOutreach : bool) : bool :=
  if landerOutreach then false
  else if of_family "lander:" source then true
  else if of_family "infraosint:" source then true
  else TelegramIntelOnlyChannel source.

Definition TelegramDiscoverReject (username : string) (texts : list string) : option string :=
  match RejectH2CISPool username texts with
  | Some reason => Some reason
  | None =>
      let user := lower_handle username in
      let parts := (if String.eqb user estr then [] else [user])
                   ++ (ToLower <$> text_parts texts) in
      let blob := Join parts " " in
      if String.eqb blob estr then Some "empty"
      else if negb (String.eqb user estr) && mem user telegramDiscoverBlockHandles
      then Some "block_handle"
      else if negb (String.eqb user estr) && has_hint user telegramDiscoverBlockSubstrings
      then Some "block_username"
      else
        let spamHits := hint_hits blob telegramDiscoverSpamHints in
        let posHits := hint_hits blob telegramDiscoverPositiveHints in
        if (2 <=? spamHits) && (posHits =? 0) then Some "spam_channel"
        else if posHits =? 0 then Some "intel_only"
        else None
  end.

(** ** Buyer phrases of the Telegram and GitHub gates ([source_gates.go]) *)

Definition buyerIntentPhrases : list string :=
  [ "looking for"; "need a tracker"; "need tracker"; "recommend"; "alternative to"; "migrate";
    "switching from"; "anyone facing"; "help with"; "does anyone"; "subscription plan";
    "hiring"; "media buyer"; "clients looking" ].
Definition githubVendorOrgs : list string :=
  [ "keitaroinc"; "voluum"; "binom"; "redtrack"; "clickflare" ].
Definition githubTrackerPainHints : list string :=
  [ "postback"; "s2s postback"; "s2s"; "voluum alternative"; "keitaro alternative";
    "tracker alternative"; "media buyer"; "affiliate marketing"; "igaming affiliate";
    "cost sync"; "clickid"; "click id"; "conversion tracking"; "switching from";
    "migrate from"; "moving off voluum"; "budget protection"; "ftd"; "cloak"; "not working";
    "failing"; "expensive"; "billing"; "spend" ].
Definition vacancyPhrases : list string :=
  [ "шукаємо"; "ваканс"; "ищем"; "hiring"; "job opening"; "join our team"; "remote |";
    "full-time"; "full time"; "recruiter"; "head of media buying"; "media buyer fb";
    "tiktok media buyer"; "salary"; "зарплат"; "k+/month"; "$k+/"; "profit share"; "бонус";
    "офіс"; "office)" ].
Definition inviteTutorialPhrases : list string :=
  [ "мануал"; "tutorial"; "step by step"; "how to build"; "гайд"; "инструкция"; "vibe cod";
    "вайбкод"; "claude keitaro"; "trafftok"; "подготовили для вас"; "must-have skill";
    "мастхев"; "скіли в claude" ].
Definition agencyOutreachPhrases : list string :=
  [ "i help "; "grow through"; "effective ads campaign" ].
Definition agencyVendorNames : list string :=
  [ "redtrack"; "voluum"; "binom"; "keitaro"; "clickflare" ].
Definition hasBuyerIntentPhrase (lower : string) : bool :=
  if has_hint lower buyerIntentPhrases then true
  else Contains lower "?" && (minTelegramTextRunes <=? runeLen lower).

Definition agencyOutreachPhraseHits (lower : string) : Z := hint_hits lower agencyOutreachPhrases.

Definition agencyCloakingVendorPromo (lower : string) : bool :=
  if negb (Contains lower "cloaking") then false else has_hint lower agencyVendorNames.

Definition TelegramAgencyOutreachReject (source text : string) : bool :=
  if negb (isTelegramSource source) then false
  else
    let lower := ToLower (TrimSpace text) in
    if hasBuyerIntentPhrase lower then false
    else if Contains lower "?" then false
    else if agencyCloakingVendorPromo lower then true
    else 2 <=? agencyOutreachPhraseHits lower.

Definition telegramInviteTutorialNoise (lower : string) : bool :=
  has_hint lower inviteTutorialPhrases.

Definition hasTrackerPainHint (lower : string) : bool :=
  has_hint lower
    (List.filter (λ h, negb (mem h ["media buyer"; "affiliate marketing"; "igaming affiliate"]))
       githubTrackerPainHints).

Definition telegramInviteVacancyNoise (lower : string) : bool :=
  match first_hint lower vacancyPhrases with
  | None => false
  | Some _ => negb (hasPainKeyword lower || hasTrackerPainHint lower)
  end.

Definition TelegramInviteWithoutBuyerIntent (source text : string) : bool :=
  if negb (of_family "telegram:invite:" source) then false
  else
    let lower := ToLower (TrimSpace text) in
    if telegramInviteVacancyNoise lower then true
    else if telegramInviteTutorialNoise lower then negb (hasBuyerIntentPhrase lower)
    else if hasPainKeyword lower || hasBuyerIntentPhrase lower then false
    else true.

Definition LanderRequiresBuyerSignal (text : string) : bool :=
  Validate.HasCommercialPainIntent text || Validate.HasBuyerQuestionPattern text
  || HasBuyerIntentSignal text.

Definition LanderRequiresEmailOrSkype (contacts : list Contact) : bool :=
  existsb (λ c, String.eqb (c_Type c) "email" || String.eqb (c_Type c) "skype") contacts.

Definition GitHubVendorOrg (source : string) : bool :=
  let rest := TrimPrefix (ToLower (TrimSpace source)) "github:" in
  match Index rest "/" with
  | Some (S _ as idx) => mem (stake idx rest) githubVendorOrgs
  | _ => false
  end.

Definition hasGitHubTrackerPain (lower : string) : bool := has_hint lower githubTrackerPainHints.

Definition GitHubRequiresPainContext (source text : string) : bool :=
  if negb (IsGitHubSource source) then true
  else if GitHubVendorOrg source then false
  else if HasBuyerIntentSignal text then true
  else
    let '(tier, _) := DetectDisplacementTier text [] in
    match tier with
    | DisplacementNone =>
        let lower := ToLower text in
        HasCompetitorMention lower && hasGitHubTrackerPain lower
    | _ => true
    end.

(** ** Forum hosts ([sources/forum/hosts.go]) *)

Definition defaultForumHosts : list string :=
  [ "affiliatefix.com"; "stmforum.com"; "blackhatworld.com"; "warriorforum.com"; "afflift.com";
    "gpwa.org"; "affroom.com"; "affiliateguarddog.com"; "digitalpoint.com"; "cpaelites.com";
    "beermoneyforum.com"; "wjunction.com"; "forobeta.com"; "iamaffiliate.com";
    "wickedfire.com"; "webmasterworld.com"; "topgold.forum"; "fb-killa.pro"; "gfbforum.live";
    "cpamafia.pro"; "addset.ru"; "offshorecorptalk.com" ].
(** The configured allowlist; [None] until [ConfigureHosts] ran. *)
Definition forum_hosts := option (gset string).

Definition normalizeForumHost (host : string) : string :=
  TrimSuffix (TrimPrefix (ToLower (TrimSpace host)) "www.") ".".

Definition ConfigureHosts (extra : list string) : forum_hosts :=
  Some (list_to_set (List.filter (λ h, negb (String.eqb h estr))
                       (normalizeForumHost <$> defaultForumHosts ++ extra))).

Definition ensureHostsConfigured (hosts : forum_hosts) : gset string :=
  match hosts with
  | Some s => s
  | None => default ∅ (ConfigureHosts [])
  end.

Definition ForumHostCount (hosts : forum_hosts) : Z :=
  Z.of_nat (size (ensureHostsConfigured hosts)).

Definition IsKnownForumHost (hosts : forum_hosts) (host : string) : bool :=
  let s := ensureHostsConfigured hosts in
  let host := normalizeForumHost host in
  if String.eqb host estr then false
  else if decide (host ∈ s) then true
  else existsb (λ allowed, HasSuffix host ("." +:+ allowed)) (elements s).

Definition LoadHostAllowlistFile (path : string) (f : file) : list string * bool :=
  if String.eqb (TrimSpace path) estr then ([], true)
  else match f with
       | NotExist => ([], true)
       | OpenFailed => ([], false)
       | Content content =>
           let '(lines, ok) := scan_lines content in
           if ok then
             (List.filter (λ l, negb (String.eqb l estr) && negb (HasPrefix l "#"))
                (TrimSpace <$> lines), true)
           else ([], false)
       end.

(** ** Forum and SERP gates *)

Definition ForumHasForumUserContact (contacts : list Contact) : bool :=
  existsb (λ c, String.eqb (c_Type c) "forum_user"
                && negb (String.eqb (TrimSpace (c_Value c)) estr)) contacts.

Definition forumTeamHiringRe : re := MustCompile
  ("(?i)(" +:+ "media\s+buyer|mediabuyer|медиабайер|"
   +:+ "team\s+lead\s+media|head\s+of\s+acquisition|"
   +:+ "traffic\s+manager|buyer\s+fb|buyer\s+google" +:+ ").*("
   +:+ "hiring|recruiting|вакансия|ищем|open\s+position|job\s+offer|"
   +:+ "набор\s+в\s+команду|#buyer|#head" +:+ ")|("
   +:+ "hiring|recruiting|вакансия|ищем|open\s+position|job\s+offer" +:+ ").*("
   +:+ "media\s+buyer|mediabuyer|медиабайер|team\s+lead\s+media" +:+ ")").

Definition ForumHostFromSource (source : string) : string :=
  let source := TrimPrefix (ToLower (TrimSpace source)) "forum:" in
  if String.eqb source estr then estr
  else match Index source "/" with
       | Some i => TrimSuffix (stake i source) "."
       | None => TrimSuffix source "."
       end.

Definition IsForumTeamHiringPost (text title : string) : bool :=
  let combined := title_text title text in
  if String.eqb combined estr then false else MatchString forumTeamHiringRe combined.

Definition ForumTeamHiringBypassContextDrop (hosts : forum_hosts) (source text title : string)
    : bool :=
  if negb (IsForumSource source) then false
  else
    let host := ForumHostFromSource source in
    if String.eqb host estr || negb (IsKnownForumHost hosts host) then false
    else IsForumTeamHiringPost text title.

Definition SerpPlaceholderContact (contact : string) : bool :=
  let lower := ToLower (TrimSpace contact) in
  if HasPrefix lower "serp:" then true
  else
    let lower := TrimPrefix (TrimPrefix lower "telegram:") "@" in
    HasPrefix lower "serp:" || IsSyntheticContact contact.

Definition SerpRequiresBuyerSignal (text : string) : bool :=
  Validate.HasCommercialPainIntent text || Validate.HasBuyerQuestionPattern text
  || HasBuyerIntentSignal text.

Definition SerpForumSnippetOnly (hosts : forum_hosts) (source : string) (contacts : list Contact)
    : bool :=
  if negb (IsSerpSource source) then false
  else if negb (IsKnownForumHost hosts (SerpDomainFromSource source)) then false
  else negb (existsb (λ c, String.eqb (c_Type c) "forum_user") contacts).

Definition SerpHasReachableContact (contactHint : string) (contacts : list Contact) : bool :=
  if HasReachableContact contacts || HasEnrichableIdentity contacts then true
  else if SerpPlaceholderContact contactHint then false
  else negb (is_empty contacts).

(** ** Discord ([discord_intel.go]) *)

Definition discordInvoiceNoiseRe : list re := MustCompile <$>
  [ "(?i)\binvoice\b"; "(?i)\bpayment\s+request\b"; "(?i)\bnet\s*[- ]?30\b";
    "(?i)\bwire\s+transfer\b"; "(?i)\baccounts?\s+receivable\b" ].
Definition DiscordInvoiceNoise (text : string) : option string :=
  let body := TrimSpace text in
  if String.eqb body estr then None
  else if match_any discordInvoiceNoiseRe body then
    if HasCommercialPainIntent body || HasBuyerQuestionPattern body then None
    else Some "discord invoice noise"
  else None.

(** ** Context drop ([context_drop.go]) *)

Definition jobContextRe : list re := MustCompile <$>
  [ "(?i)\b(?:we are|we're|i am|i'm)\s+hiring\b";
    "(?i)\bhiring\s+(?:a\s+)?(?:media\s+buyer|affiliate\s+manager|developer)";
    "(?i)\bjob\s+offer\b"; "(?i)\b(?:open|job)\s+position\b"; "(?i)\brecruiting\s+(?:for|a)\b";
    "(?i)\bвакансия\b"; "(?i)\bищем\s+(?:медиабайера|media\s+buyer|разработчик)";
    "(?i)\bнабор\s+в\s+команду\b" ].
Definition tutorialContextRe : list re := MustCompile <$>
  [ "(?i)\bhow\s+to\s+(?:build|create|make|start)\b";
    "(?i)\b(?:step\s+by\s+step|tutorial|guide)\b"; "(?i)\b(?:manual|documentation)\s+for\b";
    "(?i)\bкак\s+(?:сделать|создать|запустить)\b"; "(?i)\b(?:гайд|мануал|инструкция)\b";
    "(?i)\bпошагов" ].
Definition githubNoiseRe : list re := MustCompile <$>
  [ "(?i)\b(?:documentation|readme|contributing)\s+update\b"; "(?i)\bbump\s+version\b";
    "(?i)\bmerge\s+pull\s+request\b" ].
Definition matchesAnyPattern (text : string) (patterns : list re) : bool :=
  match_any patterns text.

Definition RejectNonBuyerContext (hosts : forum_hosts) (source text title : string)
    : option string :=
  if of_family "jobboard:" source then None
  else
    let combined := title_text title text in
    if String.eqb combined estr then Some "empty context"
    else match RejectProgrammaticContext source text title with
    | Some reason => Some reason
    | None =>
    match RejectAffiliateNetworkSupply text title with
    | Some reason => Some reason
    | None =>
    match RejectNewbieNoBudget text title with
    | Some reason => Some reason
    | None =>
    if IsSEOMarketingCopy text title then Some "seo marketing copy"
    else if IsGitHubSource source && IsGitHubSourceCodePaste text title
    then Some "github source code paste"
    else if matchesAnyPattern combined jobContextRe
            && negb (HasCommercialPainIntent combined)
            && negb (HasBuyerQuestionPattern combined)
    then if ForumTeamHiringBypassContextDrop hosts source text title then None
         else Some "job or recruiting context"
    else if matchesAnyPattern combined tutorialContextRe
            && negb (HasCommercialPainIntent combined)
    then Some "tutorial or guide context"
    else if IsGitHubSource source then
      if matchesAnyPattern combined githubNoiseRe && negb (HasCommercialPainIntent combined)
      then Some "github maintenance noise"
      else if matchesAnyPattern combined jobContextRe && negb (HasCommercialPainIntent combined)
      then Some "github job context"
      else None
    else None
    end end end.

(** ** Boilerplate ([boilerplate.go]) *)

Definition htmlBoilerplateSignals : list string :=
  [ "viewport width=device-width"; "meta charset"; "x-ua-compatible"; "script nonce";
    "hreflang="; "data-theme="; "data-head-attrs"; "content-type text/html"; "initial-scale=1";
    "theme-color"; "font-face"; "async></script"; "<!--" ].
Definition naturalWordCount (text : string) : Z :=
  count_if (λ f, 3 <=? count_if is_letter (runes f)) (Fields text).

Definition hasOutreachContext (text : string) : bool :=
  HasBuyerIntentSignal text || Validate.HasCommercialPainIntent text
  || Validate.HasBuyerQuestionPattern text || HasAffiliateNetworkContext text.

Definition RejectHTMLBoilerplate `{MailLib} (st : validate_state) (text : string)
    : option string :=
  let text := TrimSpace text in
  if String.eqb text estr then None
  else
    let contacts := FilterJunkContacts (Contacts (Extract st text [])) in
    if HasReachableContact contacts && hasOutreachContext text then None
    else if 2 <=? hint_hits (ToLower text) htmlBoilerplateSignals then Some "html boilerplate"
    else if (2 <=? Count text "<") && (2 <=? Count text ">") && (naturalWordCount text <? 10)
    then Some "html markup noise"
    else None.
