(* ===== verification/TgWeb.v ===== *)
(** The site contact of a crawled page ([internal/sources/tgweb/]: source.go,
    contacts.go, prescan.go): the source labels, the on-domain test, the choice
    of one contact and its collapse in the pipeline. *)
From S2P Require Import Prelude Unicode GoStrings Utf8Facts TextFacts.
From S2P Require Import Validate Scoring Extract FilterSignals FilterGates.

Local Open Scope Z_scope.

(** ** Source labels ([source.go]) *)

Definition SiteDomainFromSource (source : string) : string :=
  let source := ToLower (TrimSpace source) in
  if negb (HasPrefix source "tgweb:") then estr
  else
    let rest := TrimPrefix source "tgweb:" in
    if String.eqb rest estr then estr
    else match LastIndex rest ":" with
         | Some idx => TrimSpace (sdrop (S idx) rest)
         | None => TrimSpace rest
         end.

Definition ChannelFromSource (source : string) : string :=
  let source := TrimSpace (TrimPrefix (ToLower source) "tgweb:") in
  if String.eqb source estr then estr
  else match Split source ":" with
       | p :: _ :: _ => TrimPrefix (TrimSpace p) "@"
       | _ => estr
       end.

Definition normalizeChannel (channel : string) : string :=
  ToLower (TrimSpace (TrimPrefix channel "@")).

Definition provenanceTitle (channel domain : string) : string :=
  let channel := TrimSpace (TrimPrefix channel "@") in
  if String.eqb channel estr then "site " +:+ domain
  else "site " +:+ domain +:+ " via telegram @" +:+ channel.

(** ** Contacts of a page ([contacts.go]) *)

Definition junkSkypeHandles : list string :=
  [ "skype"; "live"; "username"; "user"; "contact"; "none"; "null"; "undefined"; "example";
    "test" ].
Definition preferredLPRLocals : list string :=
  [ "partners"; "partnerships"; "partner"; "affiliate"; "affiliates"; "bizdev"; "business";
    "bd"; "growth"; "ads"; "media" ].
Definition isJunkSkypeHandle (value : string) : bool :=
  let v := ToLower (TrimSpace (TrimPrefix value "skype:")) in
  if String.eqb v estr || Nat.ltb (slen v) 4 then true
  else if IsJunkTelegramHandle v then true
  else mem v junkSkypeHandles.

Definition emailLocalPart (email : string) : string :=
  let email := ToLower (TrimSpace email) in
  match LastIndex email "@" with
  | Some (S _ as at_) =>
      let local := stake at_ email in
      match Index local "+" with
      | Some plus => stake plus local
      | None => local
      end
  | _ => estr
  end.

Definition emailMatchesSite (email siteDomain : string) : bool :=
  let email := ToLower (TrimSpace email) in
  let siteDomain := ToLower (TrimSpace siteDomain) in
  if String.eqb email estr || String.eqb siteDomain estr then false
  else match LastIndex email "@" with
       | None => false
       | Some at_ =>
           if Nat.eqb (S at_) (slen email) then false
           else
             let host := sdrop (S at_) email in
             String.eqb host siteDomain || HasSuffix host ("." +:+ siteDomain)
       end.

Definition dropped_site_contact (channel : string) (c : Contact) : bool :=
  if String.eqb (c_Type c) "telegram" then
    let handle := TrimPrefix (ToLower (TrimSpace (c_Value c))) "@" in
    IsJunkTelegramHandle handle
    || (negb (String.eqb channel estr) && String.eqb handle channel)
  else if String.eqb (c_Type c) "email" then
    let lower := ToLower (c_Value c) in
    (Contains lower "ingest." && Contains lower "sentry") || IsRoleEmail (c_Value c)
  else if String.eqb (c_Type c) "skype" then isJunkSkypeHandle (c_Value c)
  else false.

Definition filterSiteContacts (contacts : list Contact) (channel : string) : list Contact :=
  List.filter (λ c, negb (dropped_site_contact channel c)) contacts.

(** The two tests of the site contact. *)
Definition site_email (siteDomain : string) (c : Contact) : bool :=
  String.eqb (c_Type c) "email" && emailMatchesSite (c_Value c) siteDomain
  && negb (IsRoleEmail (c_Value c)).

Definition site_skype (c : Contact) : bool :=
  String.eqb (c_Type c) "skype" && negb (String.eqb (c_Value c) estr)
  && negb (isJunkSkypeHandle (c_Value c)).

Definition hasSiteLPR (contacts : list Contact) (siteDomain : string) : bool :=
  if existsb (site_email siteDomain) contacts then true else existsb site_skype contacts.

(** The first address whose local part starts with [pref]. *)
Definition preferred_email (emails : list string) (pref : string) : option string :=
  List.find (λ email, let local := emailLocalPart email in
                      String.eqb local pref || HasPrefix local pref) emails.

Fixpoint best_email (prefs : list string) (emails : list string) : option string :=
  match prefs with
  | [] => head emails
  | pref :: prefs' =>
      match preferred_email emails pref with
      | Some email => Some email
      | None => best_email prefs' emails
      end
  end.

Definition pickBestSiteEmail (emails : list string) : option string :=
  match emails with [] => None | _ => best_email preferredLPRLocals emails end.

(** The zero [Contact] stands for none. *)
Definition no_contact : Contact := MkContact estr estr.

Definition pickPrimarySiteContact (contacts : list Contact) (siteDomain : string) : Contact :=
  let emails := c_Value <$> List.filter
    (λ c, site_email siteDomain c && negb (String.eqb (c_Value c) estr)) contacts in
  match pickBestSiteEmail emails with
  | Some best => MkContact "email" best
  | None => default no_contact (List.find site_skype contacts)
  end.

Definition pickSiteLPR (page : list Contact) (channel siteDomain : string) : option Contact :=
  let channel := normalizeChannel channel in
  let siteDomain := ToLower (TrimSpace siteDomain) in
  let filtered := filterSiteContacts page channel in
  if negb (hasSiteLPR filtered siteDomain) then None
  else
    let primary := pickPrimarySiteContact filtered siteDomain in
    if String.eqb (c_Value primary) estr then None else Some primary.

Definition formatPrimaryContact (c : Contact) : string :=
  if String.eqb (c_Type c) "skype"
  then "skype:" +:+ TrimPrefix (ToLower (c_Value c)) "skype:" else c_Value c.

(** The crawler's primary contact, merged back in. *)
Definition hint_contact (domain primaryHint : string) : list Contact :=
  let primaryHint := TrimSpace primaryHint in
  if String.eqb primaryHint estr then []
  else
    let lower := ToLower primaryHint in
    if HasPrefix lower "skype:" then
      let skype := TrimPrefix lower "skype:" in
      if negb (isJunkSkypeHandle skype) then [MkContact "skype" skype] else []
    else if Contains primaryHint "@" && emailMatchesSite primaryHint domain
            && negb (IsRoleEmail primaryHint)
    then [MkContact "email" primaryHint] else [].

Definition collapse (primary : Contact) : list Contact :=
  if String.eqb (c_Value primary) estr then [] else [primary].

Definition FilterPipelineContacts (source primaryHint : string) (extracted : list Contact)
    : list Contact :=
  if negb (of_family "tgweb:" source) then extracted
  else
    let domain := SiteDomainFromSource source in
    if String.eqb domain estr then []
    else
      let channel := ChannelFromSource source in
      let filtered := filterSiteContacts extracted channel ++ hint_contact domain primaryHint in
      collapse (pickPrimarySiteContact filtered domain).

(** ** Aggressive prescan ([prescan.go]) *)

Definition AggressivePrescanFromContact (source primaryContact : string) : bool :=
  if negb (of_family "tgweb:" source) then false
  else
    let domain := SiteDomainFromSource source in
    if String.eqb domain estr then false
    else
      let primaryContact := TrimSpace primaryContact in
      if String.eqb primaryContact estr then false
      else
        let lower := ToLower primaryContact in
        if HasPrefix lower "skype:" then Nat.ltb 0 (slen (TrimPrefix lower "skype:"))
        else if Contains primaryContact "@" then emailMatchesSite primaryContact domain
        else false.

Definition HasSiteLPRContact (source : string) (contacts : list Contact) : bool :=
  let domain := SiteDomainFromSource source in
  if String.eqb domain estr then false
  else match pickSiteLPR contacts estr domain with Some _ => true | None => false end.

(** ** Properties *)

Lemma best_email_elem prefs emails e : best_email prefs emails = Some e → e ∈ emails.
Proof.
  induction prefs as [|p prefs IH]; simpl.
  - destruct emails; [done|]. intros [= ->]. by left.
  - destruct (preferred_email emails p) eqn:E; [|done].
    intros [= ->]. apply find_some in E as [E _]. by apply list_elem_of_In.
Qed.

Lemma best_email_none prefs emails : best_email prefs emails = None → emails = [].
Proof.
  induction prefs as [|p prefs IH]; simpl; [by destruct emails|].
  by destruct (preferred_email emails p).
Qed.

(** The chosen contact is one of the list, and passes its test. *)
Lemma pickPrimarySiteContact_spec contacts domain :
  let p := pickPrimarySiteContact contacts domain in
  (p = no_contact ∧ (∀ c, c ∈ contacts → site_email domain c = true → c_Value c = estr)
     ∧ ∀ c, c ∈ contacts → site_skype c = false)
  ∨ (site_email domain p = true ∧ c_Value p ≠ estr ∧ p ∈ contacts)
  ∨ (site_skype p = true ∧ p ∈ contacts
     ∧ ∀ c, c ∈ contacts → site_email domain c = true → c_Value c = estr).
Proof.
  unfold pickPrimarySiteContact. cbv zeta.
  set (es := List.filter _ contacts).
  destruct (pickBestSiteEmail (c_Value <$> es)) as [e|] eqn:E.
  - right; left. unfold pickBestSiteEmail in E.
    assert (e ∈ c_Value <$> es) as He.
    { destruct (c_Value <$> es) eqn:El; [done|]. rewrite <- El in E |- *.
      by apply best_email_elem in E. }
    apply list_elem_of_fmap in He as (c & -> & Hc).
    apply list_elem_of_In, filter_In in Hc as [Hc Hp]. apply andb_true_iff in Hp as [Hs Hv].
    pose proof Hs as Hs'. unfold site_email in Hs'.
    apply andb_true_iff in Hs' as [Hs' _]. apply andb_true_iff in Hs' as [Ht _].
    apply String.eqb_eq in Ht. replace (MkContact "email" (c_Value c)) with c
      by (destruct c; simpl in *; by subst).
    split; [done|]. split; [|by apply list_elem_of_In].
    apply negb_true_iff, String.eqb_neq in Hv. done.
  - assert (es = []) as Hes.
    { unfold pickBestSiteEmail in E. destruct es as [|c es']; [done|]. cbn [fmap list_fmap] in E.
      by apply best_email_none in E. }
    assert (∀ c, c ∈ contacts → site_email domain c = true → c_Value c = estr) as Hno.
    { intros c Hc Hs. destruct (String.eqb (c_Value c) estr) eqn:Ev;
        [by apply String.eqb_eq in Ev|].
      assert (c ∈ es) as Hin; [|rewrite Hes in Hin; by apply not_elem_of_nil in Hin].
      apply list_elem_of_In, filter_In. split; [by apply list_elem_of_In|].
      by rewrite Hs, Ev. }
    destruct (List.find site_skype contacts) as [c|] eqn:Ef; simpl.
    + right; right. apply find_some in Ef as [Hc Hs]. repeat split; [done| |done].
      by apply list_elem_of_In.
    + left. repeat split; [done|]. intros c Hc.
      apply (find_none _ _ Ef). by apply list_elem_of_In.
Qed.

Lemma site_email_value domain c : site_email domain c = true → c_Value c ≠ estr.
Proof.
  unfold site_email, emailMatchesSite. intros H Hv. rewrite Hv in H.
  by destruct (String.eqb (c_Type c) "email").
Qed.

(** A tgweb lead has one contact or none: the pipeline collapses the contacts
    of the page and the crawler's hint to a single one, which is an address on
    the crawled site and no role mailbox, or failing any such address a skype
    handle that is no junk; and it only comes back empty-handed when neither
    kind survives the page filter. *)
Theorem tgweb_single_site_contact source hint extracted :
  IsTgWebSource source = true → SiteDomainFromSource source ≠ estr →
  let d := SiteDomainFromSource source in
  let kept := filterSiteContacts extracted (ChannelFromSource source) ++ hint_contact d hint in
  let r := FilterPipelineContacts source hint extracted in
  (r = [] ∧ (∀ c, c ∈ kept → site_email d c = false ∧ site_skype c = false))
  ∨ (∃ c, r = [c] ∧ c ∈ kept
       ∧ (site_email d c = true
          ∨ (site_skype c = true ∧ ∀ e, e ∈ kept → site_email d e = false))).
Proof.
  intros Ht Hd d kept r. subst r. unfold FilterPipelineContacts.
  unfold IsTgWebSource in Ht. rewrite Ht. cbn [negb]. fold d. cbv zeta.
  apply String.eqb_neq in Hd. fold d in Hd. rewrite Hd. fold kept.
  assert ((∀ c, c ∈ kept → site_email d c = true → c_Value c = estr) →
    ∀ c, c ∈ kept → site_email d c = false) as Hno.
  { intros Hall c Hc. destruct (site_email d c) eqn:E; [|done].
    by destruct (site_email_value _ _ E (Hall c Hc E)). }
  destruct (pickPrimarySiteContact_spec kept d) as [(Hp & He & Hs)|[(He & Hv & Hin)|(Hs & Hin & He)]].
  - left. rewrite Hp. split; [done|]. intros c Hc. split; [by apply Hno|by apply Hs].
  - right. exists (pickPrimarySiteContact kept d). split; [|split; [done|by left]].
    unfold collapse. apply String.eqb_neq in Hv. by rewrite Hv.
  - right. exists (pickPrimarySiteContact kept d). split; [|split; [done|right]].
    + unfold collapse. unfold site_skype in Hs. apply andb_true_iff in Hs as [Hs _].
      apply andb_true_iff in Hs as [_ Hs]. apply negb_true_iff in Hs. by rewrite Hs.
    + split; [done|]. by apply Hno.
Qed.

Lemma tgweb_single_site_contact_witness :
  FilterPipelineContacts "tgweb:@chan:site.com" "partners@site.com"
    [MkContact "telegram" "@chan"; MkContact "email" "joe@site.com"; MkContact "email" "a@b.com"]
  = [MkContact "email" "partners@site.com"]
  ∧ let d := SiteDomainFromSource "tgweb:@chan:site.com" in
    let kept := filterSiteContacts
      [MkContact "telegram" "@chan"; MkContact "email" "joe@site.com"; MkContact "email" "a@b.com"]
      (ChannelFromSource "tgweb:@chan:site.com") ++ hint_contact d "partners@site.com" in
    let r := FilterPipelineContacts "tgweb:@chan:site.com" "partners@site.com"
      [MkContact "telegram" "@chan"; MkContact "email" "joe@site.com"; MkContact "email" "a@b.com"] in
    (r = [] ∧ (∀ c, c ∈ kept → site_email d c = false ∧ site_skype c = false))
    ∨ (∃ c, r = [c] ∧ c ∈ kept
         ∧ (site_email d c = true
            ∨ (site_skype c = true ∧ ∀ e, e ∈ kept → site_email d e = false))).
Proof.
  split; [vm_compute; reflexivity|].
  apply tgweb_single_site_contact; [vm_compute; reflexivity|vm_compute; discriminate].
Defined.
