(* ===== verification/WebPain.v ===== *)
(** The site contact of a web pain page ([internal/sources/webpain/contacts.go]).
    The file repeats most of [tgweb/contacts.go] word for word
    ([isJunkSkypeHandle], [emailLocalPart], [emailMatchesSite],
    [pickBestSiteEmail], [pickPrimaryContact], [hasOnDomainLPR],
    [formatPrimaryContact], and their tables); those are the definitions of
    [TgWeb].  What differs is the source label and the page filter. *)
From S2P Require Import Prelude Unicode GoStrings Utf8Facts TextFacts.
From S2P Require Import Validate Extract FilterSignals FilterGates TgWeb.

Local Open Scope Z_scope.

Definition HostFromURL `{UrlLib} (rawURL : string) : string :=
  match url_host (TrimSpace rawURL) with
  | None => estr
  | Some h => if String.eqb h estr then estr else ToLower (TrimPrefix h "www.")
  end.

Definition HostFromSource (source : string) : string :=
  let source := TrimPrefix (ToLower (TrimSpace source)) "webpain:" in
  if String.eqb source estr || String.eqb source "unknown" then estr
  else match Index source "/" with
       | Some (S _ as idx) => stake idx source
       | _ => source
       end.

Definition dropped_page_contact (c : Contact) : bool :=
  if String.eqb (c_Type c) "telegram" then
    IsJunkTelegramHandle (c_Value c) || IsFalseTelegramHandle (c_Value c)
  else if String.eqb (c_Type c) "email" then
    let lower := ToLower (c_Value c) in
    (Contains lower "ingest." && Contains lower "sentry") || IsRoleEmail (c_Value c)
  else if String.eqb (c_Type c) "skype" then isJunkSkypeHandle (c_Value c)
  else false.

Definition filterPageContacts (contacts : list Contact) : list Contact :=
  List.filter (λ c, negb (dropped_page_contact c)) contacts.

Definition hasOnDomainLPR (contacts : list Contact) (siteDomain : string) : bool :=
  hasSiteLPR contacts siteDomain.

Definition pickPrimaryContact (contacts : list Contact) (siteDomain : string) : Contact :=
  pickPrimarySiteContact contacts siteDomain.

Definition PickPageLPR (page : list Contact) (siteDomain : string) : option Contact :=
  let siteDomain := ToLower (TrimSpace siteDomain) in
  let filtered := filterPageContacts page in
  if negb (hasOnDomainLPR filtered siteDomain) then None
  else
    let primary := pickPrimaryContact filtered siteDomain in
    if String.eqb (c_Value primary) estr then None else Some primary.

(** Unlike [tgweb]'s it does not test the family of the source. *)
Definition FilterPipelineContacts (source primaryHint : string) (extracted : list Contact)
    : list Contact :=
  let domain := HostFromSource source in
  if String.eqb domain estr then []
  else
    let filtered := filterPageContacts extracted ++ hint_contact domain primaryHint in
    collapse (pickPrimaryContact filtered domain).
