(* ===== verification/Entity.v ===== *)
(** What the pipeline uses of the entity package ([internal/entity/]:
    telegram_thread.go, cross_source.go, heat.go, forum_identity.go, tags.go,
    classify.go, doc.go, resolver.go): the thread buffer, the heat tiers and the
    boosts they give a lead. The graph itself is in EntityKeys, EntityDoc and
    EntityStore. *)
From S2P Require Import Prelude Unicode GoStrings TextFacts.
From S2P Require Import Registry SourceRep Scoring Extract Item.
From Stdlib Require Import SpecFloat.

Local Open Scope Z_scope.

(** ** Thread buffer ([telegram_thread.go]) *)

Definition DefaultTelegramThreadWindow : Z := 6.

Record ThreadBuffer := { tb_max : Z; tb_buckets : gmap string (list string) }.

Definition NewThreadBuffer (max : Z) : ThreadBuffer := {|
  tb_max := if max <=? 0 then DefaultTelegramThreadWindow else max; tb_buckets := ∅ |}.

Definition thread_key (source author : string) : string :=
  ToLower (TrimSpace source) +:+ "|" +:+ ToLower (TrimSpace author).

(** The last [n] elements. *)
Definition last_n {A} (n : Z) (l : list A) : list A :=
  if n <? Z.of_nat (length l) then drop (Z.to_nat (Z.of_nat (length l) - n)) l else l.

Definition ThreadAdd (b : ThreadBuffer) (source author text : string)
    : list string * ThreadBuffer :=
  let text := TrimSpace text in
  if String.eqb text estr then ([], b)
  else
    let k := thread_key source author in
    let win := last_n (tb_max b) (default [] (tb_buckets b !! k) ++ [text]) in
    (win, {| tb_max := tb_max b; tb_buckets := <[k := win]> (tb_buckets b) |}).

Definition newline_dash : string :=
  String (byte_of 10) ("---" +:+ String (byte_of 10) estr).

Definition BundleThreadMessages (msgs : list string) (max : Z) : string :=
  match msgs with
  | [] => estr
  | _ =>
      let max := if max <=? 0 then DefaultTelegramThreadWindow else max in
      Join (last_n max msgs) newline_dash
  end.

(** ** Records of the recorder ([doc.go], [resolver.go]) *)

Record ResolveInput := {
  ri_CompanyName : string; ri_DisplayName : string; ri_GravatarName : string;
  ri_Source : string; ri_ForumUser : string; ri_ForumUID : string;
  ri_Contacts : list Contact }.

Definition no_resolve : ResolveInput := {|
  ri_CompanyName := estr; ri_DisplayName := estr; ri_GravatarName := estr;
  ri_Source := estr; ri_ForumUser := estr; ri_ForumUID := estr; ri_Contacts := [] |}.

Record SightingInput := {
  si_Resolve : ResolveInput; si_HashID : string; si_Matched : list string;
  si_Stack : list string; si_Text : string; si_Score : Z; si_PostedAt : Time;
  si_SeenAt : Time }.

Record RecordResult := {
  rr_EntityID : string; rr_SightingCount : Z; rr_SourceCount : Z;
  rr_NewSourceFamily : bool; rr_NewEntity : bool; rr_CanonicalHash : string;
  rr_CrossSourceHot : bool; rr_HeatScore : spec_float; rr_HeatTier : string }.

Definition no_result : RecordResult := {|
  rr_EntityID := estr; rr_SightingCount := 0; rr_SourceCount := 0;
  rr_NewSourceFamily := false; rr_NewEntity := false; rr_CanonicalHash := estr;
  rr_CrossSourceHot := false; rr_HeatScore := S754_zero false; rr_HeatTier := estr |}.

(** [EnrichForumIdentity]. *)
Definition EnrichForumIdentity (i : ResolveInput) (username title forumUID : string)
    : ResolveInput := {|
  ri_CompanyName := ri_CompanyName i; ri_DisplayName := ri_DisplayName i;
  ri_GravatarName := ri_GravatarName i; ri_Source := ri_Source i;
  ri_ForumUser := if String.eqb (ri_ForumUser i) estr then TrimSpace username
                  else ri_ForumUser i;
  ri_ForumUID := if String.eqb (ri_ForumUID i) estr then TrimSpace forumUID
                 else ri_ForumUID i;
  ri_Contacts := ri_Contacts i |}.

(** ** Heat ([heat.go], [cross_source.go], [tags.go]) *)

Definition HeatTierBlazing : string := "blazing".
Definition HeatTierHot : string := "hot".
Definition HeatTierWarm : string := "warm".
Definition HeatTierCold : string := "cold".

Definition HeatTierRank (tier : string) : Z :=
  if String.eqb tier HeatTierBlazing then 4
  else if String.eqb tier HeatTierHot then 3
  else if String.eqb tier HeatTierWarm then 2
  else if String.eqb tier HeatTierCold then 1
  else 0.

Record HeatConfig := {
  hc_Enabled : bool;
  BlazingThreshold : spec_float; HotThreshold : spec_float; WarmThreshold : spec_float;
  Decay7D : spec_float; Decay30D : spec_float; Decay90D : spec_float;
  DecayBeyond : spec_float; UnknownDateDecay : spec_float;
  FreshWindow : Duration; CanonicalWindow : Duration;
  HotBoost : Z; BlazingBoost : Z; WarmBoost : Z }.

Definition DefaultCrossSourceBoost : Z := 20.

(** The double nearest to [n / d]. *)
Definition f_ratio (n d : Z) : spec_float := float_div (float_of_int n) (float_of_int d).

Definition defaultFreshWindow : Duration := 14 * 24 * hour.
Definition defaultCanonicalWindow : Duration := 14 * 24 * hour.
Definition defaultDecayBeyond : spec_float := Eval vm_compute in f_ratio 1 10.
Definition defaultUnknownDecayCap : spec_float := Eval vm_compute in f_ratio 1 2.

Definition DefaultHeatConfig : HeatConfig := Eval vm_compute in {|
  hc_Enabled := true;
  BlazingThreshold := float_of_int 80; HotThreshold := float_of_int 50;
  WarmThreshold := float_of_int 25;
  Decay7D := float_of_int 1; Decay30D := f_ratio 6 10; Decay90D := f_ratio 1 4;
  DecayBeyond := defaultDecayBeyond; UnknownDateDecay := defaultUnknownDecayCap;
  FreshWindow := defaultFreshWindow; CanonicalWindow := defaultCanonicalWindow;
  HotBoost := DefaultCrossSourceBoost; BlazingBoost := 30; WarmBoost := 5 |}.

Definition heatBoostForTier (tier : string) (cfg : HeatConfig) : Z :=
  if String.eqb tier HeatTierBlazing then BlazingBoost cfg
  else if String.eqb tier HeatTierHot then HotBoost cfg
  else if String.eqb tier HeatTierWarm then WarmBoost cfg
  else 0.

Definition AppendUniqueTag (tags : list string) (tag : string) : list string :=
  if mem tag tags then tags else tags ++ [tag].

Definition TagCrossSourceHot : string := "cross-source-hot".

Definition ApplyCrossSourceHotBoost (lead : Lead) (reg : option Registry) (boost : Z) : Lead :=
  let boost := if boost <=? 0 then DefaultCrossSourceBoost else boost in
  let score := ld_Score lead + boost in
  let priority := match reg with
                  | Some r => PriorityFromScore r score
                  | None => ld_Priority lead
                  end in
  let priority := match priority with PriorityMedium => PriorityHigh | p => p end in
  set_heat lead priority score (AppendUniqueTag (ld_Tags lead) TagCrossSourceHot).

Definition ApplyEntityHeatToLead (lead : Lead) (result : RecordResult)
    (reg : option Registry) (cfg : HeatConfig) : Lead :=
  let lead := set_entity lead {|
    en_EntityID := en_EntityID (ld_Entity lead);
    en_SightingCount := en_SightingCount (ld_Entity lead);
    en_SourceCount := en_SourceCount (ld_Entity lead);
    en_EntityHeat := rr_HeatScore result; en_HeatTier := rr_HeatTier result |} in
  if String.eqb (rr_HeatTier result) estr then lead
  else if HeatTierRank HeatTierHot <=? HeatTierRank (rr_HeatTier result)
  then ApplyCrossSourceHotBoost lead reg (heatBoostForTier (rr_HeatTier result) cfg)
  else lead.

Definition ShouldTriggerEntityClassify (result : RecordResult) : bool :=
  if String.eqb (rr_EntityID result) estr then false
  else if rr_NewSourceFamily result then true
  else if 2 <=? rr_SightingCount result then true
  else HeatTierRank HeatTierHot <=? HeatTierRank (rr_HeatTier result).
