(* ===== verification/EntityKeys.v ===== *)
(** Identity keys of the entity graph ([internal/entity/]: key.go, normalize.go,
    forum_identity.go, resolver.go): how the fields of a lead become normalised
    keys, their order, and the entity id hashed from the strongest one.

    [html.UnescapeString] is a parameter: its table of named character references
    is data of the Go library. *)
From S2P Require Import Prelude Unicode GoStrings Utf8Facts TextFacts Regex.
From S2P Require Import Matcher Validate Extract FilterSignals FilterGates TgWeb Item Hashes.
From S2P Require Import Entity.

Local Open Scope Z_scope.

Class HtmlLib := { UnescapeString : string → string }.

(** ** Keys ([key.go]) *)

Definition KindCompany : string := "company".
Definition KindDomain : string := "domain".
Definition KindForumUID : string := "forum_uid".
Definition KindForumUser : string := "forum_user".
Definition KindTelegram : string := "telegram".
Definition KindTelegramUserID : string := "telegram_user_id".
Definition KindTelegramChannel : string := "channel".

Record EntityKey := { ek_Kind : string; ek_Value : string }.

#[export] Instance EntityKey_eq_dec : EqDecision EntityKey.
Proof. solve_decision. Defined.

Definition Canonical (k : EntityKey) : string := ek_Kind k +:+ ":" +:+ ek_Value k.

(** A kind that is not in the map reads as 0. *)
Definition keyPriority (kind : string) : Z :=
  if String.eqb kind KindCompany then 0
  else if String.eqb kind KindDomain then 1
  else if String.eqb kind KindForumUID then 2
  else if String.eqb kind KindForumUser then 3
  else if String.eqb kind KindTelegramUserID then 3
  else if String.eqb kind KindTelegram then 4
  else if String.eqb kind KindTelegramChannel then 5
  else 0.

Definition keyLess (a b : EntityKey) : bool :=
  let pa := keyPriority (ek_Kind a) in
  let pb := keyPriority (ek_Kind b) in
  if negb (pa =? pb) then pa <? pb else str_ltb (ek_Value a) (ek_Value b).

Definition blank_key (k : EntityKey) : bool :=
  String.eqb (ek_Kind k) estr || String.eqb (ek_Value k) estr.

Definition dedupeKeys (keys : list EntityKey) : list EntityKey :=
  dedup_on Canonical (List.filter (λ k, negb (blank_key k)) keys).

(** One round of the inner loop: [x] is [keys[i]], the list is [keys[i+1:]]. *)
Fixpoint sweep (x : EntityKey) (l : list EntityKey) : EntityKey * list EntityKey :=
  match l with
  | [] => (x, [])
  | y :: l' =>
      if keyLess y x then let '(m, r) := sweep y l' in (m, x :: r)
      else let '(m, r) := sweep x l' in (m, y :: r)
  end.

Fixpoint sort_from (n : nat) (l : list EntityKey) : list EntityKey :=
  match n, l with
  | S n', x :: l' => let '(m, r) := sweep x l' in m :: sort_from n' r
  | _, _ => l
  end.

Definition sortKeys (keys : list EntityKey) : list EntityKey := sort_from (length keys) keys.

Definition title_token (p : string) : bool :=
  negb (Nat.eqb (slen p) O)
  && match runes p with r :: _ => negb (between 97 122 r) | [] => true end.

Definition IsOrgLikeName (name : string) : bool :=
  let name := TrimSpace name in
  if Nat.ltb (slen name) 3 then false
  else
    let lower := ToLower name in
    if Contains lower "@" then false
    else match Fields name with
         | [p0; p1] =>
             if Nat.leb (slen p0) 12 && Nat.leb (slen p1) 12 then
               negb (title_token p0 && title_token p1
                     && negb (Contains lower "network") && negb (Contains lower "media")
                     && negb (Contains lower "affiliate") && negb (Contains lower "cpa"))
             else true
         | _ => true
         end.

(** ** Normalisation ([normalize.go]) *)

Definition companyNoiseRe : re :=
  MustCompile "(?i)\b(llc|l\.l\.c|ltd|limited|inc|corp|corporation|gmbh|oy|ab|s\.r\.o|srl|pte|co)\b".
Definition companyPipeRe : re := MustCompile "\s*[|/\\]\s*.*$".

Definition freeMailDomains : list string :=
  [ "gmail.com"; "googlemail.com"; "yahoo.com"; "yahoo.co.uk"; "hotmail.com"; "outlook.com";
    "live.com"; "icloud.com"; "protonmail.com"; "proton.me"; "mail.ru"; "yandex.ru";
    "yandex.com"; "bk.ru"; "list.ru"; "inbox.ru"; "me.com"; "aol.com"; "gmx.com"; "gmx.de";
    "web.de"; "mail.com"; "zoho.com"; "fastmail.com"; "tutanota.com"; "hey.com"; "qq.com";
    "163.com" ].

(** The mapping of [strings.Map]; a negative result drops the rune. *)
Definition company_rune (r : N) : option N :=
  if is_letter r || is_digit r then Some r
  else if is_space r then Some 32%N
  else None.

Definition NormalizeCompany (name : string) : string :=
  let name := TrimSpace name in
  if String.eqb name estr then estr
  else
    let name := ToLower name in
    let name := match Index name "|" with
                | Some idx => TrimSpace (stake idx name)
                | None => name
                end in
    let name := ReplaceAllString companyPipeRe name estr in
    let name := ReplaceAllString companyNoiseRe name estr in
    let name := encode (omap company_rune (runes name)) in
    TrimSpace (Join (Fields name) " ").

Definition NormalizeDomain (st : validate_state) (host : string) : string :=
  let host := ToLower (TrimSpace host) in
  let host := TrimPrefix host "www." in
  let host := TrimPrefix host "domain:" in
  if String.eqb host estr || Contains host " " then estr
  else if IsBlacklistedDomain st host then estr
  else if mem host freeMailDomains then estr
  else host.

Definition EmailRootDomain (st : validate_state) (email : string) : string :=
  match Split (ToLower (TrimSpace email)) "@" with
  | [_; domain] => NormalizeDomain st domain
  | _ => estr
  end.

Definition NormalizeTelegram (handle : string) : string :=
  let handle := TrimSpace handle in
  let handle := TrimPrefix (ToLower handle) "telegram:" in
  let handle := TrimPrefix handle "@" in
  let handle := TrimSpace handle in
  if String.eqb handle estr || Nat.ltb (slen handle) 5 then estr else "@" +:+ handle.

Definition TelegramChannelFromSource (source : string) : string :=
  let source := ToLower (TrimSpace source) in
  if negb (HasPrefix source "telegram:") then estr
  else
    let rest := TrimSpace (TrimPrefix (TrimPrefix source "telegram:") "@") in
    if String.eqb rest estr then estr else "@" +:+ rest.

(** ** Source families ([resolver.go]) *)

Definition family_prefixes : list (string * string) :=
  [ ("telegram:", "telegram"); ("tgweb:", "tgweb"); ("reddit:", "reddit");
    ("github:", "github"); ("discord:", "discord"); ("serp:", "serp"); ("lander:", "lander");
    ("warrior:", "warrior"); ("reviews:", "reviews"); ("ads_txt:", "supply");
    ("forum:", "forum") ].

Definition SourceFamily (source : string) : string :=
  let source := ToLower (TrimSpace source) in
  match List.find (λ p, HasPrefix source p.1) family_prefixes with
  | Some p => p.2
  | None => match Index source ":" with
            | Some (S n) => stake (S n) source
            | _ => source
            end
  end.

Definition SupplyDomainFromSource (st : validate_state) (source : string) : string :=
  let source := ToLower (TrimSpace source) in
  if negb (HasPrefix source "ads_txt:") then estr
  else NormalizeDomain st (TrimPrefix source "ads_txt:").

(** ** Forum identities ([forum_identity.go]) *)

Definition skipForumUsernames : list string :=
  [ estr; "anonymous"; "guest"; "unknown"; "deleted"; "[deleted]" ].

Definition NormalizeForumHost (host : string) : string :=
  TrimSuffix (TrimPrefix (ToLower (TrimSpace host)) "www.") ".".

Section forum.
Context `{HtmlLib}.

Definition normalizeForumUserLabel (user : string) : string :=
  let user := UnescapeString (TrimSpace user) in
  let user := TrimPrefix user "@" in
  let user := TrimSpace user in
  let user := ToLower user in
  let user := TrimPrefix user "forum:user/" in
  let user := TrimPrefix user "warrior:user/" in
  if mem user skipForumUsernames then estr
  else if Nat.ltb (slen user) 2 then estr
  else user.

Definition NormalizeForumUser (host user : string) : string :=
  let user := normalizeForumUserLabel user in
  if String.eqb user estr then estr
  else
    let host := NormalizeForumHost host in
    if String.eqb host estr then estr else host +:+ ":" +:+ user.

Definition NormalizeForumUID (host uid : string) : string :=
  let uid := TrimSpace uid in
  if String.eqb uid estr then estr
  else if existsb (λ r, negb (between 48 57 r)) (runes uid) then estr
  else
    let host := NormalizeForumHost host in
    if String.eqb host estr then estr else host +:+ ":" +:+ uid.

Definition ForumHostFromSource (source : string) : string :=
  let source := ToLower (TrimSpace source) in
  if HasPrefix source "forum:" then
    let rest := TrimPrefix source "forum:" in
    NormalizeForumHost (match Index rest "/" with Some idx => stake idx rest | None => rest end)
  else if HasPrefix source "warrior:" then "warriorforum"
  else estr.

Definition isForumIdentitySource (source : string) : bool :=
  let family := SourceFamily source in
  String.eqb family "forum" || String.eqb family "warrior".

Definition forumUserLabel (i : ResolveInput) : string :=
  let u := normalizeForumUserLabel (ri_ForumUser i) in
  if negb (String.eqb u estr) then u else normalizeForumUserLabel (ri_DisplayName i).

(** A key whose value may be empty, in which case there is none. *)
Definition key_if (kind value : string) : list EntityKey :=
  if String.eqb value estr then [] else [{| ek_Kind := kind; ek_Value := value |}].

Definition appendForumIdentityKeys (keys : list EntityKey) (i : ResolveInput) : list EntityKey :=
  if negb (isForumIdentitySource (ri_Source i)) then keys
  else
    let host := ForumHostFromSource (ri_Source i) in
    if String.eqb host estr then keys
    else
      keys ++ key_if KindForumUID (NormalizeForumUID host (ri_ForumUID i))
      ++ (let user := forumUserLabel i in
          if String.eqb user estr then []
          else key_if KindForumUser (NormalizeForumUser host user)).

(** ** Resolution ([resolver.go]) *)

(** The first candidate that looks like an organisation. *)
Fixpoint fallback_company (candidates : list string) : list EntityKey :=
  match candidates with
  | [] => []
  | candidate :: rest =>
      let company := NormalizeCompany candidate in
      if negb (String.eqb company estr) && IsOrgLikeName candidate
      then [{| ek_Kind := KindCompany; ek_Value := company |}]
      else fallback_company rest
  end.

Definition contact_keys (st : validate_state) (c : Contact) : list EntityKey :=
  if String.eqb (c_Type c) "email" then key_if KindDomain (EmailRootDomain st (c_Value c))
  else if String.eqb (c_Type c) "domain" then key_if KindDomain (NormalizeDomain st (c_Value c))
  else if String.eqb (c_Type c) "telegram" then
    key_if KindTelegram (NormalizeTelegram (c_Value c))
  else if String.eqb (c_Type c) "telegram_user_id" then
    key_if KindTelegramUserID (TrimSpace (c_Value c))
  else if String.eqb (c_Type c) "jobboard_company" then
    key_if KindCompany (NormalizeCompany (c_Value c))
  else [].

(** The keys in the order the code appends them. *)
Definition raw_keys (st : validate_state) (i : ResolveInput) : list EntityKey :=
  let keys := key_if KindCompany (NormalizeCompany (ri_CompanyName i)) in
  let keys := keys ++ (if String.eqb (ri_CompanyName i) estr
                       then fallback_company [ri_GravatarName i; ri_DisplayName i] else []) in
  let keys := keys ++ (if IsTelegramSource (ri_Source i)
                       then key_if KindTelegramChannel (TelegramChannelFromSource (ri_Source i))
                       else []) in
  let keys := keys ++ (if IsTgWebSource (ri_Source i)
                       then key_if KindDomain
                              (NormalizeDomain st (SiteDomainFromSource (ri_Source i)))
                       else []) in
  let keys := keys ++ key_if KindDomain (SupplyDomainFromSource st (ri_Source i)) in
  appendForumIdentityKeys keys i ++ (ri_Contacts i ≫= contact_keys st).

Definition ResolveKeys (st : validate_state) (i : ResolveInput) : list EntityKey :=
  sortKeys (dedupeKeys (raw_keys st i)).
End forum.

Definition PrimaryKey (keys : list EntityKey) : option EntityKey := head keys.

Definition entityIDFromPrimary (pk : EntityKey) : string := short_sum (Canonical pk).
Definition entityIDFromPrimaryWithSuffix (pk : EntityKey) (suffix : string) : string :=
  short_sum (Canonical pk +:+ suffix).

Definition EntityID (keys : list EntityKey) : string :=
  match PrimaryKey keys with Some pk => entityIDFromPrimary pk | None => estr end.

Definition EntityIDForSplit (keys : list EntityKey) (hashID sourceEntityID : string) : string :=
  let base := EntityID keys in
  if String.eqb base estr then estr
  else if negb (String.eqb base (TrimSpace sourceEntityID)) then base
  else match PrimaryKey keys with
       | None => base
       | Some pk =>
           let hashID := TrimSpace hashID in
           if String.eqb hashID estr then base
           else entityIDFromPrimaryWithSuffix pk (":split:" +:+ hashID)
       end.

Definition AliasTokens (keys : list EntityKey) : list string := Canonical <$> keys.
