(* ===== verification/EntityKeyFacts.v ===== *)
(** Facts on identity keys: the exchange sort sorts, resolution yields each key
    once, strongest first, and does not depend on the order of the contacts. *)
From S2P Require Import Prelude Unicode GoStrings Utf8Facts TextFacts GoSort Matcher Hashes.
From S2P Require Import Validate Extract FilterGates TgWeb Item Hashes Entity EntityKeys.
From Stdlib Require Import Sorted.
From stdpp Require Import sorting.

Local Open Scope Z_scope.

(** ** The order of keys *)

Lemma keyLess_weak : weak_order keyLess.
Proof.
  split; unfold keyLess; intros *;
    z_cases; cbn [negb]; intros;
    first [done | lia | by apply str_ltb_asym | by eapply str_ltb_trans].
Qed.

Abbreviation not_after := (λ a b, keyLess b a = false) (only parsing).

Lemma not_after_refl k : keyLess k k = false.
Proof. destruct (keyLess k k) eqn:E; [|done]. by rewrite (less_asym _ keyLess_weak _ _ E) in E. Qed.

Lemma sweep_perm x l m r : sweep x l = (m, r) → m :: r ≡ₚ x :: l.
Proof.
  revert x m r. induction l as [|y l IH]; intros x m r H; cbn in H; [by simplify_eq|].
  destruct (keyLess y x).
  - destruct (sweep y l) as [m' r'] eqn:E. simplify_eq. rewrite Permutation_swap.
    apply Permutation_skip. by apply IH.
  - destruct (sweep x l) as [m' r'] eqn:E. simplify_eq. rewrite Permutation_swap.
    rewrite (IH _ _ _ E). apply Permutation_swap.
Qed.

(** The pivot that is left is no later than any element swept. *)
Lemma sweep_least x l m r :
  sweep x l = (m, r) → keyLess x m = false ∧ Forall (λ k, keyLess k m = false) r.
Proof.
  revert x m r. induction l as [|y l IH]; intros x m r H; cbn in H.
  - simplify_eq. split; [apply not_after_refl|constructor].
  - destruct (keyLess y x) eqn:Eyx.
    + destruct (sweep y l) as [m' r'] eqn:E. simplify_eq. destruct (IH _ _ _ E) as [H1 H2].
      assert (keyLess x m = false) as Hx
        by (apply (less_trans _ keyLess_weak m y x); [done|by apply (less_asym _ keyLess_weak)]).
      split; [done|]. by constructor.
    + destruct (sweep x l) as [m' r'] eqn:E. simplify_eq. destruct (IH _ _ _ E) as [H1 H2].
      split; [done|]. constructor; [|done]. by apply (less_trans _ keyLess_weak m x y).
Qed.

Lemma sort_from_perm n l : sort_from n l ≡ₚ l.
Proof.
  revert l. induction n as [|n IH]; intros [|x l]; cbn; try done.
  destruct (sweep x l) as [m r] eqn:E. rewrite IH. by apply sweep_perm.
Qed.

Lemma sort_from_sorted n l :
  (length l ≤ n)%nat → StronglySorted not_after (sort_from n l).
Proof.
  revert l. induction n as [|n IH]; intros [|x l] Hl; cbn;
    [constructor|cbn in Hl; lia|constructor|].
  destruct (sweep x l) as [m r] eqn:E.
  assert (length r = length l) as Hr.
  { apply sweep_perm, Permutation_length in E. cbn in E. lia. }
  constructor; [apply IH; cbn in Hl; lia|].
  rewrite sort_from_perm. by eapply sweep_least.
Qed.

Lemma sortKeys_perm l : sortKeys l ≡ₚ l.
Proof. apply sort_from_perm. Qed.

Lemma sortKeys_sorted l : StronglySorted not_after (sortKeys l).
Proof. by apply sort_from_sorted. Qed.

(** ** Canonical tokens *)

Definition known_kinds : list string :=
  [ KindCompany; KindDomain; KindForumUID; KindForumUser; KindTelegram; KindTelegramUserID;
    KindTelegramChannel ].

Lemma colon_cancel a b s t :
  Contains a ":" = false → Contains b ":" = false →
  a +:+ ":" +:+ s = b +:+ ":" +:+ t → a = b ∧ s = t.
Proof.
  intros Ha Hb E.
  pose proof (Index_app_first ":" a s Ha) as Ia. pose proof (Index_app_first ":" b t Hb) as Ib.
  change (a +:+ String ":" s) with (a +:+ ":" +:+ s) in Ia. rewrite E in Ia.
  change (b +:+ String ":" t) with (b +:+ ":" +:+ t) in Ib.
  assert (slen a = slen b) as Hl by congruence.
  apply app_cancel_len in E as [-> E]; [|done]. by injection E.
Qed.

Lemma known_no_colon kind : kind ∈ known_kinds → Contains kind ":" = false.
Proof. intros H. repeat (apply elem_of_cons in H as [->|H]; [done|]). by apply elem_of_nil in H. Qed.

Lemma known_no_blank kind : kind ∈ known_kinds → kind ≠ estr.
Proof. intros H. repeat (apply elem_of_cons in H as [->|H]; [done|]). by apply elem_of_nil in H. Qed.

Lemma Canonical_inj a b :
  ek_Kind a ∈ known_kinds → ek_Kind b ∈ known_kinds → Canonical a = Canonical b → a = b.
Proof.
  intros Ha Hb E. destruct a as [ka va], b as [kb vb]. unfold Canonical in E. cbn in *.
  by destruct (colon_cancel ka kb va vb) as [-> ->]; [apply known_no_colon..| |].
Qed.

(** ** Resolution *)

Section resolve.
Context `{HtmlLib} (st : validate_state).

(** How a key can arise: of the kinds whose value the order tells apart, of a
    forum user, of a Telegram user id. *)
Definition plain_kinds : list string :=
  [KindCompany; KindDomain; KindForumUID; KindTelegram; KindTelegramChannel].

Inductive key_from (cs : list Contact) : EntityKey → Prop :=
  | from_plain kind value :
      kind ∈ plain_kinds → value ≠ estr →
      key_from cs {| ek_Kind := kind; ek_Value := value |}
  | from_forum host user :
      key_from cs {| ek_Kind := KindForumUser; ek_Value := host +:+ ":" +:+ user |}
  | from_user_id c :
      c ∈ cs → c_Type c = "telegram_user_id" → TrimSpace (c_Value c) ≠ estr →
      key_from cs {| ek_Kind := KindTelegramUserID; ek_Value := TrimSpace (c_Value c) |}.

Lemma plain_elem kind : mem kind plain_kinds = true → kind ∈ plain_kinds.
Proof. intros H0. apply existsb_elem in H0 as (x & Hx & ->%String.eqb_eq). done. Qed.

Lemma key_if_from cs kind value :
  mem kind plain_kinds = true → Forall (key_from cs) (key_if kind value).
Proof.
  intros Hk. unfold key_if. destruct (String.eqb_spec value estr); [constructor|].
  apply Forall_singleton. constructor; [by apply plain_elem|done].
Qed.

Lemma fallback_from cs l : Forall (key_from cs) (fallback_company l).
Proof.
  induction l as [|c l IH]; cbn; [constructor|].
  destruct (String.eqb_spec (NormalizeCompany c) estr); cbn; [done|].
  destruct (IsOrgLikeName c); [|done].
  apply Forall_singleton. constructor; [by apply plain_elem|done].
Qed.

Lemma forum_from cs keys i :
  Forall (key_from cs) keys → Forall (key_from cs) (appendForumIdentityKeys keys i).
Proof.
  intros Hk. unfold appendForumIdentityKeys, NormalizeForumUser.
  destruct (isForumIdentitySource (ri_Source i)); cbn [negb]; [|done].
  cbv zeta. destruct (String.eqb_spec (ForumHostFromSource (ri_Source i)) estr); [done|].
  rewrite !Forall_app. split_and!; [done|by apply key_if_from|].
  repeat match goal with |- context [if ?b then _ else _] => destruct b end;
    unfold key_if; try constructor.
  destruct (String.eqb _ _); [constructor|]. apply Forall_singleton, from_forum.
Qed.

Lemma contact_from cs c : c ∈ cs → Forall (key_from cs) (contact_keys st c).
Proof.
  intros Hc. unfold contact_keys.
  repeat match goal with |- context [String.eqb (c_Type c) ?t] =>
    destruct (String.eqb_spec (c_Type c) t); [try by apply key_if_from|] end.
  - unfold key_if. destruct (String.eqb_spec (TrimSpace (c_Value c)) estr); [constructor|].
    by apply Forall_singleton, from_user_id.
  - constructor.
Qed.

Lemma raw_keys_from i : Forall (key_from (ri_Contacts i)) (raw_keys st i).
Proof.
  unfold raw_keys. rewrite Forall_app. split.
  - apply forum_from. rewrite !Forall_app. split_and!;
      repeat match goal with |- context [if ?b then _ else _] => destruct b end;
      try constructor; try apply fallback_from; by apply key_if_from.
  - apply Forall_bind, Forall_forall. intros c. apply contact_from.
Qed.

Definition well_formed (k : EntityKey) : Prop :=
  ek_Kind k ∈ known_kinds ∧ ek_Value k ≠ estr.

Lemma key_from_wf cs k : key_from cs k → well_formed k.
Proof.
  destruct 1 as [kind value Hk Hv|host user|c _ _ Hv]; split; cbn; try done.
  - unfold plain_kinds, known_kinds in *.
    repeat (apply elem_of_cons in Hk as [->|Hk]; [by repeat constructor|]).
    by apply elem_of_nil in Hk.
  - by repeat constructor.
  - by destruct host.
  - by repeat constructor.
Qed.

Lemma raw_keys_wf i : Forall well_formed (raw_keys st i).
Proof. eapply Forall_impl; [apply raw_keys_from|]. intros k. apply key_from_wf. Qed.

Lemma dedupeKeys_elem keys k :
  Forall well_formed keys → k ∈ dedupeKeys keys ↔ k ∈ keys.
Proof.
  intros Hw. unfold dedupeKeys.
  assert (List.filter (λ k, negb (blank_key k)) keys = keys) as ->.
  { induction Hw as [|x l [Hx1 Hx2] _ IH]; [done|]. cbn.
    assert (blank_key x = false) as ->; [|by rewrite IH].
    unfold blank_key. apply orb_false_iff. split; apply String.eqb_neq; [|done].
    intros E. apply known_no_blank in Hx1. congruence. }
  split; intros Hk.
  - eapply elem_of_sublist; [exact Hk|]. apply dedup_on_sublist.
  - assert (Canonical k ∈ Canonical <$> dedup_on Canonical keys) as Hc
      by (apply dedup_on_key; by apply list_elem_of_fmap_2).
    apply list_elem_of_fmap in Hc as (k' & E & Hk').
    assert (k' ∈ keys) as Hin by (eapply elem_of_sublist; [exact Hk'|apply dedup_on_sublist]).
    rewrite Forall_forall in Hw.
    by rewrite (Canonical_inj k k' (proj1 (Hw _ Hk)) (proj1 (Hw _ Hin)) E).
Qed.

Lemma ResolveKeys_elem i k : k ∈ ResolveKeys st i ↔ k ∈ raw_keys st i.
Proof.
  unfold ResolveKeys. rewrite sortKeys_perm. apply dedupeKeys_elem, raw_keys_wf.
Qed.

Lemma ResolveKeys_NoDup i : NoDup (Canonical <$> ResolveKeys st i).
Proof. unfold ResolveKeys. rewrite sortKeys_perm. apply dedup_on_NoDup. Qed.

(** Telegram user ids are decimal numbers; without a colon they differ from the
    values of forum users. *)
Definition plain_user_ids (cs : list Contact) : Prop :=
  ∀ c, c ∈ cs → c_Type c = "telegram_user_id" → Contains (TrimSpace (c_Value c)) ":" = false.

Lemma has_colon a b : Contains (a +:+ ":" +:+ b) ":" = true.
Proof.
  destruct (Contains (a +:+ ":" +:+ b) ":") eqn:E; [done|].
  apply Contains_app_false in E as [_ E]. change (":" +:+ b) with (String ":" b) in E.
  by rewrite <- E.
Qed.

(** The order tells any two keys of a lead apart. *)
Lemma keyLess_antisymm cs1 cs2 a b :
  plain_user_ids cs1 → plain_user_ids cs2 → key_from cs1 a → key_from cs2 b →
  keyLess a b = false → keyLess b a = false → a = b.
Proof.
  intros Hp1 Hp2 Ha Hb H1 H2. unfold keyLess in H1, H2.
  rewrite (Z.eqb_sym (keyPriority (ek_Kind b))) in H2.
  destruct (Z.eqb_spec (keyPriority (ek_Kind a)) (keyPriority (ek_Kind b))) as [E|E];
    cbn [negb] in *; [|apply Z.ltb_ge in H1, H2; lia].
  pose proof (str_ltb_antisymm _ _ H2 H1) as Ev. clear H1 H2.
  destruct Ha as [ka va Hka _|h1 u1|c1 Hc1 Ht1 _], Hb as [kb vb Hkb _|h2 u2|c2 Hc2 Ht2 _];
    cbn [ek_Kind ek_Value] in *; subst; try done.
  - f_equal. unfold plain_kinds in *.
    repeat (apply elem_of_cons in Hka as [->|Hka];
      [repeat (apply elem_of_cons in Hkb as [->|Hkb]; [done|]); by apply elem_of_nil in Hkb|]).
    by apply elem_of_nil in Hka.
  - unfold plain_kinds in *.
    repeat (apply elem_of_cons in Hka as [->|Hka]; [done|]). by apply elem_of_nil in Hka.
  - unfold plain_kinds in *.
    repeat (apply elem_of_cons in Hka as [->|Hka]; [done|]). by apply elem_of_nil in Hka.
  - unfold plain_kinds in *.
    repeat (apply elem_of_cons in Hkb as [->|Hkb]; [done|]). by apply elem_of_nil in Hkb.
  - by rewrite Ev.
  - specialize (Hp2 c2 Hc2 Ht2). by rewrite <- Ev, has_colon in Hp2.
  - unfold plain_kinds in *.
    repeat (apply elem_of_cons in Hkb as [->|Hkb]; [done|]). by apply elem_of_nil in Hkb.
  - specialize (Hp1 c1 Hc1 Ht1). by rewrite Ev, has_colon in Hp1.
  - by rewrite Ev.
Qed.

Definition with_contacts (i : ResolveInput) (cs : list Contact) : ResolveInput := {|
  ri_CompanyName := ri_CompanyName i; ri_DisplayName := ri_DisplayName i;
  ri_GravatarName := ri_GravatarName i; ri_Source := ri_Source i;
  ri_ForumUser := ri_ForumUser i; ri_ForumUID := ri_ForumUID i; ri_Contacts := cs |}.

Lemma raw_keys_contacts i cs1 cs2 k :
  (∀ c, c ∈ cs1 → c ∈ cs2) →
  k ∈ raw_keys st (with_contacts i cs1) → k ∈ raw_keys st (with_contacts i cs2).
Proof.
  intros Hc. unfold raw_keys. rewrite !elem_of_app, !list_elem_of_bind.
  cbn [ri_CompanyName ri_DisplayName ri_GravatarName ri_Source ri_ForumUser ri_ForumUID
       ri_Contacts with_contacts]. unfold appendForumIdentityKeys, forumUserLabel. cbn.
  naive_solver.
Qed.

Lemma ResolveKeys_perm i cs1 cs2 :
  (∀ c, c ∈ cs1 ↔ c ∈ cs2) →
  ResolveKeys st (with_contacts i cs1) ≡ₚ ResolveKeys st (with_contacts i cs2).
Proof.
  intros Hc. apply NoDup_Permutation.
  - eapply NoDup_fmap_1, ResolveKeys_NoDup.
  - eapply NoDup_fmap_1, ResolveKeys_NoDup.
  - intros k. rewrite !ResolveKeys_elem.
    split; apply raw_keys_contacts; intros c Hin; by apply Hc.
Qed.

Lemma ResolveKeys_from i k : k ∈ ResolveKeys st i → key_from (ri_Contacts i) k.
Proof.
  rewrite ResolveKeys_elem. pose proof (raw_keys_from i) as Hf. rewrite Forall_forall in Hf.
  apply Hf.
Qed.

(** C32. The identity of a lead does not depend on the order, nor on the repetition,
    of its contacts: the keys come out as the same list, so the aliases and the
    entity id hashed from the strongest key are the same.  (The exchange sort is
    not stable, but no two keys of a lead are equal to it.) *)
Theorem ResolveKeys_order_independent i cs1 cs2 :
  plain_user_ids cs1 → (∀ c, c ∈ cs1 ↔ c ∈ cs2) →
  ResolveKeys st (with_contacts i cs1) = ResolveKeys st (with_contacts i cs2)
  ∧ EntityID (ResolveKeys st (with_contacts i cs1))
    = EntityID (ResolveKeys st (with_contacts i cs2)).
Proof.
  intros Hp Hc.
  assert (ResolveKeys st (with_contacts i cs1) = ResolveKeys st (with_contacts i cs2)) as E.
  { apply (StronglySorted_unique_strong not_after).
    - intros a b Ha Hb H1 H2. apply (keyLess_antisymm cs1 cs2);
        [done| |exact (ResolveKeys_from _ _ Ha)|exact (ResolveKeys_from _ _ Hb)|done|done].
      intros c Hin. apply Hp. by apply Hc.
    - apply sortKeys_sorted.
    - apply sortKeys_sorted.
    - by apply ResolveKeys_perm. }
  split; [done|by rewrite E].
Qed.

(** Resolution yields each identity once, with its own token, strongest first:
    the keys are those the fields of the lead give, no two have the same canonical
    token, and none is preceded by a weaker one. *)
Theorem ResolveKeys_canonical i :
  (∀ k, k ∈ ResolveKeys st i ↔ k ∈ raw_keys st i)
  ∧ NoDup (AliasTokens (ResolveKeys st i))
  ∧ StronglySorted (λ a b, keyLess b a = false) (ResolveKeys st i)
  ∧ Forall well_formed (ResolveKeys st i).
Proof.
  split_and!.
  - apply ResolveKeys_elem.
  - apply ResolveKeys_NoDup.
  - apply sortKeys_sorted.
  - apply Forall_forall. intros k Hk. eapply key_from_wf, ResolveKeys_from, Hk.
Qed.
End resolve.

Module KeyWitnesses.

Definition plain_html : HtmlLib := {| UnescapeString := λ s, s |}.

Definition lead_with (cs : list Contact) : ResolveInput :=
  with_contacts {| ri_CompanyName := estr; ri_DisplayName := "bob";
    ri_GravatarName := estr; ri_Source := "forum:affiliatefix.com/thread"; ri_ForumUser := estr;
    ri_ForumUID := estr; ri_Contacts := [] |} cs.

Example ResolveKeys_order_independent_witness :
  length (@ResolveKeys plain_html initial_state
    (lead_with [MkContact "telegram_user_id" "42"; MkContact "email" "a@acme.io"])) = 4%nat
  ∧ EntityID (@ResolveKeys plain_html initial_state
      (lead_with [MkContact "telegram_user_id" "42"; MkContact "email" "a@acme.io"]))
    = EntityID (@ResolveKeys plain_html initial_state
        (lead_with [MkContact "email" "a@acme.io"; MkContact "telegram_user_id" "42"])).
Proof.
  split; [vm_compute; done|].
  apply (@ResolveKeys_order_independent plain_html initial_state (lead_with [])).
  - intros c Hc _. repeat (apply elem_of_cons in Hc as [->|Hc]; [vm_compute; done|]).
    by apply elem_of_nil in Hc.
  - intros c. rewrite !elem_of_cons. naive_solver.
Defined.
End KeyWitnesses.
