(* ===== verification/EntityDoc.v ===== *)
(** The document of an entity ([internal/entity/]: doc.go, sighting.go, merge.go,
    heat.go, heat_config.go, cross_source.go): its timeline of sightings, the
    aggregates a sighting adds to, and its heat.

    [now] is the reading of the clock an operation takes; the readings a single
    call of the code takes one after the other are one instant here.  [UTC] changes
    the presentation of an instant only. *)
From S2P Require Import Prelude Unicode GoStrings Utf8Facts TextFacts GoSort.
From S2P Require Import Matcher Validate SourceRep Scoring Hashes Entity EntityKeys.
From Stdlib Require Import SpecFloat.

Local Open Scope Z_scope.

(** ** Data ([doc.go], [sighting.go])

    The fields of [EntityDoc] are grouped by the part of the package that keeps
    them. *)

Record EntitySighting := {
  sg_HashID : string; sg_Source : string; sg_Family : string; sg_PostedAt : Time;
  sg_SeenAt : Time; sg_Matched : list string; sg_Snippet : string; sg_Score : Z }.

Record ReviewSuggestion := {
  rs_PeerEntityID : string; rs_SharedDomain : string; rs_Action : string; rs_Why : string;
  rs_Status : string; rs_TS : Time }.

Record Aggregates := {
  ag_HashIDs : list string; ag_Sources : list string; ag_SourceFamilies : list string;
  ag_Matched : list string; ag_Stack : list string; ag_SightingCount : Z; ag_SourceCount : Z;
  ag_PainHits : Z; ag_BuyerRoleSeen : bool; ag_CanonicalHash : string }.

Record Timeline := { tl_Sightings : list EntitySighting; tl_FirstSeen : Time; tl_LastSeen : Time }.

Record Heat := {
  ht_HeatScore : spec_float; ht_HeatScoreRound : Z; ht_HeatTier : string;
  ht_LastHeatAt : Time; ht_FreshSightingAt : Time }.

Record Review := {
  rv_UnifiedPain : string; rv_ActorConfidence : spec_float; rv_BuyerIntent : string;
  rv_NeedsReview : bool; rv_EntityClassifiedAt : Time; rv_SemanticCluster : string;
  rv_ClassifyForce : bool; rv_ReviewSuggestions : list ReviewSuggestion }.

Record EntityDoc := {
  ed_EntityID : string; ed_PrimaryKind : string; ed_PrimaryValue : string;
  ed_AliasKeys : list string; ed_Agg : Aggregates; ed_Time : Timeline; ed_Heat : Heat;
  ed_Review : Review; ed_MergeGeneration : Z }.

Definition no_heat : Heat := {|
  ht_HeatScore := S754_zero false; ht_HeatScoreRound := 0; ht_HeatTier := estr;
  ht_LastHeatAt := zero_time; ht_FreshSightingAt := zero_time |}.

Definition no_review : Review := {|
  rv_UnifiedPain := estr; rv_ActorConfidence := S754_zero false; rv_BuyerIntent := estr;
  rv_NeedsReview := false; rv_EntityClassifiedAt := zero_time; rv_SemanticCluster := estr;
  rv_ClassifyForce := false; rv_ReviewSuggestions := [] |}.

(** Assignments to the fields of one group. *)
Definition set_agg (d : EntityDoc) (a : Aggregates) : EntityDoc := {|
  ed_EntityID := ed_EntityID d; ed_PrimaryKind := ed_PrimaryKind d;
  ed_PrimaryValue := ed_PrimaryValue d; ed_AliasKeys := ed_AliasKeys d; ed_Agg := a;
  ed_Time := ed_Time d; ed_Heat := ed_Heat d; ed_Review := ed_Review d;
  ed_MergeGeneration := ed_MergeGeneration d |}.

Definition set_time (d : EntityDoc) (t : Timeline) : EntityDoc := {|
  ed_EntityID := ed_EntityID d; ed_PrimaryKind := ed_PrimaryKind d;
  ed_PrimaryValue := ed_PrimaryValue d; ed_AliasKeys := ed_AliasKeys d; ed_Agg := ed_Agg d;
  ed_Time := t; ed_Heat := ed_Heat d; ed_Review := ed_Review d;
  ed_MergeGeneration := ed_MergeGeneration d |}.

Definition set_doc_heat (d : EntityDoc) (h : Heat) : EntityDoc := {|
  ed_EntityID := ed_EntityID d; ed_PrimaryKind := ed_PrimaryKind d;
  ed_PrimaryValue := ed_PrimaryValue d; ed_AliasKeys := ed_AliasKeys d; ed_Agg := ed_Agg d;
  ed_Time := ed_Time d; ed_Heat := h; ed_Review := ed_Review d;
  ed_MergeGeneration := ed_MergeGeneration d |}.

Definition set_review (d : EntityDoc) (r : Review) : EntityDoc := {|
  ed_EntityID := ed_EntityID d; ed_PrimaryKind := ed_PrimaryKind d;
  ed_PrimaryValue := ed_PrimaryValue d; ed_AliasKeys := ed_AliasKeys d; ed_Agg := ed_Agg d;
  ed_Time := ed_Time d; ed_Heat := ed_Heat d; ed_Review := r;
  ed_MergeGeneration := ed_MergeGeneration d |}.

Definition set_canonical (a : Aggregates) (hash : string) : Aggregates := {|
  ag_HashIDs := ag_HashIDs a; ag_Sources := ag_Sources a;
  ag_SourceFamilies := ag_SourceFamilies a; ag_Matched := ag_Matched a;
  ag_Stack := ag_Stack a; ag_SightingCount := ag_SightingCount a;
  ag_SourceCount := ag_SourceCount a; ag_PainHits := ag_PainHits a;
  ag_BuyerRoleSeen := ag_BuyerRoleSeen a; ag_CanonicalHash := hash |}.

(** [doc.MergeGeneration++] *)
Definition next_generation (d : EntityDoc) : EntityDoc := {|
  ed_EntityID := ed_EntityID d; ed_PrimaryKind := ed_PrimaryKind d;
  ed_PrimaryValue := ed_PrimaryValue d; ed_AliasKeys := ed_AliasKeys d; ed_Agg := ed_Agg d;
  ed_Time := ed_Time d; ed_Heat := ed_Heat d; ed_Review := ed_Review d;
  ed_MergeGeneration := ed_MergeGeneration d + 1 |}.

(** ** Lists of strings ([merge.go]) *)

Definition containsString (l : list string) (v : string) : bool := mem v l.

Definition uniqStrings (l : list string) : list string :=
  dedup_on id (List.filter (λ v, negb (String.eqb v estr)) (TrimSpace <$> l)).

Definition unionStrings (base add : list string) : list string :=
  match add with [] => base | _ => uniqStrings (base ++ add) end.

(** ** Timeline ([sighting.go]) *)

Definition MaxEntitySightings : nat := 20.
Definition maxSightingSnippet : nat := 500.

Section timeline.
Context `{Sorter} (now : Time).

Definition sightingEventTime (i : SightingInput) : Time :=
  if negb (is_zero_time (si_PostedAt i)) then si_PostedAt i
  else if negb (is_zero_time (si_SeenAt i)) then si_SeenAt i
  else now.

Definition sightingSeenAt (i : SightingInput) : Time :=
  if negb (is_zero_time (si_SeenAt i)) then si_SeenAt i else now.

Definition truncateSightingSnippet (text : string) : string :=
  let text := TrimSpace text in
  if String.eqb text estr then estr
  else if Nat.leb (slen text) maxSightingSnippet then text
  else stake maxSightingSnippet text.

Definition si_Source (i : SightingInput) : string := ri_Source (si_Resolve i).

Definition buildEntitySighting (i : SightingInput) : EntitySighting := {|
  sg_HashID := TrimSpace (si_HashID i); sg_Source := TrimSpace (si_Source i);
  sg_Family := SourceFamily (si_Source i); sg_PostedAt := si_PostedAt i;
  sg_SeenAt := sightingSeenAt i; sg_Matched := uniqStrings (si_Matched i);
  sg_Snippet := truncateSightingSnippet (si_Text i); sg_Score := si_Score i |}.

Definition sightingEventTimeOf (s : EntitySighting) : Time :=
  if negb (is_zero_time (sg_PostedAt s)) then sg_PostedAt s
  else if negb (is_zero_time (sg_SeenAt s)) then sg_SeenAt s
  else zero_time.

(** The [less] function of the timeline: newest first, then by hash. *)
Definition newer (x y : EntitySighting) : bool :=
  let ti := sightingEventTimeOf x in
  let tj := sightingEventTimeOf y in
  if ti =? tj then str_ltb (sg_HashID y) (sg_HashID x) else time_after ti tj.

Definition trimEntitySightings (l : list EntitySighting) : list EntitySighting :=
  if Nat.leb (length l) MaxEntitySightings then l
  else take MaxEntitySightings (sort_slice newer l).

Definition refresh_row (i : SightingInput) (s : EntitySighting) : EntitySighting := {|
  sg_HashID := sg_HashID s; sg_Source := sg_Source s; sg_Family := sg_Family s;
  sg_PostedAt := if negb (is_zero_time (si_PostedAt i)) then si_PostedAt i else sg_PostedAt s;
  sg_SeenAt := sightingSeenAt i;
  sg_Matched := if is_empty (si_Matched i) then sg_Matched s else uniqStrings (si_Matched i);
  sg_Snippet := if String.eqb (TrimSpace (si_Text i)) estr then sg_Snippet s
                else truncateSightingSnippet (si_Text i);
  sg_Score := if 0 <? si_Score i then si_Score i else sg_Score s |}.

(** The loop over the rows: the first one with this hash is refreshed. *)
Fixpoint refresh_first (hashID : string) (i : SightingInput) (l : list EntitySighting)
    : option (list EntitySighting) :=
  match l with
  | [] => None
  | s :: l' =>
      if String.eqb (sg_HashID s) hashID then Some (refresh_row i s :: l')
      else cons s <$> refresh_first hashID i l'
  end.

Definition appendOrRefreshEntitySighting (i : SightingInput) (l : list EntitySighting)
    : list EntitySighting :=
  let hashID := TrimSpace (si_HashID i) in
  if String.eqb hashID estr then l
  else match refresh_first hashID i l with
       | Some l' => trimEntitySightings l'
       | None => trimEntitySightings (l ++ [buildEntitySighting i])
       end.

Definition updateEntitySeenBounds (i : SightingInput) (t : Timeline) : Timeline :=
  let event := sightingEventTime i in
  {| tl_Sightings := tl_Sightings t;
     tl_FirstSeen := if is_zero_time (tl_FirstSeen t) || time_before event (tl_FirstSeen t)
                     then event else tl_FirstSeen t;
     tl_LastSeen := if time_after event (tl_LastSeen t) then event else tl_LastSeen t |}.

(** [PatchSightingTimeline]. *)
Definition PatchSightingTimeline (d : EntityDoc) (i : SightingInput) : EntityDoc :=
  set_time d (updateEntitySeenBounds i {|
    tl_Sightings := appendOrRefreshEntitySighting i (tl_Sightings (ed_Time d));
    tl_FirstSeen := tl_FirstSeen (ed_Time d); tl_LastSeen := tl_LastSeen (ed_Time d) |}).
End timeline.

Definition EntityHashKnown (d : EntityDoc) (hashID : string) : bool :=
  let hashID := TrimSpace hashID in
  if String.eqb hashID estr then false else containsString (ag_HashIDs (ed_Agg d)) hashID.

(** ** Heat ([heat.go]) *)

Definition float_add (x y : spec_float) : spec_float := SFadd 53 1024 x y.
Definition float_mul (x y : spec_float) : spec_float := SFmul 53 1024 x y.
Definition float_le (x y : spec_float) : bool := SFleb x y.
Definition f_0 : spec_float := S754_zero false.

Definition f_1 : spec_float := Eval vm_compute in float_of_int 1.
Definition f_1_2 : spec_float := Eval vm_compute in f_ratio 12 10.
Definition f_1_3 : spec_float := Eval vm_compute in f_ratio 13 10.
Definition f_1_5 : spec_float := Eval vm_compute in f_ratio 15 10.
Definition f_50 : spec_float := Eval vm_compute in float_of_int 50.

(** [int(math.Round(score))] of a finite score: half away from zero. *)
Definition RoundHeatScore (score : spec_float) : Z :=
  match score with
  | S754_finite s m e =>
      let v := if 0 <=? e then Z.pos m * 2 ^ e
               else (Z.pos m + 2 ^ (- e - 1)) / 2 ^ (- e) in
      if s then - v else v
  | _ => 0
  end.

Definition DisplayHeatScore (d : EntityDoc) : Z :=
  if 0 <? ht_HeatScoreRound (ed_Heat d) then ht_HeatScoreRound (ed_Heat d)
  else if float_lt f_0 (ht_HeatScore (ed_Heat d)) then RoundHeatScore (ht_HeatScore (ed_Heat d))
  else 0.

Definition or_float (x def : spec_float) : spec_float := if float_le x f_0 then def else x.
Definition or_int (x def : Z) : Z := if x <=? 0 then def else x.

Definition normalizeHeatConfig (cfg : HeatConfig) : HeatConfig :=
  let def := DefaultHeatConfig in {|
  hc_Enabled := hc_Enabled cfg;
  BlazingThreshold := or_float (BlazingThreshold cfg) (BlazingThreshold def);
  HotThreshold := or_float (HotThreshold cfg) (HotThreshold def);
  WarmThreshold := or_float (WarmThreshold cfg) (WarmThreshold def);
  Decay7D := or_float (Decay7D cfg) (Decay7D def);
  Decay30D := or_float (Decay30D cfg) (Decay30D def);
  Decay90D := or_float (Decay90D cfg) (Decay90D def);
  DecayBeyond := or_float (DecayBeyond cfg) (DecayBeyond def);
  UnknownDateDecay := or_float (UnknownDateDecay cfg) (UnknownDateDecay def);
  FreshWindow := or_int (FreshWindow cfg) (FreshWindow def);
  CanonicalWindow := or_int (CanonicalWindow cfg) (CanonicalWindow def);
  HotBoost := or_int (HotBoost cfg) (HotBoost def);
  BlazingBoost := or_int (BlazingBoost cfg) (BlazingBoost def);
  WarmBoost := or_int (WarmBoost cfg) (WarmBoost def) |}.

(** [HeatConfigFromThresholds] ([heat_config.go]). *)
Definition HeatConfigFromThresholds (enabled : bool)
    (blazing hot warm decay7D decay30D decay90D : spec_float) : HeatConfig := {|
  hc_Enabled := enabled; BlazingThreshold := blazing; HotThreshold := hot;
  WarmThreshold := warm; Decay7D := decay7D; Decay30D := decay30D; Decay90D := decay90D;
  DecayBeyond := f_0; UnknownDateDecay := f_0; FreshWindow := 0; CanonicalWindow := 0;
  HotBoost := 0; BlazingBoost := 0; WarmBoost := 0 |}.

Definition painWeight (s : EntitySighting) : spec_float :=
  let base := float_of_int (sg_Score s) in
  let base := if float_le base f_0 && negb (is_empty (sg_Matched s))
              then float_of_int 30 else base in
  if float_le base f_0 then f_0
  else
    let base := if float_lt f_50 base then f_50 else base in
    if is_empty (sg_Matched s) then base
    else
      let base := float_mul base f_1_2 in
      if float_lt f_50 base then f_50 else base.

(** The age of a sighting and whether its date is unknown. *)
Definition sightingAge (s : EntitySighting) (now : Time) : Duration * bool :=
  if negb (is_zero_time (sg_PostedAt s)) then (Z.max 0 (time_sub now (sg_PostedAt s)), false)
  else if negb (is_zero_time (sg_SeenAt s)) then (Z.max 0 (time_sub now (sg_SeenAt s)), true)
  else (0, true).

Definition days (n : Z) : Duration := n * 24 * hour.

Definition recencyDecay (age : Duration) (unknownDate : bool) (cfg : HeatConfig) : spec_float :=
  let d := if age <=? days 7 then Decay7D cfg
           else if age <=? days 30 then Decay30D cfg
           else if age <=? days 90 then Decay90D cfg
           else DecayBeyond cfg in
  if unknownDate && float_lt (UnknownDateDecay cfg) d then UnknownDateDecay cfg else d.

Definition sightingWeight (s : EntitySighting) (cfg : HeatConfig) (now : Time) : spec_float :=
  let pw := painWeight s in
  if float_le pw f_0 then f_0
  else let '(age, unknown) := sightingAge s now in float_mul pw (recencyDecay age unknown cfg).

Definition sightingHasPain (s : EntitySighting) : bool :=
  negb (is_empty (sg_Matched s)) || (15 <=? sg_Score s).

(** Whether an event is known and not before the cutoff. *)
Definition recent (s : EntitySighting) (cutoff : Time) : bool :=
  let event := sightingEventTimeOf s in
  negb (is_zero_time event || time_before event cutoff).

(** The family a sighting counts for. *)
Definition family_of (s : EntitySighting) : string :=
  if String.eqb (sg_Family s) estr then SourceFamily (sg_Source s) else sg_Family s.

Definition pain_families (sightings : list EntitySighting) (now : Time) : gset string :=
  let cutoff := time_add now (- days 30) in
  list_to_set (List.filter (λ f, negb (String.eqb f estr))
    (family_of <$> List.filter (λ s, sightingHasPain s && recent s cutoff) sightings)).

Definition diversityBonus (sightings : list EntitySighting) (now : Time) : spec_float :=
  match size (pain_families sightings now) with
  | O | 1%nat => f_1
  | 2%nat => f_1_3
  | _ => f_1_5
  end.

Definition computeFreshSightingAt (sightings : list EntitySighting) (now : Time)
    (window : Duration) : Time :=
  let window := if window <=? 0 then defaultFreshWindow else window in
  let cutoff := time_add now (- window) in
  foldl (λ fresh s,
    if recent s cutoff && time_after (sightingEventTimeOf s) fresh
    then sightingEventTimeOf s else fresh) zero_time sightings.

Definition classifyHeatTier (score : spec_float) (fresh : Time) (a : Aggregates)
    (cfg : HeatConfig) : string :=
  let strong := negb (is_zero_time fresh) && (2 <=? ag_SourceCount a) && (1 <=? ag_PainHits a) in
  if float_ge score (BlazingThreshold cfg) && strong then HeatTierBlazing
  else if float_ge score (HotThreshold cfg) && strong then HeatTierHot
  else if float_ge score (WarmThreshold cfg) then HeatTierWarm
  else HeatTierCold.

Definition f_minus_1 : spec_float := Eval vm_compute in float_of_int (-1).

Definition best_sighting (sightings : list EntitySighting) (cfg : HeatConfig) (now : Time)
    : string * spec_float :=
  let cutoff := time_add now (- CanonicalWindow cfg) in
  foldl (λ '(bestHash, bestWeight) s,
    if recent s cutoff && float_lt bestWeight (sightingWeight s cfg now)
    then (sg_HashID s, sightingWeight s cfg now) else (bestHash, bestWeight))
    (estr, f_minus_1) sightings.

Definition promoteCanonicalByHeat (d : EntityDoc) (cfg : HeatConfig) (now : Time) : EntityDoc :=
  let bestHash := (best_sighting (tl_Sightings (ed_Time d)) cfg now).1 in
  if String.eqb bestHash estr then d else set_agg d (set_canonical (ed_Agg d) bestHash).

Definition heat_sum (sightings : list EntitySighting) (cfg : HeatConfig) (now : Time)
    : spec_float :=
  foldl (λ sum s, float_add sum (sightingWeight s cfg now)) f_0 sightings.

(** [now] is not the zero time: the callers pass the clock. *)
Definition RecomputeEntityHeat (d : EntityDoc) (cfg : HeatConfig) (now : Time) : EntityDoc :=
  if negb (hc_Enabled cfg) then d
  else
    let cfg := normalizeHeatConfig cfg in
    let rows := tl_Sightings (ed_Time d) in
    let fresh := computeFreshSightingAt rows now (FreshWindow cfg) in
    let score := float_mul (heat_sum rows cfg now) (diversityBonus rows now) in
    promoteCanonicalByHeat (set_doc_heat d {|
      ht_HeatScore := score; ht_HeatScoreRound := RoundHeatScore score;
      ht_HeatTier := classifyHeatTier score fresh (ed_Agg d) cfg;
      ht_LastHeatAt := now; ht_FreshSightingAt := fresh |}) cfg now.

Definition HeatTierMeetsMin (tier minTier : string) : bool :=
  let minTier := ToLower (TrimSpace minTier) in
  if String.eqb minTier estr || String.eqb minTier HeatTierCold then true
  else
    let tier := ToLower (TrimSpace tier) in
    let tier := if String.eqb tier estr then HeatTierCold else tier in
    HeatTierRank minTier <=? HeatTierRank tier.

Definition HeatTiersAtOrAbove (minTier : string) : list string :=
  let minRank := HeatTierRank (ToLower (TrimSpace minTier)) in
  if minRank <=? HeatTierRank HeatTierCold then []
  else List.filter (λ tier, minRank <=? HeatTierRank tier)
         [HeatTierCold; HeatTierWarm; HeatTierHot; HeatTierBlazing].

(** ** Cross-source signal ([cross_source.go]) *)

Definition DefaultCrossSourceWindow : Duration := days 7.
Definition MinCrossSourceSourceCount : Z := 2.

Definition CrossSourceHot (d : EntityDoc) (window : Duration) : bool :=
  if negb (String.eqb (ht_HeatTier (ed_Heat d)) estr)
  then HeatTierRank HeatTierHot <=? HeatTierRank (ht_HeatTier (ed_Heat d))
  else if ag_SourceCount (ed_Agg d) <? MinCrossSourceSourceCount then false
  else if ag_PainHits (ed_Agg d) <? 1 then false
  else if is_zero_time (tl_FirstSeen (ed_Time d)) || is_zero_time (tl_LastSeen (ed_Time d))
  then false
  else
    let window := if window <=? 0 then DefaultCrossSourceWindow else window in
    time_sub (tl_LastSeen (ed_Time d)) (tl_FirstSeen (ed_Time d)) <=? window.

Definition EnrichRecordResult (r : RecordResult) (d : EntityDoc) (window : Duration)
    : RecordResult := {|
  rr_EntityID := rr_EntityID r; rr_SightingCount := rr_SightingCount r;
  rr_SourceCount := rr_SourceCount r; rr_NewSourceFamily := rr_NewSourceFamily r;
  rr_NewEntity := rr_NewEntity r; rr_CanonicalHash := ag_CanonicalHash (ed_Agg d);
  rr_CrossSourceHot := CrossSourceHot d window; rr_HeatScore := ht_HeatScore (ed_Heat d);
  rr_HeatTier := ht_HeatTier (ed_Heat d) |}.

(** ** Merging a sighting ([merge.go]) *)

Definition sightingSignals (stack : list string) (text : string) (matched : list string)
    : bool * bool :=
  (negb (is_empty matched) || HasPainContext text,
   mem "pilot-buyer-role" (PilotQualified estr stack text).2).

Definition counted (d : EntityDoc) (newFamily : bool) : RecordResult := {|
  rr_EntityID := ed_EntityID d; rr_SightingCount := ag_SightingCount (ed_Agg d);
  rr_SourceCount := ag_SourceCount (ed_Agg d); rr_NewSourceFamily := newFamily;
  rr_NewEntity := false; rr_CanonicalHash := estr; rr_CrossSourceHot := false;
  rr_HeatScore := f_0; rr_HeatTier := estr |}.

Section merge.
Context `{Sorter} (now : Time).

Definition NewDocWithHeat (entityID : string) (pk : EntityKey) (keys : list EntityKey)
    (i : SightingInput) (heat : HeatConfig) : EntityDoc :=
  let '(hasPain, buyerRole) := sightingSignals (si_Stack i) (si_Text i) (si_Matched i) in
  let doc := {|
    ed_EntityID := entityID; ed_PrimaryKind := ek_Kind pk; ed_PrimaryValue := ek_Value pk;
    ed_AliasKeys := AliasTokens keys;
    ed_Agg := {|
      ag_HashIDs := uniqStrings [TrimSpace (si_HashID i)];
      ag_Sources := uniqStrings [TrimSpace (si_Source i)];
      ag_SourceFamilies := uniqStrings [SourceFamily (si_Source i)];
      ag_Matched := uniqStrings (si_Matched i); ag_Stack := uniqStrings (si_Stack i);
      ag_SightingCount := 1; ag_SourceCount := 1; ag_PainHits := if hasPain then 1 else 0;
      ag_BuyerRoleSeen := buyerRole; ag_CanonicalHash := TrimSpace (si_HashID i) |};
    ed_Time := {| tl_Sightings := []; tl_FirstSeen := zero_time; tl_LastSeen := zero_time |};
    ed_Heat := no_heat; ed_Review := no_review; ed_MergeGeneration := 0 |} in
  RecomputeEntityHeat (PatchSightingTimeline now doc i) heat now.

(** [refreshEntitySightingWithHeat]; [refreshEntitySighting] calls it with the
    default configuration. *)
Definition refreshEntitySightingWithHeat (d : EntityDoc) (i : SightingInput) (heat : HeatConfig)
    : EntityDoc * RecordResult :=
  let d := RecomputeEntityHeat (PatchSightingTimeline now (next_generation d) i) heat now in
  (d, counted d false).

Definition refreshEntitySighting (d : EntityDoc) (i : SightingInput) : EntityDoc * RecordResult :=
  refreshEntitySightingWithHeat d i DefaultHeatConfig.

(** The aggregates after one more sighting, and whether its family is new. *)
Definition add_sighting (a : Aggregates) (i : SightingInput) : Aggregates * bool :=
  let hashID := TrimSpace (si_HashID i) in
  let '(hasPain, buyerRole) := sightingSignals (si_Stack i) (si_Text i) (si_Matched i) in
  let family := SourceFamily (si_Source i) in
  let newFamily := negb (String.eqb family estr)
                   && negb (containsString (ag_SourceFamilies a) family) in
  let families := if newFamily then unionStrings (ag_SourceFamilies a) [family]
                  else ag_SourceFamilies a in
  ({| ag_HashIDs := unionStrings (ag_HashIDs a) [hashID];
      ag_Sources := unionStrings (ag_Sources a) [TrimSpace (si_Source i)];
      ag_SourceFamilies := families;
      ag_Matched := unionStrings (ag_Matched a) (si_Matched i);
      ag_Stack := unionStrings (ag_Stack a) (si_Stack i);
      ag_SightingCount := ag_SightingCount a + 1;
      ag_SourceCount := Z.of_nat (length families);
      ag_PainHits := if hasPain then ag_PainHits a + 1 else ag_PainHits a;
      ag_BuyerRoleSeen := if buyerRole then true else ag_BuyerRoleSeen a;
      ag_CanonicalHash :=
        if String.eqb (ag_CanonicalHash a) estr then hashID
        else if buyerRole && negb (ag_BuyerRoleSeen a) then hashID
        else ag_CanonicalHash a |}, newFamily).

Definition MergeSightingWithHeat (d : EntityDoc) (keys : list EntityKey) (i : SightingInput)
    (heat : HeatConfig) : EntityDoc * RecordResult :=
  if EntityHashKnown d (TrimSpace (si_HashID i)) then refreshEntitySighting d i
  else
    let '(agg, newFamily) := add_sighting (ed_Agg d) i in
    let d := {|
      ed_EntityID := ed_EntityID d; ed_PrimaryKind := ed_PrimaryKind d;
      ed_PrimaryValue := ed_PrimaryValue d;
      ed_AliasKeys := unionStrings (ed_AliasKeys d) (AliasTokens keys); ed_Agg := agg;
      ed_Time := ed_Time d; ed_Heat := ed_Heat d; ed_Review := ed_Review d;
      ed_MergeGeneration := ed_MergeGeneration d + 1 |} in
    let d := RecomputeEntityHeat (PatchSightingTimeline now d i) heat now in
    (d, counted d newFamily).

Definition NewDoc (entityID : string) (pk : EntityKey) (keys : list EntityKey)
    (i : SightingInput) : EntityDoc := NewDocWithHeat entityID pk keys i DefaultHeatConfig.

Definition MergeSighting (d : EntityDoc) (keys : list EntityKey) (i : SightingInput)
    : EntityDoc * RecordResult := MergeSightingWithHeat d keys i DefaultHeatConfig.
End merge.
