(* ===== verification/EntityStore.v ===== *)
(** Recording a sighting ([internal/entity/]: sighting_loop.go, atomic_backend.go,
    memory_store.go, memory_classify.go; [internal/sink/]: entity_store.go,
    entity_store_atomic.go): the optimistic merge loop over a backend, and its two
    backends.

    The loop is written against the interface [SightingBackend] over the state [S]
    of a backend; a state may contain what other writers are about to do.  The
    Mongo collection is the class [Collection]. *)
From S2P Require Import Prelude Unicode GoStrings Utf8Facts TextFacts GoSort.
From S2P Require Import Validate Scoring Hashes Entity EntityKeys EntityDoc.
From Stdlib Require Import SpecFloat.

Local Open Scope Z_scope.

(** ** Results *)

Inductive record_error := BackendFailed | MergeConflict.

Inductive result (A : Type) := Ok (a : A) | Err (e : record_error).
Arguments Ok {A} a.
Arguments Err {A} e.

(** ** The backend of the loop ([sighting_loop.go], [atomic_backend.go])

    [FindExisting] returns a pointer; [assign] is what writing the document through
    it does to the backend.  [MergeSightingAtomic] is there when the backend also
    implements [AtomicSightingBackend]; its [None] is [found == false]. *)
Class SightingBackend (S : Type) := {
  FindExisting : list string → string → S → result (option EntityDoc) * S;
  assign : EntityDoc → S → S;
  InsertNew : EntityDoc → S → result bool * S;
  ReplaceMerged : EntityDoc → Z → S → result bool * S;
  MergeSightingAtomic : option (list EntityKey → list string → string → SightingInput →
    Duration → HeatConfig → S → result (option RecordResult) * S) }.

Definition DefaultMergeMaxAttempts : Z := 4.

Definition first_result (candidateID : string) : RecordResult := {|
  rr_EntityID := candidateID; rr_SightingCount := 1; rr_SourceCount := 1;
  rr_NewSourceFamily := false; rr_NewEntity := true; rr_CanonicalHash := estr;
  rr_CrossSourceHot := false; rr_HeatScore := f_0; rr_HeatTier := estr |}.

Section loop.
Context `{Sorter} `{HtmlLib} {S : Type} {B : SightingBackend S}.
Variables (blacklist : validate_state) (now : Time).

(** [recordSightingOnce]; [None] is [done == false]. *)
Definition merge_existing (existing : EntityDoc) (keys : list EntityKey) (i : SightingInput)
    (window : Duration) (heat : HeatConfig) (s : S) : result (option RecordResult) * S :=
  let gen := ed_MergeGeneration existing in
  let '(doc, r) := MergeSightingWithHeat now existing keys i heat in
  let s := assign doc s in
  match ReplaceMerged doc gen s with
  | (Err e, s) => (Err e, s)
  | (Ok false, s) => (Ok None, s)
  | (Ok true, s) => (Ok (Some (EnrichRecordResult r doc window)), s)
  end.

Definition insert_new (keys : list EntityKey) (candidateID : string) (pk : EntityKey)
    (i : SightingInput) (window : Duration) (heat : HeatConfig) (s : S)
    : result (option RecordResult) * S :=
  let doc := NewDocWithHeat now candidateID pk keys i heat in
  match InsertNew doc s with
  | (Err e, s) => (Err e, s)
  | (Ok true, s) => (Ok None, s)
  | (Ok false, s) => (Ok (Some (EnrichRecordResult (first_result candidateID) doc window)), s)
  end.

Definition find_and_merge (keys : list EntityKey) (aliases : list string) (candidateID : string)
    (pk : EntityKey) (i : SightingInput) (window : Duration) (heat : HeatConfig) (s : S)
    : result (option RecordResult) * S :=
  match FindExisting aliases candidateID s with
  | (Err e, s) => (Err e, s)
  | (Ok (Some existing), s) => merge_existing existing keys i window heat s
  | (Ok None, s) => insert_new keys candidateID pk i window heat s
  end.

Definition recordSightingOnce (keys : list EntityKey) (aliases : list string)
    (candidateID : string) (pk : EntityKey) (i : SightingInput) (window : Duration)
    (heat : HeatConfig) (s : S) : result (option RecordResult) * S :=
  match MergeSightingAtomic with
  | None => find_and_merge keys aliases candidateID pk i window heat s
  | Some atomic =>
      match atomic keys aliases candidateID i window heat s with
      | (Err e, s) => (Err e, s)
      | (Ok (Some r), s) => (Ok (Some r), s)
      | (Ok None, s) => find_and_merge keys aliases candidateID pk i window heat s
      end
  end.

Fixpoint attempts (n : nat) (once : S → result (option RecordResult) * S) (s : S)
    : result RecordResult * S :=
  match n with
  | O => (Err MergeConflict, s)
  | Datatypes.S n =>
      match once s with
      | (Err e, s) => (Err e, s)
      | (Ok (Some r), s) => (Ok r, s)
      | (Ok None, s) => attempts n once s
      end
  end.

Definition RecordSightingCore (i : SightingInput) (window : Duration) (maxAttempts : Z)
    (heat : HeatConfig) (s : S) : result RecordResult * S :=
  let keys := ResolveKeys blacklist (si_Resolve i) in
  match PrimaryKey keys with
  | None => (Ok no_result, s)
  | Some pk =>
      if String.eqb (TrimSpace (si_HashID i)) estr then (Ok no_result, s)
      else
        let maxAttempts := if maxAttempts <=? 0 then DefaultMergeMaxAttempts else maxAttempts in
        attempts (Z.to_nat maxAttempts)
          (recordSightingOnce keys (AliasTokens keys) (EntityID keys) pk i window heat) s
  end.
End loop.

(** ** In memory ([memory_store.go], [memory_classify.go])

    The documents are shared: [FindExisting] returns the stored one.  A [range]
    over the map visits it in any order, [visit]. *)

Definition HeatConfig_eqb (x y : HeatConfig) : bool :=
  Bool.eqb (hc_Enabled x) (hc_Enabled y)
  && SFeqb (BlazingThreshold x) (BlazingThreshold y)
  && SFeqb (HotThreshold x) (HotThreshold y) && SFeqb (WarmThreshold x) (WarmThreshold y)
  && SFeqb (Decay7D x) (Decay7D y) && SFeqb (Decay30D x) (Decay30D y)
  && SFeqb (Decay90D x) (Decay90D y) && SFeqb (DecayBeyond x) (DecayBeyond y)
  && SFeqb (UnknownDateDecay x) (UnknownDateDecay y) && (FreshWindow x =? FreshWindow y)
  && (CanonicalWindow x =? CanonicalWindow y) && (HotBoost x =? HotBoost y)
  && (BlazingBoost x =? BlazingBoost y) && (WarmBoost x =? WarmBoost y).

Definition zero_heat_config : HeatConfig := HeatConfigFromThresholds false f_0 f_0 f_0 f_0 f_0 f_0.

(** [heatConfig] of both stores. *)
Definition heatConfig (cfg : HeatConfig) : HeatConfig :=
  if HeatConfig_eqb cfg zero_heat_config then DefaultHeatConfig else cfg.

Abbreviation Docs := (gmap string EntityDoc) (only parsing).

Section memory.
Variable visit : Docs → list EntityDoc.

Definition findLocked (docs : Docs) (aliases : list string) (candidateID : string)
    : option EntityDoc :=
  match docs !! candidateID with
  | Some doc => Some doc
  | None => List.find (λ doc, existsb (containsString (ed_AliasKeys doc)) aliases) (visit docs)
  end.

Definition memory_InsertNew (doc : EntityDoc) (docs : Docs) : result bool * Docs :=
  match findLocked docs (ed_AliasKeys doc) (ed_EntityID doc) with
  | Some _ => (Ok true, docs)
  | None => (Ok false, <[ed_EntityID doc := doc]> docs)
  end.

Definition memory_ReplaceMerged (doc : EntityDoc) (generation : Z) (docs : Docs)
    : result bool * Docs :=
  match docs !! ed_EntityID doc with
  | None => (Ok false, docs)
  | Some existing => (Ok (ed_MergeGeneration existing =? generation + 1), docs)
  end.

Definition lockedMemoryBackend : SightingBackend Docs := {|
  FindExisting aliases candidateID docs := (Ok (findLocked docs aliases candidateID), docs);
  assign doc docs := <[ed_EntityID doc := doc]> docs;
  InsertNew := memory_InsertNew;
  ReplaceMerged := memory_ReplaceMerged;
  MergeSightingAtomic := None |}.

Section record.
Context `{Sorter} `{HtmlLib}.

(** [MemoryStore.RecordSighting]; the mutex makes it one step. *)
Definition MemoryRecordSighting (blacklist : validate_state) (now : Time) (window : Duration)
    (cfg : HeatConfig) (i : SightingInput) (docs : Docs) : result RecordResult * Docs :=
  RecordSightingCore (B := lockedMemoryBackend) blacklist now i window
    DefaultMergeMaxAttempts (heatConfig cfg) docs.
End record.
End memory.

(** ** In Mongo ([entity_store.go], [entity_store_atomic.go])

    What the driver does: [find_one] is the oldest document with the id or one of
    the aliases, [insert_one] says whether the id was there already, [replace_one]
    is the number of documents matched by id and generation. *)
Class Collection (S : Type) := {
  find_one : list string → string → S → result (option EntityDoc) * S;
  insert_one : EntityDoc → S → result bool * S;
  replace_one : string → Z → EntityDoc → S → result Z * S }.

Section mongo.
Context {S : Type} `{Collection S} `{Sorter} (now : Time).

Definition mongo_FindExisting (aliases : list string) (entityID : string) (s : S)
    : result (option EntityDoc) * S :=
  if is_empty aliases && String.eqb entityID estr then (Ok None, s)
  else find_one aliases entityID s.

Definition mongo_ReplaceMerged (doc : EntityDoc) (generation : Z) (s : S) : result bool * S :=
  match replace_one (ed_EntityID doc) generation doc s with
  | (Err e, s) => (Err e, s)
  | (Ok n, s) => (Ok (n =? 1), s)
  end.

Definition mongo_write (doc : EntityDoc) (gen : Z) (newFamily : bool) (window : Duration) (s : S)
    : result (option RecordResult) * S :=
  match mongo_ReplaceMerged doc gen s with
  | (Err e, s) => (Err e, s)
  | (Ok false, s) => (Ok None, s)
  | (Ok true, s) => (Ok (Some (EnrichRecordResult (counted doc newFamily) doc window)), s)
  end.

Definition mergeEntitySightingRefresh (existing : EntityDoc) (i : SightingInput)
    (window : Duration) (heat : HeatConfig) (s : S) : result (option RecordResult) * S :=
  let doc := (refreshEntitySighting now existing i).1 in
  let doc := RecomputeEntityHeat doc heat now in
  mongo_write doc (ed_MergeGeneration existing) false window s.

Definition mongo_MergeSightingAtomic (keys : list EntityKey) (aliases : list string)
    (candidateID : string) (i : SightingInput) (window : Duration) (heat : HeatConfig) (s : S)
    : result (option RecordResult) * S :=
  match mongo_FindExisting aliases candidateID s with
  | (Err e, s) => (Err e, s)
  | (Ok None, s) => (Ok None, s)
  | (Ok (Some existing), s) =>
      if EntityHashKnown existing (TrimSpace (si_HashID i))
      then mergeEntitySightingRefresh existing i window heat s
      else
        let '(doc, r) := MergeSightingWithHeat now existing keys i heat in
        mongo_write doc (ed_MergeGeneration existing) (rr_NewSourceFamily r) window s
  end.

Definition EntityStore : SightingBackend S := {|
  FindExisting := mongo_FindExisting;
  assign doc s := s;
  InsertNew := insert_one;
  ReplaceMerged := mongo_ReplaceMerged;
  MergeSightingAtomic := Some mongo_MergeSightingAtomic |}.

(** [EntityStore.RecordSighting]. *)
Definition MongoRecordSighting `{HtmlLib} (blacklist : validate_state) (window : Duration)
    (cfg : HeatConfig) (i : SightingInput) (s : S) : result RecordResult * S :=
  RecordSightingCore (B := EntityStore) blacklist now i window
    DefaultMergeMaxAttempts (heatConfig cfg) s.
End mongo.
