(* ===== verification/EntityReview.v ===== *)
(** What is done to an entity besides recording sightings ([internal/entity/]:
    split.go, classify.go, memory_classify.go, semantic_cluster.go,
    link_suggest.go, inbox.go, outreach.go): detaching a hash, applying the
    classification of the model, suggesting links, and the inbox card. *)
From S2P Require Import Prelude Unicode GoStrings Utf8Facts TextFacts GoSort Matcher.
From S2P Require Import Validate SourceRep Scoring Extract Hashes Entity EntityKeys EntityDoc.
From S2P Require Import EntityStore.
From Stdlib Require Import SpecFloat.

Local Open Scope Z_scope.

(** ** Splitting ([split.go]) *)

Record LeadSightingSource := {
  ls_Source : string; ls_Title : string; ls_CompanyName : string; ls_DisplayName : string;
  ls_GravatarName : string; ls_Contacts : list Contact; ls_Snippet : string;
  ls_Stack : list string; ls_Score : Z; ls_Matched : list string; ls_PostedAt : Time }.

Definition SightingInputFromLead (now : Time) (lead : LeadSightingSource) (sight : EntitySighting)
    : SightingInput :=
  let resolve := {|
    ri_CompanyName := ls_CompanyName lead; ri_DisplayName := ls_DisplayName lead;
    ri_GravatarName := ls_GravatarName lead; ri_Source := ls_Source lead;
    ri_ForumUser := estr; ri_ForumUID := estr; ri_Contacts := ls_Contacts lead |} in
  let resolve := EnrichForumIdentity resolve estr (ls_Title lead) estr in
  let text := TrimSpace (ls_Snippet lead) in
  {| si_Resolve := resolve; si_HashID := sg_HashID sight;
     si_Matched := if is_empty (ls_Matched lead) then sg_Matched sight else ls_Matched lead;
     si_Stack := ls_Stack lead;
     si_Text := if String.eqb text estr then TrimSpace (sg_Snippet sight) else text;
     si_Score := if ls_Score lead <=? 0 then sg_Score sight else ls_Score lead;
     si_PostedAt := if is_zero_time (ls_PostedAt lead) then sg_PostedAt sight
                    else ls_PostedAt lead;
     si_SeenAt := if is_zero_time (sg_SeenAt sight) then now else sg_SeenAt sight |}.

Inductive split_error := ErrHashEmpty | ErrSplitHashMissing | ErrSplitKeysEmpty.

Record SplitHashResult := {
  sr_SourceEntityID : string; sr_NewEntityID : string; sr_HashID : string;
  sr_SourceDeleted : bool }.

Definition removeString (l : list string) (target : string) : list string :=
  List.filter (λ v, negb (String.eqb v target)) l.

Definition removeHashFromEntity (d : EntityDoc) (hashID : string) : EntityDoc :=
  let a := ed_Agg d in
  set_time (set_agg d {|
    ag_HashIDs := removeString (ag_HashIDs a) hashID; ag_Sources := ag_Sources a;
    ag_SourceFamilies := ag_SourceFamilies a; ag_Matched := ag_Matched a;
    ag_Stack := ag_Stack a; ag_SightingCount := ag_SightingCount a;
    ag_SourceCount := ag_SourceCount a; ag_PainHits := ag_PainHits a;
    ag_BuyerRoleSeen := ag_BuyerRoleSeen a;
    ag_CanonicalHash := if String.eqb (ag_CanonicalHash a) hashID then estr
                        else ag_CanonicalHash a |}) {|
    tl_Sightings := List.filter (λ s, negb (String.eqb (sg_HashID s) hashID))
                      (tl_Sightings (ed_Time d));
    tl_FirstSeen := tl_FirstSeen (ed_Time d); tl_LastSeen := tl_LastSeen (ed_Time d) |}.

Definition clearEntityClassification (d : EntityDoc) : EntityDoc :=
  let r := ed_Review d in
  set_review d {|
    rv_UnifiedPain := estr; rv_ActorConfidence := f_0; rv_BuyerIntent := estr;
    rv_NeedsReview := false; rv_EntityClassifiedAt := zero_time;
    rv_SemanticCluster := rv_SemanticCluster r; rv_ClassifyForce := rv_ClassifyForce r;
    rv_ReviewSuggestions := rv_ReviewSuggestions r |}.

(** What the loop over the sightings accumulates; [rb_Hashes] are the keys of the
    map, in the order of insertion. *)
Record rebuilt := {
  rb_Hashes : list string; rb_Sources : list string; rb_Families : list string;
  rb_Matched : list string; rb_PainHits : Z; rb_BuyerRoleSeen : bool;
  rb_FirstSeen : Time; rb_LastSeen : Time }.

Definition rebuild_step (b : rebuilt) (s : EntitySighting) : rebuilt :=
  let hashID := TrimSpace (sg_HashID s) in
  let src := TrimSpace (sg_Source s) in
  let family := TrimSpace (sg_Family s) in
  let family := if String.eqb family estr then SourceFamily (sg_Source s) else family in
  let '(hasPain, buyerRole) := sightingSignals [] (sg_Snippet s) (sg_Matched s) in
  let event := sightingEventTimeOf s in
  {| rb_Hashes := if String.eqb hashID estr || mem hashID (rb_Hashes b) then rb_Hashes b
                  else rb_Hashes b ++ [hashID];
     rb_Sources := if String.eqb src estr then rb_Sources b else unionStrings (rb_Sources b) [src];
     rb_Families := if String.eqb family estr then rb_Families b
                    else unionStrings (rb_Families b) [family];
     rb_Matched := unionStrings (rb_Matched b) (sg_Matched s);
     rb_PainHits := if hasPain then rb_PainHits b + 1 else rb_PainHits b;
     rb_BuyerRoleSeen := buyerRole || rb_BuyerRoleSeen b;
     rb_FirstSeen :=
       if negb (is_zero_time event)
          && (is_zero_time (rb_FirstSeen b) || time_before event (rb_FirstSeen b))
       then event else rb_FirstSeen b;
     rb_LastSeen := if negb (is_zero_time event) && time_after event (rb_LastSeen b)
                    then event else rb_LastSeen b |}.

Definition rebuild_start : rebuilt := {|
  rb_Hashes := []; rb_Sources := []; rb_Families := []; rb_Matched := []; rb_PainHits := 0;
  rb_BuyerRoleSeen := false; rb_FirstSeen := zero_time; rb_LastSeen := zero_time |}.

Section split.
Context `{Sorter} `{HtmlLib} (now : Time).

(** The order in which the [range] visits the keys of [hashSet]. *)
Variable visit : list string → list string.

Definition rebuildEntityAggregates (d : EntityDoc) (heat : HeatConfig) : EntityDoc :=
  let b := foldl rebuild_step rebuild_start (tl_Sightings (ed_Time d)) in
  let a := ed_Agg d in
  let hashes := visit (rb_Hashes b) in
  let d := set_time (set_agg d {|
    ag_HashIDs := hashes; ag_Sources := rb_Sources b; ag_SourceFamilies := rb_Families b;
    ag_Matched := rb_Matched b; ag_Stack := ag_Stack a;
    ag_SightingCount := Z.of_nat (length hashes);
    ag_SourceCount := Z.of_nat (length (rb_Families b));
    ag_PainHits := rb_PainHits b; ag_BuyerRoleSeen := rb_BuyerRoleSeen b;
    ag_CanonicalHash :=
      match hashes with
      | h :: _ => if String.eqb (ag_CanonicalHash a) estr then h else ag_CanonicalHash a
      | [] => ag_CanonicalHash a
      end |}) {|
    tl_Sightings := tl_Sightings (ed_Time d);
    tl_FirstSeen := rb_FirstSeen b; tl_LastSeen := rb_LastSeen b |} in
  RecomputeEntityHeat d heat now.

(** The result, the document of the split-off entity and what is left of [doc]. *)
Definition SplitHashFromEntity (blacklist : validate_state) (doc : EntityDoc) (hashID : string)
    (i : SightingInput) (heat : HeatConfig)
    : split_error + SplitHashResult * EntityDoc * EntityDoc :=
  let hashID := TrimSpace hashID in
  if String.eqb hashID estr then inl ErrHashEmpty
  else if negb (EntityHashKnown doc hashID) then inl ErrSplitHashMissing
  else
    let keys := ResolveKeys blacklist (si_Resolve i) in
    let newEntityID := EntityIDForSplit keys hashID (ed_EntityID doc) in
    match PrimaryKey keys with
    | None => inl ErrSplitKeysEmpty
    | Some pk =>
        if String.eqb newEntityID estr then inl ErrSplitKeysEmpty
        else
          let rest := rebuildEntityAggregates
            (clearEntityClassification (next_generation (removeHashFromEntity doc hashID))) heat in
          let newDoc := NewDocWithHeat now newEntityID pk keys i heat in
          inr ({| sr_SourceEntityID := ed_EntityID doc; sr_NewEntityID := newEntityID;
                  sr_HashID := hashID;
                  sr_SourceDeleted := is_empty (ag_HashIDs (ed_Agg rest)) |}, newDoc, rest)
    end.
End split.

(** ** Semantic clusters ([semantic_cluster.go]) *)

(** [hex.EncodeToString(sum[:8])]. *)
Definition cluster_sum (s : string) : string := hex_encode (take 8 (Sha256.Sum256 s)).

Definition SemanticClusterID `{Sorter} (matched : list string) (unifiedPain : string) : string :=
  let pain := TrimSpace (ToLower unifiedPain) in
  if negb (String.eqb pain estr) then cluster_sum ("pain:" +:+ pain)
  else if is_empty matched then estr
  else cluster_sum ("kw:" +:+ Join (take 5 (sort_slice str_ltb matched)) "|").

(** ** Classification ([classify.go], [memory_classify.go]) *)

Definition splitActorConfidenceMin : spec_float := Eval vm_compute in f_ratio 7 10.
Definition lowConfidenceActorThreshold : spec_float := Eval vm_compute in f_ratio 1 2.

Record EntityClassificationPatch := {
  cp_UnifiedPain : string; cp_ActorConfidence : spec_float; cp_BuyerIntent : string;
  cp_NeedsReview : bool; cp_EntityClassifiedAt : Time; cp_HeatTierDowngrade : string;
  cp_SemanticCluster : string }.

Record GeminiClassifyResult := {
  gc_SameActor : bool; gc_ActorConfidence : spec_float; gc_UnifiedPain : string;
  gc_BuyerIntent : string; gc_SplitRecommended : bool; gc_Why : string }.

Definition with_tier (h : Heat) (tier : string) : Heat := {|
  ht_HeatScore := ht_HeatScore h; ht_HeatScoreRound := ht_HeatScoreRound h;
  ht_HeatTier := tier; ht_LastHeatAt := ht_LastHeatAt h;
  ht_FreshSightingAt := ht_FreshSightingAt h |}.

Definition downgrade (d : EntityDoc) (tier : string) : EntityDoc :=
  if String.eqb tier estr then d else set_doc_heat d (with_tier (ed_Heat d) tier).

Definition patched_review (r : Review) (p : EntityClassificationPatch) (cluster : string)
    : Review := {|
  rv_UnifiedPain := cp_UnifiedPain p; rv_ActorConfidence := cp_ActorConfidence p;
  rv_BuyerIntent := cp_BuyerIntent p; rv_NeedsReview := cp_NeedsReview p;
  rv_EntityClassifiedAt := cp_EntityClassifiedAt p; rv_SemanticCluster := cluster;
  rv_ClassifyForce := rv_ClassifyForce r; rv_ReviewSuggestions := rv_ReviewSuggestions r |}.

Definition classification_patch `{Sorter} (d : EntityDoc) (res : GeminiClassifyResult)
    (now : Time) : EntityClassificationPatch :=
  let distinct := negb (gc_SameActor res)
                  && float_ge (gc_ActorConfidence res) splitActorConfidenceMin in
  {| cp_UnifiedPain := gc_UnifiedPain res; cp_ActorConfidence := gc_ActorConfidence res;
     cp_BuyerIntent := gc_BuyerIntent res;
     cp_NeedsReview := gc_SplitRecommended res || distinct;
     cp_EntityClassifiedAt := now;
     cp_HeatTierDowngrade :=
       if distinct && (HeatTierRank HeatTierHot <=? HeatTierRank (ht_HeatTier (ed_Heat d)))
       then HeatTierWarm else estr;
     cp_SemanticCluster := SemanticClusterID (ag_Matched (ed_Agg d)) (gc_UnifiedPain res) |}.

(** [now] is not the zero time. *)
Definition ApplyEntityClassification `{Sorter} (d : EntityDoc) (res : GeminiClassifyResult)
    (now : Time) : EntityDoc * EntityClassificationPatch :=
  let patch := classification_patch d res now in
  (set_review (downgrade d (cp_HeatTierDowngrade patch))
     (patched_review (ed_Review d) patch (cp_SemanticCluster patch)), patch).

Definition MaxEntityClassifySightings : Z := 5.

Definition ClassifySightingsFromDocLimit `{Sorter} (d : EntityDoc) (limit : Z)
    : list EntitySighting :=
  let rows := tl_Sightings (ed_Time d) in
  if is_empty rows then []
  else
    let limit := if limit <=? 0 then MaxEntityClassifySightings else limit in
    let out := sort_slice newer rows in
    if limit <? Z.of_nat (length out) then take (Z.to_nat limit) out else out.

Definition ClassifySightingsFromDoc `{Sorter} (d : EntityDoc) : list EntitySighting :=
  ClassifySightingsFromDocLimit d MaxEntityClassifySightings.

Definition IsLowConfidenceHot (d : EntityDoc) : bool :=
  if HeatTierRank (ht_HeatTier (ed_Heat d)) <? HeatTierRank HeatTierHot then false
  else if is_zero_time (rv_EntityClassifiedAt (ed_Review d)) then true
  else float_lt (rv_ActorConfidence (ed_Review d)) lowConfidenceActorThreshold.

(** The memory store keeps the old cluster: its patch does not copy it. *)
Definition PatchEntityClassification (entityID : string) (p : EntityClassificationPatch)
    (docs : Docs) : Docs :=
  match docs !! entityID with
  | None => docs
  | Some d =>
      <[entityID := set_review (downgrade d (cp_HeatTierDowngrade p))
          (patched_review (ed_Review d) p (rv_SemanticCluster (ed_Review d)))]> docs
  end.

Definition set_force (force : bool) (d : EntityDoc) : EntityDoc :=
  let r := ed_Review d in
  set_review d {|
    rv_UnifiedPain := rv_UnifiedPain r; rv_ActorConfidence := rv_ActorConfidence r;
    rv_BuyerIntent := rv_BuyerIntent r; rv_NeedsReview := rv_NeedsReview r;
    rv_EntityClassifiedAt := rv_EntityClassifiedAt r; rv_SemanticCluster := rv_SemanticCluster r;
    rv_ClassifyForce := force; rv_ReviewSuggestions := rv_ReviewSuggestions r |}.

Definition force_classify (force : bool) (entityID : string) (docs : Docs) : Docs :=
  if String.eqb entityID estr then docs else alter (set_force force) entityID docs.

Definition MarkClassifyForce (entityID : string) (docs : Docs) : Docs :=
  force_classify true entityID docs.
Definition ClearClassifyForce (entityID : string) (docs : Docs) : Docs :=
  force_classify false entityID docs.

(** The entries of the map in the order the [range] visits them. *)
Definition ListClassifyForce (visited : list (string * EntityDoc)) (limit : Z) : list string :=
  let limit := if limit <=? 0 then 32 else limit in
  take (Z.to_nat limit)
    (fst <$> List.filter (λ p, rv_ClassifyForce (ed_Review p.2)) visited).

(** ** Link suggestions ([link_suggest.go]) *)

Record LinkSuggestPair := {
  lp_EntityA : string; lp_EntityB : string; lp_SharedDomain : string;
  lp_PainA : string; lp_PainB : string }.

Definition pairKey (a b domain : string) : string :=
  let '(a, b) := if str_ltb b a then (b, a) else (a, b) in
  a +:+ "|" +:+ b +:+ "|" +:+ domain.

Definition pair_key (p : LinkSuggestPair) : string :=
  pairKey (lp_EntityA p) (lp_EntityB p) (lp_SharedDomain p).

Definition dedupeLinkPairs (pairs : list LinkSuggestPair) : list LinkSuggestPair :=
  dedup_on pair_key pairs.

(** The documents under each key, in the order they are appended. *)
Definition group_docs (key_of : string → option string) (docs : list EntityDoc)
    : gmap string (list EntityDoc) :=
  foldl (λ m d, foldl (λ m alias,
      match key_of (TrimSpace alias) with
      | Some k => <[k := default [] (m !! k) ++ [d]]> m
      | None => m
      end) m (ed_AliasKeys d)) ∅ docs.

Definition domain_key (key : string) : option string :=
  if HasPrefix key "domain:" then
    let domain := TrimPrefix key "domain:" in
    if String.eqb domain estr then None else Some domain
  else None.

Definition identity_key (key : string) : option string :=
  if String.eqb key estr || HasPrefix key "domain:" then None
  else if HasPrefix key "forum_user:" || HasPrefix key "forum_uid:"
          || HasPrefix key "telegram:" || HasPrefix key "email:"
  then Some key else None.

(** The pairs [i < j] of a group. *)
Fixpoint pairs_of (group : list EntityDoc) : list (EntityDoc * EntityDoc) :=
  match group with
  | [] => []
  | a :: rest => ((λ b, (a, b)) <$> rest) ++ pairs_of rest
  end.

Definition suggest (shared : string) (p : EntityDoc * EntityDoc) : LinkSuggestPair := {|
  lp_EntityA := ed_EntityID p.1; lp_EntityB := ed_EntityID p.2; lp_SharedDomain := shared;
  lp_PainA := TrimSpace (rv_UnifiedPain (ed_Review p.1));
  lp_PainB := TrimSpace (rv_UnifiedPain (ed_Review p.2)) |}.

Definition distinct_entities (p : EntityDoc * EntityDoc) : bool :=
  negb (String.eqb (ed_EntityID p.1) (ed_EntityID p.2)).

Definition conflicting_pain (p : EntityDoc * EntityDoc) : bool :=
  let painA := TrimSpace (rv_UnifiedPain (ed_Review p.1)) in
  let painB := TrimSpace (rv_UnifiedPain (ed_Review p.2)) in
  negb (String.eqb painA estr || String.eqb painB estr || EqualFold painA painB).

Definition group_pairs (keep : EntityDoc * EntityDoc → bool)
    (g : string * list EntityDoc) : list LinkSuggestPair :=
  suggest g.1 <$> List.filter (λ p, distinct_entities p && keep p) (pairs_of g.2).

Section links.
(** The order in which a [range] visits the groups. *)
Variable visit : gmap string (list EntityDoc) → list (string * list EntityDoc).

Definition findDomainPainPairs (docs : list EntityDoc) : list LinkSuggestPair :=
  dedup_on pair_key (visit (group_docs domain_key docs) ≫= group_pairs conflicting_pain).

Definition findIdentityKeyPairs (docs : list EntityDoc) : list LinkSuggestPair :=
  dedup_on pair_key (visit (group_docs identity_key docs) ≫= group_pairs (λ _, true)).

Definition FindLinkSuggestPairs (docs : list EntityDoc) : list LinkSuggestPair :=
  dedupeLinkPairs (findDomainPainPairs docs ++ findIdentityKeyPairs docs).
End links.

(** ** The inbox card ([inbox.go], [outreach.go]) *)

Definition maxInt (a b : Z) : Z := if b <? a then a else b.

Definition BuildEntityProofSummary (d : EntityDoc) : string :=
  let a := ed_Agg d in
  if ag_SightingCount a <? 2 then estr
  else
    let pain := TrimSpace (rv_UnifiedPain (ed_Review d)) in
    let sources := Z.of_nat (length (ag_SourceFamilies a)) in
    let sources := if sources =? 0 then Z.of_nat (length (ag_Sources a)) else sources in
    let proof := "Same actor across " +:+ Itoa (ag_SightingCount a) +:+ " sightings on "
                 +:+ Itoa (maxInt sources 1) +:+ " sources." in
    if String.eqb pain estr then proof else proof +:+ " Pain: " +:+ pain.

Record InboxCard := {
  ic_EntityID : string; ic_HeatTier : string; ic_HeatScore : Z; ic_SightingCount : Z;
  ic_SourceCount : Z; ic_SourceFamilies : list string; ic_UnifiedPain : string;
  ic_BuyerIntent : string; ic_ActorConfidence : spec_float; ic_EntityProof : string;
  ic_PendingSuggestions : Z; ic_NeedsReview : bool; ic_ClassifyForce : bool }.

(** The fields the store fills in afterwards are left out. *)
Definition BuildInboxCard (d : EntityDoc) : InboxCard := {|
  ic_EntityID := ed_EntityID d; ic_HeatTier := ht_HeatTier (ed_Heat d);
  ic_HeatScore := DisplayHeatScore d; ic_SightingCount := ag_SightingCount (ed_Agg d);
  ic_SourceCount := ag_SourceCount (ed_Agg d);
  ic_SourceFamilies := ag_SourceFamilies (ed_Agg d);
  ic_UnifiedPain := TrimSpace (rv_UnifiedPain (ed_Review d));
  ic_BuyerIntent := TrimSpace (rv_BuyerIntent (ed_Review d));
  ic_ActorConfidence := rv_ActorConfidence (ed_Review d);
  ic_EntityProof := BuildEntityProofSummary d;
  ic_PendingSuggestions := count_if (λ s, EqualFold (TrimSpace (rs_Status s)) "pending")
                             (rv_ReviewSuggestions (ed_Review d));
  ic_NeedsReview := rv_NeedsReview (ed_Review d);
  ic_ClassifyForce := rv_ClassifyForce (ed_Review d) |}.
