(* ===== verification/EntityFacts.v ===== *)
(** Facts on entity documents: the lists of distinct strings, the timeline, and the
    invariant of a document that every recorded sighting preserves. *)
From S2P Require Import Prelude Unicode GoStrings Utf8Facts TextFacts GoSort Matcher.
From S2P Require Import Validate Scoring Hashes Entity EntityKeys EntityDoc.
From Stdlib Require Import SpecFloat Sorted.

Local Open Scope Z_scope.

(** ** Lists of distinct, trimmed, non-blank strings *)

Definition trimmed (v : string) : Prop := TrimSpace v = v ∧ v ≠ estr.
Definition clean (l : list string) : Prop := NoDup l ∧ Forall trimmed l.

Lemma TrimSpace_trimmed v : TrimSpace v ≠ estr → trimmed (TrimSpace v).
Proof. intros H. split; [apply TrimSpace_idemp|done]. Qed.

Lemma filter_elem {A} (f : A → bool) l x : x ∈ List.filter f l ↔ x ∈ l ∧ f x = true.
Proof. rewrite !list_elem_of_In, filter_In. done. Qed.

Lemma nonblank_true v : negb (String.eqb v estr) = true ↔ v ≠ estr.
Proof. by rewrite negb_true_iff, String.eqb_neq. Qed.

Lemma uniqStrings_elem l v : v ∈ uniqStrings l ↔ v ∈ TrimSpace <$> l ∧ v ≠ estr.
Proof.
  unfold uniqStrings.
  pose proof (dedup_on_key id (List.filter (λ v, negb (String.eqb v estr)) (TrimSpace <$> l)) v)
    as H.
  rewrite !list_fmap_id in H. rewrite H, filter_elem, nonblank_true. done.
Qed.

Lemma uniqStrings_clean l : clean (uniqStrings l).
Proof.
  split.
  - pose proof (dedup_on_NoDup id
      (List.filter (λ v, negb (String.eqb v estr)) (TrimSpace <$> l))) as H.
    by rewrite list_fmap_id in H.
  - apply Forall_forall. intros v Hv. apply uniqStrings_elem in Hv as [Hv Hb].
    apply list_elem_of_fmap in Hv as (w & -> & _). split; [apply TrimSpace_idemp|done].
Qed.

Lemma uniqStrings_id l : clean l → uniqStrings l = l.
Proof.
  intros [Hn Hf]. unfold uniqStrings.
  assert (TrimSpace <$> l = l) as ->.
  { clear Hn. induction Hf as [|x l [Hx _] _ IH]; [done|]. rewrite fmap_cons. by rewrite Hx, IH. }
  assert (List.filter (λ v, negb (String.eqb v estr)) l = l) as ->.
  { clear Hn. induction Hf as [|x l [_ Hx] _ IH]; [done|]. cbn.
    by rewrite (proj2 (nonblank_true x) Hx), IH. }
  apply dedup_from_id; [by rewrite list_fmap_id|set_solver].
Qed.

Lemma unionStrings_uniq base add : clean base → unionStrings base add = uniqStrings (base ++ add).
Proof.
  intros Hb. destruct add as [|x add]; [|done]. cbn. by rewrite app_nil_r, uniqStrings_id.
Qed.

Lemma unionStrings_clean base add : clean base → clean (unionStrings base add).
Proof. intros Hb. rewrite unionStrings_uniq by done. apply uniqStrings_clean. Qed.

Lemma fmap_trim l : clean l → TrimSpace <$> l = l.
Proof.
  intros [_ Hf]. induction Hf as [|x l [Hx _] _ IH]; [done|]. rewrite fmap_cons. by rewrite Hx, IH.
Qed.

Lemma unionStrings_elem base add v :
  clean base → v ∈ unionStrings base add ↔ v ∈ base ∨ v ∈ TrimSpace <$> add ∧ v ≠ estr.
Proof.
  intros Hb. rewrite unionStrings_uniq by done.
  rewrite uniqStrings_elem, fmap_app, elem_of_app, fmap_trim by done.
  destruct Hb as [_ Hf]. rewrite Forall_forall in Hf. unfold trimmed in Hf. naive_solver.
Qed.

(** A new element is appended. *)
Lemma unionStrings_new base v :
  clean base → trimmed v → v ∉ base → unionStrings base [v] = base ++ [v].
Proof.
  intros Hb Hv Hn. rewrite unionStrings_uniq by done. apply uniqStrings_id.
  destruct Hb as [Hnd Hf]. split.
  - apply NoDup_app. split_and!; [done|set_solver|apply NoDup_singleton].
  - apply Forall_app. by split; [|apply Forall_singleton].
Qed.

Lemma unionStrings_old base v :
  clean base → TrimSpace v ∈ base ∨ TrimSpace v = estr → unionStrings base [v] = base.
Proof.
  intros Hb Hv. rewrite unionStrings_uniq by done. unfold uniqStrings.
  rewrite fmap_app, fmap_trim by done. cbn [fmap list_fmap].
  rewrite List.filter_app. destruct Hb as [Hn Hf].
  assert (List.filter (λ v, negb (String.eqb v estr)) base = base) as ->.
  { clear Hn Hv. induction Hf as [|x l [_ Hx] _ IH]; [done|]. cbn.
    by rewrite (proj2 (nonblank_true x) Hx), IH. }
  apply dedup_from_absorb; [by rewrite list_fmap_id|set_solver|].
  intros x Hx. apply filter_elem in Hx as [Hx Hb]. apply list_elem_of_singleton in Hx as ->.
  rewrite list_fmap_id. right. destruct Hv as [|Hv]; [done|]. by rewrite Hv in Hb.
Qed.

Lemma containsString_elem l v : containsString l v = true ↔ v ∈ l.
Proof.
  unfold containsString, mem. rewrite existsb_elem. split.
  - by intros (x & Hx & ->%String.eqb_eq).
  - intros Hv. exists v. by rewrite String.eqb_refl.
Qed.

(** ** The timeline *)

Section timeline.
Context `{Sorter} (now : Time).

Lemma newer_weak : weak_order newer.
Proof.
  split; unfold newer, time_after; intros *;
    z_cases; intros; first [done | lia | by apply str_ltb_asym | by eapply str_ltb_trans].
Qed.

Lemma trim_sub l : ∃ l', trimEntitySightings l ++ l' ≡ₚ l.
Proof.
  unfold trimEntitySightings. destruct (Nat.leb _ _).
  - exists []. by rewrite app_nil_r.
  - exists (drop MaxEntitySightings (sort_slice newer l)). by rewrite take_drop, sort_slice_perm.
Qed.

Lemma trim_length l : (length (trimEntitySightings l) ≤ MaxEntitySightings)%nat.
Proof.
  unfold trimEntitySightings. destruct (Nat.leb_spec (length l) MaxEntitySightings); [done|].
  rewrite length_take. lia.
Qed.

Lemma trim_elem l s : s ∈ trimEntitySightings l → s ∈ l.
Proof. destruct (trim_sub l) as [l' Hl]. intros Hs. rewrite <- Hl. set_solver. Qed.

Lemma trim_NoDup l : NoDup (sg_HashID <$> l) → NoDup (sg_HashID <$> trimEntitySightings l).
Proof.
  destruct (trim_sub l) as [l' Hl]. intros Hn.
  rewrite <- Hl, fmap_app, NoDup_app in Hn. by destruct Hn as (? & _).
Qed.

(** Elements before a point of a sorted list against those after it. *)
Lemma sorted_split {A} (R : A → A → Prop) (a b : list A) x y :
  StronglySorted R (a ++ b) → x ∈ a → y ∈ b → R x y.
Proof.
  induction a as [|z a IH]; intros Hs Hx Hy; [by apply elem_of_nil in Hx|].
  inversion Hs as [|? ? Hs' Hf]; subst. apply elem_of_cons in Hx as [->|Hx]; [|by apply IH].
  rewrite Forall_forall in Hf. apply Hf. set_solver.
Qed.

(** The timeline keeps the newest sightings.  When a document has more than
    [MaxEntitySightings] rows it keeps that many, and no row it drops is newer, or
    as new with a greater hash, than one it keeps — whichever way [sort.Slice]
    orders rows that compare equal. *)
Theorem trim_keeps_newest l :
  ∃ dropped, trimEntitySightings l ++ dropped ≡ₚ l
    ∧ (dropped ≠ [] → length (trimEntitySightings l) = MaxEntitySightings)
    ∧ ∀ x y, x ∈ trimEntitySightings l → y ∈ dropped → newer y x = false.
Proof.
  unfold trimEntitySightings. destruct (Nat.leb_spec (length l) MaxEntitySightings).
  - exists []. rewrite app_nil_r. split_and!; [done|done|]. intros x y _ Hy.
    by apply elem_of_nil in Hy.
  - exists (drop MaxEntitySightings (sort_slice newer l)).
    rewrite take_drop. split_and!; [apply sort_slice_perm| |].
    + intros _. rewrite length_take, sort_slice_length. lia.
    + intros x y. apply (sorted_split (λ x y, newer y x = false)).
      rewrite take_drop. apply sort_slice_sorted, newer_weak.
Qed.

Lemma refresh_first_Some hashID i l l' :
  refresh_first now hashID i l = Some l' →
  ∃ l1 s l2, l = l1 ++ s :: l2 ∧ l' = l1 ++ refresh_row now i s :: l2 ∧ sg_HashID s = hashID.
Proof.
  revert l'. induction l as [|s l IH]; intros l' E; cbn in E; [done|].
  destruct (String.eqb_spec (sg_HashID s) hashID) as [Hs|Hs].
  - simplify_eq. by exists [], s, l.
  - destruct (refresh_first now hashID i l) as [l0|]; [|done]. simplify_eq/=.
    destruct (IH l0 eq_refl) as (l1 & s' & l2 & -> & -> & Hs'). by exists (s :: l1), s', l2.
Qed.

Lemma refresh_first_None hashID i l :
  refresh_first now hashID i l = None → hashID ∉ sg_HashID <$> l.
Proof.
  induction l as [|s l IH]; intros E; cbn in E; [apply not_elem_of_nil|].
  destruct (String.eqb_spec (sg_HashID s) hashID) as [Hs|Hs]; [done|].
  destruct (refresh_first now hashID i l); [done|]. rewrite fmap_cons, not_elem_of_cons.
  split; [done|by apply IH].
Qed.

(** A row that a sighting touches has its event time, or keeps its own. *)
Lemma refresh_row_event i s :
  now ≠ 0 →
  sightingEventTimeOf (refresh_row now i s) = sightingEventTimeOf s
  ∨ sightingEventTimeOf (refresh_row now i s) = sightingEventTime now i.
Proof.
  intros Hn. unfold sightingEventTimeOf, sightingEventTime, refresh_row, sightingSeenAt,
    is_zero_time, zero_time.
  cbn [sg_PostedAt sg_SeenAt].
  destruct (Z.eqb_spec (si_PostedAt i) 0) as [E|E]; cbn [negb].
  - destruct (Z.eqb_spec (sg_PostedAt s) 0); cbn [negb]; [|by left]. right.
    destruct (Z.eqb_spec (si_SeenAt i) 0) as [E'|E']; cbn [negb].
    + by rewrite (proj2 (Z.eqb_neq now 0) Hn).
    + by rewrite (proj2 (Z.eqb_neq _ 0) E').
  - rewrite (proj2 (Z.eqb_neq _ 0) E). by right.
Qed.

Lemma build_event i :
  now ≠ 0 → sightingEventTimeOf (buildEntitySighting now i) = sightingEventTime now i.
Proof.
  intros Hn. unfold sightingEventTimeOf, sightingEventTime, buildEntitySighting, sightingSeenAt,
    is_zero_time, zero_time. cbn [sg_PostedAt sg_SeenAt].
  destruct (Z.eqb_spec (si_PostedAt i) 0) as [E|E]; cbn [negb]; [|done].
  destruct (Z.eqb_spec (si_SeenAt i) 0) as [E'|E']; cbn [negb].
  - by rewrite (proj2 (Z.eqb_neq now 0) Hn).
  - by rewrite (proj2 (Z.eqb_neq _ 0) E').
Qed.

(** What one sighting does to the rows: hashes, and events. *)
Lemma append_rows i l s :
  now ≠ 0 → s ∈ appendOrRefreshEntitySighting now i l →
  (sg_HashID s ∈ sg_HashID <$> l ∨ sg_HashID s = TrimSpace (si_HashID i))
  ∧ (sightingEventTimeOf s = sightingEventTime now i
     ∨ ∃ s', s' ∈ l ∧ sightingEventTimeOf s = sightingEventTimeOf s').
Proof.
  intros Hn Hs. unfold appendOrRefreshEntitySighting in Hs.
  destruct (String.eqb_spec (TrimSpace (si_HashID i)) estr).
  { split; [left; by apply list_elem_of_fmap_2|right; by exists s]. }
  destruct (refresh_first now (TrimSpace (si_HashID i)) i l) as [l'|] eqn:E; apply trim_elem in Hs.
  - apply refresh_first_Some in E as (l1 & s0 & l2 & -> & -> & Hh).
    apply elem_of_app in Hs as [Hs|[->|Hs]%elem_of_cons].
    + split; [left; apply list_elem_of_fmap_2; set_solver|right; exists s; set_solver].
    + split; [by right|]. destruct (refresh_row_event i s0 Hn) as [->| ->]; [|by left].
      right. exists s0. set_solver.
    + split; [left; apply list_elem_of_fmap_2; set_solver|right; exists s; set_solver].
  - apply elem_of_app in Hs as [Hs|Hs%list_elem_of_singleton].
    + split; [left; by apply list_elem_of_fmap_2|right; by exists s].
    + subst s. split; [by right|left; by apply build_event].
Qed.

Lemma append_NoDup i l :
  NoDup (sg_HashID <$> l) → NoDup (sg_HashID <$> appendOrRefreshEntitySighting now i l).
Proof.
  intros Hn. unfold appendOrRefreshEntitySighting. destruct (String.eqb _ _); [done|].
  destruct (refresh_first now (TrimSpace (si_HashID i)) i l) as [l'|] eqn:E; apply trim_NoDup.
  - apply refresh_first_Some in E as (l1 & s0 & l2 & -> & -> & Hh).
    revert Hn. by rewrite !fmap_app, !fmap_cons.
  - apply refresh_first_None in E. rewrite fmap_app. apply NoDup_app. split_and!; [done| |].
    + intros x Hx. cbn. rewrite list_elem_of_singleton. intros ->. done.
    + apply NoDup_singleton.
Qed.

Lemma append_length i l :
  (length l ≤ MaxEntitySightings)%nat →
  (length (appendOrRefreshEntitySighting now i l) ≤ MaxEntitySightings)%nat.
Proof.
  intros Hl. unfold appendOrRefreshEntitySighting. destruct (String.eqb _ _); [done|].
  destruct (refresh_first _ _ _ _); apply trim_length.
Qed.
End timeline.

(** ** The invariant of a document *)

Record agg_ok (a : Aggregates) : Prop := {
  ao_hashes : clean (ag_HashIDs a);
  ao_count : ag_SightingCount a = Z.of_nat (length (ag_HashIDs a));
  ao_families : clean (ag_SourceFamilies a);
  ao_sources : ag_SourceCount a = Z.of_nat (length (ag_SourceFamilies a));
  ao_pain : 0 ≤ ag_PainHits a ≤ ag_SightingCount a;
  ao_canonical : ag_CanonicalHash a ∈ ag_HashIDs a }.

Record rows_ok (hashes : list string) (t : Timeline) : Prop := {
  ro_length : (length (tl_Sightings t) ≤ MaxEntitySightings)%nat;
  ro_NoDup : NoDup (sg_HashID <$> tl_Sightings t);
  ro_hashes : ∀ s, s ∈ tl_Sightings t → sg_HashID s ∈ hashes;
  ro_bounds : ∀ s, s ∈ tl_Sightings t →
                tl_FirstSeen t ≤ sightingEventTimeOf s ≤ tl_LastSeen t;
  ro_order : 0 < tl_FirstSeen t ≤ tl_LastSeen t
             ∨ tl_Sightings t = [] ∧ tl_FirstSeen t = 0 ∧ tl_LastSeen t = 0 }.

(** What an entity document satisfies: the counters count the lists, the canonical
    hash is a hash of the entity, the timeline has at most one row per hash, all of
    them the entity's own and between the first and the last time it was seen. *)
Definition doc_ok (d : EntityDoc) : Prop :=
  agg_ok (ed_Agg d) ∧ rows_ok (ag_HashIDs (ed_Agg d)) (ed_Time d).

(** What the pipeline records: a hash, a source with a family, valid times. *)
Record sighting_ok (now : Time) (i : SightingInput) : Prop := {
  so_hash : TrimSpace (si_HashID i) ≠ estr;
  so_family : TrimSpace (SourceFamily (si_Source i)) ≠ estr;
  so_now : 0 < now;
  so_posted : 0 ≤ si_PostedAt i;
  so_seen : 0 ≤ si_SeenAt i }.

Lemma event_pos now i : sighting_ok now i → 0 < sightingEventTime now i.
Proof.
  intros [_ _ Hn Hp Hs]. unfold sightingEventTime, is_zero_time, zero_time.
  destruct (Z.eqb_spec (si_PostedAt i) 0); cbn [negb]; [|lia].
  destruct (Z.eqb_spec (si_SeenAt i) 0); cbn [negb]; lia.
Qed.

Section heat.
Context (now : Time).

Lemma best_sighting_in rows cfg :
  (best_sighting rows cfg now).1 = estr
  ∨ ∃ s, s ∈ rows ∧ (best_sighting rows cfg now).1 = sg_HashID s.
Proof.
  unfold best_sighting.
  set (f := λ '(bestHash, bestWeight) s, _ : string * spec_float).
  assert (∀ rows acc, (foldl f acc rows).1 = acc.1
    ∨ ∃ s, s ∈ rows ∧ (foldl f acc rows).1 = sg_HashID s) as H; [|exact (H rows (estr, _))].
  clear rows. induction rows as [|s rows IH]; intros [h w]; [by left|]. cbn [foldl].
  destruct (IH (f (h, w) s)) as [E|(s' & Hs' & E)]; [|right; exists s'; set_solver].
  rewrite E. subst f. cbn. destruct (_ && _); [right; exists s; set_solver|by left].
Qed.

Lemma set_canonical_ok a h : agg_ok a → h ∈ ag_HashIDs a → agg_ok (set_canonical a h).
Proof. by intros [? ? ? ? ? ?] Hh. Qed.

(** Heat touches the canonical hash only. *)
Lemma RecomputeEntityHeat_agg d cfg :
  ∃ h, ed_Agg (RecomputeEntityHeat d cfg now) = set_canonical (ed_Agg d) h
    ∧ (h = ag_CanonicalHash (ed_Agg d)
       ∨ ∃ s, s ∈ tl_Sightings (ed_Time d) ∧ h = sg_HashID s).
Proof.
  assert (set_canonical (ed_Agg d) (ag_CanonicalHash (ed_Agg d)) = ed_Agg d) as Hid
    by (by destruct (ed_Agg d)).
  unfold RecomputeEntityHeat. destruct (hc_Enabled cfg); cbn [negb]; cbv zeta.
  - unfold promoteCanonicalByHeat. cbn [ed_Time set_doc_heat ed_Agg].
    destruct (String.eqb_spec
      (best_sighting (tl_Sightings (ed_Time d)) (normalizeHeatConfig cfg) now).1 estr) as [E|E].
    + exists (ag_CanonicalHash (ed_Agg d)). cbn. by split; [|left].
    + eexists. cbn [ed_Agg set_agg set_doc_heat]. split; [done|].
      destruct (best_sighting_in (tl_Sightings (ed_Time d)) (normalizeHeatConfig cfg)) as [?|?];
        [done|by right].
  - exists (ag_CanonicalHash (ed_Agg d)). by split; [|left].
Qed.

Lemma RecomputeEntityHeat_frame d cfg :
  ed_Time (RecomputeEntityHeat d cfg now) = ed_Time d
  ∧ ed_EntityID (RecomputeEntityHeat d cfg now) = ed_EntityID d
  ∧ ed_AliasKeys (RecomputeEntityHeat d cfg now) = ed_AliasKeys d
  ∧ ed_MergeGeneration (RecomputeEntityHeat d cfg now) = ed_MergeGeneration d.
Proof.
  unfold RecomputeEntityHeat, promoteCanonicalByHeat. destruct (hc_Enabled cfg); cbn [negb]; [|done].
  cbv zeta. by destruct (String.eqb _ _).
Qed.

Lemma RecomputeEntityHeat_ok d cfg : doc_ok d → doc_ok (RecomputeEntityHeat d cfg now).
Proof.
  intros [Ha Hr]. destruct (RecomputeEntityHeat_agg d cfg) as (h & Hagg & Hh).
  destruct (RecomputeEntityHeat_frame d cfg) as (Ht & _). unfold doc_ok.
  rewrite Hagg, Ht. split; [|done]. apply set_canonical_ok; [done|].
  destruct Hh as [->|(s & Hs & ->)]; [apply Ha|by apply (ro_hashes _ _ Hr)].
Qed.
End heat.

Section merge.
Context `{Sorter} (now : Time).

Lemma bounds_ok i hashes t :
  sighting_ok now i → TrimSpace (si_HashID i) ∈ hashes → rows_ok hashes t →
  rows_ok hashes (updateEntitySeenBounds now i {|
    tl_Sightings := appendOrRefreshEntitySighting now i (tl_Sightings t);
    tl_FirstSeen := tl_FirstSeen t; tl_LastSeen := tl_LastSeen t |}).
Proof.
  intros Hi Hh [Hl Hn Hs Hb Ho]. pose proof (event_pos _ _ Hi) as He.
  pose proof (so_now _ _ Hi) as Hnow.
  assert (∀ s, s ∈ appendOrRefreshEntitySighting now i (tl_Sightings t) → _) as Hrow
    by (intros s Hin; exact (append_rows now i (tl_Sightings t) s ltac:(lia) Hin)).
  unfold updateEntitySeenBounds, is_zero_time, zero_time, time_before, time_after.
  split; cbn [tl_Sightings tl_FirstSeen tl_LastSeen].
  - by apply append_length.
  - by apply append_NoDup.
  - intros s Hin. destruct (Hrow s Hin) as [[Hc| ->] _]; [|done].
    apply list_elem_of_fmap in Hc as (s' & -> & Hs'). by apply Hs.
  - intros s Hin. destruct (Hrow s Hin) as [_ [Hv|(s' & Hs' & Hv)]]; rewrite Hv;
      [|pose proof (Hb _ Hs') as Hb'; destruct Ho as [Ho|(Hnil & _)];
        [|rewrite Hnil in Hs'; by apply elem_of_nil in Hs']];
      z_cases; cbn [orb]; lia.
  - left. destruct Ho as [Ho|(_ & Hf & Hla)]; z_cases; cbn [orb]; lia.
Qed.

Lemma Patch_ok d i :
  sighting_ok now i → agg_ok (ed_Agg d) → TrimSpace (si_HashID i) ∈ ag_HashIDs (ed_Agg d) →
  rows_ok (ag_HashIDs (ed_Agg d)) (ed_Time d) → doc_ok (PatchSightingTimeline now d i).
Proof. intros Hi Ha Hh Hr. split; [done|]. by apply bounds_ok. Qed.

Lemma rows_ok_mono h1 h2 t : (∀ x, x ∈ h1 → x ∈ h2) → rows_ok h1 t → rows_ok h2 t.
Proof. intros Hsub [? ? Hs ? ?]. split; try done. intros s Hin. by apply Hsub, Hs. Qed.

Lemma uniq_singleton v : trimmed v → uniqStrings [v] = [v].
Proof. intros Hv. apply uniqStrings_id. split; [apply NoDup_singleton|by apply Forall_singleton]. Qed.

Lemma uniq_trim v : TrimSpace v ≠ estr → uniqStrings [v] = [TrimSpace v].
Proof.
  intros Hv. rewrite <- (uniq_singleton (TrimSpace v)) by (by apply TrimSpace_trimmed).
  unfold uniqStrings. cbn [fmap list_fmap]. by rewrite TrimSpace_idemp.
Qed.

Lemma NewDocWithHeat_ok id pk keys i heat :
  sighting_ok now i → doc_ok (NewDocWithHeat now id pk keys i heat).
Proof.
  intros Hi. unfold NewDocWithHeat.
  destruct (sightingSignals (si_Stack i) (si_Text i) (si_Matched i)) as [pain role].
  apply RecomputeEntityHeat_ok, Patch_ok; cbn [ed_Agg ed_Time ag_HashIDs]; [done| | |].
  - rewrite (uniq_singleton (TrimSpace (si_HashID i)))
      by (apply TrimSpace_trimmed, (so_hash _ _ Hi)).
    pose proof (uniq_trim (SourceFamily (si_Source i)) (so_family _ _ Hi)) as Hf.
    split; cbn [ag_HashIDs ag_SightingCount ag_SourceFamilies ag_SourceCount ag_PainHits
                ag_CanonicalHash].
    + split; [apply NoDup_singleton|].
      apply Forall_singleton, TrimSpace_trimmed, (so_hash _ _ Hi).
    + done.
    + apply uniqStrings_clean.
    + by rewrite Hf.
    + destruct pain; lia.
    + by apply list_elem_of_singleton.
  - rewrite uniq_singleton by (apply TrimSpace_trimmed, (so_hash _ _ Hi)).
    by apply list_elem_of_singleton.
  - split; cbn [tl_Sightings tl_FirstSeen tl_LastSeen]; [cbn; lia|constructor| | |by right];
      intros s Hs; by apply elem_of_nil in Hs.
Qed.

Lemma EntityHashKnown_elem d hash :
  TrimSpace hash ≠ estr → EntityHashKnown d hash = true ↔ TrimSpace hash ∈ ag_HashIDs (ed_Agg d).
Proof.
  intros Hh. unfold EntityHashKnown. rewrite (proj2 (String.eqb_neq _ _) Hh).
  apply containsString_elem.
Qed.

(** Without a known hash a sighting counts once. *)
Lemma add_sighting_ok a i :
  sighting_ok now i → agg_ok a → TrimSpace (si_HashID i) ∉ ag_HashIDs a →
  agg_ok (add_sighting a i).1
  ∧ ag_HashIDs (add_sighting a i).1 = ag_HashIDs a ++ [TrimSpace (si_HashID i)].
Proof.
  intros Hi [Hh Hc Hf Hs Hp Hk] Hn.
  assert (unionStrings (ag_HashIDs a) [TrimSpace (si_HashID i)]
    = ag_HashIDs a ++ [TrimSpace (si_HashID i)]) as Hu.
  { apply unionStrings_new; [done| |done]. apply TrimSpace_trimmed, (so_hash _ _ Hi). }
  unfold add_sighting.
  destruct (sightingSignals (si_Stack i) (si_Text i) (si_Matched i)) as [pain role].
  cbn [fst ag_HashIDs]. split; [|done].
  split; cbn [ag_HashIDs ag_SightingCount ag_SourceFamilies ag_SourceCount ag_PainHits
              ag_CanonicalHash].
  - by apply unionStrings_clean.
  - rewrite Hu, length_app, Hc. cbn. lia.
  - destruct (_ && _); [by apply unionStrings_clean|done].
  - done.
  - destruct pain; lia.
  - rewrite Hu. repeat case_match; set_solver.
Qed.

(** C-level invariant: a merge keeps the document well formed. *)
Lemma MergeSightingWithHeat_ok d keys i heat :
  sighting_ok now i → doc_ok d → doc_ok (MergeSightingWithHeat now d keys i heat).1.
Proof.
  intros Hi [Ha Hr]. unfold MergeSightingWithHeat.
  destruct (EntityHashKnown d (TrimSpace (si_HashID i))) eqn:E.
  - unfold refreshEntitySighting, refreshEntitySightingWithHeat. cbn [fst].
    apply RecomputeEntityHeat_ok, Patch_ok; cbn [ed_Agg ed_Time next_generation]; try done.
    apply EntityHashKnown_elem in E; [|rewrite TrimSpace_idemp; apply Hi].
    by rewrite TrimSpace_idemp in E.
  - assert (TrimSpace (si_HashID i) ∉ ag_HashIDs (ed_Agg d)) as Hn.
    { intros Hin. assert (EntityHashKnown d (TrimSpace (si_HashID i)) = true); [|congruence].
      apply EntityHashKnown_elem; rewrite TrimSpace_idemp; [apply Hi|done]. }
    destruct (add_sighting_ok (ed_Agg d) i Hi Ha Hn) as [Ha' Hh'].
    destruct (add_sighting (ed_Agg d) i) as [agg newFamily]. cbn [fst] in *.
    apply RecomputeEntityHeat_ok, Patch_ok; cbn [ed_Agg ed_Time]; [done|done| |].
    + rewrite Hh'. set_solver.
    + eapply rows_ok_mono; [|exact Hr]. rewrite Hh'. set_solver.
Qed.
End merge.
