(* ===== verification/EntityProps.v ===== *)
(** Properties of the entity graph: what the memory store has recorded, the
    optimistic merge of the Mongo store as one atomic step, heat tiers, splits,
    clusters and link suggestions. *)
From S2P Require Import Prelude Unicode GoStrings Utf8Facts TextFacts GoSort Matcher.
From S2P Require Import Validate SourceRep Scoring Extract Hashes Entity EntityKeys.
From S2P Require Import EntityKeyFacts EntityDoc EntityStore EntityReview EntityFacts.
From Stdlib Require Import SpecFloat.

Local Open Scope Z_scope.

(** ** Frames of the merge *)

Section frames.
Context `{Sorter} (now : Time).

Lemma NewDoc_frame id pk keys i heat :
  ed_EntityID (NewDocWithHeat now id pk keys i heat) = id
  ∧ ag_HashIDs (ed_Agg (NewDocWithHeat now id pk keys i heat))
    = uniqStrings [TrimSpace (si_HashID i)]
  ∧ ed_AliasKeys (NewDocWithHeat now id pk keys i heat) = AliasTokens keys
  ∧ ag_SightingCount (ed_Agg (NewDocWithHeat now id pk keys i heat)) = 1
  ∧ ag_SourceCount (ed_Agg (NewDocWithHeat now id pk keys i heat)) = 1.
Proof.
  unfold NewDocWithHeat. destruct (sightingSignals _ _ _) as [pain role].
  match goal with |- context [RecomputeEntityHeat ?d heat now] =>
    destruct (RecomputeEntityHeat_frame now d heat) as (_ & H1 & H2 & _);
    destruct (RecomputeEntityHeat_agg now d heat) as (h & H3 & _) end.
  rewrite H1, H2, H3. done.
Qed.

Lemma merge_frame d keys i heat :
  ed_EntityID (MergeSightingWithHeat now d keys i heat).1 = ed_EntityID d
  ∧ ed_MergeGeneration (MergeSightingWithHeat now d keys i heat).1 = ed_MergeGeneration d + 1.
Proof.
  unfold MergeSightingWithHeat, refreshEntitySighting, refreshEntitySightingWithHeat.
  destruct (EntityHashKnown d (TrimSpace (si_HashID i)));
    [|destruct (add_sighting (ed_Agg d) i) as [agg nf]]; cbn [fst];
    match goal with |- context [RecomputeEntityHeat ?d ?heat now] =>
      destruct (RecomputeEntityHeat_frame now d heat) as (_ & H1 & _ & H2) end;
    by rewrite H1, H2.
Qed.

Lemma merge_hashes d keys i heat :
  clean (ag_HashIDs (ed_Agg d)) → TrimSpace (si_HashID i) ≠ estr →
  ∀ h, h ∈ ag_HashIDs (ed_Agg (MergeSightingWithHeat now d keys i heat).1)
    ↔ h ∈ ag_HashIDs (ed_Agg d) ∨ h = TrimSpace (si_HashID i).
Proof.
  intros Hc Hh h. unfold MergeSightingWithHeat, refreshEntitySighting, refreshEntitySightingWithHeat.
  destruct (EntityHashKnown d (TrimSpace (si_HashID i))) eqn:E;
    [|unfold add_sighting; destruct (sightingSignals _ _ _) as [pain role]]; cbn [fst];
    match goal with |- context [RecomputeEntityHeat ?d ?heat now] =>
      destruct (RecomputeEntityHeat_agg now d heat) as (h' & H3 & _) end;
    rewrite H3;
    cbn [set_canonical ag_HashIDs ed_Agg PatchSightingTimeline set_time next_generation].
  - apply EntityHashKnown_elem in E; rewrite TrimSpace_idemp in *; [|done]. set_solver.
  - rewrite unionStrings_elem by done. cbn [fmap list_fmap].
    rewrite list_elem_of_singleton, TrimSpace_idemp.
    naive_solver.
Qed.
End frames.

(** ** The memory store *)

Definition store_ok (docs : Docs) : Prop :=
  ∀ k d, docs !! k = Some d → ed_EntityID d = k ∧ doc_ok d.

Definition visits (visit : Docs → list EntityDoc) : Prop :=
  ∀ docs d, d ∈ visit docs ↔ ∃ k, docs !! k = Some d.

Definition knows (docs : Docs) (hash : string) : Prop :=
  ∃ k d, docs !! k = Some d ∧ hash ∈ ag_HashIDs (ed_Agg d).

Section memory.
Context `{Sorter} `{HtmlLib} (blacklist : validate_state).
Variable visit : Docs → list EntityDoc.
Hypothesis visit_all : visits visit.

Lemma findLocked_in docs aliases id d :
  findLocked visit docs aliases id = Some d → ∃ k, docs !! k = Some d.
Proof.
  unfold findLocked. destruct (docs !! id) as [d'|] eqn:E; [intros [= <-]; by exists id|].
  intros Hf. apply find_some in Hf as [Hin _]. apply visit_all. by apply list_elem_of_In.
Qed.

(** One call, on a store that is well formed. *)
Lemma memory_step now window cfg i docs :
  sighting_ok now i → store_ok docs →
  ResolveKeys blacklist (si_Resolve i) ≠ [] →
  ∃ r d,
    MemoryRecordSighting visit blacklist now window cfg i docs = (Ok r, <[ed_EntityID d := d]> docs)
    ∧ rr_EntityID r = ed_EntityID d ∧ doc_ok d
    ∧ rr_SightingCount r = ag_SightingCount (ed_Agg d)
    ∧ rr_SourceCount r = ag_SourceCount (ed_Agg d)
    ∧ TrimSpace (si_HashID i) ∈ ag_HashIDs (ed_Agg d)
    ∧ (if rr_NewEntity r then docs !! ed_EntityID d = None
       else ∃ old, docs !! ed_EntityID d = Some old
                   ∧ ∀ h, h ∈ ag_HashIDs (ed_Agg old) → h ∈ ag_HashIDs (ed_Agg d)).
Proof.
  intros Hi Hok Hk. unfold MemoryRecordSighting, RecordSightingCore.
  destruct (ResolveKeys blacklist (si_Resolve i)) as [|pk keys'] eqn:Ek; [done|].
  cbn [PrimaryKey head]. rewrite (proj2 (String.eqb_neq _ _) (so_hash _ _ Hi)).
  change (Z.to_nat (if DefaultMergeMaxAttempts <=? 0 then DefaultMergeMaxAttempts
                    else DefaultMergeMaxAttempts)) with 4%nat.
  set (keys := pk :: keys'). cbn [attempts].
  unfold recordSightingOnce. cbn [MergeSightingAtomic lockedMemoryBackend].
  unfold find_and_merge. cbn [FindExisting lockedMemoryBackend].
  destruct (findLocked visit docs (AliasTokens keys) (EntityID keys)) as [old|] eqn:Ef.
  - apply findLocked_in in Ef as [k Hold]. destruct (Hok _ _ Hold) as [<- Hdoc].
    unfold merge_existing.
    pose proof (merge_frame now old keys i (heatConfig cfg)) as [Hid Hgen].
    pose proof (MergeSightingWithHeat_ok now old keys i (heatConfig cfg) Hi Hdoc) as Hd'.
    pose proof (merge_hashes now old keys i (heatConfig cfg) (ao_hashes _ (proj1 Hdoc))
      (so_hash _ _ Hi)) as Hhash.
    assert (∃ nf, (MergeSightingWithHeat now old keys i (heatConfig cfg)).2
      = counted (MergeSightingWithHeat now old keys i (heatConfig cfg)).1 nf) as [nf Hr].
    { unfold MergeSightingWithHeat, refreshEntitySighting, refreshEntitySightingWithHeat.
      destruct (EntityHashKnown _ _); [by exists false|].
      destruct (add_sighting _ _) as [a nf]. by exists nf. }
    destruct (MergeSightingWithHeat now old keys i (heatConfig cfg)) as [d r].
    cbn [fst snd assign ReplaceMerged lockedMemoryBackend] in *. subst r.
    unfold memory_ReplaceMerged. rewrite lookup_insert_eq, Hgen, Z.eqb_refl.
    eexists _, d. split; [done|]. cbn. split_and!; try done.
    + apply Hhash. by right.
    + exists old. rewrite Hid. split; [done|]. intros h Hh. apply Hhash. by left.
  - unfold insert_new. cbn [InsertNew lockedMemoryBackend]. unfold memory_InsertNew.
    pose proof (NewDoc_frame now (EntityID keys) pk keys i (heatConfig cfg)) as (Hid & Hh & Ha & Hc & Hs).
    pose proof (NewDocWithHeat_ok now (EntityID keys) pk keys i (heatConfig cfg) Hi) as Hd'.
    set (d := NewDocWithHeat now (EntityID keys) pk keys i (heatConfig cfg)) in *. clearbody d.
    assert (docs !! EntityID keys = None) as Hnew
      by (unfold findLocked in Ef; by destruct (docs !! EntityID keys)).
    rewrite Ha, Hid, Ef. eexists _, d. rewrite Hid. split; [done|].
    cbn [rr_EntityID rr_SightingCount rr_SourceCount rr_NewEntity EnrichRecordResult first_result].
    rewrite (uniq_singleton (TrimSpace (si_HashID i))) in Hh
      by (apply TrimSpace_trimmed, (so_hash _ _ Hi)).
    split_and!; try done.
    rewrite Hh. by apply list_elem_of_singleton.
Qed.
Lemma memory_no_keys now window cfg i docs :
  ResolveKeys blacklist (si_Resolve i) = [] →
  MemoryRecordSighting visit blacklist now window cfg i docs = (Ok no_result, docs).
Proof. intros Hk. unfold MemoryRecordSighting, RecordSightingCore. by rewrite Hk. Qed.

(** The store after a sequence of sightings, each at its own time. *)
Definition record_all (window : Duration) (cfg : HeatConfig) (l : list (Time * SightingInput))
    : Docs :=
  foldl (λ docs p, (MemoryRecordSighting visit blacklist p.1 window cfg p.2 docs).2) ∅ l.

Lemma memory_step_knows now window cfg i docs h :
  sighting_ok now i → store_ok docs → knows docs h →
  knows (MemoryRecordSighting visit blacklist now window cfg i docs).2 h.
Proof.
  intros Hi Hok (k & d0 & Hd0 & Hh).
  destruct (decide (ResolveKeys blacklist (si_Resolve i) = [])) as [E|E].
  { rewrite memory_no_keys by done. by exists k, d0. }
  destruct (memory_step now window cfg i docs Hi Hok E) as (r & d & -> & _ & _ & _ & _ & _ & Hold).
  cbn [snd]. destruct (decide (ed_EntityID d = k)) as [<-|Hne].
  - exists (ed_EntityID d), d. rewrite lookup_insert_eq. split; [done|].
    destruct (rr_NewEntity r); [congruence|]. destruct Hold as (old & Hold & Hsub).
    apply Hsub. congruence.
  - exists k, d0. by rewrite lookup_insert_ne.
Qed.

Lemma memory_step_ok now window cfg i docs :
  sighting_ok now i → store_ok docs →
  store_ok (MemoryRecordSighting visit blacklist now window cfg i docs).2.
Proof.
  intros Hi Hok. destruct (decide (ResolveKeys blacklist (si_Resolve i) = [])) as [E|E].
  { by rewrite memory_no_keys. }
  destruct (memory_step now window cfg i docs Hi Hok E) as (r & d & -> & _ & Hd & _).
  intros k d' Hk. cbn [snd] in Hk. destruct (decide (ed_EntityID d = k)) as [<-|Hne].
  - rewrite lookup_insert_eq in Hk. by simplify_eq.
  - rewrite lookup_insert_ne in Hk by done. by apply Hok.
Qed.

(** C9. The memory store keeps its documents well formed and loses no sighting.
    After any sequence of sightings every document is stored under its own id, its
    counters count its lists, its timeline is bounded, without duplicates and
    within first and last seen ([doc_ok]); and the hash of every sighting that
    resolved to a key is still on some entity — in whatever order Go visits the
    documents. *)
Theorem memory_history window cfg l :
  Forall (λ p, sighting_ok p.1 p.2) l →
  store_ok (record_all window cfg l)
  ∧ ∀ now i, (now, i) ∈ l → ResolveKeys blacklist (si_Resolve i) ≠ [] →
      knows (record_all window cfg l) (TrimSpace (si_HashID i)).
Proof.
  unfold record_all. induction l as [|[now i] l IH] using rev_ind.
  { intros _. split; [done|]. intros ? ? Hin. by apply elem_of_nil in Hin. }
  rewrite Forall_app, Forall_singleton. intros [Hl Hi]. cbn [fst snd] in Hi.
  destruct (IH Hl) as [Hok Hkn]. rewrite foldl_app. cbn [foldl fst snd].
  set (docs := foldl _ ∅ l) in *. split; [by apply memory_step_ok|].
  intros now' i' [Hin|Hin%list_elem_of_singleton]%elem_of_app Hk.
  - apply memory_step_knows; [done..|]. by apply (Hkn now').
  - simplify_eq.
    destruct (memory_step now window cfg i docs Hi Hok Hk) as (r & d & -> & _ & _ & _ & _ & Hh & _).
    exists (ed_EntityID d), d. cbn [snd]. by rewrite lookup_insert_eq.
Qed.

(** Recording never fails in memory.  On a well-formed store the merge loop
    succeeds at its first attempt: exactly one document changes, it is well formed
    and carries the hash; the result reports its counters; it is new exactly when
    the id was free, and otherwise no hash it had is gone. *)
Theorem memory_records now window cfg i docs :
  sighting_ok now i → store_ok docs → ResolveKeys blacklist (si_Resolve i) ≠ [] →
  ∃ r d,
    MemoryRecordSighting visit blacklist now window cfg i docs = (Ok r, <[ed_EntityID d := d]> docs)
    ∧ rr_EntityID r = ed_EntityID d ∧ doc_ok d
    ∧ rr_SightingCount r = ag_SightingCount (ed_Agg d)
    ∧ rr_SourceCount r = ag_SourceCount (ed_Agg d)
    ∧ TrimSpace (si_HashID i) ∈ ag_HashIDs (ed_Agg d)
    ∧ (if rr_NewEntity r then docs !! ed_EntityID d = None
       else ∃ old, docs !! ed_EntityID d = Some old
                   ∧ ∀ h, h ∈ ag_HashIDs (ed_Agg old) → h ∈ ag_HashIDs (ed_Agg d)).
Proof. intros. by apply memory_step. Qed.

End memory.

(** ** The Mongo store *)

(** What a recording observes of a document: all but its heat and its review. *)
Definition observed (d : EntityDoc) : EntityDoc := set_review (set_doc_heat d no_heat) no_review.

Lemma observed_inv d d' :
  observed d = observed d' → d' = set_review (set_doc_heat d (ed_Heat d')) (ed_Review d').
Proof. destruct d, d'. unfold observed, set_review, set_doc_heat. cbn. by intros [= -> -> -> -> -> -> ->]. Qed.

(** Two versions that a recording cannot tell apart, heat included when it is
    computed: only the review, and a heat nobody computes, may differ. *)
Definition agree (heat : HeatConfig) (d d' : EntityDoc) : Prop :=
  observed d = observed d' ∧ (hc_Enabled heat = true → ed_Heat d = ed_Heat d').

(** What the other writers may do to the documents between two operations of a
    call: insert, delete, put back, record, review — as long as a document found
    again with its generation is the one it was, heat and review apart. *)
Definition keeps (m m' : Docs) : Prop := ∀ k d d',
  m !! k = Some d → m' !! k = Some d' → ed_MergeGeneration d' = ed_MergeGeneration d →
  observed d' = observed d.

(** The documented behaviour of the driver, with other writers running: a read
    returns a document as it is stored, a write is atomic.  [others] is what the
    other writers do before an operation takes effect. *)
Class CollectionLaws (S : Type) `{Collection S} (docs : S → Docs) (others : relation Docs)
    : Prop := {
  others_keep m m' : others m m' → keeps m m';
  find_one_law aliases id s r s' :
    find_one aliases id s = (Ok r, s') →
    others (docs s) (docs s')
    ∧ match r with Some d => docs s' !! ed_EntityID d = Some d | None => True end;
  insert_one_law doc s dup s' :
    insert_one doc s = (Ok dup, s') →
    ∃ m, others (docs s) m
      ∧ if dup then docs s' = m
        else m !! ed_EntityID doc = None ∧ docs s' = <[ed_EntityID doc := doc]> m;
  replace_one_law id gen doc s n s' :
    replace_one id gen doc s = (Ok n, s') →
    ∃ m, others (docs s) m
      ∧ if n =? 1 then ∃ d, m !! id = Some d ∧ ed_MergeGeneration d = gen
                           ∧ docs s' = <[id := doc]> m
        else docs s' = m }.

Section mongo.
Context `{Sorter} `{HtmlLib} {S : Type} `{Collection S} (docs : S → Docs) (others : relation Docs)
  `{!CollectionLaws S docs others}.
Context (blacklist : validate_state) (now : Time).

(** One sighting, applied to the documents in one step. *)
Inductive applied (keys : list EntityKey) (i : SightingInput) (heat : HeatConfig)
    (m : Docs) : Docs → Prop :=
  | applied_new pk :
      PrimaryKey keys = Some pk → m !! EntityID keys = None →
      applied keys i heat m
        (<[EntityID keys := NewDocWithHeat now (EntityID keys) pk keys i heat]> m)
  | applied_merge k d d' :
      m !! k = Some d → agree heat d' (MergeSightingWithHeat now d keys i heat).1 →
      applied keys i heat m (<[k := d']> m)
  | applied_refresh k d d' :
      m !! k = Some d → EntityHashKnown d (TrimSpace (si_HashID i)) = true →
      agree heat d' (RecomputeEntityHeat (refreshEntitySighting now d i).1 heat now) →
      applied keys i heat m (<[k := d']> m).

Lemma recompute_agree d d' heat :
  observed d = observed d' →
  agree heat (RecomputeEntityHeat d heat now) (RecomputeEntityHeat d' heat now).
Proof.
  intros ->%observed_inv. unfold agree, RecomputeEntityHeat, promoteCanonicalByHeat.
  destruct (hc_Enabled heat); cbn [negb]; [|done]. cbv zeta. cbn. by destruct (String.eqb _ estr).
Qed.

Lemma merge_agree d d' keys i heat :
  observed d = observed d' →
  agree heat (MergeSightingWithHeat now d keys i heat).1
    (MergeSightingWithHeat now d' keys i heat).1.
Proof.
  intros Ho. pose proof (observed_inv _ _ Ho) as E.
  unfold MergeSightingWithHeat, refreshEntitySighting, refreshEntitySightingWithHeat.
  assert (EntityHashKnown d' (TrimSpace (si_HashID i))
    = EntityHashKnown d (TrimSpace (si_HashID i))) as -> by by rewrite E.
  assert (ed_Agg d' = ed_Agg d) as -> by by rewrite E.
  clear Ho. revert E. generalize (ed_Heat d') (ed_Review d'). intros h v ->.
  destruct (EntityHashKnown d (TrimSpace (si_HashID i))).
  - cbn [fst]. split; [|intros _]; by apply recompute_agree.
  - destruct (add_sighting (ed_Agg d) i) as [agg nf]. cbn [fst].
    by apply recompute_agree.
Qed.

Lemma refresh_agree d d' i heat :
  observed d = observed d' →
  agree heat (RecomputeEntityHeat (refreshEntitySighting now d i).1 heat now)
    (RecomputeEntityHeat (refreshEntitySighting now d' i).1 heat now).
Proof.
  intros Ho. apply recompute_agree.
  unfold refreshEntitySighting, refreshEntitySightingWithHeat. cbn [fst].
  apply recompute_agree. by rewrite (observed_inv _ _ Ho).
Qed.

Lemma mongo_write_law doc gen nf window s r s' :
  mongo_write doc gen nf window s = (Ok r, s') →
  ∃ m, others (docs s) m
    ∧ match r with
      | Some _ => ∃ d, m !! ed_EntityID doc = Some d ∧ ed_MergeGeneration d = gen
                       ∧ docs s' = <[ed_EntityID doc := doc]> m
      | None => docs s' = m
      end.
Proof.
  unfold mongo_write, mongo_ReplaceMerged.
  destruct (replace_one (ed_EntityID doc) gen doc s) as [[n|e] s1] eqn:E; [|done].
  apply replace_one_law in E as (m & Hg & Hm).
  destruct (n =? 1); intros [= <- <-]; by exists m.
Qed.
(** What a round of the loop does: one sighting applied to the current documents
    when it succeeds, nothing of its own when it has to be retried. *)
Definition round_law (keys : list EntityKey) (i : SightingInput) (heat : HeatConfig) (s : S)
    (finished : bool) (s' : S) : Prop :=
  if finished then ∃ m, rtc others (docs s) m ∧ applied keys i heat m (docs s')
  else rtc others (docs s) (docs s').

Definition finished (r : option RecordResult) : bool :=
  match r with Some _ => true | None => false end.

Lemma round_law_trans keys i heat s1 s2 r s3 :
  rtc others (docs s1) (docs s2) → round_law keys i heat s2 r s3 → round_law keys i heat s1 r s3.
Proof.
  intros Hg. destruct r; cbn.
  - intros (m & Hm & Ha). exists m. split; [by etrans|done].
  - by etrans.
Qed.

(** Writing a new version of the document that was read. *)
Lemma write_version keys i heat existing doc nf window s r s' :
  docs s !! ed_EntityID existing = Some existing →
  ed_EntityID doc = ed_EntityID existing →
  (∀ m d, m !! ed_EntityID existing = Some d → observed existing = observed d →
        applied keys i heat m (<[ed_EntityID existing := doc]> m)) →
  mongo_write doc (ed_MergeGeneration existing) nf window s = (Ok r, s') →
  round_law keys i heat s (finished r) s'.
Proof.
  intros Hcur Hid Happ Hw. apply mongo_write_law in Hw as (m & Hg & Hm).
  destruct r as [r|]; cbn; [|rewrite Hm; by apply rtc_once].
  destruct Hm as (d & Hd & Hgen & ->). rewrite Hid in *. exists m. split; [by apply rtc_once|].
  apply (Happ m d Hd). symmetry. by apply (others_keep _ _ Hg _ _ _ Hcur Hd).
Qed.

Lemma atomic_round keys aliases id i window heat s r s' :
  mongo_MergeSightingAtomic now keys aliases id i window heat s = (Ok r, s') →
  round_law keys i heat s (finished r) s'.
Proof.
  unfold mongo_MergeSightingAtomic, mongo_FindExisting.
  destruct (is_empty aliases && String.eqb id estr).
  { intros [= <- <-]. by cbn. }
  destruct (find_one aliases id s) as [[found|e] s1] eqn:E; [|done].
  apply find_one_law in E as [Hg%rtc_once Hcur].
  destruct found as [existing|]; [|by intros [= <- <-]].
  intros Hr. apply (round_law_trans _ _ _ s s1); [done|].
  destruct (EntityHashKnown existing (TrimSpace (si_HashID i))) eqn:Ek.
  - unfold mergeEntitySightingRefresh in Hr. eapply write_version; [exact Hcur| | |exact Hr].
    + unfold refreshEntitySighting, refreshEntitySightingWithHeat. cbn [fst].
      destruct (RecomputeEntityHeat_frame now (RecomputeEntityHeat (PatchSightingTimeline now
        (next_generation existing) i) DefaultHeatConfig now) heat) as (_ & -> & _).
      by destruct (RecomputeEntityHeat_frame now (PatchSightingTimeline now
        (next_generation existing) i) DefaultHeatConfig) as (_ & -> & _).
    + intros m d Hm Ho. apply (applied_refresh _ _ _ _ _ d); [done| |by apply refresh_agree].
      by rewrite (observed_inv _ _ Ho).
  - pose proof (merge_frame now existing keys i heat) as [Hid _].
    destruct (MergeSightingWithHeat now existing keys i heat) as [doc rr] eqn:Em.
    cbn [fst] in Hid. eapply write_version; [exact Hcur|exact Hid| |exact Hr].
    intros m d Hm Ho. apply (applied_merge _ _ _ _ _ d); [done|].
    pose proof (merge_agree _ _ keys i heat Ho) as Ha. by rewrite Em in Ha.
Qed.

Lemma fallback_round keys aliases pk i window heat s r s' :
  PrimaryKey keys = Some pk →
  find_and_merge (B := EntityStore now) now keys aliases (EntityID keys) pk i window heat s
    = (Ok r, s') →
  round_law keys i heat s (finished r) s'.
Proof.
  intros Hpk. unfold find_and_merge. cbn [FindExisting EntityStore]. unfold mongo_FindExisting.
  assert (∀ s, insert_new (B := EntityStore now) now keys (EntityID keys) pk i window heat s
      = (Ok r, s') → round_law keys i heat s (finished r) s') as Hins.
  { intros s0. unfold insert_new. cbn [InsertNew EntityStore].
    destruct (insert_one _ s0) as [[dup|e] s1] eqn:E; [|done].
    apply insert_one_law in E as (m & Hg & Hm).
    destruct (NewDoc_frame now (EntityID keys) pk keys i heat) as (Hid & _).
    destruct dup; intros [= <- <-]; cbn; [rewrite Hm; by apply rtc_once|].
    exists m. split; [by apply rtc_once|]. destruct Hm as [Hn ->]. rewrite Hid in *. by apply applied_new. }
  destruct (is_empty aliases && _); [apply Hins|].
  destruct (find_one aliases (EntityID keys) s) as [[found|e] s1] eqn:E; [|done].
  apply find_one_law in E as [Hg%rtc_once Hcur]. intros Hr. apply (round_law_trans _ _ _ s s1); [done|].
  destruct found as [existing|]; [|by apply Hins].
  unfold merge_existing in Hr.
  pose proof (merge_frame now existing keys i heat) as [Hid _].
  destruct (MergeSightingWithHeat now existing keys i heat) as [doc rr] eqn:Em.
  cbn [fst assign EntityStore ReplaceMerged] in *.
  assert (∃ r', finished r' = finished r
    ∧ mongo_write doc (ed_MergeGeneration existing) false window s1 = (Ok r', s'))
    as (r' & <- & Hw).
  { unfold mongo_write.
    destruct (mongo_ReplaceMerged doc (ed_MergeGeneration existing) s1) as [[[|]|e] s2]; [| |done];
      injection Hr as <- <-; eexists; (split; [|reflexivity]); done. }
  apply (write_version keys i heat existing doc false window s1 r' s' Hcur Hid); [|done].
  intros m d Hm Ho. apply (applied_merge _ _ _ _ _ d); [done|].
  pose proof (merge_agree _ _ keys i heat Ho) as Ha. by rewrite Em in Ha.
Qed.
Lemma once_round keys pk i window heat s r s' :
  PrimaryKey keys = Some pk →
  recordSightingOnce (B := EntityStore now) now keys (AliasTokens keys) (EntityID keys) pk i
    window heat s = (Ok r, s') →
  round_law keys i heat s (finished r) s'.
Proof.
  intros Hpk. unfold recordSightingOnce. cbn [MergeSightingAtomic EntityStore].
  destruct (mongo_MergeSightingAtomic _ _ _ _ _ _ _ s) as [[[r0|]|e] s1] eqn:E; [| |done];
    apply atomic_round in E; intros Hr.
  - by injection Hr as <- <-.
  - apply (round_law_trans _ _ _ s s1); [done|]. by eapply fallback_round.
Qed.

(** C3. Recording a sighting in Mongo is one atomic step.  When the call succeeds,
    its only effect is to apply the sighting — a new document under a free id, or
    the merge into a document as it is at the moment of the write — to the documents
    as the other writers have left them by then, however often the loop had to retry.
    Before each operation of the call the other writers may insert, delete, put back,
    record and review; what is asked of them is that a document which still has, or
    has again, the generation the call read is the one it read, heat and review
    apart ([keeps]).  Merges, insertions, deletions and reviews are such writers; a split
    that replaces its source by the id alone, over a merge it did not see, is not.  The merge is exact but for the review fields, and the heat when
    heat is not computed: those are of the version read ([agree]). *)
Theorem mongo_atomic window cfg i s r s' :
  ResolveKeys blacklist (si_Resolve i) ≠ [] → TrimSpace (si_HashID i) ≠ estr →
  MongoRecordSighting now blacklist window cfg i s = (Ok r, s') →
  ∃ m, rtc others (docs s) m
    ∧ applied (ResolveKeys blacklist (si_Resolve i)) i (heatConfig cfg) m (docs s').
Proof.
  intros Hk Hh. unfold MongoRecordSighting, RecordSightingCore.
  destruct (ResolveKeys blacklist (si_Resolve i)) as [|pk keys] eqn:Ek; [done|].
  cbn [PrimaryKey head]. rewrite (proj2 (String.eqb_neq _ _) Hh).
  generalize (Z.to_nat (if DefaultMergeMaxAttempts <=? 0 then DefaultMergeMaxAttempts
                        else DefaultMergeMaxAttempts)) as n.
  intros n. revert s. induction n as [|n IH]; intros s Hr; [done|]. cbn [attempts] in Hr.
  destruct (recordSightingOnce _ _ _ _ _ _ _ _ s) as [[[r0|]|e] s1] eqn:E; [| |done].
  - injection Hr as <- <-. by apply once_round in E.
  - apply once_round in E; [|done]. destruct (IH s1 Hr) as (m & Hg & Ha).
    exists m. split; [|exact Ha]. etrans; [exact E|exact Hg].
Qed.
End mongo.

(** ** What the writers of the repository do

    Each write, of the document as it is then, keeps what [keeps] asks. *)
Section writers.
Context `{Sorter} (now : Time).

(** A write to one document that raises its generation, or touches its heat and
    its review alone. *)
Definition fair_write (f : EntityDoc → EntityDoc) : Prop := ∀ d,
  ed_MergeGeneration d < ed_MergeGeneration (f d) ∨ observed (f d) = observed d.

Lemma keeps_alter f k m : fair_write f → keeps m (alter f k m).
Proof.
  intros Hf k' d d' Hd Hd' Hg. destruct (decide (k' = k)) as [->|Hne].
  - rewrite lookup_alter_eq, Hd in Hd'. injection Hd' as <-. destruct (Hf d); [lia|done].
  - rewrite lookup_alter_ne in Hd' by done. by simplify_eq.
Qed.

Lemma keeps_delete k m : keeps m (delete k m).
Proof.
  intros k' d d' Hd Hd' _. apply lookup_delete_Some in Hd' as [_ Hd']. by simplify_eq.
Qed.

Lemma keeps_insert k d m : m !! k = None → keeps m (<[k := d]> m).
Proof.
  intros Hn k' d' d'' Hd Hd'' _. rewrite lookup_insert_ne in Hd'' by congruence. by simplify_eq.
Qed.

Lemma fair_merge keys i heat : fair_write (λ d, (MergeSightingWithHeat now d keys i heat).1).
Proof. intros d. left. pose proof (merge_frame now d keys i heat) as [_ ->]. lia. Qed.

Lemma fair_force force : fair_write (set_force force).
Proof. intros d. by right. Qed.
End writers.

(** A collection with a script of what the other writers do before each operation;
    [P] is what they may do.  [find_one] returns the first document in the order of
    the map: the order among several candidates plays no role here. *)
Module Scripted.

Record db (P : (Docs → Docs) → Prop) := {
  db_docs : Docs; db_script : list { f : Docs → Docs | P f } }.
Arguments db_docs {P} _.
Arguments db_script {P} _.

Section collection.
Context {P : (Docs → Docs) → Prop}.

Definition play (s : db P) : db P :=
  match db_script s with
  | [] => s
  | f :: rest => {| db_docs := (proj1_sig f) (db_docs s); db_script := rest |}
  end.

Definition put (s : db P) (m : Docs) : db P := {| db_docs := m; db_script := db_script s |}.

Definition candidate (aliases : list string) (id : string) (p : string * EntityDoc) : bool :=
  String.eqb p.1 (ed_EntityID p.2)
  && (String.eqb p.1 id || existsb (containsString (ed_AliasKeys p.2)) aliases).

#[global] Instance collection : Collection (db P) := {|
  find_one aliases id s :=
    let s := play s in
    (Ok (snd <$> List.find (candidate aliases id) (map_to_list (db_docs s))), s);
  insert_one doc s :=
    let s := play s in
    match db_docs s !! ed_EntityID doc with
    | Some _ => (Ok true, s)
    | None => (Ok false, put s (<[ed_EntityID doc := doc]> (db_docs s)))
    end;
  replace_one id gen doc s :=
    let s := play s in
    match db_docs s !! id with
    | Some d => if ed_MergeGeneration d =? gen then (Ok 1, put s (<[id := doc]> (db_docs s)))
                else (Ok 0, s)
    | None => (Ok 0, s)
    end |}.
End collection.

Definition fair (f : Docs → Docs) : Prop := ∀ m, keeps m (f m).

(** Nothing, or one step of a script of fair steps. *)
Definition step (m m' : Docs) : Prop := m' = m ∨ ∃ f, fair f ∧ m' = f m.

Lemma play_grows (s : db fair) : step (db_docs s) (db_docs (play s)).
Proof.
  unfold play. destruct (db_script s) as [|[f Hf] rest]; [by left|right]. by exists f.
Qed.

#[global] Instance laws : CollectionLaws (db fair) db_docs step.
Proof.
  split.
  - intros m m' [->|(f & Hf & ->)]; [|apply Hf]. intros k d d' Hd Hd' _. by simplify_eq.
  - intros aliases id s r s' [= <- <-]. split; [apply play_grows|].
    destruct (List.find _ _) as [[k d]|] eqn:E; cbn; [|done].
    apply find_some in E as [Hin Hc]. apply andb_true_iff in Hc as [Hk%String.eqb_eq _].
    cbn in Hk. subst k.
    apply list_elem_of_In, elem_of_map_to_list in Hin. done.
  - intros doc s dup s'. cbn. destruct (db_docs (play s) !! ed_EntityID doc) eqn:E;
      intros [= <- <-]; (exists (db_docs (play s)); split; [apply play_grows|done]).
  - intros id gen doc s n s'. cbn. destruct (db_docs (play s) !! id) as [d|] eqn:E;
      [destruct (Z.eqb_spec (ed_MergeGeneration d) gen)|];
      intros [= <- <-]; (exists (db_docs (play s)); split; [apply play_grows|]); cbn; [|done..].
    by exists d.
Qed.
End Scripted.

(** What [PatchEntityClassification] sets on the stored document
    ([internal/sink/entity_classify.go]); the generation is not part of it. *)
Definition classification_set (p : EntityClassificationPatch) (d : EntityDoc) : EntityDoc :=
  set_review (downgrade d (cp_HeatTierDowngrade p))
    (patched_review (ed_Review d) p
       (if String.eqb (cp_SemanticCluster p) estr then rv_SemanticCluster (ed_Review d)
        else cp_SemanticCluster p)).

Lemma fair_classification p : fair_write (classification_set p).
Proof. intros d. right. unfold classification_set, downgrade. by destruct (String.eqb _ _). Qed.

Lemma merge_review `{Sorter} now d keys i heat :
  ed_Review (MergeSightingWithHeat now d keys i heat).1 = ed_Review d.
Proof.
  unfold MergeSightingWithHeat, refreshEntitySighting, refreshEntitySightingWithHeat,
    RecomputeEntityHeat, promoteCanonicalByHeat.
  destruct (EntityHashKnown d (TrimSpace (si_HashID i)));
    [|destruct (add_sighting (ed_Agg d) i) as [agg nf]]; cbv zeta; cbn [fst];
    repeat match goal with |- context [if ?b then _ else _] => destruct b end; done.
Qed.

(** A classification can be lost.  [$set] leaves the generation alone, so a
    classification written between the read and the write of a merge is not seen by
    the compare-and-swap: the call succeeds and the document it writes has the
    review fields of the version read before the classification. *)
Theorem classification_lost `{Sorter} `{HtmlLib} now blacklist window cfg i d
    (p : EntityClassificationPatch) :
  let keys := ResolveKeys blacklist (si_Resolve i) in
  keys ≠ [] → TrimSpace (si_HashID i) ≠ estr → EntityID keys = ed_EntityID d →
  EntityHashKnown d (TrimSpace (si_HashID i)) = false →
  ∃ (s s' : Scripted.db (λ _, True)) r d',
    Scripted.db_docs s = {[ed_EntityID d := d]}
    ∧ proj1_sig <$> Scripted.db_script s = [id; alter (classification_set p) (ed_EntityID d)]
    ∧ MongoRecordSighting now blacklist window cfg i s = (Ok r, s')
    ∧ Scripted.db_docs s' = {[ed_EntityID d := d']}
    ∧ ed_Review d' = ed_Review d.
Proof.
  intros keys Hk Hh Hid Hnew.
  set (s := {| Scripted.db_docs := {[ed_EntityID d := d]};
    Scripted.db_script := [exist _ id I; exist _ (alter (classification_set p) (ed_EntityID d)) I]
    |} : Scripted.db (λ _, True)).
  pose proof (merge_review now d keys i (heatConfig cfg)) as Hrv.
  pose proof (merge_frame now d keys i (heatConfig cfg)) as [Hid' _].
  exists s. unfold MongoRecordSighting, RecordSightingCore. fold keys.
  destruct (PrimaryKey keys) as [pk|] eqn:Ep; [|by destruct keys].
  rewrite (proj2 (String.eqb_neq _ _) Hh).
  change (Z.to_nat (if DefaultMergeMaxAttempts <=? 0 then DefaultMergeMaxAttempts
                    else DefaultMergeMaxAttempts)) with 4%nat.
  cbn [attempts]. unfold recordSightingOnce. cbn [MergeSightingAtomic EntityStore].
  unfold mongo_MergeSightingAtomic, mongo_FindExisting.
  assert (is_empty (AliasTokens keys) = false) as -> by (by destruct keys). cbn [andb].
  assert (find_one (AliasTokens keys) (EntityID keys) s
    = (Ok (Some d), Scripted.play s)) as ->.
  { cbn. unfold id. rewrite map_to_list_singleton. cbn. unfold Scripted.candidate. cbn.
    rewrite Hid, !String.eqb_refl. done. }
  rewrite Hnew. destruct (MergeSightingWithHeat now d keys i (heatConfig cfg)) as [doc r] eqn:Em.
  cbn [fst] in *. unfold mongo_write, mongo_ReplaceMerged.
  assert (replace_one (ed_EntityID doc) (ed_MergeGeneration d) doc (Scripted.play s)
    = (Ok 1, Scripted.put (Scripted.play (Scripted.play s)) {[ed_EntityID d := doc]})) as ->.
  { cbn. rewrite Hid'. unfold id. rewrite lookup_alter_eq, lookup_singleton_eq. cbn.
    rewrite alter_singleton_eq, insert_singleton_eq.
    unfold downgrade. destruct (String.eqb _ _); cbn; by rewrite Z.eqb_refl. }
  cbn [Z.eqb Pos.eqb]. eexists _, _, doc. by split_and!.
Qed.
