(* ===== verification/EntityReviewProps.v ===== *)
(** Properties of heat tiers, splits, semantic clusters and link suggestions. *)
From S2P Require Import Prelude Unicode GoStrings Utf8Facts TextFacts GoSort Matcher.
From S2P Require Import Validate SourceRep Scoring Extract Hashes Entity EntityKeys.
From S2P Require Import EntityKeyFacts EntityDoc EntityStore EntityReview EntityFacts.
From Stdlib Require Import SpecFloat.

Local Open Scope Z_scope.

(** ** Heat *)

Lemma fresh_recent rows now window :
  let cutoff := time_add now (- (if window <=? 0 then defaultFreshWindow else window)) in
  computeFreshSightingAt rows now window = zero_time
  ∨ ∃ s, s ∈ rows ∧ sightingEventTimeOf s = computeFreshSightingAt rows now window
         ∧ recent s cutoff = true.
Proof.
  intros cutoff. unfold computeFreshSightingAt. fold cutoff.
  set (f := λ (fresh : Time) (s : EntitySighting), _ : Time).
  assert (∀ rows acc, foldl f acc rows = acc ∨ ∃ s, s ∈ rows
    ∧ sightingEventTimeOf s = foldl f acc rows ∧ recent s cutoff = true) as H;
    [|exact (H rows zero_time)].
  clear rows. induction rows as [|s rows IH]; intros acc; [by left|]. cbn [foldl].
  destruct (IH (f acc s)) as [E|(s' & Hs' & E & Hr)]; [|right; exists s'; set_solver].
  rewrite E. subst f. cbn. destruct (recent s cutoff) eqn:Er; [|by left]. cbn [andb].
  destruct (time_after _ _); [|by left]. right. exists s. set_solver.
Qed.

Lemma classify_hot score fresh a cfg :
  HeatTierRank HeatTierHot ≤ HeatTierRank (classifyHeatTier score fresh a cfg) →
  fresh ≠ 0 ∧ 2 ≤ ag_SourceCount a ∧ 1 ≤ ag_PainHits a.
Proof.
  unfold classifyHeatTier, is_zero_time, zero_time.
  destruct (Z.eqb_spec fresh 0), (Z.leb_spec 2 (ag_SourceCount a)),
    (Z.leb_spec 1 (ag_PainHits a)); cbn [negb andb]; rewrite ?andb_false_r; try done;
    destruct (float_ge score (WarmThreshold cfg)); vm_compute; intros; done.
Qed.

(** After its heat has been recomputed an entity is hot only if its counters say so and
    one of its rows is within the fresh window. *)
Lemma recomputed_hot d cfg now :
  hc_Enabled cfg = true →
  let d' := RecomputeEntityHeat d cfg now in
  HeatTierRank HeatTierHot ≤ HeatTierRank (ht_HeatTier (ed_Heat d')) →
  2 ≤ ag_SourceCount (ed_Agg d) ∧ 1 ≤ ag_PainHits (ed_Agg d)
  ∧ ∃ s, s ∈ tl_Sightings (ed_Time d)
      ∧ recent s (time_add now (- FreshWindow (normalizeHeatConfig cfg))) = true.
Proof.
  intros He d'. subst d'. unfold RecomputeEntityHeat. rewrite He. cbn [negb]. cbv zeta.
  unfold promoteCanonicalByHeat. cbn [ed_Time set_doc_heat].
  assert (0 < FreshWindow (normalizeHeatConfig cfg)) as Hw.
  { cbn. unfold or_int. destruct (Z.leb_spec (FreshWindow cfg) 0); [vm_compute; done|lia]. }
  pose proof (fresh_recent (tl_Sightings (ed_Time d)) now (FreshWindow (normalizeHeatConfig cfg)))
    as Hf. cbv zeta in Hf. rewrite (proj2 (Z.leb_gt _ _) Hw) in Hf.
  destruct (String.eqb _ _); cbn [ed_Heat set_agg set_doc_heat ht_HeatTier];
    intros (Hz & Hs & Hp)%classify_hot; (split; [done|]; split; [done|]);
    destruct Hf as [Hf|(s & Hin & _ & Hr)]; [done| |done|]; by exists s.
Qed.

(** The documents that recording the sightings [l] can lead to, whichever store keeps them
    and whatever the clock and the heat configuration are at each step: a new entity, a
    merge, the refresh of a known hash, and computing the heat again. *)
Inductive built `{Sorter} : list SightingInput → EntityDoc → Prop :=
  | built_new now id pk keys i heat :
      sighting_ok now i → built [i] (NewDocWithHeat now id pk keys i heat)
  | built_merge now l d keys i heat :
      sighting_ok now i → built l d → built (l ++ [i]) (MergeSightingWithHeat now d keys i heat).1
  | built_refresh now l d i heat :
      sighting_ok now i → EntityHashKnown d (TrimSpace (si_HashID i)) = true → built l d →
      built (l ++ [i]) (refreshEntitySightingWithHeat now d i heat).1
  | built_heat now l d heat : built l d → built l (RecomputeEntityHeat d heat now).

(** The sighting is on the entity; its family; whether it has a pain signal. *)
Definition on_entity (d : EntityDoc) (i : SightingInput) : Prop :=
  TrimSpace (si_HashID i) ∈ ag_HashIDs (ed_Agg d).
Definition family (i : SightingInput) : string := TrimSpace (SourceFamily (si_Source i)).
Definition has_pain (i : SightingInput) : bool :=
  (sightingSignals (si_Stack i) (si_Text i) (si_Matched i)).1.

Definition counts_hot (a : Aggregates) : Prop := 2 ≤ ag_SourceCount a ∧ 1 ≤ ag_PainHits a.
Definition heat_founded (h : Heat) (a : Aggregates) : Prop :=
  HeatTierRank HeatTierHot ≤ HeatTierRank (ht_HeatTier h) → counts_hot a.

Record grounded (l : list SightingInput) (d : EntityDoc) : Prop := {
  gd_ok : doc_ok d;
  gd_families : ∀ f, f ∈ ag_SourceFamilies (ed_Agg d) → ∃ i, i ∈ l ∧ family i = f ∧ on_entity d i;
  gd_pain : 1 ≤ ag_PainHits (ed_Agg d) → ∃ i, i ∈ l ∧ has_pain i = true ∧ on_entity d i;
  gd_heat : heat_founded (ed_Heat d) (ed_Agg d) }.

Lemma recompute_grounded l d heat now : grounded l d → grounded l (RecomputeEntityHeat d heat now).
Proof.
  intros [Hok Hf Hp Hh]. pose proof (RecomputeEntityHeat_ok now d heat Hok) as Hok'.
  destruct (RecomputeEntityHeat_agg now d heat) as (h & Ha & _).
  split; unfold heat_founded, counts_hot, on_entity; rewrite ?Ha; [done..|].
  destruct (hc_Enabled heat) eqn:He.
  - intros Hhot. apply recomputed_hot in Hhot; [|done]. by destruct Hhot as (? & ? & _).
  - unfold RecomputeEntityHeat. rewrite He. exact Hh.
Qed.

Lemma refresh_grounded `{Sorter} now l d i heat :
  sighting_ok now i → EntityHashKnown d (TrimSpace (si_HashID i)) = true → grounded l d →
  grounded (l ++ [i]) (refreshEntitySightingWithHeat now d i heat).1.
Proof.
  intros Hi Hk [[Ha Hr] Hf Hp Hh]. apply recompute_grounded.
  apply EntityHashKnown_elem in Hk; [|rewrite TrimSpace_idemp; apply Hi].
  rewrite TrimSpace_idemp in Hk. split; [by apply Patch_ok|..|done].
  - intros f (i' & Hi' & Hr')%Hf. exists i'. split; [set_solver|done].
  - intros (i' & Hi' & Hr')%Hp. exists i'. split; [set_solver|done].
Qed.

Lemma add_sighting_families a i :
  agg_ok a → ∀ f, f ∈ ag_SourceFamilies (add_sighting a i).1 →
  f ∈ ag_SourceFamilies a ∨ f = family i.
Proof.
  intros Ha f. unfold add_sighting. destruct (sightingSignals _ _ _) as [pain role].
  cbn [fst ag_SourceFamilies]. destruct (_ && _); [|by left].
  rewrite unionStrings_elem by apply Ha. cbn [fmap list_fmap].
  rewrite list_elem_of_singleton. unfold family. naive_solver.
Qed.

Lemma add_sighting_monotone a i :
  agg_ok a → agg_ok (add_sighting a i).1 → counts_hot a → counts_hot (add_sighting a i).1.
Proof.
  intros Ha Ha' [Hs Hp]. split.
  - rewrite (ao_sources _ Ha'). rewrite (ao_sources _ Ha) in Hs.
    assert (ag_SourceFamilies a ⊆+ ag_SourceFamilies (add_sighting a i).1) as Hsub%submseteq_length;
      [|lia].
    apply NoDup_submseteq; [apply Ha|]. intros f Hf. unfold add_sighting.
    destruct (sightingSignals _ _ _) as [pain role]. cbn [fst ag_SourceFamilies].
    destruct (_ && _); [|done]. apply unionStrings_elem; [apply Ha|by left].
  - unfold add_sighting. destruct (sightingSignals _ _ _) as [[] role]; cbn; lia.
Qed.

Lemma merge_grounded `{Sorter} now l d keys i heat :
  sighting_ok now i → grounded l d →
  grounded (l ++ [i]) (MergeSightingWithHeat now d keys i heat).1.
Proof.
  intros Hi Hg. pose proof (MergeSightingWithHeat_ok now d keys i heat Hi (gd_ok _ _ Hg)) as Hok.
  unfold MergeSightingWithHeat in *.
  destruct (EntityHashKnown d (TrimSpace (si_HashID i))) eqn:E; [by apply refresh_grounded|].
  destruct Hg as [[Ha Hr] Hf Hp Hh].
  assert (TrimSpace (si_HashID i) ∉ ag_HashIDs (ed_Agg d)) as Hn.
  { intros Hin. assert (EntityHashKnown d (TrimSpace (si_HashID i)) = true); [|congruence].
    apply EntityHashKnown_elem; rewrite TrimSpace_idemp; [apply Hi|done]. }
  destruct (add_sighting_ok now (ed_Agg d) i Hi Ha Hn) as [Ha' Hh'].
  pose proof (add_sighting_families (ed_Agg d) i Ha) as Hfam.
  pose proof (add_sighting_monotone (ed_Agg d) i Ha Ha') as Hmono.
  assert (1 ≤ ag_PainHits (add_sighting (ed_Agg d) i).1 →
    1 ≤ ag_PainHits (ed_Agg d) ∨ has_pain i = true) as Hpain.
  { unfold add_sighting, has_pain. destruct (sightingSignals _ _ _) as [[] role]; cbn; auto. }
  assert (∀ h, h ∈ ag_HashIDs (ed_Agg d) → h ∈ ag_HashIDs (add_sighting (ed_Agg d) i).1) as Hold
    by (intros h Hin; rewrite Hh'; apply elem_of_app; by left).
  assert (TrimSpace (si_HashID i) ∈ ag_HashIDs (add_sighting (ed_Agg d) i).1) as Hnew
    by (rewrite Hh'; apply elem_of_app; right; by apply list_elem_of_singleton).
  assert (∀ x, x ∈ l → x ∈ l ++ [i]) as Hl by (intros x Hx; apply elem_of_app; by left).
  assert (i ∈ l ++ [i]) as Hli by (apply elem_of_app; right; by apply list_elem_of_singleton).
  destruct (add_sighting (ed_Agg d) i) as [agg newFamily]. cbn [fst] in *.
  apply recompute_grounded. split; unfold on_entity; cbn [ed_Agg ed_Heat PatchSightingTimeline].
  - apply Patch_ok; cbn [ed_Agg ed_Time]; [done..|]. by eapply rows_ok_mono.
  - intros f [Hin| ->]%Hfam.
    + destruct (Hf f Hin) as (i' & Hi' & Ef & Hon). exists i'. unfold on_entity in Hon. auto.
    + by exists i.
  - intros [Hin|Hpi]%Hpain.
    + destruct (Hp Hin) as (i' & Hi' & Ef & Hon). exists i'. unfold on_entity in Hon. auto.
    + by exists i.
  - intros Hhot. by apply Hmono, Hh.
Qed.

Lemma new_grounded `{Sorter} now id pk keys i heat :
  sighting_ok now i → grounded [i] (NewDocWithHeat now id pk keys i heat).
Proof.
  intros Hi. pose proof (NewDocWithHeat_ok now id pk keys i) as Hok. unfold NewDocWithHeat in *.
  destruct (sightingSignals (si_Stack i) (si_Text i) (si_Matched i)) as [pain role] eqn:Es.
  apply recompute_grounded.
  assert (uniqStrings [TrimSpace (si_HashID i)] = [TrimSpace (si_HashID i)]) as Hu
    by (apply uniq_singleton, TrimSpace_trimmed, (so_hash _ _ Hi)).
  split; unfold on_entity; cbn [ed_Agg ed_Heat PatchSightingTimeline ag_SourceFamilies ag_PainHits
                                ag_HashIDs].
  - exact (Hok (HeatConfigFromThresholds false f_1 f_0 f_0 f_0 f_0 f_0) Hi).
  - rewrite (uniq_trim _ (so_family _ _ Hi)), Hu.
    intros f ->%list_elem_of_singleton. exists i. split_and!; by try left.
  - intros Hp. exists i. rewrite Hu. unfold has_pain. rewrite Es.
    destruct pain; [split_and!; by try left|]. exfalso. cbn in Hp. lia.
  - unfold heat_founded. vm_compute. intros Hc. by exfalso.
Qed.

Lemma built_grounded `{Sorter} l d : built l d → grounded l d.
Proof.
  induction 1; eauto using new_grounded, merge_grounded, refresh_grounded, recompute_grounded.
Qed.

(** C30. No entity is hot on one source. A document that new entities, merges, refreshes of known hashes and recomputed heat lead to, with any clocks, scores and thresholds, heat switched on or off at any step, is in the hot or blazing tier only if two of the sightings recorded on it are of different source families and one of them has a pain signal. Every sighting is assumed to have a hash, a source with a family and valid times. *)
Theorem hot_needs_two_sources `{Sorter} l d :
  built l d → HeatTierRank HeatTierHot ≤ HeatTierRank (ht_HeatTier (ed_Heat d)) →
  (∃ i j, i ∈ l ∧ j ∈ l ∧ on_entity d i ∧ on_entity d j ∧ family i ≠ family j)
  ∧ ∃ p, p ∈ l ∧ on_entity d p ∧ has_pain p = true.
Proof.
  intros [[Ha _] Hf Hp Hh]%built_grounded Hhot. destruct (Hh Hhot) as [Hs Hn].
  split; [|destruct (Hp Hn) as (p & ? & ? & ?); by exists p].
  rewrite (ao_sources _ Ha) in Hs. pose proof (proj1 (ao_families _ Ha)) as Hd.
  destruct (ag_SourceFamilies (ed_Agg d)) as [|f [|g fs]] eqn:E; [cbn in Hs; lia..|].
  destruct (Hf f) as (i & Hi & Ei & Hoi); [by left|].
  destruct (Hf g) as (j & Hj & Ej & Hoj); [by right; left|].
  exists i, j. split_and!; try done. rewrite Ei, Ej. intros ->.
  apply NoDup_cons in Hd as [Hd _]. by apply Hd; left.
Qed.

(** The two ways of asking for a minimum tier agree: a document is in a tier of
    the [$in] list exactly when the check in memory accepts it, for every minimum
    above cold, however it is spelled. *)
Theorem tier_filter_equivalent tier minTier :
  tier ∈ [HeatTierCold; HeatTierWarm; HeatTierHot; HeatTierBlazing] →
  HeatTierRank HeatTierCold < HeatTierRank (ToLower (TrimSpace minTier)) →
  HeatTierMeetsMin tier minTier = mem tier (HeatTiersAtOrAbove minTier).
Proof.
  unfold HeatTierMeetsMin, HeatTiersAtOrAbove.
  generalize (ToLower (TrimSpace minTier)) as m. intros m Ht Hm.
  rewrite (proj2 (Z.leb_gt _ _) Hm).
  assert (String.eqb m estr || String.eqb m HeatTierCold = false) as ->.
  { apply orb_false_iff. split; apply String.eqb_neq; intros ->; vm_compute in Hm; done. }
  generalize (HeatTierRank m) as n. clear m Hm. intros n.
  repeat (apply elem_of_cons in Ht as [->|Ht]); [..|by apply elem_of_nil in Ht];
    match goal with |- context [ToLower (TrimSpace ?t)] =>
      change (ToLower (TrimSpace t)) with t end; cbn [String.eqb];
    unfold mem; cbn [List.filter];
    repeat match goal with |- context [n <=? HeatTierRank ?t] =>
      let r := eval vm_compute in (HeatTierRank t) in change (HeatTierRank t) with r end;
    destruct (Z.leb_spec n 1), (Z.leb_spec n 2), (Z.leb_spec n 3), (Z.leb_spec n 4);
    try lia; vm_compute; done.
Qed.

(** A duplicate sighting turns heat on.  [MergeSightingWithHeat] refreshes a
    known hash with the default configuration and not with the one it was given:
    with heat disabled, a repeated hash still has the heat of the document computed
    and stamped, where a new hash leaves it untouched. *)
Theorem duplicate_ignores_heat_config `{Sorter} now d keys i heat :
  hc_Enabled heat = false →
  ed_Heat (MergeSightingWithHeat now d keys i heat).1
  = if EntityHashKnown d (TrimSpace (si_HashID i))
    then ed_Heat (RecomputeEntityHeat (PatchSightingTimeline now (next_generation d) i)
           DefaultHeatConfig now)
    else ed_Heat d.
Proof.
  intros He. unfold MergeSightingWithHeat, refreshEntitySighting, refreshEntitySightingWithHeat.
  destruct (EntityHashKnown d (TrimSpace (si_HashID i))); [done|].
  destruct (add_sighting (ed_Agg d) i) as [agg nf]. cbn [fst].
  unfold RecomputeEntityHeat. by rewrite He.
Qed.

(** ** Semantic clusters *)

(** A cluster id depends on the set-up of the pain vocabulary only: not on the
    order of the matched phrases, nor on the sort.  With a unified pain it does not
    depend on the phrases at all, nor on the case or the surrounding space of the
    pain. *)
Theorem SemanticClusterID_stable (S1 S2 : Sorter) m1 m2 pain1 pain2 :
  m1 ≡ₚ m2 → TrimSpace (ToLower pain1) = TrimSpace (ToLower pain2) →
  @SemanticClusterID S1 m1 pain1 = @SemanticClusterID S2 m2 pain2
  ∧ (TrimSpace (ToLower pain1) ≠ estr →
     ∀ m, @SemanticClusterID S1 m pain1 = @SemanticClusterID S2 m2 pain2).
Proof.
  intros Hp E. unfold SemanticClusterID. rewrite E. split.
  - rewrite (sort_strings_unique S1 S2 m1 m2 Hp).
    assert (is_empty m1 = is_empty m2) as ->; [|done].
    destruct m1, m2; try done;
      [by apply Permutation_nil_l in Hp|by apply Permutation_nil_r in Hp].
  - intros Hb m. by rewrite (proj2 (String.eqb_neq _ _) Hb).
Qed.

(** ** Splits *)

Lemma rebuild_hashes l b :
  NoDup (rb_Hashes b ++ (sg_HashID <$> l)) → Forall (λ s, trimmed (sg_HashID s)) l →
  rb_Hashes (foldl rebuild_step b l) = rb_Hashes b ++ (sg_HashID <$> l).
Proof.
  revert b. induction l as [|s l IH]; intros b Hn Hf; [by rewrite app_nil_r|].
  apply Forall_cons in Hf as [[Ht Hb] Hf]. rewrite fmap_cons in *. cbn [foldl].
  assert (rb_Hashes (rebuild_step b s) = rb_Hashes b ++ [sg_HashID s]) as E.
  { unfold rebuild_step. destruct (sightingSignals _ _ _) as [p r]. cbn [rb_Hashes].
    rewrite Ht, (proj2 (String.eqb_neq _ _) Hb). cbn [orb].
    destruct (mem (sg_HashID s) (rb_Hashes b)) eqn:Em; [|done]. exfalso.
    apply containsString_elem in Em. apply NoDup_app in Hn as (_ & Hn & _).
    apply (Hn _ Em). by left. }
  rewrite IH; rewrite ?E, <- ?app_assoc; done.
Qed.

(** What the rebuild keeps of the rows it has seen. *)
Definition rebuilt_ok (b : rebuilt) (l : list EntitySighting) : Prop :=
  clean (rb_Families b) ∧ 0 ≤ rb_PainHits b ≤ Z.of_nat (length l)
  ∧ (l = [] ∧ rb_FirstSeen b = 0 ∧ rb_LastSeen b = 0
     ∨ 0 < rb_FirstSeen b ≤ rb_LastSeen b
       ∧ Forall (λ s, rb_FirstSeen b ≤ sightingEventTimeOf s ≤ rb_LastSeen b) l).

Lemma rebuild_step_ok b l s :
  0 < sightingEventTimeOf s → rebuilt_ok b l → rebuilt_ok (rebuild_step b s) (l ++ [s]).
Proof.
  intros He (Hf & Hp & Hb). unfold rebuild_step.
  destruct (sightingSignals _ _ _) as [pain role].
  unfold rebuilt_ok, is_zero_time, zero_time, time_before, time_after.
  cbn [rb_Families rb_PainHits rb_FirstSeen rb_LastSeen].
  rewrite (proj2 (Z.eqb_neq (sightingEventTimeOf s) 0) ltac:(lia)). cbn [negb andb].
  split_and!.
  - match goal with |- clean (if ?b then _ else _) => destruct b end;
      [done|by apply unionStrings_clean].
  - destruct pain; lia.
  - rewrite length_app. cbn. destruct pain; lia.
  - right. destruct Hb as [(-> & -> & ->)|[Hb Hall]].
    + cbn [Z.eqb orb app]. rewrite Forall_singleton. z_cases; lia.
    + rewrite Forall_app, Forall_singleton. split; [z_cases; cbn [orb]; lia|].
      split; [|z_cases; cbn [orb]; lia].
      eapply Forall_impl; [exact Hall|]. cbn beta. intros s' Hs'. z_cases; cbn [orb]; lia.
Qed.

Lemma rebuild_ok l :
  Forall (λ s, 0 < sightingEventTimeOf s) l → rebuilt_ok (foldl rebuild_step rebuild_start l) l.
Proof.
  induction l as [|s l IH] using rev_ind.
  - intros _. split_and!; cbn; try lia; [split; constructor|by left].
  - rewrite Forall_app, Forall_singleton. intros [Hl Hs]. rewrite foldl_app. cbn [foldl].
    by apply rebuild_step_ok; [|apply IH].
Qed.

Section split.
Context `{Sorter} `{HtmlLib} (now : Time).
Variable visit : list string → list string.
Hypothesis visit_perm : ∀ l, visit l ≡ₚ l.

Lemma rebuild_agg d heat :
  ag_HashIDs (ed_Agg (rebuildEntityAggregates now visit d heat))
  = visit (rb_Hashes (foldl rebuild_step rebuild_start (tl_Sightings (ed_Time d)))).
Proof.
  unfold rebuildEntityAggregates. cbv zeta.
  match goal with |- context [RecomputeEntityHeat ?x heat now] =>
    destruct (RecomputeEntityHeat_agg now x heat) as (h & -> & _) end. done.
Qed.

Lemma rebuild_doc_ok d heat rows :
  tl_Sightings (ed_Time d) = rows → rows ≠ [] →
  (length rows ≤ MaxEntitySightings)%nat → NoDup (sg_HashID <$> rows) →
  Forall (λ s, trimmed (sg_HashID s)) rows → Forall (λ s, 0 < sightingEventTimeOf s) rows →
  ag_CanonicalHash (ed_Agg d) = estr ∨ ag_CanonicalHash (ed_Agg d) ∈ sg_HashID <$> rows →
  doc_ok (rebuildEntityAggregates now visit d heat).
Proof.
  intros Hrows Hne Hl Hn Ht He Hc. unfold rebuildEntityAggregates. rewrite Hrows. cbv zeta.
  pose proof (rebuild_hashes rows rebuild_start Hn Ht) as Eh. cbn [rb_Hashes rebuild_start app] in Eh.
  destruct (rebuild_ok rows He) as (Hf & Hp & Hb).
  destruct Hb as [(E & _)|[Hb Hall]]; [done|].
  set (b := foldl rebuild_step rebuild_start rows) in *. rewrite Eh.
  pose proof (visit_perm (sg_HashID <$> rows)) as Hv.
  assert (length (visit (sg_HashID <$> rows)) = length rows) as Hlen
    by (by rewrite Hv, length_fmap).
  apply RecomputeEntityHeat_ok. split; cbn [ed_Agg ed_Time set_time set_agg].
  - split; cbn [ag_HashIDs ag_SightingCount ag_SourceFamilies ag_SourceCount ag_PainHits
                ag_CanonicalHash]; try done.
    + split; [by rewrite Hv|]. rewrite Hv. by apply Forall_fmap.
    + by rewrite Hlen.
    + destruct (visit (sg_HashID <$> rows)) as [|h hs] eqn:E.
      { destruct rows; [done|]. cbn in Hlen. lia. }
      destruct (String.eqb_spec (ag_CanonicalHash (ed_Agg d)) estr) as [Ec|Ec]; [by left|].
      rewrite Hv. by destruct Hc.
  - split; cbn [tl_Sightings tl_FirstSeen tl_LastSeen ag_HashIDs]; try done.
    + intros s Hs. rewrite Hv. by apply list_elem_of_fmap_2.
    + rewrite Forall_forall in Hall. exact Hall.
    + by left.
Qed.

(** The rows of a well-formed document. *)
Lemma rows_trimmed d :
  doc_ok d → Forall (λ s, trimmed (sg_HashID s)) (tl_Sightings (ed_Time d))
             ∧ Forall (λ s, 0 < sightingEventTimeOf s) (tl_Sightings (ed_Time d)).
Proof.
  intros [Ha Hr]. rewrite !Forall_forall. split; intros s Hs.
  - pose proof (proj2 (ao_hashes _ Ha)) as Hf. rewrite Forall_forall in Hf.
    by apply Hf, (ro_hashes _ _ Hr).
  - pose proof (ro_bounds _ _ Hr s Hs). destruct (ro_order _ _ Hr) as [?|(E & _)]; [lia|].
    rewrite E in Hs. by apply elem_of_nil in Hs.
Qed.

Lemma kept_rows d hash s :
  s ∈ tl_Sightings (ed_Time (removeHashFromEntity d hash))
  ↔ s ∈ tl_Sightings (ed_Time d) ∧ sg_HashID s ≠ hash.
Proof. cbn. by rewrite filter_elem, negb_true_iff, String.eqb_neq. Qed.

Lemma kept_hashes d hash h :
  h ∈ sg_HashID <$> tl_Sightings (ed_Time (removeHashFromEntity d hash))
  ↔ h ∈ sg_HashID <$> tl_Sightings (ed_Time d) ∧ h ≠ hash.
Proof.
  rewrite !list_elem_of_fmap. setoid_rewrite kept_rows. naive_solver.
Qed.

Lemma filter_NoDup_hash (f : EntitySighting → bool) l :
  NoDup (sg_HashID <$> l) → NoDup (sg_HashID <$> List.filter f l).
Proof.
  induction l as [|s l IH]; [done|]. rewrite fmap_cons. intros [Hs Hl]%NoDup_cons. cbn.
  destruct (f s); [|by apply IH]. rewrite fmap_cons. apply NoDup_cons. split; [|by apply IH].
  rewrite !list_elem_of_fmap in *. setoid_rewrite filter_elem. naive_solver.
Qed.

Lemma new_doc_hashes id pk keys i heat :
  sighting_ok now i →
  ag_HashIDs (ed_Agg (NewDocWithHeat now id pk keys i heat)) = [TrimSpace (si_HashID i)].
Proof.
  intros Hi. unfold NewDocWithHeat. destruct (sightingSignals _ _ _) as [p q].
  match goal with |- context [RecomputeEntityHeat ?x heat now] =>
    destruct (RecomputeEntityHeat_agg now x heat) as (h' & -> & _) end.
  cbn [set_canonical ag_HashIDs ed_Agg PatchSightingTimeline set_time].
  apply uniq_singleton, TrimSpace_trimmed, Hi.
Qed.

Lemma split_inv blacklist doc hash i heat r newDoc rest :
  SplitHashFromEntity now visit blacklist doc hash i heat = inr (r, newDoc, rest) →
  TrimSpace hash ≠ estr ∧ EntityHashKnown doc (TrimSpace hash) = true
  ∧ (∃ pk, newDoc = NewDocWithHeat now (sr_NewEntityID r) pk
                      (ResolveKeys blacklist (si_Resolve i)) i heat)
  ∧ rest = rebuildEntityAggregates now visit (clearEntityClassification (next_generation
             (removeHashFromEntity doc (TrimSpace hash)))) heat
  ∧ sr_SourceDeleted r = is_empty (ag_HashIDs (ed_Agg rest)).
Proof.
  unfold SplitHashFromEntity. destruct (String.eqb_spec (TrimSpace hash) estr); [done|].
  destruct (EntityHashKnown doc (TrimSpace hash)); [|done]. cbn [negb].
  destruct (PrimaryKey _) as [pk|]; [|done].
  destruct (String.eqb _ estr); [done|]. intros [= <- <- <-]. split_and!; try done. by exists pk.
Qed.

Lemma split_rest_hashes doc hash heat h :
  doc_ok doc →
  h ∈ ag_HashIDs (ed_Agg (rebuildEntityAggregates now visit (clearEntityClassification
        (next_generation (removeHashFromEntity doc hash))) heat))
  ↔ h ∈ sg_HashID <$> tl_Sightings (ed_Time doc) ∧ h ≠ hash.
Proof.
  intros Hd. destruct (rows_trimmed doc Hd) as [Ht _]. rewrite rebuild_agg.
  change (tl_Sightings (ed_Time (clearEntityClassification (next_generation
    (removeHashFromEntity doc hash))))) with
    (tl_Sightings (ed_Time (removeHashFromEntity doc hash))).
  rewrite visit_perm, rebuild_hashes; cbn [rb_Hashes rebuild_start app].
  - apply kept_hashes.
  - apply filter_NoDup_hash, (ro_NoDup _ _ (proj2 Hd)).
  - rewrite Forall_forall in *. intros s Hs. apply kept_rows in Hs as [Hs _]. by apply Ht.
Qed.

(** A split is exact while the timeline holds every hash.  The detached document
    is well formed and has the one hash; what remains is well formed unless it is
    to be deleted, it has every other hash and no other, and its classification is
    cleared — in whatever order Go visits the set of remaining hashes. *)
Theorem split_exact blacklist doc hash i heat r newDoc rest :
  doc_ok doc → (∀ h, h ∈ ag_HashIDs (ed_Agg doc) → h ∈ sg_HashID <$> tl_Sightings (ed_Time doc)) →
  sighting_ok now i → TrimSpace (si_HashID i) = TrimSpace hash →
  SplitHashFromEntity now visit blacklist doc hash i heat = inr (r, newDoc, rest) →
  (doc_ok newDoc ∧ ag_HashIDs (ed_Agg newDoc) = [TrimSpace hash])
  ∧ (∀ h, h ∈ ag_HashIDs (ed_Agg rest) ↔ h ∈ ag_HashIDs (ed_Agg doc) ∧ h ≠ TrimSpace hash)
  ∧ (sr_SourceDeleted r = false → doc_ok rest)
  ∧ rv_UnifiedPain (ed_Review rest) = estr ∧ rv_NeedsReview (ed_Review rest) = false.
Proof.
  intros Hd Hrows Hi Hh Hs. apply split_inv in Hs as (Hb & _ & (pk & ->) & -> & Hdel).
  pose proof (λ h, split_rest_hashes doc (TrimSpace hash) heat h Hd) as Hr.
  split_and!.
  - by apply NewDocWithHeat_ok.
  - rewrite new_doc_hashes by done. by rewrite Hh.
  - intros h. rewrite Hr. split; intros [H1 H2]; (split; [|done]); [|by apply Hrows].
    apply list_elem_of_fmap in H1 as (s & -> & Hin). by apply (ro_hashes _ _ (proj2 Hd)).
  - intros Hk. destruct (rows_trimmed doc Hd) as [Ht He].
    assert (∀ P : EntitySighting → Prop, Forall P (tl_Sightings (ed_Time doc)) →
      Forall P (tl_Sightings (ed_Time (removeHashFromEntity doc (TrimSpace hash))))) as Hsub.
    { intros P HP. rewrite Forall_forall in *. intros s Hin. apply kept_rows in Hin as [Hin _].
      by apply HP. }
    eapply (rebuild_doc_ok _ heat); [reflexivity| | | | | |].
    + intros E. rewrite Hk in Hdel. symmetry in Hdel.
      destruct (ag_HashIDs _) as [|h hs] eqn:Eh in Hdel; [done|].
      assert (h ∈ h :: hs) as Hin by by left. rewrite <- Eh in Hin.
      apply Hr, kept_hashes in Hin. cbn in E, Hin. by rewrite E in Hin; apply elem_of_nil in Hin.
    + cbn. etrans; [|apply (ro_length _ _ (proj2 Hd))]. apply filter_length_le.
    + apply filter_NoDup_hash, (ro_NoDup _ _ (proj2 Hd)).
    + by apply Hsub.
    + by apply Hsub.
    + cbn [ed_Agg clearEntityClassification set_review next_generation removeHashFromEntity
           set_time set_agg ag_CanonicalHash].
      destruct (String.eqb_spec (ag_CanonicalHash (ed_Agg doc)) (TrimSpace hash)); [by left|].
      right. apply kept_hashes. split; [|done]. apply Hrows, (ao_canonical _ (proj1 Hd)).
  - unfold rebuildEntityAggregates, RecomputeEntityHeat, promoteCanonicalByHeat. cbv zeta.
    repeat match goal with |- context [if ?b then _ else _] => destruct b end; done.
  - unfold rebuildEntityAggregates, RecomputeEntityHeat, promoteCanonicalByHeat. cbv zeta.
    repeat match goal with |- context [if ?b then _ else _] => destruct b end; done.
Qed.

(** A split forgets the hashes whose row was trimmed.  The timeline keeps
    [MaxEntitySightings] rows but the entity keeps every hash; the remaining
    document is rebuilt from the rows alone, so a hash without a row is on neither
    document afterwards, although nobody detached it. *)
Theorem split_forgets blacklist doc hash i heat r newDoc rest h :
  doc_ok doc → sighting_ok now i → TrimSpace (si_HashID i) = TrimSpace hash →
  SplitHashFromEntity now visit blacklist doc hash i heat = inr (r, newDoc, rest) →
  h ∈ ag_HashIDs (ed_Agg doc) → h ≠ TrimSpace hash → (h ∉ sg_HashID <$> tl_Sightings (ed_Time doc)) →
  (h ∉ ag_HashIDs (ed_Agg rest)) ∧ (h ∉ ag_HashIDs (ed_Agg newDoc)).
Proof.
  intros Hd Hi Hh Hs _ Hne Hrow. apply split_inv in Hs as (Hb & _ & (pk & ->) & -> & _). split.
  - rewrite split_rest_hashes by done. by intros [? _].
  - rewrite new_doc_hashes by done. rewrite Hh, list_elem_of_singleton. done.
Qed.
End split.

(** ** Link suggestions *)

Lemma dedup_on_elem {A} (key : A → string) l x : x ∈ dedup_on key l → x ∈ l.
Proof. intros Hx. eapply elem_of_sublist; [exact Hx|apply dedup_on_sublist]. Qed.

(** The aliases of [d] that group it under [k]. *)
Definition grouped (key_of : string → option string) (d : EntityDoc) (k : string) : Prop :=
  ∃ alias, alias ∈ ed_AliasKeys d ∧ key_of (TrimSpace alias) = Some k.

Section groups.
Variable key_of : string → option string.

Definition add_alias (d : EntityDoc) (m : gmap string (list EntityDoc)) (alias : string)
    : gmap string (list EntityDoc) :=
  match key_of (TrimSpace alias) with
  | Some k => <[k := default [] (m !! k) ++ [d]]> m
  | None => m
  end.

Lemma group_docs_eq docs :
  group_docs key_of docs = foldl (λ m d, foldl (add_alias d) m (ed_AliasKeys d)) ∅ docs.
Proof. done. Qed.

Lemma add_aliases_elem d aliases m k x :
  x ∈ default [] (foldl (add_alias d) m aliases !! k)
  ↔ x ∈ default [] (m !! k)
    ∨ x = d ∧ ∃ alias, alias ∈ aliases ∧ key_of (TrimSpace alias) = Some k.
Proof.
  revert m. induction aliases as [|alias aliases IH]; intros m; cbn [foldl].
  - split; [by left|]. intros [?|(_ & a & Ha & _)]; [done|by apply elem_of_nil in Ha].
  - rewrite IH. unfold add_alias. destruct (key_of (TrimSpace alias)) as [k'|] eqn:E.
    + destruct (decide (k' = k)) as [->|Hne].
      * rewrite lookup_insert_eq. cbn [from_option id].
        rewrite elem_of_app, list_elem_of_singleton. setoid_rewrite elem_of_cons. naive_solver.
      * rewrite lookup_insert_ne by done. setoid_rewrite elem_of_cons. naive_solver.
    + setoid_rewrite elem_of_cons. naive_solver.
Qed.

Lemma group_docs_elem docs k d :
  d ∈ default [] (group_docs key_of docs !! k) ↔ d ∈ docs ∧ grouped key_of d k.
Proof.
  rewrite group_docs_eq. induction docs as [|d' docs IH] using rev_ind.
  - cbn. rewrite lookup_empty. cbn. set_solver.
  - rewrite foldl_app. cbn [foldl]. rewrite add_aliases_elem, IH, elem_of_app,
      list_elem_of_singleton. unfold grouped. naive_solver.
Qed.
End groups.

Lemma pairs_of_elem l a b : (a, b) ∈ pairs_of l → a ∈ l ∧ b ∈ l.
Proof.
  induction l as [|x l IH]; cbn; [by intros ?%elem_of_nil|].
  rewrite elem_of_app, list_elem_of_fmap. intros [(y & [= -> ->] & Hy)|Hp]; [set_solver|].
  destruct (IH Hp). set_solver.
Qed.

Lemma pairs_of_complete l a b : a ∈ l → b ∈ l → a ≠ b → (a, b) ∈ pairs_of l ∨ (b, a) ∈ pairs_of l.
Proof.
  induction l as [|x l IH]; [by intros ?%elem_of_nil|]. cbn [pairs_of].
  rewrite !elem_of_cons, !elem_of_app, !list_elem_of_fmap.
  intros [->|Ha] [->|Hb] Hne; [done|left; left; eauto|right; left; eauto|].
  destruct (IH Ha Hb Hne); auto.
Qed.

Lemma pairKey_sym a b x : a ≠ b → pairKey a b x = pairKey b a x.
Proof.
  intros Hne. unfold pairKey.
  destruct (str_ltb b a) eqn:E1, (str_ltb a b) eqn:E2; try done.
  - by rewrite (str_ltb_asym _ _ E1) in E2.
  - by pose proof (str_ltb_antisymm _ _ E1 E2).
Qed.

Lemma EqualFold_sym a b : EqualFold a b = EqualFold b a.
Proof. unfold EqualFold. apply bool_decide_ext. naive_solver. Qed.

Lemma conflicting_pain_sym a b : conflicting_pain (a, b) = conflicting_pain (b, a).
Proof.
  unfold conflicting_pain. cbn [fst snd]. rewrite EqualFold_sym. f_equal.
  destruct (String.eqb _ _), (String.eqb _ _); done.
Qed.

Lemma distinct_sym a b : distinct_entities (a, b) = distinct_entities (b, a).
Proof. unfold distinct_entities. cbn. by rewrite String.eqb_sym. Qed.

Section links.
Variable visit : gmap string (list EntityDoc) → list (string * list EntityDoc).
Hypothesis visit_all : ∀ m k g, (k, g) ∈ visit m ↔ m !! k = Some g.

Section one_map.
Variables (key_of : string → option string) (keep : EntityDoc * EntityDoc → bool).
Hypothesis keep_sym : ∀ a b, keep (a, b) = keep (b, a).

Lemma group_pairs_sound docs p :
  p ∈ (visit (group_docs key_of docs) ≫= group_pairs keep) →
  ∃ a b shared, a ∈ docs ∧ b ∈ docs ∧ grouped key_of a shared ∧ grouped key_of b shared
    ∧ ed_EntityID a ≠ ed_EntityID b ∧ keep (a, b) = true ∧ p = suggest shared (a, b).
Proof.
  rewrite list_elem_of_bind. intros ([k g] & Hp & Hg). apply visit_all in Hg.
  unfold group_pairs in Hp. apply list_elem_of_fmap in Hp as ([a b] & -> & Hp).
  apply filter_elem in Hp as [Hp [Hd Hk]%andb_true_iff].
  apply negb_true_iff, String.eqb_neq in Hd.
  apply pairs_of_elem in Hp as [Ha Hb].
  assert (∀ x, x ∈ g → x ∈ docs ∧ grouped key_of x k) as Hgr.
  { intros x Hx. apply group_docs_elem. by rewrite Hg. }
  destruct (Hgr _ Ha), (Hgr _ Hb). by exists a, b, k.
Qed.

Lemma group_pairs_complete docs a b shared :
  a ∈ docs → b ∈ docs → grouped key_of a shared → grouped key_of b shared →
  ed_EntityID a ≠ ed_EntityID b → keep (a, b) = true →
  pairKey (ed_EntityID a) (ed_EntityID b) shared
  ∈ pair_key <$> (visit (group_docs key_of docs) ≫= group_pairs keep).
Proof.
  intros Ha Hb Hga Hgb Hne Hk.
  assert (a ∈ default [] (group_docs key_of docs !! shared)) as Ha'
    by (by apply group_docs_elem).
  assert (b ∈ default [] (group_docs key_of docs !! shared)) as Hb'
    by (by apply group_docs_elem).
  destruct (group_docs key_of docs !! shared) as [g|] eqn:E; [|by apply elem_of_nil in Ha'].
  apply visit_all in E. cbn in Ha', Hb'.
  assert (distinct_entities (a, b) = true) as Hd
    by (by apply negb_true_iff, String.eqb_neq).
  assert (∀ x y, (x, y) ∈ pairs_of g → distinct_entities (x, y) && keep (x, y) = true →
    pairKey (ed_EntityID x) (ed_EntityID y) shared
    ∈ pair_key <$> (visit (group_docs key_of docs) ≫= group_pairs keep)) as Hin.
  { intros x y Hxy Hf. apply list_elem_of_fmap. exists (suggest shared (x, y)). split; [done|].
    apply list_elem_of_bind. exists (shared, g). split; [|done].
    apply list_elem_of_fmap. exists (x, y). split; [done|]. by apply filter_elem. }
  destruct (pairs_of_complete g a b Ha' Hb') as [Hp|Hp]; [congruence| |].
  - apply Hin; [done|]. by rewrite Hd, Hk.
  - rewrite pairKey_sym by done. apply Hin; [done|]. by rewrite <- distinct_sym, <- keep_sym, Hd, Hk.
Qed.
End one_map.

(** Why two entities are suggested: a domain both are known under, with pains that
    differ; or another identity both are known under. *)
Definition linked (a b : EntityDoc) (shared : string) : Prop :=
  ed_EntityID a ≠ ed_EntityID b
  ∧ (grouped domain_key a shared ∧ grouped domain_key b shared ∧ conflicting_pain (a, b) = true
     ∨ grouped identity_key a shared ∧ grouped identity_key b shared).

(** Link suggestions are exactly the links, once each.  Every suggestion is
    about two different entities of the input that share the alias it names for
    one of the two reasons; every such pair of entities is suggested for every
    alias they share; and no unordered pair is suggested twice for an alias —
    whatever the order in which Go visits the groups. *)
Theorem FindLinkSuggestPairs_exact docs :
  NoDup (pair_key <$> FindLinkSuggestPairs visit docs)
  ∧ (∀ p, p ∈ FindLinkSuggestPairs visit docs →
       ∃ a b shared, a ∈ docs ∧ b ∈ docs ∧ linked a b shared ∧ p = suggest shared (a, b))
  ∧ (∀ a b shared, a ∈ docs → b ∈ docs → linked a b shared →
       ∃ p, p ∈ FindLinkSuggestPairs visit docs
            ∧ pair_key p = pairKey (ed_EntityID a) (ed_EntityID b) shared).
Proof.
  unfold FindLinkSuggestPairs, dedupeLinkPairs, findDomainPainPairs, findIdentityKeyPairs.
  split_and!.
  - apply dedup_on_NoDup.
  - intros p Hp. apply dedup_on_elem, elem_of_app in Hp as [Hp|Hp]; apply dedup_on_elem in Hp;
      apply group_pairs_sound in Hp as (a & b & shared & Ha & Hb & Hga & Hgb & Hne & Hk & ->);
      exists a, b, shared; (split_and!; [done..| |done]); (split; [done|]); [by left|by right].
  - intros a b shared Ha Hb [Hne Hl].
    assert (∀ k, k ∈ pair_key <$> dedup_on pair_key
        (dedup_on pair_key (visit (group_docs domain_key docs) ≫= group_pairs conflicting_pain)
         ++ dedup_on pair_key (visit (group_docs identity_key docs) ≫= group_pairs (λ _, true)))
      ↔ k ∈ pair_key <$> (visit (group_docs domain_key docs) ≫= group_pairs conflicting_pain)
        ∨ k ∈ pair_key <$> (visit (group_docs identity_key docs) ≫= group_pairs (λ _, true)))
      as Hkey.
    { intros k. by rewrite dedup_on_key, fmap_app, elem_of_app, !dedup_on_key. }
    assert (pairKey (ed_EntityID a) (ed_EntityID b) shared ∈ pair_key <$> dedup_on pair_key
        (dedup_on pair_key (visit (group_docs domain_key docs) ≫= group_pairs conflicting_pain)
         ++ dedup_on pair_key (visit (group_docs identity_key docs) ≫= group_pairs (λ _, true))))
      as Hin.
    { apply Hkey. destruct Hl as [(Hga & Hgb & Hc)|(Hga & Hgb)]; [left|right];
        apply group_pairs_complete; try done. apply conflicting_pain_sym. }
    apply list_elem_of_fmap in Hin as (p & E & Hp). by exists p.
Qed.
End links.
