(* ===== verification/EntityWitnesses.v ===== *)
(** Concrete inputs on which the properties of the entity graph apply. *)
From S2P Require Import Prelude Unicode GoStrings GoSort Matcher.
From S2P Require Import Validate SourceRep Scoring Extract Hashes Entity EntityKeys.
From S2P Require Import EntityKeyFacts.
From S2P Require Import EntityDoc EntityStore EntityReview EntityFacts EntityProps.
From S2P Require Import EntityReviewProps.
From Stdlib Require Import SpecFloat Sorted.

Local Open Scope Z_scope.

#[local] Existing Instance insertion_sorter.
#[local] Existing Instance KeyWitnesses.plain_html.

Definition at_noon : Time := 1000 * hour.

Definition mail_of (domain source hash : string) : SightingInput := {|
  si_Resolve := {|
    ri_CompanyName := estr; ri_DisplayName := estr; ri_GravatarName := estr;
    ri_Source := source; ri_ForumUser := estr; ri_ForumUID := estr;
    ri_Contacts := [MkContact "email" ("ops@" +:+ domain)] |};
  si_HashID := hash; si_Matched := ["voluum"]; si_Stack := []; si_Text := "tracker";
  si_Score := 60; si_PostedAt := 0; si_SeenAt := at_noon |}.

Definition from_site : SightingInput := mail_of "acme.io" "tgweb:@ch:acme.io" "h1".
Definition from_reddit : SightingInput := mail_of "acme.io" "reddit:igaming" "h2".

Definition in_map_order (docs : Docs) : list EntityDoc := (map_to_list docs).*2.

Lemma in_map_order_visits : visits in_map_order.
Proof.
  intros docs d. unfold in_map_order. rewrite list_elem_of_fmap. split.
  - intros ([k d'] & -> & Hk). exists k. by apply elem_of_map_to_list.
  - intros [k Hk]. exists (k, d). split; [done|]. by apply elem_of_map_to_list.
Qed.

Lemma from_site_ok : sighting_ok at_noon from_site.
Proof. split; vm_compute; done. Qed.

Lemma from_reddit_ok : sighting_ok at_noon from_reddit.
Proof. split; vm_compute; done. Qed.

Lemma both_ok :
  Forall (λ p, sighting_ok p.1 p.2) [(at_noon, from_site); (at_noon, from_reddit)].
Proof. repeat apply Forall_cons_2; [apply from_site_ok|apply from_reddit_ok|constructor]. Qed.

(** ** Memory *)

Abbreviation two_sightings :=
  (record_all initial_state in_map_order 0 zero_heat_config
     [(at_noon, from_site); (at_noon, from_reddit)]) (only parsing).

Example memory_history_witness :
  (λ d, (ag_HashIDs (ed_Agg d), ht_HeatTier (ed_Heat d))) <$> (map_to_list two_sightings).*2
    = [(["h1"; "h2"], "hot")]
  ∧ knows two_sightings "h1".
Proof.
  split; [vm_compute; done|].
  apply (proj2 (memory_history initial_state in_map_order in_map_order_visits 0 zero_heat_config
    [(at_noon, from_site); (at_noon, from_reddit)] both_ok)
    at_noon from_site); [by left|vm_compute; done].
Defined.

Example memory_records_witness :
  ∃ r d,
    MemoryRecordSighting in_map_order initial_state at_noon 0 zero_heat_config from_site ∅
      = (Ok r, <[ed_EntityID d := d]> ∅)
    ∧ rr_EntityID r = ed_EntityID d ∧ doc_ok d
    ∧ rr_SightingCount r = ag_SightingCount (ed_Agg d)
    ∧ rr_SourceCount r = ag_SourceCount (ed_Agg d)
    ∧ TrimSpace (si_HashID from_site) ∈ ag_HashIDs (ed_Agg d)
    ∧ (if rr_NewEntity r then (∅ : Docs) !! ed_EntityID d = None
       else ∃ old, (∅ : Docs) !! ed_EntityID d = Some old
                   ∧ ∀ h, h ∈ ag_HashIDs (ed_Agg old) → h ∈ ag_HashIDs (ed_Agg d)).
Proof.
  apply (memory_records initial_state in_map_order in_map_order_visits at_noon 0 zero_heat_config
    from_site ∅ from_site_ok); [|vm_compute; done].
  intros k d Hk. rewrite lookup_empty in Hk. done.
Defined.

(** ** Mongo *)

Abbreviation site_doc :=
  (NewDocWithHeat at_noon (EntityID (ResolveKeys initial_state (si_Resolve from_site)))
     {| ek_Kind := KindDomain; ek_Value := "acme.io" |}
     (ResolveKeys initial_state (si_Resolve from_site)) from_site DefaultHeatConfig) (only parsing).

Definition verdict : EntityClassificationPatch := {|
  cp_UnifiedPain := "billing"; cp_ActorConfidence := f_1; cp_BuyerIntent := "buyer";
  cp_NeedsReview := true; cp_EntityClassifiedAt := at_noon; cp_HeatTierDowngrade := estr;
  cp_SemanticCluster := estr |}.

Lemma bump_fair id : Scripted.fair (alter next_generation id).
Proof. intros m. apply keeps_alter. intros d. left. cbn. lia. Qed.

Lemma review_fair id p : Scripted.fair (alter (classification_set p) id).
Proof. intros m. apply keeps_alter, fair_classification. Qed.

Lemma delete_fair id : Scripted.fair (delete id).
Proof. intros m. apply keeps_delete. Qed.

(** A second entity, which another writer deletes. *)
Abbreviation other_doc := (NewDocWithHeat at_noon "other" {| ek_Kind := KindDomain; ek_Value := "b.io" |}
  [] from_site DefaultHeatConfig) (only parsing).

(** Other writers get between the read and the write: one records first, so the
    loop retries; then one reviews the entity, which the retry does not notice. *)
Definition contended : Scripted.db Scripted.fair := {|
  Scripted.db_docs := <["other" := other_doc]> {[ed_EntityID site_doc := site_doc]};
  Scripted.db_script :=
    [exist _ _ (delete_fair "other"); exist _ _ (bump_fair (ed_EntityID site_doc));
     exist _ _ (delete_fair "gone"); exist _ _ (review_fair (ed_EntityID site_doc) verdict)] |}.

Example mongo_atomic_witness :
  (ed_MergeGeneration <$> Scripted.db_docs
     (MongoRecordSighting at_noon initial_state 0 zero_heat_config from_reddit contended).2
     !! ed_EntityID site_doc) = Some 2
  ∧ ∃ m, rtc Scripted.step (Scripted.db_docs contended) m
      ∧ applied at_noon (ResolveKeys initial_state (si_Resolve from_reddit)) from_reddit
          (heatConfig zero_heat_config) m
          (Scripted.db_docs
             (MongoRecordSighting at_noon initial_state 0 zero_heat_config from_reddit contended).2).
Proof.
  split; [vm_compute; done|].
  destruct (MongoRecordSighting at_noon initial_state 0 zero_heat_config from_reddit contended)
    as [[r|e] s'] eqn:E.
  - apply (mongo_atomic Scripted.db_docs Scripted.step initial_state at_noon 0 zero_heat_config
      from_reddit contended r s'); [vm_compute; done..|exact E].
  - exfalso. assert (match (MongoRecordSighting at_noon initial_state 0 zero_heat_config from_reddit
      contended).1 with Ok _ => True | Err _ => False end) as H by (vm_compute; done).
    by rewrite E in H.
Defined.

Example classification_lost_witness :
  ∃ (s s' : Scripted.db (λ _, True)) r d',
    Scripted.db_docs s = {[ed_EntityID site_doc := site_doc]}
    ∧ proj1_sig <$> Scripted.db_script s
      = [id; alter (classification_set verdict) (ed_EntityID site_doc)]
    ∧ MongoRecordSighting at_noon initial_state 0 zero_heat_config from_reddit s = (Ok r, s')
    ∧ Scripted.db_docs s' = {[ed_EntityID site_doc := d']}
    ∧ ed_Review d' = ed_Review site_doc.
Proof.
  apply (classification_lost at_noon initial_state 0 zero_heat_config from_reddit site_doc verdict);
    vm_compute; done.
Defined.

(** ** Heat *)

Abbreviation hot_doc :=
  ((MergeSightingWithHeat at_noon site_doc
     (ResolveKeys initial_state (si_Resolve from_reddit)) from_reddit DefaultHeatConfig).1)
  (only parsing).

Example hot_needs_two_sources_witness :
  HeatTierRank (ht_HeatTier (ed_Heat hot_doc)) = HeatTierRank HeatTierHot
  ∧ (∃ i j, i ∈ [from_site; from_reddit] ∧ j ∈ [from_site; from_reddit]
      ∧ on_entity hot_doc i ∧ on_entity hot_doc j ∧ family i ≠ family j)
  ∧ ∃ p, p ∈ [from_site; from_reddit] ∧ on_entity hot_doc p ∧ has_pain p = true.
Proof.
  split; [vm_compute; done|].
  apply (hot_needs_two_sources ([from_site] ++ [from_reddit]) hot_doc); [|vm_compute; done].
  apply built_merge; [apply from_reddit_ok|]. apply built_new, from_site_ok.
Defined.

Example tier_filter_equivalent_witness :
  HeatTierMeetsMin HeatTierWarm " HOT" = mem HeatTierWarm (HeatTiersAtOrAbove " HOT").
Proof.
  apply (tier_filter_equivalent HeatTierWarm " HOT"); [|vm_compute; done].
  right. left.
Defined.

Definition heat_off : HeatConfig := HeatConfigFromThresholds false f_1 f_0 f_0 f_0 f_0 f_0.

Example duplicate_ignores_heat_config_witness :
  ed_Heat (MergeSightingWithHeat at_noon
    (NewDocWithHeat at_noon "id" {| ek_Kind := KindDomain; ek_Value := "acme.io" |} [] from_site
       heat_off) [] from_site heat_off).1 ≠ no_heat
  ∧ ed_Heat (MergeSightingWithHeat at_noon site_doc [] from_reddit heat_off).1 = ed_Heat site_doc.
Proof.
  split; [vm_compute; done|].
  rewrite (duplicate_ignores_heat_config at_noon site_doc [] from_reddit heat_off); [|done].
  vm_compute. done.
Defined.

Example SemanticClusterID_stable_witness :
  @SemanticClusterID insertion_sorter ["b"; "a"] estr
  = @SemanticClusterID insertion_sorter ["a"; "b"] " ".
Proof.
  refine (proj1 (SemanticClusterID_stable insertion_sorter insertion_sorter ["b"; "a"] ["a"; "b"]
    estr " " _ _)); [apply Permutation_swap|vm_compute; done].
Defined.

(** ** Splits *)

Lemma hot_doc_ok : doc_ok hot_doc.
Proof.
  apply MergeSightingWithHeat_ok; [apply from_reddit_ok|].
  apply NewDocWithHeat_ok, from_site_ok.
Qed.

Abbreviation split_hot :=
  (SplitHashFromEntity at_noon id initial_state hot_doc "h2" from_reddit DefaultHeatConfig)
  (only parsing).

Example split_exact_witness :
  match split_hot with
  | inr (r, newDoc, rest) =>
      sr_SourceDeleted r = false ∧ ag_HashIDs (ed_Agg rest) = ["h1"]
      ∧ (doc_ok newDoc ∧ ag_HashIDs (ed_Agg newDoc) = ["h2"])
  | inl _ => False
  end.
Proof.
  destruct split_hot as [e|[[r newDoc] rest]] eqn:E.
  - assert (match split_hot with inl _ => false | inr _ => true end = true) as H
      by (vm_compute; done). by rewrite E in H.
  - assert (match split_hot with
            | inr (r, _, rest) => (sr_SourceDeleted r, ag_HashIDs (ed_Agg rest))
            | inl _ => (true, []) end = (false, ["h1"])) as H by (vm_compute; done).
    rewrite E in H. injection H as H1 H2. split; [done|]. split; [done|].
    assert (∀ h, h ∈ ag_HashIDs (ed_Agg hot_doc) → h ∈ sg_HashID <$> tl_Sightings (ed_Time hot_doc))
      as Hrows by (intros h Hh; vm_compute in Hh |- *; done).
    exact (proj1 (split_exact at_noon id (λ l, reflexivity l) initial_state hot_doc "h2" from_reddit
      DefaultHeatConfig r newDoc rest hot_doc_ok Hrows from_reddit_ok eq_refl E)).
Defined.

(** An entity with twenty-one hashes: the oldest has no row any more. *)
Definition numbered (n : nat) : SightingInput :=
  let i := mail_of "acme.io" "reddit:igaming" ("h" +:+ Itoa (Z.of_nat (100 + n))) in
  {| si_Resolve := si_Resolve i; si_HashID := si_HashID i; si_Matched := si_Matched i;
     si_Stack := si_Stack i; si_Text := si_Text i; si_Score := si_Score i; si_PostedAt := 0;
     si_SeenAt := at_noon + Z.of_nat n * hour |}.

Definition crowded_from (d : EntityDoc) (l : list nat) : EntityDoc :=
  foldl (λ d n, (MergeSightingWithHeat at_noon d [] (numbered n) DefaultHeatConfig).1) d l.

Lemma numbered_ok n : (n < 30)%nat → sighting_ok at_noon (numbered n).
Proof.
  intros Hn. do 30 (destruct n as [|n]; [split; vm_compute; done|]). lia.
Qed.

Lemma crowded_ok d l :
  doc_ok d → Forall (λ n, (n < 30)%nat) l → doc_ok (crowded_from d l).
Proof.
  intros Hd Hl. revert d Hd. induction Hl as [|n l Hn _ IH]; intros d Hd; [done|].
  cbn [crowded_from foldl]. apply IH, MergeSightingWithHeat_ok; [by apply numbered_ok|done].
Qed.

Abbreviation crowded := (crowded_from site_doc (seq 0 20)) (only parsing).
Abbreviation split_crowded :=
  (SplitHashFromEntity at_noon id initial_state crowded "h119" (numbered 19) DefaultHeatConfig)
  (only parsing).

Example split_forgets_witness :
  ("h1" ∈ ag_HashIDs (ed_Agg crowded))
  ∧ match split_crowded with
    | inr (_, newDoc, rest) =>
        ("h1" ∉ ag_HashIDs (ed_Agg rest)) ∧ ("h1" ∉ ag_HashIDs (ed_Agg newDoc))
    | inl _ => False
    end.
Proof.
  assert ("h1" ∈ ag_HashIDs (ed_Agg crowded)) as Hin
    by (apply containsString_elem; vm_compute; done).
  split; [done|]. destruct split_crowded as [e|[[r newDoc] rest]] eqn:E.
  - assert (match split_crowded with inl _ => false | inr _ => true end = true) as H
      by (vm_compute; done). by rewrite E in H.
  - apply (split_forgets at_noon id (λ l, reflexivity l) initial_state crowded "h119" (numbered 19)
      DefaultHeatConfig r newDoc rest "h1").
    + apply crowded_ok; [apply NewDocWithHeat_ok, from_site_ok|].
      apply (bool_decide_unpack _). vm_compute. done.
    + apply numbered_ok. lia.
    + vm_compute. done.
    + exact E.
    + exact Hin.
    + vm_compute. done.
    + rewrite <- containsString_elem. vm_compute. done.
Defined.

(** ** Links *)

Definition groups_in_map_order (m : gmap string (list EntityDoc))
    : list (string * list EntityDoc) := map_to_list m.

Definition rival : EntityDoc := classification_set verdict
  (NewDocWithHeat at_noon "rival" {| ek_Kind := KindDomain; ek_Value := "acme.io" |}
     [{| ek_Kind := KindTelegram; ek_Value := "@acme_ops" |}] from_reddit DefaultHeatConfig).
Definition twin : EntityDoc :=
  NewDocWithHeat at_noon "twin" {| ek_Kind := KindDomain; ek_Value := "acme.io" |}
     [{| ek_Kind := KindTelegram; ek_Value := "@acme_ops" |}] from_site DefaultHeatConfig.

Example FindLinkSuggestPairs_exact_witness :
  (pair_key <$> FindLinkSuggestPairs groups_in_map_order [rival; twin; rival])
    = ["rival|twin|telegram:@acme_ops"]
  ∧ NoDup (pair_key <$> FindLinkSuggestPairs groups_in_map_order [rival; twin; rival]).
Proof.
  split; [vm_compute; done|].
  apply (FindLinkSuggestPairs_exact groups_in_map_order
    (λ m k g, elem_of_map_to_list m k g) [rival; twin; rival]).
Defined.
