(* ===== verification/SourceRegistry.v ===== *)
(** The source registry ([internal/sourceregistry/]) and the cascade of discovered
    domains into it ([internal/domaincascade/fanout.go],
    [internal/sources/tgweb/registry.go], [internal/seedfeedback/feedback.go]).

    A registry is a JSON file; its state is what a read of it would find.  A stored
    file holds the entries that were written (the strings of the registry are valid
    UTF-8, which JSON keeps).  A write goes to a temporary file that is renamed, so
    it replaces the contents or leaves them.  Times are kept as RFC 3339 strings;
    formatting and parsing them are the class [TimeLib]. *)
From S2P Require Import Prelude Unicode GoStrings Utf8Facts TextFacts GoSort Matcher.
From S2P Require Import Validate Scoring Extract FilterSignals FilterGates TgWeb Geo Item.
From S2P Require Import Hashes.
From S2P Require Import Entity EntityKeys.

Local Open Scope Z_scope.

(** ** Files *)

Inductive disk (A : Type) := NoFile | Unreadable | Stored (a : A).
Arguments NoFile {A}.
Arguments Unreadable {A}.
Arguments Stored {A} a.

(** [None] is an error. *)
Definition read_file {A} (empty : A) (d : disk A) : option A :=
  match d with NoFile => Some empty | Unreadable => None | Stored a => Some a end.

(** Writing succeeds or changes nothing; the flag says whether it failed. *)
Definition write_file {A} (writable : bool) (a : A) (d : disk A) : disk A * bool :=
  if writable then (Stored a, false) else (d, true).

Class TimeLib := {
  FormatRFC3339 : Time → string;
  ParseRFC3339 : string → option Time }.

(** ** Entries ([registry.go]) *)

Definition TypeTGWeb : string := "tgweb".
Definition TypeSupply : string := "supply".
Definition TypeLander : string := "lander".

Record Entry := {
  en_Domain : string; en_Types : list string; en_DiscoveredBy : string; en_LastSeen : string;
  en_TriageStatus : string; en_Channel : string; en_Source : string; en_LastTriageAt : string;
  en_TriageWhy : string }.

Abbreviation Registry_file := (list Entry) (only parsing).

Definition NormalizeDomain (domain : string) : string :=
  let domain := ToLower (TrimSpace domain) in
  let domain := TrimPrefix domain "https://" in
  let domain := TrimPrefix domain "http://" in
  let domain := TrimSuffix domain "/" in
  match Index domain "/" with Some idx => stake idx domain | None => domain end.

(** The lower-cased, trimmed types, each once, in byte order.  The code collects
    them in a map or in order of appearance, and sorts either. *)
Definition normalizeTypes `{Sorter} (types : list string) : list string :=
  sort_slice str_ltb (dedup_on id
    (List.filter (λ t, negb (String.eqb t estr)) ((λ t, ToLower (TrimSpace t)) <$> types))).

Definition mergeTypes `{Sorter} (existing add : list string) : list string :=
  normalizeTypes (existing ++ add).

Definition hasType (types : list string) (want : string) : bool :=
  existsb (λ t, EqualFold (TrimSpace t) want) types.

Definition dropped (e : Entry) : bool := EqualFold (TrimSpace (en_TriageStatus e)) "drop".

(** [if x != "" && old == "" { old = x }] *)
Definition fill (old x : string) : string :=
  if negb (String.eqb x estr) && String.eqb old estr then x else old.

(** [if x != "" { old = x }] *)
Definition replace_with (old x : string) : string := if String.eqb x estr then old else x.

Section upsert.
Context `{Sorter} `{TimeLib} (now : Time).

Definition entry_types (i : Entry) : list string :=
  match normalizeTypes (en_Types i) with [] => [TypeTGWeb] | types => types end.

Definition merge_entry (existing i : Entry) : Entry := {|
  en_Domain := en_Domain existing; en_Types := mergeTypes (en_Types existing) (entry_types i);
  en_DiscoveredBy := replace_with (en_DiscoveredBy existing) (en_DiscoveredBy i);
  en_LastSeen := FormatRFC3339 now;
  en_TriageStatus := replace_with (en_TriageStatus existing) (en_TriageStatus i);
  en_Channel := fill (en_Channel existing) (en_Channel i);
  en_Source := fill (en_Source existing) (en_Source i);
  en_LastTriageAt := en_LastTriageAt existing; en_TriageWhy := en_TriageWhy existing |}.

Definition new_entry (domain : string) (i : Entry) : Entry := {|
  en_Domain := domain; en_Types := entry_types i; en_DiscoveredBy := en_DiscoveredBy i;
  en_LastSeen := FormatRFC3339 now; en_TriageStatus := en_TriageStatus i;
  en_Channel := en_Channel i; en_Source := en_Source i; en_LastTriageAt := estr;
  en_TriageWhy := estr |}.

(** [byDomain]: the last row of a domain. *)
Definition row_of (domain : string) (f : Registry_file) : option nat :=
  foldl (λ found p, if String.eqb (NormalizeDomain (en_Domain p.2)) domain then Some p.1 else found)
    None (imap pair f).

(** The new contents, if there is anything to write, and [added]. *)
Definition upsert_entries (i : Entry) (f : Registry_file) : option Registry_file * bool :=
  let domain := NormalizeDomain (en_Domain i) in
  match row_of domain f with
  | Some idx =>
      match f !! idx with
      | Some existing =>
          if dropped existing then (None, false)
          else (Some (<[idx := merge_entry existing i]> f), false)
      | None => (None, false)
      end
  | None => (Some (f ++ [new_entry domain i]), true)
  end.

(** [Upsert]: the file afterwards, [added], and whether it failed. *)
Definition Upsert (writable : bool) (i : Entry) (d : disk Registry_file)
    : disk Registry_file * bool * bool :=
  if String.eqb (NormalizeDomain (en_Domain i)) estr then (d, false, false)
  else match read_file [] d with
       | None => (d, false, true)
       | Some f =>
           match upsert_entries i f with
           | (None, added) => (d, added, false)
           | (Some f', added) => let '(d', err) := write_file writable f' d in (d', added, err)
           end
       end.
End upsert.

Definition ListDomainsByType `{Sorter} (d : disk Registry_file) (typ : string)
    : option (list string) :=
  let typ := ToLower (TrimSpace typ) in
  (λ f, sort_slice str_ltb (dedup_on id (List.filter (λ x, negb (String.eqb x estr))
     ((λ e, NormalizeDomain (en_Domain e)) <$>
      List.filter (λ e, negb (dropped e) && hasType (en_Types e) typ) f))))
  <$> read_file [] d.

Definition CountByType `{Sorter} (d : disk Registry_file) (typ : string) : option Z :=
  (λ l, Z.of_nat (length l)) <$> ListDomainsByType d typ.

(** ** Heuristic triage ([heuristic.go]) *)

Record DomainMeta := {
  dm_Domain : string; dm_Channel : string; dm_Source : string; dm_DiscoveredBy : string;
  dm_Kind : string }.

Definition heuristicDropHosts : list string :=
  [ "facebook.com"; "instagram.com"; "twitter.com"; "x.com"; "youtube.com"; "tiktok.com";
    "linkedin.com"; "t.me"; "telegram.me"; "telegram.org"; "google.com"; "bing.com";
    "duckduckgo.com"; "bit.ly"; "tinyurl.com"; "goo.gl"; "t.co"; "cloudflare.com";
    "amazonaws.com"; "github.com"; "medium.com"; "wordpress.com"; "blogspot.com";
    "wikipedia.org"; "netflix.com"; "solscan.io"; "gmgn.ai"; "solanacoinpump.top";
    "etherscan.io"; "bscscan.com"; "blockchain.com"; "tronscan.org"; "polygonscan.com";
    "arbiscan.io"; "optimistic.etherscan.io"; "basescan.org"; "snowtrace.io";
    "explorer.solana.com"; "magiceden.io"; "jup.ag"; "raydium.io"; "pump.fun" ].

(** What the first label hides: [host[idx+1:]] after the first dot, if the dot is
    not the first byte. *)
Definition parent_host (domain : string) : string :=
  match Index domain "." with
  | Some (S n) => sdrop (S (S n)) domain
  | _ => domain
  end.

Definition noise_host (hosts : list string) (domain : string) : bool :=
  existsb (λ blocked, String.eqb domain blocked || HasSuffix domain ("." +:+ blocked)) hosts.

(** [Some (action, why)] when the metadata decides. *)
Definition HeuristicTriage (st : validate_state) (meta : DomainMeta) : option (string * string) :=
  let domain := NormalizeDomain (dm_Domain meta) in
  if String.eqb domain estr then Some ("drop", "empty_domain")
  else if IsBlacklistedDomain st domain then Some ("drop", "blacklist")
  else if IsBlockedTLD domain then Some ("drop", "blocked_tld")
  else if negb (IsValidWebDomain st domain) then Some ("drop", "invalid_host")
  else if mem domain heuristicDropHosts then Some ("drop", "noise_host")
  else if mem (parent_host domain) heuristicDropHosts then Some ("drop", "noise_host")
  else if noise_host heuristicDropHosts domain then Some ("drop", "noise_host")
  else None.

Definition heuristic_drops (st : validate_state) (meta : DomainMeta) : bool :=
  match HeuristicTriage st meta with Some (action, _) => String.eqb action "drop" | None => false end.

Definition meta_of (domain : string) : DomainMeta := {|
  dm_Domain := domain; dm_Channel := estr; dm_Source := estr; dm_DiscoveredBy := estr;
  dm_Kind := estr |}.

(** ** Cascade ([cascade.go]) *)

Definition CascadeTypes : list string := [TypeSupply; TypeLander; TypeTGWeb].

Definition AcceptCascadeDomain (st : validate_state) (domain : string) : bool :=
  let domain := NormalizeDomain domain in
  if String.eqb domain estr then false else negb (heuristic_drops st (meta_of domain)).

Definition cascadePartnerDropHosts : list string :=
  [ "rubiconproject.com"; "pubmatic.com"; "openx.com"; "appnexus.com"; "adnxs.com";
    "indexexchange.com"; "casalemedia.com"; "triplelift.com"; "media.net";
    "smartadserver.com"; "amazon-adsystem.com"; "doubleclick.net"; "googlesyndication.com";
    "googleadservices.com"; "adsrvr.org"; "criteo.com"; "taboola.com"; "outbrain.com";
    "sharethrough.com"; "spotx.tv"; "yieldmo.com"; "contextweb.com"; "liveramp.com";
    "adform.net"; "sovrn.com"; "lijit.com"; "33across.com"; "freewheel.tv";
    "unrulymedia.com"; "conversantmedia.com"; "smaato.com"; "inmobi.com"; "chartboost.com";
    "teads.tv"; "magnite.com" ].

Definition AcceptCascadePartnerDomain (st : validate_state) (domain : string) : bool :=
  if negb (AcceptCascadeDomain st domain) then false
  else
    let domain := NormalizeDomain domain in
    if String.eqb domain estr then false
    else if mem domain cascadePartnerDropHosts then false
    else negb (noise_host cascadePartnerDropHosts domain).

Definition seed_entry (domain : string) (types : list string) (discoveredBy source channel : string)
    : Entry := {|
  en_Domain := domain; en_Types := types; en_DiscoveredBy := discoveredBy; en_LastSeen := estr;
  en_TriageStatus := estr; en_Channel := channel; en_Source := source;
  en_LastTriageAt := estr; en_TriageWhy := estr |}.

Section cascade.
Context `{Sorter} `{TimeLib} (st : validate_state) (now : Time) (writable : bool).

Definition UpsertCascade (domain discoveredBy source channel : string) (d : disk Registry_file)
    : disk Registry_file * bool * bool :=
  let domain := NormalizeDomain domain in
  if String.eqb domain estr || negb (AcceptCascadeDomain st domain) then (d, false, false)
  else Upsert now writable
         (seed_entry domain CascadeTypes (TrimSpace discoveredBy) (TrimSpace source)
            (TrimSpace channel)) d.

(** The loop stops at the first error. *)
Fixpoint CascadeDomains (domains : list string) (discoveredBy source : string)
    (d : disk Registry_file) : disk Registry_file * Z * bool :=
  match domains with
  | [] => (d, 0, false)
  | domain :: rest =>
      let '(d, added, err) := UpsertCascade domain discoveredBy source estr d in
      if err then (d, 0, true)
      else let '(d, n, err) := CascadeDomains rest discoveredBy source d in
           (d, (if added then 1 else 0) + n, err)
  end.
End cascade.

(** ** Triage ([triage_store.go], [gate.go], [score.go]) *)

Definition LookupEntry (d : disk Registry_file) (domain : string) : option Entry :=
  f ← read_file [] d;
  List.find (λ e, String.eqb (NormalizeDomain (en_Domain e)) (NormalizeDomain domain)) f.

Definition triage_action (action : string) : string :=
  let action := ToLower (TrimSpace action) in
  if mem action ["keep"; "drop"; "defer"] then action else "defer".

Definition SetEntryTriageStatus (e : Entry) (action : string) : Entry := {|
  en_Domain := en_Domain e; en_Types := en_Types e; en_DiscoveredBy := en_DiscoveredBy e;
  en_LastSeen := en_LastSeen e; en_TriageStatus := triage_action action;
  en_Channel := en_Channel e; en_Source := en_Source e; en_LastTriageAt := en_LastTriageAt e;
  en_TriageWhy := en_TriageWhy e |}.

(** The first row of the domain gets the status; [None] when there is none. *)
Fixpoint set_first_status (domain status : string) (f : Registry_file) : option Registry_file :=
  match f with
  | [] => None
  | e :: f' =>
      if String.eqb (NormalizeDomain (en_Domain e)) domain
      then Some (SetEntryTriageStatus e status :: f')
      else cons e <$> set_first_status domain status f'
  end.

Definition SetTriageStatus (writable : bool) (domain status : string) (d : disk Registry_file)
    : disk Registry_file * bool :=
  match read_file [] d with
  | None => (d, true)
  | Some f =>
      match set_first_status (NormalizeDomain domain) status f with
      | None => (d, false)
      | Some f' => write_file writable f' d
      end
  end.

Abbreviation Decisions := (gmap string string) (only parsing).

Definition decide_entry (cache : Decisions) (e : Entry) : Entry * bool :=
  match cache !! NormalizeDomain (en_Domain e) with
  | None => (e, false)
  | Some action =>
      if String.eqb action estr then (e, false)
      else (SetEntryTriageStatus e action,
            String.eqb action "drop"
            && negb (String.eqb (ToLower (TrimSpace (en_TriageStatus e))) "drop"))
  end.

(** The file, the number of newly dropped rows (0 on an error), and the error. *)
Definition ApplyTriageDecisions (writable : bool) (cache : Decisions) (d : disk Registry_file)
    : disk Registry_file * Z * bool :=
  match read_file [] d with
  | None => (d, 0, true)
  | Some f =>
      let rows := decide_entry cache <$> f in
      let '(d', err) := write_file writable rows.*1 d in
      (d', if err then 0 else count_if snd rows, err)
  end.

(** The rows for the model, and the cache, which the heuristic decisions go into. *)
Fixpoint PendingForGemini (st : validate_state) (f : Registry_file) (cache : Decisions)
    : list Entry * Decisions :=
  match f with
  | [] => ([], cache)
  | e :: f' =>
      let domain := NormalizeDomain (en_Domain e) in
      if String.eqb domain estr then PendingForGemini st f' cache
      else match HeuristicTriage st {|
                   dm_Domain := domain; dm_Channel := en_Channel e; dm_Source := en_Source e;
                   dm_DiscoveredBy := en_DiscoveredBy e; dm_Kind := estr |} with
           | Some (action, _) => PendingForGemini st f' (<[domain := action]> cache)
           | None =>
               let cached := default estr (cache !! domain) in
               let status := ToLower (TrimSpace (en_TriageStatus e)) in
               if negb (String.eqb cached estr) && negb (String.eqb cached "defer")
               then PendingForGemini st f' cache
               else if String.eqb status "keep" || String.eqb status "drop"
               then PendingForGemini st f' cache
               else let '(rows, cache) := PendingForGemini st f' cache in (e :: rows, cache)
           end
  end.

(** [Some reason] when the crawl is skipped. *)
Definition ShouldSkipCrawl (st : validate_state) (d : disk Registry_file) (triageEnabled : bool)
    (meta : DomainMeta) : option string :=
  let gate :=
    if negb triageEnabled then None
    else match LookupEntry d (dm_Domain meta) with
         | None => None
         | Some entry =>
             let status := ToLower (TrimSpace (en_TriageStatus entry)) in
             if String.eqb status "keep" then None
             else if String.eqb status "drop" then Some "triage:drop"
             else Some "triage:pending"
         end in
  match HeuristicTriage st meta with
  | Some (action, why) => if String.eqb action "drop" then Some ("heuristic:" +:+ why) else gate
  | None => gate
  end.

Definition RelevanceScore (e : Entry) : Z :=
  let status := ToLower (TrimSpace (en_TriageStatus e)) in
  if String.eqb status "drop" then 5
  else
    let score := 40 + (if String.eqb status "keep" then 35
                       else if String.eqb status "defer" || String.eqb status estr then 10
                       else 0) in
    let score := if Nat.leb 2 (length (en_Types e)) then score + 10 else score in
    let score := if Contains (ToLower (en_DiscoveredBy e)) "accepted" then score + 15 else score in
    let score := if Contains (ToLower (en_DiscoveredBy e)) "telegram" then score + 5 else score in
    if 100 <? score then 100 else if score <? 0 then 0 else score.

Record ScoreSummary := {
  sm_Domain : string; sm_Types : list string; sm_TriageStatus : string; sm_RelevanceScore : Z;
  sm_DiscoveredBy : string; sm_LastSeen : string; sm_LastTriageAt : string;
  sm_TriageWhy : string }.

Definition Summarize (f : Registry_file) : list ScoreSummary :=
  (λ e, {| sm_Domain := NormalizeDomain (en_Domain e); sm_Types := en_Types e;
           sm_TriageStatus := en_TriageStatus e; sm_RelevanceScore := RelevanceScore e;
           sm_DiscoveredBy := en_DiscoveredBy e; sm_LastSeen := en_LastSeen e;
           sm_LastTriageAt := en_LastTriageAt e; sm_TriageWhy := en_TriageWhy e |}) <$>
  List.filter (λ e, negb (String.eqb (NormalizeDomain (en_Domain e)) estr)) f.

Definition TouchTriageScore `{TimeLib} (now : Time) (e : Entry) (status why : string) : Entry := {|
  en_Domain := en_Domain e; en_Types := en_Types e; en_DiscoveredBy := en_DiscoveredBy e;
  en_LastSeen := en_LastSeen e; en_TriageStatus := triage_action status;
  en_Channel := en_Channel e; en_Source := en_Source e;
  en_LastTriageAt := FormatRFC3339 now; en_TriageWhy := TrimSpace why |}.
