(* ===== verification/CrawlQueue.v ===== *)
(** The queue of discovered domains for the site crawler
    ([internal/sources/tgweb/]: registry.go, domain_validate.go), the fan-out of a
    domain into both registries ([internal/domaincascade/fanout.go]) and the
    feedback of accepted leads into the source registry
    ([internal/seedfeedback/feedback.go]).  Each operation on the queue holds the
    lock of the file. *)
From S2P Require Import Prelude Unicode GoStrings Utf8Facts TextFacts GoSort Matcher.
From S2P Require Import Validate Scoring Extract FilterSignals FilterGates TgWeb Geo Item.
From S2P Require Import Hashes.
From S2P Require Import Entity EntityKeys SourceRegistry.

Local Open Scope Z_scope.

(** ** The queue ([registry.go]) *)

Record DomainEntry := {
  de_Domain : string; de_Channel : string; de_Source : string; de_Kind : string;
  de_DiscoveredVia : string; de_ForwardedFrom : string; de_At : string; de_CrawledAt : string }.

Abbreviation DomainFile := (list DomainEntry) (only parsing).

Definition lower_trim (s : string) : string := ToLower (TrimSpace s).

Definition IsValidCrawlDomain (st : validate_state) (domain : string) : bool :=
  if IsBlockedTLD domain then false else IsValidWebDomain st domain.

Definition normalizeDomainFile (f : DomainFile) : DomainFile :=
  (λ e, {| de_Domain := de_Domain e; de_Channel := de_Channel e; de_Source := de_Source e;
           de_Kind := de_Kind e;
           de_DiscoveredVia := fill (de_DiscoveredVia e) (de_ForwardedFrom e);
           de_ForwardedFrom := estr; de_At := de_At e; de_CrawledAt := de_CrawledAt e |}) <$> f.

Definition loadDomainsUnlocked (d : disk DomainFile) : option DomainFile :=
  match d with
  | Stored f => Some (normalizeDomainFile f)
  | _ => read_file [] d
  end.

Definition writeDomainsUnlocked (writable : bool) (f : DomainFile) (d : disk DomainFile)
    : disk DomainFile * bool := write_file writable (normalizeDomainFile f) d.

Definition with_domain (e : DomainEntry) (domain : string) : DomainEntry := {|
  de_Domain := domain; de_Channel := de_Channel e; de_Source := de_Source e;
  de_Kind := de_Kind e; de_DiscoveredVia := de_DiscoveredVia e;
  de_ForwardedFrom := de_ForwardedFrom e; de_At := de_At e; de_CrawledAt := de_CrawledAt e |}.

Definition with_crawled (e : DomainEntry) (at' : string) : DomainEntry := {|
  de_Domain := de_Domain e; de_Channel := de_Channel e; de_Source := de_Source e;
  de_Kind := de_Kind e; de_DiscoveredVia := de_DiscoveredVia e;
  de_ForwardedFrom := de_ForwardedFrom e; de_At := de_At e; de_CrawledAt := at' |}.

Definition day : Duration := 24 * hour.

Section queue.
Context `{Sorter} `{TimeLib} (st : validate_state) (now : Time) (writable : bool).

(** [int(now.Sub(t).Hours() / 24)], clamped to 0..30.  The division in floating
    point is exact enough for the clamp: it is taken in integers here, towards zero. *)
Definition age_days (t : Time) : Z := Z.min 30 (Z.max 0 (Z.quot (time_sub now t) day)).

Definition domainPendingScore (e : DomainEntry) : Z :=
  let score := if String.eqb (TrimSpace (de_Channel e)) estr then 0 else 100 in
  let score := match ParseRFC3339 (TrimSpace (de_At e)) with
               | Some t => score + (30 - age_days t) * 2
               | None => score
               end in
  let src := lower_trim (de_Source e) in
  let score := if Contains src "cross" || Contains src "mention" then score + 10 else score in
  let kind := lower_trim (de_Kind e) in
  let score := if String.eqb kind "mentioned_in_about" then score + 15
               else if String.eqb kind "mentioned_in_message" then score + 5 else score in
  if String.eqb (TrimSpace (de_DiscoveredVia e)) estr then score else score + 5.

(** Crawled after the cutoff; a date that does not parse is stale. *)
Definition fresh_crawl (rescanDays : Z) (e : DomainEntry) : bool :=
  if String.eqb (de_CrawledAt e) estr then false
  else match ParseRFC3339 (de_CrawledAt e) with
       | Some t => time_after t (time_add now (- (rescanDays * day)))
       | None => false
       end.

(** [if limit > 0 && len(l) > limit { l = l[:limit] }] *)
Definition limited {A} (limit : Z) (l : list A) : list A :=
  if (0 <? limit) && (limit <? Z.of_nat (length l)) then take (Z.to_nat limit) l else l.

Definition pending_rows (rescanDays : Z) (f : DomainFile) : list DomainEntry :=
  let rescanDays := if rescanDays <=? 0 then 30 else rescanDays in
  List.filter (λ e, IsValidCrawlDomain st (de_Domain e))
    ((λ e, with_domain e (lower_trim (de_Domain e))) <$>
     List.filter (λ e, negb (String.eqb (lower_trim (de_Domain e)) estr)
                       && negb (fresh_crawl rescanDays e)) f).

Definition by_score (x y : DomainEntry) : bool := domainPendingScore y <? domainPendingScore x.

Definition PendingDomains (f : DomainFile) (limit rescanDays : Z) : list DomainEntry :=
  limited limit (sort_slice by_score (pending_rows rescanDays f)).

Definition selectOnlyDomains (f : DomainFile) (only : list string) (limit : Z)
    : list DomainEntry :=
  let want := List.filter (λ d, negb (String.eqb d estr)) (lower_trim <$> only) in
  if is_empty want then []
  else limited limit
    (List.filter (λ e, mem (de_Domain e) want && IsValidCrawlDomain st (de_Domain e))
       ((λ e, with_domain e (lower_trim (de_Domain e))) <$> f)).

Definition SelectDomains (f : DomainFile) (limit rescanDays : Z) (only : list string)
    : list DomainEntry :=
  if is_empty only then PendingDomains f limit rescanDays else selectOnlyDomains f only limit.

(** The file, the number of rows changed, the error. *)
Definition ClearCrawledAt (domains : list string) (d : disk DomainFile)
    : disk DomainFile * Z * bool :=
  let want := List.filter (λ d, negb (String.eqb d estr)) (lower_trim <$> domains) in
  if is_empty want then (d, 0, false)
  else match loadDomainsUnlocked d with
       | None => (d, 0, true)
       | Some f =>
           let hit e := mem (lower_trim (de_Domain e)) want
                        && negb (String.eqb (de_CrawledAt e) estr) in
           let updated := count_if hit f in
           if updated =? 0 then (d, 0, false)
           else
             let '(d, err) := writeDomainsUnlocked writable
               ((λ e, if hit e then with_crawled e estr else e) <$> f) d in
             (d, if err then 0 else updated, err)
       end.

(** The first row of the domain is marked; its [Domain] is not trimmed. *)
Fixpoint mark_first (domain : string) (f : DomainFile) : option DomainFile :=
  match f with
  | [] => None
  | e :: f' =>
      if EqualFold (de_Domain e) domain then Some (with_crawled e (FormatRFC3339 now) :: f')
      else cons e <$> mark_first domain f'
  end.

Definition MarkCrawled (domain : string) (d : disk DomainFile) : disk DomainFile * bool :=
  match loadDomainsUnlocked d with
  | None => (d, true)
  | Some f => match mark_first (lower_trim domain) f with
              | None => (d, false)
              | Some f' => writeDomainsUnlocked writable f' d
              end
  end.

Definition queued (domain : string) (f : DomainFile) : bool :=
  existsb (λ e, EqualFold (TrimSpace (de_Domain e)) domain) f.

Definition queue_entry (domain source : string) : DomainEntry := {|
  de_Domain := domain; de_Channel := estr; de_Source := source; de_Kind := estr;
  de_DiscoveredVia := estr; de_ForwardedFrom := estr; de_At := FormatRFC3339 now;
  de_CrawledAt := estr |}.

(** [added] is set before the write, so it is also true when the write fails. *)
Definition QueueDomain (domain source : string) (d : disk DomainFile)
    : disk DomainFile * bool * bool :=
  let domain := lower_trim domain in
  if String.eqb domain estr || negb (IsValidCrawlDomain st domain) then (d, false, false)
  else
    let source := TrimSpace source in
    let source := if String.eqb source estr then "cascade" else source in
    match loadDomainsUnlocked d with
    | None => (d, false, true)
    | Some f =>
        if queued domain f then (d, false, false)
        else let '(d, err) := writeDomainsUnlocked writable (f ++ [queue_entry domain source]) d in
             (d, true, err)
    end.

(** The file, the rows kept and removed, the error. *)
Definition PruneInvalidDomains (d : disk DomainFile) : disk DomainFile * Z * Z * bool :=
  match loadDomainsUnlocked d with
  | None => (d, 0, 0, true)
  | Some f =>
      let ok e := negb (String.eqb (lower_trim (de_Domain e)) estr)
                  && IsValidCrawlDomain st (lower_trim (de_Domain e)) in
      let valid := (λ e, with_domain e (lower_trim (de_Domain e))) <$> List.filter ok f in
      let kept := Z.of_nat (length valid) in
      let removed := count_if (λ e, negb (ok e)) f in
      if removed =? 0 then (d, kept, removed, false)
      else
        let '(d, err) := writeDomainsUnlocked writable valid d in
        if err then (d, 0, 0, true) else (d, kept, removed, false)
  end.

(** ** Fan-out ([fanout.go]) *)

Record registries := { rg_Sources : disk (list Entry); rg_Domains : option (disk DomainFile) }.

(** [rg_Domains = None] is an empty [TelegramDomainsPath].  The results are
    [registryAdded], [tgwebQueued] and the error. *)
Definition FanOut (domain discoveredBy source : string) (r : registries)
    : registries * bool * bool * bool :=
  let domain := NormalizeDomain domain in
  if String.eqb domain estr || negb (AcceptCascadeDomain st domain) then (r, false, false, false)
  else
    let discoveredBy := TrimSpace discoveredBy in
    let source := TrimSpace source in
    let source := if String.eqb source estr then discoveredBy else source in
    let '(d, registryAdded, err) :=
      UpsertCascade st now writable domain discoveredBy source estr (rg_Sources r) in
    let r := {| rg_Sources := d; rg_Domains := rg_Domains r |} in
    if err then (r, false, false, true)
    else match rg_Domains r with
         | None => (r, registryAdded, false, false)
         | Some q =>
             let '(q, tgwebQueued, err) := QueueDomain domain source q in
             let r := {| rg_Sources := rg_Sources r; rg_Domains := Some q |} in
             if err then (r, registryAdded, false, true)
             else (r, registryAdded, tgwebQueued, false)
         end.

Fixpoint fan_out_all (domains : list string) (discoveredBy source : string) (r : registries)
    : registries * Z * Z * bool :=
  match domains with
  | [] => (r, 0, 0, false)
  | domain :: rest =>
      let '(r, regAdded, tgAdded, err) := FanOut domain discoveredBy source r in
      if err then (r, 0, 0, true)
      else
        let '(r, n, m, err) := fan_out_all rest discoveredBy source r in
        (r, (if regAdded then 1 else 0) + n, (if tgAdded then 1 else 0) + m, err)
  end.

Definition FanOutMany (domains : list string) (discoveredBy source : string) (r : registries)
    : registries * Z * Z * bool :=
  fan_out_all (dedup_on id (List.filter (λ d, negb (String.eqb d estr))
    (NormalizeDomain <$> domains))) discoveredBy source r.
End queue.

(** ** Rows of the queue into the source registry ([registry_sync.go]) *)

Section sync.
Context `{Sorter} `{TimeLib} (st : validate_state) (now : Time) (writable : bool).

Definition sync_entry (row : DomainEntry) : Entry :=
  let discoveredBy := TrimSpace (de_Source row) in
  let discoveredBy := if String.eqb discoveredBy estr then "telegram" else discoveredBy in
  let types := if Contains (ToLower discoveredBy) "cross" || Contains (ToLower discoveredBy) "mention"
               then [TypeSupply; TypeTGWeb; TypeLander] else CascadeTypes in
  seed_entry (lower_trim (de_Domain row)) types discoveredBy (de_Source row) (de_Channel row).

(** The registry afterwards, [added] and the error; the first error ends the loop. *)
Fixpoint sync_rows (rows : DomainFile) (d : disk (list Entry)) : disk (list Entry) * Z * bool :=
  match rows with
  | [] => (d, 0, false)
  | row :: rest =>
      let domain := lower_trim (de_Domain row) in
      if String.eqb domain estr || negb (IsValidCrawlDomain st domain) then sync_rows rest d
      else
        let '(d, added, err) := Upsert now writable (sync_entry row) d in
        if err then (d, 0, true)
        else let '(d, n, err) := sync_rows rest d in
             (d, (if added then 1 else 0) + n, err)
  end.

Definition SyncToSourceRegistry (q : disk DomainFile) (d : disk (list Entry))
    : disk (list Entry) * Z * bool :=
  match loadDomainsUnlocked q with
  | None => (d, 0, true)
  | Some f => sync_rows f d
  end.
End sync.

(** ** Feedback of accepted leads ([feedback.go]) *)

Record FeedbackConfig := {
  fb_Enabled : bool; fb_RegistryPath : string; fb_MinHeatTier : string }.

Record AcceptInput := {
  ai_Source : string; ai_HeatTier : string; ai_Priority : Priority; ai_Resolve : ResolveInput;
  ai_Snippet : string; ai_EnrichDomain : string; ai_Username : string; ai_Title : string;
  ai_ForumUserID : string }.

(** [None] is a nil recorder. *)
Definition NewRecorder (cfg : FeedbackConfig) : option FeedbackConfig :=
  if negb (fb_Enabled cfg) || String.eqb (TrimSpace (fb_RegistryPath cfg)) estr then None
  else Some {| fb_Enabled := fb_Enabled cfg; fb_RegistryPath := fb_RegistryPath cfg;
               fb_MinHeatTier := if String.eqb (fb_MinHeatTier cfg) estr then HeatTierHot
                                 else fb_MinHeatTier cfg |}.

Section feedback.
Context `{Sorter} `{TimeLib} `{HtmlLib} `{UrlLib} (st : validate_state) (now : Time).

Definition enqueuePaths (cfg : FeedbackConfig) (i : AcceptInput) : bool * bool :=
  let family := SourceFamily (ai_Source i) in
  ((HeatTierRank (fb_MinHeatTier cfg) <=? HeatTierRank (ai_HeatTier i))
   || MeetsMinPriority (ai_Priority i) PriorityHigh,
   String.eqb family "forum" || String.eqb family "warrior").

(** What [add] lets through, in its normal form. *)
Definition feedback_domain (domain : string) : option string :=
  let domain := EntityKeys.NormalizeDomain st domain in
  if String.eqb domain estr || negb (IsValidWebDomain st domain) then None
  else if IsBlacklistedDomain st domain || IsBlockedTLD domain then None
  else Some domain.

Definition domainsFromAccept (i : AcceptInput) : list string :=
  let resolve := EnrichForumIdentity (ai_Resolve i) (ai_Username i) (ai_Title i)
                   (ai_ForumUserID i) in
  let candidates :=
    [SiteDomainFromSource (ai_Source i); SupplyDomainFromSource st (ai_Source i);
     ai_EnrichDomain i]
    ++ (ek_Value <$> List.filter (λ k, String.eqb (ek_Kind k) KindDomain)
          (ResolveKeys st resolve))
    ++ (if IsTgWebSource (ai_Source i) then [] else WebDomains st (ai_Snippet i)) in
  dedup_on id (omap feedback_domain candidates).

Definition snippetDomainSet (snippet : string) : list string :=
  List.filter (λ d, negb (String.eqb d estr))
    (EntityKeys.NormalizeDomain st <$> WebDomains st snippet).

(** Errors of a single row are skipped. *)
Fixpoint record_domains (writable : bool) (i : AcceptInput) (hotPath forumMention : bool)
    (snippet : list string) (domains : list string) (d : disk (list Entry))
    : disk (list Entry) * Z :=
  match domains with
  | [] => (d, 0)
  | domain :: rest =>
      let discoveredBy := if hotPath then Some "accepted_lead"
                          else if forumMention && mem domain snippet then Some "forum_crossmention"
                          else None in
      match discoveredBy with
      | None => record_domains writable i hotPath forumMention snippet rest d
      | Some by_ =>
          let '(d, added, err) := Upsert now writable
            (seed_entry domain CascadeTypes by_ (ai_Source i) (ai_Source i)) d in
          let '(d, n) := record_domains writable i hotPath forumMention snippet rest d in
          (d, (if negb err && added then 1 else 0) + n)
      end
  end.

Definition RecordAccepted (cfg : option FeedbackConfig) (writable : bool) (i : AcceptInput)
    (d : disk (list Entry)) : disk (list Entry) * Z :=
  match cfg with
  | None => (d, 0)
  | Some cfg =>
      let '(hotPath, forumMention) := enqueuePaths cfg i in
      if negb hotPath && negb forumMention then (d, 0)
      else record_domains writable i hotPath forumMention (snippetDomainSet (ai_Snippet i))
             (domainsFromAccept i) d
  end.
End feedback.
