(* ===== verification/RegistryFacts.v ===== *)
(** Facts and properties of the source registry: what an upsert does to the lists of
    domains, and that a dropped domain stays dropped whatever is discovered later. *)
From Stdlib Require Import Sorted.
From S2P Require Import Prelude Unicode GoStrings Utf8Facts TextFacts GoSort Matcher.
From S2P Require Import Validate Scoring Extract FilterSignals FilterGates TgWeb Geo Item.
From S2P Require Import Hashes.
From S2P Require Import Entity EntityKeys SourceRegistry CrawlQueue.

Local Open Scope Z_scope.

(** ** Rows and their keys *)

Definition entry_key (e : Entry) : string := NormalizeDomain (en_Domain e).

(** The rows of the file are about different domains. *)
Definition distinct (f : list Entry) : Prop := NoDup (entry_key <$> f).

(** A domain whose registry form is its own registry form. *)
Definition stable (domain : string) : Prop :=
  NormalizeDomain (NormalizeDomain domain) = NormalizeDomain domain.

Definition normal_type (t : string) : Prop := ToLower (TrimSpace t) = t ∧ t ≠ estr.

(** The registry form ends at the first slash, so that normalising twice is enough. *)
Lemma slash_stable domain : has_byte 47 domain = false → stable domain.
Proof.
  assert (∀ s, has_byte 47 s = false →
    NormalizeDomain s = ToLower (TrimSpace s) ∧ has_byte 47 (ToLower (TrimSpace s)) = false) as H.
  { intros s Hs. apply has_byte_lower_trim in Hs; [|done|by vm_compute]. split; [|done].
    unfold NormalizeDomain. set (d := ToLower (TrimSpace s)) in *.
    assert (∀ p, has_byte 47 p = true → HasPrefix d p = false ∧ HasSuffix d p = false) as Hp.
    { intros p Hp. split; apply not_true_is_false.
      - intros [t E]%HasPrefix_elim. rewrite E, has_byte_app, Hp in Hs. done.
      - intros [t E]%HasSuffix_spec. rewrite E, has_byte_app, Hp, orb_true_r in Hs. done. }
    unfold TrimPrefix, TrimSuffix.
    rewrite (proj1 (Hp "https://" eq_refl)), (proj1 (Hp "http://" eq_refl)), (proj2 (Hp "/" eq_refl)).
    destruct (Index d "/") as [k|] eqn:Hi; [|done].
    assert (Contains d "/" = true) as Hc; [|by rewrite Contains_byte in Hc; change (has_byte 47 d = true) in Hc; congruence].
    apply not_false_iff_true. rewrite <- Index_None, Hi. done. }
  intros Hs. unfold stable. destruct (H domain Hs) as [E Hs']. rewrite !E.
  destruct (H _ Hs') as [E' _]. rewrite E'. apply lower_trim_idemp.
Qed.

Lemma NormalizeDomain_no_slash domain : has_byte 47 (NormalizeDomain domain) = false.
Proof.
  unfold NormalizeDomain. set (d := TrimSuffix _ _).
  destruct (Index d "/") as [k|] eqn:Hi; [exact (Index_cut _ _ _ Hi)|].
  apply Index_None in Hi. by rewrite Contains_byte in Hi.
Qed.

Lemma stable_NormalizeDomain domain : stable (NormalizeDomain domain).
Proof. apply slash_stable, NormalizeDomain_no_slash. Qed.

(** The types of every row are in the form the registry writes. *)
Definition types_ok (f : list Entry) : Prop := Forall (λ e, Forall normal_type (en_Types e)) f.

Definition drop_status (s : string) : bool := EqualFold (TrimSpace s) "drop".

Lemma row_of_snoc domain f e :
  row_of domain (f ++ [e]) =
  if String.eqb (entry_key e) domain then Some (length f) else row_of domain f.
Proof. unfold row_of. rewrite imap_app, foldl_app. simpl. by rewrite Nat.add_0_r. Qed.

Lemma row_of_Some domain f k :
  row_of domain f = Some k → ∃ e, f !! k = Some e ∧ entry_key e = domain.
Proof.
  induction f as [|e f IH] using rev_ind; [done|]. rewrite row_of_snoc.
  destruct (String.eqb_spec (entry_key e) domain) as [E|].
  - intros [= <-]. exists e. split; [|done]. by rewrite lookup_app_r, Nat.sub_diag by lia.
  - intros Hk. destruct (IH Hk) as (x & Hx & Ek). exists x. split; [|done].
    by apply lookup_app_l_Some.
Qed.

Lemma row_of_None domain f : row_of domain f = None ↔ domain ∉ entry_key <$> f.
Proof.
  induction f as [|e f IH] using rev_ind; [split; [set_solver|done]|].
  rewrite row_of_snoc, fmap_app, elem_of_app. simpl. rewrite list_elem_of_singleton.
  destruct (String.eqb_spec (entry_key e) domain) as [E|E]; [|rewrite IH].
  - split; [done|]. intros Hn. exfalso. apply Hn. by right.
  - split; [intros Hn [?|?]; congruence | tauto].
Qed.

Lemma distinct_lookup f i j x y :
  distinct f → f !! i = Some x → f !! j = Some y → entry_key x = entry_key y → i = j.
Proof.
  intros Hd Hi Hj E. eapply (NoDup_lookup _ _ _ (entry_key x) Hd);
    rewrite list_lookup_fmap; [by rewrite Hi | by rewrite Hj, E].
Qed.

(** ** Types *)

Section registry.
Context `{Sorter}.

Lemma normalizeTypes_elem l t :
  t ∈ normalizeTypes l ↔ t ≠ estr ∧ ∃ t0, t0 ∈ l ∧ t = ToLower (TrimSpace t0).
Proof.
  unfold normalizeTypes. rewrite sort_slice_elem.
  match goal with |- t ∈ dedup_on id ?l ↔ _ => pose proof (dedup_on_key id l t) as E end.
  rewrite !list_fmap_id in E. rewrite E, list_elem_of_In, filter_In, <- list_elem_of_In.
  rewrite negb_true_iff, String.eqb_neq, list_elem_of_fmap. naive_solver.
Qed.

Lemma normalizeTypes_ok l : Forall normal_type (normalizeTypes l).
Proof.
  apply Forall_forall. intros t. rewrite normalizeTypes_elem. intros (Hn & t0 & _ & ->).
  split; [apply lower_trim_idemp | done].
Qed.

Lemma mergeTypes_elem l k t :
  Forall normal_type l → Forall normal_type k → t ∈ mergeTypes l k ↔ t ∈ l ∨ t ∈ k.
Proof.
  intros Hl Hk. unfold mergeTypes. rewrite normalizeTypes_elem, <- elem_of_app.
  assert (Forall normal_type (l ++ k)) as Ha by (by apply Forall_app). rewrite Forall_forall in Ha.
  split.
  - intros (_ & t0 & Ht & ->). by rewrite (proj1 (Ha _ Ht)).
  - intros Ht. destruct (Ha _ Ht) as [E Hn]. split; [done|]. exists t. by rewrite E.
Qed.

Lemma hasType_elem l want :
  hasType l want = true ↔ ∃ t, t ∈ l ∧ EqualFold (TrimSpace t) want = true.
Proof.
  unfold hasType. rewrite existsb_exists. setoid_rewrite list_elem_of_In. done.
Qed.

Lemma hasType_merge l k want :
  Forall normal_type l → Forall normal_type k →
  hasType (mergeTypes l k) want = hasType l want || hasType k want.
Proof.
  intros Hl Hk. apply eq_true_iff_eq. rewrite orb_true_iff, !hasType_elem.
  setoid_rewrite (mergeTypes_elem l k); [|done..]. naive_solver.
Qed.

Lemma entry_types_ok i : Forall normal_type (entry_types i).
Proof.
  unfold entry_types. pose proof (normalizeTypes_ok (en_Types i)) as Hn.
  destruct (normalizeTypes (en_Types i)); [|done].
  apply Forall_singleton. by split; [vm_compute|].
Qed.

(** ** Lists *)

(** The rows a list for [typ] is made of. *)
Definition offered (typ : string) (e : Entry) : bool :=
  negb (dropped e) && hasType (en_Types e) (ToLower (TrimSpace typ)).

Lemma ListDomainsByType_elem f typ l x :
  ListDomainsByType (Stored f) typ = Some l →
  x ∈ l ↔ x ≠ estr ∧ ∃ e, e ∈ f ∧ offered typ e = true ∧ entry_key e = x.
Proof.
  unfold ListDomainsByType. simpl. intros [= <-]. rewrite sort_slice_elem.
  match goal with |- x ∈ dedup_on id ?l ↔ _ => pose proof (dedup_on_key id l x) as E end.
  rewrite !list_fmap_id in E. rewrite E, list_elem_of_In, filter_In, <- list_elem_of_In.
  rewrite negb_true_iff, String.eqb_neq, list_elem_of_fmap.
  setoid_rewrite list_elem_of_In. setoid_rewrite filter_In. unfold offered, entry_key.
  naive_solver.
Qed.

Lemma ListDomainsByType_sorted d typ l :
  ListDomainsByType d typ = Some l → NoDup l ∧ StronglySorted (λ x y, str_ltb y x = false) l.
Proof.
  unfold ListDomainsByType. destruct (read_file [] d) as [f|]; [|done]. simpl. intros [= <-].
  split; [|apply sort_slice_sorted, str_weak_order].
  rewrite sort_slice_perm. rewrite <- (list_fmap_id (dedup_on id _)). apply dedup_on_NoDup.
Qed.

(** ** One upsert *)

Context `{TimeLib}.

Lemma entry_key_merge now e i : entry_key (merge_entry now e i) = entry_key e.
Proof. done. Qed.

(** The three ways an upsert ends on a file that can be read. *)
Lemma Upsert_cases now writable i f :
  let domain := NormalizeDomain (en_Domain i) in
  (∃ added err, Upsert now writable i (Stored f) = (Stored f, added, err)) ∨
  (∃ k e, row_of domain f = Some k ∧ f !! k = Some e ∧ entry_key e = domain ∧ dropped e = false
     ∧ Upsert now writable i (Stored f) = (Stored (<[k := merge_entry now e i]> f), false, false)) ∨
  (row_of domain f = None
     ∧ Upsert now writable i (Stored f) = (Stored (f ++ [new_entry now domain i]), true, false)).
Proof.
  intros domain. unfold Upsert. fold domain.
  destruct (String.eqb domain estr); [left; eauto|]. simpl. unfold upsert_entries. fold domain.
  destruct (row_of domain f) as [k|] eqn:Hr.
  - destruct (row_of_Some _ _ _ Hr) as (e & He & Ek). rewrite He.
    destruct (dropped e) eqn:Hd; [left; eauto|].
    destruct writable; simpl; [|left; eauto]. right. left. by exists k, e.
  - destruct writable; simpl; [|left; eauto]. right. by right.
Qed.

(** An upsert keeps every row in its place, and dropped rows as they are. *)
Lemma Upsert_keeps_row now writable i f k e :
  f !! k = Some e → dropped e = true →
  ∃ f' added err, Upsert now writable i (Stored f) = (Stored f', added, err) ∧ f' !! k = Some e.
Proof.
  intros Hk Hd. destruct (Upsert_cases now writable i f)
    as [(a & r & E)|[(j & x & Hr & Hx & _ & Hnd & E)|(_ & E)]]; rewrite E.
  - by exists f, a, r.
  - do 3 eexists. split; [done|]. rewrite list_lookup_insert_ne; [done|]. intros ->. congruence.
  - do 3 eexists. split; [done|]. by apply lookup_app_l_Some.
Qed.

Lemma Upsert_distinct now writable i f f' added err :
  stable (en_Domain i) → distinct f →
  Upsert now writable i (Stored f) = (Stored f', added, err) → distinct f'.
Proof.
  intros Hs Hd. destruct (Upsert_cases now writable i f)
    as [(a & r & E)|[(j & x & Hr & Hx & _ & Hnd & E)|(Hn & E)]]; rewrite E; intros [= <- _ _].
  - done.
  - unfold distinct. rewrite list_fmap_insert. simpl. rewrite entry_key_merge.
    rewrite list_insert_id; [done|]. by rewrite list_lookup_fmap, Hx.
  - unfold distinct. rewrite fmap_app. apply NoDup_app. split; [done|].
    simpl. rewrite row_of_None in Hn. unfold entry_key at 2. simpl. rewrite Hs.
    split; [set_solver|]. apply NoDup_singleton.
Qed.

Lemma Upsert_types now writable i f f' added err :
  types_ok f → Upsert now writable i (Stored f) = (Stored f', added, err) → types_ok f'.
Proof.
  intros Ht. destruct (Upsert_cases now writable i f)
    as [(a & r & E)|[(j & x & Hr & Hx & _ & Hnd & E)|(Hn & E)]]; rewrite E; intros [= <- _ _].
  - done.
  - apply Forall_insert; [done|]. apply normalizeTypes_ok.
  - apply Forall_app. split; [done|]. apply Forall_singleton, entry_types_ok.
Qed.

(** ** The property of an upsert *)

(** The domain has a dropped row. *)
Definition domain_dropped (f : list Entry) (domain : string) : bool :=
  existsb (λ e, String.eqb (entry_key e) domain && dropped e) f.

Lemma domain_dropped_spec f domain :
  domain_dropped f domain = true ↔ ∃ e, e ∈ f ∧ entry_key e = domain ∧ dropped e = true.
Proof.
  unfold domain_dropped. rewrite existsb_exists.
  setoid_rewrite andb_true_iff. setoid_rewrite String.eqb_eq. setoid_rewrite list_elem_of_In. done.
Qed.

(** With one row per domain, the domain is listed when that row is offered. *)
Lemma listed_row f typ l k e :
  distinct f → ListDomainsByType (Stored f) typ = Some l → f !! k = Some e →
  entry_key e ≠ estr → entry_key e ∈ l ↔ offered typ e = true.
Proof.
  intros Hd Hl Hk Hn. rewrite (ListDomainsByType_elem _ _ _ _ Hl). split.
  - intros (_ & x & Hx & Ho & E). apply list_elem_of_lookup in Hx as [j Hj].
    assert (j = k) as -> by (by eapply distinct_lookup). congruence.
  - intros Ho. split; [done|]. exists e. by split; [eapply list_elem_of_lookup_2|].
Qed.

(** A change of one row does not change what the lists say of other domains. *)
Lemma listed_other f typ l l' k e e' x :
  distinct f → ListDomainsByType (Stored f) typ = Some l →
  ListDomainsByType (Stored (<[k := e']> f)) typ = Some l' →
  f !! k = Some e → entry_key e' = entry_key e → x ≠ entry_key e → x ∈ l' ↔ x ∈ l.
Proof.
  intros Hd Hl Hl' Hk Ek Hx.
  rewrite (ListDomainsByType_elem _ _ _ _ Hl), (ListDomainsByType_elem _ _ _ _ Hl').
  pose proof (lookup_lt_Some _ _ _ Hk) as Hlt.
  apply and_iff_compat_l. split; intros (y & Hy & Ho & E);
    apply list_elem_of_lookup in Hy as [j Hj].
  - destruct (decide (j = k)) as [->|Hne].
    + rewrite list_lookup_insert_eq in Hj by done. congruence.
    + rewrite list_lookup_insert_ne in Hj by done. exists y. by split; [eapply list_elem_of_lookup_2|].
  - exists y. split; [|done]. apply (list_elem_of_lookup_2 _ j).
    rewrite list_lookup_insert_ne; [done|]. intros ->. congruence.
Qed.

Lemma offered_merge now i e typ :
  Forall normal_type (en_Types e) → dropped e = false →
  offered typ (merge_entry now e i) =
  negb (drop_status (en_TriageStatus i))
  && (offered typ e || hasType (entry_types i) (ToLower (TrimSpace typ))).
Proof.
  intros Ht Hd. unfold offered. rewrite Hd. simpl.
  rewrite hasType_merge by (done || apply entry_types_ok). f_equal. f_equal.
  unfold dropped, drop_status, merge_entry, replace_with. simpl.
  destruct (String.eqb_spec (en_TriageStatus i) estr) as [->|]; [|done].
  change (dropped e = drop_status estr). by rewrite Hd.
Qed.

(** What an upsert that can write does with a file that can be read. *)
Lemma Upsert_outcome now i f :
  let domain := NormalizeDomain (en_Domain i) in
  domain ≠ estr → distinct f →
  ∃ f' added, Upsert now true i (Stored f) = (Stored f', added, false) ∧
    ((f' = f ∧ added = false ∧ ∃ k e, f !! k = Some e ∧ entry_key e = domain ∧ dropped e = true) ∨
     (added = false ∧ domain_dropped f domain = false ∧
      ∃ k e, f !! k = Some e ∧ entry_key e = domain ∧ dropped e = false
        ∧ f' = <[k := merge_entry now e i]> f) ∨
     (added = true ∧ (domain ∉ entry_key <$> f) ∧ f' = f ++ [new_entry now domain i])).
Proof.
  intros domain Hn Hd. unfold Upsert. fold domain. rewrite (proj2 (String.eqb_neq _ _) Hn). simpl.
  unfold upsert_entries. fold domain. destruct (row_of domain f) as [k|] eqn:Hr.
  - destruct (row_of_Some _ _ _ Hr) as (e & He & Ek). rewrite He.
    destruct (dropped e) eqn:Hde; do 2 eexists; (split; [done|]).
    + left. do 2 (split; [done|]). by exists k, e.
    + right. left. split; [done|]. split; [|by exists k, e].
      apply not_true_is_false. intros (x & Hx & Ex & Hdx)%domain_dropped_spec.
      apply list_elem_of_lookup in Hx as [j Hj].
      assert (j = k) as -> by (eapply distinct_lookup; [done..|congruence]). congruence.
  - apply row_of_None in Hr. do 2 eexists. split; [done|]. right. by right.
Qed.

(** The lists after a new row. *)
Lemma listed_append f e typ l l' :
  entry_key e ∉ entry_key <$> f → entry_key e ≠ estr →
  ListDomainsByType (Stored f) typ = Some l →
  ListDomainsByType (Stored (f ++ [e])) typ = Some l' →
  (∀ x, x ≠ entry_key e → x ∈ l' ↔ x ∈ l)
  ∧ (entry_key e ∉ l) ∧ (entry_key e ∈ l' ↔ offered typ e = true).
Proof.
  intros Hnew Hn Hl Hl'.
  setoid_rewrite (ListDomainsByType_elem _ _ _ _ Hl).
  setoid_rewrite (ListDomainsByType_elem _ _ _ _ Hl').
  setoid_rewrite elem_of_app. setoid_rewrite list_elem_of_singleton.
  assert (∀ x, x ∈ f → entry_key x ≠ entry_key e) as Hne.
  { intros x Hx E. apply Hnew. rewrite <- E. by apply list_elem_of_fmap_2. }
  naive_solver.
Qed.

(** An upsert that can write gives the domain one row and answers [added] for a new
    one.  Afterwards the list of a crawl type is sorted and without duplicates, says the same
    of every other domain, and holds the domain unless its row was dropped (then nothing is
    written) or the upsert drops it, if it was listed before or the upsert gives it that type. *)
Theorem Upsert_listing now i f typ l :
  distinct f → types_ok f → stable (en_Domain i) → NormalizeDomain (en_Domain i) ≠ estr →
  ListDomainsByType (Stored f) typ = Some l →
  let domain := NormalizeDomain (en_Domain i) in
  ∃ f' added l',
    Upsert now true i (Stored f) = (Stored f', added, false) ∧ distinct f' ∧ types_ok f' ∧
    (added = true ↔ domain ∉ entry_key <$> f) ∧
    ListDomainsByType (Stored f') typ = Some l' ∧
    NoDup l' ∧ StronglySorted (λ x y, str_ltb y x = false) l' ∧
    (∀ x, x ≠ domain → x ∈ l' ↔ x ∈ l) ∧
    (domain ∈ l' ↔ domain_dropped f domain = false ∧ drop_status (en_TriageStatus i) = false ∧
       (domain ∈ l ∨ hasType (entry_types i) (ToLower (TrimSpace typ)) = true)).
Proof.
  intros Hd Ht Hs Hn Hl domain.
  destruct (Upsert_outcome now i f Hn Hd) as (f' & added & E & Hcase). fold domain in Hcase.
  destruct (ListDomainsByType (Stored f') typ) as [l'|] eqn:Hl'; [|done].
  exists f', added, l'. split; [done|].
  assert (distinct f') as Hd' by (by eapply Upsert_distinct).
  split; [done|]. split; [by eapply Upsert_types|].
  pose proof (ListDomainsByType_sorted _ _ _ Hl') as [Hnd Hso].
  destruct Hcase as [(-> & -> & k & e & Hk & Ek & Hde)
                    |[(-> & Hdr & k & e & Hk & Ek & Hde & ->)|(-> & Hnew & ->)]].
  - assert (domain ∈ entry_key <$> f) by (rewrite <- Ek; eapply list_elem_of_fmap_2, list_elem_of_lookup_2, Hk).
    assert (domain_dropped f domain = true) as ->
      by (apply domain_dropped_spec; exists e; by split; [eapply list_elem_of_lookup_2|]).
    assert (domain ∉ l).
    { rewrite <- Ek, (listed_row f typ l k e); [|done..|by rewrite Ek].
      unfold offered. by rewrite Hde. }
    rewrite Hl in Hl'. injection Hl' as <-. naive_solver.
  - assert (domain ∈ entry_key <$> f) by (rewrite <- Ek; eapply list_elem_of_fmap_2, list_elem_of_lookup_2, Hk).
    split; [naive_solver|]. do 3 (split; [done|]). split.
    { intros x Hx. rewrite <- Ek in Hx. by apply (listed_other f typ l l' k e (merge_entry now e i)). }
    rewrite Hdr, <- Ek, (listed_row f typ l k e); [|done..|by rewrite Ek].
    rewrite <- (entry_key_merge now e i), (listed_row (<[k := merge_entry now e i]> f) typ l' k
      (merge_entry now e i)); [|done|done| |by rewrite entry_key_merge, Ek];
      [|by apply list_lookup_insert_eq; eapply lookup_lt_Some].
    rewrite offered_merge by (done || by eapply (Forall_lookup_1 _ _ _ _ Ht)).
    rewrite andb_true_iff, negb_true_iff, orb_true_iff. naive_solver.
  - assert (entry_key (new_entry now domain i) = domain) as Ek by done.
    destruct (listed_append f (new_entry now domain i) typ l l') as (Ho & Hout & Hin);
      [by rewrite Ek..|done|done|]. rewrite Ek in *.
    assert (domain_dropped f domain = false) as ->.
    { apply not_true_is_false. intros (x & Hx & Ex & _)%domain_dropped_spec.
      apply Hnew. rewrite <- Ex. by apply list_elem_of_fmap_2. }
    do 5 (split; [done|]). rewrite Hin. unfold offered. simpl. rewrite andb_true_iff, negb_true_iff.
    naive_solver.
Qed.
End registry.

(** ** Discovery *)

Section discovery.
Context `{Sorter} `{TimeLib} `{HtmlLib} `{UrlLib} (st : validate_state).

(** What writes discovered domains into the registry: a single upsert, the cascades of
    the crawlers, the rows of the site queue, and an accepted lead. *)
Inductive discovery :=
| DUpsert (now : Time) (writable : bool) (i : Entry)
| DCascade (now : Time) (writable : bool) (domains : list string) (discoveredBy source : string)
| DFanOut (now : Time) (writable : bool) (domains : list string) (discoveredBy source : string)
    (queue : option (disk (list DomainEntry)))
| DSync (now : Time) (writable : bool) (queue : disk (list DomainEntry))
| DAccept (now : Time) (writable : bool) (cfg : option FeedbackConfig) (i : AcceptInput).

Definition discover (d : disk (list Entry)) (op : discovery) : disk (list Entry) :=
  match op with
  | DUpsert now w i => (Upsert now w i d).1.1
  | DCascade now w domains by_ source => (CascadeDomains st now w domains by_ source d).1.1
  | DFanOut now w domains by_ source q =>
      rg_Sources (FanOutMany st now w domains by_ source
                    {| rg_Sources := d; rg_Domains := q |}).1.1.1
  | DSync now w q => (SyncToSourceRegistry st now w q d).1.1
  | DAccept now w cfg i => (RecordAccepted st now cfg w i d).1
  end.

(** The domains the operation brings are in their registry form after one normalisation. *)
Definition discovery_stable (op : discovery) : Prop :=
  match op with
  | DUpsert _ _ i => stable (en_Domain i)
  | DCascade _ _ _ _ _ | DFanOut _ _ _ _ _ _ => True
  | DSync _ _ q => ∀ f, loadDomainsUnlocked q = Some f →
                     Forall (λ row, stable (lower_trim (de_Domain row))) f
  | DAccept _ _ _ i => Forall stable (domainsFromAccept st i)
  end.

(** The changes a sequence of upserts can make. *)
Inductive upserts : disk (list Entry) → disk (list Entry) → Prop :=
| upserts_none d : upserts d d
| upserts_one d d1 d2 now w i added err :
    stable (en_Domain i) → Upsert now w i d = (d1, added, err) → upserts d1 d2 → upserts d d2.

Lemma upserts_app d1 d2 d3 : upserts d1 d2 → upserts d2 d3 → upserts d1 d3.
Proof. induction 1; eauto using upserts. Qed.

Lemma upserts_step d d' now w i added err :
  stable (en_Domain i) → Upsert now w i d = (d', added, err) → upserts d d'.
Proof. eauto using upserts. Qed.

Lemma UpsertCascade_upserts now w domain by_ source channel d d' added err :
  UpsertCascade st now w domain by_ source channel d = (d', added, err) → upserts d d'.
Proof.
  unfold UpsertCascade. split_if; [intros [= <- _ _]; constructor|].
  apply upserts_step, stable_NormalizeDomain.
Qed.

Lemma CascadeDomains_upserts now w domains by_ source d :
  upserts d (CascadeDomains st now w domains by_ source d).1.1.
Proof.
  revert d. induction domains as [|s domains IH]; intros d; simpl; [constructor|].
  destruct (UpsertCascade st now w s by_ source estr d) as [[d1 added] err] eqn:Eu.
  pose proof (UpsertCascade_upserts _ _ _ _ _ _ _ _ _ _ Eu) as Hu. destruct err; [exact Hu|].
  specialize (IH d1). destruct (CascadeDomains _ _ _ _ _ _ d1) as [[d2 n] err].
  by eapply upserts_app.
Qed.

Lemma FanOut_upserts now w domain by_ source r :
  upserts (rg_Sources r) (rg_Sources (FanOut st now w domain by_ source r).1.1.1).
Proof.
  unfold FanOut. split_if; [constructor|].
  destruct (UpsertCascade _ _ _ _ _ _ _ (rg_Sources r)) as [[d1 added] err] eqn:Eu.
  pose proof (UpsertCascade_upserts _ _ _ _ _ _ _ _ _ _ Eu) as Hu. destruct err; [exact Hu|].
  cbn [rg_Domains rg_Sources]. destruct (rg_Domains r) as [q|]; [|exact Hu].
  destruct (QueueDomain _ _ _ _ _ q) as [[q' a] []]; exact Hu.
Qed.

Lemma fan_out_all_upserts now w domains by_ source r :
  upserts (rg_Sources r) (rg_Sources (fan_out_all st now w domains by_ source r).1.1.1).
Proof.
  revert r. induction domains as [|s domains IH]; intros r; simpl; [constructor|].
  pose proof (FanOut_upserts now w s by_ source r) as Hu.
  destruct (FanOut st now w s by_ source r) as [[[r1 a1] a2] err]. destruct err; [done|].
  specialize (IH r1). destruct (fan_out_all _ _ _ _ _ _ r1) as [[[r2 n] m] err].
  by eapply upserts_app.
Qed.

Lemma sync_rows_upserts now w rows d :
  Forall (λ row, stable (lower_trim (de_Domain row))) rows →
  upserts d (sync_rows st now w rows d).1.1.
Proof.
  intros Hs. revert d. induction Hs as [|row rows Hs _ IH]; intros d;
    cbn [sync_rows]; [constructor|]. split_if; [apply IH|].
  destruct (Upsert now w (sync_entry row) d) as [[d1 added] err] eqn:Eu.
  pose proof (upserts_step d d1 now w (sync_entry row) added err Hs Eu) as Hu.
  destruct err; [exact Hu|].
  specialize (IH d1). destruct (sync_rows _ _ _ rows d1) as [[d2 n] err]. by eapply upserts_app.
Qed.

Lemma record_domains_upserts now w i hot forum snippet domains d :
  Forall stable domains → upserts d (record_domains now w i hot forum snippet domains d).1.
Proof.
  intros Hs. revert d. induction Hs as [|s domains Hs _ IH]; intros d;
    cbn [record_domains]; [constructor|].
  match goal with |- context [match ?b with Some _ => _ | None => _ end] => destruct b as [by_|] end;
    [|apply IH].
  set (i' := seed_entry s _ _ _ _). destruct (Upsert now w i' d) as [[d1 added] err] eqn:Eu.
  pose proof (upserts_step d d1 now w i' added err Hs Eu) as Hu.
  specialize (IH d1). destruct (record_domains _ _ _ _ _ _ domains d1) as [d2 n].
  by eapply upserts_app.
Qed.

Lemma discover_upserts d op : discovery_stable op → upserts d (discover d op).
Proof.
  destruct op as [now w i|now w domains by_ source|now w domains by_ source q|now w q|now w cfg i];
    simpl; intros Hs.
  - destruct (Upsert now w i d) as [[d' added] err] eqn:E. by eapply upserts_step.
  - by apply CascadeDomains_upserts.
  - apply (fan_out_all_upserts now w _ by_ source {| rg_Sources := d; rg_Domains := q |}).
  - unfold SyncToSourceRegistry. destruct (loadDomainsUnlocked q) as [f|]; [|constructor].
    by apply sync_rows_upserts, Hs.
  - unfold RecordAccepted. destruct cfg as [cfg|]; [|constructor].
    destruct (enqueuePaths cfg i) as [hot forum]. split_if; [constructor|].
    by apply record_domains_upserts.
Qed.

(** Upserts keep a file a file, its rows distinct and its dropped rows in place. *)
Lemma upserts_keep d d' f k e :
  upserts d d' → d = Stored f → distinct f → f !! k = Some e → dropped e = true →
  ∃ f', d' = Stored f' ∧ distinct f' ∧ f' !! k = Some e.
Proof.
  intros Hu. revert f. induction Hu as [d|d d1 d2 now w i added err Hs E Hu IH];
    intros f -> Hd Hk Hdr; [by exists f|].
  destruct (Upsert_keeps_row now w i f k e Hk Hdr) as (f1 & a & r & E1 & Hk1).
  rewrite E in E1. injection E1 as -> -> ->.
  apply (IH f1); [done|by eapply Upsert_distinct|done|done].
Qed.

(** C5. Whatever is discovered after a domain is dropped, its row stays as it is and no
    crawl type lists it again: not an upsert, a cascade, a fan-out, a sync of the site
    queue or an accepted lead brings it back, in any number and order, on writes that
    succeed or fail.  Two things are asked: the file has one row per domain when the
    domain is dropped; and the domains brought by an upsert, a sync or a lead are in
    their registry form after one normalisation, as is every domain written without a
    slash ([slash_stable]) — cascades and fan-outs see to it themselves.  Without the
    second the claim is false: an upsert of the address "https:// spam.io", blank
    included, lists a dropped spam.io again ([CrawlFacts.blank_address_returns]). *)
Theorem drop_is_final f k e ops :
  distinct f → f !! k = Some e → dropped e = true → Forall discovery_stable ops →
  ∃ f', foldl discover (Stored f) ops = Stored f' ∧ f' !! k = Some e ∧
    ∀ typ l, ListDomainsByType (Stored f') typ = Some l → entry_key e ∉ l.
Proof.
  intros Hd Hk Hdr Hops.
  assert (∃ f', foldl discover (Stored f) ops = Stored f' ∧ distinct f' ∧ f' !! k = Some e)
    as (f' & -> & Hd' & Hk').
  { revert f Hd Hk. induction Hops as [|op ops Hs _ IH]; intros f Hd Hk; [by exists f|]. simpl.
    destruct (upserts_keep _ _ f k e (discover_upserts (Stored f) op Hs)) as (f1 & -> & Hd1 & Hk1);
      [done..|]. by apply IH. }
  exists f'. split; [done|]. split; [done|]. intros typ l Hl Hin.
  destruct (decide (entry_key e = estr)) as [E|Hn].
  - apply (ListDomainsByType_elem _ _ _ _ Hl) in Hin. naive_solver.
  - apply (listed_row f' typ l k e) in Hin; [|done..]. unfold offered in Hin. by rewrite Hdr in Hin.
Qed.
End discovery.

(** ** Two upserts without a lock *)

Section race.
Context `{Sorter} `{TimeLib}.

(** An upsert whose read saw the disk [seen] and whose write meets the disk [d]. *)
Definition Upsert_from (now : Time) (writable : bool) (i : Entry) (seen d : disk (list Entry))
    : disk (list Entry) * bool * bool :=
  match Upsert now true i seen with
  | (Stored f, added, false) =>
      if String.eqb (NormalizeDomain (en_Domain i)) estr then (d, false, false)
      else let '(d', err) := write_file writable f d in (d', added, err)
  | (_, added, err) => (d, added, err)
  end.

(** The registry has no lock: when an upsert of a new domain reads the file before
    another one writes and writes after it, the other domain is lost from the file and from
    every list, although its upsert answered that it was added. *)
Theorem upsert_race_loses now1 now2 a b f typ l :
  distinct f → stable (en_Domain a) → stable (en_Domain b) →
  NormalizeDomain (en_Domain a) ∉ estr :: (entry_key <$> f) →
  NormalizeDomain (en_Domain b) ∉ estr :: NormalizeDomain (en_Domain a) :: (entry_key <$> f) →
  ∃ d1 d2, Upsert now2 true b (Stored f) = (d1, true, false)
    ∧ Upsert_from now1 true a (Stored f) d1 = (d2, true, false)
    ∧ (ListDomainsByType d2 typ = Some l → NormalizeDomain (en_Domain b) ∉ l).
Proof.
  intros Hd Ha Hb. rewrite !not_elem_of_cons. intros [Hna Hfa] (Hnb & Hab & Hfb).
  destruct (Upsert_outcome now2 b f Hnb Hd) as (f1 & added1 & E1 & C1).
  destruct (Upsert_outcome now1 a f Hna Hd) as (f2 & added2 & E2 & C2).
  assert (∀ k e s, f !! k = Some e → entry_key e = s → s ∈ entry_key <$> f) as Hin.
  { intros k e s Hk <-. eapply list_elem_of_fmap_2, list_elem_of_lookup_2, Hk. }
  destruct C1 as [(_ & _ & k & e & Hk & Ek & _)|[(_ & _ & k & e & Hk & Ek & _)|(-> & _ & ->)]];
    [by edestruct Hfb; eapply Hin..|].
  destruct C2 as [(_ & _ & k & e & Hk & Ek & _)|[(_ & _ & k & e & Hk & Ek & _)|(-> & _ & ->)]];
    [by edestruct Hfa; eapply Hin..|].
  exists (Stored (f ++ [new_entry now2 (NormalizeDomain (en_Domain b)) b])),
         (Stored (f ++ [new_entry now1 (NormalizeDomain (en_Domain a)) a])).
  split; [done|]. split.
  { unfold Upsert_from. rewrite E2. by rewrite (proj2 (String.eqb_neq _ _) Hna). }
  intros Hl Hx. apply (ListDomainsByType_elem _ _ _ _ Hl) in Hx as (_ & e & He & _ & Ek).
  apply elem_of_app in He as [He| ->%list_elem_of_singleton].
  - apply Hfb. rewrite <- Ek. by apply list_elem_of_fmap_2.
  - apply Hab. rewrite <- Ek. exact Ha.
Qed.
End race.
