(* ===== verification/CrawlFacts.v ===== *)
(** Facts and properties of the crawl queue: a queued domain is crawled once per rescan
    window, and a fan-out brings an accepted domain into both registries. *)
From Stdlib Require Import Sorted.
From S2P Require Import Prelude Unicode GoStrings Utf8Facts TextFacts GoSort Matcher.
From S2P Require Import Validate Scoring Extract FilterSignals FilterGates TgWeb Geo Item.
From S2P Require Import Hashes.
From S2P Require Import Entity EntityKeys EntityKeyFacts SourceRegistry CrawlQueue.
From S2P Require Import RegistryFacts.

Local Open Scope Z_scope.

(** ** Rows of the queue *)

(** Rows hold normal domains, no two of which are the same up to case. *)
Record queue_ok (f : list DomainEntry) : Prop := {
  qo_normal : Forall (λ e, lower_trim (de_Domain e) = de_Domain e) f;
  qo_distinct : StronglySorted (λ x y, EqualFold (de_Domain x) (de_Domain y) = false) f }.

Lemma EqualFold_refl s : EqualFold s s = true.
Proof. unfold EqualFold. by apply bool_decide_true. Qed.

Lemma normalizeDomainFile_idemp f : normalizeDomainFile (normalizeDomainFile f) = normalizeDomainFile f.
Proof.
  unfold normalizeDomainFile. rewrite <- list_fmap_compose. apply list_fmap_ext. intros _ e _. done.
Qed.

(** What the queue is asked about: domains, crawl dates. *)
Definition row_view (e : DomainEntry) : string * string := (de_Domain e, de_CrawledAt e).

Lemma normalize_view f : row_view <$> normalizeDomainFile f = row_view <$> f.
Proof. unfold normalizeDomainFile. rewrite <- list_fmap_compose. by apply list_fmap_ext. Qed.

Lemma normalize_domains f : de_Domain <$> normalizeDomainFile f = de_Domain <$> f.
Proof. unfold normalizeDomainFile. rewrite <- list_fmap_compose. by apply list_fmap_ext. Qed.

(** The invariant is about the domains only. *)
Definition domains_ok (l : list string) : Prop :=
  Forall (λ d, lower_trim d = d) l ∧ StronglySorted (λ x y, EqualFold x y = false) l.

Lemma queue_ok_domains f : queue_ok f ↔ domains_ok (de_Domain <$> f).
Proof.
  unfold domains_ok. split.
  - intros [Hn Hd]. split; [by apply Forall_fmap|]. clear Hn.
    induction Hd as [|x f Hf IH Hx]; simpl; constructor; [done|]. by apply Forall_fmap.
  - intros [Hn Hd]. split; [by apply Forall_fmap in Hn|]. clear Hn.
    induction f as [|x f IH]; [constructor|]. simpl in Hd. inversion Hd as [|? ? Hf Hx]; subst.
    constructor; [by apply IH|]. by apply Forall_fmap in Hx.
Qed.

Lemma domains_ok_snoc l d :
  domains_ok l → lower_trim d = d → Forall (λ x, EqualFold x d = false) l → domains_ok (l ++ [d]).
Proof.
  intros [Hn Hs] Hd Hl. split; [apply Forall_app; split; [done|by apply Forall_singleton]|]. clear Hn.
  induction Hs as [|x l Hs IH Hx]; simpl.
  - by repeat constructor.
  - apply Forall_cons in Hl as [Hxd Hl]. constructor; [by apply IH|].
    apply Forall_app. split; [done|]. by apply Forall_singleton.
Qed.

Lemma queued_spec d f :
  queued d f = true ↔ ∃ e, e ∈ f ∧ EqualFold (TrimSpace (de_Domain e)) d = true.
Proof. unfold queued. rewrite existsb_exists. setoid_rewrite list_elem_of_In. done. Qed.

Lemma queued_view d f g : de_Domain <$> f = de_Domain <$> g → queued d f = queued d g.
Proof.
  revert g. induction f as [|x f IH]; intros [|y g]; try done. simpl. intros [= -> E].
  by rewrite (IH g).
Qed.

Section queue.
Context `{Sorter} `{TimeLib} (st : validate_state).

Abbreviation pending now f r := (de_Domain <$> PendingDomains st now f 0 r) (only parsing).

Definition rescan (r : Z) : Z := if r <=? 0 then 30 else r.

Lemma pending_elem now f r x :
  x ∈ pending now f r ↔
  x ≠ estr ∧ IsValidCrawlDomain st x = true ∧
  ∃ e, e ∈ f ∧ lower_trim (de_Domain e) = x ∧ fresh_crawl now (rescan r) e = false.
Proof.
  unfold PendingDomains, limited. simpl. rewrite list_elem_of_fmap.
  setoid_rewrite sort_slice_elem. unfold pending_rows. fold (rescan r).
  setoid_rewrite list_elem_of_In. setoid_rewrite filter_In. setoid_rewrite <- list_elem_of_In.
  setoid_rewrite list_elem_of_fmap. setoid_rewrite list_elem_of_In. setoid_rewrite filter_In.
  setoid_rewrite <- list_elem_of_In. setoid_rewrite andb_true_iff. setoid_rewrite negb_true_iff.
  setoid_rewrite String.eqb_neq. split.
  - intros (y & -> & (e & -> & He & Hn & Hf) & Hv). simpl in *. eauto 8.
  - intros (Hn & Hv & e & He & <- & Hf). exists (with_domain e (lower_trim (de_Domain e))). eauto 8.
Qed.

(** Only the domains and crawl dates of the rows matter. *)
Lemma pending_view now f g r x :
  row_view <$> f = row_view <$> g → x ∈ pending now f r ↔ x ∈ pending now g r.
Proof.
  intros E. rewrite !pending_elem. do 2 apply and_iff_compat_l.
  assert (∀ f g : list DomainEntry, row_view <$> f = row_view <$> g →
    (∃ e, e ∈ f ∧ lower_trim (de_Domain e) = x ∧ fresh_crawl now (rescan r) e = false) →
    ∃ e, e ∈ g ∧ lower_trim (de_Domain e) = x ∧ fresh_crawl now (rescan r) e = false) as Hv.
  { clear. intros f g E (e & He & Hx & Hf).
    assert (row_view e ∈ row_view <$> g) as Hg by (rewrite <- E; by apply list_elem_of_fmap_2).
    apply list_elem_of_fmap in Hg as (e' & Ev & He'). injection Ev as Ed Ec. exists e'.
    split; [done|]. rewrite <- Ed. split; [done|]. unfold fresh_crawl in *. by rewrite <- Ec. }
  split; by apply Hv.
Qed.

(** ** Queueing *)

Lemma QueueDomain_new now domain source f :
  lower_trim domain ≠ estr → IsValidCrawlDomain st (lower_trim domain) = true →
  queued (lower_trim domain) f = false →
  ∃ row, de_Domain row = lower_trim domain ∧ de_CrawledAt row = estr ∧
    QueueDomain st now true domain source (Stored f)
    = (Stored (normalizeDomainFile (normalizeDomainFile f ++ [row])), true, false).
Proof.
  intros Hn Hv Hq. unfold QueueDomain. cbv zeta. rewrite (proj2 (String.eqb_neq _ _) Hn), Hv.
  cbn [orb negb loadDomainsUnlocked].
  rewrite (queued_view _ (normalizeDomainFile f) f), Hq by apply normalize_domains.
  eexists (queue_entry now (lower_trim domain) _). by repeat split.
Qed.

Lemma QueueDomain_again now domain source f :
  queued (lower_trim domain) f = true →
  QueueDomain st now true domain source (Stored f) = (Stored f, false, false).
Proof.
  intros Hq. unfold QueueDomain. cbv zeta. split_if; [done|]. cbn [loadDomainsUnlocked].
  by rewrite (queued_view _ (normalizeDomainFile f) f), Hq by apply normalize_domains.
Qed.

(** ** Marking *)

Lemma mark_first_spec now d f :
  domains_ok (de_Domain <$> f) → d ∈ de_Domain <$> f →
  ∃ f', mark_first now d f = Some f' ∧ de_Domain <$> f' = de_Domain <$> f ∧
    ∀ e, e ∈ f' ↔ (e ∈ f ∧ de_Domain e ≠ d) ∨ ∃ e0, e0 ∈ f ∧ de_Domain e0 = d ∧ e = with_crawled e0 (FormatRFC3339 now).
Proof.
  intros [_ Hs]. induction f as [|x f IH]; [set_solver|]. simpl in *.
  inversion Hs as [|? ? Hf Hx]; subst. intros Hd. rewrite Forall_fmap, Forall_forall in Hx.
  destruct (decide (de_Domain x = d)) as [<-|Hne].
  - rewrite EqualFold_refl. eexists. split; [done|]. split; [done|].
    assert (∀ e, e ∈ f → de_Domain e ≠ de_Domain x) as Hother.
    { intros e He E. specialize (Hx e He). simpl in Hx. by rewrite E, EqualFold_refl in Hx. }
    intros e. setoid_rewrite elem_of_cons. split.
    + intros [->|He]; [right; exists x; set_solver|]. left. split; [by right|]. by apply Hother.
    + intros [[[->|He] Hn]|(e0 & [->|He] & E & ->)]; [done|by right|by left|].
      by destruct (Hother e0 He).
  - assert (d ∈ de_Domain <$> f) as Hd' by set_solver.
    assert (EqualFold (de_Domain x) d = false) as ->.
    { apply list_elem_of_fmap in Hd' as (e & -> & He). by apply Hx. }
    destruct (IH Hf Hd') as (f' & -> & Ed & Hm). simpl. eexists. split; [done|].
    split; [by rewrite !fmap_cons, Ed|]. intros e. setoid_rewrite elem_of_cons.
    rewrite Hm. naive_solver.
Qed.

(** RFC 3339 keeps whole seconds. *)
Definition keeps_seconds : Prop :=
  ∀ t, ParseRFC3339 (FormatRFC3339 t) = Some (t - t `mod` second) ∧ FormatRFC3339 t ≠ estr.

Lemma fresh_marked now at' r e :
  keeps_seconds →
  fresh_crawl now r (with_crawled e (FormatRFC3339 at'))
  = (now - r * day <? at' - at' `mod` second).
Proof.
  intros Hk. destruct (Hk at') as [Hp Hn]. unfold fresh_crawl. simpl.
  rewrite (proj2 (String.eqb_neq _ _) Hn), Hp. unfold time_after, time_add. f_equal.
Qed.

Lemma MarkCrawled_row now d f :
  queue_ok f → lower_trim d = d → d ∈ de_Domain <$> f →
  ∃ f', MarkCrawled now true d (Stored f) = (Stored f', false) ∧ queue_ok f' ∧
    (∀ e, e ∈ row_view <$> f' ↔ (e ∈ row_view <$> f ∧ e.1 ≠ d) ∨ e = (d, FormatRFC3339 now)).
Proof.
  intros Hok Hd Hin. pose proof (proj1 (queue_ok_domains f) Hok) as Hdo.
  rewrite <- (normalize_domains f) in Hdo, Hin.
  destruct (mark_first_spec now d _ Hdo Hin) as (f' & Hm & Ed & He).
  exists (normalizeDomainFile f'). split; [|split].
  - unfold MarkCrawled. cbn [loadDomainsUnlocked]. by rewrite Hd, Hm.
  - apply queue_ok_domains. by rewrite normalize_domains, Ed.
  - intros v. rewrite normalize_view, <- (normalize_view f), list_elem_of_fmap.
    setoid_rewrite He. rewrite list_elem_of_fmap. split.
    + intros (e & -> & [[Hf Hn]|(e0 & Hf & Ed0 & ->)]); [left; eauto|].
      right. unfold row_view. simpl. by rewrite Ed0.
    + intros [[(e & -> & Hf) Hn]| ->]; [eauto|].
      apply list_elem_of_fmap in Hin as (e0 & -> & Hf).
      exists (with_crawled e0 (FormatRFC3339 now)). split; [done|]. right. eauto.
Qed.

Lemma pending_by_view now f r x :
  x ∈ pending now f r ↔
  x ≠ estr ∧ IsValidCrawlDomain st x = true ∧
  ∃ e, row_view e ∈ row_view <$> f ∧ lower_trim (de_Domain e) = x ∧ fresh_crawl now (rescan r) e = false.
Proof.
  rewrite pending_elem. do 2 apply and_iff_compat_l. split.
  - intros (e & He & Hx & Hf). exists e. split; [by apply list_elem_of_fmap_2|done].
  - intros (e & (e0 & Ev & He)%list_elem_of_fmap & Hx & Hf). injection Ev as Ed Ec. exists e0.
    split; [done|]. rewrite <- Ed. split; [done|]. unfold fresh_crawl in *. by rewrite <- Ec.
Qed.

(** The rows after a domain is queued: itself, not crawled, and those that were there. *)
Lemma QueueDomain_row now domain source f :
  queue_ok f → lower_trim domain ≠ estr → IsValidCrawlDomain st (lower_trim domain) = true →
  queued (lower_trim domain) f = false →
  ∃ f', QueueDomain st now true domain source (Stored f) = (Stored f', true, false) ∧ queue_ok f' ∧
    row_view <$> f' = (row_view <$> f) ++ [(lower_trim domain, estr)].
Proof.
  intros [Hno Hdi] Hn Hv Hq.
  destruct (QueueDomain_new now domain source f Hn Hv Hq) as (row & Hrow & Hcr & E).
  eexists. split; [exact E|]. split.
  - apply queue_ok_domains. rewrite normalize_domains, fmap_app, normalize_domains. simpl.
    rewrite Hrow. apply domains_ok_snoc; [by apply queue_ok_domains|apply lower_trim_idemp|].
    apply Forall_fmap, Forall_forall. intros e He. apply not_true_is_false. intros Ef.
    rewrite Forall_forall in Hno. assert (queued (lower_trim domain) f = true); [|congruence].
    apply queued_spec. exists e. split; [done|]. rewrite <- (Hno e He).
    unfold lower_trim at 1. by rewrite trim_lower_trim, (Hno e He : ToLower _ = _).
  - rewrite normalize_view, fmap_app, normalize_view. simpl. unfold row_view at 2.
    by rewrite Hrow, Hcr.
Qed.

Lemma queue_ok_row f e : queue_ok f → row_view e ∈ row_view <$> f →
  lower_trim (de_Domain e) = de_Domain e.
Proof.
  intros [Hno _] (e0 & Ev & He)%list_elem_of_fmap. injection Ev as -> _.
  by apply (proj1 (Forall_forall _ _) Hno).
Qed.

(** The pending domains after a crawl. *)
Lemma pending_marked now at' r d f f' :
  keeps_seconds → queue_ok f → queue_ok f' →
  (∀ e, e ∈ row_view <$> f' ↔ (e ∈ row_view <$> f ∧ e.1 ≠ d) ∨ e = (d, FormatRFC3339 at')) →
  lower_trim d = d → d ≠ estr → IsValidCrawlDomain st d = true →
  (d ∈ pending now f' r ↔ at' - at' `mod` second ≤ now - rescan r * day) ∧
  (∀ x, x ≠ d → x ∈ pending now f' r ↔ x ∈ pending now f r).
Proof.
  intros Hk Hok Hok' Hrows Hd Hn Hv.
  assert (∀ e, de_CrawledAt e = FormatRFC3339 at' → fresh_crawl now (rescan r) e
    = (now - rescan r * day <? at' - at' `mod` second)) as Hfr.
  { intros e Ec. rewrite <- (fresh_marked now at' _ e Hk). unfold fresh_crawl. by rewrite Ec. }
  split.
  - rewrite pending_by_view. split.
    + intros (_ & _ & e & He & Ed & Hf). rewrite (queue_ok_row f' e Hok' He) in Ed.
      apply Hrows in He as [[_ Hne]|He]; [done|]. injection He as _ Ec.
      rewrite (Hfr e Ec) in Hf. by apply Z.ltb_ge.
    + intros Hle. do 2 (split; [done|]).
      assert ((d, FormatRFC3339 at') ∈ row_view <$> f') as (e & Ev & He)%list_elem_of_fmap
        by (apply Hrows; by right). injection Ev as Ed Ec.
      exists e. split; [by apply list_elem_of_fmap_2|]. rewrite <- Ed. split; [done|].
      rewrite Hfr by done. by apply Z.ltb_ge.
  - intros x Hx. rewrite !pending_by_view. do 2 apply and_iff_compat_l.
    split; intros (e & He & Ed & Hf); exists e; (split; [|done]).
    + apply Hrows in He as [[He _]|[= E _]]; [done|]. congruence.
    + apply Hrows. left. split; [done|]. simpl. intros E. congruence.
Qed.

(** C17. A valid domain that is not queued yet enters the queue once: queueing it again, from
    whatever source, changes nothing.  It is pending at any time until a crawl marks it; from
    then on it is pending exactly when the rescan window (30 days when none is set) has
    passed since the crawl, in whole seconds.  Other domains stay pending as they were. *)
Theorem crawl_cycle now1 now2 domain source f :
  keeps_seconds → queue_ok f →
  lower_trim domain ≠ estr → IsValidCrawlDomain st (lower_trim domain) = true →
  queued (lower_trim domain) f = false →
  ∃ f1 f2,
    QueueDomain st now1 true domain source (Stored f) = (Stored f1, true, false) ∧ queue_ok f1 ∧
    (∀ now source', QueueDomain st now true domain source' (Stored f1) = (Stored f1, false, false)) ∧
    (∀ now r, lower_trim domain ∈ pending now f1 r) ∧
    MarkCrawled now2 true domain (Stored f1) = (Stored f2, false) ∧ queue_ok f2 ∧
    (∀ now r, lower_trim domain ∈ pending now f2 r ↔
       now2 - now2 `mod` second ≤ now - rescan r * day) ∧
    (∀ now r x, x ≠ lower_trim domain → x ∈ pending now f2 r ↔ x ∈ pending now f r).
Proof.
  intros Hk Hok Hn Hv Hq.
  destruct (QueueDomain_row now1 domain source f Hok Hn Hv Hq) as (f1 & E1 & Hok1 & Ev1).
  set (d := lower_trim domain) in *.
  assert (lower_trim d = d) as Hd by apply lower_trim_idemp.
  assert ((d, estr) ∈ row_view <$> f1) as Hin
    by (rewrite Ev1, elem_of_app, list_elem_of_singleton; by right).
  assert (d ∈ de_Domain <$> f1) as Hdin.
  { apply list_elem_of_fmap in Hin as (e & [= -> _] & He). by apply list_elem_of_fmap_2. }
  destruct (MarkCrawled_row now2 d f1 Hok1 Hd Hdin) as (f2 & E2 & Hok2 & Hrows).
  exists f1, f2. split; [done|]. split; [done|]. split.
  { intros now source'. apply QueueDomain_again. fold d. apply queued_spec.
    apply list_elem_of_fmap in Hdin as (e & E & He). exists e. split; [done|].
    rewrite <- E. unfold d, lower_trim. rewrite trim_lower_trim. apply EqualFold_refl. }
  split.
  { intros now r. apply pending_by_view. do 2 (split; [done|]).
    apply list_elem_of_fmap in Hin as (e & [= Ed Ec] & He). exists e.
    split; [by apply list_elem_of_fmap_2|]. rewrite <- Ed. split; [done|].
    unfold fresh_crawl. by rewrite <- Ec. }
  split; [rewrite <- E2; unfold MarkCrawled; by rewrite Hd|]. split; [done|]. split.
  - intros now r. by apply (pending_marked now now2 r d f1 f2).
  - intros now r x Hx.
    rewrite (proj2 (pending_marked now now2 r d f1 f2 Hk Hok1 Hok2 Hrows Hd Hn Hv) x Hx).
    rewrite !pending_by_view, Ev1. do 2 apply and_iff_compat_l.
    split; intros (e & He & Ex & Hf); exists e; (split; [|done]).
    + apply elem_of_app in He as [He|[= E _]%list_elem_of_singleton]; [done|congruence].
    + apply elem_of_app. by left.
Qed.
End queue.

(** ** Fan-out *)

Section fanout.
Context `{Sorter} `{TimeLib} (st : validate_state).

Lemma cascade_type typ :
  typ ∈ CascadeTypes → normal_type typ ∧ EqualFold (TrimSpace typ) (ToLower (TrimSpace typ)) = true.
Proof.
  assert (forallb (λ t, String.eqb (ToLower (TrimSpace t)) t && negb (String.eqb t estr)
    && EqualFold (TrimSpace t) (ToLower (TrimSpace t))) CascadeTypes = true) as Hc by by vm_compute.
  rewrite forallb_forall in Hc. intros Hin%list_elem_of_In%Hc. unfold normal_type.
  rewrite !andb_true_iff, negb_true_iff, String.eqb_eq, String.eqb_neq in Hin. tauto.
Qed.

Lemma normalized_cascade l typ : typ ∈ CascadeTypes → typ ∈ l → typ ∈ normalizeTypes l.
Proof.
  intros [[E Hn] _]%cascade_type Hl. apply normalizeTypes_elem. split; [done|]. exists typ. by rewrite E.
Qed.

Lemma entry_types_cascade i typ :
  en_Types i = CascadeTypes → typ ∈ CascadeTypes → typ ∈ entry_types i.
Proof.
  intros Ei Hin. unfold entry_types. rewrite Ei. pose proof (normalized_cascade _ typ Hin Hin) as Hn.
  destruct (normalizeTypes CascadeTypes); [|done]. by apply not_elem_of_nil in Hn.
Qed.

Lemma cascade_has_type l typ : typ ∈ CascadeTypes → typ ∈ l → hasType l (ToLower (TrimSpace typ)) = true.
Proof. intros [_ Hf]%cascade_type Hl. apply hasType_elem. by exists typ. Qed.

Lemma merge_types_r l k typ : typ ∈ CascadeTypes → typ ∈ k → typ ∈ mergeTypes l k.
Proof. intros Hc Hk. apply normalized_cascade; [done|]. apply elem_of_app. by right. Qed.

(** A cascaded domain ends up offered to every crawl, unless it had been dropped. *)
Lemma UpsertCascade_listed now domain by_ source channel f :
  let key := NormalizeDomain (NormalizeDomain domain) in
  distinct f → AcceptCascadeDomain st (NormalizeDomain domain) = true → key ≠ estr →
  NormalizeDomain domain ≠ estr →
  domain_dropped f key = false →
  ∃ f' added, UpsertCascade st now true domain by_ source channel (Stored f)
      = (Stored f', added, false) ∧ distinct f' ∧
    ∀ typ, typ ∈ CascadeTypes → ∃ e, e ∈ f' ∧ entry_key e = key ∧ offered typ e = true.
Proof.
  intros key Hd Ha Hn Hn1 Hdr. unfold UpsertCascade. cbv zeta.
  rewrite (proj2 (String.eqb_neq _ _) Hn1), Ha. cbn [orb negb].
  set (i := seed_entry _ _ _ _ _).
  destruct (Upsert_outcome now i f Hn Hd) as (f' & added & E & Hcase).
  exists f', added. split; [exact E|]. split.
  { eapply Upsert_distinct; [|exact Hd|exact E]. apply stable_NormalizeDomain. }
  intros typ Ht. pose proof (entry_types_cascade i typ eq_refl Ht) as Hti.
  destruct Hcase as [(_ & _ & k & e & Hk & Ek & Hde)
                    |[(_ & _ & k & e & Hk & Ek & Hde & ->)|(_ & _ & ->)]].
  - assert (domain_dropped f key = true); [|congruence]. apply domain_dropped_spec. exists e.
    by split; [eapply list_elem_of_lookup_2|].
  - exists (merge_entry now e i). split.
    + eapply (list_elem_of_lookup_2 _ k), list_lookup_insert_eq. by eapply lookup_lt_Some.
    + split; [exact Ek|]. unfold offered. rewrite andb_true_iff, negb_true_iff. split; [exact Hde|].
      apply cascade_has_type; [done|]. by apply merge_types_r.
  - eexists. split; [apply elem_of_app; right; by apply list_elem_of_singleton|].
    split; [apply stable_NormalizeDomain|]. unfold offered. rewrite andb_true_iff. split; [done|].
    by apply cascade_has_type.
Qed.

Lemma AcceptCascade_nonempty domain : AcceptCascadeDomain st domain = true → NormalizeDomain domain ≠ estr.
Proof. unfold AcceptCascadeDomain. destruct (String.eqb_spec (NormalizeDomain domain) estr); done. Qed.

(** A queueing that can write leaves a valid domain in the queue. *)
Lemma QueueDomain_done now domain source q :
  ∃ q' added, QueueDomain st now true domain source (Stored q) = (Stored q', added, false) ∧
    (queue_ok q → queue_ok q') ∧
    (IsValidCrawlDomain st (lower_trim domain) = true → lower_trim domain ≠ estr →
     queued (lower_trim domain) q' = true).
Proof.
  destruct (queued (lower_trim domain) q) eqn:Hq.
  { exists q, false. rewrite QueueDomain_again by done. naive_solver. }
  destruct (String.eqb_spec (lower_trim domain) estr) as [Hn|Hn];
    [|destruct (IsValidCrawlDomain st (lower_trim domain)) eqn:Hv].
  - exists q, false. unfold QueueDomain. cbv zeta. rewrite Hn. cbn [String.eqb orb]. naive_solver.
  - destruct (QueueDomain_new st now domain source q Hn Hv Hq) as (row & Hrow & Hcr & E).
    do 2 eexists. split; [exact E|]. split.
    + intros Hok. destruct (QueueDomain_row st now domain source q Hok Hn Hv Hq) as (q' & E' & Hok' & _).
      rewrite E in E'. by injection E' as <-.
    + intros _ _. rewrite (queued_view _ _ (q ++ [row])).
      * apply queued_spec. exists row. split; [apply elem_of_app; right; by apply list_elem_of_singleton|].
        rewrite Hrow. unfold lower_trim. rewrite trim_lower_trim. apply EqualFold_refl.
      * by rewrite normalize_domains, !fmap_app, normalize_domains.
  - exists q, false. unfold QueueDomain. cbv zeta. rewrite Hv. cbn [negb]. rewrite orb_true_r.
    naive_solver.
Qed.

(** A fan-out of an accepted domain brings it to every crawler: afterwards each cascade
    type lists it, unless triage had dropped it, and, when the site queue takes the domain,
    the queue holds it; every other list keeps its invariant. *)
Theorem FanOut_delivers now domain by_ source f q :
  let key := NormalizeDomain (NormalizeDomain domain) in
  distinct f → AcceptCascadeDomain st (NormalizeDomain domain) = true →
  domain_dropped f key = false →
  ∃ f' q' added queued_now,
    FanOut st now true domain by_ source {| rg_Sources := Stored f; rg_Domains := Some (Stored q) |}
    = ({| rg_Sources := Stored f'; rg_Domains := Some (Stored q') |}, added, queued_now, false) ∧
    distinct f' ∧
    (∀ typ l, typ ∈ CascadeTypes → ListDomainsByType (Stored f') typ = Some l → key ∈ l) ∧
    (IsValidCrawlDomain st (lower_trim (NormalizeDomain domain)) = true →
     lower_trim (NormalizeDomain domain) ≠ estr →
     queued (lower_trim (NormalizeDomain domain)) q' = true) ∧
    (queue_ok q → queue_ok q').
Proof.
  intros key Hd Ha Hdr. pose proof (AcceptCascade_nonempty _ Ha) as Hn. fold key in Hn.
  assert (NormalizeDomain domain ≠ estr) as Hn1 by (intros E; unfold key in Hn; by rewrite E in Hn).
  assert (NormalizeDomain key = key) as Hkey by apply stable_NormalizeDomain.
  unfold FanOut. cbv zeta. rewrite (proj2 (String.eqb_neq _ _) Hn1), Ha. cbn [orb negb rg_Domains rg_Sources].
  set (source' := if String.eqb _ estr then _ else _). clearbody source'.
  destruct (UpsertCascade_listed now (NormalizeDomain domain) (TrimSpace by_) source' estr f)
    as (f' & added & -> & Hd' & Hl); fold key; rewrite ?Hkey; [done| |done..|].
  { unfold AcceptCascadeDomain in *. fold key. fold key in Ha. by rewrite Hkey. }
  cbn [rg_Domains rg_Sources].
  destruct (QueueDomain_done now (NormalizeDomain domain) source' q) as (q' & a & -> & Hok & Hq).
  exists f', q', added, a. split; [done|]. split; [done|]. split; [|done].
  intros typ l Ht Hlist. apply (ListDomainsByType_elem _ _ _ _ Hlist). split; [done|].
  destruct (Hl typ Ht) as (e & He & Ek & Ho). fold key in Ek. rewrite Hkey in Ek. eauto.
Qed.
End fanout.

(** ** Concrete inputs, with a clock format that writes a sign and one mark per second *)

#[local] Existing Instance insertion_sorter.
#[local] Existing Instance KeyWitnesses.plain_html.

Fixpoint marks (n : nat) : string :=
  match n with O => estr | S n' => String "x" (marks n') end.

Definition format_seconds (n : Z) : string :=
  (if n <? 0 then "-" else "+") +:+ marks (Z.to_nat (Z.abs n)).

Definition parse_seconds (s : string) : option Z :=
  match s with
  | String "+" r => Some (Z.of_nat (slen r))
  | String "-" r => Some (- Z.of_nat (slen r))
  | _ => None
  end.

#[local] Instance seconds_clock : TimeLib := {
  FormatRFC3339 t := format_seconds (t / second);
  ParseRFC3339 s := (λ n, second * n) <$> parse_seconds s }.

#[local] Instance no_url : UrlLib := {| parse_url_other := λ _, None |}.

Lemma slen_marks n : slen (marks n) = n.
Proof. unfold slen. induction n; simpl; congruence. Qed.

Lemma parse_format_seconds n : parse_seconds (format_seconds n) = Some n.
Proof.
  unfold format_seconds. destruct (Z.ltb_spec n 0); simpl; rewrite slen_marks; f_equal; lia.
Qed.

Lemma clock_keeps_seconds : keeps_seconds.
Proof.
  intros t. unfold FormatRFC3339, ParseRFC3339. simpl. rewrite parse_format_seconds. simpl. split.
  - f_equal. pose proof (Z.div_mod t second ltac:(done)). lia.
  - unfold format_seconds. by destruct (_ <? 0).
Qed.

(** Midnight of day 100. *)
Definition today : Time := 100 * day.

Definition kept : Entry := seed_entry "tracker.io" ["lander"] "telegram" "tg" "@aff".
Definition gone : Entry := SetEntryTriageStatus (seed_entry "spam.io" ["lander"] "serp" "serp" estr) "drop".
Definition rows : list Entry := [kept; gone].
Definition incoming : Entry := seed_entry "https://Tracker.io/about" ["Supply "] "serp" "serp" estr.

Definition rows_distinct : distinct rows := ltac:(apply (bool_decide_unpack _); vm_compute; exact I).

Lemma rows_types : types_ok rows.
Proof. repeat constructor; vm_compute; done. Qed.

(** The domain gains the supply list; it keeps the list it had. *)
Lemma Upsert_listing_witness :
  ∃ f' added l', Upsert today true incoming (Stored rows) = (Stored f', added, false)
    ∧ ListDomainsByType (Stored f') "supply" = Some l' ∧ "tracker.io" ∈ l'.
Proof.
  destruct (Upsert_listing today incoming rows "supply" []) as (f' & added & l' & E & _ & _ & _ & El & _ & _ & _ & Hin);
    [exact rows_distinct|exact rows_types|vm_compute; reflexivity|vm_compute; discriminate|vm_compute; reflexivity|].
  exists f', added, l'. split; [exact E|]. split; [exact El|]. apply Hin.
  split; [vm_compute; reflexivity|]. split; [vm_compute; reflexivity|]. right. vm_compute. reflexivity.
Defined.

Definition later_finds : list discovery :=
  [DCascade today true ["https://spam.io"] "ads_txt" "ads_txt"; DUpsert today true (seed_entry "spam.io" CascadeTypes "serp" "serp" estr);
   DSync today false NoFile].

Lemma drop_is_final_witness :
  ∃ f', foldl (discover initial_state) (Stored rows) later_finds = Stored f' ∧ f' !! 1%nat = Some gone.
Proof.
  destruct (drop_is_final initial_state rows 1 gone later_finds) as (f' & E & Hk & _);
    [exact rows_distinct|reflexivity|vm_compute; reflexivity| |].
  - apply Forall_cons. split; [exact I|]. apply Forall_cons. split; [vm_compute; reflexivity|].
    apply Forall_cons. split; [|constructor]. intros f [= <-]. constructor.
  - exists f'. split; [exact E|exact Hk].
Defined.

(** An address that needs two normalisations brings a dropped domain back. *)
Example blank_address_returns :
  let d := (Upsert today true (seed_entry "https:// spam.io" ["lander"] "serp" "serp" estr)
              (Stored rows)).1.1 in
  ListDomainsByType (Stored rows) "lander" = Some ["tracker.io"]
  ∧ ListDomainsByType d "lander" = Some ["spam.io"; "tracker.io"].
Proof. vm_compute. split; reflexivity. Qed.

Lemma upsert_race_loses_witness :
  ∃ d1 d2, Upsert today true (seed_entry "b.io" CascadeTypes "serp" "serp" estr) (Stored rows) = (d1, true, false)
    ∧ Upsert_from today true (seed_entry "a.io" CascadeTypes "lead" "lead" estr) (Stored rows) d1 = (d2, true, false).
Proof.
  destruct (upsert_race_loses today today (seed_entry "a.io" CascadeTypes "lead" "lead" estr)
    (seed_entry "b.io" CascadeTypes "serp" "serp" estr) rows "lander" []) as (d1 & d2 & E1 & E2 & _);
    [exact rows_distinct|vm_compute; reflexivity..| | |].
  - apply (bool_decide_unpack _). vm_compute. exact I.
  - apply (bool_decide_unpack _). vm_compute. exact I.
  - exists d1, d2. split; [exact E1|exact E2].
Defined.

Lemma crawl_cycle_witness :
  ∃ f1, QueueDomain initial_state today true "Tracker.io " "serp" (Stored []) = (Stored f1, true, false)
    ∧ ∀ now r, "tracker.io" ∈ de_Domain <$> PendingDomains initial_state now f1 0 r.
Proof.
  destruct (crawl_cycle initial_state today today "Tracker.io " "serp" []) as (f1 & f2 & E & _ & _ & Hp & _);
    [exact clock_keeps_seconds|split; constructor|vm_compute; discriminate|vm_compute; reflexivity|reflexivity|].
  exists f1. split; [exact E|]. intros now r. exact (Hp now r).
Defined.

Lemma FanOut_delivers_witness :
  ∃ f' q' added queued_now,
    FanOut initial_state today true "https://voluum-fans.io/x" "ads_txt" estr
      {| rg_Sources := Stored rows; rg_Domains := Some (Stored []) |}
    = ({| rg_Sources := Stored f'; rg_Domains := Some (Stored q') |}, added, queued_now, false)
    ∧ queued "voluum-fans.io" q' = true.
Proof.
  destruct (FanOut_delivers initial_state today "https://voluum-fans.io/x" "ads_txt" estr rows [])
    as (f' & q' & added & n & E & _ & _ & Hq & _);
    [exact rows_distinct|vm_compute; reflexivity|vm_compute; reflexivity|].
  exists f', q', added, n. split; [exact E|]. apply Hq; [vm_compute; reflexivity|vm_compute; discriminate].
Defined.
