(* ===== verification/Gemini.v ===== *)
(** The answers of the language model and what the pipeline does with them
    ([internal/gemini/]: icp.go, geo.go, intent.go, engage.go).  The calls
    themselves are parameters of the pipeline; their results are normalised here
    as the client normalises them. *)
From S2P Require Import Prelude Unicode GoStrings TextFacts.
From S2P Require Import SourceRep Scoring Outreach Geo.
From Stdlib Require Import SpecFloat.

Local Open Scope Z_scope.

(** ** ICP ([icp.go]) *)

Record ICPResult := {
  icp_ICP : string; icp_Hot : bool; icp_SpendTier : string; icp_Why : string }.

Definition no_icp : ICPResult :=
  {| icp_ICP := estr; icp_Hot := false; icp_SpendTier := estr; icp_Why := estr |}.

(** The trimmed text chooses the branch, the untrimmed one is returned. *)
Definition normalizeICP (v : string) : string :=
  if mem (ToLower (TrimSpace v)) ["starter"; "pro"] then ToLower v else "none".

Definition normalizeSpendTier (v : string) : string :=
  if EqualFold v "15k-150k" then "15k-150k" else "unknown".

Definition ApplyICPToScore (score : Z) (icp : ICPResult) (highMin : Z) : Z * string :=
  let score :=
    if icp_Hot icp && negb (String.eqb (icp_ICP icp) "none") then score + 12
    else if String.eqb (icp_ICP icp) "none" && negb (icp_Hot icp)
    then if 0 <? score then score - 8 else score
    else score in
  (score, if highMin <=? score then "High" else estr).

(** ** Geography ([geo.go]) *)

Record GeoResult := {
  geo_Blocked : bool; geo_Confidence : string; geo_PersonCountry : string;
  geo_CompanyCountry : string; geo_CompanyName : string;
  geo_RegistrationSignals : list string; geo_RUBYSignals : list string; geo_Why : string }.

Definition no_geo : GeoResult := {|
  geo_Blocked := false; geo_Confidence := estr; geo_PersonCountry := estr;
  geo_CompanyCountry := estr; geo_CompanyName := estr;
  geo_RegistrationSignals := []; geo_RUBYSignals := []; geo_Why := estr |}.

Definition normalizeConfidence (v : string) : string :=
  if mem (ToLower (TrimSpace v)) ["high"; "medium"] then ToLower (TrimSpace v) else "low".

Definition normalizeCountryCode (v : string) : string :=
  let v := ToUpper (TrimSpace v) in
  if mem v [estr; "UNKNOWN"; "N/A"] then "unknown"
  else if Nat.eqb (slen v) 2 then v
  else "unknown".

(** The argument is the parsed response, which has the same fields. *)
Definition normalizeGeoResult (parsed : GeoResult) : GeoResult := {|
  geo_Blocked := geo_Blocked parsed;
  geo_Confidence := normalizeConfidence (geo_Confidence parsed);
  geo_PersonCountry := normalizeCountryCode (geo_PersonCountry parsed);
  geo_CompanyCountry := normalizeCountryCode (geo_CompanyCountry parsed);
  geo_CompanyName := TrimSpace (geo_CompanyName parsed);
  geo_RegistrationSignals := geo_RegistrationSignals parsed;
  geo_RUBYSignals := geo_RUBYSignals parsed;
  geo_Why := TrimSpace (geo_Why parsed) |}.

Definition formatBlockedList (blocked : list string) : string :=
  let parts := List.filter (λ c, negb (String.eqb c estr))
                 ((λ c, ToUpper (TrimSpace c)) <$> blocked) in
  match parts with [] => "RU, BY" | _ => Join parts ", " end.

Definition ShouldReject (r : GeoResult) (blockedCountries : list string) : bool :=
  if String.eqb (geo_Confidence r) "low" then false
  else if geo_Blocked r && (String.eqb (geo_Confidence r) "high"
                            || String.eqb (geo_Confidence r) "medium") then true
  else if IsBlockedCountry (geo_PersonCountry r) blockedCountries then true
  else IsBlockedCountry (geo_CompanyCountry r) blockedCountries.

Definition part_if (b : bool) (s : string) : list string := if b then [s] else [].

Definition Detail (r : GeoResult) : string :=
  let known c := negb (String.eqb c "unknown") && negb (String.eqb c estr) in
  let parts :=
    part_if (negb (String.eqb (geo_CompanyName r) estr)) ("company=" +:+ geo_CompanyName r)
    ++ part_if (known (geo_CompanyCountry r)) ("reg=" +:+ geo_CompanyCountry r)
    ++ part_if (known (geo_PersonCountry r)) ("person=" +:+ geo_PersonCountry r)
    ++ part_if (negb (is_empty (geo_RegistrationSignals r)))
         ("reg_signals=" +:+ Join (geo_RegistrationSignals r) "; ")
    ++ part_if (negb (is_empty (geo_RUBYSignals r)))
         ("ru_by=" +:+ Join (geo_RUBYSignals r) "; ")
    ++ part_if (negb (String.eqb (geo_Why r) estr)) (geo_Why r) in
  match parts with
  | [] => "gemini geo block (" +:+ geo_Confidence r +:+ ")"
  | _ => Join parts " | "
  end.

(** ** Intent ([intent.go]) *)

Record IntentResult := { int_Intent : string; int_Confidence : spec_float; int_Why : string }.

(** The float64 nearest to 0.8. *)
Definition f_0_8 : spec_float := S754_finite false 7205759403792794 (-53).

Definition normalizeIntent (v : string) : string :=
  let v := ToLower (TrimSpace v) in
  if mem v ["buyer_search"; "technical_issue"; "news"; "job_offer"; "noise"] then v
  else "noise".

Definition IntentAccept (r : IntentResult) (minConfidence : spec_float) : bool :=
  let min := if SFleb minConfidence (S754_zero false) then f_0_8 else minConfidence in
  String.eqb (normalizeIntent (int_Intent r)) "buyer_search"
  && float_ge (int_Confidence r) min.

(** ** Engagement ([engage.go]) *)

Record EngagementInput := {
  ei_Text : string; ei_Stack : list string; ei_ICP : string; ei_SpendTier : string;
  ei_Hot : bool; ei_ContactTypes : list string; ei_Source : string }.

Record EngagementResult := {
  er_PilotSignals : list string; er_PilotQualified : bool; er_PilotWhy : string;
  er_OutreachChannel : string; er_OutreachSubject : string; er_OutreachAngle : string;
  er_OutreachDraft : string }.

Definition pilotSignalTags : list (string * string) :=
  [ ("spend_budget", "pilot-spend-budget"); ("competitor_stack", "pilot-competitor-stack");
    ("tracker_pain", "pilot-tracker-pain"); ("infra_vps", "pilot-infra-vps");
    ("usdt_ok", "pilot-usdt-ok"); ("buyer_role", "pilot-buyer-role");
    ("high_volume", "pilot-high-volume"); ("migration_intent", "pilot-migration-intent") ].

Definition signal_tag (sig : string) : option string :=
  snd <$> List.find (λ kv, String.eqb sig kv.1) pilotSignalTags.

Definition normalizePilotSignal (v : string) : string :=
  let v := ToLower (TrimSpace v) in
  match signal_tag v with Some _ => v | None => estr end.

Definition normalizeOutreachChannel (v : string) : string :=
  let v := ToLower (TrimSpace v) in
  if mem v ["telegram"; "email"; "forum"] then v else "other".

Definition ReconcileEngagement (r : EngagementResult) (contactTypes : list string)
    (source : string) : EngagementResult :=
  let avail := ChannelsFromContactTypes contactTypes in
  let pref := if SourcePrefersEmailOutreach source avail then ContactChannelEmail
              else er_OutreachChannel r in
  let ch := PickContactChannel avail pref in
  {| er_PilotSignals := er_PilotSignals r; er_PilotQualified := er_PilotQualified r;
     er_PilotWhy := er_PilotWhy r; er_OutreachChannel := ch;
     er_OutreachSubject := if String.eqb ch ContactChannelEmail
                           then er_OutreachSubject r else estr;
     er_OutreachAngle := er_OutreachAngle r; er_OutreachDraft := er_OutreachDraft r |}.

(** What [ClassifyEngagement] makes of the parsed response. *)
Definition engagement_of_response (parsed : EngagementResult) (i : EngagementInput)
    : EngagementResult :=
  ReconcileEngagement
    {| er_PilotSignals := dedup_on id
         (List.filter (λ s, negb (String.eqb s estr))
            (normalizePilotSignal <$> er_PilotSignals parsed));
       er_PilotQualified := er_PilotQualified parsed;
       er_PilotWhy := TrimSpace (er_PilotWhy parsed);
       er_OutreachChannel := normalizeOutreachChannel (er_OutreachChannel parsed);
       er_OutreachSubject := TrimSpace (er_OutreachSubject parsed);
       er_OutreachAngle := TrimSpace (er_OutreachAngle parsed);
       er_OutreachDraft := TrimSpace (er_OutreachDraft parsed) |}
    (ei_ContactTypes i) (ei_Source i).

Definition ApplyEngagementPilot (r : EngagementResult) : bool * list string :=
  let tags := dedup_on id (omap signal_tag (er_PilotSignals r)) in
  let qualified := er_PilotQualified r || Nat.leb 3 (length tags) in
  if qualified then (true, "pilot-qualified" :: tags)
  else (false, "pilot-nurture" :: tags).

(** ** Enrichment synthesis, prescan verdicts (the fields the pipeline reads) *)

Record EnrichSynthInput := {
  es_Snippet : string; es_Source : string; es_Domain : string; es_RDAPCountry : string;
  es_DomainAgeDays : Z; es_Stack : list string; es_DisplayName : string;
  es_GeoCountry : string; es_CompanyCountry : string; es_ICP : string }.

Record EnrichSynthResult := {
  es_CompanyType : string; es_Summary : string; es_GeoConfidence : string }.

Record PrescanVerdict := { pv_PainMatch : bool; pv_SpamMatch : bool }.
