(* ===== verification/Quota.v ===== *)
(** The limits of the language-model client ([internal/gemini/]: limits.go, priority.go,
    limiter.go, retry.go, transport.go): the quotas it keeps, and the attempts of a call.

    The token buckets of [golang.org/x/time/rate], the transport and the decoding of
    the error object are parameters.  A call of the limiter is three critical sections,
    [checkRPD], [checkTPM] and the recording after the wait for the bucket; calls
    interleave between them. *)
From S2P Require Import Prelude Unicode GoStrings Breaker.

Local Open Scope Z_scope.

(** ** Limits ([limits.go]) *)

Record ModelLimits := {
  ml_RPM : Z; ml_TPM : Z; ml_RPD : Z; ml_MaxRetries : Z; ml_RetryBase : Z; ml_RetryMax : Z }.

Definition limits (rpm tpm rpd retries base max : Z) : ModelLimits := {|
  ml_RPM := rpm; ml_TPM := tpm; ml_RPD := rpd; ml_MaxRetries := retries;
  ml_RetryBase := base * second; ml_RetryMax := max * second |}.

Definition LimitsForModel (model : string) : ModelLimits :=
  let m := ToLower (TrimSpace model) in
  let has names := existsb (Contains m) names in
  if has ["flash-lite"; "flash_lite"] then limits 15 250000 1000 4 2 60
  else if has ["2.5-flash"; "2.5_flash"] then limits 20 250000 250 4 2 60
  else if has ["2.5-pro"; "2.5_pro"] then limits 5 250000 100 3 3 90
  else if has ["3.7-flash"; "3.6-flash"; "3.5-flash"; "3.7_flash"; "3.6_flash"; "3.5_flash"]
  then limits 15 1000000 1500 4 2 60
  else if has ["2.0-flash"; "2.0_flash"] then limits 15 1000000 1500 4 2 60
  else limits 10 250000 500 4 2 60.

Definition override (x y : Z) : Z := if 0 <? y then y else x.
Definition or_default (x y : Z) : Z := if x <=? 0 then y else x.

Definition withOverrides (l : ModelLimits) (rpm tpm rpd maxRetries : Z) : ModelLimits := {|
  ml_RPM := override (ml_RPM l) rpm; ml_TPM := override (ml_TPM l) tpm;
  ml_RPD := override (ml_RPD l) rpd; ml_MaxRetries := override (ml_MaxRetries l) maxRetries;
  ml_RetryBase := or_default (ml_RetryBase l) (2 * second);
  ml_RetryMax := or_default (ml_RetryMax l) (60 * second) |}.

Definition EstimateTokens (parts : list string) : Z :=
  let n := foldr (λ p acc, Z.of_nat (slen p) + acc) 0 parts in
  let tokens := Z.quot n 4 in
  if tokens <? 1 then 1 else tokens + 256.

(** ** Shares of the request rate ([priority.go]) *)

Inductive Priority := PriorityCritical | PriorityHigh | PriorityNormal | PriorityLow.

Definition Priority_String (p : Priority) : string :=
  match p with
  | PriorityCritical => "critical" | PriorityHigh => "high"
  | PriorityNormal => "normal" | PriorityLow => "low"
  end.

Record QuotaSplit := { qs_Critical : Z; qs_High : Z; qs_Normal : Z; qs_Low : Z }.

Definition DefaultQuotaSplit : QuotaSplit :=
  {| qs_Critical := 20; qs_High := 40; qs_Normal := 25; qs_Low := 15 |}.

Definition Normalize (s : QuotaSplit) : QuotaSplit :=
  if negb (qs_Critical s + qs_High s + qs_Normal s + qs_Low s =? 100) then DefaultQuotaSplit
  else if qs_Critical s <? 1
  then {| qs_Critical := 1; qs_High := qs_High s; qs_Normal := qs_Normal s; qs_Low := qs_Low s |}
  else s.

Definition share (s : QuotaSplit) (p : Priority) : Z :=
  match p with
  | PriorityCritical => qs_Critical s | PriorityHigh => qs_High s
  | PriorityNormal => qs_Normal s | PriorityLow => qs_Low s
  end.

Definition RPM (s : QuotaSplit) (total : Z) (p : Priority) : Z :=
  let total := or_default total 10 in
  let rpm := Z.quot (total * share (Normalize s) p) 100 in
  if rpm <? 1 then 1 else rpm.

Record LimitConfig := { lc_Limits : ModelLimits; lc_EmbedRPM : Z; lc_QuotaSplit : QuotaSplit }.

Definition DefaultLimitConfig (model : string) : LimitConfig :=
  let limits := LimitsForModel model in
  {| lc_Limits := limits; lc_EmbedRPM := Z.max 1 (Z.quot (ml_RPM limits) 3);
     lc_QuotaSplit := DefaultQuotaSplit |}.

(** ** The limiter ([limiter.go]) *)

Record quotaEntry := { qe_at : Time; qe_tokens : Z }.

Record QuotaStats := {
  st_GenerateWaits : Z; st_EmbedWaits : Z; st_RPMThrottles : Z; st_TPMThrottles : Z;
  st_RPDThrottles : Z; st_DailyUsed : Z }.

Definition no_stats : QuotaStats := {|
  st_GenerateWaits := 0; st_EmbedWaits := 0; st_RPMThrottles := 0; st_TPMThrottles := 0;
  st_RPDThrottles := 0; st_DailyUsed := 0 |}.

(** [ql_rpm] and [ql_embed] are the rates of the token buckets, per minute. *)
Record QuotaLimiter := {
  ql_rpm : Priority → Z; ql_embed : Z; ql_tpmMax : Z; ql_tpmWindow : list quotaEntry;
  ql_tpmTotal : Z; ql_rpdMax : Z; ql_rpdWindow : list Time; ql_stats : QuotaStats }.

Definition NewQuotaLimiter (cfg : LimitConfig) : QuotaLimiter :=
  let genRPM := or_default (ml_RPM (lc_Limits cfg)) 10 in
  let split := Normalize (lc_QuotaSplit cfg) in {|
  ql_rpm := RPM split genRPM;
  ql_embed := or_default (lc_EmbedRPM cfg) (Z.max 1 (Z.quot genRPM 3));
  ql_tpmMax := or_default (ml_TPM (lc_Limits cfg)) 250000; ql_tpmWindow := []; ql_tpmTotal := 0;
  ql_rpdMax := or_default (ml_RPD (lc_Limits cfg)) 1500; ql_rpdWindow := [];
  ql_stats := no_stats |}.

Definition with_rpd (q : QuotaLimiter) (window : list Time) : QuotaLimiter := {|
  ql_rpm := ql_rpm q; ql_embed := ql_embed q; ql_tpmMax := ql_tpmMax q;
  ql_tpmWindow := ql_tpmWindow q; ql_tpmTotal := ql_tpmTotal q; ql_rpdMax := ql_rpdMax q;
  ql_rpdWindow := window; ql_stats := ql_stats q |}.

Definition with_tpm (q : QuotaLimiter) (window : list quotaEntry) (total : Z) : QuotaLimiter := {|
  ql_rpm := ql_rpm q; ql_embed := ql_embed q; ql_tpmMax := ql_tpmMax q;
  ql_tpmWindow := window; ql_tpmTotal := total; ql_rpdMax := ql_rpdMax q;
  ql_rpdWindow := ql_rpdWindow q; ql_stats := ql_stats q |}.

Definition with_stats (q : QuotaLimiter) (s : QuotaStats) : QuotaLimiter := {|
  ql_rpm := ql_rpm q; ql_embed := ql_embed q; ql_tpmMax := ql_tpmMax q;
  ql_tpmWindow := ql_tpmWindow q; ql_tpmTotal := ql_tpmTotal q; ql_rpdMax := ql_rpdMax q;
  ql_rpdWindow := ql_rpdWindow q; ql_stats := s |}.

Definition count_throttle (rpd : bool) (s : QuotaStats) : QuotaStats := {|
  st_GenerateWaits := st_GenerateWaits s; st_EmbedWaits := st_EmbedWaits s;
  st_RPMThrottles := st_RPMThrottles s;
  st_TPMThrottles := st_TPMThrottles s + (if rpd then 0 else 1);
  st_RPDThrottles := st_RPDThrottles s + (if rpd then 1 else 0);
  st_DailyUsed := st_DailyUsed s |}.

Definition count_wait (generate : bool) (s : QuotaStats) : QuotaStats := {|
  st_GenerateWaits := st_GenerateWaits s + (if generate then 1 else 0);
  st_EmbedWaits := st_EmbedWaits s + (if generate then 0 else 1);
  st_RPMThrottles := st_RPMThrottles s; st_TPMThrottles := st_TPMThrottles s;
  st_RPDThrottles := st_RPDThrottles s; st_DailyUsed := st_DailyUsed s |}.

Definition Stats (q : QuotaLimiter) : QuotaStats :=
  let s := ql_stats q in {|
  st_GenerateWaits := st_GenerateWaits s; st_EmbedWaits := st_EmbedWaits s;
  st_RPMThrottles := st_RPMThrottles s; st_TPMThrottles := st_TPMThrottles s;
  st_RPDThrottles := st_RPDThrottles s; st_DailyUsed := Z.of_nat (length (ql_rpdWindow q)) |}.

Definition tokens_of (l : list quotaEntry) : Z := foldr (λ e acc, qe_tokens e + acc) 0 l.

(** The loops that prune keep the young entries in place. *)
Definition pruneRPD (q : QuotaLimiter) (now : Time) : QuotaLimiter :=
  let cutoff := time_add now (- (24 * hour)) in
  with_rpd q (List.filter (λ t, time_after t cutoff) (ql_rpdWindow q)).

Definition pruneTPM (q : QuotaLimiter) (now : Time) : QuotaLimiter :=
  let cutoff := time_add now (- minute) in
  let window := List.filter (λ e, time_after (qe_at e) cutoff) (ql_tpmWindow q) in
  with_tpm q window (tokens_of window).

(** The limiter afterwards, and whether the check passed. *)
Definition checkRPD (q : QuotaLimiter) (now : Time) : QuotaLimiter * bool :=
  let q := pruneRPD q now in
  (q, negb (ql_rpdMax q <=? Z.of_nat (length (ql_rpdWindow q)))).

Definition checkTPM (q : QuotaLimiter) (estTokens : Z) (now : Time) : QuotaLimiter * bool :=
  let q := pruneTPM q now in (q, negb (ql_tpmMax q <? ql_tpmTotal q + estTokens)).

Definition recordTPM (q : QuotaLimiter) (estTokens : Z) (now : Time) : QuotaLimiter :=
  let q := pruneTPM q now in
  with_tpm q (ql_tpmWindow q ++ [{| qe_at := now; qe_tokens := estTokens |}])
    (ql_tpmTotal q + estTokens).

Definition recordRPD (q : QuotaLimiter) (now : Time) : QuotaLimiter :=
  let q := pruneRPD q now in with_rpd q (ql_rpdWindow q ++ [now]).

(** What a granted wait does under the lock; the clock is read once for each window. *)
Definition grant (q : QuotaLimiter) (estTokens : Z) (generate : bool) (now1 now2 : Time)
    : QuotaLimiter :=
  recordRPD (recordTPM (with_stats q (count_wait generate (ql_stats q))) estTokens now1) now2.

Definition throttle (q : QuotaLimiter) (rpd : bool) : QuotaLimiter :=
  with_stats q (count_throttle rpd (ql_stats q)).

(** *** Interleaved calls *)

(** A call between its critical sections: past [checkRPD], or past [checkTPM] and
    waiting for its bucket. *)
Inductive phase := PassedRPD | PassedTPM.
Record waiter := { wt_tokens : Z; wt_generate : bool; wt_phase : phase }.

(** [qc_granted] is the history of the grants, with the clock of each window. *)
Record calls := {
  qc_limiter : QuotaLimiter; qc_now : Time; qc_waiting : list waiter;
  qc_granted : list (Time * quotaEntry) }.

Definition with_limiter (c : calls) (q : QuotaLimiter) (waiting : list waiter) : calls := {|
  qc_limiter := q; qc_now := qc_now c; qc_waiting := waiting; qc_granted := qc_granted c |}.

Definition passed_tpm (w : waiter) : waiter := {|
  wt_tokens := wt_tokens w; wt_generate := wt_generate w; wt_phase := PassedTPM |}.

(** [wait], one critical section at a time, by at most [workers] calls at once that
    ask for at most [most] tokens each. *)
Inductive quota_step (workers : nat) (most : Z) : calls → calls → Prop :=
  | qstep_clock c now :
      qc_now c ≤ now →
      quota_step workers most c {| qc_limiter := qc_limiter c; qc_now := now;
        qc_waiting := qc_waiting c; qc_granted := qc_granted c |}
  | qstep_rpd_passed c q est gen :
      0 ≤ est ≤ most → (length (qc_waiting c) < workers)%nat →
      checkRPD (qc_limiter c) (qc_now c) = (q, true) →
      quota_step workers most c (with_limiter c q (qc_waiting c ++
        [{| wt_tokens := est; wt_generate := gen; wt_phase := PassedRPD |}]))
  | qstep_rpd_failed c q :
      checkRPD (qc_limiter c) (qc_now c) = (q, false) →
      quota_step workers most c (with_limiter c (throttle q true) (qc_waiting c))
  | qstep_tpm_passed c q l w r :
      qc_waiting c = l ++ w :: r → wt_phase w = PassedRPD →
      checkTPM (qc_limiter c) (wt_tokens w) (qc_now c) = (q, true) →
      quota_step workers most c (with_limiter c q (l ++ passed_tpm w :: r))
  | qstep_tpm_failed c q l w r :
      qc_waiting c = l ++ w :: r → wt_phase w = PassedRPD →
      checkTPM (qc_limiter c) (wt_tokens w) (qc_now c) = (q, false) →
      quota_step workers most c (with_limiter c (throttle q false) (l ++ r))
  | qstep_bucket_failed c l w r :
      qc_waiting c = l ++ w :: r → wt_phase w = PassedTPM →
      quota_step workers most c (with_limiter c (qc_limiter c) (l ++ r))
  | qstep_granted c l w r now :
      qc_waiting c = l ++ w :: r → wt_phase w = PassedTPM → qc_now c ≤ now →
      quota_step workers most c {|
        qc_limiter := grant (qc_limiter c) (wt_tokens w) (wt_generate w) (qc_now c) now;
        qc_now := now; qc_waiting := l ++ r;
        qc_granted := qc_granted c
          ++ [(now, {| qe_at := qc_now c; qe_tokens := wt_tokens w |})] |}.

Definition first_call (cfg : LimitConfig) (now : Time) : calls := {|
  qc_limiter := NewQuotaLimiter cfg; qc_now := now; qc_waiting := []; qc_granted := [] |}.

(** ** Errors and attempts ([retry.go], [transport.go]) *)

Definition Truncate (s : string) (max : nat) : string :=
  if Nat.leb (slen s) max then s
  else if Nat.leb max 3 then stake max s else stake (max - 3) s +:+ "...".

Record APIError := {
  ae_Code : Z; ae_Status : string; ae_Message : string; ae_RetryAfter : Duration }.

Definition StatusGatewayTimeout : Z := 504.

Definition retryableStatus (code : Z) : bool :=
  (code =? StatusTooManyRequests) || (code =? StatusServiceUnavailable)
  || (code =? StatusGatewayTimeout).

Definition Retryable (e : APIError) : bool :=
  retryableStatus (ae_Code e) || Contains (ToUpper (ae_Status e)) "RESOURCE_EXHAUSTED".

(** The [error] object of a body: code, status and message. *)
Class ErrorLib := { error_object : string → option (Z * string * string) }.

(** Never nil. *)
Definition parseAPIError `{ErrorLib} (statusCode : Z) (body : string) (retryAfter : Duration)
    : option APIError :=
  match error_object body with
  | Some (code, status, message) => Some {|
      ae_Code := code; ae_Status := status; ae_Message := message; ae_RetryAfter := retryAfter |}
  | None => Some {|
      ae_Code := statusCode; ae_Status := estr; ae_Message := Truncate body 300;
      ae_RetryAfter := retryAfter |}
  end.

(** The errors of a call: of the API, of the quota, of the context, and the others
    with their text. *)
Inductive call_error := ErrAPI (e : APIError) | ErrQuota | ErrContext | ErrOther (message : string).

Definition retryableError (e : call_error) : bool :=
  match e with
  | ErrAPI e => Retryable e
  | ErrOther msg => Contains msg "429" || Contains msg "RESOURCE_EXHAUSTED" || Contains msg "503"
  | ErrQuota | ErrContext => false
  end.

(** The duration before the jitter: [base * time.Duration(1<<attempt)] in 64 bits. *)
Definition backoffDuration (l : ModelLimits) (attempt : nat) (retryAfter : Duration) : Duration :=
  let base := or_default (ml_RetryBase l) (2 * second) in
  let max := or_default (ml_RetryMax l) (60 * second) in
  let d := wrap64 (base * wrap64 (2 ^ Z.of_nat attempt)) in
  let d := if d <? retryAfter then retryAfter else d in
  if max <? d then max else d.

(** [postOnce]: body, status, Retry-After, and an error: the transport's, or that of a
    status that is not 2xx. *)
Record reply := { rp_body : string; rp_status : Z; rp_retryAfter : Duration; rp_err : option call_error }.

Definition success (r : reply) : bool :=
  match rp_err r with Some _ => false | None => (200 <=? rp_status r) && (rp_status r <? 300) end.

Section attempts.
Context `{ErrorLib} (l : ModelLimits).
(** The quota, the transport and the sleep at each attempt. *)
Variables (waitQuota : nat → option call_error) (postOnce : nat → reply)
  (sleep : nat → Duration → bool).

Definition reply_error (r : reply) : call_error :=
  match parseAPIError (rp_status r) (rp_body r) (rp_retryAfter r) with
  | Some e => ErrAPI e
  | None => match rp_err r with
            | Some e => e
            | None => ErrOther ("gemini http " +:+ Itoa (rp_status r))
            end
  end.

(** The loop from an attempt on, with [left] attempts left after it; the number of
    requests is returned too. *)
Fixpoint post_from (attempt left : nat) : (string + call_error) * nat :=
  match waitQuota attempt with
  | Some e => (inr e, O)
  | None =>
      let r := postOnce attempt in
      if success r then (inl (rp_body r), 1%nat)
      else
        let e := reply_error r in
        match left with
        | O => (inr e, 1%nat)
        | S left' =>
            if negb (retryableError e) then (inr e, 1%nat)
            else if sleep attempt (backoffDuration l attempt (rp_retryAfter r))
            then let '(res, n) := post_from (S attempt) left' in (res, S n)
            else (inr ErrContext, 1%nat)
        end
  end.

Definition postWithQuota : (string + call_error) * nat :=
  let maxAttempts := if ml_MaxRetries l + 1 <=? 0 then 1 else ml_MaxRetries l + 1 in
  post_from O (Z.to_nat (maxAttempts - 1)).
End attempts.
