(* ===== verification/QuotaFacts.v ===== *)
(** Properties of the limits of the language-model client: how far interleaved calls
    can exceed the quotas, the attempts of a call, its backoff. *)
From S2P Require Import Prelude Unicode GoStrings Breaker Quota.

Local Open Scope Z_scope.

(** ** Windows *)

Section young.
Context {A : Type} (at_of : A → Time).

(** The entries after a cutoff. *)
Definition young (cutoff : Time) (l : list A) : list A :=
  List.filter (λ x, time_after (at_of x) cutoff) l.

Lemma young_young c c' l : c ≤ c' → young c' (young c l) = young c' l.
Proof.
  intros Hc. unfold young, time_after. induction l as [|x l IH]; simpl; [done|].
  destruct (Z.ltb_spec c (at_of x)) as [H|H]; simpl; rewrite IH; [done|].
  destruct (Z.ltb_spec c' (at_of x)); [lia|done].
Qed.

Lemma young_app c l k : young c (l ++ k) = young c l ++ young c k.
Proof. apply List.filter_app. Qed.

Lemma young_length c l : (length (young c l) ≤ length l)%nat.
Proof. unfold young. induction l as [|x l IH]; simpl; [lia|]. destruct (time_after _ _); simpl; lia. Qed.
End young.

Lemma tokens_of_app l k : tokens_of (l ++ k) = tokens_of l + tokens_of k.
Proof. unfold tokens_of. induction l as [|e l IH]; simpl; [done|]. rewrite IH. lia. Qed.

Definition nonneg (l : list quotaEntry) : Prop := Forall (λ e, 0 ≤ qe_tokens e) l.

Lemma tokens_young c l : nonneg l → tokens_of (young qe_at c l) ≤ tokens_of l ∧ 0 ≤ tokens_of (young qe_at c l).
Proof.
  unfold young, tokens_of. induction 1 as [|e l He _ IH]; simpl; [lia|].
  destruct (time_after _ _); simpl; lia.
Qed.

Lemma nonneg_young c l : nonneg l → nonneg (young qe_at c l).
Proof.
  unfold nonneg, young. rewrite !Forall_forall. intros H e He. apply H.
  apply list_elem_of_In, filter_In in He as [He _]. by apply list_elem_of_In.
Qed.

(** ** Waiting calls *)

(** The tokens the calls past [checkTPM] will add. *)
Definition reserved (l : list waiter) : Z :=
  foldr (λ w acc, (match wt_phase w with PassedTPM => wt_tokens w | PassedRPD => 0 end) + acc) 0 l.

Lemma reserved_app l k : reserved (l ++ k) = reserved l + reserved k.
Proof. unfold reserved. induction l as [|w l IH]; simpl; [done|]. rewrite IH. lia. Qed.

Definition modest (most : Z) (l : list waiter) : Prop := Forall (λ w, 0 ≤ wt_tokens w ≤ most) l.

Lemma reserved_bound most l :
  0 ≤ most → modest most l → 0 ≤ reserved l ≤ Z.of_nat (length l) * most.
Proof.
  intros Hm. unfold reserved. induction 1 as [|w l Hw _ IH]; simpl; [lia|].
  destruct (wt_phase w); nia.
Qed.

(** ** The invariant *)

Section quota.
Variables (cfg : LimitConfig) (workers : nat) (most : Z).
Hypotheses (Hworkers : (1 ≤ workers)%nat) (Hmost : 0 ≤ most).

Definition rpd_max : Z := or_default (ml_RPD (lc_Limits cfg)) 1500.
Definition tpm_max : Z := or_default (ml_TPM (lc_Limits cfg)) 250000.

Record quota_inv (c : calls) : Prop := {
  qi_rpdMax : ql_rpdMax (qc_limiter c) = rpd_max;
  qi_tpmMax : ql_tpmMax (qc_limiter c) = tpm_max;
  qi_total : ql_tpmTotal (qc_limiter c) = tokens_of (ql_tpmWindow (qc_limiter c));
  qi_nonneg : nonneg (ql_tpmWindow (qc_limiter c));
  qi_modest : modest most (qc_waiting c);
  qi_waiting : (length (qc_waiting c) ≤ workers)%nat;
  qi_day : ∀ cutoff, qc_now c - 24 * hour ≤ cutoff →
    young id cutoff (qc_granted c).*1 = young id cutoff (ql_rpdWindow (qc_limiter c));
  qi_minute : ∀ cutoff, qc_now c - minute ≤ cutoff →
    young qe_at cutoff (qc_granted c).*2 = young qe_at cutoff (ql_tpmWindow (qc_limiter c));
  qi_rpd : Z.of_nat (length (ql_rpdWindow (qc_limiter c))) + Z.of_nat (length (qc_waiting c))
           ≤ rpd_max + Z.of_nat workers - 1;
  qi_tpm : ql_tpmTotal (qc_limiter c) + reserved (qc_waiting c)
           ≤ tpm_max + (Z.of_nat workers - 1) * most }.

(** Pruning and counting change none of it. *)
Definition same_quota (q q' : QuotaLimiter) (now : Time) : Prop :=
  ql_rpdMax q' = ql_rpdMax q ∧ ql_tpmMax q' = ql_tpmMax q ∧
  (ql_rpdWindow q' = ql_rpdWindow q ∨ ql_rpdWindow q' = young id (now - 24 * hour) (ql_rpdWindow q)) ∧
  ((ql_tpmWindow q' = ql_tpmWindow q ∧ ql_tpmTotal q' = ql_tpmTotal q) ∨
   (ql_tpmWindow q' = young qe_at (now - minute) (ql_tpmWindow q)
    ∧ ql_tpmTotal q' = tokens_of (young qe_at (now - minute) (ql_tpmWindow q)))).

Lemma quota_inv_same c q' waiting :
  quota_inv c → same_quota (qc_limiter c) q' (qc_now c) → modest most waiting →
  (length waiting ≤ workers)%nat →
  Z.of_nat (length (ql_rpdWindow q')) + Z.of_nat (length waiting) ≤ rpd_max + Z.of_nat workers - 1 →
  ql_tpmTotal q' + reserved waiting ≤ tpm_max + (Z.of_nat workers - 1) * most →
  quota_inv (with_limiter c q' waiting).
Proof.
  intros [] (Hr & Ht & Hrw & Htw) Hm Hw Hrb Htb. split; simpl; try done; try congruence.
  - destruct Htw as [[-> ->]|[-> ->]]; done.
  - destruct Htw as [[-> _]|[-> _]]; [done|by apply nonneg_young].
  - intros cutoff Hc. rewrite qi_day0 by done. destruct Hrw as [->| ->]; [done|].
    by rewrite young_young.
  - intros cutoff Hc. rewrite qi_minute0 by done. destruct Htw as [[-> _]|[-> _]]; [done|].
    by rewrite young_young.
Qed.

Lemma same_quota_bounds c q' :
  quota_inv c → same_quota (qc_limiter c) q' (qc_now c) →
  Z.of_nat (length (ql_rpdWindow q')) ≤ Z.of_nat (length (ql_rpdWindow (qc_limiter c)))
  ∧ ql_tpmTotal q' ≤ ql_tpmTotal (qc_limiter c).
Proof.
  intros [] (_ & _ & Hrw & Htw). split.
  - destruct Hrw as [->| ->]; [lia|]. pose proof (young_length id (qc_now c - 24 * hour) (ql_rpdWindow (qc_limiter c))). lia.
  - destruct Htw as [[_ ->]|[_ ->]]; [lia|]. rewrite qi_total0. by apply tokens_young.
Qed.

Lemma checkRPD_same q now : same_quota q (checkRPD q now).1 now.
Proof. repeat split; simpl; auto. Qed.

Lemma checkTPM_same q est now : same_quota q (checkTPM q est now).1 now.
Proof. repeat split; simpl; auto. Qed.

Lemma throttle_same q q' rpd now : same_quota q q' now → same_quota q (throttle q' rpd) now.
Proof. done. Qed.

Lemma quota_inv_drop c q' l w r :
  quota_inv c → same_quota (qc_limiter c) q' (qc_now c) → qc_waiting c = l ++ w :: r →
  quota_inv (with_limiter c q' (l ++ r)).
Proof.
  intros Hi Hs E. pose proof (same_quota_bounds c q' Hi Hs) as [Hr Ht].
  pose proof Hi as []. rewrite E in *. unfold modest in qi_modest0.
  rewrite Forall_app, Forall_cons in qi_modest0. rewrite reserved_app in qi_tpm0.
  rewrite !length_app in *. simpl in *.
  apply quota_inv_same; try done.
  - apply Forall_app. tauto.
  - rewrite length_app. lia.
  - rewrite length_app. lia.
  - rewrite reserved_app. destruct (wt_phase w); lia.
Qed.

Lemma grant_windows q est gen now1 now2 :
  let q' := grant q est gen now1 now2 in
  ql_rpdWindow q' = young id (now2 - 24 * hour) (ql_rpdWindow q) ++ [now2]
  ∧ ql_tpmWindow q' = young qe_at (now1 - minute) (ql_tpmWindow q)
                      ++ [{| qe_at := now1; qe_tokens := est |}]
  ∧ ql_tpmTotal q' = tokens_of (young qe_at (now1 - minute) (ql_tpmWindow q)) + est
  ∧ ql_rpdMax q' = ql_rpdMax q ∧ ql_tpmMax q' = ql_tpmMax q.
Proof. done. Qed.

Lemma grant_inv c l w r now :
  quota_inv c → qc_waiting c = l ++ w :: r → wt_phase w = PassedTPM → qc_now c ≤ now →
  quota_inv {|
    qc_limiter := grant (qc_limiter c) (wt_tokens w) (wt_generate w) (qc_now c) now;
    qc_now := now; qc_waiting := l ++ r;
    qc_granted := qc_granted c ++ [(now, {| qe_at := qc_now c; qe_tokens := wt_tokens w |})] |}.
Proof.
  intros [] E Hp Hle. rewrite E in *. unfold modest in qi_modest0.
  rewrite Forall_app, Forall_cons in qi_modest0. destruct qi_modest0 as (Hl & Hw & Hr).
  rewrite reserved_app in qi_tpm0. rewrite length_app in qi_waiting0, qi_rpd0. simpl in *.
  rewrite Hp in qi_tpm0.
  pose proof (tokens_young (qc_now c - minute) _ qi_nonneg0).
  pose proof (young_length id (now - 24 * hour) (ql_rpdWindow (qc_limiter c))).
  destruct (grant_windows (qc_limiter c) (wt_tokens w) (wt_generate w) (qc_now c) now)
    as (Gr & Gt & Gtot & Grm & Gtm).
  split; cbn [qc_limiter qc_now qc_waiting qc_granted]; rewrite ?Gr, ?Gt, ?Gtot, ?Grm, ?Gtm; try done.
  - rewrite tokens_of_app. unfold tokens_of at 3. simpl. lia.
  - apply Forall_app. split; [by apply nonneg_young|]. apply Forall_singleton. simpl. lia.
  - by apply Forall_app.
  - rewrite length_app. lia.
  - intros cutoff Hc. rewrite fmap_app, !young_app. f_equal. rewrite qi_day0 by lia. symmetry.
    apply (young_young id). lia.
  - intros cutoff Hc. rewrite fmap_app, !young_app. f_equal. rewrite qi_minute0 by lia. symmetry.
    apply (young_young qe_at). lia.
  - rewrite !length_app. simpl. lia.
  - rewrite reserved_app. lia.
Qed.

Lemma quota_step_inv c c' : quota_inv c → quota_step workers most c c' → quota_inv c'.
Proof.
  intros Hi Hs.
  destruct Hs as [c now Hle|c q est gen He Hlen Hc|c q Hc|c q l w r E Hp Hc|c q l w r E Hp Hc
                 |c l w r E Hp|c l w r now E Hp Hle].
  - destruct Hi. split; simpl; try done; intros cutoff Hc; [apply qi_day0|apply qi_minute0]; lia.
  - pose proof (checkRPD_same (qc_limiter c) (qc_now c)) as Hsame.
    assert (Z.of_nat (length (ql_rpdWindow q)) < rpd_max) as Hlt.
    { unfold checkRPD in Hc. injection Hc as <- Hb. apply negb_true_iff, Z.leb_gt in Hb.
      destruct Hi. simpl in Hb |- *. lia. }
    rewrite Hc in Hsame. simpl in Hsame. pose proof (same_quota_bounds c q Hi Hsame) as [_ Ht].
    pose proof Hi as []. apply quota_inv_same; try done.
    + apply Forall_app. split; [done|]. by apply Forall_singleton.
    + rewrite length_app. simpl. lia.
    + rewrite length_app. simpl. lia.
    + rewrite reserved_app. simpl. lia.
  - pose proof (checkRPD_same (qc_limiter c) (qc_now c)) as Hsame. rewrite Hc in Hsame.
    cbn [fst] in Hsame. apply (throttle_same _ _ true) in Hsame. pose proof (same_quota_bounds c _ Hi Hsame) as [Hr Ht].
    pose proof Hi as []. apply quota_inv_same; (done || lia).
  - pose proof (checkTPM_same (qc_limiter c) (wt_tokens w) (qc_now c)) as Hsame.
    assert (ql_tpmTotal q + wt_tokens w ≤ tpm_max) as Hle.
    { unfold checkTPM in Hc. injection Hc as <- Hb. apply negb_true_iff, Z.ltb_ge in Hb.
      destruct Hi. simpl in Hb |- *. lia. }
    rewrite Hc in Hsame. simpl in Hsame. pose proof (same_quota_bounds c q Hi Hsame) as [Hr _].
    pose proof Hi as []. rewrite E in *. unfold modest in qi_modest0.
    rewrite Forall_app, Forall_cons in qi_modest0. destruct qi_modest0 as (Hl & Hw & Hrr).
    pose proof (reserved_bound most l Hmost Hl). pose proof (reserved_bound most r Hmost Hrr).
    rewrite length_app in qi_waiting0, qi_rpd0. simpl in *.
    apply quota_inv_same; try done.
    + apply Forall_app. split; [done|]. by constructor.
    + rewrite length_app. simpl. lia.
    + rewrite length_app. simpl. lia.
    + rewrite reserved_app. simpl. nia.
  - apply (quota_inv_drop c _ l w r); [done| |done]. apply throttle_same.
    pose proof (checkTPM_same (qc_limiter c) (wt_tokens w) (qc_now c)) as Hsame. by rewrite Hc in Hsame.
  - apply (quota_inv_drop c _ l w r); [done| |done]. unfold same_quota. tauto.
  - by apply grant_inv.
Qed.
End quota.

Lemma or_default_pos x y : 0 < y → 0 < or_default x y.
Proof. intros. unfold or_default. destruct (Z.leb_spec x 0); lia. Qed.

Lemma first_call_inv cfg workers most now :
  (1 ≤ workers)%nat → 0 ≤ most → quota_inv cfg workers most (first_call cfg now).
Proof.
  intros Hw Hm. pose proof (or_default_pos (ml_RPD (lc_Limits cfg)) 1500 ltac:(lia)).
  pose proof (or_default_pos (ml_TPM (lc_Limits cfg)) 250000 ltac:(lia)).
  split; simpl; try done; try constructor; unfold rpd_max, tpm_max; try lia; nia.
Qed.

(** C13. The quotas of the client hold up to the calls in flight.  However at most [workers]
    calls of at most [most] tokens interleave, the requests granted in the last 24 hours
    exceed the daily quota by at most [workers - 1], and the tokens of the last minute exceed
    theirs by at most [workers - 1] times [most]: one call at a time keeps both exactly. *)
Theorem quota_bound cfg workers most start c :
  (1 ≤ workers)%nat → 0 ≤ most →
  rtc (quota_step workers most) (first_call cfg start) c →
  Z.of_nat (length (List.filter (λ g, qc_now c - 24 * hour <? g.1) (qc_granted c)))
    ≤ ql_rpdMax (NewQuotaLimiter cfg) + (Z.of_nat workers - 1) ∧
  tokens_of (List.filter (λ e, qc_now c - minute <? qe_at e) (qc_granted c).*2)
    ≤ ql_tpmMax (NewQuotaLimiter cfg) + (Z.of_nat workers - 1) * most.
Proof.
  intros Hw Hm Hr.
  assert (quota_inv cfg workers most c) as [].
  { revert Hr. apply (rtc_ind_r (quota_inv cfg workers most)); [by apply first_call_inv|].
    intros c1 c2 _ Hs Hi. by apply (quota_step_inv cfg workers most Hw Hm c1 c2). }
  assert (length (List.filter (λ g : Time * quotaEntry, qc_now c - 24 * hour <? g.1) (qc_granted c))
    = length (young id (qc_now c - 24 * hour) (qc_granted c).*1)) as ->.
  { unfold young, time_after. generalize (qc_granted c). intros l.
    induction l as [|g l IH]; simpl; [done|]. destruct (_ <? g.1); simpl; by rewrite IH. }
  rewrite (qi_day0 (qc_now c - 24 * hour)) by lia.
  change (List.filter (λ e, qc_now c - minute <? qe_at e) (qc_granted c).*2)
    with (young qe_at (qc_now c - minute) (qc_granted c).*2).
  rewrite (qi_minute0 (qc_now c - minute)) by lia.
  pose proof (young_length id (qc_now c - 24 * hour) (ql_rpdWindow (qc_limiter c))).
  pose proof (tokens_young (qc_now c - minute) _ qi_nonneg0).
  pose proof (reserved_bound most _ Hm qi_modest0).
  change (ql_rpdMax (NewQuotaLimiter cfg)) with (rpd_max cfg).
  change (ql_tpmMax (NewQuotaLimiter cfg)) with (tpm_max cfg). lia.
Qed.

(** A plan of one request a day. *)
Definition one_a_day : LimitConfig := {|
  lc_Limits := limits 10 1000 1 4 2 60; lc_EmbedRPM := 3; lc_QuotaSplit := DefaultQuotaSplit |}.

(** The excess happens: with two calls at once, both pass the checks before either is
    recorded, and a plan of one request a day grants two at the same moment. *)
Theorem quota_race :
  ∃ c, rtc (quota_step 2 10) (first_call one_a_day 0) c ∧
    Z.of_nat (length (List.filter (λ g, qc_now c - 24 * hour <? g.1) (qc_granted c)))
      = ql_rpdMax (NewQuotaLimiter one_a_day) + 1.
Proof.
  set (w p := {| wt_tokens := 10; wt_generate := true; wt_phase := p |}).
  eexists. split.
  - eapply rtc_l. { eapply (qstep_rpd_passed 2 10 _ _ 10 true); [lia|simpl; lia|reflexivity]. }
    eapply rtc_l. { eapply (qstep_rpd_passed 2 10 _ _ 10 true); [lia|simpl; lia|reflexivity]. }
    eapply rtc_l. { eapply (qstep_tpm_passed 2 10 _ _ [] (w PassedRPD) [w PassedRPD]); reflexivity. }
    eapply rtc_l. { eapply (qstep_tpm_passed 2 10 _ _ [w PassedTPM] (w PassedRPD) []); reflexivity. }
    eapply rtc_l. { eapply (qstep_granted 2 10 _ [] (w PassedTPM) [w PassedTPM] 0); [reflexivity..|simpl; lia]. }
    eapply rtc_l. { eapply (qstep_granted 2 10 _ [] (w PassedTPM) [] 0); [reflexivity..|simpl; lia]. }
    apply rtc_refl.
  - reflexivity.
Qed.

Lemma quota_bound_witness :
  Z.of_nat (length (List.filter (λ g, 0 - 24 * hour <? g.1) (qc_granted (first_call one_a_day 0)))) ≤ 1.
Proof.
  pose proof (quota_bound one_a_day 1 10 0 (first_call one_a_day 0) ltac:(lia) ltac:(lia)
    (rtc_refl _ _)) as [H _]. exact H.
Defined.

(** ** Shares of the rate *)

(** A split is only used if normalising it twice gives it back: one that adds up to 100
    without a critical share is raised to 101 by [NewQuotaLimiter], and [RPM], which
    normalises again, then uses the default split in its place. *)
Theorem critical_share_lost high normal low p total :
  high + normal + low = 100 →
  RPM (Normalize {| qs_Critical := 0; qs_High := high; qs_Normal := normal; qs_Low := low |}) total p
  = RPM DefaultQuotaSplit total p.
Proof.
  intros Hs. unfold RPM. f_equal.
  assert (Normalize {| qs_Critical := 0; qs_High := high; qs_Normal := normal; qs_Low := low |}
    = {| qs_Critical := 1; qs_High := high; qs_Normal := normal; qs_Low := low |}) as ->.
  { unfold Normalize. cbn [qs_Critical qs_High qs_Normal qs_Low].
    by rewrite (proj2 (Z.eqb_eq (0 + high + normal + low) 100)) by lia. }
  assert (Normalize {| qs_Critical := 1; qs_High := high; qs_Normal := normal; qs_Low := low |}
    = DefaultQuotaSplit) as ->; [|done].
  unfold Normalize. cbn [qs_Critical qs_High qs_Normal qs_Low].
  by rewrite (proj2 (Z.eqb_neq (1 + high + normal + low) 100)) by lia.
Qed.

Lemma critical_share_lost_witness :
  RPM (Normalize {| qs_Critical := 0; qs_High := 50; qs_Normal := 30; qs_Low := 20 |}) 20 PriorityHigh = 8.
Proof. rewrite (critical_share_lost 50 30 20 PriorityHigh 20); reflexivity. Defined.

(** ** Backoff *)

(** The backoff grows as written while it fits: with a positive base and cap, and as long
    as the next doubling fits in 64 bits, it is the base doubled at each attempt, raised to
    the server's Retry-After and cut at the cap; it is positive and never shrinks with the
    attempts. *)
Theorem backoff_bounds l attempt retryAfter :
  0 < ml_RetryBase l → 0 < ml_RetryMax l → ml_RetryBase l * 2 ^ Z.of_nat (S attempt) ≤ max_int64 →
  backoffDuration l attempt retryAfter
    = Z.min (ml_RetryMax l) (Z.max retryAfter (ml_RetryBase l * 2 ^ Z.of_nat attempt)) ∧
  backoffDuration l attempt retryAfter ≤ backoffDuration l (S attempt) retryAfter ≤ ml_RetryMax l ∧
  0 < backoffDuration l attempt retryAfter.
Proof.
  intros Hb Hm Hfit.
  assert (∀ k, (k ≤ S attempt)%nat → 0 < 2 ^ Z.of_nat k ≤ 2 ^ Z.of_nat (S attempt)) as Hpow.
  { intros k Hk. split; [lia|]. apply Z.pow_le_mono_r; lia. }
  assert (∀ k, (k ≤ S attempt)%nat → backoffDuration l k retryAfter
    = Z.min (ml_RetryMax l) (Z.max retryAfter (ml_RetryBase l * 2 ^ Z.of_nat k))) as E.
  { intros k Hk. specialize (Hpow k Hk). unfold backoffDuration, or_default, max_int64 in *.
    rewrite (proj2 (Z.leb_gt (ml_RetryBase l) 0)), (proj2 (Z.leb_gt (ml_RetryMax l) 0)) by done.
    rewrite (wrap64_small (2 ^ _)) by (unfold min_int64, max_int64; nia).
    rewrite wrap64_small by (unfold min_int64, max_int64; nia). cbv zeta.
    generalize (ml_RetryBase l * 2 ^ Z.of_nat k). intros d.
    destruct (Z.ltb_spec d retryAfter), (Z.ltb_spec (ml_RetryMax l) retryAfter),
      (Z.ltb_spec (ml_RetryMax l) d); lia. }
  rewrite !E by lia. pose proof (Hpow attempt ltac:(lia)).
  rewrite Nat2Z.inj_succ, Z.pow_succ_r in * by lia.
  assert (0 < ml_RetryBase l * 2 ^ Z.of_nat attempt) by nia. lia.
Qed.

Lemma backoff_bounds_witness :
  backoffDuration (LimitsForModel "gemini-2.5-flash") 3 0 = 16 * second.
Proof.
  destruct (backoff_bounds (LimitsForModel "gemini-2.5-flash") 3 0) as [E _];
    [vm_compute; reflexivity..|vm_compute; discriminate|]. rewrite E. vm_compute. reflexivity.
Defined.

Lemma wrap64_multiple k : wrap64 (2 ^ 64 * k) = 0.
Proof.
  unfold wrap64. rewrite Z.add_comm, Z.mul_comm, Z.mod_add by done.
  rewrite Z.mod_small; lia.
Qed.

Lemma wrap64_diff z : ∃ k, wrap64 z = z + 2 ^ 64 * k.
Proof.
  unfold wrap64. exists (- ((z + 2 ^ 63) / 2 ^ 64)).
  pose proof (Z.div_mod (z + 2 ^ 63) (2 ^ 64) ltac:(done)). lia.
Qed.

(** Past that the shift overflows: with the usual base of two seconds the wait after the
    34th attempt is the server's Retry-After alone, none without one, and so it is after
    the 55th and every later one, whatever the cap. *)
Theorem backoff_collapses l attempt :
  ml_RetryBase l = 2 * second → 0 < ml_RetryMax l → attempt = 33%nat ∨ (54 ≤ attempt)%nat →
  backoffDuration l attempt 0 = 0.
Proof.
  intros Hb Hm Ha. unfold backoffDuration, or_default. rewrite Hb.
  rewrite (proj2 (Z.leb_gt (ml_RetryMax l) 0)) by done. change (2 * second <=? 0) with false. cbv iota.
  assert (wrap64 (2 * second * wrap64 (2 ^ Z.of_nat attempt)) ≤ 0) as Hd.
  { destruct Ha as [->|Ha]; [by vm_compute|].
    destruct (wrap64_diff (2 ^ Z.of_nat attempt)) as [k ->].
    replace (2 * second * (2 ^ Z.of_nat attempt + 2 ^ 64 * k))
      with (2 ^ 64 * (1953125 * 2 ^ (Z.of_nat attempt - 54) + 2 * second * k)).
    { by rewrite wrap64_multiple. }
    replace (2 ^ Z.of_nat attempt) with (2 ^ (54 + (Z.of_nat attempt - 54))) by (f_equal; lia).
    rewrite Z.pow_add_r by lia. unfold second, millisecond. lia. }
  cbv zeta. revert Hd. generalize (wrap64 (2 * second * wrap64 (2 ^ Z.of_nat attempt))). intros d Hd.
  destruct (Z.ltb_spec d 0), (Z.ltb_spec (ml_RetryMax l) 0), (Z.ltb_spec (ml_RetryMax l) d); lia.
Qed.

Lemma backoff_collapses_witness : backoffDuration (LimitsForModel "gemini-2.5-flash") 60 0 = 0.
Proof. apply backoff_collapses; [reflexivity|reflexivity|right; lia]. Defined.

(** ** Attempts *)

Section attempts.
Context `{ErrorLib} (l : ModelLimits) (waitQuota : nat → option call_error)
  (postOnce : nat → reply) (sleep : nat → Duration → bool).

(** The attempt ends the call: it succeeded or its error is not worth a retry. *)
Definition final (attempt : nat) : bool :=
  success (postOnce attempt) || negb (retryableError (reply_error (postOnce attempt))).

Definition outcome_of (attempt : nat) : string + call_error :=
  if success (postOnce attempt) then inl (rp_body (postOnce attempt))
  else inr (reply_error (postOnce attempt)).

Lemma post_from_final attempt left k :
  (k ≤ left)%nat → (∀ j, waitQuota j = None) → (∀ j d, sleep j d = true) →
  (∀ j, (j < k)%nat → final (attempt + j) = false) →
  k = left ∨ final (attempt + k) = true →
  post_from l waitQuota postOnce sleep attempt left = (outcome_of (attempt + k), S k).
Proof.
  intros Hk Hw Hs. revert attempt k Hk. induction left as [|left IH]; intros attempt k Hk Hf Hend;
    cbn [post_from]; rewrite Hw; unfold outcome_of.
  - assert (k = O) as -> by lia. rewrite Nat.add_0_r. by destruct (success _).
  - destruct k as [|k].
    + rewrite Nat.add_0_r in *. destruct Hend as [|Hfin]; [done|]. unfold final in Hfin.
      destruct (success (postOnce attempt)); [done|]. simpl in Hfin. by rewrite Hfin.
    + pose proof (Hf O ltac:(lia)) as H0. rewrite Nat.add_0_r in H0. unfold final in H0.
      apply orb_false_iff in H0 as [-> ->]. rewrite Hs.
      rewrite (IH (S attempt) k); [|lia| |].
      * unfold outcome_of. by rewrite Nat.add_succ_r.
      * intros j Hj. rewrite Nat.add_succ_comm. apply Hf. lia.
      * rewrite Nat.add_succ_comm. destruct Hend; [left; lia|by right].
Qed.

(** A call of the model stops at the first attempt that succeeds or fails for good, and at
    the latest at attempt [MaxRetries + 1]: when quota and context allow, it sends exactly
    that many requests and answers with the last one's body or error. *)
Theorem postWithQuota_attempts k :
  0 ≤ ml_MaxRetries l → Z.of_nat k ≤ ml_MaxRetries l →
  (∀ j, waitQuota j = None) → (∀ j d, sleep j d = true) →
  (∀ j, (j < k)%nat → final j = false) → Z.of_nat k = ml_MaxRetries l ∨ final k = true →
  postWithQuota l waitQuota postOnce sleep = (outcome_of k, S k).
Proof.
  intros Hm Hk Hw Hs Hf Hend. unfold postWithQuota.
  rewrite (proj2 (Z.leb_gt (ml_MaxRetries l + 1) 0)) by lia.
  rewrite Z.add_simpl_r. apply (post_from_final 0); [lia|done..|].
  destruct Hend; [left; lia|by right].
Qed.

(** The error of the transport never reaches the caller: [parseAPIError] is never nil, so
    a request that could not be sent at all comes back as an API error of HTTP status 0 with
    an empty message, and is not retried. *)
Theorem transport_error_masked attempt left message :
  waitQuota attempt = None → error_object estr = None →
  postOnce attempt = {| rp_body := estr; rp_status := 0; rp_retryAfter := 0;
                        rp_err := Some (ErrOther message) |} →
  post_from l waitQuota postOnce sleep attempt left
  = (inr (ErrAPI {| ae_Code := 0; ae_Status := estr; ae_Message := estr; ae_RetryAfter := 0 |}), 1%nat).
Proof.
  intros Hw He Hp. destruct left; cbn [post_from]; rewrite Hw, Hp; unfold reply_error, parseAPIError;
    cbn [success rp_err rp_status rp_body rp_retryAfter]; by rewrite He.
Qed.
End attempts.

#[local] Instance no_object : ErrorLib := {| error_object := λ _, None |}.

Lemma postWithQuota_attempts_witness :
  postWithQuota (LimitsForModel "gemini-2.5-pro") (λ _, None)
    (λ j, {| rp_body := "ok"; rp_status := if Nat.ltb j 2 then 503 else 200; rp_retryAfter := 0;
             rp_err := if Nat.ltb j 2 then Some (ErrOther "unavailable") else None |}) (λ _ _, true)
  = (inl "ok", 3%nat).
Proof.
  rewrite (postWithQuota_attempts _ _ _ _ 2); [reflexivity|vm_compute; discriminate|vm_compute; discriminate
    |reflexivity|reflexivity| |right; reflexivity].
  intros [|[|j]] Hj; [reflexivity|reflexivity|lia].
Defined.

Lemma transport_error_masked_witness :
  post_from (LimitsForModel "gemini-2.5-pro") (λ _, None)
    (λ _, {| rp_body := estr; rp_status := 0; rp_retryAfter := 0;
             rp_err := Some (ErrOther "dial tcp: 503 proxy") |}) (λ _ _, true) 0 3
  = (inr (ErrAPI {| ae_Code := 0; ae_Status := estr; ae_Message := estr; ae_RetryAfter := 0 |}), 1%nat).
Proof. apply (transport_error_masked _ _ _ _ _ _ "dial tcp: 503 proxy"); reflexivity. Defined.
