(* ===== verification/ProxyBudget.v ===== *)
(** The daily budget of the proxy ([internal/proxybudget/]: governor.go, skip.go): the
    governor, and how far fetches in flight can exceed the cap.

    The formatting of a day is a parameter.  A write of the state file may succeed, leave
    the file as it was, or leave something that does not parse.  Each method holds the
    mutex; a fetch asks [Allow] before and calls [Record] after it. *)
From S2P Require Import Prelude Unicode GoStrings.

Local Open Scope Z_scope.

Class DayLib := { FormatDay : Time → string }.

Record stateFile := { sf_Day : string; sf_Bytes : Z }.
Record Governor := { gv_capMB : Z; gv_capBytes : Z; gv_state : stateFile }.

Inductive write_outcome := Written | Untouched | Torn.

Definition with_bytes (g : Governor) (st : stateFile) : Governor :=
  {| gv_capMB := gv_capMB g; gv_capBytes := gv_capBytes g; gv_state := st |}.

Definition Enabled (g : option Governor) : bool :=
  match g with None => false | Some g => 0 <? gv_capBytes g end.

Definition CapBytes (g : option Governor) : Z :=
  match g with None => 0 | Some g => gv_capBytes g end.

Section governor.
Context `{DayLib}.

(** The file is [None] when it is missing or does not parse. *)
Definition loadState (file : option stateFile) (now : Time) : stateFile :=
  let st := {| sf_Day := FormatDay now; sf_Bytes := 0 |} in
  match file with
  | None => st
  | Some loaded =>
      if negb (String.eqb (sf_Day loaded) (sf_Day st)) then st
      else {| sf_Day := sf_Day loaded; sf_Bytes := if sf_Bytes loaded <? 0 then 0 else sf_Bytes loaded |}
  end.

(** [int64(dailyCapMB) * 1024 * 1024]. *)
Definition Configure (dailyCapMB : Z) (file : option stateFile) (now : Time) : Governor :=
  if 0 <? dailyCapMB
  then {| gv_capMB := dailyCapMB; gv_capBytes := wrap64 (wrap64 (dailyCapMB * 1024) * 1024);
          gv_state := loadState file now |}
  else {| gv_capMB := dailyCapMB; gv_capBytes := 0;
          gv_state := {| sf_Day := estr; sf_Bytes := 0 |} |}.

Definition resetIfNewDay (g : Governor) (now : Time) : Governor :=
  if String.eqb (sf_Day (gv_state g)) (FormatDay now) then g
  else with_bytes g {| sf_Day := FormatDay now; sf_Bytes := 0 |}.

Definition persist (w : write_outcome) (st : stateFile) (file : option stateFile) : option stateFile :=
  match w with Written => Some st | Untouched => file | Torn => None end.

Definition Allow (g : Governor) (now : Time) : Governor * bool :=
  if negb (Enabled (Some g)) then (g, true)
  else let g := resetIfNewDay g now in (g, sf_Bytes (gv_state g) <? gv_capBytes g).

Definition Record_bytes (g : Governor) (n : Z) (now : Time) (w : write_outcome)
    (file : option stateFile) : Governor * option stateFile :=
  if negb (Enabled (Some g)) || (n <=? 0) then (g, file)
  else
    let g := resetIfNewDay g now in
    let st := {| sf_Day := sf_Day (gv_state g); sf_Bytes := wrap64 (sf_Bytes (gv_state g) + n) |} in
    (with_bytes g st, persist w st file).

Definition UsedBytes (g : Governor) (now : Time) : Governor * Z :=
  if negb (Enabled (Some g)) then (g, 0)
  else let g := resetIfNewDay g now in (g, sf_Bytes (gv_state g)).

(** [ShouldSkipProxySource], with [Current()]. *)
Definition ShouldSkipProxySource (g : option Governor) (usesProxy : bool) (now : Time)
    : option Governor * bool * string :=
  if negb usesProxy then (g, false, estr)
  else match g with
       | None => (None, false, estr)
       | Some g =>
           if negb (Enabled (Some g)) then (Some g, false, estr)
           else match Allow g now with
                | (g, true) => (Some g, false, estr)
                | (g, false) => (Some g, true, "proxy_daily_budget_exceeded")
                end
       end.

(** ** Fetches in flight *)

Record traffic := {
  tr_governor : Governor; tr_file : option stateFile; tr_flight : nat }.

(** At most [fetchers] fetches at once of at most [most] bytes each; the clock may stand
    anywhere at each step. *)
Inductive fetch_step (capMB : Z) (fetchers : nat) (most : Z) : traffic → traffic → Prop :=
  | fetch_admitted t g now :
      ShouldSkipProxySource (Some (tr_governor t)) true now = (Some g, false, estr) →
      (tr_flight t < fetchers)%nat →
      fetch_step capMB fetchers most t
        {| tr_governor := g; tr_file := tr_file t; tr_flight := S (tr_flight t) |}
  | fetch_skipped t g now why :
      ShouldSkipProxySource (Some (tr_governor t)) true now = (Some g, true, why) →
      fetch_step capMB fetchers most t
        {| tr_governor := g; tr_file := tr_file t; tr_flight := tr_flight t |}
  | fetch_recorded t n now w k g file :
      tr_flight t = S k → n ≤ most →
      Record_bytes (tr_governor t) n now w (tr_file t) = (g, file) →
      fetch_step capMB fetchers most t {| tr_governor := g; tr_file := file; tr_flight := k |}
  | fetch_failed t k :
      tr_flight t = S k →
      fetch_step capMB fetchers most t
        {| tr_governor := tr_governor t; tr_file := tr_file t; tr_flight := k |}
  | fetch_restart t now :
      fetch_step capMB fetchers most t
        {| tr_governor := Configure capMB (tr_file t) now; tr_file := tr_file t; tr_flight := O |}.

Definition first_run (capMB : Z) (now : Time) : traffic :=
  {| tr_governor := Configure capMB None now; tr_file := None; tr_flight := O |}.

(** ** The bound *)

Lemma cap_exact capMB : 0 < capMB < 2 ^ 43 → gv_capBytes (Configure capMB None 0) = capMB * 1048576.
Proof.
  intros Hc. unfold Configure. rewrite (proj2 (Z.ltb_lt _ _)) by lia. simpl.
  rewrite (wrap64_small (capMB * 1024)) by (unfold min_int64, max_int64; lia).
  rewrite wrap64_small by (unfold min_int64, max_int64; lia). lia.
Qed.

Lemma Configure_cap capMB file file' now now' :
  gv_capBytes (Configure capMB file now) = gv_capBytes (Configure capMB file' now').
Proof. unfold Configure. by destruct (0 <? capMB). Qed.

Section bound.
Variables (capMB : Z) (fetchers : nat) (most : Z).
Hypotheses (Hcap : 0 < capMB < 2 ^ 43) (Hmost : 0 ≤ most).

Definition cap : Z := capMB * 1048576.
Definition limit : Z := cap - 1 + Z.of_nat fetchers * most.
Hypothesis Hlimit : limit ≤ max_int64.

(** What the state can reach, with the fetches in flight. *)
Record budget_inv (t : traffic) : Prop := {
  bi_cap : gv_capBytes (tr_governor t) = cap;
  bi_flight : (tr_flight t ≤ fetchers)%nat;
  bi_bytes : 0 ≤ sf_Bytes (gv_state (tr_governor t));
  bi_bound : sf_Bytes (gv_state (tr_governor t)) + Z.of_nat (tr_flight t) * most ≤ limit;
  bi_file : ∀ st, tr_file t = Some st → sf_Bytes st ≤ limit }.

Lemma enabled_cap g : gv_capBytes g = cap → Enabled (Some g) = true.
Proof. intros E. simpl. rewrite E. apply Z.ltb_lt. unfold cap. lia. Qed.

Lemma reset_bytes g now :
  gv_capBytes (resetIfNewDay g now) = gv_capBytes g ∧
  (sf_Bytes (gv_state (resetIfNewDay g now)) = sf_Bytes (gv_state g)
   ∨ sf_Bytes (gv_state (resetIfNewDay g now)) = 0).
Proof. unfold resetIfNewDay. destruct (String.eqb _ _); simpl; auto. Qed.

Lemma Allow_state g now :
  gv_capBytes g = cap → (Allow g now).1 = resetIfNewDay g now
  ∧ ((Allow g now).2 = true ↔ sf_Bytes (gv_state (resetIfNewDay g now)) < cap).
Proof.
  intros E. unfold Allow. rewrite enabled_cap by done. simpl. split; [done|].
  rewrite (proj1 (reset_bytes g now)), E. apply Z.ltb_lt.
Qed.

Lemma skip_state g now g' skip why :
  gv_capBytes g = cap → ShouldSkipProxySource (Some g) true now = (Some g', skip, why) →
  g' = resetIfNewDay g now ∧ (skip = false → sf_Bytes (gv_state g') < cap).
Proof.
  intros E. unfold ShouldSkipProxySource. simpl (negb true). cbv iota. rewrite enabled_cap by done.
  cbn [negb]. destruct (Allow_state g now E) as [E1 E2].
  destruct (Allow g now) as [g1 ok]. simpl in E1, E2. subst g1.
  destruct ok; intros [= <- <- <-]; (split; [done|]); [intros _; by apply E2|done].
Qed.

Lemma budget_start now : budget_inv (first_run capMB now).
Proof.
  assert (gv_state (Configure capMB None now) = {| sf_Day := FormatDay now; sf_Bytes := 0 |}) as E.
  { unfold Configure. by rewrite (proj2 (Z.ltb_lt _ _)) by lia. }
  split; cbn [first_run tr_governor tr_file tr_flight]; rewrite ?E; cbn [sf_Bytes];
    [|lia|done| |done].
  - rewrite (Configure_cap capMB None None now 0). by apply cap_exact.
  - unfold limit, cap. nia.
Qed.

Lemma budget_step t t' : budget_inv t → fetch_step capMB fetchers most t t' → budget_inv t'.
Proof.
  intros [Hc Hf Hb Hbd Hfile] Hs.
  destruct Hs as [t g now Hskip Hlt|t g now why Hskip|t n now w k g file Hk Hn Hrec|t k Hk|t now].
  - apply skip_state in Hskip as [-> Hlow]; [|done]. specialize (Hlow eq_refl).
    destruct (reset_bytes (tr_governor t) now) as [Ec Eb].
    split; cbn [tr_governor tr_flight tr_file]; [by rewrite Ec|lia|lia| |done]. unfold limit. nia.
  - apply skip_state in Hskip as [-> _]; [|done].
    destruct (reset_bytes (tr_governor t) now) as [Ec Eb].
    split; cbn [tr_governor tr_flight tr_file]; [by rewrite Ec|lia|lia|nia|done].
  - rewrite Hk in *. assert (0 ≤ Z.of_nat k * most) by nia.
    rewrite Nat2Z.inj_succ, Z.mul_succ_l in Hbd. unfold Record_bytes in Hrec. rewrite enabled_cap in Hrec by done.
    cbn [negb orb] in Hrec. destruct (Z.leb_spec n 0) as [Hle|Hpos]; injection Hrec as <- <-.
    { split; cbn [tr_governor tr_flight tr_file]; [done|lia|done|nia|done]. }
    destruct (reset_bytes (tr_governor t) now) as [Ec Eb].
    assert (wrap64 (sf_Bytes (gv_state (resetIfNewDay (tr_governor t) now)) + n)
      = sf_Bytes (gv_state (resetIfNewDay (tr_governor t) now)) + n) as Ew.
    { apply wrap64_small. unfold min_int64. split; [lia|]. etrans; [|exact Hlimit]. lia. }
    split; cbn [tr_governor tr_flight tr_file with_bytes gv_capBytes gv_state sf_Bytes]; rewrite ?Ew;
      [by rewrite Ec|lia|lia|nia|].
    intros st. destruct w; simpl; [|apply Hfile|done]. intros [= <-]. cbn [sf_Bytes]. lia.
  - rewrite Hk in *. split; cbn [tr_governor tr_flight tr_file]; [done|lia|done|nia|done].
  - assert (0 ≤ limit) by (unfold limit, cap; nia).
    assert (gv_state (Configure capMB (tr_file t) now) = loadState (tr_file t) now) as El
      by (unfold Configure; by rewrite (proj2 (Z.ltb_lt _ _)) by lia).
    split; cbn [tr_governor tr_flight tr_file]; rewrite ?El; [|lia| | |done].
    + rewrite (Configure_cap capMB _ None now 0). by apply cap_exact.
    + unfold loadState. destruct (tr_file t) as [st|]; [|done]. destruct (negb _); [done|]. simpl.
      z_cases; lia.
    + unfold loadState. destruct (tr_file t) as [st|]; [|simpl; lia]. destruct (negb _); [simpl; lia|].
      specialize (Hfile st eq_refl). simpl. z_cases; lia.
Qed.

(** The proxy stays within its budget up to the fetches in flight.  With at most [fetchers]
    fetches at once of at most [most] bytes, the recorded bytes of a day never exceed the cap
    by more than [fetchers * most], through day changes, failed or torn writes and restarts;
    and the next fetch is skipped exactly when the bytes of the day have reached the cap. *)
Theorem proxy_budget_bound start t now :
  rtc (fetch_step capMB fetchers most) (first_run capMB start) t →
  sf_Bytes (gv_state (tr_governor t)) < capMB * 1048576 + Z.of_nat fetchers * most ∧
  ((ShouldSkipProxySource (Some (tr_governor t)) true now).1.2 = true ↔
   sf_Day (gv_state (tr_governor t)) = FormatDay now
   ∧ capMB * 1048576 ≤ sf_Bytes (gv_state (tr_governor t))).
Proof.
  intros Hr. assert (budget_inv t) as [Hc Hf Hb Hbd _].
  { revert Hr. apply (rtc_ind_r budget_inv); [apply budget_start|].
    intros t1 t2 _ Hs Hi. by eapply budget_step. }
  split; [unfold limit, cap in *; nia|].
  unfold ShouldSkipProxySource. cbn [negb]. rewrite enabled_cap by done. cbn [negb].
  destruct (Allow_state (tr_governor t) now Hc) as [E1 E2].
  destruct (Allow (tr_governor t) now) as [g ok]. simpl in E1, E2. subst g.
  assert (0 < cap) by (unfold cap; lia). unfold resetIfNewDay in E2.
  destruct (String.eqb_spec (sf_Day (gv_state (tr_governor t))) (FormatDay now)) as [Ed|Ed];
    unfold cap in *; destruct ok; simpl in *.
  - assert (sf_Bytes (gv_state (tr_governor t)) < capMB * 1048576) by (by apply E2).
    split; [done|]. lia.
  - split; [|done]. intros _. split; [done|]. destruct (Z.lt_ge_cases (sf_Bytes (gv_state (tr_governor t))) (capMB * 1048576)) as [Hlt|]; [|done].
    by apply E2 in Hlt.
  - split; [done|]. by intros [].
  - split; [|by intros []]. intros _. assert (false = true) by (apply E2; lia). done.
Qed.
End bound.
End governor.

#[local] Instance one_day : DayLib := {| FormatDay := λ _, "2026-01-01" |}.

Lemma proxy_budget_bound_witness :
  (ShouldSkipProxySource (Some (tr_governor (first_run 500 0))) true 0).1.2 = true ↔
  sf_Day (gv_state (tr_governor (first_run 500 0))) = "2026-01-01"
  ∧ 500 * 1048576 ≤ sf_Bytes (gv_state (tr_governor (first_run 500 0))).
Proof.
  exact (proj2 (proxy_budget_bound 500 8 4194304 ltac:(lia) ltac:(lia)
    ltac:(vm_compute; discriminate) 0 (first_run 500 0) 0 (rtc_refl _ _))).
Defined.
