(* ===== verification/SourceDisable.v ===== *)
(** The list of disabled crawl families ([internal/sourcedisable/governor.go]).

    The file is the list of its sources; [None] when it is missing or does not parse, which
    [Load] reads as the empty set.  [Save] writes a set in the order a [range] visits it,
    the parameter [visit]; a write succeeds, leaves the file, or tears it. *)
From S2P Require Import Prelude Unicode GoStrings Utf8Facts TextFacts ProxyBudget.

Local Open Scope Z_scope.

Record SourceStats := { ss_Source : string; ss_Accepted : Z; ss_Junk : Z }.

Definition noisy_family (family : string) : bool := mem family ["lander"; "github"; "webpain"].

Definition MinRawForFamily (family : string) (defaultMin : Z) : Z :=
  if noisy_family (ToLower (TrimSpace family)) && (40 <? defaultMin) then 40
  else if HasPrefix (ToLower family) "telegram:invite" && (40 <? defaultMin) then 40
  else defaultMin.

Definition useless (minRaw : Z) (doc : SourceStats) : bool :=
  negb (String.eqb (TrimSpace (ss_Source doc)) estr)
  && negb ((ss_Accepted doc + ss_Junk doc <? MinRawForFamily (TrimSpace (ss_Source doc)) minRaw)
           || (0 <? ss_Accepted doc)).

Definition Evaluate (stats : list SourceStats) (minRaw : Z) : list string :=
  let minRaw := if minRaw <=? 0 then 100 else minRaw in
  (λ doc, TrimSpace (ss_Source doc)) <$> List.filter (useless minRaw) stats.

Definition Load (file : option (list string)) : gset string :=
  list_to_set (List.filter (λ s, negb (String.eqb s estr)) (TrimSpace <$> default [] file)).

Definition Save (visit : gset string → list string) (w : write_outcome) (disabled : list string)
    (file : option (list string)) : option (list string) :=
  match w with
  | Written => Some (visit (Load file ∪ list_to_set (TrimSpace <$> disabled)))
  | Untouched => file
  | Torn => None
  end.

(** A key stops a source: itself or one of its sub-sources. *)
Definition stops (source key : string) : bool :=
  let key := ToLower key in String.eqb source key || HasPrefix source (key +:+ ":").

Definition IsDisabled (file : option (list string)) (source : string) : bool :=
  let source := ToLower (TrimSpace source) in
  if String.eqb source estr then false
  else existsb (stops source) (elements (Load file)).

(** ** Facts *)

Lemma Load_elem file key :
  key ∈ Load file ↔ key ≠ estr ∧ ∃ s, s ∈ default [] file ∧ key = TrimSpace s.
Proof.
  unfold Load. rewrite elem_of_list_to_set, list_elem_of_In, filter_In, <- list_elem_of_In.
  rewrite list_elem_of_fmap, negb_true_iff, String.eqb_neq. naive_solver.
Qed.

Lemma Load_Save visit disabled file key :
  (∀ X, visit X ≡ₚ elements X) →
  key ∈ Load (Save visit Written disabled file) ↔
  key ∈ Load file ∨ key ≠ estr ∧ ∃ s, s ∈ disabled ∧ key = TrimSpace s.
Proof.
  intros Hv. unfold Save. rewrite (Load_elem (Some _)). cbn [default from_option id].
  assert (∀ s, s ∈ visit (Load file ∪ list_to_set (TrimSpace <$> disabled)) ↔
    s ∈ Load file ∨ ∃ s0, s = TrimSpace s0 ∧ s0 ∈ disabled) as Hvis.
  { intros s. rewrite Hv, elem_of_elements, elem_of_union.
    rewrite (elem_of_list_to_set s (TrimSpace <$> disabled)). by rewrite list_elem_of_fmap. }
  setoid_rewrite Hvis. rewrite Load_elem. split.
  - intros (Hn & s & [Hs|(s0 & -> & Hs)] & ->).
    + left. split; [done|]. apply Load_elem in Hs as (_ & s1 & Hs1 & ->).
      exists s1. by rewrite TrimSpace_idemp.
    + right. split; [done|]. exists s0. by rewrite TrimSpace_idemp.
  - intros [(Hn & s & Hs & ->)|(Hn & s & Hs & ->)]; (split; [done|]); exists (TrimSpace s);
      rewrite TrimSpace_idemp; (split; [|done]).
    + left. apply Load_elem. eauto.
    + right. eauto.
Qed.

Lemma IsDisabled_spec file source :
  IsDisabled file source = true ↔
  ToLower (TrimSpace source) ≠ estr ∧
  ∃ key, key ∈ Load file ∧ stops (ToLower (TrimSpace source)) key = true.
Proof.
  unfold IsDisabled. destruct (String.eqb_spec (ToLower (TrimSpace source)) estr) as [E|E];
    [naive_solver|].
  rewrite existsb_exists. setoid_rewrite <- list_elem_of_In. setoid_rewrite elem_of_elements.
  naive_solver.
Qed.

(** A round of the source governor disables exactly what it should: after the families
    without an accepted lead and with enough junk are saved, a source is disabled if it was
    before, or if it belongs to a family whose statistics count no accepted lead and at
    least as many items as the family's bar, which is 40 at most for the noisy ones; a
    family with an accepted lead adds nothing. *)
Theorem governor_disables visit stats minRaw file source :
  (∀ X, visit X ≡ₚ elements X) → 0 < minRaw →
  IsDisabled (Save visit Written (Evaluate stats minRaw) file) source = true ↔
  IsDisabled file source = true ∨
  ToLower (TrimSpace source) ≠ estr ∧
  ∃ doc, doc ∈ stats ∧ TrimSpace (ss_Source doc) ≠ estr ∧ ss_Accepted doc ≤ 0 ∧
    MinRawForFamily (TrimSpace (ss_Source doc)) minRaw ≤ ss_Accepted doc + ss_Junk doc ∧
    stops (ToLower (TrimSpace source)) (TrimSpace (ss_Source doc)) = true.
Proof.
  intros Hv Hm. rewrite !IsDisabled_spec. setoid_rewrite Load_Save; [|done].
  assert (∀ s, s ∈ Evaluate stats minRaw ↔ ∃ doc, doc ∈ stats ∧ s = TrimSpace (ss_Source doc) ∧
    s ≠ estr ∧ ss_Accepted doc ≤ 0 ∧
    MinRawForFamily s minRaw ≤ ss_Accepted doc + ss_Junk doc) as He.
  { intros s. unfold Evaluate. rewrite (proj2 (Z.leb_gt minRaw 0)) by lia.
    rewrite list_elem_of_fmap. setoid_rewrite list_elem_of_In. setoid_rewrite filter_In.
    unfold useless. split.
    - intros (doc & -> & Hin & Hu). exists doc. rewrite !andb_true_iff, !negb_true_iff in Hu.
      rewrite orb_false_iff, String.eqb_neq, !Z.ltb_ge in Hu. tauto.
    - intros (doc & Hin & -> & Hn & Ha & Hr). exists doc. split; [done|]. split; [done|].
      rewrite !andb_true_iff, !negb_true_iff, orb_false_iff, String.eqb_neq, !Z.ltb_ge. tauto. }
  split.
  - intros (Hn & key & [Hk|(Hkn & s & Hs & ->)] & Hst); [left; eauto|]. right. split; [done|].
    apply He in Hs as (doc & Hin & -> & Hsn & Ha & Hr). rewrite TrimSpace_idemp in *. eauto 8.
  - intros [(Hn & key & Hk & Hst)|(Hn & doc & Hin & Hdn & Ha & Hr & Hst)]; (split; [done|]).
    + eauto.
    + exists (TrimSpace (ss_Source doc)). split; [|done]. right. split; [done|].
      exists (TrimSpace (ss_Source doc)). rewrite TrimSpace_idemp. split; [|done].
      apply He. eauto 8.
Qed.

Lemma governor_disables_witness :
  IsDisabled (Save elements Written
    (Evaluate [{| ss_Source := "forum"; ss_Accepted := 0; ss_Junk := 150 |}] 100) None)
    "Forum:affiliatefix.com" = true.
Proof.
  apply (governor_disables elements); [intros X; reflexivity|reflexivity|]. right.
  split; [vm_compute; discriminate|]. eexists. split; [apply list_elem_of_singleton; reflexivity|].
  split; [vm_compute; discriminate|]. split; [vm_compute; discriminate|].
  split; [vm_compute; discriminate|vm_compute; reflexivity].
Defined.
