(* ===== verification/DorkDisable.v ===== *)
(** The list of disabled search queries ([internal/dorkdisable/dorkdisable.go]), kept as
    that of the disabled sources: the file is the list of its queries, [None] when it is
    missing or does not parse. *)
From S2P Require Import Prelude Unicode GoStrings Utf8Facts TextFacts ProxyBudget.

Local Open Scope Z_scope.

Definition normalizeDorkKey (dork : string) : string := ToLower (TrimSpace dork).

Definition keys_of (dorks : list string) : gset string :=
  list_to_set (List.filter (λ k, negb (String.eqb k estr)) (normalizeDorkKey <$> dorks)).

Definition Load (file : option (list string)) : gset string := keys_of (default [] file).

Definition Save (visit : gset string → list string) (w : write_outcome) (disabled : list string)
    (file : option (list string)) : option (list string) :=
  match w with
  | Written => Some (visit (Load file ∪ keys_of disabled))
  | Untouched => file
  | Torn => None
  end.

Definition IsDisabled (file : option (list string)) (dork : string) : bool :=
  let key := normalizeDorkKey dork in
  if String.eqb key estr then false else bool_decide (key ∈ Load file).

Definition CountDisabled (file : option (list string)) : nat := size (Load file).

(** The early returns hand back the list as it is. *)
Definition FilterActiveDorks (file : option (list string)) (dorks : list string) : list string :=
  match dorks with
  | [] => []
  | _ => if Nat.eqb (size (Load file)) 0 then dorks
         else List.filter (λ d, negb (bool_decide (normalizeDorkKey d ∈ Load file))) dorks
  end.

Lemma keys_of_elem dorks key :
  key ∈ keys_of dorks ↔ key ≠ estr ∧ ∃ d, d ∈ dorks ∧ key = normalizeDorkKey d.
Proof.
  unfold keys_of. rewrite elem_of_list_to_set, list_elem_of_In, filter_In, <- list_elem_of_In.
  rewrite list_elem_of_fmap, negb_true_iff, String.eqb_neq. naive_solver.
Qed.

Lemma normalizeDorkKey_idemp d : normalizeDorkKey (normalizeDorkKey d) = normalizeDorkKey d.
Proof. apply lower_trim_idemp. Qed.

Lemma Load_Save_dorks visit disabled file :
  (∀ X, visit X ≡ₚ elements X) → Load (Save visit Written disabled file) = Load file ∪ keys_of disabled.
Proof.
  intros Hv. apply set_eq. intros key. unfold Save, Load at 1. cbn [default from_option id].
  rewrite keys_of_elem. setoid_rewrite (Hv _). setoid_rewrite elem_of_elements.
  assert (∀ k, k ∈ Load file ∪ keys_of disabled → k ≠ estr ∧ k = normalizeDorkKey k) as Hk.
  { intros k. rewrite elem_of_union. unfold Load. rewrite !keys_of_elem.
    intros [(Hn & d & _ & ->)|(Hn & d & _ & ->)]; by rewrite normalizeDorkKey_idemp. }
  split.
  - intros (Hn & d & Hd & ->). by rewrite <- (proj2 (Hk d Hd)).
  - intros Hin. destruct (Hk key Hin). eauto.
Qed.

Lemma FilterActiveDorks_filter file dorks :
  FilterActiveDorks file dorks
  = List.filter (λ d, negb (bool_decide (normalizeDorkKey d ∈ Load file))) dorks.
Proof.
  unfold FilterActiveDorks. destruct dorks as [|d0 rest]; [done|].
  destruct (Nat.eqb_spec (size (Load file)) 0) as [E|_]; [|done].
  apply size_empty_inv in E. generalize (d0 :: rest). intros l. symmetry.
  induction l as [|d l IH]; [done|]. cbn [List.filter].
  rewrite bool_decide_false by (rewrite E; set_solver). simpl. by rewrite IH.
Qed.

Lemma filter_filter {A} (f g : A → bool) l :
  List.filter f (List.filter g l) = List.filter (λ x, g x && f x) l.
Proof. induction l as [|x l IH]; simpl; [done|]. destruct (g x); simpl; by rewrite IH. Qed.

(** The harvest runs the queries that are not disabled, in order: filtering a list keeps
    exactly those [IsDisabled] does not report, and after a save those that were kept
    before and whose key is not among the new ones; the count grows by the new keys. *)
Theorem FilterActiveDorks_after_save visit disabled file dorks :
  (∀ X, visit X ≡ₚ elements X) →
  let saved := Save visit Written disabled file in
  FilterActiveDorks saved dorks = List.filter (λ d, negb (IsDisabled saved d)) dorks ∧
  FilterActiveDorks saved dorks
    = List.filter (λ d, negb (bool_decide (normalizeDorkKey d ∈ keys_of disabled)))
        (FilterActiveDorks file dorks) ∧
  CountDisabled saved = (CountDisabled file + size (keys_of disabled ∖ Load file))%nat.
Proof.
  intros Hv saved. rewrite !FilterActiveDorks_filter. split; [|split].
  - apply filter_ext. intros d. f_equal. unfold IsDisabled.
    destruct (String.eqb_spec (normalizeDorkKey d) estr) as [E|]; [|done].
    apply bool_decide_false. rewrite E. unfold Load. rewrite keys_of_elem. naive_solver.
  - rewrite filter_filter. apply filter_ext. intros d. unfold saved. rewrite Load_Save_dorks by done.
    rewrite <- negb_orb. f_equal. rewrite <- bool_decide_or. apply bool_decide_ext.
    apply elem_of_union.
  - unfold CountDisabled, saved. rewrite Load_Save_dorks by done.
    rewrite <- size_union by set_solver. f_equal. apply set_eq. intros k.
    destruct (decide (k ∈ Load file)); set_solver.
Qed.

Lemma FilterActiveDorks_after_save_witness :
  FilterActiveDorks (Save elements Written ["site:t.me JUNK "] None) ["site:t.me good"; "Site:t.me junk"]
  = ["site:t.me good"].
Proof.
  rewrite (proj1 (FilterActiveDorks_after_save elements ["site:t.me JUNK "] None
    ["site:t.me good"; "Site:t.me junk"] (λ X, reflexivity _))). vm_compute. reflexivity.
Defined.
