(* ===== verification/Queues.v ===== *)
(** Bounded queues of events ([internal/queue/capturer.go]) and batches flushed by size or
    by time ([internal/batch/]).

    The buffered channel of a capturer is the list of its events; its other end receives
    from the front.  A batch loop is the sequence of the cases its [select] takes. *)
From S2P Require Import Prelude Unicode GoStrings.

Local Open Scope Z_scope.

(** ** Capturers *)

Section capturer.
Context {T : Type}.

Record Capturer := {
  cp_name : string; cp_buffer : nat; cp_prep : option (T → T); cp_ch : list T; cp_dropped : Z }.

Definition NewCapturer (name : string) (buffer defaultBuffer : Z) (prep : option (T → T)) : Capturer := {|
  cp_name := name; cp_buffer := Z.to_nat (if buffer <=? 0 then defaultBuffer else buffer);
  cp_prep := prep; cp_ch := []; cp_dropped := 0 |}.

Definition Dropped (c : option Capturer) : Z := match c with None => 0 | Some c => cp_dropped c end.

Definition prepared (c : Capturer) (ev : T) : T :=
  match cp_prep c with Some prep => prep ev | None => ev end.

Definition with_channel (c : Capturer) (ch : list T) (dropped : Z) : Capturer := {|
  cp_name := cp_name c; cp_buffer := cp_buffer c; cp_prep := cp_prep c;
  cp_ch := ch; cp_dropped := dropped |}.

(** The send goes through while the buffer has room. *)
Definition TryCapture (c : Capturer) (ev : T) : Capturer :=
  if Nat.ltb (length (cp_ch c)) (cp_buffer c)
  then with_channel c (cp_ch c ++ [prepared c ev]) (cp_dropped c)
  else with_channel c (cp_ch c) (cp_dropped c + 1).

(** A receive of the other end, with what it got. *)
Definition receive (c : Capturer) : Capturer * list T :=
  match cp_ch c with
  | [] => (c, [])
  | ev :: rest => (with_channel c rest (cp_dropped c), [ev])
  end.

Inductive queue_op := Capture (ev : T) | Receive.

Definition queue_step (s : Capturer * list T) (op : queue_op) : Capturer * list T :=
  match op with
  | Capture ev => (TryCapture s.1 ev, s.2)
  | Receive => let '(c, got) := receive s.1 in (c, s.2 ++ got)
  end.

Definition captured (ops : list queue_op) : list T :=
  omap (λ op, match op with Capture ev => Some ev | Receive => None end) ops.

Lemma captured_snoc ops op :
  captured (ops ++ [op]) = captured ops ++ match op with Capture ev => [ev] | Receive => [] end.
Proof. unfold captured. rewrite omap_app. by destruct op. Qed.

(** A capturer loses only what it counts and never reorders: after any captures and
    receives, the events received and those in the buffer are, in the order of the captures,
    some of the captured events as prepared, the others are counted as dropped, and the buffer
    is never over its size. *)
Theorem capturer_conserves name buffer defaultBuffer prep ops :
  let c0 := NewCapturer name buffer defaultBuffer prep in
  let '(c, received) := foldl queue_step (c0, []) ops in
  received ++ cp_ch c `sublist_of` (prepared c0 <$> captured ops) ∧
  Z.of_nat (length (received ++ cp_ch c)) + Dropped (Some c) = Z.of_nat (length (captured ops)) ∧
  (length (cp_ch c) ≤ cp_buffer c0)%nat.
Proof.
  intros c0. cut (let '(c, received) := foldl queue_step (c0, []) ops in
    received ++ cp_ch c `sublist_of` (prepared c0 <$> captured ops) ∧
    Z.of_nat (length (received ++ cp_ch c)) + cp_dropped c = Z.of_nat (length (captured ops)) ∧
    (length (cp_ch c) ≤ cp_buffer c0)%nat ∧ cp_buffer c = cp_buffer c0 ∧ cp_prep c = cp_prep c0).
  { destruct (foldl queue_step (c0, []) ops) as [c received]. tauto. }
  induction ops as [|op ops IH] using rev_ind; [simpl; repeat split; auto with arith|].
  clearbody c0. rewrite foldl_app, captured_snoc. simpl.
  destruct (foldl queue_step (c0, []) ops) as [c received].
  destruct IH as (Hsub & Hcount & Hlen & Hb & Hp). destruct op as [ev|]; simpl.
  - unfold TryCapture. assert (prepared c ev = prepared c0 ev) as -> by (unfold prepared; by rewrite Hp).
    rewrite Hb. destruct (Nat.ltb_spec (length (cp_ch c)) (cp_buffer c0)); simpl.
    + rewrite fmap_app, app_assoc, !length_app in *. simpl.
      split; [by apply sublist_app|]. split; [lia|]. by split; [lia|].
    + rewrite fmap_app, !length_app in *. simpl. split; [by apply sublist_inserts_r|].
      by split; [lia|].
  - rewrite app_nil_r. unfold receive. destruct (cp_ch c) as [|ev rest] eqn:E; simpl.
    + rewrite app_nil_r, E. auto.
    + rewrite <- app_assoc. simpl. rewrite <- E. simpl in Hlen. rewrite E in *. repeat split; try done; lia.
Qed.
End capturer.
Arguments Capturer T : clear implicits.
Arguments queue_op T : clear implicits.

(** ** Batches *)

Section batches.
Context {T : Type}.

(** The cases of the [select]: the context is done, a tick, an item, the channel closed. *)
Inductive batch_event := BatchDone | BatchTick | BatchItem (item : T) | BatchClosed.

(** [buf], the batches flushed so far and whether the loop has returned. *)
Record batch_state := { bt_buf : list T; bt_flushed : list (list T); bt_ended : bool }.

Definition flushBuf (s : batch_state) : batch_state :=
  match bt_buf s with
  | [] => s
  | batch => {| bt_buf := []; bt_flushed := bt_flushed s ++ [batch]; bt_ended := bt_ended s |}
  end.

Definition end_loop (s : batch_state) : batch_state :=
  {| bt_buf := bt_buf s; bt_flushed := bt_flushed s; bt_ended := true |}.

Definition batch_step (batchSize : nat) (s : batch_state) (ev : batch_event) : batch_state :=
  if bt_ended s then s
  else match ev with
       | BatchDone | BatchClosed => end_loop (flushBuf s)
       | BatchTick => flushBuf s
       | BatchItem item =>
           let s := {| bt_buf := bt_buf s ++ [item]; bt_flushed := bt_flushed s; bt_ended := false |} in
           if Nat.leb batchSize (length (bt_buf s)) then flushBuf s else s
       end.

Definition RunTickerFlush (batchSize : Z) (events : list batch_event) : batch_state :=
  let batchSize := if batchSize <=? 0 then 50 else batchSize in
  foldl (batch_step (Z.to_nat batchSize)) {| bt_buf := []; bt_flushed := []; bt_ended := false |} events.

(** The items the loop takes: those before it ends. *)
Fixpoint items_taken (events : list batch_event) : list T :=
  match events with
  | [] => []
  | (BatchDone | BatchClosed) :: _ => []
  | BatchTick :: rest => items_taken rest
  | BatchItem item :: rest => item :: items_taken rest
  end.

Definition batches_ok (size : nat) (s : batch_state) : Prop :=
  Forall (λ b, b ≠ [] ∧ (length b ≤ size)%nat) (bt_flushed s) ∧ (length (bt_buf s) < size)%nat
  ∧ (bt_ended s = true → bt_buf s = []).

Lemma flushBuf_concat s :
  concat (bt_flushed (flushBuf s)) ++ bt_buf (flushBuf s) = concat (bt_flushed s) ++ bt_buf s
  ∧ bt_buf (flushBuf s) = [] ∧ bt_ended (flushBuf s) = bt_ended s.
Proof.
  unfold flushBuf. destruct (bt_buf s) as [|x l] eqn:E; [by rewrite E|].
  simpl. rewrite concat_app. simpl. by rewrite !app_nil_r.
Qed.

Lemma flushBuf_batches size s :
  Forall (λ b, b ≠ [] ∧ (length b ≤ size)%nat) (bt_flushed s) → (length (bt_buf s) ≤ size)%nat →
  Forall (λ b, b ≠ [] ∧ (length b ≤ size)%nat) (bt_flushed (flushBuf s)).
Proof.
  intros Hf Hl. unfold flushBuf. destruct (bt_buf s) as [|x l]; [done|]. simpl.
  apply Forall_app. split; [done|]. by apply Forall_singleton.
Qed.

Lemma batch_run size s events :
  (0 < size)%nat → batches_ok size s →
  let s' := foldl (batch_step size) s events in
  batches_ok size s' ∧
  concat (bt_flushed s') ++ bt_buf s'
  = (concat (bt_flushed s) ++ bt_buf s) ++ (if bt_ended s then [] else items_taken events).
Proof.
  intros Hsz. revert s. induction events as [|ev events IH]; intros s Hs; simpl.
  { split; [done|]. destruct (bt_ended s); by rewrite app_nil_r. }
  destruct Hs as (Hf & Hl & He). unfold batch_step at 2 4 6.
  destruct (bt_ended s) eqn:Ee.
  - destruct (IH s) as [H1 H2]; [by split; [|split; [|rewrite Ee]]|]. by rewrite Ee in H2.
  - destruct (flushBuf_concat s) as (Hc & Hb & Hend).
    assert (batches_ok size (flushBuf s)) as Hok.
    { split; [apply flushBuf_batches; [done|lia]|]. rewrite Hb. by split. }
    assert (batches_ok size (end_loop (flushBuf s))) as Hok' by (destruct Hok as (? & ? & ?); by repeat split).
    destruct ev as [| |item|].
    + destruct (IH _ Hok') as [H1 H2]. split; [done|]. rewrite H2. simpl. by rewrite Hc.
    + destruct (IH _ Hok) as [H1 H2]. split; [done|]. by rewrite H2, Hc, Hend, Ee.
    + set (s1 := {| bt_buf := bt_buf s ++ [item]; bt_flushed := bt_flushed s; bt_ended := false |}).
      destruct (flushBuf_concat s1) as (Hc1 & Hb1 & Hend1).
      assert (length (bt_buf s1) = S (length (bt_buf s))) as Hl1 by (simpl; rewrite length_app; simpl; lia).
      assert (∀ s2, batches_ok size s2 → bt_ended s2 = false →
        concat (bt_flushed s2) ++ bt_buf s2 = (concat (bt_flushed s) ++ bt_buf s) ++ [item] →
        batches_ok size (foldl (batch_step size) s2 events) ∧
        concat (bt_flushed (foldl (batch_step size) s2 events)) ++ bt_buf (foldl (batch_step size) s2 events)
        = (concat (bt_flushed s) ++ bt_buf s) ++ item :: items_taken events) as Hnext.
      { intros s2 H2 E2 Ec. destruct (IH s2 H2) as [H3 H4]. split; [done|].
        rewrite H4, E2, Ec, <- app_assoc. done. }
      destruct (Nat.leb_spec size (length (bt_buf s1))); apply Hnext.
      * split; [apply flushBuf_batches; [done|lia]|]. rewrite Hb1. by split.
      * done.
      * rewrite Hc1. simpl. by rewrite app_assoc.
      * split; [done|]. split; [lia|done].
      * done.
      * simpl. by rewrite app_assoc.
    + destruct (IH _ Hok') as [H1 H2]. split; [done|]. rewrite H2. simpl. by rewrite Hc.
Qed.

(** Batching loses nothing: whatever the sizes, ticks and the end of the loop, the batches
    flushed and the buffer are the items taken, in order; no batch is empty or over the
    size, the buffer never reaches it, and it is empty when the loop returns. *)
Theorem batches_partition batchSize events :
  let s := RunTickerFlush batchSize events in
  let size := Z.to_nat (if batchSize <=? 0 then 50 else batchSize) in
  concat (bt_flushed s) ++ bt_buf s = items_taken events ∧
  Forall (λ b, b ≠ [] ∧ (length b ≤ size)%nat) (bt_flushed s) ∧
  (length (bt_buf s) < size)%nat ∧ (bt_ended s = true → bt_buf s = []).
Proof.
  cbv zeta. unfold RunTickerFlush. cbv zeta.
  set (size := Z.to_nat _). assert (0 < size)%nat as Hsz.
  { unfold size. destruct (Z.leb_spec batchSize 0); lia. }
  destruct (batch_run size {| bt_buf := []; bt_flushed := []; bt_ended := false |} events Hsz)
    as [(H1 & H2 & H3) H4]; [by repeat split|]. done.
Qed.
End batches.
