(* ===== verification/Enrich.v ===== *)
(** Enrichment ([internal/enrich/]: domain.go, enricher.go, profile.go): the
    domain of a lead, the stack hints, the RDAP geography, and the contacts of
    public profiles.  The network lookups (DNS fingerprints, RDAP, e-mail
    verification, profile pages) are parameters. *)
From S2P Require Import Prelude Unicode GoStrings TextFacts.
From S2P Require Import SourceRep Validate Scoring Outreach Extract FilterSignals Geo TgWeb.
From Stdlib Require Import SpecFloat.

Local Open Scope Z_scope.

(** ** Target domain ([domain.go]) *)

Definition emailDomain (email : string) : string :=
  match Split (ToLower (TrimSpace email)) "@" with
  | [_; d] => d
  | _ => estr
  end.

Definition domainFromSource (source : string) : string :=
  let source := TrimSpace (ToLower source) in
  if HasPrefix source "ads_txt:" then TrimPrefix source "ads_txt:"
  else if HasPrefix source "lander:" then TrimPrefix source "lander:"
  else if HasPrefix source "supply:" then TrimPrefix source "supply:"
  else if HasPrefix source "ct:" then TrimPrefix source "ct:"
  else if HasPrefix source "tgweb:" then SiteDomainFromSource source
  else estr.

Definition primaryEmail (contacts : list Contact) : string :=
  match List.find (λ c, String.eqb (c_Type c) "email"
                        && negb (String.eqb (c_Value c) estr)) contacts with
  | Some c => c_Value c
  | None => estr
  end.

Definition TargetDomain (source : string) (contacts : list Contact) : string :=
  let d := emailDomain (primaryEmail contacts) in
  if negb (String.eqb d estr) then d
  else match List.find (λ c, String.eqb (c_Type c) "domain"
                             && negb (String.eqb (c_Value c) estr)) contacts with
       | Some c => ToLower (TrimPrefix (c_Value c) "domain:")
       | None => domainFromSource source
       end.

(** ** Stacks ([enricher.go]) *)

Definition dedupeStack (stack : list string) : list string :=
  dedup_on id (List.filter (λ s, negb (String.eqb s estr))
                 ((λ s, TrimSpace (ToLower s)) <$> stack)).

(** Not [scoring]'s [mergeStack], which returns the base as it is when there is
    nothing to add. *)
Definition MergeStack (base extra : list string) : list string := dedupeStack (base ++ extra).

Definition CompetitorStackFromResult (stack : list string) : list string :=
  dedupeStack (mjoin
    ((λ s, DetectCompetitorStack s ++ (if HasPrefix s "cname:" then [s] else [])) <$> stack)).

(** ** The enricher *)

Record Config := {
  BlockedCountries : list string; RDAPEnabled : bool; DNSEnabled : bool;
  EmailEnabled : bool }.

Record RDAPInfo := { rdap_Country : string; rdap_CreatedAt : Time }.
Record EmailInfo := {
  em_DisplayName : string; em_Gravatar : string; em_HasGravatar : bool;
  em_SMTPValid : bool; em_SMTPChecked : bool }.

(** The three lookups, absent when the pointer is nil; a lookup returns [None]
    on an error. *)
Record Enricher := {
  e_cfg : Config;
  e_dns : option (string → list string);
  e_rdap : option (string → option RDAPInfo);
  e_email : option (string → string → option EmailInfo) }.

Record EnrichResult := {
  en_Domain : string; en_RDAPCountry : string; en_DomainAgeDays : Z; en_Stack : list string;
  en_DisplayName : string; en_GravatarName : string; en_HasGravatar : bool;
  en_SMTPValid : bool; en_SMTPChecked : bool; en_GeoBlocked : bool; en_GeoReason : string }.

Definition no_enrich : EnrichResult := {|
  en_Domain := estr; en_RDAPCountry := estr; en_DomainAgeDays := 0; en_Stack := [];
  en_DisplayName := estr; en_GravatarName := estr; en_HasGravatar := false;
  en_SMTPValid := false; en_SMTPChecked := false; en_GeoBlocked := false;
  en_GeoReason := estr |}.

(** [int(time.Since(t).Hours() / 24)]. *)
Definition hours_of (d : Duration) : spec_float :=
  SFadd 53 1024 (float_of_int (d ÷ hour))
    (float_div (float_of_int (Z.rem d hour)) (float_of_int hour)).
Definition age_days (created now : Time) : Z :=
  int_of_float (float_div (hours_of (time_sub now created)) (float_of_int 24)).

Definition rdap_blocked (info : RDAPInfo) (blocked : list string) : bool :=
  IsBlockedCountry (rdap_Country info) blocked.

(** The RDAP answer, if the lookup is on, has a domain and succeeds. *)
Definition rdap_answer (e : Enricher) (domain : string) : option RDAPInfo :=
  if RDAPEnabled (e_cfg e) && negb (String.eqb domain estr)
  then lookup ← e_rdap e; lookup domain else None.

Definition email_answer (e : Enricher) (email hint : string) : option EmailInfo :=
  if EmailEnabled (e_cfg e) && negb (String.eqb email estr)
  then lookup ← e_email e; lookup email hint else None.

Definition Enrich (e : Enricher) (source : string) (contacts : list Contact)
    (displayHint : string) (now : Time) : EnrichResult :=
  let domain := TargetDomain source contacts in
  let stack :=
    if DNSEnabled (e_cfg e) && negb (String.eqb domain estr)
    then match e_dns e with Some fingerprints => fingerprints domain | None => [] end
    else [] in
  let rdap := rdap_answer e domain in
  let blocked := match rdap with
                 | Some info => rdap_blocked info (BlockedCountries (e_cfg e))
                 | None => false
                 end in
  let email := email_answer e (primaryEmail contacts) displayHint in
  {| en_Domain := domain;
     en_RDAPCountry := match rdap with Some info => rdap_Country info | None => estr end;
     en_DomainAgeDays :=
       match rdap with
       | Some info => if is_zero_time (rdap_CreatedAt info) then 0
                      else age_days (rdap_CreatedAt info) now
       | None => 0
       end;
     en_Stack := dedupeStack stack;
     en_DisplayName := match email with Some i => em_DisplayName i | None => estr end;
     en_GravatarName := match email with Some i => em_Gravatar i | None => estr end;
     en_HasGravatar := match email with Some i => em_HasGravatar i | None => false end;
     en_SMTPValid := match email with Some i => em_SMTPValid i | None => false end;
     en_SMTPChecked := match email with Some i => em_SMTPChecked i | None => false end;
     en_GeoBlocked := blocked;
     en_GeoReason := match rdap with
                     | Some info => if blocked then "rdap country " +:+ rdap_Country info else estr
                     | None => estr
                     end |}.

(** ** Profiles ([profile.go]) *)

Definition NormalizeForumHost (host : string) : string :=
  TrimSuffix (TrimPrefix (ToLower (TrimSpace host)) "www.") ".".

Definition EntityForumHostFromSource (source : string) : string :=
  let source := ToLower (TrimSpace source) in
  if HasPrefix source "forum:" then
    let rest := TrimPrefix source "forum:" in
    NormalizeForumHost (match Index rest "/" with Some i => stake i rest | None => rest end)
  else if HasPrefix source "warrior:" then "warriorforum"
  else estr.

Definition forumProfileURL (host user uid : string) : string :=
  let host := NormalizeForumHost host in
  let user := TrimSpace user in
  if String.eqb host estr || String.eqb user estr then estr
  else
    let user := ToLower user in
    let uid := TrimSpace uid in
    if negb (String.eqb uid estr)
    then "https://" +:+ host +:+ "/members/" +:+ user +:+ "." +:+ uid +:+ "/"
    else "https://" +:+ host +:+ "/members/" +:+ user +:+ "/".

Fixpoint forumUserFromContacts (contacts : list Contact) : string :=
  match contacts with
  | [] => estr
  | c :: rest =>
      if negb (String.eqb (c_Type c) "forum_user") then forumUserFromContacts rest
      else
        let user := TrimPrefix (TrimPrefix (TrimSpace (c_Value c)) "forum:user/") "warrior:user/" in
        if negb (String.eqb user estr) then user else forumUserFromContacts rest
  end.

Definition redditUserFromContact (value : string) : string :=
  let value := TrimSpace (TrimPrefix (ToLower value) "reddit:") in
  TrimSpace (TrimPrefix (TrimPrefix value "u/") "/u/").

(** The fetches return the text of the page, [None] on an error. *)
Record ProfileEnricher := {
  pe_forum : option (string → option string);
  pe_github : string → option string;
  pe_reddit : string → option string }.

Section profile.
Context `{MailLib} (st : validate_state) (p : ProfileEnricher).

(** The contacts of a fetched page, merged when the page is not empty. *)
Definition merge_page (page : option string) (merged : list Contact) : list Contact :=
  match page with
  | Some html => if String.eqb html estr then merged
                 else MergeContacts merged (Contacts (Extract st html []))
  | None => merged
  end.

Definition fetchForumProfile (host user uid : string) : option string :=
  let rawURL := forumProfileURL host user uid in
  if String.eqb rawURL estr then None else get ← pe_forum p; get rawURL.

Definition merge_identity (merged : list Contact) (c : Contact) : list Contact :=
  if String.eqb (c_Type c) "github" then
    let login := TrimSpace (c_Value c) in
    if String.eqb login estr then merged else merge_page (pe_github p login) merged
  else if String.eqb (c_Type c) "reddit" then
    let user := redditUserFromContact (c_Value c) in
    if String.eqb user estr then merged else merge_page (pe_reddit p user) merged
  else merged.

Definition ProfileMergeContacts (source : string) (contacts : list Contact)
    (username forumUID : string) : list Contact :=
  if HasReachableContact contacts then contacts
  else
    let host := EntityForumHostFromSource source in
    let merged :=
      if String.eqb host estr then []
      else
        let user := TrimSpace username in
        let user := if String.eqb user estr then forumUserFromContacts contacts else user in
        if String.eqb user estr then [] else merge_page (fetchForumProfile host user forumUID) [] in
    let merged := foldl merge_identity merged contacts in
    if is_empty merged then contacts else MergeContacts contacts merged.
End profile.
