(* ===== verification/Effects.v ===== *)
(** Functions that read and write a state and may return early: the shape of
    the program's handlers, with a weakest-precondition rule per construct and the
    predicates on the state that a computation keeps. *)
From S2P Require Import Prelude.

Section monad.
Context {W E : Type}.

(** A computation ends in a value ([inl]) or in an early exit ([inr]). *)
Definition eff (A : Type) := W → (A + E) * W.

Definition done {A} (a : A) : eff A := λ w, (inl a, w).
Definition exit_with {A} (e : E) : eff A := λ w, (inr e, w).
Definition seq_eff {A B} (m : eff A) (k : A → eff B) : eff B := λ w,
  match m w with
  | (inl a, w') => k a w'
  | (inr e, w') => (inr e, w')
  end.
Definition get_state : eff W := λ w, (inl w, w).
Definition modify (f : W → W) : eff unit := λ w, (inl tt, f w).

(** [defer]: [cleanup] runs on the value and on the early exit alike. *)
Definition deferring {A} (cleanup : W → W) (m : eff A) : eff A := λ w,
  let '(r, w') := m w in (r, cleanup w').

(** The computation ends in a value that satisfies [Q], or exits with [X]. *)
Definition wp {A} (m : eff A) (Q : A → W → Prop) (X : E → W → Prop) (w : W) : Prop :=
  match m w with
  | (inl a, w') => Q a w'
  | (inr e, w') => X e w'
  end.

Lemma wp_mono {A} (m : eff A) (Q Q' : A → W → Prop) (X X' : E → W → Prop) w :
  (∀ a w', Q a w' → Q' a w') → (∀ e w', X e w' → X' e w') → wp m Q X w → wp m Q' X' w.
Proof. unfold wp. intros HQ HX. destruct (m w) as [[a|e] w']; eauto. Qed.

Lemma wp_done {A} (a : A) (Q : A → W → Prop) X w : Q a w → wp (done a) Q X w.
Proof. done. Qed.

Lemma wp_exit {A} (e : E) (Q : A → W → Prop) X w : X e w → wp (exit_with e) Q X w.
Proof. done. Qed.

Lemma wp_bind {A B} (m : eff A) (k : A → eff B) Q X w :
  wp m (λ a w', wp (k a) Q X w') X w → wp (seq_eff m k) Q X w.
Proof. unfold wp, seq_eff. destruct (m w) as [[a|e] w']; auto. Qed.

Lemma wp_get (Q : W → W → Prop) X w : Q w w → wp get_state Q X w.
Proof. done. Qed.

Lemma wp_modify f (Q : unit → W → Prop) X w : Q tt (f w) → wp (modify f) Q X w.
Proof. done. Qed.

Lemma wp_defer {A} cleanup (m : eff A) Q X w :
  wp m (λ a w', Q a (cleanup w')) (λ e w', X e (cleanup w')) w → wp (deferring cleanup m) Q X w.
Proof. unfold wp, deferring. destruct (m w) as [[a|e] w']; auto. Qed.

Lemma wp_and {A} (m : eff A) (Q Q' : A → W → Prop) (X X' : E → W → Prop) w :
  wp m Q X w → wp m Q' X' w → wp m (λ a w', Q a w' ∧ Q' a w') (λ e w', X e w' ∧ X' e w') w.
Proof. unfold wp. destruct (m w) as [[a|e] w']; auto. Qed.

(** [m] keeps [P], however it ends. *)
Definition keeps {A} (P : W → Prop) (m : eff A) : Prop := ∀ w, P w → P (m w).2.

Lemma keeps_ret {A} P (a : A) : keeps P (done a).
Proof. by intros w. Qed.

Lemma keeps_exit {A} P (e : E) : keeps P (exit_with (A:=A) e).
Proof. by intros w. Qed.

Lemma keeps_seq {A B} P (m : eff A) (k : A → eff B) :
  keeps P m → (∀ a, keeps P (k a)) → keeps P (seq_eff m k).
Proof.
  intros Hm Hk w Hw. unfold seq_eff. specialize (Hm w Hw). destruct (m w) as [[a|e] w']; [by apply Hk|done].
Qed.

Lemma keeps_get P : keeps P get_state.
Proof. by intros w. Qed.

Lemma keeps_modify P f : (∀ w, P w → P (f w)) → keeps P (modify f).
Proof. intros Hf w Hw. by apply Hf. Qed.

Lemma keeps_wp {A} P (m : eff A) w : keeps P m → P w → wp m (λ _, P) (λ _, P) w.
Proof. intros Hm Hw. specialize (Hm w Hw). unfold wp. by destruct (m w) as [[a|e] w']. Qed.

Lemma wp_keeps {A} P (m : eff A) : (∀ w, P w → wp m (λ _, P) (λ _, P) w) → keeps P m.
Proof. intros Hm w Hw. specialize (Hm w Hw). unfold wp in Hm. by destruct (m w) as [[a|e] w']. Qed.
End monad.

Arguments eff : clear implicits.
Arguments wp : simpl never.

Declare Scope eff_scope.
Delimit Scope eff_scope with eff.
Notation "'let!' x := m 'in' k" := (seq_eff m (λ x, k))
  (at level 20, x pattern, m at level 100, k at level 200) : eff_scope.
Notation "m1 ';;!' m2" := (seq_eff m1 (λ _, m2))
  (at level 100, right associativity) : eff_scope.

Create HintDb eff.
#[export] Hint Resolve wp_done wp_exit wp_get wp_modify : eff.
Create HintDb keeps.
#[export] Hint Resolve keeps_ret keeps_exit keeps_get : keeps.

(** One step of symbolic execution of a computation. *)
Ltac wp_step :=
  match goal with
  | |- wp (seq_eff _ _) _ _ _ => apply wp_bind
  | |- wp (done _) _ _ _ => apply wp_done
  | |- wp (exit_with _) _ _ _ => apply wp_exit
  | |- wp get_state _ _ _ => apply wp_get
  | |- wp (modify _) _ _ _ => apply wp_modify
  | |- wp (deferring _ _) _ _ _ => apply wp_defer
  | |- wp (let _ := _ in _) _ _ _ => cbv zeta
  | |- wp (if ?b then _ else _) _ _ _ => let E := fresh "E" in destruct b eqn:E
  | |- wp (match ?o with _ => _ end) _ _ _ => let E := fresh "E" in destruct o eqn:E
  end.
Ltac wp_run := repeat wp_step.
