(* ===== verification/ProxyPool.v ===== *)
(** The pool of proxies and the transport that rotates them ([internal/httpclient/]:
    proxy_pool.go, client.go, cf_block.go, proxy_index.go), with the governor of ProxyBudget.

    An endpoint is known by its index; the parsed address is its key.  The token bucket of
    [golang.org/x/time/rate] and the connection itself are steps that may succeed or fail.  The
    methods of the pool hold its mutex; the two stores of a trip and the transport that reads
    them do not, so the steps of concurrent trips interleave. *)
From S2P Require Import Prelude Unicode GoStrings Scoring SourceRep Entity Breaker ProxyBudget.
From Stdlib Require Import Floats.SpecFloat.

Local Open Scope Z_scope.

(** ** The configuration *)

Record ProxyPoolConfig := {
  pc_PerProxyRPS : spec_float; pc_PerProxyBurst : Z; pc_CooldownDuration : Duration }.

Definition f_half : spec_float := Eval vm_compute in f_ratio 1 2.

Definition DefaultProxyPoolConfig : ProxyPoolConfig := {|
  pc_PerProxyRPS := f_half; pc_PerProxyBurst := 1;
  pc_CooldownDuration := 10 * minute |}.

Definition normalized (c : ProxyPoolConfig) : ProxyPoolConfig :=
  let out := DefaultProxyPoolConfig in {|
  pc_PerProxyRPS := if SFltb (S754_zero false) (pc_PerProxyRPS c) then pc_PerProxyRPS c else pc_PerProxyRPS out;
  pc_PerProxyBurst := if 0 <? pc_PerProxyBurst c then pc_PerProxyBurst c else pc_PerProxyBurst out;
  pc_CooldownDuration := if 0 <? pc_CooldownDuration c then pc_CooldownDuration c else pc_CooldownDuration out |}.

(** The process-wide configuration, and an override. *)
Definition activePoolConfig (global : ProxyPoolConfig) (override : option ProxyPoolConfig) : ProxyPoolConfig :=
  match override with Some c => normalized c | None => global end.

(** ** The pool *)

Record proxyEndpoint := { ep_key : string; ep_cooldown : Time }.

Record proxyPool := {
  pp_endpoints : list proxyEndpoint; pp_counter : Z; pp_cfg : ProxyPoolConfig; pp_sourceID : string }.

Definition newProxyPool (parsed : list string) (cfg : ProxyPoolConfig) (sourceID : string) : proxyPool := {|
  pp_endpoints := (λ u, {| ep_key := u; ep_cooldown := zero_time |}) <$> parsed;
  pp_counter := 0; pp_cfg := normalized cfg; pp_sourceID := TrimSpace sourceID |}.

Definition with_endpoints (l : list proxyEndpoint) (p : proxyPool) : proxyPool :=
  {| pp_endpoints := l; pp_counter := pp_counter p; pp_cfg := pp_cfg p; pp_sourceID := pp_sourceID p |}.
Definition with_counter (n : Z) (p : proxyPool) : proxyPool :=
  {| pp_endpoints := pp_endpoints p; pp_counter := n; pp_cfg := pp_cfg p; pp_sourceID := pp_sourceID p |}.

Definition rested (now : Time) (e : proxyEndpoint) : bool :=
  is_zero_time (ep_cooldown e) || time_after now (ep_cooldown e).

(** The indices of the endpoints that satisfy a predicate, from [i] on. *)
Fixpoint indices (f : proxyEndpoint → bool) (i : nat) (l : list proxyEndpoint) : list nat :=
  match l with
  | [] => []
  | e :: l => if f e then i :: indices f (S i) l else indices f (S i) l
  end.

Definition available (now : Time) (p : proxyPool) : list nat := indices (rested now) O (pp_endpoints p).

Definition earliest_cooldown (now : Time) (p : proxyPool) : Time :=
  foldl (λ t e, if rested now e then t
                else if is_zero_time t || time_before (ep_cooldown e) t then ep_cooldown e else t)
    zero_time (pp_endpoints p).

(** The index of the endpoint that is chosen, or the time to wait for. *)
Definition pickEndpoint (now : Time) (p : proxyPool) : proxyPool * (nat + Time) :=
  let l := available now p in
  match l with
  | [] => (p, inr (earliest_cooldown now p))
  | first :: _ =>
      let n := wrapu64 (pp_counter p + 1) in
      (with_counter n p, inl (nth (Z.to_nat (n mod Z.of_nat (length l))) l first))
  end.

Definition pruneCooldowns (now : Time) (p : proxyPool) : proxyPool :=
  with_endpoints ((λ e, if negb (is_zero_time (ep_cooldown e)) && time_after now (ep_cooldown e)
                        then {| ep_key := ep_key e; ep_cooldown := zero_time |} else e) <$> pp_endpoints p) p.

(** The first endpoint with the key. *)
Fixpoint mark_first (key : string) (until : Time) (l : list proxyEndpoint) : list proxyEndpoint :=
  match l with
  | [] => []
  | e :: l => if String.eqb (ep_key e) key then {| ep_key := key; ep_cooldown := until |} :: l
              else e :: mark_first key until l
  end.

Definition markCooldown (key : string) (now : Time) (p : proxyPool) : proxyPool :=
  with_endpoints (mark_first key (time_add now (pc_CooldownDuration (pp_cfg p))) (pp_endpoints p)) p.

(** ** What a block looks like *)

Record proxy_response := {
  pr_StatusCode : Z; pr_CFRay : string; pr_Server : string; pr_Body : string; pr_ContentLength : Z }.

Definition block_markers : list string :=
  ["cf-browser-verification"; "just a moment"; "attention required"; "cloudflare"; "access denied"].

Definition cloudflare_headers (r : proxy_response) : bool :=
  negb (String.eqb (pr_CFRay r) estr) || Contains (ToLower (pr_Server r)) "cloudflare".

Definition isProxyBlock (r : proxy_response) (bodyPrefix : string) : bool :=
  if pr_StatusCode r =? StatusTooManyRequests then true
  else if (pr_StatusCode r =? StatusForbidden) || (pr_StatusCode r =? StatusServiceUnavailable)
  then cloudflare_headers r || contains_any (ToLower bodyPrefix) block_markers
  else false.

(** [LooksCloudflareBlocked]: of a response that was read. *)
Definition LooksCloudflareBlocked (r : proxy_response) : bool := isProxyBlock r (pr_Body r).

Definition peek_limit : nat := Z.to_nat 8192.

(** [checkProxyBlockCooldown]: the reason for which the acquired proxy is sent to rest. *)
Definition block_reason (r : proxy_response) : option string :=
  if pr_StatusCode r =? StatusTooManyRequests then Some "http_429"
  else if (pr_StatusCode r =? StatusForbidden) || (pr_StatusCode r =? StatusServiceUnavailable) then
    if cloudflare_headers r then Some ("http_" +:+ Itoa (pr_StatusCode r))
    else if isProxyBlock r (stake peek_limit (pr_Body r)) then Some ("http_" +:+ Itoa (pr_StatusCode r))
    else None
  else None.

(** ** A request that waits for a proxy alone *)

Definition longest_nap : Duration := 30 * second.

Inductive acquired := NoProxies | Got (p : proxyPool) (i : nat) (attempts : nat) | StillWaiting.

(** [acquire] when the limiter lets the request pass and its context lasts.  Attempt [n] reads
    the clock up to three times; the fuel is the number of attempts. *)
Fixpoint attempt (fuel : nat) (n : nat) (clock : nat → Time) (p : proxyPool) : acquired :=
  match fuel with
  | O => StillWaiting
  | S fuel =>
      match pickEndpoint (clock (3 * n)%nat) p with
      | (p, inl i) => Got p i n
      | (p, inr until) =>
          attempt fuel (S n) clock
            (if time_sub until (clock (3 * n + 1)%nat) <=? 0
             then pruneCooldowns (clock (3 * n + 2)%nat) p else p)
      end
  end.

Definition acquire (fuel : nat) (clock : nat → Time) (p : proxyPool) : acquired :=
  match pp_endpoints p with [] => NoProxies | _ => attempt fuel O clock p end.

(** What the code sleeps after an attempt that found no proxy. *)
Definition nap (now until : Time) : Duration :=
  let wait := time_sub until now in
  if wait <=? 0 then 0 else if longest_nap <? wait then longest_nap else wait.

(** ** Trips *)

Inductive trip :=
  | Asking                                (** in [acquire] *)
  | Waiting (until : Time)                (** no proxy was available *)
  | Limited (i : nat)                     (** in [limiter.Wait] *)
  | Storing (i : nat)                     (** before [currentProxy.Store] *)
  | Indexing (i : nat)                    (** before [lastProxyIndex.Store] *)
  | Ready (i : nat)                       (** before the transport asks [proxyFunc] *)
  | Sent (i : nat) (via : option nat)     (** waiting for the response *)
  | Refused (i : nat) (via : option nat) (r : proxy_response)
                                          (** a block: in [DiscardResponseBody], before [time.Now] *)
  | Marking (i : nat) (via : option nat) (r : proxy_response) (read : Time)
                                          (** the clock was read; before the lock of [markCooldown] *)
  | Recording (resp : option proxy_response).  (** before [recordEgress] *)

(** [i] is the proxy that was acquired, [via] the one the request went through, [read] the reading
    of the clock from which the rest counts. *)
Inductive pool_event :=
  | Picked (i : nat) (at_time : Time)
  | Went (i : nat) (via : option nat)
  | Marked (i : nat) (via : option nat) (read : Time).

Record RotatingProxyTransport := {
  rt_pool : proxyPool; rt_currentProxy : option nat; rt_lastProxyIndex : Z; rt_sourceID : string;
  rt_governor : option Governor; rt_file : option stateFile;
  rt_trips : gmap nat trip; rt_clock : Time; rt_log : list pool_event }.

Definition set_pool (p : proxyPool) (t : RotatingProxyTransport) : RotatingProxyTransport := {|
  rt_pool := p; rt_currentProxy := rt_currentProxy t; rt_lastProxyIndex := rt_lastProxyIndex t;
  rt_sourceID := rt_sourceID t; rt_governor := rt_governor t; rt_file := rt_file t;
  rt_trips := rt_trips t; rt_clock := rt_clock t; rt_log := rt_log t |}.
Definition set_current (c : option nat) (t : RotatingProxyTransport) : RotatingProxyTransport := {|
  rt_pool := rt_pool t; rt_currentProxy := c; rt_lastProxyIndex := rt_lastProxyIndex t;
  rt_sourceID := rt_sourceID t; rt_governor := rt_governor t; rt_file := rt_file t;
  rt_trips := rt_trips t; rt_clock := rt_clock t; rt_log := rt_log t |}.
Definition set_last (i : Z) (t : RotatingProxyTransport) : RotatingProxyTransport := {|
  rt_pool := rt_pool t; rt_currentProxy := rt_currentProxy t; rt_lastProxyIndex := i;
  rt_sourceID := rt_sourceID t; rt_governor := rt_governor t; rt_file := rt_file t;
  rt_trips := rt_trips t; rt_clock := rt_clock t; rt_log := rt_log t |}.
Definition set_budget (g : option Governor) (file : option stateFile) (t : RotatingProxyTransport) : RotatingProxyTransport := {|
  rt_pool := rt_pool t; rt_currentProxy := rt_currentProxy t; rt_lastProxyIndex := rt_lastProxyIndex t;
  rt_sourceID := rt_sourceID t; rt_governor := g; rt_file := file;
  rt_trips := rt_trips t; rt_clock := rt_clock t; rt_log := rt_log t |}.
Definition set_trip (id : nat) (s : option trip) (t : RotatingProxyTransport) : RotatingProxyTransport := {|
  rt_pool := rt_pool t; rt_currentProxy := rt_currentProxy t; rt_lastProxyIndex := rt_lastProxyIndex t;
  rt_sourceID := rt_sourceID t; rt_governor := rt_governor t; rt_file := rt_file t;
  rt_trips := partial_alter (λ _, s) id (rt_trips t); rt_clock := rt_clock t; rt_log := rt_log t |}.
Definition set_clock (now : Time) (t : RotatingProxyTransport) : RotatingProxyTransport := {|
  rt_pool := rt_pool t; rt_currentProxy := rt_currentProxy t; rt_lastProxyIndex := rt_lastProxyIndex t;
  rt_sourceID := rt_sourceID t; rt_governor := rt_governor t; rt_file := rt_file t;
  rt_trips := rt_trips t; rt_clock := now; rt_log := rt_log t |}.
Definition log_event (e : pool_event) (t : RotatingProxyTransport) : RotatingProxyTransport := {|
  rt_pool := rt_pool t; rt_currentProxy := rt_currentProxy t; rt_lastProxyIndex := rt_lastProxyIndex t;
  rt_sourceID := rt_sourceID t; rt_governor := rt_governor t; rt_file := rt_file t;
  rt_trips := rt_trips t; rt_clock := rt_clock t; rt_log := e :: rt_log t |}.

(** [LastProxyIndex]. *)
Definition LastProxyIndex (t : RotatingProxyTransport) : Z :=
  if bool_decide (pp_endpoints (rt_pool t) = []) then -1
  else if rt_lastProxyIndex t <? 0 then -1 else rt_lastProxyIndex t.

(** [proxyFunc]; [None] is a direct connection. *)
Definition proxyFunc (t : RotatingProxyTransport) : option nat :=
  if bool_decide (pp_endpoints (rt_pool t) = []) then None else rt_currentProxy t.

Section transport.
Context `{DayLib}.

(** The first guard of [RoundTrip]. *)
Definition budget_allows (t : RotatingProxyTransport) : RotatingProxyTransport * bool :=
  if bool_decide (pp_endpoints (rt_pool t) = []) then (t, true)
  else match rt_governor t with
       | None => (t, true)
       | Some g => let '(g, ok) := Allow g (rt_clock t) in (set_budget (Some g) (rt_file t) t, ok)
       end.

Definition recordEgress (resp : option proxy_response) (w : write_outcome) (t : RotatingProxyTransport)
    : RotatingProxyTransport :=
  match resp with
  | None => t
  | Some r =>
      if String.eqb (rt_sourceID t) estr || (pr_ContentLength r <=? 0) then t
      else match rt_governor t with
           | None => t
           | Some g =>
               let '(g, file) := Record_bytes g (pr_ContentLength r) (rt_clock t) w (rt_file t) in
               set_budget (Some g) file t
           end
  end.

Definition key_of (i : nat) (t : RotatingProxyTransport) : string :=
  match pp_endpoints (rt_pool t) !! i with Some e => ep_key e | None => estr end.

(** What follows a response that came through [via]: when it shows a block, the proxy that was
    acquired will be sent to rest. *)
Definition after_response (i : nat) (via : option nat) (resp : option proxy_response) : trip :=
  match resp with
  | Some r => match block_reason r with Some _ => Refused i via r | None => Recording (Some r) end
  | None => Recording None
  end.

Inductive trip_step : RotatingProxyTransport → RotatingProxyTransport → Prop :=
  | step_clock t now : rt_clock t ≤ now → trip_step t (set_clock now t)
  | step_start t t' id :
      rt_trips t !! id = None → budget_allows t = (t', true) → trip_step t (set_trip id (Some Asking) t')
  | step_refused t t' : budget_allows t = (t', false) → trip_step t t'
  | step_picked t id p i :
      rt_trips t !! id = Some Asking → pickEndpoint (rt_clock t) (rt_pool t) = (p, inl i) →
      trip_step t (log_event (Picked i (rt_clock t)) (set_trip id (Some (Limited i)) (set_pool p t)))
  | step_unavailable t id p until :
      rt_trips t !! id = Some Asking → pp_endpoints (rt_pool t) ≠ [] →
      pickEndpoint (rt_clock t) (rt_pool t) = (p, inr until) →
      trip_step t (set_trip id (Some (Waiting until)) (set_pool p t))
  | step_pruned t id until now :
      rt_trips t !! id = Some (Waiting until) → until ≤ now → now ≤ rt_clock t →
      trip_step t (set_trip id (Some Asking) (set_pool (pruneCooldowns now (rt_pool t)) t))
  | step_woken t id until :
      rt_trips t !! id = Some (Waiting until) → trip_step t (set_trip id (Some Asking) t)
  | step_given_up t id s :
      rt_trips t !! id = Some s → (s = Asking ∨ (∃ until, s = Waiting until) ∨ ∃ i, s = Limited i) →
      trip_step t (set_trip id None t)
  | step_passed t id i :
      rt_trips t !! id = Some (Limited i) → trip_step t (set_trip id (Some (Storing i)) t)
  | step_stored t id i :
      rt_trips t !! id = Some (Storing i) → trip_step t (set_trip id (Some (Indexing i)) (set_current (Some i) t))
  | step_indexed t id i :
      rt_trips t !! id = Some (Indexing i) →
      trip_step t (set_trip id (Some (Ready i)) (set_last (Z.of_nat i) t))
  | step_sent t id i :
      rt_trips t !! id = Some (Ready i) →
      trip_step t (log_event (Went i (proxyFunc t)) (set_trip id (Some (Sent i (proxyFunc t))) t))
  | step_answered t id i via resp :
      rt_trips t !! id = Some (Sent i via) → trip_step t (set_trip id (Some (after_response i via resp)) t)
  | step_read t id i via r :
      rt_trips t !! id = Some (Refused i via r) →
      trip_step t (set_trip id (Some (Marking i via r (rt_clock t))) t)
  | step_marked t id i via r read :
      rt_trips t !! id = Some (Marking i via r read) →
      trip_step t (log_event (Marked i via read) (set_trip id (Some (Recording (Some r)))
        (set_pool (markCooldown (key_of i t) read (rt_pool t)) t)))
  | step_recorded t id resp w :
      rt_trips t !! id = Some (Recording resp) → trip_step t (set_trip id None (recordEgress resp w t)).

Definition new_transport (parsed : list string) (cfg : ProxyPoolConfig) (sourceID : string)
    (g : option Governor) (file : option stateFile) (now : Time) : RotatingProxyTransport := {|
  rt_pool := newProxyPool parsed cfg sourceID; rt_currentProxy := None; rt_lastProxyIndex := 0;
  rt_sourceID := TrimSpace sourceID; rt_governor := g; rt_file := file;
  rt_trips := ∅; rt_clock := now; rt_log := [] |}.
End transport.

(** ** Picks *)

Lemma elem_of_indices f k l i :
  i ∈ indices f k l ↔ (k ≤ i)%nat ∧ ∃ e, l !! (i - k)%nat = Some e ∧ f e = true.
Proof.
  revert k. induction l as [|e l IH]; intros k; cbn [indices].
  { split; [by intros ?%not_elem_of_nil|]. intros (_ & e & He & _). by rewrite lookup_nil in He. }
  assert (i ∈ indices f (S k) l ↔ (k ≤ i)%nat ∧ i ≠ k ∧ ∃ e', (e :: l) !! (i - k)%nat = Some e' ∧ f e' = true) as Hl.
  { rewrite IH. split.
    - intros [Hi (e' & He & Hf)]. split; [lia|]. split; [lia|]. exists e'.
      replace (i - k)%nat with (S (i - S k)) by lia. by split.
    - intros (Hi & Hn & e' & He & Hf). split; [lia|]. exists e'.
      replace (i - k)%nat with (S (i - S k)) in He by lia. by split. }
  destruct (f e) eqn:Ef; [rewrite elem_of_cons|]; rewrite Hl; clear Hl IH.
  - split.
    + intros [->|(Hi & Hn & He)]; [split; [lia|]; exists e; by rewrite Nat.sub_diag|by split].
    + intros [Hi He]. destruct (decide (i = k)); [by left|by right].
  - split; [by intros (Hi & Hn & He)|]. intros [Hi (e' & He & Hf)].
    split; [done|split; [|by exists e']]. intros ->. rewrite Nat.sub_diag in He. cbn in He. congruence.
Qed.

Lemma NoDup_indices f k l : NoDup (indices f k l).
Proof.
  revert k. induction l as [|e l IH]; intros k; cbn [indices]; [constructor|].
  destruct (f e); [|done]. constructor; [|done]. rewrite elem_of_indices. lia.
Qed.

Lemma available_spec now p i :
  i ∈ available now p ↔ ∃ e, pp_endpoints p !! i = Some e ∧ rested now e = true.
Proof. unfold available. rewrite elem_of_indices, Nat.sub_0_r. split; [by intros [_ ?]|]. split; [lia|done]. Qed.

Lemma nth_mod_elem {A} (l : list A) (x : A) n : l ≠ [] → nth (Z.to_nat (n mod Z.of_nat (length l))) l x ∈ l.
Proof.
  intros Hl. apply list_elem_of_In, nth_In. destruct l; [done|]. cbn [length].
  pose proof (Z.mod_pos_bound n (Z.of_nat (S (length l)))). lia.
Qed.

Lemma pickEndpoint_inl now p p' i :
  pickEndpoint now p = (p', inl i) →
  pp_endpoints p' = pp_endpoints p ∧ pp_cfg p' = pp_cfg p
  ∧ ∃ e, pp_endpoints p !! i = Some e ∧ rested now e = true.
Proof.
  unfold pickEndpoint. destruct (available now p) as [|first l] eqn:E; intros [= <- <-].
  split; [done|split; [done|]]. apply available_spec. rewrite E. by apply (nth_mod_elem (first :: l)).
Qed.

Lemma pickEndpoint_inr now p p' until :
  pickEndpoint now p = (p', inr until) →
  p' = p ∧ until = earliest_cooldown now p ∧ Forall (λ e, rested now e = false) (pp_endpoints p).
Proof.
  unfold pickEndpoint. destruct (available now p) as [|first l] eqn:E; [|done]. intros [= <- <-].
  split; [done|split; [done|]]. apply Forall_lookup. intros i e He. destruct (rested now e) eqn:Er; [|done].
  exfalso. assert (i ∈ available now p) as Hi by (apply available_spec; eauto). rewrite E in Hi.
  by apply not_elem_of_nil in Hi.
Qed.

(** ** Turns *)

(** The endpoints chosen at the given readings of the clock. *)
Fixpoint turns (nows : list Time) (p : proxyPool) : list nat :=
  match nows with
  | [] => []
  | now :: nows =>
      let '(p, chosen) := pickEndpoint now p in
      match chosen with inl i => i :: turns nows p | inr _ => turns nows p end
  end.

Lemma available_with_counter now n p : available now (with_counter n p) = available now p.
Proof. done. Qed.

Lemma turns_nth nows p l first :
  (∀ now, now ∈ nows → available now p = first :: l) →
  0 ≤ pp_counter p → pp_counter p + Z.of_nat (length nows) < 2 ^ 64 →
  turns nows p =
    (λ k, nth (Z.to_nat ((pp_counter p + 1 + Z.of_nat k) mod Z.of_nat (length (first :: l)))) (first :: l) first)
    <$> seq 0 (length nows).
Proof.
  revert p. induction nows as [|now nows IH]; intros p Hl H0 Hc; [done|].
  cbn [turns length] in *. unfold pickEndpoint. rewrite (Hl now) by by left. cbn [seq fmap list_fmap].
  replace (wrapu64 (pp_counter p + 1)) with (pp_counter p + 1) by (unfold wrapu64; rewrite Z.mod_small; lia).
  rewrite Z.add_0_r. f_equal. rewrite IH; cbn [pp_counter with_counter]; [|intros now' Hn; rewrite available_with_counter; apply Hl; by right|lia..].
  rewrite <- seq_shift, <- list_fmap_compose. apply list_fmap_ext. intros _ k _. cbn [compose].
  do 2 f_equal. f_equal. lia.
Qed.

Lemma rotation_perm {A} (l : list A) (x : A) (c : Z) :
  (λ k, nth (Z.to_nat ((c + Z.of_nat k) mod Z.of_nat (length l))) l x) <$> seq 0 (length l) ≡ₚ l.
Proof.
  destruct (decide (l = [])) as [->|Hl]; [done|]. set (n := length l).
  assert (0 < Z.of_nat n) as Hn by (subst n; destruct l; cbn; [done|lia]).
  trans ((λ k, nth k l x) <$> seq 0 n).
  2: { apply reflexive_eq, list_eq. intros i. rewrite list_lookup_fmap.
       destruct (decide (i < n)%nat) as [Hi|Hi].
       - rewrite lookup_seq_lt by done. cbn. destruct (lookup_lt_is_Some_2 l i Hi) as [a Ha].
         rewrite Ha. by rewrite (nth_lookup_Some _ _ _ _ Ha).
       - rewrite lookup_seq_ge by lia. cbn. symmetry. apply lookup_ge_None_2. subst n. lia. }
  trans ((λ k, nth k l x) <$> ((λ k, Z.to_nat ((c + Z.of_nat k) mod Z.of_nat n)) <$> seq 0 n)).
  { apply reflexive_eq. by rewrite <- list_fmap_compose. }
  apply fmap_Permutation. symmetry. apply submseteq_length_Permutation; [|by rewrite length_fmap].
  apply NoDup_submseteq; [apply NoDup_seq|]. intros k Hk%elem_of_seq. apply list_elem_of_fmap.
  exists (Z.to_nat ((Z.of_nat k - c) mod Z.of_nat n)).
  pose proof (Z.mod_pos_bound (Z.of_nat k - c) (Z.of_nat n) Hn). split; [|apply elem_of_seq; lia].
  rewrite Z2Nat.id by lia. rewrite Zplus_mod_idemp_r. replace (c + (Z.of_nat k - c)) with (Z.of_nat k) by lia.
  rewrite Z.mod_small by lia. lia.
Qed.

(** The proxies take turns. As long as the same proxies are available, as many picks as
    there are of them choose each of them exactly once, whatever the counter (short of its
    wrap-around) and whenever the picks happen. *)
Theorem proxies_take_turns (nows : list Time) (p : proxyPool) (l : list nat) :
  (∀ now, now ∈ nows → available now p = l) → length nows = length l →
  0 ≤ pp_counter p → pp_counter p + Z.of_nat (length nows) < 2 ^ 64 →
  turns nows p ≡ₚ l.
Proof.
  intros Hl Hn H0 Hc. destruct l as [|first l]; [by destruct nows|].
  rewrite (turns_nth nows p l first) by done. rewrite Hn. apply rotation_perm.
Qed.

(** ** Blocks *)

(** The transport and the crawlers agree on what a block is. *)
Theorem block_reason_spec r :
  is_Some (block_reason r) ↔ isProxyBlock r (stake peek_limit (pr_Body r)) = true.
Proof.
  unfold block_reason, isProxyBlock. destruct (_ =? StatusTooManyRequests); [by split; eauto|].
  destruct (_ || (_ =? _)); [|split; [by intros [? [=]]|done]].
  destruct (cloudflare_headers r); [by split; eauto|]. cbn [orb].
  by destruct (contains_any _ _).
Qed.

Lemma normalized_rests cfg : 0 < pc_CooldownDuration (normalized cfg).
Proof. unfold normalized. cbn. destruct (Z.ltb_spec 0 (pc_CooldownDuration cfg)); [done|by vm_compute]. Qed.

Lemma mark_first_at key until l i e :
  NoDup (ep_key <$> l) → l !! i = Some e → ep_key e = key →
  ∀ j, mark_first key until l !! j =
    if decide (j = i) then Some {| ep_key := key; ep_cooldown := until |} else l !! j.
Proof.
  revert i. induction l as [|a l IH]; intros i Hnd Hi Hk j; [done|].
  apply NoDup_cons in Hnd as [Hn Hnd]. cbn [mark_first]. destruct i as [|i].
  - injection Hi as ->. rewrite Hk, String.eqb_refl. by destruct j.
  - cbn in Hi. destruct (String.eqb_spec (ep_key a) key) as [E|_].
    + exfalso. apply Hn. rewrite E, <- Hk. apply list_elem_of_fmap. exists e. split; [done|].
      by eapply list_elem_of_lookup_2.
    + destruct j as [|j]; [by rewrite decide_False by done|]. cbn. rewrite (IH i) by done.
      destruct (decide (j = i)) as [->|]; [by rewrite decide_True by done|rewrite decide_False by lia; done].
Qed.

Lemma mark_first_keys key until l : ep_key <$> mark_first key until l = ep_key <$> l.
Proof.
  induction l as [|e l IH]; [done|]. cbn. destruct (String.eqb_spec (ep_key e) key) as [<-|]; [done|].
  cbn. by rewrite IH.
Qed.

(** The indices a trip works with. *)
Definition trip_index (s : trip) : option nat :=
  match s with
  | Asking | Waiting _ | Recording _ => None
  | Limited i | Storing i | Indexing i | Ready i | Sent i _ | Refused i _ _ | Marking i _ _ _ => Some i
  end.

(** [Marked i via read] is the last mark of the proxy in the log, the newest event first. *)
Definition last_mark (i : nat) (read : Time) (l : list pool_event) : Prop :=
  ∃ between via before, l = between ++ Marked i via read :: before
    ∧ ∀ via' read', Marked i via' read' ∉ between.

Lemma last_mark_cons i read e l :
  last_mark i read (e :: l) →
  (∃ via, e = Marked i via read) ∨ (∀ via' read', e ≠ Marked i via' read') ∧ last_mark i read l.
Proof.
  intros ([|e' between] & via & before & E & Hn); injection E as -> ->; [left; by eexists|right]. split.
  - intros via' read' ->. apply (Hn via' read'). by left.
  - exists between, via, before. split; [done|]. intros via' read' Hin. apply (Hn via' read'). by right.
Qed.

Section rest.
Context `{DayLib} (keys : list string) (rest : Duration) (Hrestpos : 0 < rest).

(** The proxies rest from the reading of their last mark on. *)
Record at_rest (t : RotatingProxyTransport) : Prop := {
  ar_clock : 0 < rt_clock t;
  ar_keys : ep_key <$> pp_endpoints (rt_pool t) = keys;
  ar_rest : pc_CooldownDuration (pp_cfg (rt_pool t)) = rest;
  ar_trips : ∀ id s i, rt_trips t !! id = Some s → trip_index s = Some i → (i < length keys)%nat;
  ar_read : ∀ id i via r read, rt_trips t !! id = Some (Marking i via r read) → 0 < read ≤ rt_clock t;
  ar_past : ∀ i via read, Marked i via read ∈ rt_log t → 0 < read ≤ rt_clock t;
  ar_resting : ∀ i read, last_mark i read (rt_log t) →
    ∃ e, pp_endpoints (rt_pool t) !! i = Some e ∧ (ep_cooldown e = read + rest ∨ read + rest < rt_clock t);
  ar_log : ∀ i read u later earlier, rt_log t = later ++ Picked i u :: earlier →
    last_mark i read earlier → read + rest < u }.

(** Nothing but the trips, the governor and the two last proxies changed. *)
Definition same_pool (t t' : RotatingProxyTransport) : Prop :=
  rt_pool t' = rt_pool t ∧ rt_clock t' = rt_clock t ∧ rt_log t' = rt_log t.

Lemma at_rest_same t t' :
  same_pool t t' → (∀ id s i, rt_trips t' !! id = Some s → trip_index s = Some i → (i < length keys)%nat) →
  (∀ id i via r read, rt_trips t' !! id = Some (Marking i via r read) → 0 < read ≤ rt_clock t') →
  at_rest t → at_rest t'.
Proof.
  intros (Hp & Hc & Hl) Ht Hr [? ? ? ? ? ? ? ?]. split; rewrite ?Hp, ?Hc, ?Hl; try done. by rewrite <- Hc.
Qed.

(** Where a trip may go. *)
Definition sound_trip (now : Time) (s : trip) : Prop :=
  (∀ i, trip_index s = Some i → (i < length keys)%nat)
  ∧ match s with Marking _ _ _ read => 0 < read ≤ now | _ => True end.

Lemma at_rest_trip t id s : (∀ s', s = Some s' → sound_trip (rt_clock t) s') → at_rest t → at_rest (set_trip id s t).
Proof.
  intros Hs Ht. apply (at_rest_same t); [done| | |done]; cbn.
  - intros id' s' i. destruct (decide (id = id')) as [<-|Hn].
    + rewrite lookup_partial_alter_eq. intros -> Hi. by apply (Hs s' eq_refl).
    + rewrite lookup_partial_alter_ne by done. by apply ar_trips.
  - intros id' i via r read. destruct (decide (id = id')) as [<-|Hn].
    + rewrite lookup_partial_alter_eq. intros ->. by apply (Hs _ eq_refl).
    + rewrite lookup_partial_alter_ne by done. by apply ar_read.
Qed.

Lemma cons_split {A} (x y : A) later earlier l :
  x :: l = later ++ y :: earlier → (later = [] ∧ x = y ∧ l = earlier) ∨ ∃ later', l = later' ++ y :: earlier.
Proof. destruct later as [|z later]; intros [= -> ->]; [by left|right; eauto]. Qed.

(** An event that is not a mark, and when it is a pick, one of a rested proxy. *)
Lemma at_rest_log t e :
  at_rest t → (∀ i via read, e ≠ Marked i via read) →
  (∀ i u read, e = Picked i u → last_mark i read (rt_log t) → read + rest < u) → at_rest (log_event e t).
Proof.
  intros [Hc Hk Hr Ht Hrd Hp Hs Hl] Hm He. split; cbn; try done.
  - intros j via read [E|Hj]%elem_of_cons; [by destruct (Hm j via read)|by eapply Hp].
  - intros j read [(via & E)|[_ Hj]]%last_mark_cons; [by destruct (Hm j via read)|by apply Hs].
  - intros j read u later earlier [(-> & E & <-)|(later' & El)]%cons_split Hb; [by eapply He|by eapply Hl].
Qed.

Lemma at_rest_picked t p i :
  at_rest t → pickEndpoint (rt_clock t) (rt_pool t) = (p, inl i) →
  at_rest (log_event (Picked i (rt_clock t)) (set_pool p t)).
Proof.
  intros Hat Epick. destruct (pickEndpoint_inl _ _ _ _ Epick) as (Ee & Ecfg & e & He & Hrest).
  apply at_rest_log; [|done|].
  - destruct Hat as [Hc Hk Hr Ht Hrd Hp Hs Hl]. split; cbn; rewrite ?Ee, ?Ecfg; done.
  - intros j u read [= <- <-] Hb. cbn in Hb. destruct (ar_resting t Hat _ _ Hb) as (e' & He' & [Hcool|]); [|done].
    assert (0 < read) as Hpos.
    { destruct Hb as (between & via & before & E & _). apply (ar_past t Hat i via). rewrite E. apply elem_of_app. right. by left. }
    rewrite He in He'. injection He' as <-. unfold rested, is_zero_time, zero_time, time_after in Hrest.
    apply orb_true_iff in Hrest as [Hz%Z.eqb_eq|Hlt%Z.ltb_lt]; [|lia].
    assert (0 < rest) by exact Hrestpos. lia.
Qed.

Lemma at_rest_pruned t now : now ≤ rt_clock t → at_rest t → at_rest (set_pool (pruneCooldowns now (rt_pool t)) t).
Proof.
  intros Hnow [Hc Hk Hr Ht Hrd Hp Hs Hl]. split; cbn; try done.
  - rewrite <- list_fmap_compose, <- Hk. apply list_fmap_ext. intros _ e _. cbn. by destruct (_ && _).
  - intros i read Hb. destruct (Hs _ _ Hb) as (e & He & Hcool). rewrite list_lookup_fmap, He. eexists. split; [done|].
    destruct (_ && _) eqn:Ez; [|done]. apply andb_true_iff in Ez as [_ Ha%Z.ltb_lt]. cbn. destruct Hcool; [right; lia|by right].
Qed.

(** The locked part of a mark. *)
Lemma at_rest_marked t i via read :
  NoDup keys → (i < length keys)%nat → 0 < read ≤ rt_clock t → at_rest t →
  at_rest (log_event (Marked i via read) (set_pool (markCooldown (key_of i t) read (rt_pool t)) t)).
Proof.
  intros Hnd Hi Hread [Hc Hk Hr Ht Hrd Hp Hs Hl].
  assert (is_Some (pp_endpoints (rt_pool t) !! i)) as [e He].
  { apply lookup_lt_is_Some_2. by rewrite <- (length_fmap ep_key), Hk. }
  assert (ep_key e = key_of i t) as Hkey by (unfold key_of; by rewrite He).
  assert (NoDup (ep_key <$> pp_endpoints (rt_pool t))) as Hnd' by by rewrite Hk.
  split; cbn; try done.
  - by rewrite mark_first_keys.
  - intros j via' read' [[= -> _ ->]|Hj]%elem_of_cons; [done|by eapply Hp].
  - intros j read' Hb. rewrite (mark_first_at _ _ _ i e) by done. rewrite Hr. unfold time_add.
    apply last_mark_cons in Hb as [(via' & [= <- _ <-])|[Hne Hb]].
    + rewrite decide_True by done. eexists. split; [done|]. by left.
    + destruct (Hs _ _ Hb) as (e' & He' & Hcool). rewrite decide_False; [by exists e'|].
      intros ->. by destruct (Hne via read).
  - intros j read' u later earlier [(_ & [=] & _)|(later' & El)]%cons_split Hb. by eapply Hl.
Qed.

Lemma at_rest_egress t resp w : at_rest t → at_rest (recordEgress resp w t).
Proof.
  intros Ht. unfold recordEgress. destruct resp as [r|]; [|done]. destruct (_ || _); [done|].
  destruct (rt_governor t) as [g|]; [|done]. destruct (Record_bytes _ _ _ _ _) as [g' file].
  apply (at_rest_same t); [done|exact (ar_trips t Ht)|exact (ar_read t Ht)|done].
Qed.

Lemma at_rest_allowed t t' ok : budget_allows t = (t', ok) → at_rest t → at_rest t'.
Proof.
  unfold budget_allows. case_bool_decide; [by intros [= <- _]|].
  destruct (rt_governor t) as [g|]; [|by intros [= <- _]]. destruct (Allow g _) as [g' a]. intros [= <- _] Ht.
  apply (at_rest_same t); [done|exact (ar_trips t Ht)|exact (ar_read t Ht)|done].
Qed.

Lemma at_rest_clock t now : rt_clock t ≤ now → at_rest t → at_rest (set_clock now t).
Proof.
  intros Hnow [Hc Hk Hr Htr Hrd Hp Hs Hl]. split; cbn; try done; [lia| | |].
  - intros id i via r read Hid. specialize (Hrd id i via r read Hid). lia.
  - intros i via read Hb. specialize (Hp i via read Hb). lia.
  - intros i read Hb. destruct (Hs i read Hb) as (e & He & [?|?]); exists e; (split; [done|]); [by left|right; lia].
Qed.

(** The trips keep their index; nothing else is asked of them before a mark. *)
Lemma same_index t id s s' :
  at_rest t → rt_trips t !! id = Some s → trip_index s' = trip_index s ∨ trip_index s' = None →
  match s' with Marking _ _ _ _ => False | _ => True end → sound_trip (rt_clock t) s'.
Proof.
  intros Ht Hid Hi Hm. split; [|by destruct s']. intros i Ei. destruct Hi as [Hi|Hi]; [|congruence].
  apply (ar_trips t Ht id s); congruence.
Qed.

Lemma at_rest_step t t' : NoDup keys → trip_step t t' → at_rest t → at_rest t'.
Proof.
  intros Hnd Hstep Ht. assert (Hidx := ar_trips t Ht).
  destruct Hstep as [t now Hnow|t t' id Hid Eb|t t' Eb|t id p i Hid Ep|t id p until Hid Hne Ep|t id until now Hid Hu Hnow
    |t id until Hid|t id s Hid Hs|t id i Hid|t id i Hid|t id i Hid|t id i Hid|t id i via resp Hid|t id i via r Hid
    |t id i via r read Hid|t id resp w Hid].
  - by apply at_rest_clock.
  - apply at_rest_trip; [by intros s' [= <-]|]. by eapply at_rest_allowed.
  - by eapply at_rest_allowed.
  - assert (i < length keys)%nat as Hi.
    { destruct (pickEndpoint_inl _ _ _ _ Ep) as (_ & _ & e & He & _).
      rewrite <- (ar_keys t Ht), length_fmap. by apply lookup_lt_Some in He. }
    change (at_rest (set_trip id (Some (Limited i)) (log_event (Picked i (rt_clock t)) (set_pool p t)))).
    apply at_rest_trip; [|by apply at_rest_picked]. intros s' [= <-]. split; [by intros j [= <-]|done].
  - destruct (pickEndpoint_inr _ _ _ _ Ep) as (-> & _).
    change (at_rest (set_trip id (Some (Waiting until)) t)). apply at_rest_trip; [by intros s' [= <-]|done].
  - apply at_rest_trip; [by intros s' [= <-]|]. by apply at_rest_pruned.
  - by apply at_rest_trip; [intros s' [= <-]|].
  - by apply at_rest_trip.
  - apply at_rest_trip; [|done]. intros s' [= <-]. eapply same_index; eauto.
  - change (at_rest (set_current (Some i) (set_trip id (Some (Indexing i)) t))).
    assert (at_rest (set_trip id (Some (Indexing i)) t)) as Ht'
      by (apply at_rest_trip; [intros s' [= <-]; eapply same_index; eauto|done]).
    apply (at_rest_same (set_trip id (Some (Indexing i)) t)); [done|exact (ar_trips _ Ht')|exact (ar_read _ Ht')|done].
  - assert (at_rest (set_trip id (Some (Ready i)) t)) as Ht'
      by (apply at_rest_trip; [intros s' [= <-]; eapply same_index; eauto|done]).
    apply (at_rest_same (set_trip id (Some (Ready i)) t)); [done|exact (ar_trips _ Ht')|exact (ar_read _ Ht')|done].
  - apply at_rest_log; [|done|done]. apply at_rest_trip; [|done]. intros s' [= <-]. eapply same_index; eauto.
  - apply at_rest_trip; [|done]. intros s' [= <-]. unfold after_response.
    destruct resp as [r|]; [destruct (block_reason r)|]; eapply same_index; eauto.
  - apply at_rest_trip; [|done]. intros s' [= <-]. split; [|cbn; pose proof (ar_clock t Ht); lia].
    intros j [= <-]. by eapply Hidx.
  - change (at_rest (set_trip id (Some (Recording (Some r)))
      (log_event (Marked i via read) (set_pool (markCooldown (key_of i t) read (rt_pool t)) t)))).
    apply at_rest_trip; [by intros s' [= <-]|]. apply at_rest_marked; [done|by eapply Hidx|by eapply ar_read|done].
  - apply at_rest_trip; [done|]. by apply at_rest_egress.
Qed.
End rest.

(** C14. A proxy that is marked rests. However the trips interleave — many requests at once, answers
    in any order, cancelled requests, sleeps of any length —, after the last mark of a proxy it is
    not picked again before the configured rest has passed since the reading of the clock that
    came with that mark; picks may still fall between the answer, that reading and the mark. The proxy
    that is marked is the one the request had acquired, whichever proxy it went through
    ([concurrent_trips_swap]). No two proxies may have the same address: only the first of two is
    marked ([same_address_twice]). *)
Theorem blocked_proxy_rests `{DayLib} (parsed : list string) (cfg : ProxyPoolConfig) (sourceID : string)
    (g : option Governor) (file : option stateFile) (start : Time) (t : RotatingProxyTransport)
    (i : nat) (via : option nat) (read picked : Time) (later between earlier : list pool_event) :
  NoDup parsed → 0 < start → rtc trip_step (new_transport parsed cfg sourceID g file start) t →
  rt_log t = later ++ Picked i picked :: between ++ Marked i via read :: earlier →
  (∀ via' read', Marked i via' read' ∉ between) →
  read + pc_CooldownDuration (normalized cfg) < picked.
Proof.
  intros Hnd H0 Hr Hlog Hb.
  enough (at_rest parsed (pc_CooldownDuration (normalized cfg)) t) as Ht
    by (eapply ar_log; [exact Ht|exact Hlog|by eexists _, _, _]).
  clear Hlog Hb. assert (at_rest parsed (pc_CooldownDuration (normalized cfg))
    (new_transport parsed cfg sourceID g file start)) as Hinit.
  { split; cbn; try done.
    - clear. induction parsed as [|u l IH]; cbn; [done|by f_equal].
    - by intros i' via' s ?%not_elem_of_nil.
    - by intros i' s ([] & ? & ? & ? & _).
    - by intros i' s u [] earlier' E ?. }
  induction Hr as [|x y z Hxy Hr IH]; [done|]. apply IH.
  eapply at_rest_step; [apply normalized_rests|done..].
Qed.

(** ** A request waits, and then goes *)

(** The clock of a request that waits alone: it never goes back, moves between two attempts, and
    passes every sleep. *)
Record waiting_clock (clock : nat → Time) (p : proxyPool) : Prop := {
  wc_mono : ∀ n, clock n ≤ clock (S n);
  wc_moves : ∀ n, clock (3 * n + 1)%nat < clock (3 * S n)%nat;
  wc_sleeps : ∀ n until, until = earliest_cooldown (clock (3 * n)%nat) p →
    clock (3 * n + 1)%nat + nap (clock (3 * n + 1)%nat) until ≤ clock (3 * S n)%nat }.

Lemma pick_available now p i e :
  pp_endpoints p !! i = Some e → rested now e = true → ∃ p' j, pickEndpoint now p = (p', inl j).
Proof.
  intros He Hr. unfold pickEndpoint. destruct (available now p) as [|first l] eqn:E; [|eauto].
  assert (i ∈ available now p) as Hi by (apply available_spec; eauto). rewrite E in Hi. by apply not_elem_of_nil in Hi.
Qed.

Lemma earliest_from now l t :
  let t' := foldl (λ t e, if rested now e then t
                else if is_zero_time t || time_before (ep_cooldown e) t then ep_cooldown e else t) t l in
  (t' = t ∨ ∃ i e, l !! i = Some e ∧ ep_cooldown e = t' ∧ rested now e = false)
  ∧ (t' = 0 → Forall (λ e, rested now e = true) l).
Proof.
  revert t. induction l as [|e l IH]; intros t; cbn; [by split; [left|]|].
  destruct (rested now e) eqn:Er.
  { destruct (IH t) as [[->|(i & e' & Hi & Hc & Hr)] Hall].
    - split; [by left|]. intros Hz. constructor; [done|]. by apply Hall.
    - split; [right; exists (S i), e'; by repeat split|]. intros Hz. constructor; [done|]. by apply Hall. }
  assert (ep_cooldown e ≠ 0) as Hnz.
  { unfold rested, is_zero_time in Er. apply orb_false_iff in Er as [Hz%Z.eqb_neq _]. exact Hz. }
  set (u := if _ || _ then ep_cooldown e else t).
  assert (u ≠ 0) as Hu.
  { subst u. destruct (_ || _) eqn:Eo; [done|]. apply orb_false_iff in Eo as [Hz%Z.eqb_neq _]. exact Hz. }
  destruct (IH u) as [[E|(i & e' & Hi & Hc & Hr)] Hall].
  - split; [|by rewrite E]. rewrite E. subst u. destruct (_ || _); [right; exists O, e; by repeat split|by left].
  - split; [right; exists (S i), e'; by repeat split|]. intros Hz.
    exfalso. specialize (Hall Hz). rewrite Forall_lookup in Hall. specialize (Hall _ _ Hi). congruence.
Qed.

(** When no endpoint is available, one of them rests until the earliest time. *)
Lemma earliest_is_one now p p' until :
  pp_endpoints p ≠ [] → pickEndpoint now p = (p', inr until) →
  p' = p ∧ until = earliest_cooldown now p ∧ now ≤ until
  ∧ ∃ i e, pp_endpoints p !! i = Some e ∧ ep_cooldown e = until.
Proof.
  intros Hne Hp. destruct (pickEndpoint_inr _ _ _ _ Hp) as (-> & -> & Hall). split; [done|split; [done|]].
  destruct (earliest_from now (pp_endpoints p) zero_time) as [[E|(i & e & Hi & Hc & Hr)] Hz]; fold (earliest_cooldown now p) in *.
  - exfalso. specialize (Hz E). destruct (pp_endpoints p) as [|e l]; [done|].
    apply Forall_cons in Hz as [Hz _]. apply Forall_cons in Hall as [Hf _]. congruence.
  - split; [|by exists i, e]. rewrite <- Hc. unfold rested, time_after in Hr.
    apply orb_false_iff in Hr as [_ Hl%Z.ltb_ge]. done.
Qed.

Lemma earliest_same now now' p :
  Forall (λ e, rested now e = false) (pp_endpoints p) → Forall (λ e, rested now' e = false) (pp_endpoints p) →
  earliest_cooldown now p = earliest_cooldown now' p.
Proof.
  unfold earliest_cooldown. generalize zero_time. induction (pp_endpoints p) as [|e l IH]; intros t H1 H2; [done|].
  apply Forall_cons in H1 as [H1 H1']. apply Forall_cons in H2 as [H2 H2']. cbn. rewrite H1, H2. by apply IH.
Qed.

Lemma rested_pruned now now' p i e :
  pp_endpoints p !! i = Some e → rested now' e = true →
  ∃ e', pp_endpoints (pruneCooldowns now p) !! i = Some e' ∧ rested now' e' = true.
Proof.
  intros He Hr. cbn. rewrite list_lookup_fmap, He. eexists. split; [done|]. destruct (_ && _); [|done]. done.
Qed.

Section waits.
Context (clock : nat → Time) (p : proxyPool) (Hclock : waiting_clock clock p) (Hne : pp_endpoints p ≠ []).
Context (Hrange : ∀ i e n, pp_endpoints p !! i = Some e →
  ep_cooldown e - clock n ≤ max_int64).

(** An attempt finds a proxy or is followed by the next one, nearer to the end of the rest. *)
Lemma attempt_from m n until :
  (∀ p' w, pickEndpoint (clock (3 * n)%nat) p = (p', inr w) → w = until) →
  until - clock (3 * n)%nat ≤ Z.of_nat m * longest_nap →
  ∃ p' i k, attempt (m + 2) n clock p = Got p' i k.
Proof using Hclock Hne Hrange.
  destruct Hclock as [Hmono Hmoves Hsleeps]. revert n.
  induction m as [|m IH]; intros n Huntil Hw.
  all: destruct (pickEndpoint (clock (3 * n)%nat) p) as [p1 [i|w]] eqn:Ep;
    [eexists p1, i, n; cbn [Nat.add attempt]; rewrite Ep; done|].
  all: specialize (Huntil _ _ eq_refl); subst w.
  all: destruct (earliest_is_one _ _ _ _ Hne Ep) as (-> & Hu & Hle & i & e & He & Hcool).
  all: assert (Hnext : until < clock (3 * S n)%nat → ∀ q, q = p ∨ q = pruneCooldowns (clock (3 * n + 2)%nat) p →
         ∃ p' j, pickEndpoint (clock (3 * S n)%nat) q = (p', inl j)).
  1,3: intros Hlt q Hq.
  1,2: assert (rested (clock (3 * S n)%nat) e = true) as Hr by
         (unfold rested, time_after; rewrite Hcool; apply orb_true_iff; right; by apply Z.ltb_lt);
       destruct Hq as [->| ->]; [by eapply pick_available|];
       destruct (rested_pruned (clock (3 * n + 2)%nat) _ _ _ _ He Hr) as (e' & He' & Hr'); by eapply pick_available.
  all: assert (Hm := Hmoves n); assert (Hs := Hsleeps n until Hu); assert (H01 := Hmono (3 * n)%nat).
  all: replace (S (3 * n)) with (3 * n + 1)%nat in H01 by lia.
  all: assert (Hsub : time_sub until (clock (3 * n + 1)%nat) = Z.max min_int64 (until - clock (3 * n + 1)%nat)) by
         (specialize (Hrange i e (3 * n + 1)%nat He); rewrite Hcool in Hrange; unfold time_sub; lia).
  - cbn [Nat.add attempt]. rewrite Ep. destruct (Hnext ltac:(lia)
      (if time_sub until (clock (3 * n + 1)%nat) <=? 0 then pruneCooldowns (clock (3 * n + 2)%nat) p else p)
      ltac:(destruct (_ <=? 0); auto)) as (p' & j & Ej).
    rewrite Ej. eauto.
  - assert (S m + 2 = S (m + 2))%nat as -> by lia. cbn [attempt]. rewrite Ep.
    unfold nap in Hs. rewrite Hsub in *.
    destruct (Z.leb_spec (Z.max min_int64 (until - clock (3 * n + 1)%nat)) 0).
    + destruct (Hnext ltac:(lia) _ (or_intror eq_refl)) as (p' & j & Ej).
      replace (m + 2)%nat with (S (m + 1)) by lia. cbn [attempt]. rewrite Ej. eauto.
    + apply IH.
      * intros p' w Ew. destruct (pickEndpoint_inr _ _ _ _ Ew) as (_ & -> & H2).
        destruct (pickEndpoint_inr _ _ _ _ Ep) as (_ & -> & H1). by apply earliest_same.
      * destruct (Z.ltb_spec longest_nap (Z.max min_int64 (until - clock (3 * n + 1)%nat)));
          unfold longest_nap, second, millisecond, min_int64 in *; lia.
Qed.
End waits.

(** A request that waits for a proxy gets one. A request that waits alone, whose limiter and
    context let it pass, gets a proxy: when the first rest to end has at most [m] half
    minutes left, within [m + 2] attempts. *)
Theorem acquire_returns (clock : nat → Time) (p : proxyPool) (m : nat) :
  pp_endpoints p ≠ [] → waiting_clock clock p →
  (∀ i e n, pp_endpoints p !! i = Some e → ep_cooldown e - clock n ≤ max_int64) →
  earliest_cooldown (clock O) p - clock O ≤ Z.of_nat m * longest_nap →
  ∃ p' i k, acquire (m + 2) clock p = Got p' i k.
Proof.
  intros Hne Hc Hr Hm. unfold acquire. destruct (pp_endpoints p) as [|e l] eqn:E; [done|]. rewrite <- E in *.
  eapply (attempt_from clock p Hc Hne Hr m O); [|exact Hm].
  intros p' w Ew. by destruct (pickEndpoint_inr _ _ _ _ Ew) as (_ & -> & _).
Qed.

(** ** One request after the other, and two at once *)

Definition alone (t : RotatingProxyTransport) : Prop :=
  ∀ id id', is_Some (rt_trips t !! id) → is_Some (rt_trips t !! id') → id = id'.

Record as_picked (t : RotatingProxyTransport) : Prop := {
  ap_pool : pp_endpoints (rt_pool t) ≠ [];
  ap_current : ∀ id i, rt_trips t !! id = Some (Indexing i) ∨ rt_trips t !! id = Some (Ready i) →
    rt_currentProxy t = Some i;
  ap_log : ∀ i via, Went i via ∈ rt_log t → via = Some i }.

Section alone.
Context `{DayLib}.

Lemma as_picked_trip t id s :
  (∀ i, s = Some (Indexing i) ∨ s = Some (Ready i) → rt_currentProxy t = Some i) →
  as_picked t → as_picked (set_trip id s t).
Proof.
  intros Hs [Hp Ht Hl]. split; [done| |done]. intros id' i Hi. cbn in *. destruct (decide (id = id')) as [<-|Hn].
  - rewrite lookup_partial_alter_eq in Hi. by apply Hs.
  - rewrite lookup_partial_alter_ne in Hi by done. by apply (Ht id').
Qed.

Lemma as_picked_same t t' :
  rt_trips t' = rt_trips t → rt_currentProxy t' = rt_currentProxy t → rt_log t' = rt_log t →
  (pp_endpoints (rt_pool t') = [] → pp_endpoints (rt_pool t) = []) → as_picked t → as_picked t'.
Proof. intros E1 E2 E3 Hn [Hp Ht Hl]. split; rewrite ?E1, ?E2, ?E3; auto. Qed.

Lemma as_picked_log t e : (∀ i via, e = Went i via → via = Some i) → as_picked t → as_picked (log_event e t).
Proof. intros He [Hp Ht Hl]. split; [done..|]. intros i via [<-|Hi]%elem_of_cons; [by apply He|by apply Hl]. Qed.

Lemma as_picked_allowed t t' ok : budget_allows t = (t', ok) → as_picked t → as_picked t'.
Proof.
  unfold budget_allows. case_bool_decide; [by intros [= <- _]|].
  destruct (rt_governor t) as [g|]; [|by intros [= <- _]]. destruct (Allow g _). intros [= <- _].
  by apply as_picked_same.
Qed.

Lemma egress_same t resp w : let t' := recordEgress resp w t in
  rt_trips t' = rt_trips t ∧ rt_currentProxy t' = rt_currentProxy t ∧ rt_pool t' = rt_pool t ∧ rt_log t' = rt_log t.
Proof.
  unfold recordEgress. destruct resp; [|done]. destruct (_ || _); [done|]. destruct (rt_governor t); [|done].
  by destruct (Record_bytes _ _ _ _ _).
Qed.

Lemma mark_endpoints key read p : pp_endpoints (markCooldown key read p) = [] → pp_endpoints p = [].
Proof. cbn. destruct (pp_endpoints p) as [|e l]; [done|]. cbn. by destruct (String.eqb _ _). Qed.

Lemma as_picked_step t t' : trip_step t t' → alone t' → as_picked t → as_picked t'.
Proof.
  intros Hstep Ha Hp. assert (Ht := ap_current t Hp).
  destruct Hstep as [t now Hnow|t t' id Hid Eb|t t' Eb|t id p i Hid Ep|t id p until Hid Hne Ep|t id until now Hid Hu Hnow
    |t id until Hid|t id s Hid Hs|t id i Hid|t id i Hid|t id i Hid|t id i Hid|t id i via resp Hid|t id i via r Hid
    |t id i via r read Hid|t id resp w Hid].
  - by apply (as_picked_same t).
  - apply as_picked_trip; [by intros i [[=]|[=]]|]. by eapply as_picked_allowed.
  - by eapply as_picked_allowed.
  - apply as_picked_log; [done|]. apply as_picked_trip; [by intros j [[=]|[=]]|].
    destruct (pickEndpoint_inl _ _ _ _ Ep) as (Ee & _). apply (as_picked_same t); try done. cbn. congruence.
  - destruct (pickEndpoint_inr _ _ _ _ Ep) as (-> & _). apply as_picked_trip; [by intros j [[=]|[=]]|].
    by apply (as_picked_same t).
  - apply as_picked_trip; [by intros j [[=]|[=]]|]. apply (as_picked_same t); try done. cbn.
    by destruct (pp_endpoints (rt_pool t)).
  - by apply as_picked_trip; [intros j [[=]|[=]]|].
  - by apply as_picked_trip; [intros j [[=]|[=]]|].
  - by apply as_picked_trip; [intros j [[=]|[=]]|].
  - destruct Hp as [Hpool _ Hl]. split; [done| |done]. cbn. intros id' j Hj.
    assert (id' = id) as ->.
    { apply Ha; cbn; [by destruct Hj as [->| ->]|by rewrite lookup_partial_alter_eq]. }
    rewrite lookup_partial_alter_eq in Hj. by destruct Hj as [[= ->]|[=]].
  - apply as_picked_trip; [|by apply (as_picked_same t)]. intros j [[=]|[= <-]]. apply (Ht id). by left.
  - assert (proxyFunc t = Some i) as ->.
    { unfold proxyFunc. rewrite bool_decide_false by apply (ap_pool t Hp). apply (Ht id). by right. }
    apply as_picked_log; [by intros j via [= <- <-]|]. by apply as_picked_trip; [intros j [[=]|[=]]|].
  - apply as_picked_trip; [|done]. intros j Hj. unfold after_response in Hj. by repeat case_match; destruct Hj as [[=]|[=]].
  - by apply as_picked_trip; [intros j [[=]|[=]]|].
  - apply as_picked_log; [done|]. apply as_picked_trip; [by intros j [[=]|[=]]|].
    apply (as_picked_same t); [done..| |done]. apply mark_endpoints.
  - apply as_picked_trip; [by intros j [[=]|[=]]|].
    destruct (egress_same t resp w) as (E1 & E2 & E3 & E4). apply (as_picked_same t); rewrite ?E1, ?E2, ?E3, ?E4; done.
Qed.
End alone.

(** One request at a time goes through the proxy that was picked for it. *)
Theorem lone_trips_keep_their_proxy `{DayLib} (parsed : list string) (cfg : ProxyPoolConfig) (sourceID : string)
    (g : option Governor) (file : option stateFile) (start : Time) (t : RotatingProxyTransport) :
  parsed ≠ [] →
  rtc (λ t t', trip_step t t' ∧ alone t') (new_transport parsed cfg sourceID g file start) t →
  ∀ i via, Went i via ∈ rt_log t → via = Some i.
Proof.
  intros Hne Hr. enough (as_picked t) as Hp by apply (ap_log t Hp).
  assert (as_picked (new_transport parsed cfg sourceID g file start)) as H0.
  { split; cbn; [by destruct parsed|by intros id i []|by intros i via ?%not_elem_of_nil]. }
  induction Hr as [|x y z [Hxy Ha] Hr IH]; [done|]. apply IH. by eapply as_picked_step.
Qed.

Module PoolRuns.
#[local] Instance some_day : DayLib := { FormatDay := λ _, "2026-01-01" }.

Definition two_proxies : list string := ["http://10.0.0.1:8080"; "http://10.0.0.2:8080"].
Definition starting : RotatingProxyTransport :=
  new_transport two_proxies DefaultProxyPoolConfig "tgweb" None None 1.

Definition too_many : proxy_response := {|
  pr_StatusCode := 429; pr_CFRay := estr; pr_Server := estr; pr_Body := estr; pr_ContentLength := -1 |}.

(** One step, and the state it leads to, computed. *)
Tactic Notation "trip_goes" uconstr(c) :=
  eapply rtc_l; [eapply c; vm_compute; (reflexivity || (by intros [=]))|];
  match goal with |- rtc _ ?s _ =>
    let s' := eval vm_compute in s in
    let E := fresh in assert (s = s') as E by (vm_compute; reflexivity); rewrite E; clear E
  end.

(** Two requests at once: the second one stores its proxy before the transport of the first one
    asks for it. The first one goes through the proxy of the second, is refused there, and the
    other proxy is put to rest. *)
Theorem concurrent_trips_swap :
  ∃ t, rtc trip_step starting t
    ∧ rt_log t = [Marked 1 (Some 0%nat) 1; Went 1 (Some 0%nat); Picked 0 1; Picked 1 1]
    ∧ available 2 (rt_pool t) = [0%nat].
Proof.
  eexists. split; [|split].
  - trip_goes (step_start _ _ 0).
    trip_goes (step_start _ _ 1).
    trip_goes (step_picked _ 0).
    trip_goes (step_picked _ 1).
    trip_goes (step_passed _ 0).
    trip_goes (step_passed _ 1).
    trip_goes (step_stored _ 0).
    trip_goes (step_stored _ 1).
    trip_goes (step_indexed _ 0).
    trip_goes (step_sent _ 0).
    trip_goes (step_answered _ 0 _ _ (Some too_many)).
    trip_goes (step_read _ 0).
    trip_goes (step_marked _ 0).
    trip_goes (step_recorded _ 0 _ Written).
    apply rtc_refl.
  - vm_compute. reflexivity.
  - vm_compute. reflexivity.
Qed.

(** A proxy that was blocked, and that is picked again after ten minutes. *)
Definition later_on : Time := 10 * minute + 2.

Definition one_proxy : list string := ["http://10.0.0.1:8080"].
Definition before_mark : list pool_event := [Went 0 (Some 0%nat); Picked 0 1].

Lemma a_block_and_a_return :
  ∃ t, rtc trip_step (new_transport one_proxy DefaultProxyPoolConfig "tgweb" None None 1) t
    ∧ rt_log t = [] ++ Picked 0 later_on :: [] ++ Marked 0 (Some 0%nat) 1 :: before_mark.
Proof.
  eexists. split.
  - trip_goes (step_start _ _ 0).
    trip_goes (step_picked _ 0).
    trip_goes (step_passed _ 0).
    trip_goes (step_stored _ 0).
    trip_goes (step_indexed _ 0).
    trip_goes (step_sent _ 0).
    trip_goes (step_answered _ 0 _ _ (Some too_many)).
    trip_goes (step_read _ 0).
    trip_goes (step_marked _ 0).
    trip_goes (step_recorded _ 0 _ Written).
    trip_goes (step_clock _ later_on).
    trip_goes (step_start _ _ 0).
    trip_goes (step_picked _ 0).
    apply rtc_refl.
  - vm_compute. reflexivity.
Qed.

Lemma blocked_proxy_rests_witness :
  ∃ t, rtc trip_step (new_transport one_proxy DefaultProxyPoolConfig "tgweb" None None 1) t
    ∧ rt_log t = [] ++ Picked 0 later_on :: [] ++ Marked 0 (Some 0%nat) 1 :: before_mark
    ∧ 1 + pc_CooldownDuration (normalized DefaultProxyPoolConfig) < later_on.
Proof.
  destruct a_block_and_a_return as (t & Hr & Hl). exists t. split; [exact Hr|split; [exact Hl|]].
  assert (NoDup one_proxy) as Hnd by apply NoDup_singleton.
  exact (blocked_proxy_rests one_proxy DefaultProxyPoolConfig "tgweb" None None 1 t 0 (Some 0%nat) 1 later_on
    [] [] before_mark Hnd eq_refl Hr Hl (λ via' read', not_elem_of_nil (Marked 0 via' read'))).
Defined.

(** Two picks, at different times. *)
Lemma proxies_take_turns_witness :
  turns [5; 7] (newProxyPool two_proxies DefaultProxyPoolConfig estr) = [1%nat; 0%nat]
  ∧ turns [5; 7] (newProxyPool two_proxies DefaultProxyPoolConfig estr) ≡ₚ [0%nat; 1%nat].
Proof.
  split; [vm_compute; reflexivity|].
  apply (proxies_take_turns [5; 7] (newProxyPool two_proxies DefaultProxyPoolConfig estr) [0%nat; 1%nat]).
  - intros now _. reflexivity.
  - reflexivity.
  - vm_compute. by intros [=].
  - vm_compute. reflexivity.
Defined.

(** The only proxy rests for another minute and one nanosecond. *)
Definition resting_pool : proxyPool :=
  with_endpoints [{| ep_key := "p"; ep_cooldown := minute + 1 |}] (newProxyPool ["p"] DefaultProxyPoolConfig estr).
Definition sleepy (n : nat) : Time := Z.of_nat (n / 3) * longest_nap.

Lemma sleepy_passes : waiting_clock sleepy resting_pool.
Proof.
  assert (∀ n, (3 * n / 3 = n)%nat) as E0 by (intros n; rewrite Nat.mul_comm; by apply Nat.div_mul).
  assert (∀ n, ((3 * n + 1) / 3 = n)%nat) as E1.
  { intros n. rewrite Nat.mul_comm, Nat.div_add_l by done. cbn. lia. }
  assert (0 < longest_nap) as Hp by (by vm_compute). unfold sleepy. split.
  - intros n. pose proof (Nat.Div0.div_le_mono n (S n) 3 ltac:(lia)). nia.
  - intros n. rewrite E0, E1. nia.
  - intros n until _. rewrite E0, E1. assert (nap (Z.of_nat n * longest_nap) until ≤ longest_nap) as Hn.
    { unfold nap. destruct (Z.leb_spec (time_sub until (Z.of_nat n * longest_nap)) 0); [lia|].
      destruct (Z.ltb_spec longest_nap (time_sub until (Z.of_nat n * longest_nap))); lia. }
    nia.
Qed.

Lemma acquire_returns_witness : ∃ p' i k, acquire 5 sleepy resting_pool = Got p' i k.
Proof.
  apply (acquire_returns sleepy resting_pool 3).
  - done.
  - exact sleepy_passes.
  - intros [|i] e n; [|done]. intros [= <-]. unfold sleepy. cbn. unfold longest_nap, minute, second, millisecond, max_int64. lia.
  - vm_compute. by intros [=].
Defined.

(** A proxy listed twice: only the first of the two is put to rest. *)
Example same_address_twice :
  available 5 (markCooldown "p" 1 (newProxyPool ["p"; "p"] DefaultProxyPoolConfig estr)) = [1%nat].
Proof. reflexivity. Qed.

(** Before any request the last index is that of the first proxy. *)
Example no_request_yet : LastProxyIndex starting = 0.
Proof. reflexivity. Qed.

(** An answer without a length is not counted by the budget. *)
Example unknown_length_is_free w (t : RotatingProxyTransport) : recordEgress (Some too_many) w t = t.
Proof. unfold recordEgress. by destruct (String.eqb _ _). Qed.
End PoolRuns.
