(* ===== verification/PageText.v ===== *)
(** The text of a fetched page ([internal/sources/lander/]: nextdata.go, static.go,
    extract_noise.go, rsc.go, spa404.go): the payloads of the frameworks, the static regions that
    carry contacts, and the fingerprint of the shells that answer 404.

    [encoding/json] is a parameter: which texts are valid ([json.Valid]), and the value of a text
    ([JsonLib]), whose objects list their fields in the order of the iteration.  [strconv.Unquote]
    is modelled.  A slice out of range panics: the fingerprint is then [None]. *)
From S2P Require Import Prelude Unicode GoStrings TextFacts Utf8Facts Regex RegexFacts Scoring.
From S2P Require Import Extract Hashes.

Open Scope string_scope.
Open Scope list_scope.

Class JsonSyntax := { json_Valid : string → bool }.

(** ** [strconv.Unquote] of a text between double quotes *)

Definition hex_nibble (c : N) : option N :=
  if between 48 57 c then Some (c - 48)%N
  else if between 97 102 c then Some (c - 97 + 10)%N
  else if between 65 70 c then Some (c - 65 + 10)%N
  else None.

(** [n] digits of a base. *)
Fixpoint take_digits (base : N) (n : nat) (acc : N) (l : list chunk) : option (N * list chunk) :=
  match n, l with
  | O, _ => Some (acc, l)
  | S n, c :: l =>
      match hex_nibble (ck_rune c) with
      | Some x => if (x <? base)%N then take_digits base n (acc * base + x)%N l else None
      | None => None
      end
  | S _, [] => None
  end.

Definition byte_string (n : N) : string := String (byte_of n) estr.

(** The text of an escape after its backslash, and what follows it. *)
Definition unescape (l : list chunk) : option (string * list chunk) :=
  let rune r l := if valid_rune r then Some (encode_rune r, l) else None in
  match l with
  | [] => None
  | c :: l =>
      let one n := Some (byte_string n, l) in
      match ck_rune c with
      | 97 => one 7 | 98 => one 8 | 102 => one 12 | 110 => one 10 | 114 => one 13 | 116 => one 9
      | 118 => one 11 | 92 => one 92 | 34 => one 34
      | 120 => match take_digits 16 2 0 l with Some (v, l) => Some (byte_string v, l) | None => None end
      | 117 => match take_digits 16 4 0 l with Some (v, l) => rune v l | None => None end
      | 85 => match take_digits 16 8 0 l with Some (v, l) => rune v l | None => None end
      | r => if between 48 55 r
             then match take_digits 8 3 0 (c :: l) with
                  | Some (v, l) => if (v <=? 255)%N then Some (byte_string v, l) else None
                  | None => None
                  end
             else None
      end%N
  end.

Fixpoint unquote_chunks (fuel : nat) (l : list chunk) : option string :=
  match fuel, l with
  | _, [] => Some estr
  | O, _ => None
  | S fuel, c :: l =>
      if N.eqb (ck_rune c) 92 then
        match unescape l with
        | Some (t, l) => (λ s, t +:+ s) <$> unquote_chunks fuel l
        | None => None
        end
      else if N.eqb (ck_rune c) 34 || N.eqb (ck_rune c) 10 then None
      else (λ s, encode_rune (ck_rune c) +:+ s) <$> unquote_chunks fuel l
  end.

(** [strconv.Unquote] of a literal without its quotes, or the literal itself when that fails. *)
Definition unquoted (s : string) : string :=
  match unquote_chunks (length (chunks s)) (chunks s) with Some t => t | None => s end.

(** ** Literals that are not copy ([extract_noise.go]) *)

Definition isAssetPath (s : string) : bool :=
  if negb (HasPrefix s "/") || Contains s " " then false
  else contains_any (ToLower s)
    [".js"; ".css"; ".map"; ".woff"; ".woff2"; ".ttf"; ".eot"; ".svg"; ".png"; ".jpg"; ".jpeg";
     ".webp"; ".gif"; ".ico"; ".avif"].

Definition hasAssetExtension (s : string) : bool :=
  existsb (HasSuffix s)
    [".woff2"; ".woff"; ".ttf"; ".eot"; ".svg"; ".png"; ".jpg"; ".jpeg"; ".webp"; ".gif"; ".ico";
     ".avif"; ".css.map"; ".js.map"].

Definition base64_rune (r : N) : bool :=
  between 97 122 r || between 65 90 r || between 48 57 r || existsb (N.eqb r) [43; 47; 61; 45; 95]%N.

Definition isLikelyBase64Blob (s : string) : bool :=
  if Nat.ltb (slen s) 80 || Contains s " " then false else forallb base64_rune (runes s).

Definition hex_rune (r : N) : bool := between 48 57 r || between 97 102 r || between 65 70 r.

Definition isWebpackChunkID (s : string) : bool :=
  if Contains s " " || Nat.ltb (slen s) 12 || Nat.ltb 64 (slen s) then false
  else forallb hex_rune (runes s).

Definition mime_rune (r : N) : bool := is_letter r || is_digit r || existsb (N.eqb r) [43; 45; 46]%N.

(** The first byte of the prefix is taken as a rune. *)
Definition isMIMEType (s : string) : bool :=
  if Contains s " " then false
  else match Index s "/" with
       | None => false
       | Some idx =>
           if Nat.eqb idx 0 || Nat.leb (slen s - 1) idx then false
           else match stake idx s with
                | EmptyString => false
                | String a prefix =>
                    is_letter (code a) && forallb mime_rune (runes prefix)
                    && forallb mime_rune (runes (sdrop (S idx) s))
                end
       end.

Definition skipExtractString (s : string) : bool :=
  let s := TrimSpace s in
  let lower := ToLower s in
  String.eqb s estr || Nat.leb (slen s) 2
  || has_any_prefix lower ["http://"; "https://"; "//"]
  || has_any_prefix lower ["data:"; "blob:"]
  || has_any_prefix s ["/_next/"; "/static/chunks/"]
  || isAssetPath s || hasAssetExtension lower || isLikelyBase64Blob s || isWebpackChunkID s || isMIMEType s.

(** ** Payloads of the frameworks ([nextdata.go], [rsc.go]) *)

Definition nextDataRe : re :=
  MustCompile ("(?is)<script[^>]*id=" +:+ dq +:+ "__NEXT_DATA__" +:+ dq +:+ "[^>]*>(.+?)</script>").
Definition scriptBodyRe : re := MustCompile "(?is)<script[^>]*>(.*?)</script>".
Definition nextFlightPushRe : re :=
  MustCompile ("(?:self\.)?__next_f\.push\(\[1," +:+ dq +:+ "((?:\\.|[^" +:+ dq +:+ "])*)" +:+ dq).
Definition rscStringRe : re :=
  MustCompile (dq +:+ "((?:\\.|[^" +:+ dq +:+ "\\]){3,})" +:+ dq).
Definition tagRe : re := MustCompile "(?is)<[^>]+>".
Definition titleRe : re := MustCompile "(?is)<title[^>]*>(.*?)</title>".
Definition descRe : re :=
  MustCompile ("(?is)<meta[^>]+name=" +:+ dq +:+ "description" +:+ dq +:+ "[^>]+content=" +:+ dq
               +:+ "([^" +:+ dq +:+ "]+)" +:+ dq).

(** [stripTags]. *)
Definition stripTags (s : string) : string := Join (Fields (ReplaceAllString tagRe s " ")) " ".

Definition extractFlightScriptBodies (html : string) : list string :=
  List.filter (λ body, Contains body "__next_f") (FindAllSubmatch scriptBodyRe 1 html).

Definition HasNextFlightPayload (html : string) : bool := negb (is_empty (extractFlightScriptBodies html)).

Definition looksLikeRSCInternal (s : string) : bool :=
  if Contains s " " then false
  else if has_any_prefix s ["http://"; "https://"] then false
  else Contains s "/" || Nat.leb (slen s) 3.

Definition rsc_copy (s : string) : bool :=
  negb (String.eqb s estr || HasPrefix s "$" || HasPrefix s "@" || looksLikeRSCInternal s
        || skipExtractString s).

Definition collectRSCStrings (raw : string) : string :=
  Join (List.filter rsc_copy ((λ m, TrimSpace (unquoted m)) <$> FindAllSubmatch rscStringRe 1 raw)) " ".

Fixpoint collectJSONValues (v : json) : list string :=
  match v with
  | JObject l =>
      (fix go (l : list (string * json)) : list string :=
         match l with [] => [] | (_, x) :: l' => collectJSONValues x ++ go l' end) l
  | JArray l =>
      (fix go (l : list json) : list string :=
         match l with [] => [] | x :: l' => collectJSONValues x ++ go l' end) l
  | JString t => let s := TrimSpace t in
                 if negb (String.eqb s estr) && negb (skipExtractString s) then [s] else []
  | JNull | JBool _ | JNumber => []
  end.

Definition extractMetaFallback (html : string) : string :=
  Join (match FindAllSubmatch titleRe 1 html with m :: _ => [stripTags m] | [] => [] end
        ++ match FindAllSubmatch descRe 1 html with m :: _ => [stripTags m] | [] => [] end) " ".

(** ** Static regions ([static.go]) *)

Definition quotes : string := "[" +:+ dq +:+ "']".

Definition mailtoHrefRe : re := MustCompile "(?i)mailto:([a-z0-9._%+\-]+@[a-z0-9.\-]+\.[a-z]{2,})".
Definition skypeHrefRe : re := MustCompile "(?i)skype:([a-z][a-z0-9.,\-_]{2,31})".
Definition footerTagRe : re := MustCompile "(?is)<footer[^>]*>(.*?)</footer>".
Definition footerIDRe : re :=
  MustCompile ("(?is)<(?:div|section)[^>]+id=" +:+ quotes +:+ "footer" +:+ quotes
               +:+ "[^>]*>(.*?)</(?:div|section)>").
Definition footerClassRe : re :=
  MustCompile ("(?is)<(?:div|section)[^>]+class=" +:+ quotes +:+ "[^" +:+ dq +:+ "']*\bfooter\b[^" +:+ dq
               +:+ "']*" +:+ quotes +:+ "[^>]*>(.*?)</(?:div|section)>").
Definition contentInfoRe : re :=
  MustCompile ("(?is)<(?:footer|div|section)[^>]+role=" +:+ quotes +:+ "contentinfo" +:+ quotes
               +:+ "[^>]*>(.*?)</(?:footer|div|section)>").
(** Under [(?s)] the class [[\s\S]] of the source is the dot. *)
Definition blockTagRe : re :=
  MustCompile "(?is)<(script|style|noscript|svg)[^>]*>.*?</(script|style|noscript|svg)>".
Definition inlineStyleRe : re :=
  MustCompile ("(?is)\sstyle\s*=\s*(" +:+ dq +:+ "[^" +:+ dq +:+ "]*" +:+ dq +:+ "|'[^']*'|[^\s>]+)").
Definition headRe : re := MustCompile "(?is)<head[^>]*>.*?</head>".

Definition NetworkLandingPaths : list string :=
  ["/"; "/about"; "/about-us"; "/contact"; "/contacts"; "/contact-us"; "/affiliate"; "/affiliates";
   "/affiliate-program"; "/partner"; "/partners"; "/partner-program"; "/become-a-partner";
   "/become-partner"; "/for-affiliates"; "/for-partners"].

Definition extractFooterSegments (html : string) : list string :=
  dedup_on id (List.filter (λ s, negb (String.eqb s estr))
    (stripTags <$> ([footerTagRe; footerIDRe; footerClassRe; contentInfoRe] ≫= λ r, FindAllSubmatch r 1 html))).

Definition extractVisibleBodyText (html : string) (maxLen : Z) : string :=
  let maxLen := if (maxLen <=? 0)%Z then 50000%Z else maxLen in
  let html := ReplaceAllString headRe html " " in
  let html := ReplaceAllString blockTagRe html " " in
  let html := ReplaceAllString inlineStyleRe html " " in
  let text := stripTags html in
  if (maxLen <? Z.of_nat (slen text))%Z then stake (Z.to_nat maxLen) text else text.

Definition static_parts (html : string) : list string :=
  (ToLower <$> FindAllSubmatch mailtoHrefRe 1 html)
  ++ ((λ m, "skype:" +:+ ToLower m) <$> FindAllSubmatch skypeHrefRe 1 html)
  ++ extractFooterSegments html.

Definition ExtractStaticLandingText (html : string) : string :=
  if String.eqb (TrimSpace html) estr then estr
  else
    let parts := static_parts html in
    let parts := if is_empty parts
                 then let body := extractVisibleBodyText html 50000 in
                      if String.eqb body estr then [] else [body]
                 else parts in
    TrimSpace (Join parts " ").

Section payloads.
Context `{JsonLib} `{JsonSyntax}.

Definition ExtractNextDataJSON (html : string) : option string :=
  match FindAllSubmatch nextDataRe 1 html with
  | [] => None
  | m :: _ => let payload := TrimSpace m in if json_Valid payload then Some payload else None
  end.

Definition flattenJSON (raw : string) : string :=
  match Unmarshal raw with None => raw | Some v => Join (collectJSONValues v) " " end.

Definition flattenFlightChunk (raw : string) : string :=
  let raw := TrimSpace raw in
  if String.eqb raw estr then estr
  else match Index raw ":" with
       | Some idx =>
           let payload := TrimSpace (sdrop (S idx) raw) in
           if json_Valid payload then flattenJSON payload else collectRSCStrings payload
       | None => collectRSCStrings raw
       end.

Definition non_empty (l : list string) : list string := List.filter (λ s, negb (String.eqb s estr)) l.

Definition ExtractNextFlightText (html : string) : string :=
  Join (non_empty ((λ m, flattenFlightChunk (unquoted m)) <$>
    (extractFlightScriptBodies html ≫= λ script, FindAllSubmatch nextFlightPushRe 1 script))) " ".

Definition ExtractFlightWireText (payload : string) : string :=
  let payload := TrimSpace payload in
  if String.eqb payload estr then estr
  else
    let parts := non_empty (flattenFlightChunk <$> non_empty (TrimSpace <$> Split payload (byte_string 10))) in
    if is_empty parts then collectRSCStrings payload else Join parts " ".

(** The text and the method. *)
Definition DiagnoseExtract (content : string) : string * string :=
  match ExtractNextDataJSON content with
  | Some data => (flattenJSON data, "next_data")
  | None =>
      let flight := ExtractNextFlightText content in
      if negb (String.eqb flight estr) then (flight, "next_flight_script")
      else
        let wire := ExtractFlightWireText content in
        if negb (String.eqb wire estr) then (wire, "rsc_wire")
        else
          let meta := extractMetaFallback content in
          let static := ExtractStaticLandingText content in
          if negb (String.eqb meta estr)
          then if negb (String.eqb static estr) then (TrimSpace (meta +:+ " " +:+ static), "meta+static")
               else (meta, "meta")
          else if negb (String.eqb static estr) then (static, "static_html")
          else (estr, "empty")
  end.

Definition TextForContactExtract (html : string) : string * string :=
  let '(diagnosed, method) := DiagnoseExtract html in
  let static := ExtractStaticLandingText html in
  if String.eqb static estr then (diagnosed, method)
  else if String.eqb diagnosed estr then (static, "static_html")
  else (TrimSpace (diagnosed +:+ " " +:+ static), method +:+ "+static").
End payloads.

Definition ShouldFetchRSC (html : string) : bool :=
  if Contains html "__NEXT_DATA__" then false
  else HasNextFlightPayload html || Contains html "/_next/static/chunks/app/"
       || Contains html ("id=" +:+ dq +:+ "__next" +:+ dq) || Contains html "id='__next'".

(** Each line of the payload in a script of its own. *)
Definition flight_script (line : string) : string :=
  "self.__next_f.push([1," +:+ dq +:+ ReplaceAll (ReplaceAll line "\" "\\") dq ("\" +:+ dq) +:+ dq +:+ "])".
Definition wrapRSCAsFlightScripts (payload : string) : string :=
  Join (flight_script <$> non_empty (TrimSpace <$> Split (TrimSpace payload) (byte_string 10))) (byte_string 10).

(** ** Shells ([spa404.go]) *)

Definition spa404MinBodyBytes : nat := 400.

Definition IsSPA404Shell (status : Z) (body : string) : bool :=
  if negb (status =? 404)%Z then false
  else
    let trimmed := TrimSpace body in
    if Nat.ltb (slen trimmed) spa404MinBodyBytes then false
    else let lower := ToLower trimmed in Contains lower "<html" || Contains lower "<!doctype".

(** One block from its tag on, found in the lower-case text and cut out of the text. *)
Inductive cut := NoBlock | Cut (body : string) | SlicePanic.

Definition cut_block (tag body : string) : cut :=
  let lower := ToLower body in
  match Index lower tag with
  | None => NoBlock
  | Some start =>
      match Index (sdrop start lower) "</" with
      | None => NoBlock
      | Some end_ =>
          match Index (sdrop (start + end_) lower) ">" with
          | None => NoBlock
          | Some closeStart =>
              let closeIdx := (start + end_ + closeStart + 1)%nat in
              if Nat.leb start (slen body) && Nat.leb (closeIdx + 1) (slen body)
              then Cut (stake start body +:+ sdrop (closeIdx + 1) body) else SlicePanic
          end
      end
  end.

(** The fuel is the length of the text, and one. *)
Fixpoint cut_blocks (fuel : nat) (tag body : string) : option string :=
  match fuel with
  | O => Some body
  | S fuel =>
      match cut_block tag body with
      | NoBlock => Some body
      | Cut body => cut_blocks fuel tag body
      | SlicePanic => None
      end
  end.

Definition shell_tags : list string := ["<script"; "<style"; "<noscript"].

(** [None] when a slice is out of range. *)
Definition normalizeSPAHTML (body : string) : option string :=
  let stripped := foldl (λ b tag, b ≫= λ body, cut_blocks (S (slen body)) tag body) (Some body) shell_tags in
  (λ body, let compact := Join (Fields body) " " in
           if Nat.ltb (Z.to_nat 4096) (slen compact) then stake (Z.to_nat 4096) compact else compact) <$> stripped.

Definition SPAShellFingerprint (body : string) : option string :=
  (λ norm, if String.eqb norm estr then estr else hex_encode (take 8 (Sha256.Sum256 norm)))
    <$> normalizeSPAHTML body.

(** ** Trimming keeps what is inside *)

Lemma chunks_app_ascii x a y :
  (code a < 128)%N → chunks (x +:+ String a y) = chunks x ++ chunks (String a y).
Proof.
  intros Ha. induction x as [[|b x] IH] using string_slen_ind; [done|].
  assert (∀ t, (slen t < slen (String b x))%nat → chunks (t +:+ String a y) = chunks t ++ chunks (String a y)) as IH' by done.
  clear IH. assert (between 128 191 (code a) = false) as Hc by (apply between_false; lia).
  assert (between (lo2 (code b)) (hi2 (code b)) (code a) = false) as Hl.
  { apply between_false. left. pose proof (lo2_high (code b)). lia. }
  set (u := String a y) in *.
  cbn [String.append chunks]. destruct (N.ltb_spec (code b) 128) as [Hb|Hb].
  { cbn [app]. f_equal. apply IH'. unfold slen. cbn. lia. }
  assert (∀ c, Chunk rune_error (String b estr) :: chunks (x +:+ u) = c → c = (Chunk rune_error (String b estr) :: chunks x) ++ chunks u) as He.
  { intros c <-. cbn [app]. f_equal. apply IH'. unfold slen. cbn. lia. }
  destruct (between 194 223 (code b)) eqn:E1; [|destruct (between 224 239 (code b)) eqn:E2;
    [|destruct (between 240 244 (code b)) eqn:E3; [|by apply He]]].
  all: destruct x as [|c [|d [|e x]]]; subst u; cbn [String.append] in *; rewrite ?Hc, ?Hl, ?andb_false_r;
    try (by apply He); repeat (case_match; try (by apply He)); try (by apply He).
  all: cbn [app]; f_equal;
    match goal with |- _ = chunks ?t ++ _ => refine (IH' t _) end; unfold slen; cbn; lia.
Qed.

Lemma drop_while_front {A} (f : A → bool) p k : ∃ u, drop_while f (p ++ k) = u ++ drop_while f k.
Proof.
  induction p as [|x p [u IH]]; cbn; [by exists []|]. destruct (f x); [by exists u|].
  destruct (drop_while_suffix f k) as [w Hw]. exists (x :: p ++ w). cbn. by rewrite <- app_assoc, <- Hw.
Qed.

Lemma drop_while_back {A} (f : A → bool) m q :
  drop_while f m ≠ [] → drop_while f (m ++ q) = drop_while f m ++ q.
Proof. induction m as [|x m IH]; cbn; [done|]. by destruct (f x). Qed.

Lemma trim_block {A} (f : A → bool) p m q :
  ∃ u v, drop_while_end f (drop_while f (p ++ m ++ q)) = u ++ drop_while_end f (drop_while f m) ++ v.
Proof.
  unfold drop_while_end. set (d := drop_while f m).
  destruct (decide (drop_while f (reverse d) = [])) as [->|Hne].
  { exists [], (reverse (drop_while f (reverse (drop_while f (p ++ m ++ q))))). done. }
  assert (d ≠ []) as Hd by (intros Hd; apply Hne; by rewrite Hd).
  destruct (drop_while_front f p (m ++ q)) as [u ->]. rewrite drop_while_back by done. fold d.
  rewrite !reverse_app, <- app_assoc. destruct (drop_while_front f (reverse q) (reverse d ++ reverse u)) as [w ->].
  rewrite drop_while_back by done. exists u, (reverse w). rewrite !reverse_app, reverse_involutive. by rewrite <- app_assoc.
Qed.

(** What stands between two spaces, trimmed, is in the trimmed text. *)
Lemma TrimSpace_keeps s p m q : chunks s = p ++ chunks m ++ q → Contains (TrimSpace s) (TrimSpace m) = true.
Proof.
  intros E. unfold TrimSpace. rewrite E. destruct (trim_block space_chunk p (chunks m) q) as (u & v & ->).
  rewrite !concat_chunks_app. apply Contains_spec. by eexists _, _.
Qed.

Lemma chunks_space x y : chunks (x +:+ " " +:+ y) = chunks x ++ Chunk 32 " " :: chunks y.
Proof. exact (chunks_app_ascii x " " y eq_refl). Qed.

Lemma Join_block l x : x ∈ l → ∃ p q, chunks (Join l " ") = p ++ chunks x ++ q.
Proof.
  induction l as [|y l IH]; [by intros ?%not_elem_of_nil|]. intros [->|Hx]%elem_of_cons.
  - exists []. destruct l as [|z l]; [exists []; by rewrite app_nil_r|].
    eexists. cbn [app]. exact (chunks_space y (Join (z :: l) " ")).
  - destruct (IH Hx) as (p & q & E). destruct l as [|z l]; [by apply not_elem_of_nil in Hx|].
    exists (chunks y ++ Chunk 32 " " :: p), q. rewrite <- app_assoc. cbn [app].
    change (Join (y :: z :: l) " ") with (y +:+ " " +:+ Join (z :: l) " "). by rewrite chunks_space, E.
Qed.

(** C31. No static contact is lost. Whatever payload of a framework the page carries, every
    address of a mailto or skype link and every footer of the page is in the text that is searched
    for contacts, up to the spaces around it. *)
Theorem static_contacts_are_kept `{JsonLib} `{JsonSyntax} (html part : string) :
  TrimSpace html ≠ estr → part ∈ static_parts html →
  Contains (TextForContactExtract html).1 (TrimSpace part) = true.
Proof.
  intros Hne Hp. set (static := ExtractStaticLandingText html).
  assert (Contains static (TrimSpace part) = true) as Hs.
  { subst static. unfold ExtractStaticLandingText. apply String.eqb_neq in Hne. rewrite Hne.
    destruct (static_parts html) as [|x l] eqn:E; [by apply not_elem_of_nil in Hp|]. cbn [is_empty].
    destruct (Join_block _ _ Hp) as (p & q & Ej). by eapply TrimSpace_keeps. }
  unfold TextForContactExtract. fold static. destruct (DiagnoseExtract html) as [diagnosed method].
  destruct (String.eqb_spec static estr) as [Es|_].
  { rewrite Es in Hs. cbn [fst]. destruct (TrimSpace part); [apply Contains_empty|done]. }
  destruct (String.eqb diagnosed estr); [done|]. cbn [fst].
  eapply Contains_trans; [|exact Hs]. assert (static = TrimSpace static) as Et.
  { subst static. unfold ExtractStaticLandingText. destruct (String.eqb _ _); [done|]. by rewrite TrimSpace_idemp. }
  rewrite Et at 2. apply (TrimSpace_keeps _ (chunks diagnosed ++ [Chunk 32 " "]) _ []).
  by rewrite chunks_space, app_nil_r, <- app_assoc.
Qed.

(** ** Shells *)

Lemma cut_block_shorter tag body body' : cut_block tag body = Cut body' → (slen body' < slen body)%nat.
Proof.
  unfold cut_block. destruct (Index _ tag) as [start|]; [|done]. destruct (Index _ "</") as [e|]; [|done].
  destruct (Index _ ">") as [c|]; [|done]. destruct (_ && _) eqn:Eb; [|done]. intros [= <-].
  apply andb_true_iff in Eb as [H1%Nat.leb_le H2%Nat.leb_le]. rewrite slen_app, slen_stake, slen_sdrop. lia.
Qed.

(** The loop over the blocks of a tag ends: within as many rounds as the text has bytes, and
    one, it leaves a text without a complete block, or panics. *)
Theorem cut_blocks_end (fuel : nat) (tag body body' : string) :
  (slen body < fuel)%nat → cut_blocks fuel tag body = Some body' → cut_block tag body' = NoBlock.
Proof.
  revert body. induction fuel as [|fuel IH]; intros body Hf; [lia|]. cbn [cut_blocks].
  destruct (cut_block tag body) as [|b|] eqn:E; [by intros [= <-]| |done].
  apply IH. apply cut_block_shorter in E. lia.
Qed.

Lemma Index_tag c t s u : has_byte (code c) s = false → prefixb (String c t) u = true →
  Index (s +:+ u) (String c t) = Some (slen s).
Proof.
  intros Hs Hu. induction s as [|a s IH]; cbn [String.append Index].
  - destruct u; cbn [Index]; by rewrite Hu.
  - cbn [has_byte] in Hs. apply orb_false_iff in Hs as [Ha Hs].
    assert (prefixb (String c t) (String a (s +:+ u)) = false) as ->.
    { cbn. apply andb_false_iff. left. apply Ascii.eqb_neq. intros ->. by rewrite N.eqb_refl in Ha. }
    rewrite IH by done. done.
Qed.

(** A page that ends with a script crashes the crawler. When the last thing of a page is the
    end of its first block, a script, the fingerprint takes a slice out of range. *)
Theorem trailing_script_panics (before attributes : string) :
  let body := before +:+ "<script" +:+ attributes +:+ "</script>" in
  has_byte 60 before = false → has_byte 60 attributes = false → ToLower body = body →
  SPAShellFingerprint body = None.
Proof.
  intros body Hb Ha Hl.
  set (u := "<script" +:+ attributes +:+ "</script>") in *.
  assert (cut_block "<script" body = SlicePanic) as E.
  { unfold cut_block. rewrite Hl. subst body. fold u.
    rewrite (Index_tag "<" "script" before u) by (done || apply prefixb_app). cbv iota beta.
    rewrite sdrop_app. assert (u = String "<" (("script" +:+ attributes) +:+ "</script>")) as Eu.
    { subst u. by rewrite <- app_assoc_s. }
    assert (Index u "</" = Some (S (slen ("script" +:+ attributes)))) as ->.
    { rewrite Eu. cbn [Index]. 
      rewrite (Index_tag "<" "/" ("script" +:+ attributes) "</script>"); [done| |done].
      by rewrite has_byte_app. }
    set (k := slen ("script" +:+ attributes)) in *.
    assert (sdrop (slen before + S k) (before +:+ u) = "</script>") as ->.
    { rewrite Eu. change (String "<" (("script" +:+ attributes) +:+ "</script>"))
        with (String "<" ("script" +:+ attributes) +:+ "</script>").
      rewrite app_assoc_s. replace (slen before + S k)%nat with (slen (before +:+ String "<" ("script" +:+ attributes)))
        by (rewrite slen_app; done).
      apply sdrop_app. }
    assert (slen (before +:+ u) = slen before + S k + 9)%nat as Hlen.
    { rewrite slen_app, Eu. change (slen (String "<" (("script" +:+ attributes) +:+ "</script>")))
        with (S (slen (("script" +:+ attributes) +:+ "</script>"))). rewrite slen_app.
      change (slen "</script>") with 9%nat. fold k. lia. }
    change (Index "</script>" ">") with (Some 8%nat). cbv iota beta.
    assert (Nat.leb (slen before + S k + 8 + 1 + 1) (slen (before +:+ u)) = false) as -> by (apply Nat.leb_gt; lia).
    by rewrite andb_false_r. }
  unfold SPAShellFingerprint, normalizeSPAHTML. cbn [foldl shell_tags mbind option_bind cut_blocks].
  by rewrite E.
Qed.

Module ShellRuns.
#[local] Instance no_json : JsonLib := { Unmarshal := λ _, None }.
#[local] Instance no_syntax : JsonSyntax := { json_Valid := λ _, false }.

Definition landing : string :=
  "<html><title>Acme Network</title><body><div id='footer'>Write <a href='mailto:Ops@Acme.io'>us</a></div></body></html>".

Lemma static_contacts_are_kept_witness :
  static_parts landing = ["ops@acme.io"; "Write us"]
  ∧ Contains (TextForContactExtract landing).1 (TrimSpace "ops@acme.io") = true.
Proof.
  split; [vm_compute; reflexivity|].
  assert (TrimSpace landing ≠ estr) as Hne by (vm_compute; by intros [=]).
  assert ("ops@acme.io" ∈ static_parts landing) as Hp by (vm_compute; by left).
  exact (static_contacts_are_kept landing "ops@acme.io" Hne Hp).
Defined.

Definition two_blocks : string := "<p>a</p><script>x</script> <script src='b'></script> c".

Lemma cut_blocks_end_witness :
  cut_blocks 100 "<script" two_blocks = Some "<p>a</p>c" ∧ cut_block "<script" "<p>a</p>c" = NoBlock.
Proof.
  assert (cut_blocks 100 "<script" two_blocks = Some "<p>a</p>c") as E by (vm_compute; reflexivity).
  split; [exact E|]. assert (slen two_blocks < 100)%nat as Hl by (vm_compute; lia).
  exact (cut_blocks_end 100 "<script" two_blocks "<p>a</p>c" Hl E).
Defined.

Lemma trailing_script_panics_witness :
  SPAShellFingerprint ("not found " +:+ "<script" +:+ " src='app.js'>" +:+ "</script>") = None.
Proof. apply (trailing_script_panics "not found " " src='app.js'>"); vm_compute; reflexivity. Defined.

(** The byte after a block goes with it. *)
Example one_byte_too_many : normalizeSPAHTML "<script>x</script><b>y</b>" = Some "b>y</b>".
Proof. vm_compute. reflexivity. Qed.
End ShellRuns.
