(* ===== verification/Headless.v ===== *)
(** Pages fetched over HTTP and by a browser ([internal/sources/lander/]: fetch.go, page_fetch.go,
    headless.go, headless_queue.go, headless_persona_budget.go, opts.go): the fetcher with its
    circuit breaker, the queue of pages that wait for a browser, the daily budget of a proxy for
    browsers, and the pool of browsers.

    The transport, the browser, the clock, the files and the end of the context answer as functions
    of the calls made so far, which the state records.  The queue and the budget have one path
    each.  A request is its address and whether it asks for the flight payload; its other headers
    are not modelled.  The pool is modelled twice: as the crawlers use it, one fetch after the
    other, and as interleaved steps of its mutex. *)
From S2P Require Import Prelude Unicode GoStrings GoSort Matcher Validate Scoring Extract.
From S2P Require Import Effects.
From S2P Require Import SourceRegistry ProxyBudget ProxyPool PageText Breaker.

Local Open Scope Z_scope.
Local Open Scope eff_scope.

(** ** The queue and the budget *)

Record HeadlessQueueItem := {
  hq_URL : string; hq_SourceFamily : string; hq_Reason : string; hq_QueuedAt : string;
  hq_Attempts : Z; hq_ProxyIndex : Z }.

Record personaBudgetFile := { pb_Day : string; pb_Count : gmap string Z }.
Record PersonaDailyBudget := { bd_maxDay : Z; bd_day : string; bd_counts : gmap string Z }.

(** What happens outside. *)
Inductive page_call :=
  | CGet (url : string) (rsc : bool)
  | CBrowser (url : string) (proxyIndex : Z)
  | CWrite (what : string) (out : write_outcome)
  | CEmit (source text contact : string) (ok : bool).

(** An answer of the transport; with it comes the index of the proxy, when one was picked. *)
Record page_answer := {
  pa_head : Response; pa_server : string; pa_body : string; pa_read : bool }.

Record PageDeps := {
  pd_now : list page_call → Time;
  pd_writable : list page_call → write_outcome;
  pd_limiter : list page_call → bool;
  pd_transport : list page_call → string → bool → option Z * option page_answer;
  pd_browser : list page_call → string → Z → option string;
  pd_done : list page_call → bool;
  pd_emit : list page_call → bool;
  pd_date : string → option Time;
  pd_baseURL : string; pd_proxied : bool }.

(** The pool of browsers as one crawler sees it. *)
Inductive browser := DisabledHeadless | PlaywrightPool (locked : bool).

Record Pages := {
  pg_queue : disk (list HeadlessQueueItem);
  pg_budget : option PersonaDailyBudget; pg_budget_file : disk personaBudgetFile;
  pg_breaker : SourceBreaker; pg_last : Z; pg_browser : browser; pg_calls : list page_call }.

Definition set_queue (q : disk (list HeadlessQueueItem)) (p : Pages) : Pages := {|
  pg_queue := q; pg_budget := pg_budget p; pg_budget_file := pg_budget_file p; pg_breaker := pg_breaker p;
  pg_last := pg_last p; pg_browser := pg_browser p; pg_calls := pg_calls p |}.
Definition set_budget (b : option PersonaDailyBudget) (p : Pages) : Pages := {|
  pg_queue := pg_queue p; pg_budget := b; pg_budget_file := pg_budget_file p; pg_breaker := pg_breaker p;
  pg_last := pg_last p; pg_browser := pg_browser p; pg_calls := pg_calls p |}.
Definition set_budget_file (f : disk personaBudgetFile) (p : Pages) : Pages := {|
  pg_queue := pg_queue p; pg_budget := pg_budget p; pg_budget_file := f; pg_breaker := pg_breaker p;
  pg_last := pg_last p; pg_browser := pg_browser p; pg_calls := pg_calls p |}.
Definition set_breaker (b : SourceBreaker) (p : Pages) : Pages := {|
  pg_queue := pg_queue p; pg_budget := pg_budget p; pg_budget_file := pg_budget_file p; pg_breaker := b;
  pg_last := pg_last p; pg_browser := pg_browser p; pg_calls := pg_calls p |}.
Definition set_last_proxy (i : Z) (p : Pages) : Pages := {|
  pg_queue := pg_queue p; pg_budget := pg_budget p; pg_budget_file := pg_budget_file p; pg_breaker := pg_breaker p;
  pg_last := i; pg_browser := pg_browser p; pg_calls := pg_calls p |}.
Definition set_browser (b : browser) (p : Pages) : Pages := {|
  pg_queue := pg_queue p; pg_budget := pg_budget p; pg_budget_file := pg_budget_file p; pg_breaker := pg_breaker p;
  pg_last := pg_last p; pg_browser := b; pg_calls := pg_calls p |}.
Definition set_page_calls (l : list page_call) (p : Pages) : Pages := {|
  pg_queue := pg_queue p; pg_budget := pg_budget p; pg_budget_file := pg_budget_file p; pg_breaker := pg_breaker p;
  pg_last := pg_last p; pg_browser := pg_browser p; pg_calls := l |}.

(** How a crawl ends early. *)
Inductive crawl_end := Cancelled | Panicked | Deadlocked.
Abbreviation Fetch := (eff Pages crawl_end).

Definition personaKey (proxyIndex : Z) : string :=
  if proxyIndex <? 0 then "direct" else "proxy_" +:+ Itoa proxyIndex.

Definition same_url (key : string) (i : HeadlessQueueItem) : bool := String.eqb (ToLower (hq_URL i)) key.

Definition with_attempts (n : Z) (i : HeadlessQueueItem) : HeadlessQueueItem := {|
  hq_URL := hq_URL i; hq_SourceFamily := hq_SourceFamily i; hq_Reason := hq_Reason i;
  hq_QueuedAt := hq_QueuedAt i; hq_Attempts := n; hq_ProxyIndex := hq_ProxyIndex i |}.

Definition older (a b : HeadlessQueueItem) : bool := str_ltb (hq_QueuedAt a) (hq_QueuedAt b).

(** The first item of the address. *)
Fixpoint bump_first (key : string) (l : list HeadlessQueueItem) : option (list HeadlessQueueItem) :=
  match l with
  | [] => None
  | i :: l => if same_url key i then Some (with_attempts (hq_Attempts i + 1) i :: l)
              else cons i <$> bump_first key l
  end.

(** [RawSourceLabel]. *)
Definition hostFromURL (raw : string) : string :=
  let raw := TrimPrefix (TrimPrefix raw "https://") "http://" in
  match Index raw "/" with Some idx => stake idx raw | None => raw end.

Definition RawSourceLabel (i : HeadlessQueueItem) : string :=
  let host := hostFromURL (hq_URL i) in
  let family := ToLower (TrimSpace (hq_SourceFamily i)) in
  let label := if String.eqb family "tgweb" then "tgweb" else if String.eqb family "forum" then "forum" else "lander" in
  if String.eqb host estr then label else label +:+ ":" +:+ host.

Section budget.
Context `{DayLib} (now : Time).

(** [load], when the file is read. *)
Definition load_budget (maxPerDay : Z) (file : disk personaBudgetFile) : PersonaDailyBudget :=
  let today := FormatDay now in {|
  bd_maxDay := maxPerDay; bd_day := today;
  bd_counts := match file with
               | Stored f => if String.eqb (pb_Day f) today then pb_Count f else ∅
               | _ => ∅
               end |}.

(** [InitHeadlessPersonaBudget]; a cap of zero disables the budget. *)
Definition InitHeadlessPersonaBudget (maxPerDay : Z) (file : disk personaBudgetFile) : option PersonaDailyBudget :=
  if maxPerDay <=? 0 then None else Some (load_budget maxPerDay file).

Definition on_day (b : PersonaDailyBudget) : PersonaDailyBudget :=
  if String.eqb (bd_day b) (FormatDay now) then b
  else {| bd_maxDay := bd_maxDay b; bd_day := FormatDay now; bd_counts := ∅ |}.

Definition count_of (key : string) (b : PersonaDailyBudget) : Z := default 0 (bd_counts b !! key).

Definition allow_persona (proxyIndex : Z) (b : PersonaDailyBudget) : PersonaDailyBudget * bool :=
  let b := on_day b in (b, count_of (personaKey proxyIndex) b <? bd_maxDay b).

Definition record_persona (proxyIndex : Z) (b : PersonaDailyBudget) : PersonaDailyBudget :=
  let b := on_day b in
  let key := personaKey proxyIndex in
  {| bd_maxDay := bd_maxDay b; bd_day := bd_day b;
     bd_counts := <[key := count_of key b + 1]> (bd_counts b) |}.
End budget.

Section fetcher.
Context `{Sorter} `{DayLib} `{TimeLib} `{JsonLib} `{JsonSyntax} `{MailLib} (d : PageDeps).

Definition record_call (c : page_call) : Fetch unit := modify (λ p, set_page_calls (pg_calls p ++ [c]) p).
Definition clock : Fetch Time := let! p := get_state in done (pd_now d (pg_calls p)).

(** A write of a file: done, not begun, or torn. *)
Definition writing (what : string) : Fetch write_outcome :=
  let! p := get_state in
  let out := pd_writable d (pg_calls p) in
  record_call (CWrite what out) ;;! done out.

Definition write_disk {A} (out : write_outcome) (a : A) (old : disk A) : disk A :=
  match out with Written => Stored a | Untouched => old | Torn => Unreadable end.

Definition readHeadlessQueue : Fetch (option (list HeadlessQueueItem)) :=
  let! p := get_state in done (read_file [] (pg_queue p)).

Definition writeHeadlessQueue (items : list HeadlessQueueItem) : Fetch bool :=
  let! out := writing "queue" in
  modify (λ p, set_queue (write_disk out items (pg_queue p)) p) ;;!
  done (match out with Written => true | _ => false end).

Definition AllowHeadlessPersona (proxyIndex : Z) : Fetch bool :=
  let! now := clock in
  let! p := get_state in
  match pg_budget p with
  | None => done true
  | Some b => let '(b, ok) := allow_persona now proxyIndex b in
              modify (set_budget (Some b)) ;;! done ok
  end.

(** The error of the write is ignored. *)
Definition RecordHeadlessPersona (proxyIndex : Z) : Fetch unit :=
  let! now := clock in
  let! p := get_state in
  match pg_budget p with
  | None => done tt
  | Some b =>
      let b := record_persona now proxyIndex b in
      modify (set_budget (Some b)) ;;!
      let! out := writing "budget" in
      modify (λ p, set_budget_file
        (write_disk out {| pb_Day := bd_day b; pb_Count := bd_counts b |} (pg_budget_file p)) p)
  end.

Definition or_text (s fallback : string) : string := if String.eqb s estr then fallback else s.

Definition EnqueueHeadless (i : HeadlessQueueItem) : Fetch bool :=
  let url := TrimSpace (hq_URL i) in
  if String.eqb url estr then done false
  else
    let! now := clock in
    let i := {| hq_URL := url; hq_SourceFamily := or_text (hq_SourceFamily i) "lander";
                hq_Reason := or_text (hq_Reason i) "needs_headless";
                hq_QueuedAt := or_text (hq_QueuedAt i) (FormatRFC3339 now);
                hq_Attempts := hq_Attempts i; hq_ProxyIndex := hq_ProxyIndex i |} in
    let! allowed := AllowHeadlessPersona (hq_ProxyIndex i) in
    if negb allowed then done false
    else
      let! file := readHeadlessQueue in
      match file with
      | None => done false
      | Some items =>
          if existsb (same_url (ToLower url)) items then done true
          else
            let! ok := writeHeadlessQueue (items ++ [i]) in
            if negb ok then done false
            else RecordHeadlessPersona (hq_ProxyIndex i) ;;! done true
      end.

Definition LoadPendingHeadless (limit maxAttempts : Z) : Fetch (option (list HeadlessQueueItem)) :=
  let limit := if limit <=? 0 then 25 else limit in
  let maxAttempts := if maxAttempts <=? 0 then 3 else maxAttempts in
  let! file := readHeadlessQueue in
  done ((λ items, take (Z.to_nat limit)
    (sort_slice older (List.filter (λ i, negb (maxAttempts <=? hq_Attempts i)) items))) <$> file).

Definition RemoveHeadlessQueueItem (rawURL : string) : Fetch bool :=
  let key := ToLower (TrimSpace rawURL) in
  if String.eqb key estr then done true
  else
    let! file := readHeadlessQueue in
    match file with
    | None => done false
    | Some items => writeHeadlessQueue (List.filter (λ i, negb (same_url key i)) items)
    end.

Definition BumpHeadlessQueueAttempts (rawURL : string) : Fetch bool :=
  let key := ToLower (TrimSpace rawURL) in
  if String.eqb key estr then done true
  else
    let! file := readHeadlessQueue in
    match file with
    | None => done false
    | Some items => match bump_first key items with
                    | Some items => writeHeadlessQueue items
                    | None => done true
                    end
    end.

Definition TrimHeadlessQueue (maxSize : Z) : Fetch bool :=
  if maxSize <=? 0 then done true
  else
    let! file := readHeadlessQueue in
    match file with
    | None => done false
    | Some items =>
        if Z.of_nat (length items) <=? maxSize then done true
        else writeHeadlessQueue
               (drop (length items - Z.to_nat maxSize) (sort_slice older items))
    end.

Definition CountHeadlessQueue : Fetch (option Z) :=
  let! file := readHeadlessQueue in done ((λ items, Z.of_nat (length items)) <$> file).

(** ** A browser ([headless.go]) *)

(** [Fetch] of one crawler at a time, so the pool is never saturated: when the cap is exceeded it
    returns with the mutex locked, and the next fetch waits for ever. *)
Definition browser_Fetch (pageURL : string) (proxyIndex : Z) (counted : bool) : Fetch (option string) :=
  let! p := get_state in
  match pg_browser p with
  | DisabledHeadless => done None
  | PlaywrightPool true => exit_with Deadlocked
  | PlaywrightPool false =>
      let! allowed := if counted then done true else AllowHeadlessPersona proxyIndex in
      if negb allowed then modify (set_browser (PlaywrightPool true)) ;;! done None
      else
        let! p := get_state in
        let out := pd_browser d (pg_calls p) pageURL proxyIndex in
        record_call (CBrowser pageURL proxyIndex) ;;!
        match out with
        | None => done None
        | Some out =>
            let html := TrimSpace out in
            if String.eqb html estr then done None
            else (if counted then done tt else RecordHeadlessPersona proxyIndex) ;;! done (Some html)
        end
  end.

(** ** HTTP ([fetch.go]) *)

Record http_result := { hr_body : string; hr_status : Z; hr_cf : bool; hr_failed : bool }.

Definition failed_fetch : http_result := {| hr_body := estr; hr_status := 0; hr_cf := false; hr_failed := true |}.

Definition max_page_bytes : nat := Z.to_nat 2097152.

Definition resolveFetchURL (baseURL rawURL : string) : string :=
  if String.eqb baseURL estr then rawURL
  else match Index rawURL "/offer/" with
       | Some idx => baseURL +:+ sdrop idx rawURL
       | None => match Index rawURL "/preview" with
                 | Some idx => baseURL +:+ sdrop idx rawURL
                 | None => baseURL +:+ "/"
                 end
       end.

Definition as_proxy_response (a : page_answer) (body : string) : proxy_response := {|
  pr_StatusCode := StatusCode (pa_head a); pr_CFRay := hdr_CFRay (pa_head a); pr_Server := pa_server a;
  pr_Body := body; pr_ContentLength := -1 |}.

Definition getStatusMeta (rawURL : string) (rsc : bool) : Fetch http_result :=
  let! now := clock in
  let! p := get_state in
  let '(allowed, b) := Breaker.Allow (pg_breaker p) "lander" now in
  modify (set_breaker b) ;;!
  if negb allowed then done failed_fetch
  else if negb (pd_limiter d (pg_calls p)) then done failed_fetch
  else
    let url := resolveFetchURL (pd_baseURL d) rawURL in
    let '(proxy, answer) := pd_transport d (pg_calls p) url rsc in
    record_call (CGet url rsc) ;;!
    modify (λ p, match proxy with Some i => set_last_proxy i p | None => p end) ;;!
    match answer with
    | None => done failed_fetch
    | Some a =>
        let! now := clock in
        modify (λ p, set_breaker (RecordResponse (pd_date d) (pg_breaker p) "lander" (Some (pa_head a)) now) p) ;;!
        let status := StatusCode (pa_head a) in
        if negb (pa_read a)
        then done {| hr_body := estr; hr_status := status; hr_cf := false; hr_failed := true |}
        else
          let body := stake max_page_bytes (pa_body a) in
          done {| hr_body := body; hr_status := status;
                  hr_cf := LooksCloudflareBlocked (as_proxy_response a body);
                  hr_failed := negb (status =? StatusOK) |}
    end.

(** ** A page ([page_fetch.go]) *)

Record PageFetchOptions := { po_HeadlessEnabled : bool; po_HeadlessDefer : bool; po_SourceFamily : string }.

(** [PageFetchOptsFromConfig]. *)
Definition PageFetchOptsFromConfig (headless defer : bool) (sourceFamily : string) : PageFetchOptions := {|
  po_HeadlessEnabled := headless && negb defer; po_HeadlessDefer := defer; po_SourceFamily := sourceFamily |}.

Context (st : validate_state) (o : PageFetchOptions).

(** [LastProxyIndex]. *)
Definition last_proxy : Fetch Z :=
  let! p := get_state in done (if pd_proxied d then pg_last p else -1).

(** The page, when the browser has it, and the stage. *)
Definition tryHeadless (pageURL stage0 stage : string) : Fetch (option string * string) :=
  let! proxyIdx := last_proxy in
  if po_HeadlessDefer o then
    let! ok := EnqueueHeadless {|
      hq_URL := pageURL; hq_SourceFamily := po_SourceFamily o; hq_Reason := stage; hq_QueuedAt := estr;
      hq_Attempts := 0; hq_ProxyIndex := proxyIdx |} in
    done (None, if ok : bool then stage +:+ "_queued" else stage0)
  else if negb (po_HeadlessEnabled o) then done (None, stage0)
  else
    let! allowed := AllowHeadlessPersona proxyIdx in
    if negb allowed then done (None, stage0)
    else
      let! html := browser_Fetch pageURL proxyIdx false in
      match html with
      | None => done (None, stage +:+ "_failed")
      | Some html => if String.eqb (TrimSpace html) estr then done (None, stage +:+ "_empty")
                     else done (Some html, stage)
      end.

Definition mergeRSC (pageURL html : string) : Fetch (string * string) :=
  if negb (ShouldFetchRSC html) then done (html, "http_get")
  else
    let! rsc := getStatusMeta pageURL true in
    if hr_failed rsc || String.eqb (TrimSpace (hr_body rsc)) estr then done (html, "http_get+rsc")
    else done (html +:+ byte_string 10 +:+ "<script>" +:+ wrapRSCAsFlightScripts (hr_body rsc) +:+ "</script>", "http_get+rsc").

Definition page_contacts (html : string) : option (string * list Contact) :=
  let text := (TextForContactExtract html).1 in
  let r := Extract st text [] in
  let contacts := FilterJunkContacts (Contacts r) in
  if Rejected r || is_empty contacts then None else Some (text, contacts).

Definition pageHasExtractableContacts (html : string) : bool :=
  if String.eqb (TrimSpace (TextForContactExtract html).1) estr then false
  else match page_contacts html with Some _ => true | None => false end.

Definition headlessForEmptyText (pageURL html stage0 : string) : Fetch (option string * string) :=
  if negb (po_HeadlessEnabled o) && negb (po_HeadlessDefer o) then done (None, stage0)
  else if pageHasExtractableContacts html then done (None, stage0)
  else tryHeadless pageURL stage0 "headless_empty".

Record page_result := { pr_html : string; pr_stage : string; pr_status : Z; pr_failed : bool }.

Definition fetched (html stage : string) (status : Z) (failed : bool) : page_result :=
  {| pr_html := html; pr_stage := stage; pr_status := status; pr_failed := failed |}.

Definition failed_stage (stage : string) : string := if HasSuffix stage "_queued" then stage else "http_get_failed".

(** What follows an answer of 200. *)
Definition with_payloads (pageURL body : string) : Fetch page_result :=
  let! merged := mergeRSC pageURL body in
  let! dynamic := headlessForEmptyText pageURL merged.1 merged.2 in
  match dynamic with
  | (Some html, stage) => done (fetched html stage StatusOK false)
  | (None, stage) => done (fetched merged.1 stage StatusOK false)
  end.

(** [FetchHTML]; the status is not part of its answer. *)
Definition FetchHTML (pageURL : string) : Fetch page_result :=
  let! r := getStatusMeta pageURL false in
  if hr_failed r then
    let! dynamic := tryHeadless pageURL "http_get" "headless_fallback" in
    match dynamic with
    | (Some html, stage) => done (fetched html stage StatusOK false)
    | (None, stage) => done (fetched estr (failed_stage stage) 0 true)
    end
  else with_payloads pageURL (hr_body r).

Definition FetchForCrawl (pageURL : string) : Fetch page_result :=
  let! r := getStatusMeta pageURL false in
  if hr_failed r && (hr_status r =? 0) then
    let! dynamic := tryHeadless pageURL "http_get" "headless_fallback" in
    match dynamic with
    | (Some html, stage) => done (fetched html stage StatusOK false)
    | (None, stage) => done (fetched estr (failed_stage stage) 0 true)
    end
  else if hr_status r =? StatusOK then with_payloads pageURL (hr_body r)
  else if hr_cf r then
    let! dynamic := tryHeadless pageURL "http_get" "cf_http_block" in
    match dynamic with
    | (Some html, stage) => done (fetched html stage StatusOK false)
    | (None, stage) =>
        done (fetched (hr_body r) (if HasSuffix stage "_queued" then "cf_http_block_queued" else stage)
                (hr_status r) (hr_failed r))
    end
  else done (fetched (hr_body r) "http_get" (hr_status r) (hr_failed r)).
End fetcher.

(** ** The pool of browsers, interleaved *)

Inductive fetch_pc :=
  | Entering    (** before the first lock *)
  | Checking    (** holds the mutex, before the test of the cap *)
  | Counting    (** holds the mutex, before the test of the browsers *)
  | Starting    (** counted as active, before the lock to read the runner *)
  | Browsing    (** the browser runs *)
  | Leaving     (** before the lock of the deferred function *)
  | Returned.

Record fetch := { ft_pc : fetch_pc; ft_proxy : Z; ft_counted : bool }.

Record PlaywrightPoolFetcher := {
  bp_maxBrowsers : Z; bp_active : Z; bp_owner : option nat; bp_fetches : gmap nat fetch;
  bp_budget : option PersonaDailyBudget; bp_clock : Time }.

Definition at_pc (pc : fetch_pc) (f : fetch) : fetch :=
  {| ft_pc := pc; ft_proxy := ft_proxy f; ft_counted := ft_counted f |}.

Definition moved (id : nat) (f : fetch) (owner : option nat) (active : Z) (b : option PersonaDailyBudget)
    (p : PlaywrightPoolFetcher) : PlaywrightPoolFetcher := {|
  bp_maxBrowsers := bp_maxBrowsers p; bp_active := active; bp_owner := owner;
  bp_fetches := <[id := f]> (bp_fetches p); bp_budget := b; bp_clock := bp_clock p |}.

Definition outside (b : option PersonaDailyBudget) (now : Time) (p : PlaywrightPoolFetcher) : PlaywrightPoolFetcher := {|
  bp_maxBrowsers := bp_maxBrowsers p; bp_active := bp_active p; bp_owner := bp_owner p;
  bp_fetches := bp_fetches p; bp_budget := b; bp_clock := now |}.

(** [NewPlaywrightPoolFetcher]. *)
Definition NewPlaywrightPoolFetcher (maxBrowsers : Z) (b : option PersonaDailyBudget) (now : Time) : PlaywrightPoolFetcher := {|
  bp_maxBrowsers := if maxBrowsers <=? 0 then 2 else maxBrowsers; bp_active := 0; bp_owner := None;
  bp_fetches := ∅; bp_budget := b; bp_clock := now |}.

Section pool.
Context `{DayLib}.

Definition asked (now : Time) (proxyIndex : Z) (b : option PersonaDailyBudget) : option PersonaDailyBudget * bool :=
  match b with
  | None => (None, true)
  | Some b => let '(b, ok) := allow_persona now proxyIndex b in (Some b, ok)
  end.

Definition recorded (now : Time) (proxyIndex : Z) (b : option PersonaDailyBudget) : option PersonaDailyBudget :=
  record_persona now proxyIndex <$> b.

(** A crawler has asked the budget before it calls [Fetch]; the drain of the queue has not, and
    says that the page is counted. *)
Inductive pool_step : PlaywrightPoolFetcher → PlaywrightPoolFetcher → Prop :=
  | pool_clock p now : bp_clock p ≤ now → pool_step p (outside (bp_budget p) now p)
  | pool_elsewhere p i : pool_step p (outside (recorded (bp_clock p) i (bp_budget p)) (bp_clock p) p)
  | pool_called p id i counted b :
      bp_fetches p !! id = None → asked (bp_clock p) i (bp_budget p) = (b, true) ∨ counted = true ∧ b = bp_budget p →
      pool_step p (moved id {| ft_pc := Entering; ft_proxy := i; ft_counted := counted |} (bp_owner p) (bp_active p) b p)
  | pool_locked p id f :
      bp_fetches p !! id = Some f → ft_pc f = Entering → bp_owner p = None →
      pool_step p (moved id (at_pc Checking f) (Some id) (bp_active p) (bp_budget p) p)
  | pool_capped p id f b :
      bp_fetches p !! id = Some f → ft_pc f = Checking → ft_counted f = false →
      asked (bp_clock p) (ft_proxy f) (bp_budget p) = (b, false) →
      pool_step p (moved id (at_pc Returned f) (bp_owner p) (bp_active p) b p)
  | pool_passed p id f b :
      bp_fetches p !! id = Some f → ft_pc f = Checking →
      ft_counted f = true ∧ b = bp_budget p ∨ asked (bp_clock p) (ft_proxy f) (bp_budget p) = (b, true) →
      pool_step p (moved id (at_pc Counting f) (bp_owner p) (bp_active p) b p)
  | pool_saturated p id f :
      bp_fetches p !! id = Some f → ft_pc f = Counting → bp_maxBrowsers p ≤ bp_active p →
      pool_step p (moved id (at_pc Returned f) None (bp_active p) (bp_budget p) p)
  | pool_started p id f :
      bp_fetches p !! id = Some f → ft_pc f = Counting → bp_active p < bp_maxBrowsers p →
      pool_step p (moved id (at_pc Starting f) None (bp_active p + 1) (bp_budget p) p)
  | pool_browses p id f :
      bp_fetches p !! id = Some f → ft_pc f = Starting → bp_owner p = None →
      pool_step p (moved id (at_pc Browsing f) None (bp_active p) (bp_budget p) p)
  | pool_browsed p id f (found : bool) :
      bp_fetches p !! id = Some f → ft_pc f = Browsing →
      pool_step p (moved id (at_pc Leaving f) (bp_owner p) (bp_active p)
        (if found && negb (ft_counted f) then recorded (bp_clock p) (ft_proxy f) (bp_budget p) else bp_budget p) p)
  | pool_left p id f :
      bp_fetches p !! id = Some f → ft_pc f = Leaving → bp_owner p = None →
      pool_step p (moved id (at_pc Returned f) None (bp_active p - 1) (bp_budget p) p).
End pool.

(** *** At most so many browsers *)

Definition flying (f : fetch) : bool := match ft_pc f with Starting | Browsing | Leaving => true | _ => false end.

Definition flights (m : gmap nat fetch) : nat := size (filter (λ x : nat * fetch, flying x.2 = true) m).

Lemma flights_insert m id f : flights (<[id := f]> m) = (flights (delete id m) + if flying f then 1 else 0)%nat.
Proof.
  unfold flights. rewrite <- insert_delete_eq. destruct (flying f) eqn:E.
  - rewrite map_filter_insert_True by done.
    rewrite map_size_insert_None; [lia|]. apply map_lookup_filter_None. left. apply lookup_delete_eq.
  - rewrite map_filter_insert_False by (cbn; congruence). rewrite delete_delete_eq. lia.
Qed.

Lemma flights_move m id f f' :
  m !! id = Some f →
  (flights (<[id := f']> m) + (if flying f then 1 else 0) = flights m + (if flying f' then 1 else 0))%nat.
Proof.
  intros Hf. rewrite flights_insert. rewrite <- (insert_id m id f Hf) at 2. rewrite flights_insert. lia.
Qed.

Definition pool_inv (p : PlaywrightPoolFetcher) : Prop :=
  bp_active p = Z.of_nat (flights (bp_fetches p)) ∧ bp_active p ≤ bp_maxBrowsers p.

Lemma pool_inv_step `{DayLib} p p' : pool_step p p' → pool_inv p → pool_inv p'.
Proof.
  assert (∀ id f f' owner b active (q : PlaywrightPoolFetcher), bp_fetches q !! id = Some f →
    active = bp_active q + (if flying f' then 1 else 0) - (if flying f then 1 else 0) → active ≤ bp_maxBrowsers q →
    pool_inv q → pool_inv (moved id f' owner active b q)) as Hmove.
  { intros id f f' owner b active q Hf Ha Hm [Hq _]. split; [|done]. cbn. pose proof (flights_move _ _ f f' Hf).
    destruct (flying f), (flying f'); lia. }
  intros Hstep Hp. assert (Hle := proj2 Hp).
  destruct Hstep as [p now|p i|p id i counted b Hid|p id f Hf Hpc|p id f b Hf Hpc|p id f b Hf Hpc|p id f Hf Hpc
    |p id f Hf Hpc Hlt|p id f Hf Hpc|p id f found Hf Hpc|p id f Hf Hpc]; try done.
  - destruct Hp as [Hp _]. split; [|done]. cbn. rewrite flights_insert, delete_id by done. cbn. lia.
  - apply (Hmove id f); try done. unfold flying. rewrite Hpc. cbn. lia.
  - apply (Hmove id f); try done. unfold flying. rewrite Hpc. cbn. lia.
  - apply (Hmove id f); try done. unfold flying. rewrite Hpc. cbn. lia.
  - apply (Hmove id f); try done. unfold flying. rewrite Hpc. cbn. lia.
  - apply (Hmove id f); try done; [|lia]. unfold flying. rewrite Hpc. cbn. lia.
  - apply (Hmove id f); try done. unfold flying. rewrite Hpc. cbn. lia.
  - apply (Hmove id f); try done. unfold flying. rewrite Hpc. cbn. lia.
  - apply (Hmove id f); try done; [|lia]. unfold flying. rewrite Hpc. cbn. lia.
Qed.

(** The pool never runs more browsers than it may, however its fetches interleave, and it
    counts exactly the fetches that are between their start and their end. *)
Theorem browsers_bounded `{DayLib} (maxBrowsers : Z) (b : option PersonaDailyBudget) (start : Time)
    (p : PlaywrightPoolFetcher) :
  rtc pool_step (NewPlaywrightPoolFetcher maxBrowsers b start) p →
  bp_active p = Z.of_nat (flights (bp_fetches p)) ∧ bp_active p ≤ bp_maxBrowsers p
  ∧ bp_maxBrowsers p = if maxBrowsers <=? 0 then 2 else maxBrowsers.
Proof.
  intros Hr. assert (pool_inv (NewPlaywrightPoolFetcher maxBrowsers b start)) as H0.
  { split; cbn; [by vm_compute|]. destruct (Z.leb_spec maxBrowsers 0); lia. }
  assert (bp_maxBrowsers (NewPlaywrightPoolFetcher maxBrowsers b start) = if maxBrowsers <=? 0 then 2 else maxBrowsers) as Hm by done.
  revert H0 Hm. induction Hr as [q|q q' q'' Hs Hr IH]; intros H0 Hm; [by destruct H0|].
  apply IH; [by eapply pool_inv_step|]. by destruct Hs.
Qed.

(** *** The lock that is not released *)

(** The owner of the mutex has returned. *)
Definition leaked (p : PlaywrightPoolFetcher) (id : nat) : Prop :=
  bp_owner p = Some id ∧ ∃ f, bp_fetches p !! id = Some f ∧ ft_pc f = Returned.

Definition waits_for_lock (f : fetch) : bool := match ft_pc f with Entering | Starting | Leaving => true | _ => false end.

(** Only the owner is between the lock and the unlock. *)
Definition one_owner (p : PlaywrightPoolFetcher) : Prop :=
  ∀ id f, bp_fetches p !! id = Some f → ft_pc f = Checking ∨ ft_pc f = Counting → bp_owner p = Some id.

Lemma one_owner_step `{DayLib} p p' : pool_step p p' → one_owner p → one_owner p'.
Proof.
  intros Hstep Ho.
  destruct Hstep as [p now|p i|p id i counted b Hid|p id f Hf Hpc Hnone|p id f b Hf Hpc|p id f b Hf Hpc|p id f Hf Hpc
    |p id f Hf Hpc Hlt|p id f Hf Hpc Hnone|p id f found Hf Hpc|p id f Hf Hpc Hnone]; try done.
  all: intros id' f' Hf' Hpc'; cbn in *; apply lookup_insert_Some in Hf' as [[<- <-]|[Hn Hf']];
    [cbn in Hpc'|]; try (by destruct Hpc'); try (by eapply Ho); try (by apply (Ho _ _ Hf); auto).
  - specialize (Ho _ _ Hf' Hpc'). congruence.
  - pose proof (Ho _ _ Hf (or_intror Hpc)). specialize (Ho _ _ Hf' Hpc'). congruence.
  - pose proof (Ho _ _ Hf (or_intror Hpc)). specialize (Ho _ _ Hf' Hpc'). congruence.
  - specialize (Ho _ _ Hf' Hpc'). congruence.
  - specialize (Ho _ _ Hf' Hpc'). congruence.
Qed.

Lemma leaked_step `{DayLib} p p' id :
  pool_step p p' → one_owner p → leaked p id →
  leaked p' id ∧ ∀ id' f, bp_fetches p !! id' = Some f → waits_for_lock f = true →
    ∃ f', bp_fetches p' !! id' = Some f' ∧ ft_pc f' = ft_pc f.
Proof.
  intros Hstep Ho (Hown & g & Hg & Hret). unfold leaked.
  destruct Hstep as [p now|p i|p k i counted b Hid|p k f Hf Hpc Hnone|p k f b Hf Hpc|p k f b Hf Hpc|p k f Hf Hpc
    |p k f Hf Hpc Hlt|p k f Hf Hpc Hnone|p k f found Hf Hpc|p k f Hf Hpc Hnone]; try congruence.
  1,2: by (split; [split; [|exists g]|intros id' f Hf' _; exists f]).
  2-5: exfalso; assert (bp_owner p = Some k) as Hk by (apply (Ho _ _ Hf); auto); congruence.
  - split; [split; [done|exists g]|]; cbn.
    + split; [|done]. rewrite lookup_insert_ne; [done|]. intros ->. congruence.
    + intros id' f Hf' _. exists f. split; [|done]. rewrite lookup_insert_ne; [done|]. intros ->. congruence.
  - split; [split; [done|exists g]|]; cbn.
    + split; [|done]. rewrite lookup_insert_ne; [done|]. intros ->. congruence.
    + intros id' f' Hf' Hw. exists f'. split; [|done]. rewrite lookup_insert_ne; [done|].
      intros ->. rewrite Hf in Hf'. injection Hf' as <-. unfold waits_for_lock in Hw. by rewrite Hpc in Hw.
Qed.

(** The step that takes a fetch from the test of the cap to its return. *)
Lemma capped_step `{DayLib} p p' id f :
  pool_step p p' → bp_fetches p !! id = Some f → ft_pc f = Checking →
  bp_fetches p' !! id = Some (at_pc Returned f) → one_owner p → leaked p' id.
Proof.
  intros Hs Hf Hpc Hf' Ho. assert (bp_owner p = Some id) as Hown by (apply (Ho _ _ Hf); auto).
  assert (at_pc Returned f ≠ f) as Hne by (intros E; rewrite <- E in Hpc; done).
  inversion Hs; subst; cbn in *;
    try (rewrite Hf' in Hf; congruence);
    match goal with Hk : <[?k := _]> _ !! id = _ |- _ => apply lookup_insert_Some in Hk as [[<- Hk]|[_ Hk]] end;
    simplify_eq; try congruence.
  split; [done|]. exists (at_pc Returned f). split; [apply lookup_insert_eq|done].
Qed.

(** C23. A fetch refused by the cap of the proxy blocks the pool for ever. Take any step of the pool
    by which a fetch that stands before the test of the cap returns: it returns with the mutex
    locked, and whatever happens afterwards, no fetch that waits for the mutex — to start, to read
    its runner or to leave — ever gets it. *)
Theorem capped_fetch_blocks_the_pool `{DayLib} (maxBrowsers : Z) (b : option PersonaDailyBudget) (start : Time)
    (p p' p'' : PlaywrightPoolFetcher) (id : nat) (f : fetch) :
  rtc pool_step (NewPlaywrightPoolFetcher maxBrowsers b start) p →
  bp_fetches p !! id = Some f → ft_pc f = Checking →
  pool_step p p' → bp_fetches p' !! id = Some (at_pc Returned f) →
  rtc pool_step p' p'' →
  bp_owner p'' = Some id
  ∧ ∀ id' f', bp_fetches p' !! id' = Some f' → waits_for_lock f' = true →
      ∃ f'', bp_fetches p'' !! id' = Some f'' ∧ ft_pc f'' = ft_pc f'.
Proof.
  intros Hr Hf Hpc Hs Hf' Hr'.
  assert (one_owner p) as Ho.
  { assert (one_owner (NewPlaywrightPoolFetcher maxBrowsers b start)) as H0 by (by intros i g Hg).
    clear -Hr H0. induction Hr; [done|]. apply IHHr. by eapply one_owner_step. }
  assert (leaked p' id) as Hl by by eapply capped_step.
  assert (one_owner p') as Ho' by by eapply one_owner_step.
  clear Hs Hf' Hpc Hf Hr Ho. revert Ho' Hl. induction Hr' as [q|q q' q'' Hs Hr IH]; intros Ho Hl.
  - split; [apply Hl|]. eauto.
  - destruct (leaked_step _ _ _ Hs Ho Hl) as [Hl' Hsame].
    destruct (IH (one_owner_step _ _ Hs Ho) Hl') as [Hown Hall]. split; [done|]. intros id' f' Hf' Hw.
    destruct (Hsame _ _ Hf' Hw) as (g & Hg & Epc). destruct (Hall id' g Hg) as (h & Hh & Eh).
    + unfold waits_for_lock in *. by rewrite Epc.
    + exists h. split; [done|congruence].
Qed.

(** ** The queue *)

(** The addresses of the queue, as they are compared. *)
Definition url_keys (l : list HeadlessQueueItem) : list string := (λ i, ToLower (hq_URL i)) <$> l.

Definition queue_items (p : Pages) : option (list HeadlessQueueItem) := read_file [] (pg_queue p).

Lemma bump_first_keys key l l' : bump_first key l = Some l' → url_keys l' = url_keys l.
Proof.
  revert l'. induction l as [|i l IH]; intros l'; cbn; [done|].
  destruct (same_url key i); [by intros [= <-]|].
  destruct (bump_first key l) as [m|] eqn:E; cbn; [|done]. intros [= <-]. cbn. f_equal. by apply IH.
Qed.

Lemma not_queued key l : existsb (same_url key) l = false → key ∉ url_keys l.
Proof.
  intros H Hin. apply list_elem_of_fmap in Hin as (i & -> & Hi). apply not_true_iff_false in H. apply H.
  apply existsb_exists. exists i. split; [by apply list_elem_of_In|]. unfold same_url. apply String.eqb_refl.
Qed.

Definition distinct_queue (p : Pages) : Prop := ∀ l, pg_queue p = Stored l → NoDup (url_keys l).

Section queue_facts.
Context `{Sorter} `{DayLib} `{TimeLib} (d : PageDeps).

Lemma stored_distinct p l : distinct_queue p → read_file [] (pg_queue p) = Some l → NoDup (url_keys l).
Proof. intros Hp. destruct (pg_queue p) eqn:E; cbn; intros [= <-]; [constructor|by apply Hp]. Qed.

(** What a computation does that leaves the queue alone. *)
Definition same_queue {A} (m : Fetch A) : Prop := ∀ q, keeps (λ p, pg_queue p = q) m.

Lemma same_queue_distinct {A} (m : Fetch A) : same_queue m → keeps distinct_queue m.
Proof. intros Hm p Hp l Hl. apply Hp. by rewrite <- Hl, (Hm (pg_queue p) p eq_refl). Qed.

Lemma clock_queue : same_queue (clock d).
Proof. by intros q p. Qed.

Lemma writing_queue what : same_queue (writing d what).
Proof. by intros q p. Qed.

Lemma AllowHeadlessPersona_queue i : same_queue (AllowHeadlessPersona d i).
Proof.
  intros q. unfold AllowHeadlessPersona. apply keeps_seq; [apply clock_queue|intros now].
  apply keeps_seq; [auto with keeps|intros p]. destruct (pg_budget p) as [b|]; auto with keeps.
  destruct (allow_persona now i b) as [b' ok]. apply keeps_seq; [by apply keeps_modify|auto with keeps].
Qed.

Lemma RecordHeadlessPersona_queue i : same_queue (RecordHeadlessPersona d i).
Proof.
  intros q. unfold RecordHeadlessPersona. apply keeps_seq; [apply clock_queue|intros now].
  apply keeps_seq; [auto with keeps|intros p]. destruct (pg_budget p) as [b|]; auto with keeps.
  apply keeps_seq; [by apply keeps_modify|intros _]. apply keeps_seq; [apply writing_queue|intros out]. by apply keeps_modify.
Qed.

(** How a write leaves the queue. *)
Lemma written_queue l p : ∃ out,
  pg_queue (writeHeadlessQueue d l p).2 = write_disk out l (pg_queue p)
  ∧ (writeHeadlessQueue d l p).1 = inl (match out with Written => true | _ => false end).
Proof. by exists (pd_writable d (pg_calls p)). Qed.

Lemma writeHeadlessQueue_distinct l : NoDup (url_keys l) → keeps distinct_queue (writeHeadlessQueue d l).
Proof.
  intros Hl p Hp k. destruct (written_queue l p) as (out & -> & _). destruct out; cbn; [by intros [= <-]|by apply Hp|done].
Qed.

(** A computation that reads the queue and goes on with what it read. *)
Lemma keeps_read {B} (k : option (list HeadlessQueueItem) → Fetch B) :
  keeps distinct_queue (k None) → (∀ l, NoDup (url_keys l) → keeps distinct_queue (k (Some l))) →
  keeps distinct_queue (seq_eff readHeadlessQueue k).
Proof.
  intros Hn Hs p Hp. unfold seq_eff, readHeadlessQueue, get_state, done. cbn.
  destruct (read_file [] (pg_queue p)) as [l|] eqn:E; [|by apply Hn]. apply Hs; [|done]. by eapply stored_distinct.
Qed.

Lemma EnqueueHeadless_distinct i : keeps distinct_queue (EnqueueHeadless d i).
Proof.
  unfold EnqueueHeadless. case_match; [auto with keeps|].
  apply keeps_seq; [apply same_queue_distinct, clock_queue|intros now].
  apply keeps_seq; [apply same_queue_distinct, AllowHeadlessPersona_queue|intros allowed].
  destruct (negb allowed); [auto with keeps|]. apply keeps_read; [auto with keeps|intros l Hl].
  destruct (existsb _ l) eqn:E; [auto with keeps|]. apply keeps_seq.
  - apply writeHeadlessQueue_distinct. unfold url_keys. rewrite fmap_app. apply NoDup_app.
    split; [done|split; [|apply NoDup_singleton]].
    intros k Hk Hin. apply list_elem_of_singleton in Hin as ->. by apply (not_queued _ _ E).
  - intros ok. destruct (negb ok); [auto with keeps|].
    apply keeps_seq; [apply same_queue_distinct, RecordHeadlessPersona_queue|auto with keeps].
Qed.

Lemma RemoveHeadlessQueueItem_distinct url : keeps distinct_queue (RemoveHeadlessQueueItem d url).
Proof.
  unfold RemoveHeadlessQueueItem. case_match; [auto with keeps|]. apply keeps_read; [auto with keeps|intros l Hl].
  apply writeHeadlessQueue_distinct. eapply sublist_NoDup; [exact Hl|apply fmap_sublist, filter_sublist].
Qed.

Lemma BumpHeadlessQueueAttempts_distinct url : keeps distinct_queue (BumpHeadlessQueueAttempts d url).
Proof.
  unfold BumpHeadlessQueueAttempts. case_match; [auto with keeps|]. apply keeps_read; [auto with keeps|intros l Hl].
  destruct (bump_first _ l) as [m|] eqn:E; [|auto with keeps].
  apply writeHeadlessQueue_distinct. by rewrite (bump_first_keys _ _ _ E).
Qed.

Lemma TrimHeadlessQueue_distinct maxSize : keeps distinct_queue (TrimHeadlessQueue d maxSize).
Proof.
  unfold TrimHeadlessQueue. case_match; [auto with keeps|]. apply keeps_read; [auto with keeps|intros l Hl].
  case_match; [auto with keeps|]. apply writeHeadlessQueue_distinct.
  assert (NoDup (url_keys (sort_slice older l))) as Hs.
  { unfold url_keys. by rewrite sort_slice_perm. }
  unfold url_keys in *. rewrite fmap_drop. eapply sublist_NoDup; [exact Hs|apply sublist_drop].
Qed.
End queue_facts.

(** ** Runs *)

Module PoolOfBrowsers.
#[local] Instance one_day : DayLib := { FormatDay := λ _, "2026-01-01" }.

(** A budget of one page per proxy and day. *)
Definition one_page : option PersonaDailyBudget := Some {| bd_maxDay := 1; bd_day := "2026-01-01"; bd_counts := ∅ |}.
Definition pool_start : PlaywrightPoolFetcher := NewPlaywrightPoolFetcher 2 one_page 0.

(** One step, and the state it leads to, computed. *)
Tactic Notation "pool_goes" uconstr(c) :=
  eapply rtc_l; [eapply c; vm_compute; (reflexivity || (by intros [=]) || (by left) || (by right; split))|];
  match goal with |- rtc _ ?s _ =>
    let s' := eval vm_compute in s in
    let E := fresh in assert (s = s') as E by (vm_compute; reflexivity); rewrite E; clear E
  end.

(** Two crawlers ask the budget, both may go on. The first one has its page, and has not left yet;
    the second one holds the mutex and is about to test the cap. *)
Definition second_in : PlaywrightPoolFetcher := ltac:(
  let s := eval vm_compute in {|
    bp_maxBrowsers := 2; bp_active := 1; bp_owner := Some 1%nat;
    bp_fetches := <[1%nat := {| ft_pc := Checking; ft_proxy := 3; ft_counted := false |}]>
                  (<[0%nat := {| ft_pc := Leaving; ft_proxy := 3; ft_counted := false |}]> ∅);
    bp_budget := Some {| bd_maxDay := 1; bd_day := "2026-01-01"; bd_counts := <["proxy_3" := 1]> ∅ |};
    bp_clock := 0 |} in exact s).

Lemma second_gets_in : rtc pool_step pool_start second_in.
Proof.
  pool_goes (pool_called _ 0 3 false one_page).
  pool_goes (pool_called _ 1 3 false one_page).
  pool_goes (pool_locked _ 0).
  pool_goes (pool_passed _ 0 _ one_page).
  pool_goes (pool_started _ 0).
  pool_goes (pool_browses _ 0).
  pool_goes (pool_browsed _ 0 _ true).
  pool_goes (pool_locked _ 1).
  unfold second_in. apply rtc_refl.
Qed.

Lemma browsers_bounded_witness :
  rtc pool_step pool_start second_in
  ∧ bp_active second_in = Z.of_nat (flights (bp_fetches second_in)) ∧ bp_active second_in ≤ bp_maxBrowsers second_in
  ∧ bp_maxBrowsers second_in = 2.
Proof. split; [exact second_gets_in|]. exact (browsers_bounded 2 one_page 0 second_in second_gets_in). Defined.

(** The second one is refused. *)
Definition second_refused : PlaywrightPoolFetcher := Eval vm_compute in
  moved 1 {| ft_pc := Returned; ft_proxy := 3; ft_counted := false |} (Some 1%nat) 1 (bp_budget second_in) second_in.

Lemma second_is_refused : pool_step second_in second_refused.
Proof.
  assert (second_refused = moved 1 (at_pc Returned {| ft_pc := Checking; ft_proxy := 3; ft_counted := false |})
    (bp_owner second_in) (bp_active second_in) (bp_budget second_in) second_in) as -> by (vm_compute; reflexivity).
  by apply pool_capped; vm_compute.
Qed.

(** The first one never leaves. *)
Lemma capped_fetch_blocks_the_pool_witness :
  bp_owner second_refused = Some 1%nat
  ∧ ∀ id' f', bp_fetches second_refused !! id' = Some f' → waits_for_lock f' = true →
      ∃ f'', bp_fetches second_refused !! id' = Some f'' ∧ ft_pc f'' = ft_pc f'.
Proof.
  exact (capped_fetch_blocks_the_pool 2 one_page 0 second_in second_refused second_refused 1
    {| ft_pc := Checking; ft_proxy := 3; ft_counted := false |} second_gets_in eq_refl eq_refl second_is_refused
    eq_refl (rtc_refl _ _)).
Defined.
End PoolOfBrowsers.
