(* ===== verification/SiteCrawl.v ===== *)
(** The crawls of sites ([internal/sources/lander/crawler.go], path_discover.go, urls.go;
    [internal/sources/tgweb/crawler.go]; [internal/app/headless_drain.go]): the paths of a domain,
    the sweep of its pages, the crawl of the queue of domains (CrawlQueue), the crawl of the landing
    pages and the drain of the pages that wait for a browser (Headless).

    Emitting an item fails when the context is done.  The discovery of paths beyond the fixed list
    is an argument; the counters that are only logged are not modelled. *)
From S2P Require Import Prelude Unicode GoStrings Utf8Facts TextFacts GoSort Matcher Validate.
From S2P Require Import Scoring Extract Geo.
From S2P Require Import Item Effects.
From S2P Require Import FilterSignals FilterGates TgWeb SourceRegistry CrawlQueue ProxyBudget.
From S2P Require Import ProxyPool PageText Breaker Headless.

Local Open Scope Z_scope.
Local Open Scope eff_scope.

(** ** Paths ([path_discover.go], [urls.go]) *)

Definition normalizePath (path : string) : string :=
  let path := TrimSpace path in
  if String.eqb path estr || String.eqb path "/" then "/"
  else
    let path := if HasPrefix path "/" then path else "/" +:+ path in
    if Contains path "//" then estr else path.

Definition affiliatePathExclude : list string :=
  ["/blog"; "/news"; "/career"; "/job"; "/login"; "/signin"; "/signup"; "/register"; "/wp-"; "/tag/";
   "/category/"; "/feed"; "/api/"; "/assets/"; "/static/"].

Definition affiliatePathKeywords : list string :=
  ["affiliate"; "partner"; "contact"; "about"; "publisher"; "advertiser"; "become"; "join";
   "cooperation"; "mediabuy"; "media-buy"; "for-partners"; "for-affiliates"; "lpr"; "partnership"].

Definition IsAffiliateLandingPath (path : string) : bool :=
  let path := normalizePath path in
  if String.eqb path estr then false
  else
    let lower := ToLower path in
    negb (contains_any lower affiliatePathExclude) && contains_any lower affiliatePathKeywords.

Definition MergeLandingPaths (base extra : list string) : list string :=
  dedup_on id (non_empty (normalizePath <$> (base ++ extra))).

Definition uniqueAffiliatePaths (paths : list string) : list string :=
  dedup_on id (List.filter (λ p, negb (String.eqb p estr) && IsAffiliateLandingPath p) (normalizePath <$> paths)).

(** [PathsForDomain] with what the cache or the discovery gives for a domain. *)
Definition PathsForDomain (discovered : string → list string) (enabled : bool) (domain : string) : list string :=
  let base := NetworkLandingPaths in
  if negb enabled then base
  else
    let domain := TrimSpace (ToLower domain) in
    if String.eqb domain estr then base else MergeLandingPaths base (discovered domain).

(** The first path of the fixed list that names affiliates or partners. *)
Definition PrimarySeedURL (domain : string) : string :=
  let domain := ToLower (TrimSpace domain) in
  if String.eqb domain estr then estr
  else match List.filter (λ p, Contains p "affiliate" || Contains p "partner") NetworkLandingPaths with
       | p :: _ => "https://" +:+ domain +:+ p
       | [] => "https://" +:+ domain +:+ "/"
       end.

(** The first cells of the rows; [None] when the file cannot be read. *)
Definition LoadURLsOptional (rows : option (list (list string))) : option (list string) :=
  (λ rows, dedup_on id (List.filter (λ u, negb (String.eqb u estr) && negb (EqualFold u "url"))
    (rows ≫= λ row, match row with cell :: _ => [TrimSpace cell] | [] => [] end))) <$> rows.

(** [None] is an error: a file that cannot be read, or no address at all. *)
Definition LoadURLsCombined `{Sorter} (rows : option (list (list string))) (registry : option (disk (list Entry)))
    : option (list string) :=
  let domains := match registry with None => Some [] | Some r => ListDomainsByType r TypeLander end in
  match domains, LoadURLsOptional rows with
  | Some domains, Some urls =>
      let all := dedup_on id (non_empty (TrimSpace <$> ((PrimarySeedURL <$> domains) ++ urls))) in
      if is_empty all then None else Some all
  | _, _ => None
  end.

(** ** Items *)

Definition page_item (source text contact title html : string) : RawItem := {|
  it_Source := source; it_Raw := text; it_Contact := contact; it_Title := title;
  it_Username := estr; it_ForumUserID := estr; it_MessageID := 0; it_SenderUserID := 0;
  it_ReplyToMessageID := 0; it_ReplyContext := estr; it_ChatType := estr; it_ChannelRole := estr;
  it_ChannelAbout := estr; it_SenderBio := estr; it_LeadType := estr; it_CompanyHint := estr;
  it_SourceChat := estr; it_DiscoveredVia := estr; it_ColdOutreachFit := estr;
  it_CrawlHTML := LimitCrawlHTML html; it_PostedAt := zero_time |}.

(** [sourceLabel] of a crawled site. *)
Definition sourceLabel (channel domain : string) : string :=
  let channel := TrimSpace (TrimPrefix channel "@") in
  if negb (String.eqb channel estr) then "tgweb:@" +:+ ToLower channel +:+ ":" +:+ domain
  else "tgweb:" +:+ domain.

Section crawl.
Context `{Sorter} `{DayLib} `{TimeLib} `{JsonLib} `{JsonSyntax} `{MailLib}.
Context (d : PageDeps) (st : validate_state) (o : PageFetchOptions).

(** The error of an emission. *)
Definition emit (i : RawItem) : Fetch bool :=
  let! p := get_state in
  let ok := pd_emit d (pg_calls p) in
  record_call (CEmit (it_Source i) (it_Raw i) (it_Contact i) ok) ;;! done ok.

(** The check of the context at the head of a loop. *)
Definition check_done : Fetch unit :=
  let! p := get_state in if pd_done d (pg_calls p) then exit_with Cancelled else done tt.

(** ** The sweep of a domain ([crawlDomain]) *)

Inductive domainCrawlOutcome := crawlOutcomeEmitted | crawlOutcomeNoContacts | crawlOutcomeHardFail.

(** The contact of a page. *)
Definition site_contact (channel domain html : string) : option (string * Contact) :=
  let text := (TextForContactExtract html).1 in
  if String.eqb text estr then None
  else
    let r := Extract st text [] in
    let contacts := FilterJunkContacts (Contacts r) in
    if Rejected r then None
    else (λ c, (text, c)) <$> pickSiteLPR contacts channel domain.

Fixpoint crawl_paths (channel domain fingerprint : string) (paths : list string) : Fetch domainCrawlOutcome :=
  match paths with
  | [] => done crawlOutcomeNoContacts
  | path :: paths =>
      let! r := FetchForCrawl d st o ("https://" +:+ domain +:+ path) in
      let! r := if pr_failed r && String.eqb path "/"
                then FetchForCrawl d st o ("https://www." +:+ domain +:+ path) else done r in
      if pr_failed r then
        if IsSPA404Shell (pr_status r) (pr_html r) then
          match SPAShellFingerprint (pr_html r) with
          | None => exit_with Panicked
          | Some fp =>
              if negb (String.eqb fingerprint estr) && String.eqb fp fingerprint
              then done crawlOutcomeNoContacts
              else if String.eqb fingerprint estr
              then if String.eqb path "/" then done crawlOutcomeNoContacts
                   else crawl_paths channel domain fp paths
              else crawl_paths channel domain fingerprint paths
          end
        else if negb (String.eqb path "/") then crawl_paths channel domain fingerprint paths
        else done crawlOutcomeHardFail
      else
        match site_contact channel domain (pr_html r) with
        | None => crawl_paths channel domain fingerprint paths
        | Some (text, primary) =>
            let! ok := emit (page_item (sourceLabel channel domain) text (formatPrimaryContact primary)
                               (provenanceTitle channel domain) (pr_html r)) in
            done (if ok : bool then crawlOutcomeEmitted else crawlOutcomeHardFail)
        end
  end.

Context (paths : string → list string).

Definition crawlDomain (e : DomainEntry) : Fetch domainCrawlOutcome :=
  crawl_paths (de_Channel e) (de_Domain e) estr (paths (de_Domain e)).

(** ** The crawl of the queue of domains ([Collect]) *)

Record Crawler := {
  cw_domainTriage : bool; cw_maxDomains : Z; cw_rescanDays : Z; cw_domainFilter : list string;
  cw_usesProxy : bool }.

Record Site := {
  si_pages : Pages; si_domains : disk (list DomainEntry); si_registry : disk (list Entry);
  si_governor : option Governor }.

Definition set_pages (p : Pages) (s : Site) : Site :=
  {| si_pages := p; si_domains := si_domains s; si_registry := si_registry s; si_governor := si_governor s |}.
Definition set_domains (q : disk (list DomainEntry)) (s : Site) : Site :=
  {| si_pages := si_pages s; si_domains := q; si_registry := si_registry s; si_governor := si_governor s |}.
Definition set_registry (r : disk (list Entry)) (s : Site) : Site :=
  {| si_pages := si_pages s; si_domains := si_domains s; si_registry := r; si_governor := si_governor s |}.
Definition set_governor (g : option Governor) (s : Site) : Site :=
  {| si_pages := si_pages s; si_domains := si_domains s; si_registry := si_registry s; si_governor := g |}.

Abbreviation Crawl := (eff Site crawl_end).

Definition on_pages {A} (m : Fetch A) : Crawl A := λ s,
  let '(r, p) := m (si_pages s) in (r, set_pages p s).

Definition site_now : Crawl Time := on_pages (clock d).

(** Whether a registry can be written, which is done by a rename. *)
Definition site_writable (what : string) : Crawl bool :=
  on_pages (let! out := writing d what in done (match out with Written => true | _ => false end)).

(** The error is logged. *)
Definition mark_crawled (domain : string) : Crawl unit :=
  let! now := site_now in
  let! ok := site_writable "domains" in
  modify (λ s, set_domains (MarkCrawled now ok domain (si_domains s)).1 s).

Definition drop_domain (domain : string) : Crawl unit :=
  let! ok := site_writable "registry" in
  modify (λ s, set_registry (SetTriageStatus ok domain "drop" (si_registry s)).1 s).

(** The budget of the proxy: whether the crawl is skipped. *)
Definition over_budget (usesProxy : bool) : Crawl bool :=
  let! now := site_now in
  let! s := get_state in
  let '(g, skip, _) := ShouldSkipProxySource (si_governor s) usesProxy now in
  modify (set_governor g) ;;! done skip.

Context (c : Crawler).

Definition domain_meta (e : DomainEntry) : DomainMeta := {|
  dm_Domain := de_Domain e; dm_Channel := de_Channel e; dm_Source := de_Source e;
  dm_DiscoveredBy := de_Source e; dm_Kind := de_Kind e |}.

Definition collect_domain (e : DomainEntry) : Crawl unit :=
  on_pages check_done ;;!
  let! s := get_state in
  match ShouldSkipCrawl st (si_registry s) (cw_domainTriage c) (domain_meta e) with
  | Some reason => if HasPrefix reason "heuristic:" then drop_domain (de_Domain e) else done tt
  | None =>
      if negb (IsValidCrawlDomain st (de_Domain e)) then mark_crawled (de_Domain e)
      else
        let! outcome := on_pages (crawlDomain e) in
        match outcome with
        | crawlOutcomeEmitted => mark_crawled (de_Domain e)
        | _ => done tt
        end
  end.

Fixpoint collect_all (l : list DomainEntry) : Crawl unit :=
  match l with [] => done tt | e :: l => collect_domain e ;;! collect_all l end.

(** The error of an unreadable queue. *)
Definition Collect : Crawl bool :=
  let! skip := over_budget (cw_usesProxy c) in
  if skip : bool then done true
  else
    let! s := get_state in
    match loadDomainsUnlocked (si_domains s) with
    | None => done false
    | Some f =>
        let! now := site_now in
        collect_all (SelectDomains st now f (cw_maxDomains c) (cw_rescanDays c) (cw_domainFilter c)) ;;!
        done true
    end.

(** ** The crawl of the landing pages ([lander.Crawler.Collect]) *)

Fixpoint collect_landers (urls : list string) : Fetch bool :=
  match urls with
  | [] => done true
  | url :: urls =>
      check_done ;;!
      if IsBlacklistedDomain st (hostFromURL url) then collect_landers urls
      else
        let! r := FetchHTML d st o url in
        if pr_failed r then collect_landers urls
        else
          let text := (TextForContactExtract (pr_html r)).1 in
          if String.eqb text estr then collect_landers urls
          else
            let x := Extract st text [] in
            match FilterJunkContacts (Contacts x) with
            | contact :: contacts =>
                if Rejected x || negb (LanderRequiresEmailOrSkype (contact :: contacts)) then collect_landers urls
                else
                  let! ok := emit (page_item ("lander:" +:+ hostFromURL url) text (format_contact contact) estr (pr_html r)) in
                  if ok : bool then collect_landers urls else done false
            | [] => collect_landers urls
            end
  end.

Definition lander_Collect (usesProxy : bool) (rows : option (list (list string))) (registry : bool) : Crawl bool :=
  let! skip := over_budget usesProxy in
  if skip : bool then done true
  else
    let! s := get_state in
    match LoadURLsCombined rows (if registry then Some (si_registry s) else None) with
    | None => done false
    | Some urls => on_pages (collect_landers urls)
    end.

(** ** The drain of the queue ([RunHeadlessDrain]) *)

(** The page of an item: its text and its contact; [None] when the drain fails on it. *)
Definition drain_page (i : HeadlessQueueItem) : Fetch (option RawItem) :=
  let! html := browser_Fetch d (hq_URL i) (hq_ProxyIndex i) true in
  done (html ≫= λ html, match page_contacts st html with
                        | Some (text, contact :: _) =>
                            Some (page_item (RawSourceLabel i) text (format_contact contact) estr html)
                        | _ => None
                        end).

Definition drain_item (i : HeadlessQueueItem) : Fetch unit :=
  let! page := drain_page i in
  let! ok := match page with Some page => emit page | None => done false end in
  let! _ := (if ok : bool then RemoveHeadlessQueueItem d (hq_URL i) else BumpHeadlessQueueAttempts d (hq_URL i)) in
  done tt.

Fixpoint drain_all (l : list HeadlessQueueItem) : Fetch unit :=
  match l with
  | [] => done tt
  | i :: l => check_done ;;! drain_item i ;;! drain_all l
  end.

(** Whether the queue could be read. A drain starts browsers of its own. *)
Definition RunHeadlessDrain (drainLimit maxSize : Z) : Fetch bool :=
  let! items := LoadPendingHeadless (if drainLimit <=? 0 then 25 else drainLimit) 3 in
  match items with
  | None => done false
  | Some items =>
      if is_empty items then done true
      else
        modify (set_browser (PlaywrightPool false)) ;;!
        drain_all items ;;!
        let! _ := TrimHeadlessQueue d maxSize in done true
  end.
End crawl.

(** ** What is emitted *)

Record emission := { em_Source : string; em_Text : string; em_Contact : string; em_ok : bool }.

Definition emitted (c : page_call) : option emission :=
  match c with
  | CEmit s t c ok => Some {| em_Source := s; em_Text := t; em_Contact := c; em_ok := ok |}
  | _ => None
  end.

Definition emissions (p : Pages) : list emission := omap emitted (pg_calls p).

(** The run goes on without an emission. *)
Definition onward (p p' : Pages) : Prop := emissions p' = emissions p ∧ pg_calls p `prefix_of` pg_calls p'.

#[export] Instance onward_preorder : PreOrder onward.
Proof.
  split; [by intros p|]. intros p q r [He Hc] [He' Hc']. split; [congruence|by etrans].
Qed.

Definition emits_nothing {A} (m : Fetch A) : Prop := ∀ p0, keeps (onward p0) m.

Lemma emits_nothing_seq {A B} (m : Fetch A) (k : A → Fetch B) :
  emits_nothing m → (∀ a, emits_nothing (k a)) → emits_nothing (seq_eff m k).
Proof. intros Hm Hk l. apply keeps_seq; [apply Hm|]. intros a. apply Hk. Qed.

Lemma emits_nothing_done {A} (a : A) : emits_nothing (done a).
Proof. by intros l p. Qed.

Lemma emits_nothing_exit {A} e : emits_nothing (exit_with (A:=A) e).
Proof. by intros l p. Qed.

Lemma emits_nothing_get : emits_nothing get_state.
Proof. by intros l p. Qed.

Lemma emits_nothing_modify f : (∀ p, pg_calls (f p) = pg_calls p) → emits_nothing (modify f).
Proof. intros Hf p0 p [He Hc]. unfold onward, emissions in *. cbn. by rewrite Hf. Qed.

Lemma emits_nothing_call c : emitted c = None → emits_nothing (record_call c).
Proof.
  intros Hc p0 p [He Hp]. unfold onward, emissions in *. cbn. rewrite omap_app. cbn.
  rewrite Hc, app_nil_r. split; [done|]. etrans; [exact Hp|by eexists].
Qed.

Create HintDb quiet.
#[export] Hint Resolve emits_nothing_done emits_nothing_exit emits_nothing_get : quiet.

Ltac quiet_step :=
  match goal with
  | |- emits_nothing (seq_eff _ _) => apply emits_nothing_seq; [|intros ?]
  | |- emits_nothing (modify _) => apply emits_nothing_modify; intros ?; repeat case_match; reflexivity
  | |- emits_nothing (record_call _) => apply emits_nothing_call; reflexivity
  | |- emits_nothing (let _ := _ in _) => cbv zeta
  | |- emits_nothing (if ?b then _ else _) => destruct b
  | |- emits_nothing (match ?o with _ => _ end) => destruct o
  | _ => solve [auto with quiet]
  end.
Ltac quiet := repeat quiet_step.

Section quiet_pages.
Context `{Sorter} `{DayLib} `{TimeLib} `{JsonLib} `{JsonSyntax} `{MailLib}.
Context (d : PageDeps) (st : validate_state) (o : PageFetchOptions).

Lemma clock_quiet : emits_nothing (clock d).
Proof. unfold clock. quiet. Qed.
Hint Resolve clock_quiet : quiet.

Lemma writing_quiet what : emits_nothing (writing d what).
Proof. unfold writing. quiet. Qed.
Hint Resolve writing_quiet : quiet.

Lemma readHeadlessQueue_quiet : emits_nothing readHeadlessQueue.
Proof. unfold readHeadlessQueue. quiet. Qed.
Hint Resolve readHeadlessQueue_quiet : quiet.

Lemma writeHeadlessQueue_quiet l : emits_nothing (writeHeadlessQueue d l).
Proof. unfold writeHeadlessQueue. quiet. Qed.
Hint Resolve writeHeadlessQueue_quiet : quiet.

Lemma AllowHeadlessPersona_quiet i : emits_nothing (AllowHeadlessPersona d i).
Proof. unfold AllowHeadlessPersona. quiet. Qed.
Hint Resolve AllowHeadlessPersona_quiet : quiet.

Lemma RecordHeadlessPersona_quiet i : emits_nothing (RecordHeadlessPersona d i).
Proof. unfold RecordHeadlessPersona. quiet. Qed.
Hint Resolve RecordHeadlessPersona_quiet : quiet.

Lemma EnqueueHeadless_quiet i : emits_nothing (EnqueueHeadless d i).
Proof. unfold EnqueueHeadless. quiet. Qed.
Hint Resolve EnqueueHeadless_quiet : quiet.

Lemma RemoveHeadlessQueueItem_quiet url : emits_nothing (RemoveHeadlessQueueItem d url).
Proof. unfold RemoveHeadlessQueueItem. quiet. Qed.

Lemma BumpHeadlessQueueAttempts_quiet url : emits_nothing (BumpHeadlessQueueAttempts d url).
Proof. unfold BumpHeadlessQueueAttempts. quiet. Qed.

Lemma TrimHeadlessQueue_quiet n : emits_nothing (TrimHeadlessQueue d n).
Proof. unfold TrimHeadlessQueue. quiet. Qed.

Lemma browser_Fetch_quiet url i counted : emits_nothing (browser_Fetch d url i counted).
Proof. unfold browser_Fetch. quiet. Qed.
Hint Resolve browser_Fetch_quiet : quiet.

Lemma getStatusMeta_quiet url rsc : emits_nothing (getStatusMeta d url rsc).
Proof. unfold getStatusMeta. quiet. Qed.
Hint Resolve getStatusMeta_quiet : quiet.

Lemma tryHeadless_quiet url a b : emits_nothing (tryHeadless d o url a b).
Proof. unfold tryHeadless, last_proxy. quiet. Qed.
Hint Resolve tryHeadless_quiet : quiet.

Lemma with_payloads_quiet url body : emits_nothing (with_payloads d st o url body).
Proof. unfold with_payloads, mergeRSC, headlessForEmptyText. quiet. Qed.
Hint Resolve with_payloads_quiet : quiet.

Lemma FetchForCrawl_quiet url : emits_nothing (FetchForCrawl d st o url).
Proof. unfold FetchForCrawl. quiet. Qed.

Lemma check_done_quiet : emits_nothing (check_done d).
Proof. unfold check_done. quiet. Qed.
End quiet_pages.
#[export] Hint Resolve clock_quiet writing_quiet FetchForCrawl_quiet check_done_quiet browser_Fetch_quiet
  RemoveHeadlessQueueItem_quiet BumpHeadlessQueueAttempts_quiet TrimHeadlessQueue_quiet
  AllowHeadlessPersona_quiet RecordHeadlessPersona_quiet EnqueueHeadless_quiet : quiet.

Lemma wp_onward {A} (m : Fetch A) (Q : A → Pages → Prop) (X : crawl_end → Pages → Prop) p :
  emits_nothing m → (∀ a p', onward p p' → Q a p') → (∀ e p', onward p p' → X e p') → wp m Q X p.
Proof.
  intros Hm HQ HX. eapply wp_mono; [| |exact (keeps_wp _ m p (Hm p) (reflexivity p))]; cbn; auto.
Qed.

(** ** Where a page comes from *)

Section served.
Context `{Sorter} `{DayLib} `{TimeLib} `{JsonLib} `{JsonSyntax} `{MailLib}.
Context (d : PageDeps) (st : validate_state) (o : PageFetchOptions).

(** Between two moments of the run the transport was asked for the address and answered 200: the
    part of the body that was read. *)
Definition got (before now : list page_call) (url : string) (rsc : bool) (body : string) : Prop :=
  ∃ l1 l2 proxy a, now = l1 ++ CGet (resolveFetchURL (pd_baseURL d) url) rsc :: l2 ∧ before `prefix_of` l1
    ∧ pd_transport d l1 (resolveFetchURL (pd_baseURL d) url) rsc = (proxy, Some a)
    ∧ StatusCode (pa_head a) = StatusOK
    ∧ body = if pa_read a then stake max_page_bytes (pa_body a) else estr.

(** Between two moments of the run the browser was sent to the address and had the page. *)
Definition browsed (before now : list page_call) (url html : string) : Prop :=
  ∃ l1 l2 i out, now = l1 ++ CBrowser url i :: l2 ∧ before `prefix_of` l1
    ∧ pd_browser d l1 url i = Some out ∧ html = TrimSpace out.

(** The page at the address, as it was served between two moments: the body of the answer, the body
    with the flight payload of a second answer, or the page of the browser. *)
Definition served (before now : list page_call) (url html : string) : Prop :=
  (∃ body, got before now url false body ∧
    (html = body ∨ ∃ rsc, got before now url true rsc
      ∧ html = body +:+ byte_string 10 +:+ "<script>" +:+ wrapRSCAsFlightScripts rsc +:+ "</script>"))
  ∨ browsed before now url html.

Lemma got_mono l0 l1 l2 l3 url rsc body :
  l0 `prefix_of` l1 → l2 `prefix_of` l3 → got l1 l2 url rsc body → got l0 l3 url rsc body.
Proof.
  intros Hl [k ->] (m1 & m2 & proxy & a & -> & Hp & Ha). exists m1, (m2 ++ k), proxy, a.
  split; [by rewrite <- app_assoc|]. split; [by etrans|done].
Qed.

Lemma browsed_mono l0 l1 l2 l3 url html :
  l0 `prefix_of` l1 → l2 `prefix_of` l3 → browsed l1 l2 url html → browsed l0 l3 url html.
Proof.
  intros Hl [k ->] (m1 & m2 & i & out & -> & Hp & Ha). exists m1, (m2 ++ k), i, out.
  split; [by rewrite <- app_assoc|]. split; [by etrans|done].
Qed.

Lemma served_mono l0 l1 l2 l3 url html :
  l0 `prefix_of` l1 → l2 `prefix_of` l3 → served l1 l2 url html → served l0 l3 url html.
Proof.
  intros Hl Hn [(body & Hb & Hh)|Hb]; [left|right; by eapply browsed_mono].
  exists body. split; [by eapply got_mono|]. destruct Hh as [Hh|(rsc & Hr & Hh)]; [by left|right].
  exists rsc. split; [by eapply got_mono|done].
Qed.

Lemma wp_getStatusMeta url rsc p :
  wp (getStatusMeta d url rsc) (λ r p', onward p p'
      ∧ (hr_status r = StatusOK → got (pg_calls p) (pg_calls p') url rsc (hr_body r))
      ∧ (hr_failed r = false → hr_status r = StatusOK)) (λ e p', onward p p') p.
Proof.
  eapply wp_mono; [| |apply wp_and; [apply (wp_onward _ (λ _ p', onward p p') (λ _ p', onward p p'));
    [apply getStatusMeta_quiet|done..]|]].
  - intros r p' [Ho Hr]. split; [exact Ho|exact Hr].
  - intros e p' [Ho _]. exact Ho.
  - instantiate (1 := λ _ _, True). unfold getStatusMeta, clock, record_call. wp_run; cbn; try (by split); try done.
    all: split; [intros Hs|].
    1,3: eexists (pg_calls p), [], _, _; split; [by destruct o0|]; split; [done|]; split; [eassumption|];
      split; [done|]; by destruct (pa_read _).
    + done.
    + intros Hs. apply negb_false_iff in Hs. by apply Z.eqb_eq.
Qed.

Lemma wp_browser_Fetch url i counted p :
  wp (browser_Fetch d url i counted) (λ r p', onward p p'
      ∧ ∀ html, r = Some html → browsed (pg_calls p) (pg_calls p') url html) (λ e p', onward p p') p.
Proof.
  unfold browser_Fetch. apply wp_bind, wp_get. destruct (pg_browser p) as [|[]]; [by apply wp_done|by apply wp_exit|].
  apply wp_bind. apply wp_onward; [destruct counted; quiet| |done]. intros allowed p1 P1.
  destruct (negb allowed).
  { apply wp_bind, wp_modify, wp_done. split; [|done]. etrans; [exact P1|by split]. }
  apply wp_bind, wp_get, wp_bind. unfold record_call. apply wp_modify.
  set (p2 := set_page_calls _ p1). assert (onward p1 p2) as P2.
  { split; [|by eexists]. unfold emissions. cbn. rewrite omap_app. cbn. by rewrite app_nil_r. }
  destruct (pd_browser d (pg_calls p1) url i) as [out|] eqn:E; [|apply wp_done; split; [by etrans|done]].
  cbv zeta. destruct (String.eqb _ _); [apply wp_done; split; [by etrans|done]|].
  apply wp_bind. apply wp_onward; [destruct counted; quiet| |].
  2: { intros e p3 P3. etrans; [exact P1|]. by etrans. }
  intros _ p3 P3. apply wp_done. split; [by etrans; [exact P1|etrans]|]. intros html [= <-].
  destruct P3 as [_ [k Hk]]. exists (pg_calls p1), k, i, out. split; [|split; [apply P1|done]].
  rewrite Hk. cbn. by rewrite <- app_assoc.
Qed.

Lemma wp_tryHeadless url a b p :
  wp (tryHeadless d o url a b) (λ r p', onward p p'
      ∧ ∀ html, r.1 = Some html → browsed (pg_calls p) (pg_calls p') url html) (λ e p', onward p p') p.
Proof.
  unfold tryHeadless, last_proxy. apply wp_bind, wp_bind, wp_get, wp_done.
  destruct (po_HeadlessDefer o).
  { apply wp_bind, wp_onward; [quiet| |done]. intros ok p1 P1. by apply wp_done. }
  destruct (negb (po_HeadlessEnabled o)); [by apply wp_done|].
  apply wp_bind, wp_onward; [quiet| |done]. intros allowed p1 P1.
  destruct (negb allowed); [by apply wp_done|]. apply wp_bind.
  eapply wp_mono; [| |apply wp_browser_Fetch].
  - intros html p2 [P2 Hb]. destruct html as [html|]; [|apply wp_done; split; [by etrans|done]].
    destruct (String.eqb _ _); apply wp_done; (split; [by etrans|]); [done|]. intros h [= <-].
    eapply browsed_mono; [apply P1|done|by apply Hb].
  - intros e p2 P2. by etrans.
Qed.

Lemma wp_headlessForEmptyText url html a p :
  wp (headlessForEmptyText d st o url html a) (λ r p', onward p p'
      ∧ ∀ html, r.1 = Some html → browsed (pg_calls p) (pg_calls p') url html) (λ e p', onward p p') p.
Proof.
  unfold headlessForEmptyText. destruct (negb _ && negb _); [by apply wp_done|].
  destruct (pageHasExtractableContacts _ _); [by apply wp_done|]. apply wp_tryHeadless.
Qed.

Lemma wp_with_payloads url body p0 p :
  onward p0 p → got (pg_calls p0) (pg_calls p) url false body →
  wp (with_payloads d st o url body) (λ r p', onward p0 p' ∧ served (pg_calls p0) (pg_calls p') url (pr_html r))
    (λ e p', onward p0 p') p.
Proof.
  intros Hp Hg. unfold with_payloads. apply wp_bind.
  eapply (wp_mono _ (λ merged p1, onward p0 p1 ∧ served (pg_calls p0) (pg_calls p1) url merged.1) _
    (λ e p1, onward p0 p1)); [| |].
  - intros merged p1 [P1 Hs]. apply wp_bind. eapply wp_mono; [| |apply wp_headlessForEmptyText].
    + intros [[html|] stage] p2 [P2 Hb]; apply wp_done; (split; [by etrans|]).
      * right. eapply browsed_mono; [apply P1|done|by apply Hb].
      * eapply served_mono; [done|apply P2|exact Hs].
    + intros e p2 P2. by etrans.
  - intros e p1 P1. exact P1.
  - unfold mergeRSC. destruct (negb _); [apply wp_done; split; [done|]; left; exists body; auto|].
    apply wp_bind. eapply wp_mono; [| |apply wp_getStatusMeta].
    + intros rsc p1 (P1 & Hr & Hok).
      assert (got (pg_calls p0) (pg_calls p1) url false body) as Hg1 by (eapply got_mono; [done|apply P1|exact Hg]).
      destruct (hr_failed rsc) eqn:Ef; cbn [orb].
      { apply wp_done. split; [by etrans|]. left. exists body. auto. }
      destruct (String.eqb _ _); apply wp_done; (split; [by etrans|]); left; exists body; (split; [done|]); [by left|right].
      exists (hr_body rsc). split; [|done]. eapply got_mono; [apply Hp|done|]. by apply Hr, Hok.
    + intros e p1 P1. by etrans.
Qed.

(** A fetch that does not fail gives a page served in between, at its address. *)
Lemma wp_FetchForCrawl url p :
  wp (FetchForCrawl d st o url) (λ r p', onward p p'
      ∧ (pr_failed r = false → served (pg_calls p) (pg_calls p') url (pr_html r))) (λ e p', onward p p') p.
Proof.
  unfold FetchForCrawl. apply wp_bind. eapply wp_mono; [| |apply wp_getStatusMeta]; [|done].
  intros r p1 (P1 & Hr & Hok).
  assert (∀ a b (k : string → page_result), (∀ stage, pr_failed (k stage) = false → hr_failed r = false) →
    hr_failed r = true →
    wp (let! dynamic := tryHeadless d o url a b in
        match dynamic with
        | (Some html, stage) => done (fetched html stage StatusOK false)
        | (None, stage) => done (k stage)
        end) (λ r p', onward p p' ∧ (pr_failed r = false → served (pg_calls p) (pg_calls p') url (pr_html r)))
      (λ e p', onward p p') p1) as Hbrowser.
  { intros a b k Hk Hf. apply wp_bind. eapply wp_mono; [| |apply wp_tryHeadless].
    - intros [[html|] stage] p2 [P2 Hb]; apply wp_done; (split; [by etrans|]).
      + intros _. right. eapply browsed_mono; [apply P1|done|by apply Hb].
      + intros Hs. apply Hk in Hs. congruence.
    - intros e p2 P2. by etrans. }
  destruct (hr_failed r) eqn:Ef; cbn [andb].
  - destruct (hr_status r =? 0); [by apply Hbrowser|].
    destruct (Z.eqb_spec (hr_status r) StatusOK) as [Es|Es].
    + eapply wp_mono; [| |apply (wp_with_payloads _ _ p); [done|by apply Hr]]; [|done].
      intros r' p2 [P2 Hs]. by split.
    + destruct (hr_cf r); [|by apply wp_done]. by apply Hbrowser.
  - pose proof (Hok eq_refl) as Es. rewrite Es. cbn [Z.eqb].
    assert ((StatusOK =? StatusOK) = true) as -> by by vm_compute.
    eapply wp_mono; [| |apply (wp_with_payloads _ _ p); [done|by apply Hr]]; [|done].
    intros r' p2 [P2 Hs]. by split.
Qed.
End served.

(** ** The leads of a domain *)

(** The addresses of a path of a domain: the front page is also tried with its [www]. *)
Definition page_address (domain path url : string) : Prop :=
  url = "https://" +:+ domain +:+ path ∨ path = "/" ∧ url = "https://www." +:+ domain +:+ path.

(** The item of a page of the domain: the page was served between two moments, at the address of a
    path of the domain, and the item has the text and the contact that the page gives. *)
Definition from_page `{JsonLib} `{JsonSyntax} `{MailLib} (d : PageDeps) (st : validate_state) (before now : list page_call)
    (paths : list string) (channel domain : string) (m : emission) : Prop :=
  ∃ path url html text c, path ∈ paths ∧ page_address domain path url ∧ served d before now url html
    ∧ site_contact st channel domain html = Some (text, c)
    ∧ em_Source m = sourceLabel channel domain ∧ em_Text m = text ∧ em_Contact m = formatPrimaryContact c.

Lemma from_page_mono `{JsonLib} `{JsonSyntax} `{MailLib} d st l0 l1 l2 l3 paths channel domain m :
  l0 `prefix_of` l1 → l2 `prefix_of` l3 → from_page d st l1 l2 paths channel domain m →
  from_page d st l0 l3 paths channel domain m.
Proof.
  intros Hb Hn (path & url & html & text & c & Hp & Ha & Hs & Hc). exists path, url, html, text, c.
  split; [done|]. split; [done|]. split; [by eapply served_mono|done].
Qed.

Section one_lead.
Context `{Sorter} `{DayLib} `{TimeLib} `{JsonLib} `{JsonSyntax} `{MailLib}.
Context (d : PageDeps) (st : validate_state) (o : PageFetchOptions).

(** What the sweep of a domain has emitted when it ends. *)
Definition swept (channel domain : string) (paths : list string) (p : Pages) (r : domainCrawlOutcome) (p' : Pages)
    : Prop :=
  pg_calls p `prefix_of` pg_calls p' ∧
  match r with
  | crawlOutcomeEmitted =>
      ∃ m, emissions p' = emissions p ++ [m] ∧ em_ok m = true
        ∧ from_page d st (pg_calls p) (pg_calls p') paths channel domain m
  | crawlOutcomeNoContacts => emissions p' = emissions p
  | crawlOutcomeHardFail =>
      emissions p' = emissions p
      ∨ ∃ m, emissions p' = emissions p ++ [m] ∧ em_ok m = false
          ∧ from_page d st (pg_calls p) (pg_calls p') paths channel domain m
  end.

Lemma swept_onward channel domain paths paths' p p1 r p' :
  onward p p1 → paths' ⊆ paths → swept channel domain paths' p1 r p' → swept channel domain paths p r p'.
Proof.
  intros [He Hc] Hsub [Hc' Hr]. split; [by etrans|].
  assert (∀ m, from_page d st (pg_calls p1) (pg_calls p') paths' channel domain m →
    from_page d st (pg_calls p) (pg_calls p') paths channel domain m) as Hm.
  { intros m Hm. eapply from_page_mono in Hm; [|exact Hc|done].
    destruct Hm as (path & Hm). exists path. destruct Hm as (url & html & text & c & Hp & Hm).
    exists url, html, text, c. split; [by apply Hsub|done]. }
  rewrite <- He. destruct r; [naive_solver|done|naive_solver].
Qed.

Lemma wp_emit i p :
  wp (emit d i) (λ ok p', pg_calls p `prefix_of` pg_calls p' ∧ emissions p' = emissions p ++
    [{| em_Source := it_Source i; em_Text := it_Raw i; em_Contact := it_Contact i; em_ok := ok |}]) (λ _ _, False) p.
Proof.
  unfold emit, record_call. wp_run. unfold emissions. cbn. rewrite omap_app. by split; [eexists|].
Qed.

(** The page of a path, by one of its addresses. *)
Lemma wp_page domain path p :
  wp (let! r := FetchForCrawl d st o ("https://" +:+ domain +:+ path) in
      if pr_failed r && String.eqb path "/"
      then FetchForCrawl d st o ("https://www." +:+ domain +:+ path) else done r)
    (λ r p', onward p p' ∧ (pr_failed r = false →
      ∃ url, page_address domain path url ∧ served d (pg_calls p) (pg_calls p') url (pr_html r)))
    (λ e p', onward p p') p.
Proof.
  apply wp_bind. eapply wp_mono; [| |apply wp_FetchForCrawl]; [|done]. intros r p1 [P1 Hr]. cbv beta.
  destruct (pr_failed r) eqn:Ef; cbn [andb].
  - destruct (String.eqb_spec path "/") as [Ep|Ep]; [|apply wp_done; split; [done|congruence]].
    eapply wp_mono; [| |apply wp_FetchForCrawl].
    + intros r' p2 [P2 Hr']. split; [by etrans|]. intros Hf. eexists. split; [right; by split|].
      eapply served_mono; [apply P1|done|by apply Hr'].
    + intros e p2 P2. by etrans.
  - apply wp_done. split; [done|]. intros _. eexists. split; [by left|by apply Hr].
Qed.

Lemma wp_assoc {A B C} (m : Fetch A) (k : A → Fetch B) (k' : B → Fetch C) Q X p :
  wp (seq_eff (seq_eff m k) k') Q X p → wp (seq_eff m (λ a, seq_eff (k a) k')) Q X p.
Proof. unfold wp, seq_eff. by destruct (m p) as [[a|e] q]. Qed.

Lemma crawl_paths_sweep channel domain paths : ∀ fingerprint p,
  wp (crawl_paths d st o channel domain fingerprint paths) (swept channel domain paths p)
    (λ _ p', onward p p') p.
Proof.
  induction paths as [|path paths IH]; intros fingerprint p; cbn [crawl_paths]; [by apply wp_done|].
  apply wp_assoc.
  apply wp_bind. eapply wp_mono; [| |apply wp_page]; [|done]. intros r p1 [P1 Hr].
  assert (∀ fp, wp (crawl_paths d st o channel domain fp paths) (swept channel domain (path :: paths) p)
    (λ _ p', onward p p') p1) as Hrest.
  { intros fp. eapply wp_mono; [| |apply IH].
    - intros out p2. apply (swept_onward _ _ _ paths); [exact P1|set_solver].
    - intros e p2 P2. by etrans. }
  destruct P1 as [He Hc]. wp_run; try apply Hrest; try done; try (split; [done|by left]); try (split; [done|done]).
  eapply wp_mono; [| |apply wp_emit]; cbn; [|done]. intros ok q [Hq' Hq]. apply wp_done. rewrite He in Hq.
  assert (from_page d st (pg_calls p) (pg_calls q) (path :: paths) channel domain
    {| em_Source := sourceLabel channel domain; em_Text := s; em_Contact := formatPrimaryContact c; em_ok := ok |}) as Hm.
  { destruct (Hr eq_refl) as (url & Ha & Hs). exists path, url, (pr_html r), s, c.
    split; [by left|]. split; [done|]. split; [eapply served_mono; [|exact Hq'|exact Hs]; done|done]. }
  split; [by etrans|]. destruct ok; [|right]; by eexists.
Qed.
End one_lead.

(** ** The queue of domains *)

(** The rows of the queue after some domains were marked. *)
Definition marked_row (domains : list string) (e e' : DomainEntry) : Prop :=
  e' = e ∨ ∃ domain t, domain ∈ domains ∧ EqualFold (de_Domain e) (lower_trim domain) = true ∧ e' = with_crawled e t.

Lemma marked_row_trans ds ds' e e' e'' : marked_row ds e e' → marked_row ds' e' e'' → marked_row (ds ++ ds') e e''.
Proof.
  intros [->|(x & t & Hx & Hd & ->)] [->|(y & u & Hy & Hd' & ->)].
  - by left.
  - right. exists y, u. split; [apply elem_of_app; by right|done].
  - right. exists x, t. split; [apply elem_of_app; by left|done].
  - right. exists x, u. split; [apply elem_of_app; by left|done].
Qed.

Lemma marked_rows_trans ds ds' f f' f'' :
  Forall2 (marked_row ds) f f' → Forall2 (marked_row ds') f' f'' → Forall2 (marked_row (ds ++ ds')) f f''.
Proof.
  intros H. revert f''. induction H as [|e e' f f' He Hf IH]; intros f'' H'; inversion_clear H'; constructor.
  - by eapply marked_row_trans.
  - by apply IH.
Qed.

Lemma marked_rows_refl ds f : Forall2 (marked_row ds) f f.
Proof. induction f; constructor; [by left|done]. Qed.

Lemma mark_first_rows `{TimeLib} (now : Time) domain f f' :
  CrawlQueue.mark_first now (lower_trim domain) f = Some f' → Forall2 (marked_row [domain]) f f'.
Proof.
  revert f'. induction f as [|e f IH]; intros f'; cbn; [done|]. case_match.
  - intros [= <-]. constructor; [|apply marked_rows_refl]. right. exists domain, (FormatRFC3339 now). by split; [left|].
  - destruct (CrawlQueue.mark_first now _ f) as [g|]; cbn; [|done]. intros [= <-]. constructor; [by left|by apply IH].
Qed.

Lemma normalized_twice f : normalizeDomainFile (normalizeDomainFile f) = normalizeDomainFile f.
Proof.
  unfold normalizeDomainFile. rewrite <- list_fmap_compose. by apply list_fmap_ext.
Qed.

Definition normalized_row (e : DomainEntry) : Prop := de_ForwardedFrom e = estr.

Lemma normalized_rows f : normalizeDomainFile f = f ↔ Forall normalized_row f.
Proof.
  unfold normalizeDomainFile. split.
  - intros <-. apply Forall_fmap, Forall_forall. by intros e _.
  - induction 1 as [|e f He Hf IH]; cbn; [done|]. rewrite IH. f_equal. unfold normalized_row in He. destruct e as [? ? ? ? ? via ? ?]. cbn in *. by subst.
Qed.

Lemma mark_first_normalized `{TimeLib} (now : Time) domain f f' :
  Forall normalized_row f → CrawlQueue.mark_first now domain f = Some f' → Forall normalized_row f'.
Proof.
  intros Hf. revert f'. induction Hf as [|e f He Hf IH]; intros f'; cbn; [done|]. case_match.
  - intros [= <-]. by constructor.
  - destruct (CrawlQueue.mark_first now _ f) as [g|]; cbn; [|done]. intros [= <-]. constructor; [done|by apply IH].
Qed.

Lemma loaded_normalized q f : loadDomainsUnlocked q = Some f → normalizeDomainFile f = f.
Proof. destruct q; cbn; intros [= <-]; [done|]. apply normalized_twice. Qed.

Lemma MarkCrawled_rows `{TimeLib} (now : Time) ok domain q f :
  loadDomainsUnlocked q = Some f →
  ∃ f', loadDomainsUnlocked (MarkCrawled now ok domain q).1 = Some f' ∧ Forall2 (marked_row [domain]) f f'.
Proof.
  intros Hf. unfold MarkCrawled. rewrite Hf. pose proof (loaded_normalized _ _ Hf) as Hn.
  destruct (CrawlQueue.mark_first now (lower_trim domain) f) as [f'|] eqn:E.
  - apply normalized_rows in Hn. pose proof (proj2 (normalized_rows f') (mark_first_normalized _ _ _ _ Hn E)) as Hn'. unfold writeDomainsUnlocked, write_file.
    destruct ok; cbn; [|exists f; split; [done|apply marked_rows_refl]].
    exists f'. rewrite !Hn'. split; [done|]. by eapply mark_first_rows.
  - exists f. split; [done|apply marked_rows_refl].
Qed.

(** ** A crawl of the queue *)

Lemma wp_on_pages {A} (m : Fetch A) (Q : A → Site → Prop) (X : crawl_end → Site → Prop) s :
  wp m (λ a p, Q a (set_pages p s)) (λ e p, X e (set_pages p s)) (si_pages s) → wp (on_pages m) Q X s.
Proof. unfold wp, on_pages. by destruct (m (si_pages s)) as [[a|e] p]. Qed.

Section crawls.
Context `{Sorter} `{DayLib} `{TimeLib} `{JsonLib} `{JsonSyntax} `{MailLib}.
Context (d : PageDeps) (st : validate_state) (o : PageFetchOptions) (paths : string → list string) (c : Crawler).

(** What a crawl of the domains does: at most one lead per domain, in their order, made of a page
    that the crawl was served at an address of the domain; and only the domains of the leads that
    got through are marked. *)
Definition crawled (domains : list DomainEntry) (s s' : Site) : Prop :=
  pg_calls (si_pages s) `prefix_of` pg_calls (si_pages s') ∧
  ∃ leads : list (DomainEntry * emission),
    emissions (si_pages s') = emissions (si_pages s) ++ leads.*2
    ∧ leads.*1 `sublist_of` domains
    ∧ Forall (λ x, from_page d st (pg_calls (si_pages s)) (pg_calls (si_pages s')) (paths (de_Domain x.1))
                     (de_Channel x.1) (de_Domain x.1) x.2) leads
    ∧ ∀ f, loadDomainsUnlocked (si_domains s) = Some f →
        ∃ f', loadDomainsUnlocked (si_domains s') = Some f'
          ∧ Forall2 (marked_row (de_Domain <$> (List.filter (λ x, em_ok x.2) leads).*1)) f f'.

Lemma crawled_nothing domains s s' :
  onward (si_pages s) (si_pages s') → si_domains s' = si_domains s → crawled domains s s'.
Proof.
  intros [He Hc] Hq. split; [done|]. exists []. rewrite He, Hq, app_nil_r. split; [done|].
  split; [apply sublist_nil_l|]. split; [done|].
  intros f Hf. exists f. split; [done|apply marked_rows_refl].
Qed.

Lemma crawled_app ds ds' s s' s'' : crawled ds s s' → crawled ds' s' s'' → crawled (ds ++ ds') s s''.
Proof.
  intros (Hc & l & Hl & Hs & Hp & Hf) (Hc' & l' & Hl' & Hs' & Hp' & Hf'). split; [by etrans|]. exists (l ++ l').
  split; [by rewrite Hl', Hl, fmap_app, app_assoc|]. split; [rewrite fmap_app; by apply sublist_app|]. split.
  { apply Forall_app. split; [eapply Forall_impl; [exact Hp|]|eapply Forall_impl; [exact Hp'|]];
      intros x Hx; eapply from_page_mono; [| |exact Hx| | |exact Hx]; done. }
  intros f Hr. destruct (Hf f Hr) as (g & Hg & Hfg).
  destruct (Hf' g Hg) as (h & Hh & Hgh). exists h. split; [done|].
  rewrite List.filter_app, !fmap_app. by eapply marked_rows_trans.
Qed.

(** The lead of one domain. *)
Lemma crawled_lead e m s s' :
  pg_calls (si_pages s) `prefix_of` pg_calls (si_pages s') →
  emissions (si_pages s') = emissions (si_pages s) ++ [m] →
  from_page d st (pg_calls (si_pages s)) (pg_calls (si_pages s')) (paths (de_Domain e)) (de_Channel e) (de_Domain e) m →
  (∀ f, loadDomainsUnlocked (si_domains s) = Some f → ∃ f', loadDomainsUnlocked (si_domains s') = Some f'
    ∧ Forall2 (marked_row (if em_ok m then [de_Domain e] else [])) f f') →
  crawled [e] s s'.
Proof.
  intros Hc He Hp Hf. split; [done|]. exists [(e, m)]. split; [done|]. split; [done|]. split; [by constructor|].
  intros f Hr. destruct (Hf f Hr) as (f' & Hf' & Hm). exists f'. split; [done|]. cbn. by destruct (em_ok m).
Qed.

Lemma wp_on_quiet {A} (m : Fetch A) (Q : A → Site → Prop) (X : crawl_end → Site → Prop) s :
  emits_nothing m → (∀ a p, onward (si_pages s) p → Q a (set_pages p s)) →
  (∀ e p, onward (si_pages s) p → X e (set_pages p s)) → wp (on_pages m) Q X s.
Proof. intros Hm HQ HX. apply wp_on_pages. by apply wp_onward. Qed.

Lemma site_writable_quiet what :
  emits_nothing (let! out := writing d what in done (match out with Written => true | _ => false end)).
Proof. quiet. Qed.

(** Neither a mark nor a dropped domain emits anything. *)
Lemma wp_mark_crawled domain s (X : crawl_end → Site → Prop) :
  (∀ e p, onward (si_pages s) p → X e (set_pages p s)) →
  wp (mark_crawled d domain) (λ _ s', onward (si_pages s) (si_pages s')
    ∧ ∀ f, loadDomainsUnlocked (si_domains s) = Some f →
        ∃ f', loadDomainsUnlocked (si_domains s') = Some f' ∧ Forall2 (marked_row [domain]) f f') X s.
Proof.
  intros HX. unfold mark_crawled. apply wp_bind, wp_on_quiet; [apply clock_quiet| |done]. intros now p Hp.
  apply wp_bind, wp_on_quiet; [apply site_writable_quiet| |cbn; intros e q Hq; apply HX; by etrans].
  intros ok q Hq. apply wp_modify. cbn in *. split; [by etrans|]. intros f Hf. by apply MarkCrawled_rows.
Qed.

Lemma wp_drop_domain domain s (X : crawl_end → Site → Prop) :
  (∀ e p, onward (si_pages s) p → X e (set_pages p s)) →
  wp (drop_domain d domain) (λ _ s', onward (si_pages s) (si_pages s') ∧ si_domains s' = si_domains s) X s.
Proof.
  intros HX. unfold drop_domain. apply wp_bind, wp_on_quiet; [apply site_writable_quiet| |done].
  intros ok p Hp. by apply wp_modify.
Qed.

(** A lead that got through, and the mark of its domain. *)
Lemma wp_lead_marked e m s s1 :
  pg_calls (si_pages s) `prefix_of` pg_calls (si_pages s1) → si_domains s1 = si_domains s →
  emissions (si_pages s1) = emissions (si_pages s) ++ [m] → em_ok m = true →
  from_page d st (pg_calls (si_pages s)) (pg_calls (si_pages s1)) (paths (de_Domain e)) (de_Channel e) (de_Domain e) m →
  wp (mark_crawled d (de_Domain e)) (λ _ s', crawled [e] s s') (λ _ s', crawled [e] s s') s1.
Proof.
  intros Hc Hd Hm Hok Hpage.
  eapply wp_mono; [| |apply (wp_mark_crawled _ _ (λ _ s', crawled [e] s s'))]; cbn; [|done|].
  - intros _ s' [[He Hc'] Hf]. apply (crawled_lead e m); [by etrans|congruence| |by rewrite Hok, <- Hd].
    by eapply from_page_mono; [|exact Hc'|exact Hpage].
  - intros x q' [He Hc']. apply (crawled_lead e m); [by etrans|cbn; congruence| |].
    + by eapply from_page_mono; [|exact Hc'|exact Hpage].
    + rewrite Hok. cbn. rewrite Hd. intros f Hf. exists f. split; [done|apply marked_rows_refl].
Qed.

Lemma collect_domain_crawled e s :
  IsValidCrawlDomain st (de_Domain e) = true →
  wp (collect_domain d st o paths c e) (λ _ s', crawled [e] s s') (λ _ s', crawled [e] s s') s.
Proof.
  intros Hv. unfold collect_domain.
  apply wp_bind, wp_on_quiet; [apply check_done_quiet| |intros x p Hp; by apply crawled_nothing].
  intros _ p Hp. wp_run.
  - eapply wp_mono; [| |apply (wp_drop_domain _ _ (λ _ s', crawled [e] s s'))]; cbn; [|done|].
    + intros _ s' [He Hd]. apply crawled_nothing; [by etrans|done].
    + intros x q Hq. apply crawled_nothing; [by etrans|done].
  - by apply crawled_nothing.
  - by rewrite Hv in *.
  - destruct Hp as [He Hc]. apply wp_on_pages. eapply wp_mono; [| |apply crawl_paths_sweep]; cbn.
    + intros r q [Hq' Hq]. rewrite He in Hq.
      assert (∀ m, from_page d st (pg_calls p) (pg_calls q) (paths (de_Domain e)) (de_Channel e) (de_Domain e) m →
        from_page d st (pg_calls (si_pages s)) (pg_calls q) (paths (de_Domain e)) (de_Channel e) (de_Domain e) m) as Hpages
        by (intros m; by apply from_page_mono).
      destruct r; cbn in Hq.
      * destruct Hq as (m & Hm & Hok & Hpage). eapply wp_lead_marked; cbn; [by etrans|done|exact Hm|done|by apply Hpages].
      * apply wp_done. apply crawled_nothing; [|done]. split; [done|by etrans].
      * apply wp_done. destruct Hq as [Hq|(m & Hm & Hok & Hpage)].
        { apply crawled_nothing; [|done]. split; [done|by etrans]. }
        apply (crawled_lead e m); cbn; [by etrans|done|by apply Hpages|]. rewrite Hok.
        intros f Hf. exists f. split; [done|apply marked_rows_refl].
    + intros x q Hq. apply crawled_nothing; [|done]. etrans; [by split|exact Hq].
Qed.

Lemma collect_all_crawled l s :
  Forall (λ e, IsValidCrawlDomain st (de_Domain e) = true) l →
  wp (collect_all d st o paths c l) (λ _ s', crawled l s s') (λ _ s', crawled l s s') s.
Proof.
  revert s. induction l as [|e l IH]; intros s Hl; cbn [collect_all]; [by apply wp_done, crawled_nothing|].
  inversion_clear Hl as [|? ? Hv Hl']. apply wp_bind.
  eapply wp_mono; [| |by apply collect_domain_crawled]; cbn.
  - intros _ s1 Hc. eapply wp_mono; [| |by apply IH]; cbn; intros _ s2 Hc2; by apply (crawled_app [e] l s s1 s2).
  - intros _ s1 Hc. apply (crawled_app [e] l s s1 s1); [done|]. by apply crawled_nothing.
Qed.
End crawls.

(** What is selected can be crawled. *)
Lemma limited_In {A} limit (l : list A) x : In x (CrawlQueue.limited limit l) → In x l.
Proof.
  unfold CrawlQueue.limited. case_match; [|done]. rewrite <- !list_elem_of_In.
  intros Hx. eapply elem_of_sublist; [exact Hx|apply sublist_take].
Qed.

Lemma SelectDomains_valid `{Sorter} `{TimeLib} st now f limit rescanDays only :
  Forall (λ e, IsValidCrawlDomain st (de_Domain e) = true) (SelectDomains st now f limit rescanDays only).
Proof.
  apply List.Forall_forall. intros e He. unfold SelectDomains in He. case_match.
  - unfold PendingDomains in He. apply limited_In in He.
    apply list_elem_of_In in He. rewrite sort_slice_perm in He. apply list_elem_of_In in He.
    unfold pending_rows in He. by apply filter_In in He as [_ He].
  - unfold selectOnlyDomains in He. case_match; [done|]. apply limited_In, filter_In in He as [_ He].
    by apply andb_true_iff in He as [_ He].
Qed.

(** The domains that a crawl at this time selects. *)
Definition selected `{Sorter} `{TimeLib} (st : validate_state) (c : Crawler) (now : Time) (s : Site) : list DomainEntry :=
  match loadDomainsUnlocked (si_domains s) with
  | Some f => SelectDomains st now f (cw_maxDomains c) (cw_rescanDays c) (cw_domainFilter c)
  | None => []
  end.

Section whole_crawls.
Context `{Sorter} `{DayLib} `{TimeLib} `{JsonLib} `{JsonSyntax} `{MailLib}.
Context (d : PageDeps) (st : validate_state) (o : PageFetchOptions) (paths : string → list string) (c : Crawler).
Abbreviation crawled := (crawled d st paths).

Lemma crawl_leads_all (s : Site) :
  ∃ now, crawled (selected st c now s) s (Collect d st o paths c s).2.
Proof.
  enough (wp (Collect d st o paths c) (λ _ s', ∃ now, crawled (selected st c now s) s s')
    (λ _ s', ∃ now, crawled (selected st c now s) s s') s) as Hw.
  { unfold wp in Hw. by destruct (Collect d st o paths c s) as [[?|?] ?]. }
  unfold Collect, over_budget, site_now.
  apply wp_bind, wp_bind, wp_on_quiet; [apply clock_quiet| |intros e p Hp; exists 0; by apply crawled_nothing].
  intros now p Hp. apply wp_bind, wp_get. destruct (ShouldSkipProxySource _ _ _) as [[g skip] reason].
  apply wp_bind, wp_modify, wp_done. destruct skip; [apply wp_done; exists 0; by apply crawled_nothing|].
  apply wp_bind, wp_get. cbn. destruct (loadDomainsUnlocked (si_domains s)) as [f|] eqn:E.
  2: { apply wp_done. exists 0. by apply crawled_nothing. }
  apply wp_bind, wp_on_quiet; [apply clock_quiet| |intros e q Hq; exists 0; apply crawled_nothing; [by etrans|done]].
  intros later q Hq. cbn in Hq. assert (onward (si_pages s) q) as Hsq by by etrans.
  apply wp_bind. eapply wp_mono; [| |apply collect_all_crawled, SelectDomains_valid]; cbn.
  - intros _ s' Hc. apply wp_done. exists later. unfold selected. rewrite E.
    eapply (crawled_app d st paths [] _ s _ s'); [|exact Hc]. by apply crawled_nothing.
  - intros _ s' Hc. exists later. unfold selected. rewrite E.
    eapply (crawled_app d st paths [] _ s _ s'); [|exact Hc]. by apply crawled_nothing.
Qed.

Lemma crawled_without_leads ds s s' f :
  crawled ds s s' → emissions (si_pages s') = emissions (si_pages s) →
  loadDomainsUnlocked (si_domains s) = Some f → loadDomainsUnlocked (si_domains s') = Some f.
Proof.
  intros (_ & l & Hl & _ & _ & Hm) He Hf. rewrite He in Hl.
  assert (l.*2 = []) as Hnil by (by apply (app_inv_head (emissions (si_pages s))); rewrite app_nil_r).
  destruct l; [|done]. destruct (Hm f Hf) as (f' & Hf' & Hrows). rewrite Hf'. f_equal.
  clear -Hrows. induction Hrows as [|e e' f f' He _ IH]; [done|]. f_equal; [|done].
  destruct He as [->|(x & t & Hx & _)]; [done|]. by apply not_elem_of_nil in Hx.
Qed.
End whole_crawls.

(** C7. A crawl of the queue of domains emits at most one lead per selected domain, in the order of
    the selection, each made from the contact of a page of its domain: a page that the transport or
    the browser served to this very crawl, asked for the address of one of the paths of the domain
    ([from_page]). And it marks as crawled only the domains whose lead got through. It does so however
    it ends: a crawl that is cancelled in between has marked nothing more. A crawl without a lead
    leaves the queue as it was, so the next one selects from the same rows. *)
Theorem crawl_leads `{Sorter} `{DayLib} `{TimeLib} `{JsonLib} `{JsonSyntax} `{MailLib} (d : PageDeps) (st : validate_state)
    (o : PageFetchOptions) (paths : string → list string) (c : Crawler) (s : Site) :
  let s' := (Collect d st o paths c s).2 in
  (∃ now, crawled d st paths (selected st c now s) s s')
  ∧ ∀ f, emissions (si_pages s') = emissions (si_pages s) → loadDomainsUnlocked (si_domains s) = Some f →
      loadDomainsUnlocked (si_domains s') = Some f.
Proof.
  destruct (crawl_leads_all d st o paths c s) as [now Hc]. split; [by exists now|].
  intros f. by eapply crawled_without_leads.
Qed.

(** ** A drain of the queue of pages *)

Definition url_key (i : HeadlessQueueItem) : string := ToLower (hq_URL i).

(** What becomes of a row. *)
Definition after_drain (sent tried : list string) (i : HeadlessQueueItem) : option HeadlessQueueItem :=
  if mem (url_key i) sent then None
  else if mem (url_key i) tried then Some (with_attempts (hq_Attempts i + 1) i) else Some i.

Definition settle (ok : bool) (key : string) (i : HeadlessQueueItem) : option HeadlessQueueItem :=
  if same_url key i then if ok then None else Some (with_attempts (hq_Attempts i + 1) i) else Some i.

Definition settled (ok : bool) (key : string) (l : list HeadlessQueueItem) : list HeadlessQueueItem :=
  omap (settle ok key) l.

Definition queued_row (i : HeadlessQueueItem) : Prop := TrimSpace (hq_URL i) = hq_URL i ∧ url_key i ≠ estr.

Definition delivered (p : Pages) : list emission := List.filter em_ok (emissions p).

Lemma removed_settled key l : List.filter (λ i, negb (same_url key i)) l = settled true key l.
Proof.
  induction l as [|i l IH]; [done|]. unfold settled in *. cbn. unfold settle at 1.
  destruct (same_url key i); cbn; by rewrite IH.
Qed.

Lemma unbumped key l : key ∉ url_keys l → settled false key l = l.
Proof.
  induction l as [|i l IH]; [done|]. intros H. apply not_elem_of_cons in H as [Hn H].
  unfold settled in *. cbn. unfold settle at 1, same_url.
  destruct (String.eqb_spec (ToLower (hq_URL i)) key); [congruence|]. by rewrite IH.
Qed.

Lemma bumped_settled key l :
  NoDup (url_keys l) → key ∈ url_keys l → bump_first key l = Some (settled false key l).
Proof.
  induction l as [|i l IH]; intros Hn Hin; [by apply not_elem_of_nil in Hin|].
  apply NoDup_cons in Hn as [Hi Hn]. unfold settled. cbn. unfold settle at 1. destruct (same_url key i) eqn:E.
  - unfold same_url in E. apply String.eqb_eq in E. subst. do 2 f_equal. symmetry. by apply unbumped.
  - apply elem_of_cons in Hin as [->|Hin]; [unfold same_url in E; by rewrite String.eqb_refl in E|].
    by rewrite IH.
Qed.

(** Every row stays with its address, or goes. *)
Definition keeps_address (f : HeadlessQueueItem → option HeadlessQueueItem) : Prop :=
  ∀ i j, f i = Some j → hq_URL j = hq_URL i.

Lemma keeps_address_keys f l : keeps_address f → url_keys (omap f l) `sublist_of` url_keys l.
Proof.
  intros Hf. induction l as [|i l IH]; cbn; [constructor|]. destruct (f i) as [j|] eqn:E; cbn; [|by constructor].
  rewrite (Hf _ _ E). by constructor.
Qed.

Lemma keeps_address_rows f l : keeps_address f → Forall queued_row l → Forall queued_row (omap f l).
Proof.
  intros Hf Hl. induction Hl as [|i l Hi Hl IH]; cbn; [done|]. destruct (f i) as [j|] eqn:E; cbn; [|done].
  constructor; [|done]. unfold queued_row, url_key in *. by rewrite (Hf _ _ E).
Qed.

Lemma settle_address ok key : keeps_address (settle ok key).
Proof. intros i j. unfold settle. repeat case_match; by intros [= <-]. Qed.

Lemma after_drain_address sent tried : keeps_address (after_drain sent tried).
Proof. intros i j. unfold after_drain. repeat case_match; by intros [= <-]. Qed.

Lemma settled_after_drain ok key sent tried l :
  key ∉ tried → (∀ k, k ∈ sent → k ∈ tried) →
  omap (after_drain sent tried) (settled ok key l)
  = omap (after_drain (if ok then key :: sent else sent) (key :: tried)) l.
Proof.
  intros Hi Hs. assert (mem key tried = false) as Ht by (by apply not_true_iff_false; rewrite mem_spec).
  assert (mem key sent = false) as Hs' by (apply not_true_iff_false; rewrite mem_spec; auto).
  induction l as [|j l IH]; [done|]. unfold settled in *. cbn. unfold settle at 1, after_drain at 2, same_url.
  fold (url_key j). destruct (String.eqb_spec (url_key j) key) as [E|E].
  - destruct ok; cbn; rewrite ?E, ?String.eqb_refl, ?Hs', ?Ht; cbn; [exact IH|].
    unfold after_drain at 1. change (url_key (with_attempts _ j)) with (url_key j). rewrite E, Hs', Ht. by rewrite IH.
  - apply String.eqb_neq in E. cbn. destruct ok; cbn; rewrite ?E; cbn; rewrite IH; reflexivity.
Qed.

Lemma none_tried (l : list HeadlessQueueItem) : omap (after_drain [] []) l = l.
Proof. induction l as [|i l IH]; [done|]. cbn. by rewrite IH. Qed.

Lemma settled_other ok key k l : k ≠ key → k ∈ url_keys l → k ∈ url_keys (settled ok key l).
Proof.
  intros Hk Hin. apply list_elem_of_fmap in Hin as (i & -> & Hi). apply list_elem_of_fmap. exists i. split; [done|].
  apply list_elem_of_omap. exists i. split; [done|]. unfold settle, same_url.
  destruct (String.eqb_spec (ToLower (hq_URL i)) key); [done|done].
Qed.

(** The queue afterwards, with the pool and the emissions as they were. *)
Definition only_queue (q : disk (list HeadlessQueueItem)) (p p' : Pages) : Prop :=
  pg_queue p' = q ∧ pg_browser p' = pg_browser p ∧ emissions p' = emissions p.

Section drains.
Context `{Sorter} `{DayLib} `{TimeLib} `{JsonLib} `{JsonSyntax} `{MailLib}.
Context (d : PageDeps) (st : validate_state).
Hypothesis Hwritable : ∀ l, pd_writable d l = Written.
Hypothesis Hgoing : ∀ l, pd_done d l = false.

Lemma wp_write_queue l p :
  wp (writeHeadlessQueue d l) (λ ok p', ok = true ∧ only_queue (Stored l) p p') (λ _ _, False) p.
Proof.
  unfold writeHeadlessQueue, writing, record_call. wp_run. cbn. rewrite Hwritable. split; [done|].
  split; [done|]. split; [done|]. unfold emissions. cbn. rewrite omap_app. cbn. by rewrite app_nil_r.
Qed.

Lemma wp_remove i l p :
  pg_queue p = Stored l → queued_row i →
  wp (RemoveHeadlessQueueItem d (hq_URL i)) (λ _ p', only_queue (Stored (settled true (url_key i) l)) p p') (λ _ _, False) p.
Proof.
  intros Hq [Ht Hk]. unfold RemoveHeadlessQueueItem. rewrite Ht. fold (url_key i).
  destruct (String.eqb_spec (url_key i) estr); [done|]. unfold readHeadlessQueue. wp_run; rewrite Hq in *; [|done].
  injection E as <-. rewrite removed_settled.
  eapply wp_mono; [| |apply wp_write_queue]; cbn; [|done]. by intros ok p' [_ Hp].
Qed.

Lemma wp_bump i l p :
  pg_queue p = Stored l → queued_row i → NoDup (url_keys l) → url_key i ∈ url_keys l →
  wp (BumpHeadlessQueueAttempts d (hq_URL i)) (λ _ p', only_queue (Stored (settled false (url_key i) l)) p p') (λ _ _, False) p.
Proof.
  intros Hq [Ht Hk] Hn Hin. unfold BumpHeadlessQueueAttempts. rewrite Ht. fold (url_key i).
  destruct (String.eqb_spec (url_key i) estr); [done|]. unfold readHeadlessQueue. wp_run; rewrite Hq in *; try done.
  - injection E as <-. rewrite bumped_settled in E0 by done. injection E0 as <-.
    eapply wp_mono; [| |apply wp_write_queue]; cbn; [|done]. by intros ok p' [_ Hp].
  - injection E as <-. by rewrite bumped_settled in E0.
Qed.

Lemma wp_drain_page i p :
  pg_browser p = PlaywrightPool false →
  wp (drain_page d st i) (λ page p', only_queue (pg_queue p) p p'
    ∧ ∀ x, page = Some x → it_Source x = RawSourceLabel i) (λ _ _, False) p.
Proof.
  intros Hb. unfold drain_page, browser_Fetch. wp_step.
  eapply (wp_mono _ (λ _ p', only_queue (pg_queue p) p p')).
  - intros html p' Hp. apply wp_done. split; [done|]. intros x. destruct html as [html|]; cbn; [|done].
    repeat case_match; by intros [= <-].
  - intros e p' Hf. exact Hf.
  - unfold record_call. wp_run; try congruence; cbn in *; try discriminate; split; [done|split; [done|]|done|split; [done|]|done|split; [done|]]; unfold emissions; cbn; rewrite omap_app; cbn; by rewrite app_nil_r.
Qed.

(** One item of the drain. *)
Lemma wp_drain_item i l p :
  pg_queue p = Stored l → pg_browser p = PlaywrightPool false →
  queued_row i → NoDup (url_keys l) → url_key i ∈ url_keys l →
  wp (drain_item d st i) (λ _ p', ∃ ok : bool, pg_queue p' = Stored (settled ok (url_key i) l)
    ∧ pg_browser p' = PlaywrightPool false
    ∧ (em_Source <$> delivered p') = (em_Source <$> delivered p) ++ (if ok then [RawSourceLabel i] else [])) (λ _ _, False) p.
Proof.
  intros Hq Hb Hi Hn Hin. unfold drain_item. wp_step.
  eapply wp_mono; [| |by apply wp_drain_page]; cbn; [|done]. intros page p1 [(Hq1 & Hb1 & He1) Hpage].
  wp_step. eapply (wp_mono _ (λ (ok : bool) p2, pg_queue p2 = pg_queue p ∧ pg_browser p2 = pg_browser p
    ∧ (em_Source <$> delivered p2) = (em_Source <$> delivered p) ++ (if ok then [RawSourceLabel i] else []))).
  - intros ok p2 (Hq2 & Hb2 & He2). wp_step. rewrite Hq in Hq2.
    eapply (wp_mono _ (λ _ p3, only_queue (Stored (settled ok (url_key i) l)) p2 p3)); [|intros x q Hf; exact Hf|].
    + intros _ p3 (Hq3 & Hb3 & He3). apply wp_done. exists ok. split; [done|]. split; [congruence|].
      unfold delivered in *. by rewrite He3.
    + destruct ok; [by apply wp_remove|by apply wp_bump].
  - intros x q Hf. exact Hf.
  - unfold delivered. destruct page as [x|].
    + unfold emit, record_call. wp_run. cbn. split; [done|]. split; [done|]. unfold emissions in *. cbn.
      rewrite omap_app, He1, List.filter_app, fmap_app. cbn. rewrite (Hpage x eq_refl).
      by destruct (pd_emit d (pg_calls p1)).
    + apply wp_done. split; [done|]. split; [done|]. by rewrite He1, app_nil_r.
Qed.

(** The items of a drain, one after the other. *)
Lemma wp_drain_all items : ∀ l p,
  pg_queue p = Stored l → pg_browser p = PlaywrightPool false → NoDup (url_keys l) →
  Forall queued_row items → NoDup (url_keys items) → (∀ k, k ∈ url_keys items → k ∈ url_keys l) →
  wp (drain_all d st items) (λ _ p', ∃ sent, sent `sublist_of` items
    ∧ (em_Source <$> delivered p') = (em_Source <$> delivered p) ++ (RawSourceLabel <$> sent)
    ∧ pg_queue p' = Stored (omap (after_drain (url_keys sent) (url_keys items)) l)) (λ _ _, False) p.
Proof.
  induction items as [|i items IH]; intros l p Hq Hb Hn Hi Hni Hin; cbn [drain_all].
  - apply wp_done. exists []. split; [done|]. split; [by rewrite app_nil_r|]. rewrite Hq. f_equal.
    symmetry. apply none_tried.
  - inversion_clear Hi as [|? ? Hrow Hrows]. apply NoDup_cons in Hni as [Hk Hni].
    apply wp_bind. unfold check_done. wp_run; [by rewrite Hgoing in E|].
    eapply wp_mono; [| |apply (wp_drain_item i l)]; cbn; try done; [|apply Hin; by left].
    intros _ p1 (ok & Hq1 & Hb1 & He1).
    assert (keeps_address (settle ok (url_key i))) as Ha by apply settle_address.
    eapply wp_mono; [| |apply (IH (settled ok (url_key i) l))]; cbn; try done.
    + intros _ p2 (sent & Hs & He & Hq2). exists (if ok then i :: sent else sent).
      split; [by destruct ok; constructor|]. split.
      * rewrite He, He1, <- app_assoc. by destruct ok.
      * rewrite Hq2, settled_after_drain; [by destruct ok|done|]. intros k Hk'.
        eapply elem_of_sublist; [exact Hk'|by apply fmap_sublist].
    + by eapply sublist_NoDup; [|apply keeps_address_keys].
    + intros k Hk'. apply settled_other; [by intros ->|]. apply Hin. by right.
Qed.
End drains.

(** What a drain takes from the queue, and what it leaves. *)
Definition drain_batch `{Sorter} (drainLimit : Z) (l : list HeadlessQueueItem) : list HeadlessQueueItem :=
  take (Z.to_nat (if drainLimit <=? 0 then 25 else drainLimit))
    (sort_slice older (List.filter (λ i, negb (3 <=? hq_Attempts i)) l)).

Definition trimmed `{Sorter} (maxSize : Z) (l : list HeadlessQueueItem) : list HeadlessQueueItem :=
  if (maxSize <=? 0) || (Z.of_nat (length l) <=? maxSize) then l
  else drop (length l - Z.to_nat maxSize) (sort_slice older l).

Definition drained `{Sorter} (maxSize : Z) (batch sent l : list HeadlessQueueItem) : list HeadlessQueueItem :=
  if is_empty batch then l else trimmed maxSize (omap (after_drain (url_keys sent) (url_keys batch)) l).

Definition well_queued (l : list HeadlessQueueItem) : Prop := NoDup (url_keys l) ∧ Forall queued_row l.

Section drain_facts.
Context `{Sorter} (drainLimit maxSize : Z).

Lemma drain_batch_elem i l : i ∈ drain_batch drainLimit l → i ∈ l ∧ hq_Attempts i < 3.
Proof.
  intros Hi. eapply elem_of_sublist in Hi; [|apply sublist_take]. rewrite sort_slice_perm in Hi.
  apply list_elem_of_In, filter_In in Hi as [Hi Ha]. split; [by apply list_elem_of_In|].
  apply negb_true_iff, Z.leb_gt in Ha. lia.
Qed.

Lemma drain_batch_keys l k : k ∈ url_keys (drain_batch drainLimit l) → k ∈ url_keys l.
Proof.
  intros Hk. apply list_elem_of_fmap in Hk as (i & -> & Hi). apply list_elem_of_fmap. exists i. split; [done|].
  by apply drain_batch_elem.
Qed.

Lemma drain_batch_well l : well_queued l → well_queued (drain_batch drainLimit l).
Proof.
  intros [Hn Hr]. split.
  - unfold url_keys, drain_batch. rewrite fmap_take. eapply sublist_NoDup; [|apply sublist_take].
    rewrite sort_slice_perm. eapply sublist_NoDup; [exact Hn|apply fmap_sublist, filter_sublist].
  - apply Forall_forall. intros i Hi. eapply Forall_forall; [exact Hr|by apply drain_batch_elem].
Qed.

Lemma trimmed_well l : well_queued l → well_queued (trimmed maxSize l).
Proof.
  intros [Hn Hr]. unfold trimmed. case_match; [done|]. split.
  - unfold url_keys. rewrite fmap_drop. eapply sublist_NoDup; [|apply sublist_drop]. by rewrite sort_slice_perm.
  - apply Forall_drop. by rewrite sort_slice_perm.
Qed.

Lemma drained_well batch sent l : well_queued l → well_queued (drained maxSize batch sent l).
Proof.
  intros [Hn Hr]. unfold drained. case_match; [done|]. apply trimmed_well. split.
  - eapply sublist_NoDup; [exact Hn|apply keeps_address_keys, after_drain_address].
  - apply keeps_address_rows; [apply after_drain_address|done].
Qed.

(** The attempts that are left. *)
Definition attempts_left (i : HeadlessQueueItem) : nat := Z.to_nat (3 - hq_Attempts i).
Definition work (l : list HeadlessQueueItem) : nat := sum_list_with attempts_left l.

Lemma trimmed_work l : (work (trimmed maxSize l) ≤ work l)%nat.
Proof.
  unfold trimmed, work. case_match; [done|]. rewrite <- (sum_list_with_Permutation_proper _ _ _ (sort_slice_perm older l)).
  rewrite <- (take_drop (length l - Z.to_nat maxSize) (sort_slice older l)) at 2. rewrite sum_list_with_app. lia.
Qed.

(** A row that was tried has one attempt less. *)
Lemma after_drain_work sent tried i l :
  i ∈ l → hq_Attempts i < 3 → url_key i ∈ tried → (work (omap (after_drain sent tried) l) < work l)%nat.
Proof.
  assert (∀ j, (from_option attempts_left 0%nat (after_drain sent tried j) ≤ attempts_left j)%nat) as Hle.
  { intros j. unfold after_drain, attempts_left. repeat case_match; cbn; lia. }
  assert (∀ l, (work (omap (after_drain sent tried) l) ≤ work l)%nat) as Hall.
  { intros k. unfold work. induction k as [|j k IH]; cbn; [done|]. specialize (Hle j).
    destruct (after_drain sent tried j); cbn in *; lia. }
  intros Hi Ha Ht. apply list_elem_of_split in Hi.
  destruct Hi as (l1 & l2 & ->). rewrite omap_app. unfold work in *. rewrite !sum_list_with_app. cbn.
  pose proof (Hall l1) as H1. pose proof (Hall l2) as H2. unfold after_drain at 2.
  assert (0 < attempts_left i ∧ S (attempts_left (with_attempts (hq_Attempts i + 1) i)) = attempts_left i)%nat as [Hp Hs]
    by (unfold attempts_left; cbn; lia).
  apply mem_spec in Ht. rewrite Ht. destruct (mem (url_key i) sent); cbn; lia.
Qed.

Lemma drain_batch_empty l : drain_batch drainLimit l = [] → work l = 0%nat.
Proof.
  unfold drain_batch, work. intros Hb.
  assert (sort_slice older (List.filter (λ i, negb (3 <=? hq_Attempts i)) l) = []) as Hs.
  { destruct (sort_slice _ _) as [|i k]; [done|]. exfalso.
    destruct (Z.to_nat _) eqn:E in Hb; [|done]. destruct (Z.leb_spec drainLimit 0); lia. }
  assert (List.filter (λ i, negb (3 <=? hq_Attempts i)) l = []) as Hf.
  { apply Permutation_nil. by rewrite <- Hs, sort_slice_perm. }
  clear Hs Hb. induction l as [|i l IH]; [done|]. cbn in *. unfold attempts_left at 1.
  destruct (Z.leb_spec 3 (hq_Attempts i)); [|done]. cbn in Hf. rewrite IH by done. lia.
Qed.

Lemma drained_work sent l :
  drain_batch drainLimit l ≠ [] → (work (drained maxSize (drain_batch drainLimit l) sent l) < work l)%nat.
Proof.
  intros Hb. destruct (drain_batch drainLimit l) as [|i k] eqn:E; [done|]. unfold drained. cbn [is_empty].
  assert (i ∈ drain_batch drainLimit l) as Hi by (rewrite E; by left). apply drain_batch_elem in Hi as [Hi Ha].
  eapply Nat.le_lt_trans; [apply trimmed_work|]. apply (after_drain_work _ _ i); [done|done|by left].
Qed.
End drain_facts.

(** The pages a drain starts with. *)
Lemma wp_load_batch `{Sorter} drainLimit l p (Q : option (list HeadlessQueueItem) → Pages → Prop) X :
  pg_queue p = Stored l → Q (Some (drain_batch drainLimit l)) p →
  wp (LoadPendingHeadless (if drainLimit <=? 0 then 25 else drainLimit) 3) Q X p.
Proof.
  intros Hq HQ. unfold LoadPendingHeadless, readHeadlessQueue. wp_run. rewrite Hq. cbn [read_file].
  assert ((if (if drainLimit <=? 0 then 25 else drainLimit) <=? 0 then 25 else if drainLimit <=? 0 then 25 else drainLimit)
    = if drainLimit <=? 0 then 25 else drainLimit) as ->.
  { destruct (Z.leb_spec drainLimit 0) as [Hd|Hd]; [done|]. by apply Z.leb_gt in Hd as ->. }
  exact HQ.
Qed.

Section whole_drains.
Context `{Sorter} `{DayLib} `{TimeLib} `{JsonLib} `{JsonSyntax} `{MailLib}.
Context (d : PageDeps) (st : validate_state) (drainLimit maxSize : Z).

Fixpoint drains (n : nat) : Fetch unit :=
  match n with O => done tt | S n => RunHeadlessDrain d st drainLimit maxSize ;;! drains n end.

Hypothesis Hwritable : ∀ l, pd_writable d l = Written.
Hypothesis Hgoing : ∀ l, pd_done d l = false.

Lemma TrimHeadlessQueue_trims l p :
  pg_queue p = Stored l →
  wp (TrimHeadlessQueue d maxSize) (λ _ p', only_queue (Stored (trimmed maxSize l)) p p') (λ _ _, False) p.
Proof.
  intros Hq. unfold TrimHeadlessQueue, trimmed, readHeadlessQueue. wp_step; [by apply wp_done|].
  wp_run; rewrite Hq in *; try done; injection E0 as <-; cbn; rewrite E1; [by split|].
  eapply wp_mono; [| |by apply wp_write_queue]; cbn; [|done]. by intros ok p' [_ Hp].
Qed.

Lemma RunHeadlessDrain_run l p :
  pg_queue p = Stored l → well_queued l →
  wp (RunHeadlessDrain d st drainLimit maxSize) (λ r p', r = true ∧ ∃ sent, sent `sublist_of` drain_batch drainLimit l
    ∧ (em_Source <$> delivered p') = (em_Source <$> delivered p) ++ (RawSourceLabel <$> sent)
    ∧ pg_queue p' = Stored (drained maxSize (drain_batch drainLimit l) sent l)) (λ _ _, False) p.
Proof.
  intros Hq Hl. unfold RunHeadlessDrain. apply wp_bind, (wp_load_batch drainLimit l p _ _ Hq). destruct (is_empty (drain_batch drainLimit l)) eqn:E.
  - apply wp_done. split; [done|]. exists []. split; [apply sublist_nil_l|]. split; [by rewrite app_nil_r|].
    unfold drained. by rewrite E.
  - wp_step. apply wp_modify. wp_step. destruct (drain_batch_well drainLimit l Hl) as [Hbn Hbr].
    eapply wp_mono; [| |apply (wp_drain_all d st Hwritable Hgoing _ l)]; cbn; try done; [|apply Hl|apply drain_batch_keys].
    intros _ p1 (sent & Hs & He & Hq1). wp_step.
    eapply wp_mono; [| |by eapply TrimHeadlessQueue_trims]; cbn; [|done].
    intros _ p2 (Hq2 & _ & He2). apply wp_done. split; [done|]. exists sent. split; [done|].
    split; [|rewrite Hq2; unfold drained; by rewrite E]. unfold delivered in *. by rewrite He2.
Qed.

Lemma drains_run n : ∀ l p,
  pg_queue p = Stored l → well_queued l → (work l ≤ n)%nat →
  wp (drains n) (λ _ p', ∃ l', pg_queue p' = Stored l' ∧ drain_batch drainLimit l' = []) (λ _ _, False) p.
Proof.
  induction n as [|n IH]; intros l p Hq Hl Hw; cbn [drains].
  - apply wp_done. exists l. split; [done|]. destruct (drain_batch drainLimit l) as [|i k] eqn:E; [done|].
    pose proof (drained_work drainLimit maxSize [] l) as Hd. rewrite E in Hd. specialize (Hd ltac:(done)). lia.
  - wp_step. eapply wp_mono; [| |by apply (RunHeadlessDrain_run l)]; cbn; [|done].
    intros _ p1 [_ (sent & Hs & _ & Hq1)]. apply (IH _ p1 Hq1); [by apply drained_well|].
    destruct (drain_batch drainLimit l) as [|i k] eqn:E.
    + unfold drained. cbn [is_empty]. rewrite (drain_batch_empty _ _ E). lia.
    + rewrite <- E. pose proof (drained_work drainLimit maxSize sent l ltac:(by rewrite E)). lia.
Qed.
End whole_drains.

(** *** Whatever the writes do, and wherever the drain is cancelled *)

(** The address under which a row is looked up. *)
Definition page_key (i : HeadlessQueueItem) : string := ToLower (TrimSpace (hq_URL i)).

(** Every row that is gone was looked up for a page that gave its lead. *)
Definition accounted (sent l l' : list HeadlessQueueItem) : Prop := ∀ i, i ∈ l →
  url_key i ∈ page_key <$> sent ∨ ∃ j, j ∈ l' ∧ hq_URL j = hq_URL i ∧ hq_Attempts i ≤ hq_Attempts j.

(** The same of a queue that a torn write may have made unreadable. *)
Definition safe_queue (sent l : list HeadlessQueueItem) (q : disk (list HeadlessQueueItem)) : Prop :=
  q = Unreadable ∨ ∃ l', q = Stored l' ∧ accounted sent l l'.

Lemma accounted_refl l : accounted [] l l.
Proof. intros i Hi. right. by exists i. Qed.

Lemma accounted_mono sent sent' l l' : sent ⊆ sent' → accounted sent l l' → accounted sent' l l'.
Proof. intros Hs Ha i Hi. destruct (Ha i Hi) as [Hk|Hj]; [left|by right]. set_solver. Qed.

Lemma accounted_remove sent l l' i :
  accounted sent l l' → accounted (sent ++ [i]) l (List.filter (λ j, negb (same_url (page_key i) j)) l').
Proof.
  intros Ha j Hj. destruct (Ha j Hj) as [Hk|(k & Hk & Hu & Hn)]; [left; set_solver|].
  destruct (same_url (page_key i) k) eqn:E.
  - left. unfold same_url in E. apply String.eqb_eq in E. unfold url_key. rewrite <- Hu, E. set_solver.
  - right. exists k. split; [|done]. apply list_elem_of_In, filter_In. rewrite <- list_elem_of_In. by rewrite E.
Qed.

Lemma accounted_bump key sent l l' l'' :
  bump_first key l' = Some l'' → accounted sent l l' → accounted sent l l''.
Proof.
  intros Hb Ha. assert (∀ k, k ∈ l' → ∃ j, j ∈ l'' ∧ hq_URL j = hq_URL k ∧ hq_Attempts k ≤ hq_Attempts j) as Hk.
  { clear Ha. revert l'' Hb. induction l' as [|x l' IH]; intros l''; cbn; [done|]. destruct (same_url key x).
    - intros [= <-] k [->|Hk]%elem_of_cons.
      + eexists. split; [by left|]. cbn. split; [done|lia].
      + exists k. split; [by right|done].
    - destruct (bump_first key l') as [m|]; cbn; [|done]. intros [= <-] k [->|Hk]%elem_of_cons.
      + exists x. split; [by left|done].
      + destruct (IH m eq_refl k Hk) as (j & Hj & Hu). exists j. split; [by right|done]. }
  intros i Hi. destruct (Ha i Hi) as [?|(k & Hin & Hu & Hn)]; [by left|right].
  destruct (Hk k Hin) as (j & Hj & Hu' & Hn'). exists j. split; [done|]. split; [congruence|lia].
Qed.

Section any_drains.
Context `{Sorter} `{DayLib} `{TimeLib} `{JsonLib} `{JsonSyntax} `{MailLib}.
Context (d : PageDeps) (st : validate_state).

(** A write of the queue: done, not done, or torn. *)
Lemma wp_write_any l l' sent p l0 :
  pg_queue p = Stored l' → accounted sent l0 l' → accounted sent l0 l →
  wp (writeHeadlessQueue d l) (λ _ p', emissions p' = emissions p ∧ safe_queue sent l0 (pg_queue p')) (λ _ _, False) p.
Proof.
  intros Hq Ha Ha'. unfold writeHeadlessQueue, writing, record_call. wp_run. cbn. split.
  - unfold emissions. cbn. rewrite omap_app. cbn. by rewrite app_nil_r.
  - unfold safe_queue. destruct (pd_writable d (pg_calls p)); cbn; [right; by exists l|right|by left].
    exists l'. by rewrite Hq.
Qed.

Lemma wp_settle_any (ok : bool) i sent l p :
  safe_queue sent l (pg_queue p) →
  wp (if ok then RemoveHeadlessQueueItem d (hq_URL i) else BumpHeadlessQueueAttempts d (hq_URL i))
    (λ _ p', emissions p' = emissions p ∧ safe_queue (sent ++ if ok then [i] else []) l (pg_queue p'))
    (λ _ _, False) p.
Proof.
  intros Hs. assert (safe_queue (sent ++ if ok then [i] else []) l (pg_queue p)) as Hs'.
  { destruct Hs as [Hs|(l' & Hq & Ha)]; [by left|right]. exists l'. split; [done|].
    eapply accounted_mono; [|exact Ha]. set_solver. }
  unfold RemoveHeadlessQueueItem, BumpHeadlessQueueAttempts, readHeadlessQueue. fold (page_key i).
  destruct ok; cbv zeta; (destruct (String.eqb _ estr); [by apply wp_done|]);
    apply wp_bind, wp_bind, wp_get, wp_done.
  - destruct (read_file [] (pg_queue p)) as [k|] eqn:E; [|by apply wp_done].
    destruct Hs as [Hs|(l' & Hq & Ha)]; rewrite ?Hs, ?Hq in E; [done|]. injection E as <-.
    destruct Hs' as [Hs'|(l1 & Hq1 & Ha1)]; [congruence|]. assert (l1 = l') as -> by congruence.
    apply (wp_write_any _ l'); [done|done|]. by apply accounted_remove.
  - destruct (read_file [] (pg_queue p)) as [k|] eqn:E; [|by apply wp_done].
    destruct Hs' as [Hs'|(l' & Hq & Ha)]; rewrite ?Hs', ?Hq in E; [done|]. injection E as <-.
    destruct (bump_first (page_key i) l') as [m|] eqn:Eb; [|apply wp_done; split; [done|right; by exists l']].
    apply (wp_write_any _ l'); [done|done|]. by eapply accounted_bump.
Qed.

Lemma wp_settle_browser (ok : bool) i p :
  wp (if ok then RemoveHeadlessQueueItem d (hq_URL i) else BumpHeadlessQueueAttempts d (hq_URL i))
    (λ _ p', pg_browser p' = pg_browser p) (λ _ _, True) p.
Proof.
  unfold RemoveHeadlessQueueItem, BumpHeadlessQueueAttempts, readHeadlessQueue, writeHeadlessQueue, writing, record_call.
  destruct ok; by wp_run.
Qed.

Definition sources (p : Pages) : list string := em_Source <$> delivered p.

(** One item: when its lead got through, it is one of the sent. *)
Lemma wp_drain_item_any i sent l p :
  safe_queue sent l (pg_queue p) → pg_browser p = PlaywrightPool false →
  wp (drain_item d st i) (λ _ p', ∃ ok : bool, pg_browser p' = PlaywrightPool false
      ∧ safe_queue (sent ++ if ok then [i] else []) l (pg_queue p')
      ∧ sources p' = sources p ++ (if ok then [RawSourceLabel i] else [])) (λ _ _, False) p.
Proof.
  intros Hs Hb. unfold drain_item. wp_step.
  eapply wp_mono; [| |by apply wp_drain_page]; cbn; [|done]. intros page p1 [(Hq1 & Hb1 & He1) Hpage].
  wp_step. eapply (wp_mono _ (λ (ok : bool) p2, pg_queue p2 = pg_queue p ∧ pg_browser p2 = pg_browser p
    ∧ sources p2 = sources p ++ (if ok then [RawSourceLabel i] else []))).
  - intros ok p2 (Hq2 & Hb2 & He2). wp_step. rewrite <- Hq2 in Hs.
    eapply wp_mono; [| |by apply (wp_and _ _ (λ _ p3, pg_browser p3 = pg_browser p2) _ (λ _ _, True)
      _ (wp_settle_any ok i sent l p2 Hs)); apply (wp_settle_browser ok i)]; cbn; [|tauto].
    intros _ p3 [[He3 Hs3] Hb3]. apply wp_done. exists ok. split; [congruence|]. split; [done|].
    unfold sources, delivered in *. by rewrite He3.
  - intros x q Hf. exact Hf.
  - unfold sources, delivered. destruct page as [x|].
    + unfold emit, record_call. wp_run. cbn. split; [done|]. split; [done|]. unfold emissions in *. cbn.
      rewrite omap_app, He1, List.filter_app, fmap_app. cbn. rewrite (Hpage x eq_refl).
      by destruct (pd_emit d (pg_calls p1)).
    + apply wp_done. split; [done|]. split; [done|]. by rewrite He1, app_nil_r.
Qed.

(** What a drain has done when it ends, or is cancelled. *)
Definition drained_safely (batch sent l : list HeadlessQueueItem) (p p' : Pages) : Prop :=
  ∃ sent', sent' `sublist_of` batch ∧ sources p' = sources p ++ (RawSourceLabel <$> sent')
    ∧ safe_queue (sent ++ sent') l (pg_queue p').

Lemma wp_drain_all_any items : ∀ sent l p,
  safe_queue sent l (pg_queue p) → pg_browser p = PlaywrightPool false →
  wp (drain_all d st items) (λ _, drained_safely items sent l p) (λ _, drained_safely items sent l p) p.
Proof.
  assert (∀ items sent l p, safe_queue sent l (pg_queue p) → drained_safely items sent l p p) as Hnone.
  { intros its sent l p Hs. exists []. rewrite !app_nil_r. split; [apply sublist_nil_l|done]. }
  induction items as [|i items IH]; intros sent l p Hs Hb; cbn [drain_all]; [by apply wp_done, Hnone|].
  apply wp_bind. unfold check_done. apply wp_bind, wp_get. destruct (pd_done d (pg_calls p)).
  { by apply wp_exit, Hnone. }
  apply wp_done, wp_bind. eapply wp_mono; [| |by apply (wp_drain_item_any i sent l)]; cbn; [|done].
  intros _ p1 (ok & Hb1 & Hs1 & He1).
  assert (∀ p2, drained_safely items (sent ++ if ok then [i] else []) l p1 p2 →
    drained_safely (i :: items) sent l p p2) as Hgo.
  { intros p2 (sent' & Hsub & He & Hq). exists ((if ok then [i] else []) ++ sent').
    split; [by destruct ok; constructor|]. rewrite He, He1, fmap_app, !app_assoc. split; [by destruct ok|].
    exact Hq. }
  eapply wp_mono; [| |by apply (IH (sent ++ if ok then [i] else []) l p1)]; cbn; intros _ p2; apply Hgo.
Qed.

(** A drain, whatever happens: the cut of the queue comes last. *)
Definition drain_outcome (maxSize : Z) (batch l : list HeadlessQueueItem) (p p' : Pages) : Prop :=
  ∃ sent, sent `sublist_of` batch ∧ sources p' = sources p ++ (RawSourceLabel <$> sent)
    ∧ (pg_queue p' = Unreadable ∨ ∃ l1 l', pg_queue p' = Stored l' ∧ (l' = l1 ∨ l' = trimmed maxSize l1)
         ∧ accounted sent l l1).

Lemma TrimHeadlessQueue_any maxSize sent l p :
  safe_queue sent l (pg_queue p) →
  wp (TrimHeadlessQueue d maxSize) (λ _ p', emissions p' = emissions p
      ∧ (pg_queue p' = Unreadable ∨ ∃ l1 l', pg_queue p' = Stored l' ∧ (l' = l1 ∨ l' = trimmed maxSize l1)
         ∧ accounted sent l l1)) (λ _ _, False) p.
Proof.
  intros Hs. assert (pg_queue p = Unreadable ∨ ∃ l1 l', pg_queue p = Stored l' ∧ (l' = l1 ∨ l' = trimmed maxSize l1)
    ∧ accounted sent l l1) as Hsame.
  { destruct Hs as [Hs|(l' & Hq & Ha)]; [by left|right]. exists l', l'. auto. }
  unfold TrimHeadlessQueue, readHeadlessQueue. destruct (maxSize <=? 0) eqn:E0; [by apply wp_done|].
  apply wp_bind, wp_bind, wp_get, wp_done.
  destruct Hs as [Hs|(l' & Hq & Ha)]; rewrite ?Hs, ?Hq; cbn [read_file]; [by apply wp_done|].
  destruct (Z.of_nat (length l') <=? maxSize) eqn:E1; [by apply wp_done|].
  assert (drop (length l' - Z.to_nat maxSize) (sort_slice older l') = trimmed maxSize l') as -> by (unfold trimmed; by rewrite E0, E1).
  unfold writeHeadlessQueue, writing, record_call. wp_run. cbn. split.
  - unfold emissions. cbn. rewrite omap_app. cbn. by rewrite app_nil_r.
  - destruct (pd_writable d (pg_calls p)); cbn; [right; exists l', (trimmed maxSize l'); auto|rewrite Hq in *|by left].
    right. exists l', l'. auto.
Qed.

Lemma RunHeadlessDrain_any drainLimit maxSize l p :
  pg_queue p = Stored l →
  wp (RunHeadlessDrain d st drainLimit maxSize) (λ _, drain_outcome maxSize (drain_batch drainLimit l) l p)
    (λ _, drain_outcome maxSize (drain_batch drainLimit l) l p) p.
Proof.
  intros Hq. unfold RunHeadlessDrain.
  apply wp_bind, (wp_load_batch drainLimit l p _ _ Hq).
  destruct (is_empty (drain_batch drainLimit l)) eqn:E.
  - apply wp_done. exists []. split; [apply sublist_nil_l|]. rewrite app_nil_r. split; [done|].
    right. exists l, l. split; [done|]. split; [by left|apply accounted_refl].
  - apply wp_bind, wp_modify, wp_bind. eapply wp_mono; [| |apply (wp_drain_all_any _ [] l)]; cbn; [| | |done].
    + intros _ p1 (sent & Hsub & He & Hs). apply wp_bind.
      eapply wp_mono; [| |by apply (TrimHeadlessQueue_any maxSize sent l)]; cbn; [|done].
      intros _ p2 [He2 Ho]. apply wp_done. exists sent. split; [done|]. split; [|done].
      unfold sources, delivered in *. by rewrite He2.
    + intros _ p1 (sent & Hsub & He & Hs). exists sent. split; [done|]. split; [done|].
      destruct Hs as [Hs|(l' & Hs & Ha)]; [by left|right]. exists l', l'. auto.
    + right. exists l. split; [done|apply accounted_refl].
Qed.
End any_drains.

(** The queue as the program writes it: [well_queued] is what queueing a page keeps. *)
Definition well_stored (p : Pages) : Prop := ∀ l, pg_queue p = Stored l → well_queued l.

Definition rows_stored (p : Pages) : Prop := ∀ l, pg_queue p = Stored l → Forall queued_row l.

Lemma EnqueueHeadless_well `{Sorter} `{DayLib} `{TimeLib} (d : PageDeps) i : keeps well_stored (EnqueueHeadless d i).
Proof.
  assert (keeps rows_stored (EnqueueHeadless d i)) as Hrows.
  { unfold EnqueueHeadless. destruct (String.eqb_spec (TrimSpace (hq_URL i)) estr) as [|Hne]; [auto with keeps|].
    assert (∀ {A} (m : Fetch A), same_queue m → keeps rows_stored m) as Hs.
    { intros A m Hm p Hp l Hl. apply Hp. by rewrite <- Hl, (Hm (pg_queue p) p eq_refl). }
    apply keeps_seq; [apply Hs, clock_queue|intros now].
    apply keeps_seq; [apply Hs, AllowHeadlessPersona_queue|intros allowed].
    destruct (negb allowed); [auto with keeps|]. intros p Hp. unfold seq_eff at 1, readHeadlessQueue, get_state, done. cbn.
    destruct (read_file [] (pg_queue p)) as [k|] eqn:E; [|done]. destruct (existsb _ k); [done|].
    assert (Forall queued_row k) as Hk by (destruct (pg_queue p) eqn:Eq; cbn in E; simplify_eq; [done|by apply Hp]).
    revert p Hp E. match goal with |- context [writeHeadlessQueue d ?q] => set (rows := q) end.
    assert (Forall queued_row rows) as Hrow.
    { apply Forall_app. split; [done|]. constructor; [|done]. split; cbn; [apply TrimSpace_idemp|].
      unfold url_key. cbn. intros E. by apply Hne, ToLower_estr. }
    intros p Hp _.
    refine (keeps_seq rows_stored (writeHeadlessQueue d rows) _ _ _ p Hp).
    - intros q Hq m. destruct (written_queue d rows q) as (out & -> & _).
      destruct out; cbn; [by intros [= <-]|by apply Hq|done].
    - intros ok. destruct (negb ok); [apply keeps_ret|].
      apply (keeps_seq rows_stored);
        [apply Hs, RecordHeadlessPersona_queue|intros _; apply keeps_ret]. }
  intros p Hp l Hl. split; [|by apply (Hrows p); [intros k Hk; apply Hp|]].
  by apply (EnqueueHeadless_distinct d i p); [intros k Hk; apply Hp|].
Qed.

(** C10. A drain accounts for every page of the queue. Whatever the browser, the files and the
    context do — writes may fail or tear the file, and the drain may be cancelled between two pages —
    a page leaves the queue only because its address gave a lead that got through, or because the
    cut to the queue's size, which comes last, takes it; the leads are those of pages of the batch,
    in its order; and if the queue is lost, a torn write has made it unreadable ([drain_outcome]).
    While every write succeeds and the context is not done, on a queue as [EnqueueHeadless] writes
    it ([well_queued]: each address once, trimmed, not empty), the account is exact: the drain ends
    by itself, the pages it takes either give their lead and leave, or stay with one attempt more,
    and the others are not touched. A failed write can keep a page whose lead was sent, or leave an
    attempt uncounted. *)
Theorem drain_accounts `{Sorter} `{DayLib} `{TimeLib} `{JsonLib} `{JsonSyntax} `{MailLib} (d : PageDeps)
    (st : validate_state) (drainLimit maxSize : Z) (l : list HeadlessQueueItem) (p : Pages) :
  pg_queue p = Stored l →
  let batch := drain_batch drainLimit l in
  let r := RunHeadlessDrain d st drainLimit maxSize p in
  drain_outcome maxSize batch l p r.2
  ∧ ((∀ calls, pd_writable d calls = Written) → (∀ calls, pd_done d calls = false) → well_queued l →
     r.1 = inl true ∧ ∃ sent, sent `sublist_of` batch
       ∧ (em_Source <$> delivered r.2) = (em_Source <$> delivered p) ++ (RawSourceLabel <$> sent)
       ∧ pg_queue r.2 = Stored (drained maxSize batch sent l)).
Proof.
  intros Hq batch r. split.
  - pose proof (RunHeadlessDrain_any d st drainLimit maxSize l p Hq) as Hr. unfold wp in Hr. subst r.
    by destruct (RunHeadlessDrain d st drainLimit maxSize p) as [[b|e] p'].
  - intros Hw Hg Hl. pose proof (RunHeadlessDrain_run d st drainLimit maxSize Hw Hg l p Hq Hl) as Hr. unfold wp in Hr.
    subst r. destruct (RunHeadlessDrain d st drainLimit maxSize p) as [[b|e] p']; [|done]. by destruct Hr as [-> Hr].
Qed.

(** C16. The queue of pages is worked off: after so many drains as there are attempts left, no page
    waits for a browser any more. This holds while every write of the queue succeeds and no drain is
    cancelled, from a queue as [EnqueueHeadless] writes it ([well_queued]) to which nothing is added
    in between: an attempt that cannot be written is not counted, so with writes that keep failing
    the queue is never worked off. *)
Theorem drains_finish `{Sorter} `{DayLib} `{TimeLib} `{JsonLib} `{JsonSyntax} `{MailLib} (d : PageDeps)
    (st : validate_state) (drainLimit maxSize : Z) (l : list HeadlessQueueItem) (p : Pages) (n : nat) :
  (∀ calls, pd_writable d calls = Written) → (∀ calls, pd_done d calls = false) →
  pg_queue p = Stored l → well_queued l → (work l ≤ n)%nat →
  ∃ p' l', drains d st drainLimit maxSize n p = (inl tt, p') ∧ pg_queue p' = Stored l' ∧ drain_batch drainLimit l' = [].
Proof.
  intros Hw Hg Hq Hl Hn. pose proof (drains_run d st drainLimit maxSize Hw Hg n l p Hq Hl Hn) as Hr. unfold wp in Hr.
  destruct (drains d st drainLimit maxSize n p) as [[[]|e] p']; [|done]. destruct Hr as (l' & Hr). by exists p', l'.
Qed.

Module DrainRuns.
#[local] Existing Instance insertion_sorter.
#[local] Instance one_day : DayLib := { FormatDay := λ _, "2026-01-01" }.
#[local] Instance noon : TimeLib := { FormatRFC3339 := λ _, "2026-01-01T12:00:00Z"; ParseRFC3339 := λ _, None }.
#[local] Instance no_json : JsonLib := { Unmarshal := λ _, None }.
#[local] Instance no_syntax : JsonSyntax := { json_Valid := λ _, false }.
#[local] Instance no_mail : MailLib := { parse_other := λ _, None }.

(** A browser that shows one of two pages; the transport fails. *)
Definition outside_world : PageDeps := {|
  pd_now := λ _, 0; pd_writable := λ _, Written; pd_limiter := λ _, true; pd_transport := λ _ _ _, (None, None);
  pd_browser := λ _ url _, if Contains url "good" then Some "<p>Write to partners@good-network.com</p>" else None;
  pd_done := λ _, false; pd_emit := λ _, true; pd_date := λ _, None; pd_baseURL := estr; pd_proxied := false |}.

Definition waiting (url at' : string) : HeadlessQueueItem := {|
  hq_URL := url; hq_SourceFamily := "tgweb"; hq_Reason := "headless_empty"; hq_QueuedAt := at'; hq_Attempts := 0;
  hq_ProxyIndex := -1 |}.

Definition two_pages : list HeadlessQueueItem :=
  [waiting "https://dead-network.com/About" "2026-01-01"; waiting "https://good-network.com/contact" "2026-01-02"].

Definition some_pages : Pages := {|
  pg_queue := Stored two_pages; pg_budget := None; pg_budget_file := NoFile; pg_breaker := NewSourceBreaker;
  pg_last := 0; pg_browser := DisabledHeadless; pg_calls := [] |}.

Lemma two_pages_well : well_queued two_pages.
Proof.
  split.
  - apply (bool_decide_unpack (NoDup (url_keys two_pages))). vm_compute. exact I.
  - repeat constructor; vm_compute; by intros [=].
Qed.

(** Three nights: the good page gives its lead in the first one; the dead page is tried three times. *)
Definition nights (n : nat) : list string * list (string * Z) :=
  let p := (drains outside_world initial_state 10 100 n some_pages).2 in
  (em_Source <$> delivered p, match pg_queue p with Stored l => (λ i, (hq_URL i, hq_Attempts i)) <$> l | _ => [] end).

Example the_first_night : nights 1 = (["tgweb:good-network.com"], [("https://dead-network.com/About", 1)]).
Proof. vm_compute. reflexivity. Qed.

Example later_nights :
  nights 3 = (["tgweb:good-network.com"], [("https://dead-network.com/About", 3)]) ∧ nights 4 = nights 3.
Proof. split; vm_compute; reflexivity. Qed.

(** The first page is tried, then the file can no longer be written and the drain is cancelled. *)
Definition failing_world : PageDeps := {|
  pd_now := λ _, 0; pd_writable := λ _, Untouched; pd_limiter := λ _, true; pd_transport := λ _ _ _, (None, None);
  pd_browser := pd_browser outside_world; pd_done := λ calls, Nat.leb 4 (length calls);
  pd_emit := λ _, true; pd_date := λ _, None; pd_baseURL := estr; pd_proxied := false |}.

(** The lead of the good page is sent, and the page is still there. *)
Example sent_and_kept :
  let r := RunHeadlessDrain failing_world initial_state 10 100 some_pages in
  (em_Source <$> delivered r.2) = ["tgweb:good-network.com"] ∧ pg_queue r.2 = Stored two_pages.
Proof. vm_compute. split; reflexivity. Qed.

Lemma drain_accounts_witness :
  drain_outcome 100 (drain_batch 10 two_pages) two_pages some_pages
    (RunHeadlessDrain failing_world initial_state 10 100 some_pages).2
  ∧ (RunHeadlessDrain outside_world initial_state 1 100 some_pages).1 = inl true.
Proof.
  split.
  - exact (proj1 (drain_accounts failing_world initial_state 10 100 two_pages some_pages eq_refl)).
  - exact (proj1 (proj2 (drain_accounts outside_world initial_state 1 100 two_pages some_pages eq_refl)
      (λ _, eq_refl) (λ _, eq_refl) two_pages_well)).
Defined.

Lemma drains_finish_witness :
  ∃ p' l', drains outside_world initial_state 1 100 6 some_pages = (inl tt, p')
    ∧ pg_queue p' = Stored l' ∧ drain_batch 1 l' = [].
Proof.
  assert (work two_pages ≤ 6)%nat as Hw by (vm_compute; lia).
  exact (drains_finish outside_world initial_state 1 100 two_pages some_pages 6
    (λ _, eq_refl) (λ _, eq_refl) eq_refl two_pages_well Hw).
Defined.

(** A page that was given up stays in the queue; asked for again it is not queued. *)
Example given_up_for_good :
  let p := (drains outside_world initial_state 10 100 3 some_pages).2 in
  let '(ok, p') := EnqueueHeadless outside_world (waiting "https://dead-network.com/about" estr) p in
  ok = inl true ∧ pg_queue p' = pg_queue p ∧ (LoadPendingHeadless 10 3 p').1 = inl (Some []).
Proof. vm_compute. by split. Qed.

(** Two domains wait, the crawl takes one at a time, and nothing answers: the one with a channel is
    crawled every time, the other one never. *)
Definition row (domain channel : string) : DomainEntry := {|
  de_Domain := domain; de_Channel := channel; de_Source := "telegram"; de_Kind := estr; de_DiscoveredVia := estr;
  de_ForwardedFrom := estr; de_At := estr; de_CrawledAt := estr |}.

Definition two_domains : Site := {|
  si_pages := some_pages; si_domains := Stored [row "quiet-network.com" estr; row "dead-network.com" "@deals"];
  si_registry := NoFile; si_governor := None |}.

Definition one_a_run : Crawler := {|
  cw_domainTriage := false; cw_maxDomains := 1; cw_rescanDays := 30; cw_domainFilter := []; cw_usesProxy := false |}.

Definition crawl_again : eff Site crawl_end unit :=
  let! _ := Collect outside_world initial_state (PageFetchOptsFromConfig false false "tgweb")
              (λ _, NetworkLandingPaths) one_a_run in done tt.

(** A crawl without an answer. *)
Definition silent_run : Site :=
  (Collect outside_world initial_state (PageFetchOptsFromConfig false false "tgweb")
     (λ _, NetworkLandingPaths) one_a_run two_domains).2.

Lemma nothing_emitted : emissions (si_pages silent_run) = emissions (si_pages two_domains).
Proof. vm_compute. reflexivity. Qed.

Lemma crawl_leads_witness :
  loadDomainsUnlocked (si_domains silent_run) = Some [row "quiet-network.com" estr; row "dead-network.com" "@deals"].
Proof.
  apply (proj2 (crawl_leads outside_world initial_state (PageFetchOptsFromConfig false false "tgweb")
    (λ _, NetworkLandingPaths) one_a_run two_domains)); [exact nothing_emitted|reflexivity].
Defined.

(** A crawl that sends a browser to the domain, and its lead. *)
Definition good_domain : Site := {|
  si_pages := set_browser (PlaywrightPool false) some_pages; si_domains := Stored [row "good-network.com" estr];
  si_registry := NoFile; si_governor := None |}.

Definition good_run : Site :=
  (Collect outside_world initial_state (PageFetchOptsFromConfig true false "tgweb")
     (λ _, NetworkLandingPaths) one_a_run good_domain).2.

Example one_lead_of_its_domain :
  (em_Source <$> emissions (si_pages good_run)) = ["tgweb:good-network.com"]
  ∧ match si_domains good_run with Stored f => de_CrawledAt <$> f | _ => [] end = ["2026-01-01T12:00:00Z"].
Proof. vm_compute. split; reflexivity. Qed.

Definition fetched_hosts (s : Site) : list string :=
  dedup_on id (omap (λ c, match c with CGet url _ => Some (hostFromURL url) | _ => None end) (pg_calls (si_pages s))).

Example the_best_domain_starves_the_others :
  fetched_hosts ((crawl_again ;;! crawl_again ;;! crawl_again) two_domains).2 = ["dead-network.com"; "www.dead-network.com"].
Proof. vm_compute. reflexivity. Qed.
End DrainRuns.
