(* ===== verification/LeadBatch.v ===== *)
(** Batches of leads sent to the language model ([internal/gemini/]: leads_batch.go,
    batch_lead.go): the inputs, what is made of the answers, and the calls.

    A call of the model is a parameter that sees the calls made before it; a row of the
    answer is given decoded, a failed call by its error.  The texts of the prompts and the
    schemas are not modelled. *)
From S2P Require Import Prelude Unicode GoStrings TextFacts Scoring Gemini Quota Effects.
From Equations Require Import Equations.

Local Open Scope Z_scope.
Local Open Scope eff_scope.

(** ** Inputs, rows, results *)

Record LeadBatchInput := {
  li_ID : string; li_Source : string; li_Priority : string; li_Score : Z; li_Snippet : string;
  li_Contacts : list string; li_ContactTypes : list string; li_Stack : list string;
  li_Domain : string; li_RDAPCountry : string; li_DomainAgeDays : Z; li_DisplayName : string;
  li_BlockedCountries : list string }.

(** The zero value, which a lookup of an unknown id gives. *)
Definition no_input : LeadBatchInput := {|
  li_ID := estr; li_Source := estr; li_Priority := estr; li_Score := 0; li_Snippet := estr;
  li_Contacts := []; li_ContactTypes := []; li_Stack := []; li_Domain := estr;
  li_RDAPCountry := estr; li_DomainAgeDays := 0; li_DisplayName := estr;
  li_BlockedCountries := [] |}.

(** [Score], [Priority], [GeoRejected] and [ICPRejected] of the source are neither written
    nor read. *)
Record LeadBatchResult := {
  lr_HashID : string; lr_Geo : GeoResult; lr_ICP : ICPResult; lr_Engagement : EngagementResult;
  lr_Enrichment : EnrichSynthResult; lr_PilotQualified : bool; lr_PilotTags : list string }.

Definition no_engagement : EngagementResult := {|
  er_PilotSignals := []; er_PilotQualified := false; er_PilotWhy := estr;
  er_OutreachChannel := estr; er_OutreachSubject := estr; er_OutreachAngle := estr;
  er_OutreachDraft := estr |}.
Definition no_synth_result : EnrichSynthResult :=
  {| es_CompanyType := estr; es_Summary := estr; es_GeoConfidence := estr |}.
Definition no_result : LeadBatchResult := {|
  lr_HashID := estr; lr_Geo := no_geo; lr_ICP := no_icp; lr_Engagement := no_engagement;
  lr_Enrichment := no_synth_result; lr_PilotQualified := false; lr_PilotTags := [] |}.

(** A row of the answer, its fields grouped as the results are. *)
Record leadBatchItem := {
  bi_ID : string; bi_Geo : GeoResult; bi_ICP : ICPResult; bi_Engagement : EngagementResult;
  bi_Enrichment : EnrichSynthResult }.

Definition item_of_id (id : string) : leadBatchItem := {|
  bi_ID := id; bi_Geo := no_geo; bi_ICP := no_icp; bi_Engagement := no_engagement;
  bi_Enrichment := no_synth_result |}.

(** Maps by id: the last entry of an id wins. *)
Definition indexLeadBatchInputs (items : list LeadBatchInput) : gmap string LeadBatchInput :=
  foldl (λ m i, <[li_ID i := i]> m) ∅ items.
Definition index_results (rs : list LeadBatchResult) : gmap string LeadBatchResult :=
  foldl (λ m r, <[lr_HashID r := r]> m) ∅ rs.
Definition input_of (byID : gmap string LeadBatchInput) (id : string) : LeadBatchInput :=
  default no_input (byID !! id).

(** ** Normalisation of an answer *)

Definition normalizeCompanyType (v : string) : string :=
  let v := ToLower (TrimSpace v) in
  if mem v ["media_buyer"; "affiliate_network"; "tool_vendor"; "agency"] then v else "unknown".

Definition normalizePilotSignals (signals : list string) : list string :=
  dedup_on id (List.filter (λ s, negb (String.eqb s estr)) (normalizePilotSignal <$> signals)).

(** The outreach part of an answer; the pilot fields are left empty. *)
Definition outreach_of (e : EngagementResult) : EngagementResult := {|
  er_PilotSignals := []; er_PilotQualified := false; er_PilotWhy := estr;
  er_OutreachChannel := normalizeOutreachChannel (er_OutreachChannel e);
  er_OutreachSubject := TrimSpace (er_OutreachSubject e);
  er_OutreachAngle := TrimSpace (er_OutreachAngle e);
  er_OutreachDraft := TrimSpace (er_OutreachDraft e) |}.

Definition with_pilot_fields (e pilot : EngagementResult) : EngagementResult := {|
  er_PilotSignals := normalizePilotSignals (er_PilotSignals pilot);
  er_PilotQualified := er_PilotQualified pilot; er_PilotWhy := TrimSpace (er_PilotWhy pilot);
  er_OutreachChannel := er_OutreachChannel e; er_OutreachSubject := er_OutreachSubject e;
  er_OutreachAngle := er_OutreachAngle e; er_OutreachDraft := er_OutreachDraft e |}.

Definition synth_of (e : EnrichSynthResult) : EnrichSynthResult := {|
  es_CompanyType := normalizeCompanyType (es_CompanyType e);
  es_Summary := TrimSpace (es_Summary e);
  es_GeoConfidence := normalizeConfidence (es_GeoConfidence e) |}.

Definition icp_of (i : ICPResult) : ICPResult := {|
  icp_ICP := normalizeICP (icp_ICP i); icp_Hot := icp_Hot i;
  icp_SpendTier := normalizeSpendTier (icp_SpendTier i); icp_Why := TrimSpace (icp_Why i) |}.

Definition leadBatchResultFromItem (item : leadBatchItem) (geoClassify : bool)
    (i : LeadBatchInput) : LeadBatchResult :=
  let geo := if geoClassify then normalizeGeoResult (bi_Geo item) else no_geo in
  let engage := with_pilot_fields (outreach_of (bi_Engagement item)) (bi_Engagement item) in
  let engage := ReconcileEngagement engage (li_ContactTypes i) (li_Source i) in
  let '(qualified, tags) := ApplyEngagementPilot engage in {|
  lr_HashID := TrimSpace (bi_ID item); lr_Geo := geo; lr_ICP := icp_of (bi_ICP item);
  lr_Engagement := engage; lr_Enrichment := synth_of (bi_Enrichment item);
  lr_PilotQualified := qualified; lr_PilotTags := tags |}.

Definition with_engagement (r : LeadBatchResult) (e : EngagementResult) : LeadBatchResult := {|
  lr_HashID := lr_HashID r; lr_Geo := lr_Geo r; lr_ICP := lr_ICP r; lr_Engagement := e;
  lr_Enrichment := lr_Enrichment r; lr_PilotQualified := lr_PilotQualified r;
  lr_PilotTags := lr_PilotTags r |}.

Definition with_enrichment (r : LeadBatchResult) (e : EnrichSynthResult) : LeadBatchResult := {|
  lr_HashID := lr_HashID r; lr_Geo := lr_Geo r; lr_ICP := lr_ICP r;
  lr_Engagement := lr_Engagement r; lr_Enrichment := e;
  lr_PilotQualified := lr_PilotQualified r; lr_PilotTags := lr_PilotTags r |}.

Definition with_pilot (r : LeadBatchResult) (pilot : bool * list string) : LeadBatchResult := {|
  lr_HashID := lr_HashID r; lr_Geo := lr_Geo r; lr_ICP := lr_ICP r;
  lr_Engagement := lr_Engagement r; lr_Enrichment := lr_Enrichment r;
  lr_PilotQualified := pilot.1; lr_PilotTags := pilot.2 |}.

Definition with_hash (r : LeadBatchResult) (id : string) : LeadBatchResult := {|
  lr_HashID := id; lr_Geo := lr_Geo r; lr_ICP := lr_ICP r; lr_Engagement := lr_Engagement r;
  lr_Enrichment := lr_Enrichment r; lr_PilotQualified := lr_PilotQualified r;
  lr_PilotTags := lr_PilotTags r |}.

Definition filterHighPriorityInputs (items : list LeadBatchInput) : list LeadBatchInput :=
  List.filter (λ i, EqualFold (TrimSpace (li_Priority i)) "high") items.

(** The drafts of the second pass replace those of the first, lead by lead. *)
Definition merge_engaged (engageByID : gmap string LeadBatchResult)
    (byID : gmap string LeadBatchInput) (r : LeadBatchResult) : LeadBatchResult :=
  match engageByID !! lr_HashID r with
  | None => r
  | Some ex =>
      let i := input_of byID (lr_HashID r) in
      let r := with_engagement r
                 (ReconcileEngagement (lr_Engagement ex) (li_ContactTypes i) (li_Source i)) in
      if negb (String.eqb (es_CompanyType (lr_Enrichment ex)) estr)
         || negb (String.eqb (es_Summary (lr_Enrichment ex)) estr)
      then with_enrichment r (lr_Enrichment ex) else r
  end.

Definition mergeEngageResults (core engage : list LeadBatchResult)
    (byID : gmap string LeadBatchInput) : list LeadBatchResult :=
  merge_engaged (index_results engage) byID <$> core.

(** ** Calls of the model *)

(** The rows of the payload. *)
Definition payload_row (i : LeadBatchInput) : LeadBatchInput := {|
  li_ID := li_ID i; li_Source := li_Source i; li_Priority := li_Priority i;
  li_Score := li_Score i; li_Snippet := Truncate (TrimSpace (li_Snippet i)) 1500;
  li_Contacts := li_Contacts i; li_ContactTypes := li_ContactTypes i; li_Stack := li_Stack i;
  li_Domain := li_Domain i; li_RDAPCountry := li_RDAPCountry i;
  li_DomainAgeDays := li_DomainAgeDays i; li_DisplayName := li_DisplayName i;
  li_BlockedCountries := li_BlockedCountries i |}.

Definition marshalLeadBatchPayload (items : list LeadBatchInput) : list LeadBatchInput :=
  payload_row <$> items.

Inductive model_call :=
  | CoreCall (geoClassify : bool) (rows : list LeadBatchInput)
  | EngageCall (rows : list LeadBatchInput).

(** [ce_Truncated]: the error is [ErrOutputTruncated]. *)
Record call_error := { ce_Truncated : bool; ce_Message : string }.

Definition isBatchRetryableError (err : call_error) : bool :=
  if ce_Truncated err then true
  else
    let msg := ToLower (ce_Message err) in
    if negb (Contains msg "decode model json") then false
    else Contains msg "unexpected end" || Contains msg "unexpected eof".

Record LeadBatchOptions := {
  lo_GeoClassify : bool; lo_Engage : bool; lo_Enrich : bool; lo_EngageBatchSize : Z }.

Abbreviation M := (eff (list model_call) call_error).

(** The result of a computation, with its error as a value. *)
Definition try_eff {W E A} (m : eff W E A) : eff W E (A + E) := λ w,
  let '(r, w') := m w in (inl r, w').

Equations? analyzeLeadBatchWithRetry (fn : list LeadBatchInput → M (list LeadBatchResult))
    (items : list LeadBatchInput) : M (list LeadBatchResult) by wf (length items) lt :=
  analyzeLeadBatchWithRetry fn [] := done [];
  analyzeLeadBatchWithRetry fn [x] := fn [x];
  analyzeLeadBatchWithRetry fn (x :: y :: rest) :=
    let! r := try_eff (fn (x :: y :: rest)) in
    match r with
    | inl out => done out
    | inr err =>
        if negb (isBatchRetryableError err) then exit_with err
        else
          let! front := analyzeLeadBatchWithRetry fn
            (take (Nat.div (length (x :: y :: rest)) 2) (x :: y :: rest)) in
          let! back := analyzeLeadBatchWithRetry fn
            (drop (Nat.div (length (x :: y :: rest)) 2) (x :: y :: rest)) in
          done (front ++ back)
    end.
Proof.
  all: pose proof (Nat.div_lt (length (x :: y :: rest)) 2 ltac:(simpl; lia) ltac:(lia)).
  all: pose proof (Nat.div_str_pos (length (x :: y :: rest)) 2 ltac:(simpl; lia)).
  - change (length (take (length (x :: y :: rest) / 2) (x :: y :: rest)) < length (x :: y :: rest))%nat.
    rewrite length_take. lia.
  - change (length (drop (length (x :: y :: rest) / 2) (x :: y :: rest)) < length (x :: y :: rest))%nat.
    rewrite length_drop. lia.
Qed.

(** [l] cut into pieces of [n], the last one possibly shorter. *)
Fixpoint chunks_from {A} (fuel n : nat) (l : list A) : list (list A) :=
  match fuel, l with
  | S fuel, _ :: _ => take n l :: chunks_from fuel n (drop n l)
  | _, _ => []
  end.
Definition chunks {A} (n : nat) (l : list A) : list (list A) := chunks_from (length l) n l.

Section calls.
Context (model : list model_call → model_call → list leadBatchItem + call_error).

(** [classifyJSON]. *)
Definition ask (c : model_call) : M (list leadBatchItem) := λ calls,
  match model calls c with
  | inl items => (inl items, calls ++ [c])
  | inr err => (inr err, calls ++ [c])
  end.

Definition analyzeLeadBatchCoreOnce (opts : LeadBatchOptions) (items : list LeadBatchInput)
    : M (list LeadBatchResult) :=
  let! parsed := ask (CoreCall (lo_GeoClassify opts) (marshalLeadBatchPayload items)) in
  let byID := indexLeadBatchInputs items in
  done ((λ item, leadBatchResultFromItem item (lo_GeoClassify opts)
                   (input_of byID (TrimSpace (bi_ID item)))) <$> parsed).

Definition engaged (opts : LeadBatchOptions) (byID : gmap string LeadBatchInput)
    (item : leadBatchItem) : LeadBatchResult :=
  let i := input_of byID (TrimSpace (bi_ID item)) in
  let base := leadBatchResultFromItem (item_of_id (bi_ID item)) false i in
  let base := with_engagement base
    (ReconcileEngagement (outreach_of (bi_Engagement item)) (li_ContactTypes i) (li_Source i)) in
  if lo_Enrich opts then with_enrichment base (synth_of (bi_Enrichment item)) else base.

Definition analyzeLeadBatchEngageOnce (opts : LeadBatchOptions) (items : list LeadBatchInput)
    : M (list LeadBatchResult) :=
  let! parsed := ask (EngageCall (marshalLeadBatchPayload items)) in
  done (engaged opts (indexLeadBatchInputs items) <$> parsed).

(** The second pass over the chunks of high-priority leads. *)
Fixpoint engage_chunks (opts : LeadBatchOptions) (byID : gmap string LeadBatchInput)
    (pieces : list (list LeadBatchInput)) (core : list LeadBatchResult) : M (list LeadBatchResult) :=
  match pieces with
  | [] => done core
  | chunk :: rest =>
      let! engageItems := analyzeLeadBatchWithRetry (analyzeLeadBatchEngageOnce opts) chunk in
      engage_chunks opts byID rest (mergeEngageResults core engageItems byID)
  end.

Definition AnalyzeLeadBatchOpts (items : list LeadBatchInput) (opts : LeadBatchOptions)
    : M (list LeadBatchResult) :=
  if is_empty items then done []
  else
    let! core := analyzeLeadBatchWithRetry (analyzeLeadBatchCoreOnce opts) items in
    if negb (lo_Engage opts) && negb (lo_Enrich opts) then done core
    else
      let high := filterHighPriorityInputs items in
      if is_empty high then done core
      else
        let chunkSize := if lo_EngageBatchSize opts <=? 0 then 4 else lo_EngageBatchSize opts in
        engage_chunks opts (indexLeadBatchInputs items) (chunks (Z.to_nat chunkSize) high) core.

Definition AnalyzeLeadBatch (items : list LeadBatchInput) (geoClassify : bool)
    : M (list LeadBatchResult) :=
  AnalyzeLeadBatchOpts items {| lo_GeoClassify := geoClassify; lo_Engage := true;
                                lo_Enrich := true; lo_EngageBatchSize := 0 |}.
End calls.

(** ** Rows of the batch API ([batch_lead.go]) *)

Section rows.
(** [decodeModelJSON] of the rows of an answer. *)
Context (decode : string → option (list leadBatchItem)).

Definition ParseLeadBatchCoreResponse (raw : string) (geoClassify : bool)
    (items : list LeadBatchInput) : option (list LeadBatchResult) :=
  if String.eqb raw estr then None
  else
    match decode raw with
    | None => None
    | Some parsed =>
        let byID := indexLeadBatchInputs items in
        Some ((λ item, leadBatchResultFromItem item geoClassify
                         (input_of byID (TrimSpace (bi_ID item)))) <$> parsed)
    end.

Definition engage_result (coreByID : gmap string LeadBatchResult)
    (byID : gmap string LeadBatchInput) (enrich : bool) (item : leadBatchItem) : LeadBatchResult :=
  let id := TrimSpace (bi_ID item) in
  let base := with_hash (default no_result (coreByID !! id)) id in
  let i := input_of byID id in
  let base := with_engagement base
    (ReconcileEngagement (outreach_of (bi_Engagement item)) (li_ContactTypes i) (li_Source i)) in
  let base := if enrich then with_enrichment base (synth_of (bi_Enrichment item)) else base in
  with_pilot base (ApplyEngagementPilot (lr_Engagement base)).

Definition ParseLeadBatchEngageResponse (raw : string) (core : list LeadBatchResult)
    (items : list LeadBatchInput) (enrich : bool) : option (list LeadBatchResult) :=
  if String.eqb raw estr then None
  else
    match decode raw with
    | None => None
    | Some parsed =>
        Some (engage_result (index_results core) (indexLeadBatchInputs items) enrich <$> parsed)
    end.

Definition newline : string := String "010" estr.

(** A line of the output file, decoded. *)
Record output_row := { or_Key : string; or_Text : string; or_Error : option string }.

(** [ParseLeadBatchOutputJSONL]; [row] decodes a line. *)
Fixpoint output_lines (row : string → option output_row) (lines : list string)
    (out : gmap string string) : option (gmap string string) :=
  match lines with
  | [] => Some out
  | line :: rest =>
      let line := TrimSpace line in
      if String.eqb line estr then output_lines row rest out
      else
        match row line with
        | None => None
        | Some r =>
            let key := TrimSpace (or_Key r) in
            if String.eqb key estr then output_lines row rest out
            else match or_Error r with
                 | Some _ => None
                 | None =>
                     if String.eqb (or_Text r) estr then None
                     else output_lines row rest (<[key := or_Text r]> out)
                 end
        end
  end.

Definition ParseLeadBatchOutputJSONL (row : string → option output_row) (data : string)
    : option (gmap string string) :=
  output_lines row (Split data newline) ∅.

(** The checks of [BuildLeadBatchCoreJSONLLine] and [BuildLeadBatchEngageJSONLLine]: the key
    and the rows of the request. *)
Definition BuildLeadBatchLine (key : string) (items : list LeadBatchInput)
    : option (string * list LeadBatchInput) :=
  let key := TrimSpace key in
  if String.eqb key estr then None
  else if is_empty items then None
  else Some (key, marshalLeadBatchPayload items).
End rows.

(** ** Facts *)

Lemma concat_chunks_from {A} fuel n (l : list A) :
  (0 < n)%nat → (length l ≤ fuel)%nat → concat (chunks_from fuel n l) = l.
Proof.
  intros Hn. revert l. induction fuel as [|fuel IH]; intros [|x l] Hl; simpl in *; try done; [lia|].
  rewrite IH; [by destruct n; [lia|simpl; rewrite take_drop]|].
  rewrite length_drop. simpl. lia.
Qed.

Lemma concat_chunks {A} n (l : list A) : (0 < n)%nat → concat (chunks n l) = l.
Proof. intros Hn. by apply concat_chunks_from. Qed.

Lemma chunks_from_sizes {A} fuel n (l : list A) :
  (0 < n)%nat → Forall (λ c, c ≠ [] ∧ (length c ≤ n)%nat) (chunks_from fuel n l).
Proof.
  intros Hn. revert l. induction fuel as [|fuel IH]; intros [|x l]; simpl; constructor; [|apply IH].
  destruct n; [lia|]. split; [done|]. simpl. rewrite length_take. lia.
Qed.

Lemma chunks_sizes {A} n (l : list A) :
  (0 < n)%nat → Forall (λ c, c ≠ [] ∧ (length c ≤ n)%nat) (chunks n l).
Proof. apply chunks_from_sizes. Qed.

Lemma index_results_lookup rs (m : gmap string LeadBatchResult) id r :
  foldl (λ m r, <[lr_HashID r := r]> m) m rs !! id = Some r → m !! id = Some r ∨ (r ∈ rs ∧ lr_HashID r = id).
Proof.
  revert m. induction rs as [|r0 rs IH]; intros m; simpl; [auto|].
  intros [H|[H1 H2]]%IH; [|set_solver].
  apply lookup_insert_Some in H as [[<- <-]|[_ H]]; set_solver.
Qed.

(** The part of a result that the second pass leaves alone. *)
Definition core_part (r : LeadBatchResult) : string * GeoResult * ICPResult * bool * list string :=
  (lr_HashID r, lr_Geo r, lr_ICP r, lr_PilotQualified r, lr_PilotTags r).

Lemma mergeEngageResults_core core engage byID :
  core_part <$> mergeEngageResults core engage byID = core_part <$> core.
Proof.
  unfold mergeEngageResults. rewrite <- list_fmap_compose. apply list_fmap_ext. intros _ r _.
  unfold compose, merge_engaged. destruct (index_results engage !! lr_HashID r); [|done].
  cbv zeta. by destruct (_ || _).
Qed.

Lemma engage_chunks_core model opts byID pieces core calls out calls' :
  engage_chunks model opts byID pieces core calls = (inl out, calls') →
  core_part <$> out = core_part <$> core.
Proof.
  revert core calls. induction pieces as [|chunk rest IH]; intros core calls.
  { by intros [= <- _]. }
  cbn [engage_chunks]. unfold seq_eff.
  destruct (analyzeLeadBatchWithRetry _ chunk calls) as [[engageItems|err] calls1]; [|done].
  intros ->%IH. apply mergeEngageResults_core.
Qed.

(** A call of [fn] is one call of the model. *)
Definition one_call {A} (fn : list LeadBatchInput → M A) : Prop :=
  ∀ p calls, ∃ c, (fn p calls).2 = calls ++ [c].

Lemma core_one_call model opts : one_call (analyzeLeadBatchCoreOnce model opts).
Proof.
  intros p calls. unfold analyzeLeadBatchCoreOnce, seq_eff, ask, done.
  destruct (model _ _); simpl; eauto.
Qed.

Lemma engage_one_call model opts : one_call (analyzeLeadBatchEngageOnce model opts).
Proof.
  intros p calls. unfold analyzeLeadBatchEngageOnce, seq_eff, ask, done.
  destruct (model _ _); simpl; eauto.
Qed.

(** What a run with halving may end in. *)
Definition halving_result (fn : list LeadBatchInput → M (list LeadBatchResult))
    (items : list LeadBatchInput) (r : list LeadBatchResult + call_error) : Prop :=
  match r with
  | inl out => ∃ parts, concat parts.*1 = items ∧ concat parts.*2 = out
                 ∧ Forall (λ po, ∃ calls, (fn po.1 calls).1 = inl po.2) parts
  | inr err => ∃ p calls, p ≠ [] ∧ (∃ k k', items = k ++ p ++ k') ∧ (fn p calls).1 = inr err
                 ∧ (isBatchRetryableError err = false ∨ length p = 1%nat)
  end.

Lemma halving_one fn p calls out calls' :
  fn p calls = (inl out, calls') → halving_result fn p (inl out).
Proof.
  intros E. exists [(p, out)]. simpl. rewrite !app_nil_r. split_and!; try done.
  constructor; [|done]. exists calls. simpl. by rewrite E.
Qed.

Lemma halving_stop fn p calls err calls' :
  fn p calls = (inr err, calls') → p ≠ [] → isBatchRetryableError err = false ∨ length p = 1%nat →
  halving_result fn p (inr err).
Proof.
  intros E Hp Hs. exists p, calls. rewrite E. split_and!; try done.
  exists [], []. by rewrite app_nil_r.
Qed.

Lemma halving_app fn items items1 items2 out1 out2 :
  items1 ++ items2 = items → halving_result fn items1 (inl out1) →
  halving_result fn items2 (inl out2) → halving_result fn items (inl (out1 ++ out2)).
Proof.
  intros <- (p1 & H1 & H2 & H3) (p2 & H4 & H5 & H6). exists (p1 ++ p2).
  rewrite !fmap_app, !concat_app. split_and!; [congruence|congruence|by apply Forall_app].
Qed.

Lemma halving_error fn items k1 k2 sub err :
  items = k1 ++ sub ++ k2 → halving_result fn sub (inr err) → halving_result fn items (inr err).
Proof.
  intros -> (p & calls & Hp & (k & k' & ->) & Hf & He). exists p, calls. split_and!; try done.
  exists (k1 ++ k), (k' ++ k2). by rewrite <- !app_assoc.
Qed.

(** A batch is halved until it passes, and that ends. Each call of the analysis makes one call of the model, and a batch of n leads makes at most 2 n - 1 of them. When the analysis succeeds, the leads are cut into consecutive pieces, each answered by one call, and the results are those answers in the order of the leads; when it fails, the error is the one of a call on consecutive leads of the batch that is either not worth retrying or about a single lead. *)
Theorem retry_halves fn items calls :
  one_call fn →
  let '(r, calls') := analyzeLeadBatchWithRetry fn items calls in
  halving_result fn items r ∧
  ∃ made, calls' = calls ++ made ∧ (length made ≤ 2 * length items - 1)%nat.
Proof.
  intros Hone. revert calls. induction items as [items IH] using (induction_ltof1 _ length).
  unfold ltof in IH. intros calls. destruct items as [|x [|y rest]].
  - simp analyzeLeadBatchWithRetry. simpl. split; [by exists []|]. exists []. by rewrite app_nil_r.
  - simp analyzeLeadBatchWithRetry. destruct (Hone [x] calls) as [c Hc].
    destruct (fn [x] calls) as [r calls'] eqn:E. simpl in Hc. subst calls'.
    split; [|exists [c]; simpl; split; [done|lia]].
    destruct r; [by eapply halving_one|by eapply halving_stop; eauto].
  - set (items := x :: y :: rest) in *. set (mid := Nat.div (length items) 2).
    assert (Hmid : (0 < mid < length items)%nat).
    { split; [apply Nat.div_str_pos; simpl; lia|apply Nat.div_lt; simpl; lia]. }
    pose proof (IH (take mid items) ltac:(rewrite length_take; lia)) as IH1.
    pose proof (IH (drop mid items) ltac:(rewrite length_drop; lia)) as IH2. clear IH.
    unfold items. simp analyzeLeadBatchWithRetry. fold items. fold mid.
    unfold seq_eff, try_eff. destruct (Hone items calls) as [c Hc].
    destruct (fn items calls) as [r calls'] eqn:E. simpl in Hc. subst calls'.
    destruct r as [out|err]; cbv beta iota delta [negb].
    { split; [by eapply halving_one|]. exists [c]. simpl. split; [done|lia]. }
    destruct (isBatchRetryableError err) eqn:Hr; cbv beta iota delta [negb].
    2:{ split; [by eapply halving_stop; eauto|]. exists [c]. simpl. split; [done|lia]. }
    specialize (IH1 (calls ++ [c])).
    destruct (analyzeLeadBatchWithRetry fn (take mid items) (calls ++ [c])) as [r1 calls1].
    destruct IH1 as [H1 (made1 & -> & L1)]. rewrite length_take in L1.
    destruct r1 as [out1|err1]; cbv beta iota delta [negb].
    2:{ split; [|exists (c :: made1); rewrite <- app_assoc; split; [done|rewrite length_cons; lia]].
        eapply (halving_error _ _ [] (drop mid items)); [|exact H1]. by rewrite app_nil_l, take_drop. }
    specialize (IH2 ((calls ++ [c]) ++ made1)).
    destruct (analyzeLeadBatchWithRetry fn (drop mid items) _) as [r2 calls2].
    destruct IH2 as [H2 (made2 & -> & L2)]. rewrite length_drop in L2.
    destruct r2 as [out2|err2]; cbv beta iota delta [negb].
    + split; [eapply halving_app; [apply take_drop|exact H1|exact H2]|].
      exists (c :: made1 ++ made2). rewrite <- !app_assoc, length_cons, length_app.
      split; [done|lia].
    + split; [|exists (c :: made1 ++ made2);
                rewrite <- !app_assoc, length_cons, length_app; split; [done|lia]].
      eapply (halving_error _ _ (take mid items) []); [|exact H2]. by rewrite app_nil_r, take_drop.
Qed.

(** The second pass only drafts. When the analysis of a batch succeeds, its results are those of the first pass, one for one and in order, with the same identity, geography, ICP verdict, pilot qualification and tags: at most the outreach draft and the enrichment differ. *)
Theorem engage_keeps_core model items opts calls out calls' :
  items ≠ [] → AnalyzeLeadBatchOpts model items opts calls = (inl out, calls') →
  ∃ core calls1,
    analyzeLeadBatchWithRetry (analyzeLeadBatchCoreOnce model opts) items calls = (inl core, calls1)
    ∧ core_part <$> out = core_part <$> core.
Proof.
  intros Hi. unfold AnalyzeLeadBatchOpts. destruct items as [|i items]; [done|]. cbn [is_empty].
  unfold seq_eff. destruct (analyzeLeadBatchWithRetry _ _ calls) as [[core|err] calls1]; [|done].
  intros H. exists core, calls1. split; [done|].
  destruct (negb _ && _); [by injection H as -> _|].
  destruct (is_empty _); [by injection H as -> _|].
  by eapply engage_chunks_core.
Qed.

(** The engagement the second pass of the batch API computes has no pilot signals. *)
Lemma engage_result_pilot coreByID byID enrich item :
  let r := engage_result coreByID byID enrich item in
  lr_PilotQualified r = false ∧ lr_PilotTags r = ["pilot-nurture"] ∧ er_PilotWhy (lr_Engagement r) = estr.
Proof. unfold engage_result. by destruct enrich. Qed.

(** The batch API forgets who is pilot-qualified. Whatever the first pass found and whatever the model answers, every result of the second pass is unqualified, is tagged pilot-nurture and gives no reason, because the pilot signals are dropped before the qualification is computed again. *)
Theorem engage_forgets_pilot decode raw core items enrich rs :
  ParseLeadBatchEngageResponse decode raw core items enrich = Some rs →
  Forall (λ r, lr_PilotQualified r = false ∧ lr_PilotTags r = ["pilot-nurture"]
               ∧ er_PilotWhy (lr_Engagement r) = estr) rs.
Proof.
  unfold ParseLeadBatchEngageResponse. destruct (String.eqb raw estr); [done|].
  destruct (decode raw) as [parsed|]; [|done]. intros [= <-].
  apply Forall_fmap, Forall_true. intros item. apply engage_result_pilot.
Qed.

(** ** Witnesses *)

Module LeadBatchExamples.
Definition lead (id priority : string) : LeadBatchInput := {|
  li_ID := id; li_Source := "reddit:affiliate"; li_Priority := priority; li_Score := 30;
  li_Snippet := "voluum is too expensive"; li_Contacts := ["telegram:@buyer"];
  li_ContactTypes := ["telegram"]; li_Stack := []; li_Domain := estr; li_RDAPCountry := estr;
  li_DomainAgeDays := 0; li_DisplayName := estr; li_BlockedCountries := ["RU"] |}.

Definition leads : list LeadBatchInput := [lead "a" "High"; lead "b" "Low"; lead "c" "High"].

Definition qualified_item (id : string) : leadBatchItem := {|
  bi_ID := id; bi_Geo := no_geo; bi_ICP := {| icp_ICP := "pro"; icp_Hot := true;
    icp_SpendTier := estr; icp_Why := "spend" |};
  bi_Engagement := {| er_PilotSignals := ["spend_budget"; "tracker_pain"; "infra_vps"];
    er_PilotQualified := true; er_PilotWhy := "three signals"; er_OutreachChannel := "telegram";
    er_OutreachSubject := estr; er_OutreachAngle := "cost"; er_OutreachDraft := "hi" |};
  bi_Enrichment := no_synth_result |}.

(** A model that truncates every answer to more than one lead. *)
Definition truncating (_ : list model_call) (c : model_call) : list leadBatchItem + call_error :=
  let rows := match c with CoreCall _ rows | EngageCall rows => rows end in
  match rows with
  | [i] => inl [qualified_item (li_ID i)]
  | _ => inr {| ce_Truncated := true; ce_Message := estr |}
  end.

Definition opts : LeadBatchOptions :=
  {| lo_GeoClassify := true; lo_Engage := true; lo_Enrich := false; lo_EngageBatchSize := 2 |}.

Definition core_of (leads : list LeadBatchInput) : list LeadBatchResult :=
  (λ i, leadBatchResultFromItem (qualified_item (li_ID i)) true i) <$> leads.

Definition decode_all (_ : string) : option (list leadBatchItem) :=
  Some [qualified_item "a"; qualified_item "c"].

Lemma retry_halves_witness :
  one_call (analyzeLeadBatchCoreOnce truncating opts) ∧
  let '(r, calls') := analyzeLeadBatchWithRetry (analyzeLeadBatchCoreOnce truncating opts) leads [] in
  halving_result (analyzeLeadBatchCoreOnce truncating opts) leads r ∧
  ∃ made, calls' = [] ++ made ∧ (length made ≤ 2 * length leads - 1)%nat.
Proof. split; [apply core_one_call|apply retry_halves, core_one_call]. Defined.

Lemma engage_keeps_core_witness :
  ∃ out calls', AnalyzeLeadBatchOpts truncating leads opts [] = (inl out, calls') ∧
    (length calls' = 8)%nat ∧
    ∃ core calls1,
      analyzeLeadBatchWithRetry (analyzeLeadBatchCoreOnce truncating opts) leads [] = (inl core, calls1)
      ∧ core_part <$> out = core_part <$> core.
Proof.
  destruct (AnalyzeLeadBatchOpts truncating leads opts []) as [[out|err] calls'] eqn:E.
  - exists out, calls'. split; [done|]. split.
    + transitivity (length (AnalyzeLeadBatchOpts truncating leads opts []).2); [by rewrite E|].
      by vm_compute.
    + by apply (engage_keeps_core truncating leads opts [] out calls').
  - exfalso. assert (H : (match (AnalyzeLeadBatchOpts truncating leads opts []).1 with inl _ => true | inr _ => false end) = true)
      by (by vm_compute). by rewrite E in H.
Defined.

Lemma engage_forgets_pilot_witness :
  (∃ rs, ParseLeadBatchEngageResponse decode_all "{}" (core_of leads) leads false = Some rs ∧
    Forall (λ r, lr_PilotQualified r = true) (core_of leads) ∧
    Forall (λ r, lr_PilotQualified r = false ∧ lr_PilotTags r = ["pilot-nurture"]
                 ∧ er_PilotWhy (lr_Engagement r) = estr) rs).
Proof.
  eexists. split; [reflexivity|]. split; [repeat constructor; by vm_compute|].
  by apply (engage_forgets_pilot decode_all "{}" (core_of leads) leads false).
Defined.
End LeadBatchExamples.
