(* ===== verification/LeadStore.v ===== *)
(** Lead documents and their stores ([internal/sink/]: document.go, mongo.go,
    mongo_bulk.go, composite.go, analysis_patch.go, pending_leads.go, entity_heat.go,
    cross_source_hot.go).

    A document is the map from the tags of [LeadDoc] to values that bson makes of it; a
    zero field with [omitempty] is not in the map.  A collection maps hash ids, on which it
    has a unique index, to documents; [UpdateOne] with [$set] and [$setOnInsert] is the
    documented update of MongoDB.  A write can fail: the outcomes of the writes to come are
    part of the state.  A store is an instance of the class [LeadStore]. *)
From S2P Require Import Prelude Unicode GoStrings TextFacts Scoring.
From S2P Require Import Extract Item Hashes Entity.
From Stdlib Require Import SpecFloat.

Local Open Scope Z_scope.

(** ** Documents *)

Inductive bson :=
  | BStr (s : string) | BInt (z : Z) | BBool (b : bool) | BDouble (f : spec_float)
  | BTime (ms : Z) | BStrs (l : list string) | BContacts (l : list StoredContact).

Abbreviation Doc := (gmap string bson).

(** The [omitempty] encodings. *)
Definition some_str (s : string) : option bson := if String.eqb s estr then None else Some (BStr s).
Definition some_int (z : Z) : option bson := if z =? 0 then None else Some (BInt z).
Definition some_bool (b : bool) : option bson := if b then Some (BBool true) else None.
Definition some_double (f : spec_float) : option bson :=
  match f with S754_zero _ => None | _ => Some (BDouble f) end.
Definition some_strs (l : list string) : option bson := match l with [] => None | _ => Some (BStrs l) end.

(** A bson date has milliseconds. *)
Definition bson_time (t : Time) : bson := BTime (t `div` millisecond).
Definition some_time (t : Time) : option bson := if is_zero_time t then None else Some (bson_time t).

Definition doc_of (fields : list (string * option bson)) : Doc :=
  list_to_map (omap (λ kv, (λ v, (kv.1, v)) <$> kv.2) fields).

(** Decoding a field; a missing one is the zero value. *)
Definition get_str (k : string) (d : Doc) : string :=
  match d !! k with Some (BStr s) => s | _ => estr end.
Definition get_int (k : string) (d : Doc) : Z :=
  match d !! k with Some (BInt z) => z | _ => 0 end.
Definition get_bool (k : string) (d : Doc) : bool :=
  match d !! k with Some (BBool b) => b | _ => false end.
Definition get_double (k : string) (d : Doc) : spec_float :=
  match d !! k with Some (BDouble f) => f | _ => S754_zero false end.
Definition get_time (k : string) (d : Doc) : Time :=
  match d !! k with Some (BTime ms) => ms * millisecond | _ => zero_time end.
Definition get_strs (k : string) (d : Doc) : list string :=
  match d !! k with Some (BStrs l) => l | _ => [] end.
Definition get_contacts (k : string) (d : Doc) : list StoredContact :=
  match d !! k with Some (BContacts l) => l | _ => [] end.

Definition priority_name (p : Priority) : string :=
  match p with PriorityHigh => "High" | PriorityMedium => "Medium" | PriorityLow => "Low" end.
Definition tier_name (t : DisplacementTier) : string :=
  match t with DisplacementNone => estr | DisplacementWarm => "warm" | DisplacementHot => "hot" end.

Definition doc_snippet (snippet : string) : string :=
  let snippet := Join (Fields snippet) " " in
  if Nat.ltb 500 (slen snippet) then stake 497 snippet +:+ "..." else snippet.

(** [ToLeadDoc]; [now] is the clock.  The fields of [model.Lead] the pipeline never sets
    ([EntityProof], [AnalysisAt], [DuplicateOf], [DuplicateSuggest], [Stale]) are zero. *)
Definition ToLeadDoc (now : Time) (lead : Lead) : Doc :=
  let b := ld_Base lead in
  let pilot := ld_Pilot lead in
  let synth := ld_Synth lead in
  let entity := ld_Entity lead in
  let queue := ld_Queue lead in
  let status := if String.eqb (ld_Status lead) estr then "new" else ld_Status lead in
  doc_of [
    ("hash_id", Some (BStr (ld_HashID b)));
    ("ts", Some (bson_time (if is_zero_time (ld_TS b) then now else ld_TS b)));
    ("round_id", Some (BStr (ld_RoundID b)));
    ("priority", Some (BStr (priority_name (ld_Priority lead))));
    ("score", Some (BInt (ld_Score lead)));
    ("source", Some (BStr (ld_Source b)));
    ("title", Some (BStr (ld_Title b)));
    ("contacts", Some (BContacts (ToStoredContacts (ParseFormattedContacts (ld_Contacts b)))));
    ("matched", Some (BStrs (ld_Matched b)));
    ("snippet", Some (BStr (doc_snippet (ld_Snippet b))));
    ("icp", some_str (ld_ICP b)); ("hot", some_bool (ld_Hot lead));
    ("spend_tier", some_str (ld_SpendTier b)); ("icp_why", some_str (ld_ICPWhy b));
    ("geo_country", some_str (ld_GeoCountry b));
    ("company_country", some_str (ld_CompanyCountry b));
    ("company_name", some_str (ld_CompanyName b));
    ("geo_signals", some_strs (ld_GeoSignals b)); ("geo_why", some_str (ld_GeoWhy b));
    ("whois_country", some_str (ld_WhoisCountry b));
    ("domain_age_days", some_int (ld_DomainAgeDays b));
    ("display_name", some_str (ld_DisplayName b));
    ("gravatar_name", some_str (ld_GravatarName b));
    ("email_verified", some_bool (ld_EmailVerified b));
    ("posted_at", some_time (ld_PostedAt b)); ("stack", some_strs (ld_Stack b));
    ("tags", some_strs (ld_Tags lead)); ("lang", some_str (ld_Lang b));
    ("status", Some (BStr status)); ("status_at", Some (bson_time now));
    ("outreach_channel", some_str (pl_OutreachChannel pilot));
    ("outreach_subject", some_str (pl_OutreachSubject pilot));
    ("outreach_angle", some_str (pl_OutreachAngle pilot));
    ("outreach_draft", some_str (pl_OutreachDraft pilot));
    ("pilot_qualified", some_bool (pl_PilotQualified pilot));
    ("pilot_why", some_str (pl_PilotWhy pilot));
    ("company_type", some_str (sy_CompanyType synth));
    ("enrich_summary", some_str (sy_EnrichSummary synth));
    ("geo_confidence", some_str (sy_GeoConfidence synth));
    ("analysis_status", some_str (ld_AnalysisStatus lead));
    ("entity_id", some_str (en_EntityID entity));
    ("entity_sighting_count", some_int (en_SightingCount entity));
    ("entity_source_count", some_int (en_SourceCount entity));
    ("entity_heat", some_double (en_EntityHeat entity));
    ("heat_tier", some_str (en_HeatTier entity));
    ("contact_quality", some_str (qu_ContactQuality queue));
    ("contact_channel", some_str (qu_ContactChannel queue));
    ("next_action", some_str (qu_NextAction queue));
    ("engage_priority", some_int (qu_EngagePriority queue));
    ("displacement_tier", some_str (tier_name (ld_DisplacementTier b))) ].

(** The tags of [LeadDocUpdateFields]; they carry the same [omitempty] options. *)
Definition update_keys : gset string := list_to_set [
  "round_id"; "priority"; "score"; "source"; "title"; "contacts"; "matched"; "snippet"; "icp";
  "hot"; "spend_tier"; "icp_why"; "geo_country"; "company_country"; "company_name";
  "geo_signals"; "geo_why"; "whois_country"; "domain_age_days"; "display_name";
  "gravatar_name"; "email_verified"; "posted_at"; "stack"; "tags"; "lang"; "outreach_channel";
  "outreach_subject"; "outreach_angle"; "outreach_draft"; "entity_proof"; "pilot_qualified";
  "pilot_why"; "company_type"; "enrich_summary"; "geo_confidence"; "entity_id";
  "entity_sighting_count"; "entity_source_count"; "entity_heat"; "heat_tier"; "duplicate_of";
  "duplicate_suggest"; "contact_quality"; "contact_channel"; "next_action"; "engage_priority";
  "displacement_tier"; "stale" ].

Definition insert_keys : gset string := list_to_set ["hash_id"; "ts"; "status"; "status_at"].

Definition restrict (keys : gset string) (d : Doc) : Doc := filter (λ kv, kv.1 ∈ keys) d.

Definition ToLeadDocUpdateBSON (doc : Doc) : Doc := restrict update_keys doc.

(** [$set] and [$setOnInsert]. *)
Definition leadDocUpsertUpdate (doc : Doc) : Doc * Doc :=
  (ToLeadDocUpdateBSON doc, restrict insert_keys doc).

(** ** The collection *)

Abbreviation Collection := (gmap string Doc).

(** [UpdateOne] by hash id, without and with upsert. *)
Definition update_one (hashID : string) (set : Doc) (c : Collection) : Collection :=
  match c !! hashID with Some d => <[hashID := set ∪ d]> c | None => c end.
Definition upsert_one (hashID : string) (update : Doc * Doc) (c : Collection) : Collection :=
  match c !! hashID with
  | Some d => <[hashID := update.1 ∪ d]> c
  | None => <[hashID := update.1 ∪ update.2]> c
  end.

(** ** Stores *)

(** What [Store] and [BulkWriter] of the source ask for: an operation answers whether it
    succeeded, [Exists] fails with [None]; [BulkUpsert] is [None] for a store without it. *)
Class LeadStore (St : Type) := {
  Exists : string → St → option bool;
  Upsert : Lead → St → bool * St;
  UpdateStatus : string → string → St → bool * St;
  BulkUpsert : option (list Lead → St → bool * St) }.

(** [ms_Faults]: whether each coming write fails; when it is used up, writes succeed. *)
Record MongoStore := { ms_Now : Time; ms_Coll : Collection; ms_Faults : list bool }.

Definition with_coll (s : MongoStore) (c : Collection) : MongoStore :=
  {| ms_Now := ms_Now s; ms_Coll := c; ms_Faults := tail (ms_Faults s) |}.

(** A write that fails leaves the collection as it is. *)
Definition mongo_write (f : Collection → Collection) (s : MongoStore) : bool * MongoStore :=
  match ms_Faults s with
  | true :: _ => (false, with_coll s (ms_Coll s))
  | _ => (true, with_coll s (f (ms_Coll s)))
  end.

Definition upsertDoc (doc : Doc) (c : Collection) : Collection :=
  upsert_one (get_str "hash_id" doc) (leadDocUpsertUpdate doc) c.

Definition mongo_UpdateStatus (hashID status : string) (s : MongoStore) : bool * MongoStore :=
  if String.eqb hashID estr || String.eqb status estr then (true, s)
  else mongo_write (update_one hashID
         {["status" := BStr status; "status_at" := bson_time (ms_Now s)]}) s.

Definition mongo_BulkUpsert (leads : list Lead) (s : MongoStore) : bool * MongoStore :=
  match leads with
  | [] => (true, s)
  | _ => mongo_write (λ c, foldl (λ c lead, upsertDoc (ToLeadDoc (ms_Now s) lead) c) c leads) s
  end.

#[export] Instance mongo_store : LeadStore MongoStore := {|
  Exists hashID s := Some (bool_decide (is_Some (ms_Coll s !! hashID)));
  Upsert lead s := mongo_write (upsertDoc (ToLeadDoc (ms_Now s) lead)) s;
  UpdateStatus := mongo_UpdateStatus;
  BulkUpsert := Some mongo_BulkUpsert |}.

(** [CompositeStore]: the stores in order, up to the first failure. *)
Section composite.
Context `{LeadStore St}.

Fixpoint composite_Exists (hashID : string) (stores : list St) : option bool :=
  match stores with
  | [] => Some false
  | s :: rest =>
      match Exists hashID s with
      | None => None
      | Some true => Some true
      | Some false => composite_Exists hashID rest
      end
  end.

Fixpoint fan_out (op : St → bool * St) (stores : list St) : bool * list St :=
  match stores with
  | [] => (true, [])
  | s :: rest =>
      let '(ok, s) := op s in
      if ok then let '(ok, rest) := fan_out op rest in (ok, s :: rest) else (false, s :: rest)
  end.

#[export] Instance composite_store : LeadStore (list St) := {|
  Exists := composite_Exists;
  Upsert lead := fan_out (Upsert lead);
  UpdateStatus hashID status := fan_out (UpdateStatus hashID status);
  BulkUpsert := None |}.
End composite.

(** ** The bulk store ([mongo_bulk.go]) *)

Section bulk.
Context `{LeadStore St}.

Record BulkStore := {
  bk_inner : St; bk_batch : list Lead; bk_batchSize : Z; bk_flushInterval : Duration;
  bk_lastFlush : Time; bk_FlushCount : Z; bk_leadsWritten : Z }.

Definition NewBulkStore (inner : St) (batchSize : Z) (flushInterval : Duration) (now : Time)
    : BulkStore := {|
  bk_inner := inner; bk_batch := [];
  bk_batchSize := if batchSize <=? 0 then 50 else batchSize;
  bk_flushInterval := if flushInterval <=? 0 then 2 * second else flushInterval;
  bk_lastFlush := now; bk_FlushCount := 0; bk_leadsWritten := 0 |}.

(** [Exists] looks through the buffer under the lock, and asks the inner store after it. *)
Definition bulk_buffered (hashID : string) (b : BulkStore) : bool :=
  existsb (λ lead, String.eqb (ld_HashID (ld_Base lead)) hashID) (bk_batch b).

Definition bulk_Exists (hashID : string) (b : BulkStore) : option bool :=
  if bulk_buffered hashID b then Some true else Exists hashID (bk_inner b).

Definition written (b : BulkStore) (inner : St) (n : nat) : BulkStore := {|
  bk_inner := inner; bk_batch := bk_batch b; bk_batchSize := bk_batchSize b;
  bk_flushInterval := bk_flushInterval b; bk_lastFlush := bk_lastFlush b;
  bk_FlushCount := bk_FlushCount b; bk_leadsWritten := bk_leadsWritten b + Z.of_nat n |}.

Definition with_batch (b : BulkStore) (batch : list Lead) : BulkStore := {|
  bk_inner := bk_inner b; bk_batch := batch; bk_batchSize := bk_batchSize b;
  bk_flushInterval := bk_flushInterval b; bk_lastFlush := bk_lastFlush b;
  bk_FlushCount := bk_FlushCount b; bk_leadsWritten := bk_leadsWritten b |}.

(** The batch is taken out under the lock, before it is written. *)
Definition take_out (now : Time) (b : BulkStore) : list Lead * BulkStore :=
  (bk_batch b, {|
    bk_inner := bk_inner b; bk_batch := []; bk_batchSize := bk_batchSize b;
    bk_flushInterval := bk_flushInterval b; bk_lastFlush := now;
    bk_FlushCount := bk_FlushCount b + 1; bk_leadsWritten := bk_leadsWritten b |}).

(** One lead at a time, for a store without [BulkUpsert]. *)
Fixpoint upsert_each (leads : list Lead) (b : BulkStore) : bool * BulkStore :=
  match leads with
  | [] => (true, b)
  | lead :: rest =>
      let '(ok, inner) := Upsert lead (bk_inner b) in
      if ok then upsert_each rest (written b inner 1) else (false, written b inner 0)
  end.

Definition flushBatch (leads : list Lead) (b : BulkStore) : bool * BulkStore :=
  match leads with
  | [] => (true, b)
  | _ =>
      match BulkUpsert with
      | Some bulk =>
          let '(ok, inner) := bulk leads (bk_inner b) in
          (ok, written b inner (if ok then length leads else 0%nat))
      | None => upsert_each leads b
      end
  end.

(** What [Upsert] does under the lock, and the batch it then writes, if any: [now] and
    [taken] are its two readings of the clock. *)
Definition bulk_put (now taken : Time) (lead : Lead) (b : BulkStore) : list Lead * BulkStore :=
  let b := with_batch b (bk_batch b ++ [lead]) in
  if (bk_batchSize b <=? Z.of_nat (length (bk_batch b)))
     || (bk_flushInterval b <=? time_sub now (bk_lastFlush b))
  then take_out taken b else ([], b).

(** The same of [Flush]. *)
Definition bulk_take (now : Time) (b : BulkStore) : list Lead * BulkStore :=
  match bk_batch b with [] => ([], b) | _ => take_out now b end.

(** The calls when nothing comes between the lock and the write. *)
Definition bulk_Upsert (now taken : Time) (lead : Lead) (b : BulkStore) : bool * BulkStore :=
  let '(batch, b) := bulk_put now taken lead b in flushBatch batch b.

Definition bulk_Flush (now : Time) (b : BulkStore) : bool * BulkStore :=
  let '(batch, b) := bulk_take now b in flushBatch batch b.

Definition bulk_UpdateStatus (hashID status : string) (b : BulkStore) : bool * BulkStore :=
  let '(ok, inner) := UpdateStatus hashID status (bk_inner b) in (ok, written b inner 0).

(** ** The bulk store shared by the workers

    A call is made by a goroutine. What it does under the lock is one step; the write of the
    batch it took out, or the question to the inner store, is a later step, with the steps
    of the others in between. *)
Inductive bulk_call :=
  | CallUpsert (now taken : Time) (lead : Lead)
  | CallFlush (now : Time)
  | CallExists (hashID : string)
  | CallUpdateStatus (hashID status : string).

(** Where a goroutine is that has given the lock back and not returned. *)
Inductive bulk_pc := Writing (leads : list Lead) | Looking (hashID : string).

Inductive bulk_reply := Wrote (ok : bool) | Found (answer : option bool).

Record BulkRun := { br_bulk : BulkStore; br_pcs : gmap nat bulk_pc }.

Inductive bulk_event := Enter (g : nat) (c : bulk_call) | Resume (g : nat).

(** After the lock: return, or go on to the write. *)
Definition after_lock (g : nat) (out : list Lead * BulkStore) (r : BulkRun)
    : BulkRun * option bulk_reply :=
  match out with
  | ([], b) => ({| br_bulk := b; br_pcs := br_pcs r |}, Some (Wrote true))
  | (batch, b) => ({| br_bulk := b; br_pcs := <[g := Writing batch]> (br_pcs r) |}, None)
  end.

Definition bulk_enter (g : nat) (c : bulk_call) (r : BulkRun) : BulkRun * option bulk_reply :=
  match c with
  | CallUpsert now taken lead => after_lock g (bulk_put now taken lead (br_bulk r)) r
  | CallFlush now => after_lock g (bulk_take now (br_bulk r)) r
  | CallExists hashID =>
      if bulk_buffered hashID (br_bulk r) then (r, Some (Found (Some true)))
      else ({| br_bulk := br_bulk r; br_pcs := <[g := Looking hashID]> (br_pcs r) |}, None)
  | CallUpdateStatus hashID status =>
      let '(ok, b) := bulk_UpdateStatus hashID status (br_bulk r) in
      ({| br_bulk := b; br_pcs := br_pcs r |}, Some (Wrote ok))
  end.

Definition bulk_resume (g : nat) (r : BulkRun) : BulkRun * option bulk_reply :=
  match br_pcs r !! g with
  | None => (r, None)
  | Some (Writing batch) =>
      let '(ok, b) := flushBatch batch (br_bulk r) in
      ({| br_bulk := b; br_pcs := delete g (br_pcs r) |}, Some (Wrote ok))
  | Some (Looking hashID) =>
      ({| br_bulk := br_bulk r; br_pcs := delete g (br_pcs r) |},
       Some (Found (Exists hashID (bk_inner (br_bulk r)))))
  end.

(** One step; a goroutine makes one call at a time. *)
Definition bulk_turn (r : BulkRun) (e : bulk_event) : BulkRun * option bulk_reply :=
  match e with Enter g c => bulk_enter g c r | Resume g => bulk_resume g r end.

Definition bulk_enabled (r : BulkRun) (e : bulk_event) : bool :=
  match e with
  | Enter g _ => bool_decide (br_pcs r !! g = None)
  | Resume g => bool_decide (is_Some (br_pcs r !! g))
  end.

Definition bulk_run (r : BulkRun) (es : list bulk_event) : BulkRun :=
  foldl (λ r e, (bulk_turn r e).1) r es.

Fixpoint bulk_valid (r : BulkRun) (es : list bulk_event) : bool :=
  match es with [] => true | e :: es => bulk_enabled r e && bulk_valid (bulk_turn r e).1 es end.
End bulk.
Arguments BulkStore St : clear implicits.
Arguments BulkRun St : clear implicits.

(** ** Patches of the analysis ([analysis_patch.go]) *)

Record PatchVerdict := {
  vd_Priority : string; vd_Score : Z; vd_ICP : string; vd_Hot : bool; vd_SpendTier : string;
  vd_ICPWhy : string; vd_GeoCountry : string; vd_CompanyCountry : string;
  vd_CompanyName : string; vd_GeoSignals : list string; vd_GeoWhy : string }.

Definition no_verdict : PatchVerdict := {|
  vd_Priority := estr; vd_Score := 0; vd_ICP := estr; vd_Hot := false; vd_SpendTier := estr;
  vd_ICPWhy := estr; vd_GeoCountry := estr; vd_CompanyCountry := estr; vd_CompanyName := estr;
  vd_GeoSignals := []; vd_GeoWhy := estr |}.

(** The fields of [LeadAnalysisPatch], grouped as those of a lead. *)
Record LeadAnalysisPatch := {
  pa_HashID : string; pa_AnalysisStatus : string; pa_Status : string; pa_DuplicateOf : string;
  pa_Verdict : PatchVerdict; pa_Tags : list string; pa_Pilot : PilotFields;
  pa_Synth : SynthFields; pa_Queue : QueueFields; pa_DisplacementTier : string; pa_Stale : bool }.

(** A patch of the status alone. *)
Definition status_patch (hashID analysisStatus status duplicateOf : string) : LeadAnalysisPatch := {|
  pa_HashID := hashID; pa_AnalysisStatus := analysisStatus; pa_Status := status;
  pa_DuplicateOf := duplicateOf; pa_Verdict := no_verdict; pa_Tags := []; pa_Pilot := no_pilot;
  pa_Synth := no_synth; pa_Queue := no_queue; pa_DisplacementTier := estr; pa_Stale := false |}.

Definition pos_int (z : Z) : option bson := if 0 <? z then Some (BInt z) else None.

Definition patch_set (now : Time) (p : LeadAnalysisPatch) : Doc :=
  let v := pa_Verdict p in
  let pilot := pa_Pilot p in
  let q := pa_Queue p in
  doc_of [
    ("analysis_status", Some (BStr (pa_AnalysisStatus p)));
    ("analysis_at", Some (bson_time now));
    ("status", some_str (pa_Status p));
    ("status_at", if String.eqb (pa_Status p) estr then None else Some (bson_time now));
    ("priority", some_str (vd_Priority v)); ("score", pos_int (vd_Score v));
    ("icp", some_str (vd_ICP v)); ("hot", some_bool (vd_Hot v));
    ("spend_tier", some_str (vd_SpendTier v)); ("icp_why", some_str (vd_ICPWhy v));
    ("geo_country", some_str (vd_GeoCountry v));
    ("company_country", some_str (vd_CompanyCountry v));
    ("company_name", some_str (vd_CompanyName v)); ("geo_signals", some_strs (vd_GeoSignals v));
    ("geo_why", some_str (vd_GeoWhy v)); ("tags", some_strs (pa_Tags p));
    ("outreach_channel", some_str (pl_OutreachChannel pilot));
    ("outreach_subject", some_str (pl_OutreachSubject pilot));
    ("outreach_angle", some_str (pl_OutreachAngle pilot));
    ("outreach_draft", some_str (pl_OutreachDraft pilot));
    ("pilot_qualified", some_bool (pl_PilotQualified pilot));
    ("pilot_why", some_str (pl_PilotWhy pilot));
    ("company_type", some_str (sy_CompanyType (pa_Synth p)));
    ("enrich_summary", some_str (sy_EnrichSummary (pa_Synth p)));
    ("geo_confidence", some_str (sy_GeoConfidence (pa_Synth p)));
    ("duplicate_of", some_str (pa_DuplicateOf p));
    ("contact_quality", some_str (qu_ContactQuality q));
    ("contact_channel", some_str (qu_ContactChannel q));
    ("next_action", some_str (qu_NextAction q));
    ("engage_priority", pos_int (qu_EngagePriority q));
    ("displacement_tier", some_str (pa_DisplacementTier p)); ("stale", some_bool (pa_Stale p)) ].

Definition PatchLeadAnalysis (p : LeadAnalysisPatch) (s : MongoStore) : bool * MongoStore :=
  if String.eqb (pa_HashID p) estr then (true, s)
  else mongo_write (update_one (pa_HashID p) (patch_set (ms_Now s) p)) s.

(** ** Boosts of a stored lead ([entity_heat.go], [cross_source_hot.go]) *)

Definition boost_set (boost : Z) (doc : Doc) : Doc :=
  doc_of [
    ("hot", Some (BBool true)); ("score", Some (BInt (get_int "score" doc + boost)));
    ("priority", if String.eqb (get_str "priority" doc) "Medium" then Some (BStr "High") else None);
    ("tags", Some (BStrs (AppendUniqueTag (get_strs "tags" doc) TagCrossSourceHot))) ].

Definition default_boost (boost : Z) : Z := if boost <=? 0 then DefaultCrossSourceBoost else boost.

(** The document is read, then updated; no document, no update. *)
Definition read_update (hashID : string) (f : Doc → Doc) (s : MongoStore) : bool * MongoStore :=
  if String.eqb hashID estr then (true, s)
  else match ms_Coll s !! hashID with
       | None => (true, s)
       | Some doc => mongo_write (update_one hashID (f doc)) s
       end.

Definition ApplyCrossSourceHot (hashID : string) (boost : Z) (s : MongoStore) : bool * MongoStore :=
  read_update hashID (boost_set (default_boost boost)) s.

Record EntityHeatPatch := {
  hp_HeatScore : spec_float; hp_HeatTier : string; hp_SightingCount : Z; hp_SourceCount : Z;
  hp_Boost : Z }.

Definition heat_set (p : EntityHeatPatch) (doc : Doc) : Doc :=
  let base := doc_of [
    ("entity_heat", Some (BDouble (hp_HeatScore p))); ("heat_tier", Some (BStr (hp_HeatTier p)));
    ("entity_sighting_count", Some (BInt (hp_SightingCount p)));
    ("entity_source_count", Some (BInt (hp_SourceCount p))) ] in
  if HeatTierRank HeatTierHot <=? HeatTierRank (hp_HeatTier p)
  then boost_set (default_boost (hp_Boost p)) doc ∪ base else base.

Definition ApplyEntityHeat (hashID : string) (p : EntityHeatPatch) (s : MongoStore)
    : bool * MongoStore := read_update hashID (heat_set p) s.

(** ** Pending leads ([pending_leads.go]) *)

(** The filter of [ListStalePendingLeads]: the status is compared as stored, and the time
    of acceptance is at most the cutoff. *)
Definition stale_pending (cutoff : Time) (doc : Doc) : bool :=
  String.eqb (get_str "analysis_status" doc) "pending"
  && match doc !! "ts" with Some (BTime ms) => ms <=? cutoff `div` millisecond | _ => false end.

Definition before_ts (d1 d2 : Doc) : bool := get_time "ts" d1 <=? get_time "ts" d2.

Fixpoint insert_by_ts (d : Doc) (l : list Doc) : list Doc :=
  match l with
  | [] => [d]
  | e :: rest => if before_ts d e then d :: l else e :: insert_by_ts d rest
  end.

(** The oldest [limit] of them; [docs] are the documents in the order of the collection. *)
Definition ListStalePendingLeads (olderThan : Duration) (limit : Z) (s : MongoStore)
    (docs : list Doc) : list Doc :=
  let limit := if limit <=? 0 then 15 else limit in
  let cutoff := time_add (ms_Now s) (- olderThan) in
  take (Z.to_nat limit) (foldr insert_by_ts [] (List.filter (stale_pending cutoff) docs)).

Definition CountPendingAnalysis (docs : list Doc) : Z :=
  count_if (λ d, String.eqb (get_str "analysis_status" d) "pending") docs.

#[global] Arguments ToLeadDoc : simpl never.
#[global] Arguments restrict : simpl never.
#[global] Arguments patch_set : simpl never.
#[global] Arguments update_keys : simpl never.
#[global] Arguments insert_keys : simpl never.

(** ** Facts *)

(** The value of a tag in a list of fields. *)
Fixpoint first_field (k : string) (fields : list (string * option bson)) : option bson :=
  match fields with
  | [] => None
  | (k', v) :: rest =>
      if String.eqb k' k then match v with Some x => Some x | None => first_field k rest end
      else first_field k rest
  end.

Lemma doc_of_lookup fields k : doc_of fields !! k = first_field k fields.
Proof.
  unfold doc_of. induction fields as [|[k' [v|]] rest IH]; [done| |]; simpl; rewrite <- IH.
  - destruct (String.eqb_spec k' k) as [->|Hk]; [by rewrite lookup_insert_eq|].
    by rewrite lookup_insert_ne.
  - by destruct (String.eqb k' k).
Qed.

Lemma match_option_id {A} (o : option A) : match o with Some x => Some x | None => None end = o.
Proof. by destruct o. Qed.

(** The value of a given tag in a document written as a list of fields. *)
Ltac doc_lookup :=
  rewrite doc_of_lookup; cbn [first_field String.eqb Ascii.eqb Bool.eqb];
  try apply match_option_id; try done.

Lemma restrict_lookup keys d k : restrict keys d !! k = if decide (k ∈ keys) then d !! k else None.
Proof.
  unfold restrict. destruct (decide (k ∈ keys)) as [Hk|Hk].
  - destruct (d !! k) as [v|] eqn:E.
    + by apply map_lookup_filter_Some.
    + by apply map_lookup_filter_None_2; left.
  - apply map_lookup_filter_None_2. right. intros v _. done.
Qed.

Lemma union_field (set d : Doc) k : (set ∪ d) !! k = match set !! k with Some v => Some v | None => d !! k end.
Proof. rewrite lookup_union. by destruct (set !! k), (d !! k). Qed.

Lemma update_one_lookup h set c h' :
  update_one h set c !! h' = if decide (h = h') then (λ d, set ∪ d) <$> c !! h else c !! h'.
Proof.
  unfold update_one. destruct (c !! h) as [d|] eqn:E.
  - destruct (decide (h = h')) as [<-|Hn]; [by rewrite lookup_insert_eq|by rewrite lookup_insert_ne].
  - by destruct (decide (h = h')) as [<-|].
Qed.

Lemma upsert_one_lookup h update c h' :
  upsert_one h update c !! h'
  = if decide (h = h') then Some (update.1 ∪ default update.2 (c !! h)) else c !! h'.
Proof.
  unfold upsert_one. destruct (c !! h) as [d|] eqn:E; simpl;
    (destruct (decide (h = h')) as [<-|]; [by rewrite lookup_insert_eq|by rewrite lookup_insert_ne]).
Qed.

Lemma ToLeadDoc_hash now lead : get_str "hash_id" (ToLeadDoc now lead) = ld_HashID (ld_Base lead).
Proof. unfold get_str, ToLeadDoc. cbv zeta. by rewrite doc_of_lookup. Qed.

Lemma Upsert_lookup now lead c h :
  upsertDoc (ToLeadDoc now lead) c !! h
  = if decide (ld_HashID (ld_Base lead) = h)
    then Some (ToLeadDocUpdateBSON (ToLeadDoc now lead)
               ∪ default (restrict insert_keys (ToLeadDoc now lead)) (c !! ld_HashID (ld_Base lead)))
    else c !! h.
Proof. unfold upsertDoc. by rewrite ToLeadDoc_hash, upsert_one_lookup. Qed.

(** The fields of a patch the theorems read. *)
Section patch_fields.
Context (now : Time) (p : LeadAnalysisPatch).

Lemma patch_set_status : patch_set now p !! "analysis_status" = Some (BStr (pa_AnalysisStatus p)).
Proof. unfold patch_set. cbv zeta. doc_lookup. Qed.
Lemma patch_set_score : patch_set now p !! "score" = pos_int (vd_Score (pa_Verdict p)).
Proof. unfold patch_set. cbv zeta. doc_lookup. Qed.
Lemma patch_set_hot : patch_set now p !! "hot" = some_bool (vd_Hot (pa_Verdict p)).
Proof. unfold patch_set. cbv zeta. doc_lookup. Qed.
Lemma patch_set_priority : patch_set now p !! "priority" = some_str (vd_Priority (pa_Verdict p)).
Proof. unfold patch_set. cbv zeta. doc_lookup. Qed.
Lemma patch_set_untouched :
  Forall (λ k, patch_set now p !! k = None)
    ["hash_id"; "ts"; "contacts"; "source"; "title"; "snippet"; "matched"].
Proof. repeat (constructor; [unfold patch_set; cbv zeta; doc_lookup|]). constructor. Qed.
End patch_fields.

