(* ===== verification/LeadStoreFacts.v ===== *)
(** What the lead stores guarantee: upserts and patches of a document, the bulk store as a
    buffer in front of another store, and what is lost. *)
From S2P Require Import Prelude Unicode GoStrings Scoring Item Hashes LeadStore.

Local Open Scope Z_scope.

Lemma restrict_union_idemp keys (d e : Doc) : restrict keys d ∪ (restrict keys d ∪ e) = restrict keys d ∪ e.
Proof.
  apply map_eq. intros k. rewrite !union_field. by destruct (restrict keys d !! k).
Qed.

(** An upsert keeps what sales has done. It touches one document; a new document gets its identity, time and status from the lead; a document that exists keeps every field outside the update set — its time of acceptance, status and status time, outcome and analysis status among them — and of the update set exactly the fields the lead has a value for are replaced. Upserting the same lead again changes nothing more. *)
Theorem Upsert_exact now lead c :
  let h := ld_HashID (ld_Base lead) in
  let doc := ToLeadDoc now lead in
  let c' := upsertDoc doc c in
  (∀ h', h' ≠ h → c' !! h' = c !! h') ∧
  (∃ d', c' !! h = Some d' ∧
    (∀ k, k ∈ update_keys → d' !! k = match doc !! k with
                                      | Some v => Some v
                                      | None => d ← c !! h; d !! k end) ∧
    (∀ k, k ∉ update_keys → d' !! k = match c !! h with
                                      | Some d => d !! k
                                      | None => if decide (k ∈ insert_keys) then doc !! k else None end)) ∧
  upsertDoc doc c' = c'.
Proof.
  intros h doc c'. split_and!.
  - intros h' Hn. subst c' doc. rewrite Upsert_lookup. by rewrite decide_False by done.
  - eexists. split; [subst c' doc; rewrite Upsert_lookup; by rewrite decide_True by done|].
    fold h doc. unfold ToLeadDocUpdateBSON.
    split; intros k Hk; rewrite union_field, restrict_lookup.
    + rewrite decide_True by done. destruct (doc !! k) as [v|] eqn:E; [done|].
      destruct (c !! h); simpl; [done|]. rewrite restrict_lookup, E. by destruct (decide _).
    + rewrite decide_False by done. destruct (c !! h); simpl; [done|apply restrict_lookup].
  - apply map_eq. intros h'. subst c' doc. rewrite !Upsert_lookup. fold h.
    destruct (decide (h = h')) as [<-|]; [|done].
    rewrite decide_True by done. simpl. f_equal. apply restrict_union_idemp.
Qed.

(** A deferred lead is never pending in Mongo. Whatever analysis status the pipeline gives a lead, the document its first upsert creates has none, because the status is in neither the update nor the insert fields: the rescan of stale pending leads does not list it, however old it is, and the count of pending leads does not count it. *)
Theorem deferred_lead_not_pending now lead c :
  c !! ld_HashID (ld_Base lead) = None →
  ∃ d, upsertDoc (ToLeadDoc now lead) c !! ld_HashID (ld_Base lead) = Some d
    ∧ d !! "analysis_status" = None
    ∧ (∀ cutoff, stale_pending cutoff d = false)
    ∧ (∀ docs, CountPendingAnalysis (d :: docs) = CountPendingAnalysis docs).
Proof.
  intros Hc. eexists. rewrite Upsert_lookup, decide_True by done. split; [done|]. rewrite Hc. cbn [default].
  assert (H : (ToLeadDocUpdateBSON (ToLeadDoc now lead) ∪ restrict insert_keys (ToLeadDoc now lead))
                !! "analysis_status" = None).
  { rewrite union_field. unfold ToLeadDocUpdateBSON. rewrite !restrict_lookup.
    rewrite !decide_False; [done|unfold insert_keys; set_solver|].
    by apply (bool_decide_unpack _); vm_compute. }
  split; [done|]. split.
  - intros cutoff. unfold stale_pending, get_str. by rewrite H.
  - intros docs. unfold CountPendingAnalysis, count_if. cbn [List.filter]. unfold get_str at 1. by rewrite H.
Qed.

(** What a patch makes of the document. *)
Definition patched (now : Time) (p : LeadAnalysisPatch) (d d' : Doc) : Prop :=
  (∀ k, d' !! k = match patch_set now p !! k with Some v => Some v | None => d !! k end) ∧
  get_str "analysis_status" d' = pa_AnalysisStatus p ∧
  Forall (λ k, d' !! k = d !! k) ["hash_id"; "ts"; "contacts"; "source"; "title"; "snippet"; "matched"] ∧
  get_int "score" d' = (if 0 <? vd_Score (pa_Verdict p) then vd_Score (pa_Verdict p) else get_int "score" d) ∧
  get_bool "hot" d' = vd_Hot (pa_Verdict p) || get_bool "hot" d.

Lemma patch_set_patched now p d : patched now p d (patch_set now p ∪ d).
Proof.
  unfold patched, get_str, get_int, get_bool. split_and!; [intros k; apply union_field| | | |].
  - by rewrite union_field, patch_set_status.
  - eapply Forall_impl; [apply patch_set_untouched|]. intros k Hk. by rewrite union_field, Hk.
  - rewrite union_field, patch_set_score. unfold pos_int. by destruct (0 <? _).
  - rewrite union_field, patch_set_hot. by destruct (vd_Hot _).
Qed.

(** What a patch can and cannot do. A patch that is written changes one document and adds no field to it beyond those it sets; the analysis status is the one of the patch; identity, contacts, source and time of acceptance stay. It cannot take back: a score is only replaced by a positive one, and a lead that was hot stays hot whatever the new analysis says. *)
Theorem PatchLeadAnalysis_exact p s d :
  pa_HashID p ≠ estr → ms_Coll s !! pa_HashID p = Some d →
  let '(ok, s') := PatchLeadAnalysis p s in
  (∀ h, h ≠ pa_HashID p → ms_Coll s' !! h = ms_Coll s !! h) ∧
  if ok then ∃ d', ms_Coll s' !! pa_HashID p = Some d' ∧ patched (ms_Now s) p d d'
  else ms_Coll s' = ms_Coll s.
Proof.
  intros Hh Hd. unfold PatchLeadAnalysis. rewrite (proj2 (String.eqb_neq _ _) Hh).
  assert (Hother : ∀ h, h ≠ pa_HashID p →
    update_one (pa_HashID p) (patch_set (ms_Now s) p) (ms_Coll s) !! h = ms_Coll s !! h).
  { intros h Hn. rewrite update_one_lookup. by rewrite decide_False by done. }
  unfold mongo_write. destruct (ms_Faults s) as [|[] faults]; [| done |];
    (split; [done|]; eexists; cbn [with_coll ms_Coll]; rewrite update_one_lookup, decide_True, Hd by done;
     split; [done|apply patch_set_patched]).
Qed.

(** ** The bulk store *)

Inductive bulk_op := BulkPut (now : Time) (lead : Lead) | BulkFlush (now : Time).

Definition bulk_step `{LeadStore St} (b : BulkStore St) (op : bulk_op) : BulkStore St :=
  match op with
  | BulkPut now lead => (bulk_Upsert now now lead b).2
  | BulkFlush now => (bulk_Flush now b).2
  end.

Definition leads_put (ops : list bulk_op) : list Lead :=
  omap (λ op, match op with BulkPut _ lead => Some lead | BulkFlush _ => None end) ops.

Section bulk.
Context `{LeadStore St} (bulk : list Lead → St → bool * St).

(** The inner store after the calls of [BulkUpsert], and the leads of those that succeeded. *)
Definition after_calls (inner : St) (calls : list (list Lead)) : St :=
  foldl (λ i c, (bulk c i).2) inner calls.
Fixpoint delivered (inner : St) (calls : list (list Lead)) : nat :=
  match calls with
  | [] => 0
  | c :: rest => (if (bulk c inner).1 then length c else 0) + delivered (bulk c inner).2 rest
  end.

Lemma delivered_snoc inner calls c :
  delivered inner (calls ++ [c])
  = (delivered inner calls + if (bulk c (after_calls inner calls)).1 then length c else 0)%nat.
Proof.
  revert inner. induction calls as [|c0 calls IH]; intros inner; simpl; [lia|]. rewrite IH. simpl. lia.
Qed.

(** The state of the buffer in front of [inner0]: the calls made so far. *)
Record bulk_inv (inner0 : St) (size : Z) (puts : list Lead) (calls : list (list Lead))
    (b : BulkStore St) : Prop := {
  bi_size : bk_batchSize b = size;
  bi_puts : concat calls ++ bk_batch b = puts;
  bi_calls : Forall (λ c, c ≠ []) calls;
  bi_count : bk_FlushCount b = Z.of_nat (length calls);
  bi_inner : bk_inner b = after_calls inner0 calls;
  bi_written : bk_leadsWritten b = Z.of_nat (delivered inner0 calls);
  bi_small : Z.of_nat (length (bk_batch b)) < size }.

Context (Hbulk : BulkUpsert = Some bulk).

Lemma flush_inv inner0 size puts calls (b : BulkStore St) now :
  bk_batch b ≠ [] → 0 < size → bk_batchSize b = size → concat calls ++ bk_batch b = puts →
  Forall (λ c, c ≠ []) calls → bk_FlushCount b = Z.of_nat (length calls) →
  bk_inner b = after_calls inner0 calls → bk_leadsWritten b = Z.of_nat (delivered inner0 calls) →
  let '(batch, b') := take_out now b in
  bulk_inv inner0 size puts (calls ++ [bk_batch b]) (flushBatch batch b').2.
Proof.
  intros Hne Hs Hsize Hputs Hcalls Hcount Hinner Hw. unfold take_out, flushBatch.
  destruct (bk_batch b) as [|x l] eqn:E; [done|]. rewrite Hbulk. simpl bk_inner.
  destruct (bulk (x :: l) (bk_inner b)) as [ok inner] eqn:Eb. simpl.
  split; simpl; try done.
  - by rewrite concat_app, app_nil_r; simpl; rewrite app_nil_r.
  - apply Forall_app. by split; [|constructor].
  - rewrite length_app. simpl. lia.
  - unfold after_calls. rewrite foldl_app. simpl. fold (after_calls inner0 calls).
    by rewrite <- Hinner, Eb.
  - rewrite delivered_snoc, <- Hinner, Eb. simpl. destruct ok; simpl; lia.
Qed.

Lemma bulk_step_inv inner0 size puts calls b op :
  0 < size → bulk_inv inner0 size puts calls b →
  ∃ calls', bulk_inv inner0 size (puts ++ leads_put [op]) calls' (bulk_step b op).
Proof.
  intros Hs [H1 H2 H3 H4 H5 H6 H7]. destruct op as [now lead|now]; simpl.
  - unfold bulk_Upsert, bulk_put.
    assert (Hp : concat calls ++ bk_batch b ++ [lead] = puts ++ [lead]) by (by rewrite app_assoc, H2).
    destruct (_ || _) eqn:E.
    + exists (calls ++ [bk_batch b ++ [lead]]).
      pose proof (flush_inv inner0 size (puts ++ [lead]) calls (with_batch b (bk_batch b ++ [lead])) now) as HF.
      destruct (take_out now (with_batch b (bk_batch b ++ [lead]))) as [batch b'] eqn:Et.
      apply HF; simpl; try done. by destruct (bk_batch b).
    + exists calls. apply orb_false_iff in E as [E _]. simpl in E. bool_to_prop. split; simpl; try done.
      rewrite <- H1. lia.
  - rewrite app_nil_r. unfold bulk_Flush, bulk_take. destruct (bk_batch b) as [|x l] eqn:E.
    + exists calls. split; simpl; try rewrite E; try done.
    + exists (calls ++ [bk_batch b]). rewrite <- E in *.
      pose proof (flush_inv inner0 size puts calls b now) as HF.
      destruct (take_out now b) as [batch b'] eqn:Et. apply HF; try done. by rewrite E.
Qed.
End bulk.

Lemma bulk_run_inv `{LeadStore St} bulk inner size interval now ops :
  BulkUpsert = Some bulk →
  let b0 := NewBulkStore inner size interval now in
  ∃ calls, bulk_inv bulk inner (bk_batchSize b0) (leads_put ops) calls (foldl bulk_step b0 ops).
Proof.
  intros Hbulk b0. induction ops as [|op ops (calls & IH)] using rev_ind.
  { exists []. split; try done. subst b0. simpl. destruct (Z.leb_spec size 0); lia. }
  rewrite foldl_app. simpl. unfold leads_put. rewrite omap_app. fold (leads_put ops).
  eapply bulk_step_inv; [done| |exact IH]. subst b0. simpl. destruct (Z.leb_spec size 0); lia.
Qed.

(** The bulk store counts what it delivers and keeps the order. Over any sequence of upserts and flushes in front of any store with bulk writes, the leads handed to the inner store, call by call, and those still in the buffer are all the leads in their order; no call is empty, the buffer stays below the batch size, and the number of leads written is exactly that of the calls that succeeded. *)
Theorem bulk_conserves `{LeadStore St} bulk inner size interval now ops :
  BulkUpsert = Some bulk →
  let b := foldl bulk_step (NewBulkStore inner size interval now) ops in
  ∃ calls, concat calls ++ bk_batch b = leads_put ops ∧ Forall (λ c, c ≠ []) calls
    ∧ bk_inner b = after_calls bulk inner calls
    ∧ bk_FlushCount b = Z.of_nat (length calls)
    ∧ bk_leadsWritten b = Z.of_nat (delivered bulk inner calls)
    ∧ Z.of_nat (length (bk_batch b)) < (if size <=? 0 then 50 else size).
Proof.
  intros Hbulk b. destruct (bulk_run_inv bulk inner size interval now ops Hbulk) as (calls & []).
  by exists calls.
Qed.

(** ** In front of Mongo *)

Definition hash_of (lead : Lead) : string := ld_HashID (ld_Base lead).

Lemma upserts_exist now leads c h :
  is_Some (foldl (λ c lead, upsertDoc (ToLeadDoc now lead) c) c leads !! h)
  ↔ is_Some (c !! h) ∨ h ∈ hash_of <$> leads.
Proof.
  revert c. induction leads as [|lead leads IH]; intros c; simpl; [set_solver|].
  rewrite IH, Upsert_lookup, elem_of_cons. unfold hash_of at 2.
  destruct (decide (_ = h)) as [->|Hn]; [|naive_solver].
  split; [naive_solver|]. intros _. left. eauto.
Qed.

(** The collection after calls that all succeed. *)
Lemma after_calls_exist inner calls h :
  ms_Faults inner = [] → Forall (λ c, c ≠ []) calls →
  let s := after_calls mongo_BulkUpsert inner calls in
  ms_Faults s = [] ∧ (is_Some (ms_Coll s !! h) ↔ is_Some (ms_Coll inner !! h) ∨ h ∈ hash_of <$> concat calls).
Proof.
  intros Hf. induction calls as [|c calls IH] using rev_ind; [intros _; simpl; set_solver|].
  intros [Hc1 Hc2]%Forall_app. destruct (IH Hc1) as [Hf' He]. apply Forall_inv in Hc2.
  unfold after_calls. rewrite foldl_app. fold (after_calls mongo_BulkUpsert inner calls). simpl.
  set (s := after_calls _ _ _) in *. clearbody s. unfold mongo_BulkUpsert.
  destruct c as [|x l]; [done|]. unfold mongo_write. rewrite Hf'. cbn [snd with_coll ms_Faults ms_Coll].
  rewrite Hf'. split; [done|].
  rewrite upserts_exist, He, concat_app, fmap_app, elem_of_app. simpl. rewrite app_nil_r. naive_solver.
Qed.

(** ** Shared by the workers, in front of Mongo *)

(** The leads upserted by a run, in order. *)
Definition entered (es : list bulk_event) : list Lead :=
  omap (λ e, match e with Enter _ (CallUpsert _ _ lead) => Some lead | _ => None end) es.

Definition stored (r : BulkRun MongoStore) (h : string) : Prop :=
  is_Some (ms_Coll (bk_inner (br_bulk r)) !! h).

Definition flying (pc : bulk_pc) : list Lead :=
  match pc with Writing batch => batch | Looking _ => [] end.

(** The leads taken out of the buffer and not yet written. *)
Definition in_flight (pcs : gmap nat bulk_pc) : list Lead := (map_to_list pcs).*2 ≫= flying.

Lemma in_flight_insert pcs g pc :
  pcs !! g = None → in_flight (<[g := pc]> pcs) ≡ₚ flying pc ++ in_flight pcs.
Proof. intros Hg. unfold in_flight. by rewrite map_to_list_insert. Qed.

Lemma in_flight_delete pcs g pc :
  pcs !! g = Some pc → in_flight pcs ≡ₚ flying pc ++ in_flight (delete g pcs).
Proof.
  intros Hg. rewrite <- (insert_delete_id pcs g pc) at 1 by done.
  apply in_flight_insert, lookup_delete_eq.
Qed.

Lemma in_flight_elem pcs h :
  h ∈ hash_of <$> in_flight pcs →
  ∃ g batch, pcs !! g = Some (Writing batch) ∧ h ∈ hash_of <$> batch.
Proof.
  intros (lead & -> & Hin)%list_elem_of_fmap. unfold in_flight in Hin.
  apply list_elem_of_bind in Hin as (pc & Hl & Hin).
  apply list_elem_of_fmap in Hin as ([g pc'] & -> & Hin%elem_of_map_to_list).
  destruct pc' as [batch|]; [|by apply elem_of_nil in Hl].
  exists g, batch. split; [done|]. by apply list_elem_of_fmap_2.
Qed.

(** Every lead that was upserted is written, in flight or buffered, once; the store counts
    those written, and has their documents and those it had. *)
Record accounts (c0 : Collection) (puts : list Lead) (r : BulkRun MongoStore)
    (wrote : list Lead) : Prop := {
  ac_works : ms_Faults (bk_inner (br_bulk r)) = [];
  ac_puts : puts ≡ₚ wrote ++ in_flight (br_pcs r) ++ bk_batch (br_bulk r);
  ac_count : bk_leadsWritten (br_bulk r) = Z.of_nat (length wrote);
  ac_coll : ∀ h, stored r h ↔ is_Some (c0 !! h) ∨ h ∈ hash_of <$> wrote }.

Lemma flush_mongo batch (b : BulkStore MongoStore) :
  ms_Faults (bk_inner b) = [] →
  ∃ b', flushBatch batch b = (true, b') ∧ bk_batch b' = bk_batch b
    ∧ bk_leadsWritten b' = bk_leadsWritten b + Z.of_nat (length batch)
    ∧ ms_Faults (bk_inner b') = []
    ∧ ∀ h, is_Some (ms_Coll (bk_inner b') !! h)
           ↔ is_Some (ms_Coll (bk_inner b) !! h) ∨ h ∈ hash_of <$> batch.
Proof.
  intros Hf. destruct batch as [|x l].
  { exists b. split_and!; try done; [cbn; lia|]. intros h. set_solver. }
  eexists. unfold flushBatch. cbn [BulkUpsert mongo_store]. unfold mongo_BulkUpsert, mongo_write.
  rewrite Hf. split; [done|]. split_and!; [done|done|cbn; by rewrite Hf|].
  intros h. cbn [written bk_inner with_coll ms_Coll]. by rewrite upserts_exist.
Qed.

Lemma after_lock_accounts c0 puts new r wrote g batch b' :
  accounts c0 puts r wrote → br_pcs r !! g = None →
  bk_inner b' = bk_inner (br_bulk r) → bk_leadsWritten b' = bk_leadsWritten (br_bulk r) →
  batch ++ bk_batch b' = bk_batch (br_bulk r) ++ new →
  accounts c0 (puts ++ new) (after_lock g (batch, b') r).1 wrote.
Proof.
  intros [Hw Hp Hc Hs] Hg Hi Hl Hb.
  assert (puts ++ new ≡ₚ wrote ++ (batch ++ in_flight (br_pcs r)) ++ bk_batch b') as HP.
  { rewrite Hp, <- !app_assoc, <- Hb. solve_Permutation. }
  destruct batch as [|x l]; cbn [after_lock fst];
    (split; unfold stored; cbn [br_bulk br_pcs]; [by rewrite Hi| |by rewrite Hl|by rewrite Hi]);
    [done|]. by rewrite in_flight_insert.
Qed.

Lemma put_out now taken lead (b : BulkStore MongoStore) :
  let '(batch, b') := bulk_put now taken lead b in
  bk_inner b' = bk_inner b ∧ bk_leadsWritten b' = bk_leadsWritten b
  ∧ batch ++ bk_batch b' = bk_batch b ++ [lead].
Proof. unfold bulk_put. destruct (_ || _); cbn; by rewrite ?app_nil_r. Qed.

Lemma take_out_of now (b : BulkStore MongoStore) :
  let '(batch, b') := bulk_take now b in
  bk_inner b' = bk_inner b ∧ bk_leadsWritten b' = bk_leadsWritten b
  ∧ batch ++ bk_batch b' = bk_batch b ++ [].
Proof. unfold bulk_take. destruct (bk_batch b) as [|x l] eqn:E; cbn; by rewrite ?E, ?app_nil_r. Qed.

Lemma pc_accounts c0 puts r wrote pc pcs :
  accounts c0 puts r wrote → flying pc = [] →
  in_flight pcs ≡ₚ flying pc ++ in_flight (br_pcs r)
  ∨ in_flight (br_pcs r) ≡ₚ flying pc ++ in_flight pcs →
  accounts c0 puts {| br_bulk := br_bulk r; br_pcs := pcs |} wrote.
Proof.
  intros [Hw Hp Hc Hs] -> Hi. split; cbn [br_bulk br_pcs]; try done.
  destruct Hi as [-> | Hi]; [done|]. by rewrite Hp, Hi.
Qed.

Lemma status_accounts c0 puts r wrote hashID status :
  accounts c0 puts r wrote →
  accounts c0 puts {| br_bulk := (bulk_UpdateStatus hashID status (br_bulk r)).2;
                      br_pcs := br_pcs r |} wrote.
Proof.
  intros [Hw Hp Hc Hs]. unfold bulk_UpdateStatus. cbn [UpdateStatus mongo_store].
  unfold mongo_UpdateStatus, mongo_write. rewrite Hw.
  destruct (_ || _); [split; unfold stored in *; cbn; try done; lia|].
  split; unfold stored in *; cbn; [by rewrite Hw|done|lia|].
  intros h. rewrite <- Hs, update_one_lookup. destruct (decide _) as [->|]; [|done].
  by rewrite fmap_is_Some.
Qed.

Lemma turn_accounts c0 puts r wrote e :
  accounts c0 puts r wrote → bulk_enabled r e = true →
  ∃ new, accounts c0 (puts ++ entered [e]) (bulk_turn r e).1 (wrote ++ new).
Proof.
  intros Ha. destruct e as [g c|g]; cbn [bulk_enabled bulk_turn];
    intros Hg%bool_decide_eq_true; [exists []; rewrite app_nil_r; destruct c as [now taken lead|now|h|h status]|];
    cbn [bulk_enter entered omap list_omap]; rewrite ?app_nil_r.
  - pose proof (put_out now taken lead (br_bulk r)) as Ho.
    destruct (bulk_put now taken lead (br_bulk r)) as [batch b']. destruct Ho as (? & ? & ?).
    by apply after_lock_accounts.
  - pose proof (take_out_of now (br_bulk r)) as Ho.
    destruct (bulk_take now (br_bulk r)) as [batch b']. destruct Ho as (? & ? & ?).
    rewrite <- (app_nil_r puts). by apply after_lock_accounts.
  - destruct (bulk_buffered _ _); [done|]. cbn [fst].
    apply (pc_accounts c0 puts r wrote (Looking h)); [done|done|]. left. by rewrite in_flight_insert.
  - pose proof (status_accounts c0 puts r wrote h status Ha) as Hs.
    by destruct (bulk_UpdateStatus h status (br_bulk r)).
  - destruct Hg as [pc Hg]. unfold bulk_resume. rewrite Hg. destruct pc as [batch|h].
    + destruct Ha as [Hw Hp Hc Hs]. destruct (flush_mongo batch (br_bulk r) Hw)
        as (b' & -> & Eb & El & Ef & Hh). exists batch.
      split; unfold stored in *; cbn [br_bulk br_pcs fst]; [done| | |].
      * rewrite Hp, (in_flight_delete _ g (Writing batch)), Eb by done. cbn [flying].
        by rewrite <- !app_assoc.
      * rewrite El, Hc, length_app. lia.
      * intros h. rewrite Hh, Hs, fmap_app, elem_of_app. naive_solver.
    + exists []. rewrite app_nil_r. cbn [fst]. apply (pc_accounts c0 puts r wrote (Looking h)); [done|done|].
      right. by apply in_flight_delete.
Qed.

Lemma run_accounts c0 puts r wrote es :
  accounts c0 puts r wrote → bulk_valid r es = true →
  ∃ new, accounts c0 (puts ++ entered es) (bulk_run r es) (wrote ++ new).
Proof.
  revert puts r wrote. induction es as [|e es IH]; intros puts r wrote Ha Hv.
  { exists []. by rewrite !app_nil_r. }
  cbn [bulk_valid] in Hv. apply andb_true_iff in Hv as [He Hv].
  destruct (turn_accounts _ _ _ _ e Ha He) as [n1 Ha1].
  destruct (IH _ _ _ Ha1 Hv) as [n2 Ha2]. exists (n1 ++ n2).
  unfold entered in *. rewrite <- !app_assoc, <- omap_app in Ha2. exact Ha2.
Qed.

Lemma bulk_valid_app r es1 es2 :
  bulk_valid r (es1 ++ es2) = bulk_valid r es1 && bulk_valid (bulk_run r es1) es2.
Proof.
  revert r. induction es1 as [|e es1 IH]; intros r; [done|]. cbn [bulk_valid app].
  rewrite IH. by rewrite andb_assoc.
Qed.

(** ** Calls in progress *)

Lemma after_lock_pcs g out (r : BulkRun MongoStore) g' :
  g ≠ g' → br_pcs (after_lock g out r).1 !! g' = br_pcs r !! g'.
Proof. intros Hn. destruct out as [[|x l] b]; cbn; [done|]. by rewrite lookup_insert_ne. Qed.

(** A goroutine stays where it is until its own next step. *)
Lemma turn_pc (r : BulkRun MongoStore) e g pc :
  bulk_enabled r e = true → e ≠ Resume g → br_pcs r !! g = Some pc →
  br_pcs (bulk_turn r e).1 !! g = Some pc.
Proof.
  destruct e as [g' c|g']; cbn [bulk_enabled bulk_turn]; intros Hg%bool_decide_eq_true Hn Hpc.
  - assert (g' ≠ g) by congruence. destruct c as [now taken lead|now|h|h status]; cbn [bulk_enter].
    + by rewrite after_lock_pcs.
    + by rewrite after_lock_pcs.
    + destruct (bulk_buffered _ _); [done|]. cbn. by rewrite lookup_insert_ne.
    + by destruct (bulk_UpdateStatus h status (br_bulk r)).
  - assert (g' ≠ g) by congruence. destruct Hg as [pc' Hg]. unfold bulk_resume. rewrite Hg.
    destruct pc'; [destruct (flushBatch _ _)|]; cbn; by rewrite lookup_delete_ne.
Qed.

Lemma run_pc (r : BulkRun MongoStore) es g pc :
  bulk_valid r es = true → Resume g ∉ es → br_pcs r !! g = Some pc →
  br_pcs (bulk_run r es) !! g = Some pc.
Proof.
  revert r. induction es as [|e es IH]; intros r Hv Hn Hpc; [done|]. cbn [bulk_valid] in Hv.
  apply andb_true_iff in Hv as [He Hv]. apply not_elem_of_cons in Hn as [Hn1 Hn2].
  apply IH; [done..|]. by apply turn_pc.
Qed.

(** Documents stay, and a batch in flight is written by the step of its goroutine. *)
Lemma run_stored c0 puts r wrote es h :
  accounts c0 puts r wrote → bulk_valid r es = true → stored r h → stored (bulk_run r es) h.
Proof.
  intros Ha Hv Hs. destruct (run_accounts _ _ _ _ es Ha Hv) as [new Ha'].
  apply (ac_coll _ _ _ _ Ha'). apply (ac_coll _ _ _ _ Ha) in Hs.
  rewrite fmap_app, elem_of_app. naive_solver.
Qed.

Lemma run_flight c0 puts r wrote es g batch h :
  accounts c0 puts r wrote → bulk_valid r es = true →
  br_pcs r !! g = Some (Writing batch) → h ∈ hash_of <$> batch →
  br_pcs (bulk_run r es) !! g = Some (Writing batch) ∨ stored (bulk_run r es) h.
Proof.
  revert puts r wrote. induction es as [|e es IH]; intros puts r wrote Ha Hv Hpc Hin; [by left|].
  cbn [bulk_valid] in Hv. apply andb_true_iff in Hv as [He Hv].
  destruct (turn_accounts _ _ _ _ e Ha He) as [new Ha'].
  assert (e = Resume g ∨ e ≠ Resume g) as [->|Hn].
  { destruct e as [|g']; [by right|]. destruct (decide (g' = g)); [left|right]; congruence. }
  - right. eapply (run_stored c0 _ _ _ es); [exact Ha'|done|].
    cbn [bulk_turn]. unfold bulk_resume. rewrite Hpc.
    destruct (flush_mongo batch (br_bulk r) (ac_works _ _ _ _ Ha)) as (b' & -> & _ & _ & _ & Hh).
    unfold stored. cbn. apply Hh. by right.
  - eapply IH; [exact Ha'|done| |done]. by apply turn_pc.
Qed.

(** Where a run starts. *)
Definition bulk_start (inner : MongoStore) (size : Z) (interval : Duration) (now : Time)
    : BulkRun MongoStore := {| br_bulk := NewBulkStore inner size interval now; br_pcs := ∅ |}.

Lemma start_accounts inner size interval now :
  ms_Faults inner = [] → accounts (ms_Coll inner) [] (bulk_start inner size interval now) [].
Proof.
  intros Hf. split; unfold stored, in_flight; cbn; [done|by rewrite map_to_list_empty|done|].
  set_solver.
Qed.

(** The answer is that of the store without the buffer, or the lead is in flight. *)
Definition answers (c0 : Collection) (before during : list bulk_event)
    (r1 r2 : BulkRun MongoStore) (h : string) (b : bool) : Prop :=
  if b then is_Some (c0 !! h) ∨ h ∈ hash_of <$> entered (before ++ during)
  else c0 !! h = None ∧ (h ∈ hash_of <$> entered before →
    ∃ g batch, h ∈ hash_of <$> batch
      ∧ br_pcs r1 !! g = Some (Writing batch) ∧ br_pcs r2 !! g = Some (Writing batch)).

Lemma not_buffered h (b : BulkStore MongoStore) :
  bulk_buffered h b = false → h ∉ hash_of <$> bk_batch b.
Proof.
  unfold bulk_buffered. rewrite existsb_none. intros E (lead & -> & Hin)%list_elem_of_fmap.
  specialize (E lead Hin). by rewrite String.eqb_refl in E.
Qed.

Lemma looks_up c0 before during r1 wrote g h :
  accounts c0 (entered before) r1 wrote → br_pcs r1 !! g = Some (Looking h) →
  bulk_buffered h (br_bulk r1) = false →
  bulk_valid r1 during = true → Resume g ∉ during →
  ∃ b, (bulk_turn (bulk_run r1 during) (Resume g)).2 = Some (Found (Some b))
    ∧ answers c0 before during r1 (bulk_run r1 during) h b.
Proof.
  intros Ha Hg Hb%not_buffered Hv Hn. set (r2 := bulk_run r1 during).
  assert (br_pcs r2 !! g = Some (Looking h)) as Hg2 by by apply run_pc.
  destruct (run_accounts _ _ _ _ during Ha Hv) as [new Ha2]. fold r2 in Ha2.
  exists (bool_decide (stored r2 h)). split.
  { cbn [bulk_turn]. unfold bulk_resume. by rewrite Hg2. }
  unfold answers. case_bool_decide as Hs.
  - apply (ac_coll _ _ _ _ Ha2) in Hs as [Hs|Hs]; [by left|right].
    unfold entered in *. rewrite omap_app, (ac_puts _ _ _ _ Ha2), fmap_app, elem_of_app. by left.
  - split.
    + apply eq_None_not_Some. intros Hc. apply Hs, (ac_coll _ _ _ _ Ha2). by left.
    + rewrite (ac_puts _ _ _ _ Ha), !fmap_app, !elem_of_app. intros [Hw|[Hf|Hbuf]]; [|..|done].
      * exfalso. apply Hs, (ac_coll _ _ _ _ Ha2). right. rewrite fmap_app, elem_of_app. by left.
      * apply in_flight_elem in Hf as (g' & batch & Hpc & Hin). exists g', batch.
        split; [done|]. split; [done|].
        by destruct (run_flight _ _ _ _ during g' batch h Ha Hv Hpc Hin).
Qed.

(** C29. The bulk store loses no lead, and hides one only while it is being written. Workers share the store; in every interleaving of what their upserts, flushes, status changes and Exists do under the lock with the writes and look-ups they do after it, in front of a Mongo store whose writes succeed: every lead upserted is, once, written, in flight in one goroutine, or in the buffer; the counter of written leads is exact; and the documents are those there were and those of the written leads. An Exists that finds its hash in the buffer answers true, rightly; otherwise it asks the inner store later, and answers true only for a hash that was there or was upserted, and false only for one that was not there and that, if a lead with it had been upserted before the call, is in a batch that one goroutine was writing when Exists looked at the buffer and is still writing when it answers. With nobody writing, that is the answer of the store without the buffer. *)
Theorem bulk_hides_only_in_flight inner size interval now before g h :
  ms_Faults inner = [] →
  let r0 := bulk_start inner size interval now in
  bulk_valid r0 (before ++ [Enter g (CallExists h)]) = true →
  let r := bulk_run r0 before in
  let '(r1, reply) := bulk_turn r (Enter g (CallExists h)) in
  (∃ wrote, accounts (ms_Coll inner) (entered before) r wrote)
  ∧ (reply = Some (Found (Some true)) ∧ h ∈ hash_of <$> entered before
     ∨ reply = None ∧ ∀ during, bulk_valid r1 during = true → Resume g ∉ during →
       let r2 := bulk_run r1 during in
       ∃ b, (bulk_turn r2 (Resume g)).2 = Some (Found (Some b))
         ∧ answers (ms_Coll inner) before during r1 r2 h b).
Proof.
  intros Hf r0 Hv r. rewrite bulk_valid_app in Hv. apply andb_true_iff in Hv as [Hv He].
  cbn [bulk_valid] in He. rewrite andb_true_r in He. fold r in He.
  destruct (run_accounts _ _ _ _ before (start_accounts inner size interval now Hf) Hv)
    as [wrote Ha]. cbn [app] in Ha. fold r0 in Ha. fold r in Ha.
  destruct (turn_accounts _ _ _ _ _ Ha He) as [new Ha1].
  cbn [bulk_turn bulk_enter] in *. destruct (bulk_buffered h (br_bulk r)) eqn:Eb; cbn [fst] in Ha1.
  - split; [by exists wrote|]. left. split; [done|].
    apply existsb_elem in Eb as (lead & Hin & Heq%String.eqb_eq).
    rewrite (ac_puts _ _ _ _ Ha), !fmap_app, !elem_of_app. right; right.
    apply list_elem_of_fmap. by exists lead.
  - split; [by exists wrote|]. right. split; [done|]. intros during Hd Hn.
    rewrite app_nil_r in Ha1. apply (looks_up _ _ _ _ (wrote ++ new)); try done. by apply lookup_insert_eq.
Qed.

(** A failed bulk write loses leads that were acknowledged. When the write of a flush fails, its error is reported once, the buffer is empty and the documents are as before: a lead whose upsert had been answered with success is neither buffered nor stored, and nothing will write it again. *)
Theorem bulk_flush_loses (b : BulkStore MongoStore) now faults lead :
  ms_Faults (bk_inner b) = true :: faults → lead ∈ bk_batch b →
  ms_Coll (bk_inner b) !! hash_of lead = None →
  let '(ok, b') := bulk_Flush now b in
  ok = false ∧ bk_batch b' = [] ∧ ms_Coll (bk_inner b') = ms_Coll (bk_inner b)
  ∧ bulk_Exists (hash_of lead) b' = Some false.
Proof.
  intros Hf Hin Hn. unfold bulk_Flush, bulk_take. destruct (bk_batch b) as [|x l] eqn:E; [set_solver|].
  unfold take_out, flushBatch. rewrite E. cbn [BulkUpsert mongo_store]. unfold mongo_BulkUpsert.
  cbn [bk_inner]. unfold mongo_write. rewrite Hf. simpl. split_and!; try done.
  unfold bulk_Exists. simpl. by rewrite Hn.
Qed.

(** ** Witnesses *)

Module LeadStoreExamples.
Definition lead_of (hash status : string) (score : Z) : Lead := {|
  ld_Base := {| ld_TS := 5 * second; ld_RoundID := "r1"; ld_HashID := hash; ld_Source := "reddit:x";
    ld_Title := "t"; ld_Contacts := ["telegram:@buyer"]; ld_Matched := []; ld_Snippet := "need a tracker";
    ld_ICP := estr; ld_SpendTier := estr; ld_ICPWhy := estr; ld_GeoCountry := estr;
    ld_CompanyCountry := estr; ld_CompanyName := estr; ld_GeoSignals := []; ld_GeoWhy := estr;
    ld_WhoisCountry := estr; ld_DomainAgeDays := 0; ld_DisplayName := estr; ld_GravatarName := estr;
    ld_EmailVerified := false; ld_PostedAt := zero_time; ld_Stack := [];
    ld_DisplacementTier := DisplacementNone; ld_Lang := "en" |};
  ld_Priority := PriorityMedium; ld_Score := score; ld_Hot := false; ld_Tags := [];
  ld_Status := status; ld_AnalysisStatus := "pending"; ld_Pilot := no_pilot; ld_Synth := no_synth;
  ld_Entity := no_entity; ld_Queue := no_queue |}.

Definition store (faults : list bool) : MongoStore :=
  {| ms_Now := 100 * second; ms_Coll := ∅; ms_Faults := faults |}.

Definition one_doc : MongoStore :=
  {| ms_Now := 100 * second;
     ms_Coll := {["a" := {["hash_id" := BStr "a"; "score" := BInt 30; "hot" := BBool true]}]};
     ms_Faults := [] |}.

Definition rejecting : LeadAnalysisPatch := status_patch "a" "icp_rejected" "icp_rejected" estr.

Lemma deferred_lead_not_pending_witness :
  ld_AnalysisStatus (lead_of "a" "new" 40) = "pending" ∧
  ∃ d, upsertDoc (ToLeadDoc 0 (lead_of "a" "new" 40)) ∅ !! "a" = Some d
    ∧ d !! "analysis_status" = None
    ∧ (∀ cutoff, stale_pending cutoff d = false)
    ∧ (∀ docs, CountPendingAnalysis (d :: docs) = CountPendingAnalysis docs).
Proof. split; [done|]. by apply (deferred_lead_not_pending 0 (lead_of "a" "new" 40) ∅). Defined.

Lemma PatchLeadAnalysis_exact_witness :
  let '(ok, s') := PatchLeadAnalysis rejecting one_doc in
  (∀ h, h ≠ pa_HashID rejecting → ms_Coll s' !! h = ms_Coll one_doc !! h) ∧
  if ok then ∃ d', ms_Coll s' !! pa_HashID rejecting = Some d'
               ∧ patched (ms_Now one_doc) rejecting
                   {["hash_id" := BStr "a"; "score" := BInt 30; "hot" := BBool true]} d'
  else ms_Coll s' = ms_Coll one_doc.
Proof.
  apply (PatchLeadAnalysis_exact rejecting one_doc
           {["hash_id" := BStr "a"; "score" := BInt 30; "hot" := BBool true]}); [done|reflexivity].
Defined.

Definition puts : list bulk_op :=
  [BulkPut (101 * second) (lead_of "a" "new" 1); BulkPut (101 * second) (lead_of "b" "new" 2);
   BulkPut (101 * second) (lead_of "c" "new" 3); BulkFlush (102 * second)].

Lemma bulk_conserves_witness :
  let b := foldl bulk_step (NewBulkStore (store [true]) 2 (5 * second) (100 * second)) puts in
  bk_leadsWritten b = 1 ∧ bk_FlushCount b = 2 ∧
  ∃ calls, concat calls ++ bk_batch b = leads_put puts ∧ Forall (λ c, c ≠ []) calls
    ∧ bk_inner b = after_calls mongo_BulkUpsert (store [true]) calls
    ∧ bk_FlushCount b = Z.of_nat (length calls)
    ∧ bk_leadsWritten b = Z.of_nat (delivered mongo_BulkUpsert (store [true]) calls)
    ∧ Z.of_nat (length (bk_batch b)) < (if 2 <=? 0 then 50 else 2).
Proof.
  split; [by vm_compute|]. split; [by vm_compute|].
  exact (bulk_conserves (H := mongo_store) mongo_BulkUpsert (store [true]) 2 (5 * second) (100 * second)
           puts eq_refl).
Defined.

(** Two workers fill a buffer of two; the second has taken it out and is writing. *)
Definition second_writes : list bulk_event :=
  [Enter 1 (CallUpsert (101 * second) (101 * second) (lead_of "a" "new" 1));
   Enter 2 (CallUpsert (101 * second) (101 * second) (lead_of "b" "new" 2))].

Definition sharing : BulkRun MongoStore := bulk_start (store []) 2 (5 * second) (100 * second).

(** The first upsert has returned, and a third worker does not see its lead until the write. *)
Example in_flight_lead_is_missed :
  let r := bulk_run sharing second_writes in
  (bulk_turn sharing (hd (Resume 0) second_writes)).2 = Some (Wrote true)
  ∧ (bulk_turn (bulk_run r [Enter 3 (CallExists "a")]) (Resume 3)).2 = Some (Found (Some false))
  ∧ (bulk_turn (bulk_run r [Resume 2; Enter 3 (CallExists "a")]) (Resume 3)).2
    = Some (Found (Some true)).
Proof. by vm_compute. Qed.

Lemma bulk_hides_only_in_flight_witness :
  let r := bulk_run sharing second_writes in
  let '(r1, reply) := bulk_turn r (Enter 3 (CallExists "a")) in
  reply = None ∧
  ((∃ wrote, accounts (ms_Coll (store [])) (entered second_writes) r wrote)
  ∧ (reply = Some (Found (Some true)) ∧ "a" ∈ hash_of <$> entered second_writes
     ∨ reply = None ∧ ∀ during, bulk_valid r1 during = true → Resume 3 ∉ during →
       let r2 := bulk_run r1 during in
       ∃ b, (bulk_turn r2 (Resume 3)).2 = Some (Found (Some b))
         ∧ answers (ms_Coll (store [])) second_writes during r1 r2 "a" b)).
Proof.
  pose proof (bulk_hides_only_in_flight (store []) 2 (5 * second) (100 * second) second_writes 3 "a"
    eq_refl ltac:(vm_compute; reflexivity)) as Hw.
  split; [vm_compute; reflexivity|exact Hw].
Defined.

Definition buffered : BulkStore MongoStore :=
  with_batch (NewBulkStore (store [true]) 50 0 0) [lead_of "a" "new" 1; lead_of "b" "new" 2].

Lemma bulk_flush_loses_witness :
  let '(ok, b') := bulk_Flush 0 buffered in
  ok = false ∧ bk_batch b' = [] ∧ ms_Coll (bk_inner b') = ms_Coll (bk_inner buffered)
  ∧ bulk_Exists (hash_of (lead_of "b" "new" 2)) b' = Some false.
Proof.
  apply (bulk_flush_loses buffered 0 [] (lead_of "b" "new" 2)); [done| |done].
  apply list_elem_of_In. simpl. tauto.
Defined.
End LeadStoreExamples.
