(* ===== verification/WarmPath.v ===== *)
(** The warm path ([internal/warmpath/]: service.go, prescan.go, cluster.go, lead.go,
    pending.go, mongo_adapters.go, event.go, capturer.go): accepted leads wait in a buffer and
    are analysed in batches; each answer of the model becomes a patch of the stored lead.

    The dependencies of the service answer as functions of the calls made so far, which the
    state records in order, so they may answer differently each time.  Metrics and logs are
    not modelled. *)
From S2P Require Import Prelude Unicode GoStrings TextFacts Registry Scoring Outreach.
From S2P Require Import Extract Item Hashes Entity EntityDoc Gemini LeadBatch LeadStore.
From S2P Require Import Effects.
From Stdlib Require Import SpecFloat.

Local Open Scope Z_scope.
Local Open Scope eff_scope.

(** ** Events *)

Record Event := {
  ev_HashID : string; ev_RoundID : string; ev_Source : string; ev_Title : string;
  ev_Snippet : string; ev_Contacts : list string; ev_ContactTypes : list string;
  ev_Stack : list string; ev_Score : Z; ev_Priority : string; ev_Matched : list string;
  ev_Domain : string; ev_RDAPCountry : string; ev_DomainAgeDays : Z; ev_DisplayName : string;
  ev_EntityID : string; ev_EntityHeat : spec_float; ev_HeatTier : string;
  ev_InlineICP : string; ev_PostedAt : Time; ev_DisplacementTier : string;
  ev_EngagePriority : Z; ev_TS : Time }.

(** What the capturer of the queue makes of an event; [now] is the clock. *)
Definition prepareEvent (now : Time) (e : Event) : Event := {|
  ev_HashID := ev_HashID e; ev_RoundID := ev_RoundID e; ev_Source := ev_Source e;
  ev_Title := ev_Title e;
  ev_Snippet := Quota.Truncate (Join (Fields (ev_Snippet e)) " ") 500;
  ev_Contacts := ev_Contacts e; ev_ContactTypes := ev_ContactTypes e; ev_Stack := ev_Stack e;
  ev_Score := ev_Score e; ev_Priority := ev_Priority e; ev_Matched := ev_Matched e;
  ev_Domain := ev_Domain e; ev_RDAPCountry := ev_RDAPCountry e;
  ev_DomainAgeDays := ev_DomainAgeDays e; ev_DisplayName := ev_DisplayName e;
  ev_EntityID := ev_EntityID e; ev_EntityHeat := ev_EntityHeat e; ev_HeatTier := ev_HeatTier e;
  ev_InlineICP := ev_InlineICP e; ev_PostedAt := ev_PostedAt e;
  ev_DisplacementTier := ev_DisplacementTier e; ev_EngagePriority := ev_EngagePriority e;
  ev_TS := if is_zero_time (ev_TS e) then now else ev_TS e |}.

Definition formatted_contact (c : StoredContact) : Contact := MkContact (st_Type c) (st_Value c).

Definition storedContactsFormatted (contacts : list StoredContact) : list string * list string :=
  (FormatAll (formatted_contact <$> contacts),
   List.filter (λ t, negb (String.eqb t estr)) (st_Type <$> contacts)).

(** The event of a stored lead; [Domain], [PostedAt], [DisplacementTier] and
    [EngagePriority] stay zero. *)
Definition EventFromLeadDoc (doc : Doc) : Event :=
  let '(contacts, types) := storedContactsFormatted (get_contacts "contacts" doc) in {|
  ev_HashID := get_str "hash_id" doc; ev_RoundID := get_str "round_id" doc;
  ev_Source := get_str "source" doc; ev_Title := get_str "title" doc;
  ev_Snippet := get_str "snippet" doc; ev_Contacts := contacts; ev_ContactTypes := types;
  ev_Stack := get_strs "stack" doc; ev_Score := get_int "score" doc;
  ev_Priority := get_str "priority" doc; ev_Matched := get_strs "matched" doc;
  ev_Domain := estr; ev_RDAPCountry := get_str "whois_country" doc;
  ev_DomainAgeDays := get_int "domain_age_days" doc;
  ev_DisplayName := get_str "display_name" doc; ev_EntityID := get_str "entity_id" doc;
  ev_EntityHeat := get_double "entity_heat" doc; ev_HeatTier := get_str "heat_tier" doc;
  ev_InlineICP := get_str "icp" doc; ev_PostedAt := zero_time; ev_DisplacementTier := estr;
  ev_EngagePriority := 0; ev_TS := get_time "ts" doc |}.

(** Names of priorities and tiers that reach the scoring functions; a name they do not know
    is treated as the lowest. *)
Definition priority_of (name : string) : Priority :=
  if String.eqb name "High" then PriorityHigh
  else if String.eqb name "Medium" then PriorityMedium else PriorityLow.
Definition tier_of (name : string) : DisplacementTier :=
  if String.eqb name "hot" then DisplacementHot
  else if String.eqb name "warm" then DisplacementWarm else DisplacementNone.

(** ** Configuration *)

Record Config := {
  cf_AnalyzeInterval : Duration; cf_BatchSize : Z; cf_EngageEnabled : bool;
  cf_EnrichEnabled : bool; cf_PilotTagEnabled : bool; cf_GeoBlockCountries : list string;
  cf_GeoClassifyEnabled : bool; cf_CRMWebhook : bool; cf_CRMWebhookAfterAnalysis : bool;
  cf_RetryMaxAttempts : Z; cf_RetryBaseDelay : Duration; cf_PendingRescanInterval : Duration;
  cf_PendingStaleAge : Duration; cf_ShutdownDrainTimeout : Duration;
  cf_EngageMediumEnabled : bool; cf_EngageBatchSize : Z; cf_TimeDecayEnabled : bool;
  cf_ChannelTriageEnabled : bool; cf_BatchEngageEnabled : bool; cf_BatchEnrichEnabled : bool }.

(** [worker.IntOr] and [worker.DurationOr]. *)
Definition int_or (v def : Z) : Z := if v <=? 0 then def else v.

(** The defaults of [NewService]. *)
Definition with_defaults (c : Config) : Config := {|
  cf_AnalyzeInterval := int_or (cf_AnalyzeInterval c) (5 * minute);
  cf_BatchSize := int_or (cf_BatchSize c) 15; cf_EngageEnabled := cf_EngageEnabled c;
  cf_EnrichEnabled := cf_EnrichEnabled c; cf_PilotTagEnabled := cf_PilotTagEnabled c;
  cf_GeoBlockCountries := match cf_GeoBlockCountries c with [] => ["RU"; "BY"] | l => l end;
  cf_GeoClassifyEnabled := cf_GeoClassifyEnabled c; cf_CRMWebhook := cf_CRMWebhook c;
  cf_CRMWebhookAfterAnalysis := cf_CRMWebhookAfterAnalysis c;
  cf_RetryMaxAttempts := int_or (cf_RetryMaxAttempts c) 3;
  cf_RetryBaseDelay := int_or (cf_RetryBaseDelay c) (5 * second);
  cf_PendingRescanInterval := int_or (cf_PendingRescanInterval c) (5 * minute);
  cf_PendingStaleAge := int_or (cf_PendingStaleAge c) hour;
  cf_ShutdownDrainTimeout := int_or (cf_ShutdownDrainTimeout c) (2 * minute);
  cf_EngageMediumEnabled := cf_EngageMediumEnabled c; cf_EngageBatchSize := cf_EngageBatchSize c;
  cf_TimeDecayEnabled := cf_TimeDecayEnabled c;
  cf_ChannelTriageEnabled := cf_ChannelTriageEnabled c;
  cf_BatchEngageEnabled := cf_BatchEngageEnabled c;
  cf_BatchEnrichEnabled := cf_BatchEnrichEnabled c |}.

(** ** What the service tells the CRM ([lead.go]) *)

(** The fields of [model.Lead] that [leadForCRM] sets. *)
Record CRMLead := {
  cl_TS : Time; cl_RoundID : string; cl_HashID : string; cl_Priority : string; cl_Score : Z;
  cl_Source : string; cl_Title : string; cl_Contacts : list string; cl_Matched : list string;
  cl_Snippet : string; cl_ICP : string; cl_Hot : bool; cl_SpendTier : string; cl_ICPWhy : string;
  cl_GeoCountry : string; cl_CompanyCountry : string; cl_CompanyName : string;
  cl_GeoSignals : list string; cl_GeoWhy : string; cl_WhoisCountry : string;
  cl_DomainAgeDays : Z; cl_DisplayName : string; cl_Stack : list string; cl_Status : string;
  cl_AnalysisStatus : string; cl_PilotQualified : bool; cl_PilotWhy : string;
  cl_Tags : list string; cl_OutreachChannel : string; cl_OutreachSubject : string;
  cl_OutreachAngle : string; cl_OutreachDraft : string; cl_CompanyType : string;
  cl_EnrichSummary : string; cl_GeoConfidence : string; cl_EntityID : string;
  cl_EntityHeat : spec_float; cl_HeatTier : string; cl_ContactQuality : string;
  cl_ContactChannel : string; cl_NextAction : string }.

Definition leadForCRM (now : Time) (e : Event) (p : LeadAnalysisPatch) : CRMLead :=
  let v := pa_Verdict p in
  let pilot := pa_Pilot p in {|
  cl_TS := if is_zero_time (ev_TS e) then now else ev_TS e; cl_RoundID := ev_RoundID e;
  cl_HashID := ev_HashID e; cl_Priority := vd_Priority v; cl_Score := vd_Score v;
  cl_Source := ev_Source e; cl_Title := ev_Title e; cl_Contacts := ev_Contacts e;
  cl_Matched := ev_Matched e; cl_Snippet := ev_Snippet e; cl_ICP := vd_ICP v; cl_Hot := vd_Hot v;
  cl_SpendTier := vd_SpendTier v; cl_ICPWhy := vd_ICPWhy v; cl_GeoCountry := vd_GeoCountry v;
  cl_CompanyCountry := vd_CompanyCountry v; cl_CompanyName := vd_CompanyName v;
  cl_GeoSignals := vd_GeoSignals v; cl_GeoWhy := vd_GeoWhy v;
  cl_WhoisCountry := ev_RDAPCountry e; cl_DomainAgeDays := ev_DomainAgeDays e;
  cl_DisplayName := ev_DisplayName e; cl_Stack := ev_Stack e;
  cl_Status := if String.eqb (pa_Status p) estr then "new" else pa_Status p;
  cl_AnalysisStatus := pa_AnalysisStatus p; cl_PilotQualified := pl_PilotQualified pilot;
  cl_PilotWhy := pl_PilotWhy pilot; cl_Tags := pa_Tags p;
  cl_OutreachChannel := pl_OutreachChannel pilot; cl_OutreachSubject := pl_OutreachSubject pilot;
  cl_OutreachAngle := pl_OutreachAngle pilot; cl_OutreachDraft := pl_OutreachDraft pilot;
  cl_CompanyType := sy_CompanyType (pa_Synth p);
  cl_EnrichSummary := sy_EnrichSummary (pa_Synth p);
  cl_GeoConfidence := sy_GeoConfidence (pa_Synth p); cl_EntityID := ev_EntityID e;
  cl_EntityHeat := ev_EntityHeat e; cl_HeatTier := ev_HeatTier e;
  cl_ContactQuality := qu_ContactQuality (pa_Queue p);
  cl_ContactChannel := qu_ContactChannel (pa_Queue p); cl_NextAction := qu_NextAction (pa_Queue p) |}.

(** ** Calls and dependencies *)

Inductive call :=
  | EvaluateSpam (text : string)
  | CheckDuplicate (hash text : string)
  | RecordCluster (hash text : string)
  | Patch (p : LeadAnalysisPatch) (ok : bool)
  | InsertJunk (e : Event) (reason : string)
  | DisableChannel (source : string)
  | ClassifyEngagement (i : EngagementInput)
  | Notify (lead : CRMLead)
  | Analyze (inputs : list LeadBatchInput) (ok : bool)
  | Wait (d : Duration)
  | InsertDLQ (batch : list Event) (attempts : Z)
  | Spill (batch : list Event) (geoClassify : bool) (ok : bool)
  | ListPending.

(** [dp_cancelled] is the case the [select] after a failed attempt takes. *)
Record Deps := {
  dp_registry : option Registry;
  dp_now : list call → Time;
  dp_patch : list call → LeadAnalysisPatch → bool;
  dp_analyze : list call → list LeadBatchInput → LeadBatchOptions → option (list LeadBatchResult);
  dp_cancelled : list call → bool;
  dp_prescan : option (list call → string → option bool);
  dp_cluster : option (list call → string → string → option (bool * string));
  dp_junk : bool;
  dp_dlq : bool;
  dp_engageMedium : option (list call → EngagementInput → option EngagementResult);
  dp_spill : option (list call → list Event → bool);
  dp_pending : option (list call → option (list Event)) }.

Record Service := { sv_buffer : list Event; sv_calls : list call }.

(** A nil registry that is dereferenced, or a negative slice bound. *)
Inductive panic := Panics.
Abbreviation Act := (eff Service panic).

Definition record (c : call) : Act unit :=
  modify (λ s, {| sv_buffer := sv_buffer s; sv_calls := sv_calls s ++ [c] |}).
Definition set_buffer (b : list Event) : Act unit :=
  modify (λ s, {| sv_buffer := b; sv_calls := sv_calls s |}).

(** A call with its answer. *)
Definition ask {A} (answer : list call → A) (c : A → call) : Act A :=
  let! s := get_state in
  let a := answer (sv_calls s) in
  record (c a) ;;! done a.

Section service.
Context (cfg : Config) (d : Deps).

Definition patch_lead (p : LeadAnalysisPatch) : Act bool := ask (λ t, dp_patch d t p) (Patch p).

(** ** The buffer *)

Definition takeBatch : Act (list Event) :=
  let! s := get_state in
  match sv_buffer s with
  | [] => done []
  | buffer =>
      if cf_BatchSize cfg <? 0 then exit_with Panics
      else
        let n := Nat.min (Z.to_nat (cf_BatchSize cfg)) (length buffer) in
        set_buffer (drop n buffer) ;;! done (take n buffer)
  end.

Definition requeueFront (batch : list Event) : Act unit :=
  if is_empty batch then done tt
  else let! s := get_state in set_buffer (batch ++ sv_buffer s).

(** The events whose hash is set and new, in order. *)
Fixpoint new_events (existing : gset string) (events : list Event) : list Event :=
  match events with
  | [] => []
  | e :: rest =>
      if String.eqb (ev_HashID e) estr then new_events existing rest
      else if decide (ev_HashID e ∈ existing) then new_events existing rest
      else e :: new_events ({[ev_HashID e]} ∪ existing) rest
  end.

Definition buffered_hashes (buffer : list Event) : gset string :=
  list_to_set (List.filter (λ h, negb (String.eqb h estr)) (ev_HashID <$> buffer)).

Definition enqueueDedupe (events : list Event) : Act Z :=
  if is_empty events then done 0
  else
    let! s := get_state in
    let fresh := new_events (buffered_hashes (sv_buffer s)) events in
    set_buffer (sv_buffer s ++ fresh) ;;! done (Z.of_nat (length fresh)).

(** ** Filters before the analysis *)

Definition rejectWarmPrescanSpam (e : Event) : Act unit :=
  let! _ := patch_lead (status_patch (ev_HashID e) "warm_prescan_spam" "junk" estr) in
  if dp_junk d then record (InsertJunk e "warm_prescan_spam") else done tt.

Fixpoint prescan_events (prescan : list call → string → option bool) (batch : list Event)
    : Act (list Event) :=
  match batch with
  | [] => done []
  | e :: rest =>
      let text := TrimSpace (ev_Snippet e) in
      if String.eqb text estr then let! out := prescan_events prescan rest in done (e :: out)
      else
        let! verdict := ask (λ t, prescan t text) (λ _, EvaluateSpam text) in
        match verdict with
        | Some true => rejectWarmPrescanSpam e ;;! prescan_events prescan rest
        | _ => let! out := prescan_events prescan rest in done (e :: out)
        end
  end.

Definition filterWarmPrescan (batch : list Event) : Act (list Event) :=
  match dp_prescan d with Some prescan => prescan_events prescan batch | None => done batch end.

Fixpoint cluster_events (cluster : list call → string → string → option (bool * string))
    (batch : list Event) : Act (list Event) :=
  match batch with
  | [] => done []
  | e :: rest =>
      if negb (MeetsMinPriority (priority_of (ev_Priority e)) PriorityMedium)
      then let! out := cluster_events cluster rest in done (e :: out)
      else
        let! answer := ask (λ t, cluster t (ev_HashID e) (ev_Snippet e))
                           (λ _, CheckDuplicate (ev_HashID e) (ev_Snippet e)) in
        match answer with
        | Some (true, clusterOf) =>
            let! _ := patch_lead (status_patch (ev_HashID e) "duplicate" "duplicate" clusterOf) in
            cluster_events cluster rest
        | _ => let! out := cluster_events cluster rest in done (e :: out)
        end
  end.

Definition filterWarmCluster (batch : list Event) : Act (list Event) :=
  match dp_cluster d with Some cluster => cluster_events cluster batch | None => done batch end.

(** ** Applying an answer *)

Definition geo_signals (g : GeoResult) : list string :=
  geo_RegistrationSignals g ++ geo_RUBYSignals g.

Definition geo_rejects (res : LeadBatchResult) : bool :=
  cf_GeoClassifyEnabled cfg && ShouldReject (lr_Geo res) (cf_GeoBlockCountries cfg).

Definition with_verdict (p : LeadAnalysisPatch) (v : PatchVerdict) : LeadAnalysisPatch := {|
  pa_HashID := pa_HashID p; pa_AnalysisStatus := pa_AnalysisStatus p; pa_Status := pa_Status p;
  pa_DuplicateOf := pa_DuplicateOf p; pa_Verdict := v; pa_Tags := pa_Tags p;
  pa_Pilot := pa_Pilot p; pa_Synth := pa_Synth p; pa_Queue := pa_Queue p;
  pa_DisplacementTier := pa_DisplacementTier p; pa_Stale := pa_Stale p |}.

Definition geo_reject_patch (e : Event) (res : LeadBatchResult) : LeadAnalysisPatch :=
  let g := lr_Geo res in
  with_verdict (status_patch (ev_HashID e) "geo_rejected" "geo_rejected" estr) {|
    vd_Priority := estr; vd_Score := 0; vd_ICP := estr; vd_Hot := false; vd_SpendTier := estr;
    vd_ICPWhy := estr; vd_GeoCountry := geo_PersonCountry g;
    vd_CompanyCountry := geo_CompanyCountry g; vd_CompanyName := geo_CompanyName g;
    vd_GeoSignals := geo_signals g; vd_GeoWhy := geo_Why g |}.

Definition icp_reject_patch (e : Event) (res : LeadBatchResult) (score : Z) (priority : string)
    : LeadAnalysisPatch :=
  with_verdict (status_patch (ev_HashID e) "icp_rejected" "icp_rejected" estr) {|
    vd_Priority := priority; vd_Score := score; vd_ICP := icp_ICP (lr_ICP res); vd_Hot := false;
    vd_SpendTier := estr; vd_ICPWhy := icp_Why (lr_ICP res); vd_GeoCountry := estr;
    vd_CompanyCountry := estr; vd_CompanyName := estr; vd_GeoSignals := []; vd_GeoWhy := estr |}.

(** Score and priority after the time decay; without a registry the decay panics. *)
Definition decayed (now : Time) (e : Event) : option (Z * string) :=
  if cf_TimeDecayEnabled cfg && negb (is_zero_time (ev_PostedAt e)) then
    match dp_registry d with
    | None => None
    | Some reg =>
        let score := ApplyTimeDecay (ev_Score e) (ev_PostedAt e) now in
        Some (score, priority_name (PriorityFromScore reg score))
    end
  else Some (ev_Score e, ev_Priority e).

Definition bumped (res : LeadBatchResult) (p : Priority) : Priority :=
  match p with
  | PriorityMedium => if icp_Hot (lr_ICP res) then PriorityHigh else PriorityMedium
  | p => p
  end.

Definition is_low (p : Priority) : bool := match p with PriorityLow => true | _ => false end.
Definition not_icp (res : LeadBatchResult) : bool :=
  String.eqb (icp_ICP (lr_ICP res)) "none" && negb (icp_Hot (lr_ICP res)).

Definition computeResultPriority (now : Time) (e : Event) (res : LeadBatchResult) (highMin : Z)
    : option string :=
  match decayed now e with
  | None => None
  | Some (score, priority) =>
      match dp_registry d with
      | None => Some priority
      | Some reg =>
          let score := (ApplyICPToScore score (lr_ICP res) highMin).1 in
          Some (priority_name (bumped res (PriorityFromScore reg score)))
      end
  end.

(** The patch of an analysed lead. *)
Definition base_patch (e : Event) (res : LeadBatchResult) (finalize : bool) (score : Z)
    (priority : string) : LeadAnalysisPatch :=
  let icp := lr_ICP res in
  let g := lr_Geo res in
  let p := with_verdict (status_patch (ev_HashID e) (if finalize then "done" else "pending") estr estr) {|
    vd_Priority := priority; vd_Score := score; vd_ICP := icp_ICP icp; vd_Hot := icp_Hot icp;
    vd_SpendTier := icp_SpendTier icp; vd_ICPWhy := icp_Why icp;
    vd_GeoCountry := geo_PersonCountry g; vd_CompanyCountry := geo_CompanyCountry g;
    vd_CompanyName := geo_CompanyName g; vd_GeoSignals := geo_signals g; vd_GeoWhy := geo_Why g |} in
  let engageOn := cf_EngageEnabled cfg || (finalize && cf_BatchEngageEnabled cfg) in
  let enrichOn := cf_EnrichEnabled cfg || (finalize && cf_BatchEnrichEnabled cfg) in
  let high := String.eqb priority "High" in
  let eng := lr_Engagement res in
  let enr := lr_Enrichment res in
  let pilot := cf_PilotTagEnabled cfg && high && engageOn in {|
  pa_HashID := pa_HashID p; pa_AnalysisStatus := pa_AnalysisStatus p; pa_Status := pa_Status p;
  pa_DuplicateOf := pa_DuplicateOf p; pa_Verdict := pa_Verdict p;
  pa_Tags := if pilot then lr_PilotTags res else [];
  pa_Pilot := if pilot then {|
      pl_PilotQualified := lr_PilotQualified res; pl_PilotWhy := er_PilotWhy eng;
      pl_OutreachChannel := er_OutreachChannel eng; pl_OutreachSubject := er_OutreachSubject eng;
      pl_OutreachAngle := er_OutreachAngle eng; pl_OutreachDraft := er_OutreachDraft eng |}
    else no_pilot;
  pa_Synth := if enrichOn && high then {|
      sy_CompanyType := es_CompanyType enr; sy_EnrichSummary := es_Summary enr;
      sy_GeoConfidence := es_GeoConfidence enr |}
    else no_synth;
  pa_Queue := {| qu_ContactChannel := estr; qu_NextAction := estr;
                 qu_ContactQuality := ScoreContactQuality (ev_Contacts e); qu_EngagePriority := 0 |};
  pa_DisplacementTier := estr; pa_Stale := false |}.

Definition with_angle (p : LeadAnalysisPatch) (angle : string) : LeadAnalysisPatch := {|
  pa_HashID := pa_HashID p; pa_AnalysisStatus := pa_AnalysisStatus p; pa_Status := pa_Status p;
  pa_DuplicateOf := pa_DuplicateOf p; pa_Verdict := pa_Verdict p; pa_Tags := pa_Tags p;
  pa_Pilot := {| pl_PilotQualified := pl_PilotQualified (pa_Pilot p);
    pl_PilotWhy := pl_PilotWhy (pa_Pilot p); pl_OutreachChannel := pl_OutreachChannel (pa_Pilot p);
    pl_OutreachSubject := pl_OutreachSubject (pa_Pilot p); pl_OutreachAngle := angle;
    pl_OutreachDraft := pl_OutreachDraft (pa_Pilot p) |};
  pa_Synth := pa_Synth p; pa_Queue := pa_Queue p;
  pa_DisplacementTier := pa_DisplacementTier p; pa_Stale := pa_Stale p |}.

(** A lite outreach angle for a Medium lead of a warm entity. *)
Definition engage_medium (e : Event) (priority : string) (p : LeadAnalysisPatch)
    : Act LeadAnalysisPatch :=
  if cf_EngageMediumEnabled cfg && String.eqb priority "Medium"
     && HeatTierMeetsMin (ev_HeatTier e) HeatTierWarm then
    match dp_engageMedium d with
    | None => done p
    | Some engage =>
        let i := {| ei_Text := ev_Snippet e; ei_Stack := ev_Stack e; ei_ICP := estr;
                    ei_SpendTier := estr; ei_Hot := false; ei_ContactTypes := ev_ContactTypes e;
                    ei_Source := estr |} in
        let! answer := ask (λ t, engage t i) (λ _, ClassifyEngagement i) in
        match answer with
        | Some r =>
            if String.eqb (er_OutreachAngle r) estr then done p
            else done (with_angle p (er_OutreachAngle r))
        | None => done p
        end
    end
  else done p.

(** The outreach queue of the lead. *)
Definition queued_patch (e : Event) (score : Z) (priority : string) (p : LeadAnalysisPatch)
    : LeadAnalysisPatch :=
  let '(ch, action) := AssignOutreachQueue (ev_Contacts e) (pl_OutreachChannel (pa_Pilot p)) in
  let engage := ComputeEngagePriority {|
    ep_Priority := priority_of priority; ep_Score := score;
    ep_DisplacementTier := tier_of (ev_DisplacementTier e);
    ep_PilotQualified := pl_PilotQualified (pa_Pilot p); ep_Stack := ev_Stack e;
    ep_EntityHeat := ev_EntityHeat e; ep_ContactQuality := qu_ContactQuality (pa_Queue p);
    ep_HasEngageDraft := negb (String.eqb (TrimSpace (pl_OutreachDraft (pa_Pilot p))) estr);
    ep_SourceFamily := ev_Source e |} in {|
  pa_HashID := pa_HashID p; pa_AnalysisStatus := pa_AnalysisStatus p; pa_Status := pa_Status p;
  pa_DuplicateOf := pa_DuplicateOf p; pa_Verdict := pa_Verdict p; pa_Tags := pa_Tags p;
  pa_Pilot := pa_Pilot p; pa_Synth := pa_Synth p;
  pa_Queue := {| qu_ContactChannel := ch; qu_NextAction := action;
                 qu_ContactQuality := qu_ContactQuality (pa_Queue p);
                 qu_EngagePriority := if engage <? ev_EngagePriority e then ev_EngagePriority e
                                      else engage |};
  pa_DisplacementTier := ev_DisplacementTier e; pa_Stale := pa_Stale p |}.

Definition duplicate_patch (p : LeadAnalysisPatch) (clusterOf : string) : LeadAnalysisPatch := {|
  pa_HashID := pa_HashID p; pa_AnalysisStatus := "duplicate"; pa_Status := "duplicate";
  pa_DuplicateOf := clusterOf; pa_Verdict := pa_Verdict p; pa_Tags := pa_Tags p;
  pa_Pilot := pa_Pilot p; pa_Synth := pa_Synth p; pa_Queue := pa_Queue p;
  pa_DisplacementTier := pa_DisplacementTier p; pa_Stale := pa_Stale p |}.

(** The duplicate check of a final High lead: the lead it duplicates. *)
Definition check_cluster (e : Event) (finalize : bool) (priority : string) : Act (option string) :=
  match dp_cluster d with
  | Some cluster =>
      if finalize && MeetsMinPriority (priority_of priority) PriorityHigh then
        let! answer := ask (λ t, cluster t (ev_HashID e) (ev_Snippet e))
                           (λ _, CheckDuplicate (ev_HashID e) (ev_Snippet e)) in
        done (match answer with Some (true, clusterOf) => Some clusterOf | _ => None end)
      else done None
  | None => done None
  end.

Definition notify_crm (e : Event) (finalize : bool) (p : LeadAnalysisPatch) : Act unit :=
  if finalize && cf_CRMWebhook cfg && cf_CRMWebhookAfterAnalysis cfg then
    let! s := get_state in record (Notify (leadForCRM (dp_now d (sv_calls s)) e p))
  else done tt.

Definition record_cluster (e : Event) (finalize : bool) (priority : string) : Act unit :=
  match dp_cluster d with
  | Some _ =>
      if finalize && MeetsMinPriority (priority_of priority) PriorityHigh
      then record (RecordCluster (ev_HashID e) (ev_Snippet e)) else done tt
  | None => done tt
  end.

(** From the patch literal to the end of [applyResultFinalize]. *)
Definition finish_result (e : Event) (res : LeadBatchResult) (finalize : bool) (score : Z)
    (priority : string) : Act unit :=
  let! p := engage_medium e priority (base_patch e res finalize score priority) in
  let p := queued_patch e score priority p in
  let! dup := check_cluster e finalize priority in
  match dup with
  | Some clusterOf => let! _ := patch_lead (duplicate_patch p clusterOf) in done tt
  | None =>
      let! ok := patch_lead p in
      if ok then notify_crm e finalize p ;;! record_cluster e finalize priority else done tt
  end.

Definition reject_icp (e : Event) (res : LeadBatchResult) (score : Z) (priority : string) : Act unit :=
  let! ok := patch_lead (icp_reject_patch e res score priority) in
  if ok && cf_ChannelTriageEnabled cfg then record (DisableChannel (ev_Source e)) else done tt.

Definition applyResultFinalize (e : Event) (res : LeadBatchResult) (highMin : Z)
    (finalize : bool) : Act unit :=
  if geo_rejects res then let! _ := patch_lead (geo_reject_patch e res) in done tt
  else
    let! s := get_state in
    match decayed (dp_now d (sv_calls s)) e with
    | None => exit_with Panics
    | Some (score, priority) =>
        match dp_registry d with
        | None => finish_result e res finalize score priority
        | Some reg =>
            let score := (ApplyICPToScore score (lr_ICP res) highMin).1 in
            let priority := PriorityFromScore reg score in
            if not_icp res && is_low priority
            then reject_icp e res score (priority_name priority)
            else finish_result e res finalize score (priority_name (bumped res priority))
        end
    end.

Definition applyResult (e : Event) (res : LeadBatchResult) (highMin : Z) : Act unit :=
  applyResultFinalize e res highMin true.
Definition applyResultPending (e : Event) (res : LeadBatchResult) (highMin : Z) : Act unit :=
  applyResultFinalize e res highMin false.

Definition highMinFromReg : Z := match dp_registry d with None => 0 | Some reg => highMin reg end.

(** ** A batch *)

Definition lead_input (e : Event) : LeadBatchInput := {|
  li_ID := ev_HashID e; li_Source := ev_Source e; li_Priority := ev_Priority e;
  li_Score := ev_Score e; li_Snippet := ev_Snippet e; li_Contacts := ev_Contacts e;
  li_ContactTypes := ev_ContactTypes e; li_Stack := ev_Stack e; li_Domain := ev_Domain e;
  li_RDAPCountry := ev_RDAPCountry e; li_DomainAgeDays := ev_DomainAgeDays e;
  li_DisplayName := ev_DisplayName e; li_BlockedCountries := cf_GeoBlockCountries cfg |}.

Definition index_events (batch : list Event) : gmap string Event :=
  foldl (λ m e, <[ev_HashID e := e]> m) ∅ batch.

(** The answers about leads of the batch, in order. *)
Fixpoint apply_results (byID : gmap string Event) (results : list LeadBatchResult) : Act unit :=
  match results with
  | [] => done tt
  | res :: rest =>
      match byID !! lr_HashID res with
      | None => apply_results byID rest
      | Some e => applyResult e res highMinFromReg ;;! apply_results byID rest
      end
  end.

Definition batch_options : LeadBatchOptions := {|
  lo_GeoClassify := cf_GeoClassifyEnabled cfg; lo_Engage := cf_EngageEnabled cfg;
  lo_Enrich := cf_EnrichEnabled cfg; lo_EngageBatchSize := cf_EngageBatchSize cfg |}.

Definition max_attempts : Z := if cf_RetryMaxAttempts cfg <? 1 then 1 else cf_RetryMaxAttempts cfg.

(** The attempts of the analysis; [more] are those after this one. *)
Fixpoint analyze_attempts (more : nat) (delay : Duration) (batch : list Event) : Act unit :=
  let inputs := lead_input <$> batch in
  let! answer := ask (λ t, dp_analyze d t inputs batch_options)
                     (λ r, Analyze inputs (match r with Some _ => true | None => false end)) in
  match answer with
  | Some results => apply_results (index_events batch) results
  | None =>
      match more with
      | O => if dp_dlq d then record (InsertDLQ batch max_attempts) else done tt
      | S more =>
          let! s := get_state in
          if dp_cancelled d (sv_calls s) then requeueFront batch
          else record (Wait delay) ;;! analyze_attempts more (wrap64 (delay * 2)) batch
      end
  end.

Definition processBatch (batch : list Event) : Act unit :=
  let! batch := filterWarmPrescan batch in
  let! batch := filterWarmCluster batch in
  if is_empty batch then done tt
  else
    match dp_spill d with
    | Some spill =>
        let! ok := ask (λ t, spill t batch) (Spill batch (cf_GeoClassifyEnabled cfg)) in
        if ok then done tt else requeueFront batch
    | None => analyze_attempts (Z.to_nat (max_attempts - 1)) (cf_RetryBaseDelay cfg) batch
    end.

Definition flush : Act unit :=
  let! batch := takeBatch in
  if is_empty batch then done tt else processBatch batch.

(** The loop of the shutdown, at most [fuel] rounds; whether it returned. *)
Fixpoint flushAll (fuel : nat) : Act bool :=
  match fuel with
  | O => done false
  | S fuel =>
      let! batch := takeBatch in
      if is_empty batch then done true else processBatch batch ;;! flushAll fuel
  end.

Definition rescanPending : Act unit :=
  match dp_pending d with
  | None => done tt
  | Some pending =>
      let! answer := ask (λ t, pending t) (λ _, ListPending) in
      match answer with
      | None | Some [] => done tt
      | Some events => let! _ := enqueueDedupe events in done tt
      end
  end.

Definition ingest (e : Event) : Act unit := let! _ := enqueueDedupe [e] in done tt.

Definition DeferredCRMWebhook : bool := cf_CRMWebhookAfterAnalysis cfg && cf_CRMWebhook cfg.
End service.
