(* ===== verification/WarmLogic.v ===== *)
(** Reasoning about the warm path: what a computation of the service adds to the record of
    calls, the single patch of an answer, and the contract of the CRM webhook. *)
From S2P Require Import Prelude Unicode GoStrings TextFacts Registry Scoring Outreach.
From S2P Require Import Item Entity EntityDoc Gemini LeadBatch LeadStore Effects WarmPath.

Local Open Scope Z_scope.
Local Open Scope eff_scope.

(** ** Computations that only make calls *)

Definition extend (s : Service) (new : list call) : Service :=
  {| sv_buffer := sv_buffer s; sv_calls := sv_calls s ++ new |}.

Lemma extend_nil s : extend s [] = s.
Proof. destruct s. unfold extend. simpl. by rewrite app_nil_r. Qed.
Lemma extend_extend s n1 n2 : extend (extend s n1) n2 = extend s (n1 ++ n2).
Proof. unfold extend. simpl. by rewrite app_assoc. Qed.

(** From any state, [m] leaves the buffer alone and ends in a value; [Q] relates it to the
    new calls. *)
Definition emits {A} (m : Act A) (Q : A → list call → Prop) : Prop :=
  ∀ s, ∃ a new, m s = (inl a, extend s new) ∧ Q a new.

Lemma emits_done {A} (a : A) (Q : A → list call → Prop) : Q a [] → emits (done a) Q.
Proof. intros HQ s. exists a, []. by rewrite extend_nil. Qed.

Lemma emits_record c (Q : unit → list call → Prop) : Q tt [c] → emits (record c) Q.
Proof. intros HQ s. by exists tt, [c]. Qed.

Lemma emits_bind {A B} (m : Act A) (k : A → Act B) Q1 Q :
  emits m Q1 → (∀ a new, Q1 a new → emits (k a) (λ b new', Q b (new ++ new'))) →
  emits (seq_eff m k) Q.
Proof.
  intros Hm Hk s. destruct (Hm s) as (a & new & E & HQ1).
  destruct (Hk a new HQ1 (extend s new)) as (b & new' & E' & HQ).
  exists b, (new ++ new'). unfold seq_eff. by rewrite E, E', extend_extend.
Qed.

Lemma emits_get {A} (k : Service → Act A) Q :
  (∀ s0, emits (k s0) Q) → emits (seq_eff get_state k) Q.
Proof. intros Hk s. apply (Hk s s). Qed.

Lemma emits_ask {A} (answer : list call → A) c (Q : A → list call → Prop) :
  (∀ a, Q a [c a]) → emits (ask answer c) Q.
Proof. intros HQ. apply emits_get. intros s0. intros s. by exists (answer (sv_calls s0)), [c (answer (sv_calls s0))]. Qed.

Lemma emits_mono {A} (m : Act A) (Q Q' : A → list call → Prop) :
  (∀ a new, Q a new → Q' a new) → emits m Q → emits m Q'.
Proof. intros HQ Hm s. destruct (Hm s) as (a & new & E & H). eauto. Qed.

(** ** What the calls amount to *)

Definition patches (t : list call) : list (LeadAnalysisPatch * bool) :=
  omap (λ c, match c with Patch p ok => Some (p, ok) | _ => None end) t.
Definition notified (t : list call) : list CRMLead :=
  omap (λ c, match c with Notify l => Some l | _ => None end) t.

(** Calls that neither patch nor notify. *)
Definition quiet (t : list call) : Prop := patches t = [] ∧ notified t = [].

Lemma patches_app t1 t2 : patches (t1 ++ t2) = patches t1 ++ patches t2.
Proof. apply omap_app. Qed.
Lemma notified_app t1 t2 : notified (t1 ++ t2) = notified t1 ++ notified t2.
Proof. apply omap_app. Qed.
Lemma quiet_app t1 t2 : quiet t1 → quiet t2 → quiet (t1 ++ t2).
Proof. unfold quiet. rewrite patches_app, notified_app. by intros [-> ->] [-> ->]. Qed.
Lemma quiet_nil : quiet [].
Proof. done. Qed.

(** ** The patch of an answer *)

Section answer.
Context (cfg : Config) (d : Deps).

(** The patch [p] of an answer about [e], which succeeded or not, between calls that do not
    patch; the CRM is told after it, if at all. *)
Record one_patch (e : Event) (finalize : bool) (p : LeadAnalysisPatch) (new : list call) : Prop := {
  op_hash : pa_HashID p = ev_HashID e;
  op_calls : ∃ pre ok post, new = pre ++ Patch p ok :: post ∧ quiet pre ∧ patches post = []
    ∧ if ok && finalize && String.eqb (pa_AnalysisStatus p) "done"
         && (cf_CRMWebhook cfg && cf_CRMWebhookAfterAnalysis cfg)
      then ∃ now rest, post = Notify (leadForCRM now e p) :: rest ∧ notified rest = []
      else notified post = [] }.

Lemma engage_medium_emits e priority p :
  emits (engage_medium cfg d e priority p)
    (λ p' new, quiet new ∧ pa_HashID p' = pa_HashID p ∧ pa_AnalysisStatus p' = pa_AnalysisStatus p
               ∧ pa_Verdict p' = pa_Verdict p).
Proof.
  unfold engage_medium. destruct (_ && _ && _); [|by apply emits_done].
  destruct (dp_engageMedium d) as [engage|]; [|by apply emits_done]. cbv zeta.
  eapply emits_bind; [by apply (emits_ask _ _ (λ _ new, quiet new))|].
  intros [r|] new Hq; [|by apply emits_done; rewrite app_nil_r].
  destruct (String.eqb _ _); apply emits_done; by rewrite app_nil_r.
Qed.

Lemma check_cluster_emits e finalize priority :
  emits (check_cluster d e finalize priority)
    (λ dup new, quiet new ∧ (is_Some dup → finalize = true)).
Proof.
  assert (Hnone : quiet [] ∧ (is_Some (@None string) → finalize = true)) by (by split; [|intros []]).
  unfold check_cluster. destruct (dp_cluster d) as [cluster|]; [|by apply emits_done].
  destruct finalize; cbn [andb]; [|by apply emits_done].
  destruct (MeetsMinPriority _ _); [|by apply emits_done].
  eapply emits_bind; [by apply (emits_ask _ _ (λ _ new, quiet new))|].
  intros a new Hq. apply emits_done. by rewrite app_nil_r.
Qed.

Lemma notify_crm_emits e finalize p :
  emits (notify_crm cfg d e finalize p)
    (λ _ new, if finalize && (cf_CRMWebhook cfg && cf_CRMWebhookAfterAnalysis cfg)
              then ∃ now, new = [Notify (leadForCRM now e p)] else new = []).
Proof.
  unfold notify_crm. rewrite <- andb_assoc. destruct (_ && (_ && _)); [|by apply emits_done].
  apply emits_get. intros s0. apply emits_record. eauto.
Qed.

Lemma record_cluster_emits e finalize priority :
  emits (record_cluster d e finalize priority) (λ _ new, quiet new).
Proof.
  unfold record_cluster. destruct (dp_cluster d); [|by apply emits_done].
  destruct (_ && _); [by apply emits_record|by apply emits_done].
Qed.

Lemma queued_patch_same e score priority p :
  let p' := queued_patch e score priority p in
  pa_HashID p' = pa_HashID p ∧ pa_AnalysisStatus p' = pa_AnalysisStatus p ∧ pa_Verdict p' = pa_Verdict p.
Proof. unfold queued_patch. by destruct (AssignOutreachQueue _ _). Qed.

(** The status a finished answer may have. *)
Definition final_status (finalize : bool) (status : string) : Prop :=
  status = (if finalize then "done" else "pending") ∨ (finalize = true ∧ status = "duplicate").

Lemma finish_result_emits e res finalize score priority :
  emits (finish_result cfg d e res finalize score priority)
    (λ _ new, ∃ p, one_patch e finalize p new ∧ final_status finalize (pa_AnalysisStatus p)
       ∧ vd_Priority (pa_Verdict p) = priority ∧ vd_Score (pa_Verdict p) = score
       ∧ vd_ICP (pa_Verdict p) = icp_ICP (lr_ICP res)).
Proof.
  unfold finish_result. eapply emits_bind; [apply engage_medium_emits|].
  intros p n1 (Hq1 & Hh & Hs & Hv). cbv zeta.
  destruct (queued_patch_same e score priority p) as (Hh' & Hs' & Hv').
  set (q := queued_patch e score priority p) in *. clearbody q.
  rewrite Hh in Hh'. rewrite Hs in Hs'. rewrite Hv in Hv'. clear Hh Hs Hv.
  eapply emits_bind; [apply check_cluster_emits|]. intros [clusterOf|] n2 [Hq2 Hdup].
  - eapply emits_bind; [by apply (emits_ask _ _ (λ ok new, new = [Patch (duplicate_patch q clusterOf) ok]))|].
    intros ok n3 ->. apply emits_done. rewrite app_nil_r.
    exists (duplicate_patch q clusterOf). split_and!; [|right; split; [by apply Hdup|done]|by simpl; rewrite Hv'..].
    split; [done|]. exists (n1 ++ n2), ok, []. rewrite <- app_assoc. split_and!; try done.
    + by apply quiet_app.
    + by rewrite andb_false_r.
  - eapply emits_bind; [by apply (emits_ask _ _ (λ ok new, new = [Patch q ok]))|].
    intros ok n3 ->. assert (Hop : ∀ post, patches post = [] →
      (if ok && finalize && String.eqb (pa_AnalysisStatus q) "done"
          && (cf_CRMWebhook cfg && cf_CRMWebhookAfterAnalysis cfg)
       then ∃ now rest, post = Notify (leadForCRM now e q) :: rest ∧ notified rest = []
       else notified post = []) →
      ∃ p, one_patch e finalize p (n1 ++ n2 ++ [Patch q ok] ++ post)
        ∧ final_status finalize (pa_AnalysisStatus p) ∧ vd_Priority (pa_Verdict p) = priority
        ∧ vd_Score (pa_Verdict p) = score ∧ vd_ICP (pa_Verdict p) = icp_ICP (lr_ICP res)).
    { intros post Hp Hn. exists q. split_and!; [|by left; rewrite Hs'|by rewrite Hv'..].
      split; [done|]. exists (n1 ++ n2), ok, post. rewrite <- app_assoc. split_and!; try done.
      by apply quiet_app. }
    destruct ok; [|apply emits_done; by apply Hop].
    eapply emits_bind; [apply notify_crm_emits|]. intros [] n4 Hn4. cbv beta in Hn4.
    eapply emits_mono; [|apply record_cluster_emits]. intros [] n5 [Hp5 Hn5]. apply Hop.
    + rewrite patches_app, Hp5, app_nil_r. destruct (finalize && (cf_CRMWebhook cfg && cf_CRMWebhookAfterAnalysis cfg));
        [by destruct Hn4 as [now ->]|by rewrite Hn4].
    + rewrite Hs'. destruct finalize; cbn [andb] in *; [|by rewrite Hn4].
      destruct (cf_CRMWebhook cfg && cf_CRMWebhookAfterAnalysis cfg); cbn [andb];
        [|by rewrite Hn4].
      destruct Hn4 as [now ->]. simpl. eauto.
Qed.
End answer.

(** ** Whole answers *)

Section apply.
Context (cfg : Config) (d : Deps).

(** The decay does not panic. *)
Definition analysable : Prop := dp_registry d ≠ None ∨ cf_TimeDecayEnabled cfg = false.

Lemma decayed_some now e : analysable → ∃ score priority, decayed cfg d now e = Some (score, priority).
Proof.
  unfold analysable, decayed. intros Ha. destruct (_ && _) eqn:E; [|eauto].
  destruct (dp_registry d); [eauto|]. apply andb_true_iff in E as [E _].
  destruct Ha as [Ha|Ha]; congruence.
Qed.

Lemma patch_only e finalize p ok post :
  pa_HashID p = ev_HashID e → pa_AnalysisStatus p ≠ "done" → quiet post →
  one_patch cfg e finalize p (Patch p ok :: post).
Proof.
  intros Hh Hs [Hp Hn]. split; [done|]. exists [], ok, post. split_and!; try done.
  by rewrite (proj2 (String.eqb_neq _ _) Hs), andb_false_r.
Qed.

Lemma reject_icp_emits e finalize res score priority :
  emits (reject_icp cfg d e res score priority)
    (λ _ new, one_patch cfg e finalize (icp_reject_patch e res score priority) new).
Proof.
  unfold reject_icp. eapply emits_bind.
  { by apply (emits_ask _ _ (λ ok new, new = [Patch (icp_reject_patch e res score priority) ok])). }
  intros ok new ->. destruct (_ && _); [apply emits_record|apply emits_done]; by apply patch_only.
Qed.

(** What an answer does: it is the one patch of the lead, a rejection or a result with the
    priority [computeResultPriority] predicts. *)
Definition answer_patch (e : Event) (res : LeadBatchResult) (highMin : Z) (finalize : bool)
    (p : LeadAnalysisPatch) : Prop :=
  if geo_rejects cfg res then p = geo_reject_patch e res
  else ∃ now, computeResultPriority cfg d now e res highMin = Some (vd_Priority (pa_Verdict p)) ∧
    (pa_AnalysisStatus p = "icp_rejected" ∧ dp_registry d ≠ None ∧ not_icp res = true
       ∧ vd_Priority (pa_Verdict p) = "Low"
     ∨ final_status finalize (pa_AnalysisStatus p)
       ∧ ¬ (dp_registry d ≠ None ∧ not_icp res = true ∧ vd_Priority (pa_Verdict p) = "Low")).

Lemma priority_name_low p : priority_name p = "Low" ↔ p = PriorityLow.
Proof. by destruct p. Qed.

Lemma bumped_low res p : bumped res p = PriorityLow ↔ p = PriorityLow.
Proof. unfold bumped. destruct p; try done. by destruct (icp_Hot _). Qed.

Lemma applyResultFinalize_emits e res highMin finalize :
  analysable →
  emits (applyResultFinalize cfg d e res highMin finalize)
    (λ _ new, ∃ p, one_patch cfg e finalize p new ∧ answer_patch e res highMin finalize p).
Proof.
  intros Ha. unfold applyResultFinalize, answer_patch. destruct (geo_rejects cfg res).
  { eapply emits_bind; [by apply (emits_ask _ _ (λ ok new, new = [Patch (geo_reject_patch e res) ok]))|].
    intros ok new ->. apply emits_done. rewrite app_nil_r. eexists. split; [|done]. by apply patch_only. }
  apply emits_get. intros s0. set (now := dp_now d (sv_calls s0)).
  destruct (decayed_some now e Ha) as (score & priority & Hdec). rewrite Hdec.
  destruct (dp_registry d) as [reg|] eqn:Hreg.
  2:{ eapply emits_mono; [|apply finish_result_emits]. intros [] new (p & Hop & Hf & Hp & _).
      exists p. split; [done|]. exists now. unfold computeResultPriority. rewrite Hdec, Hreg, Hp.
      split; [done|]. right. split; [done|]. by intros []. }
  set (score' := (ApplyICPToScore score (lr_ICP res) highMin).1).
  assert (Hc : computeResultPriority cfg d now e res highMin
               = Some (priority_name (bumped res (PriorityFromScore reg score')))).
  { unfold computeResultPriority. by rewrite Hdec, Hreg. }
  destruct (not_icp res && is_low (PriorityFromScore reg score')) eqn:E.
  - eapply emits_mono; [|apply reject_icp_emits]. intros [] new Hop. eexists. split; [exact Hop|].
    apply andb_true_iff in E as [E1 E2]. exists now. rewrite Hc. simpl.
    destruct (PriorityFromScore reg score') eqn:Ep; try done. simpl. split; [done|]. by left.
  - eapply emits_mono; [|apply finish_result_emits]. intros [] new (p & Hop & Hf & Hp & _).
    exists p. split; [done|]. exists now. rewrite Hc, Hp. split; [done|]. right. split; [done|].
    intros (_ & Hn & Hl). rewrite priority_name_low, bumped_low in Hl.
    by rewrite Hn, Hl in E.
Qed.

(** The answers about known leads, each with its calls. *)
Definition answered (byID : gmap string Event) (results : list LeadBatchResult) (new : list call)
    : Prop :=
  ∃ segs, new = concat segs ∧
    Forall2 (λ (a : Event * LeadBatchResult) seg, ∃ p,
        one_patch cfg a.1 true p seg ∧ answer_patch a.1 a.2 (highMinFromReg d) true p)
      (omap (λ res, (λ e, (e, res)) <$> byID !! lr_HashID res) results) segs.

Lemma apply_results_emits byID results :
  analysable → emits (apply_results cfg d byID results) (λ _ new, answered byID results new).
Proof.
  intros Ha. induction results as [|res rest IH]; cbn [apply_results].
  { apply emits_done. exists []. split; [done|constructor]. }
  unfold answered. cbn [omap list_omap]. destruct (byID !! lr_HashID res) as [e|]; [|exact IH].
  eapply emits_bind; [by apply applyResultFinalize_emits|]. intros [] n1 Hn1.
  eapply emits_mono; [|exact IH]. intros [] n2 (segs & -> & Hs). exists (n1 :: segs).
  split; [done|]. by constructor.
Qed.
End apply.

(** ** The contract of the CRM webhook *)

(** Every notification comes right after the successful patch of the lead to [done], with
    the lead of that patch. *)
Definition crm_contract (t : list call) : Prop :=
  ∀ pre l post, t = pre ++ Notify l :: post →
    ∃ pre' p e now, pre = pre' ++ [Patch p true] ∧ pa_AnalysisStatus p = "done"
      ∧ pa_HashID p = ev_HashID e ∧ l = leadForCRM now e p.

Lemma crm_contract_app t1 t2 : crm_contract t1 → crm_contract t2 → crm_contract (t1 ++ t2).
Proof.
  intros H1 H2 pre l post E.
  apply app_eq_inv in E as [(k & -> & E)|(k & -> & E)].
  - destruct k as [|c k].
    + simpl in E. destruct (H2 [] l post (eq_sym E)) as ([|??] & p & e & now & Hnil & _); done.
    + injection E as <- ->. by apply (H1 pre l k).
  - destruct (H2 k l post E) as (pre' & p & e & now & -> & Hr).
    exists (t1 ++ pre'), p, e, now. by rewrite app_assoc.
Qed.

Lemma crm_contract_quiet t : notified t = [] → crm_contract t.
Proof. intros Hn pre l post ->. rewrite notified_app in Hn. by destruct (notified pre). Qed.

Lemma one_patch_contract cfg e finalize p new :
  one_patch cfg e finalize p new → crm_contract new.
Proof.
  intros [Hh (pre & ok & post & -> & [_ Hq] & _ & Hn)].
  apply crm_contract_app; [by apply crm_contract_quiet|].
  destruct (ok && finalize && String.eqb (pa_AnalysisStatus p) "done"
            && (cf_CRMWebhook cfg && cf_CRMWebhookAfterAnalysis cfg)) eqn:E.
  2:{ apply crm_contract_quiet. exact Hn. }
  destruct Hn as (now & rest & -> & Hrest). repeat (apply andb_true_iff in E as [E ?]). subst.
  apply (crm_contract_app [Patch p true; Notify (leadForCRM now e p)] rest);
    [|by apply crm_contract_quiet].
  intros [|c1 [|c2 [|c3 pre']]] l post Heq; try done.
  injection Heq as <- <- <-. exists [], p, e, now.
  split_and!; try done. by apply String.eqb_eq.
Qed.

(** The calls a computation adds fulfil the contract, however it ends. *)
Definition adds {A} (m : Act A) : Prop :=
  ∀ s, ∃ new, sv_calls (m s).2 = sv_calls s ++ new ∧ crm_contract new.

Lemma adds_emits {A} (m : Act A) Q : emits m Q → (∀ a new, Q a new → crm_contract new) → adds m.
Proof. intros Hm HQ s. destruct (Hm s) as (a & new & -> & H). simpl. eauto. Qed.
Lemma adds_done {A} (a : A) : adds (done a).
Proof. intros s. exists []. rewrite app_nil_r. split; [done|by apply crm_contract_quiet]. Qed.
Lemma adds_exit {A} (p : panic) : adds (exit_with (A := A) p).
Proof. intros s. exists []. rewrite app_nil_r. split; [done|by apply crm_contract_quiet]. Qed.
Lemma adds_set_buffer b : adds (set_buffer b).
Proof. intros s. exists []. rewrite app_nil_r. split; [done|by apply crm_contract_quiet]. Qed.
Lemma adds_record c : notified [c] = [] → adds (record c).
Proof. intros Hc s. exists [c]. split; [done|by apply crm_contract_quiet]. Qed.
Lemma adds_bind {A B} (m : Act A) (k : A → Act B) : adds m → (∀ a, adds (k a)) → adds (seq_eff m k).
Proof.
  intros Hm Hk s. destruct (Hm s) as (n1 & E1 & H1). unfold seq_eff.
  destruct (m s) as [[a|e] s1]; simpl in E1; [|by exists n1].
  destruct (Hk a s1) as (n2 & E2 & H2). exists (n1 ++ n2).
  rewrite E2, E1, app_assoc. split; [done|by apply crm_contract_app].
Qed.
Lemma adds_get {A} (k : Service → Act A) : (∀ s0, adds (k s0)) → adds (seq_eff get_state k).
Proof. intros Hk s. apply (Hk s s). Qed.
Lemma adds_ask {A} (answer : list call → A) c : (∀ a, notified [c a] = []) → adds (ask answer c).
Proof. intros Hc. apply adds_get. intros s0. apply adds_bind; [by apply adds_record|intros; apply adds_done]. Qed.

Create HintDb warm.

(** Works through a computation whose own calls do not notify. *)
Ltac adds_step :=
  match goal with
  | H : adds ?m |- adds ?m => exact H
  | H : ∀ _, adds _ |- adds _ => solve [apply H]
  | |- adds (done _) => apply adds_done
  | |- adds (exit_with _) => apply adds_exit
  | |- adds (set_buffer _) => apply adds_set_buffer
  | |- adds (seq_eff get_state _) => apply adds_get; intros
  | |- adds (seq_eff _ _) => apply adds_bind; [|intros]
  | |- adds (ask _ _) => apply adds_ask; done
  | |- adds (record _) => apply adds_record; done
  | |- adds (let _ := _ in _) => cbv zeta
  | |- adds (if ?b then _ else _) => destruct b
  | |- adds (match ?o with _ => _ end) => destruct o
  | |- adds _ => solve [eauto 2 with warm nocore]
  end.
Ltac adds_run := repeat adds_step.
