(* ===== verification/WarmFacts.v ===== *)
(** What makes the warm path correct: the contract of the CRM webhook over whole runs, what
    becomes of every lead of a batch, the buffer, and the end of the shutdown loop. *)
From S2P Require Import Prelude Unicode GoStrings TextFacts Registry Scoring Outreach.
From S2P Require Import Item Entity EntityDoc Gemini LeadBatch LeadStore Effects WarmPath.
From S2P Require Import WarmLogic.
From Stdlib Require Import SpecFloat.

Local Open Scope Z_scope.
Local Open Scope eff_scope.

(** ** The CRM contract *)

Inductive service_op := OpIngest (e : Event) | OpFlush | OpRescan | OpFlushAll (fuel : nat).

Section contract.
Context (cfg : Config) (d : Deps).

Definition run_op (op : service_op) : Act unit :=
  match op with
  | OpIngest e => ingest e
  | OpFlush => flush cfg d
  | OpRescan => rescanPending d
  | OpFlushAll fuel => let! _ := flushAll cfg d fuel in done tt
  end.

Fixpoint run_ops (ops : list service_op) : Act unit :=
  match ops with
  | [] => done tt
  | op :: rest => run_op op ;;! run_ops rest
  end.

Lemma adds_patch p : adds (patch_lead d p).
Proof. by apply adds_ask. Qed.
#[local] Hint Resolve adds_patch : warm.

Lemma adds_prescan prescan batch : adds (prescan_events d prescan batch).
Proof. induction batch as [|e rest IH]; cbn [prescan_events]; unfold rejectWarmPrescanSpam; adds_run. Qed.

Lemma adds_cluster cluster batch : adds (cluster_events d cluster batch).
Proof. induction batch as [|e rest IH]; cbn [cluster_events]; adds_run. Qed.

Lemma adds_finish e res finalize score priority : adds (finish_result cfg d e res finalize score priority).
Proof.
  eapply adds_emits; [apply finish_result_emits|]. intros [] new (p & Hp & _).
  by eapply one_patch_contract.
Qed.

Lemma adds_reject e res score priority : adds (reject_icp cfg d e res score priority).
Proof.
  eapply adds_emits; [by apply (reject_icp_emits cfg d e true)|]. intros [] new Hp.
  by eapply one_patch_contract.
Qed.
#[local] Hint Resolve adds_prescan adds_cluster adds_finish adds_reject : warm.

Lemma adds_apply e res highMin finalize : adds (applyResultFinalize cfg d e res highMin finalize).
Proof.
  unfold applyResultFinalize.
  destruct (geo_rejects cfg res); [adds_run|].
  apply adds_get. intros s0. destruct (decayed _ _ _ _) as [[score priority]|]; [|adds_run].
  destruct (dp_registry d); [|adds_run]. destruct (_ && _); adds_run.
Qed.

Lemma adds_results byID results : adds (apply_results cfg d byID results).
Proof.
  induction results as [|res rest IH]; cbn [apply_results]; [adds_run|].
  destruct (byID !! lr_HashID res); [|done]. apply adds_bind; [apply adds_apply|done].
Qed.

Lemma adds_requeue batch : adds (requeueFront batch).
Proof. unfold requeueFront. adds_run. Qed.
#[local] Hint Resolve adds_results adds_requeue : warm.

Lemma adds_attempts more delay batch : adds (analyze_attempts cfg d more delay batch).
Proof. revert delay. induction more as [|more IH]; intros delay; cbn [analyze_attempts]; adds_run. Qed.

Lemma adds_process batch : adds (processBatch cfg d batch).
Proof.
  unfold processBatch, filterWarmPrescan, filterWarmCluster.
  adds_run; apply adds_attempts.
Qed.

Lemma adds_take : adds (takeBatch cfg).
Proof. unfold takeBatch. adds_run. Qed.
#[local] Hint Resolve adds_process adds_take : warm.

Lemma adds_flushAll fuel : adds (flushAll cfg d fuel).
Proof. induction fuel as [|fuel IH]; cbn [flushAll]; adds_run. Qed.
#[local] Hint Resolve adds_flushAll : warm.

Lemma adds_op op : adds (run_op op).
Proof.
  destruct op; simpl; unfold ingest, flush, rescanPending, enqueueDedupe; adds_run.
Qed.

Lemma adds_ops ops : adds (run_ops ops).
Proof. induction ops as [|op ops IH]; simpl; [adds_run|]. apply adds_bind; [apply adds_op|done]. Qed.
End contract.

(** C6. The CRM is told only what was stored. Whatever the service ingests, flushes, rescans and drains, whatever the model, the store, the filters and the clock answer, and even if a call panics, every notification of the CRM comes immediately after the successful patch of that lead to the status done, and carries the lead as it was patched: a rejected, duplicate, pending or unstored lead is never announced. *)
Theorem crm_contract_holds cfg d ops s :
  sv_calls s = [] → crm_contract (sv_calls (run_ops cfg d ops s).2).
Proof. intros Hs. destruct (adds_ops cfg d ops s) as (new & -> & H). by rewrite Hs. Qed.

(** C26. Every answer is exactly one patch. With a registry, or without time decay, applying an answer of the model to its lead leaves the buffer alone and patches the store exactly once, under the hash of the lead: a geography reject when the geography rejects; otherwise with the priority that computeResultPriority predicts, as an ICP reject exactly when the registry is there, the answer is none and cold and that priority is Low, and else with the status done (pending before the engagement pass) or duplicate. The CRM is told after that patch, when it succeeded with done and the webhook is on. *)
Theorem answer_is_one_patch cfg d e res highMin finalize s :
  analysable cfg d →
  ∃ new p, applyResultFinalize cfg d e res highMin finalize s = (inl tt, extend s new)
    ∧ one_patch cfg e finalize p new ∧ answer_patch cfg d e res highMin finalize p.
Proof.
  intros Ha. destruct (applyResultFinalize_emits cfg d e res highMin finalize Ha s)
    as ([] & new & E & p & H1 & H2). by exists new, p.
Qed.

(** ** A batch *)

(** A filter that kept [out] and marked the others, each with one patch of the given status. *)
Definition filtered (status : string) (batch out : list Event) (new : list call) : Prop :=
  out `sublist_of` batch ∧ notified new = [] ∧
  ∃ dropped, batch ≡ₚ out ++ dropped ∧
    (λ x : LeadAnalysisPatch * bool, (pa_HashID x.1, pa_AnalysisStatus x.1)) <$> patches new
    = (λ e, (ev_HashID e, status)) <$> dropped.

Lemma filtered_all status batch : filtered status batch batch [].
Proof. split; [done|]. split; [done|]. exists []. by rewrite app_nil_r. Qed.

Lemma filtered_keep status e batch out n1 n2 :
  quiet n1 → filtered status batch out n2 → filtered status (e :: batch) (e :: out) (n1 ++ n2).
Proof.
  intros [Hp1 Hn1] (Hs & Hn & dropped & Hd & Hp). split; [by apply sublist_skip|].
  rewrite notified_app, patches_app, Hn1, Hp1. split; [done|]. exists dropped.
  split; [by rewrite Hd|done].
Qed.

Lemma filtered_drop status e batch out n1 n2 p ok :
  notified n1 = [] → patches n1 = [(p, ok)] → pa_HashID p = ev_HashID e →
  pa_AnalysisStatus p = status → filtered status batch out n2 →
  filtered status (e :: batch) out (n1 ++ n2).
Proof.
  intros Hn1 Hp1 Hh Hst (Hs & Hn & dropped & Hd & Hp). split; [by apply sublist_cons|].
  rewrite notified_app, patches_app, Hn1, Hp1. split; [done|]. exists (e :: dropped).
  split; [rewrite Hd; apply Permutation_middle|]. cbn [app]. rewrite !fmap_cons.
  f_equal; [by rewrite <- Hh, <- Hst|exact Hp].
Qed.

Lemma seq_run {A B} (m : Act A) (k : A → Act B) s a s' :
  m s = (inl a, s') → seq_eff m k s = k a s'.
Proof. unfold seq_eff. by intros ->. Qed.

Lemma ask_run {A} (answer : list call → A) c s :
  ask answer c s = (inl (answer (sv_calls s)), extend s [c (answer (sv_calls s))]).
Proof. done. Qed.

Section batch.
Context (cfg : Config) (d : Deps).

Lemma patch_lead_emits p : emits (patch_lead d p) (λ ok new, new = [Patch p ok]).
Proof. by apply emits_ask. Qed.

Lemma reject_spam_emits e :
  emits (rejectWarmPrescanSpam d e)
    (λ _ new, notified new = [] ∧ ∃ ok, patches new
       = [(status_patch (ev_HashID e) "warm_prescan_spam" "junk" estr, ok)]).
Proof.
  eapply emits_bind; [apply patch_lead_emits|]. intros ok new ->.
  destruct (dp_junk d); [apply emits_record|apply emits_done]; split; eauto.
Qed.

Lemma prescan_emits prescan batch :
  emits (prescan_events d prescan batch) (λ out new, filtered "warm_prescan_spam" batch out new).
Proof.
  induction batch as [|e rest IH]; cbn [prescan_events]; [apply emits_done, filtered_all|]. cbv zeta.
  assert (Hkeep : ∀ n1, quiet n1 →
    emits (let! out := prescan_events d prescan rest in done (e :: out))
      (λ out new, filtered "warm_prescan_spam" (e :: rest) out (n1 ++ new))).
  { intros n1 Hq. eapply emits_bind; [exact IH|]. intros out n2 Hf. apply emits_done.
    rewrite app_nil_r. by apply filtered_keep. }
  destruct (String.eqb _ _); [by apply (Hkeep [])|].
  eapply emits_bind; [by apply (emits_ask _ _ (λ _ new, quiet new))|]. intros verdict n1 Hq.
  destruct verdict as [[]|]; [|by apply Hkeep..].
  eapply emits_bind; [apply reject_spam_emits|]. intros [] n2 [Hn2 [ok Hp2]].
  eapply emits_mono; [|exact IH]. intros out n3 Hf. rewrite app_assoc.
  destruct Hq as [Hq1 Hq2].
  eapply filtered_drop; [by rewrite notified_app, Hq2, Hn2|by rewrite patches_app, Hq1, Hp2|done..].
Qed.

Lemma cluster_emits cluster batch :
  emits (cluster_events d cluster batch) (λ out new, filtered "duplicate" batch out new).
Proof.
  induction batch as [|e rest IH]; cbn [cluster_events]; [apply emits_done, filtered_all|].
  assert (Hkeep : ∀ n1, quiet n1 →
    emits (let! out := cluster_events d cluster rest in done (e :: out))
      (λ out new, filtered "duplicate" (e :: rest) out (n1 ++ new))).
  { intros n1 Hq. eapply emits_bind; [exact IH|]. intros out n2 Hf. apply emits_done.
    rewrite app_nil_r. by apply filtered_keep. }
  destruct (negb _); [by apply (Hkeep [])|].
  eapply emits_bind; [by apply (emits_ask _ _ (λ _ new, quiet new))|]. intros answer n1 Hq.
  destruct answer as [[[] clusterOf]|]; [|by apply Hkeep..].
  eapply emits_bind; [apply patch_lead_emits|]. intros ok n2 ->.
  eapply emits_mono; [|exact IH]. intros out n3 Hf. rewrite app_assoc.
  destruct Hq as [Hq1 Hq2].
  eapply filtered_drop; [by rewrite notified_app, Hq2|by rewrite patches_app, Hq1|done..].
Qed.

Lemma filterWarmPrescan_emits batch :
  emits (filterWarmPrescan d batch) (λ out new, filtered "warm_prescan_spam" batch out new).
Proof.
  unfold filterWarmPrescan. destruct (dp_prescan d); [apply prescan_emits|apply emits_done, filtered_all].
Qed.

Lemma filterWarmCluster_emits batch :
  emits (filterWarmCluster d batch) (λ out new, filtered "duplicate" batch out new).
Proof.
  unfold filterWarmCluster. destruct (dp_cluster d); [apply cluster_emits|apply emits_done, filtered_all].
Qed.

(** The calls of [k] failed attempts, each followed by its wait. *)
Fixpoint failed_attempts (inputs : list LeadBatchInput) (delay : Duration) (k : nat) : list call :=
  match k with
  | O => []
  | S k => Analyze inputs false :: Wait delay :: failed_attempts inputs (wrap64 (delay * 2)) k
  end.

(** What the model answers to the attempt after [k] failed ones, and whether the context is
    done in the wait after attempt [k] when that one failed too. *)
Definition asked (calls0 : list call) (delay : Duration) (batch : list Event) (k : nat)
    : option (list LeadBatchResult) :=
  dp_analyze d (calls0 ++ failed_attempts (lead_input cfg <$> batch) delay k)
    (lead_input cfg <$> batch) (batch_options cfg).
Definition cancelled_in (calls0 : list call) (delay : Duration) (batch : list Event) (k : nat) : bool :=
  dp_cancelled d ((calls0 ++ failed_attempts (lead_input cfg <$> batch) delay k)
                  ++ [Analyze (lead_input cfg <$> batch) false]).

(** The first [k] attempts fail and the context is not done in the waits after them. *)
Definition failing calls0 delay batch (k : nat) : Prop :=
  ∀ j, (j < k)%nat → asked calls0 delay batch j = None ∧ cancelled_in calls0 delay batch j = false.

(** How the attempts on a batch end, after the calls [calls0]: what the buffer becomes, and
    the calls. The answers written are those of the model to the attempt that ends them. *)
Inductive attempts_end (calls0 : list call) (more : nat) (delay : Duration)
    (batch buffer : list Event) : list Event → list call → Prop :=
  | EndAnswered k results ans :
      (k ≤ more)%nat → failing calls0 delay batch k → asked calls0 delay batch k = Some results →
      answered cfg d (index_events batch) results ans →
      attempts_end calls0 more delay batch buffer buffer
        (failed_attempts (lead_input cfg <$> batch) delay k
         ++ Analyze (lead_input cfg <$> batch) true :: ans)
  | EndRequeued k :
      (k < more)%nat → failing calls0 delay batch k → asked calls0 delay batch k = None →
      cancelled_in calls0 delay batch k = true →
      attempts_end calls0 more delay batch buffer (batch ++ buffer)
        (failed_attempts (lead_input cfg <$> batch) delay k
         ++ [Analyze (lead_input cfg <$> batch) false])
  | EndGivenUp :
      failing calls0 delay batch more → asked calls0 delay batch more = None →
      attempts_end calls0 more delay batch buffer buffer
        (failed_attempts (lead_input cfg <$> batch) delay more
         ++ Analyze (lead_input cfg <$> batch) false
         :: if dp_dlq d then [InsertDLQ batch (max_attempts cfg)] else []).

Section retry.
Context (calls0 : list call) (delay : Duration) (batch : list Event).
Notation later :=
  ((calls0 ++ [Analyze (lead_input cfg <$> batch) false]) ++ [Wait delay]).

Lemma asked_later k : asked later (wrap64 (delay * 2)) batch k = asked calls0 delay batch (S k).
Proof. unfold asked. cbn [failed_attempts]. by rewrite <- !app_assoc. Qed.

Lemma cancelled_later k :
  cancelled_in later (wrap64 (delay * 2)) batch k = cancelled_in calls0 delay batch (S k).
Proof. unfold cancelled_in. cbn [failed_attempts]. by rewrite <- !app_assoc. Qed.

Lemma attempts_end_retry more buffer buffer' new :
  asked calls0 delay batch 0 = None → cancelled_in calls0 delay batch 0 = false →
  attempts_end later more (wrap64 (delay * 2)) batch buffer buffer' new →
  attempts_end calls0 (S more) delay batch buffer buffer'
    (Analyze (lead_input cfg <$> batch) false :: Wait delay :: new).
Proof.
  intros H0 Hw.
  assert (Hf : ∀ k, failing later (wrap64 (delay * 2)) batch k → failing calls0 delay batch (S k)).
  { intros k Hk [|j] Hj; [done|]. rewrite <- asked_later, <- cancelled_later. apply Hk. lia. }
  destruct 1 as [k results ans Hk Hp Hr Ha|k Hk Hp Hr Ht|Hp Hr].
  - rewrite asked_later in Hr.
    apply (EndAnswered _ (S more) delay batch buffer (S k) results ans); auto with lia.
  - rewrite asked_later in Hr. rewrite cancelled_later in Ht.
    apply (EndRequeued _ (S more) delay batch buffer (S k)); auto with lia.
  - rewrite asked_later in Hr. apply (EndGivenUp _ (S more) delay batch buffer); auto.
Qed.
End retry.

Lemma failing_none calls0 delay batch : failing calls0 delay batch 0.
Proof. intros j Hj. lia. Qed.

Lemma attempts_run more delay batch s :
  analysable cfg d → batch ≠ [] →
  ∃ buffer' new, analyze_attempts cfg d more delay batch s
    = (inl tt, {| sv_buffer := buffer'; sv_calls := sv_calls s ++ new |})
    ∧ attempts_end (sv_calls s) more delay batch (sv_buffer s) buffer' new.
Proof.
  intros Ha Hb. set (inputs := lead_input cfg <$> batch). revert delay s.
  induction more as [|more IH]; intros delay s; cbn [analyze_attempts]; cbv zeta;
    erewrite seq_run by apply ask_run; fold inputs;
    destruct (dp_analyze d (sv_calls s) inputs (batch_options cfg)) as [results|] eqn:Er;
    cbv beta iota;
    assert (H0 := Er); rewrite <- (app_nil_r (sv_calls s)) in H0.
  1,3: destruct (apply_results_emits cfg d (index_events batch) results Ha
                   (extend s [Analyze inputs true])) as ([] & ans & -> & Hans);
    exists (sv_buffer s), (Analyze inputs true :: ans);
    (split; [by rewrite extend_extend|]);
    by apply (EndAnswered (sv_calls s) _ delay batch (sv_buffer s) 0 results ans);
      [lia|apply failing_none| |].
  - exists (sv_buffer s). eexists. split; [|apply EndGivenUp; [apply failing_none|exact H0]]. simpl.
    destruct (dp_dlq d); [|done]. unfold record, modify, extend. simpl. by rewrite <- app_assoc.
  - erewrite seq_run by reflexivity. destruct (dp_cancelled d _) eqn:Et;
      assert (Ht := Et); unfold extend in Ht; cbn [sv_calls] in Ht;
      rewrite <- (app_nil_r (sv_calls s)) in Ht.
    + exists (batch ++ sv_buffer s), [Analyze inputs false].
      split; [by destruct batch|].
      apply (EndRequeued _ (S more) delay batch _ 0); [lia|apply failing_none|exact H0|exact Ht].
    + erewrite seq_run by reflexivity.
      destruct (IH (wrap64 (delay * 2)) (extend (extend s [Analyze inputs false]) [Wait delay]))
        as (buffer' & new & Hr & He).
      exists buffer', (Analyze inputs false :: Wait delay :: new).
      split; [|by apply attempts_end_retry]. etrans; [exact Hr|]. simpl. by rewrite <- !app_assoc.
Qed.

(** What becomes of the leads of a batch that passed the filters, after the calls [calls0]. *)
Inductive batch_end (calls0 : list call) (rest buffer : list Event)
    : list Event → list call → Prop :=
  | EndEmpty : rest = [] → batch_end calls0 rest buffer buffer []
  | EndSpilled spill : rest ≠ [] → dp_spill d = Some spill → spill calls0 rest = true →
      batch_end calls0 rest buffer buffer [Spill rest (cf_GeoClassifyEnabled cfg) true]
  | EndNotSpilled spill : rest ≠ [] → dp_spill d = Some spill → spill calls0 rest = false →
      batch_end calls0 rest buffer (rest ++ buffer) [Spill rest (cf_GeoClassifyEnabled cfg) false]
  | EndAttempts buffer' new :
      dp_spill d = None → rest ≠ [] →
      attempts_end calls0 (Z.to_nat (max_attempts cfg - 1)) (cf_RetryBaseDelay cfg) rest buffer
        buffer' new →
      batch_end calls0 rest buffer buffer' new.

Lemma processBatch_run batch s :
  analysable cfg d →
  ∃ clean rest n1 n2 n3 buffer',
    processBatch cfg d batch s
    = (inl tt, {| sv_buffer := buffer'; sv_calls := sv_calls s ++ n1 ++ n2 ++ n3 |})
    ∧ filtered "warm_prescan_spam" batch clean n1 ∧ filtered "duplicate" clean rest n2
    ∧ batch_end (sv_calls s ++ n1 ++ n2) rest (sv_buffer s) buffer' n3.
Proof.
  intros Ha. unfold processBatch.
  destruct (filterWarmPrescan_emits batch s) as (clean & n1 & E1 & F1).
  erewrite seq_run by exact E1.
  destruct (filterWarmCluster_emits clean (extend s n1)) as (rest & n2 & E2 & F2).
  erewrite seq_run by exact E2. rewrite extend_extend.
  exists clean, rest, n1, n2. destruct rest as [|x l] eqn:El.
  { exists [], (sv_buffer s). rewrite app_nil_r. simpl. split_and!; try done. by apply EndEmpty. }
  cbn [is_empty]. rewrite <- El in *. assert (Hne : rest ≠ []) by (by subst).
  destruct (dp_spill d) as [spill|] eqn:Es.
  - erewrite seq_run by apply ask_run. rewrite extend_extend.
    destruct (spill (sv_calls (extend s (n1 ++ n2))) rest) eqn:Eo.
    + eexists _, (sv_buffer s). split_and!; [|done|done|by eapply EndSpilled].
      unfold extend. simpl. by rewrite <- app_assoc.
    + eexists _, (rest ++ sv_buffer s). split_and!; [|done|done|by eapply EndNotSpilled].
      unfold requeueFront, extend. subst rest. simpl. by rewrite <- !app_assoc.
  - destruct (attempts_run (Z.to_nat (max_attempts cfg - 1)) (cf_RetryBaseDelay cfg) rest
                (extend s (n1 ++ n2)) Ha Hne) as (buffer' & new & -> & He).
    exists new, buffer'. split_and!; [|done|done|by apply EndAttempts].
    simpl. by rewrite <- !app_assoc.
Qed.

(** ** The loop of the shutdown *)

Lemma takeBatch_run s :
  0 < cf_BatchSize cfg →
  takeBatch cfg s = (inl (take (Z.to_nat (cf_BatchSize cfg)) (sv_buffer s)),
                     {| sv_buffer := drop (Z.to_nat (cf_BatchSize cfg)) (sv_buffer s);
                        sv_calls := sv_calls s |}).
Proof.
  intros Hb. destruct s as [buffer calls]. unfold takeBatch. erewrite seq_run by reflexivity.
  cbn [sv_buffer sv_calls].
  destruct buffer as [|e rest]; [by rewrite take_nil, drop_nil|].
  destruct (Z.ltb_spec (cf_BatchSize cfg) 0); [lia|].
  unfold set_buffer, modify, seq_eff, done. cbn [sv_buffer sv_calls].
  set (n := Z.to_nat (cf_BatchSize cfg)). set (l := e :: rest).
  destruct (Nat.min_spec n (length l)) as [[Hl ->]|[Hl ->]]; [done|].
  by rewrite !take_ge, !drop_ge by lia.
Qed.

(** Nothing puts a batch back: the context is not cancelled and spilling works. *)
Definition nothing_requeues : Prop :=
  (∀ t, dp_cancelled d t = false) ∧ (∀ spill, dp_spill d = Some spill → ∀ t b, spill t b = true).

Lemma batch_end_keeps calls0 rest buffer buffer' new :
  nothing_requeues → batch_end calls0 rest buffer buffer' new → buffer' = buffer.
Proof.
  intros [Hc Hs] [|? ? ? |spill _ Hsp Hf|b n _ _ He]; try done.
  - by rewrite (Hs _ Hsp) in Hf.
  - destruct He as [|k _ _ _ Ht|]; try done. unfold cancelled_in in Ht. by rewrite Hc in Ht.
Qed.
End batch.

(** C25. Every lead of a batch has one fate. With a registry, or without time decay, processing a batch returns; the leads it drops are each patched once, as spam by the prescan and then as duplicates by the cluster, and the rest either is empty, or is spilled to the batch worker, or goes back to the front of the buffer because the spill failed or the context was cancelled between attempts, or is answered — after at most the configured attempts, with a doubling wait after each failure, the answers of that attempt about leads of the batch each one patch, and answers about other hashes skipped — or is given up after exactly that many attempts and written to the dead-letter queue if there is one. *)
Theorem processBatch_exact cfg d batch s :
  analysable cfg d →
  ∃ clean rest n1 n2 n3 buffer',
    processBatch cfg d batch s
    = (inl tt, {| sv_buffer := buffer'; sv_calls := sv_calls s ++ n1 ++ n2 ++ n3 |})
    ∧ filtered "warm_prescan_spam" batch clean n1 ∧ filtered "duplicate" clean rest n2
    ∧ batch_end cfg d (sv_calls s ++ n1 ++ n2) rest (sv_buffer s) buffer' n3.
Proof. apply processBatch_run. Qed.

(** C33. The shutdown drain ends when nothing is put back. With a registry, or without time decay (otherwise scoring an answer panics), and with a positive batch size, as long as the context is not cancelled and spilling works, the loop empties the buffer and returns within one round more than the buffer has leads, whatever the model and the store answer. *)
Theorem flushAll_returns cfg d fuel s :
  analysable cfg d → 0 < cf_BatchSize cfg → nothing_requeues d → (length (sv_buffer s) < fuel)%nat →
  ∃ calls, flushAll cfg d fuel s = (inl true, {| sv_buffer := []; sv_calls := calls |}).
Proof.
  intros Ha Hb Hn. revert s. induction fuel as [|fuel IH]; intros s Hf; [lia|].
  cbn [flushAll]. erewrite seq_run by by apply takeBatch_run.
  destruct (take (Z.to_nat (cf_BatchSize cfg)) (sv_buffer s)) as [|x l] eqn:Et; cbn [is_empty].
  { assert (sv_buffer s = []) as ->.
    { destruct (sv_buffer s); [done|]. destruct (Z.to_nat (cf_BatchSize cfg)) eqn:E; [lia|done]. }
    exists (sv_calls s). by rewrite drop_nil. }
  destruct (processBatch_run cfg d (x :: l)
              {| sv_buffer := drop (Z.to_nat (cf_BatchSize cfg)) (sv_buffer s); sv_calls := sv_calls s |} Ha)
    as (clean & rest & n1 & n2 & n3 & buffer' & E & _ & _ & He).
  erewrite seq_run by exact E. apply IH. simpl.
  rewrite (batch_end_keeps _ _ _ _ _ _ _ Hn He). simpl. rewrite length_drop.
  apply (f_equal length) in Et. rewrite length_take in Et. simpl in Et. lia.
Qed.

(** Every batch is put back: spilling fails, or the model fails while the context is done
    and more than one attempt is allowed. *)
Definition always_requeues (cfg : Config) (d : Deps) : Prop :=
  dp_prescan d = None ∧ dp_cluster d = None ∧
  ((∃ spill, dp_spill d = Some spill ∧ ∀ t b, spill t b = false) ∨
   (dp_spill d = None ∧ 2 ≤ cf_RetryMaxAttempts cfg ∧ (∀ t i o, dp_analyze d t i o = None)
    ∧ ∀ t, dp_cancelled d t = true)).

Lemma processBatch_requeues cfg d batch s :
  always_requeues cfg d → batch ≠ [] →
  ∃ calls, processBatch cfg d batch s
    = (inl tt, {| sv_buffer := batch ++ sv_buffer s; sv_calls := calls |}).
Proof.
  intros (Hp & Hc & Hw) Hb. unfold processBatch, filterWarmPrescan, filterWarmCluster. rewrite Hp, Hc.
  erewrite seq_run by reflexivity. erewrite seq_run by reflexivity.
  destruct batch as [|x l]; [done|]. cbn [is_empty].
  destruct Hw as [(spill & -> & Hs)|(-> & Hm & Han & Hcan)].
  - erewrite seq_run by apply ask_run. rewrite Hs. simpl. eexists. reflexivity.
  - assert (∃ more, Z.to_nat (max_attempts cfg - 1) = S more) as [more ->].
    { exists (Z.to_nat (max_attempts cfg - 2)). unfold max_attempts. destruct (_ <? _) eqn:E; bool_to_prop; lia. }
    cbn [analyze_attempts]. cbv zeta. erewrite seq_run by apply ask_run. rewrite Han. cbv beta iota.
    erewrite seq_run by reflexivity. rewrite Hcan. simpl. eexists. reflexivity.
Qed.

(** A drain past its deadline never ends. When every batch comes back — the spill file cannot be written, or the drain context is done, so that the model fails and the select after the failure takes the cancelled case — the loop of the shutdown takes the same leads out and puts them back for ever: after any number of rounds it has not returned and the buffer is unchanged. *)
Theorem flushAll_never_returns cfg d fuel s :
  always_requeues cfg d → 0 < cf_BatchSize cfg → sv_buffer s ≠ [] →
  ∃ calls, flushAll cfg d fuel s = (inl false, {| sv_buffer := sv_buffer s; sv_calls := calls |}).
Proof.
  intros Hr Hb. revert s. induction fuel as [|fuel IH]; intros s Hne.
  { exists (sv_calls s). by destruct s. }
  cbn [flushAll]. erewrite seq_run by by apply takeBatch_run.
  destruct (take (Z.to_nat (cf_BatchSize cfg)) (sv_buffer s)) as [|x l] eqn:Et; cbn [is_empty].
  { destruct (sv_buffer s); [done|]. destruct (Z.to_nat (cf_BatchSize cfg)) eqn:E; [lia|done]. }
  destruct (processBatch_requeues cfg d (x :: l)
              {| sv_buffer := drop (Z.to_nat (cf_BatchSize cfg)) (sv_buffer s); sv_calls := sv_calls s |} Hr)
    as [calls E]; [done|].
  erewrite seq_run by exact E. simpl sv_buffer. rewrite <- Et, take_drop.
  destruct (IH {| sv_buffer := sv_buffer s; sv_calls := calls |} Hne) as [calls' ->]. by exists calls'.
Qed.

(** ** The buffer *)

(** Hashes are set and occur once. *)
Definition buffer_ok (buffer : list Event) : Prop :=
  NoDup (ev_HashID <$> buffer) ∧ Forall (λ e, ev_HashID e ≠ estr) buffer.

Lemma buffer_ok_sublist b1 b2 : b1 `sublist_of` b2 → buffer_ok b2 → buffer_ok b1.
Proof.
  intros Hs [Hn Hf]. split; [eapply sublist_NoDup; [exact Hn|by apply fmap_sublist]|].
  rewrite Forall_forall in *. intros x Hx. apply Hf. by eapply elem_of_sublist.
Qed.

Lemma new_events_ok existing events :
  NoDup (ev_HashID <$> new_events existing events)
  ∧ Forall (λ e, ev_HashID e ≠ estr ∧ ev_HashID e ∉ existing) (new_events existing events).
Proof.
  revert existing. induction events as [|e rest IH]; intros existing; cbn [new_events]; [by split; constructor|].
  destruct (String.eqb_spec (ev_HashID e) estr) as [He|He]; [done|].
  destruct (decide (ev_HashID e ∈ existing)) as [Hin|Hin]; [done|].
  destruct (IH ({[ev_HashID e]} ∪ existing)) as [Hn Hf]. split; [|constructor; [done|]].
  - simpl. constructor; [|done]. intros (x & Heq & Hx)%list_elem_of_fmap.
    rewrite Forall_forall in Hf. destruct (Hf x Hx). set_solver.
  - eapply Forall_impl; [exact Hf|]. set_solver.
Qed.

Lemma enqueue_ok buffer events :
  buffer_ok buffer → buffer_ok (buffer ++ new_events (buffered_hashes buffer) events).
Proof.
  intros [Hn Hf]. destruct (new_events_ok (buffered_hashes buffer) events) as [Hn' Hf']. split.
  - rewrite fmap_app, NoDup_app. split_and!; try done.
    intros h (x & -> & Hx)%list_elem_of_fmap (y & Heq & Hy)%list_elem_of_fmap.
    rewrite Forall_forall in Hf, Hf'. destruct (Hf' y Hy) as [_ Hno]. apply Hno.
    unfold buffered_hashes. rewrite elem_of_list_to_set, list_elem_of_In, filter_In. split.
    + apply list_elem_of_In, list_elem_of_fmap. by exists x.
    + rewrite <- Heq. by apply negb_true_iff, String.eqb_neq, Hf.
  - apply Forall_app. split; [done|]. by eapply Forall_impl; [exact Hf'|]; intros x [].
Qed.

Section buffer.
Context (cfg : Config) (d : Deps).

(** The computation keeps the buffer sound, and ends in a value. *)
Definition keeps_buffer {A} (m : Act A) : Prop :=
  ∀ s, buffer_ok (sv_buffer s) → ∃ a s', m s = (inl a, s') ∧ buffer_ok (sv_buffer s').

Lemma keeps_bind {A B} (m : Act A) (k : A → Act B) :
  keeps_buffer m → (∀ a, keeps_buffer (k a)) → keeps_buffer (seq_eff m k).
Proof.
  intros Hm Hk s Hs. destruct (Hm s Hs) as (a & s1 & E & H1). destruct (Hk a s1 H1) as (b & s2 & E2 & H2).
  exists b, s2. by erewrite seq_run by exact E.
Qed.

Lemma keeps_emits {A} (m : Act A) Q : emits m Q → keeps_buffer m.
Proof. intros Hm s Hs. destruct (Hm s) as (a & new & E & _). eauto. Qed.

Lemma keeps_enqueue events : keeps_buffer (enqueueDedupe events).
Proof.
  unfold enqueueDedupe. destruct (is_empty events); [by intros s Hs; eexists _, s|].
  intros s Hs. eexists _, _. split; [reflexivity|]. simpl. by apply enqueue_ok.
Qed.

Lemma batch_end_sublist calls0 rest buffer buffer' new :
  batch_end cfg d calls0 rest buffer buffer' new → buffer' `sublist_of` rest ++ buffer.
Proof.
  destruct 1 as [| | |b n _ _ He]; try done; try by apply sublist_inserts_l.
  destruct He; try done; by apply sublist_inserts_l.
Qed.

(** Taking a batch and processing it. *)
Lemma keeps_round {B} (k : list Event → Act B) (fin : Act B) :
  analysable cfg d → 0 < cf_BatchSize cfg → keeps_buffer fin →
  (∀ b, keeps_buffer (k b)) →
  keeps_buffer (let! batch := takeBatch cfg in
                if is_empty batch then fin else processBatch cfg d batch ;;! k batch).
Proof.
  intros Ha Hb Hf Hk s Hs. erewrite seq_run by by apply takeBatch_run.
  set (n := Z.to_nat (cf_BatchSize cfg)).
  assert (Hd : buffer_ok (drop n (sv_buffer s))) by (by eapply buffer_ok_sublist; [apply sublist_drop|]).
  destruct (is_empty (take n (sv_buffer s))); [by apply Hf|].
  destruct (processBatch_run cfg d (take n (sv_buffer s))
              {| sv_buffer := drop n (sv_buffer s); sv_calls := sv_calls s |} Ha)
    as (clean & rest & n1 & n2 & n3 & buffer' & E & [F1 _] & [F2 _] & He).
  erewrite seq_run by exact E. apply Hk. simpl.
  apply batch_end_sublist in He. eapply buffer_ok_sublist; [exact He|].
  eapply buffer_ok_sublist; [|exact Hs]. rewrite <- (take_drop n (sv_buffer s)) at 2. simpl.
  apply sublist_app; [by etrans|done].
Qed.

Lemma keeps_done {A} (a : A) : keeps_buffer (done a).
Proof. intros s Hs. by eexists _, s. Qed.

Lemma keeps_flushAll fuel : analysable cfg d → 0 < cf_BatchSize cfg → keeps_buffer (flushAll cfg d fuel).
Proof.
  intros Ha Hb. induction fuel as [|fuel IH]; cbn [flushAll]; [apply keeps_done|].
  by apply (keeps_round (λ _, flushAll cfg d fuel)); [..|apply keeps_done|].
Qed.

Lemma keeps_flush : analysable cfg d → 0 < cf_BatchSize cfg → keeps_buffer (flush cfg d).
Proof.
  intros Ha Hb s Hs.
  destruct (keeps_round (λ _, done tt) (done tt) Ha Hb (keeps_done tt) (λ _, keeps_done tt) s Hs)
    as (a & s' & E & H). exists a, s'. split; [|done]. rewrite <- E. unfold flush, seq_eff.
  destruct (takeBatch cfg s) as [[b|e] s1]; [|done]. destruct (is_empty b); [done|].
  by destruct (processBatch cfg d b s1) as [[[]|] s2].
Qed.

Lemma keeps_op op : analysable cfg d → 0 < cf_BatchSize cfg → keeps_buffer (run_op cfg d op).
Proof.
  intros Ha Hb. destruct op as [e| | |fuel]; simpl.
  - apply keeps_bind; [apply keeps_enqueue|intros; apply keeps_done].
  - by apply keeps_flush.
  - unfold rescanPending. destruct (dp_pending d) as [pending|]; [|apply keeps_done].
    apply keeps_bind; [by apply (keeps_emits _ (λ _ _, True)), emits_ask|]. intros [[|e l]|];
      [apply keeps_done| |apply keeps_done].
    apply keeps_bind; [apply keeps_enqueue|intros; apply keeps_done].
  - apply keeps_bind; [by apply keeps_flushAll|intros; apply keeps_done].
Qed.
End buffer.

(** A lead waits at most once. With a positive batch size and no panic possible, any sequence of ingests, flushes, rescans and drains, batches put back included, ends without a panic and keeps the buffer free of empty and of repeated hashes. *)
Theorem buffer_stays_unique cfg d ops s :
  analysable cfg d → 0 < cf_BatchSize cfg → buffer_ok (sv_buffer s) →
  ∃ s', run_ops cfg d ops s = (inl tt, s') ∧ buffer_ok (sv_buffer s').
Proof.
  intros Ha Hb. revert s. induction ops as [|op ops IH]; intros s Hs; cbn [run_ops]; [by exists s|].
  destruct (keeps_op cfg d op Ha Hb s Hs) as (a & s1 & E & H1).
  erewrite seq_run by exact E. by apply IH.
Qed.

(** ** A lead analysed twice *)

Lemma one_patch_patches cfg e finalize p new :
  one_patch cfg e finalize p new → ∃ ok, patches new = [(p, ok)].
Proof.
  intros [_ (pre & ok & post & -> & [Hpre _] & Hpost & _)]. exists ok.
  change (Patch p ok :: post) with ([Patch p ok] ++ post). by rewrite !patches_app, Hpre, Hpost.
Qed.

(** A hot answer that the geography does not reject. *)
Definition hot_answer (cfg : Config) (res : LeadBatchResult) : Prop :=
  geo_rejects cfg res = false ∧ icp_Hot (lr_ICP res) = true ∧ icp_ICP (lr_ICP res) ≠ "none".

Lemma hot_answer_patch cfg d reg e res highMin finalize s :
  dp_registry d = Some reg → hot_answer cfg res → is_zero_time (ev_PostedAt e) = true →
  ∃ new p ok, applyResultFinalize cfg d e res highMin finalize s = (inl tt, extend s new)
    ∧ patches new = [(p, ok)] ∧ pa_HashID p = ev_HashID e ∧ vd_Score (pa_Verdict p) = ev_Score e + 12
    ∧ final_status finalize (pa_AnalysisStatus p).
Proof.
  intros Hr (Hg & Hh & Hi) Hp. unfold applyResultFinalize. rewrite Hg.
  erewrite seq_run by reflexivity. unfold decayed. rewrite Hp, andb_false_r, Hr.
  unfold ApplyICPToScore, not_icp. rewrite Hh, (proj2 (String.eqb_neq _ _) Hi). cbn [andb negb fst].
  match goal with |- context [finish_result _ _ _ _ _ ?sc ?pr] =>
    destruct (finish_result_emits cfg d e res finalize sc pr s) as ([] & new & E & p & Hop & Hf & _ & Hs & _)
  end.
  destruct (one_patch_patches _ _ _ _ _ Hop) as [ok Hok]. exists new, p, ok.
  split_and!; try done. apply Hop.
Qed.

(** A lead that waits for its engagement pass can be paid twice. A hot answer applied before the engagement pass writes the raised score to the document and leaves it pending; a rescan of pending leads rebuilds the event from that document, so the same answer raises the score again: the lead ends with the hot bonus of 12 counted twice. *)
Theorem rescan_counts_hot_twice cfg d reg e res highMin doc now s s' :
  dp_registry d = Some reg → hot_answer cfg res → is_zero_time (ev_PostedAt e) = true →
  0 < ev_Score e + 12 →
  ∃ new p ok, applyResultPending cfg d e res highMin s = (inl tt, extend s new)
    ∧ patches new = [(p, ok)] ∧
    let doc' := patch_set now p ∪ doc in
    get_str "analysis_status" doc' = "pending" ∧
    ev_Score (EventFromLeadDoc doc') = ev_Score e + 12 ∧
    ∃ new' p' ok', applyResult cfg d (EventFromLeadDoc doc') res highMin s' = (inl tt, extend s' new')
      ∧ patches new' = [(p', ok')] ∧ vd_Score (pa_Verdict p') = ev_Score e + 24.
Proof.
  intros Hr Hh Hz Hpos.
  destruct (hot_answer_patch cfg d reg e res highMin false s Hr Hh Hz)
    as (new & p & ok & E & Hp & _ & Hs & Hf).
  exists new, p, ok. split; [exact E|]. split; [exact Hp|]. cbv zeta.
  assert (Hscore : ev_Score (EventFromLeadDoc (patch_set now p ∪ doc)) = ev_Score e + 12).
  { simpl. unfold get_int. rewrite union_field, patch_set_score. unfold pos_int. rewrite Hs.
    by rewrite (proj2 (Z.ltb_lt _ _) Hpos). }
  split_and!; [|exact Hscore|].
  - unfold get_str. rewrite union_field, patch_set_status. by destruct Hf as [->|[]].
  - destruct (hot_answer_patch cfg d reg (EventFromLeadDoc (patch_set now p ∪ doc)) res highMin true s' Hr Hh)
      as (new' & p' & ok' & E' & Hp' & _ & Hs' & _); [done|].
    exists new', p', ok'. split_and!; [exact E'|exact Hp'|]. rewrite Hs', Hscore. lia.
Qed.

(** ** The warm path at work: concrete services on which its theorems apply *)

Module WarmRuns.
Definition event (hash snippet : string) (score : Z) : Event := {|
  ev_HashID := hash; ev_RoundID := "r1"; ev_Source := "reddit:affiliate"; ev_Title := "t";
  ev_Snippet := snippet; ev_Contacts := ["telegram:@buyer"]; ev_ContactTypes := ["telegram"];
  ev_Stack := []; ev_Score := score; ev_Priority := "Medium"; ev_Matched := []; ev_Domain := estr;
  ev_RDAPCountry := estr; ev_DomainAgeDays := 0; ev_DisplayName := estr; ev_EntityID := estr;
  ev_EntityHeat := S754_zero false; ev_HeatTier := estr; ev_InlineICP := estr;
  ev_PostedAt := zero_time; ev_DisplacementTier := estr; ev_EngagePriority := 0;
  ev_TS := 5 * second |}.

Definition config (attempts : Z) : Config := with_defaults {|
  cf_AnalyzeInterval := 0; cf_BatchSize := 2; cf_EngageEnabled := true; cf_EnrichEnabled := false;
  cf_PilotTagEnabled := true; cf_GeoBlockCountries := []; cf_GeoClassifyEnabled := true;
  cf_CRMWebhook := true; cf_CRMWebhookAfterAnalysis := true; cf_RetryMaxAttempts := attempts;
  cf_RetryBaseDelay := 0; cf_PendingRescanInterval := 0; cf_PendingStaleAge := 0;
  cf_ShutdownDrainTimeout := 0; cf_EngageMediumEnabled := false; cf_EngageBatchSize := 0;
  cf_TimeDecayEnabled := false; cf_ChannelTriageEnabled := true; cf_BatchEngageEnabled := false;
  cf_BatchEnrichEnabled := false |}.

Definition answer (hot : bool) (icp id : string) : LeadBatchResult := {|
  lr_HashID := id; lr_Geo := no_geo;
  lr_ICP := {| icp_ICP := icp; icp_Hot := hot; icp_SpendTier := "unknown"; icp_Why := estr |};
  lr_Engagement := no_engagement; lr_Enrichment := no_synth_result; lr_PilotQualified := false;
  lr_PilotTags := [] |}.

(** A model that answers hot, except about leads named cold; a store that accepts; a
    prescan that knows one spam text. *)
Definition answers (_ : list call) (inputs : list LeadBatchInput) (_ : LeadBatchOptions)
    : option (list LeadBatchResult) :=
  Some ((λ i, if String.eqb (li_ID i) "cold" then answer false "none" "cold"
              else answer true "pro" (li_ID i)) <$> inputs).

Definition deps : Deps := {|
  dp_registry := Some (NewRegistry estr); dp_now := λ _, 100 * second; dp_patch := λ _ _, true;
  dp_analyze := answers; dp_cancelled := λ _, false;
  dp_prescan := Some (λ _ text, Some (String.eqb text "spam")); dp_cluster := None;
  dp_junk := true; dp_dlq := true; dp_engageMedium := None; dp_spill := None; dp_pending := None |}.

(** The drain after its deadline: the model fails and the context is done. *)
Definition expired : Deps := {|
  dp_registry := Some (NewRegistry estr); dp_now := λ _, 100 * second; dp_patch := λ _ _, true;
  dp_analyze := λ _ _ _, None; dp_cancelled := λ _, true; dp_prescan := None; dp_cluster := None;
  dp_junk := true; dp_dlq := true; dp_engageMedium := None; dp_spill := None; dp_pending := None |}.

Definition empty_service : Service := {| sv_buffer := []; sv_calls := [] |}.
Definition waiting : Service := {|
  sv_buffer := [event "a" "need a tracker" 20; event "b" "spam" 20; event "cold" "hello" 1];
  sv_calls := [] |}.

Definition ops : list service_op :=
  [OpIngest (event "a" "need a tracker" 20); OpIngest (event "b" "spam" 20);
   OpIngest (event "a" "again" 20); OpIngest (event "cold" "hello" 1); OpFlush; OpRescan; OpFlushAll 5].

(** The trace of that run: [b] is junk, [a] is done and announced, [cold] is rejected. *)
Definition statuses (t : list call) : list (string * string) :=
  (λ x : LeadAnalysisPatch * bool, (pa_HashID x.1, pa_AnalysisStatus x.1)) <$> patches t.

Example run_statuses :
  statuses (sv_calls (run_ops (config 3) deps ops empty_service).2)
  = [("b", "warm_prescan_spam"); ("a", "done"); ("cold", "icp_rejected")]
  ∧ length (notified (sv_calls (run_ops (config 3) deps ops empty_service).2)) = 1%nat.
Proof. by vm_compute. Qed.

Lemma crm_contract_holds_witness :
  sv_calls empty_service = [] ∧
  crm_contract (sv_calls (run_ops (config 3) deps ops empty_service).2).
Proof. split; [done|by apply crm_contract_holds]. Defined.

Lemma answer_is_one_patch_witness :
  analysable (config 3) deps ∧
  ∃ new p, applyResultFinalize (config 3) deps (event "a" "x" 20) (answer true "pro" "a") 35 true waiting
      = (inl tt, extend waiting new)
    ∧ one_patch (config 3) (event "a" "x" 20) true p new
    ∧ answer_patch (config 3) deps (event "a" "x" 20) (answer true "pro" "a") 35 true p.
Proof. split; [by left|]. apply answer_is_one_patch. by left. Defined.

Lemma processBatch_exact_witness :
  analysable (config 3) deps ∧
  ∃ clean rest n1 n2 n3 buffer',
    processBatch (config 3) deps (sv_buffer waiting) empty_service
    = (inl tt, {| sv_buffer := buffer'; sv_calls := sv_calls empty_service ++ n1 ++ n2 ++ n3 |})
    ∧ filtered "warm_prescan_spam" (sv_buffer waiting) clean n1 ∧ filtered "duplicate" clean rest n2
    ∧ batch_end (config 3) deps (sv_calls empty_service ++ n1 ++ n2) rest (sv_buffer empty_service)
        buffer' n3.
Proof. split; [by left|]. apply processBatch_exact. by left. Defined.

Lemma flushAll_returns_witness :
  ∃ calls, flushAll (config 3) deps 4 waiting = (inl true, {| sv_buffer := []; sv_calls := calls |}).
Proof.
  apply flushAll_returns; [by left|done| |simpl; lia]. by split.
Defined.

Lemma flushAll_never_returns_witness :
  always_requeues (config 3) expired ∧
  ∃ calls, flushAll (config 3) expired 1000 waiting
    = (inl false, {| sv_buffer := sv_buffer waiting; sv_calls := calls |}).
Proof.
  assert (H : always_requeues (config 3) expired).
  { split; [done|]. split; [done|]. right. split; [done|]. split; [done|]. by split. }
  split; [exact H|]. by apply flushAll_never_returns.
Defined.

Lemma buffer_stays_unique_witness :
  buffer_ok [] ∧ ∃ s', run_ops (config 3) deps ops empty_service = (inl tt, s') ∧ buffer_ok (sv_buffer s').
Proof.
  assert (H : buffer_ok []) by (split; constructor). split; [exact H|].
  apply buffer_stays_unique; [by left|done|exact H].
Defined.

Lemma rescan_counts_hot_twice_witness :
  hot_answer (config 3) (answer true "pro" "a") ∧
  ∃ new p ok, applyResultPending (config 3) deps (event "a" "x" 20) (answer true "pro" "a") 35 waiting
      = (inl tt, extend waiting new)
    ∧ patches new = [(p, ok)] ∧
    let doc' := patch_set 0 p ∪ ∅ in
    get_str "analysis_status" doc' = "pending" ∧
    ev_Score (EventFromLeadDoc doc') = ev_Score (event "a" "x" 20) + 12 ∧
    ∃ new' p' ok', applyResult (config 3) deps (EventFromLeadDoc doc') (answer true "pro" "a") 35 waiting
        = (inl tt, extend waiting new')
      ∧ patches new' = [(p', ok')] ∧ vd_Score (pa_Verdict p') = ev_Score (event "a" "x" 20) + 24.
Proof.
  assert (H : hot_answer (config 3) (answer true "pro" "a")) by (by vm_compute).
  split; [exact H|].
  by apply (rescan_counts_hot_twice (config 3) deps (NewRegistry estr) (event "a" "x" 20)
              (answer true "pro" "a") 35 ∅ 0 waiting waiting).
Defined.
End WarmRuns.
