(* ===== verification/Spill.v ===== *)
(** The spill files of the batch worker ([internal/warmpath/]: batch_spill.go,
    batch_engage_spill.go): records appended as JSON lines and drained together.

    The two files have the same code over different records, so they are one section over the
    type of records, the test that a record is not empty, and the encoding of [encoding/json]
    as a parameter.  A worker needs only the laws of the class [SpoolLaws]: what is drained is
    what was appended, in order; the file satisfies them ([disk_laws]) while no write is torn. *)
From S2P Require Import Prelude Unicode GoStrings Utf8Facts TextFacts Validate.

Local Open Scope Z_scope.

(** ** Lines of a file *)

Definition max_line : Z := Z.shiftl 4 20.

(** The lines of the scanner; [None] when one is too long. *)
Fixpoint short_lines (l : list string) : option (list string) :=
  match l with
  | [] => Some []
  | x :: l' =>
      if max_line <=? Z.of_nat (slen x) then None
      else match short_lines l' with Some ls => Some (drop_cr x :: ls) | None => None end
  end.

Definition file_lines (content : string) : option (list string) :=
  short_lines (drop_last_empty (Split content newline)).

(** ** Spill files *)

(** What happens to a write: it is done, the file cannot be opened, only some bytes reach it,
    or closing the file fails after the write; and to a drain. *)
Inductive write_outcome := WriteOk | OpenFails | TornWrite (n : nat) | CloseFails.
Inductive drain_outcome := DrainOk | ReadFails | RemoveFails.

(** The contents of the file, if it exists. *)
Definition spill_file : Type := option string.

Section spill.
Context {R : Type} (filled : R → bool) (marshal : R → option string) (unmarshal : string → option R).

Definition Append (o : write_outcome) (rec : R) (file : spill_file) : bool * spill_file :=
  if negb (filled rec) then (false, file)
  else match marshal rec with
       | None => (false, file)
       | Some line =>
           let data := line +:+ newline in
           match o with
           | WriteOk => (true, Some (default estr file +:+ data))
           | OpenFails => (false, file)
           | TornWrite n => (false, Some (default estr file +:+ stake n data))
           | CloseFails => (false, Some (default estr file +:+ data))
           end
       end.

Fixpoint decode_lines (lines : list string) : option (list R) :=
  match lines with
  | [] => Some []
  | line :: rest =>
      if String.eqb line estr then decode_lines rest
      else match unmarshal line with
           | None => None
           | Some rec =>
               match decode_lines rest with
               | None => None
               | Some out => Some (if filled rec then rec :: out else out)
               end
           end
  end.

Definition Drain (o : drain_outcome) (file : spill_file) : option (list R) * spill_file :=
  match file with
  | None => (Some [], None)
  | Some content =>
      match o with
      | ReadFails => (None, file)
      | _ =>
          match file_lines content with
          | None => (None, file)
          | Some lines =>
              match decode_lines lines with
              | None => (None, file)
              | Some out => match o with RemoveFails => (None, file) | _ => (Some out, None) end
              end
          end
      end
  end.

(** ** Facts *)

(** The file of some lines. *)
Fixpoint text_of (lines : list string) : string :=
  match lines with [] => estr | l :: ls => l +:+ newline +:+ text_of ls end.

Lemma text_of_app l1 l2 : text_of (l1 ++ l2) = text_of l1 +:+ text_of l2.
Proof. induction l1 as [|l l1 IH]; [done|]. cbn [app text_of]. by rewrite IH, !app_assoc_s. Qed.

(** A line that is one line. *)
Definition one_line (l : string) : Prop := Contains l newline = false.

Lemma Split_line l t : one_line l → Split (l +:+ String (byte_of 10) t) newline = l :: Split t newline.
Proof. intros Hl. unfold Split, newline in *. by apply split_from_app. Qed.

Lemma Split_text lines rest :
  Forall one_line lines → Split (text_of lines +:+ rest) newline = lines ++ Split rest newline.
Proof.
  induction 1 as [|l ls Hl _ IH]; [done|]. cbn [text_of app]. rewrite <- !app_assoc_s.
  unfold newline at 1. cbn [String.append]. rewrite Split_line by done. by rewrite IH.
Qed.

Lemma drop_last_empty_snoc l : drop_last_empty (l ++ [estr]) = l.
Proof. unfold drop_last_empty. rewrite reverse_app. simpl. apply reverse_involutive. Qed.

(** [line] encodes [rec]. *)
Record encodes (rec : R) (line : string) : Prop := {
  enc_filled : filled rec = true;
  enc_marshal : marshal rec = Some line;
  enc_unmarshal : unmarshal line = Some rec;
  enc_one : one_line line;
  enc_cr : drop_cr line = line;
  enc_nonempty : line ≠ estr }.

(** The file holds exactly the records. *)
Definition file_holds (file : spill_file) (recs : list R) : Prop :=
  ∃ lines, Forall2 encodes recs lines ∧
    match file with Some content => content = text_of lines | None => recs = [] end.

Lemma short_lines_id lines :
  Forall (λ l, drop_cr l = l) lines →
  short_lines lines = if forallb (λ l, Z.of_nat (slen l) <? max_line) lines then Some lines else None.
Proof.
  induction 1 as [|l lines Hl _ IH]; [done|]. cbn [short_lines forallb].
  rewrite IH, Hl, (Z.ltb_antisym max_line). destruct (max_line <=? _); [done|]. cbn [negb andb].
  by destruct (forallb _ lines).
Qed.

Lemma encodes_lines recs lines :
  Forall2 encodes recs lines → short_lines lines = file_lines (text_of lines) ∧ decode_lines lines = Some recs.
Proof.
  intros H. split.
  - assert (H1 : Forall one_line lines) by (induction H as [|r l rs ls []]; by constructor).
    unfold file_lines. rewrite <- (app_nil_r_s (text_of lines)), Split_text by done.
    change (Split estr newline) with [estr]. by rewrite drop_last_empty_snoc.
  - induction H as [|r l rs ls [] _ IH]; [done|]. cbn [decode_lines].
    rewrite (proj2 (String.eqb_neq l estr)) by done. by rewrite enc_unmarshal0, IH, enc_filled0.
Qed.

(** Every record that marshals has an encoding. *)
Definition faithful : Prop := ∀ rec line, filled rec = true → marshal rec = Some line → encodes rec line.

Lemma Append_holds o rec file recs :
  faithful → o = WriteOk ∨ o = OpenFails → file_holds file recs →
  let '(ok, file') := Append o rec file in file_holds file' (if ok then recs ++ [rec] else recs).
Proof.
  intros Hf Ho (lines & Hl & Hc). unfold Append. destruct (filled rec) eqn:Hr; [|by exists lines].
  cbn [negb]. destruct (marshal rec) as [line|] eqn:Hm; [|by exists lines].
  destruct Ho as [->| ->]; [|by exists lines]. exists (lines ++ [line]).
  split; [apply Forall2_app; [done|constructor; [by apply Hf|constructor]]|].
  rewrite text_of_app. cbn [text_of]. destruct file as [content|]; cbn [default]; [by rewrite Hc|].
  subst recs. by apply Forall2_nil_inv_l in Hl as ->.
Qed.

(** A drain gives everything and empties the file, or gives nothing and leaves it. *)
Lemma Drain_holds o file recs :
  file_holds file recs →
  Drain o file = (Some recs, None) ∨ Drain o file = (None, file).
Proof.
  intros (lines & Hl & Hc). unfold Drain. destruct file as [content|]; [subst content|subst; by left].
  destruct (encodes_lines recs lines Hl) as [<- Hd].
  rewrite short_lines_id by (clear Hd; induction Hl as [|r l rs ls []]; by constructor).
  destruct o; [|by right|]; (destruct (forallb _ lines); [rewrite Hd|]; auto).
Qed.

(** When every line is short enough, a drain that can read and remove the file succeeds. *)
Lemma Drain_succeeds recs lines :
  Forall2 encodes recs lines → Forall (λ l, Z.of_nat (slen l) < max_line) lines →
  Drain DrainOk (Some (text_of lines)) = (Some recs, None).
Proof.
  intros Hl Hs. unfold Drain. destruct (encodes_lines recs lines Hl) as [<- Hd].
  rewrite short_lines_id by (clear Hd Hs; induction Hl as [|r l rs ls []]; by constructor).
  assert (forallb (λ l, Z.of_nat (slen l) <? max_line) lines = true) as ->; [|by rewrite Hd].
  apply forallb_forall. intros l Hin%list_elem_of_In. rewrite Forall_forall in Hs. by apply Z.ltb_lt, Hs.
Qed.

(** A terminated line that is neither empty nor a record. *)
Definition bad_line (l : string) : Prop :=
  one_line l ∧ drop_cr l ≠ estr ∧ unmarshal (drop_cr l) = None.

Definition poisoned (content : string) : Prop :=
  ∃ lines bad rest, content = text_of lines +:+ bad +:+ newline +:+ rest
    ∧ Forall one_line lines ∧ bad_line bad.

Lemma short_lines_elem l ls x : short_lines l = Some ls → x ∈ l → drop_cr x ∈ ls.
Proof.
  revert ls. induction l as [|y l IH]; intros ls; [set_solver|]. cbn [short_lines].
  destruct (_ <=? _); [done|]. destruct (short_lines l) as [ls'|]; [|done]. intros [= <-].
  rewrite !elem_of_cons. intros [->|Hx]; [by left|]. right. by apply IH.
Qed.

Lemma decode_bad lines l :
  l ∈ lines → l ≠ estr → unmarshal l = None → decode_lines lines = None.
Proof.
  intros Hl Hne Hu. induction lines as [|x lines IH]; [set_solver|]. cbn [decode_lines].
  apply elem_of_cons in Hl as [->|Hl].
  - by rewrite (proj2 (String.eqb_neq x estr) Hne), Hu.
  - destruct (String.eqb x estr); [by apply IH|]. destruct (unmarshal x); [|done]. by rewrite IH.
Qed.

Lemma Split_nonempty t : Split t newline ≠ [].
Proof.
  unfold Split. generalize 0%nat, estr. induction t as [|a t IH]; intros n cur; [done|].
  cbn [split_from]. destruct n as [|n]; [destruct (prefixb _ _)|]; [done|apply IH..].
Qed.

Lemma elem_of_drop_last_empty x (l1 l2 : list string) :
  l2 ≠ [] → x ∈ l1 → x ∈ drop_last_empty (l1 ++ l2).
Proof.
  intros Hne Hx. destruct l2 as [|y l2 _] using rev_ind; [done|]. rewrite (assoc app).
  unfold drop_last_empty. rewrite reverse_snoc. destruct y; [|set_solver].
  rewrite reverse_involutive. set_solver.
Qed.

Lemma Drain_poisoned o content : poisoned content → Drain o (Some content) = (None, Some content).
Proof.
  intros (lines & bad & rest & -> & Hl & Hone & Hne & Hu). unfold Drain. destruct o; try done.
  all: destruct (file_lines _) as [ls|] eqn:E; [|done]; rewrite (decode_bad ls (drop_cr bad)); try done.
  all: eapply short_lines_elem; [exact E|].
  all: rewrite Split_text by done; unfold newline at 1; cbn [String.append].
  all: rewrite Split_line by done; change (bad :: ?t) with ([bad] ++ t); rewrite (assoc app).
  all: apply elem_of_drop_last_empty; [apply Split_nonempty|set_solver].
Qed.
(** A file that holds a poisoned line holds it after any append. *)
Lemma Append_poisoned o rec content :
  poisoned content → ∃ content', (Append o rec (Some content)).2 = Some content' ∧ poisoned content'.
Proof.
  intros (lines & bad & rest & -> & Hl & Hb).
  assert (Hmore : ∀ t, poisoned ((text_of lines +:+ bad +:+ newline +:+ rest) +:+ t)).
  { intros t. exists lines, bad, (rest +:+ t). by rewrite <- !app_assoc_s. }
  assert (Hsame : poisoned (text_of lines +:+ bad +:+ newline +:+ rest)) by (by exists lines, bad, rest).
  unfold Append. destruct (filled rec); cbn [negb]; [|eauto].
  destruct (marshal rec) as [line|]; [|eauto]. destruct o; cbn [default snd]; eauto.
Qed.
End spill.

(** ** The interface of a spill queue *)

Class Spool (R F : Type) := {
  spool_append : R → F → bool * F;
  spool_drain : F → option (list R) * F }.

(** What a client may rely on: an accepted record is kept, a refused one is not; a drain
    gives every record in order and empties the queue, or gives none and keeps them. *)
Class SpoolLaws (R F : Type) `{Spool R F} := {
  spool_holds : F → list R → Prop;
  spool_append_law f rs r : spool_holds f rs →
    let '(ok, f') := spool_append r f in spool_holds f' (if ok then rs ++ [r] else rs);
  spool_drain_law f rs : spool_holds f rs →
    (∃ f', spool_drain f = (Some rs, f') ∧ spool_holds f' [])
    ∨ (∃ f', spool_drain f = (None, f') ∧ spool_holds f' rs) }.

(** A spill file on a disk, with the outcomes of its next writes and drains; a call beyond
    them succeeds. *)
Record spill_disk := {
  sd_file : spill_file; sd_writes : list write_outcome; sd_drains : list drain_outcome }.

Definition next {A} (def : A) (l : list A) : A := default def (head l).

Section disk.
Context {R : Type} (filled : R → bool) (marshal : R → option string) (unmarshal : string → option R).

Definition disk_append (r : R) (d : spill_disk) : bool * spill_disk :=
  let '(ok, file) := Append filled marshal (next WriteOk (sd_writes d)) r (sd_file d) in
  (ok, {| sd_file := file; sd_writes := tail (sd_writes d); sd_drains := sd_drains d |}).

Definition disk_drain (d : spill_disk) : option (list R) * spill_disk :=
  let '(out, file) := Drain filled unmarshal (next DrainOk (sd_drains d)) (sd_file d) in
  (out, {| sd_file := file; sd_writes := sd_writes d; sd_drains := tail (sd_drains d) |}).

Definition disk_spool : Spool R spill_disk := {| spool_append := disk_append; spool_drain := disk_drain |}.

(** No write is torn, and no file fails to close after one. *)
Definition whole_writes (l : list write_outcome) : Prop := Forall (λ o, o = WriteOk ∨ o = OpenFails) l.

Definition disk_holds (d : spill_disk) (rs : list R) : Prop :=
  whole_writes (sd_writes d) ∧ file_holds filled marshal unmarshal (sd_file d) rs.

Lemma next_write l : whole_writes l → next WriteOk l = WriteOk ∨ next WriteOk l = OpenFails.
Proof. intros [|o l' Ho _]; [by left|done]. Qed.

Lemma tail_writes l : whole_writes l → whole_writes (tail l).
Proof. by intros [|o l' _ Hl]; [constructor|]. Qed.

Lemma disk_append_law (Hf : faithful filled marshal unmarshal) d rs r :
  disk_holds d rs →
  let '(ok, d') := disk_append r d in disk_holds d' (if ok then rs ++ [r] else rs).
Proof.
  intros [Hw Hh]. unfold disk_append.
  pose proof (Append_holds filled marshal unmarshal _ r _ rs Hf (next_write _ Hw) Hh) as Ha.
  destruct (Append _ _ _ _ _) as [ok file]. split; [by apply tail_writes|exact Ha].
Qed.

Lemma disk_drain_law d rs :
  disk_holds d rs →
  (∃ d', disk_drain d = (Some rs, d') ∧ disk_holds d' [])
  ∨ (∃ d', disk_drain d = (None, d') ∧ disk_holds d' rs).
Proof.
  intros [Hw Hh]. unfold disk_drain.
  destruct (Drain_holds filled marshal unmarshal (next DrainOk (sd_drains d)) _ rs Hh) as [-> | ->].
  - left. eexists. split; [done|]. split; [done|]. by exists [].
  - right. eexists. split; [done|]. by split.
Qed.

(** The file keeps the promises of the interface when the encoding is faithful. *)
Definition disk_laws (Hf : faithful filled marshal unmarshal) : @SpoolLaws R spill_disk disk_spool :=
  @Build_SpoolLaws R spill_disk disk_spool disk_holds (disk_append_law Hf) disk_drain_law.
End disk.

(** ** A torn write *)

Inductive spill_op (R : Type) := OpAppend (o : write_outcome) (r : R) | OpDrain (o : drain_outcome).
Arguments OpAppend {R}.
Arguments OpDrain {R}.

Section ops.
Context {R : Type} (filled : R → bool) (marshal : R → option string) (unmarshal : string → option R).

(** The answers of the drains, and the file. *)
Fixpoint spill_run (ops : list (spill_op R)) (file : spill_file)
    : list (option (list R)) * spill_file :=
  match ops with
  | [] => ([], file)
  | OpAppend o r :: rest => spill_run rest (Append filled marshal o r file).2
  | OpDrain o :: rest =>
      let '(out, file') := Drain filled unmarshal o file in
      let '(outs, final) := spill_run rest file' in (out :: outs, final)
  end.

Lemma poisoned_run ops content :
  poisoned unmarshal content →
  Forall (λ out, out = None) (spill_run ops (Some content)).1.
Proof.
  revert content. induction ops as [|[o r|o] ops IH]; intros content Hp; cbn [spill_run]; [constructor| |].
  - destruct (Append_poisoned filled marshal unmarshal o r content Hp) as (content' & E & Hp').
    rewrite E. by apply IH.
  - rewrite Drain_poisoned by done. specialize (IH content Hp).
    destruct (spill_run ops (Some content)) as [outs final]. by constructor.
Qed.

Lemma stake_within (n : nat) (s t : string) : (n ≤ slen s)%nat → stake n (s +:+ t) = stake n s.
Proof.
  revert n. induction s as [|a s IH]; intros [|n] Hn; simpl in *; try done; [lia|].
  f_equal. apply IH. unfold slen in *. simpl in *. lia.
Qed.
End ops.

(** A torn write silences the queue. When a write of a record stops before its end and a later record is appended to the same file, the two run together in one line; unless that line happens to decode, every drain from then on fails, whatever is appended, because one line that does not decode fails the drain and the file is only removed by a drain that succeeds. *)
Theorem torn_write_jams {R} (filled : R → bool) marshal unmarshal lines n torn line1 r line2 ops :
  Forall one_line lines → marshal torn = Some line1 → (n ≤ slen line1)%nat → filled torn = true →
  filled r = true → marshal r = Some line2 → bad_line unmarshal (stake n line1 +:+ line2) →
  let written := spill_run filled marshal unmarshal
    [OpAppend (TornWrite n) torn; OpAppend WriteOk r] (Some (text_of lines)) in
  Forall (λ out, out = None) (spill_run filled marshal unmarshal ops written.2).1.
Proof.
  intros Hl Hm1 Hn Hf1 Hf2 Hm2 Hbad. cbn [spill_run snd]. unfold Append. rewrite Hf1, Hm1, Hf2, Hm2.
  cbn [negb default snd]. rewrite stake_within by done. apply poisoned_run.
  exists lines, (stake n line1 +:+ line2), estr. split; [|done]. unfold id. by rewrite <- !app_assoc_s.
Qed.

Module SpillExamples.
Definition marshal (b : bool) : option string := Some (if b then "true" else "false").
Definition unmarshal (s : string) : option bool :=
  if String.eqb s "true" then Some true else if String.eqb s "false" then Some false else None.

Lemma torn_write_jams_witness :
  (spill_run (λ _, true) marshal unmarshal [OpDrain DrainOk] (Some (text_of ["true"]))).1 = [Some [true]] ∧
  let written := spill_run (λ _, true) marshal unmarshal
    [OpAppend (TornWrite 2) true; OpAppend WriteOk false] (Some (text_of ["true"])) in
  Forall (λ out, out = None) (spill_run (λ _, true) marshal unmarshal
    [OpDrain DrainOk; OpAppend WriteOk true; OpDrain DrainOk] written.2).1.
Proof.
  split; [by vm_compute|].
  apply (torn_write_jams (λ _, true) marshal unmarshal ["true"] 2 true "true" false "false");
    try done; [by repeat constructor|apply (bool_decide_unpack (2 ≤ slen "true")%nat); by vm_compute].
Defined.
End SpillExamples.
