(* ===== verification/BatchApi.v ===== *)
(** The client of the batch API ([internal/gemini/batch_api.go]): submitting the lines of a
    job inline or as an uploaded file, polling a job, downloading its output.

    The transport answers as a function of the requests made before; the encodings of
    [encoding/json] are parameters.  Addresses, headers and error texts are not modelled: an
    error ends the computation. *)
From S2P Require Import Prelude Unicode GoStrings TextFacts Scoring LeadBatch Effects.

Local Open Scope Z_scope.
Local Open Scope eff_scope.

(** ** Jobs and lines *)

Definition BatchStatePending : string := "JOB_STATE_PENDING".
Definition BatchStateRunning : string := "JOB_STATE_RUNNING".
Definition BatchStateSucceeded : string := "JOB_STATE_SUCCEEDED".
Definition BatchStateFailed : string := "JOB_STATE_FAILED".
Definition BatchStateCancelled : string := "JOB_STATE_CANCELLED".
Definition BatchStateExpired : string := "JOB_STATE_EXPIRED".

Record BatchInlineResponse := { ir_Key : string; ir_Response : string; ir_Error : string }.
Record BatchJob := {
  bj_Name : string; bj_State : string; bj_OutputFile : string; bj_Error : string;
  bj_InlineResponses : list BatchInlineResponse }.
Record BatchJSONLLine := { jl_Key : string; jl_Request : string }.

Definition batchInlineMaxBytes : Z := Z.shiftl 18 20.

(** ** Answers of the API, decoded *)

(** A generated answer: its candidates, each the texts of its parts. *)
Definition generateResponse : Type := list (list string).

Record inlined_response := {
  in_Key : string; in_Response : option generateResponse; in_Error : option string }.
Record batchJobResponse := {
  jr_Name : string; jr_State : string; jr_DestFileName : string;
  jr_DestInlined : list inlined_response; jr_ResponsesFile : string;
  jr_OutputInlined : list inlined_response; jr_MetadataState : string; jr_Error : option string }.

Fixpoint firstNonEmpty (values : list string) : string :=
  match values with
  | [] => estr
  | v :: rest => if String.eqb (TrimSpace v) estr then firstNonEmpty rest else TrimSpace v
  end.

Definition batchResponseText (resp : generateResponse) : string :=
  match resp with (text :: _) :: _ => TrimSpace text | _ => estr end.

Definition inline_response (row : inlined_response) : BatchInlineResponse := {|
  ir_Key := in_Key row;
  ir_Response := match in_Error row, in_Response row with
                 | None, Some r => batchResponseText r
                 | _, _ => estr
                 end;
  ir_Error := default estr (in_Error row) |}.

Definition job_of_response (raw : batchJobResponse) : BatchJob := {|
  bj_Name := jr_Name raw; bj_State := firstNonEmpty [jr_State raw; jr_MetadataState raw];
  bj_OutputFile := firstNonEmpty [jr_DestFileName raw; jr_ResponsesFile raw];
  bj_Error := default estr (jr_Error raw);
  bj_InlineResponses := inline_response <$>
    (if is_empty (jr_DestInlined raw) then jr_OutputInlined raw else jr_DestInlined raw) |}.

(** ** Requests *)

Inductive api_call :=
  | UploadStart (displayName : string) (length : Z)
  | UploadData (data : string)
  | CreateFromFile (fileName displayName : string)
  | CreateInline (items : list (string * string)) (displayName : string)
  | GetJob (name : string)
  | Download (fileName : string).

(** [tr_url] is the upload address in the headers of an answer. *)
Record transport_answer := { tr_status : Z; tr_body : string; tr_url : string }.

Record Transport := {
  tp_do : list api_call → api_call → option transport_answer;
  tp_job : string → option batchJobResponse;
  tp_upload : string → option string;
  tp_line : BatchJSONLLine → option string }.

Inductive api_error := ApiFails.
Abbreviation Api := (eff (list api_call) api_error).

Section client.
Context (tp : Transport).

Definition request (c : api_call) : Api transport_answer := λ t,
  (match tp_do tp t c with Some a => inl a | None => inr ApiFails end, t ++ [c]).

Definition is_2xx (status : Z) : bool := (200 <=? status) && (status <? 300).

(** [postJSON] and [getJSON]. *)
Definition call_json (c : api_call) : Api string :=
  let! a := request c in
  if is_2xx (tr_status a) then done (tr_body a) else exit_with ApiFails.

Definition or_fail {A} (o : option A) : Api A :=
  match o with Some a => done a | None => exit_with ApiFails end.

Definition parseBatchJobResponse (body : string) : Api BatchJob :=
  let! raw := or_fail (tp_job tp body) in done (job_of_response raw).

Definition UploadBatchJSONL (data displayName : string) : Api string :=
  if String.eqb data estr then exit_with ApiFails
  else
    let! start := request (UploadStart displayName (Z.of_nat (slen data))) in
    if String.eqb (tr_url start) estr then exit_with ApiFails
    else
      let! up := request (UploadData data) in
      if negb (is_2xx (tr_status up)) then exit_with ApiFails
      else
        let! name := or_fail (tp_upload tp (tr_body up)) in
        if String.eqb name estr then exit_with ApiFails else done name.

Definition CreateBatchFromFile (fileName displayName : string) : Api BatchJob :=
  let! body := call_json (CreateFromFile fileName displayName) in parseBatchJobResponse body.

(** A line that is sent. *)
Definition sendable (l : BatchJSONLLine) : bool :=
  negb (String.eqb (TrimSpace (jl_Key l)) estr || String.eqb (jl_Request l) estr).

Definition inline_items (lines : list BatchJSONLLine) : list (string * string) :=
  (λ l, (jl_Request l, TrimSpace (jl_Key l))) <$> List.filter sendable lines.

Definition CreateBatchInline (lines : list BatchJSONLLine) (displayName : string) : Api BatchJob :=
  if is_empty lines then exit_with ApiFails
  else
    let! body := call_json (CreateInline (inline_items lines) displayName) in
    parseBatchJobResponse body.

(** The buffer of rows and the lines in it. *)
Fixpoint jsonl_rows (lines : list BatchJSONLLine) : option (string * list BatchJSONLLine) :=
  match lines with
  | [] => Some (estr, [])
  | l :: rest =>
      if negb (sendable l) then jsonl_rows rest
      else
        match tp_line tp l with
        | None => None
        | Some row =>
            match jsonl_rows rest with
            | None => None
            | Some (buf, parsed) => Some (row +:+ newline +:+ buf, l :: parsed)
            end
        end
  end.

Definition SubmitBatchJSONL (lines : list BatchJSONLLine) (displayName : string) : Api BatchJob :=
  if is_empty lines then exit_with ApiFails
  else
    let! (buf, parsed) := or_fail (jsonl_rows lines) in
    if is_empty parsed then exit_with ApiFails
    else if Z.of_nat (slen buf) <=? batchInlineMaxBytes then CreateBatchInline parsed displayName
    else
      let! fileName := UploadBatchJSONL buf displayName in
      CreateBatchFromFile fileName displayName.

Definition GetBatchJob (name : string) : Api BatchJob :=
  let name := TrimSpace name in
  if String.eqb name estr then exit_with ApiFails
  else let! body := call_json (GetJob name) in parseBatchJobResponse body.

Definition DownloadBatchFile (fileName : string) : Api string :=
  let fileName := TrimSpace fileName in
  if String.eqb fileName estr then exit_with ApiFails else call_json (Download fileName).
End client.

(** ** Facts *)

Lemma jsonl_rows_parsed tp lines buf parsed :
  jsonl_rows tp lines = Some (buf, parsed) → parsed = List.filter sendable lines.
Proof.
  revert buf parsed. induction lines as [|l lines IH]; intros buf parsed; cbn [jsonl_rows List.filter].
  { by intros [= <- <-]. }
  destruct (sendable l); cbn [negb]; [|by apply IH].
  destruct (tp_line tp l); [|done]. destruct (jsonl_rows tp lines) as [[buf' parsed']|]; [|done].
  intros [= <- <-]. f_equal. by eapply IH.
Qed.

(** The requests of a submission. *)
Inductive submission (tp : Transport) (lines : list BatchJSONLLine) (name : string)
    : list api_call → Prop :=
  | SubmitNothing : submission tp lines name []
  | SubmitInline buf sent :
      jsonl_rows tp lines = Some (buf, sent) → Z.of_nat (slen buf) ≤ batchInlineMaxBytes →
      submission tp lines name
        [CreateInline ((λ l, (jl_Request l, TrimSpace (jl_Key l))) <$> sent) name]
  | SubmitFile buf sent calls :
      jsonl_rows tp lines = Some (buf, sent) → batchInlineMaxBytes < Z.of_nat (slen buf) →
      (calls `prefix_of` [UploadStart name (Z.of_nat (slen buf)); UploadData buf]
       ∨ ∃ file, calls = [UploadStart name (Z.of_nat (slen buf)); UploadData buf;
                          CreateFromFile file name]) →
      submission tp lines name calls.

Lemma call_json_calls tp c t : (call_json tp c t).2 = t ++ [c].
Proof.
  unfold call_json, request, seq_eff. destruct (tp_do tp t c) as [a|]; [|done].
  by destruct (is_2xx _).
Qed.

Lemma parse_calls tp body t : (parseBatchJobResponse tp body t).2 = t.
Proof. unfold parseBatchJobResponse, or_fail, seq_eff. by destruct (tp_job tp body). Qed.

Lemma call_then_parse tp c t :
  ((let! body := call_json tp c in parseBatchJobResponse tp body) t).2 = t ++ [c].
Proof.
  unfold seq_eff. pose proof (call_json_calls tp c t) as H.
  destruct (call_json tp c t) as [[body|e] t']; simpl in *; subst; [apply parse_calls|done].
Qed.

Lemma filter_idem {A} (f : A → bool) l : List.filter f (List.filter f l) = List.filter f l.
Proof.
  induction l as [|x l IH]; [done|]. cbn [List.filter]. destruct (f x) eqn:E; [|done].
  cbn [List.filter]. by rewrite E, IH.
Qed.

Lemma jsonl_rows_filter tp lines buf parsed :
  jsonl_rows tp lines = Some (buf, parsed) → List.filter sendable parsed = parsed.
Proof. intros ->%jsonl_rows_parsed. apply filter_idem. Qed.

Lemma upload_calls tp data name t :
  ∃ calls, (UploadBatchJSONL tp data name t).2 = t ++ calls ∧
    (calls `prefix_of` [UploadStart name (Z.of_nat (slen data)); UploadData data]) ∧
    (∀ file, (UploadBatchJSONL tp data name t).1 = inl file →
       calls = [UploadStart name (Z.of_nat (slen data)); UploadData data]).
Proof.
  unfold UploadBatchJSONL, request, or_fail, seq_eff. destruct (String.eqb data estr).
  { exists []. split_and!; [by rewrite app_nil_r|by apply prefix_nil|done]. }
  assert (Hone : [UploadStart name (Z.of_nat (slen data))]
    `prefix_of` [UploadStart name (Z.of_nat (slen data)); UploadData data]) by (by exists [UploadData data]).
  destruct (tp_do tp t _) as [a|]; [|by eexists; split_and!].
  destruct (String.eqb (tr_url a) estr); [by eexists; split_and!|].
  exists [UploadStart name (Z.of_nat (slen data)); UploadData data].
  split; [|done]. destruct (tp_do tp _ _) as [u|]; simpl; [|by rewrite <- app_assoc].
  destruct (is_2xx _); simpl; [|by rewrite <- app_assoc].
  destruct (tp_upload tp _); simpl; [|by rewrite <- app_assoc].
  destruct (String.eqb _ estr); simpl; by rewrite <- app_assoc.
Qed.

(** The requests of a submission that yields a job. *)
Definition submitted (tp : Transport) (lines : list BatchJSONLLine) (name : string)
    (calls : list api_call) : Prop :=
  ∃ buf, jsonl_rows tp lines = Some (buf, List.filter sendable lines)
    ∧ List.filter sendable lines ≠ [] ∧
    if Z.of_nat (slen buf) <=? batchInlineMaxBytes
    then calls = [CreateInline (inline_items lines) name]
    else ∃ file, calls = [UploadStart name (Z.of_nat (slen buf)); UploadData buf;
                          CreateFromFile file name].

Lemma submitted_intro tp lines name calls buf sent :
  jsonl_rows tp lines = Some (buf, sent) → is_empty sent = false →
  (if Z.of_nat (slen buf) <=? batchInlineMaxBytes
   then calls = [CreateInline (inline_items lines) name]
   else ∃ file, calls = [UploadStart name (Z.of_nat (slen buf)); UploadData buf;
                         CreateFromFile file name]) →
  submitted tp lines name calls.
Proof.
  intros Hrows Hne Hc. pose proof (jsonl_rows_parsed _ _ _ _ Hrows) as E. subst sent. exists buf.
  split_and!; [done|by destruct (List.filter _ _)|done].
Qed.

Lemma submit_inline tp lines name t buf sent :
  jsonl_rows tp lines = Some (buf, sent) → is_empty sent = false →
  Z.of_nat (slen buf) ≤ batchInlineMaxBytes →
  let '(r, t') := CreateBatchInline tp sent name t in
  ∃ calls, t' = t ++ calls ∧ submission tp lines name calls ∧
    ∀ job, r = inl job → submitted tp lines name calls.
Proof.
  intros Hrows Hne Hle. unfold CreateBatchInline. rewrite Hne.
  pose proof (call_then_parse tp (CreateInline (inline_items sent) name) t) as Hc.
  destruct (seq_eff _ _ t) as [r t']. simpl in Hc. subst t'.
  exists [CreateInline (inline_items sent) name]. split; [done|]. split.
  - unfold inline_items. rewrite (jsonl_rows_filter _ _ _ _ Hrows). by eapply SubmitInline.
  - intros job _. eapply submitted_intro; [done..|]. rewrite (proj2 (Z.leb_le _ _) Hle).
    unfold inline_items. rewrite (jsonl_rows_parsed _ _ _ _ Hrows). by rewrite filter_idem.
Qed.

Lemma submit_file tp lines name t buf sent :
  jsonl_rows tp lines = Some (buf, sent) → is_empty sent = false →
  batchInlineMaxBytes < Z.of_nat (slen buf) →
  let '(r, t') := (let! fileName := UploadBatchJSONL tp buf name in
                   CreateBatchFromFile tp fileName name) t in
  ∃ calls, t' = t ++ calls ∧ submission tp lines name calls ∧
    ∀ job, r = inl job → submitted tp lines name calls.
Proof.
  intros Hrows Hne Hgt. unfold seq_eff at 1.
  destruct (upload_calls tp buf name t) as (calls & E & Hpre & Hfull).
  destruct (UploadBatchJSONL tp buf name t) as [[file|e] t1]; simpl in *; subst t1.
  2:{ exists calls. split; [done|]. split; [eapply SubmitFile; eauto|done]. }
  rewrite (Hfull file eq_refl) in *. unfold CreateBatchFromFile.
  pose proof (call_then_parse tp (CreateFromFile file name)
    (t ++ [UploadStart name (Z.of_nat (slen buf)); UploadData buf])) as Hc.
  destruct (seq_eff _ _ _) as [r t']. simpl in Hc. subst t'.
  eexists. split; [by rewrite <- app_assoc|]. split; [eapply SubmitFile; eauto|].
  intros job _. eapply submitted_intro; [done..|]. rewrite (proj2 (Z.leb_gt _ _) Hgt). by exists file.
Qed.

(** A job carries every line, once. A submission makes no request, or one inline request, or those of an upload; when it yields a job, exactly the lines with a key and a request were sent, in order and none twice: inline when their rows fit in 18 MiB, else as one uploaded file of all the rows, started, finished and then submitted. *)
Theorem submit_exact tp lines name t :
  let '(r, t') := SubmitBatchJSONL tp lines name t in
  ∃ calls, t' = t ++ calls ∧ submission tp lines name calls ∧
    ∀ job, r = inl job → submitted tp lines name calls.
Proof.
  assert (Hnone : ∃ calls, t = t ++ calls ∧ submission tp lines name calls ∧
    ∀ job, @inr BatchJob _ ApiFails = inl job → submitted tp lines name calls).
  { exists []. rewrite app_nil_r. by split_and!; [|constructor|]. }
  unfold SubmitBatchJSONL. destruct (is_empty lines); [exact Hnone|].
  unfold or_fail, seq_eff at 1. destruct (jsonl_rows tp lines) as [[buf sent]|] eqn:Hrows;
    [|exact Hnone]. cbn [done].
  unfold done. destruct (is_empty sent) eqn:Hne; [exact Hnone|].
  destruct (Z.leb_spec (Z.of_nat (slen buf)) batchInlineMaxBytes) as [Hle|Hgt].
  - by apply (submit_inline tp lines name t buf).
  - by apply (submit_file tp lines name t buf sent).
Qed.
