(* ===== verification/WarmBatch.v ===== *)
(** The batch worker of the warm path ([internal/warmpath/batch_worker.go]): batches of leads
    wait in a spill queue, are submitted as jobs of the batch API, polled, and their answers
    applied; leads worth an outreach draft go through a second queue and a second job.

    The two queues are used through the interface [Spool], the API through [BatchApi].  The
    iteration order of a map, the randomness of keys, the clock and the state file answer as
    functions of the events recorded so far. *)
From S2P Require Import Prelude Unicode GoStrings TextFacts Registry Scoring Outreach.
From S2P Require Import Item Hashes Entity EntityDoc Gemini LeadBatch LeadStore Effects.
From S2P Require Import WarmPath Spill BatchApi.

Local Open Scope Z_scope.
Local Open Scope eff_scope.

(** ** Records and jobs *)

Record SpillRecord := { sr_Key : string; sr_GeoClassify : bool; sr_Events : list Event }.
Record EngageSpillItem := { ei_Event : Event; ei_Core : LeadBatchResult }.
Record EngageSpillRecord := { er_Key : string; er_Items : list EngageSpillItem }.

(** The checks of the two [Append]s and [Drain]s. *)
Definition spill_filled (r : SpillRecord) : bool :=
  negb (String.eqb (sr_Key r) estr || is_empty (sr_Events r)).
Definition engage_filled (r : EngageSpillRecord) : bool :=
  negb (String.eqb (er_Key r) estr || is_empty (er_Items r)).

Definition batchPhaseCore : string := "core".
Definition batchPhaseEngage : string := "engage".

Record pendingBatchJob := {
  pj_Name : string; pj_Phase : string; pj_CreatedAt : Time;
  pj_Records : list SpillRecord; pj_Engage : list EngageSpillRecord }.

Record BatchWorkerConfig := {
  bc_FlushInterval : Duration; bc_PollInterval : Duration; bc_SpillPath : string;
  bc_EngageSpillPath : string; bc_StatePath : string; bc_EngageEnabled : bool;
  bc_EnrichEnabled : bool; bc_EngageBatchSize : Z }.

Definition str_or (s def : string) : string := if String.eqb s estr then def else s.

(** The defaults of [NewBatchWorker]. *)
Definition worker_defaults (c : BatchWorkerConfig) : BatchWorkerConfig := {|
  bc_FlushInterval := int_or (bc_FlushInterval c) (30 * minute);
  bc_PollInterval := int_or (bc_PollInterval c) (2 * minute);
  bc_SpillPath := str_or (bc_SpillPath c) "data/runtime/gemini_batch_spill.jsonl";
  bc_EngageSpillPath := str_or (bc_EngageSpillPath c) "data/runtime/gemini_batch_engage_spill.jsonl";
  bc_StatePath := str_or (bc_StatePath c) "data/runtime/gemini_batch_jobs.json";
  bc_EngageEnabled := bc_EngageEnabled c; bc_EnrichEnabled := bc_EnrichEnabled c;
  bc_EngageBatchSize := int_or (bc_EngageBatchSize c) 4 |}.

(** ** Events of a worker *)

(** A record of either queue. *)
Definition AnyRecord : Type := SpillRecord + EngageSpillRecord.

Definition job_records (j : pendingBatchJob) : list AnyRecord :=
  (inl <$> pj_Records j) ++ (inr <$> pj_Engage j).

Inductive worker_event :=
  | NewKey (prefix : string)
  | Accepted (r : AnyRecord)
  | DrainFailed (phase : string)
  | LineFailed (r : AnyRecord)
  | Submitted (phase : string) (name : string)
  | SubmitFailed (phase : string)
  | RequeueFailed (rest : list AnyRecord)
  | PollFailed (name : string)
  | Finished (j : pendingBatchJob)
  | ApplyFailed (name : string)
  | Ended (j : pendingBatchJob) (state : string)
  | Saved (ok : bool).

Record WorkerDeps := {
  wd_transport : Transport;
  wd_marshal : model_call → string;
  wd_row : string → option output_row;
  wd_decode : string → option (list leadBatchItem);
  wd_order : list worker_event → gmap string string → list (string * string);
  wd_random : list worker_event → option (list Z);
  wd_now : list worker_event → Time;
  wd_display : list worker_event → string;
  wd_jobs : list pendingBatchJob → option string;
  wd_unjobs : string → option (list pendingBatchJob);
  wd_write : list worker_event → bool }.

Section worker.
Context {FC FE : Type} `{!Spool SpillRecord FC} `{!Spool EngageSpillRecord FE}.

Record Worker := {
  wk_svc : Service; wk_api : list api_call; wk_spill : FC; wk_engage : FE;
  wk_jobs : list pendingBatchJob; wk_saved : option string; wk_log : list worker_event }.

Abbreviation Wact := (eff Worker panic).

Definition log (e : worker_event) : Wact unit := modify (λ w, {|
  wk_svc := wk_svc w; wk_api := wk_api w; wk_spill := wk_spill w; wk_engage := wk_engage w;
  wk_jobs := wk_jobs w; wk_saved := wk_saved w; wk_log := wk_log w ++ [e] |}).
Definition set_jobs (jobs : list pendingBatchJob) : Wact unit := modify (λ w, {|
  wk_svc := wk_svc w; wk_api := wk_api w; wk_spill := wk_spill w; wk_engage := wk_engage w;
  wk_jobs := jobs; wk_saved := wk_saved w; wk_log := wk_log w |}).
Definition set_saved (saved : option string) : Wact unit := modify (λ w, {|
  wk_svc := wk_svc w; wk_api := wk_api w; wk_spill := wk_spill w; wk_engage := wk_engage w;
  wk_jobs := wk_jobs w; wk_saved := saved; wk_log := wk_log w |}).

(** A call of the service, of the API, of a queue. *)
Definition in_service {A} (m : Act A) : Wact A := λ w,
  let '(r, s) := m (wk_svc w) in
  (r, {| wk_svc := s; wk_api := wk_api w; wk_spill := wk_spill w; wk_engage := wk_engage w;
         wk_jobs := wk_jobs w; wk_saved := wk_saved w; wk_log := wk_log w |}).
Definition in_api {A} (m : Api A) : Wact (option A) := λ w,
  let '(r, t) := m (wk_api w) in
  (inl (match r with inl a => Some a | inr _ => None end),
   {| wk_svc := wk_svc w; wk_api := t; wk_spill := wk_spill w; wk_engage := wk_engage w;
      wk_jobs := wk_jobs w; wk_saved := wk_saved w; wk_log := wk_log w |}).
Definition in_spill {A} (f : FC → A * FC) : Wact A := λ w,
  let '(a, q) := f (wk_spill w) in
  (inl a, {| wk_svc := wk_svc w; wk_api := wk_api w; wk_spill := q; wk_engage := wk_engage w;
             wk_jobs := wk_jobs w; wk_saved := wk_saved w; wk_log := wk_log w |}).
Definition in_engage {A} (f : FE → A * FE) : Wact A := λ w,
  let '(a, q) := f (wk_engage w) in
  (inl a, {| wk_svc := wk_svc w; wk_api := wk_api w; wk_spill := wk_spill w; wk_engage := q;
             wk_jobs := wk_jobs w; wk_saved := wk_saved w; wk_log := wk_log w |}).

Context (cfg : Config) (d : Deps) (bc : BatchWorkerConfig) (wd : WorkerDeps).

(** ** State file *)

Definition saveState : Wact unit :=
  if String.eqb (bc_StatePath bc) estr then done tt
  else
    let! w := get_state in
    match wd_jobs wd (wk_jobs w) with
    | None => log (Saved false)
    | Some data =>
        if wd_write wd (wk_log w) then set_saved (Some data) ;;! log (Saved true)
        else log (Saved false)
    end.

(** The jobs a new worker starts with. *)
Definition loadState (saved : option string) : list pendingBatchJob :=
  if String.eqb (bc_StatePath bc) estr then []
  else
    match saved with
    | None => []
    | Some raw => default [] (wd_unjobs wd raw)
    end.

Definition appendJob (job : pendingBatchJob) : Wact unit :=
  let! w := get_state in set_jobs (wk_jobs w ++ [job]) ;;! saveState.
Definition replaceJobs (jobs : list pendingBatchJob) : Wact unit := set_jobs jobs ;;! saveState.

(** ** Filling the queues *)

Definition newBatchKey (prefix : string) : Wact (option string) :=
  let! w := get_state in
  log (NewKey prefix) ;;!
  done (match wd_random wd (wk_log w) with
        | None => None
        | Some bytes => Some (TrimSpace prefix +:+ "-" +:+ hex_encode bytes)
        end).

Definition append_core (r : SpillRecord) : Wact bool := in_spill (spool_append r).
Definition append_engage (r : EngageSpillRecord) : Wact bool := in_engage (spool_append r).

Definition spill_batch (batch : list Event) (geoClassify : bool) : Wact bool :=
  if is_empty batch then done true
  else
    let! key := newBatchKey "warm" in
    match key with
    | None => done false
    | Some key =>
        let r := {| sr_Key := key; sr_GeoClassify := geoClassify; sr_Events := batch |} in
        let! ok := append_core r in
        if ok then log (Accepted (inl r)) ;;! done true else done false
    end.

(** ** Submitting *)

Definition engageItemsToInputs (items : list EngageSpillItem) : list LeadBatchInput :=
  (λ item, let i := lead_input cfg (ei_Event item) in {|
     li_ID := li_ID i; li_Source := li_Source i; li_Priority := "High"; li_Score := li_Score i;
     li_Snippet := li_Snippet i; li_Contacts := li_Contacts i;
     li_ContactTypes := li_ContactTypes i; li_Stack := li_Stack i; li_Domain := li_Domain i;
     li_RDAPCountry := li_RDAPCountry i; li_DomainAgeDays := li_DomainAgeDays i;
     li_DisplayName := li_DisplayName i; li_BlockedCountries := li_BlockedCountries i |}) <$> items.

Definition core_line (r : SpillRecord) : option BatchJSONLLine :=
  match BuildLeadBatchLine (sr_Key r) (lead_input cfg <$> sr_Events r) with
  | None => None
  | Some (_, rows) =>
      Some {| jl_Key := sr_Key r; jl_Request := wd_marshal wd (CoreCall (sr_GeoClassify r) rows) |}
  end.

Definition engage_line (r : EngageSpillRecord) : option BatchJSONLLine :=
  match BuildLeadBatchLine (er_Key r) (engageItemsToInputs (er_Items r)) with
  | None => None
  | Some (_, rows) => Some {| jl_Key := er_Key r; jl_Request := wd_marshal wd (EngageCall rows) |}
  end.

(** Lines and the records they are about, of either queue ([buildCoreLines],
    [buildEngageLines]). *)
Fixpoint build_lines {R} (inject : R → AnyRecord) (line : R → option BatchJSONLLine)
    (records : list R) : Wact (list BatchJSONLLine * list R) :=
  match records with
  | [] => done ([], [])
  | r :: rest =>
      match line r with
      | None => log (LineFailed (inject r)) ;;! build_lines inject line rest
      | Some l =>
          let! (lines, valid) := build_lines inject line rest in done (l :: lines, r :: valid)
      end
  end.

Definition buildCoreLines : list SpillRecord → Wact (list BatchJSONLLine * list SpillRecord) :=
  build_lines inl core_line.
Definition buildEngageLines
    : list EngageSpillRecord → Wact (list BatchJSONLLine * list EngageSpillRecord) :=
  build_lines inr engage_line.

(** Putting records back stops at the first that is refused. *)
Fixpoint requeue {R} (inject : R → AnyRecord) (append : R → Wact bool) (records : list R)
    : Wact unit :=
  match records with
  | [] => done tt
  | r :: rest =>
      let! ok := append r in
      if ok then requeue inject append rest else log (RequeueFailed (inject <$> r :: rest))
  end.

Definition requeueCoreRecords : list SpillRecord → Wact unit := requeue inl append_core.
Definition requeueEngageRecords : list EngageSpillRecord → Wact unit := requeue inr append_engage.

Definition core_job (name : string) (now : Time) (records : list SpillRecord) : pendingBatchJob := {|
  pj_Name := name; pj_Phase := batchPhaseCore; pj_CreatedAt := now; pj_Records := records;
  pj_Engage := [] |}.
Definition engage_job (name : string) (now : Time) (records : list EngageSpillRecord)
    : pendingBatchJob := {|
  pj_Name := name; pj_Phase := batchPhaseEngage; pj_CreatedAt := now; pj_Records := [];
  pj_Engage := records |}.

Definition submitLines (lines : list BatchJSONLLine) : Wact (option BatchJob) :=
  let! w := get_state in
  in_api (SubmitBatchJSONL (wd_transport wd) lines (wd_display wd (wk_log w))).

Definition flushCoreSpill : Wact unit :=
  let! drained := in_spill spool_drain in
  match drained with
  | None => log (DrainFailed batchPhaseCore)
  | Some [] => done tt
  | Some records =>
      let! (lines, valid) := buildCoreLines records in
      if is_empty lines then done tt
      else
        let! job := submitLines lines in
        match job with
        | None => log (SubmitFailed batchPhaseCore) ;;! requeueCoreRecords valid
        | Some job =>
            let! w := get_state in
            appendJob (core_job (bj_Name job) (wd_now wd (wk_log w)) valid) ;;!
            log (Submitted batchPhaseCore (bj_Name job))
        end
  end.

Definition flushEngageSpill : Wact unit :=
  if negb (bc_EngageEnabled bc) then done tt
  else
    let! drained := in_engage spool_drain in
    match drained with
    | None => log (DrainFailed batchPhaseEngage)
    | Some [] => done tt
    | Some records =>
        let! (lines, valid) := buildEngageLines records in
        if is_empty lines then done tt
        else
          let! job := submitLines lines in
          match job with
          | None => log (SubmitFailed batchPhaseEngage) ;;! requeueEngageRecords valid
          | Some job =>
              let! w := get_state in
              appendJob (engage_job (bj_Name job) (wd_now wd (wk_log w)) valid) ;;!
              log (Submitted batchPhaseEngage (bj_Name job))
          end
    end.

(** ** Applying the output of a job *)

Fixpoint inline_rows (rows : list BatchInlineResponse) (out : gmap string string)
    : option (gmap string string) :=
  match rows with
  | [] => Some out
  | row :: rest =>
      if negb (String.eqb (ir_Error row) estr) then None
      else inline_rows rest (<[ir_Key row := ir_Response row]> out)
  end.

Definition loadBatchOutput (status : BatchJob) : Wact (option (gmap string string)) :=
  if negb (String.eqb (bj_OutputFile status) estr) then
    let! raw := in_api (DownloadBatchFile (wd_transport wd) (bj_OutputFile status)) in
    done (match raw with None => None | Some raw => ParseLeadBatchOutputJSONL (wd_row wd) raw end)
  else done (inline_rows (bj_InlineResponses status) ∅).

Definition shouldQueueEngage (e : Event) (res : LeadBatchResult) : Wact bool :=
  if negb (bc_EngageEnabled bc) then done false
  else if geo_rejects cfg res then done false
  else
    let! w := get_state in
    match computeResultPriority cfg d (dp_now d (sv_calls (wk_svc w))) e res (highMinFromReg d) with
    | None => exit_with Panics
    | Some priority =>
        if not_icp res && String.eqb priority "Low" then done false
        else done (MeetsMinPriority (priority_of priority) PriorityHigh)
    end.

(** The answers of one core record; the items to engage, with those found before. *)
Fixpoint core_answers (byID : gmap string Event) (results : list LeadBatchResult)
    (items : list EngageSpillItem) : Wact (list EngageSpillItem) :=
  match results with
  | [] => done items
  | res :: rest =>
      match byID !! lr_HashID res with
      | None => core_answers byID rest items
      | Some e =>
          let! queue := shouldQueueEngage e res in
          if queue then
            in_service (applyResultPending cfg d e res (highMinFromReg d)) ;;!
            core_answers byID rest (items ++ [{| ei_Event := e; ei_Core := res |}])
          else
            in_service (applyResult cfg d e res (highMinFromReg d)) ;;!
            core_answers byID rest items
      end
  end.

Definition recByKey (records : list SpillRecord) : gmap string SpillRecord :=
  foldl (λ m r, <[sr_Key r := r]> m) ∅ records.
Definition engageByKey (records : list EngageSpillRecord) : gmap string EngageSpillRecord :=
  foldl (λ m r, <[er_Key r := r]> m) ∅ records.

(** The rows of the output; [None] when one cannot be parsed. *)
Fixpoint core_rows (recs : gmap string SpillRecord) (rows : list (string * string))
    (items : list EngageSpillItem) : Wact (option (list EngageSpillItem)) :=
  match rows with
  | [] => done (Some items)
  | (key, raw) :: rest =>
      match recs !! key with
      | None => core_rows recs rest items
      | Some rec =>
          match ParseLeadBatchCoreResponse (wd_decode wd) raw (sr_GeoClassify rec)
                  (lead_input cfg <$> sr_Events rec) with
          | None => done None
          | Some results =>
              let! items := core_answers (index_events (sr_Events rec)) results items in
              core_rows recs rest items
          end
      end
  end.

Fixpoint queue_chunks (pieces : list (list EngageSpillItem)) : Wact bool :=
  match pieces with
  | [] => done true
  | piece :: rest =>
      let! key := newBatchKey "engage" in
      match key with
      | None => done false
      | Some key =>
          let r := {| er_Key := key; er_Items := piece |} in
          let! ok := append_engage r in
          if ok then log (Accepted (inr r)) ;;! queue_chunks rest else done false
      end
  end.

Definition engage_chunk : Z := if bc_EngageBatchSize bc <=? 0 then 4 else bc_EngageBatchSize bc.

Definition queueEngageItems (items : list EngageSpillItem) : Wact bool :=
  queue_chunks (chunks (Z.to_nat engage_chunk) items).

(** Whether the output could be applied. *)
Definition applyCoreJobResults (job : pendingBatchJob) (status : BatchJob) : Wact bool :=
  let! byKey := loadBatchOutput status in
  match byKey with
  | None => done false
  | Some byKey =>
      let! w := get_state in
      let! items := core_rows (recByKey (pj_Records job)) (wd_order wd (wk_log w) byKey) [] in
      match items with
      | None => done false
      | Some [] => done true
      | Some items => queueEngageItems items
      end
  end.

Fixpoint engage_answers (byID : gmap string Event) (results : list LeadBatchResult) : Wact unit :=
  match results with
  | [] => done tt
  | res :: rest =>
      match byID !! lr_HashID res with
      | None => engage_answers byID rest
      | Some e =>
          in_service (applyResult cfg d e res (highMinFromReg d)) ;;! engage_answers byID rest
      end
  end.

Fixpoint engage_rows (recs : gmap string EngageSpillRecord) (rows : list (string * string))
    : Wact bool :=
  match rows with
  | [] => done true
  | (key, raw) :: rest =>
      match recs !! key with
      | None => engage_rows recs rest
      | Some rec =>
          match ParseLeadBatchEngageResponse (wd_decode wd) raw (ei_Core <$> er_Items rec)
                  (engageItemsToInputs (er_Items rec)) (bc_EnrichEnabled bc) with
          | None => done false
          | Some results =>
              engage_answers (index_events (ei_Event <$> er_Items rec)) results ;;!
              engage_rows recs rest
          end
      end
  end.

Definition applyEngageJobResults (job : pendingBatchJob) (status : BatchJob) : Wact bool :=
  let! byKey := loadBatchOutput status in
  match byKey with
  | None => done false
  | Some byKey =>
      let! w := get_state in
      engage_rows (engageByKey (pj_Engage job)) (wd_order wd (wk_log w) byKey)
  end.

(** ** Polling *)

(** Whether the job stays. *)
Definition poll_job (job : pendingBatchJob) : Wact bool :=
  let! status := in_api (GetBatchJob (wd_transport wd) (pj_Name job)) in
  match status with
  | None => log (PollFailed (pj_Name job)) ;;! done true
  | Some status =>
      let state := bj_State status in
      if mem state [BatchStatePending; BatchStateRunning; estr] then done true
      else if String.eqb state BatchStateSucceeded then
        let! ok := if String.eqb (pj_Phase job) batchPhaseEngage
                   then applyEngageJobResults job status else applyCoreJobResults job status in
        if ok then log (Finished job) ;;! done false
        else log (ApplyFailed (pj_Name job)) ;;! done true
      else if mem state [BatchStateFailed; BatchStateCancelled; BatchStateExpired] then
        log (Ended job state) ;;! done false
      else done true
  end.

Fixpoint poll_each (jobs : list pendingBatchJob) : Wact (list pendingBatchJob) :=
  match jobs with
  | [] => done []
  | job :: rest =>
      let! stays := poll_job job in
      let! remaining := poll_each rest in
      done (if stays then job :: remaining else remaining)
  end.

Definition pollJobs : Wact unit :=
  let! w := get_state in
  if is_empty (wk_jobs w) then done tt
  else let! remaining := poll_each (wk_jobs w) in replaceJobs remaining.

(** ** The worker's life *)

(** A batch spilled by the service, a tick of either clock of the loop, and a new process
    that starts from the files. *)
Inductive worker_op := OpSpill (batch : list Event) (geoClassify : bool) | OpFlushTick | OpPollTick.

Definition worker_step (op : worker_op) : Wact unit :=
  match op with
  | OpSpill batch geoClassify => let! _ := spill_batch batch geoClassify in done tt
  | OpFlushTick => flushCoreSpill ;;! flushEngageSpill
  | OpPollTick => pollJobs
  end.

Fixpoint worker_run (ops : list worker_op) : Wact unit :=
  match ops with
  | [] => done tt
  | op :: rest => worker_step op ;;! worker_run rest
  end.
End worker.

Arguments Worker : clear implicits.
