(* ===== verification/WarmBatchFacts.v ===== *)
(** What makes the batch worker correct: no record is lost or doubled between the queues, the
    jobs and their ends; and what a bad output does to its job. *)
From S2P Require Import Prelude Unicode GoStrings TextFacts Registry Scoring Outreach.
From S2P Require Import Item Hashes Entity EntityDoc Gemini LeadBatch LeadStore Effects.
From S2P Require Import WarmPath WarmLogic WarmFacts Spill BatchApi WarmBatch.

Local Open Scope Z_scope.
Local Open Scope eff_scope.

(** ** Records that entered the queues, and records that left *)

Definition accepted (t : list worker_event) : list AnyRecord :=
  omap (λ e, match e with Accepted r => Some r | _ => None end) t.

(** A line that cannot be built, a record that cannot be put back, a job applied or ended. *)
Definition gone (e : worker_event) : list AnyRecord :=
  match e with
  | LineFailed r => [r]
  | RequeueFailed rest => rest
  | Finished j | Ended j _ => job_records j
  | _ => []
  end.
Definition left_worker (t : list worker_event) : list AnyRecord := t ≫= gone.

Lemma accepted_app t1 t2 : accepted (t1 ++ t2) = accepted t1 ++ accepted t2.
Proof. apply omap_app. Qed.
Lemma left_app t1 t2 : left_worker (t1 ++ t2) = left_worker t1 ++ left_worker t2.
Proof. apply bind_app. Qed.

(** An event that moves no record. *)
Definition still (e : worker_event) : Prop := accepted [e] = [] ∧ gone e = [].

Section worker.
Context {FC FE : Type} `{!Spool SpillRecord FC, !SpoolLaws SpillRecord FC}.
Context `{!Spool EngageSpillRecord FE, !SpoolLaws EngageSpillRecord FE}.
Context (cfg : Config) (d : Deps) (bc : BatchWorkerConfig) (wd : WorkerDeps).

Abbreviation Wk := (Worker FC FE).
Abbreviation Wact := (eff Wk panic).

(** The records accepted are those in the queues, those in [hand], and those that left. *)
Definition balanced (hand : list AnyRecord) (w : Wk) : Prop :=
  ∃ cs es, spool_holds (wk_spill w) cs ∧ spool_holds (wk_engage w) es ∧
    accepted (wk_log w) ≡ₚ (inl <$> cs) ++ (inr <$> es) ++ hand ++ left_worker (wk_log w).

Definition jobs_in (jobs : list pendingBatchJob) : list AnyRecord := jobs ≫= job_records.

(** Starting with [hand], [m] ends in a value that determines what is in hand then; the
    jobs are not touched. *)
Definition moves {A} (hand : list AnyRecord) (m : Wact A) (hand' : A → list AnyRecord) : Prop :=
  ∀ w, balanced hand w → ∃ a w', m w = (inl a, w') ∧ wk_jobs w' = wk_jobs w ∧ balanced (hand' a) w'.

Lemma balanced_perm h h' w : h ≡ₚ h' → balanced h w → balanced h' w.
Proof. intros Hp (cs & es & H1 & H2 & H3). exists cs, es. by rewrite <- Hp. Qed.

Lemma moves_done {A} h (a : A) h' : h ≡ₚ h' a → moves h (done a) h'.
Proof. intros Hp w Hw. exists a, w. split_and!; try done. by eapply balanced_perm. Qed.

Lemma moves_bind {A B} h (m : Wact A) (k : A → Wact B) h1 h2 :
  moves h m h1 → (∀ a, moves (h1 a) (k a) h2) → moves h (seq_eff m k) h2.
Proof.
  intros Hm Hk w Hw. destruct (Hm w Hw) as (a & w1 & E1 & J1 & B1).
  destruct (Hk a w1 B1) as (b & w2 & E2 & J2 & B2). exists b, w2.
  unfold seq_eff. rewrite E1, E2, J2, J1. done.
Qed.

Lemma moves_get {A} h (k : Wk → Wact A) h' :
  (∀ w, moves h (k w) h') → moves h (seq_eff get_state k) h'.
Proof. intros Hk w Hw. apply (Hk w w Hw). Qed.

Lemma moves_perm {A} h h0 (m : Wact A) h' : h ≡ₚ h0 → moves h0 m h' → moves h m h'.
Proof. intros Hp Hm w Hw. apply Hm. by eapply balanced_perm. Qed.

Lemma moves_log h e : still e → moves h (log e) (λ _, h).
Proof.
  intros [Ha Hg] w (cs & es & H1 & H2 & H3). eexists _, _. split; [done|]. split; [done|].
  exists cs, es. cbn. rewrite accepted_app, left_app, Ha, app_nil_r, H3. cbn.
  by rewrite Hg, !app_nil_r.
Qed.

Lemma moves_gone h e : accepted [e] = [] → moves (gone e ++ h) (log e) (λ _, h).
Proof.
  intros Ha w (cs & es & H1 & H2 & H3). eexists _, _. split; [done|]. split; [done|].
  exists cs, es. cbn. rewrite accepted_app, left_app, Ha, app_nil_r, H3. cbn.
  rewrite app_nil_r. split_and!; [done|done|solve_Permutation].
Qed.

Lemma moves_in_service {A} h (m : Act A) Q : emits m Q → moves h (in_service m) (λ _, h).
Proof.
  intros Hm w (cs & es & H). destruct (Hm (wk_svc w)) as (a & new & E & _).
  unfold in_service. rewrite E. eexists _, _. split; [done|]. split; [done|]. by exists cs, es.
Qed.

Lemma moves_in_api {A} h (m : Api A) : moves h (in_api m) (λ _, h).
Proof.
  intros w (cs & es & H). unfold in_api. destruct (m (wk_api w)) as [r t].
  eexists _, _. split; [done|]. split; [done|]. by exists cs, es.
Qed.

(** ** The queues *)

Lemma moves_append_core h r :
  moves (inl r :: h) (append_core r) (λ ok, if ok : bool then h else inl r :: h).
Proof.
  intros w (cs & es & H1 & H2 & H3). unfold append_core, in_spill.
  pose proof (spool_append_law _ _ r H1) as Ha. destruct (spool_append r (wk_spill w)) as [ok q].
  eexists _, _. split; [done|]. split; [done|]. exists (if ok then cs ++ [r] else cs), es.
  split_and!; [done|done|]. cbn [wk_log]. rewrite H3. destruct ok; [|done].
  rewrite fmap_app. cbn. solve_Permutation.
Qed.

Lemma moves_append_engage h r :
  moves (inr r :: h) (append_engage r) (λ ok, if ok : bool then h else inr r :: h).
Proof.
  intros w (cs & es & H1 & H2 & H3). unfold append_engage, in_engage.
  pose proof (spool_append_law _ _ r H2) as Ha. destruct (spool_append r (wk_engage w)) as [ok q].
  eexists _, _. split; [done|]. split; [done|]. exists cs, (if ok then es ++ [r] else es).
  split_and!; [done|done|]. cbn [wk_log]. rewrite H3. destruct ok; [|done].
  rewrite fmap_app. cbn. solve_Permutation.
Qed.

(** Appending a record that is not in hand: the event that follows accounts for it. *)
Lemma moves_accept_core {A} h h' r (yes no : Wact A) :
  moves h yes h' → moves h no h' →
  moves h (let! ok := append_core r in if ok then log (Accepted (inl r)) ;;! yes else no) h'.
Proof.
  intros Hyes Hno w (cs & es & H1 & H2 & H3). unfold append_core, in_spill, seq_eff, log, modify.
  pose proof (spool_append_law _ _ r H1) as Ha. destruct (spool_append r (wk_spill w)) as [[] q].
  - match goal with |- context [yes ?w1] => destruct (Hyes w1) as (a & w2 & E & J & B); [|by exists a, w2] end.
    exists (cs ++ [r]), es. split_and!; [done|done|]. cbn [wk_log].
    rewrite accepted_app, left_app, H3, fmap_app. cbn. solve_Permutation.
  - match goal with |- context [no ?w1] => destruct (Hno w1) as (a & w2 & E & J & B); [|by exists a, w2] end.
    by exists cs, es.
Qed.

Lemma moves_accept_engage {A} h h' r (yes no : Wact A) :
  moves h yes h' → moves h no h' →
  moves h (let! ok := append_engage r in if ok then log (Accepted (inr r)) ;;! yes else no) h'.
Proof.
  intros Hyes Hno w (cs & es & H1 & H2 & H3). unfold append_engage, in_engage, seq_eff, log, modify.
  pose proof (spool_append_law _ _ r H2) as Ha. destruct (spool_append r (wk_engage w)) as [[] q].
  - match goal with |- context [yes ?w1] => destruct (Hyes w1) as (a & w2 & E & J & B); [|by exists a, w2] end.
    exists cs, (es ++ [r]). split_and!; [done|done|]. cbn [wk_log].
    rewrite accepted_app, left_app, H3, fmap_app. cbn. solve_Permutation.
  - match goal with |- context [no ?w1] => destruct (Hno w1) as (a & w2 & E & J & B); [|by exists a, w2] end.
    by exists cs, es.
Qed.

Lemma moves_drain_core h :
  moves h (in_spill spool_drain) (λ out, (inl <$> default [] out) ++ h).
Proof.
  intros w (cs & es & H1 & H2 & H3). unfold in_spill.
  destruct (spool_drain_law _ _ H1) as [(q & -> & Hq)|(q & -> & Hq)]; (eexists _, _; split; [done|];
    split; [done|]).
  - exists [], es. split_and!; [done|done|]. cbn [wk_log default fmap list_fmap app]. rewrite H3.
    solve_Permutation.
  - exists cs, es. by split_and!.
Qed.

Lemma moves_drain_engage h :
  moves h (in_engage spool_drain) (λ out, (inr <$> default [] out) ++ h).
Proof.
  intros w (cs & es & H1 & H2 & H3). unfold in_engage.
  destruct (spool_drain_law _ _ H2) as [(q & -> & Hq)|(q & -> & Hq)]; (eexists _, _; split; [done|];
    split; [done|]).
  - exists cs, []. split_and!; [done|done|]. cbn [wk_log default fmap list_fmap app]. rewrite H3.
    solve_Permutation.
  - exists cs, es. by split_and!.
Qed.

Lemma moves_requeue {R} (inject : R → AnyRecord) (append : R → Wact bool) h records :
  (∀ h0 r, moves (inject r :: h0) (append r) (λ ok, if ok : bool then h0 else inject r :: h0)) →
  moves ((inject <$> records) ++ h) (requeue inject append records) (λ _, h).
Proof.
  intros Ha. induction records as [|r rest IH]; cbn [requeue]; [by apply moves_done|].
  eapply moves_bind; [apply Ha|]. intros [].
  - exact IH.
  - eapply moves_perm; [|by apply (moves_gone h (RequeueFailed (inject <$> r :: rest)))]. done.
Qed.

Lemma moves_build_lines {R} (inject : R → AnyRecord) (line : R → option BatchJSONLLine) h records :
  moves ((inject <$> records) ++ h) (build_lines inject line records)
    (λ out, (inject <$> out.2) ++ h).
Proof.
  revert h. induction records as [|r rest IH]; intros h; cbn [build_lines].
  { by apply moves_done. }
  destruct (line r) as [l|].
  - eapply (moves_perm _ ((inject <$> rest) ++ inject r :: h)); [apply Permutation_middle|].
    eapply moves_bind; [apply (IH (inject r :: h))|]. intros [lines valid]. apply moves_done. simpl.
    symmetry. apply Permutation_middle.
  - eapply (moves_bind _ _ _ (λ _, (inject <$> rest) ++ h)).
    + eapply moves_perm; [|by apply (moves_gone ((inject <$> rest) ++ h) (LineFailed (inject r)))]. done.
    + intros []. apply IH.
Qed.

(** The lines and the records they are about go together. *)
Lemma build_lines_length {R} (inject : R → AnyRecord) line records (w : Wk) :
  match (build_lines inject line records w).1 with
  | inl out => length out.1 = length out.2
  | inr _ => True
  end.
Proof.
  revert w. induction records as [|r rest IH]; intros w; cbn [build_lines]; [done|].
  destruct (line r) as [l|]; unfold seq_eff; [|apply IH].
  specialize (IH w). destruct (build_lines inject line rest w) as [[[lines valid]|e] w']; [|done].
  simpl in *. congruence.
Qed.

(** ** A flush *)

Lemma moves_fact {A} (P : A → Prop) h (m : Wact A) h1 h2 :
  (∀ w, match (m w).1 with inl a => P a | inr _ => True end) →
  (∀ a, P a → h1 a ≡ₚ h2 a) → moves h m h1 → moves h m h2.
Proof.
  intros HP Hh Hm w Hw. destruct (Hm w Hw) as (a & w' & E & J & B). exists a, w'. split_and!; try done.
  eapply balanced_perm; [apply Hh|exact B]. specialize (HP w). by rewrite E in HP.
Qed.

(** The state between operations: what is in hand is in the jobs. *)
Definition sound (w : Wk) : Prop := balanced (jobs_in (wk_jobs w)) w.

(** With [hand] outside the jobs, [m] ends with nothing outside them. *)
Definition settles (hand : list AnyRecord) (m : Wact unit) : Prop :=
  ∀ w, balanced (hand ++ jobs_in (wk_jobs w)) w → ∃ w', m w = (inl tt, w') ∧ sound w'.

Lemma settles_bind {A} hand hand' (m : Wact A) (k : A → Wact unit) :
  (∀ h, moves (hand ++ h) m (λ a, hand' a ++ h)) → (∀ a, settles (hand' a) (k a)) →
  settles hand (seq_eff m k).
Proof.
  intros Hm Hk w Hw. destruct (Hm _ w Hw) as (a & w1 & E1 & J1 & B1). rewrite <- J1 in B1.
  destruct (Hk a w1 B1) as (w2 & E2 & B2). exists w2. unfold seq_eff. by rewrite E1.
Qed.

Lemma settles_moves hand (m : Wact unit) : (∀ h, moves (hand ++ h) m (λ _, h)) → settles hand m.
Proof.
  intros Hm w Hw. destruct (Hm _ w Hw) as ([] & w1 & E1 & J1 & B1). exists w1. split; [done|].
  unfold sound. by rewrite J1.
Qed.

Lemma settles_get hand (k : Wk → Wact unit) : (∀ w, settles hand (k w)) → settles hand (seq_eff get_state k).
Proof. intros Hk w Hw. apply (Hk w w Hw). Qed.

(** Saving the state moves nothing. *)
Lemma moves_save h : moves h (saveState bc wd) (λ _, h).
Proof.
  unfold saveState. destruct (String.eqb _ _); [by apply moves_done|]. apply moves_get. intros w0.
  destruct (wd_jobs wd _) as [data|]; [|by apply moves_log]. destruct (wd_write wd _); [|by apply moves_log].
  eapply (moves_bind h _ _ (λ _, h)); [|intros; by apply moves_log].
  intros w (cs & es & H). eexists _, _. split; [done|]. split; [done|]. by exists cs, es.
Qed.

Lemma settles_append hand job e :
  job_records job = hand → still e →
  settles hand (appendJob bc wd job ;;! log e).
Proof.
  intros <- He w (cs & es & H1 & H2 & H3). unfold appendJob.
  set (w1 := {| wk_svc := wk_svc w; wk_api := wk_api w; wk_spill := wk_spill w;
    wk_engage := wk_engage w; wk_jobs := wk_jobs w ++ [job]; wk_saved := wk_saved w;
    wk_log := wk_log w |}).
  assert (Hs : sound w1).
  { exists cs, es. split_and!; [done|done|]. cbn. rewrite H3. unfold jobs_in.
    rewrite bind_app. cbn. rewrite app_nil_r. solve_Permutation. }
  destruct (moves_bind _ (saveState bc wd) (λ _, log e) _ (λ _, jobs_in (wk_jobs w1)) (moves_save _)
              (λ _, moves_log _ e He) w1 Hs) as ([] & w' & E & J & B).
  exists w'. split; [|by unfold sound; rewrite J]. rewrite <- E.
  unfold seq_eff, get_state, set_jobs, modify. fold w1. by destruct (saveState bc wd w1) as [[]].
Qed.

(** What follows a drain: the lines, the submission, and the job or the records put back. *)
Lemma submit_settles {R} (inject : R → AnyRecord) line (append : R → Wact bool) job failed ok records :
  (∀ h0 r, moves (inject r :: h0) (append r) (λ ok, if ok : bool then h0 else inject r :: h0)) →
  (∀ name now valid, job_records (job name now valid) = inject <$> valid) →
  still failed → (∀ name, still (ok name)) →
  settles (inject <$> records)
    (let! (lines, valid) := build_lines inject line records in
     if is_empty lines then done tt
     else
       let! j := submitLines wd lines in
       match j with
       | None => log failed ;;! requeue inject append valid
       | Some j =>
           let! w := get_state in
           appendJob bc wd (job (bj_Name j) (wd_now wd (wk_log w)) valid) ;;! log (ok (bj_Name j))
       end).
Proof.
  intros Ha Hj Hfailed Hok.
  eapply (settles_bind _ (λ out, if is_empty out.1 then [] else inject <$> out.2)).
  { intros h. eapply moves_fact; [apply build_lines_length|..|apply moves_build_lines].
    intros [[|l lines] [|r valid]] Hl; by simpl in *. }
  intros [lines valid]. cbn [fst snd]. destruct (is_empty lines).
  { apply settles_moves. intros h. by apply moves_done. }
  eapply (settles_bind _ (λ _, inject <$> valid)).
  { intros h. unfold submitLines. apply moves_get. intros w. apply moves_in_api. }
  intros [j|].
  - apply settles_get. intros w. by apply settles_append.
  - apply settles_moves. intros h0. eapply moves_bind; [by apply moves_log|]. intros ?.
    by apply moves_requeue.
Qed.

Lemma flush_core_settles : settles [] (flushCoreSpill cfg bc wd).
Proof.
  unfold flushCoreSpill.
  eapply (settles_bind [] (λ out, inl <$> default [] out)); [intros h; apply moves_drain_core|].
  intros [[|r rest]|]; [by apply settles_moves; intros h; apply moves_done| |
    by apply settles_moves; intros h; apply moves_log].
  apply (submit_settles inl (core_line cfg wd) append_core core_job); [apply moves_append_core| |done..].
  intros name now valid. unfold job_records. simpl. by rewrite app_nil_r.
Qed.

Lemma flush_engage_settles : settles [] (flushEngageSpill cfg bc wd).
Proof.
  unfold flushEngageSpill. destruct (negb _); [apply settles_moves; intros h; by apply moves_done|].
  eapply (settles_bind [] (λ out, inr <$> default [] out)); [intros h; apply moves_drain_engage|].
  intros [[|r rest]|]; [by apply settles_moves; intros h; apply moves_done| |
    by apply settles_moves; intros h; apply moves_log].
  by apply (submit_settles inr (engage_line cfg wd) append_engage engage_job); [apply moves_append_engage|..].
Qed.

(** ** A poll *)

Hypothesis Ha : analysable cfg d.

Lemma moves_apply h e res highMin finalize :
  moves h (in_service (applyResultFinalize cfg d e res highMin finalize)) (λ _, h).
Proof. by eapply moves_in_service, applyResultFinalize_emits. Qed.

Lemma moves_key h prefix : moves h (newBatchKey wd prefix) (λ _, h).
Proof.
  unfold newBatchKey. apply moves_get. intros w.
  eapply moves_bind; [by apply moves_log|]. intros []. by apply moves_done.
Qed.

Lemma moves_load h status : moves h (loadBatchOutput wd status) (λ _, h).
Proof.
  unfold loadBatchOutput. destruct (negb _); [|by apply moves_done].
  eapply moves_bind; [apply moves_in_api|]. intros raw. by apply moves_done.
Qed.

Lemma moves_should h e res : moves h (shouldQueueEngage cfg d bc e res) (λ _, h).
Proof.
  unfold shouldQueueEngage. destruct (negb _); [by apply moves_done|].
  destruct (geo_rejects _ _); [by apply moves_done|]. apply moves_get. intros w.
  unfold computeResultPriority.
  destruct (decayed_some cfg d (dp_now d (sv_calls (wk_svc w))) e Ha) as (score & priority & ->).
  destruct (dp_registry d); cbn zeta; (destruct (_ && _); by apply moves_done).
Qed.

Lemma moves_core_answers h byID results items :
  moves h (core_answers cfg d bc byID results items) (λ _, h).
Proof.
  revert items. induction results as [|res rest IH]; intros items; cbn [core_answers]; [by apply moves_done|].
  destruct (byID !! lr_HashID res); [|apply IH].
  eapply moves_bind; [apply moves_should|]. intros [];
    (eapply moves_bind; [apply moves_apply|]; intros []; apply IH).
Qed.

Lemma moves_core_rows h recs rows items :
  moves h (core_rows cfg d bc wd recs rows items) (λ _, h).
Proof.
  revert items. induction rows as [|[key raw] rest IH]; intros items; cbn [core_rows]; [by apply moves_done|].
  destruct (recs !! key) as [rec|]; [|apply IH].
  destruct (ParseLeadBatchCoreResponse _ _ _ _); [|by apply moves_done].
  eapply moves_bind; [apply moves_core_answers|]. intros items'. apply IH.
Qed.

Lemma moves_queue_chunks h pieces : moves h (queue_chunks wd pieces) (λ _, h).
Proof.
  induction pieces as [|piece rest IH]; cbn [queue_chunks]; [by apply moves_done|].
  eapply moves_bind; [apply moves_key|]. intros [key|]; [|by apply moves_done].
  apply moves_accept_engage; [exact IH|by apply moves_done].
Qed.

Lemma moves_apply_core h job status : moves h (applyCoreJobResults cfg d bc wd job status) (λ _, h).
Proof.
  unfold applyCoreJobResults. eapply moves_bind; [apply moves_load|].
  intros [byKey|]; [|by apply moves_done]. apply moves_get. intros w.
  eapply moves_bind; [apply moves_core_rows|].
  intros [[|i items]|]; [by apply moves_done|apply moves_queue_chunks|by apply moves_done].
Qed.

Lemma moves_engage_answers h byID results : moves h (engage_answers cfg d byID results) (λ _, h).
Proof.
  induction results as [|res rest IH]; cbn [engage_answers]; [by apply moves_done|].
  destruct (byID !! lr_HashID res); [|exact IH].
  eapply moves_bind; [apply moves_apply|]. intros []. exact IH.
Qed.

Lemma moves_engage_rows h recs rows : moves h (engage_rows cfg d bc wd recs rows) (λ _, h).
Proof.
  induction rows as [|[key raw] rest IH]; cbn [engage_rows]; [by apply moves_done|].
  destruct (recs !! key) as [rec|]; [|exact IH].
  destruct (ParseLeadBatchEngageResponse _ _ _ _ _); [|by apply moves_done].
  eapply moves_bind; [apply moves_engage_answers|]. intros []. exact IH.
Qed.

Lemma moves_apply_engage h job status : moves h (applyEngageJobResults cfg d bc wd job status) (λ _, h).
Proof.
  unfold applyEngageJobResults. eapply moves_bind; [apply moves_load|].
  intros [byKey|]; [|by apply moves_done]. apply moves_get. intros w. apply moves_engage_rows.
Qed.

Lemma moves_poll_job h job :
  moves (job_records job ++ h) (poll_job cfg d bc wd job)
    (λ stays, if stays : bool then job_records job ++ h else h).
Proof.
  unfold poll_job. eapply moves_bind; [apply moves_in_api|].
  intros [status|]; [|eapply moves_bind; [by apply moves_log|]; intros ?; by apply moves_done].
  cbv zeta. destruct (mem _ _); [by apply moves_done|]. destruct (String.eqb (bj_State status) _).
  - eapply (moves_bind _ _ _ (λ _, job_records job ++ h)).
    { destruct (String.eqb _ _); [apply moves_apply_engage|apply moves_apply_core]. }
    intros [].
    + eapply moves_bind; [by apply (moves_gone h (Finished job))|]. intros ?. by apply moves_done.
    + eapply moves_bind; [by apply moves_log|]. intros ?. by apply moves_done.
  - destruct (mem _ _); [|by apply moves_done].
    eapply moves_bind; [by apply (moves_gone h (Ended job _))|]. intros ?. by apply moves_done.
Qed.

Lemma moves_poll_each h jobs :
  moves (jobs_in jobs ++ h) (poll_each cfg d bc wd jobs) (λ remaining, jobs_in remaining ++ h).
Proof.
  revert h. induction jobs as [|job rest IH]; intros h; cbn [poll_each]; [by apply moves_done|].
  unfold jobs_in. cbn [mbind list_bind]. rewrite <- app_assoc.
  eapply moves_bind; [apply moves_poll_job|]. intros [].
  - eapply (moves_perm _ (jobs_in rest ++ job_records job ++ h)); [unfold jobs_in; solve_Permutation|].
    eapply moves_bind; [apply IH|]. intros remaining. apply moves_done. cbn. unfold jobs_in.
    solve_Permutation.
  - eapply moves_bind; [apply IH|]. intros remaining. by apply moves_done.
Qed.

Lemma poll_sound w : sound w → ∃ w', pollJobs cfg d bc wd w = (inl tt, w') ∧ sound w'.
Proof.
  intros Hw. unfold pollJobs, seq_eff at 1. cbn [get_state]. unfold get_state.
  destruct (is_empty (wk_jobs w)); [by exists w|].
  destruct (moves_poll_each [] (wk_jobs w) w) as (remaining & w1 & E & _ & B).
  { by rewrite app_nil_r. }
  rewrite app_nil_r in B. unfold seq_eff. rewrite E. unfold replaceJobs, set_jobs, seq_eff, modify.
  match goal with |- context [saveState bc wd ?w2] =>
    destruct (moves_save (jobs_in remaining) w2) as ([] & w' & E' & J' & B') end.
  { destruct B as (cs & es & H). by exists cs, es. }
  exists w'. split; [done|]. unfold sound. by rewrite J'.
Qed.

Lemma spill_sound batch geo w :
  sound w → ∃ ok w', spill_batch wd batch geo w = (inl ok, w') ∧ sound w'.
Proof.
  intros Hw. assert (Hm : moves (jobs_in (wk_jobs w)) (spill_batch wd batch geo) (λ _, jobs_in (wk_jobs w))).
  { unfold spill_batch. destruct (is_empty batch); [by apply moves_done|].
    eapply moves_bind; [apply moves_key|]. intros [key|]; [|by apply moves_done].
    apply moves_accept_core; by apply moves_done. }
  destruct (Hm w Hw) as (ok & w' & E & J & B). exists ok, w'. split; [done|]. unfold sound. by rewrite J.
Qed.

Lemma step_sound op w : sound w → ∃ w', worker_step cfg d bc wd op w = (inl tt, w') ∧ sound w'.
Proof.
  intros Hw. destruct op as [batch geo| |]; cbn [worker_step].
  - destruct (spill_sound batch geo w Hw) as (ok & w' & E & H). exists w'. split; [|done].
    unfold seq_eff. by rewrite E.
  - destruct (flush_core_settles w Hw) as (w1 & E1 & H1).
    destruct (flush_engage_settles w1 H1) as (w2 & E2 & H2). exists w2. unfold seq_eff. by rewrite E1.
  - by apply poll_sound.
Qed.

Lemma run_sound ops w : sound w → ∃ w', worker_run cfg d bc wd ops w = (inl tt, w') ∧ sound w'.
Proof.
  revert w. induction ops as [|op ops IH]; intros w Hw; cbn [worker_run]; [by exists w|].
  destruct (step_sound op w Hw) as (w1 & E1 & H1). unfold seq_eff. rewrite E1. by apply IH.
Qed.
End worker.

(** C8. The batch worker loses no record silently and doubles none. Over queues that keep the promises of the interface, with a registry or without time decay, whatever the API, the model, the store, the random source and the disk answer, any sequence of spilled batches, flushes and polls ends without a panic, and then the records accepted into the two queues are, up to order, exactly those waiting in the core queue, those waiting in the engage queue, those of the pending jobs, and those recorded as gone: lines that could not be built, records that could not be put back, jobs applied, and jobs the API ended. *)
Theorem records_conserved `{SpoolLaws SpillRecord FC, SpoolLaws EngageSpillRecord FE}
    cfg d bc wd ops (w : Worker FC FE) :
  analysable cfg d → sound w →
  ∃ w', worker_run cfg d bc wd ops w = (inl tt, w') ∧
    ∃ cs es, spool_holds (wk_spill w') cs ∧ spool_holds (wk_engage w') es ∧
      accepted (wk_log w')
      ≡ₚ (inl <$> cs) ++ (inr <$> es) ++ jobs_in (wk_jobs w') ++ left_worker (wk_log w').
Proof. intros Ha Hw. by apply run_sound. Qed.

(** ** What touches the jobs *)

Section frame.
Context {FC FE : Type} `{!Spool SpillRecord FC, !Spool EngageSpillRecord FE}.
Context (cfg : Config) (d : Deps) (bc : BatchWorkerConfig) (wd : WorkerDeps).

Abbreviation Wk := (Worker FC FE).
Abbreviation Wact := (eff Wk panic).

(** [w'] comes after [w], with the same jobs and file. *)
Definition same_jobs (w w' : Wk) : Prop :=
  wk_jobs w' = wk_jobs w ∧ wk_saved w' = wk_saved w ∧ wk_log w `prefix_of` wk_log w'.

(** The computation leaves the jobs and their file alone, however it ends. *)
Definition frames {A} (m : Wact A) : Prop := ∀ w, same_jobs w (m w).2.

Lemma frames_done {A} (a : A) : frames (done a).
Proof. done. Qed.
Lemma frames_exit {A} e : frames (exit_with (A := A) e).
Proof. done. Qed.
Lemma frames_log e : frames (log e).
Proof. intros w. split_and!; [done|done|]. by exists [e]. Qed.
Lemma frames_service {A} (m : Act A) : frames (in_service m).
Proof. intros w. unfold in_service. by destruct (m (wk_svc w)). Qed.
Lemma frames_api {A} (m : Api A) : frames (in_api m).
Proof. intros w. unfold in_api. by destruct (m (wk_api w)). Qed.
Lemma frames_spill {A} (f : FC → A * FC) : frames (in_spill f).
Proof. intros w. unfold in_spill. by destruct (f (wk_spill w)). Qed.
Lemma frames_engage {A} (f : FE → A * FE) : frames (in_engage f).
Proof. intros w. unfold in_engage. by destruct (f (wk_engage w)). Qed.
Lemma frames_bind {A B} (m : Wact A) (k : A → Wact B) :
  frames m → (∀ a, frames (k a)) → frames (seq_eff m k).
Proof.
  intros Hm Hk w. specialize (Hm w). unfold seq_eff. destruct (m w) as [[a|e] w1]; [|done].
  destruct Hm as (J1 & S1 & L1), (Hk a w1) as (J2 & S2 & L2). simpl in *.
  split_and!; [congruence|congruence|by etrans].
Qed.
Lemma frames_get {A} (k : Wk → Wact A) : (∀ w, frames (k w)) → frames (seq_eff get_state k).
Proof. intros Hk w. apply (Hk w w). Qed.
End frame.

Create HintDb batch.
#[export] Hint Resolve frames_service frames_api frames_spill frames_engage : batch.

(** Works through a computation that does not touch the jobs. *)
Ltac frames_step :=
  match goal with
  | H : frames ?m |- frames ?m => exact H
  | H : ∀ _, frames _ |- frames _ => solve [apply H]
  | |- frames (done _) => apply frames_done
  | |- frames (exit_with _) => apply frames_exit
  | |- frames (log _) => apply frames_log
  | |- frames (seq_eff get_state _) => apply frames_get; intros
  | |- frames (seq_eff _ _) => apply frames_bind; [|intros]
  | |- frames (let _ := _ in _) => cbv zeta
  | |- frames (if ?b then _ else _) => destruct b
  | |- frames (match ?o with _ => _ end) => destruct o
  | |- frames _ => solve [eauto 2 with batch nocore]
  end.
Ltac frames_run := repeat frames_step.

Section frames_all.
Context {FC FE : Type} `{!Spool SpillRecord FC, !Spool EngageSpillRecord FE}.
Context (cfg : Config) (d : Deps) (bc : BatchWorkerConfig) (wd : WorkerDeps).

Abbreviation Wk := (Worker FC FE).
Abbreviation Wact := (eff Wk panic).
Abbreviation framed m := (@frames FC FE _ m).

Lemma frames_key prefix : framed (newBatchKey wd prefix).
Proof. unfold newBatchKey. frames_run. Qed.
#[local] Hint Resolve frames_key : batch.

Lemma frames_requeue {R} inject (append : R → Wact bool) records :
  (∀ r, frames (append r)) → frames (requeue inject append records).
Proof. intros Ha. induction records as [|r rest IH]; cbn [requeue]; frames_run. Qed.

Lemma frames_build_lines {R} inject line (records : list R) : framed (build_lines inject line records).
Proof. induction records as [|r rest IH]; cbn [build_lines]; frames_run. Qed.

Lemma frames_spill_batch batch geo : framed (spill_batch wd batch geo).
Proof. unfold spill_batch, append_core. frames_run. Qed.

Lemma frames_should e res : framed (shouldQueueEngage cfg d bc e res).
Proof. unfold shouldQueueEngage. frames_run. Qed.

Lemma frames_load status : framed (loadBatchOutput wd status).
Proof. unfold loadBatchOutput. frames_run. Qed.
#[local] Hint Resolve frames_should frames_load : batch.

Lemma frames_core_answers byID results items : framed (core_answers cfg d bc byID results items).
Proof. revert items. induction results as [|res rest IH]; intros items; cbn [core_answers]; frames_run. Qed.
#[local] Hint Resolve frames_core_answers : batch.

Lemma frames_core_rows recs rows items : framed (core_rows cfg d bc wd recs rows items).
Proof. revert items. induction rows as [|[key raw] rest IH]; intros items; cbn [core_rows]; frames_run. Qed.

Lemma frames_queue_chunks pieces : framed (queue_chunks wd pieces).
Proof. unfold append_engage. induction pieces as [|piece rest IH]; cbn [queue_chunks]; unfold append_engage; frames_run. Qed.
#[local] Hint Resolve frames_core_rows frames_queue_chunks : batch.

Lemma frames_engage_answers byID results : framed (engage_answers cfg d byID results).
Proof. induction results as [|res rest IH]; cbn [engage_answers]; frames_run. Qed.
#[local] Hint Resolve frames_engage_answers : batch.

Lemma frames_engage_rows recs rows : framed (engage_rows cfg d bc wd recs rows).
Proof. induction rows as [|[key raw] rest IH]; cbn [engage_rows]; frames_run. Qed.
#[local] Hint Resolve frames_engage_rows : batch.

Lemma frames_poll_job job : framed (poll_job cfg d bc wd job).
Proof.
  unfold poll_job, applyEngageJobResults, applyCoreJobResults, queueEngageItems. frames_run.
Qed.
#[local] Hint Resolve frames_poll_job : batch.

Lemma frames_poll_each jobs : framed (poll_each cfg d bc wd jobs).
Proof. induction jobs as [|job rest IH]; cbn [poll_each]; frames_run. Qed.

(** An operation on the jobs: whatever it does before and after, it is one of these. *)
Definition touches (P : Wk → Prop) {A} (m : Wact A) : Prop := ∀ w, P w → P (m w).2.

Lemma touches_frames {A} (P : Wk → Prop) (m : Wact A) :
  (∀ w w', same_jobs w w' → P w → P w') → frames m → touches P m.
Proof. intros HP Hm w Hw. by eapply HP. Qed.

Lemma touches_bind {A B} P (m : Wact A) (k : A → Wact B) :
  touches P m → (∀ a, touches P (k a)) → touches P (seq_eff m k).
Proof.
  intros Hm Hk w Hw. specialize (Hm w Hw). unfold seq_eff. destruct (m w) as [[a|e] w1]; [|done].
  by apply Hk.
Qed.

Lemma touches_get {A} P (k : Wk → Wact A) : (∀ w, touches P (k w)) → touches P (seq_eff get_state k).
Proof. intros Hk w. apply (Hk w w). Qed.

(** A property of the jobs and their file that submitting and polling keep, every operation
    keeps. *)
Lemma step_touches (P : Wk → Prop) op :
  (∀ w w', same_jobs w w' → P w → P w') →
  (∀ job, touches P (appendJob bc wd job)) → touches P (pollJobs cfg d bc wd) →
  touches P (worker_step cfg d bc wd op).
Proof.
  intros HP Happ Hpoll. pose proof (λ A (m : Wact A), touches_frames P m HP) as Hf.
  assert (Hsub : ∀ R (inject : R → AnyRecord) line append job failed ok records,
    (∀ r, frames (append r)) →
    touches P (let! (lines, valid) := build_lines inject line records in
      if is_empty lines then done tt
      else
        let! j := submitLines wd lines in
        match j with
        | None => log failed ;;! requeue inject append valid
        | Some j =>
            let! w := get_state in
            appendJob bc wd (job (bj_Name j) (wd_now wd (wk_log w)) valid) ;;! log (ok (bj_Name j))
        end)).
  { intros R inject line append job failed ok records Ha.
    apply touches_bind; [apply Hf, frames_build_lines|]. intros [lines valid].
    destruct (is_empty lines); [by apply Hf|].
    apply touches_bind; [apply Hf; unfold submitLines; frames_run|].
    intros [j|]; [|apply Hf; pose proof (frames_requeue inject append valid Ha); frames_run].
    apply touches_get. intros w. apply touches_bind; [apply Happ|]. intros ?. apply Hf, frames_log. }
  destruct op as [batch geo| |]; cbn [worker_step]; [| |done].
  - apply Hf. pose proof (frames_spill_batch batch geo). frames_run.
  - apply touches_bind; [|intros _]; [unfold flushCoreSpill|unfold flushEngageSpill; destruct (negb _); [by apply Hf|]].
    all: apply touches_bind; [apply Hf; frames_run|]; intros [[|r rest]|]; [by apply Hf| |apply Hf, frames_log].
    + apply (Hsub _ inl (core_line cfg wd) append_core core_job). intros r0. apply frames_spill.
    + apply (Hsub _ inr (engage_line cfg wd) append_engage engage_job). intros r0. apply frames_engage.
Qed.

Lemma run_touches (P : Wk → Prop) ops :
  (∀ op, touches P (worker_step cfg d bc wd op)) → touches P (worker_run cfg d bc wd ops).
Proof. intros Hs. induction ops as [|op ops IH]; cbn [worker_run]; [by intros w|]. by apply touches_bind. Qed.
End frames_all.

(** ** The state file *)

(** The jobs a new worker would start with are the jobs of this one. *)
Definition restartable {FC FE} (bc : BatchWorkerConfig) (wd : WorkerDeps) (w : Worker FC FE) : Prop :=
  loadState bc wd (wk_saved w) = wk_jobs w.

(** What is encoded is read back. *)
Definition jobs_faithful (wd : WorkerDeps) : Prop :=
  ∀ jobs data, wd_jobs wd jobs = Some data → wd_unjobs wd data = Some jobs.

(** A save failed, or the file is up to date. *)
Definition saved_or_failed {FC FE} (bc : BatchWorkerConfig) (wd : WorkerDeps) (w : Worker FC FE) : Prop :=
  Saved false ∈ wk_log w ∨ restartable bc wd w.

Lemma save_jobs {FC FE} bc wd (w : Worker FC FE) : wk_jobs (saveState bc wd w).2 = wk_jobs w.
Proof.
  unfold saveState. destruct (String.eqb _ _); [done|]. unfold seq_eff, get_state.
  destruct (wd_jobs _ _); [|done]. by destruct (wd_write _ _).
Qed.

Lemma save_restartable {FC FE} bc wd (w : Worker FC FE) :
  bc_StatePath bc ≠ estr → jobs_faithful wd → saved_or_failed bc wd (saveState bc wd w).2.
Proof.
  intros Hp Hg. unfold saved_or_failed, restartable, saveState, loadState.
  rewrite (proj2 (String.eqb_neq _ _) Hp). unfold seq_eff, get_state.
  destruct (wd_jobs wd (wk_jobs w)) as [data|] eqn:Hd; [|left; unfold log, modify; simpl; set_solver].
  destruct (wd_write _ _); [right|left; unfold log, modify; simpl; set_solver]. cbn. by rewrite (Hg _ _ Hd).
Qed.

Lemma set_save {FC FE} bc wd jobs (w : Worker FC FE) :
  ((set_jobs jobs ;;! saveState bc wd) w).2 = (saveState bc wd
    {| wk_svc := wk_svc w; wk_api := wk_api w; wk_spill := wk_spill w; wk_engage := wk_engage w;
       wk_jobs := jobs; wk_saved := wk_saved w; wk_log := wk_log w |}).2.
Proof. done. Qed.

(** A restart forgets no job. With a state path and an encoding of the jobs that is read back, as long as no save of the state file failed, the jobs a new process would load are, after any sequence of spills, flushes and polls and even after a panic, exactly the jobs the worker is waiting for. *)
Theorem restart_keeps_jobs `{!Spool SpillRecord FC, !Spool EngageSpillRecord FE}
    cfg d bc wd ops (w : Worker FC FE) :
  bc_StatePath bc ≠ estr → jobs_faithful wd → restartable bc wd w →
  let w' := (worker_run cfg d bc wd ops w).2 in
  Saved false ∉ wk_log w' → restartable bc wd w'.
Proof.
  intros Hp Hg Hr. cbv zeta. intros Hs.
  enough (H : saved_or_failed bc wd (worker_run cfg d bc wd ops w).2) by by destruct H.
  clear Hs. assert (Hw : saved_or_failed bc wd w) by by right. revert w Hr Hw. intros w _.
  apply (run_touches cfg d bc wd (saved_or_failed bc wd)). intros op. apply step_touches.
  - intros w1 w2 (J & S & L) [H|H]; [left|right].
    + destruct L as [k ->]. set_solver.
    + unfold restartable in *. by rewrite J, S.
  - intros job w1 _. unfold appendJob, seq_eff at 1, get_state. rewrite set_save.
    by apply save_restartable.
  - intros w1 H1. unfold pollJobs, seq_eff at 1, get_state.
    destruct (is_empty _); [done|]. unfold seq_eff.
    pose proof (frames_poll_each cfg d bc wd (wk_jobs w1) w1) as (J & S & [k L]).
    destruct (poll_each cfg d bc wd (wk_jobs w1) w1) as [[remaining|e] w2].
    + unfold replaceJobs. rewrite set_save. by apply save_restartable.
    + unfold saved_or_failed, restartable in *. simpl in *. rewrite J, S, L.
      destruct H1; [left; set_solver|by right].
Qed.

(** ** A job that never leaves *)

(** The API answers a poll of the job with an inline output in which a row is an error. *)
Definition bad_output (wd : WorkerDeps) (job : pendingBatchJob) (status : BatchJob) : Prop :=
  bj_State status = BatchStateSucceeded ∧ bj_OutputFile status = estr
  ∧ (∃ row, row ∈ bj_InlineResponses status ∧ ir_Error row ≠ estr)
  ∧ ∀ t, ∃ t', GetBatchJob (wd_transport wd) (pj_Name job) t = (inl status, t').

Lemma inline_rows_error rows out row :
  row ∈ rows → ir_Error row ≠ estr → inline_rows rows out = None.
Proof.
  intros Hin Hr. revert out. induction rows as [|r rows IH]; intros out; [set_solver|]. cbn [inline_rows].
  apply elem_of_cons in Hin as [<-|Hin]; [by rewrite (proj2 (String.eqb_neq _ _) Hr)|].
  destruct (negb _); [done|by apply IH].
Qed.

(** Polling such a job answers none of its leads and keeps it. *)
Lemma poll_bad_job {FC FE} `{!Spool SpillRecord FC, !Spool EngageSpillRecord FE}
    cfg d bc wd job status (w : Worker FC FE) :
  bad_output wd job status →
  ∃ w', poll_job cfg d bc wd job w = (inl true, w') ∧ wk_svc w' = wk_svc w.
Proof.
  intros (Hs & Hf & (row & Hin & Hrow) & Hget). unfold poll_job, seq_eff at 1, in_api.
  destruct (Hget (wk_api w)) as [t' ->]. rewrite Hs.
  set (w1 := Build_Worker _ _ _ _ _ _ _).
  change (mem BatchStateSucceeded _) with false.
  change (String.eqb BatchStateSucceeded BatchStateSucceeded) with true. cbv beta iota.
  assert (H : ∀ A (k : option (gmap string string) → eff (Worker FC FE) panic A),
    seq_eff (loadBatchOutput wd status) k w1 = k None w1).
  { intros A k. unfold loadBatchOutput. rewrite Hf. cbn. unfold seq_eff, done.
    by rewrite (inline_rows_error _ _ row). }
  unfold applyEngageJobResults, applyCoreJobResults. unfold seq_eff at 1.
  destruct (String.eqb (pj_Phase job) batchPhaseEngage); rewrite H; by eexists.
Qed.

Lemma poll_each_keeps {FC FE} `{!Spool SpillRecord FC, !Spool EngageSpillRecord FE}
    cfg d bc wd job status jobs (w : Worker FC FE) :
  bad_output wd job status → job ∈ jobs →
  match (poll_each cfg d bc wd jobs w).1 with inl remaining => job ∈ remaining | inr _ => True end.
Proof.
  intros Hbad. revert w. induction jobs as [|j rest IH]; intros w Hj; [set_solver|]. cbn [poll_each].
  unfold seq_eff. apply elem_of_cons in Hj as [<-|Hj].
  - destruct (poll_bad_job cfg d bc wd job status w Hbad) as (w1 & -> & _).
    destruct (poll_each cfg d bc wd rest w1) as [[remaining|e] w2]; simpl; [set_solver|done].
  - destruct (poll_job cfg d bc wd j w) as [[stays|e] w1]; [|done]. specialize (IH w1 Hj).
    destruct (poll_each cfg d bc wd rest w1) as [[remaining|e] w2]; simpl in *; [|done].
    destruct stays; set_solver.
Qed.

(** One failed row blocks its job for ever. When the API reports a job as succeeded and one row of its inline output is an error, every poll answers none of the leads of the job, even those whose rows are fine, and keeps the job: after any sequence of spills, flushes and polls it is still pending, since nothing counts the attempts and a row that failed will not change. *)
Theorem bad_row_blocks_job `{!Spool SpillRecord FC, !Spool EngageSpillRecord FE}
    cfg d bc wd job status ops (w : Worker FC FE) :
  bad_output wd job status → job ∈ wk_jobs w →
  job ∈ wk_jobs (worker_run cfg d bc wd ops w).2.
Proof.
  intros Hbad. apply (run_touches cfg d bc wd (λ w, job ∈ wk_jobs w)). intros op. apply step_touches.
  - by intros w1 w2 (-> & _).
  - intros j w1 H1. unfold appendJob, seq_eff at 1, get_state. rewrite set_save, save_jobs. set_solver.
  - intros w1 H1. unfold pollJobs, seq_eff at 1, get_state.
    destruct (is_empty _); [done|]. unfold seq_eff.
    pose proof (frames_poll_each cfg d bc wd (wk_jobs w1) w1) as (E1 & _).
    pose proof (poll_each_keeps cfg d bc wd job status (wk_jobs w1) w1 Hbad H1) as Hk.
    destruct (poll_each cfg d bc wd (wk_jobs w1) w1) as [[remaining|e] w2].
    + unfold replaceJobs. rewrite set_save, save_jobs. done.
    + simpl in *. by rewrite E1.
Qed.
