(* ===== verification/WarmBatchAnswers.v ===== *)
(** How the batch worker applies the output of a core job: one patch per answer, and the
    leads worth an outreach draft queued for the second job. *)
From S2P Require Import Prelude Unicode GoStrings TextFacts Registry Scoring Outreach.
From S2P Require Import Item Hashes Entity EntityDoc Gemini LeadBatch LeadStore Effects.
From S2P Require Import WarmPath WarmLogic WarmFacts Spill BatchApi WarmBatch.

Local Open Scope Z_scope.
Local Open Scope eff_scope.

(** ** Computations of the worker that only call the service *)

Section calls.
Context {FC FE : Type}.
Abbreviation Wk := (Worker FC FE).
Abbreviation Wact := (eff Wk panic).

Definition extend_svc (w : Wk) (new : list call) : Wk := {|
  wk_svc := extend (wk_svc w) new; wk_api := wk_api w; wk_spill := wk_spill w;
  wk_engage := wk_engage w; wk_jobs := wk_jobs w; wk_saved := wk_saved w; wk_log := wk_log w |}.

Lemma extend_svc_nil w : extend_svc w [] = w.
Proof. destruct w. unfold extend_svc. simpl. by rewrite extend_nil. Qed.
Lemma extend_svc_extend w n1 n2 : extend_svc (extend_svc w n1) n2 = extend_svc w (n1 ++ n2).
Proof. unfold extend_svc. simpl. by rewrite extend_extend. Qed.

(** From any state, [m] ends in a value after the calls [new] of the service alone. *)
Definition serves {A} (m : Wact A) (Q : A → list call → Prop) : Prop :=
  ∀ w, ∃ a new, m w = (inl a, extend_svc w new) ∧ Q a new.

Lemma serves_done {A} (a : A) (Q : A → list call → Prop) : Q a [] → serves (done a) Q.
Proof. intros HQ w. exists a, []. by rewrite extend_svc_nil. Qed.

Lemma serves_service {A} (m : Act A) Q : emits m Q → serves (in_service m) Q.
Proof.
  intros Hm w. destruct (Hm (wk_svc w)) as (a & new & E & H). exists a, new.
  unfold in_service. by rewrite E.
Qed.

Lemma serves_bind {A B} (m : Wact A) (k : A → Wact B) Q1 Q :
  serves m Q1 → (∀ a new, Q1 a new → serves (k a) (λ b new', Q b (new ++ new'))) →
  serves (seq_eff m k) Q.
Proof.
  intros Hm Hk w. destruct (Hm w) as (a & n1 & E1 & H1).
  destruct (Hk a n1 H1 (extend_svc w n1)) as (b & n2 & E2 & H2). exists b, (n1 ++ n2).
  unfold seq_eff. by rewrite E1, E2, extend_svc_extend.
Qed.

Lemma serves_get {A} (k : Wk → Wact A) Q : (∀ w, serves (k w) Q) → serves (seq_eff get_state k) Q.
Proof. intros Hk w. apply (Hk w w). Qed.

Lemma serves_mono {A} (m : Wact A) (Q Q' : A → list call → Prop) :
  (∀ a new, Q a new → Q' a new) → serves m Q → serves m Q'.
Proof. intros HQ Hm w. destruct (Hm w) as (a & new & E & H). eauto. Qed.
End calls.

Section answers.
Context {FC FE : Type} `{!Spool SpillRecord FC, !Spool EngageSpillRecord FE}.
Context (cfg : Config) (d : Deps) (bc : BatchWorkerConfig) (wd : WorkerDeps).
Hypothesis Ha : analysable cfg d.

Abbreviation Wk := (Worker FC FE).
Abbreviation Wact := (eff Wk panic).

(** Whether the answer earns the lead a draft, at the time [now]. *)
Definition worth_engaging (now : Time) (e : Event) (res : LeadBatchResult) : bool :=
  bc_EngageEnabled bc && negb (geo_rejects cfg res) &&
  match computeResultPriority cfg d now e res (highMinFromReg d) with
  | None => false
  | Some priority =>
      negb (not_icp res && String.eqb priority "Low")
      && MeetsMinPriority (priority_of priority) PriorityHigh
  end.

Lemma should_serves e res :
  serves (FC := FC) (FE := FE) (shouldQueueEngage cfg d bc e res)
    (λ queue new, new = [] ∧ ∃ now, queue = worth_engaging now e res).
Proof.
  unfold shouldQueueEngage, worth_engaging. destruct (bc_EngageEnabled bc); cbn [negb andb].
  2:{ apply serves_done. split; [done|]. by exists 0. }
  destruct (geo_rejects cfg res); cbn [negb andb].
  { apply serves_done. split; [done|]. by exists 0. }
  apply serves_get. intros w. set (now := dp_now d _). unfold computeResultPriority.
  destruct (decayed_some cfg d now e Ha) as (score & priority & Hd). rewrite Hd.
  destruct (dp_registry d) as [reg|] eqn:Hr; cbn zeta;
    (destruct (_ && _) eqn:E; apply serves_done; (split; [done|]); exists now;
     rewrite Hd; by rewrite ?E).
Qed.

(** An answer with its calls: one patch, pending when the lead is queued. *)
Definition answered_core (m : Event * LeadBatchResult * bool) (seg : list call) : Prop :=
  let '(e, res, queue) := m in
  (∃ now, queue = worth_engaging now e res) ∧
  ∃ p, one_patch cfg e (negb queue) p seg ∧ answer_patch cfg d e res (highMinFromReg d) (negb queue) p.

(** The items to engage. *)
Definition queued_items (marked : list (Event * LeadBatchResult * bool)) : list EngageSpillItem :=
  omap (λ m, let '(e, res, queue) := m in
             if queue : bool then Some {| ei_Event := e; ei_Core := res |} else None) marked.

(** The answers about known leads, in order. *)
Definition known (byID : gmap string Event) (results : list LeadBatchResult)
    : list (Event * LeadBatchResult) :=
  omap (λ res, (λ e, (e, res)) <$> byID !! lr_HashID res) results.

(** What a run over [pairs] that starts with [items] does. *)
Definition core_run (pairs : list (Event * LeadBatchResult)) (items out : list EngageSpillItem)
    (new : list call) : Prop :=
  ∃ marked segs, marked.*1 = pairs ∧ out = items ++ queued_items marked ∧ new = concat segs
    ∧ Forall2 answered_core marked segs.

Lemma core_run_nil items : core_run [] items items [].
Proof. exists [], []. rewrite app_nil_r. by repeat constructor. Qed.

Lemma core_run_app p1 p2 i1 i2 i3 n1 n2 :
  core_run p1 i1 i2 n1 → core_run p2 i2 i3 n2 → core_run (p1 ++ p2) i1 i3 (n1 ++ n2).
Proof.
  intros (m1 & s1 & <- & -> & -> & F1) (m2 & s2 & <- & -> & -> & F2).
  exists (m1 ++ m2), (s1 ++ s2). unfold queued_items.
  rewrite fmap_app, omap_app, concat_app, app_assoc. split_and!; [done..|]. by apply Forall2_app.
Qed.

Lemma core_run_one e res queue items seg :
  answered_core (e, res, queue) seg →
  core_run [(e, res)] items
    (if queue then items ++ [{| ei_Event := e; ei_Core := res |}] else items) seg.
Proof.
  intros Hs. exists [(e, res, queue)], [seg]. cbn. split_and!; [done| |by rewrite app_nil_r|].
  - destruct queue; [done|by rewrite app_nil_r].
  - by constructor.
Qed.

Lemma core_answers_serves byID results items :
  serves (FC := FC) (FE := FE) (core_answers cfg d bc byID results items)
    (λ out new, core_run (known byID results) items out new).
Proof.
  revert items. induction results as [|res rest IH]; intros items; cbn [core_answers].
  { apply serves_done, core_run_nil. }
  unfold known. cbn [omap list_omap]. fold (known byID rest).
  destruct (byID !! lr_HashID res) as [e|]; [|apply IH].
  eapply serves_bind; [apply should_serves|]. intros queue n0 [-> Hq]. cbn [app].
  assert (Hone : ∀ new p, one_patch cfg e (negb queue) p new →
    answer_patch cfg d e res (highMinFromReg d) (negb queue) p → answered_core (e, res, queue) new).
  { intros new p H1 H2. split; [done|]. by exists p. }
  pose proof (λ new p H1 H2, core_run_one e res queue items new (Hone new p H1 H2)) as Hrun.
  destruct queue; cbn [negb] in Hrun.
  all: eapply serves_bind; [by apply serves_service, applyResultFinalize_emits|].
  all: intros [] n1 (p & H1 & H2); eapply serves_mono; [|apply IH]; intros out n2 Hr.
  all: by apply (core_run_app [(e, res)] _ _ _ _ _ _ (Hrun n1 p H1 H2)).
Qed.

(** The answers of the rows; [None] when one cannot be parsed. *)
Fixpoint rows_answers (recs : gmap string SpillRecord) (rows : list (string * string))
    : option (list (Event * LeadBatchResult)) :=
  match rows with
  | [] => Some []
  | (key, raw) :: rest =>
      match recs !! key with
      | None => rows_answers recs rest
      | Some rec =>
          match ParseLeadBatchCoreResponse (wd_decode wd) raw (sr_GeoClassify rec)
                  (lead_input cfg <$> sr_Events rec) with
          | None => None
          | Some results =>
              match rows_answers recs rest with
              | None => None
              | Some pairs => Some (known (index_events (sr_Events rec)) results ++ pairs)
              end
          end
      end
  end.

Lemma core_rows_serves recs rows items :
  serves (FC := FC) (FE := FE) (core_rows cfg d bc wd recs rows items)
    (λ out new, match rows_answers recs rows with
                | None => out = None
                | Some pairs => ∃ out', out = Some out' ∧ core_run pairs items out' new
                end).
Proof.
  revert items. induction rows as [|[key raw] rest IH]; intros items; cbn [core_rows rows_answers].
  { apply serves_done. eexists. split; [done|]. apply core_run_nil. }
  destruct (recs !! key) as [rec|]; [|apply IH].
  destruct (ParseLeadBatchCoreResponse _ _ _ _) as [results|]; [|by apply serves_done].
  eapply serves_bind; [apply core_answers_serves|]. intros items' n1 H1.
  eapply serves_mono; [|apply IH]. intros out n2 H2.
  destruct (rows_answers recs rest) as [pairs|]; [|done].
  destruct H2 as (out' & -> & H2). exists out'. split; [done|]. by eapply core_run_app.
Qed.

(** ** The queue of the second job *)

Context `{!SpoolLaws EngageSpillRecord FE}.

Lemma queue_chunks_run pieces (w : Wk) es :
  spool_holds (wk_engage w) es →
  ∃ (ok : bool) w' recs,
    queue_chunks wd pieces w = (inl ok, w') ∧ wk_svc w' = wk_svc w
    ∧ spool_holds (wk_engage w') (es ++ recs)
    ∧ (er_Items <$> recs) `prefix_of` pieces ∧ (ok = true → er_Items <$> recs = pieces).
Proof.
  revert w es. induction pieces as [|piece rest IH]; intros w es Hes; cbn [queue_chunks].
  { exists true, w, []. by rewrite app_nil_r. }
  assert (Hstop : ∀ w1 : Wk, wk_svc w1 = wk_svc w → spool_holds (wk_engage w1) es →
    ∃ (ok : bool) w' recs, (done false : Wact bool) w1 = (inl ok, w') ∧ wk_svc w' = wk_svc w
      ∧ spool_holds (wk_engage w') (es ++ recs)
      ∧ (er_Items <$> recs) `prefix_of` piece :: rest ∧ (ok = true → er_Items <$> recs = piece :: rest)).
  { intros w1 Hs H1. exists false, w1, []. rewrite app_nil_r. split_and!; try done. apply prefix_nil. }
  unfold newBatchKey, seq_eff, get_state, log, modify, done at 1.
  destruct (wd_random wd _) as [bytes|]; [|by apply Hstop].
  unfold append_engage, in_engage. cbn [wk_engage].
  match goal with |- context [spool_append ?r _] => set (rec := r) end.
  pose proof (spool_append_law _ _ rec Hes) as Hl.
  destruct (spool_append rec (wk_engage w)) as [[] q]; [|by apply Hstop].
  match goal with |- context [queue_chunks wd rest ?w1] =>
    destruct (IH w1 _ Hl) as (ok & w' & recs & E & Hs & Hq & Hp & Hall) end.
  exists ok, w', (rec :: recs). split_and!; [done|done|by rewrite <- app_assoc in Hq| |].
  - cbn. by apply prefix_cons.
  - intros Hok. cbn. by rewrite (Hall Hok).
Qed.

(** Whether every record of the engage queue is a chunk of the configured size. *)
Definition engage_sized (piece : list EngageSpillItem) : Prop :=
  piece ≠ [] ∧ (length piece ≤ Z.to_nat (engage_chunk bc))%nat.

Lemma engage_chunk_pos : (0 < Z.to_nat (engage_chunk bc))%nat.
Proof. unfold engage_chunk. destruct (Z.leb_spec (bc_EngageBatchSize bc) 0); lia. Qed.
End answers.

(** The output of a core job is applied answer by answer. When the output can be loaded and each of its rows about a record of the job can be parsed, every answer about a lead of its record patches that lead exactly once, in the order of the rows: as pending when the lead is queued for a draft, for good otherwise, and it is queued exactly when drafts are on, the geography accepts it and its priority at that moment is High. The queued leads go to the engage queue in order, cut into records of one to the configured number of leads, and when the queue accepts them all the job is applied; if a row cannot be parsed the job is not applied. *)
Theorem core_output_exact `{!Spool SpillRecord FC, !Spool EngageSpillRecord FE,
      !SpoolLaws EngageSpillRecord FE}
    cfg d bc wd job status byKey es (w w1 : Worker FC FE) :
  analysable cfg d →
  loadBatchOutput wd status w = (inl (Some byKey), w1) → spool_holds (wk_engage w1) es →
  ∃ (ok : bool) w' new, applyCoreJobResults cfg d bc wd job status w = (inl ok, w')
    ∧ wk_svc w' = extend (wk_svc w1) new ∧
    match rows_answers cfg wd (recByKey (pj_Records job)) (wd_order wd (wk_log w1) byKey) with
    | None => ok = false ∧ spool_holds (wk_engage w') es
    | Some pairs =>
        ∃ marked segs recs, marked.*1 = pairs ∧ new = concat segs
          ∧ Forall2 (answered_core cfg d bc) marked segs
          ∧ spool_holds (wk_engage w') (es ++ recs)
          ∧ Forall (λ r, engage_sized bc (er_Items r)) recs
          ∧ concat (er_Items <$> recs) `prefix_of` queued_items marked
          ∧ (ok = true → concat (er_Items <$> recs) = queued_items marked)
    end.
Proof.
  intros Ha Hload Hes. unfold applyCoreJobResults, seq_eff at 1. rewrite Hload.
  unfold seq_eff at 1, get_state. set (rows := wd_order wd (wk_log w1) byKey).
  destruct (core_rows_serves (FC := FC) (FE := FE) cfg d bc wd Ha (recByKey (pj_Records job)) rows [] w1)
    as (out & new & E & Hout).
  unfold seq_eff. rewrite E.
  destruct (rows_answers _ _ _ _) as [pairs|].
  2:{ subst out. by exists false, (extend_svc w1 new), new. }
  destruct Hout as (items & -> & marked & segs & Hm & Hi & Hn & Hf). cbn [app] in Hi.
  destruct items as [|i items'] eqn:Hitems.
  { exists true, (extend_svc w1 new), new. split_and!; [done..|].
    exists marked, segs, []. rewrite app_nil_r. cbn. rewrite <- Hi. by split_and!. }
  rewrite <- Hitems in *. clear Hitems i items'. unfold queueEngageItems.
  pose proof (engage_chunk_pos bc) as Hpos. set (n := Z.to_nat (engage_chunk bc)) in *.
  destruct (queue_chunks_run (FC := FC) wd (chunks n items) (extend_svc w1 new) es Hes)
    as (ok & w' & recs & -> & Hs & Hq & Hp & Hall).
  exists ok, w', new. split_and!; [done|by rewrite Hs|].
  exists marked, segs, recs. split_and!; [done..| | |].
  - pose proof (chunks_sizes n items Hpos) as Hsz. destruct Hp as [k Hk]. rewrite Hk in Hsz.
    apply Forall_app in Hsz as [Hsz _]. by rewrite Forall_fmap in Hsz.
  - rewrite <- Hi, <- (concat_chunks n items Hpos). destruct Hp as [k ->]. rewrite concat_app.
    by exists (concat k).
  - intros Hok. rewrite (Hall Hok), <- Hi. by apply concat_chunks.
Qed.
