(* ===== verification/WarmBatchRuns.v ===== *)
(** The batch worker at work: a worker over two spill files, on which its theorems apply. *)
From S2P Require Import Prelude Unicode GoStrings TextFacts Validate Registry Scoring Outreach.
From S2P Require Import Item Hashes Entity EntityDoc Gemini LeadBatch LeadStore Effects.
From S2P Require Import WarmPath WarmLogic WarmFacts Spill BatchApi WarmBatch.
From S2P Require Import WarmBatchFacts WarmBatchAnswers.
From Stdlib Require Import SpecFloat.

Import WarmRuns.

Local Open Scope Z_scope.

(** ** Decidable records *)

#[export] Instance spec_float_eq_dec : EqDecision spec_float.
Proof. solve_decision. Defined.
#[export] Instance Event_eq_dec : EqDecision Event.
Proof. solve_decision. Defined.
#[export] Instance GeoResult_eq_dec : EqDecision GeoResult.
Proof. solve_decision. Defined.
#[export] Instance ICPResult_eq_dec : EqDecision ICPResult.
Proof. solve_decision. Defined.
#[export] Instance EngagementResult_eq_dec : EqDecision EngagementResult.
Proof. solve_decision. Defined.
#[export] Instance EnrichSynthResult_eq_dec : EqDecision EnrichSynthResult.
Proof. solve_decision. Defined.
#[export] Instance LeadBatchResult_eq_dec : EqDecision LeadBatchResult.
Proof. solve_decision. Defined.
#[export] Instance EngageSpillItem_eq_dec : EqDecision EngageSpillItem.
Proof. solve_decision. Defined.
#[export] Instance SpillRecord_eq_dec : EqDecision SpillRecord.
Proof. solve_decision. Defined.
#[export] Instance EngageSpillRecord_eq_dec : EqDecision EngageSpillRecord.
Proof. solve_decision. Defined.

#[export] Instance pendingBatchJob_eq_dec : EqDecision pendingBatchJob.
Proof. solve_decision. Defined.
#[export] Instance worker_event_eq_dec : EqDecision worker_event.
Proof. solve_decision. Defined.

(** ** An encoding that knows one record *)

Section one.
Context {R : Type} `{EqDecision R} (filled : R → bool) (known : R) (line : string).

Definition one_marshal (r : R) : option string := if decide (r = known) then Some line else None.
Definition one_unmarshal (l : string) : option R := if String.eqb l line then Some known else None.

Lemma one_faithful :
  one_line line → drop_cr line = line → line ≠ estr → faithful filled one_marshal one_unmarshal.
Proof.
  intros H1 H2 H3 r l Hr. unfold one_marshal. destruct (decide (r = known)) as [->|]; [|done].
  intros [= <-]. split; [done| | |done..].
  - unfold one_marshal. by rewrite decide_True.
  - unfold one_unmarshal. by rewrite String.eqb_refl.
Qed.
End one.

(** ** A job *)

Definition lead_event : Event := event "a" "need a tracker" 30.
Definition random_bytes : list Z := [1; 2; 3; 4; 5; 6; 7; 8].

Definition core_record : SpillRecord := {|
  sr_Key := "warm-0102030405060708"; sr_GeoClassify := true; sr_Events := [lead_event] |}.

Definition answer_item : leadBatchItem := {|
  bi_ID := "a"; bi_Geo := no_geo; bi_ICP := {| icp_ICP := "pro"; icp_Hot := true;
    icp_SpendTier := estr; icp_Why := "spend" |};
  bi_Engagement := no_engagement; bi_Enrichment := no_synth_result |}.

Definition core_result : LeadBatchResult :=
  leadBatchResultFromItem answer_item true (lead_input (config 3) lead_event).

Definition engage_record : EngageSpillRecord := {|
  er_Key := "engage-0102030405060708";
  er_Items := [{| ei_Event := lead_event; ei_Core := core_result |}] |}.

Definition core_marshal := one_marshal core_record "core".
Definition core_unmarshal := one_unmarshal core_record "core".
Definition engage_marshal := one_marshal engage_record "engage".
Definition engage_unmarshal := one_unmarshal engage_record "engage".

Lemma core_faithful : faithful spill_filled core_marshal core_unmarshal.
Proof. by apply one_faithful. Qed.
Lemma engage_faithful : faithful engage_filled engage_marshal engage_unmarshal.
Proof. by apply one_faithful. Qed.

#[export] Instance core_spool : Spool SpillRecord spill_disk :=
  disk_spool spill_filled core_marshal core_unmarshal.
#[export] Instance engage_spool : Spool EngageSpillRecord spill_disk :=
  disk_spool engage_filled engage_marshal engage_unmarshal.
#[export] Instance core_laws : SpoolLaws SpillRecord spill_disk :=
  disk_laws spill_filled core_marshal core_unmarshal core_faithful.
#[export] Instance engage_laws : SpoolLaws EngageSpillRecord spill_disk :=
  disk_laws engage_filled engage_marshal engage_unmarshal engage_faithful.

(** An API that accepts every job and reports it done, with a good row, or with a failed
    one. *)
Definition job_response (state : string) (row : inlined_response) : batchJobResponse := {|
  jr_Name := "jobs/1"; jr_State := state; jr_DestFileName := estr; jr_DestInlined := [row];
  jr_ResponsesFile := estr; jr_OutputInlined := []; jr_MetadataState := estr; jr_Error := None |}.

Definition transport (row : inlined_response) : Transport := {|
  tp_do := λ _ c, Some {| tr_status := 200; tr_url := estr;
    tr_body := match c with GetJob _ => "done" | _ => "created" end |};
  tp_job := λ body, Some (job_response
    (if String.eqb body "done" then BatchStateSucceeded else BatchStatePending) row);
  tp_upload := λ _, None; tp_line := λ _, Some "row" |}.

Definition good_row : inlined_response :=
  {| in_Key := "warm-0102030405060708"; in_Response := Some [["items"]]; in_Error := None |}.
Definition failed_row : inlined_response :=
  {| in_Key := "warm-0102030405060708"; in_Response := None; in_Error := Some "internal" |}.

Definition worker_deps (row : inlined_response) : WorkerDeps := {|
  wd_transport := transport row; wd_marshal := λ _, "{}"; wd_row := λ _, None;
  wd_decode := λ _, Some [answer_item]; wd_order := λ _ m, map_to_list m;
  wd_random := λ _, Some random_bytes; wd_now := λ _, 100 * second; wd_display := λ _, "batch";
  wd_jobs := λ jobs, Some (if is_empty jobs then "[]" else "jobs");
  wd_unjobs := λ _, None; wd_write := λ _, true |}.

Definition worker_config : BatchWorkerConfig := worker_defaults {|
  bc_FlushInterval := 0; bc_PollInterval := 0; bc_SpillPath := estr; bc_EngageSpillPath := estr;
  bc_StatePath := estr; bc_EngageEnabled := true; bc_EnrichEnabled := false;
  bc_EngageBatchSize := 0 |}.

Definition empty_disk : spill_disk := {| sd_file := None; sd_writes := []; sd_drains := [] |}.
Definition new_worker : Worker spill_disk spill_disk := {|
  wk_svc := empty_service; wk_api := []; wk_spill := empty_disk; wk_engage := empty_disk;
  wk_jobs := []; wk_saved := None; wk_log := [] |}.

Definition worker_ops : list worker_op :=
  [OpSpill [lead_event] true; OpFlushTick; OpPollTick; OpFlushTick].

Definition final (row : inlined_response) : Worker spill_disk spill_disk :=
  (worker_run (config 3) deps worker_config (worker_deps row) worker_ops new_worker).2.

(** With the good row the lead is patched as pending and its record is in the engage job;
    with the failed one the core job stays. *)
Example good_run :
  statuses (sv_calls (wk_svc (final good_row))) = [("a", "pending")]
  ∧ pj_Engage <$> wk_jobs (final good_row) = [[engage_record]].
Proof. by vm_compute. Qed.

Example failed_run :
  sv_calls (wk_svc (final failed_row)) = [] ∧ pj_Records <$> wk_jobs (final failed_row) = [[core_record]].
Proof. by vm_compute. Qed.

Lemma new_worker_sound : sound new_worker.
Proof.
  assert (H : ∀ R filled marshal unmarshal, @disk_holds R filled marshal unmarshal empty_disk []).
  { intros. split; [constructor|]. by exists []. }
  exists [], []. split_and!; [apply H|apply H|done].
Qed.

Lemma records_conserved_witness :
  analysable (config 3) deps ∧
  ∃ w', worker_run (config 3) deps worker_config (worker_deps good_row) worker_ops new_worker = (inl tt, w') ∧
    ∃ cs es, spool_holds (wk_spill w') cs ∧ spool_holds (wk_engage w') es ∧
      accepted (wk_log w')
      ≡ₚ (inl <$> cs) ++ (inr <$> es) ++ jobs_in (wk_jobs w') ++ left_worker (wk_log w').
Proof. split; [by left|]. apply records_conserved; [by left|apply new_worker_sound]. Defined.

(** A state file that names the jobs it can hold: none, or the core job. *)
Definition pending_core : pendingBatchJob := core_job "jobs/1" (100 * second) [core_record].
Definition jobs_marshal (jobs : list pendingBatchJob) : option string :=
  match jobs with
  | [] => Some "[]"
  | _ => if decide (jobs = [pending_core]) then Some "core" else None
  end.
Definition jobs_unmarshal (data : string) : option (list pendingBatchJob) :=
  if String.eqb data "[]" then Some []
  else if String.eqb data "core" then Some [pending_core] else None.

Definition saving_deps (row : inlined_response) : WorkerDeps := {|
  wd_transport := transport row; wd_marshal := λ _, "{}"; wd_row := λ _, None;
  wd_decode := λ _, Some [answer_item]; wd_order := λ _ m, map_to_list m;
  wd_random := λ _, Some random_bytes; wd_now := λ _, 100 * second; wd_display := λ _, "batch";
  wd_jobs := jobs_marshal; wd_unjobs := jobs_unmarshal; wd_write := λ _, true |}.

Lemma restart_keeps_jobs_witness :
  jobs_faithful (saving_deps failed_row) ∧
  wk_jobs (worker_run (config 3) deps worker_config (saving_deps failed_row) worker_ops new_worker).2
    = [pending_core] ∧
  restartable worker_config (saving_deps failed_row)
    (worker_run (config 3) deps worker_config (saving_deps failed_row) worker_ops new_worker).2.
Proof.
  assert (H : jobs_faithful (saving_deps failed_row)).
  { intros [|j jobs] data; simpl; [by intros [= <-]|]. destruct (decide _) as [->|]; [|done].
    by intros [= <-]. }
  split; [exact H|]. split; [by vm_compute|].
  apply restart_keeps_jobs; [by vm_compute|exact H|by vm_compute|].
  apply (bool_decide_unpack (Saved false ∉ _)). by vm_compute.
Defined.

Definition failed_status : BatchJob := job_of_response (job_response BatchStateSucceeded failed_row).

Definition blocked_worker : Worker spill_disk spill_disk := {|
  wk_svc := empty_service; wk_api := []; wk_spill := empty_disk; wk_engage := empty_disk;
  wk_jobs := [pending_core]; wk_saved := None; wk_log := [] |}.

Lemma bad_row_blocks_job_witness :
  bad_output (worker_deps failed_row) pending_core failed_status ∧
  pending_core ∈ wk_jobs (worker_run (config 3) deps worker_config (worker_deps failed_row)
                            worker_ops blocked_worker).2.
Proof.
  assert (H : bad_output (worker_deps failed_row) pending_core failed_status).
  { split_and!; [done|done| |].
    - exists (inline_response failed_row). split; [by apply list_elem_of_here|done].
    - intros t. by eexists. }
  split; [exact H|]. apply (bad_row_blocks_job _ _ _ _ _ failed_status); [exact H|].
  by apply list_elem_of_here.
Defined.

(** The worker once the core job is loaded. *)
Definition output : gmap string string := {[ "warm-0102030405060708" := "items" ]}.
Definition good_status : BatchJob := job_of_response (job_response BatchStateSucceeded good_row).

Lemma core_output_exact_witness :
  ∃ es, spool_holds (wk_engage blocked_worker) es ∧
  ∃ (ok : bool) w' new,
    applyCoreJobResults (config 3) deps worker_config (worker_deps good_row) pending_core good_status
      blocked_worker = (inl ok, w')
    ∧ wk_svc w' = extend (wk_svc blocked_worker) new ∧
    match rows_answers (config 3) (worker_deps good_row) (recByKey (pj_Records pending_core))
            (wd_order (worker_deps good_row) (wk_log blocked_worker) output) with
    | None => ok = false ∧ spool_holds (wk_engage w') es
    | Some pairs =>
        ∃ marked segs recs, marked.*1 = pairs ∧ new = concat segs
          ∧ Forall2 (answered_core (config 3) deps worker_config) marked segs
          ∧ spool_holds (wk_engage w') (es ++ recs)
          ∧ Forall (λ r, engage_sized worker_config (er_Items r)) recs
          ∧ concat (er_Items <$> recs) `prefix_of` queued_items marked
          ∧ (ok = true → concat (er_Items <$> recs) = queued_items marked)
    end.
Proof.
  exists []. assert (H : spool_holds (R := EngageSpillRecord) (wk_engage blocked_worker) []).
  { split; [constructor|]. by exists []. }
  split; [exact H|].
  apply (core_output_exact _ _ _ _ _ good_status output [] blocked_worker blocked_worker);
    [by left|by vm_compute|exact H].
Defined.

(** The rows of that output: one answer, hot and High. *)
Example output_answers :
  rows_answers (config 3) (worker_deps good_row) (recByKey (pj_Records pending_core))
    (map_to_list output) = Some [(lead_event, core_result)]
  ∧ worth_engaging (config 3) deps worker_config (100 * second) lead_event core_result = true.
Proof. by vm_compute. Qed.
