(* ===== verification/Discover.v ===== *)
(** Discovery queries ([internal/discover/]: icp.go, pending.go, auto_apply.go, dork_audit.go,
    dork_rank.go, outcome_rank.go, feedback.go, infra_clusters.go; [internal/sink/keyword_stats.go]):
    the shared list of queries, what may be added to it without review and how much of it in a
    week, and the reports that rank queries and keywords by what they brought.

    Files are decoded values: [NoFile], [Unreadable] or [Stored].  A write may be done, leave
    the file as it was, or leave something that does not parse.  Formatting times is the class
    [TimeLib]; sorting is [Sorter]; the order of a [range] over a map is an argument. *)
From S2P Require Import Prelude Unicode GoStrings Utf8Facts TextFacts Validate GoSort.
From S2P Require Import SourceRep Entity SourceRegistry ProxyBudget SourceDisable Matcher.

From Stdlib Require Import Floats.SpecFloat.

Local Open Scope Z_scope.

(** [os.WriteFile] of an encoded value; the flag says whether it failed. *)
Definition put_file {A} (w : write_outcome) (a : A) (d : disk A) : disk A * bool :=
  match w with Written => (Stored a, false) | Untouched => (d, true) | Torn => (Unreadable, true) end.

(** [os.ReadFile] and [json.Unmarshal]: a missing file is an error too. *)
Definition get_file {A} (d : disk A) : option A := match d with Stored a => Some a | _ => None end.

(** ** The queries ([icp.go], [pending.go]) *)

Record ICPConfig := {
  TelegramSearch : list string; SerpDorks : list string; PWADorks : list string;
  HostingDorks : list string; TGCatalogDorks : list string; DiscordDorks : list string;
  OTCManualRef : list string }.

Definition TelegramHarvestDorks (cfg : ICPConfig) : list string :=
  SerpDorks cfg ++ PWADorks cfg ++ HostingDorks cfg.

Record PendingICPDiff := {
  AddTelegramSearch : list string; AddSerpDorks : list string; pd_Summary : string;
  pd_ReportID : string; pd_GeneratedAt : string; pd_Status : string }.

Definition LoadICP (d : disk ICPConfig) : option ICPConfig := get_file d.
Definition SaveICP (w : write_outcome) (cfg : ICPConfig) (d : disk ICPConfig) : disk ICPConfig * bool :=
  put_file w cfg d.

(** The key under which queries are compared. *)
Definition fold_key (s : string) : string := ToLower (TrimSpace s).

(** The trimmed strings that are not blank. *)
Definition trimmed (l : list string) : list string :=
  List.filter (λ s, negb (String.eqb s estr)) (TrimSpace <$> l).

Definition UniqueFolded (base extra : list string) : list string :=
  dedup_on ToLower (trimmed (base ++ extra)).

Definition MergeSuggestions (current : ICPConfig) (addTelegram addSerp : list string) : ICPConfig := {|
  TelegramSearch := UniqueFolded (TelegramSearch current) addTelegram;
  SerpDorks := UniqueFolded (SerpDorks current) addSerp;
  PWADorks := PWADorks current; HostingDorks := HostingDorks current;
  TGCatalogDorks := TGCatalogDorks current; DiscordDorks := DiscordDorks current;
  OTCManualRef := OTCManualRef current |}.

(** [WritePending] writes one new file. *)
Definition WritePending (w : write_outcome) (diff : PendingICPDiff) (d : disk PendingICPDiff)
    : disk PendingICPDiff * bool :=
  put_file w {| AddTelegramSearch := AddTelegramSearch diff; AddSerpDorks := AddSerpDorks diff;
    pd_Summary := pd_Summary diff; pd_ReportID := pd_ReportID diff;
    pd_GeneratedAt := pd_GeneratedAt diff; pd_Status := "pending" |} d.

(** ** What may be applied without review ([auto_apply.go], [dork_audit.go]) *)

Definition DefaultAutoApplyMaxPerWeek : Z := 30.

Definition DiscoverDorkDenylist : list string :=
  ["linkedin.com"; "facebook.com"; "instagram.com"; "indeed.com"; "glassdoor"; "monster.com";
   "ziprecruiter"].

(** The reason why a query stays in manual review, if it does. *)
Definition BlockedDiscoverQuery (q : string) : option string :=
  let q := TrimSpace q in
  if (slen q <? 4)%nat then Some "too_short"
  else let lower := ToLower q in List.find (Contains lower) DiscoverDorkDenylist.

Definition is_blocked (q : string) : bool :=
  match BlockedDiscoverQuery q with Some _ => true | None => false end.

(** The reasons by query. *)
Definition blocked_map (l : list string) : gmap string string :=
  foldl (λ m q, match BlockedDiscoverQuery q with Some r => <[q := r]> m | None => m end) ∅ l.

Definition FilterDiscoverAdditions (telegram serp : list string)
    : list string * list string * gmap string string :=
  (List.filter (λ q, negb (is_blocked q)) telegram, List.filter (λ q, negb (is_blocked q)) serp,
   blocked_map (telegram ++ serp)).

Definition new_keys (base : list string) : gset string := list_to_set (ToLower <$> trimmed base).

Definition NewDiscoverAdditions (base : ICPConfig) (telegram serp : list string)
    : list string * list string :=
  (dedup_from ToLower (new_keys (TelegramSearch base)) (trimmed telegram),
   dedup_from ToLower (new_keys (SerpDorks base)) (trimmed serp)).

(** The loop of [TrimDiscoverQuota] over one list. *)
Fixpoint trim_list (l : list string) (quota : Z) : list string * list string * Z :=
  match l with
  | [] => ([], [], quota)
  | q :: l =>
      if quota =? 0 then let '(keep, deferred, quota) := trim_list l quota in (keep, q :: deferred, quota)
      else let '(keep, deferred, quota) := trim_list l (quota - 1) in (q :: keep, deferred, quota)
  end.

Definition TrimDiscoverQuota (telegram serp : list string) (quota : Z)
    : list string * list string * list string :=
  if quota <=? 0 then ([], [], telegram ++ serp)
  else
    let '(keepTelegram, deferred, quota) := trim_list telegram quota in
    let '(keepSerp, deferred', _) := trim_list serp quota in
    (keepTelegram, keepSerp, deferred ++ deferred').

Record AutoApplyState := { WeekStart : string; Applied : Z; KeywordTuneApplied : Z }.

Definition one_day : Z := 24 * hour.

(** The zero time is a Monday. *)
Definition Weekday (t : Time) : Z := (t `div` one_day + 1) `mod` 7.

Definition weekStartUTC (now : Time) : Time :=
  let weekday := Weekday now in
  let weekday := if weekday =? 0 then 7 else weekday in
  (now `div` one_day - (weekday - 1)) * one_day.

Section quota.
Context `{TimeLib}.

Definition fresh_week (now : Time) : AutoApplyState :=
  {| WeekStart := FormatRFC3339 (weekStartUTC now); Applied := 0; KeywordTuneApplied := 0 |}.

Definition normalizeAutoApplyWeek (st : AutoApplyState) (now : Time) : AutoApplyState :=
  match ParseRFC3339 (WeekStart st) with
  | Some start => if start =? weekStartUTC now then st else fresh_week now
  | None => fresh_week now
  end.

Definition LoadAutoApplyState (d : disk AutoApplyState) (now : Time) : AutoApplyState :=
  match d with
  | Stored st =>
      match ParseRFC3339 (WeekStart st) with
      | Some start => if start =? weekStartUTC now then st else fresh_week now
      | None => fresh_week now
      end
  | _ => fresh_week now
  end.

(** Creating the directory fails like a write that leaves the file. *)
Definition SaveAutoApplyState (w : write_outcome) (st : AutoApplyState) (d : disk AutoApplyState)
    : disk AutoApplyState * bool := put_file w st d.

Definition RemainingWeeklyQuota (st : AutoApplyState) (now : Time) (maxPerWeek : Z) : Z :=
  let st := normalizeAutoApplyWeek st now in
  if maxPerWeek <=? 0 then 0
  else let rem := wrap64 (maxPerWeek - Applied st) in if rem <? 0 then 0 else rem.

Definition RemainingKeywordTuneQuota (st : AutoApplyState) (now : Time) (maxPerWeek : Z) : Z :=
  let st := normalizeAutoApplyWeek st now in
  if maxPerWeek <=? 0 then 0
  else let rem := wrap64 (maxPerWeek - KeywordTuneApplied st) in if rem <? 0 then 0 else rem.
End quota.

Definition ProgrammaticDorkDenylist : list string :=
  ["programmatic"; "openrtb"; "header bidding"; "dooh"; "pdooh"].

Definition ViolatingProgrammaticDorks (telegram serp : list string) : list string :=
  List.filter (λ q, contains_any (ToLower q) ProgrammaticDorkDenylist) (trimmed (telegram ++ serp)).

(** ** Ranking queries ([dork_rank.go], [outcome_rank.go]) *)

Record channel_row := { ch_Username : string; ch_Query : string }.

Record dorkIndex := { usernameToQuery : gmap string string; hitsPerQuery : gmap string Z }.

Definition empty_index : dorkIndex := {| usernameToQuery := ∅; hitsPerQuery := ∅ |}.

Definition index_channel (idx : dorkIndex) (ch : channel_row) : dorkIndex :=
  let q := TrimSpace (ch_Query ch) in
  let u := ToLower (TrimPrefix (TrimSpace (ch_Username ch)) "@") in
  {| usernameToQuery :=
       if negb (String.eqb u estr) && negb (String.eqb q estr)
       then <[u := q]> (usernameToQuery idx) else usernameToQuery idx;
     hitsPerQuery :=
       if negb (String.eqb q estr)
       then <[q := default 0 (hitsPerQuery idx !! q) + 1]> (hitsPerQuery idx) else hitsPerQuery idx |}.

(** [None] is an error: no path, no file, or not a list of channels. *)
Definition loadDorkIndex (channels : disk (list channel_row)) : option dorkIndex :=
  match get_file channels with
  | Some chs => Some (foldl index_channel empty_index chs)
  | None => None
  end.

Definition matchTelegramDork (source : string) (usernameToQuery : gmap string string) : string :=
  let source := ToLower (TrimSpace source) in
  if negb (HasPrefix source "telegram:") then estr
  else
    let slug := TrimPrefix source "telegram:" in
    let slug := match Index slug "/" with Some i => stake i slug | None => slug end in
    let slug := TrimPrefix slug "@" in
    default estr (usernameToQuery !! slug).

Record OutcomeDorkRow := {
  dr_Query : string; dr_Accepted : Z; dr_Junk : Z; dr_AcceptRate : spec_float; dr_ChannelHits : Z;
  OutcomeContacted : Z; OutcomeReplied : Z; OutcomePilot : Z; OutcomeMigration : Z }.

Record OutcomeSourceRow := { os_Source : string; os_Outcome : string; os_Count : Z }.

Definition f_zero : spec_float := S754_zero false.

Definition empty_row (q : string) : OutcomeDorkRow := {|
  dr_Query := q; dr_Accepted := 0; dr_Junk := 0; dr_AcceptRate := f_zero; dr_ChannelHits := 0;
  OutcomeContacted := 0; OutcomeReplied := 0; OutcomePilot := 0; OutcomeMigration := 0 |}.

Definition row_at (byDork : gmap string OutcomeDorkRow) (q : string) : OutcomeDorkRow :=
  default (empty_row q) (byDork !! q).

Definition add_stats (r : OutcomeDorkRow) (s : SourceStats) : OutcomeDorkRow := {|
  dr_Query := dr_Query r; dr_Accepted := dr_Accepted r + ss_Accepted s;
  dr_Junk := dr_Junk r + ss_Junk s; dr_AcceptRate := dr_AcceptRate r;
  dr_ChannelHits := dr_ChannelHits r; OutcomeContacted := OutcomeContacted r;
  OutcomeReplied := OutcomeReplied r; OutcomePilot := OutcomePilot r;
  OutcomeMigration := OutcomeMigration r |}.

Definition stat_row (names : gmap string string) (byDork : gmap string OutcomeDorkRow)
    (row : SourceStats) : gmap string OutcomeDorkRow :=
  let source := TrimSpace (ss_Source row) in
  if String.eqb source estr then byDork
  else
    let q := matchTelegramDork source names in
    if String.eqb q estr then byDork else <[q := add_stats (row_at byDork q) row]> byDork.

Definition add_outcome (r : OutcomeDorkRow) (o : string) (n : Z) : OutcomeDorkRow := {|
  dr_Query := dr_Query r; dr_Accepted := dr_Accepted r; dr_Junk := dr_Junk r;
  dr_AcceptRate := dr_AcceptRate r; dr_ChannelHits := dr_ChannelHits r;
  OutcomeContacted := if String.eqb o "contacted" then OutcomeContacted r + n else OutcomeContacted r;
  OutcomeReplied := if String.eqb o "replied" then OutcomeReplied r + n else OutcomeReplied r;
  OutcomePilot := if String.eqb o "pilot_started" then OutcomePilot r + n else OutcomePilot r;
  OutcomeMigration :=
    if String.eqb o "migration_imported" then OutcomeMigration r + n else OutcomeMigration r |}.

Definition outcome_row (names : gmap string string) (byDork : gmap string OutcomeDorkRow)
    (row : OutcomeSourceRow) : gmap string OutcomeDorkRow :=
  let q := matchTelegramDork (os_Source row) names in
  if String.eqb q estr then byDork
  else <[q := add_outcome (row_at byDork q) (os_Outcome row) (os_Count row)]> byDork.

(** The rate and the hits of a finished row. *)
Definition finish_row (hits : gmap string Z) (q : string) (r : OutcomeDorkRow) : OutcomeDorkRow := {|
  dr_Query := dr_Query r; dr_Accepted := dr_Accepted r; dr_Junk := dr_Junk r;
  dr_AcceptRate :=
    let total := dr_Accepted r + dr_Junk r in
    if 0 <? total then f_ratio (dr_Accepted r) total else dr_AcceptRate r;
  dr_ChannelHits := default 0 (hits !! q);
  OutcomeContacted := OutcomeContacted r; OutcomeReplied := OutcomeReplied r;
  OutcomePilot := OutcomePilot r; OutcomeMigration := OutcomeMigration r |}.

Definition rate_less (a b : OutcomeDorkRow) : bool :=
  if SFeqb (dr_AcceptRate a) (dr_AcceptRate b) then dr_Accepted b <? dr_Accepted a
  else SFltb (dr_AcceptRate b) (dr_AcceptRate a).

Definition outcome_less (a b : OutcomeDorkRow) : bool :=
  if negb (OutcomePilot a =? OutcomePilot b) then OutcomePilot b <? OutcomePilot a else rate_less a b.

Section rank.
Context `{Sorter} (visit : gmap string OutcomeDorkRow → list (string * OutcomeDorkRow)).

Definition BuildOutcomeDorkRows (channels : disk (list channel_row)) (stats : list SourceStats)
    (outcomes : list OutcomeSourceRow) : list OutcomeDorkRow :=
  let idx := default empty_index (loadDorkIndex channels) in
  let byDork := foldl (stat_row (usernameToQuery idx)) ∅ stats in
  let byDork := foldl (outcome_row (usernameToQuery idx)) byDork outcomes in
  sort_slice outcome_less ((λ p, finish_row (hitsPerQuery idx) p.1 p.2) <$> visit byDork).

(** The report file holds the rows; [None] is an error. *)
Definition WriteOutcomeDorkReport (channels : disk (list channel_row)) (stats : list SourceStats)
    (outcomes : list OutcomeSourceRow) (w : write_outcome) (report : disk (list OutcomeDorkRow))
    : disk (list OutcomeDorkRow) * bool :=
  put_file w (BuildOutcomeDorkRows channels stats outcomes) report.

(** A [DorkRankRow] is a row without outcomes. *)
Definition WriteDorkRankReport (channels : disk (list channel_row)) (stats : list SourceStats)
    (w : write_outcome) (report : disk (list OutcomeDorkRow)) : disk (list OutcomeDorkRow) * bool :=
  let idx := default empty_index (loadDorkIndex channels) in
  let byDork := foldl (stat_row (usernameToQuery idx)) ∅ stats in
  put_file w
    (sort_slice rate_less ((λ p, finish_row (hitsPerQuery idx) p.1 p.2) <$> visit byDork)) report.
End rank.

(** ** Pruning queries and tuning keywords ([feedback.go], [keyword_stats.go]) *)

Record DorkPruneConfig := { MinRaw : Z; MaxAcceptRate : spec_float; RequireZeroOutcomes : bool }.

Definition f_0_05 : spec_float := Eval vm_compute in f_ratio 1 20.

Definition DefaultDorkPruneConfig : DorkPruneConfig :=
  {| MinRaw := 30; MaxAcceptRate := f_0_05; RequireZeroOutcomes := true |}.

Definition TotalOutcomes (r : OutcomeDorkRow) : Z :=
  OutcomeContacted r + OutcomeReplied r + OutcomePilot r + OutcomeMigration r.

Definition prune_defaults (cfg : DorkPruneConfig) : DorkPruneConfig := {|
  MinRaw := if MinRaw cfg <=? 0 then 30 else MinRaw cfg;
  MaxAcceptRate := if SFleb (MaxAcceptRate cfg) f_zero then f_0_05 else MaxAcceptRate cfg;
  RequireZeroOutcomes := RequireZeroOutcomes cfg |}.

Definition prunes (cfg : DorkPruneConfig) (row : OutcomeDorkRow) : bool :=
  negb (String.eqb (TrimSpace (dr_Query row)) estr)
  && negb (dr_Accepted row + dr_Junk row <? MinRaw cfg)
  && negb (SFltb (MaxAcceptRate cfg) (dr_AcceptRate row))
  && negb (RequireZeroOutcomes cfg && (0 <? TotalOutcomes row)).

Definition EvaluateDorkPrune (rows : list OutcomeDorkRow) (cfg : DorkPruneConfig) : list string :=
  let cfg := prune_defaults cfg in
  (λ row, TrimSpace (dr_Query row)) <$> List.filter (prunes cfg) rows.

Record KeywordStatDoc := { ks_KeywordID : string; AcceptedCount : Z; JunkCount : Z }.

Definition TotalSamples (d : KeywordStatDoc) : Z := AcceptedCount d + JunkCount d.

Definition JunkRate (d : KeywordStatDoc) : spec_float :=
  let total := TotalSamples d in
  if total =? 0 then f_zero else f_ratio (JunkCount d) total.

Definition f_0_3 : spec_float := Eval vm_compute in f_ratio 3 10.
Definition f_0_2 : spec_float := Eval vm_compute in f_ratio 2 10.

Definition Recommendation (d : KeywordStatDoc) (currentWeight : Z) : Z * bool :=
  let junkRate := JunkRate d in
  let total := TotalSamples d in
  if (20 <=? total) && SFltb f_0_3 junkRate then (currentWeight, false)
  else if SFltb f_0_2 junkRate then
    let w := currentWeight - 5 in (if w <? 5 then 5 else w, true)
  else if SFltb junkRate f_0_05 && (10 <=? total) then
    let w := currentWeight + 5 in (if 30 <? w then 30 else w, true)
  else (currentWeight, true).

Record KeywordTuneRow := {
  kt_KeywordID : string; kt_Accepted : Z; kt_Junk : Z; kt_JunkRate : spec_float;
  SuggestedWeight : Z; RecommendDisable : bool }.

Definition tune_row (currentWeights : gmap string Z) (doc : KeywordStatDoc) : option KeywordTuneRow :=
  if String.eqb (ks_KeywordID doc) estr then None
  else if TotalSamples doc <? 10 then None
  else
    let weight := default 0 (currentWeights !! ks_KeywordID doc) in
    let weight := if weight <=? 0 then 20 else weight in
    let '(suggested, enabled) := Recommendation doc weight in
    let row := {| kt_KeywordID := ks_KeywordID doc; kt_Accepted := AcceptedCount doc;
                  kt_Junk := JunkCount doc; kt_JunkRate := JunkRate doc;
                  SuggestedWeight := suggested; RecommendDisable := negb enabled |} in
    if RecommendDisable row || negb (SuggestedWeight row =? weight) then Some row else None.

Definition tune_less (a b : KeywordTuneRow) : bool :=
  if SFeqb (kt_JunkRate a) (kt_JunkRate b) then str_ltb (kt_KeywordID a) (kt_KeywordID b)
  else SFltb (kt_JunkRate b) (kt_JunkRate a).

Definition BuildKeywordTuneRows `{Sorter} (docs : list KeywordStatDoc) (currentWeights : gmap string Z)
    : list KeywordTuneRow :=
  sort_slice tune_less (omap (tune_row currentWeights) docs).

Definition WriteKeywordTuneReport (rows : list KeywordTuneRow) (w : write_outcome)
    (report : disk (list KeywordTuneRow)) : disk (list KeywordTuneRow) * bool := put_file w rows report.

(** ** Clusters of tracker infrastructure ([infra_clusters.go]) *)

Record InfraCluster := {
  ic_IP : string; ic_Domains : list string; TrackerHint : string; ic_ASN : string;
  Country : string; ic_Score : Z; SampleDomain : string; ic_Notes : string }.

Definition minDomainsPerCluster : Z := 3.

Definition ScoreInfraCluster (c : InfraCluster) : Z :=
  let n := Z.of_nat (length (ic_Domains c)) in
  let hint := ToLower (TrimSpace (TrackerHint c)) in
  let cc := ToUpper (TrimSpace (Country c)) in
  (if minDomainsPerCluster <=? n then 20 else 0)
  + (if 10 <=? n then 15 else 0)
  + (if contains_any hint ["keitaro"; "kclick"] then 25
     else if contains_any hint ["binom"; "voluum"] then 15 else 0)
  + (if negb (String.eqb cc estr) && negb (String.eqb cc "RU") && negb (String.eqb cc "BY") then 10 else 0)
  + (if negb (String.eqb (TrimSpace (SampleDomain c)) estr) then 5 else 0).

Definition set_score (c : InfraCluster) : InfraCluster :=
  if ic_Score c =? 0
  then {| ic_IP := ic_IP c; ic_Domains := ic_Domains c; TrackerHint := TrackerHint c;
          ic_ASN := ic_ASN c; Country := Country c; ic_Score := ScoreInfraCluster c;
          SampleDomain := SampleDomain c; ic_Notes := ic_Notes c |}
  else c.

Definition LoadInfraClusters (d : disk (list InfraCluster)) : option (list InfraCluster) :=
  match get_file d with Some cs => Some (set_score <$> cs) | None => None end.
