(* ===== verification/Suggestions.v ===== *)
(** Suggestions waiting for review ([internal/suggestions/]: apply.go, keyword_auto.go,
    keyword_tune_apply.go): merging proposed keywords and discovery queries into the files of
    the program, by hand or within a weekly quota.

    The files are one record of decoded values: the pending suggestion, the file it is merged
    into, its backups by their second, and the quota of the week.  The record [io] says how
    each write of a call ends and what the clock reads.  The file of a pending suggestion is
    an argument of the listing only. *)
From S2P Require Import Prelude Unicode GoStrings Utf8Facts TextFacts Validate GoSort.
From S2P Require Import SourceRep Entity SourceRegistry ProxyBudget SourceDisable Matcher.
From S2P Require Import Discover.
From Stdlib Require Import Floats.SpecFloat.

Local Open Scope Z_scope.

(** ** Files and outcomes *)

Record io := {
  io_stamp : Time; io_clock : Time; io_clock' : Time;
  io_backup : write_outcome; io_config : write_outcome; io_week : write_outcome;
  io_pending : write_outcome }.

(** [P] is the type of suggestions and [C] that of the file they change. *)
Record Files (P C : Type) := {
  f_pending : disk P; f_config : disk C; f_week : disk AutoApplyState; f_backups : gmap Time (disk C) }.
Arguments f_pending {P C}.
Arguments f_config {P C}.
Arguments f_week {P C}.
Arguments f_backups {P C}.

Inductive apply_error :=
  | EReadPending | EReadConfig | EBackup | EWriteConfig | EWriteWeek | EWritePending
  | ENothingEligible (blocked deferred : nat) | ENoNewQueries | ENoNewKeywords
  | EWeeklyCap (new quota : Z) | ENoPath | ENoRows | ENothingToChange | ENoEligibleRows (quota : Z)
  | EUnknownPending (name : string).

Section files.
Context {P C : Type}.
Implicit Types fs : Files P C.

Definition set_pending (d : disk P) fs : Files P C :=
  {| f_pending := d; f_config := f_config fs; f_week := f_week fs; f_backups := f_backups fs |}.
Definition set_config (d : disk C) fs : Files P C :=
  {| f_pending := f_pending fs; f_config := d; f_week := f_week fs; f_backups := f_backups fs |}.
Definition set_week (d : disk AutoApplyState) fs : Files P C :=
  {| f_pending := f_pending fs; f_config := f_config fs; f_week := d; f_backups := f_backups fs |}.

(** [backupFile]: the raw bytes of the file under a name that ends with the second. *)
Definition backupFile (o : io) fs : Files P C * bool :=
  match f_config fs with
  | NoFile => (fs, true)
  | d =>
      match io_backup o with
      | Untouched => (fs, true)
      | w =>
          let copy := match w with Torn => Unreadable | _ => d end in
          ({| f_pending := f_pending fs; f_config := f_config fs; f_week := f_week fs;
              f_backups := <[io_stamp o := copy]> (f_backups fs) |},
           match w with Written => false | _ => true end)
      end
  end.

Definition write_config (o : io) (c : C) fs : Files P C * bool :=
  let '(d, failed) := put_file (io_config o) c (f_config fs) in (set_config d fs, failed).
Definition write_week (o : io) (st : AutoApplyState) fs : Files P C * bool :=
  let '(d, failed) := SaveAutoApplyState (io_week o) st (f_week fs) in (set_week d fs, failed).
Definition write_pending (o : io) (p : P) fs : Files P C * bool :=
  let '(d, failed) := put_file (io_pending o) p (f_pending fs) in (set_pending d fs, failed).

(** A step whose failure ends the call with an error. *)
Definition then_or {R} (step : Files P C → Files P C * bool) (e : apply_error)
    (k : Files P C → Files P C * (apply_error + R)) fs : Files P C * (apply_error + R) :=
  let '(fs, failed) := step fs in if failed : bool then (fs, inl e) else k fs.

Definition load_pending fs : apply_error + P * C :=
  match get_file (f_pending fs) with
  | None => inl EReadPending
  | Some diff => match get_file (f_config fs) with None => inl EReadConfig | Some base => inr (diff, base) end
  end.
End files.

(** ** Keywords *)

Record KeywordEntry := {
  ke_ID : string; ke_Phrase : string; ke_Weight : Z; ke_Tag : string; ke_SuggestedWeight : Z;
  ke_EvidenceCount : Z; ke_JunkRate : spec_float; ke_Enabled : option bool }.

Record KeywordDiff := {
  AddKeywords : list KeywordEntry; AddHardReject : list KeywordEntry; kd_Summary : string;
  kd_ReportID : string; kd_GeneratedAt : string; kd_Status : string }.

Record priorityBlock := { HighMin : Z; MediumMin : Z }.

Record keywordsFile := {
  Priority : priorityBlock; Keywords : list KeywordEntry; Titles : list KeywordEntry;
  Negative : list KeywordEntry; HardReject : list KeywordEntry }.

Definition with_lists (f : keywordsFile) (kws hrs : list KeywordEntry) : keywordsFile := {|
  Priority := Priority f; Keywords := kws; Titles := Titles f; Negative := Negative f;
  HardReject := hrs |}.

Definition with_adds (d : KeywordDiff) (kws hrs : list KeywordEntry) : KeywordDiff := {|
  AddKeywords := kws; AddHardReject := hrs; kd_Summary := kd_Summary d; kd_ReportID := kd_ReportID d;
  kd_GeneratedAt := kd_GeneratedAt d; kd_Status := kd_Status d |}.

Definition with_status (d : KeywordDiff) (s : string) : KeywordDiff := {|
  AddKeywords := AddKeywords d; AddHardReject := AddHardReject d; kd_Summary := kd_Summary d;
  kd_ReportID := kd_ReportID d; kd_GeneratedAt := kd_GeneratedAt d; kd_Status := s |}.

Definition entry_key (e : KeywordEntry) : string := fold_key (ke_ID e).

(** The entries with an id and a phrase. *)
Definition usable (e : KeywordEntry) : bool :=
  negb (String.eqb (entry_key e) estr) && negb (String.eqb (ke_Phrase e) estr).

Definition hard_reject_tag (e : KeywordEntry) : KeywordEntry :=
  if String.eqb (ke_Tag e) estr
  then {| ke_ID := ke_ID e; ke_Phrase := ke_Phrase e; ke_Weight := ke_Weight e; ke_Tag := "hard-reject";
          ke_SuggestedWeight := ke_SuggestedWeight e; ke_EvidenceCount := ke_EvidenceCount e;
          ke_JunkRate := ke_JunkRate e; ke_Enabled := ke_Enabled e |}
  else e.

(** The ids in use, the merged file, and how many entries each list gained. *)
Definition mergeKeywords (base : keywordsFile) (diff : KeywordDiff) : keywordsFile * Z * Z :=
  let seen : gset string := list_to_set (entry_key <$> Keywords base ++ HardReject base) in
  let kws := dedup_from entry_key seen (List.filter usable (AddKeywords diff)) in
  let seen := seen ∪ list_to_set (entry_key <$> kws) in
  let hrs := dedup_from entry_key seen (List.filter usable (AddHardReject diff)) in
  (with_lists base (Keywords base ++ kws) (HardReject base ++ (hard_reject_tag <$> hrs)),
   Z.of_nat (length kws), Z.of_nat (length hrs)).

Definition add_summary (kw hr : Z) : string :=
  "add_keywords=" +:+ Itoa kw +:+ " add_hard_reject=" +:+ Itoa hr.

Definition note (label : string) (n : nat) : string :=
  if Nat.eqb n 0 then estr else label +:+ Itoa (Z.of_nat n).

Definition ApplyKeywords (dryRun : bool) (o : io) (fs : Files KeywordDiff keywordsFile)
    : Files KeywordDiff keywordsFile * (apply_error + string) :=
  match load_pending fs with
  | inl e => (fs, inl e)
  | inr (diff, base) =>
      let '(merged, addedKW, addedHR) := mergeKeywords base diff in
      let summary := add_summary addedKW addedHR in
      if dryRun then (fs, inr (summary +:+ " (dry-run)"))
      else
        then_or (backupFile o) EBackup
          (then_or (write_config o merged) EWriteConfig
            (then_or (write_pending o (with_status diff "applied")) EWritePending
              (λ fs, (fs, inr summary)))) fs
  end.

Definition keywordPhraseDenylist : list string :=
  ["linkedin"; "glassdoor"; "indeed"; "ziprecruiter"; "monster.com"; "facebook.com"].

Definition programmaticPositiveDenylist : list string :=
  ["programmatic"; "openrtb"; "header bidding"; "prebid"; "dooh"; "pdooh"; "supply-side";
   "brand awareness"; "viewability"; "programmatic guaranteed"; "programmatic stack";
   "openrtb bidder"].

(** The empty reason is an entry that passes. *)
Definition blockedKeywordPhrase (phrase : string) : string :=
  let lower := ToLower (TrimSpace phrase) in
  if (slen lower <? 3)%nat then "too_short"
  else default estr (List.find (Contains lower) keywordPhraseDenylist).

Definition blockedPositiveKeywordPhrase (phrase tag : string) : string :=
  let reason := blockedKeywordPhrase phrase in
  if negb (String.eqb reason estr) then reason
  else
    let lower := ToLower (TrimSpace phrase) in
    let tagLower := ToLower (TrimSpace tag) in
    if String.eqb tagLower "anti-icp-programmatic" then "anti-icp-programmatic"
    else if contains_any lower programmaticPositiveDenylist then "anti-icp-programmatic"
    else estr.

(** The entries a reason blocks go to the map of reasons, the others stay. *)
Fixpoint split_blocked (reason : KeywordEntry → string) (l : list KeywordEntry)
    (blocked : gmap string string) : list KeywordEntry * gmap string string :=
  match l with
  | [] => ([], blocked)
  | e :: l =>
      let r := reason e in
      if negb (String.eqb r estr) then split_blocked reason l (<[ke_Phrase e := r]> blocked)
      else let '(keep, blocked) := split_blocked reason l blocked in (e :: keep, blocked)
  end.

Definition positive_reason (e : KeywordEntry) : string :=
  blockedPositiveKeywordPhrase (ke_Phrase e) (ke_Tag e).
Definition reject_reason (e : KeywordEntry) : string := blockedKeywordPhrase (ke_Phrase e).

Definition FilterKeywordDiff (diff : KeywordDiff) : KeywordDiff * gmap string string :=
  let '(keepKW, blocked) := split_blocked positive_reason (AddKeywords diff) ∅ in
  let '(keepHR, blocked) := split_blocked reject_reason (AddHardReject diff) blocked in
  (with_adds diff keepKW keepHR, blocked).

Record AutoApplyOptions := { MaxPerWeek : Z; Now : Time }.

Definition add_applied (st : AutoApplyState) (n : Z) : AutoApplyState := {|
  WeekStart := WeekStart st; Applied := wrap64 (Applied st + n);
  KeywordTuneApplied := KeywordTuneApplied st |}.

(** [now] and the cap, with their defaults. *)
Definition auto_now (opts : AutoApplyOptions) (clock : Time) : Time :=
  if is_zero_time (Now opts) then clock else Now opts.
Definition auto_max (opts : AutoApplyOptions) (def : Z) : Z :=
  if MaxPerWeek opts <=? 0 then def else MaxPerWeek opts.

Definition ApplyKeywordsAuto `{TimeLib} (opts : AutoApplyOptions) (dryRun : bool) (o : io)
    (fs : Files KeywordDiff keywordsFile) : Files KeywordDiff keywordsFile * (apply_error + string) :=
  match load_pending fs with
  | inl e => (fs, inl e)
  | inr (diff, base) =>
      let '(diff, blocked) := FilterKeywordDiff diff in
      let '(merged, addedKW, addedHR) := mergeKeywords base diff in
      let totalNew := addedKW + addedHR in
      if totalNew =? 0 then (fs, inl ENoNewKeywords)
      else
        let now := auto_now opts (io_clock o) in
        let maxWeek := auto_max opts DefaultAutoApplyMaxPerWeek in
        let state := LoadAutoApplyState (f_week fs) now in
        let quota := RemainingWeeklyQuota state now maxWeek in
        if quota <? totalNew then (fs, inl (EWeeklyCap totalNew quota))
        else
          let summary := add_summary addedKW addedHR +:+ note " blocked=" (size blocked) in
          if dryRun then (fs, inr (summary +:+ " (dry-run)"))
          else
            then_or (backupFile o) EBackup
              (then_or (write_config o merged) EWriteConfig
                (then_or (write_week o (add_applied state totalNew)) EWriteWeek
                  (then_or (write_pending o (with_status diff "applied")) EWritePending
                    (λ fs, (fs, inr summary))))) fs
  end.

(** ** Keyword tuning *)

Definition with_weight (e : KeywordEntry) (w : Z) : KeywordEntry := {|
  ke_ID := ke_ID e; ke_Phrase := ke_Phrase e; ke_Weight := w; ke_Tag := ke_Tag e;
  ke_SuggestedWeight := ke_SuggestedWeight e; ke_EvidenceCount := ke_EvidenceCount e;
  ke_JunkRate := ke_JunkRate e; ke_Enabled := ke_Enabled e |}.

(** The last row of each id. *)
Definition rows_by_id (rows : list KeywordTuneRow) : gmap string KeywordTuneRow :=
  foldl (λ m row, let id := fold_key (kt_KeywordID row) in
                  if String.eqb id estr then m else <[id := row]> m) ∅ rows.

(** The kept entries, the number disabled and the number updated. *)
Fixpoint tune_entries (byID : gmap string KeywordTuneRow) (l : list KeywordEntry)
    : list KeywordEntry * Z * Z :=
  match l with
  | [] => ([], 0, 0)
  | entry :: l =>
      let '(kept, disabled, updated) := tune_entries byID l in
      match byID !! entry_key entry with
      | None => (entry :: kept, disabled, updated)
      | Some row =>
          if RecommendDisable row then (kept, disabled + 1, updated)
          else if (0 <? SuggestedWeight row) && negb (ke_Weight entry =? SuggestedWeight row)
          then (with_weight entry (SuggestedWeight row) :: kept, disabled, updated + 1)
          else (entry :: kept, disabled, updated)
      end
  end.

Definition applyKeywordTuneRows (base : keywordsFile) (rows : list KeywordTuneRow)
    : keywordsFile * Z * Z :=
  let '(kept, disabled, updated) := tune_entries (rows_by_id rows) (Keywords base) in
  (with_lists base kept (HardReject base), disabled, updated).

(** The rows that change something, as long as the quota lasts. *)
Fixpoint eligible_rows (rows : list KeywordTuneRow) (changes quota : Z) : list KeywordTuneRow :=
  match rows with
  | [] => []
  | row :: rows =>
      if quota <=? changes then []
      else if RecommendDisable row || (0 <? SuggestedWeight row)
      then row :: eligible_rows rows (changes + 1) quota
      else eligible_rows rows changes quota
  end.

Definition add_tuned (st : AutoApplyState) (n : Z) : AutoApplyState := {|
  WeekStart := WeekStart st; Applied := Applied st;
  KeywordTuneApplied := wrap64 (KeywordTuneApplied st + n) |}.

Section tune.
Context {P : Type} (keywordsPath : string).

Definition ApplyKeywordTune (rows : list KeywordTuneRow) (dryRun : bool) (o : io)
    (fs : Files P keywordsFile) : Files P keywordsFile * (apply_error + string) :=
  if String.eqb keywordsPath estr then (fs, inl ENoPath)
  else match rows with
  | [] => (fs, inl ENoRows)
  | _ =>
      match get_file (f_config fs) with
      | None => (fs, inl EReadConfig)
      | Some base =>
          let '(merged, disabled, updated) := applyKeywordTuneRows base rows in
          let summary := "weight_updates=" +:+ Itoa updated +:+ " disabled=" +:+ Itoa disabled in
          if dryRun then (fs, inr (summary +:+ " (dry-run)"))
          else if (updated =? 0) && (disabled =? 0) then (fs, inl ENothingToChange)
          else
            then_or (backupFile o) EBackup
              (then_or (write_config o merged) EWriteConfig (λ fs, (fs, inr summary))) fs
      end
  end.

Definition ApplyKeywordTuneAuto `{TimeLib} (rows : list KeywordTuneRow) (opts : AutoApplyOptions)
    (dryRun : bool) (o : io) (fs : Files P keywordsFile)
    : Files P keywordsFile * (apply_error + string) :=
  match rows with
  | [] => (fs, inl ENoRows)
  | _ =>
      let now := auto_now opts (io_clock o) in
      let maxWeek := auto_max opts 15 in
      let state := LoadAutoApplyState (f_week fs) now in
      let quota := RemainingKeywordTuneQuota state now maxWeek in
      let eligible := eligible_rows rows 0 quota in
      let n := Z.of_nat (length eligible) in
      match eligible with
      | [] => (fs, inl (ENoEligibleRows quota))
      | _ =>
          match ApplyKeywordTune eligible dryRun o fs with
          | (fs, inl e) => (fs, inl e)
          | (fs, inr summary) =>
              if dryRun
              then (fs, inr (summary +:+ " eligible=" +:+ Itoa n +:+ " quota=" +:+ Itoa quota))
              else
                then_or (write_week o (add_tuned state n)) EWriteWeek
                  (λ fs, (fs, inr (summary +:+ " eligible=" +:+ Itoa n))) fs
          end
      end
  end.
End tune.

(** ** Discovery queries *)

Definition with_queries (d : PendingICPDiff) (tg serp : list string) : PendingICPDiff := {|
  AddTelegramSearch := tg; AddSerpDorks := serp; pd_Summary := pd_Summary d;
  pd_ReportID := pd_ReportID d; pd_GeneratedAt := pd_GeneratedAt d; pd_Status := pd_Status d |}.

Definition with_state (d : PendingICPDiff) (s : string) : PendingICPDiff := {|
  AddTelegramSearch := AddTelegramSearch d; AddSerpDorks := AddSerpDorks d;
  pd_Summary := pd_Summary d; pd_ReportID := pd_ReportID d; pd_GeneratedAt := pd_GeneratedAt d;
  pd_Status := s |}.

Definition subtractDiscoverQueries (original applied : list string) : list string :=
  match applied with
  | [] => original
  | _ => let remove : gset string := list_to_set (fold_key <$> applied) in
         List.filter (λ q, negb (bool_decide (fold_key q ∈ remove))) original
  end.

Definition discoverQueryIn (list : list string) (q : string) : bool :=
  let key := fold_key q in existsb (λ s, String.eqb (fold_key s) key) list.

(** One step of the loops over the blocked and over the deferred queries. *)
Definition put_back (d : PendingICPDiff) (q : string) : PendingICPDiff :=
  if discoverQueryIn (AddTelegramSearch d) q || discoverQueryIn (AddSerpDorks d) q then d
  else if Contains (ToLower q) "site:"
  then with_queries d (AddTelegramSearch d) (AddSerpDorks d ++ [q])
  else with_queries d (AddTelegramSearch d ++ [q]) (AddSerpDorks d).

Section discover.
Context `{TimeLib} (visit : gmap string string → list string).

(** What is merged, the suggestion that is left, and the number blocked. *)
Definition plan_discover (auto : option AutoApplyOptions) (o : io) (week : disk AutoApplyState)
    (diff : PendingICPDiff) (base : ICPConfig)
    : apply_error + list string * list string * PendingICPDiff * nat :=
  match auto with
  | None => inr (AddTelegramSearch diff, AddSerpDorks diff, diff, 0%nat)
  | Some auto =>
      let '(addTG, addSerp, blocked) :=
        FilterDiscoverAdditions (AddTelegramSearch diff) (AddSerpDorks diff) in
      let '(newTG, newSerp) := NewDiscoverAdditions base addTG addSerp in
      let now := auto_now auto (io_clock o) in
      let maxWeek := auto_max auto DefaultAutoApplyMaxPerWeek in
      let state := LoadAutoApplyState week now in
      let quota := RemainingWeeklyQuota state now maxWeek in
      let '(appliedTG, appliedSerp, deferred) := TrimDiscoverQuota newTG newSerp quota in
      match appliedTG, appliedSerp with
      | [], [] =>
          if (0 <? size blocked)%nat || (0 <? length deferred)%nat
          then inl (ENothingEligible (size blocked) (length deferred))
          else inl ENoNewQueries
      | _, _ =>
          let diff := with_queries diff
            (subtractDiscoverQueries (AddTelegramSearch diff) appliedTG)
            (subtractDiscoverQueries (AddSerpDorks diff) appliedSerp) in
          let diff := foldl put_back diff (visit blocked) in
          let diff := foldl put_back diff deferred in
          inr (appliedTG, appliedSerp, diff, size blocked)
      end
  end.

Definition count (l : list string) : Z := Z.of_nat (length l).

(** The state is read again before it is written. *)
Definition count_applied (auto : option AutoApplyOptions) (o : io) (appliedNew : Z)
    (fs : Files PendingICPDiff ICPConfig) : Files PendingICPDiff ICPConfig * bool :=
  match auto with
  | Some auto =>
      if 0 <? appliedNew
      then let state := LoadAutoApplyState (f_week fs) (auto_now auto (io_clock' o)) in
           write_week o (add_applied state appliedNew) fs
      else (fs, false)
  | None => (fs, false)
  end.

Definition applyDiscover (dryRun : bool) (auto : option AutoApplyOptions) (o : io)
    (fs : Files PendingICPDiff ICPConfig) : Files PendingICPDiff ICPConfig * (apply_error + string) :=
  match load_pending fs with
  | inl e => (fs, inl e)
  | inr (diff, base) =>
      match plan_discover auto o (f_week fs) diff base with
      | inl e => (fs, inl e)
      | inr (addTG, addSerp, diff, blocked) =>
          let merged := MergeSuggestions base addTG addSerp in
          let appliedNew := count (TelegramSearch merged) - count (TelegramSearch base)
                            + count (SerpDorks merged) - count (SerpDorks base) in
          let summary := "telegram_search=" +:+ Itoa (count (TelegramSearch merged))
            +:+ " serp_dorks=" +:+ Itoa (count (SerpDorks merged))
            +:+ " applied_new=" +:+ Itoa appliedNew +:+ note " blocked=" blocked in
          if dryRun then (fs, inr (summary +:+ " (dry-run)"))
          else
            let status := match AddTelegramSearch diff, AddSerpDorks diff with
                          | [], [] => "applied" | _, _ => "pending" end in
            then_or (backupFile o) EBackup
              (then_or (write_config o merged) EWriteConfig
                (then_or (count_applied auto o appliedNew) EWriteWeek
                  (then_or (write_pending o (with_state diff status)) EWritePending
                    (λ fs, (fs, inr summary))))) fs
      end
  end.

Definition ApplyDiscover (dryRun : bool) := applyDiscover dryRun None.
Definition ApplyDiscoverAuto (opts : AutoApplyOptions) (dryRun : bool) :=
  applyDiscover dryRun (Some opts).
End discover.

(** ** Listing, previewing and rejecting *)

Inductive PendingKind := KindKeywords | KindDiscover.

Record PendingFile := { pf_Path : string; pf_Kind : PendingKind; pf_Status : string }.

(** An entry of the directory, with what its bytes decode to as either suggestion.  All paths
    share the directory, so a path is represented by the name. *)
Record dir_entry := {
  de_Name : string; de_IsDir : bool; de_Keywords : disk KeywordDiff; de_Discover : disk PendingICPDiff }.

Definition keyword_name (name : string) : bool :=
  HasPrefix name "keywords_pending_" || HasPrefix name "pain_vocab_pending_".

Definition peekPending (e : dir_entry) : apply_error + PendingKind * string :=
  if keyword_name (de_Name e) then
    match get_file (de_Keywords e) with
    | Some diff => inr (KindKeywords, kd_Status diff) | None => inl EReadPending end
  else if HasPrefix (de_Name e) "discover_icp_pending_" then
    match get_file (de_Discover e) with
    | Some diff => inr (KindDiscover, pd_Status diff) | None => inl EReadPending end
  else inl (EUnknownPending (de_Name e)).

Definition PeekPending := peekPending.

Definition list_entry (e : dir_entry) : option PendingFile :=
  if de_IsDir e || negb (HasSuffix (de_Name e) ".json") then None
  else match peekPending e with
       | inl _ => None
       | inr (kind, status) =>
           if negb (String.eqb status estr) && negb (String.eqb status "pending") then None
           else Some {| pf_Path := de_Name e; pf_Kind := kind; pf_Status := status |}
       end.

(** [None] is a directory that does not exist. *)
Definition ListPending `{Sorter} (dir : option (list dir_entry)) : list PendingFile :=
  sort_slice (λ a b, str_ltb (pf_Path a) (pf_Path b)) (omap list_entry (default [] dir)).

Definition summary_line (summary : string) : string :=
  if String.eqb summary estr then estr else "summary: " +:+ summary +:+ newline.

Definition PreviewKeywords (pendingPath keywordsPath : string) (fs : Files KeywordDiff keywordsFile)
    : apply_error + string :=
  match load_pending fs with
  | inl e => inl e
  | inr (diff, base) =>
      let '(merged, addedKW, addedHR) := mergeKeywords base diff in
      let len {A} (l : list A) := Itoa (Z.of_nat (length l)) in
      inr ("keywords: " +:+ keywordsPath +:+ newline
        +:+ "pending: " +:+ pendingPath +:+ newline
        +:+ "add_keywords: " +:+ Itoa addedKW +:+ " new (of " +:+ len (AddKeywords diff)
        +:+ " proposed)" +:+ newline
        +:+ "add_hard_reject: " +:+ Itoa addedHR +:+ " new (of " +:+ len (AddHardReject diff)
        +:+ " proposed)" +:+ newline
        +:+ "total keywords after: " +:+ len (Keywords merged) +:+ " hard_reject: "
        +:+ len (HardReject merged) +:+ newline
        +:+ summary_line (kd_Summary diff))
  end.

Definition PreviewDiscover (pendingPath icpPath : string) (fs : Files PendingICPDiff ICPConfig)
    : apply_error + string :=
  match load_pending fs with
  | inl e => inl e
  | inr (diff, base) =>
      let merged := MergeSuggestions base (AddTelegramSearch diff) (AddSerpDorks diff) in
      inr ("icp: " +:+ icpPath +:+ newline
        +:+ "pending: " +:+ pendingPath +:+ newline
        +:+ "add_telegram_search: " +:+ Itoa (count (AddTelegramSearch diff)) +:+ " -> "
        +:+ Itoa (count (TelegramSearch merged)) +:+ " total" +:+ newline
        +:+ "add_serp_dorks: " +:+ Itoa (count (AddSerpDorks diff)) +:+ " -> "
        +:+ Itoa (count (SerpDorks merged)) +:+ " total" +:+ newline
        +:+ summary_line (pd_Summary diff))
  end.

Definition RejectPending (w : write_outcome) (e : dir_entry) : dir_entry * option apply_error :=
  let failed (b : bool) := if b then Some EWritePending else None in
  if keyword_name (de_Name e) then
    match get_file (de_Keywords e) with
    | None => (e, Some EReadPending)
    | Some diff =>
        let '(d, f) := put_file w (with_status diff "rejected") (de_Keywords e) in
        ({| de_Name := de_Name e; de_IsDir := de_IsDir e; de_Keywords := d;
            de_Discover := de_Discover e |}, failed f)
    end
  else if HasPrefix (de_Name e) "discover_icp_pending_" then
    match get_file (de_Discover e) with
    | None => (e, Some EReadPending)
    | Some diff =>
        let '(d, f) := put_file w (with_state diff "rejected") (de_Discover e) in
        ({| de_Name := de_Name e; de_IsDir := de_IsDir e; de_Keywords := de_Keywords e;
            de_Discover := d |}, failed f)
    end
  else (e, Some (EUnknownPending (de_Name e))).
