(* ===== verification/SuggestProps.v ===== *)
(** What happens to suggestions and rankings: nothing proposed is lost by an automatic run on
    discovery queries; where a suggestion never closes, and where it closes too early
    (Suggestions.v); the ranking of search queries against its specification, one row per query
    that brought a source (Discover.v); and concrete runs of both. First the facts about what a run
    without review adds to the files, what it counts, and what it leaves in the suggestion. *)
From S2P Require Import Prelude Unicode GoStrings Utf8Facts TextFacts Validate GoSort.
From S2P Require Import SourceRep Entity SourceRegistry ProxyBudget SourceDisable Matcher.
From S2P Require Import CrawlFacts Discover Suggestions.
From Stdlib Require Import Floats.SpecFloat.

Local Open Scope Z_scope.

(** ** Lists of queries *)

(** A string as [UniqueFolded] keeps it. *)
Definition tidy (s : string) : Prop := TrimSpace s = s ∧ s ≠ estr.

(** A list as [UniqueFolded] leaves it. *)
Definition clean (l : list string) : Prop := Forall tidy l ∧ NoDup (ToLower <$> l).

Lemma trimmed_elem l s : s ∈ trimmed l ↔ s ≠ estr ∧ ∃ x, x ∈ l ∧ s = TrimSpace x.
Proof.
  unfold trimmed. rewrite list_elem_of_In, filter_In, <- list_elem_of_In, negb_true_iff, String.eqb_neq.
  rewrite list_elem_of_fmap. naive_solver.
Qed.

Lemma trimmed_tidy l : Forall tidy (trimmed l).
Proof.
  apply Forall_forall. intros s (Hs & x & _ & ->)%trimmed_elem. split; [apply TrimSpace_idemp|done].
Qed.

Lemma trimmed_id l : Forall tidy l → trimmed l = l.
Proof.
  unfold trimmed. induction 1 as [|s l [Ht Hs] _ IH]; [done|]. cbn [fmap list_fmap List.filter].
  rewrite Ht, (proj2 (String.eqb_neq s estr)) by done. cbn [negb]. by f_equal.
Qed.

Lemma sublist_Forall {A} (P : A → Prop) l k : l `sublist_of` k → Forall P k → Forall P l.
Proof. rewrite !Forall_forall. intros Hs H x Hx. by apply H, (elem_of_sublist l). Qed.

Lemma UniqueFolded_clean base extra : clean (UniqueFolded base extra).
Proof.
  split; [|apply dedup_on_NoDup]. eapply sublist_Forall; [apply dedup_on_sublist|apply trimmed_tidy].
Qed.

(** New queries go after a list that is clean. *)
Definition new_to (base add : list string) : Prop :=
  Forall tidy add ∧ NoDup (ToLower <$> add) ∧ ∀ x, x ∈ add → ToLower x ∉ ToLower <$> base.

Lemma UniqueFolded_new base add :
  clean base → new_to base add → UniqueFolded base add = base ++ add.
Proof.
  intros [Hb Hn] (Ha & Hna & Hd). unfold UniqueFolded, dedup_on.
  rewrite trimmed_id by by apply Forall_app. apply dedup_from_id; [|set_solver].
  rewrite fmap_app. apply NoDup_app. split_and!; [done| |done].
  intros k Hk (x & -> & Hx)%list_elem_of_fmap. by apply (Hd x).
Qed.

Lemma new_keys_clean base : clean base → new_keys base = list_to_set (ToLower <$> base).
Proof. intros [Hb _]. unfold new_keys. by rewrite trimmed_id. Qed.

Lemma dedup_new_to base l : clean base → new_to base (dedup_from ToLower (new_keys base) (trimmed l)).
Proof.
  intros Hb. split_and!.
  - eapply sublist_Forall; [apply dedup_from_sublist|apply trimmed_tidy].
  - apply dedup_from_NoDup.
  - intros x Hx. apply (list_elem_of_fmap_2 ToLower) in Hx.
    apply dedup_from_key in Hx as [_ Hx]. by rewrite new_keys_clean, elem_of_list_to_set in Hx.
Qed.

Lemma new_to_sublist base l k : l `sublist_of` k → new_to base k → new_to base l.
Proof.
  intros Hs (H1 & H2 & H3). split_and!.
  - by eapply sublist_Forall.
  - eapply sublist_NoDup; [done|]. by apply fmap_sublist.
  - intros x Hx. by apply H3, (elem_of_sublist l).
Qed.

(** ** The quota of a call *)

Lemma trim_list_spec l quota keep deferred quota' :
  0 ≤ quota → trim_list l quota = (keep, deferred, quota') →
  keep ++ deferred = l ∧ 0 ≤ quota' ∧ quota' + Z.of_nat (length keep) = quota.
Proof.
  revert quota keep deferred quota'. induction l as [|q l IH]; intros quota keep deferred quota' Hq.
  - intros [= <- <- <-]. split_and!; [done|done|cbn; lia].
  - cbn [trim_list]. destruct (Z.eqb_spec quota 0) as [->|Hne].
    + destruct (trim_list l 0) as [[k d] q'] eqn:E. intros [= <- <- <-].
      apply IH in E as (<- & ? & ?); [|done]. destruct k; [done|cbn in *; lia].
    + destruct (trim_list l (quota - 1)) as [[k d] q'] eqn:E. intros [= <- <- <-].
      apply IH in E as (<- & ? & ?); [|lia]. split_and!; [done|done|cbn [length]; lia].
Qed.

(** What is kept fits the quota; the rest is deferred, and nothing is lost. *)
Lemma TrimDiscoverQuota_spec telegram serp quota keepTG keepSerp deferred :
  TrimDiscoverQuota telegram serp quota = (keepTG, keepSerp, deferred) →
  Z.of_nat (length keepTG + length keepSerp) ≤ Z.max 0 quota
  ∧ ∃ d1 d2, telegram = keepTG ++ d1 ∧ serp = keepSerp ++ d2 ∧ deferred = d1 ++ d2.
Proof.
  unfold TrimDiscoverQuota. destruct (Z.leb_spec quota 0).
  - intros [= <- <- <-]. split; [cbn; lia|]. by exists telegram, serp.
  - destruct (trim_list telegram quota) as [[k1 d1] q1] eqn:E1.
    destruct (trim_list serp q1) as [[k2 d2] q2] eqn:E2. intros [= <- <- <-].
    apply trim_list_spec in E1 as (<- & ? & ?); [|lia]. apply trim_list_spec in E2 as (<- & ? & ?); [|lia].
    split; [lia|]. by exists d1, d2.
Qed.

(** ** Weeks *)

Lemma weekStart_floor now : weekStartUTC now = now `div` (7 * one_day) * (7 * one_day).
Proof.
  unfold weekStartUTC, Weekday. rewrite (Z.mul_comm 7), <- Z.div_div by done.
  generalize (now `div` one_day) as d. intros d. generalize one_day as u. intros u.
  pose proof (Z.div_mod d 7). pose proof (Z.div_mod (d + 1) 7).
  pose proof (Z.mod_pos_bound d 7). pose proof (Z.mod_pos_bound (d + 1) 7).
  assert (d - ((if (d + 1) `mod` 7 =? 0 then 7 else (d + 1) `mod` 7) - 1) = d `div` 7 * 7) as ->; [|lia].
  destruct (Z.eqb_spec ((d + 1) `mod` 7) 0); lia.
Qed.

(** A week starts on a Monday, at midnight, at most seven days ago. *)
Lemma weekStart_range now : weekStartUTC now ≤ now < weekStartUTC now + 7 * one_day.
Proof.
  rewrite weekStart_floor. pose proof (Z.div_mod now (7 * one_day) ltac:(done)).
  pose proof (Z.mod_pos_bound now (7 * one_day) ltac:(done)). lia.
Qed.

(** ** The state of the week *)

(** Formatting the start of a week and parsing it again gives the start of the week. *)
Definition keeps_weeks `{TimeLib} : Prop :=
  ∀ now, ParseRFC3339 (FormatRFC3339 (weekStartUTC now)) = Some (weekStartUTC now).

Section week.
Context `{TimeLib}.

(** What the week has used of its quota. *)
Definition spent (d : disk AutoApplyState) (now : Time) : Z := Applied (LoadAutoApplyState d now).

Lemma load_current d now :
  keeps_weeks → ParseRFC3339 (WeekStart (LoadAutoApplyState d now)) = Some (weekStartUTC now).
Proof.
  intros Hw. assert (Hf : ParseRFC3339 (WeekStart (fresh_week now)) = Some (weekStartUTC now)) by apply Hw.
  destruct d as [| |st]; [done..|]. cbn [LoadAutoApplyState].
  destruct (ParseRFC3339 (WeekStart st)) as [start|] eqn:E; [|done].
  destruct (Z.eqb_spec start (weekStartUTC now)) as [->|]; done.
Qed.

Lemma load_stored st now :
  ParseRFC3339 (WeekStart st) = Some (weekStartUTC now) → LoadAutoApplyState (Stored st) now = st.
Proof. cbn [LoadAutoApplyState]. intros ->. by rewrite Z.eqb_refl. Qed.

Lemma normalize_load d now :
  keeps_weeks → normalizeAutoApplyWeek (LoadAutoApplyState d now) now = LoadAutoApplyState d now.
Proof. intros Hw. apply (load_stored _ now), load_current, Hw. Qed.

Lemma load_same_week d now now' :
  weekStartUTC now = weekStartUTC now' → LoadAutoApplyState d now = LoadAutoApplyState d now'.
Proof. intros E. unfold LoadAutoApplyState, fresh_week. by rewrite E. Qed.

Lemma remaining_quota d now cap :
  keeps_weeks → 0 ≤ spent d now ≤ cap → 0 < cap ≤ max_int64 →
  RemainingWeeklyQuota (LoadAutoApplyState d now) now cap = cap - spent d now.
Proof.
  intros Hw Hs Hc. unfold RemainingWeeklyQuota. rewrite normalize_load by done. fold (spent d now).
  destruct (Z.leb_spec cap 0); [lia|]. rewrite wrap64_small by (unfold min_int64; lia).
  destruct (Z.ltb_spec (cap - spent d now) 0); lia.
Qed.
End week.

(** ** The writes of a run *)

(** How a run leaves the file it changes and the week: as they were, the file torn before the
    week was counted, or both written. *)
Inductive saved {P C} (fs : Files P C) (merged : C) (st : AutoApplyState) (fs' : Files P C) : Prop :=
  | saved_nothing : f_config fs' = f_config fs → f_week fs' = f_week fs → saved fs merged st fs'
  | saved_torn : f_config fs' = Unreadable → f_week fs' = f_week fs → saved fs merged st fs'
  | saved_all : f_config fs' = Stored merged → f_week fs' = Stored st → saved fs merged st fs'.

Lemma backup_keeps {P C} o (fs : Files P C) :
  f_config (backupFile o fs).1 = f_config fs ∧ f_week (backupFile o fs).1 = f_week fs
  ∧ f_pending (backupFile o fs).1 = f_pending fs.
Proof. unfold backupFile. by destruct (f_config fs) eqn:E, (io_backup o). Qed.

Lemma pending_keeps {P C R} o (p : P) (r : R) (fs : Files P C) :
  let fs' := (then_or (write_pending o p) EWritePending (λ fs, (fs, inr r)) fs).1 in
  f_config fs' = f_config fs ∧ f_week fs' = f_week fs.
Proof. unfold then_or, write_pending. by destruct (put_file _ _ _) as [d []]. Qed.

Lemma run_saves {P C R} o (merged : C) (step : Files P C → Files P C * bool) st
    (k : Files P C → Files P C * (apply_error + R)) fs :
  (∀ fs0, f_week fs0 = f_week fs → step fs0 = (set_week (Stored st) fs0, false)) →
  (∀ fs0, f_config (k fs0).1 = f_config fs0 ∧ f_week (k fs0).1 = f_week fs0) →
  saved fs merged st
    (then_or (backupFile o) EBackup (then_or (write_config o merged) EWriteConfig
      (then_or step EWriteWeek k)) fs).1.
Proof.
  intros Hs Hk. destruct (backup_keeps o fs) as (Hc & Hw & _). unfold then_or at 1.
  destruct (backupFile o fs) as [fs1 []]; [by apply saved_nothing|]. cbn [fst] in *.
  unfold then_or at 1, write_config, put_file. destruct (io_config o); cbn [fst].
  - unfold then_or. rewrite Hs by done.
    destruct (Hk (set_week (Stored st) (set_config (Stored merged) fs1))) as [H1 H2].
    by apply saved_all; [rewrite H1|rewrite H2].
  - by apply saved_nothing.
  - by apply saved_torn.
Qed.

(** ** What is planned *)

Lemma blocked_trim q : BlockedDiscoverQuery (TrimSpace q) = BlockedDiscoverQuery q.
Proof. unfold BlockedDiscoverQuery. by rewrite TrimSpace_idemp. Qed.

Lemma filtered_unblocked l q :
  q ∈ trimmed (List.filter (λ q, negb (is_blocked q)) l) → BlockedDiscoverQuery q = None.
Proof.
  intros (_ & x & Hx & ->)%trimmed_elem. rewrite blocked_trim.
  apply list_elem_of_In, filter_In in Hx as [_ Hx]. unfold is_blocked in Hx.
  by destruct (BlockedDiscoverQuery x).
Qed.

Section plan.
Context `{TimeLib} (visit : gmap string string → list string).

(** A plan of an automatic run: new queries, none blocked, at least one, within the quota. *)
Record planned (base : ICPConfig) (quota : Z) (tg serp : list string) : Prop := {
  pl_tg : new_to (TelegramSearch base) tg;
  pl_serp : new_to (SerpDorks base) serp;
  pl_free : ∀ q, q ∈ tg ++ serp → BlockedDiscoverQuery q = None;
  pl_some : 0 < count tg + count serp;
  pl_quota : count tg + count serp ≤ Z.max 0 quota }.

Lemma plan_auto auto o week diff base tg serp diff' blocked :
  plan_discover visit (Some auto) o week diff base = inr (tg, serp, diff', blocked) →
  clean (TelegramSearch base) → clean (SerpDorks base) →
  let now := auto_now auto (io_clock o) in
  planned base (RemainingWeeklyQuota (LoadAutoApplyState week now) now
                  (auto_max auto DefaultAutoApplyMaxPerWeek)) tg serp.
Proof.
  intros E Htg Hserp now. unfold plan_discover, FilterDiscoverAdditions, NewDiscoverAdditions in E.
  fold now in E. destruct (TrimDiscoverQuota _ _ _) as [[k1 k2] def] eqn:ET.
  apply TrimDiscoverQuota_spec in ET as (Hq & d1 & d2 & E1 & E2 & _).
  assert (Hpl : k1 = tg ∧ k2 = serp ∧ 0 < count tg + count serp).
  { unfold count. destruct k1, k2; [destruct (_ || _); done|..]; injection E as <- <- _ _;
      (split_and!; [done..|cbn [length]; lia]). }
  destruct Hpl as (-> & -> & Hsome).
  assert (Hs1 : tg `sublist_of` tg ++ d1) by (apply sublist_inserts_r; done).
  assert (Hs2 : serp `sublist_of` serp ++ d2) by (apply sublist_inserts_r; done).
  rewrite <- E1 in Hs1. rewrite <- E2 in Hs2. constructor; [| |..|unfold count; lia].
  - by eapply new_to_sublist, dedup_new_to.
  - by eapply new_to_sublist, dedup_new_to.
  - intros q [Hq'|Hq']%elem_of_app; (eapply elem_of_sublist in Hq'; [|eassumption]);
      (eapply elem_of_sublist in Hq'; [|apply dedup_from_sublist]); by eapply filtered_unblocked.
  - done.
Qed.

Lemma merge_planned base quota tg serp :
  clean (TelegramSearch base) → clean (SerpDorks base) → planned base quota tg serp →
  TelegramSearch (MergeSuggestions base tg serp) = TelegramSearch base ++ tg
  ∧ SerpDorks (MergeSuggestions base tg serp) = SerpDorks base ++ serp.
Proof. intros Ht Hs []. split; by apply UniqueFolded_new. Qed.
End plan.

(** ** What a merge of keywords adds *)

Lemma split_blocked_spec reason l blocked :
  (∀ e, e ∈ (split_blocked reason l blocked).1 → e ∈ l ∧ reason e = estr).
Proof.
  revert blocked. induction l as [|e l IH]; intros blocked x; [intros Hx; by apply not_elem_of_nil in Hx|].
  cbn [split_blocked]. destruct (String.eqb_spec (reason e) estr) as [Er|]; cbn [negb].
  - specialize (IH blocked). destruct (split_blocked reason l blocked) as [keep b]. cbn [fst] in *.
    intros [->|Hx]%elem_of_cons; [split; [by left|done]|]. destruct (IH x Hx). split; [by right|done].
  - intros [Hx Hr]%IH. split; [by right|done].
Qed.

(** What a merge adds: entries of the suggestion under ids that are not in use. *)
Lemma mergeKeywords_new base diff merged kw hr :
  mergeKeywords base diff = (merged, kw, hr) →
  ∃ kws hrs,
    Keywords merged = Keywords base ++ kws ∧ HardReject merged = HardReject base ++ (hard_reject_tag <$> hrs)
    ∧ kw = Z.of_nat (length kws) ∧ hr = Z.of_nat (length hrs)
    ∧ kws `sublist_of` AddKeywords diff ∧ hrs `sublist_of` AddHardReject diff
    ∧ ∀ e, e ∈ kws ++ (hard_reject_tag <$> hrs) → entry_key e ∉ entry_key <$> Keywords base ++ HardReject base.
Proof.
  unfold mergeKeywords. set (seen := list_to_set _).
  set (kws := dedup_from entry_key seen _). set (hrs := dedup_from entry_key _ _).
  intros [= <- <- <-]. exists kws, hrs.
  assert (Hf : ∀ l, List.filter usable l `sublist_of` l).
  { induction l as [|e l IH]; [done|]. cbn [List.filter].
    destruct (usable e); [by apply sublist_skip|by apply sublist_cons]. }
  split_and!; [done..| | |].
  - etrans; [apply dedup_from_sublist|apply Hf].
  - etrans; [apply dedup_from_sublist|apply Hf].
  - intros e [He|He]%elem_of_app.
    + apply (list_elem_of_fmap_2 entry_key), dedup_from_key in He as [_ He].
      unfold seen in He. by rewrite elem_of_list_to_set in He.
    + apply list_elem_of_fmap in He as (x & -> & Hx).
      assert (entry_key (hard_reject_tag x) = entry_key x) as ->
        by (unfold hard_reject_tag; by destruct (String.eqb _ _)).
      apply (list_elem_of_fmap_2 entry_key), dedup_from_key in Hx as [_ Hx].
      unfold seen in Hx. rewrite elem_of_union, elem_of_list_to_set in Hx. tauto.
Qed.

(** ** A week of runs without review *)

(** The files the runs share. *)
Record World := { wd_icp : disk ICPConfig; wd_kw : disk keywordsFile; wd_week : disk AutoApplyState }.

(** A run, with the suggestion it finds. *)
Inductive auto_op :=
  | ODiscover (opts : AutoApplyOptions) (dryRun : bool) (o : io) (diff : disk PendingICPDiff)
  | OKeywords (opts : AutoApplyOptions) (dryRun : bool) (o : io) (diff : disk KeywordDiff)
  | OTune (rows : list KeywordTuneRow) (opts : AutoApplyOptions) (dryRun : bool) (o : io).

Definition files {P C} (d : disk P) (c : disk C) (week : disk AutoApplyState) : Files P C :=
  {| f_pending := d; f_config := c; f_week := week; f_backups := ∅ |}.

Section weekly.
Context `{TimeLib} (visit : gmap string string → list string) (path : string).

Definition run_op (w : World) (op : auto_op) : World :=
  match op with
  | ODiscover opts dryRun o diff =>
      let fs := (ApplyDiscoverAuto visit opts dryRun o (files diff (wd_icp w) (wd_week w))).1 in
      {| wd_icp := f_config fs; wd_kw := wd_kw w; wd_week := f_week fs |}
  | OKeywords opts dryRun o diff =>
      let fs := (ApplyKeywordsAuto opts dryRun o (files diff (wd_kw w) (wd_week w))).1 in
      {| wd_icp := wd_icp w; wd_kw := f_config fs; wd_week := f_week fs |}
  | OTune rows opts dryRun o =>
      let fs := (ApplyKeywordTuneAuto path rows opts dryRun o
                   (files (NoFile : disk unit) (wd_kw w) (wd_week w))).1 in
      {| wd_icp := wd_icp w; wd_kw := f_config fs; wd_week := f_week fs |}
  end.

(** The run falls in the week that starts at [start], its cap is [cap], and it can write the
    state of the week. *)
Definition op_ok (start : Time) (cap : Z) (op : auto_op) : Prop :=
  match op with
  | ODiscover opts _ o _ =>
      weekStartUTC (auto_now opts (io_clock o)) = start ∧ weekStartUTC (auto_now opts (io_clock' o)) = start
      ∧ auto_max opts DefaultAutoApplyMaxPerWeek = cap ∧ io_week o = Written
  | OKeywords opts _ o _ =>
      weekStartUTC (auto_now opts (io_clock o)) = start
      ∧ auto_max opts DefaultAutoApplyMaxPerWeek = cap ∧ io_week o = Written
  | OTune _ opts _ o => weekStartUTC (auto_now opts (io_clock o)) = start ∧ io_week o = Written
  end.

(** The queries and the keywords of the files, none when a file cannot be read. *)
Definition tg_of (w : World) : list string :=
  match wd_icp w with Stored c => TelegramSearch c | _ => [] end.
Definition serp_of (w : World) : list string :=
  match wd_icp w with Stored c => SerpDorks c | _ => [] end.
Definition kws_of (w : World) : list KeywordEntry :=
  match wd_kw w with Stored f => Keywords f | _ => [] end.
Definition hrs_of (w : World) : list KeywordEntry :=
  match wd_kw w with Stored f => HardReject f | _ => [] end.

(** The number of elements whose key is new. *)
Definition fresh {A} (key : A → string) (old new : list A) : Z :=
  Z.of_nat (length (List.filter (λ x, negb (bool_decide (key x ∈ key <$> old))) new)).

(** What a run added to the files. *)
Definition gain (w w' : World) : Z :=
  fresh ToLower (tg_of w) (tg_of w') + fresh ToLower (serp_of w) (serp_of w')
  + fresh entry_key (kws_of w ++ hrs_of w) (kws_of w' ++ hrs_of w').

(** What a sequence of runs added, one after the other, counting again what was removed. *)
Fixpoint gained (w : World) (ops : list auto_op) : Z :=
  match ops with [] => 0 | op :: ops => gain w (run_op w op) + gained (run_op w op) ops end.

(** Where the contents of [w'] come from: from [w], or past the denylists. *)
Record vetted (w w' : World) : Prop := {
  vt_queries : ∀ q, q ∈ tg_of w' ++ serp_of w' →
    q ∈ tg_of w ++ serp_of w ∨ BlockedDiscoverQuery q = None;
  vt_keywords : ∀ e, e ∈ kws_of w' →
    (∃ e0, e0 ∈ kws_of w ∧ ke_ID e0 = ke_ID e ∧ ke_Phrase e0 = ke_Phrase e ∧ ke_Tag e0 = ke_Tag e)
    ∨ positive_reason e = estr;
  vt_rejects : ∀ e, e ∈ hrs_of w' → e ∈ hrs_of w ∨ reject_reason e = estr }.

Definition clean_world (w : World) : Prop := clean (tg_of w) ∧ clean (serp_of w).

(** *** Counting what is new *)

Lemma fresh_concat {A} (key : A → string) old l1 l2 :
  fresh key old (l1 ++ l2) = fresh key old l1 + fresh key old l2.
Proof. unfold fresh. rewrite List.filter_app, length_app. lia. Qed.

Lemma fresh_none {A} (key : A → string) old new :
  (∀ x, x ∈ new → key x ∈ key <$> old) → fresh key old new = 0.
Proof.
  intros Hall. unfold fresh. induction new as [|x new IH]; [done|]. cbn [List.filter].
  rewrite bool_decide_true by (apply Hall; set_solver). apply IH. set_solver.
Qed.

Lemma fresh_all {A} (key : A → string) old new :
  (∀ x, x ∈ new → key x ∉ key <$> old) → fresh key old new = Z.of_nat (length new).
Proof.
  intros Hall. unfold fresh. induction new as [|x new IH]; [done|]. cbn [List.filter].
  rewrite bool_decide_false by (apply Hall; set_solver). cbn [negb length].
  rewrite !Nat2Z.inj_succ, IH by set_solver. done.
Qed.

Lemma fresh_self {A} (key : A → string) l : fresh key l l = 0.
Proof. apply fresh_none. intros x Hx. by apply list_elem_of_fmap_2. Qed.

Lemma fresh_nil {A} (key : A → string) old : fresh key old [] = 0.
Proof. done. Qed.

Lemma fresh_new {A} (key : A → string) old add :
  (∀ x, x ∈ add → key x ∉ key <$> old) → fresh key old (old ++ add) = Z.of_nat (length add).
Proof. intros Hall. by rewrite fresh_concat, fresh_self, fresh_all. Qed.

Lemma vetted_refl w : vetted w w.
Proof. constructor; [by left| |by left]. intros e He. left. by exists e. Qed.

Lemma vetted_trans w1 w2 w3 : vetted w1 w2 → vetted w2 w3 → vetted w1 w3.
Proof.
  intros [Q1 K1 R1] [Q2 K2 R2]. constructor.
  - intros q Hq. destruct (Q2 q Hq) as [Hq'|]; [by apply Q1|by right].
  - intros e He. destruct (K2 e He) as [(e0 & H0 & E1 & E2 & E3)|]; [|by right].
    destruct (K1 e0 H0) as [(e1 & H1 & F1 & F2 & F3)|Hr].
    + left. exists e1. by rewrite F1, F2, F3.
    + right. unfold positive_reason in *. by rewrite <- E2, <- E3.
  - intros e He. destruct (R2 e He); [by apply R1|by right].
Qed.

(** *** One run *)

Lemma weekStart_idem now : weekStartUTC (weekStartUTC now) = weekStartUTC now.
Proof. rewrite !weekStart_floor, Z.div_mul by done. done. Qed.

(** What a run keeps: it adds what it counts, within the cap. *)
Record step_ok (start : Time) (cap : Z) (w w' : World) : Prop := {
  so_clean : clean_world w → clean_world w';
  so_vetted : vetted w w';
  so_gain : 0 ≤ gain w w';
  so_spent : spent (wd_week w') start = spent (wd_week w) start + gain w w';
  so_cap : spent (wd_week w') start ≤ cap }.

Lemma gain_self w : gain w w = 0.
Proof. unfold gain. by rewrite !fresh_self. Qed.

Lemma step_same start cap w w' :
  spent (wd_week w) start ≤ cap →
  wd_icp w' = wd_icp w → wd_kw w' = wd_kw w → spent (wd_week w') start = spent (wd_week w) start →
  step_ok start cap w w'.
Proof.
  intros Hc Hi Hk Hw.
  assert (Hg : gain w w' = gain w w) by (unfold gain, tg_of, serp_of, kws_of, hrs_of; by rewrite Hi, Hk).
  rewrite gain_self in Hg.
  constructor; [|pose proof (vetted_refl w) as []; constructor|by rewrite Hg|by rewrite Hg, Z.add_0_r, Hw
    |by rewrite Hw]; unfold clean_world, tg_of, serp_of, kws_of, hrs_of in *; by rewrite ?Hi, ?Hk.
Qed.

Lemma step_torn_icp start cap w w' :
  spent (wd_week w) start ≤ cap →
  wd_icp w' = Unreadable → wd_kw w' = wd_kw w → wd_week w' = wd_week w → step_ok start cap w w'.
Proof.
  intros Hc Hi Hk Hw.
  assert (Hg : gain w w' = 0).
  { unfold gain, tg_of, serp_of, kws_of, hrs_of. by rewrite Hi, Hk, fresh_self, !fresh_nil. }
  constructor; [|pose proof (vetted_refl w) as []; constructor|by rewrite Hg|by rewrite Hg, Z.add_0_r, Hw
    |by rewrite Hw]; unfold clean_world, tg_of, serp_of, kws_of, hrs_of in *; rewrite ?Hi, ?Hk; try done.
  - intros _. by split; split; constructor.
  - intros q Hq. by apply not_elem_of_nil in Hq.
Qed.

Lemma step_torn_kw start cap w w' :
  spent (wd_week w) start ≤ cap →
  wd_icp w' = wd_icp w → wd_kw w' = Unreadable → wd_week w' = wd_week w → step_ok start cap w w'.
Proof.
  intros Hc Hi Hk Hw.
  assert (Hg : gain w w' = 0).
  { unfold gain, tg_of, serp_of, kws_of, hrs_of. by rewrite Hi, Hk, !fresh_self. }
  constructor; [|pose proof (vetted_refl w) as []; constructor|by rewrite Hg|by rewrite Hg, Z.add_0_r, Hw
    |by rewrite Hw]; unfold clean_world, tg_of, serp_of, kws_of, hrs_of in *; rewrite ?Hi, ?Hk; try done;
    intros e He; by apply not_elem_of_nil in He.
Qed.

(** The state a run saves counts what it added. *)
Lemma spent_saved d now start n :
  keeps_weeks → weekStartUTC now = start → 0 ≤ spent d start → 0 ≤ n →
  spent d start + n ≤ max_int64 →
  spent (Stored (add_applied (LoadAutoApplyState d now) n)) start = spent d start + n.
Proof.
  intros Hw <- H0 Hn Hm. unfold spent in *.
  rewrite (load_same_week d _ now (weekStart_idem now)) in *.
  rewrite load_stored.
  - cbn [add_applied Applied]. rewrite wrap64_small by (unfold min_int64; lia). done.
  - cbn [add_applied WeekStart]. rewrite weekStart_idem. by apply load_current.
Qed.

Lemma clean_app base add : clean base → new_to base add → clean (base ++ add).
Proof. intros Hb Ha. rewrite <- UniqueFolded_new by done. apply UniqueFolded_clean. Qed.

Lemma spent_week d now start : weekStartUTC now = start → spent d now = spent d start.
Proof. intros <-. unfold spent. by rewrite (load_same_week d _ now (weekStart_idem now)). Qed.

Section run.
Context (weeks : keeps_weeks) (start : Time) (cap : Z) (Hcap : 0 < cap ≤ max_int64).

Lemma quota_left d now :
  weekStartUTC now = start → 0 ≤ spent d start ≤ cap →
  RemainingWeeklyQuota (LoadAutoApplyState d now) now cap = cap - spent d start.
Proof using weeks Hcap.
  intros Hn Hs. rewrite <- (spent_week d now start Hn) in *. by apply remaining_quota.
Qed.

Lemma step_icp w base tg serp now :
  wd_icp w = Stored base → clean_world w → weekStartUTC now = start →
  0 ≤ spent (wd_week w) start ≤ cap →
  planned base (cap - spent (wd_week w) start) tg serp →
  step_ok start cap w
    {| wd_icp := Stored (MergeSuggestions base tg serp); wd_kw := wd_kw w;
       wd_week := Stored (add_applied (LoadAutoApplyState (wd_week w) now) (count tg + count serp)) |}.
Proof using weeks Hcap.
  intros Ei [Ht Hs] Hn Hq Hp. unfold tg_of, serp_of in Ht, Hs. rewrite Ei in Ht, Hs.
  destruct (merge_planned _ _ _ _ Ht Hs Hp) as [Et Es]. destruct Hp as [Pt Ps Pf Psome Pq].
  set (w' := {| wd_icp := _ |}).
  assert (Hg : gain w w' = count tg + count serp).
  { unfold gain, tg_of, serp_of, kws_of, hrs_of, w'. cbn [wd_icp wd_kw]. rewrite Ei, Et, Es, fresh_self.
    rewrite !fresh_new by (by apply Pt || by apply Ps). unfold count. lia. }
  assert (Hsp : spent (wd_week w') start = spent (wd_week w) start + (count tg + count serp))
    by (apply spent_saved; [done|done|lia|lia|unfold max_int64 in *; lia]).
  constructor; [|constructor|lia|lia|lia].
  - intros _. unfold clean_world, tg_of, serp_of, w'. cbn [wd_icp]. rewrite Et, Es.
    split; by apply clean_app.
  - intros q. unfold tg_of, serp_of, w'. cbn [wd_icp]. rewrite Ei, Et, Es.
    intros Hq'. destruct (decide (q ∈ tg ++ serp)); [right; by apply Pf|left; set_solver].
  - apply (vt_keywords _ _ (vetted_refl w)).
  - apply (vt_rejects _ _ (vetted_refl w)).
Qed.

Lemma discover_ok w opts dryRun o diff :
  op_ok start cap (ODiscover opts dryRun o diff) → clean_world w →
  0 ≤ spent (wd_week w) start ≤ cap →
  step_ok start cap w (run_op w (ODiscover opts dryRun o diff)).
Proof using weeks Hcap.
  intros (Hn & Hn' & Hm & Ho) Hcl Hq. pose proof Hcl as [Ht Hs]. cbn [run_op]. unfold ApplyDiscoverAuto, applyDiscover.
  assert (Hsame : step_ok start cap w {| wd_icp := wd_icp w; wd_kw := wd_kw w; wd_week := wd_week w |})
    by (apply step_same; [lia|done..]).
  unfold load_pending. cbn [f_pending f_config files].
  destruct (get_file diff) as [d|]; [|exact Hsame].
  destruct (get_file (wd_icp w)) as [base|] eqn:Ei; [|exact Hsame]. cbn [f_week].
  destruct (plan_discover _ _ _ _ _ _) as [e|[[[tg serp] diff'] blocked]] eqn:Ep; [exact Hsame|].
  assert (Ei' : wd_icp w = Stored base) by (destruct (wd_icp w); cbn in Ei; congruence).
  unfold tg_of in Ht. unfold serp_of in Hs. rewrite Ei' in Ht, Hs.
  apply plan_auto in Ep; [|done..]. cbn zeta in Ep. rewrite Hm, quota_left in Ep by done.
  destruct (merge_planned _ _ _ _ Ht Hs Ep) as [Et Es]. pose proof (pl_some _ _ _ _ Ep) as Psome.
  destruct dryRun; [exact Hsame|]. rewrite Et, Es.
  replace (count (TelegramSearch base ++ tg) - count (TelegramSearch base)
    + count (SerpDorks base ++ serp) - count (SerpDorks base)) with (count tg + count serp)
    by (unfold count; rewrite !length_app; lia).
  match goal with |- context [then_or (backupFile o) EBackup ?k ?fs0] =>
    assert (saved fs0 (MergeSuggestions base tg serp)
      (add_applied (LoadAutoApplyState (wd_week w) (auto_now opts (io_clock' o))) (count tg + count serp))
      (then_or (backupFile o) EBackup k fs0).1) as Hsv end.
  { apply run_saves; [|intros fs0; apply pending_keeps]. intros fs0 Ew. unfold count_applied.
    rewrite (proj2 (Z.ltb_lt 0 _)) by done. unfold write_week, SaveAutoApplyState. rewrite Ho, Ew. done. }
  destruct Hsv as [Ec Ew|Ec Ew|Ec Ew]; cbn zeta; rewrite Ec, Ew; cbn [f_config f_week files].
  - exact Hsame.
  - by apply step_torn_icp; [lia|..].
  - by eapply step_icp.
Qed.

(** *** Keywords *)

Lemma step_kw w base diff merged kw hr now :
  wd_kw w = Stored base → weekStartUTC now = start → 0 ≤ spent (wd_week w) start ≤ cap →
  mergeKeywords base (FilterKeywordDiff diff).1 = (merged, kw, hr) →
  kw + hr ≤ cap - spent (wd_week w) start →
  step_ok start cap w
    {| wd_icp := wd_icp w; wd_kw := Stored merged;
       wd_week := Stored (add_applied (LoadAutoApplyState (wd_week w) now) (kw + hr)) |}.
Proof using weeks Hcap.
  intros Ek Hn Hq Hm Hc. apply mergeKeywords_new in Hm as (kws & hrs & E1 & E2 & -> & -> & S1 & S2 & Hnew).
  set (w' := {| wd_icp := _ |}).
  assert (Hg : gain w w' = Z.of_nat (length kws) + Z.of_nat (length hrs)).
  { unfold gain, tg_of, serp_of, kws_of, hrs_of, w'. cbn [wd_icp wd_kw]. rewrite Ek, E1, E2, !fresh_self.
    rewrite !fresh_concat, (fresh_all _ _ kws), (fresh_all _ _ (hard_reject_tag <$> hrs)), length_fmap
      by set_solver. rewrite !fresh_none; [lia|..]; intros x Hx; apply list_elem_of_fmap_2; set_solver. }
  assert (Hsp : spent (wd_week w') start
                = spent (wd_week w) start + (Z.of_nat (length kws) + Z.of_nat (length hrs)))
    by (apply spent_saved; [done|done|lia|lia|unfold max_int64 in *; lia]).
  constructor; [by intros|constructor|lia|lia|lia].
  - intros q Hq'. by left.
  - intros e. unfold kws_of, w'. cbn [wd_kw]. rewrite Ek, E1. intros [He|He]%elem_of_app.
    + left. by exists e.
    + right. eapply elem_of_sublist in He; [|done]. unfold FilterKeywordDiff in He.
      pose proof (split_blocked_spec positive_reason (AddKeywords diff) ∅) as Hsp'.
      destruct (split_blocked positive_reason _ _) as [k b], (split_blocked reject_reason _ _).
      by apply Hsp'.
  - intros e. unfold hrs_of, w'. cbn [wd_kw]. rewrite Ek, E2. intros [He|He]%elem_of_app; [by left|].
    right. apply list_elem_of_fmap in He as (x & -> & Hx). eapply elem_of_sublist in Hx; [|done].
    assert (reject_reason (hard_reject_tag x) = reject_reason x) as ->
      by (unfold hard_reject_tag; by destruct (String.eqb _ _)).
    unfold FilterKeywordDiff in Hx. destruct (split_blocked positive_reason _ _) as [k b].
    pose proof (split_blocked_spec reject_reason (AddHardReject diff) b) as Hsp'.
    destruct (split_blocked reject_reason _ _). by apply Hsp'.
Qed.

Lemma keywords_ok w opts dryRun o diff :
  op_ok start cap (OKeywords opts dryRun o diff) → 0 ≤ spent (wd_week w) start ≤ cap →
  step_ok start cap w (run_op w (OKeywords opts dryRun o diff)).
Proof using weeks Hcap.
  intros (Hn & Hm & Ho) Hq. cbn [run_op]. unfold ApplyKeywordsAuto.
  assert (Hsame : step_ok start cap w {| wd_icp := wd_icp w; wd_kw := wd_kw w; wd_week := wd_week w |})
    by (apply step_same; [lia|done..]).
  unfold load_pending. cbn [f_pending f_config files].
  destruct (get_file diff) as [d|]; [|exact Hsame].
  destruct (get_file (wd_kw w)) as [base|] eqn:Ei; [|exact Hsame].
  assert (Ei' : wd_kw w = Stored base) by (destruct (wd_kw w); cbn in Ei; congruence).
  destruct (FilterKeywordDiff d) as [d' blocked] eqn:Ef.
  destruct (mergeKeywords base d') as [[merged kw] hr] eqn:Em. cbn [f_week files].
  destruct (Z.eqb_spec (kw + hr) 0) as [|Hne]; [exact Hsame|]. rewrite Hm, quota_left by done.
  destruct (Z.ltb_spec (cap - spent (wd_week w) start) (kw + hr)); [exact Hsame|].
  destruct dryRun; [exact Hsame|].
  match goal with |- context [then_or (backupFile o) EBackup ?k ?fs0] =>
    assert (saved fs0 merged
      (add_applied (LoadAutoApplyState (wd_week w) (auto_now opts (io_clock o))) (kw + hr))
      (then_or (backupFile o) EBackup k fs0).1) as Hsv end.
  { apply run_saves; [|intros fs0; apply pending_keeps]. intros fs0 Ew.
    unfold write_week, SaveAutoApplyState. by rewrite Ho. }
  destruct Hsv as [Ec Ew|Ec Ew|Ec Ew]; cbn zeta; rewrite Ec, Ew; cbn [f_config f_week files].
  - exact Hsame.
  - by apply step_torn_kw; [lia|..].
  - eapply step_kw; [done..| |done]. by rewrite Ef.
Qed.

Lemma tune_entries_sub byID l :
  (∀ e, e ∈ (tune_entries byID l).1.1 → ∃ e0, e0 ∈ l ∧ ke_ID e0 = ke_ID e
    ∧ ke_Phrase e0 = ke_Phrase e ∧ ke_Tag e0 = ke_Tag e).
Proof.
  induction l as [|x l IH]; intros e; [intros He; by apply not_elem_of_nil in He|]. cbn [tune_entries].
  destruct (tune_entries byID l) as [[kept dis] upd]. cbn [fst] in IH.
  assert (Hrest : e ∈ kept → ∃ e0, e0 ∈ x :: l ∧ ke_ID e0 = ke_ID e
    ∧ ke_Phrase e0 = ke_Phrase e ∧ ke_Tag e0 = ke_Tag e).
  { intros (e0 & H0 & ?)%IH. exists e0. split; [by right|done]. }
  destruct (byID !! entry_key x) as [row|];
    [destruct (RecommendDisable row); [|destruct (_ && _)]|]; cbn [fst]; [done|..];
    (intros [->|He]%elem_of_cons; [exists x; split; [by left|done]|by apply Hrest]).
Qed.

(** Tuning changes weights and removes entries; it adds none and spends its own quota. *)
Lemma step_tuned w base rows :
  wd_kw w = Stored base → 0 ≤ spent (wd_week w) start ≤ cap → ∀ week,
  spent week start = spent (wd_week w) start →
  step_ok start cap w
    {| wd_icp := wd_icp w; wd_kw := Stored (applyKeywordTuneRows base rows).1.1; wd_week := week |}.
Proof.
  intros Ek Hq week Hw. unfold applyKeywordTuneRows.
  pose proof (tune_entries_sub (rows_by_id rows) (Keywords base)) as Hsub.
  destruct (tune_entries _ _) as [[kept dis] upd]. cbn [fst] in *. set (w' := {| wd_icp := _ |}).
  assert (Hg : gain w w' = 0).
  { unfold gain, tg_of, serp_of, kws_of, hrs_of, w'. cbn [wd_icp wd_kw with_lists Keywords HardReject].
    rewrite Ek, !fresh_self, fresh_none; [done|]. intros x [Hx|Hx]%elem_of_app.
    - destruct (Hsub x Hx) as (e0 & H0 & E & _). unfold entry_key at 1. rewrite <- E.
      apply (list_elem_of_fmap_2 entry_key). set_solver.
    - apply list_elem_of_fmap_2. set_solver. }
  constructor; [by intros|constructor|by rewrite Hg|rewrite Hg; cbn [wd_week w']; lia
    |cbn [wd_week w']; lia]; unfold w', tg_of, serp_of, kws_of, hrs_of; cbn [wd_icp wd_kw];
    rewrite ?Ek; cbn [with_lists Keywords HardReject].
  - intros q Hq'. by left.
  - intros e He. left. by apply Hsub.
  - intros e He. by left.
Qed.

Lemma tune_ok w rows opts dryRun o :
  op_ok start cap (OTune rows opts dryRun o) → 0 ≤ spent (wd_week w) start ≤ cap →
  step_ok start cap w (run_op w (OTune rows opts dryRun o)).
Proof using weeks Hcap.
  intros (Hn & Ho) Hq. cbn [run_op].
  assert (Hsame : step_ok start cap w {| wd_icp := wd_icp w; wd_kw := wd_kw w; wd_week := wd_week w |})
    by (apply step_same; [lia|done..]).
  unfold ApplyKeywordTuneAuto. destruct rows as [|r rows]; [exact Hsame|].
  set (el := eligible_rows _ _ _). destruct el as [|r' el'] eqn:Eel; [exact Hsame|].
  unfold ApplyKeywordTune. destruct (String.eqb path estr); [exact Hsame|]. cbn [f_config files].
  destruct (get_file (wd_kw w)) as [base|] eqn:Ei; [|exact Hsame].
  assert (Ei' : wd_kw w = Stored base) by (destruct (wd_kw w); cbn in Ei; congruence).
  destruct (applyKeywordTuneRows base (r' :: el')) as [[merged dis] upd] eqn:Et.
  pose proof (step_tuned w base (r' :: el') Ei' Hq) as Htn. rewrite Et in Htn. cbn [fst] in Htn.
  destruct dryRun; [exact Hsame|]. destruct (_ && _); [exact Hsame|].
  destruct (backup_keeps o (files (NoFile : disk unit) (wd_kw w) (wd_week w))) as (Hc & Hwk & _).
  unfold then_or. destruct (backupFile o _) as [fs1 []]; cbn [fst f_config f_week files] in *.
  { by rewrite Hc, Hwk. }
  unfold write_config, put_file. destruct (io_config o); cbn zeta iota; cbn [f_config f_week set_config].
  - unfold write_week, SaveAutoApplyState, put_file. rewrite Ho.
    cbn [fst f_config f_week set_week set_config]. apply Htn.
    unfold spent at 1. rewrite load_stored; cbn [add_tuned WeekStart Applied].
    + by apply spent_week.
    + rewrite load_current by done. by rewrite <- Hn, weekStart_idem.
  - cbn [fst f_config f_week set_config]. by rewrite Hc, Hwk.
  - cbn [fst f_config f_week set_config]. rewrite Hwk. by apply step_torn_kw; [lia|..].
Qed.

(** Each run of the week is accounted for. *)
Lemma op_step w op :
  op_ok start cap op → clean_world w → 0 ≤ spent (wd_week w) start ≤ cap →
  step_ok start cap w (run_op w op).
Proof using weeks Hcap.
  destruct op; intros Hop Hcl Hq; [by apply discover_ok|by apply keywords_ok|by apply tune_ok].
Qed.
End run.

(** C19. The weekly cap holds across every kind of run. Take any sequence of runs without
    review within one week — discovery queries, keywords and keyword tuning, dry or not, each
    with its own suggestion — from a file of queries without duplicates and a week that has not
    used more than its cap. However their backups and their writes of the files end, as long as
    the state of the week can be written, the runs together add at most what the week has left;
    and whatever they leave in the files was there before or passes the denylists. *)
Theorem weekly_cap_holds (start : Time) (cap : Z) (ops : list auto_op) (w : World) :
  keeps_weeks → 0 < cap ≤ max_int64 → Forall (op_ok start cap) ops →
  clean_world w → 0 ≤ spent (wd_week w) start ≤ cap →
  let w' := foldl run_op w ops in
  gained w ops = spent (wd_week w') start - spent (wd_week w) start
  ∧ gained w ops ≤ cap - spent (wd_week w) start
  ∧ vetted w w'.
Proof.
  intros weeks Hcap Hops. revert w. induction Hops as [|op ops Hop _ IH]; intros w Hcl Hq w'.
  - cbn [gained w' foldl]. split_and!; [lia|lia|apply vetted_refl].
  - destruct (op_step weeks start cap Hcap w op Hop Hcl Hq) as [Sc Sv Sg Ss Sm].
    destruct (IH (run_op w op)) as (E1 & E2 & E3); [by apply Sc|lia|].
    cbn [gained]. unfold w'. cbn [foldl]. split_and!; [lia|lia|]. by eapply vetted_trans.
Qed.
End weekly.

(** ** A run that succeeds *)

Lemma run_success {P C} o (merged : C) (p : P) (step : Files P C → Files P C * bool) r s fs fs' :
  (∀ fs0, f_config (step fs0).1 = f_config fs0) →
  then_or (backupFile o) EBackup (then_or (write_config o merged) EWriteConfig
    (then_or step EWriteWeek (then_or (write_pending o p) EWritePending (λ fs, (fs, inr (A := apply_error) (r : string)))))) fs
  = (fs', inr s) →
  s = r ∧ f_config fs' = Stored merged ∧ f_pending fs' = Stored p.
Proof.
  intros Hs. unfold then_or, write_config, write_pending, put_file.
  destruct (backupFile o fs) as [fs1 []]; [done|]. destruct (io_config o); [|done..].
  specialize (Hs (set_config (Stored merged) fs1)).
  destruct (step _) as [fs2 []]; [done|]. destruct (io_pending o); [|done..].
  intros [= <- <-]. done.
Qed.

Lemma count_keeps auto `{TimeLib} o n fs : f_config (count_applied auto o n fs).1 = f_config fs.
Proof. unfold count_applied, write_week, SaveAutoApplyState. destruct auto; [|done].
  destruct (0 <? n); [|done]. by destruct (put_file _ _ _). Qed.

(** All the queries of a suggestion. *)
Definition adds (d : PendingICPDiff) : list string := AddTelegramSearch d ++ AddSerpDorks d.

Lemma put_back_adds d q x : x ∈ adds d → x ∈ adds (put_back d q).
Proof. unfold put_back, adds. destruct (_ || _); [done|]. destruct (Contains _ _); simpl; set_solver. Qed.

Lemma put_back_all l d x : x ∈ adds d → x ∈ adds (foldl put_back d l).
Proof. revert d. induction l as [|q l IH]; intros d Hx; [done|]. apply IH, put_back_adds, Hx. Qed.

Lemma subtract_elem l applied q :
  q ∈ l → q ∈ subtractDiscoverQueries l applied ∨ fold_key q ∈ fold_key <$> applied.
Proof.
  intros Hq. destruct (decide (fold_key q ∈ fold_key <$> applied)) as [|Hn]; [by right|left].
  unfold subtractDiscoverQueries. destruct applied as [|a applied]; [done|].
  rewrite list_elem_of_In, filter_In, <- list_elem_of_In. split; [done|].
  by rewrite bool_decide_false by by rewrite elem_of_list_to_set.
Qed.

Lemma subtract_keeps l applied q :
  q ∈ l → fold_key q ∉ fold_key <$> applied → q ∈ subtractDiscoverQueries l applied.
Proof. intros Hq Hn. by destruct (subtract_elem l applied q Hq). Qed.

Section props.
Context `{TimeLib} (visit : gmap string string → list string).

(** A plan takes from the suggestion only what it applies. *)
Lemma plan_keeps auto o week diff base tg serp diff' blocked q :
  plan_discover visit (Some auto) o week diff base = inr (tg, serp, diff', blocked) →
  q ∈ adds diff → fold_key q ∉ fold_key <$> tg ++ serp → q ∈ adds diff'.
Proof.
  unfold plan_discover. destruct (FilterDiscoverAdditions _ _) as [[a1 a2] bl].
  destruct (NewDiscoverAdditions _ _ _) as [n1 n2]. destruct (TrimDiscoverQuota _ _ _) as [[k1 k2] def].
  intros E Hq Hn.
  assert (∃ d0, diff' = foldl put_back (foldl put_back d0 (visit bl)) def ∧ tg = k1 ∧ serp = k2 ∧
    d0 = with_queries diff (subtractDiscoverQueries (AddTelegramSearch diff) k1)
           (subtractDiscoverQueries (AddSerpDorks diff) k2)) as (d0 & -> & -> & -> & ->).
  { destruct k1, k2; [by destruct (_ || _)|..]; injection E as <- <- <- _; by eexists. }
  apply put_back_all, put_back_all. unfold adds in *. cbn [with_queries AddTelegramSearch AddSerpDorks].
  apply elem_of_app. apply elem_of_app in Hq as [Hq|Hq]; [left|right];
    (apply subtract_keeps; [done|]); intros Hin; apply Hn; rewrite fmap_app; set_solver.
Qed.

Lemma status_of_rest d :
  match AddTelegramSearch d, AddSerpDorks d with [], [] => "applied" | _, _ => "pending" end
  = if decide (adds d = []) then "applied" else "pending".
Proof. unfold adds. by destruct (AddTelegramSearch d), (AddSerpDorks d). Qed.

(** C20. An automatic run on discovery queries loses none. When it succeeds on a file of queries
    without duplicates, the file gains at its ends at least one query and no more than the quota
    of the week left, each one new and past the denylist; every query that was proposed is now in
    the file, up to case and blanks, or still in the suggestion; and the suggestion is closed
    exactly when nothing is left in it. *)
Theorem auto_apply_exact (opts : AutoApplyOptions) (o : io) (fs fs' : Files PendingICPDiff ICPConfig)
    (diff : PendingICPDiff) (base : ICPConfig) (summary : string) :
  f_pending fs = Stored diff → f_config fs = Stored base →
  clean (TelegramSearch base) → clean (SerpDorks base) →
  ApplyDiscoverAuto visit opts false o fs = (fs', inr summary) →
  ∃ tg serp diff',
    let merged := MergeSuggestions base tg serp in
    f_config fs' = Stored merged
    ∧ TelegramSearch merged = TelegramSearch base ++ tg ∧ SerpDorks merged = SerpDorks base ++ serp
    ∧ planned base (RemainingWeeklyQuota (LoadAutoApplyState (f_week fs) (auto_now opts (io_clock o)))
                      (auto_now opts (io_clock o)) (auto_max opts DefaultAutoApplyMaxPerWeek)) tg serp
    ∧ f_pending fs' = Stored (with_state diff' (if decide (adds diff' = []) then "applied" else "pending"))
    ∧ (∀ q, q ∈ adds diff →
        q ∈ adds diff' ∨ fold_key q ∈ fold_key <$> TelegramSearch merged ++ SerpDorks merged).
Proof.
  intros Ep Ec Ht Hs. unfold ApplyDiscoverAuto, applyDiscover, load_pending. rewrite Ep, Ec. cbn [get_file].
  destruct (plan_discover _ _ _ _ _ _) as [e|[[[tg serp] diff'] blocked]] eqn:Epl; [done|].
  rewrite status_of_rest. intros (_ & Hc & Hp)%run_success; [|intros fs0; apply count_keeps].
  pose proof (plan_auto visit opts o _ diff base tg serp diff' blocked Epl Ht Hs) as Hpl.
  destruct (merge_planned _ _ _ _ Ht Hs Hpl) as [Et Es].
  exists tg, serp, diff'. cbn zeta. split_and!; [done..|]. intros q Hq.
  destruct (decide (fold_key q ∈ fold_key <$> tg ++ serp)) as [Hin|Hn].
  - right. rewrite Et, Es. rewrite !fmap_app in *. set_solver.
  - left. by eapply plan_keeps.
Qed.

(** A suggestion of discovery queries never closes. Applying it by hand merges all its
    queries and leaves every one of them in the suggestion, so that a suggestion that proposed
    anything is written back as pending and is listed for review again. *)
Theorem applied_suggestion_stays_pending (o : io) (fs fs' : Files PendingICPDiff ICPConfig)
    (diff : PendingICPDiff) (base : ICPConfig) (summary : string) :
  f_pending fs = Stored diff → f_config fs = Stored base → adds diff ≠ [] →
  ApplyDiscover visit false o fs = (fs', inr summary) →
  f_config fs' = Stored (MergeSuggestions base (AddTelegramSearch diff) (AddSerpDorks diff))
  ∧ f_pending fs' = Stored (with_state diff "pending")
  ∧ ∀ name, HasPrefix name "discover_icp_pending_" = true → HasSuffix name ".json" = true →
      keyword_name name = false →
      list_entry {| de_Name := name; de_IsDir := false; de_Keywords := NoFile; de_Discover := f_pending fs' |}
      = Some {| pf_Path := name; pf_Kind := KindDiscover; pf_Status := "pending" |}.
Proof.
  intros Ep Ec Hne. unfold ApplyDiscover, applyDiscover, load_pending. rewrite Ep, Ec. cbn [get_file].
  unfold plan_discover. rewrite status_of_rest, decide_False by done.
  intros (_ & Hc & Hp)%run_success; [|intros fs0; apply count_keeps].
  split_and!; [done..|]. intros name H1 H2 H3. unfold list_entry, peekPending.
  cbn [de_IsDir de_Name de_Discover]. by rewrite H1, H2, H3, Hp.
Qed.

(** A blocked keyword vanishes. When an automatic run on keywords succeeds, an entry of the
    suggestion that the denylist blocks is not merged, and the suggestion is closed without it:
    nothing is left for a review, unlike a blocked discovery query. *)
Theorem blocked_keyword_vanishes (opts : AutoApplyOptions) (o : io)
    (fs fs' : Files KeywordDiff keywordsFile) (diff : KeywordDiff) (base : keywordsFile)
    (summary : string) (e : KeywordEntry) :
  f_pending fs = Stored diff → f_config fs = Stored base →
  ApplyKeywordsAuto opts false o fs = (fs', inr summary) →
  positive_reason e ≠ estr → e ∉ Keywords base →
  ∃ merged diff', f_config fs' = Stored merged ∧ (e ∉ Keywords merged)
    ∧ f_pending fs' = Stored diff' ∧ kd_Status diff' = "applied" ∧ e ∉ AddKeywords diff'.
Proof.
  intros Ep Ec. unfold ApplyKeywordsAuto, load_pending. rewrite Ep, Ec. cbn [get_file].
  unfold FilterKeywordDiff. destruct (split_blocked positive_reason _ _) as [keep b] eqn:Es.
  pose proof (split_blocked_spec positive_reason (AddKeywords diff) ∅) as Hk. rewrite Es in Hk.
  destruct (split_blocked reject_reason _ _) as [keep' b'].
  set (diff' := with_adds diff keep keep').
  destruct (mergeKeywords base diff') as [[merged kw] hr] eqn:Em.
  destruct (kw + hr =? 0); [done|]. destruct (_ <? _); [done|].
  intros (_ & Hc & Hp)%run_success Hr Hb; [|intros fs0; unfold write_week; by destruct (SaveAutoApplyState _ _ _)].
  apply mergeKeywords_new in Em as (kws & hrs & E1 & _ & _ & _ & S1 & _ & _).
  assert (Hne : e ∉ keep) by (intros He; by apply Hr, Hk).
  exists merged, (with_status diff' "applied"). split_and!; [done| |done..].
  rewrite E1. intros [|He]%elem_of_app; [done|]. by apply Hne, (elem_of_sublist kws).
Qed.
End props.

(** ** Tallies: rows collected in a map *)

Section tally.
Context {A : Type} (key : A → string) (add : OutcomeDorkRow → A → OutcomeDorkRow).

Definition tally (m : gmap string OutcomeDorkRow) (x : A) : gmap string OutcomeDorkRow :=
  if String.eqb (key x) estr then m else <[key x := add (row_at m (key x)) x]> m.

Definition of_key (q : string) (l : list A) : list A := List.filter (λ x, String.eqb (key x) q) l.

Lemma tally_lookup l m q :
  q ≠ estr →
  foldl tally m l !! q
  = match of_key q l with [] => m !! q | ls => Some (foldl add (row_at m q) ls) end.
Proof.
  intros Hq. revert m. induction l as [|x l IH]; intros m; [done|]. cbn [foldl of_key List.filter].
  rewrite IH. fold (of_key q l). unfold tally, row_at. destruct (String.eqb_spec (key x) estr) as [E|Hx].
  - rewrite (proj2 (String.eqb_neq (key x) q)) by congruence. done.
  - destruct (String.eqb_spec (key x) q) as [->|Hne].
    + rewrite lookup_insert_eq. cbn [default from_option id foldl]. by destruct (of_key q l).
    + by rewrite lookup_insert_ne by done.
Qed.

Lemma tally_blank l m : m !! estr = None → foldl tally m l !! estr = None.
Proof.
  revert m. induction l as [|x l IH]; intros m Hm; [done|]. cbn [foldl]. apply IH. unfold tally.
  destruct (String.eqb_spec (key x) estr); [done|]. by rewrite lookup_insert_ne.
Qed.
End tally.

(** ** The specification of a row *)

Definition total {A} (f : A → Z) (l : list A) : Z := foldr (λ x n, f x + n) 0 l.

Section spec.
Context (idx : dorkIndex) (stats : list SourceStats) (outcomes : list OutcomeSourceRow).

(** The query that found a source, none when it is not a known channel. *)
Definition stat_query (s : SourceStats) : string :=
  let source := TrimSpace (ss_Source s) in
  if String.eqb source estr then estr else matchTelegramDork source (usernameToQuery idx).
Definition outcome_query (o : OutcomeSourceRow) : string :=
  matchTelegramDork (os_Source o) (usernameToQuery idx).

Definition counted (kind q : string) : Z :=
  total os_Count (List.filter (λ o, String.eqb (os_Outcome o) kind) (of_key outcome_query q outcomes)).

Definition spec_row (q : string) : OutcomeDorkRow :=
  let accepted := total ss_Accepted (of_key stat_query q stats) in
  let junk := total ss_Junk (of_key stat_query q stats) in {|
  dr_Query := q; dr_Accepted := accepted; dr_Junk := junk;
  dr_AcceptRate := if 0 <? accepted + junk then f_ratio accepted (accepted + junk) else f_zero;
  dr_ChannelHits := default 0 (hitsPerQuery idx !! q);
  OutcomeContacted := counted "contacted" q; OutcomeReplied := counted "replied" q;
  OutcomePilot := counted "pilot_started" q; OutcomeMigration := counted "migration_imported" q |}.

(** The queries with a row. *)
Definition ranked (q : string) : Prop :=
  q ≠ estr ∧ ((∃ s, s ∈ stats ∧ stat_query s = q) ∨ ∃ o, o ∈ outcomes ∧ outcome_query o = q).
End spec.

(** ** Sums *)

Lemma stats_sum ls r :
  foldl add_stats r ls
  = {| dr_Query := dr_Query r; dr_Accepted := dr_Accepted r + total ss_Accepted ls;
       dr_Junk := dr_Junk r + total ss_Junk ls; dr_AcceptRate := dr_AcceptRate r;
       dr_ChannelHits := dr_ChannelHits r; OutcomeContacted := OutcomeContacted r;
       OutcomeReplied := OutcomeReplied r; OutcomePilot := OutcomePilot r;
       OutcomeMigration := OutcomeMigration r |}.
Proof.
  revert r. induction ls as [|s ls IH]; intros r; cbn [foldl total foldr].
  - destruct r. cbn. f_equal; lia.
  - rewrite IH. unfold add_stats. cbn. unfold total. f_equal; lia.
Qed.

Definition kind_total (kind : string) (ls : list OutcomeSourceRow) : Z :=
  total os_Count (List.filter (λ o, String.eqb (os_Outcome o) kind) ls).

Lemma outcomes_sum ls r :
  foldl (λ r o, add_outcome r (os_Outcome o) (os_Count o)) r ls
  = {| dr_Query := dr_Query r; dr_Accepted := dr_Accepted r; dr_Junk := dr_Junk r;
       dr_AcceptRate := dr_AcceptRate r; dr_ChannelHits := dr_ChannelHits r;
       OutcomeContacted := OutcomeContacted r + kind_total "contacted" ls;
       OutcomeReplied := OutcomeReplied r + kind_total "replied" ls;
       OutcomePilot := OutcomePilot r + kind_total "pilot_started" ls;
       OutcomeMigration := OutcomeMigration r + kind_total "migration_imported" ls |}.
Proof.
  revert r. induction ls as [|o ls IH]; intros r.
  - destruct r. cbn. f_equal; lia.
  - cbn [foldl]. rewrite IH. unfold add_outcome, kind_total. cbn [List.filter dr_Query dr_Accepted dr_Junk
      dr_AcceptRate dr_ChannelHits OutcomeContacted OutcomeReplied OutcomePilot OutcomeMigration].
    f_equal; destruct (String.eqb _ _); cbn [total foldr]; unfold total; lia.
Qed.

Lemma of_key_elem {A} (key : A → string) q l x : x ∈ of_key key q l ↔ x ∈ l ∧ key x = q.
Proof. unfold of_key. by rewrite !list_elem_of_In, filter_In, String.eqb_eq. Qed.

Lemma of_key_some {A} (key : A → string) q l : of_key key q l ≠ [] ↔ ∃ x, x ∈ l ∧ key x = q.
Proof.
  setoid_rewrite <- of_key_elem. destruct (of_key key q l) as [|x k]; split; try done.
  - by intros (x & Hx%not_elem_of_nil).
  - intros _. exists x. by left.
Qed.

(** ** The rows *)

Section rows.
Context `{Sorter} (visit : gmap string OutcomeDorkRow → list (string * OutcomeDorkRow)).
Context (visit_perm : ∀ m, visit m ≡ₚ map_to_list m).

Definition collected (idx : dorkIndex) (stats : list SourceStats) (outcomes : list OutcomeSourceRow)
    : gmap string OutcomeDorkRow :=
  foldl (outcome_row (usernameToQuery idx)) (foldl (stat_row (usernameToQuery idx)) ∅ stats) outcomes.

Definition add_outcome_row (r : OutcomeDorkRow) (o : OutcomeSourceRow) : OutcomeDorkRow :=
  add_outcome r (os_Outcome o) (os_Count o).

Lemma collected_tally idx stats outcomes :
  collected idx stats outcomes
  = foldl (tally (outcome_query idx) add_outcome_row) (foldl (tally (stat_query idx) add_stats) ∅ stats) outcomes.
Proof.
  unfold collected. assert (∀ m, foldl (stat_row (usernameToQuery idx)) m stats
    = foldl (tally (stat_query idx) add_stats) m stats) as ->; [|done].
  induction stats as [|s l IH]; intros m; [done|]. cbn [foldl]. rewrite IH. f_equal.
  unfold stat_row, tally, stat_query. by destruct (String.eqb (TrimSpace (ss_Source s)) estr).
Qed.

Lemma collected_lookup idx stats outcomes q r :
  collected idx stats outcomes !! q = Some r →
  ranked idx stats outcomes q ∧ finish_row (hitsPerQuery idx) q r = spec_row idx stats outcomes q.
Proof.
  rewrite collected_tally. destruct (decide (q = estr)) as [->|Hq].
  { by rewrite !tally_blank by (try apply tally_blank; done). }
  rewrite tally_lookup by done. unfold row_at. rewrite tally_lookup, lookup_empty by done.
  set (S := of_key (stat_query idx) q stats). set (O := of_key (outcome_query idx) q outcomes).
  intros E.
  assert (Hr : r = foldl add_outcome_row (foldl add_stats (empty_row q) S) O ∧ (S ≠ [] ∨ O ≠ [])).
  { unfold row_at in E. rewrite lookup_empty in E. cbn [default from_option id] in E.
    destruct O, S; simplify_eq; (split; [done|]); [by left|by right|by left]. }
  destruct Hr as [-> Hne]. split.
  - split; [done|]. unfold S, O in Hne. by rewrite !of_key_some in Hne.
  - unfold add_outcome_row. rewrite outcomes_sum, stats_sum. unfold finish_row, spec_row, counted.
    cbn [dr_Query dr_Accepted dr_Junk dr_AcceptRate dr_ChannelHits OutcomeContacted OutcomeReplied
         OutcomePilot OutcomeMigration empty_row]. by rewrite !Z.add_0_l.
Qed.

Lemma collected_ranked idx stats outcomes q :
  ranked idx stats outcomes q → is_Some (collected idx stats outcomes !! q).
Proof.
  rewrite collected_tally. intros [Hq Hr]. rewrite tally_lookup, tally_lookup by done.
  rewrite <- !of_key_some in Hr. destruct (of_key (outcome_query idx) q outcomes); [|by eexists].
  destruct (of_key (stat_query idx) q stats); [by destruct Hr|by eexists].
Qed.

(** C21. The ranking of queries is exact. Whatever the order of the map and of equal rows, the
    report has one row per query that found a channel one of the sources belongs to, no row
    else, and the row carries the sums of what those sources accepted, dropped and sold; and the
    pruned queries are exactly those of the rows that have enough posts, a low rate and, when
    the configuration asks so, no sale. *)
Theorem dork_rows_exact (channels : disk (list channel_row)) (stats : list SourceStats)
    (outcomes : list OutcomeSourceRow) (cfg : DorkPruneConfig) :
  let idx := default empty_index (loadDorkIndex channels) in
  let rows := BuildOutcomeDorkRows visit channels stats outcomes in
  NoDup (dr_Query <$> rows)
  ∧ (∀ row, row ∈ rows ↔ ∃ q, ranked idx stats outcomes q ∧ row = spec_row idx stats outcomes q)
  ∧ ∀ p, p ∈ EvaluateDorkPrune rows cfg ↔
      ∃ q, ranked idx stats outcomes q ∧ p = TrimSpace q
        ∧ prunes (prune_defaults cfg) (spec_row idx stats outcomes q) = true.
Proof using visit_perm.
  intros idx rows.
  assert (Hrow : ∀ row, row ∈ rows ↔ ∃ q, ranked idx stats outcomes q ∧ row = spec_row idx stats outcomes q).
  { intros row. unfold rows, BuildOutcomeDorkRows. fold idx. rewrite sort_slice_elem, list_elem_of_fmap.
    fold (collected idx stats outcomes). setoid_rewrite (visit_perm _). split.
    - intros ([q r] & -> & Hr%elem_of_map_to_list). apply collected_lookup in Hr as [Hr E].
      exists q. by rewrite <- E.
    - intros (q & Hr & ->). destruct (collected_ranked _ _ _ _ Hr) as [r Er].
      exists (q, r). rewrite elem_of_map_to_list. split; [|done]. cbn.
      by apply collected_lookup in Er as [_ ->]. }
  split_and!; [|done|].
  - unfold rows, BuildOutcomeDorkRows. fold idx. rewrite sort_slice_perm.
    fold (collected idx stats outcomes). rewrite (visit_perm _), <- list_fmap_compose.
    rewrite (list_fmap_ext _ fst (map_to_list _)); [apply NoDup_fst_map_to_list|].
    intros n [q r] Hn%list_elem_of_lookup_2%elem_of_map_to_list. cbn.
    apply collected_lookup in Hn as [_ E]. change (dr_Query (finish_row (hitsPerQuery idx) q r) = q).
    by rewrite E.
  - intros p. unfold EvaluateDorkPrune. rewrite list_elem_of_fmap. split.
    + intros (row & -> & Hin). apply list_elem_of_In, filter_In in Hin as [Hin Hp].
      apply list_elem_of_In, Hrow in Hin as (q & Hq & ->). by exists q.
    + intros (q & Hq & -> & Hp). exists (spec_row idx stats outcomes q). split; [done|].
      apply list_elem_of_In, filter_In. split; [|done]. apply list_elem_of_In, Hrow. by exists q.
Qed.
End rows.

(** ** Tuning *)

(** Raising the weight of a good keyword caps it: one that weighs more than the cap is lowered. *)
Lemma good_keyword_lowered (d : KeywordStatDoc) (w : Z) :
  SFltb f_0_2 (JunkRate d) = false → SFltb f_0_3 (JunkRate d) = false →
  SFltb (JunkRate d) f_0_05 = true → 10 ≤ TotalSamples d → 30 < w →
  Recommendation d w = (30, true) ∧ 30 < w.
Proof.
  intros H1 H2 H3 Ht Hw. unfold Recommendation. rewrite H1, H2, H3, andb_false_r.
  rewrite (proj2 (Z.leb_le 10 _)) by done. cbn [andb]. split; [|done].
  destruct (Z.ltb_spec 30 (w + 5)); [done|lia].
Qed.

(** ** Concrete runs *)

#[local] Existing Instance seconds_clock.
#[local] Existing Instance insertion_sorter.

Lemma seconds_keep_weeks : keeps_weeks.
Proof.
  intros now. destruct (clock_keeps_seconds (weekStartUTC now)) as [E _]. rewrite E. f_equal.
  rewrite weekStart_floor. change (7 * one_day) with (604800 * second).
  set (q := now `div` _). rewrite !Z.mul_assoc, Z.mod_mul by done. lia.
Qed.

(** A day of the first week, and a call whose writes succeed. *)
Definition tuesday : Time := one_day.
Definition smooth : io := {|
  io_stamp := tuesday; io_clock := tuesday; io_clock' := tuesday;
  io_backup := Written; io_config := Written; io_week := Written; io_pending := Written |}.

Definition in_order (m : gmap string string) : list string := (map_to_list m).*1.

Definition icp0 : ICPConfig := {|
  TelegramSearch := ["keitaro tracker"]; SerpDorks := ["site:t.me arbitrage"]; PWADorks := [];
  HostingDorks := []; TGCatalogDorks := []; DiscordDorks := []; OTCManualRef := [] |}.

Definition proposal : PendingICPDiff := {|
  AddTelegramSearch := ["Keitaro Tracker"; " voluum alternative"; "buy linkedin.com leads"];
  AddSerpDorks := ["site:t.me push ads"]; pd_Summary := "weekly"; pd_ReportID := "r1";
  pd_GeneratedAt := estr; pd_Status := "pending" |}.

Definition kw (id phrase tag : string) (w : Z) : KeywordEntry := {|
  ke_ID := id; ke_Phrase := phrase; ke_Weight := w; ke_Tag := tag; ke_SuggestedWeight := 0;
  ke_EvidenceCount := 0; ke_JunkRate := f_zero; ke_Enabled := None |}.

Definition kw0 : keywordsFile := {|
  Priority := {| HighMin := 35; MediumMin := 15 |}; Keywords := [kw "k1" "tracker" "intent" 20];
  Titles := []; Negative := []; HardReject := [] |}.

Definition kw_diff : KeywordDiff := {|
  AddKeywords := [kw "k2" "postback" "intent" 10; kw "k3" "openrtb bidder" "intent" 10];
  AddHardReject := [kw "h1" "hiring media buyer" estr 0]; kd_Summary := estr; kd_ReportID := "r2";
  kd_GeneratedAt := estr; kd_Status := "pending" |}.

Definition capped (n : Z) : AutoApplyOptions := {| MaxPerWeek := n; Now := 0 |}.
Definition junky : KeywordTuneRow := {|
  kt_KeywordID := "K1"; kt_Accepted := 2; kt_Junk := 18; kt_JunkRate := f_ratio 9 10;
  SuggestedWeight := 20; RecommendDisable := true |}.

Definition world0 : World := {| wd_icp := Stored icp0; wd_kw := Stored kw0; wd_week := NoFile |}.

(** The week leaves room for three: the first run takes two queries; the keywords want two more
    and are refused; the tuning has its own quota; a second run of queries finds nothing new. *)
Definition week_ops : list auto_op :=
  [ODiscover (capped 3) false smooth (Stored proposal);
   OKeywords (capped 3) false smooth (Stored kw_diff);
   OTune [junky] (capped 3) false smooth;
   ODiscover (capped 3) false smooth (Stored proposal)].

Lemma tidy_dec s : String.eqb (TrimSpace s) s = true → s ≠ estr → tidy s.
Proof. intros E Hs. split; [by apply String.eqb_eq|done]. Qed.

Lemma clean_dec l :
  forallb (λ s, String.eqb (TrimSpace s) s && negb (String.eqb s estr)) l = true →
  bool_decide (NoDup (ToLower <$> l)) = true → clean l.
Proof.
  intros Hl Hn. split; [|by apply bool_decide_eq_true in Hn].
  apply Forall_forall. intros s Hs. rewrite forallb_forall in Hl.
  apply list_elem_of_In, Hl, andb_true_iff in Hs as [H1 H2]. apply tidy_dec; [done|].
  by apply String.eqb_neq, negb_true_iff.
Qed.

Lemma weekly_cap_holds_witness :
  gained in_order "keywords.json" world0 week_ops = 2
  ∧ (gained in_order "keywords.json" world0 week_ops ≤ 3)%Z.
Proof.
  split; [by vm_compute|].
  apply (weekly_cap_holds in_order "keywords.json" 0 3 week_ops world0 seconds_keep_weeks).
  - split; [done|]. by vm_compute.
  - repeat (constructor; [by vm_compute|]). constructor.
  - split; by apply clean_dec; vm_compute.
  - by vm_compute.
Defined.

Definition with_suggestion : Files PendingICPDiff ICPConfig := files (Stored proposal) (Stored icp0) NoFile.

Lemma auto_apply_exact_witness :
  ∃ tg serp diff', f_config (ApplyDiscoverAuto in_order (capped 3) false smooth with_suggestion).1
      = Stored (MergeSuggestions icp0 tg serp) ∧ "buy linkedin.com leads" ∈ adds diff'.
Proof.
  destruct (ApplyDiscoverAuto in_order (capped 3) false smooth with_suggestion) as [fs' [e|s]] eqn:E;
    [by vm_compute in E|].
  destruct (auto_apply_exact in_order (capped 3) smooth with_suggestion fs' proposal icp0 s) as
    (tg & serp & diff' & Hc & Et & Es & _ & Hp & Hall);
    [done|done|by apply clean_dec; vm_compute|by apply clean_dec; vm_compute|exact E|].
  exists tg, serp, diff'. split; [done|].
  vm_compute in E. injection E as <- <-. cbn in Hp. injection Hp as E1 E2 _.
  unfold adds. rewrite <- E1. set_solver.
Defined.

Lemma applied_suggestion_stays_pending_witness :
  f_pending (ApplyDiscover in_order false smooth with_suggestion).1
  = Stored (with_state proposal "pending").
Proof.
  destruct (ApplyDiscover in_order false smooth with_suggestion) as [fs' [e|s]] eqn:E;
    [by vm_compute in E|].
  by destruct (applied_suggestion_stays_pending in_order smooth with_suggestion fs' proposal icp0 s)
    as (_ & Hp & _).
Defined.

Lemma blocked_keyword_vanishes_witness :
  ∃ merged diff', (kw "k3" "openrtb bidder" "intent" 10 ∉ Keywords merged)
    ∧ kd_Status diff' = "applied" ∧ (kw "k3" "openrtb bidder" "intent" 10 ∉ AddKeywords diff')
    ∧ f_pending (ApplyKeywordsAuto (capped 3) false smooth (files (Stored kw_diff) (Stored kw0) NoFile)).1
      = Stored diff'.
Proof.
  destruct (ApplyKeywordsAuto (capped 3) false smooth (files (Stored kw_diff) (Stored kw0) NoFile))
    as [fs' [e|s]] eqn:E; [by vm_compute in E|].
  destruct (blocked_keyword_vanishes (capped 3) smooth (files (Stored kw_diff) (Stored kw0) NoFile) fs' kw_diff kw0 s
    (kw "k3" "openrtb bidder" "intent" 10) eq_refl eq_refl E) as (merged & diff' & _ & H1 & H2 & H3 & H4);
    [by vm_compute|by apply not_elem_of_cons; split; [|apply not_elem_of_nil]|].
  exists merged, diff'. exact (conj H1 (conj H3 (conj H4 H2))).
Defined.

(** A file with the same query twice: the run adds one query and counts none. *)
Definition icp_twice : ICPConfig := {|
  TelegramSearch := ["keitaro tracker"; "Keitaro tracker"]; SerpDorks := []; PWADorks := [];
  HostingDorks := []; TGCatalogDorks := []; DiscordDorks := []; OTCManualRef := [] |}.

Example duplicates_hide_additions :
  let '(fs, r) := ApplyDiscoverAuto in_order (capped 3) false smooth
    (files (Stored {| AddTelegramSearch := ["voluum alternative"]; AddSerpDorks := []; pd_Summary := estr;
       pd_ReportID := estr; pd_GeneratedAt := estr; pd_Status := "pending" |}) (Stored icp_twice) NoFile) in
  f_config fs = Stored (MergeSuggestions icp_twice ["voluum alternative"] [])
  ∧ f_week fs = NoFile
  ∧ r = inr "telegram_search=2 serp_dorks=0 applied_new=0".
Proof. vm_compute. done. Qed.

(** Two channels found by one query, one of which sold. *)
Definition two_channels : disk (list channel_row) := Stored
  [{| ch_Username := "@AffChat"; ch_Query := "site:t.me arbitrage" |};
   {| ch_Username := "pushads"; ch_Query := " site:t.me arbitrage " |}].
Definition two_stats : list SourceStats :=
  [{| ss_Source := "telegram:affchat"; ss_Accepted := 1; ss_Junk := 39 |};
   {| ss_Source := "telegram:@PushAds/12"; ss_Accepted := 0; ss_Junk := 10 |}].

Lemma dork_rows_exact_witness :
  EvaluateDorkPrune (BuildOutcomeDorkRows map_to_list two_channels two_stats []) DefaultDorkPruneConfig
    = ["site:t.me arbitrage"]
  ∧ EvaluateDorkPrune (BuildOutcomeDorkRows map_to_list two_channels two_stats
      [{| os_Source := "telegram:pushads"; os_Outcome := "replied"; os_Count := 1 |}]) DefaultDorkPruneConfig
    = []
  ∧ NoDup (dr_Query <$> BuildOutcomeDorkRows map_to_list two_channels two_stats []).
Proof.
  split_and!; [by vm_compute|by vm_compute|].
  apply (dork_rows_exact map_to_list (λ m, Permutation_refl _) two_channels two_stats []
           DefaultDorkPruneConfig).
Defined.
