(* ===== verification/ColdPath.v ===== *)
(** The cold path ([internal/coldpath/]: event.go, mask.go, capturer.go, service.go, feedback.go,
    boost_worker.go, keyword_stats.go), with the collections it works on ([internal/sink/]:
    junk.go, crm_boost_store.go, aux_stores.go) and the answers it asks of the model
    ([internal/gemini/]: analyze.go, keywords_diff.go, discover_diff.go, pain_vocab.go, embed.go):
    rejected posts are stored, analysed in batches, reported on and turned into suggestions.

    A collection is the list of its documents in the order of insertion; an operation of a store
    fails, and then changes nothing, or has its documented effect.  Whether it fails, what the
    model answers and what the clock reads are functions of the calls made so far, which the
    state records.  The three loops of the service are run pass by pass.  Identifiers are their
    hexadecimal text; logs and metrics are not modelled. *)
From S2P Require Import Prelude Unicode GoStrings Utf8Facts TextFacts GoSort Matcher Registry.
From S2P Require Import Scoring Hashes.
From S2P Require Import Validate SourceRep Entity SourceRegistry ProxyBudget SourceDisable.
From S2P Require Import Discover Suggestions Effects Quota.
From Stdlib Require Import Floats.SpecFloat.

Local Open Scope Z_scope.
Local Open Scope eff_scope.

(** ** Events ([event.go], [mask.go], [capturer.go]) *)

Definition ReasonGeoReject : string := "geo_reject".
Definition ReasonGeoGeminiReject : string := "geo_gemini_reject".
Definition ReasonHardRejectShadow : string := "hard_reject_shadow".

Record Event := {
  ev_TS : Time; ev_RoundID : string; ev_Source : string; ev_Title : string; ev_Snippet : string;
  ev_ContactHint : string; ev_Reason : string; ev_ReasonDetail : string; ev_Score : Z;
  ev_Matched : list string }.

Definition maskEmail (email : string) : string :=
  match LastIndex email "@" with
  | None | Some O => "***"
  | Some at' =>
      let local := stake at' email in
      let domain := sdrop (at' + 1) email in
      if Nat.eqb (slen local) 0 then "***@" +:+ domain
      else stake 1 local +:+ "***@" +:+ domain
  end.

Definition maskContactHint (v : string) : string :=
  let v := TrimSpace v in
  if String.eqb v estr then estr
  else
    let lower := ToLower v in
    if Contains lower "@" then maskEmail v
    else if HasPrefix v "@" then if Nat.leb (slen v) 2 then "@***" else stake 2 v +:+ "***"
    else if Nat.leb (slen v) 3 then "***"
    else stake 1 v +:+ "***".

(** What the capturer of the queue makes of an event; [now] is the clock. *)
Definition prepareEvent (now : Time) (ev : Event) : Event := {|
  ev_TS := if is_zero_time (ev_TS ev) then now else ev_TS ev; ev_RoundID := ev_RoundID ev;
  ev_Source := ev_Source ev; ev_Title := ev_Title ev;
  ev_Snippet := Truncate (Join (Fields (ev_Snippet ev)) " ") 500;
  ev_ContactHint := maskContactHint (ev_ContactHint ev); ev_Reason := ev_Reason ev;
  ev_ReasonDetail := ev_ReasonDetail ev; ev_Score := ev_Score ev; ev_Matched := ev_Matched ev |}.

(** ** Documents *)

Record JunkAnalysis := {
  an_AnalyzedAt : Time; an_Category : string; an_Why : string; an_Suggestions : list string }.

(** [jd_DupOf] are the fields [semantic_dup] and [semantic_dup_of]. *)
Record JunkDoc := {
  jd_ID : string; jd_TS : Time; jd_RoundID : string; jd_Source : string; jd_Title : string;
  jd_Snippet : string; jd_ContactHint : string; jd_Reason : string; jd_ReasonDetail : string;
  jd_Score : Z; jd_Matched : list string; jd_Analysis : option JunkAnalysis;
  jd_DupOf : option string }.

(** The hexadecimal text of the zero identifier. *)
Definition nil_id : string := "000000000000000000000000".

Definition JunkDocFromEvent (now : Time) (ev : Event) : JunkDoc := {|
  jd_ID := nil_id; jd_TS := if is_zero_time (ev_TS ev) then now else ev_TS ev;
  jd_RoundID := ev_RoundID ev; jd_Source := ev_Source ev; jd_Title := ev_Title ev;
  jd_Snippet := ev_Snippet ev; jd_ContactHint := ev_ContactHint ev; jd_Reason := ev_Reason ev;
  jd_ReasonDetail := ev_ReasonDetail ev; jd_Score := ev_Score ev; jd_Matched := ev_Matched ev;
  jd_Analysis := None; jd_DupOf := None |}.

Definition with_id (id : string) (d : JunkDoc) : JunkDoc := {|
  jd_ID := id; jd_TS := jd_TS d; jd_RoundID := jd_RoundID d; jd_Source := jd_Source d;
  jd_Title := jd_Title d; jd_Snippet := jd_Snippet d; jd_ContactHint := jd_ContactHint d;
  jd_Reason := jd_Reason d; jd_ReasonDetail := jd_ReasonDetail d; jd_Score := jd_Score d;
  jd_Matched := jd_Matched d; jd_Analysis := jd_Analysis d; jd_DupOf := jd_DupOf d |}.

Definition with_analysis (a : JunkAnalysis) (d : JunkDoc) : JunkDoc := {|
  jd_ID := jd_ID d; jd_TS := jd_TS d; jd_RoundID := jd_RoundID d; jd_Source := jd_Source d;
  jd_Title := jd_Title d; jd_Snippet := jd_Snippet d; jd_ContactHint := jd_ContactHint d;
  jd_Reason := jd_Reason d; jd_ReasonDetail := jd_ReasonDetail d; jd_Score := jd_Score d;
  jd_Matched := jd_Matched d; jd_Analysis := Some a; jd_DupOf := jd_DupOf d |}.

Definition with_dup (key : string) (d : JunkDoc) : JunkDoc := {|
  jd_ID := jd_ID d; jd_TS := jd_TS d; jd_RoundID := jd_RoundID d; jd_Source := jd_Source d;
  jd_Title := jd_Title d; jd_Snippet := jd_Snippet d; jd_ContactHint := jd_ContactHint d;
  jd_Reason := jd_Reason d; jd_ReasonDetail := jd_ReasonDetail d; jd_Score := jd_Score d;
  jd_Matched := jd_Matched d; jd_Analysis := jd_Analysis d; jd_DupOf := Some key |}.

Record ReasonCount := { rc_Reason : string; rc_Count : Z; rc_Why : string }.
Record SourceCount := { sc_Source : string; sc_Count : Z }.

Record JunkReportDoc := {
  rp_ID : string; rp_TS : Time; rp_PeriodFrom : Time; rp_PeriodTo : Time; rp_SampleCount : Z;
  rp_Summary : string; rp_TopReasons : list ReasonCount; rp_FalseNegativeCandidates : Z;
  rp_Recommendations : list string; rp_KeywordSuggestions : list string;
  rp_SourceStats : list SourceCount }.

Definition with_report_id (id : string) (d : JunkReportDoc) : JunkReportDoc := {|
  rp_ID := id; rp_TS := rp_TS d; rp_PeriodFrom := rp_PeriodFrom d; rp_PeriodTo := rp_PeriodTo d;
  rp_SampleCount := rp_SampleCount d; rp_Summary := rp_Summary d;
  rp_TopReasons := rp_TopReasons d; rp_FalseNegativeCandidates := rp_FalseNegativeCandidates d;
  rp_Recommendations := rp_Recommendations d; rp_KeywordSuggestions := rp_KeywordSuggestions d;
  rp_SourceStats := rp_SourceStats d |}.

Definition CrmBoostPending : string := "pending".
Definition CrmBoostPromoted : string := "promoted".
Definition CrmBoostDismissed : string := "dismissed".
Definition CrmBoostMerged : string := "merged".

Record CrmBoostDoc := {
  bo_TS : Time; bo_JunkID : string; bo_Source : string; bo_Snippet : string;
  bo_ContactHint : string; bo_Why : string; bo_Priority : string; bo_Status : string;
  bo_LeadHashID : string; bo_OutcomeWhy : string; bo_ResolvedAt : Time }.

Definition EmbedKindJunk : string := "junk".
Definition EmbedKindLead : string := "lead".

Record EmbeddingDoc := {
  em_Key : string; em_Vector : list spec_float; em_TS : Time; em_Kind : string; em_HashID : string }.

(** ** Queries on the collections *)

Section queries.
Context `{Sorter}.

Definition oldest_first (a b : JunkDoc) : bool := jd_TS a <? jd_TS b.
Definition newest_first (a b : JunkDoc) : bool := jd_TS b <? jd_TS a.
Definition limited {A} (limit def : Z) (l : list A) : list A :=
  take (Z.to_nat (if limit <=? 0 then def else limit)) l.

Definition unanalyzed (d : JunkDoc) : bool := match jd_Analysis d with None => true | Some _ => false end.

Definition findPendingAnalysis (junk : list JunkDoc) (limit : Z) (excludeReason : string) : list JunkDoc :=
  limited limit 20 (sort_slice oldest_first (List.filter
    (λ d, unanalyzed d && (String.eqb excludeReason estr || negb (String.eqb (jd_Reason d) excludeReason)))
    junk)).

Definition FindPendingAnalysisExcluding (junk : list JunkDoc) (excludeReason : string) (limit : Z) :=
  findPendingAnalysis junk limit excludeReason.

Definition FindPendingByReason (junk : list JunkDoc) (reason : string) (limit : Z) : list JunkDoc :=
  if String.eqb reason estr then []
  else limited limit 10 (sort_slice oldest_first (List.filter
         (λ d, String.eqb (jd_Reason d) reason && unanalyzed d) junk)).

Definition analyzed_since (reason : string) (since : Time) (d : JunkDoc) : bool :=
  String.eqb (jd_Reason d) reason
  && match jd_Analysis d with Some a => since <=? an_AnalyzedAt a | None => false end.

Definition CountAnalyzedByReasonSince (junk : list JunkDoc) (reason : string) (since : Time) : Z :=
  if String.eqb reason estr then 0
  else Z.of_nat (length (List.filter (analyzed_since reason since) junk)).

Definition rows_since (since : Time) (junk : list JunkDoc) : list JunkDoc :=
  List.filter (λ d, since <=? jd_TS d) junk.

Definition CountSince (junk : list JunkDoc) (since : Time) : Z :=
  Z.of_nat (length (rows_since since junk)).

(** A group of an aggregation: the values in order of appearance, each with its count. *)
Definition grouped (values : list string) : list (string * Z) :=
  (λ v, (v, Z.of_nat (length (List.filter (String.eqb v) values)))) <$> dedup_on id values.

Definition by_count (a b : string * Z) : bool := b.2 <? a.2.

Definition ReasonBreakdown (junk : list JunkDoc) (since : Time) : list ReasonCount :=
  (λ p, {| rc_Reason := p.1; rc_Count := p.2; rc_Why := estr |})
  <$> take 12 (sort_slice by_count (grouped (jd_Reason <$> rows_since since junk))).

Definition SourceBreakdown (junk : list JunkDoc) (since : Time) (limit : Z) : list SourceCount :=
  omap (λ p, if String.eqb p.1 estr then None else Some {| sc_Source := p.1; sc_Count := p.2 |})
    (limited limit 20 (sort_slice by_count (grouped (jd_Source <$> rows_since since junk)))).

Definition analysis_time (d : JunkDoc) : Time :=
  match jd_Analysis d with Some a => an_AnalyzedAt a | None => zero_time end.

Definition SampleAnalyzed (junk : list JunkDoc) (since : Time) (limit : Z) : list JunkDoc :=
  limited limit 30 (sort_slice (λ a b, analysis_time b <? analysis_time a)
    (List.filter (λ d, (since <=? jd_TS d) && negb (unanalyzed d)) junk)).

Definition FindByCategorySince (junk : list JunkDoc) (category : string) (since : Time) (limit : Z)
    : list JunkDoc :=
  limited limit 20 (sort_slice newest_first (List.filter
    (λ d, match jd_Analysis d with Some a => String.eqb (an_Category a) category | None => false end
          && (since <=? jd_TS d)) junk)).

Definition RecentVectorsByKind (embed : list EmbeddingDoc) (kind : string) (limit : Z) : list EmbeddingDoc :=
  limited limit 200 (sort_slice (λ a b, em_TS b <? em_TS a) (List.filter
    (λ e, String.eqb kind estr || String.eqb (em_Kind e) kind) embed)).

Definition boosts_pending (boosts : list CrmBoostDoc) (limit : Z) : list CrmBoostDoc :=
  limited limit 20 (sort_slice (λ a b, bo_TS a <? bo_TS b) (List.filter
    (λ b, String.eqb (bo_Status b) CrmBoostPending) boosts)).
End queries.

(** Updates by identifier and by key. *)
Definition update_junk (id : string) (f : JunkDoc → JunkDoc) (junk : list JunkDoc) : list JunkDoc :=
  (λ d, if String.eqb (jd_ID d) id then f d else d) <$> junk.

Definition resolved (status leadHashID why : string) (now : Time) (b : CrmBoostDoc) : CrmBoostDoc := {|
  bo_TS := bo_TS b; bo_JunkID := bo_JunkID b; bo_Source := bo_Source b; bo_Snippet := bo_Snippet b;
  bo_ContactHint := bo_ContactHint b; bo_Why := bo_Why b; bo_Priority := bo_Priority b;
  bo_Status := status;
  bo_LeadHashID := if String.eqb leadHashID estr then bo_LeadHashID b else leadHashID;
  bo_OutcomeWhy := if String.eqb why estr then bo_OutcomeWhy b else why; bo_ResolvedAt := now |}.

(** [UpdateOne] changes the first row of the junk id. *)
Fixpoint resolve_first (junkID status leadHashID why : string) (now : Time) (boosts : list CrmBoostDoc)
    : list CrmBoostDoc :=
  match boosts with
  | [] => []
  | b :: rest =>
      if String.eqb (bo_JunkID b) junkID then resolved status leadHashID why now b :: rest
      else b :: resolve_first junkID status leadHashID why now rest
  end.

Definition replaced_embedding (doc old : EmbeddingDoc) : EmbeddingDoc := {|
  em_Key := em_Key doc; em_Vector := em_Vector doc; em_TS := em_TS doc;
  em_Kind := if String.eqb (em_Kind doc) estr then em_Kind old else em_Kind doc;
  em_HashID := if String.eqb (em_HashID doc) estr then em_HashID old else em_HashID doc |}.

Fixpoint upsert_embedding (doc : EmbeddingDoc) (embed : list EmbeddingDoc) : list EmbeddingDoc :=
  match embed with
  | [] => [doc]
  | e :: rest =>
      if String.eqb (em_Key e) (em_Key doc) then replaced_embedding doc e :: rest
      else e :: upsert_embedding doc rest
  end.

(** ** What the model answers *)

(** An item of the answer about a batch, as decoded. *)
Record analyze_item := { ai_ID : string; ai_Category : string; ai_Why : string; ai_Suggestions : list string }.

Definition normalizeCategory (v : string) : string :=
  let v := ToLower (TrimSpace v) in
  if mem v ["false_negative"; "borderline"; "true_junk"] then v else "borderline".

Definition AnalyzeResult (i : analyze_item) : analyze_item := {|
  ai_ID := TrimSpace (ai_ID i); ai_Category := normalizeCategory (ai_Category i);
  ai_Why := TrimSpace (ai_Why i); ai_Suggestions := ai_Suggestions i |}.

Record reportSampleInput := {
  rs_Reason : string; rs_ReasonDetail : string; rs_Score : Z; rs_Category : string; rs_Why : string;
  rs_Snippet : string }.

Record ReportInput := {
  ri_From : Time; ri_To : Time; ri_TotalJunk : Z; ri_ReasonStats : list ReasonCount;
  ri_SourceStats : list SourceCount; ri_Samples : list reportSampleInput }.

Definition report_sample (s : JunkDoc) : reportSampleInput := {|
  rs_Reason := jd_Reason s; rs_ReasonDetail := jd_ReasonDetail s; rs_Score := jd_Score s;
  rs_Category := match jd_Analysis s with Some a => an_Category a | None => estr end;
  rs_Why := match jd_Analysis s with Some a => an_Why a | None => estr end;
  rs_Snippet := jd_Snippet s |}.

Definition ReportInputFromStore (since until : Time) (total : Z) (stats : list ReasonCount)
    (sourceStats : list SourceCount) (samples : list JunkDoc) : ReportInput := {|
  ri_From := since; ri_To := until; ri_TotalJunk := total; ri_ReasonStats := stats;
  ri_SourceStats := sourceStats; ri_Samples := report_sample <$> samples |}.

Record ReportResult := {
  rr_Summary : string; rr_TopReasons : list ReasonCount; rr_FalseNegativeCandidates : Z;
  rr_Recommendations : list string; rr_KeywordSuggestions : list string }.

(** [BuildJunkReport] trims the summary of the decoded answer. *)
Definition BuildJunkReport (r : ReportResult) : ReportResult := {|
  rr_Summary := TrimSpace (rr_Summary r); rr_TopReasons := rr_TopReasons r;
  rr_FalseNegativeCandidates := rr_FalseNegativeCandidates r;
  rr_Recommendations := rr_Recommendations r; rr_KeywordSuggestions := rr_KeywordSuggestions r |}.

(** [BuildKeywordDiff] and [BuildPainVocabDiff] on a decoded answer. *)
Definition BuildKeywordDiff (d : KeywordDiff) : KeywordDiff := {|
  AddKeywords := AddKeywords d; AddHardReject := AddHardReject d; kd_Summary := TrimSpace (kd_Summary d);
  kd_ReportID := kd_ReportID d; kd_GeneratedAt := kd_GeneratedAt d; kd_Status := "pending" |}.

(** The queries and the summary of a [DiscoverICPDiff]. *)
Record discover_answer := { da_Telegram : list string; da_Serp : list string; da_Summary : string }.

Definition BuildDiscoverICPDiff (d : discover_answer) : discover_answer := {|
  da_Telegram := UniqueFolded [] (da_Telegram d); da_Serp := UniqueFolded [] (da_Serp d);
  da_Summary := TrimSpace (da_Summary d) |}.

(** [CosineSimilarity]; a vector is that of the [float64] values of its elements. *)
Definition f_add (x y : spec_float) : spec_float := SFadd 53 1024 x y.
Definition f_mul (x y : spec_float) : spec_float := SFmul 53 1024 x y.

Definition dot_step (acc : spec_float * spec_float * spec_float) (p : spec_float * spec_float)
    : spec_float * spec_float * spec_float :=
  let '(dot, na, nb) := acc in
  (f_add dot (f_mul p.1 p.2), f_add na (f_mul p.1 p.1), f_add nb (f_mul p.2 p.2)).

Definition CosineSimilarity (a b : list spec_float) : spec_float :=
  if Nat.eqb (length a) 0 || negb (Nat.eqb (length a) (length b)) then f_zero
  else
    let '(dot, na, nb) := foldl dot_step (f_zero, f_zero, f_zero) (zip a b) in
    if SFeqb na f_zero || SFeqb nb f_zero then f_zero
    else float_div dot (f_mul (SFsqrt 53 1024 na) (SFsqrt 53 1024 nb)).

(** ** The service *)

(** The calls of the service, with whether a store or a file answered. *)
Inductive cold_call :=
  | CallInsertMany (docs : list JunkDoc) (ok : bool)
  | CallRead (what : string) (ok : bool)
  | CallAnalyze (docs : list JunkDoc)
  | CallSaveAnalysis (id : string) (a : JunkAnalysis) (ok : bool)
  | CallInsertBoost (b : CrmBoostDoc) (ok : bool)
  | CallEmbedText (text : string)
  | CallMarkDup (id key : string) (ok : bool)
  | CallUpsertEmbedding (e : EmbeddingDoc) (ok : bool)
  | CallFindLead (value : string)
  | CallResolve (junkID status leadHashID why : string) (ok : bool)
  | CallReport (input : ReportInput)
  | CallInsertReport (doc : JunkReportDoc) (ok : bool)
  | CallSales (dir : string) (doc : JunkReportDoc)
  | CallKeywordDiff (keywords snippets : list string)
  | CallDiscoverDiff (current : ICPConfig) (keywords snippets : list string)
  | CallPains
  | CallPainDiff (pains snippets : list string)
  | CallStats (keywordID : string)
  | CallWrite (dir name : string) (ok : bool)
  | CallSourceStats.

Record Config := {
  cf_AnalyzeEnabled : bool; cf_AnalyzeInterval : Duration; cf_ReportInterval : Duration;
  cf_BatchSize : Z; cf_FlushInterval : Duration; cf_FlushBatch : Z; cf_KeywordDiffEvery : Z;
  cf_KeywordDiffDir : string; cf_DiscoverDiffEvery : Z; cf_DiscoverDiffDir : string;
  cf_PainVocabDiffEvery : Z; cf_EmbedThreshold : spec_float; cf_HardRejectShadowDailyCap : Z }.

Definition f_0_92 : spec_float := Eval vm_compute in f_ratio 92 100.
Definition int_or (v def : Z) : Z := if v <=? 0 then def else v.
Definition float_or (v def : spec_float) : spec_float := if SFleb v f_zero then def else v.

(** The defaults of [NewService]. *)
Definition with_defaults (c : Config) : Config :=
  let every := int_or (cf_KeywordDiffEvery c) 5 in {|
  cf_AnalyzeEnabled := cf_AnalyzeEnabled c;
  cf_AnalyzeInterval := int_or (cf_AnalyzeInterval c) (15 * minute);
  cf_ReportInterval := int_or (cf_ReportInterval c) (6 * hour);
  cf_BatchSize := int_or (cf_BatchSize c) 20;
  cf_FlushInterval := int_or (cf_FlushInterval c) (2 * second);
  cf_FlushBatch := int_or (cf_FlushBatch c) 50; cf_KeywordDiffEvery := every;
  cf_KeywordDiffDir := cf_KeywordDiffDir c;
  cf_DiscoverDiffEvery := int_or (cf_DiscoverDiffEvery c) every;
  cf_DiscoverDiffDir :=
    if String.eqb (cf_DiscoverDiffDir c) estr then cf_KeywordDiffDir c else cf_DiscoverDiffDir c;
  cf_PainVocabDiffEvery := int_or (cf_PainVocabDiffEvery c) every;
  cf_EmbedThreshold := float_or (cf_EmbedThreshold c) f_0_92;
  cf_HardRejectShadowDailyCap := int_or (cf_HardRejectShadowDailyCap c) 10 |}.

(** A file of a suggestion, as encoded. *)
Inductive suggestion := KeywordFile (d : KeywordDiff) | QueryFile (d : PendingICPDiff).

(** [dp_ok] says whether the coming operation, given as it is recorded when it succeeds,
    succeeds; [dp_new_id] are the identifiers the driver generates. *)
Record Deps := {
  dp_ok : list cold_call → cold_call → bool;
  dp_now : list cold_call → Time;
  dp_new_id : nat → string;
  dp_analyze : list cold_call → list JunkDoc → option (list analyze_item);
  dp_report : list cold_call → ReportInput → option ReportResult;
  dp_keyword_diff : list cold_call → list string → list string → option KeywordDiff;
  dp_discover_diff : list cold_call → ICPConfig → list string → list string → option discover_answer;
  dp_pain_diff : list cold_call → list string → list string → option KeywordDiff;
  dp_embed : option (list cold_call → string → option (list spec_float));
  dp_crm : bool;
  dp_registry : option Registry;
  dp_leads : option (list cold_call → string → option string);
  dp_stats : option (list cold_call → string → option KeywordStatDoc);
  dp_pains : option (list cold_call → option (list string));
  dp_icp : list cold_call → disk ICPConfig;
  dp_sources : option (list cold_call → option (list SourceStats));
  dp_channels : option (list cold_call → disk (list channel_row));
  dp_sales : option string }.

Record Cold := {
  co_junk : list JunkDoc; co_nextID : nat; co_reports : list JunkReportDoc;
  co_boosts : list CrmBoostDoc; co_embed : list EmbeddingDoc;
  co_files : gmap (string * string) suggestion; co_rank : disk (list OutcomeDorkRow);
  co_reportCount : Z; co_lastReportEnd : Time; co_calls : list cold_call }.

Abbreviation Act := (eff Cold Empty_set).

Definition set_junk (l : list JunkDoc) (s : Cold) : Cold := {|
  co_junk := l; co_nextID := co_nextID s; co_reports := co_reports s; co_boosts := co_boosts s;
  co_embed := co_embed s; co_files := co_files s; co_rank := co_rank s;
  co_reportCount := co_reportCount s; co_lastReportEnd := co_lastReportEnd s; co_calls := co_calls s |}.
Definition set_nextID (n : nat) (s : Cold) : Cold := {|
  co_junk := co_junk s; co_nextID := n; co_reports := co_reports s; co_boosts := co_boosts s;
  co_embed := co_embed s; co_files := co_files s; co_rank := co_rank s;
  co_reportCount := co_reportCount s; co_lastReportEnd := co_lastReportEnd s; co_calls := co_calls s |}.
Definition set_reports (l : list JunkReportDoc) (s : Cold) : Cold := {|
  co_junk := co_junk s; co_nextID := co_nextID s; co_reports := l; co_boosts := co_boosts s;
  co_embed := co_embed s; co_files := co_files s; co_rank := co_rank s;
  co_reportCount := co_reportCount s; co_lastReportEnd := co_lastReportEnd s; co_calls := co_calls s |}.
Definition set_boosts (l : list CrmBoostDoc) (s : Cold) : Cold := {|
  co_junk := co_junk s; co_nextID := co_nextID s; co_reports := co_reports s; co_boosts := l;
  co_embed := co_embed s; co_files := co_files s; co_rank := co_rank s;
  co_reportCount := co_reportCount s; co_lastReportEnd := co_lastReportEnd s; co_calls := co_calls s |}.
Definition set_embed (l : list EmbeddingDoc) (s : Cold) : Cold := {|
  co_junk := co_junk s; co_nextID := co_nextID s; co_reports := co_reports s; co_boosts := co_boosts s;
  co_embed := l; co_files := co_files s; co_rank := co_rank s;
  co_reportCount := co_reportCount s; co_lastReportEnd := co_lastReportEnd s; co_calls := co_calls s |}.
Definition set_files (m : gmap (string * string) suggestion) (s : Cold) : Cold := {|
  co_junk := co_junk s; co_nextID := co_nextID s; co_reports := co_reports s; co_boosts := co_boosts s;
  co_embed := co_embed s; co_files := m; co_rank := co_rank s;
  co_reportCount := co_reportCount s; co_lastReportEnd := co_lastReportEnd s; co_calls := co_calls s |}.
Definition set_rank (d : disk (list OutcomeDorkRow)) (s : Cold) : Cold := {|
  co_junk := co_junk s; co_nextID := co_nextID s; co_reports := co_reports s; co_boosts := co_boosts s;
  co_embed := co_embed s; co_files := co_files s; co_rank := d;
  co_reportCount := co_reportCount s; co_lastReportEnd := co_lastReportEnd s; co_calls := co_calls s |}.
Definition set_reportCount (n : Z) (s : Cold) : Cold := {|
  co_junk := co_junk s; co_nextID := co_nextID s; co_reports := co_reports s; co_boosts := co_boosts s;
  co_embed := co_embed s; co_files := co_files s; co_rank := co_rank s;
  co_reportCount := n; co_lastReportEnd := co_lastReportEnd s; co_calls := co_calls s |}.
Definition set_lastReportEnd (t : Time) (s : Cold) : Cold := {|
  co_junk := co_junk s; co_nextID := co_nextID s; co_reports := co_reports s; co_boosts := co_boosts s;
  co_embed := co_embed s; co_files := co_files s; co_rank := co_rank s;
  co_reportCount := co_reportCount s; co_lastReportEnd := t; co_calls := co_calls s |}.
Definition set_calls (l : list cold_call) (s : Cold) : Cold := {|
  co_junk := co_junk s; co_nextID := co_nextID s; co_reports := co_reports s; co_boosts := co_boosts s;
  co_embed := co_embed s; co_files := co_files s; co_rank := co_rank s;
  co_reportCount := co_reportCount s; co_lastReportEnd := co_lastReportEnd s; co_calls := l |}.

Section service.
Context `{Sorter} `{TimeLib} (visit : gmap string OutcomeDorkRow → list (string * OutcomeDorkRow)).
Context (cfg : Config) (d : Deps).

Definition record (c : cold_call) : Act unit := modify (λ s, set_calls (co_calls s ++ [c]) s).
Definition now : Act Time := let! s := get_state in done (dp_now d (co_calls s)).

(** An operation that may fail, with what it changes when it does not. *)
Definition attempt (c : bool → cold_call) (f : Cold → Cold) : Act bool :=
  let! s := get_state in
  let ok := dp_ok d (co_calls s) (c true) in
  record (c ok) ;;! (if ok then modify f else done tt) ;;! done ok.

(** A query, which may fail. *)
Definition query {A} (what : string) (f : Cold → A) : Act (option A) :=
  let! ok := attempt (CallRead what) id in
  let! s := get_state in done (if ok : bool then Some (f s) else None).

(** A call of a dependency that answers. *)
Definition ask {A} (c : cold_call) (answer : list cold_call → A) : Act A :=
  let! s := get_state in
  let a := answer (co_calls s) in
  record c ;;! done a.

(** *** Ingest *)

(** The driver gives each document an identifier. *)
Definition stored_docs (docs : list JunkDoc) (s : Cold) : Cold :=
  set_nextID (co_nextID s + length docs)
    (set_junk (co_junk s ++ imap (λ i doc, with_id (dp_new_id d (co_nextID s + i)) doc) docs) s).

Definition flush_events (events : list Event) : Act unit :=
  match events with
  | [] => done tt
  | _ =>
      let! t := now in
      let docs := JunkDocFromEvent t <$> events in
      attempt (CallInsertMany docs) (stored_docs docs) ;;! done tt
  end.

(** *** Analysis *)

Definition shadowAnalyzeBudget : Act Z :=
  let cap := cf_HardRejectShadowDailyCap cfg in
  if cap <=? 0 then done 0
  else
    let! t := now in
    let start := t `div` one_day * one_day in
    let! n := query "count_shadow" (λ s, CountAnalyzedByReasonSince (co_junk s) ReasonHardRejectShadow start) in
    match n with
    | None => done cap
    | Some n => let remaining := cap - n in done (if remaining <? 0 then 0 else remaining)
    end.

Definition processFalseNegative (doc : JunkDoc) (r : analyze_item) : Act unit :=
  if negb (dp_crm d) || negb (String.eqb (ai_Category r) "false_negative") then done tt
  else
    let! t := now in
    let b := {| bo_TS := t; bo_JunkID := jd_ID doc; bo_Source := jd_Source doc;
                bo_Snippet := jd_Snippet doc; bo_ContactHint := jd_ContactHint doc;
                bo_Why := ai_Why r; bo_Priority := "High"; bo_Status := CrmBoostPending;
                bo_LeadHashID := estr; bo_OutcomeWhy := estr; bo_ResolvedAt := zero_time |} in
    attempt (CallInsertBoost b) (λ s, set_boosts (co_boosts s ++ [b]) s) ;;! done tt.

Definition snippetKey (snippet : string) : string := short_sum snippet.

(** The first recent vector that is close, other than the one of the same text. *)
Definition close_vector (threshold : spec_float) (key : string) (vec : list spec_float)
    (recent : list EmbeddingDoc) : option EmbeddingDoc :=
  List.find (λ other, negb (String.eqb (em_Key other) key)
                      && SFleb threshold (CosineSimilarity vec (em_Vector other))) recent.

Definition processSemanticDedup (doc : JunkDoc) : Act unit :=
  match dp_embed d with
  | None => done tt
  | Some embed =>
      let! vec := ask (CallEmbedText (jd_Snippet doc)) (λ calls, embed calls (jd_Snippet doc)) in
      match vec with
      | None => done tt
      | Some vec =>
          let key := snippetKey (jd_Snippet doc) in
          let! recent := query "recent_vectors" (λ s, RecentVectorsByKind (co_embed s) EmbedKindJunk 200) in
          match recent with
          | None => done tt
          | Some recent =>
              match close_vector (cf_EmbedThreshold cfg) key vec recent with
              | Some other =>
                  attempt (CallMarkDup (jd_ID doc) (em_Key other))
                    (λ s, set_junk (update_junk (jd_ID doc) (with_dup (em_Key other)) (co_junk s)) s) ;;!
                  done tt
              | None =>
                  let! t := now in
                  let e := {| em_Key := key; em_Vector := vec; em_TS := t; em_Kind := EmbedKindJunk;
                              em_HashID := estr |} in
                  attempt (CallUpsertEmbedding e) (λ s, set_embed (upsert_embedding e (co_embed s)) s) ;;!
                  done tt
              end
          end
      end
  end.

Definition analysis_of (t : Time) (r : analyze_item) : JunkAnalysis := {|
  an_AnalyzedAt := t; an_Category := ai_Category r; an_Why := ai_Why r;
  an_Suggestions := ai_Suggestions r |}.

(** One row of the loop over the batch; the boost and the embedding come after the analysis is
    stored. *)
Definition apply_result (t : Time) (byID : gmap string analyze_item) (doc : JunkDoc) : Act unit :=
  match byID !! jd_ID doc with
  | None => done tt
  | Some r =>
      let! ok := attempt (CallSaveAnalysis (jd_ID doc) (analysis_of t r))
        (λ s, set_junk (update_junk (jd_ID doc) (with_analysis (analysis_of t r)) (co_junk s)) s) in
      if ok : bool then processFalseNegative doc r ;;! processSemanticDedup doc else done tt
  end.

Fixpoint apply_results (t : Time) (byID : gmap string analyze_item) (docs : list JunkDoc) : Act unit :=
  match docs with
  | [] => done tt
  | doc :: docs => apply_result t byID doc ;;! apply_results t byID docs
  end.

(** The last result of each id. *)
Definition results_by_id (results : list analyze_item) : gmap string analyze_item :=
  foldl (λ m r, <[ai_ID r := r]> m) ∅ results.

(** *** Boosts *)

Definition classifyBoost (reg : Registry) (doc : CrmBoostDoc) : Act (string * string * string) :=
  let text := bo_Snippet doc in
  match Registry.HardReject (Some reg) text with
  | Some hit => done (CrmBoostDismissed, estr, "hard_reject:" +:+ hr_Phrase hit)
  | None =>
      let score := res_Score (AnalyzeWithRegistry reg text) in
      if score <? mediumMin reg
      then done (CrmBoostDismissed, estr,
                 "score=" +:+ Itoa score +:+ " below medium_min=" +:+ Itoa (mediumMin reg))
      else
        let promoted : Act (string * string * string) :=
          done (CrmBoostPromoted, estr, "score=" +:+ Itoa score) in
        match dp_leads d with
        | Some find =>
            if String.eqb (bo_ContactHint doc) estr then promoted
            else
              let! hash := ask (CallFindLead (bo_ContactHint doc)) (λ calls, find calls (bo_ContactHint doc)) in
              match hash with
              | Some hash =>
                  if String.eqb hash estr then promoted
                  else done (CrmBoostMerged, hash, "existing lead contact")
              | None => promoted
              end
        | None => promoted
        end
  end.

(** [Resolve] does nothing without a junk id or a status. *)
Definition resolve_boost (junkID status leadHashID why : string) : Act unit :=
  if String.eqb junkID estr || String.eqb status estr then done tt
  else
    let! t := now in
    attempt (CallResolve junkID status leadHashID why)
      (λ s, set_boosts (resolve_first junkID status leadHashID why t (co_boosts s)) s) ;;! done tt.

Fixpoint resolve_boosts (reg : Registry) (docs : list CrmBoostDoc) : Act unit :=
  match docs with
  | [] => done tt
  | doc :: docs =>
      let! (status, hash, why) := classifyBoost reg doc in
      resolve_boost (bo_JunkID doc) status hash why ;;! resolve_boosts reg docs
  end.

Definition runBoostWorker : Act unit :=
  match dp_crm d, dp_registry d with
  | true, Some reg =>
      let! docs := query "pending_boosts" (λ s, boosts_pending (co_boosts s) 20) in
      match docs with None => done tt | Some docs => resolve_boosts reg docs end
  | _, _ => done tt
  end.

(** The rows of a pass: pending ones, then shadow rows as far as the daily budget goes. *)
Definition pass_docs : Act (option (list JunkDoc)) :=
  let! docs := query "pending"
    (λ s, FindPendingAnalysisExcluding (co_junk s) ReasonHardRejectShadow (cf_BatchSize cfg)) in
  match docs with
  | None => done None
  | Some docs =>
      if Z.of_nat (length docs) <? cf_BatchSize cfg then
        let! budget := shadowAnalyzeBudget in
        if 0 <? budget then
          let! shadow := query "pending_shadow"
            (λ s, FindPendingByReason (co_junk s) ReasonHardRejectShadow budget) in
          done (Some (docs ++ default [] shadow))
        else done (Some docs)
      else done (Some docs)
  end.

Definition runAnalyze : Act unit :=
  let! docs := pass_docs in
  match docs with
  | None | Some [] => done tt
  | Some docs =>
      let! results := ask (CallAnalyze docs) (λ calls, dp_analyze d calls docs) in
      match results with
      | None => done tt
      | Some items =>
          let byID := results_by_id (AnalyzeResult <$> items) in
          let! t := now in
          apply_results t byID docs ;;! runBoostWorker
      end
  end.

(** *** Reports and suggestions *)

(** The counts of the store with the words of the model. *)
Definition whys (llm : list ReasonCount) : gmap string string :=
  foldl (λ m r, if String.eqb (rc_Why r) estr then m else <[rc_Reason r := rc_Why r]> m) ∅ llm.

Definition mergeReasonStats (db llm : list ReasonCount) : list ReasonCount :=
  match llm with
  | [] => db
  | _ => (λ r, match whys llm !! rc_Reason r with
               | Some why => {| rc_Reason := rc_Reason r; rc_Count := rc_Count r; rc_Why := why |}
               | None => r end) <$> db
  end.

Definition falseNegativeSnippets (periodStart : Time) : Act (option (list string)) :=
  query "false_negatives"
    (λ s, jd_Snippet <$> FindByCategorySince (co_junk s) "false_negative" periodStart 15).

Definition with_stats (doc : KeywordStatDoc) (kw : KeywordEntry) : KeywordEntry :=
  let currentWeight := if ke_Weight kw <=? 0 then 20 else ke_Weight kw in
  let '(suggested, enabled) := Recommendation doc currentWeight in {|
  ke_ID := ke_ID kw; ke_Phrase := ke_Phrase kw; ke_Weight := ke_Weight kw; ke_Tag := ke_Tag kw;
  ke_SuggestedWeight := suggested; ke_EvidenceCount := TotalSamples doc; ke_JunkRate := JunkRate doc;
  ke_Enabled := Some enabled |}.

Fixpoint enrich_entries (stats : list cold_call → string → option KeywordStatDoc)
    (kws : list KeywordEntry) : Act (list KeywordEntry) :=
  match kws with
  | [] => done []
  | kw :: kws =>
      let! doc := ask (CallStats (ke_ID kw)) (λ calls, stats calls (ke_ID kw)) in
      let! rest := enrich_entries stats kws in
      done (match doc with Some doc => with_stats doc kw | None => kw end :: rest)
  end.

Definition enrichKeywordDiffWithStats (diff : KeywordDiff) : Act KeywordDiff :=
  match dp_stats d with
  | None => done diff
  | Some stats =>
      let! kws := enrich_entries stats (AddKeywords diff) in
      done (with_adds diff kws (AddHardReject diff))
  end.

(** [WritePendingJSON]: the file is named after the report and replaced when it exists. *)
Definition WritePendingJSON (dir name reportID : string) (v : suggestion) : Act unit :=
  let file := name +:+ "_" +:+ reportID +:+ ".json" in
  attempt (CallWrite dir file) (λ s, set_files (<[(dir, file) := v]> (co_files s)) s) ;;! done tt.

Definition dated (reportID : string) (t : Time) (diff : KeywordDiff) : KeywordDiff := {|
  AddKeywords := AddKeywords diff; AddHardReject := AddHardReject diff; kd_Summary := kd_Summary diff;
  kd_ReportID := reportID; kd_GeneratedAt := FormatRFC3339 t; kd_Status := kd_Status diff |}.

Definition maybeWriteKeywordDiff (reportID : string) (keywords : list string) (periodStart : Time) : Act unit :=
  if (cf_KeywordDiffEvery cfg <=? 0) || String.eqb (cf_KeywordDiffDir cfg) estr then done tt
  else
    modify (λ s, set_reportCount (wrap64 (co_reportCount s + 1)) s) ;;!
    let! s := get_state in
    if negb (Z.rem (co_reportCount s) (cf_KeywordDiffEvery cfg) =? 0) then done tt
    else
      let! snippets := falseNegativeSnippets periodStart in
      match snippets with
      | None => done tt
      | Some snippets =>
          let! diff := ask (CallKeywordDiff keywords snippets)
            (λ calls, dp_keyword_diff d calls keywords snippets) in
          match diff with
          | None => done tt
          | Some diff =>
              let! diff := enrichKeywordDiffWithStats (BuildKeywordDiff diff) in
              let! t := now in
              WritePendingJSON (cf_KeywordDiffDir cfg) "keywords_pending" reportID
                (KeywordFile (dated reportID t diff))
          end
      end.

Definition empty_icp : ICPConfig := {|
  TelegramSearch := []; SerpDorks := []; PWADorks := []; HostingDorks := []; TGCatalogDorks := [];
  DiscordDorks := []; OTCManualRef := [] |}.

Definition maybeWriteDiscoverDiff (reportID : string) (keywords : list string) (periodStart : Time) : Act unit :=
  if (cf_DiscoverDiffEvery cfg <=? 0) || String.eqb (cf_DiscoverDiffDir cfg) estr then done tt
  else
    let! s := get_state in
    if negb (Z.rem (co_reportCount s) (cf_DiscoverDiffEvery cfg) =? 0) then done tt
    else
      let current := default empty_icp (LoadICP (dp_icp d (co_calls s))) in
      let! snippets := falseNegativeSnippets periodStart in
      match snippets with
      | None => done tt
      | Some snippets =>
          let! diff := ask (CallDiscoverDiff current keywords snippets)
            (λ calls, dp_discover_diff d calls current keywords snippets) in
          match diff with
          | None => done tt
          | Some diff =>
              let diff := BuildDiscoverICPDiff diff in
              let! t := now in
              WritePendingJSON (cf_DiscoverDiffDir cfg) "discover_icp_pending" reportID
                (QueryFile {| AddTelegramSearch := da_Telegram diff; AddSerpDorks := da_Serp diff;
                   pd_Summary := da_Summary diff; pd_ReportID := reportID;
                   pd_GeneratedAt := FormatRFC3339 t; pd_Status := "pending" |})
          end
      end.

Definition maybeWritePainVocabDiff (reportID : string) (periodStart : Time) : Act unit :=
  if (cf_PainVocabDiffEvery cfg <=? 0) || String.eqb (cf_KeywordDiffDir cfg) estr then done tt
  else
    let! s := get_state in
    if negb (Z.rem (co_reportCount s) (cf_PainVocabDiffEvery cfg) =? 0) then done tt
    else
      let! pains := match dp_pains d with
                    | Some f => let! p := ask CallPains f in done (default [] p)
                    | None => done [] end in
      let! snippets := falseNegativeSnippets periodStart in
      match snippets with
      | None => done tt
      | Some snippets =>
          match pains, snippets with
          | [], [] => done tt
          | _, _ =>
              let! diff := ask (CallPainDiff pains snippets) (λ calls, dp_pain_diff d calls pains snippets) in
              match diff with
              | None => done tt
              | Some diff =>
                  let! diff := enrichKeywordDiffWithStats (BuildKeywordDiff diff) in
                  let! t := now in
                  WritePendingJSON (cf_KeywordDiffDir cfg) "pain_vocab_pending" reportID
                    (KeywordFile (dated reportID t diff))
              end
          end
      end.

(** The ranking of queries, next to the suggestions. *)
Definition write_rank : Act unit :=
  match dp_sources d, dp_channels d with
  | Some sources, Some channels =>
      let! stats := ask CallSourceStats sources in
      match stats with
      | None => done tt
      | Some stats =>
          let! s := get_state in
          attempt (CallWrite (cf_KeywordDiffDir cfg) "dork_rank")
            (set_rank (WriteDorkRankReport visit (channels (co_calls s)) stats Written (co_rank s)).1) ;;!
          done tt
      end
  | _, _ => done tt
  end.

Definition sales_report (doc : JunkReportDoc) : Act unit :=
  match dp_sales d with
  | None => done tt
  | Some dir => record (CallSales (if String.eqb dir estr then "data/export/sales" else dir) doc)
  end.

(** A report goes into the store with a fresh identifier; the caller keeps its own copy. *)
Definition insert_report (doc : JunkReportDoc) : Act bool :=
  attempt (CallInsertReport doc) (λ s,
    set_nextID (co_nextID s + 1)
      (set_reports (co_reports s ++ [with_report_id (dp_new_id d (co_nextID s)) doc]) s)).

(** The body of a report once the figures of the period have been read. *)
Definition write_report (periodStart periodEnd : Time) (total : Z) (stats : list ReasonCount)
    (sourceStats : list SourceCount) (samples : list JunkDoc) : Act unit :=
  let input := ReportInputFromStore periodStart periodEnd total stats sourceStats samples in
  let! result := ask (CallReport input) (λ calls, dp_report d calls input) in
  match result with
  | None => done tt
  | Some result =>
      let result := BuildJunkReport result in
      let doc := {|
        rp_ID := nil_id; rp_TS := periodEnd; rp_PeriodFrom := periodStart; rp_PeriodTo := periodEnd;
        rp_SampleCount := total; rp_Summary := rr_Summary result;
        rp_TopReasons := mergeReasonStats stats (rr_TopReasons result);
        rp_FalseNegativeCandidates := rr_FalseNegativeCandidates result;
        rp_Recommendations := rr_Recommendations result;
        rp_KeywordSuggestions := rr_KeywordSuggestions result; rp_SourceStats := sourceStats |} in
      let! ok := insert_report doc in
      if negb ok then done tt
      else
        sales_report doc ;;!
        maybeWriteKeywordDiff (rp_ID doc) (rr_KeywordSuggestions result) periodStart ;;!
        maybeWriteDiscoverDiff (rp_ID doc) (rr_KeywordSuggestions result) periodStart ;;!
        maybeWritePainVocabDiff (rp_ID doc) periodStart ;;!
        write_rank ;;!
        modify (set_lastReportEnd periodEnd)
  end.

Definition runReport : Act unit :=
  let! periodEnd := now in
  let! s := get_state in
  let periodStart := co_lastReportEnd s in
  if time_sub periodEnd periodStart <? minute then done tt
  else
    let! total := query "count_since" (λ s, CountSince (co_junk s) periodStart) in
    match total with
    | None => done tt
    | Some total =>
        if total =? 0 then modify (set_lastReportEnd periodEnd)
        else
          let! stats := query "reasons" (λ s, ReasonBreakdown (co_junk s) periodStart) in
          match stats with
          | None => done tt
          | Some stats =>
              let! sourceStats := query "sources" (λ s, SourceBreakdown (co_junk s) periodStart 20) in
              match sourceStats with
              | None => done tt
              | Some sourceStats =>
                  let! samples := query "samples" (λ s, SampleAnalyzed (co_junk s) periodStart 30) in
                  match samples with
                  | None => done tt
                  | Some samples => write_report periodStart periodEnd total stats sourceStats samples
                  end
              end
          end
    end.

Definition RunReportOnce : Act unit := runReport.

(** *** Passes of the three loops *)

Inductive cold_op := OpFlush (events : list Event) | OpAnalyze | OpReport.

Definition step (op : cold_op) : Act unit :=
  match op with
  | OpFlush events => flush_events events
  | OpAnalyze => if cf_AnalyzeEnabled cfg then runAnalyze else done tt
  | OpReport => runReport
  end.

Definition step_state (s : Cold) (op : cold_op) : Cold := (step op s).2.
End service.

(** [NewService]: nothing is stored yet, and the period starts. *)
Definition NewService (t : Time) : Cold := {|
  co_junk := []; co_nextID := 0; co_reports := []; co_boosts := []; co_embed := [];
  co_files := ∅; co_rank := NoFile; co_reportCount := 0; co_lastReportEnd := t; co_calls := [] |}.
