(* ===== verification/ColdFacts.v ===== *)
(** Facts about the cold path (ColdPath.v): which documents a pass touches, the invariants of the
    collections, and what becomes of a boost and of a suggestion. *)
From S2P Require Import Prelude Unicode GoStrings Utf8Facts TextFacts GoSort Matcher Registry.
From S2P Require Import Scoring Hashes.
From S2P Require Import Validate SourceRep Entity SourceRegistry ProxyBudget SourceDisable.
From S2P Require Import Discover Suggestions Effects Quota ColdPath.

Local Open Scope Z_scope.
Local Open Scope eff_scope.

(** ** Predicates that passes keep *)

(** A predicate that one more call does not break. *)
Definition blind (P : Cold → Prop) : Prop := ∀ c s, P s → P (set_calls (co_calls s ++ [c]) s).

Section keeps.
Context `{Sorter} `{TimeLib} (visit : gmap string OutcomeDorkRow → list (string * OutcomeDorkRow)).
Context (cfg : Config) (d : Deps) (P : Cold → Prop) (HP : blind P).

Lemma keeps_record c : keeps P (record c).
Proof using HP. intros s Hs. by apply HP. Qed.

Lemma keeps_now : keeps P (now d).
Proof. by intros s. Qed.

Lemma keeps_attempt c f : (∀ s, P s → P (f s)) → keeps P (attempt d c f).
Proof using HP.
  intros Hf. apply keeps_seq; [apply keeps_get|]. intros s.
  apply keeps_seq; [apply keeps_record|]. intros _.
  apply keeps_seq; [|intros _; apply keeps_ret].
  destruct (dp_ok d (co_calls s) (c true)); [by apply keeps_modify|apply keeps_ret].
Qed.

Lemma keeps_query {A} what (f : Cold → A) : keeps P (query d what f).
Proof using HP.
  apply keeps_seq; [by apply keeps_attempt|]. intros ok. apply keeps_seq; [apply keeps_get|].
  intros s. apply keeps_ret.
Qed.

Lemma keeps_ask {A} c (answer : list cold_call → A) : keeps P (ask c answer).
Proof using HP.
  apply keeps_seq; [apply keeps_get|]. intros s. apply keeps_seq; [apply keeps_record|].
  intros _. apply keeps_ret.
Qed.
End keeps.

Create HintDb cold.
#[export] Hint Resolve keeps_ret keeps_get keeps_record keeps_now keeps_query keeps_ask : cold.

(** One step through a pass that keeps [P]. *)
Ltac keep_step :=
  match goal with
  | |- keeps _ (seq_eff _ _) => apply keeps_seq; [|intros ?]
  | |- keeps _ (match ?x with _ => _ end) => destruct x
  | |- keeps _ (if ?x then _ else _) => destruct x
  | |- keeps _ (let _ := _ in _) => cbv zeta
  | |- keeps _ (attempt _ _ _) => apply keeps_attempt; [assumption|]
  | |- keeps _ (modify _) => apply keeps_modify
  end.
Ltac keep := repeat (first [solve [eauto with cold] | keep_step]).

Section frames.
Context `{Sorter} `{TimeLib} (visit : gmap string OutcomeDorkRow → list (string * OutcomeDorkRow)).
Context (cfg : Config) (d : Deps) (P : Cold → Prop) (HP : blind P).

Lemma keeps_enrich_entries stats kws : keeps P (enrich_entries stats kws).
Proof using HP. induction kws as [|kw kws IH]; cbn [enrich_entries]; keep. Qed.

Lemma keeps_enrich diff : keeps P (enrichKeywordDiffWithStats d diff).
Proof using HP.
  unfold enrichKeywordDiffWithStats. destruct (dp_stats d) as [stats|]; [|keep].
  apply keeps_seq; [apply keeps_enrich_entries|intros kws; keep].
Qed.

Lemma keeps_write dir name id v :
  (∀ s, P s → P (set_files (<[(dir, name +:+ "_" +:+ id +:+ ".json") := v]> (co_files s)) s)) →
  keeps P (WritePendingJSON d dir name id v).
Proof using HP. intros Hf. unfold WritePendingJSON. keep. Qed.

(** The files a report can write. *)
Definition suggestion_files : list (string * string) :=
  [(cf_KeywordDiffDir cfg, "keywords_pending_" +:+ nil_id +:+ ".json");
   (cf_DiscoverDiffDir cfg, "discover_icp_pending_" +:+ nil_id +:+ ".json");
   (cf_KeywordDiffDir cfg, "pain_vocab_pending_" +:+ nil_id +:+ ".json")].

(** A report changes the reports, the files, the ranking, the count and the period. *)
Lemma keeps_report :
  (∀ s r, P s → P (set_nextID (co_nextID s + 1)
    (set_reports (co_reports s ++ [with_report_id (dp_new_id d (co_nextID s)) r]) s))) →
  (∀ s file v, file ∈ suggestion_files → P s → P (set_files (<[file := v]> (co_files s)) s)) →
  (∀ s r, P s → P (set_rank r s)) → (∀ s n, P s → P (set_reportCount n s)) →
  (∀ s t, P s → P (set_lastReportEnd t s)) →
  keeps P (runReport visit cfg d).
Proof using HP.
  intros H1 H2 H3 H4 H5. unfold runReport, write_report, insert_report, sales_report, write_rank,
    maybeWriteKeywordDiff, maybeWriteDiscoverDiff, maybeWritePainVocabDiff, falseNegativeSnippets.
  pose proof keeps_enrich. pose proof keeps_write.
  assert (Hw : ∀ dir name v, (dir, name +:+ "_" +:+ nil_id +:+ ".json") ∈ suggestion_files →
    keeps P (WritePendingJSON d dir name nil_id v)) by (intros; apply keeps_write; auto).
  keep; cbn [rp_ID]; try apply Hw; unfold suggestion_files; simpl; auto; set_solver.
Qed.
End frames.

(** ** Rows of the collections *)

Lemma update_junk_ids id f junk :
  (∀ doc, jd_ID (f doc) = jd_ID doc) → jd_ID <$> update_junk id f junk = jd_ID <$> junk.
Proof.
  intros Hf. unfold update_junk. rewrite <- list_fmap_compose. apply list_fmap_ext.
  intros _ doc _. cbn. by destruct (String.eqb _ _).
Qed.

Lemma update_junk_other id f junk doc :
  doc ∈ junk → jd_ID doc ≠ id → doc ∈ update_junk id f junk.
Proof.
  intros Hd Hn. unfold update_junk. apply list_elem_of_fmap. exists doc.
  by rewrite (proj2 (String.eqb_neq _ _)).
Qed.

Lemma update_junk_same id f junk doc :
  doc ∈ junk → jd_ID doc = id → f doc ∈ update_junk id f junk.
Proof.
  intros Hd Hn. unfold update_junk. apply list_elem_of_fmap. exists doc.
  by rewrite (proj2 (String.eqb_eq _ _)).
Qed.

Lemma update_junk_elem id f junk doc :
  doc ∈ update_junk id f junk →
  (doc ∈ junk ∧ jd_ID doc ≠ id) ∨ ∃ old, old ∈ junk ∧ jd_ID old = id ∧ doc = f old.
Proof.
  unfold update_junk. intros (old & -> & Ho)%list_elem_of_fmap.
  destruct (String.eqb_spec (jd_ID old) id); [right; by exists old|by left].
Qed.

Lemma resolve_first_keys junkID status hash why t boosts :
  bo_JunkID <$> resolve_first junkID status hash why t boosts = bo_JunkID <$> boosts.
Proof.
  induction boosts as [|b boosts IH]; [done|]. cbn [resolve_first].
  destruct (String.eqb _ _); cbn [fmap list_fmap]; [done|by f_equal].
Qed.

(** A resolved row keeps what it was inserted with. *)
Lemma resolve_first_elem junkID status hash why t boosts b :
  b ∈ resolve_first junkID status hash why t boosts →
  b ∈ boosts ∨ ∃ b0, b0 ∈ boosts ∧ bo_JunkID b0 = junkID ∧ b = resolved status hash why t b0.
Proof.
  induction boosts as [|b0 boosts IH]; [by left|]. cbn [resolve_first].
  destruct (String.eqb_spec (bo_JunkID b0) junkID).
  - intros [->|Hb]%elem_of_cons; [right; exists b0; split; [by left|done]|left; by right].
  - intros [->|Hb]%elem_of_cons; [left; by left|].
    destruct (IH Hb) as [|(b1 & H1 & ?)]; [left; by right|right; exists b1; split; [by right|done]].
Qed.

Section rows.
Context `{Sorter} `{TimeLib}.

Lemma limited_elem {A} limit def (l : list A) x : x ∈ limited limit def l → x ∈ l.
Proof. unfold limited. intros Hx. by eapply elem_of_take in Hx as (i & Hi%list_elem_of_lookup_2 & _). Qed.

Lemma limited_sublist {A} limit def (l : list A) : limited limit def l `sublist_of` l.
Proof. apply sublist_take. Qed.

Lemma sort_filter_NoDup {A} (key : A → string) less f (l : list A) :
  NoDup (key <$> l) → NoDup (key <$> sort_slice less (List.filter f l)).
Proof.
  intros Hn. rewrite sort_slice_perm. eapply sublist_NoDup; [done|]. apply fmap_sublist, filter_sublist.
Qed.

Lemma limited_NoDup {A} (key : A → string) limit def (l : list A) :
  NoDup (key <$> l) → NoDup (key <$> limited limit def l).
Proof. intros Hn. eapply sublist_NoDup; [done|]. apply fmap_sublist, limited_sublist. Qed.

(** The rows of a query are rows of the collection that pass its filter, each once. *)
Lemma pending_rows junk limit reason :
  NoDup (jd_ID <$> junk) → reason ≠ estr →
  NoDup (jd_ID <$> FindPendingAnalysisExcluding junk reason limit)
  ∧ ∀ doc, doc ∈ FindPendingAnalysisExcluding junk reason limit →
      doc ∈ junk ∧ jd_Analysis doc = None ∧ jd_Reason doc ≠ reason.
Proof.
  intros Hn Hr. unfold FindPendingAnalysisExcluding, findPendingAnalysis.
  split; [by apply limited_NoDup, sort_filter_NoDup|]. intros doc Hd%limited_elem.
  apply sort_slice_elem, list_elem_of_In, filter_In in Hd as [Hd Hf]. apply list_elem_of_In in Hd.
  rewrite (proj2 (String.eqb_neq reason estr)) in Hf by done. cbn [orb] in Hf.
  apply andb_true_iff in Hf as [Hu Hx]. rewrite negb_true_iff, String.eqb_neq in Hx.
  unfold unanalyzed in Hu. by destruct (jd_Analysis doc).
Qed.

Lemma shadow_rows junk reason limit :
  NoDup (jd_ID <$> junk) → 0 < limit →
  NoDup (jd_ID <$> FindPendingByReason junk reason limit)
  ∧ (∀ doc, doc ∈ FindPendingByReason junk reason limit →
      doc ∈ junk ∧ jd_Analysis doc = None ∧ jd_Reason doc = reason)
  ∧ Z.of_nat (length (FindPendingByReason junk reason limit)) ≤ limit.
Proof.
  intros Hn Hl. unfold FindPendingByReason. destruct (String.eqb_spec reason estr).
  { split_and!; [constructor|by intros doc Hd%not_elem_of_nil|cbn; lia]. }
  split_and!; [by apply limited_NoDup, sort_filter_NoDup| |].
  - intros doc Hd%limited_elem.
    apply sort_slice_elem, list_elem_of_In, filter_In in Hd as [Hd Hf]. apply list_elem_of_In in Hd.
    apply andb_true_iff in Hf as [Hx Hu]. apply String.eqb_eq in Hx.
    unfold unanalyzed in Hu. by destruct (jd_Analysis doc).
  - unfold limited. destruct (Z.leb_spec limit 0); [lia|]. rewrite length_take. lia.
Qed.
End rows.

(** ** One boost per false negative *)

Section boosts.
Context `{Sorter} `{TimeLib} (visit : gmap string OutcomeDorkRow → list (string * OutcomeDorkRow)).
Context (cfg : Config) (d : Deps) (ids : Inj (=) (=) (dp_new_id d)).

(** The boost [b] was made from the row [doc]. *)
Definition boost_of (b : CrmBoostDoc) (doc : JunkDoc) : Prop :=
  bo_JunkID b = jd_ID doc ∧ bo_Source b = jd_Source doc ∧ bo_Snippet b = jd_Snippet doc
  ∧ bo_ContactHint b = jd_ContactHint doc
  ∧ ∃ a, jd_Analysis doc = Some a ∧ an_Category a = "false_negative" ∧ bo_Why b = an_Why a.

Record sound (s : Cold) : Prop := {
  sd_ids : ∀ doc, doc ∈ co_junk s → ∃ n, (n < co_nextID s)%nat ∧ jd_ID doc = dp_new_id d n;
  sd_nodup : NoDup (jd_ID <$> co_junk s);
  sd_boosts : NoDup (bo_JunkID <$> co_boosts s);
  sd_from : ∀ b, b ∈ co_boosts s → ∃ doc, doc ∈ co_junk s ∧ boost_of b doc }.

Lemma sound_ext s s' :
  co_junk s' = co_junk s → co_boosts s' = co_boosts s → (co_nextID s ≤ co_nextID s')%nat →
  sound s → sound s'.
Proof using.
  intros Ej Eb En [S1 S2 S3 S4]. constructor; rewrite ?Ej, ?Eb; try done.
  intros doc Hd. destruct (S1 doc Hd) as (n & ? & ?). exists n. split; [lia|done].
Qed.

Lemma sound_blind : blind sound.
Proof using. intros c s. by apply sound_ext. Qed.

Lemma junk_unique s doc1 doc2 :
  sound s → doc1 ∈ co_junk s → doc2 ∈ co_junk s → jd_ID doc1 = jd_ID doc2 → doc1 = doc2.
Proof using.
  intros [_ Hn _ _] [i Hi]%list_elem_of_lookup [j Hj]%list_elem_of_lookup E.
  assert (i = j) as ->; [|congruence]. apply (NoDup_lookup (jd_ID <$> co_junk s) i j (jd_ID doc1)); [done| |];
    rewrite list_lookup_fmap; [rewrite Hi|rewrite Hj]; cbn; congruence.
Qed.

(** *** Ingest *)

Lemma stored_ids docs n :
  jd_ID <$> imap (λ i doc, with_id (dp_new_id d (n + i)) doc) docs = dp_new_id d <$> seq n (length docs).
Proof using.
  revert n. induction docs as [|doc docs IH]; intros n; [done|]. cbn [imap length seq fmap list_fmap].
  f_equal; [cbn; by rewrite Nat.add_0_r|]. rewrite <- IH. f_equal. apply imap_ext. intros i x _.
  cbn. do 2 f_equal. lia.
Qed.

Lemma sound_stored docs s : sound s → sound (stored_docs d docs s).
Proof using ids.
  intros [S1 S2 S3 S4]. constructor; cbn [co_junk co_boosts co_nextID stored_docs set_nextID set_junk].
  - intros doc [Hd|Hd]%elem_of_app.
    + destruct (S1 doc Hd) as (n & ? & ?). exists n. split; [lia|done].
    + apply (list_elem_of_fmap_2 jd_ID) in Hd. rewrite stored_ids in Hd.
      apply list_elem_of_fmap in Hd as (n & En & Hn%elem_of_seq). exists n. split; [lia|done].
  - rewrite fmap_app. apply NoDup_app. split_and!; [done| |].
    + intros x (doc & -> & Hd)%list_elem_of_fmap. destruct (S1 doc Hd) as (n & Hlt & ->).
      rewrite stored_ids. intros (m & Em & Hm%elem_of_seq)%list_elem_of_fmap.
      apply ids in Em. lia.
    + rewrite stored_ids. apply NoDup_fmap_2; [done|apply NoDup_seq].
  - done.
  - intros b Hb. destruct (S4 b Hb) as (doc & Hd & ?). exists doc. split; [|done].
    apply elem_of_app. by left.
Qed.

(** *** Analysis *)

(** A row waits for its analysis; no boost is about it. *)
Lemma waiting_no_boost s doc :
  sound s → doc ∈ co_junk s → jd_Analysis doc = None → jd_ID doc ∉ bo_JunkID <$> co_boosts s.
Proof using.
  intros Hs Hd Ha (b & Eb & Hb)%list_elem_of_fmap.
  destruct (sd_from s Hs b Hb) as (doc' & Hd' & Ej & _ & _ & _ & a & Ha' & _).
  assert (doc' = doc) as -> by (apply (junk_unique s); congruence). congruence.
Qed.

Lemma sound_update s id f :
  (∀ doc, jd_ID (f doc) = jd_ID doc) →
  (∀ b doc, doc ∈ co_junk s → jd_ID doc = id → boost_of b doc → boost_of b (f doc)) →
  sound s → sound (set_junk (update_junk id f (co_junk s)) s).
Proof using.
  intros Hid Hb [S1 S2 S3 S4]. constructor; cbn [co_junk co_boosts co_nextID set_junk]; [| |done|].
  - intros doc Hd. apply update_junk_elem in Hd as [[Hd _]|(old & Ho & _ & ->)]; [by apply S1|].
    rewrite Hid. by apply S1.
  - by rewrite update_junk_ids.
  - intros b Hbin. destruct (S4 b Hbin) as (doc & Hd & Hof).
    destruct (decide (jd_ID doc = id)) as [E|Hn].
    + exists (f doc). split; [by apply update_junk_same|by apply Hb].
    + exists doc. split; [by apply update_junk_other|done].
Qed.

(** What the rest of the pass may rely on after one row. *)
Definition others_stay (s0 : Cold) (id : string) (s : Cold) : Prop :=
  ∀ doc, doc ∈ co_junk s0 → jd_ID doc ≠ id → doc ∈ co_junk s.

(** The row [doc] has been analysed. *)
Definition analyzed_as (doc : JunkDoc) (a : JunkAnalysis) (s : Cold) : Prop :=
  ∃ doc1, doc1 ∈ co_junk s ∧ jd_ID doc1 = jd_ID doc ∧ jd_Source doc1 = jd_Source doc
    ∧ jd_Snippet doc1 = jd_Snippet doc ∧ jd_ContactHint doc1 = jd_ContactHint doc
    ∧ jd_Analysis doc1 = Some a.

Lemma dedup_keeps s0 doc :
  keeps (λ s, sound s ∧ others_stay s0 (jd_ID doc) s) (processSemanticDedup cfg d doc).
Proof using.
  set (P := λ s, sound s ∧ others_stay s0 (jd_ID doc) s).
  assert (HP : blind P) by (intros c s [Hs Ho]; split; [by apply sound_blind|done]).
  unfold processSemanticDedup. keep.
  - intros s [Hs Ho]. split.
    + apply sound_update; [done| |done]. intros b x _ _ Hb. exact Hb.
    + intros x Hx Hn. cbn [co_junk set_junk]. apply update_junk_other; [by apply Ho|done].
  - intros s [Hs Ho]. split; [by eapply sound_ext; [..|exact Hs]|done].
Qed.

Lemma wp_attempt c f (Q : bool → Cold → Prop) X s :
  (let ok := dp_ok d (co_calls s) (c true) in
   let s1 := set_calls (co_calls s ++ [c ok]) s in Q ok (if ok then f s1 else s1)) →
  wp (attempt d c f) Q X s.
Proof using.
  intros HQ. unfold attempt, wp, seq_eff, get_state, record, modify, done. cbn.
  by destruct (dp_ok d (co_calls s) (c true)).
Qed.

(** A pass has no early exit. *)
Lemma cold_wp {A} P (m : Act A) s : keeps P m → P s → wp m (λ _, P) (λ _ _, True) s.
Proof using. intros Hm Hs. by apply (wp_mono m (λ _, P) _ (λ _, P)), keeps_wp. Qed.

Lemma wp_cold {A} P (m : Act A) : (∀ s, P s → wp m (λ _, P) (λ _ _, True) s) → keeps P m.
Proof using. intros Hm. apply wp_keeps. intros s Hs. by eapply wp_mono; [..|by apply Hm]. Qed.

Lemma false_negative_wp s0 doc r a s :
  sound s → others_stay s0 (jd_ID doc) s → analyzed_as doc a s →
  an_Category a = ai_Category r → an_Why a = ai_Why r → jd_ID doc ∉ bo_JunkID <$> co_boosts s →
  wp (processFalseNegative d doc r) (λ _ s, sound s ∧ others_stay s0 (jd_ID doc) s) (λ _ _, True) s.
Proof using.
  intros Hs Ho (doc1 & Hd1 & E1 & E2 & E3 & E4 & Ea) Ec Ew Hn. unfold processFalseNegative.
  destruct (_ || _) eqn:E; [by apply wp_done|]. apply orb_false_iff in E as [_ E].
  apply negb_false_iff, String.eqb_eq in E. apply wp_bind. unfold now. wp_run.
  apply wp_attempt. cbn zeta.
  destruct (dp_ok d _ _); apply wp_done; [|split; [by apply sound_blind|done]].
  split; [|done]. destruct Hs as [S1 S2 S3 S4].
  constructor; cbn [co_junk co_boosts co_nextID set_boosts set_calls]; [done|done| |].
  - rewrite fmap_app. apply NoDup_app. split_and!; [done| |apply NoDup_singleton].
    cbn [fmap list_fmap bo_JunkID]. intros x Hx ->%list_elem_of_singleton. by apply Hn.
  - intros b [Hb| ->%list_elem_of_singleton]%elem_of_app; [by apply S4|].
    exists doc1. split; [done|]. unfold boost_of. cbn [bo_JunkID bo_Source bo_Snippet bo_ContactHint bo_Why].
    split_and!; [done..|]. exists a. split_and!; [done|congruence|done].
Qed.

Lemma apply_result_wp t byID doc s :
  sound s → doc ∈ co_junk s → jd_Analysis doc = None →
  wp (apply_result cfg d t byID doc) (λ _ s', sound s' ∧ others_stay s (jd_ID doc) s') (λ _ _, True) s.
Proof using.
  intros Hs Hd Ha. unfold apply_result. destruct (byID !! jd_ID doc) as [r|];
    [|apply wp_done; split; [done|by intros x]].
  apply wp_bind, wp_attempt. cbn zeta. set (a := analysis_of t r).
  destruct (dp_ok d _ _); [|apply wp_done; split; [by apply sound_blind|by intros x]].
  set (s1 := set_calls _ s). apply wp_bind.
  eapply (wp_mono _ (λ _ s', sound s' ∧ others_stay s (jd_ID doc) s') _ (λ _ _, True)); [|done|].
  - intros u s' HQ. by apply (cold_wp _ _ _ (dedup_keeps s doc)).
  - eapply (false_negative_wp s doc r a).
    + apply sound_update; [done| |by apply sound_blind]. intros b x Hx Ex Hb.
      destruct Hb as (_ & _ & _ & _ & a' & Ha' & _). cbn [co_junk s1 set_calls] in Hx.
      assert (x = doc) as -> by by apply (junk_unique s). congruence.
    + intros x Hx Hn. by apply update_junk_other.
    + exists (with_analysis a doc). split; [by apply (update_junk_same _ (with_analysis a))|done].
    + done.
    + done.
    + exact (waiting_no_boost s doc Hs Hd Ha).
Qed.

(** The rows of a pass are distinct rows that wait. *)
Definition waiting (docs : list JunkDoc) (s : Cold) : Prop :=
  NoDup (jd_ID <$> docs) ∧ ∀ doc, doc ∈ docs → doc ∈ co_junk s ∧ jd_Analysis doc = None.

Lemma apply_results_wp t byID docs s :
  sound s → waiting docs s → wp (apply_results cfg d t byID docs) (λ _, sound) (λ _ _, True) s.
Proof using.
  revert s. induction docs as [|doc docs IH]; intros s Hs [Hn Hw]; [by apply wp_done|].
  cbn [apply_results]. apply wp_bind. destruct (Hw doc) as [Hd Ha]; [by left|].
  eapply wp_mono; [|done|by apply apply_result_wp]. intros u s' [Hs' Ho].
  cbn [fmap list_fmap] in Hn. apply NoDup_cons in Hn as [Hn1 Hn2]. apply IH; [done|].
  split; [done|]. intros x Hx. destruct (Hw x) as [Hx1 Hx2]; [by right|]. split; [|done].
  apply Ho; [done|]. intros E. apply Hn1. rewrite <- E. by apply list_elem_of_fmap_2.
Qed.

Lemma boosts_keep : keeps sound (runBoostWorker d).
Proof using.
  pose proof sound_blind as HP. unfold runBoostWorker. destruct (dp_crm d); [|keep].
  destruct (dp_registry d) as [reg|]; [|keep]. apply keeps_seq; [eauto with cold|].
  intros [docs|]; [|keep]. induction docs as [|b docs IH]; cbn [resolve_boosts]; [keep|].
  apply keeps_seq.
  - unfold classifyBoost. keep.
  - intros [[status hash] why]. apply keeps_seq; [|intros _; exact IH].
    unfold resolve_boost. keep. intros s [S1 S2 S3 S4].
    constructor; cbn [co_junk co_boosts co_nextID set_boosts]; [done|done|by rewrite resolve_first_keys|].
    intros x [Hx|(b0 & Hb0 & E0 & ->)]%resolve_first_elem; [by apply S4|].
    destruct (S4 b0 Hb0) as (doc & Hd & Hof). by exists doc.
Qed.

Lemma wp_query {A} what (f : Cold → A) (Q : option A → Cold → Prop) X s :
  (let ok := dp_ok d (co_calls s) (CallRead what true) in
   let s1 := set_calls (co_calls s ++ [CallRead what ok]) s in Q (if ok then Some (f s1) else None) s1) →
  wp (query d what f) Q X s.
Proof using.
  intros HQ. unfold query. apply wp_bind, wp_attempt. cbn zeta in *. apply wp_bind, wp_get.
  destruct (dp_ok d _ _); by apply wp_done.
Qed.

(** The rows a pass takes, and where they come from. *)
Lemma pass_docs_wp s :
  sound s →
  wp (pass_docs cfg d) (λ docs s', sound s' ∧ waiting (default [] docs) s') (λ _ _, True) s.
Proof using.
  intros Hs. unfold pass_docs. apply wp_bind, wp_query. cbn zeta.
  assert (Hnil : ∀ s, waiting [] s) by (intros s0; split; [constructor|by intros x Hx%not_elem_of_nil]).
  destruct (dp_ok d _ _); [|apply wp_done; split; [by apply sound_blind|apply Hnil]].
  set (s1 := set_calls _ s). assert (Hs1 : sound s1) by by apply sound_blind.
  destruct (pending_rows (co_junk s1) (cf_BatchSize cfg) ReasonHardRejectShadow (sd_nodup s1 Hs1))
    as [Hn Hp]; [done|]. set (docs := FindPendingAnalysisExcluding _ _ _) in *.
  assert (Hd : ∀ s', co_junk s' = co_junk s1 → waiting docs s')
    by (intros s' E; split; [done|]; intros x (? & ? & ?)%Hp; by rewrite E).
  destruct (_ <? _); [|apply wp_done; split; [done|by apply Hd]]. apply wp_bind.
  pose proof (λ b, cold_wp (λ s, sound s ∧ co_junk s = co_junk s1) (shadowAnalyzeBudget cfg d) s1 b
    (conj Hs1 eq_refl)) as Hb.
  assert (HP : blind (λ s, sound s ∧ co_junk s = co_junk s1))
    by (intros c s0 [? ?]; split; [by apply sound_blind|done]).
  eapply wp_mono; [|done|apply Hb; unfold shadowAnalyzeBudget; keep].
  intros budget s2 [Hs2 E2]. destruct (Z.ltb_spec 0 budget); [|apply wp_done; split; [done|by apply Hd]].
  apply wp_bind, wp_query. cbn zeta.
  destruct (dp_ok d _ _); apply wp_done; cbn [default from_option id];
    (split; [by apply sound_blind|]); [|rewrite app_nil_r; by apply Hd].
  set (s3 := set_calls _ s2). change (co_junk s3) with (co_junk s2).
  destruct (shadow_rows (co_junk s2) ReasonHardRejectShadow budget (sd_nodup s2 Hs2)) as (Hn' & Hp' & _); [done|].
  split.
  - rewrite fmap_app. apply NoDup_app. split_and!; [done| |done].
    intros x (x1 & -> & Hx1)%list_elem_of_fmap (x2 & Ex & Hx2)%list_elem_of_fmap.
    destruct (Hp x1 Hx1) as (J1 & _ & R1). destruct (Hp' x2 Hx2) as (J2 & _ & R2).
    rewrite E2 in J2. assert (x1 = x2) as -> by by apply (junk_unique s1). done.
  - intros x [Hx|Hx]%elem_of_app.
    + destruct (Hp x Hx) as (? & ? & _). split; [|done]. by change (x ∈ co_junk s2); rewrite E2.
    + by destruct (Hp' x Hx) as (? & ? & _).
Qed.

Lemma wp_ask {A} c (answer : list cold_call → A) (Q : A → Cold → Prop) X s :
  Q (answer (co_calls s)) (set_calls (co_calls s ++ [c]) s) → wp (ask c answer) Q X s.
Proof using. done. Qed.

Lemma analyze_keeps : keeps sound (runAnalyze cfg d).
Proof using.
  apply wp_cold. intros s Hs. unfold runAnalyze. apply wp_bind.
  eapply wp_mono; [|done|by apply pass_docs_wp]. intros docs s1 [Hs1 Hw].
  destruct docs as [[|doc docs]|]; [by apply wp_done| |by apply wp_done].
  cbn [default from_option id] in Hw. apply wp_bind, wp_ask.
  destruct (dp_analyze _ _ _) as [items|]; [|apply wp_done; by apply sound_blind].
  apply wp_bind. unfold now. wp_run. eapply wp_mono; [|done|apply apply_results_wp; [|exact Hw]].
  - intros u s2 Hs2. apply cold_wp; [apply boosts_keep|done].
  - by apply sound_blind.
Qed.

Lemma flush_keeps events : keeps sound (flush_events d events).
Proof using ids.
  pose proof sound_blind as HP. unfold flush_events. keep. intros s Hs. by apply sound_stored.
Qed.

Lemma cold_step_sound op : keeps sound (step visit cfg d op).
Proof using ids.
  pose proof sound_blind as HP. destruct op as [events| |]; cbn [step].
  - apply flush_keeps.
  - destruct (cf_AnalyzeEnabled cfg); [apply analyze_keeps|keep].
  - apply keeps_report; [done|..]; intros;
      match goal with Hs : sound ?s |- _ => apply (sound_ext s); cbn; [done|done|lia|done] end.
Qed.

(** C27. A false negative is boosted at most once. Over any passes of the loops, whatever fails
    and whatever the model answers, every boost was made from a stored row that the model called
    a false negative, with the source, the text and the contact hint of the row and the words of
    its analysis; no two boosts are about the same row, and no two rows share an identifier. *)
Theorem one_boost_per_row (t : Time) (ops : list cold_op) :
  let s := foldl (step_state visit cfg d) (NewService t) ops in
  NoDup (bo_JunkID <$> co_boosts s) ∧ NoDup (jd_ID <$> co_junk s)
  ∧ ∀ b, b ∈ co_boosts s → ∃ doc, doc ∈ co_junk s ∧ boost_of b doc.
Proof using ids.
  intros s. assert (Hs : sound s); [|by destruct Hs]. unfold s.
  assert (H1 : sound (NewService t)) by (constructor; cbn; try constructor; intros x Hx;
    by apply not_elem_of_nil in Hx).
  revert H1. generalize (NewService t) as s0. induction ops as [|op ops IH]; intros s0 Hs0; [done|].
  cbn [foldl]. apply IH. by apply cold_step_sound.
Qed.
End boosts.
