(* ===== verification/ColdProps.v ===== *)
(** What the cold path guarantees over any passes (ColdPath.v): the daily budget of shadow rows;
    that a boost of a captured post is never merged with a lead; that a suggestion is replaced by
    the next one. *)
From S2P Require Import Prelude Unicode GoStrings Utf8Facts TextFacts GoSort Matcher Registry.
From S2P Require Import Scoring Hashes.
From S2P Require Import Validate SourceRep Entity SourceRegistry ProxyBudget SourceDisable.
From S2P Require Import Discover Suggestions Effects Quota ColdPath ColdFacts.
From S2P Require Import CrawlFacts.

Local Open Scope Z_scope.
Local Open Scope eff_scope.

(** A finite set with all its members in a list. *)
Lemma listed_size (X : gset (string * string)) l : (∀ x, x ∈ X → x ∈ l) → (size X ≤ length l)%nat.
Proof.
  intros Hl. change (size X) with (length (elements X)).
  apply submseteq_length, NoDup_submseteq; [apply NoDup_elements|].
  intros x Hx. by apply Hl, elem_of_elements.
Qed.

(** One row changes: at most one more row passes the filter; none when the new row does not. *)
Lemma update_junk_count (f : JunkDoc → bool) id g junk :
  NoDup (jd_ID <$> junk) →
  (length (List.filter f (update_junk id g junk)) ≤ length (List.filter f junk) + 1)%nat.
Proof.
  unfold update_junk. induction junk as [|x junk IH]; intros Hn; [cbn; lia|].
  cbn [fmap list_fmap] in Hn. apply NoDup_cons in Hn as [Hx Hn].
  cbn [fmap list_fmap List.filter]. destruct (String.eqb_spec (jd_ID x) id) as [E|E].
  - rewrite (map_ext_in _ (λ y, y)), map_id.
    + destruct (f (g x)), (f x); cbn [length]; lia.
    + intros y Hy%list_elem_of_In. rewrite (proj2 (String.eqb_neq _ _)); [done|]. intros E'.
      apply Hx. rewrite E, <- E'. by apply list_elem_of_fmap_2.
  - specialize (IH Hn). destruct (f x); cbn [length]; lia.
Qed.

Lemma update_junk_count_same (f : JunkDoc → bool) id g junk :
  (∀ x, x ∈ junk → jd_ID x = id → f (g x) = true → f x = true) →
  (length (List.filter f (update_junk id g junk)) ≤ length (List.filter f junk))%nat.
Proof.
  unfold update_junk. induction junk as [|x junk IH]; intros Hg; [cbn; lia|].
  assert (IH' := IH (λ y Hy, Hg y (list_elem_of_further y x junk Hy))).
  cbn [fmap list_fmap List.filter]. destruct (String.eqb_spec (jd_ID x) id) as [E|E].
  - specialize (Hg x (list_elem_of_here x junk) E).
    destruct (f (g x)); [rewrite (Hg eq_refl); cbn [length]; lia|].
    destruct (f x); cbn [length]; lia.
  - destruct (f x); cbn [length]; lia.
Qed.

Section props.
Context `{Sorter} `{TimeLib} (visit : gmap string OutcomeDorkRow → list (string * OutcomeDorkRow)).
Context (cfg : Config) (d : Deps) (ids : Inj (=) (=) (dp_new_id d)).

Abbreviation run_passes t ops := (foldl (step_state visit cfg d) (NewService t) ops).

Lemma passes_keep P t ops :
  (∀ op, op ∈ ops → keeps P (step visit cfg d op)) → P (NewService t) → P (run_passes t ops).
Proof using.
  generalize (NewService t) as s. induction ops as [|op ops IH]; intros s Hk Hs; [done|].
  cbn [foldl]. apply IH; [|by apply Hk; [left|]]. intros op' Ho. apply Hk. by right.
Qed.

(** ** Passes of the analysis *)

(** An analysis leaves alone what does not depend on rows, boosts and vectors. *)
Lemma keeps_boost_worker P :
  blind P → (∀ l s, P s → P (set_boosts l s)) → keeps P (runBoostWorker d).
Proof using.
  intros HP Hb. unfold runBoostWorker. destruct (dp_crm d); [|keep].
  destruct (dp_registry d) as [reg|]; [|keep]. apply keeps_seq; [eauto with cold|].
  intros [docs|]; [|keep]. induction docs as [|b docs IH]; cbn [resolve_boosts]; [keep|].
  unfold classifyBoost, resolve_boost. keep; auto.
Qed.

Lemma keeps_analyze P :
  blind P → (∀ l s, P s → P (set_junk l s)) → (∀ l s, P s → P (set_boosts l s)) →
  (∀ l s, P s → P (set_embed l s)) → keeps P (runAnalyze cfg d).
Proof using.
  intros HP Hj Hb He. pose proof (keeps_boost_worker P HP Hb).
  assert (∀ t byID docs, keeps P (apply_results cfg d t byID docs)).
  { intros t byID docs. induction docs as [|doc docs IH]; cbn [apply_results]; [keep|].
    unfold apply_result, processFalseNegative, processSemanticDedup. keep; auto. }
  unfold runAnalyze, pass_docs, shadowAnalyzeBudget. keep; auto.
Qed.

(** ** Suggestions *)

(** The reports have the identifiers given so far, and only three files are written. *)
Definition filed (s : Cold) : Prop :=
  (∀ r, r ∈ co_reports s → ∃ n, (n < co_nextID s)%nat ∧ rp_ID r = dp_new_id d n)
  ∧ NoDup (rp_ID <$> co_reports s)
  ∧ ∀ file, is_Some (co_files s !! file) → file ∈ suggestion_files cfg.

Lemma filed_ext s s' :
  co_reports s' = co_reports s → co_files s' = co_files s → (co_nextID s ≤ co_nextID s')%nat →
  filed s → filed s'.
Proof using.
  intros E1 E2 E3 (P1 & P2 & P3). unfold filed. rewrite E1, E2. split_and!; [|done|done].
  intros r Hr. destruct (P1 r Hr) as (n & ? & ?). exists n. split; [lia|done].
Qed.

Lemma filed_report s r :
  filed s → filed (set_nextID (co_nextID s + 1)
    (set_reports (co_reports s ++ [with_report_id (dp_new_id d (co_nextID s)) r]) s)).
Proof using ids.
  intros (P1 & P2 & P3). unfold filed. cbn [co_reports co_files co_nextID set_nextID set_reports].
  split_and!; [|rewrite fmap_app; apply NoDup_app; split_and!; [done| |apply NoDup_singleton]|done].
  - intros r0 [Hr| ->%list_elem_of_singleton]%elem_of_app.
    + destruct (P1 r0 Hr) as (n & ? & ?). exists n. split; [lia|done].
    + exists (co_nextID s). split; [lia|done].
  - intros x (r0 & -> & Hr)%list_elem_of_fmap Hx%list_elem_of_singleton.
    destruct (P1 r0 Hr) as (n & Hlt & E). rewrite E in Hx. apply ids in Hx. lia.
Qed.

Lemma step_filed op : keeps filed (step visit cfg d op).
Proof using ids.
  assert (HP : blind filed) by (intros c s; by apply filed_ext).
  destruct op as [events| |]; cbn [step].
  - unfold flush_events. keep. intros s0. apply filed_ext; cbn; [done|done|lia].
  - assert (keeps filed (runAnalyze cfg d)) by (apply keeps_analyze; [done|..]; intros l s0; by apply filed_ext).
    keep.
  - apply keeps_report; [done|..].
    + intros s r. apply filed_report.
    + intros s file v Hf (P1 & P2 & P3). split_and!; [done|done|]. cbn [co_files set_files].
      intros f Hs. destruct (decide (f = file)) as [->|Hn]; [done|].
      apply P3. by rewrite lookup_insert_ne in Hs.
    + intros s r. by apply filed_ext.
    + intros s n. by apply filed_ext.
    + intros s t. by apply filed_ext.
Qed.

(** A suggestion does not outlive the next report. The identifier in the name of the file is
    that of the report before it is stored, which is always the zero one: whatever the passes,
    the reports of the store have distinct identifiers, yet there are at most three files, one
    for keywords, one for queries and one for the pain vocabulary, and a suggestion that waits
    for its review is replaced by the next of its kind. *)
Theorem suggestions_overwritten (t : Time) (ops : list cold_op) :
  let s := run_passes t ops in
  NoDup (rp_ID <$> co_reports s)
  ∧ (∀ file, is_Some (co_files s !! file) → file ∈ suggestion_files cfg)
  ∧ (size (co_files s) ≤ 3)%nat.
Proof using ids.
  intros s. assert (Hs : filed s).
  { apply passes_keep; [intros op _; apply step_filed|]. split_and!; cbn.
    - by intros r Hr%not_elem_of_nil.
    - constructor.
    - intros file [v Hv]. by rewrite lookup_empty in Hv. }
  destruct Hs as (_ & H1 & H2). split_and!; [done|done|].
  rewrite <- size_dom. change 3%nat with (length (suggestion_files cfg)).
  apply listed_size. intros file Hf%elem_of_dom. by apply H2.
Qed.

(** ** The daily budget of shadow rows *)

Definition is_shadow (doc : JunkDoc) : bool := String.eqb (jd_Reason doc) ReasonHardRejectShadow.

(** The row was analysed on the day [k]. *)
Definition analysed_on (k : Z) (doc : JunkDoc) : bool :=
  match jd_Analysis doc with Some a => an_AnalyzedAt a `div` one_day =? k | None => false end.

Definition shadow_on (k : Z) (doc : JunkDoc) : bool := is_shadow doc && analysed_on k doc.

(** The shadow rows analysed on the day [k]. *)
Definition used (k : Z) (s : Cold) : Z := Z.of_nat (length (List.filter (shadow_on k) (co_junk s))).
Definition shadow_rows_of (docs : list JunkDoc) : Z := Z.of_nat (length (List.filter is_shadow docs)).

Definition clock_runs : Prop := ∀ calls c, dp_now d calls ≤ dp_now d (calls ++ [c]).
Definition count_answers : Prop := ∀ calls, dp_ok d calls (CallRead "count_shadow" true) = true.

(** No analysis is later than [t]; none is later than the clock. *)
Definition before (t : Time) (s : Cold) : Prop :=
  ∀ doc a, doc ∈ co_junk s → jd_Analysis doc = Some a → an_AnalyzedAt a ≤ t.
Definition clocked (s : Cold) : Prop := before (dp_now d (co_calls s)) s.

Definition cap : Z := Z.max 0 (cf_HardRejectShadowDailyCap cfg).

(** [n] more shadow rows may be analysed at the instant [t]. *)
Definition room (t : Time) (n : Z) (s : Cold) : Prop :=
  ∀ k, used k s + (if t `div` one_day =? k then n else 0) ≤ cap.

Lemma used_later t k s : before t s → t `div` one_day < k → used k s = 0.
Proof using.
  intros Hb Hk. unfold used. rewrite (filter_none (shadow_on k)); [done|]. intros doc Hd.
  unfold shadow_on, analysed_on. destruct (jd_Analysis doc) as [a|] eqn:Ea; [|by rewrite andb_false_r].
  specialize (Hb doc a Hd Ea). apply andb_false_intro2, Z.eqb_neq.
  pose proof (Z.div_le_mono (an_AnalyzedAt a) t one_day ltac:(done) Hb). lia.
Qed.

(** The rows counted since midnight are those of the day. *)
Lemma count_is_used t s :
  before t s →
  CountAnalyzedByReasonSince (co_junk s) ReasonHardRejectShadow (t `div` one_day * one_day)
  = used (t `div` one_day) s.
Proof using.
  intros Hb. unfold CountAnalyzedByReasonSince, used. cbn [String.eqb]. do 2 f_equal.
  apply filter_ext_in. intros doc Hd%list_elem_of_In. unfold analyzed_since, shadow_on, analysed_on. f_equal.
  destruct (jd_Analysis doc) as [a|] eqn:Ea; [|done]. specialize (Hb doc a Hd Ea).
  apply eq_bool_prop_intro. rewrite !Is_true_true, Z.leb_le, Z.eqb_eq.
  assert (0 < one_day) by done. split; intros Hx.
  - apply Z.le_antisymm; [by apply Z.div_le_mono|]. apply Z.div_le_lower_bound; lia.
  - rewrite <- Hx. pose proof (Z.mul_div_le (an_AnalyzedAt a) one_day ltac:(done)). lia.
Qed.

Section budget.
Context (runs : clock_runs) (answers : count_answers).

Definition within (s : Cold) : Prop := clocked s ∧ ∀ k, used k s ≤ cap.

Lemma room_within t n s : 0 ≤ n → clocked s → room t n s → within s.
Proof using.
  intros Hn Hc Hr. split; [done|]. intros k. specialize (Hr k). destruct (t `div` one_day =? k); lia.
Qed.

Lemma before_call t c s : before t s → before t (set_calls (co_calls s ++ [c]) s).
Proof using. exact id. Qed.

Lemma clocked_blind : blind clocked.
Proof using runs. intros c s Hs doc a Hd Ha. specialize (Hs doc a Hd Ha). cbn. specialize (runs (co_calls s) c). lia. Qed.

Lemma within_blind : blind within.
Proof using runs. intros c s [H1 H2]. split; [by apply clocked_blind|done]. Qed.

(** The budget read at an instant holds at any later one. *)
Lemma budget_room t0 t s :
  before t0 s → (∀ k, used k s ≤ cap) → t0 ≤ t →
  room t (Z.max 0 (cf_HardRejectShadowDailyCap cfg - used (t0 `div` one_day) s)) s.
Proof using.
  intros Hb Hu Ht k. specialize (Hu k). destruct (Z.eqb_spec (t `div` one_day) k) as [<-|]; [|lia].
  pose proof (Z.div_le_mono t0 t one_day ltac:(done) Ht) as Hd. unfold cap in *.
  destruct (decide (t0 `div` one_day = t `div` one_day)) as [E|Hn]; [rewrite E; lia|].
  rewrite (used_later t0 (t `div` one_day) s) by (done || lia).
  assert (0 ≤ used (t0 `div` one_day) s) by (unfold used; lia). lia.
Qed.

Lemma shadow_rows_app l1 l2 : shadow_rows_of (l1 ++ l2) = shadow_rows_of l1 + shadow_rows_of l2.
Proof using. unfold shadow_rows_of. rewrite List.filter_app, length_app. lia. Qed.

Lemma shadow_rows_le l : shadow_rows_of l ≤ Z.of_nat (length l).
Proof using. unfold shadow_rows_of. pose proof (List.filter_length_le is_shadow l). lia. Qed.

Lemma room_0 t s : (∀ k, used k s ≤ cap) → room t 0 s.
Proof using. intros Hu k. specialize (Hu k). destruct (t `div` one_day =? k); lia. Qed.

Lemma room_le t n m s : room t n s → m ≤ n → room t m s.
Proof using. intros Hr Hm k. specialize (Hr k). destruct (t `div` one_day =? k); lia. Qed.

(** The shadow rows of a pass fit in what is left of the day in which they are analysed. *)
Lemma pass_docs_room s :
  sound d s → within s →
  wp (pass_docs cfg d)
     (λ docs s', clocked s' ∧ ∀ t, dp_now d (co_calls s') ≤ t → room t (shadow_rows_of (default [] docs)) s')
     (λ _ _, True) s.
Proof using runs answers.
  intros Hs Hw. unfold pass_docs. apply wp_bind, wp_query. cbn zeta.
  set (s1 := set_calls _ s). assert (Hw1 : within s1) by by apply within_blind.
  assert (Hok : ∀ docs s', within s' → shadow_rows_of docs = 0 →
    clocked s' ∧ ∀ t, dp_now d (co_calls s') ≤ t → room t (shadow_rows_of docs) s').
  { intros docs s' [Hc Hu] ->. split; [done|]. intros t _. by apply room_0. }
  destruct (dp_ok d _ _); [|apply wp_done; by apply (Hok [])].
  change (co_junk s1) with (co_junk s).
  destruct (pending_rows (co_junk s) (cf_BatchSize cfg) ReasonHardRejectShadow (sd_nodup d s Hs))
    as [_ Hp]; [done|]. set (docs := FindPendingAnalysisExcluding _ _ _) in *.
  assert (Hd0 : shadow_rows_of docs = 0).
  { unfold shadow_rows_of. rewrite filter_none; [done|]. intros x (_ & _ & Hx)%Hp.
    by apply String.eqb_neq. }
  destruct (_ <? _); [|apply wp_done; by apply Hok]. apply wp_bind. unfold shadowAnalyzeBudget.
  destruct (Z.leb_spec (cf_HardRejectShadowDailyCap cfg) 0); [apply wp_done, wp_done; by apply Hok|].
  apply wp_bind. unfold now. wp_run. apply wp_query. cbn zeta.
  rewrite answers. set (t0 := dp_now d (co_calls s1)).
  rewrite count_is_used by (by apply before_call, Hw1).
  set (s2 := set_calls _ s1). assert (Hw2 : within s2) by by apply within_blind.
  apply wp_done. set (budget := if _ <? 0 then 0 else _).
  assert (Hbud : budget = Z.max 0 (cf_HardRejectShadowDailyCap cfg - used (t0 `div` one_day) s1)).
  { unfold budget. change (used (t0 `div` one_day) s2) with (used (t0 `div` one_day) s1).
    destruct (Z.ltb_spec (cf_HardRejectShadowDailyCap cfg - used (t0 `div` one_day) s1) 0); lia. }
  destruct (Z.ltb_spec 0 budget); [|apply wp_done; by apply Hok]. apply wp_bind, wp_query. cbn zeta.
  set (s3 := set_calls _ s2). assert (Hw3 : within s3) by by apply within_blind.
  destruct (dp_ok d _ _); apply wp_done; cbn [default from_option id];
    [|rewrite app_nil_r; by apply Hok].
  split; [by apply Hw3|]. intros t Ht.
  destruct (shadow_rows (co_junk s3) ReasonHardRejectShadow budget (sd_nodup d s Hs)) as (_ & _ & Hl); [done|].
  rewrite shadow_rows_app, Hd0. eapply room_le; [|etrans; [apply shadow_rows_le|apply Hl]].
  rewrite Hbud. change (room t (Z.max 0 (cf_HardRejectShadowDailyCap cfg - used (t0 `div` one_day) s3)) s3).
  apply (budget_room t0); [apply Hw1|apply Hw1|].
  etrans; [|exact Ht]. transitivity (dp_now d (co_calls s2)); apply runs.
Qed.

(** What the rows still to come rely on: the clock has reached [t] and [n] more fit in the day. *)
Definition pacing (t : Time) (n : Z) (s : Cold) : Prop :=
  clocked s ∧ t ≤ dp_now d (co_calls s) ∧ room t n s.

Lemma pacing_blind t n : blind (pacing t n).
Proof using runs.
  intros c s (H1 & H2 & H3). split_and!; [by apply clocked_blind| |done].
  cbn. specialize (runs (co_calls s) c). lia.
Qed.

Lemma pacing_ext t n s s' :
  co_junk s' = co_junk s → co_calls s' = co_calls s → pacing t n s → pacing t n s'.
Proof using. intros Ej Ec. unfold pacing, clocked, before, room, used. by rewrite Ej, Ec. Qed.

(** A mark of a duplicate leaves the analyses as they are. *)
Lemma pacing_dup t n id key s :
  pacing t n s → pacing t n (set_junk (update_junk id (with_dup key) (co_junk s)) s).
Proof using.
  intros (Hc & Ht & Hr). split_and!; [|done|].
  - intros doc a [[Hd _]|(old & Ho & _ & ->)]%update_junk_elem Ea; [by apply (Hc doc)|by apply (Hc old)].
  - intros k. specialize (Hr k). unfold used in *. cbn [co_junk set_junk].
    pose proof (update_junk_count_same (shadow_on k) id (with_dup key) (co_junk s) (λ x _ _ E, E)). lia.
Qed.

(** An analysis counts for the day when it is one of a shadow row. *)
Lemma pacing_analysis t n doc r s :
  sound d s → doc ∈ co_junk s → pacing t ((if is_shadow doc then 1 else 0) + n) s →
  pacing t n (set_junk (update_junk (jd_ID doc) (with_analysis (analysis_of t r)) (co_junk s)) s).
Proof using.
  intros Hs Hd (Hc & Ht & Hr). split_and!; [|done|].
  - intros x a [[Hx _]|(old & Ho & _ & ->)]%update_junk_elem Ea; [by apply (Hc x)|].
    by injection Ea as <-.
  - intros k. specialize (Hr k). unfold used in *. cbn [co_junk set_junk].
    pose proof (update_junk_count (shadow_on k) (jd_ID doc) (with_analysis (analysis_of t r))
      (co_junk s) (sd_nodup d s Hs)) as H1.
    pose proof (update_junk_count_same (shadow_on k) (jd_ID doc) (with_analysis (analysis_of t r))
      (co_junk s)) as H2.
    destruct (Z.eqb_spec (t `div` one_day) k) as [E|E].
    + destruct (is_shadow doc) eqn:Ed; [lia|]. cut (Z.of_nat (length (List.filter (shadow_on k)
        (update_junk (jd_ID doc) (with_analysis (analysis_of t r)) (co_junk s))))
        ≤ Z.of_nat (length (List.filter (shadow_on k) (co_junk s)))); [lia|]. apply inj_le, H2.
      intros x Hx Ex Hf. assert (x = doc) as -> by by apply (junk_unique d s).
      unfold shadow_on in Hf. change (is_shadow (with_analysis _ doc)) with (is_shadow doc) in Hf.
      by rewrite Ed in Hf.
    + rewrite Z.add_0_r in *. etrans; [apply inj_le, H2|exact Hr].
      intros x Hx Ex Hf. unfold shadow_on, analysed_on in Hf. cbn in Hf.
      apply andb_true_iff in Hf as [_ Hf%Z.eqb_eq]. done.
Qed.

Lemma apply_result_paces t byID doc n s :
  sound d s → doc ∈ co_junk s → 0 ≤ n → pacing t ((if is_shadow doc then 1 else 0) + n) s →
  wp (apply_result cfg d t byID doc) (λ _, pacing t n) (λ _ _, True) s.
Proof using runs.
  intros Hs Hd Hn Hp. pose proof (pacing_blind t n) as HP. unfold apply_result.
  assert (Hp' : pacing t n s).
  { destruct Hp as (? & ? & Hr). split_and!; [done|done|]. eapply room_le; [done|]. destruct (is_shadow doc); lia. }
  destruct (byID !! jd_ID doc) as [r|]; [|by apply wp_done].
  apply wp_bind, wp_attempt. cbn zeta.
  destruct (dp_ok d _ _); [|apply wp_done; by apply HP].
  apply cold_wp.
  - unfold processFalseNegative, processSemanticDedup. keep;
      intros s0; (by apply pacing_ext) || apply pacing_dup.
  - apply pacing_analysis; [by apply sound_blind|done|]. by apply pacing_blind.
Qed.

Lemma apply_results_pace t byID docs s :
  sound d s → waiting docs s → pacing t (shadow_rows_of docs) s →
  wp (apply_results cfg d t byID docs) (λ _, within) (λ _ _, True) s.
Proof using runs.
  revert s. induction docs as [|doc docs IH]; intros s Hs [Hn Hw] Hp.
  { apply wp_done. destruct Hp as (? & _ & Hr). by apply (room_within t 0). }
  cbn [apply_results]. apply wp_bind. destruct (Hw doc) as [Hd Ha]; [by left|].
  eapply wp_mono; [|intros; exact I|apply wp_and; [by apply apply_result_wp|]].
  - intros u s' [[Hs' Ho] Hp']. cbn [fmap list_fmap] in Hn. apply NoDup_cons in Hn as [Hn1 Hn2].
    apply IH; [done| |exact Hp']. split; [done|]. intros x Hx. destruct (Hw x) as [Hx1 Hx2]; [by right|].
    split; [|done]. apply Ho; [done|]. intros E. apply Hn1. rewrite <- E. by apply list_elem_of_fmap_2.
  - apply apply_result_paces; [done|done|unfold shadow_rows_of; lia|]. revert Hp. unfold shadow_rows_of.
    cbn [List.filter]. destruct (is_shadow doc); cbn [length]; [|done].
    by rewrite Nat2Z.inj_succ, <- Z.add_1_l.
Qed.

Lemma within_ext s s' : co_junk s' = co_junk s → co_calls s' = co_calls s → within s → within s'.
Proof using. intros Ej Ec. unfold within, clocked, before, used. by rewrite Ej, Ec. Qed.

Lemma analyze_paces : keeps (λ s, sound d s ∧ within s) (runAnalyze cfg d).
Proof using runs answers ids.
  intros s [Hs Hw]. split; [by apply analyze_keeps|].
  enough (wp (runAnalyze cfg d) (λ _, within) (λ _ _, True) s) as Hr.
  { unfold wp in Hr. by destruct (runAnalyze cfg d s) as [[a|[]] s']. }
  unfold runAnalyze. apply wp_bind.
  eapply wp_mono; [|intros; exact I|apply wp_and; [by apply pass_docs_wp|by apply pass_docs_room]].
  intros docs s1 [[Hs1 Hd] [Hc Hr]].
  assert (Hw1 : within s1).
  { apply (room_within (dp_now d (co_calls s1)) (shadow_rows_of (default [] docs))); [unfold shadow_rows_of; lia|done|auto with zarith]. }
  destruct docs as [[|doc docs]|]; [by apply wp_done| |by apply wp_done].
  cbn [default from_option id] in Hd, Hr. apply wp_bind, wp_ask.
  destruct (dp_analyze _ _ _) as [items|]; [|apply wp_done; by apply within_blind].
  apply wp_bind. unfold now. wp_run. eapply wp_mono; [|done|apply apply_results_pace; [|exact Hd|]].
  - intros u s2 Hs2. apply cold_wp; [|done]. apply keeps_boost_worker; [apply within_blind|].
    intros l s3. by apply within_ext.
  - by apply sound_blind.
  - cbn [co_calls set_calls]. split_and!; [by apply clocked_blind|done|]. apply Hr. apply runs.
Qed.

Lemma stored_analysis docs t n doc :
  doc ∈ imap (λ i doc, with_id (dp_new_id d (n + i)) doc) (JunkDocFromEvent t <$> docs) →
  jd_Analysis doc = None ∧ ∃ ev, ev ∈ docs ∧ jd_ContactHint doc = ev_ContactHint ev.
Proof using.
  intros (i & x & -> & Hx)%elem_of_lookup_imap. apply list_lookup_fmap_Some in Hx as (ev & -> & Hev).
  split; [done|]. exists ev. by apply list_elem_of_lookup_2 in Hev.
Qed.

Lemma within_stored docs t s : within s → within (stored_docs d (JunkDocFromEvent t <$> docs) s).
Proof using.
  intros [Hc Hu]. split.
  - intros doc a Hd Ea. cbn [co_junk stored_docs set_nextID set_junk] in Hd.
    apply elem_of_app in Hd as [Hd|Hd]; [by apply (Hc doc)|].
    apply stored_analysis in Hd as [E _]. congruence.
  - intros k. specialize (Hu k). unfold used in *. cbn [co_junk stored_docs set_nextID set_junk].
    rewrite List.filter_app, (filter_none (shadow_on k) (imap _ _)), app_nil_r; [done|].
    intros doc [E _]%stored_analysis. unfold shadow_on, analysed_on. by rewrite E, andb_false_r.
Qed.

Lemma step_paces op : keeps (λ s, sound d s ∧ within s) (step visit cfg d op).
Proof using runs answers ids.
  assert (HP : blind (λ s, sound d s ∧ within s))
    by (intros c s [? ?]; split; [by apply sound_blind|by apply within_blind]).
  destruct op as [events| |]; cbn [step].
  - unfold flush_events. keep. intros s0 [? ?]. split; [by apply sound_stored|by apply within_stored].
  - destruct (cf_AnalyzeEnabled cfg); [apply analyze_paces|keep].
  - intros s [Hs Hw]. split; [by apply (cold_step_sound visit cfg d ids OpReport)|].
    apply (keeps_report visit cfg d within within_blind); [..|exact Hw]; intros;
      match goal with Hx : within ?s0 |- _ => by apply (within_ext s0) end.
Qed.

(** C28. The daily budget of shadow rows holds. As long as the clock does not run backwards and
    the rows already analysed can be counted, whatever else fails and whatever the model
    answers, over any passes no UTC day sees the analysis of more rows of [hard_reject_shadow]
    than the cap of the configuration. *)
Theorem shadow_cap_holds (t : Time) (ops : list cold_op) (k : Z) :
  used k (run_passes t ops) ≤ cap.
Proof using runs answers ids.
  assert (sound d (run_passes t ops) ∧ within (run_passes t ops)) as (_ & _ & Hu); [|done].
  apply (passes_keep (λ s, sound d s ∧ within s)); [intros op _; apply step_paces|].
  assert (∀ x, x ∉ co_junk (NewService t)) by (intros x; apply not_elem_of_nil).
  split; [constructor; cbn; try constructor; intros x Hx; by apply not_elem_of_nil in Hx|].
  split; [intros doc a Hd; by apply not_elem_of_nil in Hd|]. intros k'. unfold used, cap. cbn. lia.
Qed.
End budget.

(** ** Boosts and the contacts of leads *)

(** A hint is missing or masked. *)
Definition hidden (hint : string) : Prop := hint = estr ∨ Contains hint "***" = true.

Lemma stars s t : Contains (s +:+ "***" +:+ t) "***" = true.
Proof using. rewrite Contains_spec. by exists s, t. Qed.

Lemma masked_hidden v : hidden (maskContactHint v).
Proof using.
  unfold hidden, maskContactHint, maskEmail. destruct (String.eqb _ _); [by left|right].
  destruct (Contains (ToLower _) "@").
  - destruct (LastIndex _ _) as [[|n]|]; [done| |done]. destruct (Nat.eqb _ _); [exact (stars estr (String "@" _))|exact (stars _ (String "@" _))].
  - destruct (HasPrefix _ _); destruct (Nat.leb _ _); try done; by rewrite <- (app_nil_r_s "***"), stars.
Qed.

(** The contacts of leads are looked up by their value, and no contact is masked. *)
Definition contacts_not_masked : Prop :=
  ∀ find calls value hash,
    dp_leads d = Some find → Contains value "***" = true → find calls value = Some hash → hash = estr.

(** The events come out of the queue of the capturer. *)
Definition captured (op : cold_op) : Prop :=
  match op with
  | OpFlush events => ∀ ev, ev ∈ events → ∃ t ev0, ev = prepareEvent t ev0
  | _ => True
  end.

(** Hints are hidden, and no boost is merged. *)
Definition apart (s : Cold) : Prop :=
  (∀ doc, doc ∈ co_junk s → hidden (jd_ContactHint doc))
  ∧ ∀ b, b ∈ co_boosts s → hidden (bo_ContactHint b) ∧ bo_Status b ≠ CrmBoostMerged ∧ bo_LeadHashID b = estr.

Lemma apart_ext s s' : co_junk s' = co_junk s → co_boosts s' = co_boosts s → apart s → apart s'.
Proof using. intros Ej Eb. unfold apart. by rewrite Ej, Eb. Qed.

Lemma apart_blind : blind apart.
Proof using. intros c s. by apply apart_ext. Qed.

Lemma apart_update id f s :
  (∀ doc, jd_ContactHint (f doc) = jd_ContactHint doc) →
  apart s → apart (set_junk (update_junk id f (co_junk s)) s).
Proof using.
  intros Hf [H1 H2]. split; [|done].
  intros doc [[Hd _]|(old & Ho & _ & ->)]%update_junk_elem; [by apply H1|]. rewrite Hf. by apply H1.
Qed.

Lemma apart_results t byID docs :
  (∀ doc, doc ∈ docs → hidden (jd_ContactHint doc)) → keeps apart (apply_results cfg d t byID docs).
Proof using.
  pose proof apart_blind as HP. induction docs as [|doc docs IH]; intros Hh; cbn [apply_results]; [keep|].
  apply keeps_seq; [|intros _; apply IH; intros x Hx; apply Hh; by right].
  assert (Hdoc := Hh doc (list_elem_of_here doc docs)). unfold apply_result, processFalseNegative, processSemanticDedup.
  keep; intros s; try (by apply apart_update); try (by apply apart_ext).
  intros [H1 H2]. split; [done|].
  intros b [Hb| ->%list_elem_of_singleton]%elem_of_app; [by apply H2|]. by split_and!.
Qed.

Section apart.
Context (unmasked : contacts_not_masked).

(** What the worker makes of a boost whose hint is hidden. *)
Lemma classify_apart reg b s :
  hidden (bo_ContactHint b) →
  wp (classifyBoost d reg b)
     (λ r s', co_boosts s' = co_boosts s ∧ co_junk s' = co_junk s
              ∧ r.1.1 ≠ CrmBoostMerged ∧ r.1.2 = estr) (λ _ _, True) s.
Proof using unmasked.
  intros Hh. unfold classifyBoost. destruct (Registry.HardReject _ _); [by apply wp_done|].
  destruct (_ <? _); [by apply wp_done|]. destruct (dp_leads d) as [find|] eqn:El; [|by apply wp_done].
  destruct (String.eqb_spec (bo_ContactHint b) estr) as [|Hn]; [by apply wp_done|].
  destruct Hh as [|Hc]; [done|]. apply wp_bind, wp_ask.
  destruct (find _ _) as [hash|] eqn:Ef; [|by apply wp_done].
  apply (unmasked find _ _ _ El Hc) in Ef as ->. by apply wp_done.
Qed.

Lemma apart_boosts : keeps apart (runBoostWorker d).
Proof using unmasked.
  pose proof apart_blind as HP. apply wp_cold. intros s Hs. unfold runBoostWorker.
  destruct (dp_crm d); [|by apply wp_done]. destruct (dp_registry d) as [reg|]; [|by apply wp_done].
  apply wp_bind, wp_query. cbn zeta. set (s1 := set_calls _ s).
  assert (Hs1 : apart s1) by by apply HP. destruct (dp_ok d _ _); [|by apply wp_done].
  assert (Hd : ∀ b, b ∈ boosts_pending (co_boosts s1) 20 → hidden (bo_ContactHint b)).
  { intros b Hb%limited_elem. apply sort_slice_elem, list_elem_of_In, filter_In in Hb as [Hb _].
    by apply Hs1, list_elem_of_In. }
  revert Hd Hs1. generalize (boosts_pending (co_boosts s1) 20) as docs. generalize s1 as s0. clear - unmasked.
  intros s0 docs. revert s0. induction docs as [|b docs IH]; intros s0 Hd Hs; cbn [resolve_boosts]; [by apply wp_done|].
  apply wp_bind. eapply wp_mono; [|done|apply (classify_apart reg b s0), Hd; by left].
  intros [[status hash] why] s1 (Eb & Ej & Hm & Eh). cbn [fst snd] in Hm, Eh. subst hash.
  assert (Hs1 : apart s1) by by apply (apart_ext s0). apply wp_bind.
  eapply wp_mono; [|done|apply (cold_wp apart); [|exact Hs1]].
  - intros u s2 Hs2. apply IH; [|done]. intros x Hx. apply Hd. by right.
  - pose proof apart_blind as HP. unfold resolve_boost. keep. intros s2 [H1 H2]. split; [done|].
    intros x [Hx|(b0 & Hb0 & _ & ->)]%resolve_first_elem; [by apply H2|].
    destruct (H2 b0 Hb0) as (? & ? & ?). cbn [bo_ContactHint bo_Status bo_LeadHashID resolved]. by split_and!.
Qed.

Lemma apart_analyze : keeps (λ s, sound d s ∧ apart s) (runAnalyze cfg d).
Proof using unmasked ids.
  intros s [Hs Ha]. split; [by apply analyze_keeps|]. pose proof apart_blind as HP.
  enough (wp (runAnalyze cfg d) (λ _, apart) (λ _ _, True) s) as Hr.
  { unfold wp in Hr. by destruct (runAnalyze cfg d s) as [[a|[]] s']. }
  unfold runAnalyze. apply wp_bind.
  eapply wp_mono; [|intros; exact I|apply wp_and; [by apply pass_docs_wp|]]; last first.
  { apply (cold_wp apart); [|done]. unfold pass_docs, shadowAnalyzeBudget. keep. }
  intros docs s1 [[Hs1 [_ Hd]] Ha1].
  destruct docs as [[|doc docs]|]; [by apply wp_done| |by apply wp_done].
  cbn [default from_option id] in Hd. apply (cold_wp apart); [|done].
  assert (Hh : ∀ x, x ∈ doc :: docs → hidden (jd_ContactHint x)) by (intros x Hx; by apply Ha1, Hd).
  pose proof apart_boosts. pose proof (λ t byID, apart_results t byID (doc :: docs) Hh). keep.
Qed.

Lemma step_apart op : captured op → keeps (λ s, sound d s ∧ apart s) (step visit cfg d op).
Proof using unmasked ids.
  intros Hc. assert (HP : blind (λ s, sound d s ∧ apart s))
    by (intros c s [? ?]; split; [by apply sound_blind|by apply apart_blind]).
  destruct op as [events| |]; cbn [step].
  - unfold flush_events. keep; intros s0 [? [H1 H2]]; (split; [by apply sound_stored|split; [|done]]).
    intros doc [Hd|Hd]%elem_of_app; [by apply H1|].
    apply stored_analysis in Hd as (_ & ev & Hev & ->).
    destruct (Hc ev Hev) as (t & ev0 & ->). apply masked_hidden.
  - destruct (cf_AnalyzeEnabled cfg); [apply apart_analyze|keep].
  - intros s [Hs Hw]. split; [by apply (cold_step_sound visit cfg d ids OpReport)|].
    apply (keeps_report visit cfg d apart apart_blind); [..|exact Hw]; intros;
      match goal with Hx : apart ?s0 |- _ => by apply (apart_ext s0) end.
Qed.

(** A boost is never merged with a lead. The hint of a captured post is masked before it is
    stored, and the lookup of leads compares it with the contacts as they are: when no contact is
    masked, then over any passes on captured events no boost has the status [merged] or the
    identity of a lead, whatever the leads are. *)
Theorem boost_never_merged (t : Time) (ops : list cold_op) (b : CrmBoostDoc) :
  (∀ op, op ∈ ops → captured op) → b ∈ co_boosts (run_passes t ops) →
  bo_Status b ≠ CrmBoostMerged ∧ bo_LeadHashID b = estr.
Proof using unmasked ids.
  intros Hc. assert (sound d (run_passes t ops) ∧ apart (run_passes t ops)) as (_ & _ & Hu);
    [|intros Hb; by apply Hu].
  apply (passes_keep (λ s, sound d s ∧ apart s)); [intros op Hop; by apply step_apart, Hc|].
  split; [constructor; cbn; try constructor; intros x Hx; by apply not_elem_of_nil in Hx|].
  split; intros x Hx; by apply not_elem_of_nil in Hx.
Qed.
End apart.
End props.

(** ** Concrete passes *)

Module ColdRuns.
#[local] Existing Instance seconds_clock.
#[local] Existing Instance insertion_sorter.

Definition cold_cfg : Config := with_defaults {|
  cf_AnalyzeEnabled := true; cf_AnalyzeInterval := 0; cf_ReportInterval := 0; cf_BatchSize := 3;
  cf_FlushInterval := 0; cf_FlushBatch := 0; cf_KeywordDiffEvery := 1; cf_KeywordDiffDir := "tmp";
  cf_DiscoverDiffEvery := 2; cf_DiscoverDiffDir := estr; cf_PainVocabDiffEvery := 0;
  cf_EmbedThreshold := f_zero; cf_HardRejectShadowDailyCap := 1 |}.

Definition easy_registry : Registry := {|
  keywordRules := []; titleRules := []; negativeRules := []; hardRejectRules := []; phraseSet := ∅;
  highMin := 35; mediumMin := 0; jsonPath := estr |}.

(** The model calls everything a false negative; one lead has a contact. *)
Definition answer_all (docs : list JunkDoc) : list analyze_item :=
  (λ doc, {| ai_ID := jd_ID doc; ai_Category := "False_Negative"; ai_Why := " real "; ai_Suggestions := [] |})
  <$> docs.

Definition known_lead (_ : list cold_call) (value : string) : option string :=
  if String.eqb value "bob@adnet.io" then Some "h1" else None.

Definition calm : Deps := {|
  dp_ok := λ _ _, true; dp_now := λ calls, Z.of_nat (length calls) * minute + hour; dp_new_id := λ n, marks (S n);
  dp_analyze := λ _ docs, Some (answer_all docs);
  dp_report := λ _ _, Some {| rr_Summary := "s"; rr_TopReasons := []; rr_FalseNegativeCandidates := 1;
                              rr_Recommendations := []; rr_KeywordSuggestions := ["tracker"] |};
  dp_keyword_diff := λ _ _ _, Some {| AddKeywords := []; AddHardReject := []; kd_Summary := estr;
                                     kd_ReportID := estr; kd_GeneratedAt := estr; kd_Status := estr |};
  dp_discover_diff := λ _ _ _ _, Some {| da_Telegram := ["a"]; da_Serp := []; da_Summary := estr |};
  dp_pain_diff := λ _ _ _, None; dp_embed := Some (λ _ _, Some [f_zero]); dp_crm := true;
  dp_registry := Some easy_registry; dp_leads := Some known_lead; dp_stats := None; dp_pains := None;
  dp_icp := λ _, NoFile; dp_sources := None; dp_channels := None; dp_sales := None |}.

Definition rejected (text hint reason : string) : Event := prepareEvent hour {|
  ev_TS := 100 * hour; ev_RoundID := "r"; ev_Source := "serp"; ev_Title := estr; ev_Snippet := text;
  ev_ContactHint := hint; ev_Reason := reason; ev_ReasonDetail := estr; ev_Score := 0; ev_Matched := [] |}.

(** Three posts, two of them shadow rows, are analysed twice; two reports follow. *)
Definition cold_ops : list cold_op :=
  [OpFlush [rejected "keitaro leads" "bob@adnet.io" ReasonGeoReject;
            rejected "hiring buyer" estr ReasonHardRejectShadow;
            rejected "hiring closer" estr ReasonHardRejectShadow];
   OpAnalyze; OpAnalyze; OpReport; OpReport].

Definition no_rows (_ : gmap string OutcomeDorkRow) : list (string * OutcomeDorkRow) := [].
Abbreviation cold_end := (foldl (step_state no_rows cold_cfg calm) (NewService 0) cold_ops).

#[local] Instance marks_inj : Inj (=) (=) (λ n, marks (S n)).
Proof. intros n m E. apply (f_equal slen) in E. rewrite !slen_marks in E. congruence. Qed.

Lemma calm_clock_runs : clock_runs calm.
Proof. intros calls c. cbn [dp_now calm]. rewrite length_app. apply Z.add_le_mono_r, Z.mul_le_mono_nonneg_r; [done|lia]. Qed.

Lemma one_boost_per_row_witness :
  (bo_JunkID <$> co_boosts cold_end) = ["x"; "xx"] ∧ NoDup (bo_JunkID <$> co_boosts cold_end).
Proof.
  split; [by vm_compute|]. exact (proj1 (one_boost_per_row no_rows cold_cfg calm marks_inj 0 cold_ops)).
Defined.

(** One of the shadow rows was analysed, on the first day; the other waits. *)
Lemma shadow_cap_holds_witness :
  used 0 cold_end = 1 ∧ length (List.filter unanalyzed (co_junk cold_end)) = 1%nat
  ∧ used 0 cold_end ≤ cap cold_cfg.
Proof.
  split_and!; [by vm_compute|by vm_compute|].
  exact (shadow_cap_holds no_rows cold_cfg calm marks_inj calm_clock_runs (λ _, eq_refl) 0 cold_ops 0).
Defined.

(** Two reports, each with a suggestion of keywords: one file. *)
Lemma suggestions_overwritten_witness :
  length (co_reports cold_end) = 2%nat
  ∧ size (filter (λ p, p.1.2 = "keywords_pending_" +:+ nil_id +:+ ".json") (co_files cold_end)) = 1%nat
  ∧ (size (co_files cold_end) ≤ 3)%nat.
Proof.
  split_and!; [by vm_compute|by vm_compute|].
  exact (proj2 (proj2 (suggestions_overwritten no_rows cold_cfg calm marks_inj 0 cold_ops))).
Defined.

Lemma calm_contacts : contacts_not_masked calm.
Proof.
  intros find calls value hash E Hc Hf. injection E as <-. unfold known_lead in Hf.
  destruct (String.eqb_spec value "bob@adnet.io") as [->|]; done.
Qed.

Lemma cold_captured op : op ∈ cold_ops → captured op.
Proof.
  unfold cold_ops. rewrite !elem_of_cons, elem_of_nil. intros [->|[->|[->|[->|[->|[]]]]]]; try exact I.
  intros ev. rewrite !elem_of_cons, elem_of_nil. intros [->|[->|[->|[]]]]; by eexists _, _.
Qed.

Definition first_boost : option CrmBoostDoc := Eval vm_compute in co_boosts cold_end !! 0%nat.

Lemma first_boost_in b : first_boost = Some b → b ∈ co_boosts cold_end.
Proof. intros E. apply (list_elem_of_lookup_2 _ 0). rewrite <- E. by vm_compute. Qed.

(** The post of a known lead is promoted all the same. *)
Lemma boost_never_merged_witness :
  ∃ b, first_boost = Some b ∧ bo_ContactHint b = "b***@adnet.io" ∧ bo_Status b = CrmBoostPromoted
    ∧ bo_Status b ≠ CrmBoostMerged ∧ bo_LeadHashID b = estr.
Proof.
  eexists. split; [reflexivity|]. split; [reflexivity|]. split; [reflexivity|].
  apply (boost_never_merged no_rows cold_cfg calm marks_inj calm_contacts 0 cold_ops).
  - exact cold_captured.
  - apply first_boost_in. reflexivity.
Defined.
End ColdRuns.
