(* ===== verification/CrmStore.v ===== *)
(** The CRM's view of the collections ([internal/crm/store/]): looking a lead up by a prefix of
    its hash, its status and outcome, notes, tags and the cache of explanations, boosts, lists
    and searches, deleting, reports, entities and their inbox, splitting a hash off an entity,
    and the registry of Telegram people.

    A collection with a unique index is a map; an operation of the driver fails, and then changes
    nothing, or has its documented effect.  Whether it fails and what the clock reads are
    functions of the calls made so far, which the state records.  A collection that is not
    configured is [None].  Timeouts are not modelled. *)
From S2P Require Import Prelude Unicode GoStrings Utf8Facts TextFacts GoSort Matcher Registry.
From S2P Require Import Scoring Hashes Validate SourceRep Extract Item Entity EntityKeys.
From S2P Require Import EntityDoc EntityStore EntityReview LeadStore SourceRegistry.
From S2P Require Import ProxyBudget SourceDisable DorkDisable Discover Suggestions Effects.
From S2P Require Import Quota ColdPath.
From Stdlib Require Import Floats.SpecFloat.

Local Open Scope Z_scope.
Local Open Scope eff_scope.

(** ** Words ([status.go], [outcome.go], [meta.go], [inbox_policy.go], [telegram_keys.go]) *)

Inductive crm_error :=
  | ErrNotFound | ErrAmbiguousHash
  | ErrInvalidStatus (raw : string) | ErrInvalidOutcome (raw : string)
  | ErrSplit (e : split_error)
  | ErrText (text : string)
  | ErrDriver
  | ErrWrapped (text : string) (e : crm_error).

Definition allowedStatuses : list string := ["new"; "contacted"; "won"; "lost"; "spam"; "archived"].

Definition NormalizeStatus (raw : string) : string + crm_error :=
  let status := ToLower (TrimSpace raw) in
  if mem status allowedStatuses then inl status else inr (ErrInvalidStatus raw).

Definition OutcomeContacted : string := "contacted".
Definition OutcomeReplied : string := "replied".
Definition OutcomePilotStarted : string := "pilot_started".
Definition OutcomeMigrationImported : string := "migration_imported".
Definition allowedOutcomes : list string :=
  [OutcomeContacted; OutcomeReplied; OutcomePilotStarted; OutcomeMigrationImported].

Definition NormalizeOutcome (raw : string) : string + crm_error :=
  let outcome := ToLower (TrimSpace raw) in
  if mem outcome allowedOutcomes then inl outcome else inr (ErrInvalidOutcome raw).

Definition maxNoteLen : nat := 500.
Definition maxTagLen : nat := 32.
Definition maxNotesList : Z := 5.

(** The cut of a long note counts bytes. *)
Definition cut_note (text : string) : string :=
  if Nat.ltb maxNoteLen (slen text) then stake (maxNoteLen - 3) text +:+ "..." else text.

Definition normalizeNoteText (text : string) : string + crm_error :=
  let text := Join (Fields text) " " in
  if String.eqb text estr then inr (ErrText "note text empty") else inl (cut_note text).

Definition tag_rune (r : N) : bool :=
  (N.leb 97 r && N.leb r 122) || (N.leb 48 r && N.leb r 57) || N.eqb r 95 || N.eqb r 45.

Definition normalizeTag (raw : string) : string + crm_error :=
  let tag := ToLower (TrimSpace raw) in
  if String.eqb tag estr then inr (ErrText "tag empty")
  else if Nat.ltb maxTagLen (slen tag) then inr (ErrText "tag too long (max 32)")
  else if forallb tag_rune (runes tag) then inl tag
  else inr (ErrText "tag must be alphanumeric, _, or -").

Definition hex_char (c : ascii) : bool :=
  let n := code c in
  (N.leb 48 n && N.leb n 57) || (N.leb 97 n && N.leb n 102) || (N.leb 65 n && N.leb n 70).

Fixpoint all_hex (s : string) : bool :=
  match s with EmptyString => true | String c s => hex_char c && all_hex s end.

(** [^[0-9a-fA-F]+$] *)
Definition hashIDPattern (s : string) : bool :=
  negb (String.eqb s estr) && all_hex s.

Definition defaultInboxEngagePriorityMin : Z := 70.

(** [env] is the value of [CRM_ENGAGE_PRIORITY_MIN]. *)
Definition InboxEngagePriorityMin (env : string) : Z :=
  let raw := TrimSpace env in
  if String.eqb raw estr then defaultInboxEngagePriorityMin
  else match Atoi raw with
       | Some n => if n <? 0 then defaultInboxEngagePriorityMin else n
       | None => defaultInboxEngagePriorityMin
       end.

Definition ResolveEngagePriorityMin (env raw : string) (inboxDefault : bool) : Z :=
  let raw := TrimSpace raw in
  if String.eqb raw estr then if inboxDefault then InboxEngagePriorityMin env else 0
  else if String.eqb raw "0" || EqualFold raw "false" then 0
  else match Atoi raw with Some n => if n <? 0 then 0 else n | None => 0 end.

Definition TelegramPersonKey (userID : Z) : string :=
  if userID <=? 0 then estr else "tg_user:" +:+ Itoa userID.

Definition TelegramChatRef (chatKey : string) : string :=
  let chatKey := TrimSpace chatKey in
  if String.eqb chatKey estr then estr
  else
    let lower := ToLower chatKey in
    if HasPrefix lower "tg_chat:" then lower else "tg_chat:" +:+ lower.

Definition TelegramChatRefFromUsername (username : string) : string :=
  let username := TrimSpace (TrimPrefix (ToLower username) "@") in
  if String.eqb username estr then estr else TelegramChatRef ("u:" +:+ username).

Definition TelegramMemberEdgeKey (chatRef personKey : string) : string :=
  let chatRef := TrimSpace chatRef in
  let personKey := TrimSpace personKey in
  if String.eqb chatRef estr || String.eqb personKey estr then estr
  else "tg_member:" +:+ chatRef +:+ "|" +:+ personKey.

(** ** Documents *)

Record NoteDoc := { no_HashID : string; no_AuthorChatID : Z; no_Text : string; no_TS : Time }.

Record LeadMetaDoc := {
  lm_HashID : string; lm_Tags : list string; lm_Outcome : string; lm_OutcomeAt : Time;
  lm_OutcomeNote : string; lm_ExplainSummary : string; lm_ExplainCachedAt : Time;
  lm_ExplainExpiresAt : Time; lm_UpdatedAt : Time }.

Definition empty_meta (hashID : string) : LeadMetaDoc := {|
  lm_HashID := hashID; lm_Tags := []; lm_Outcome := estr; lm_OutcomeAt := zero_time;
  lm_OutcomeNote := estr; lm_ExplainSummary := estr; lm_ExplainCachedAt := zero_time;
  lm_ExplainExpiresAt := zero_time; lm_UpdatedAt := zero_time |}.

Record SourceStatsDoc := {
  st_Source : string; st_Accepted : Z; st_Junk : Z; st_Contacted : Z; st_Replied : Z;
  st_Pilot : Z; st_Migration : Z; st_Updated : Time }.

(** A row of the feedback on a lead marked as spam. *)
Record SpamFeedback := {
  sf_TS : Time; sf_HashID : string; sf_Source : string; sf_Priority : string; sf_Score : Z;
  sf_HeatTier : string; sf_Snippet : string }.

Record TelegramPersonDoc := {
  tp_UserID : Z; tp_PersonKey : string; tp_PersonUsername : string; tp_OutreachFit : string;
  tp_SourceChat : string; tp_SourceChatRef : string; tp_DiscoveredVia : string;
  tp_ProfileBio : string; tp_MemberChats : list string; tp_MemberChatRefs : list string;
  tp_MemberEdges : list string; tp_UpdatedAt : Time }.

#[global] Instance TelegramPersonDoc_eq_dec : EqDecision TelegramPersonDoc.
Proof. solve_decision. Defined.

(** The first time each reference occurs. *)
Definition chat_refs (chats : list string) : list string :=
  dedup_on id (List.filter (λ ref, negb (String.eqb ref estr)) (TelegramChatRefFromUsername <$> chats)).

Definition FillTelegramPersonCanonicalKeys (doc : TelegramPersonDoc) : TelegramPersonDoc :=
  let key := if String.eqb (tp_PersonKey doc) estr && (0 <? tp_UserID doc)
             then TelegramPersonKey (tp_UserID doc) else tp_PersonKey doc in
  let source := if String.eqb (tp_SourceChatRef doc) estr && negb (String.eqb (tp_SourceChat doc) estr)
                then TelegramChatRefFromUsername (tp_SourceChat doc) else tp_SourceChatRef doc in
  let refs := if is_empty (tp_MemberChatRefs doc) && negb (is_empty (tp_MemberChats doc))
              then chat_refs (tp_MemberChats doc) else tp_MemberChatRefs doc in
  let edges := if is_empty (tp_MemberEdges doc) && negb (String.eqb key estr) && negb (is_empty refs)
               then List.filter (λ e, negb (String.eqb e estr)) ((λ ref, TelegramMemberEdgeKey ref key) <$> refs)
               else tp_MemberEdges doc in {|
  tp_UserID := tp_UserID doc; tp_PersonKey := key; tp_PersonUsername := tp_PersonUsername doc;
  tp_OutreachFit := tp_OutreachFit doc; tp_SourceChat := tp_SourceChat doc;
  tp_SourceChatRef := source; tp_DiscoveredVia := tp_DiscoveredVia doc;
  tp_ProfileBio := tp_ProfileBio doc; tp_MemberChats := tp_MemberChats doc;
  tp_MemberChatRefs := refs; tp_MemberEdges := edges; tp_UpdatedAt := tp_UpdatedAt doc |}.

(** ** The collections *)

(** The calls of the driver, with whether they succeeded. *)
Inductive crm_call := CrmRead (what : string) (ok : bool) | CrmWrite (what key : string) (ok : bool).

Record Crm := {
  cm_leads : Collection; cm_entities : option Docs; cm_sourceStats : option (gmap string SourceStatsDoc);
  cm_keywordStats : option (list KeywordStatDoc); cm_boosts : option (gmap string CrmBoostDoc);
  cm_notes : option (list NoteDoc); cm_meta : option (gmap string LeadMetaDoc);
  cm_feedback : option (list SpamFeedback); cm_people : gmap Z TelegramPersonDoc;
  cm_calls : list crm_call }.

Definition put_leads (c : Collection) (s : Crm) : Crm := {|
  cm_leads := c; cm_entities := cm_entities s; cm_sourceStats := cm_sourceStats s;
  cm_keywordStats := cm_keywordStats s; cm_boosts := cm_boosts s; cm_notes := cm_notes s;
  cm_meta := cm_meta s; cm_feedback := cm_feedback s; cm_people := cm_people s; cm_calls := cm_calls s |}.
Definition put_entities (d : Docs) (s : Crm) : Crm := {|
  cm_leads := cm_leads s; cm_entities := Some d; cm_sourceStats := cm_sourceStats s;
  cm_keywordStats := cm_keywordStats s; cm_boosts := cm_boosts s; cm_notes := cm_notes s;
  cm_meta := cm_meta s; cm_feedback := cm_feedback s; cm_people := cm_people s; cm_calls := cm_calls s |}.
Definition put_stats (m : gmap string SourceStatsDoc) (s : Crm) : Crm := {|
  cm_leads := cm_leads s; cm_entities := cm_entities s; cm_sourceStats := Some m;
  cm_keywordStats := cm_keywordStats s; cm_boosts := cm_boosts s; cm_notes := cm_notes s;
  cm_meta := cm_meta s; cm_feedback := cm_feedback s; cm_people := cm_people s; cm_calls := cm_calls s |}.
Definition put_boosts (m : gmap string CrmBoostDoc) (s : Crm) : Crm := {|
  cm_leads := cm_leads s; cm_entities := cm_entities s; cm_sourceStats := cm_sourceStats s;
  cm_keywordStats := cm_keywordStats s; cm_boosts := Some m; cm_notes := cm_notes s;
  cm_meta := cm_meta s; cm_feedback := cm_feedback s; cm_people := cm_people s; cm_calls := cm_calls s |}.
Definition put_notes (l : list NoteDoc) (s : Crm) : Crm := {|
  cm_leads := cm_leads s; cm_entities := cm_entities s; cm_sourceStats := cm_sourceStats s;
  cm_keywordStats := cm_keywordStats s; cm_boosts := cm_boosts s; cm_notes := Some l;
  cm_meta := cm_meta s; cm_feedback := cm_feedback s; cm_people := cm_people s; cm_calls := cm_calls s |}.
Definition put_meta (m : gmap string LeadMetaDoc) (s : Crm) : Crm := {|
  cm_leads := cm_leads s; cm_entities := cm_entities s; cm_sourceStats := cm_sourceStats s;
  cm_keywordStats := cm_keywordStats s; cm_boosts := cm_boosts s; cm_notes := cm_notes s;
  cm_meta := Some m; cm_feedback := cm_feedback s; cm_people := cm_people s; cm_calls := cm_calls s |}.
Definition put_feedback (l : list SpamFeedback) (s : Crm) : Crm := {|
  cm_leads := cm_leads s; cm_entities := cm_entities s; cm_sourceStats := cm_sourceStats s;
  cm_keywordStats := cm_keywordStats s; cm_boosts := cm_boosts s; cm_notes := cm_notes s;
  cm_meta := cm_meta s; cm_feedback := Some l; cm_people := cm_people s; cm_calls := cm_calls s |}.
Definition put_people (m : gmap Z TelegramPersonDoc) (s : Crm) : Crm := {|
  cm_leads := cm_leads s; cm_entities := cm_entities s; cm_sourceStats := cm_sourceStats s;
  cm_keywordStats := cm_keywordStats s; cm_boosts := cm_boosts s; cm_notes := cm_notes s;
  cm_meta := cm_meta s; cm_feedback := cm_feedback s; cm_people := m; cm_calls := cm_calls s |}.
Definition put_calls (l : list crm_call) (s : Crm) : Crm := {|
  cm_leads := cm_leads s; cm_entities := cm_entities s; cm_sourceStats := cm_sourceStats s;
  cm_keywordStats := cm_keywordStats s; cm_boosts := cm_boosts s; cm_notes := cm_notes s;
  cm_meta := cm_meta s; cm_feedback := cm_feedback s; cm_people := cm_people s; cm_calls := l |}.

Abbreviation Act := (eff Crm crm_error).

(** The fields of a lead card. *)
Definition card_keys : gset string := list_to_set [
  "hash_id"; "ts"; "round_id"; "priority"; "score"; "source"; "title"; "contacts"; "matched";
  "snippet"; "status"; "status_at"; "outcome"; "outcome_at"; "outreach_draft"; "outreach_channel";
  "outreach_subject"; "outreach_angle"; "entity_proof"; "pilot_qualified"; "geo_country";
  "entity_id"; "entity_heat"; "heat_tier"; "contact_quality"; "contact_channel"; "next_action";
  "duplicate_suggest"; "stale"; "entity_sighting_count"; "entity_source_count" ].
Definition leadCardProjection (d : Doc) : Doc := restrict card_keys d.

Definition docs_of (c : Collection) : list Doc := (map_to_list c).*2.

(** *** Orders of a query *)

(** A missing number comes before every other. *)
Definition num_of (k : string) (d : Doc) : option spec_float :=
  match d !! k with
  | Some (BInt z) => Some (float_of_int z)
  | Some (BDouble f) => Some f
  | _ => None
  end.

Definition desc_num (k : string) (a b : Doc) : comparison :=
  match num_of k a, num_of k b with
  | None, None => Eq | None, Some _ => Gt | Some _, None => Lt
  | Some x, Some y => if SFltb y x then Lt else if SFltb x y then Gt else Eq
  end.

Definition desc_score (a b : Doc) : comparison := get_int "score" b ?= get_int "score" a.
Definition asc_hash (a b : Doc) : comparison :=
  if str_ltb (get_str "hash_id" a) (get_str "hash_id" b) then Lt
  else if str_ltb (get_str "hash_id" b) (get_str "hash_id" a) then Gt else Eq.

Fixpoint ordered_by (keys : list (Doc → Doc → comparison)) (a b : Doc) : bool :=
  match keys with
  | [] => false
  | key :: keys => match key a b with Lt => true | Gt => false | Eq => ordered_by keys a b end
  end.

Definition score_order : list (Doc → Doc → comparison) := [desc_score; asc_hash].
Definition heat_order : list (Doc → Doc → comparison) := desc_num "entity_heat" :: score_order.
Definition engage_order : list (Doc → Doc → comparison) := desc_num "engage_priority" :: heat_order.

(** *** Filters *)

Record ListCursor := { lc_Score : Z; lc_HashID : string }.

Record ListFilter := {
  lf_Status : string; lf_SourcePrefix : string; lf_ContactChannel : string; lf_NextAction : string;
  lf_Outcome : string; lf_ScoreMax : Z; lf_MinEngagePriority : Z; lf_Limit : Z;
  lf_Cursor : option ListCursor; lf_InboxOnly : bool; lf_RawOnly : bool; lf_Sort : string }.

Definition clampLimit (f : ListFilter) : Z :=
  let limit := if lf_Limit f <=? 0 then 10 else lf_Limit f in
  if 50 <? limit then 50 else limit.

Definition sortSpec (f : ListFilter) : list (Doc → Doc → comparison) :=
  let sort := ToLower (TrimSpace (lf_Sort f)) in
  if String.eqb sort "score" then score_order
  else if String.eqb sort "heat" then heat_order
  else if String.eqb sort "engage" then engage_order
  else if lf_InboxOnly f then engage_order else heat_order.

Definition inboxExcludedStatuses : list string := ["geo_rejected"; "icp_rejected"].

Definition applyInboxFilter (status : string) (d : Doc) : bool :=
  (if String.eqb status estr then negb (mem (get_str "status" d) inboxExcludedStatuses)
   else String.eqb (get_str "status" d) status)
  && negb (String.eqb (get_str "analysis_status" d) "pending").

Definition applyRawLeadFilter (d : Doc) : bool :=
  match d !! "analysis_status" with None => true | Some _ => mem (get_str "analysis_status" d) ["raw"; estr] end.

Definition after_cursor (c : ListCursor) (d : Doc) : bool :=
  (get_int "score" d <? lc_Score c)
  || ((get_int "score" d =? lc_Score c) && str_ltb (lc_HashID c) (get_str "hash_id" d)).

(** The document has the field and it is what is asked for; an empty word asks for nothing. Every
    lead is stored with a score, so a bound on it need not ask whether there is one. *)
Definition field_is (k v : string) (d : Doc) : bool := String.eqb v estr || String.eqb (get_str k d) v.

(** The query has one [$or]: the filter of raw leads replaces the one of the cursor. *)
Definition list_matchQuery (f : ListFilter) (d : Doc) : bool :=
  (if lf_InboxOnly f then applyInboxFilter (TrimSpace (lf_Status f)) d
   else field_is "status" (lf_Status f) d)
  && (let prefix := TrimSpace (lf_SourcePrefix f) in
      String.eqb prefix estr || HasPrefix (get_str "source" d) prefix)
  && (negb (0 <? lf_ScoreMax f) || (get_int "score" d <=? lf_ScoreMax f))
  && field_is "contact_channel" (TrimSpace (lf_ContactChannel f)) d
  && field_is "next_action" (TrimSpace (lf_NextAction f)) d
  && (let outcome := TrimSpace (lf_Outcome f) in
      String.eqb outcome estr
      || match NormalizeOutcome outcome with
         | inl normalized => String.eqb (get_str "outcome" d) normalized
         | inr _ => String.eqb (get_str "outcome" d) outcome
         end)
  && (negb (0 <? lf_MinEngagePriority f) || (lf_MinEngagePriority f <=? get_int "engage_priority" d))
  && (if lf_RawOnly f then applyRawLeadFilter d
      else match lf_Cursor f with Some c => after_cursor c d | None => true end).

Record DeleteFilter := {
  df_HashID : string; df_Status : string; df_SourcePrefix : string; df_ScoreMax : Z; df_All : bool }.

Definition Validate (f : DeleteFilter) : bool :=
  df_All f || negb (String.eqb (TrimSpace (df_HashID f)) estr)
  || negb (String.eqb (TrimSpace (df_Status f)) estr)
  || negb (String.eqb (TrimSpace (df_SourcePrefix f)) estr) || (0 <? df_ScoreMax f).

Definition delete_matchQuery (f : DeleteFilter) (d : Doc) : bool :=
  df_All f
  || (field_is "hash_id" (TrimSpace (df_HashID f)) d && field_is "status" (TrimSpace (df_Status f)) d
      && (let prefix := TrimSpace (df_SourcePrefix f) in
          String.eqb prefix estr || HasPrefix (get_str "source" d) prefix)
      && (negb (0 <? df_ScoreMax f) || (get_int "score" d <=? df_ScoreMax f))).

(** The query names one hash. *)
Definition isSingleHashQuery (f : DeleteFilter) : bool :=
  negb (df_All f) && negb (String.eqb (TrimSpace (df_HashID f)) estr).

Definition maxAdminDeleteBatch : nat := Z.to_nat 10000.

(** ** The store *)

Section store.
Context `{Sorter}.
Context (crm_ok : list crm_call → crm_call → bool) (crm_now : list crm_call → Time).

Definition now : Act Time := let! s := get_state in done (crm_now (cm_calls s)).

Definition call (c : bool → crm_call) : Act bool :=
  let! s := get_state in
  let ok := crm_ok (cm_calls s) (c true) in
  modify (λ s, put_calls (cm_calls s ++ [c ok]) s) ;;! done ok.

(** A read that is not answered is an error of the driver. *)
Definition read {A} (what : string) (f : Crm → A) : Act A :=
  let! ok := call (CrmRead what) in
  let! s := get_state in if ok : bool then done (f s) else exit_with ErrDriver.

(** A write, and whether it succeeded. *)
Definition write (what key : string) (f : Crm → Crm) : Act bool :=
  let! ok := call (CrmWrite what key) in
  if ok : bool then modify f ;;! done true else done false.

Definition must_write (what key : string) (f : Crm → Crm) : Act unit :=
  let! ok := write what key f in if ok : bool then done tt else exit_with ErrDriver.

Definition lift {A} (r : A + crm_error) : Act A :=
  match r with inl a => done a | inr e => exit_with e end.

(** A collection that is configured. *)
Definition configured {A} (o : option A) (text : string) : Act A :=
  match o with Some a => done a | None => exit_with (ErrText text) end.

(** *** Leads ([store.go], [resolve.go]) *)

Definition GetByHashID (hashID : string) : Act Doc :=
  let hashID := TrimSpace hashID in
  if String.eqb hashID estr then exit_with (ErrText "hash_id empty")
  else
    let! found := read "lead" (λ s, cm_leads s !! hashID) in
    match found with Some d => done (leadCardProjection d) | None => exit_with ErrNotFound end.

(** Whether a call ended in an error, and in which. *)
Definition trying {A} (m : Act A) : Act (A + crm_error) := λ s,
  match m s with (inl a, s') => (inl (inl a), s') | (inr e, s') => (inl (inr e), s') end.

Definition ResolveHashID (raw : string) : Act string :=
  let raw := TrimSpace raw in
  if String.eqb raw estr then exit_with (ErrText "hash_id empty")
  else if negb (hashIDPattern raw) then exit_with (ErrText "hash_id must be hex")
  else
    let! r := trying (GetByHashID raw) in
    match r with
    | inl _ => done raw
    | inr ErrNotFound =>
        let! matches := read "prefix" (λ s,
          take 2 (List.filter (λ h, HasPrefix h raw) (get_str "hash_id" <$> docs_of (cm_leads s)))) in
        match matches with
        | [] => exit_with ErrNotFound
        | [h] => done h
        | _ => exit_with ErrAmbiguousHash
        end
    | inr e => exit_with e
    end.

Definition RecordWebhookSpamFeedback (lead : Doc) : Act unit :=
  let! s := get_state in
  match cm_feedback s with
  | None => done tt
  | Some _ =>
      let hashID := get_str "hash_id" lead in
      if String.eqb hashID estr then done tt
      else
        let! t := now in
        let row := {| sf_TS := t; sf_HashID := hashID; sf_Source := get_str "source" lead;
                      sf_Priority := get_str "priority" lead; sf_Score := get_int "score" lead;
                      sf_HeatTier := get_str "heat_tier" lead; sf_Snippet := get_str "snippet" lead |} in
        must_write "feedback" hashID (λ s, put_feedback (default [] (cm_feedback s) ++ [row]) s)
  end.

(** [UpdateOne] by hash id: whether a document matched. *)
Definition update_lead (what hashID : string) (set : Doc) : Act bool :=
  let! s := get_state in
  must_write what hashID (λ s, put_leads (update_one hashID set (cm_leads s)) s) ;;!
  done (bool_decide (is_Some (cm_leads s !! hashID))).

Definition UpdateStatus (hashID status : string) : Act unit :=
  let hashID := TrimSpace hashID in
  if String.eqb hashID estr then exit_with (ErrText "hash_id empty")
  else
    let! hashID := ResolveHashID hashID in
    let! normalized := lift (NormalizeStatus status) in
    let! t := now in
    let! matched := update_lead "status" hashID
      {["status" := BStr normalized; "status_at" := bson_time t]} in
    if negb matched then exit_with ErrNotFound
    else if String.eqb normalized "spam" then
      let! lead := trying (GetByHashID hashID) in
      match lead with inl lead => RecordWebhookSpamFeedback lead | inr _ => done tt end
    else done tt.

Record ListResult := { lr_Leads : list Doc; lr_NextCursor : option ListCursor }.

Definition find_leads (keys : list (Doc → Doc → comparison)) (f : Doc → bool) (s : Crm) : list Doc :=
  sort_slice (ordered_by keys) (List.filter f (docs_of (cm_leads s))).

Definition cursor_of (d : Doc) : ListCursor := {|
  lc_Score := get_int "score" d; lc_HashID := get_str "hash_id" d |}.

(** One row more than the page tells whether there is a next one. *)
Definition page (limit : Z) (docs : list Doc) : ListResult :=
  let n := Z.to_nat limit in
  if Nat.ltb n (length docs)
  then {| lr_Leads := take n docs; lr_NextCursor := cursor_of <$> docs !! (n - 1)%nat |}
  else {| lr_Leads := docs; lr_NextCursor := None |}.

Definition ListLeads (f : ListFilter) : Act ListResult :=
  let limit := clampLimit f in
  let! docs := read "list" (λ s, leadCardProjection <$>
    take (Z.to_nat (limit + 1)) (find_leads (sortSpec f) (list_matchQuery f) s)) in
  done (page limit docs).

(** [caseless] is the regular expression of the driver for a literal text, ignoring case. *)
Definition Search (caseless : string → string → bool) (searchMaxRows : Z) (query : string) (limit : Z)
    : Act (list Doc * bool) :=
  let query := TrimSpace query in
  if String.eqb query estr then exit_with (ErrText "search query empty")
  else
    let limit := if (limit <=? 0) || (searchMaxRows <? limit) then searchMaxRows else limit in
    let! docs := read "search" (λ s, leadCardProjection <$>
      take (Z.to_nat (limit + 1)) (find_leads score_order
        (λ d, caseless (get_str "snippet" d) query || caseless (get_str "source" d) query) s)) in
    done (take (Z.to_nat limit) docs, Nat.ltb (Z.to_nat limit) (length docs)).

(** [ExportFilter] and the rows of [BuildNDJSON]; the file is not modelled. *)
Record ExportFilter := { xf_Status : string; xf_Since : Time; xf_Limit : Z; xf_RawOnly : bool }.

Definition BuildNDJSON (exportMaxRows : Z) (f : ExportFilter) : Act (list Doc) :=
  let limit := if (xf_Limit f <=? 0) || (exportMaxRows <? xf_Limit f) then exportMaxRows else xf_Limit f in
  let status := TrimSpace (xf_Status f) in
  let! status := if String.eqb status estr then done estr else lift (NormalizeStatus status) in
  read "export" (λ s, take (Z.to_nat limit) (find_leads score_order (λ d,
    field_is "status" status d
    && (is_zero_time (xf_Since f)
        || (xf_Since f `div` millisecond * millisecond <=? get_time "ts" d))
    && (negb (xf_RawOnly f) || applyRawLeadFilter d)) s)).

(** *** Deleting ([admin.go]) *)

Record DeleteResult := { de_Leads : Z; de_Notes : Z; de_Meta : Z }.

Definition collectHashIDs (f : DeleteFilter) (limit : nat) : Act (list string) :=
  let! rows := read "collect" (λ s, take limit (List.filter (delete_matchQuery f) (docs_of (cm_leads s)))) in
  let ids := List.filter (λ h, negb (String.eqb h estr)) (get_str "hash_id" <$> rows) in
  if Nat.leb limit (length ids) && negb (isSingleHashQuery f)
  then exit_with (ErrText "delete matched too many leads; narrow the filter") else done ids.

Definition without (ids : list string) {A} (key : A → string) (l : list A) : list A :=
  List.filter (λ a, negb (mem (key a) ids)) l.

Definition delete_notes (ids : list string) : Act Z :=
  let! s := get_state in
  match cm_notes s with
  | None => done 0
  | Some notes =>
      let! ok := write "delete_notes" estr (put_notes (without ids no_HashID notes)) in
      if ok : bool then done (Z.of_nat (length notes - length (without ids no_HashID notes)))
      else exit_with (ErrWrapped "delete notes: " ErrDriver)
  end.

Definition delete_meta (ids : list string) : Act Z :=
  let! s := get_state in
  match cm_meta s with
  | None => done 0
  | Some m =>
      let kept := filter (λ kv, kv.1 ∉ ids) m in
      let! ok := write "delete_meta" estr (put_meta kept) in
      if ok : bool then done (Z.of_nat (size m - size kept))
      else exit_with (ErrWrapped "delete meta: " ErrDriver)
  end.

Definition with_hash (h : string) (f : DeleteFilter) : DeleteFilter := {|
  df_HashID := h; df_Status := df_Status f; df_SourcePrefix := df_SourcePrefix f;
  df_ScoreMax := df_ScoreMax f; df_All := df_All f |}.

Definition DeleteLeads (f : DeleteFilter) : Act DeleteResult :=
  if negb (Validate f) then exit_with (ErrText "delete filter empty")
  else
    let! f := (let hashID := TrimSpace (df_HashID f) in
               if String.eqb hashID estr then done f
               else let! resolved := ResolveHashID hashID in done (with_hash resolved f)) in
    let! ids := collectHashIDs f maxAdminDeleteBatch in
    match ids with
    | [] => done {| de_Leads := 0; de_Notes := 0; de_Meta := 0 |}
    | _ =>
        let! s := get_state in
        let kept := filter (λ kv, kv.1 ∉ ids) (cm_leads s) in
        must_write "delete_leads" estr (λ s, put_leads (filter (λ kv, kv.1 ∉ ids) (cm_leads s)) s) ;;!
        let! notes := delete_notes ids in
        let! meta := delete_meta ids in
        done {| de_Leads := Z.of_nat (size (cm_leads s) - size kept); de_Notes := notes; de_Meta := meta |}
    end.

(** *** Notes, tags and outcomes ([meta.go], [outcome.go], [explain_cache.go]) *)

Definition resolveExistingHash (raw : string) : Act string :=
  let! hashID := ResolveHashID raw in
  let! _ := GetByHashID hashID in done hashID.

Definition notes_missing : string := "lead notes collection not configured".
Definition meta_missing : string := "lead crm meta collection not configured".

Definition AddNote (hashID text : string) (author : Z) : Act unit :=
  let! s := get_state in
  let! _ := configured (cm_notes s) notes_missing in
  let! hashID := resolveExistingHash hashID in
  let! text := lift (normalizeNoteText text) in
  let! t := now in
  must_write "note" hashID (λ s, put_notes (default [] (cm_notes s) ++
    [{| no_HashID := hashID; no_AuthorChatID := author; no_Text := text; no_TS := t |}]) s).

Definition ListNotes (hashID : string) (limit : Z) : Act (list NoteDoc) :=
  let! s := get_state in
  let! _ := configured (cm_notes s) notes_missing in
  let! hashID := resolveExistingHash hashID in
  let limit := if (limit <=? 0) || (maxNotesList <? limit) then maxNotesList else limit in
  read "notes" (λ s, take (Z.to_nat limit) (sort_slice (λ a b, no_TS b <? no_TS a)
    (List.filter (λ n, String.eqb (no_HashID n) hashID) (default [] (cm_notes s))))).

(** The row of a hash, created when there is none. *)
Definition upsert_meta (hashID : string) (f : LeadMetaDoc → LeadMetaDoc) (s : Crm) : Crm :=
  let m := default ∅ (cm_meta s) in
  put_meta (<[hashID := f (default (empty_meta hashID) (m !! hashID))]> m) s.

(** A row that cannot be read is an empty one. *)
Definition GetMeta (hashID : string) : Act LeadMetaDoc :=
  let! s := get_state in
  let! _ := configured (cm_meta s) meta_missing in
  let! hashID := resolveExistingHash hashID in
  let! found := trying (read "meta" (λ s, default ∅ (cm_meta s) !! hashID)) in
  done (match found with inl (Some doc) => doc | _ => empty_meta hashID end).

Definition tagged (tag : string) (t : Time) (m : LeadMetaDoc) : LeadMetaDoc := {|
  lm_HashID := lm_HashID m;
  lm_Tags := if mem tag (lm_Tags m) then lm_Tags m else lm_Tags m ++ [tag];
  lm_Outcome := lm_Outcome m; lm_OutcomeAt := lm_OutcomeAt m; lm_OutcomeNote := lm_OutcomeNote m;
  lm_ExplainSummary := lm_ExplainSummary m; lm_ExplainCachedAt := lm_ExplainCachedAt m;
  lm_ExplainExpiresAt := lm_ExplainExpiresAt m; lm_UpdatedAt := t |}.

Definition AddTag (hashID tag : string) : Act LeadMetaDoc :=
  let! s := get_state in
  let! _ := configured (cm_meta s) meta_missing in
  let! hashID := resolveExistingHash hashID in
  let! tag := lift (normalizeTag tag) in
  let! t := now in
  must_write "tag" hashID (upsert_meta hashID (tagged tag t)) ;;!
  GetMeta hashID.

Definition with_outcome (outcome note : string) (t : Time) (m : LeadMetaDoc) : LeadMetaDoc := {|
  lm_HashID := lm_HashID m; lm_Tags := lm_Tags m; lm_Outcome := outcome; lm_OutcomeAt := t;
  lm_OutcomeNote := if String.eqb note estr then lm_OutcomeNote m else note;
  lm_ExplainSummary := lm_ExplainSummary m; lm_ExplainCachedAt := lm_ExplainCachedAt m;
  lm_ExplainExpiresAt := lm_ExplainExpiresAt m; lm_UpdatedAt := t |}.

Definition empty_stats (source : string) : SourceStatsDoc := {|
  st_Source := source; st_Accepted := 0; st_Junk := 0; st_Contacted := 0; st_Replied := 0;
  st_Pilot := 0; st_Migration := 0; st_Updated := zero_time |}.

Definition outcomeField (outcome : string) : bool := mem outcome allowedOutcomes.

(** The counter of [outcomeField] goes up. *)
Definition count_outcome (outcome : string) (t : Time) (d : SourceStatsDoc) : SourceStatsDoc :=
  let bump o n := if String.eqb outcome o then n + 1 else n in {|
  st_Source := st_Source d; st_Accepted := st_Accepted d; st_Junk := st_Junk d;
  st_Contacted := bump OutcomeContacted (st_Contacted d);
  st_Replied := bump OutcomeReplied (st_Replied d);
  st_Pilot := bump OutcomePilotStarted (st_Pilot d);
  st_Migration := bump OutcomeMigrationImported (st_Migration d); st_Updated := t |}.

(** The result of the update is not looked at. *)
Definition RecordOutcomeOnCollection (source outcome : string) : Act unit :=
  if String.eqb source estr || negb (outcomeField outcome) then done tt
  else
    let! t := now in
    let! _ := write "stats" source (λ s,
      let m := default ∅ (cm_sourceStats s) in
      put_stats (<[source := count_outcome outcome t (default (empty_stats source) (m !! source))]> m) s) in
    done tt.

Definition outcome_set (outcome note : string) (t : Time) : Doc :=
  doc_of [("outcome", Some (BStr outcome)); ("outcome_at", Some (bson_time t)); ("outcome_note", some_str note)].

Definition SetOutcome (hashID outcome note : string) : Act unit :=
  let hashID := TrimSpace hashID in
  if String.eqb hashID estr then exit_with (ErrText "hash_id empty")
  else
    let! hashID := ResolveHashID hashID in
    let! normalized := lift (NormalizeOutcome outcome) in
    let note := cut_note (TrimSpace note) in
    let! t := now in
    let! lead := trying (read "source" (λ s, cm_leads s !! hashID)) in
    let leadSource := match lead with inl (Some d) => TrimSpace (get_str "source" d) | _ => estr end in
    let! matched := update_lead "outcome" hashID (outcome_set normalized note t) in
    if negb matched then exit_with ErrNotFound
    else
      let! s := get_state in
      (match cm_meta s with
       | Some _ => must_write "meta_outcome" hashID (upsert_meta hashID (with_outcome normalized note t))
       | None => done tt
       end) ;;!
      if String.eqb leadSource estr then done tt
      else match cm_sourceStats s with
           | Some _ => RecordOutcomeOnCollection leadSource normalized
           | None => done tt
           end.

Definition GetExplainCache (hashID : string) : Act (option string) :=
  let! meta := GetMeta hashID in
  if String.eqb (lm_ExplainSummary meta) estr || is_zero_time (lm_ExplainCachedAt meta) then done None
  else
    let! t := now in
    if negb (is_zero_time (lm_ExplainExpiresAt meta)) then
      if time_after t (lm_ExplainExpiresAt meta) then done None else done (Some (lm_ExplainSummary meta))
    else if 24 * hour <? time_sub t (lm_ExplainCachedAt meta) then done None
    else done (Some (lm_ExplainSummary meta)).

Definition with_explain (summary : string) (t expires : Time) (m : LeadMetaDoc) : LeadMetaDoc := {|
  lm_HashID := lm_HashID m; lm_Tags := lm_Tags m; lm_Outcome := lm_Outcome m;
  lm_OutcomeAt := lm_OutcomeAt m; lm_OutcomeNote := lm_OutcomeNote m; lm_ExplainSummary := summary;
  lm_ExplainCachedAt := t; lm_ExplainExpiresAt := expires; lm_UpdatedAt := t |}.

Definition SetExplainCache (hashID summary : string) (ttl : Duration) : Act unit :=
  let! s := get_state in
  match cm_meta s with
  | None => done tt
  | Some _ =>
      let! hashID := resolveExistingHash hashID in
      let summary := TrimSpace summary in
      if String.eqb summary estr then exit_with (ErrText "explain summary empty")
      else
        let ttl := if ttl <=? 0 then 24 * hour else ttl in
        let! t := now in
        must_write "explain" hashID (upsert_meta hashID (with_explain summary t (t + ttl)))
  end.

(** *** Boosts ([boosts.go], [analytics.go]) *)

Definition boosts_missing : string := "crm boosts collection not configured".
Definition maxBoostRows : Z := 20.

(** [id] is the hexadecimal text; [None] when it is not one. *)
Definition ResolveBoost (oid : option string) (status leadHashID why : string) : Act unit :=
  let! s := get_state in
  let! boosts := configured (cm_boosts s) boosts_missing in
  match oid with
  | None => exit_with (ErrText "invalid boost id")
  | Some id =>
      let! t := now in
      must_write "boost" id (put_boosts (alter (resolved status leadHashID why t) id boosts)) ;;!
      if bool_decide (is_Some (boosts !! id)) then done tt else exit_with (ErrText "boost not found")
  end.

Definition ListAllBoosts (status : string) (limit : Z) : Act (list CrmBoostDoc) :=
  let! s := get_state in
  let! _ := configured (cm_boosts s) boosts_missing in
  let limit := if (limit <=? 0) || (maxBoostRows <? limit) then maxBoostRows else limit in
  read "boosts" (λ s, take (Z.to_nat limit) (sort_slice (λ a b, bo_TS b <? bo_TS a)
    (List.filter (λ b, String.eqb status estr || String.eqb (bo_Status b) status)
      (map_to_list (default ∅ (cm_boosts s))).*2))).

Definition ListBoosts (limit : Z) : Act (list CrmBoostDoc) := ListAllBoosts CrmBoostPending limit.

(** *** Figures ([analytics.go], [admin.go], [outcome.go], [feedback.go]) *)

Record StatusCount := { sc_Status : string; sc_Count : Z }.

(** A row of an aggregation as the driver decodes it; the key is missing or not a string for
    [None]. *)
Record agg_row := { gr_ID : option string; gr_Count : Z }.

(** The dynamic types the figures are decoded from: [[]bson.M], [bson.A] with documents for
    [Some], and any other. *)
Inductive any_value := GoMaps (l : list agg_row) | GoArray (l : list (option agg_row)) | GoOther.

Definition asBsonArray (raw : any_value) : option (list (option agg_row)) :=
  match raw with GoArray l => Some l | GoMaps _ | GoOther => None end.

Definition status_count (r : agg_row) : StatusCount := {|
  sc_Status := match gr_ID r with Some s => if String.eqb s estr then "unknown" else s | None => "unknown" end;
  sc_Count := gr_Count r |}.

Definition decodeStatusFunnel (raw : any_value) : list StatusCount :=
  match asBsonArray raw with
  | None => []
  | Some items => omap (fmap status_count) items
  end.

Definition decodeOutcomeFunnel (raw : any_value) : list StatusCount :=
  match raw with GoMaps rows => decodeStatusFunnel (GoMaps rows) | _ => [] end.

(** The rows of a [$group] by a field, with a count each, the largest first. *)
Definition group_by (k : string) (docs : list Doc) : list agg_row :=
  (λ p, {| gr_ID := Some p.1; gr_Count := p.2 |}) <$> sort_slice by_count (grouped (get_str k <$> docs)).

Record DBStats := { db_TotalLeads : Z; db_ByStatus : list StatusCount; db_ByOutcome : list StatusCount }.

Definition with_outcomes (docs : list Doc) : list Doc :=
  List.filter (λ d, negb (String.eqb (get_str "outcome" d) estr)) docs.

(** The rows are decoded into slices of documents. *)
Definition ReadDBStats : Act DBStats :=
  let! total := read "count" (λ s, Z.of_nat (size (cm_leads s))) in
  let! statusRows := read "by_status" (λ s, group_by "status" (docs_of (cm_leads s))) in
  let! outcomeRows := read "by_outcome" (λ s, group_by "outcome" (with_outcomes (docs_of (cm_leads s)))) in
  done {| db_TotalLeads := total; db_ByStatus := decodeStatusFunnel (GoMaps statusRows);
          db_ByOutcome := decodeOutcomeFunnel (GoMaps outcomeRows) |}.

Record StatsOverview := {
  so_Count24h : Z; so_Count7d : Z; so_StatusFunnel : list StatusCount; so_TopSources7d : list StatusCount }.

Definition since (t : Time) (docs : list Doc) : list Doc :=
  List.filter (λ d, t `div` millisecond * millisecond <=? get_time "ts" d) docs.

(** The arrays inside the document of a [$facet] are decoded as arrays of documents. *)
Definition ReadStatsOverview : Act StatsOverview :=
  let! t := now in
  read "overview" (λ s,
    let docs := docs_of (cm_leads s) in
    let week := since (t - 7 * 24 * hour) docs in {|
    so_Count24h := Z.of_nat (length (since (t - 24 * hour) docs)); so_Count7d := Z.of_nat (length week);
    so_StatusFunnel := decodeStatusFunnel (GoArray (Some <$> group_by "status" docs));
    so_TopSources7d := (λ r, {| sc_Status := default estr (gr_ID r); sc_Count := gr_Count r |})
                       <$> take 10 (group_by "source" week) |}).

Record SourceStatsRow := { sr_Source : string; sr_Accepted : Z; sr_Junk : Z; sr_Fallback : bool }.

Definition stats_rows (s : Crm) : list SourceStatsDoc :=
  sort_slice (λ a b, st_Accepted b <? st_Accepted a) (map_to_list (default ∅ (cm_sourceStats s))).*2.

Definition StatsSources : Act (list SourceStatsRow) :=
  let! s := get_state in
  let! docs := match cm_sourceStats s with
               | Some _ => read "source_stats" (λ s, take 10 (stats_rows s))
               | None => done [] end in
  match docs with
  | [] => read "sources" (λ s,
      (λ r, {| sr_Source := default estr (gr_ID r); sr_Accepted := gr_Count r; sr_Junk := 0; sr_Fallback := true |})
      <$> take 10 (group_by "source" (docs_of (cm_leads s))))
  | _ => done ((λ d, {| sr_Source := st_Source d; sr_Accepted := st_Accepted d; sr_Junk := st_Junk d;
                        sr_Fallback := false |}) <$> docs)
  end.

Record KeywordStatsRow := { kr_KeywordID : string; kr_Accepted : Z; kr_Junk : Z }.
Definition maxKeywordStats : nat := 20.

Definition StatsKeywords : Act (list KeywordStatsRow) :=
  let! s := get_state in
  let! _ := configured (cm_keywordStats s) "keyword stats collection not configured" in
  read "keywords" (λ s,
    (λ d, {| kr_KeywordID := ks_KeywordID d; kr_Accepted := AcceptedCount d; kr_Junk := JunkCount d |})
    <$> take maxKeywordStats (sort_slice (λ a b, AcceptedCount b <? AcceptedCount a) (default [] (cm_keywordStats s)))).

(** The counts of each source and outcome, the largest first. *)
Definition AggregateOutcomeBySource : Act (list OutcomeSourceRow) :=
  read "outcomes" (λ s,
    let docs := with_outcomes (docs_of (cm_leads s)) in
    let pairs := remove_dups ((λ d, (get_str "source" d, get_str "outcome" d)) <$> docs) in
    List.filter (λ r, negb (String.eqb (os_Source r) estr))
      (sort_slice (λ a b, os_Count b <? os_Count a)
        ((λ p, {| os_Source := p.1; os_Outcome := p.2;
                  os_Count := Z.of_nat (length (List.filter
                    (λ d, String.eqb (get_str "source" d) p.1 && String.eqb (get_str "outcome" d) p.2) docs)) |})
         <$> pairs))).

Record SourceOutcomeSummary := {
  su_Source : string; su_Accepted : Z; su_Junk : Z; su_Contacted : Z; su_Replied : Z; su_Pilot : Z;
  su_Migration : Z }.

Definition empty_summary (source : string) : SourceOutcomeSummary := {|
  su_Source := source; su_Accepted := 0; su_Junk := 0; su_Contacted := 0; su_Replied := 0;
  su_Pilot := 0; su_Migration := 0 |}.

Definition sum_stats (m : gmap string SourceOutcomeSummary) (row : SourceStatsDoc)
    : gmap string SourceOutcomeSummary :=
  let source := st_Source row in
  if String.eqb source estr then m
  else
    let e := default (empty_summary source) (m !! source) in
    <[source := {|
      su_Source := su_Source e; su_Accepted := su_Accepted e + st_Accepted row;
      su_Junk := su_Junk e + st_Junk row; su_Contacted := su_Contacted e + st_Contacted row;
      su_Replied := su_Replied e + st_Replied row; su_Pilot := su_Pilot e + st_Pilot row;
      su_Migration := su_Migration e + st_Migration row |}]> m.

Definition sum_outcome (m : gmap string SourceOutcomeSummary) (row : OutcomeSourceRow)
    : gmap string SourceOutcomeSummary :=
  let source := os_Source row in
  let e := default (empty_summary source) (m !! source) in
  let add o n := if String.eqb (os_Outcome row) o then n + os_Count row else n in
  <[source := {|
    su_Source := su_Source e; su_Accepted := su_Accepted e; su_Junk := su_Junk e;
    su_Contacted := add OutcomeContacted (su_Contacted e); su_Replied := add OutcomeReplied (su_Replied e);
    su_Pilot := add OutcomePilotStarted (su_Pilot e);
    su_Migration := add OutcomeMigrationImported (su_Migration e) |}]> m.

Definition sourceOutcomeScore (row : SourceOutcomeSummary) : Z :=
  su_Pilot row * 100 + su_Migration row * 80 + su_Replied row * 20 + su_Contacted row * 5 + su_Accepted row.

(** The inner loop of the sort: [x] stands at its place and the rows after it are compared. *)
Fixpoint select_best (x : SourceOutcomeSummary) (rows : list SourceOutcomeSummary)
    : SourceOutcomeSummary * list SourceOutcomeSummary :=
  match rows with
  | [] => (x, [])
  | y :: rows =>
      if sourceOutcomeScore x <? sourceOutcomeScore y
      then let '(best, rest) := select_best y rows in (best, x :: rest)
      else let '(best, rest) := select_best x rows in (best, y :: rest)
  end.

Fixpoint sort_summaries (n : nat) (rows : list SourceOutcomeSummary) : list SourceOutcomeSummary :=
  match n, rows with
  | S n, x :: rows => let '(best, rest) := select_best x rows in best :: sort_summaries n rest
  | _, _ => rows
  end.

Definition sortSourceOutcomeSummaries (rows : list SourceOutcomeSummary) : list SourceOutcomeSummary :=
  sort_summaries (length rows) rows.

(** [visit] is the order of the [range] over the map. *)
Definition buildSourceOutcomeSummaries
    (visit : gmap string SourceOutcomeSummary → list (string * SourceOutcomeSummary))
    (stats : list SourceStatsDoc) (outcomes : list OutcomeSourceRow) : list SourceOutcomeSummary :=
  take 30 (sortSourceOutcomeSummaries (visit (foldl sum_outcome (foldl sum_stats ∅ stats) outcomes)).*2).

(** *** Telegram people ([telegram_people.go]) *)

Record TelegramPeopleSyncInput := {
  pi_UserID : Z; pi_PersonUsername : string; pi_OutreachFit : string; pi_SourceChat : string;
  pi_SourceChatRef : string; pi_DiscoveredVia : string; pi_ProfileBio : string;
  pi_MemberChat : string; pi_MemberChatKey : string }.

Definition or_old (new old : string) : string := if String.eqb new estr then old else new.
Definition add_to_set (v : string) (l : list string) : list string :=
  if String.eqb v estr || mem v l then l else l ++ [v].

Definition empty_person (id : Z) : TelegramPersonDoc := {|
  tp_UserID := id; tp_PersonKey := estr; tp_PersonUsername := estr; tp_OutreachFit := estr;
  tp_SourceChat := estr; tp_SourceChatRef := estr; tp_DiscoveredVia := estr; tp_ProfileBio := estr;
  tp_MemberChats := []; tp_MemberChatRefs := []; tp_MemberEdges := []; tp_UpdatedAt := zero_time |}.

Definition sync_person (t : Time) (row : TelegramPeopleSyncInput) (old : TelegramPersonDoc)
    : TelegramPersonDoc :=
  let personKey := TelegramPersonKey (pi_UserID row) in
  let sourceRef := TrimSpace (pi_SourceChatRef row) in
  let sourceRef := if String.eqb sourceRef estr then TelegramChatRefFromUsername (pi_SourceChat row)
                   else sourceRef in
  let memberRef := TelegramChatRef (pi_MemberChatKey row) in
  let memberRef := if String.eqb memberRef estr then TelegramChatRefFromUsername (pi_MemberChat row)
                   else memberRef in
  let source := TrimSpace (pi_SourceChat row) in
  let member := TrimSpace (pi_MemberChat row) in {|
  tp_UserID := pi_UserID row; tp_PersonKey := personKey;
  tp_PersonUsername := TrimSpace (TrimPrefix (pi_PersonUsername row) "@");
  tp_OutreachFit := TrimSpace (pi_OutreachFit row);
  tp_SourceChat := if String.eqb source estr then tp_SourceChat old else ToLower (TrimPrefix source "@");
  tp_SourceChatRef := or_old sourceRef (tp_SourceChatRef old);
  tp_DiscoveredVia := or_old (TrimSpace (pi_DiscoveredVia row)) (tp_DiscoveredVia old);
  tp_ProfileBio := or_old (TrimSpace (pi_ProfileBio row)) (tp_ProfileBio old);
  tp_MemberChats := if String.eqb member estr then tp_MemberChats old
                    else let m := ToLower (TrimPrefix member "@") in
                         if mem m (tp_MemberChats old) then tp_MemberChats old else tp_MemberChats old ++ [m];
  tp_MemberChatRefs := add_to_set memberRef (tp_MemberChatRefs old);
  tp_MemberEdges := if String.eqb memberRef estr then tp_MemberEdges old
                    else add_to_set (TelegramMemberEdgeKey memberRef personKey) (tp_MemberEdges old);
  tp_UpdatedAt := t |}.

(** The rows are written one by one; the count is lost when a write fails. *)
Fixpoint sync_rows (t : Time) (rows : list TelegramPeopleSyncInput) (upserted : Z) : Act Z :=
  match rows with
  | [] => done upserted
  | row :: rows =>
      if pi_UserID row <=? 0 then sync_rows t rows upserted
      else
        let! s := get_state in
        let old := cm_people s !! pi_UserID row in
        let new := sync_person t row (default (empty_person (pi_UserID row)) old) in
        must_write "person" (Itoa (pi_UserID row)) (put_people (<[pi_UserID row := new]> (cm_people s))) ;;!
        sync_rows t rows (if bool_decide (old = Some new) then upserted else upserted + 1)
  end.

Definition SyncTelegramPeople (rows : list TelegramPeopleSyncInput) : Act Z :=
  match rows with
  | [] => done 0
  | _ => let! t := now in sync_rows t rows 0
  end.

(** The rows of the export file, which is not modelled. *)
Definition ExportTelegramPeopleNDJSON (exportMaxRows limit : Z) : Act (list TelegramPersonDoc) :=
  let limit := if (limit <=? 0) || (exportMaxRows <? limit) then exportMaxRows else limit in
  read "people" (λ s, FillTelegramPersonCanonicalKeys <$> take (Z.to_nat limit)
    (sort_slice (λ a b, tp_UpdatedAt b <? tp_UpdatedAt a) (map_to_list (cm_people s)).*2)).

(** *** The feedback report ([feedback.go], [outcome_report.go]) *)

Record FeedbackReport := {
  fr_TopDorks : list OutcomeDorkRow; fr_TopSources : list SourceOutcomeSummary;
  fr_KeywordTune : list KeywordTuneRow; fr_DisabledDork : Z }.

Definition as_stats (d : SourceStatsDoc) : SourceStats := {|
  ss_Source := st_Source d; ss_Accepted := st_Accepted d; ss_Junk := st_Junk d |}.

(** [channels] and [disabled] are the contents of the two files. *)
Definition BuildFeedbackReport
    (visit : gmap string SourceOutcomeSummary → list (string * SourceOutcomeSummary))
    (visit_dorks : gmap string OutcomeDorkRow → list (string * OutcomeDorkRow))
    (channels : disk (list channel_row)) (disabled : option (list string)) : Act FeedbackReport :=
  let! outcomes := AggregateOutcomeBySource in
  let! s := get_state in
  let! stats := match cm_sourceStats s with
                | Some _ => read "source_stats" (λ s, take 200 (stats_rows s))
                | None => done [] end in
  let dorkRows := BuildOutcomeDorkRows visit_dorks channels (as_stats <$> stats) outcomes in
  let! tune := match cm_keywordStats s with
               | Some docs =>
                   let! docs := trying (read "keyword_stats" (λ s, take 500 docs)) in
                   done (match docs with inl docs => take 30 (BuildKeywordTuneRows docs ∅) | inr _ => [] end)
               | None => done [] end in
  done {| fr_TopDorks := take 20 dorkRows; fr_TopSources := buildSourceOutcomeSummaries visit stats outcomes;
          fr_KeywordTune := tune; fr_DisabledDork := Z.of_nat (CountDisabled disabled) |}.

(** [w] is what becomes of the write of the report file. *)
Definition store_WriteOutcomeDorkReport (visit_dorks : gmap string OutcomeDorkRow → list (string * OutcomeDorkRow))
    (channels : disk (list channel_row)) (w : write_outcome) (report : disk (list OutcomeDorkRow))
    : Act (disk (list OutcomeDorkRow) * bool) :=
  let! outcomes := AggregateOutcomeBySource in
  let! s := get_state in
  let! stats := match cm_sourceStats s with Some _ => read "source_stats" stats_rows | None => done [] end in
  done (WriteOutcomeDorkReport visit_dorks channels (as_stats <$> stats) outcomes w report).

(** *** Entities ([entities.go], [entity_inbox.go], [entity_split.go]) *)

Definition entities_missing : string := "entity store not initialized".
Definition entity_limit (limit : Z) : Z :=
  let limit := if limit <=? 0 then 20 else limit in if 50 <? limit then 50 else limit.

Definition GetEntity (entityID : string) : Act EntityDoc :=
  let! s := get_state in
  let! _ := configured (cm_entities s) entities_missing in
  let entityID := TrimSpace entityID in
  if String.eqb entityID estr then exit_with (ErrText "entity_id empty")
  else
    let! found := read "entity" (λ s, default ∅ (cm_entities s) !! entityID) in
    match found with Some d => done d | None => exit_with ErrNotFound end.

Definition tier_in (minTier : string) (d : EntityDoc) : bool :=
  match HeatTiersAtOrAbove minTier with
  | [] => true
  | tiers => mem (ht_HeatTier (ed_Heat d)) tiers
  end.

Definition hotter (a b : EntityDoc) : comparison :=
  let x := ht_HeatScore (ed_Heat a) in let y := ht_HeatScore (ed_Heat b) in
  if SFltb y x then Lt else if SFltb x y then Gt else Eq.
Definition more_recent (a b : EntityDoc) : comparison :=
  tl_LastSeen (ed_Time b) ?= tl_LastSeen (ed_Time a).
Definition more_sightings (a b : EntityDoc) : comparison :=
  ag_SightingCount (ed_Agg b) ?= ag_SightingCount (ed_Agg a).

Fixpoint entities_by (keys : list (EntityDoc → EntityDoc → comparison)) (a b : EntityDoc) : bool :=
  match keys with
  | [] => false
  | key :: keys => match key a b with Lt => true | Gt => false | Eq => entities_by keys a b end
  end.

Definition find_entities (keys : list (EntityDoc → EntityDoc → comparison)) (f : EntityDoc → bool) (s : Crm)
    : list EntityDoc :=
  sort_slice (entities_by keys) (List.filter f (map_to_list (default ∅ (cm_entities s))).*2).

Definition ListEntities (minTier : string) (limit : Z) : Act (list EntityDoc) :=
  let! s := get_state in
  let! _ := configured (cm_entities s) entities_missing in
  read "entities" (λ s, take (Z.to_nat (entity_limit limit))
    (find_entities [hotter; more_recent] (tier_in minTier) s)).

(** The leads of an entity, by its identifier or by its hashes. *)
Definition linkedLeadsFilter (entityID : string) (hashIDs : list string) (d : Doc) : bool :=
  (negb (String.eqb entityID estr) && String.eqb (get_str "entity_id" d) entityID)
  || mem (get_str "hash_id" d) hashIDs.

Definition ListEntityLeads (entityID : string) (limit : Z) : Act (list Doc) :=
  let entityID := TrimSpace entityID in
  if String.eqb entityID estr then exit_with (ErrText "entity_id empty")
  else
    let limit := if limit <=? 0 then 10 else limit in
    let limit := if 50 <? limit then 50 else limit in
    let! doc := GetEntity entityID in
    read "entity_leads" (λ s, leadCardProjection <$> take (Z.to_nat limit)
      (find_leads heat_order (linkedLeadsFilter entityID (ag_HashIDs (ed_Agg doc))) s)).

(** A card with the fields the leads fill in. *)
Record InboxRow := {
  ib_Card : InboxCard; ib_EntityProof : string; ib_OutreachAngle : string;
  ib_BestContactChannel : string; ib_EngagePriority : Z; ib_NewLeadCount : Z }.

Definition inbox_row (d : EntityDoc) : InboxRow := {|
  ib_Card := BuildInboxCard d; ib_EntityProof := ic_EntityProof (BuildInboxCard d);
  ib_OutreachAngle := estr; ib_BestContactChannel := estr; ib_EngagePriority := 0; ib_NewLeadCount := 0 |}.

Definition with_count (n : Z) (r : InboxRow) : InboxRow := {|
  ib_Card := ib_Card r; ib_EntityProof := ib_EntityProof r; ib_OutreachAngle := ib_OutreachAngle r;
  ib_BestContactChannel := ib_BestContactChannel r; ib_EngagePriority := ib_EngagePriority r;
  ib_NewLeadCount := n |}.

Definition with_best (best : Doc) (r : InboxRow) : InboxRow := {|
  ib_Card := ib_Card r; ib_EntityProof := or_old (ib_EntityProof r) (TrimSpace (get_str "entity_proof" best));
  ib_OutreachAngle := or_old (ib_OutreachAngle r) (TrimSpace (get_str "outreach_angle" best));
  ib_BestContactChannel := or_old (ib_BestContactChannel r) (TrimSpace (get_str "contact_channel" best));
  ib_EngagePriority := Z.max (ib_EngagePriority r) (get_int "engage_priority" best);
  ib_NewLeadCount := ib_NewLeadCount r |}.

Definition new_lead_of (d : EntityDoc) (minEngage : Z) (lead : Doc) : bool :=
  linkedLeadsFilter (TrimSpace (ed_EntityID d)) (ag_HashIDs (ed_Agg d)) lead
  && String.eqb (get_str "status" lead) "new"
  && (negb (0 <? minEngage) || (minEngage <=? get_int "engage_priority" lead)).

Definition enrichInboxFromLeads (d : EntityDoc) (minEngage : Z) (r : InboxRow) : Act InboxRow :=
  if String.eqb (TrimSpace (ed_EntityID d)) estr && is_empty (ag_HashIDs (ed_Agg d)) then done r
  else
    let! n := trying (read "new_leads" (λ s,
      Z.of_nat (length (List.filter (new_lead_of d minEngage) (docs_of (cm_leads s)))))) in
    let r := match n with inl n => with_count n r | inr _ => r end in
    let! best := trying (read "best_lead" (λ s, head (find_leads
      [desc_num "engage_priority"; desc_num "entity_heat"; desc_score] (new_lead_of d minEngage) s))) in
    done (match best with inl (Some best) => with_best best r | _ => r end).

Record EntityInboxFilter := {
  ef_MinTier : string; ef_MinSightings : Z; ef_OnlyNeedsWork : bool; ef_MinEngagePriority : Z; ef_Limit : Z }.

Definition pending_review (d : EntityDoc) : bool :=
  existsb (λ r, String.eqb (rs_Status r) "pending") (rv_ReviewSuggestions (ed_Review d)).

Definition inbox_filter (f : EntityInboxFilter) (d : EntityDoc) : bool :=
  let minSightings := if ef_MinSightings f <=? 0 then 2 else ef_MinSightings f in
  (minSightings <=? ag_SightingCount (ed_Agg d)) && tier_in (ef_MinTier f) d
  && (negb (ef_OnlyNeedsWork f) || rv_NeedsReview (ed_Review d) || rv_ClassifyForce (ed_Review d)
      || pending_review d).

Definition fetchLimit (f : EntityInboxFilter) : Z :=
  let limit := entity_limit (ef_Limit f) in
  if (0 <? ef_MinEngagePriority f) && (limit <? 50) then Z.min (limit * 3) 100 else limit.

(** The cards of the rows read, up to the limit. *)
Fixpoint inbox_rows (f : EntityInboxFilter) (docs : list EntityDoc) (room : nat) : Act (list InboxRow) :=
  match docs, room with
  | [], _ | _, O => done []
  | d :: docs, S room' =>
      let! r := enrichInboxFromLeads d (ef_MinEngagePriority f) (inbox_row d) in
      if (0 <? ef_MinEngagePriority f) && (ib_EngagePriority r <? ef_MinEngagePriority f)
      then inbox_rows f docs room
      else let! rest := inbox_rows f docs room' in done (r :: rest)
  end.

Definition ListEntityInbox (f : EntityInboxFilter) : Act (list InboxRow) :=
  let! s := get_state in
  let! _ := configured (cm_entities s) entities_missing in
  let! docs := read "inbox" (λ s, take (Z.to_nat (fetchLimit f))
    (find_entities [hotter; more_sightings; more_recent] (inbox_filter f) s)) in
  inbox_rows f docs (Z.to_nat (entity_limit (ef_Limit f))).

Definition GetEntityInbox (entityID : string) : Act InboxRow :=
  let! d := GetEntity entityID in enrichInboxFromLeads d 0 (inbox_row d).

Definition ListPendingReviewSuggestions (limit : Z) : Act (list EntityDoc) :=
  let! s := get_state in
  let! _ := configured (cm_entities s) entities_missing in
  read "suggestions" (λ s, take (Z.to_nat (entity_limit limit))
    (find_entities [more_recent] pending_review s)).

Definition markClassifyForce (entityID : string) : Act bool :=
  let! s := get_state in
  match cm_entities s with
  | None => done true
  | Some _ =>
      if String.eqb entityID estr then done true
      else write "classify_force" entityID
             (λ s, put_entities (MarkClassifyForce entityID (default ∅ (cm_entities s))) s)
  end.

Definition MarkEntityClassifyForce (entityID : string) : Act bool := markClassifyForce (TrimSpace entityID).

Definition EntitiesEnabled (s : Crm) : bool := bool_decide (is_Some (cm_entities s)).
End store.

(** ** Splitting a hash off an entity ([entity_split.go]) *)

Record EntitySplitResult := {
  er_SourceEntityID : string; er_NewEntityID : string; er_HashID : string; er_SourceDeleted : bool }.

(** The zero value. *)
Definition no_split : EntitySplitResult := {|
  er_SourceEntityID := estr; er_NewEntityID := estr; er_HashID := estr; er_SourceDeleted := false |}.

Definition entitySightingByHash (d : EntityDoc) (hashID : string) : option EntitySighting :=
  List.find (λ s, String.eqb (sg_HashID s) hashID) (tl_Sightings (ed_Time d)).

Definition storedContactsToExtract (l : list StoredContact) : list Contact :=
  (λ c, MkContact (st_Type c) (st_Value c)) <$> l.

Definition leadSightingSourceFromDoc (lead : Doc) : LeadSightingSource := {|
  ls_Source := get_str "source" lead; ls_Title := get_str "title" lead;
  ls_CompanyName := get_str "company_name" lead; ls_DisplayName := get_str "display_name" lead;
  ls_GravatarName := get_str "gravatar_name" lead;
  ls_Contacts := storedContactsToExtract (get_contacts "contacts" lead);
  ls_Snippet := get_str "snippet" lead; ls_Stack := get_strs "stack" lead;
  ls_Score := get_int "score" lead; ls_Matched := get_strs "matched" lead;
  ls_PostedAt := get_time "posted_at" lead |}.

(** [InsertOne] fails on an identifier that is taken. *)
Definition insert_entity (d : EntityDoc) (docs : Docs) : Docs :=
  match docs !! ed_EntityID d with Some _ => docs | None => <[ed_EntityID d := d]> docs end.
Definition replace_entity (id : string) (d : EntityDoc) (docs : Docs) : Docs :=
  match docs !! id with Some _ => <[id := d]> docs | None => docs end.

(** The assignment to [NeedsReview] at the end of [SplitHashFromEntity], which leaves a new
    document as it is. *)
Definition without_review (d : EntityDoc) : EntityDoc :=
  let r := ed_Review d in
  set_review d {|
    rv_UnifiedPain := rv_UnifiedPain r; rv_ActorConfidence := rv_ActorConfidence r;
    rv_BuyerIntent := rv_BuyerIntent r; rv_NeedsReview := false;
    rv_EntityClassifiedAt := rv_EntityClassifiedAt r; rv_SemanticCluster := rv_SemanticCluster r;
    rv_ClassifyForce := rv_ClassifyForce r; rv_ReviewSuggestions := rv_ReviewSuggestions r |}.

Definition split_lead_patch (d : EntityDoc) : Doc := {[
  "entity_id" := BStr (ed_EntityID d); "entity_heat" := BDouble (ht_HeatScore (ed_Heat d));
  "heat_tier" := BStr (ht_HeatTier (ed_Heat d));
  "entity_sighting_count" := BInt (ag_SightingCount (ed_Agg d));
  "entity_source_count" := BInt (ag_SourceCount (ed_Agg d)) ]}.

Section split.
Context `{Sorter} `{HtmlLib} (visit : list string → list string) (blacklist : validate_state).
Context (heat : HeatConfig).
Context (crm_ok : list crm_call → crm_call → bool) (crm_now : list crm_call → Time).

Abbreviation read := (read crm_ok).
Abbreviation write := (write crm_ok).

Definition on_entities (f : Docs → Docs) (s : Crm) : Crm := put_entities (f (default ∅ (cm_entities s))) s.

(** The writes of the rollback; their results are not looked at. *)
Definition rollbackSplitEntity (newID : string) (backup : EntityDoc) (sourceDeleted : bool) : Act unit :=
  let! _ := write "rollback_delete" newID (on_entities (delete newID)) in
  if sourceDeleted
  then let! _ := write "rollback_insert" (ed_EntityID backup) (on_entities (insert_entity backup)) in done tt
  else let! _ := write "rollback_replace" (ed_EntityID backup)
         (on_entities (replace_entity (ed_EntityID backup) backup)) in done tt.

(** A write that is rolled back when it fails. *)
Definition guarded (what key text newID : string) (backup : EntityDoc) (deleted : bool) (f : Crm → Crm) : Act unit :=
  let! ok := write what key f in
  if ok : bool then done tt
  else rollbackSplitEntity newID backup deleted ;;! exit_with (ErrWrapped text ErrDriver).

(** The writes of a split that has been computed. *)
Definition store_split (entityID hashID : string) (source newDoc rest : EntityDoc) (r : SplitHashResult)
    : Act EntitySplitResult :=
  let newID := ed_EntityID newDoc in
  let deleted := EntityReview.sr_SourceDeleted r in
  let! s := get_state in
  let taken := bool_decide (is_Some (default ∅ (cm_entities s) !! newID)) in
  let! ok := write "insert_entity" newID (on_entities (insert_entity newDoc)) in
  if negb ok || taken then exit_with (ErrWrapped "insert split entity: " ErrDriver)
  else
    (if deleted
     then guarded "delete_source" entityID "delete empty source entity: " newID source deleted
            (on_entities (delete entityID))
     else guarded "replace_source" entityID "update source entity: " newID source deleted
            (on_entities (replace_entity entityID rest))) ;;!
    guarded "lead_entity" hashID "update lead entity_id: " newID source deleted
      (λ s, put_leads (update_one hashID (split_lead_patch newDoc) (cm_leads s)) s) ;;!
    let! ok := markClassifyForce crm_ok newID in
    if negb ok then exit_with (ErrWrapped "flag new entity classify: " ErrDriver)
    else
      let! ok := if deleted then done true else markClassifyForce crm_ok entityID in
      if negb ok then exit_with (ErrWrapped "flag source entity classify: " ErrDriver)
      else done {| er_SourceEntityID := EntityReview.sr_SourceEntityID r;
                   er_NewEntityID := EntityReview.sr_NewEntityID r;
                   er_HashID := EntityReview.sr_HashID r; er_SourceDeleted := deleted |}.

(** An entity found under the new identifier is another one, or the source itself: then nothing
    is written and the zero result is returned without an error. *)
Definition SplitEntityHash (entityID rawHash : string) : Act EntitySplitResult :=
  let! s := get_state in
  let! _ := configured (cm_entities s) entities_missing in
  let entityID := TrimSpace entityID in
  if String.eqb entityID estr then exit_with (ErrText "entity_id empty")
  else
    let! hashID := ResolveHashID crm_ok rawHash in
    let! source := GetEntity crm_ok entityID in
    if negb (EntityHashKnown source hashID) then exit_with (ErrSplit ErrSplitHashMissing)
    else
      let! lead := read "lead_for_split" (λ s, cm_leads s !! hashID) in
      match lead with
      | None => exit_with ErrNotFound
      | Some lead =>
          match entitySightingByHash source hashID with
          | None => exit_with (ErrSplit ErrSplitHashMissing)
          | Some sight =>
              let! t := now crm_now in
              let splitIn := SightingInputFromLead t (leadSightingSourceFromDoc lead) sight in
              match SplitHashFromEntity t visit blacklist source hashID splitIn heat with
              | inl e => exit_with (ErrSplit e)
              | inr (r, newDoc, rest) =>
                  let newDoc := without_review newDoc in
                  let! existing := read "existing" (λ s, default ∅ (cm_entities s) !! ed_EntityID newDoc) in
                  match existing with
                  | Some d =>
                      if String.eqb (ed_EntityID d) entityID then done no_split
                      else exit_with (ErrText "target entity_id already exists; resolve merge manually")
                  | None => store_split entityID hashID source newDoc rest r
                  end
              end
          end
      end.
End split.
