(* ===== verification/CrmFacts.v ===== *)
(** Facts about the CRM store (CrmStore.v): paging through a list, looking a lead up by a prefix,
    what a deletion deletes, the words that reach a lead, and what a split leaves behind. *)
From S2P Require Import Prelude Unicode GoStrings Utf8Facts TextFacts GoSort Matcher Registry.
From S2P Require Import Scoring Hashes Validate SourceRep Extract Item Entity.
From S2P Require Import EntityKeys EntityKeyFacts EntityDoc EntityStore EntityReview.
From S2P Require Import EntityProps.
From S2P Require Import EntityWitnesses LeadStore SourceRegistry.
From S2P Require Import ProxyBudget SourceDisable DorkDisable Discover Suggestions Effects.
From S2P Require Import Quota ColdPath CrmStore.
From Stdlib Require Import Sorted.
From stdpp Require Import sorting.

Local Open Scope Z_scope.
Local Open Scope eff_scope.

(** ** Sorted lists *)

Section sorted.
Context {A : Type} (less : A → A → bool) (W : weak_order less).

Abbreviation sorted := (StronglySorted (λ x y, less y x = false)).

(** Of two sorted lists with the same elements there is only one, when elements that compare
    equal are equal. *)
Lemma sorted_unique l1 l2 :
  (∀ x y, x ∈ l1 → y ∈ l1 → less y x = false → less x y = false → x = y) →
  sorted l1 → sorted l2 → l1 ≡ₚ l2 → l1 = l2.
Proof.
  intros Ht H1 H2 Hp. apply (StronglySorted_unique_strong (λ x y, less y x = false)); [|done..].
  intros x y Hx Hy. apply Ht; [done|by rewrite Hp].
Qed.

Lemma sorted_filter (f : A → bool) l : sorted l → sorted (List.filter f l).
Proof.
  induction 1 as [|x l Hs IH Hx]; [constructor|]. cbn [List.filter].
  destruct (f x); [|done]. constructor; [done|]. apply Forall_forall. intros y Hy.
  apply elem_of_bool_filter in Hy as [Hy _]. rewrite Forall_forall in Hx. by apply Hx.
Qed.

(** Sorting what is left of a list is what is left of the sorted list. *)
Lemma sort_filter `{Sorter} (f : A → bool) l :
  (∀ x y, x ∈ l → y ∈ l → less y x = false → less x y = false → x = y) →
  sort_slice less (List.filter f l) = List.filter f (sort_slice less l).
Proof using W.
  intros Ht. apply sorted_unique.
  - intros x y Hx Hy. apply sort_slice_elem, elem_of_bool_filter in Hx as [Hx _].
    apply sort_slice_elem, elem_of_bool_filter in Hy as [Hy _]. by apply Ht.
  - by apply sort_slice_sorted.
  - by apply sorted_filter, sort_slice_sorted.
  - rewrite sort_slice_perm. apply filter_bool_perm. by rewrite sort_slice_perm.
Qed.

(** What comes after a row of the sorted list. *)
Lemma filter_after l i x :
  sorted l → NoDup l →
  (∀ x y, x ∈ l → y ∈ l → less y x = false → less x y = false → x = y) →
  l !! i = Some x → List.filter (less x) l = drop (S i) l.
Proof using W.
  intros Hs. revert i. induction Hs as [|y l Hs IH Hy]; intros i Hn Ht Hi; [done|].
  apply NoDup_cons in Hn as [Hyl Hn]. rewrite Forall_forall in Hy. cbn [List.filter].
  destruct i as [|i]; cbn [lookup list_lookup drop] in *.
  - injection Hi as <-. assert (less y y = false) as ->.
    { destruct (less y y) eqn:E; [|done]. by rewrite (less_asym less W _ _ E) in E. }
    apply filter_all. intros z Hz. destruct (less y z) eqn:E; [done|].
    exfalso. apply Hyl. rewrite (Ht y z); [done|by left|by right|by apply Hy|done].
  - assert (Hx : x ∈ l) by by eapply list_elem_of_lookup_2. rewrite (Hy x Hx). apply IH; [done| |done].
    intros z w Hz Hw. apply Ht; by right.
Qed.
End sorted.

(** ** Pages of a list *)

Abbreviation by_score := (ordered_by score_order).

Lemma by_score_spec x y :
  by_score x y = true ↔
  get_int "score" y < get_int "score" x
  ∨ (get_int "score" x = get_int "score" y ∧ str_ltb (get_str "hash_id" x) (get_str "hash_id" y) = true).
Proof.
  cbn [ordered_by score_order]. unfold desc_score, asc_hash.
  destruct (Z.compare_spec (get_int "score" y) (get_int "score" x)) as [E|E|E].
  - destruct (str_ltb (get_str "hash_id" x) (get_str "hash_id" y)) eqn:E1;
      [|destruct (str_ltb (get_str "hash_id" y) (get_str "hash_id" x))]; naive_solver lia.
  - naive_solver lia.
  - naive_solver lia.
Qed.

Lemma by_score_false x y :
  by_score x y = false ↔
  get_int "score" x < get_int "score" y
  ∨ (get_int "score" x = get_int "score" y ∧ str_ltb (get_str "hash_id" x) (get_str "hash_id" y) = false).
Proof.
  rewrite <- not_true_iff_false, by_score_spec.
  destruct (str_ltb (get_str "hash_id" x) (get_str "hash_id" y)); naive_solver lia.
Qed.

Lemma by_score_order : weak_order by_score.
Proof.
  split.
  - intros x y Hxy. apply by_score_false. apply by_score_spec in Hxy as [?|[? Hl%str_ltb_asym]]; [by left|by right].
  - intros x y z Hyx Hzy. rewrite by_score_false in *.
    destruct Hyx as [?|[? Hyx]], Hzy as [?|[? Hzy]]; [left; lia..|right]. split; [lia|].
    by eapply str_ltb_trans.
Qed.

Lemma by_score_same x y :
  by_score y x = false → by_score x y = false → get_str "hash_id" x = get_str "hash_id" y.
Proof.
  rewrite !by_score_false. intros [?|[? Hyx]] [?|[? Hxy]]; [lia..|]. by apply str_ltb_antisymm.
Qed.

(** The cursor selects what comes after its row. *)
Lemma cursor_after x y : after_cursor (cursor_of x) y = by_score x y.
Proof.
  apply eq_bool_prop_intro. rewrite !Is_true_true, by_score_spec. unfold after_cursor. cbn.
  rewrite orb_true_iff, andb_true_iff, Z.ltb_lt, Z.eqb_eq. naive_solver.
Qed.

(** The index of the collection: a document is under its hash id. *)
Definition keyed (c : Collection) : Prop := ∀ h d, c !! h = Some d → get_str "hash_id" d = h.

Lemma docs_of_elem c d : d ∈ docs_of c ↔ ∃ h, c !! h = Some d.
Proof.
  unfold docs_of. rewrite list_elem_of_fmap. split.
  - intros ([h d'] & -> & Hd%elem_of_map_to_list). by exists h.
  - intros [h Hd]. exists (h, d). split; [done|]. by apply elem_of_map_to_list.
Qed.

Lemma docs_of_same c x y :
  keyed c → x ∈ docs_of c → y ∈ docs_of c → get_str "hash_id" x = get_str "hash_id" y → x = y.
Proof.
  intros Hk [h Hx]%docs_of_elem [h' Hy]%docs_of_elem E.
  rewrite (Hk _ _ Hx), (Hk _ _ Hy) in E. congruence.
Qed.

Lemma docs_of_NoDup c : keyed c → NoDup (docs_of c).
Proof.
  intros Hk. unfold docs_of. apply (NoDup_fmap_1 (get_str "hash_id")).
  rewrite <- list_fmap_compose. rewrite (list_fmap_ext _ fst).
  - apply NoDup_fst_map_to_list.
  - intros i [h d] Hd%list_elem_of_lookup_2%elem_of_map_to_list. by apply Hk.
Qed.

Section pages.
Context `{Sorter}.
Context (crm_ok : list crm_call → crm_call → bool).
Context (answers : ∀ calls, crm_ok calls (CrmRead "list" true) = true).

Definition with_cursor (c : option ListCursor) (f : ListFilter) : ListFilter := {|
  lf_Status := lf_Status f; lf_SourcePrefix := lf_SourcePrefix f; lf_ContactChannel := lf_ContactChannel f;
  lf_NextAction := lf_NextAction f; lf_Outcome := lf_Outcome f; lf_ScoreMax := lf_ScoreMax f;
  lf_MinEngagePriority := lf_MinEngagePriority f; lf_Limit := lf_Limit f; lf_Cursor := c;
  lf_InboxOnly := lf_InboxOnly f; lf_RawOnly := lf_RawOnly f; lf_Sort := lf_Sort f |}.

(** A client that follows the cursor of each page, for at most [n] pages. *)
Fixpoint follow (n : nat) (f : ListFilter) (s : Crm) : list Doc :=
  match n with
  | O => []
  | S n =>
      match ListLeads crm_ok f s with
      | (inl r, s') => lr_Leads r ++ match lr_NextCursor r with
                                     | Some c => follow n (with_cursor (Some c) f) s'
                                     | None => [] end
      | (inr _, _) => []
      end
  end.

Lemma ListLeads_run f s :
  ListLeads crm_ok f s
  = (inl (page (clampLimit f) (leadCardProjection <$>
       take (Z.to_nat (clampLimit f + 1)) (find_leads (sortSpec f) (list_matchQuery f) s))),
     put_calls (cm_calls s ++ [CrmRead "list" true]) s).
Proof using answers.
  unfold ListLeads, read, call, seq_eff, get_state, modify, done. cbn. by rewrite answers.
Qed.

Lemma clampLimit_pos f : 0 < clampLimit f.
Proof using. unfold clampLimit. destruct (Z.leb_spec (lf_Limit f) 0); case_match; lia. Qed.

(** A list without the filter of raw leads matches what comes after the cursor. *)
Lemma matchQuery_cursor f c d :
  lf_RawOnly f = false →
  list_matchQuery (with_cursor (Some c) f) d = list_matchQuery (with_cursor None f) d && after_cursor c d.
Proof using. unfold list_matchQuery. cbn. intros ->. by rewrite andb_true_r. Qed.

(** The fields of a cursor are on the card. *)
Lemma cursor_card d : cursor_of (leadCardProjection d) = cursor_of d.
Proof using.
  unfold cursor_of, get_int, get_str, leadCardProjection, restrict. f_equal.
  - rewrite map_lookup_filter. by destruct (d !! "score").
  - rewrite map_lookup_filter. by destruct (d !! "hash_id").
Qed.

Lemma cursor_rows f s x i :
  keyed (cm_leads s) → lf_RawOnly f = false →
  find_leads score_order (list_matchQuery (with_cursor None f)) s !! i = Some x →
  find_leads score_order (list_matchQuery (with_cursor (Some (cursor_of x)) f)) s
  = drop (S i) (find_leads score_order (list_matchQuery (with_cursor None f)) s).
Proof using.
  intros Hk Hr Hi. set (L := find_leads _ _ s) in *.
  assert (Hsame : ∀ x y, x ∈ L → y ∈ L → by_score y x = false → by_score x y = false → x = y).
  { intros y z Hy Hz H1 H2. apply sort_slice_elem, elem_of_bool_filter in Hy as [Hy _].
    apply sort_slice_elem, elem_of_bool_filter in Hz as [Hz _].
    apply (docs_of_same (cm_leads s)); [done..|]. by apply by_score_same. }
  rewrite <- (filter_after by_score by_score_order L i x); [..|done].
  - unfold L, find_leads. rewrite <- (sort_filter by_score by_score_order).
    + f_equal. rewrite filter_filter. apply List.filter_ext. intros d.
      rewrite matchQuery_cursor by done. by rewrite cursor_after.
    + intros y z Hy Hz. apply elem_of_bool_filter in Hy as [Hy _], Hz as [Hz _].
      intros H1 H2. apply (docs_of_same (cm_leads s)); [done..|]. by apply by_score_same.
  - apply sort_slice_sorted, by_score_order.
  - unfold L, find_leads. rewrite sort_slice_perm. eapply sublist_NoDup; [by apply docs_of_NoDup|].
    apply filter_sublist.
  - done.
Qed.

(** A page of a list of rows, and the rows after it. *)
Lemma page_split k (D : list Doc) :
  (0 < k)%nat →
  let r := page (Z.of_nat k) (leadCardProjection <$> take (S k) D) in
  lr_Leads r = leadCardProjection <$> take k D
  ∧ lr_NextCursor r = if Nat.ltb k (length D) then cursor_of <$> D !! (k - 1)%nat else None.
Proof using.
  intros Hk. unfold page. rewrite Nat2Z.id, length_fmap, length_take.
  destruct (Nat.ltb_spec k (length D)) as [Hl|Hl].
  - rewrite (proj2 (Nat.ltb_lt k _)) by lia. cbn [lr_Leads lr_NextCursor]. split.
    + rewrite <- fmap_take, take_take. by rewrite Nat.min_l by lia.
    + rewrite list_lookup_fmap, lookup_take_lt by lia. rewrite <- option_fmap_compose.
      apply option_fmap_ext. intros d. apply cursor_card.
  - rewrite (proj2 (Nat.ltb_ge k _)) by lia. cbn [lr_Leads lr_NextCursor]. split; [|done].
    by rewrite !take_ge by lia.
Qed.

(** C24. Paging by score is exact. With the order by score and without the filter of raw leads, a
    client that follows the cursor of each page reads every lead that matches its filter, once,
    in the order of the list: the pages put together are the whole list, whatever the limit of a
    page, and it takes no more pages than there are leads, plus one. *)
Theorem score_pages_exact (f : ListFilter) (s : Crm) (n : nat) :
  keyed (cm_leads s) → ToLower (TrimSpace (lf_Sort f)) = "score" → lf_RawOnly f = false →
  let L := find_leads score_order (list_matchQuery (with_cursor None f)) s in
  (length L < n)%nat → follow n (with_cursor None f) s = leadCardProjection <$> L.
Proof using answers.
  intros Hk Hsort Hr L. set (k := Z.to_nat (clampLimit f)).
  pose proof (clampLimit_pos f) as Hpos.
  enough (Hall : ∀ n i c s', cm_leads s' = cm_leads s →
    find_leads score_order (list_matchQuery (with_cursor c f)) s = drop i L →
    (length (drop i L) < n)%nat → follow n (with_cursor c f) s' = leadCardProjection <$> drop i L).
  { intros Hn. by apply (Hall n 0%nat None). }
  clear n. induction n as [|n IH]; intros i c s' Es Hc Hn; [lia|]. cbn [follow].
  rewrite ListLeads_run. cbn beta iota.
  change (clampLimit (with_cursor c f)) with (clampLimit f).
  assert (sortSpec (with_cursor c f) = score_order) as ->.
  { unfold sortSpec. cbn [lf_Sort with_cursor]. by rewrite Hsort. }
  assert (find_leads score_order (list_matchQuery (with_cursor c f)) s' = drop i L) as ->.
  { rewrite <- Hc. unfold find_leads. by rewrite Es. }
  replace (Z.to_nat (clampLimit f + 1)) with (S k) by lia.
  destruct (page_split k (drop i L)) as [E1 E2]; [lia|].
  replace (Z.of_nat k) with (clampLimit f) in * by lia. rewrite E1, E2.
  destruct (Nat.ltb_spec k (length (drop i L))) as [Hl|Hl];
    [|rewrite app_nil_r; by rewrite take_ge by lia].
  destruct (drop i L !! (k - 1)%nat) as [x|] eqn:Ex; [|apply lookup_ge_None in Ex; lia].
  cbn [fmap option_fmap option_map].
  rewrite <- (take_drop k (drop i L)) at 2. rewrite fmap_app. f_equal. rewrite drop_drop.
  apply (IH (i + k)%nat (Some (cursor_of x)) (put_calls (cm_calls s' ++ [CrmRead "list" true]) s')).
  - done.
  - rewrite (cursor_rows f s x (i + (k - 1))); [|done|done|by rewrite <- lookup_drop].
    f_equal. lia.
  - rewrite length_drop in *. lia.
Qed.
End pages.

(** ** Runs with a driver that answers *)

(** [s'] has the data of [s]. *)
Definition same_data (s s' : Crm) : Prop := ∃ calls, s' = put_calls calls s.

Lemma same_data_leads s s' : same_data s s' → cm_leads s' = cm_leads s.
Proof. by intros [calls ->]. Qed.

Lemma put_calls_trans s s' s'' : same_data s s' → same_data s' s'' → same_data s s''.
Proof. intros [c ->] [c' ->]. by exists c'. Qed.

Lemma trying_run {A} (m : Act A) s : trying m s = (inl (m s).1, (m s).2).
Proof. unfold trying. by destruct (m s) as [[a|e] s']. Qed.

Section reads.
Context (crm_ok : list crm_call → crm_call → bool).
Context (answers : ∀ calls what, crm_ok calls (CrmRead what true) = true).

Lemma read_run {A} what (f : Crm → A) s :
  ∃ calls, read crm_ok what f s = (inl (f (put_calls calls s)), put_calls calls s).
Proof using answers.
  eexists. unfold read, call, seq_eff, get_state, modify, done. cbn. by rewrite answers.
Qed.

Lemma GetByHashID_run h s :
  h ≠ estr → TrimSpace h = h →
  ∃ calls, GetByHashID crm_ok h s =
    (match cm_leads s !! h with Some d => inl (leadCardProjection d) | None => inr ErrNotFound end,
     put_calls calls s).
Proof using answers.
  intros Hh Ht. unfold GetByHashID. rewrite Ht. cbv zeta.
  rewrite (proj2 (String.eqb_neq h estr)) by done. unfold seq_eff at 1.
  destruct (read_run "lead" (λ s, cm_leads s !! h) s) as [calls ->].
  exists calls. cbn [cm_leads put_calls]. by destruct (cm_leads s !! h).
Qed.

(** The hashes of a collection that start with [p]. *)
Definition with_prefix (p : string) (c : Collection) (h : string) : Prop :=
  is_Some (c !! h) ∧ HasPrefix h p = true.

(** What a text resolves to: the hash itself, or the only one it is a prefix of. *)
Definition resolves (raw : string) (c : Collection) (r : string + crm_error) : Prop :=
  let p := TrimSpace raw in
  match r with
  | inl h => p ≠ estr ∧ hashIDPattern p = true ∧ is_Some (c !! h)
             ∧ (h = p ∨ c !! p = None ∧ ∀ h', with_prefix p c h' ↔ h' = h)
  | inr ErrNotFound => ∀ h, ¬ with_prefix p c h
  | inr ErrAmbiguousHash => c !! p = None ∧ ∃ h h', h ≠ h' ∧ with_prefix p c h ∧ with_prefix p c h'
  | inr (ErrText _) => p = estr ∨ hashIDPattern p = false
  | inr _ => False
  end.

(** The hashes of a keyed collection, each once. *)
Lemma hashes_of_NoDup c : keyed c → NoDup (get_str "hash_id" <$> docs_of c).
Proof using.
  intros Hk. unfold docs_of. rewrite <- list_fmap_compose. rewrite (list_fmap_ext _ fst).
  - apply NoDup_fst_map_to_list.
  - intros i [h d] Hd%list_elem_of_lookup_2%elem_of_map_to_list. by apply Hk.
Qed.

Lemma hashes_of_elem c h : keyed c → h ∈ get_str "hash_id" <$> docs_of c ↔ is_Some (c !! h).
Proof using.
  intros Hk. rewrite list_elem_of_fmap. split.
  - intros (d & -> & [h' Hd]%docs_of_elem). rewrite (Hk _ _ Hd). by exists d.
  - intros [d Hd]. exists d. split; [by rewrite (Hk _ _ Hd)|]. apply docs_of_elem. by exists h.
Qed.

Lemma prefixed_elem p c h :
  keyed c →
  h ∈ List.filter (λ h, HasPrefix h p) (get_str "hash_id" <$> docs_of c) ↔ with_prefix p c h.
Proof using. intros Hk. by rewrite elem_of_bool_filter, hashes_of_elem. Qed.

Lemma HasPrefix_refl p : HasPrefix p p = true.
Proof using. rewrite <- (app_nil_r_s p) at 1. apply HasPrefix_app. Qed.

(** A prefix finds the one lead it can mean. With a driver that answers, a text resolves to a
    hash exactly as it should: one that is a stored hash to itself, another one to the only stored
    hash that starts with it; it is not found when no stored hash starts with it, it is ambiguous
    only when two do, and it is refused only when it is empty or not hexadecimal. Resolving
    changes nothing. *)
Theorem ResolveHashID_run raw s :
  keyed (cm_leads s) →
  resolves raw (cm_leads s) (ResolveHashID crm_ok raw s).1 ∧ same_data s (ResolveHashID crm_ok raw s).2.
Proof using answers.
  intros Hk. unfold ResolveHashID, resolves. set (p := TrimSpace raw).
  destruct (String.eqb_spec p estr) as [E|He]; [by repeat split; [left|exists (cm_calls s); destruct s]|].
  destruct (hashIDPattern p) eqn:Hp; cbn [negb];
    [|by repeat split; [right|exists (cm_calls s); destruct s]].
  unfold seq_eff at 1 3. rewrite trying_run.
  destruct (GetByHashID_run p s He) as [calls ->]; [apply TrimSpace_idemp|]. cbn [fst snd].
  destruct (cm_leads s !! p) as [d|] eqn:Ed; [by repeat split; eauto; by exists calls|].
  unfold seq_eff.
  destruct (read_run "prefix" (λ s, take 2 (List.filter (λ h, HasPrefix h p)
    (get_str "hash_id" <$> docs_of (cm_leads s)))) (put_calls calls s)) as [calls' ->].
  cbn [cm_leads put_calls].
  assert (Hn := hashes_of_NoDup _ Hk).
  assert (Hin : ∀ h, h ∈ _ ↔ _) by exact (λ h, prefixed_elem p (cm_leads s) h Hk).
  assert (Hd : NoDup (List.filter (λ h, HasPrefix h p) (get_str "hash_id" <$> docs_of (cm_leads s)))).
  { eapply sublist_NoDup; [exact Hn|apply filter_sublist]. }
  destruct (List.filter _ _) as [|h [|h' l]]; cbn [take fst snd done exit_with]; split; try by exists calls'.
  - intros h Hh%Hin. by apply not_elem_of_nil in Hh.
  - assert (Hh : ∀ h', with_prefix p (cm_leads s) h' ↔ h' = h).
    { intros h'. rewrite <- Hin. by rewrite list_elem_of_singleton. }
    repeat split; [done..|by apply Hh|]. by right.
  - split; [done|]. exists h, h'. repeat split.
    + intros ->. apply NoDup_cons in Hd as [Hd _]. apply Hd. by left.
    + apply Hin. by left.
    + apply Hin. by left.
    + apply Hin. by right; left.
    + apply Hin. by right; left.
Qed.
End reads.

(** ** Deleting *)

Section delete.
Context (crm_ok : list crm_call → crm_call → bool).
Context (answers : ∀ calls what, crm_ok calls (CrmRead what true) = true).

(** What is left of a collection without the documents that match. *)
Definition unmatched (f : DeleteFilter) (c : Collection) : Collection :=
  filter (λ kv, delete_matchQuery f kv.2 = false) c.

(** The hash is that of a document that matches. *)
Definition matched_hash (f : DeleteFilter) (c : Collection) (h : string) : bool :=
  match c !! h with Some d => delete_matchQuery f d | None => false end.

(** The filter a deletion works with: its hash is resolved. *)
Definition resolved_filter (f : DeleteFilter) (c : Collection) (f' : DeleteFilter) : Prop :=
  if String.eqb (TrimSpace (df_HashID f)) estr then f' = f
  else ∃ h, resolves (TrimSpace (df_HashID f)) c (inl h) ∧ f' = with_hash h f.

Lemma wp_resolved_filter f s (Q : DeleteFilter → Crm → Prop) (X : crm_error → Crm → Prop) :
  keyed (cm_leads s) →
  (∀ f' calls, resolved_filter f (cm_leads s) f' → Q f' (put_calls calls s)) →
  (∀ e calls, X e (put_calls calls s)) →
  wp (let hashID := TrimSpace (df_HashID f) in
      if String.eqb hashID estr then done f
      else let! resolved := ResolveHashID crm_ok hashID in done (with_hash resolved f)) Q X s.
Proof using answers.
  intros Hk HQ HX. unfold resolved_filter in HQ. cbv zeta.
  destruct (String.eqb _ _) eqn:E; [by apply wp_done; specialize (HQ f (cm_calls s) eq_refl); destruct s|].
  destruct (ResolveHashID_run crm_ok answers (TrimSpace (df_HashID f)) s Hk) as [Hr [calls Hd]].
  apply wp_bind. unfold wp. destruct (ResolveHashID _ _ _) as [[h|e] s']; cbn in *; subst; [|done].
  apply HQ. by exists h.
Qed.

(** A query about one hash has at most one row. *)
Lemma single_rows f c :
  keyed c → isSingleHashQuery f = true → (length (List.filter (delete_matchQuery f) (docs_of c)) ≤ 1)%nat.
Proof using.
  intros Hk [Ha%negb_true_iff Hh%negb_true_iff]%andb_true_iff.
  assert (Hn : NoDup (List.filter (delete_matchQuery f) (docs_of c))).
  { eapply sublist_NoDup; [by apply docs_of_NoDup|apply filter_sublist]. }
  assert (Hsame : ∀ d, d ∈ List.filter (delete_matchQuery f) (docs_of c) →
    d ∈ docs_of c ∧ get_str "hash_id" d = TrimSpace (df_HashID f)).
  { intros d [Hd Hm]%elem_of_bool_filter. split; [done|]. unfold delete_matchQuery in Hm.
    rewrite Ha in Hm. cbn [orb] in Hm. rewrite !andb_true_iff in Hm. destruct Hm as [[[Hm _] _] _].
    unfold field_is in Hm. rewrite Hh in Hm. by apply String.eqb_eq in Hm. }
  destruct (List.filter _ _) as [|d [|d' l']]; cbn; [lia..|]. exfalso.
  apply NoDup_cons in Hn as [Hn _]. apply Hn.
  destruct (Hsame d) as [H1 E1]; [by left|]. destruct (Hsame d') as [H2 E2]; [by right; left|].
  rewrite (docs_of_same c d d'); [by left|done..|congruence].
Qed.

Definition rows_of (f : DeleteFilter) (c : Collection) : list Doc := List.filter (delete_matchQuery f) (docs_of c).
Definition ids_of (rows : list Doc) : list string :=
  List.filter (λ h, negb (String.eqb h estr)) (get_str "hash_id" <$> rows).

(** The rows collected are all the rows there are. *)
Lemma collect_all f c l :
  keyed c → c !! estr = None → (1 < l)%nat →
  Nat.leb l (length (ids_of (take l (rows_of f c)))) && negb (isSingleHashQuery f) = false →
  take l (rows_of f c) = rows_of f c
  ∧ (isSingleHashQuery f = true ∨ (length (rows_of f c) < l)%nat).
Proof using.
  intros Hk Hne Hl [Hids%Nat.leb_gt|Hone%negb_false_iff]%andb_false_iff.
  - assert (ids_of (take l (rows_of f c)) = get_str "hash_id" <$> take l (rows_of f c)) as E.
    { apply filter_all. intros h' (d & -> & Hd)%list_elem_of_fmap.
      apply elem_of_take in Hd as (i & Hi%list_elem_of_lookup_2 & _).
      apply elem_of_bool_filter in Hi as [[h'' Hi]%docs_of_elem _]. rewrite (Hk _ _ Hi).
      apply negb_true_iff, String.eqb_neq. congruence. }
    rewrite E, length_fmap, length_take in Hids. split; [apply take_ge; lia|right; lia].
  - pose proof (single_rows f c Hk Hone) as H1. fold (rows_of f c) in H1.
    split; [apply take_ge; lia|by left].
Qed.

Lemma ids_elem f c h :
  keyed c → c !! estr = None → h ∈ ids_of (rows_of f c) ↔ matched_hash f c h = true.
Proof using.
  intros Hk Hne. unfold ids_of, rows_of, matched_hash.
  rewrite elem_of_bool_filter, list_elem_of_fmap. split.
  - intros [(d & -> & [[h' Hd]%docs_of_elem Hm]%elem_of_bool_filter) _]. by rewrite (Hk _ _ Hd), Hd.
  - destruct (c !! h) as [d|] eqn:Hd; [|done]. intros Hm. split.
    + exists d. split; [by rewrite (Hk _ _ Hd)|]. apply elem_of_bool_filter. split; [|done].
      apply docs_of_elem. by exists h.
    + apply negb_true_iff, String.eqb_neq. congruence.
Qed.

Lemma ids_mem f c h : keyed c → c !! estr = None → mem h (ids_of (rows_of f c)) = matched_hash f c h.
Proof using.
  intros Hk Hne. apply eq_bool_prop_intro. by rewrite !Is_true_true, mem_spec, ids_elem.
Qed.

(** Leaving out the hashes that match leaves the documents that do not. *)
Lemma kept_unmatched f c :
  keyed c → c !! estr = None → filter (λ kv, kv.1 ∉ ids_of (rows_of f c)) c = unmatched f c.
Proof using.
  intros Hk Hne. apply map_filter_ext. intros h d Hd. cbn. rewrite ids_elem by done.
  unfold matched_hash. rewrite Hd. by destruct (delete_matchQuery f d).
Qed.
Definition leave_notes (f : DeleteFilter) (c : Collection) (l : list NoteDoc) : list NoteDoc :=
  List.filter (λ n, negb (matched_hash f c (no_HashID n))) l.
Definition leave_meta (f : DeleteFilter) (c : Collection) (m : gmap string LeadMetaDoc) : gmap string LeadMetaDoc :=
  filter (λ kv, matched_hash f c kv.1 = false) m.

Lemma without_notes f c l :
  keyed c → c !! estr = None → without (ids_of (rows_of f c)) no_HashID l = leave_notes f c l.
Proof using. intros Hk Hne. apply List.filter_ext. intros n. by rewrite ids_mem. Qed.

Lemma without_meta f c (m : gmap string LeadMetaDoc) :
  keyed c → c !! estr = None → filter (λ kv, kv.1 ∉ ids_of (rows_of f c)) m = leave_meta f c m.
Proof using.
  intros Hk Hne. apply map_filter_ext. intros h d Hd. cbn. rewrite ids_elem by done.
  by destruct (matched_hash f c h).
Qed.

(** No row: nothing matches. *)
Lemma no_rows f c :
  keyed c → c !! estr = None → ids_of (rows_of f c) = [] →
  (∀ h, matched_hash f c h = false) ∧ unmatched f c = c.
Proof using.
  intros Hk Hne E. assert (Hm : ∀ h, matched_hash f c h = false).
  { intros h. rewrite <- ids_mem by done. by rewrite E. }
  split; [done|]. apply map_filter_id. intros h d Hd. specialize (Hm h). unfold matched_hash in Hm.
  by rewrite Hd in Hm.
Qed.

Lemma wp_write what key g (Q : bool → Crm → Prop) X s :
  (∀ calls, Q true (g (put_calls calls s))) → (∀ calls, Q false (put_calls calls s)) →
  wp (write crm_ok what key g) Q X s.
Proof using.
  intros Ht Hf. unfold write, call. wp_run; [apply Ht|apply Hf].
Qed.

Lemma wp_must_write what key g (Q : unit → Crm → Prop) (X : crm_error → Crm → Prop) s :
  (∀ calls, Q tt (g (put_calls calls s))) → (∀ calls, X ErrDriver (put_calls calls s)) →
  wp (must_write crm_ok what key g) Q X s.
Proof using. intros Ht Hf. unfold must_write. wp_step. apply wp_write; intros; wp_run; auto. Qed.

Lemma wp_read {A} what (g : Crm → A) (Q : A → Crm → Prop) X s :
  (∀ calls, Q (g (put_calls calls s)) (put_calls calls s)) → wp (read crm_ok what g) Q X s.
Proof using answers. intros HQ. unfold wp. destruct (read_run crm_ok answers what g s) as [calls ->]. apply HQ. Qed.

(** What a deletion has left of the collections of [s]. *)
Definition deleted (f : DeleteFilter) (s s' : Crm) : Prop :=
  let c := cm_leads s in
  cm_leads s' = unmatched f c
  ∧ cm_notes s' = leave_notes f c <$> cm_notes s ∧ cm_meta s' = leave_meta f c <$> cm_meta s.

Lemma leave_none f c :
  (∀ h, matched_hash f c h = false) → (∀ l, leave_notes f c l = l) ∧ (∀ m, leave_meta f c m = m).
Proof using.
  intros Hm. split.
  - intros l. apply filter_all. intros n _. by rewrite Hm.
  - intros m. apply map_filter_id. intros h d _. apply Hm.
Qed.

(** C22. A deletion deletes what its filter says, and nothing else. With a driver that answers
    reads, on a collection keyed by its hashes: a deletion that succeeds had a filter, removed
    exactly the leads that match it — the hash of the filter resolved —, their notes and their
    notes' tags and outcomes, and says how many leads; unless the filter names a hash it was fewer
    than ten thousand. One that fails has removed nothing, or it is the notes or the tags whose
    deletion failed, and the leads are gone. *)
Theorem DeleteLeads_exact (f : DeleteFilter) (s : Crm) :
  keyed (cm_leads s) → cm_leads s !! estr = None →
  wp (DeleteLeads crm_ok f)
    (λ r s', Validate f = true ∧ ∃ f', resolved_filter f (cm_leads s) f' ∧ deleted f' s s'
       ∧ de_Leads r = Z.of_nat (size (cm_leads s) - size (unmatched f' (cm_leads s)))
       ∧ (isSingleHashQuery f' = true ∨ (length (rows_of f' (cm_leads s)) < maxAdminDeleteBatch)%nat))
    (λ e s', same_data s s'
       ∨ ∃ f' text, e = ErrWrapped text ErrDriver ∧ resolved_filter f (cm_leads s) f'
           ∧ cm_leads s' = unmatched f' (cm_leads s)) s.
Proof using answers.
  intros Hk Hne. unfold DeleteLeads. wp_step; [wp_step; left; by exists (cm_calls s); destruct s|].
  apply negb_false_iff in E. wp_step. apply wp_resolved_filter; [done| |by intros e calls; left; exists calls].
  intros f' c1 Hf. unfold collectHashIDs. wp_step. wp_step. apply wp_read. intros c2.
  cbn [cm_leads put_calls]. fold (rows_of f' (cm_leads s)).
  fold (ids_of (take maxAdminDeleteBatch (rows_of f' (cm_leads s)))). cbv zeta.
  destruct (Nat.leb _ _ && _) eqn:Hb; [left; by exists c2|].
  apply collect_all in Hb as [-> Hb]; [|done|done|unfold maxAdminDeleteBatch; lia].
  wp_step. destruct (ids_of (rows_of f' (cm_leads s))) as [|i ids] eqn:Ei.
  { apply no_rows in Ei as [Hm Hu]; [|done..]. destruct (leave_none _ _ Hm) as [Hln Hlm].
    wp_step. split; [done|]. exists f'. unfold deleted. cbn. rewrite Hu. repeat split; [done| | |lia|done].
    - by destruct (cm_notes s); cbn; rewrite ?Hln.
    - by destruct (cm_meta s); cbn; rewrite ?Hlm. }
  rewrite <- Ei. clear i ids Ei. wp_step. wp_step. wp_step.
  apply wp_must_write; intros c3; cbn [cm_leads put_calls]; [|left; by exists c3].
  rewrite kept_unmatched by done. unfold delete_notes, delete_meta.
  pose proof (λ l, without_notes f' (cm_leads s) l Hk Hne) as Hln.
  pose proof (λ m, without_meta f' (cm_leads s) m Hk Hne) as Hlm.
  assert (Hdone : ∀ s', deleted f' s s' →
    Validate f = true ∧ ∃ g, resolved_filter f (cm_leads s) g ∧ deleted g s s'
      ∧ Z.of_nat (size (cm_leads s) - size (unmatched f' (cm_leads s)))
        = Z.of_nat (size (cm_leads s) - size (unmatched g (cm_leads s)))
      ∧ (isSingleHashQuery g = true ∨ (length (rows_of g (cm_leads s)) < maxAdminDeleteBatch)%nat)).
  { intros s' Hs. split; [done|]. by exists f'. }
  wp_run; try (apply wp_write; intros c4; wp_run); try (apply wp_write; intros c5; wp_run).
  all: try (right; eexists f', _; done).
  all: cbn in *; simplify_eq; apply Hdone; unfold deleted; cbn [cm_leads cm_notes cm_meta put_leads put_notes put_meta put_calls];
   repeat match goal with H : _ = _ |- _ => rewrite H end; cbn; by rewrite ?Hln, ?Hlm.
Qed.
End delete.

(** ** What the CRM writes *)

(** The fields of a lead the CRM owns. *)
Definition crm_fields : gset string := list_to_set [
  "status"; "status_at"; "outcome"; "outcome_at"; "outcome_note";
  "entity_id"; "entity_heat"; "heat_tier"; "entity_sighting_count"; "entity_source_count" ].

(** What may become of a lead: its status and its outcome stay or become one of the words. *)
Definition evolved (d d' : Doc) : Prop :=
  (∀ k, k ∉ crm_fields → d' !! k = d !! k)
  ∧ (d' !! "status" = d !! "status" ∨ get_str "status" d' ∈ allowedStatuses)
  ∧ (d' !! "outcome" = d !! "outcome" ∨ get_str "outcome" d' ∈ allowedOutcomes).

Definition evolves (c c' : Collection) : Prop :=
  ∀ h d', c' !! h = Some d' → ∃ d, c !! h = Some d ∧ evolved d d'.

#[export] Instance evolved_preorder : PreOrder evolved.
Proof.
  split; [by intros d; repeat split; left|]. intros d d' d'' (Hk & Hs & Ho) (Hk' & Hs' & Ho').
  split; [intros k Hn; by rewrite Hk', Hk|]. unfold get_str in *. split.
  - destruct Hs' as [E|]; [rewrite E|by right]. destruct Hs; [left|right]; done.
  - destruct Ho' as [E|]; [rewrite E|by right]. destruct Ho; [left|right]; done.
Qed.

#[export] Instance evolves_preorder : PreOrder evolves.
Proof.
  split; [by intros c h d Hd; exists d|]. intros c c' c'' H1 H2 h d'' Hd.
  destruct (H2 h d'' Hd) as (d' & Hd' & E2). destruct (H1 h d' Hd') as (d & Hd1 & E1).
  exists d. split; [done|]. by etransitivity.
Qed.

(** A patch of the fields of the CRM, with words for the status and the outcome. *)
Definition crm_patch (set : Doc) : Prop :=
  dom set ⊆ crm_fields
  ∧ (∀ v, set !! "status" = Some v → ∃ st, v = BStr st ∧ st ∈ allowedStatuses)
  ∧ (∀ v, set !! "outcome" = Some v → ∃ o, v = BStr o ∧ o ∈ allowedOutcomes).

Lemma update_evolves h set c : crm_patch set → evolves c (update_one h set c).
Proof.
  intros (Hd & Hs & Ho) h' d'. rewrite update_one_lookup. destruct (decide (h = h')) as [<-|Hn]; [|by exists d'].
  intros (d & -> & Hc)%fmap_Some. exists d. split; [done|]. subst d'. repeat split.
  - intros k Hk. rewrite union_field. destruct (set !! k) eqn:E; [|done].
    exfalso. apply Hk, Hd. apply elem_of_dom. by eexists.
  - unfold get_str. rewrite union_field. destruct (set !! "status") as [v|]; [|by left]. right.
    by destruct (Hs v eq_refl) as (st & -> & ?).
  - unfold get_str. rewrite union_field. destruct (set !! "outcome") as [v|]; [|by left]. right.
    by destruct (Ho v eq_refl) as (o & -> & ?).
Qed.

Lemma filter_evolves (P : string * Doc → Prop) `{!∀ x, Decision (P x)} c : evolves c (filter P c).
Proof. intros h d [Hd _]%map_lookup_filter_Some. by exists d. Qed.

Lemma NormalizeStatus_allowed raw st : NormalizeStatus raw = inl st → st ∈ allowedStatuses.
Proof. unfold NormalizeStatus. case_match eqn:E; [|done]. intros [= <-]. by apply mem_spec. Qed.

Lemma NormalizeOutcome_allowed raw o : NormalizeOutcome raw = inl o → o ∈ allowedOutcomes.
Proof. unfold NormalizeOutcome. case_match eqn:E; [|done]. intros [= <-]. by apply mem_spec. Qed.

Lemma crm_field k : mem k [
  "status"; "status_at"; "outcome"; "outcome_at"; "outcome_note";
  "entity_id"; "entity_heat"; "heat_tier"; "entity_sighting_count"; "entity_source_count" ] = true →
  k ∈ crm_fields.
Proof. intros Hk. by apply elem_of_list_to_set, mem_spec. Qed.

Lemma status_patch st t : st ∈ allowedStatuses → crm_patch {["status" := BStr st; "status_at" := bson_time t]}.
Proof.
  intros Hs. repeat split.
  - rewrite !dom_insert_L, ?dom_singleton_L, ?dom_empty_L. unfold crm_fields. set_solver.
  - intros v. rewrite lookup_insert_eq. intros [= <-]. by exists st.
  - intros v. by rewrite !lookup_insert_ne.
Qed.

Lemma outcome_patch o note t : o ∈ allowedOutcomes → crm_patch (outcome_set o note t).
Proof.
  intros Ho. unfold outcome_set. repeat split.
  - intros k [v Hv]%elem_of_dom. rewrite doc_of_lookup in Hv. cbn [first_field] in Hv.
    destruct (String.eqb_spec "outcome" k) as [<-|]; [by apply crm_field|].
    destruct (String.eqb_spec "outcome_at" k) as [<-|]; [by apply crm_field|].
    by destruct (String.eqb_spec "outcome_note" k) as [<-|]; [apply crm_field|].
  - intros v. by rewrite doc_of_lookup.
  - intros v. rewrite doc_of_lookup. cbn. intros [= <-]. by exists o.
Qed.

Lemma entity_patch d : crm_patch (split_lead_patch d).
Proof.
  unfold split_lead_patch. repeat split.
  - rewrite !dom_insert_L, ?dom_singleton_L, ?dom_empty_L. unfold crm_fields. set_solver.
  - intros v. by rewrite !lookup_insert_ne.
  - intros v. by rewrite !lookup_insert_ne.
Qed.

Section writes.
Context `{Sorter} `{HtmlLib} (visit : list string → list string) (blacklist : validate_state).
Context (heat : HeatConfig).
Context (crm_ok : list crm_call → crm_call → bool) (crm_now : list crm_call → Time).
Context (R : Collection → Prop).

Abbreviation keep m := (keeps (E:=crm_error) (λ s, R (cm_leads s)) m).

Lemma keep_modify f : (∀ s, cm_leads (f s) = cm_leads s) → keep (modify f).
Proof using. intros Hf. apply keeps_modify. intros s. by rewrite Hf. Qed.

Lemma keep_call c : keep (call crm_ok c).
Proof using.
  apply keeps_seq; [apply keeps_get|]. intros s. apply keeps_seq; [|intros _; apply keeps_ret].
  by apply keep_modify.
Qed.

Lemma keep_read {A} what (f : Crm → A) : keep (read crm_ok what f).
Proof using.
  apply keeps_seq; [apply keep_call|]. intros ok. apply keeps_seq; [apply keeps_get|]. intros s.
  destruct ok; [apply keeps_ret|apply keeps_exit].
Qed.

Lemma keep_write what key f : (∀ s, R (cm_leads s) → R (cm_leads (f s))) → keep (write crm_ok what key f).
Proof using.
  intros Hf. apply keeps_seq; [apply keep_call|]. intros [|]; [|apply keeps_ret].
  apply keeps_seq; [by apply keeps_modify|intros _; apply keeps_ret].
Qed.

Lemma keep_must_write what key f :
  (∀ s, R (cm_leads s) → R (cm_leads (f s))) → keep (must_write crm_ok what key f).
Proof using.
  intros Hf. apply keeps_seq; [by apply keep_write|]. intros [|]; [apply keeps_ret|apply keeps_exit].
Qed.

Lemma keep_trying {A} (m : Act A) : keep m → keep (trying m).
Proof using. intros Hm s Hs. rewrite trying_run. by apply Hm. Qed.

Lemma keep_lift {A B} (r : A + crm_error) (k : A → Act B) :
  (∀ a, r = inl a → keep (k a)) → keep (seq_eff (lift r) k).
Proof using. intros Hk. destruct r as [a|e]; [exact (Hk a eq_refl)|]. by intros s. Qed.

Lemma keep_now : keep (now crm_now).
Proof using. apply keeps_seq; [apply keeps_get|]. intros s. apply keeps_ret. Qed.
End writes.

Create HintDb crm.
#[export] Hint Resolve keeps_ret keeps_exit keeps_get keep_call keep_read keep_now : crm.

(** One step through an operation, all of whose writes are looked at one by one. *)
Ltac crm_step :=
  match goal with
  | |- keeps (λ s, ?R (cm_leads s)) (seq_eff (lift _) _) => apply (keep_lift R); intros ? ?
  | |- keeps _ (seq_eff _ _) => apply keeps_seq; [|intros ?]
  | |- keeps _ (match ?x with _ => _ end) => destruct x eqn:?
  | |- keeps _ (if ?x then _ else _) => destruct x eqn:?
  | |- keeps _ (let _ := _ in _) => cbv zeta
  | |- keeps _ (configured ?x _) => unfold configured
  | |- keeps (λ s, ?R (cm_leads s)) (trying _) => apply (keep_trying R)
  | |- keeps (λ s, ?R (cm_leads s)) (write ?ok _ _ _) => apply (keep_write ok R)
  | |- keeps (λ s, ?R (cm_leads s)) (must_write ?ok _ _ _) => apply (keep_must_write ok R)
  | |- keeps _ _ => solve [eauto with crm]
  end.
Ltac crm_keeps := repeat crm_step; try done.

Section operations.
Context `{Sorter} `{HtmlLib} (visit : list string → list string) (blacklist : validate_state).
Context (heat : HeatConfig).
Context (crm_ok : list crm_call → crm_call → bool) (crm_now : list crm_call → Time).
Context (R : Collection → Prop).
Context (patched : ∀ h set c, crm_patch set → R c → R (update_one h set c)).

Abbreviation keep m := (keeps (E:=crm_error) (λ s, R (cm_leads s)) m).

Lemma keep_get h : keep (GetByHashID crm_ok h).
Proof using. unfold GetByHashID. crm_keeps. Qed.
#[local] Hint Resolve keep_get : crm.

Lemma keep_resolve h : keep (ResolveHashID crm_ok h).
Proof using. unfold ResolveHashID. crm_keeps. Qed.
#[local] Hint Resolve keep_resolve : crm.

Lemma keep_existing h : keep (resolveExistingHash crm_ok h).
Proof using. unfold resolveExistingHash. crm_keeps. Qed.
#[local] Hint Resolve keep_existing : crm.

Lemma keep_update what h set : crm_patch set → keep (update_lead crm_ok what h set).
Proof using patched. intros Hs. unfold update_lead. crm_keeps. intros s Hr. by apply patched. Qed.
#[local] Hint Resolve keep_update status_patch outcome_patch entity_patch : crm.
#[local] Hint Resolve NormalizeStatus_allowed NormalizeOutcome_allowed : crm.

Lemma keep_status h st : keep (UpdateStatus crm_ok crm_now h st).
Proof using patched.
  unfold UpdateStatus, RecordWebhookSpamFeedback. crm_keeps.
Qed.

Lemma keep_outcome h o note : keep (SetOutcome crm_ok crm_now h o note).
Proof using patched. unfold SetOutcome, RecordOutcomeOnCollection. crm_keeps. Qed.

Lemma keep_note h text author : keep (AddNote crm_ok crm_now h text author).
Proof using. unfold AddNote. crm_keeps. Qed.

Lemma keep_tag h tag : keep (AddTag crm_ok crm_now h tag).
Proof using. unfold AddTag, GetMeta. crm_keeps. Qed.

Lemma keep_explain h summary ttl : keep (SetExplainCache crm_ok crm_now h summary ttl).
Proof using. unfold SetExplainCache. crm_keeps. Qed.

Lemma keep_boost oid st h why : keep (ResolveBoost crm_ok crm_now oid st h why).
Proof using. unfold ResolveBoost. crm_keeps. Qed.

Lemma keep_sync_rows t rows n : keep (sync_rows crm_ok t rows n).
Proof using. revert n. induction rows as [|row rows IH]; intros n; cbn [sync_rows]; crm_keeps; apply IH. Qed.
#[local] Hint Resolve keep_sync_rows : crm.

Lemma keep_people rows : keep (SyncTelegramPeople crm_ok crm_now rows).
Proof using. unfold SyncTelegramPeople. crm_keeps. Qed.

Lemma keep_entity id : keep (GetEntity crm_ok id).
Proof using. unfold GetEntity. crm_keeps. Qed.

Lemma keep_force id : keep (markClassifyForce crm_ok id).
Proof using. unfold markClassifyForce. crm_keeps. Qed.

Lemma keep_rollback id d b : keep (rollbackSplitEntity crm_ok id d b).
Proof using. unfold rollbackSplitEntity. crm_keeps. Qed.
#[local] Hint Resolve keep_entity keep_force keep_rollback : crm.

Lemma keep_split id h : keep (SplitEntityHash visit blacklist heat crm_ok crm_now id h).
Proof using patched.
  unfold SplitEntityHash, store_split, guarded. crm_keeps. all: intros ? Hr; cbn; first [done|apply patched; [apply entity_patch|done]].
Qed.

Lemma keep_delete f :
  (∀ ids c, R c → R (filter (λ kv, kv.1 ∉ (ids : list string)) c)) → keep (DeleteLeads crm_ok f).
Proof using.
  intros Hf. unfold DeleteLeads, collectHashIDs, delete_notes, delete_meta. crm_keeps.
  intros ? Hs. by apply Hf.
Qed.
(** The operations of the CRM that write. *)
Inductive crm_op :=
  | OpStatus (hash status : string) | OpOutcome (hash outcome note : string)
  | OpNote (hash text : string) (author : Z) | OpTag (hash tag : string)
  | OpExplain (hash summary : string) (ttl : Duration)
  | OpBoost (id : option string) (status hash why : string)
  | OpPeople (rows : list TelegramPeopleSyncInput) | OpSplit (entity hash : string)
  | OpDelete (f : DeleteFilter).

Definition crm_step_of (op : crm_op) (s : Crm) : Crm :=
  match op with
  | OpStatus h st => (UpdateStatus crm_ok crm_now h st s).2
  | OpOutcome h o note => (SetOutcome crm_ok crm_now h o note s).2
  | OpNote h text author => (AddNote crm_ok crm_now h text author s).2
  | OpTag h tag => (AddTag crm_ok crm_now h tag s).2
  | OpExplain h summary ttl => (SetExplainCache crm_ok crm_now h summary ttl s).2
  | OpBoost id st h why => (ResolveBoost crm_ok crm_now id st h why s).2
  | OpPeople rows => (SyncTelegramPeople crm_ok crm_now rows s).2
  | OpSplit e h => (SplitEntityHash visit blacklist heat crm_ok crm_now e h s).2
  | OpDelete f => (DeleteLeads crm_ok f s).2
  end.

Definition run_ops (ops : list crm_op) (s : Crm) : Crm := foldl (λ s op, crm_step_of op s) s ops.

Definition is_delete (op : crm_op) : bool := match op with OpDelete _ => true | _ => false end.

Lemma step_keeps op s :
  (is_delete op = true → ∀ ids c, R c → R (filter (λ kv, kv.1 ∉ (ids : list string)) c)) →
  R (cm_leads s) → R (cm_leads (crm_step_of op s)).
Proof using patched.
  intros Hf Hs. destruct op; cbn [crm_step_of].
  - by apply keep_status.
  - by apply keep_outcome.
  - by apply keep_note.
  - by apply keep_tag.
  - by apply keep_explain.
  - by apply keep_boost.
  - by apply keep_people.
  - by apply keep_split.
  - by apply keep_delete; [apply Hf|].
Qed.

Lemma run_keeps ops s :
  (∀ ids c, existsb is_delete ops = true → R c → R (filter (λ kv, kv.1 ∉ (ids : list string)) c)) →
  R (cm_leads s) → R (cm_leads (run_ops ops s)).
Proof using patched.
  revert s. induction ops as [|op ops IH]; intros s Hf Hs; [done|]. cbn. apply IH.
  - intros ids c Hd. apply Hf. cbn. by rewrite Hd, orb_true_r.
  - apply step_keeps; [|done]. intros Hd ids c. apply Hf. cbn. by rewrite Hd.
Qed.
End operations.

(** C11. The CRM never invents a lead and never touches what was found. Whatever operations of the
    CRM run, one after another, whatever fails in them: every lead there is at the end was there
    at the beginning, with all its fields but those of the CRM as they were, a status and an
    outcome that are the old ones or one of the words the CRM knows; and without a deletion no
    lead is lost. *)
Theorem crm_owns_its_fields `{Sorter} `{HtmlLib} (visit : list string → list string)
    (blacklist : validate_state) (heat : HeatConfig) (crm_ok : list crm_call → crm_call → bool)
    (crm_now : list crm_call → Time) (ops : list crm_op) (s : Crm) :
  let s' := run_ops visit blacklist heat crm_ok crm_now ops s in
  evolves (cm_leads s) (cm_leads s')
  ∧ (existsb is_delete ops = true ∨ dom (cm_leads s') = dom (cm_leads s)).
Proof.
  cbv zeta. split.
  - apply (run_keeps visit blacklist heat crm_ok crm_now (evolves (cm_leads s))); [| |reflexivity].
    + intros h set c Hp Hc. etransitivity; [exact Hc|by apply update_evolves].
    + intros ids c _ Hc. etransitivity; [exact Hc|apply filter_evolves].
  - destruct (existsb is_delete ops) eqn:E; [by left|right].
    apply (run_keeps visit blacklist heat crm_ok crm_now (λ c, dom c = dom (cm_leads s))); [| |done].
    + intros h set c _ <-. apply set_eq. intros h'. rewrite !elem_of_dom, update_one_lookup.
      destruct (decide (h = h')) as [<-|]; [by rewrite fmap_is_Some|done].
    + congruence.
Qed.

(** ** Splitting *)

Section split.
Context `{Sorter} `{HtmlLib} (visit : list string → list string) (blacklist : validate_state).
Context (heat : HeatConfig).
Context (crm_ok : list crm_call → crm_call → bool) (crm_now : list crm_call → Time).

(** A computation that only reads. *)
Abbreviation quiet s0 m := (keeps (E:=crm_error) (same_data s0) m).

Lemma quiet_read {A} s0 what (f : Crm → A) : quiet s0 (read crm_ok what f).
Proof using.
  apply keeps_seq; [|intros ok; apply keeps_seq; [apply keeps_get|intros s; destruct ok;
    [apply keeps_ret|apply keeps_exit]]].
  apply keeps_seq; [apply keeps_get|]. intros s. apply keeps_seq; [|intros _; apply keeps_ret].
  apply keeps_modify. intros s' [calls ->]. by eexists.
Qed.

Lemma quiet_get s0 h : quiet s0 (GetByHashID crm_ok h).
Proof using.
  unfold GetByHashID. cbv zeta. destruct (String.eqb _ _); [apply keeps_exit|].
  apply keeps_seq; [apply quiet_read|]. intros [d|]; [apply keeps_ret|apply keeps_exit].
Qed.

Lemma quiet_resolve s0 h : quiet s0 (ResolveHashID crm_ok h).
Proof using.
  unfold ResolveHashID. cbv zeta. destruct (String.eqb _ _); [apply keeps_exit|].
  destruct (hashIDPattern _); [cbn|apply keeps_exit]. apply keeps_seq.
  { intros s Hs. rewrite trying_run. by apply quiet_get. }
  intros [d|[]]; try apply keeps_ret; try apply keeps_exit.
  apply keeps_seq; [apply quiet_read|]. intros [|h' [|? ?]]; [apply keeps_exit|apply keeps_ret|apply keeps_exit].
Qed.

(** Symbolic execution of what only reads. *)
Lemma wp_quiet {A} (m : Act A) s (Q : A → Crm → Prop) (X : crm_error → Crm → Prop) :
  quiet s m → (∀ a calls, Q a (put_calls calls s)) → (∀ e calls, X e (put_calls calls s)) → wp m Q X s.
Proof using.
  intros Hm HQ HX. destruct (Hm s) as [calls Hs]; [by exists (cm_calls s); destruct s|].
  unfold wp. destruct (m s) as [[a|e] s']; cbn in Hs; subst; auto.
Qed.

Lemma wp_read_any {A} what (g : Crm → A) s (Q : A → Crm → Prop) (X : crm_error → Crm → Prop) :
  (∀ calls, Q (g (put_calls calls s)) (put_calls calls s)) → (∀ calls, X ErrDriver (put_calls calls s)) →
  wp (read crm_ok what g) Q X s.
Proof using. intros HQ HX. unfold read, call. wp_run; [apply HQ|apply HX]. Qed.

Context (undo_ok : ∀ calls what key,
  what ∈ ["rollback_delete"; "rollback_insert"; "rollback_replace"] → crm_ok calls (CrmWrite what key true) = true).

Lemma wp_undo what key g (Q : bool → Crm → Prop) X s :
  what ∈ ["rollback_delete"; "rollback_insert"; "rollback_replace"] →
  (∀ calls, Q true (g (put_calls calls s))) → wp (write crm_ok what key g) Q X s.
Proof using undo_ok.
  intros Hw HQ. unfold write, call. repeat wp_step; [apply HQ|by rewrite undo_ok in E].
Qed.

(** What the writes of the split and of its rollback make of the documents. *)
Definition moved_source (deleted : bool) (entityID : string) (rest : EntityDoc) (docs : Docs) : Docs :=
  if deleted then delete entityID docs else replace_entity entityID rest docs.
Definition undone (deleted : bool) (newID : string) (backup : EntityDoc) (docs : Docs) : Docs :=
  if deleted then insert_entity backup (delete newID docs)
  else replace_entity (ed_EntityID backup) backup (delete newID docs).

Lemma undone_insert deleted entityID source newDoc docs :
  docs !! ed_EntityID newDoc = None → docs !! entityID = Some source → ed_EntityID source = entityID →
  undone deleted (ed_EntityID newDoc) source (insert_entity newDoc docs) = docs.
Proof using.
  intros Hn Hs He. unfold undone, insert_entity, replace_entity. rewrite Hn, delete_insert_id, He, Hs by done.
  destruct deleted; [done|by apply insert_id].
Qed.

Lemma undone_moved deleted entityID source newDoc rest docs :
  docs !! ed_EntityID newDoc = None → docs !! entityID = Some source → ed_EntityID source = entityID →
  undone deleted (ed_EntityID newDoc) source (moved_source deleted entityID rest (insert_entity newDoc docs)) = docs.
Proof using.
  intros Hn Hs He. assert (ed_EntityID newDoc ≠ entityID) by congruence.
  unfold undone, moved_source, insert_entity, replace_entity. rewrite Hn, lookup_insert_ne, Hs, He by done.
  destruct deleted.
  - rewrite delete_delete, delete_insert_id by done. rewrite lookup_delete_eq. by apply insert_delete_id.
  - rewrite delete_insert_ne, delete_insert_id by done. rewrite lookup_insert_eq, insert_insert_eq. by apply insert_id.
Qed.

Lemma wp_rollback newID backup deleted docs (Q : unit → Crm → Prop) X s :
  cm_entities s = Some docs →
  (∀ calls, Q tt (put_entities (undone deleted newID backup docs) (put_calls calls s))) →
  wp (rollbackSplitEntity crm_ok newID backup deleted) Q X s.
Proof using undo_ok.
  intros Hd HQ. unfold rollbackSplitEntity, undone in *. wp_step. apply wp_undo; [by apply mem_spec|]. intros c1.
  destruct deleted; wp_step; (apply wp_undo; [by apply mem_spec|]); intros c2; wp_step; unfold on_entities;
    cbn [cm_entities put_calls put_entities]; rewrite Hd; exact (HQ c2).
Qed.

Lemma wp_guarded what key text newID backup deleted f docs docs' (Q : unit → Crm → Prop) (X : crm_error → Crm → Prop) s :
  cm_entities s = Some docs → undone deleted newID backup docs = docs' →
  (∀ calls, Q tt (f (put_calls calls s))) →
  (∀ calls, X (ErrWrapped text ErrDriver) (put_entities docs' (put_calls calls s))) →
  wp (guarded crm_ok what key text newID backup deleted f) Q X s.
Proof using undo_ok.
  intros Hd Hu HQ HX. unfold guarded. wp_step. apply wp_write; intros c1; [wp_step; apply HQ|].
  wp_step. apply (wp_rollback newID backup deleted docs); [done|]. intros c2. wp_step. rewrite Hu. apply HX.
Qed.
(** The documents and the lead after a split. *)
Definition split_done (id hashID : string) (newDoc rest : EntityDoc) (deleted : bool) (s : Crm) : Crm :=
  put_leads (update_one hashID (split_lead_patch newDoc) (cm_leads s))
    (put_entities (moved_source deleted id rest (insert_entity newDoc (default ∅ (cm_entities s)))) s).

Definition force_some (ids : list string) (docs : Docs) : Docs := foldl (λ docs id, MarkClassifyForce id docs) docs ids.

(** The state after the flags of [ids]. *)
Definition flagged (ids : list string) (s s' : Crm) : Prop :=
  cm_leads s' = cm_leads s ∧ cm_entities s' = force_some ids <$> cm_entities s.

Definition flag_texts : list string := ["flag new entity classify: "; "flag source entity classify: "].

Lemma wp_force id s docs (Q : bool → Crm → Prop) X :
  cm_entities s = Some docs →
  (∀ s', flagged [id] s s' → Q true s') → (∀ s', flagged [] s s' → Q false s') →
  wp (markClassifyForce crm_ok id) Q X s.
Proof using.
  intros Hd Ht Hf. unfold markClassifyForce. wp_step. wp_step. rewrite Hd. wp_step.
  - wp_step. apply Ht. unfold flagged. rewrite Hd. cbn. split; [done|].
    unfold MarkClassifyForce, force_classify. by rewrite E.
  - apply wp_write; intros calls; [apply Ht|apply Hf]; unfold flagged; cbn; by rewrite Hd.
Qed.

Lemma store_split_run id hashID source newDoc rest r s docs :
  cm_entities s = Some docs → docs !! id = Some source → ed_EntityID source = id →
  docs !! ed_EntityID newDoc = None →
  let deleted := EntityReview.sr_SourceDeleted r in
  wp (store_split crm_ok id hashID source newDoc rest r)
    (λ x s', x = {| er_SourceEntityID := EntityReview.sr_SourceEntityID r;
                    er_NewEntityID := EntityReview.sr_NewEntityID r;
                    er_HashID := EntityReview.sr_HashID r; er_SourceDeleted := deleted |}
       ∧ flagged (ed_EntityID newDoc :: if deleted then [] else [id])
           (split_done id hashID newDoc rest deleted s) s')
    (λ e s', cm_leads s' = cm_leads s ∧ cm_entities s' = cm_entities s
       ∨ ∃ text ids, text ∈ flag_texts ∧ e = ErrWrapped text ErrDriver
           ∧ flagged ids (split_done id hashID newDoc rest deleted s) s') s.
Proof using undo_ok.
  intros Hd Hs He Hn deleted. unfold store_split. fold deleted. wp_step. wp_step.
  rewrite Hd. change (default ∅ (Some docs)) with docs. rewrite Hn.
  rewrite bool_decide_eq_false_2 by (by intros []). wp_step.
  apply wp_write; intros c1; cbn [negb orb]; [|left; by split].
  wp_step. set (s1 := on_entities (insert_entity newDoc) (put_calls c1 s)).
  assert (Hd1 : cm_entities s1 = Some (insert_entity newDoc docs)) by (unfold s1, on_entities; cbn; by rewrite Hd).
  assert (Hmove : ∀ Q X,
    (∀ c, Q tt (on_entities (moved_source deleted id rest) (put_calls c s1))) →
    (∀ e c, X e (put_entities docs (put_calls c s1))) →
    wp (if deleted then guarded crm_ok "delete_source" id "delete empty source entity: " (ed_EntityID newDoc)
               source deleted (on_entities (delete id))
        else guarded crm_ok "replace_source" id "update source entity: " (ed_EntityID newDoc) source deleted
               (on_entities (replace_entity id rest))) Q X s1).
  { intros Q X HQ HX. pose proof (undone_insert deleted id source newDoc docs Hn Hs He).
    destruct deleted; (eapply wp_guarded; [exact Hd1|done|exact HQ|intros; apply HX]). }
  apply Hmove; [intros c2|intros e c2; left; by split].
  wp_step. set (s2 := on_entities _ _).
  assert (Hd2 : cm_entities s2 = Some (moved_source deleted id rest (insert_entity newDoc docs))).
  { unfold s2, on_entities. cbn [cm_entities put_calls put_entities]. by rewrite Hd1. }
  eapply wp_guarded; [exact Hd2|by apply undone_moved|intros c3|intros c3; left; by split].
  set (s3 := put_leads _ _). set (s4 := split_done id hashID newDoc rest deleted s).
  assert (E3 : cm_leads s3 = cm_leads s4 ∧ cm_entities s3 = cm_entities s4).
  { split; [done|]. change (cm_entities s3) with (cm_entities s2). rewrite Hd2.
    unfold s4, split_done. cbn [cm_entities put_leads put_entities]. by rewrite Hd. }
  assert (Hf : ∀ ids s', flagged ids s3 s' → flagged ids s4 s').
  { intros ids s'. unfold flagged. by destruct E3 as [-> ->]. }
  assert (Hbad : ∀ text ids s', text ∈ flag_texts → flagged ids s3 s' →
    cm_leads s' = cm_leads s ∧ cm_entities s' = Some docs
    ∨ ∃ text' ids, text' ∈ flag_texts ∧ ErrWrapped text ErrDriver = ErrWrapped text' ErrDriver ∧ flagged ids s4 s').
  { intros text ids s' Ht Hs'. right. exists text, ids. eauto. }
  assert (Hd3 := Hd2 : cm_entities s3 = _).
  wp_step. eapply wp_force; [exact Hd3| |]; intros s5 Hs5; cbn [negb]; wp_step;
    [|apply (Hbad _ []); [by apply mem_spec|done]].
  destruct deleted; [wp_step; cbn [negb]; wp_step; split; [done|by apply Hf]|].
  destruct Hs5 as [Hl5 He5]. eapply wp_force; [rewrite He5, Hd3; reflexivity| |]; intros s6 [Hl6 He6]; cbn [negb]; wp_step.
  - split; [done|]. apply Hf. split; [congruence|]. rewrite He6, He5, Hd3. reflexivity.
  - apply (Hbad _ [ed_EntityID newDoc]); [by apply mem_spec|]. split; [congruence|].
    rewrite He6, He5, Hd3. reflexivity.
Qed.
(** A split of [hashID] that the entity layer has computed. *)
Definition split_of (id hashID : string) (s : Crm) (docs : Docs) (r : SplitHashResult) (newDoc rest : EntityDoc) : Prop :=
  ∃ source lead sight newDoc' t,
    docs !! id = Some source ∧ cm_leads s !! hashID = Some lead
    ∧ entitySightingByHash source hashID = Some sight
    ∧ SplitHashFromEntity t visit blacklist source hashID
        (SightingInputFromLead t (leadSightingSourceFromDoc lead) sight) heat = inr (r, newDoc', rest)
    ∧ newDoc = without_review newDoc' ∧ docs !! ed_EntityID newDoc = None.

(** C12. A split happens or it does not. As long as the writes that undo it succeed, splitting a
    hash off an entity ends in one of four ways: it is done — the new entity is stored, the source
    keeps the rest or is deleted when nothing is left, the lead points to the new entity, and the
    entities are marked for classification —, or nothing has changed and there is an error, or it
    is done but only a mark is missing and the error says so, or nothing has changed and there is
    no error, when the new identifier is that of the source. *)
Theorem split_all_or_nothing id raw s docs :
  cm_entities s = Some docs → (∀ i d, docs !! i = Some d → ed_EntityID d = i) →
  wp (SplitEntityHash visit blacklist heat crm_ok crm_now id raw)
    (λ x s', x = no_split ∧ same_data s s'
       ∨ ∃ hashID r newDoc rest, split_of (TrimSpace id) hashID s docs r newDoc rest
           ∧ er_NewEntityID x = EntityReview.sr_NewEntityID r
           ∧ er_SourceDeleted x = EntityReview.sr_SourceDeleted r
           ∧ flagged (ed_EntityID newDoc :: if er_SourceDeleted x then [] else [TrimSpace id])
               (split_done (TrimSpace id) hashID newDoc rest (er_SourceDeleted x) s) s')
    (λ e s', cm_leads s' = cm_leads s ∧ cm_entities s' = cm_entities s
       ∨ ∃ hashID r newDoc rest text ids, split_of (TrimSpace id) hashID s docs r newDoc rest
           ∧ text ∈ flag_texts ∧ e = ErrWrapped text ErrDriver
           ∧ flagged ids (split_done (TrimSpace id) hashID newDoc rest (EntityReview.sr_SourceDeleted r) s) s') s.
Proof using undo_ok.
  intros Hd Hk. unfold SplitEntityHash. wp_step. wp_step. rewrite Hd. cbn [configured]. wp_run; [by left|].
  apply wp_quiet; [apply quiet_resolve|intros hashID c1|intros e c1; by left].
  unfold GetEntity. wp_step. wp_step. wp_step. cbn [cm_entities put_calls]. rewrite Hd. cbn [configured].
  rewrite TrimSpace_idemp. wp_run; try by left.
  apply wp_read_any; [intros c2|intros c2; by left]. cbn [cm_entities put_calls]. rewrite Hd.
  change (default ∅ (Some docs)) with docs. wp_run; try by left.
  apply wp_read_any; [intros c3|intros c3; by left]. cbn [cm_leads put_calls]. unfold now. wp_run; try by left.
  apply wp_read_any; [intros c4|intros c4; by left]. cbn [cm_entities put_calls]. rewrite Hd.
  change (default ∅ (Some docs)) with docs.
  wp_run; try by left.
  { left. split; [done|by exists c4]. }
  eapply wp_mono; [| |eapply (store_split_run _ _ _ _ _ _ _ docs)]; cbn [cm_entities put_calls]; try done.
  - intros x s' [-> Hf]. right. eexists _, _, _, _. split; [|split; [|split; [|exact Hf]]]; try done.
    unfold split_of. eauto 20.
  - intros x s' [Hn|(text & ids & Ht & -> & Hf)]; [left; by rewrite <- Hd|right].
    eexists _, _, _, _, text, ids. split; [|split; [done|split; [done|exact Hf]]]. unfold split_of. eauto 20.
  - by apply Hk.
Qed.
End split.

(** ** The ranking of sources *)

Abbreviation ranked := (StronglySorted (λ a b, sourceOutcomeScore b ≤ sourceOutcomeScore a)).

(** One round of the inner loop brings the best row to its place. *)
Lemma select_best_spec x rows :
  let '(best, rest) := select_best x rows in
  best :: rest ≡ₚ x :: rows ∧ Forall (λ y, sourceOutcomeScore y ≤ sourceOutcomeScore best) rest
  ∧ sourceOutcomeScore x ≤ sourceOutcomeScore best ∧ length rest = length rows.
Proof.
  revert x. induction rows as [|y rows IH]; intros x; cbn [select_best]; [repeat split; [done|constructor|lia]|].
  destruct (Z.ltb_spec (sourceOutcomeScore x) (sourceOutcomeScore y)) as [Hxy|Hxy];
    [specialize (IH y); destruct (select_best y rows) as [best rest]
    |specialize (IH x); destruct (select_best x rows) as [best rest]];
    destruct IH as (Hp & Hf & Hb & Hl); (split; [|split; [constructor; [lia|done]|split; [lia|cbn; lia]]]).
  - by rewrite (Permutation_swap x best rest), Hp.
  - rewrite (Permutation_swap y best rest), Hp. apply Permutation_swap.
Qed.

Lemma sort_summaries_spec n rows :
  (length rows ≤ n)%nat → sort_summaries n rows ≡ₚ rows ∧ ranked (sort_summaries n rows).
Proof.
  revert rows. induction n as [|n IH]; intros [|x rows] Hn; cbn [sort_summaries length] in *;
    [repeat constructor|lia|repeat constructor|].
  pose proof (select_best_spec x rows) as Hs. destruct (select_best x rows) as [best rest].
  destruct Hs as (Hp & Hf & _ & Hl). destruct (IH rest) as [Hp' Hr]; [lia|].
  split; [by rewrite Hp'|]. constructor; [done|]. by rewrite Hp'.
Qed.

(** The exchange sort of the report is a sort: the same rows, the best first. *)
Lemma sortSourceOutcomeSummaries_sorts rows :
  sortSourceOutcomeSummaries rows ≡ₚ rows ∧ ranked (sortSourceOutcomeSummaries rows).
Proof. by apply sort_summaries_spec. Qed.

(** ** Concrete runs: the witnesses, and a list whose pages lose a lead *)

Module CrmRuns.
#[local] Existing Instance insertion_sorter.
#[local] Existing Instance KeyWitnesses.plain_html.

(** Every call of the driver succeeds; the clock counts the calls. *)
Definition all_ok (calls : list crm_call) (c : crm_call) : bool := true.
Definition ticking (calls : list crm_call) : Time := at_noon + Z.of_nat (length calls) * second.

Definition lead (hash source status : string) (score engage : Z) : Doc := {[
  "hash_id" := BStr hash; "source" := BStr source; "status" := BStr status;
  "score" := BInt score; "engage_priority" := BInt engage ]}.

Definition leads_of (l : list (string * Doc)) : Collection := list_to_map l.

Definition crm_with (leads : Collection) (docs : Docs) : Crm := {|
  cm_leads := leads; cm_entities := Some docs; cm_sourceStats := Some ∅; cm_keywordStats := None;
  cm_boosts := Some ∅; cm_notes := Some []; cm_meta := Some ∅; cm_feedback := None; cm_people := ∅;
  cm_calls := [] |}.

Definition three_leads : Collection := leads_of [
  ("a1", lead "a1" "reddit:x" "new" 60 10); ("a2", lead "a2" "reddit:y" "spam" 60 90);
  ("b3", lead "b3" "tgweb:z" "spam" 40 50) ].

Lemma three_keyed : keyed three_leads.
Proof.
  intros h d Hd. apply elem_of_list_to_map_2 in Hd. rewrite !elem_of_cons, elem_of_nil in Hd.
  naive_solver.
Qed.

Definition by_score_one : ListFilter := {|
  lf_Status := estr; lf_SourcePrefix := estr; lf_ContactChannel := estr; lf_NextAction := estr;
  lf_Outcome := estr; lf_ScoreMax := 0; lf_MinEngagePriority := 0; lf_Limit := 1; lf_Cursor := None;
  lf_InboxOnly := true; lf_RawOnly := false; lf_Sort := " Score" |}.

Lemma score_pages_exact_witness :
  get_str "hash_id" <$> follow all_ok 4 by_score_one (crm_with three_leads ∅) = ["a1"; "a2"; "b3"]
  ∧ follow all_ok 4 (with_cursor None by_score_one) (crm_with three_leads ∅)
    = leadCardProjection <$> find_leads score_order (list_matchQuery (with_cursor None by_score_one))
                               (crm_with three_leads ∅).
Proof.
  split; [vm_compute; done|].
  apply (score_pages_exact all_ok (λ _, eq_refl) by_score_one (crm_with three_leads ∅) 4).
  - exact three_keyed.
  - vm_compute; done.
  - done.
  - apply Nat.ltb_lt. vm_compute. done.
Defined.

(** The same pages in the order of the inbox: the cursor of the first page, of the lead with the
    highest priority, leaves out the lead that comes next. *)
Definition by_engage_one : ListFilter := {|
  lf_Status := estr; lf_SourcePrefix := estr; lf_ContactChannel := estr; lf_NextAction := estr;
  lf_Outcome := estr; lf_ScoreMax := 0; lf_MinEngagePriority := 0; lf_Limit := 1; lf_Cursor := None;
  lf_InboxOnly := true; lf_RawOnly := false; lf_Sort := estr |}.

Example engage_pages_lose_a_lead :
  get_str "hash_id" <$> find_leads (sortSpec by_engage_one) (list_matchQuery by_engage_one)
                          (crm_with three_leads ∅) = ["a2"; "b3"; "a1"]
  ∧ get_str "hash_id" <$> follow all_ok 10 by_engage_one (crm_with three_leads ∅) = ["a2"; "b3"].
Proof. split; vm_compute; done. Qed.

(** Deleting what is spam. *)
Definition spam_only : DeleteFilter := {|
  df_HashID := estr; df_Status := "spam"; df_SourcePrefix := estr; df_ScoreMax := 0; df_All := false |}.

Lemma DeleteLeads_exact_witness :
  (map_to_list (cm_leads (DeleteLeads all_ok spam_only (crm_with three_leads ∅)).2)).*1 = ["a1"]
  ∧ wp (DeleteLeads all_ok spam_only)
      (λ r s', Validate spam_only = true ∧ ∃ f', resolved_filter spam_only three_leads f'
         ∧ deleted f' (crm_with three_leads ∅) s'
         ∧ de_Leads r = Z.of_nat (size three_leads - size (unmatched f' three_leads))
         ∧ (isSingleHashQuery f' = true ∨ (length (rows_of f' three_leads) < maxAdminDeleteBatch)%nat))
      (λ e s', same_data (crm_with three_leads ∅) s'
         ∨ ∃ f' text, e = ErrWrapped text ErrDriver ∧ resolved_filter spam_only three_leads f'
             ∧ cm_leads s' = unmatched f' three_leads) (crm_with three_leads ∅).
Proof.
  split; [vm_compute; done|].
  exact (DeleteLeads_exact all_ok (λ _ _, eq_refl) spam_only (crm_with three_leads ∅) three_keyed eq_refl).
Defined.

(** An entity seen on two sources, one sighting of which is taken away. *)
Definition site_lead : SightingInput := mail_of "acme.io" "tgweb:@ch:acme.io" "a1".
Definition reddit_lead : SightingInput := mail_of "acme.io" "reddit:igaming" "b2".
Definition two_docs : Docs := Eval vm_compute in
  EntityProps.record_all Validate.initial_state in_map_order 0 zero_heat_config [(at_noon, site_lead); (at_noon, reddit_lead)].
Definition the_id : string := Eval vm_compute in default estr (head (map_to_list two_docs).*1).

Definition other_lead : Doc := {[
  "hash_id" := BStr "b2"; "source" := BStr "reddit:igaming"; "status" := BStr "new";
  "entity_id" := BStr the_id; "company_name" := BStr "Other" ]}.

Definition before_split : Crm := crm_with (leads_of [("b2", other_lead)]) two_docs.

Lemma two_docs_keyed i d : two_docs !! i = Some d → ed_EntityID d = i.
Proof.
  intros Hd. apply elem_of_map_to_list in Hd.
  assert (Forall (λ p, ed_EntityID p.2 = p.1) (map_to_list two_docs)) as Hall by (vm_compute; repeat constructor).
  rewrite Forall_forall in Hall. exact (Hall (i, d) Hd).
Qed.

Abbreviation split_run :=
  (SplitEntityHash id Validate.initial_state DefaultHeatConfig all_ok ticking the_id " b") (only parsing).

Definition hashes_by_entity (s : Crm) : list (list string) :=
  (λ p, ag_HashIDs (ed_Agg p.2)) <$> map_to_list (default ∅ (cm_entities s)).
Definition lead_moved (s : Crm) : option bool :=
  (λ d, negb (String.eqb (get_str "entity_id" d) the_id)) <$> cm_leads s !! "b2".

Lemma split_all_or_nothing_witness :
  hashes_by_entity before_split = [["a1"; "b2"]]
  ∧ hashes_by_entity (split_run before_split).2 = [["b2"]; ["a1"]]
  ∧ lead_moved before_split = Some false ∧ lead_moved (split_run before_split).2 = Some true
  ∧ wp split_run
    (λ x s', x = no_split ∧ same_data before_split s'
       ∨ ∃ hashID r newDoc rest, split_of id Validate.initial_state DefaultHeatConfig the_id hashID before_split
             two_docs r newDoc rest
           ∧ er_NewEntityID x = EntityReview.sr_NewEntityID r
           ∧ er_SourceDeleted x = EntityReview.sr_SourceDeleted r
           ∧ flagged (ed_EntityID newDoc :: if er_SourceDeleted x then [] else [the_id])
               (split_done the_id hashID newDoc rest (er_SourceDeleted x) before_split) s')
    (λ e s', cm_leads s' = cm_leads before_split ∧ cm_entities s' = cm_entities before_split
       ∨ ∃ hashID r newDoc rest text ids,
           split_of id Validate.initial_state DefaultHeatConfig the_id hashID before_split two_docs r newDoc rest
           ∧ text ∈ flag_texts ∧ e = ErrWrapped text ErrDriver
           ∧ flagged ids (split_done the_id hashID newDoc rest (EntityReview.sr_SourceDeleted r) before_split) s')
    before_split.
Proof.
  split; [vm_compute; done|]. split; [vm_compute; done|]. split; [vm_compute; done|].
  split; [vm_compute; done|].
  assert (TrimSpace the_id = the_id) as E by (vm_compute; done).
  pose proof (split_all_or_nothing id Validate.initial_state DefaultHeatConfig all_ok ticking (λ _ _ _ _, eq_refl)
    the_id " b" before_split two_docs eq_refl two_docs_keyed) as Hw.
  rewrite E in Hw. exact Hw.
Defined.
End CrmRuns.
