(* ===== verification/EntityClassify.v ===== *)
(** The workers that review the entity graph: [EntityClassifyService] and
    [EntityLinkSuggestService] ([internal/warmpath/entity_classify.go],
    [entity_link_suggest.go]), with the answers of the model ([internal/gemini/entity.go],
    [entity_link.go], [entity_outreach.go]) and the side of Mongo ([internal/sink/]).

    A call of the driver or of the model fails or answers as a function of the calls made so
    far, which the state records; a call that fails changes nothing.  Before every call of the
    driver takes effect the other writers of the same collections may have written: a function of
    the calls made so far says what, so that a flush runs interleaved with them.  A field of an entity that
    is written with [omitempty] is not in the stored document when it is zero, unless a patch has
    set it to zero: [stored] says which of the zero fields are there.  The texts of the prompts
    and the cancellation of a flush are not modelled. *)
From S2P Require Import Prelude Unicode GoStrings TextFacts GoSort Scoring SourceRep Extract.
From S2P Require Import Hashes.
From S2P Require Import Entity EntityDoc EntityStore EntityReview LeadStore Effects.
From Stdlib Require Import Floats.SpecFloat.

Local Open Scope Z_scope.
Local Open Scope eff_scope.

(** ** The answers of the model *)

Record EntitySightingInput := {
  es_Source : string; es_PostedAt : Time; es_Matched : list string; es_Snippet : string;
  es_ContactsSummary : string }.

Record EntityClassifyInput := { ei_EntityID : string; ei_Sightings : list EntitySightingInput }.

(** [entityClassifyResponse], as decoded. *)
Record entityClassifyResponse := {
  er_SameActor : bool; er_ActorConfidence : spec_float; er_UnifiedPain : string;
  er_BuyerIntent : string; er_SplitRecommended : bool; er_Why : string }.

(** The choice is made on the trimmed text, the answer is not trimmed. *)
Definition normalizeBuyerIntent (v : string) : string :=
  if mem (ToLower (TrimSpace v)) ["hot"; "warm"; "cold"] then ToLower v else "none".

Definition f_one : spec_float := Eval vm_compute in f_ratio 1 1.
Definition f_nought : spec_float := Eval vm_compute in f_ratio 0 1.

Definition clamp_confidence (conf : spec_float) : spec_float :=
  let conf := if float_lt conf f_nought then f_nought else conf in
  if float_lt f_one conf then f_one else conf.

Definition entityClassifyResultFromResponse (p : entityClassifyResponse) : GeminiClassifyResult := {|
  gc_SameActor := er_SameActor p; gc_ActorConfidence := clamp_confidence (er_ActorConfidence p);
  gc_UnifiedPain := TrimSpace (er_UnifiedPain p);
  gc_BuyerIntent := normalizeBuyerIntent (er_BuyerIntent p);
  gc_SplitRecommended := er_SplitRecommended p; gc_Why := TrimSpace (er_Why p) |}.

(** The result for no sightings. *)
Definition no_classification : GeminiClassifyResult := {|
  gc_SameActor := false; gc_ActorConfidence := f_nought; gc_UnifiedPain := estr;
  gc_BuyerIntent := "none"; gc_SplitRecommended := false; gc_Why := estr |}.

Definition maxEntityClassifySightings : nat := 5.
Definition MaxLowConfidenceClassifySightings : Z := 20.

Record EntityOutreachInput := {
  eo_EntityID : string; eo_HeatTier : string; eo_SightingCount : Z; eo_SourceCount : Z;
  eo_UnifiedPain : string; eo_BuyerIntent : string; eo_Sources : list string }.

Record EntityOutreachResult := { or_OutreachAngle : string; or_EntityProof : string }.

Record EntityLinkInput := {
  li_EntityA : string; li_EntityB : string; li_SharedDomain : string; li_PainA : string;
  li_PainB : string; li_SightingA : Z; li_SightingB : Z }.

Definition link_action (raw : string) : string :=
  let action := ToLower (TrimSpace raw) in
  if mem action ["merge"; "split"; "keep"] then action else "keep".

(** ** State and parameters *)

(** The calls, with whether they succeeded. *)
Inductive graph_call :=
  | GRead (what key : string) (ok : bool)
  | GWrite (what key : string) (ok : bool)
  | GPatch (id : string) (p : EntityClassificationPatch) (ok : bool)
  | GClassify (input : EntityClassifyInput) (ok : bool)
  | GNarrate (id : string) (ok : bool)
  | GLink (a b : string) (ok : bool).

Record EntityClassifyEvent := { ce_EntityID : string; ce_ForceFresh : bool; ce_TS : Time }.

Record Graph := {
  gr_docs : Docs; gr_leads : Collection; gr_debounce : gmap string Time;
  gr_pending : gmap string EntityClassifyEvent; gr_calls : list graph_call }.

Definition set_docs (d : Docs) (g : Graph) : Graph := {|
  gr_docs := d; gr_leads := gr_leads g; gr_debounce := gr_debounce g; gr_pending := gr_pending g;
  gr_calls := gr_calls g |}.
Definition set_leads (c : Collection) (g : Graph) : Graph := {|
  gr_docs := gr_docs g; gr_leads := c; gr_debounce := gr_debounce g; gr_pending := gr_pending g;
  gr_calls := gr_calls g |}.
Definition set_debounce (m : gmap string Time) (g : Graph) : Graph := {|
  gr_docs := gr_docs g; gr_leads := gr_leads g; gr_debounce := m; gr_pending := gr_pending g;
  gr_calls := gr_calls g |}.
Definition set_pending (m : gmap string EntityClassifyEvent) (g : Graph) : Graph := {|
  gr_docs := gr_docs g; gr_leads := gr_leads g; gr_debounce := gr_debounce g; gr_pending := m;
  gr_calls := gr_calls g |}.
Definition set_calls (l : list graph_call) (g : Graph) : Graph := {|
  gr_docs := gr_docs g; gr_leads := gr_leads g; gr_debounce := gr_debounce g;
  gr_pending := gr_pending g; gr_calls := l |}.

(** The two services: the configuration, which of the optional parts are there, and what the
    driver, the models and the clock answer after the calls made so far. [gd_others] and
    [gd_other_leads] are what the other writers of the entities and of the leads — the pipeline,
    the CRM — do after those calls and before the next one of the driver takes effect. *)
Record GraphDeps := {
  gd_Debounce : Duration; gd_LowConfidenceDebounce : Duration; gd_OutreachNarrativeEnabled : bool;
  gd_force : bool; gd_lowConf : bool; gd_leadHeat : bool; gd_contacts : bool; gd_outreach : bool;
  gd_narrator : bool; gd_Limit : Z;
  gd_ok : list graph_call → graph_call → bool;
  gd_now : list graph_call → Time;
  gd_classify : list graph_call → EntityClassifyInput → option entityClassifyResponse;
  gd_narrate : list graph_call → EntityOutreachInput → option EntityOutreachResult;
  gd_link : list graph_call → EntityLinkInput → option (string * string);
  gd_others : list graph_call → Docs → Docs;
  gd_other_leads : list graph_call → Collection → Collection }.

(** The defaults of [NewEntityClassifyService] and [NewEntityLinkSuggestService]. *)
Definition duration_or (d fallback : Duration) : Duration := if 0 <? d then d else fallback.

Definition with_graph_defaults (d : GraphDeps) : GraphDeps := {|
  gd_Debounce := duration_or (gd_Debounce d) (6 * hour);
  gd_LowConfidenceDebounce := duration_or (gd_LowConfidenceDebounce d) hour;
  gd_OutreachNarrativeEnabled := gd_OutreachNarrativeEnabled d;
  gd_force := gd_force d; gd_lowConf := gd_lowConf d; gd_leadHeat := gd_leadHeat d;
  gd_contacts := gd_contacts d; gd_outreach := gd_outreach d; gd_narrator := gd_narrator d;
  gd_Limit := if gd_Limit d <=? 0 then 100 else gd_Limit d;
  gd_ok := gd_ok d; gd_now := gd_now d; gd_classify := gd_classify d; gd_narrate := gd_narrate d;
  gd_link := gd_link d; gd_others := gd_others d; gd_other_leads := gd_other_leads d |}.

Abbreviation Act := (eff Graph unit).

(** ** The side of Mongo ([entity_classify.go], [entity_classify_extras.go],
    [entity_link_suggest.go], [entity_pain_samples.go]) *)

(** The field is in the stored document: it is not zero, or it was written as zero. *)
Definition present (stored : string → EntityDoc → bool) (k : string) (zero : bool) (d : EntityDoc) : bool :=
  negb zero || stored k d.

Definition is_f_zero (f : spec_float) : bool := match f with S754_zero _ => true | _ => false end.

(** [{$in: [hot, blazing]}] and no classification or a confidence below one half. *)
Definition low_confidence_hot (stored : string → EntityDoc → bool) (d : EntityDoc) : bool :=
  mem (ht_HeatTier (ed_Heat d)) [HeatTierHot; HeatTierBlazing]
  && (is_zero_time (rv_EntityClassifiedAt (ed_Review d))
      || (present stored "actor_confidence" (is_f_zero (rv_ActorConfidence (ed_Review d))) d
          && float_lt (rv_ActorConfidence (ed_Review d)) lowConfidenceActorThreshold)).

(** [{unified_pain: {$ne: ""}}], which a missing field satisfies, and the tiers from warm on. *)
Definition warm_with_pain (stored : string → EntityDoc → bool) (d : EntityDoc) : bool :=
  (negb (String.eqb (rv_UnifiedPain (ed_Review d)) estr) || negb (stored "unified_pain" d))
  && mem (ht_HeatTier (ed_Heat d)) (HeatTiersAtOrAbove HeatTierWarm).

Definition hotter (a b : EntityDoc) : bool :=
  SFltb (ht_HeatScore (ed_Heat b)) (ht_HeatScore (ed_Heat a)).

Definition named (l : list (string * EntityDoc)) : list string :=
  List.filter (λ id, negb (String.eqb id estr)) ((λ p, ed_EntityID p.2) <$> l).

(** The cluster is only written when there is one. *)
Definition classificationPatchBSON (p : EntityClassificationPatch) (d : EntityDoc) : EntityDoc :=
  set_review (downgrade d (cp_HeatTierDowngrade p))
    (patched_review (ed_Review d) p
       (if String.eqb (cp_SemanticCluster p) estr then rv_SemanticCluster (ed_Review d)
        else cp_SemanticCluster p)).

(** The leads of an entity; [None] asks for none. *)
Definition linkedLeadsFilter (entityID : string) (hashIDs : list string) : option (Doc → bool) :=
  let entityID := TrimSpace entityID in
  if String.eqb entityID estr && is_empty hashIDs then None
  else Some (λ d, (negb (String.eqb entityID estr) && String.eqb (get_str "entity_id" d) entityID)
                  || mem (get_str "hash_id" d) hashIDs).

(** [UpdateMany] with [$set]. *)
Definition update_many (f : Doc → bool) (set : Doc) (c : Collection) : Collection :=
  (λ d, if f d then set ∪ d else d) <$> c.

Record LinkedLeadHeatSync := {
  lh_HeatScore : spec_float; lh_HeatTier : string; lh_SightingCount : Z; lh_SourceCount : Z }.
Record LinkedLeadOutreachSync := { lo_OutreachAngle : string; lo_EntityProof : string }.

Definition heat_sync_set (h : LinkedLeadHeatSync) : Doc := {[
  "entity_heat" := BDouble (lh_HeatScore h); "heat_tier" := BStr (lh_HeatTier h);
  "entity_sighting_count" := BInt (lh_SightingCount h);
  "entity_source_count" := BInt (lh_SourceCount h) ]}.

Definition outreach_sync_set (o : LinkedLeadOutreachSync) : Doc :=
  doc_of [("entity_proof", some_str (TrimSpace (lo_EntityProof o)));
          ("outreach_angle", some_str (TrimSpace (lo_OutreachAngle o)))].

Definition PatchLinkedLeadsHeat (entityID : string) (hashIDs : list string) (h : LinkedLeadHeatSync)
    (c : Collection) : Collection :=
  if String.eqb entityID estr then c
  else match linkedLeadsFilter entityID hashIDs with
       | None => c
       | Some f => update_many f (heat_sync_set h) c
       end.

Definition PatchLinkedLeadsOutreach (entityID : string) (hashIDs : list string)
    (o : LinkedLeadOutreachSync) (c : Collection) : Collection :=
  if String.eqb entityID estr then c
  else match linkedLeadsFilter entityID hashIDs with
       | None => c
       | Some f => update_many f (outreach_sync_set o) c
       end.

(** [diag.MaskContact]. *)
Definition MaskContact (contact : string) : string :=
  let contact := TrimSpace contact in
  if String.eqb contact estr then estr
  else match Index contact "@" with
       | Some i =>
           if Nat.eqb i 0 then "***@" +:+ sdrop (S i) contact
           else stake 1 contact +:+ "***@" +:+ sdrop (S i) contact
       | None => if Nat.leb (slen contact) 3 then "***" else stake 1 contact +:+ "***"
       end.

Definition masked_contacts (d : Doc) : string :=
  Join (MaskContact <$> FormatAll ((λ c, MkContact (st_Type c) (st_Value c)) <$> get_contacts "contacts" d)) ", ".

(** A suggestion with its defaults; [$push] appends it. *)
Definition with_suggestion_defaults (now : Time) (r : ReviewSuggestion) : ReviewSuggestion := {|
  rs_PeerEntityID := rs_PeerEntityID r; rs_SharedDomain := rs_SharedDomain r;
  rs_Action := rs_Action r; rs_Why := rs_Why r;
  rs_Status := if String.eqb (rs_Status r) estr then "pending" else rs_Status r;
  rs_TS := if is_zero_time (rs_TS r) then now else rs_TS r |}.

Definition push_suggestion (r : ReviewSuggestion) (d : EntityDoc) : EntityDoc :=
  let v := ed_Review d in
  set_review d {|
    rv_UnifiedPain := rv_UnifiedPain v; rv_ActorConfidence := rv_ActorConfidence v;
    rv_BuyerIntent := rv_BuyerIntent v; rv_NeedsReview := rv_NeedsReview v;
    rv_EntityClassifiedAt := rv_EntityClassifiedAt v; rv_SemanticCluster := rv_SemanticCluster v;
    rv_ClassifyForce := rv_ClassifyForce v; rv_ReviewSuggestions := rv_ReviewSuggestions v ++ [r] |}.

(** ** The services *)

Section services.
Context `{Sorter} (d : GraphDeps) (stored : string → EntityDoc → bool).

(** The order in which a query without one finds the documents, and that of a [range] over the
    pending events. *)
Context (natural : Docs → list (string * EntityDoc)).
Context (visit : gmap string EntityClassifyEvent → list (string * EntityClassifyEvent)).
Context (visit_groups : gmap string (list EntityDoc) → list (string * list EntityDoc)).

Definition record (c : graph_call) : Act unit := modify (λ g, set_calls (gr_calls g ++ [c]) g).
Definition now : Act Time := let! g := get_state in done (gd_now d (gr_calls g)).

(** The other writers, since the last call of the driver. *)
Definition others : Act unit := modify (λ g,
  set_docs (gd_others d (gr_calls g) (gr_docs g))
    (set_leads (gd_other_leads d (gr_calls g) (gr_leads g)) g)).

(** A call of the driver, and whether it succeeded. *)
Definition driver (c : bool → graph_call) : Act bool :=
  others ;;!
  let! g := get_state in
  let ok := gd_ok d (gr_calls g) (c true) in
  record (c ok) ;;! done ok.

(** A read, [None] when it fails. *)
Definition query {A} (what key : string) (f : Graph → A) : Act (option A) :=
  let! ok := driver (GRead what key) in
  let! g := get_state in done (if ok : bool then Some (f g) else None).

Definition update_as (c : bool → graph_call) (f : Graph → Graph) : Act bool :=
  let! ok := driver c in
  if ok : bool then modify f ;;! done true else done false.
Definition update (what key : string) : (Graph → Graph) → Act bool := update_as (GWrite what key).

(** A call of a model. *)
Definition ask {A} (answer : list graph_call → option A) (c : bool → graph_call) : Act (option A) :=
  let! g := get_state in
  let a := answer (gr_calls g) in
  record (c (bool_decide (is_Some a))) ;;! done a.

Definition leaving {A} : Act A := exit_with tt.
Definition or_leave {A} (o : option A) : Act A := match o with Some a => done a | None => leaving end.

(** The body of a function whose early returns end it only. *)
Definition body (m : Act unit) : Act unit := λ g, (inl tt, (m g).2).

Definition GetEntity (entityID : string) : Act (option (option EntityDoc)) :=
  if String.eqb entityID estr then done (Some None)
  else query "entity" entityID (λ g, gr_docs g !! entityID).

Definition MaskedContactsSummary (hashID : string) : Act string :=
  if String.eqb (TrimSpace hashID) estr then done estr
  else
    let! found := query "contacts" hashID (λ g, gr_leads g !! hashID) in
    done (match found with Some (Some lead) => masked_contacts lead | _ => estr end).

Definition ListClassifyForceIDs (limit : Z) : Act (option (list string)) :=
  let limit := if limit <=? 0 then 32 else limit in
  query "force" estr (λ g, named (take (Z.to_nat limit)
    (List.filter (λ p, rv_ClassifyForce (ed_Review p.2)) (natural (gr_docs g))))).

Definition ListLowConfidenceHotEntities (limit : Z) : Act (option (list string)) :=
  let limit := if limit <=? 0 then 32 else limit in
  query "low_confidence" estr (λ g, named (take (Z.to_nat limit)
    (List.filter (λ p, low_confidence_hot stored p.2) (natural (gr_docs g))))).

Definition ListWarmEntitiesForLinkSuggest (limit : Z) : Act (option (list EntityDoc)) :=
  let limit := if limit <=? 0 then 100 else limit in
  query "warm" estr (λ g, take (Z.to_nat limit)
    (sort_slice hotter (List.filter (warm_with_pain stored) (natural (gr_docs g)).*2))).

(** The limit counts rows; blank and repeated texts are left out after it. *)
Definition ListUnifiedPainSamples (limit : Z) : Act (option (list string)) :=
  let limit := if limit <=? 0 then 20 else limit in
  query "pains" estr (λ g, dedup_on ToLower (List.filter (λ p, negb (String.eqb p estr))
    ((λ e, TrimSpace (rv_UnifiedPain (ed_Review e))) <$> take (Z.to_nat limit)
      (sort_slice hotter (List.filter (warm_with_pain stored) (natural (gr_docs g)).*2))))).

Definition AppendReviewSuggestion (entityID : string) (r : ReviewSuggestion) : Act bool :=
  if String.eqb entityID estr || String.eqb (rs_PeerEntityID r) estr then done true
  else
    let! t := now in
    update "suggestion" entityID
      (λ g, set_docs (alter (push_suggestion (with_suggestion_defaults t r)) entityID (gr_docs g)) g).

(** *** Classification ([entity_classify.go]) *)

Definition mergeEntityClassifyEvent (prev ev : EntityClassifyEvent) : EntityClassifyEvent :=
  if negb (String.eqb (ce_EntityID prev) estr)
  then {| ce_EntityID := ce_EntityID ev; ce_ForceFresh := ce_ForceFresh prev || ce_ForceFresh ev;
          ce_TS := ce_TS ev |}
  else ev.

Definition add_pending (ev : EntityClassifyEvent) (m : gmap string EntityClassifyEvent)
    : gmap string EntityClassifyEvent :=
  let ev := match m !! ce_EntityID ev with Some prev => mergeEntityClassifyEvent prev ev | None => ev end in
  <[ce_EntityID ev := ev]> m.

(** An event from the channel. *)
Definition receive (ev : EntityClassifyEvent) : Act unit :=
  if String.eqb (ce_EntityID ev) estr then done tt
  else modify (λ g, set_pending (add_pending ev (gr_pending g)) g).

Definition allowClassify (entityID : string) (forceFresh lowConf : bool) (t : Time) : Act bool :=
  if forceFresh then done true
  else
    let debounce := if lowConf && (0 <? gd_LowConfidenceDebounce d) then gd_LowConfidenceDebounce d
                    else gd_Debounce d in
    let! g := get_state in
    done (match gr_debounce g !! entityID with
          | None => true
          | Some last => debounce <=? time_sub t last
          end).

Definition markClassified (entityID : string) (t : Time) : Act unit :=
  modify (λ g, set_debounce (<[entityID := t]> (gr_debounce g)) g).

Fixpoint sighting_inputs (rows : list EntitySighting) : Act (list EntitySightingInput) :=
  match rows with
  | [] => done []
  | sight :: rows =>
      let! contacts := if gd_contacts d then MaskedContactsSummary (sg_HashID sight) else done estr in
      let! rest := sighting_inputs rows in
      done ({| es_Source := sg_Source sight; es_PostedAt := sg_PostedAt sight;
               es_Matched := sg_Matched sight; es_Snippet := sg_Snippet sight;
               es_ContactsSummary := contacts |} :: rest)
  end.

(** [Client.ClassifyEntity]. *)
Definition ClassifyEntity (i : EntityClassifyInput) : Act (option GeminiClassifyResult) :=
  let id := TrimSpace (ei_EntityID i) in
  if String.eqb id estr || is_empty (ei_Sightings i) then done (Some no_classification)
  else
    let i := {| ei_EntityID := id; ei_Sightings := take maxEntityClassifySightings (ei_Sightings i) |} in
    let! answer := ask (λ calls, gd_classify d calls i) (GClassify i) in
    done (entityClassifyResultFromResponse <$> answer).

(** [Client.BuildEntityOutreach]. *)
Definition BuildEntityOutreach (i : EntityOutreachInput) : Act (option EntityOutreachResult) :=
  let! answer := ask (λ calls, gd_narrate d calls i) (GNarrate (eo_EntityID i)) in
  done ((λ o, {| or_OutreachAngle := TrimSpace (or_OutreachAngle o);
                 or_EntityProof := TrimSpace (or_EntityProof o) |}) <$> answer).

Definition patch_leads (what id : string) (hashes : list string) (f : Collection → Collection) : Act bool :=
  match linkedLeadsFilter id hashes with
  | None => done true
  | Some _ => update what id (λ g, set_leads (f (gr_leads g)) g)
  end.

Definition or_first (a b : string) : string := if String.eqb a estr then b else a.

Definition syncEntityOutreach (e : EntityDoc) (res : GeminiClassifyResult) : Act unit :=
  if negb (gd_OutreachNarrativeEnabled d) || negb (gd_outreach d) then done tt
  else if negb (HeatTierMeetsMin (ht_HeatTier (ed_Heat e)) HeatTierHot) then done tt
  else
    let pain := or_first (TrimSpace (gc_UnifiedPain res)) (TrimSpace (rv_UnifiedPain (ed_Review e))) in
    if String.eqb pain estr then done tt
    else
      let proof := BuildEntityProofSummary e in
      let! out := if gd_narrator d
                  then BuildEntityOutreach {|
                    eo_EntityID := ed_EntityID e; eo_HeatTier := ht_HeatTier (ed_Heat e);
                    eo_SightingCount := ag_SightingCount (ed_Agg e); eo_SourceCount := ag_SourceCount (ed_Agg e);
                    eo_UnifiedPain := pain; eo_BuyerIntent := gc_BuyerIntent res;
                    eo_Sources := ag_SourceFamilies (ed_Agg e) |}
                  else done None in
      let sync := match out with
                  | Some o => {| lo_OutreachAngle := or_OutreachAngle o;
                                 lo_EntityProof := or_first proof (or_EntityProof o) |}
                  | None => {| lo_OutreachAngle := estr; lo_EntityProof := proof |}
                  end in
      if String.eqb (lo_EntityProof sync) estr && String.eqb (lo_OutreachAngle sync) estr then done tt
      else if String.eqb (ed_EntityID e) estr || (String.eqb (TrimSpace (lo_EntityProof sync)) estr
              && String.eqb (TrimSpace (lo_OutreachAngle sync)) estr) then done tt
      else
        let! _ := patch_leads "lead_outreach" (ed_EntityID e) (ag_HashIDs (ed_Agg e))
                    (PatchLinkedLeadsOutreach (ed_EntityID e) (ag_HashIDs (ed_Agg e)) sync) in
        done tt.

(** The writes of an answer. *)
Definition apply_classification (id : string) (e : EntityDoc) (res : GeminiClassifyResult) (t : Time) : Act unit :=
  let '(e', patch) := ApplyEntityClassification e res t in
  let! ok := update_as (GPatch id patch)
    (λ g, set_docs (alter (classificationPatchBSON patch) id (gr_docs g)) g) in
  if negb ok then leaving
  else
    (if negb (String.eqb (cp_HeatTierDowngrade patch) estr) && gd_leadHeat d
     then let! _ := patch_leads "lead_heat" id (ag_HashIDs (ed_Agg e'))
            (PatchLinkedLeadsHeat id (ag_HashIDs (ed_Agg e')) {|
               lh_HeatScore := ht_HeatScore (ed_Heat e'); lh_HeatTier := cp_HeatTierDowngrade patch;
               lh_SightingCount := ag_SightingCount (ed_Agg e'); lh_SourceCount := ag_SourceCount (ed_Agg e') |}) in
          done tt
     else done tt) ;;!
    syncEntityOutreach e' res ;;!
    (if gd_force d
     then let! _ := update "clear_force" id (λ g, set_docs (ClearClassifyForce id (gr_docs g)) g) in done tt
     else done tt) ;;!
    markClassified id t.

Definition classifyOne (ev : EntityClassifyEvent) : Act unit :=
  let id := ce_EntityID ev in
  let! t := now in
  let! found := GetEntity id in
  let! found := or_leave found in
  let! e := or_leave found in
  let lowConf := IsLowConfidenceHot e in
  let! allowed := allowClassify id (ce_ForceFresh ev) lowConf t in
  if negb allowed then leaving
  else
    let limit := if lowConf then MaxLowConfidenceClassifySightings else MaxEntityClassifySightings in
    let rows := ClassifySightingsFromDocLimit e limit in
    if is_empty rows then leaving
    else
      let! inputs := sighting_inputs rows in
      let! answer := ClassifyEntity {| ei_EntityID := id; ei_Sightings := inputs |} in
      let! res := or_leave answer in
      apply_classification id e res t.

(** Every listed entity becomes an event that asks for a fresh classification. *)
Definition poll_ids (ids : option (list string)) : Act unit :=
  match ids with
  | None => done tt
  | Some ids =>
      modify (λ g, set_pending (foldl (λ m id,
        if String.eqb id estr then m
        else add_pending {| ce_EntityID := id; ce_ForceFresh := true; ce_TS := zero_time |} m)
        (gr_pending g) ids) g)
  end.

Definition pollClassifyForce : Act unit :=
  if gd_force d then let! ids := ListClassifyForceIDs 32 in poll_ids ids else done tt.
Definition pollLowConfidenceHot : Act unit :=
  if gd_lowConf d then let! ids := ListLowConfidenceHotEntities 32 in poll_ids ids else done tt.

Fixpoint classify_all (evs : list (string * EntityClassifyEvent)) : Act unit :=
  match evs with
  | [] => done tt
  | (id, ev) :: evs =>
      body (classifyOne ev) ;;!
      modify (λ g, set_pending (delete id (gr_pending g)) g) ;;!
      classify_all evs
  end.

(** What a tick, the end of the channel and the end of the context do. *)
Definition flush : Act unit :=
  pollClassifyForce ;;! pollLowConfidenceHot ;;!
  let! g := get_state in classify_all (visit (gr_pending g)).

(** *** Link suggestions ([entity_link_suggest.go]) *)

Definition ClassifyEntityLink (i : EntityLinkInput) : Act (option (string * string)) :=
  let! answer := ask (λ calls, gd_link d calls i) (GLink (li_EntityA i) (li_EntityB i)) in
  done ((λ p, (link_action p.1, TrimSpace p.2)) <$> answer).

(** The count of the last document with the identifier. *)
Definition count_of (id : string) (docs : list EntityDoc) : Z :=
  foldl (λ n e, if String.eqb (ed_EntityID e) id then ag_SightingCount (ed_Agg e) else n) 0 docs.

Definition suggestion_for (p : LinkSuggestPair) (peer action why : string) (t : Time) : ReviewSuggestion := {|
  rs_PeerEntityID := peer; rs_SharedDomain := lp_SharedDomain p; rs_Action := action; rs_Why := why;
  rs_Status := "pending"; rs_TS := t |}.

Definition review_pair (docs : list EntityDoc) (p : LinkSuggestPair) : Act unit :=
  let! answer := ClassifyEntityLink {|
    li_EntityA := lp_EntityA p; li_EntityB := lp_EntityB p; li_SharedDomain := lp_SharedDomain p;
    li_PainA := lp_PainA p; li_PainB := lp_PainB p;
    li_SightingA := count_of (lp_EntityA p) docs; li_SightingB := count_of (lp_EntityB p) docs |} in
  let! answer := or_leave answer in
  let '(action, why) := answer in
  if String.eqb action "keep" then leaving
  else
    let! t := now in
    let! ok := AppendReviewSuggestion (lp_EntityA p) (suggestion_for p (lp_EntityB p) action why t) in
    if negb ok then leaving
    else
      let! _ := AppendReviewSuggestion (lp_EntityB p) (suggestion_for p (lp_EntityA p) action why t) in
      done tt.

Fixpoint review_pairs (docs : list EntityDoc) (pairs : list LinkSuggestPair) : Act unit :=
  match pairs with
  | [] => done tt
  | p :: pairs => body (review_pair docs p) ;;! review_pairs docs pairs
  end.

Definition scanOnce : Act unit :=
  let! found := ListWarmEntitiesForLinkSuggest (gd_Limit d) in
  match found with
  | None => done tt
  | Some docs => review_pairs docs (FindLinkSuggestPairs visit_groups docs)
  end.

(** *** Runs *)

Inductive graph_op := Received (ev : EntityClassifyEvent) | Flushed | Scanned.

Definition graph_step (op : graph_op) (g : Graph) : Graph :=
  match op with
  | Received ev => (receive ev g).2
  | Flushed => (flush g).2
  | Scanned => (scanOnce g).2
  end.

Definition graph_run (ops : list graph_op) (g : Graph) : Graph := foldl (λ g op, graph_step op g) g ops.
End services.
