(* ===== verification/EntityClassifyFacts.v ===== *)
(** Facts about the workers that review the entity graph (EntityClassify.v): what they may write,
    how often they classify an entity, and when a mark for classification goes away. *)
From S2P Require Import Prelude Unicode GoStrings TextFacts GoSort Scoring SourceRep Extract.
From S2P Require Import Hashes.
From S2P Require Import Entity EntityKeys EntityKeyFacts EntityDoc EntityStore EntityReview.
From S2P Require Import EntityProps EntityWitnesses LeadStore Effects EntityClassify.
From stdpp Require Import sorting.
From Stdlib Require Import Floats.SpecFloat.

Local Open Scope Z_scope.
Local Open Scope eff_scope.

Section quiet.
Context (d : GraphDeps).

(** The model is shown at most five sightings. *)
Definition sane (c : graph_call) : Prop :=
  match c with GClassify i _ => (length (ei_Sightings i) ≤ maxEntityClassifySightings)%nat | _ => True end.

(** A call that is not a write of a classification. *)
Definition plain (c : graph_call) : Prop :=
  match c with GPatch _ _ _ => False | _ => sane c end.

(** What the other writers do at one point. *)
Definition by_others (m m' : Docs) : Prop := ∃ calls, m' = gd_others d calls m.
Definition leads_by_others (m m' : Collection) : Prop := ∃ calls, m' = gd_other_leads d calls m.

(** There are none. *)
Definition idle : Prop :=
  (∀ calls m, gd_others d calls m = m) ∧ ∀ calls m, gd_other_leads d calls m = m.

(** What only adds to the calls, but for the other writers. *)
Record only_calls (g g' : Graph) : Prop := {
  oc_calls : ∃ calls, Forall plain calls ∧ gr_calls g' = gr_calls g ++ calls;
  oc_docs : rtc by_others (gr_docs g) (gr_docs g');
  oc_leads : rtc leads_by_others (gr_leads g) (gr_leads g');
  oc_debounce : gr_debounce g' = gr_debounce g;
  oc_pending : gr_pending g' = gr_pending g }.

#[export] Instance only_calls_preorder : PreOrder only_calls.
Proof.
  split.
  - intros g. split; try done. exists []. by rewrite app_nil_r.
  - intros g g' g'' [(c & Hc & E) Hd Hl Hb Hp] [(c' & Hc' & E') Hd' Hl' Hb' Hp'].
    split; [|by etransitivity..|congruence|congruence].
    exists (c ++ c'). rewrite E', E, app_assoc. split; [by apply Forall_app|done].
Qed.

Lemma idle_docs m m' : idle → rtc by_others m m' → m' = m.
Proof. intros [Hi _]. induction 1 as [|m1 m2 m3 [calls ->] _ ->]; [done|]. apply Hi. Qed.

Lemma idle_leads m m' : idle → rtc leads_by_others m m' → m' = m.
Proof. intros [_ Hi]. induction 1 as [|m1 m2 m3 [calls ->] _ ->]; [done|]. apply Hi. Qed.

Lemma others_run g : ∃ g', others d g = (inl tt, g') ∧ only_calls g g' ∧ gr_calls g' = gr_calls g.
Proof.
  eexists. split; [reflexivity|]. split; [|done]. split; try done.
  - exists []. by rewrite app_nil_r.
  - apply rtc_once. by eexists.
  - apply rtc_once. by eexists.
Qed.

Lemma only_calls_record c g : plain c → only_calls g (set_calls (gr_calls g ++ [c]) g).
Proof. intros Hc. split; try done. exists [c]. split; [by constructor|done]. Qed.

(** What keeps [P] and always ends in a value. *)
Definition finishes {A} (P : Graph → Prop) (m : eff Graph unit A) : Prop :=
  ∀ g, P g → wp m (λ _, P) (λ _ _, False) g.

Lemma finishes_ret {A} P (a : A) : finishes P (done a).
Proof. by intros g Hg. Qed.

Lemma finishes_seq {A B} P (m : eff Graph unit A) (k : A → eff Graph unit B) :
  finishes P m → (∀ a, finishes P (k a)) → finishes P (seq_eff m k).
Proof.
  intros Hm Hk g Hg. apply wp_bind. eapply wp_mono; [| |exact (Hm g Hg)]; [|done].
  intros a g' Hg'. by apply Hk.
Qed.

(** A computation that answers, whatever its parameters say, after a few more calls. *)
Definition quietly {A} (m : eff Graph unit A) : Prop := ∀ g, ∃ a g', m g = (inl a, g') ∧ only_calls g g'.

Lemma wp_quietly {A} (m : eff Graph unit A) g (Q : A → Graph → Prop) X :
  quietly m → (∀ a g', only_calls g g' → Q a g') → wp m Q X g.
Proof. intros Hm HQ. destruct (Hm g) as (a & g' & E & Hc). unfold wp. rewrite E. by apply HQ. Qed.

Lemma quietly_ret {A} (a : A) : quietly (done a).
Proof. intros g. exists a, g. by split. Qed.

Lemma quietly_seq {A B} (m : eff Graph unit A) (k : A → eff Graph unit B) :
  quietly m → (∀ a, quietly (k a)) → quietly (seq_eff m k).
Proof.
  intros Hm Hk g. destruct (Hm g) as (a & g' & E & Hc). destruct (Hk a g') as (b & g'' & E' & Hc').
  exists b, g''. unfold seq_eff. rewrite E, E'. split; [done|]. by etransitivity.
Qed.

Lemma quietly_get {A} (k : Graph → eff Graph unit A) : (∀ g, quietly (k g)) → quietly (seq_eff get_state k).
Proof. intros Hk g. apply (Hk g g). Qed.

Lemma quietly_record c : plain c → quietly (record c).
Proof. intros Hc g. eexists _, _. split; [reflexivity|]. by apply only_calls_record. Qed.

Lemma quietly_others : quietly (others d).
Proof. intros g. destruct (others_run g) as (g' & E & Hc & _). by exists tt, g'. Qed.

Lemma quietly_driver c : (∀ ok, plain (c ok)) → quietly (driver d c).
Proof.
  intros Hc. apply quietly_seq; [apply quietly_others|]. intros _. apply quietly_get. intros g. apply quietly_seq; [by apply quietly_record|].
  intros _. apply quietly_ret.
Qed.

Lemma quietly_query {A} what key (f : Graph → A) : quietly (query d what key f).
Proof.
  apply quietly_seq; [by apply quietly_driver|]. intros ok. apply quietly_get. intros g. apply quietly_ret.
Qed.

Lemma quietly_ask {A} (answer : list graph_call → option A) c :
  (∀ ok, plain (c ok)) → quietly (ask answer c).
Proof.
  intros Hc. apply quietly_get. intros g. apply quietly_seq; [by apply quietly_record|]. intros _. apply quietly_ret.
Qed.

Lemma quietly_now : quietly (now d).
Proof. apply quietly_get. intros g. apply quietly_ret. Qed.

Lemma quietly_contacts h : quietly (MaskedContactsSummary d h).
Proof.
  unfold MaskedContactsSummary. destruct (String.eqb _ _); [apply quietly_ret|].
  apply quietly_seq; [apply quietly_query|]. intros found. apply quietly_ret.
Qed.

Lemma quietly_inputs rows : quietly (sighting_inputs d rows).
Proof.
  induction rows as [|row rows IH]; cbn [sighting_inputs]; [apply quietly_ret|].
  apply quietly_seq; [destruct (gd_contacts d); [apply quietly_contacts|apply quietly_ret]|].
  intros contacts. apply quietly_seq; [exact IH|]. intros rest. apply quietly_ret.
Qed.

Lemma quietly_classify i : quietly (ClassifyEntity d i).
Proof.
  unfold ClassifyEntity. cbv zeta. destruct (_ || _); [apply quietly_ret|].
  apply quietly_seq; [|intros answer; apply quietly_ret].
  apply quietly_ask. intros ok. cbn. rewrite length_take. unfold maxEntityClassifySightings. lia.
Qed.

(** A write: done after what the other writers do, or only recorded. *)
Lemma wp_update_as c f g (Q : bool → Graph → Prop) X :
  (∀ g1, only_calls g g1 →
     Q true (f (set_calls (gr_calls g1 ++ [c true]) g1))
     ∧ Q false (set_calls (gr_calls g1 ++ [c false]) g1)) →
  wp (update_as d c f) Q X g.
Proof.
  intros HQ. unfold update_as, driver, record. do 2 apply wp_bind.
  destruct (others_run g) as (g1 & E & Hc & _). apply HQ in Hc as [Ht Hf].
  unfold wp at 1. rewrite E. by repeat wp_step.
Qed.

End quiet.

(** ** Walking through the workers *)

Definition sync_fields : gset string := list_to_set [
  "entity_heat"; "heat_tier"; "entity_sighting_count"; "entity_source_count"; "entity_proof"; "outreach_angle" ].

Section walk.
Context `{Sorter} (d : GraphDeps) (stored : string → EntityDoc → bool).
Context (natural : Docs → list (string * EntityDoc)).
Context (visit : gmap string EntityClassifyEvent → list (string * EntityClassifyEvent)).
Context (visit_groups : gmap string (list EntityDoc) → list (string * list EntityDoc)).
Context (visit_sound : ∀ m p, p ∈ visit m → m !! p.1 = Some p.2).

(** The shorter of the two pauses. *)
Definition pause : Duration :=
  if 0 <? gd_LowConfidenceDebounce d then Z.min (gd_Debounce d) (gd_LowConfidenceDebounce d) else gd_Debounce d.

(** The entity has rested since its last classification. *)
Definition rested (id : string) (t : Time) (g : Graph) : Prop :=
  match gr_debounce g !! id with None => True | Some last => pause ≤ time_sub t last end.

(** The events that wait, none of which asks for a fresh classification unless [F]. *)
Definition unforced (F : Prop) (m : gmap string EntityClassifyEvent) : Prop :=
  F ∨ ∀ id ev, m !! id = Some ev → ce_ForceFresh ev = false.

(** [P] survives everything the workers do, where [U id t] holds instead while a
    classification of [id] at [t] that has been written is being finished; [F] says that events
    may ask for a fresh classification. *)
Class Walks (F : Prop) (P : Graph → Prop) (U : string → Time → Graph → Prop) : Prop := {
  walk_calls : ∀ g g', only_calls d g g' → P g → P g';
  walk_refused : ∀ g id p, P g → P (set_calls (gr_calls g ++ [GPatch id p false]) g);
  walk_pending : ∀ g m, P g → unforced F m → P (set_pending m g);
  walk_unforced : ∀ g, P g → unforced F (gr_pending g);
  walk_suggest : ∀ g id r, P g → P (set_docs (alter (push_suggestion r) id (gr_docs g)) g);
  walk_patch : ∀ g id e res t, P g → (idle d → gr_docs g !! id = Some e) → F ∨ rested id t g →
    let p := (ApplyEntityClassification e res t).2 in
    U id t (set_docs (alter (classificationPatchBSON p) id (gr_docs g))
              (set_calls (gr_calls g ++ [GPatch id p true]) g));
  walk_on : ∀ id t g g', only_calls d g g' → U id t g → U id t g';
  walk_leads : ∀ id t g f set, U id t g → dom set ⊆ sync_fields →
    U id t (set_leads (update_many f set (gr_leads g)) g);
  walk_clear : ∀ id t g, U id t g → U id t (set_docs (ClearClassifyForce id (gr_docs g)) g);
  walk_mark : ∀ id t g, U id t g → P (set_debounce (<[id := t]> (gr_debounce g)) g) }.

Context (F : Prop) (P : Graph → Prop) (U : string → Time → Graph → Prop) {W : Walks F P U}.

Lemma heat_sync_fields h : dom (heat_sync_set h) ⊆ sync_fields.
Proof using.
  unfold heat_sync_set. rewrite !dom_insert_L, ?dom_singleton_L, ?dom_empty_L. unfold sync_fields. clear. set_solver.
Qed.

Lemma outreach_sync_fields o : dom (outreach_sync_set o) ⊆ sync_fields.
Proof using.
  unfold outreach_sync_set. intros k [v Hv]%elem_of_dom. rewrite doc_of_lookup in Hv. cbn [first_field] in Hv.
  destruct (String.eqb_spec "entity_proof" k) as [<-|]; [by apply elem_of_list_to_set, mem_spec|].
  by destruct (String.eqb_spec "outreach_angle" k) as [<-|]; [apply elem_of_list_to_set, mem_spec|].
Qed.

Lemma patch_leads_keeps what id t id' hashes f :
  (∀ c, f c = c ∨ ∃ sel set, dom set ⊆ sync_fields ∧ f c = update_many sel set c) →
  finishes (U id t) (patch_leads d what id' hashes f).
Proof using W.
  intros Hf. unfold patch_leads. destruct (linkedLeadsFilter id' hashes); [|apply finishes_ret].
  intros g Hu. apply wp_update_as. intros g1 H1.
  assert (U id t (set_calls (gr_calls g1 ++ [GWrite what id' true]) g1)) as Ht
    by (eapply walk_on; [|exact Hu]; etransitivity; [exact H1|by apply only_calls_record]).
  split; [|eapply walk_on; [|exact Hu]; etransitivity; [exact H1|by apply only_calls_record]].
  set (g' := set_calls _ g1) in *. change (U id t (set_leads (f (gr_leads g1)) g')). destruct (Hf (gr_leads g1)) as [E|(sel & set & Hs & E)]; rewrite E.
  - by destruct g1.
  - exact (walk_leads id t g' sel set Ht Hs).
Qed.

Lemma heat_patch_shape id hashes h c :
  PatchLinkedLeadsHeat id hashes h c = c
  ∨ ∃ sel set, dom set ⊆ sync_fields ∧ PatchLinkedLeadsHeat id hashes h c = update_many sel set c.
Proof using.
  unfold PatchLinkedLeadsHeat. destruct (String.eqb id estr); [by left|].
  destruct (linkedLeadsFilter id hashes); [right|by left]. eexists _, _. split; [apply heat_sync_fields|done].
Qed.

Lemma outreach_patch_shape id hashes o c :
  PatchLinkedLeadsOutreach id hashes o c = c
  ∨ ∃ sel set, dom set ⊆ sync_fields ∧ PatchLinkedLeadsOutreach id hashes o c = update_many sel set c.
Proof using.
  unfold PatchLinkedLeadsOutreach. destruct (String.eqb id estr); [by left|].
  destruct (linkedLeadsFilter id hashes); [right|by left]. eexists _, _. split; [apply outreach_sync_fields|done].
Qed.

Lemma quietly_U {A} id t (m : eff Graph unit A) : quietly d m → finishes (U id t) m.
Proof using W.
  intros Hm. intros g Hg. apply (wp_quietly d); [done|]. intros a g' Hc. by eapply walk_on.
Qed.

Lemma outreach_keeps id t e res : finishes (U id t) (syncEntityOutreach d e res).
Proof using W.
  unfold syncEntityOutreach. destruct (_ || _); [apply finishes_ret|]. destruct (negb _); [apply finishes_ret|].
  cbv zeta. destruct (String.eqb _ _); [apply finishes_ret|]. apply finishes_seq.
  - destruct (gd_narrator d); [|apply finishes_ret]. apply quietly_U, quietly_seq.
    + by apply quietly_ask.
    + intros a. apply quietly_ret.
  - intros out. destruct (_ && _); [apply finishes_ret|]. destruct (_ || _); [apply finishes_ret|].
    apply finishes_seq; [|intros _; apply finishes_ret]. apply patch_leads_keeps, outreach_patch_shape.
Qed.

Lemma clear_keeps id t :
  finishes (U id t) (if gd_force d
     then let! _ := update d "clear_force" id (λ g, set_docs (ClearClassifyForce id (gr_docs g)) g) in done tt
     else done tt).
Proof using W.
  destruct (gd_force d); [|apply finishes_ret]. apply finishes_seq; [|intros _; apply finishes_ret].
  intros g Hu. apply wp_update_as. intros g1 H1.
  assert (∀ ok, U id t (set_calls (gr_calls g1 ++ [GWrite "clear_force" id ok]) g1)) as Hw
    by (intros ok; eapply walk_on; [|exact Hu]; etransitivity; [exact H1|by apply only_calls_record]).
  split; [exact (walk_clear id t _ (Hw true))|apply Hw].
Qed.

Lemma apply_keeps id e res t g :
  P g → (idle d → gr_docs g !! id = Some e) → F ∨ rested id t g →
  wp (apply_classification d id e res t) (λ _, P) (λ _, P) g.
Proof using W.
  intros Hp He Hr. unfold apply_classification.
  assert (Hu : ∀ g1, only_calls d g g1 → let p := (ApplyEntityClassification e res t).2 in
    U id t (set_docs (alter (classificationPatchBSON p) id (gr_docs g1))
              (set_calls (gr_calls g1 ++ [GPatch id p true]) g1))).
  { intros g1 H1. apply walk_patch; [by eapply walk_calls| |].
    - intros Hi. rewrite (idle_docs d _ _ Hi (oc_docs _ _ _ H1)). auto.
    - unfold rested in *. by rewrite (oc_debounce _ _ _ H1). }
  destruct (ApplyEntityClassification e res t) as [e' patch]. cbn [snd] in Hu.
  wp_step. apply wp_update_as. intros g1 H1. cbn [negb].
  split; [|apply wp_exit, walk_refused; by eapply walk_calls].
  specialize (Hu g1 H1). set (g2 := set_docs _ _) in *.
  change (set_docs _ (set_calls _ g1)) with g2. clearbody g2. clear H1 g1 Hp He Hr g. cbv zeta.
  assert (Hk : ∀ (m k : eff Graph unit unit) g, finishes (U id t) m →
    (∀ g, U id t g → wp k (λ _, P) (λ _, P) g) → U id t g →
    wp (seq_eff m (λ _, k)) (λ _, P) (λ _, P) g).
  { intros m k g Hm Hk Hg. apply wp_bind. eapply wp_mono; [| |exact (Hm g Hg)]; [|done].
    intros a g' Hg'. by apply Hk. }
  apply Hk; [| |exact Hu].
  { destruct (_ && _); [|apply finishes_ret]. apply finishes_seq; [|intros _; apply finishes_ret].
    apply patch_leads_keeps. intros c. apply heat_patch_shape. }
  intros g Hg. apply Hk; [apply outreach_keeps| |exact Hg]. clear g Hg. intros g Hg.
  apply Hk; [apply clear_keeps| |exact Hg]. clear g Hg. intros g Hg. apply wp_modify. by apply walk_mark.
Qed.

Lemma wp_GetEntity id g (Q : option (option EntityDoc) → Graph → Prop) X :
  (∀ found g', only_calls d g g' → (∀ e, found = Some (Some e) → gr_docs g' !! id = Some e) → Q found g') →
  wp (GetEntity d id) Q X g.
Proof using.
  intros HQ. unfold GetEntity. destruct (String.eqb id estr); [apply wp_done, HQ; [reflexivity|done]|].
  unfold query. apply wp_bind, (wp_quietly d); [by apply quietly_driver|]. intros ok g' Hc.
  apply wp_bind, wp_get, wp_done, HQ; [done|]. by destruct ok; intros e [= ->].
Qed.

Lemma wp_allow id force low t g (Q : bool → Graph → Prop) X :
  (∀ a, (a = true → force = true ∨ rested id t g) → Q a g) → wp (allowClassify d id force low t) Q X g.
Proof using.
  intros HQ. unfold allowClassify. destruct force; [apply wp_done, HQ; by left|]. cbv zeta.
  apply wp_bind, wp_get, wp_done, HQ. unfold rested, pause. intros Ha. right.
  destruct (gr_debounce g !! id) as [last|]; [|done]. apply Z.leb_le in Ha.
  destruct (Z.ltb_spec 0 (gd_LowConfidenceDebounce d)), low; cbn in *; lia.
Qed.

Lemma classifyOne_keeps ev g :
  P g → (ce_ForceFresh ev = true → F) → wp (classifyOne d ev) (λ _, P) (λ _, P) g.
Proof using W.
  intros Hp HF. unfold classifyOne. cbv zeta. apply wp_bind, (wp_quietly d); [apply quietly_now|].
  intros t g1 H1. apply wp_bind, wp_GetEntity. intros found g2 H2 Hfound.
  assert (Hp2 : P g2) by (do 2 (eapply walk_calls; [done|]); done). clear Hp H1 H2 g g1.
  apply wp_bind. destruct found as [found|]; [apply wp_done|by apply wp_exit].
  apply wp_bind. destruct found as [e|]; [apply wp_done|by apply wp_exit].
  specialize (Hfound e eq_refl). apply wp_bind, wp_allow. intros [|] Ha; [|by apply wp_exit].
  specialize (Ha eq_refl). cbn [negb]. destruct (is_empty _); [by apply wp_exit|].
  apply wp_bind, (wp_quietly d); [apply quietly_inputs|]. intros inputs g3 H3.
  apply wp_bind, (wp_quietly d); [apply quietly_classify|]. intros answer g4 H4.
  assert (H24 : only_calls d g2 g4) by by etransitivity. clear H3 H4 g3.
  assert (Hp4 : P g4) by by eapply walk_calls.
  apply wp_bind. destruct answer as [res|]; [apply wp_done|by apply wp_exit].
  apply apply_keeps; [done| |].
  - intros Hi. by rewrite (idle_docs d _ _ Hi (oc_docs _ _ _ H24)).
  - unfold rested in *. rewrite (oc_debounce _ _ _ H24). destruct Ha; auto.
Qed.

Lemma add_pending_unforced ev m :
  (ce_ForceFresh ev = true → F) → unforced F m → unforced F (add_pending ev m).
Proof using.
  intros Hev [Hf|Hm]; [by left|]. destruct (ce_ForceFresh ev) eqn:E; [left; auto|right].
  intros id ev'. unfold add_pending. destruct (m !! ce_EntityID ev) as [prev|] eqn:Ep.
  - unfold mergeEntityClassifyEvent. destruct (negb _); cbn.
    + intros [[_ <-]|[_ Hm']]%lookup_insert_Some; [cbn; by rewrite (Hm _ _ Ep), E|by eapply Hm].
    + intros [[_ <-]|[_ Hm']]%lookup_insert_Some; [done|by eapply Hm].
  - intros [[_ <-]|[_ Hm']]%lookup_insert_Some; [done|by eapply Hm].
Qed.

Lemma poll_ids_keeps ids : F → keeps P (poll_ids ids).
Proof using W.
  intros HF g Hp. destruct ids as [ids|]; cbn; [|done]. apply walk_pending; [done|by left].
Qed.

Lemma quietly_keeps {A} (m : eff Graph unit A) : quietly d m → keeps P m.
Proof using W.
  intros Hm. apply wp_keeps. intros g Hp. apply (wp_quietly d); [done|]. intros a g' Hc. by eapply walk_calls.
Qed.

Lemma body_keeps m : keeps P m → keeps P (body m).
Proof using. intros Hm g Hp. by apply Hm. Qed.

Lemma classify_all_keeps evs :
  (∀ p, p ∈ evs → ce_ForceFresh p.2 = true → F) → keeps P (classify_all d evs).
Proof using W.
  induction evs as [|[id ev] evs IH]; intros HF; cbn [classify_all]; [apply keeps_ret|].
  apply keeps_seq; [|intros _; apply keeps_seq; [|intros _; apply IH; intros p Hp; apply HF; by right]].
  - apply body_keeps, wp_keeps. intros g Hp. apply classifyOne_keeps; [done|]. apply (HF (id, ev)). by left.
  - apply keeps_modify. intros g Hp. apply walk_pending; [done|].
    destruct (walk_unforced g Hp) as [Hf|Hm]; [by left|right].
    intros id' ev' [_ He]%lookup_delete_Some. by eapply Hm.
Qed.

Lemma review_flush_keeps :
  (gd_force d = true → F) → (gd_lowConf d = true → F) → keeps P (flush d stored natural visit).
Proof using W visit_sound.
  intros Hf Hl. unfold flush. apply keeps_seq; [|intros _; apply keeps_seq; [|intros _]].
  - unfold pollClassifyForce. destruct (gd_force d); [|apply keeps_ret].
    apply keeps_seq; [apply quietly_keeps, quietly_query|]. intros ids. by apply poll_ids_keeps, Hf.
  - unfold pollLowConfidenceHot. destruct (gd_lowConf d); [|apply keeps_ret].
    apply keeps_seq; [apply quietly_keeps, quietly_query|]. intros ids. by apply poll_ids_keeps, Hl.
  - intros g Hp. unfold seq_eff, get_state. apply classify_all_keeps; [|done].
    intros p Hin He. destruct (walk_unforced g Hp) as [HF|Hm]; [done|].
    apply visit_sound in Hin. rewrite (Hm _ _ Hin) in He. done.
Qed.

Lemma append_keeps id r : keeps P (AppendReviewSuggestion d id r).
Proof using W.
  unfold AppendReviewSuggestion. destruct (_ || _); [apply keeps_ret|]. apply keeps_seq; [apply quietly_keeps, quietly_now|].
  intros t. apply wp_keeps. intros g Hp. apply wp_update_as. intros g1 H1.
  assert (∀ ok, P (set_calls (gr_calls g1 ++ [GWrite "suggestion" id ok]) g1)) as Hw
    by (intros ok; eapply walk_calls; [|exact Hp]; etransitivity; [exact H1|by apply only_calls_record]).
  split; [exact (walk_suggest _ id _ (Hw true))|apply Hw].
Qed.

Lemma review_pair_keeps docs p : keeps P (review_pair d docs p).
Proof using W.
  unfold review_pair. apply keeps_seq.
  { apply quietly_keeps, quietly_seq; [by apply quietly_ask|]. intros a. apply quietly_ret. }
  intros answer. apply keeps_seq; [destruct answer; [apply keeps_ret|apply keeps_exit]|].
  intros [action why]. destruct (String.eqb _ _); [apply keeps_exit|].
  apply keeps_seq; [apply quietly_keeps, quietly_now|]. intros t.
  apply keeps_seq; [apply append_keeps|]. intros [|]; [|apply keeps_exit].
  apply keeps_seq; [apply append_keeps|]. intros _. apply keeps_ret.
Qed.

Lemma scan_keeps : keeps P (scanOnce d stored natural visit_groups).
Proof using W.
  unfold scanOnce. apply keeps_seq; [apply quietly_keeps, quietly_query|]. intros [docs|]; [|apply keeps_ret].
  induction (FindLinkSuggestPairs visit_groups docs) as [|p pairs IH]; cbn [review_pairs]; [apply keeps_ret|].
  apply keeps_seq; [apply body_keeps, review_pair_keeps|]. intros _. exact IH.
Qed.

(** Events that do not ask for a fresh classification, unless [F]. *)
Definition op_unforced (op : graph_op) : Prop :=
  match op with Received ev => ce_ForceFresh ev = true → F | _ => True end.

Lemma run_walks ops g :
  (gd_force d = true → F) → (gd_lowConf d = true → F) → Forall op_unforced ops →
  P g → P (graph_run d stored natural visit visit_groups ops g).
Proof using W visit_sound.
  intros Hf Hl Hops. revert g. induction Hops as [|op ops Hop _ IH]; intros g Hp; [done|]. cbn. apply IH.
  destruct op as [ev| |]; cbn [graph_step].
  - unfold receive. destruct (String.eqb _ _); [done|]. cbn. apply walk_pending; [done|].
    apply add_pending_unforced; [exact Hop|by apply walk_unforced].
  - by apply review_flush_keeps.
  - by apply scan_keeps.
Qed.
End walk.

(** ** What the workers may write *)

(** What may become of an entity: its review, a downgrade to warm from a higher tier, and more
    suggestions. *)
Definition reviewed (e e' : EntityDoc) : Prop :=
  set_review (set_doc_heat e' (ed_Heat e)) (ed_Review e) = e
  ∧ (ed_Heat e' = ed_Heat e
     ∨ HeatTierRank HeatTierHot ≤ HeatTierRank (ht_HeatTier (ed_Heat e))
       ∧ ed_Heat e' = with_tier (ed_Heat e) HeatTierWarm)
  ∧ rv_ReviewSuggestions (ed_Review e) `prefix_of` rv_ReviewSuggestions (ed_Review e').

#[export] Instance reviewed_preorder : PreOrder reviewed.
Proof.
  split; [intros e; split; [by destruct e|by split; [left|]]|].
  intros e e' e'' (Hs & Hh & Hr) (Hs' & Hh' & Hr'). split; [|split; [|by etransitivity]].
  - destruct e, e', e''. unfold set_review, set_doc_heat in *. cbn in *.
    injection Hs. injection Hs'. intros. f_equal; congruence.
  - destruct Hh as [E|[Hrank E]], Hh' as [E'|[Hrank' E']].
    + left. congruence.
    + right. rewrite <- E. done.
    + right. split; [done|]. congruence.
    + exfalso. rewrite E in Hrank'. cbn in Hrank'. lia.
Qed.

(** What may become of a lead. *)
Definition synced (c c' : Doc) : Prop := ∀ k, k ∉ sync_fields → c' !! k = c !! k.

#[export] Instance synced_preorder : PreOrder synced.
Proof. split; [done|]. intros c c' c'' H1 H2 k Hk. by rewrite H2, H1. Qed.

(** Key by key. *)
Definition pointwise {A} (R : relation A) (m m' : gmap string A) : Prop :=
  ∀ k, option_Forall2 R (m !! k) (m' !! k).

Lemma pointwise_refl {A} (R : relation A) `{!Reflexive R} m : pointwise R m m.
Proof. intros k. reflexivity. Qed.

Lemma pointwise_alter {A} (R : relation A) `{!PreOrder R} m m' f k :
  pointwise R m m' → (∀ a, m' !! k = Some a → R a (f a)) → pointwise R m (alter f k m').
Proof.
  intros Hm Hf i. specialize (Hm i). destruct (decide (k = i)) as [<-|Hn]; [|by rewrite lookup_alter_ne].
  rewrite lookup_alter_eq. destruct (m' !! k) as [a|] eqn:E; inversion Hm; subst; [|done].
  constructor. etransitivity; [done|]. by apply Hf.
Qed.

Lemma pointwise_fmap {A} (R : relation A) `{!PreOrder R} m m' f :
  pointwise R m m' → (∀ a, R a (f a)) → pointwise R m (f <$> m').
Proof.
  intros Hm Hf i. specialize (Hm i). rewrite lookup_fmap.
  destruct (m' !! i) as [a|]; inversion Hm; subst; constructor. etransitivity; [done|apply Hf].
Qed.

Lemma update_many_synced f set c : dom set ⊆ sync_fields → synced c (if f c : bool then set ∪ c else c).
Proof.
  intros Hs k Hk. destruct (f c); [|done]. rewrite union_field. destruct (set !! k) eqn:E; [|done].
  exfalso. apply Hk, Hs, elem_of_dom. by eexists.
Qed.

Lemma classification_reviewed `{Sorter} e res t :
  reviewed e (classificationPatchBSON (ApplyEntityClassification e res t).2 e).
Proof.
  unfold ApplyEntityClassification. cbn [snd]. unfold classificationPatchBSON, downgrade. split; [|split].
  - by destruct e, (String.eqb _ _).
  - set (tier := cp_HeatTierDowngrade _).
    assert (tier = estr ∨ tier = HeatTierWarm ∧ HeatTierRank HeatTierHot ≤ HeatTierRank (ht_HeatTier (ed_Heat e))) as [->|[-> Hr]].
    { unfold tier, classification_patch. cbn [cp_HeatTierDowngrade]. destruct (_ && _) eqn:E; [right|by left].
      split; [done|]. apply andb_true_iff in E as [_ E]. by apply Z.leb_le. }
    + by left.
    + right. by split.
  - by destruct (String.eqb _ _).
Qed.

(** One write of the workers, whatever the entity has become since it was read: its review, its
    tier at most set to warm, more suggestions. *)
Definition revised (e e' : EntityDoc) : Prop :=
  set_review (set_doc_heat e' (ed_Heat e)) (ed_Review e) = e
  ∧ (ed_Heat e' = ed_Heat e ∨ ed_Heat e' = with_tier (ed_Heat e) HeatTierWarm)
  ∧ rv_ReviewSuggestions (ed_Review e) `prefix_of` rv_ReviewSuggestions (ed_Review e').

#[export] Instance revised_refl : Reflexive revised.
Proof. intros e. split; [by destruct e|]. by split; [left|]. Qed.

(** What the other writers do, or one write of the workers. *)
Definition docs_step (d : GraphDeps) (m m' : Docs) : Prop := by_others d m m' ∨ pointwise revised m m'.
Definition leads_step (d : GraphDeps) (c c' : Collection) : Prop :=
  leads_by_others d c c' ∨ pointwise synced c c'.

Lemma pointwise_alter_one {A} (R : relation A) `{!Reflexive R} m f k :
  (∀ a, m !! k = Some a → R a (f a)) → pointwise R m (alter f k m).
Proof.
  intros Hf i. destruct (decide (k = i)) as [<-|Hn]; [|by rewrite lookup_alter_ne].
  rewrite lookup_alter_eq. destruct (m !! k) as [a|] eqn:E; constructor. by apply Hf.
Qed.

Lemma patch_revised `{Sorter} e res t a :
  revised a (classificationPatchBSON (ApplyEntityClassification e res t).2 a).
Proof.
  unfold ApplyEntityClassification. cbn [snd]. unfold classificationPatchBSON, downgrade.
  set (tier := cp_HeatTierDowngrade _).
  assert (tier = estr ∨ tier = HeatTierWarm) as Ht.
  { unfold tier, classification_patch. cbn [cp_HeatTierDowngrade]. destruct (_ && _); [by right|by left]. }
  destruct Ht as [-> | ->]; (split; [by destruct a|split; [|done]]); [by left|by right].
Qed.

Lemma rtc_idle {A} (R : relation A) (B : A → A → Prop) `{!PreOrder R} x y :
  (∀ x y, B x y → y = x) → rtc (λ x y, B x y ∨ R x y) x y → R x y.
Proof. intros Hb. induction 1 as [|x1 x2 x3 [->%Hb|Hr] _ IH]; [done|done|]. by etransitivity. Qed.

Lemma rtc_others {A} (R B : relation A) x y : rtc B x y → rtc (λ x y, B x y ∨ R x y) x y.
Proof. induction 1; [done|]. eapply rtc_l; [by left|done]. Qed.

(** C36. The workers that review the entity graph never touch what was observed. Whatever events
    arrive, whatever the models answer and whatever fails, after any run there are the same
    entities and the same leads: of an entity only the review has changed, suggestions were only
    added, and its heat is the old one or a hot or blazing tier has become warm, with the same
    score; of a lead only the fields of its entity's heat and of its outreach. With other writers
    of the same collections in between, every change that is not theirs is of that kind — but an
    entity that cooled down since it was read may be set to warm. *)
Theorem review_keeps_the_graph `{Sorter} (d : GraphDeps) (stored : string → EntityDoc → bool)
    (natural : Docs → list (string * EntityDoc))
    (visit : gmap string EntityClassifyEvent → list (string * EntityClassifyEvent))
    (visit_groups : gmap string (list EntityDoc) → list (string * list EntityDoc))
    (ops : list graph_op) (g : Graph) :
  (∀ m p, p ∈ visit m → m !! p.1 = Some p.2) →
  let g' := graph_run d stored natural visit visit_groups ops g in
  (idle d → pointwise reviewed (gr_docs g) (gr_docs g') ∧ pointwise synced (gr_leads g) (gr_leads g'))
  ∧ rtc (docs_step d) (gr_docs g) (gr_docs g') ∧ rtc (leads_step d) (gr_leads g) (gr_leads g').
Proof.
  intros Hv g'.
  pose (P := λ x,
    (idle d → pointwise reviewed (gr_docs g) (gr_docs x) ∧ pointwise synced (gr_leads g) (gr_leads x))
    ∧ rtc (docs_step d) (gr_docs g) (gr_docs x) ∧ rtc (leads_step d) (gr_leads g) (gr_leads x)).
  assert (Hcalls : ∀ x x', only_calls d x x' → P x → P x').
  { intros x x' [_ Hd Hl _ _] (Hi & Hrd & Hrl). split; [|split].
    - intros Hidle. rewrite (idle_docs d _ _ Hidle Hd), (idle_leads d _ _ Hidle Hl). auto.
    - etransitivity; [exact Hrd|]. by apply rtc_others.
    - etransitivity; [exact Hrl|]. by apply rtc_others. }
  assert (Hdoc : ∀ x f id, P x →
    (idle d → ∀ a, gr_docs x !! id = Some a → reviewed a (f a)) → (∀ a, revised a (f a)) →
    P (set_docs (alter f id (gr_docs x)) x)).
  { intros x f id (Hi & Hrd & Hrl) Hf Hf'. split; [|split; [|exact Hrl]].
    - intros Hidle. destruct (Hi Hidle) as [Hd Hl]. split; [|exact Hl]. cbn.
      apply pointwise_alter; [apply _|done|]. by apply Hf.
    - eapply rtc_r; [exact Hrd|]. right. apply pointwise_alter_one; [apply _|]. intros a _. apply Hf'. }
  enough (W : Walks d True P (λ _ _, P)).
  { apply (run_walks d stored natural visit visit_groups Hv True P (λ _ _, P) ops g); [done..| |].
    - apply Forall_forall. intros [] _; done.
    - split; [|by split]. intros _. split; apply pointwise_refl; apply _. }
  split; try done.
  - intros x _. by left.
  - intros x id r Hp. apply Hdoc; [done| |]; intros; (split; [by destruct a|split; [by left|by exists [r]]]).
  - intros x id e res t Hp He _ p. apply (Hdoc (set_calls _ x)); [done| |intros a; apply patch_revised].
    intros Hidle a Ha. cbn in Ha. rewrite (He Hidle) in Ha. injection Ha as <-. apply classification_reviewed.
  - intros _ _ x f set (Hi & Hrd & Hrl) Hs.
    assert (∀ c, synced c (if f c : bool then set ∪ c else c)) as Hc
      by (intros c; by apply update_many_synced).
    split; [|split; [done|]].
    + intros Hidle. destruct (Hi Hidle) as [Hd Hl]. split; [done|]. cbn.
      by apply pointwise_fmap; [apply _|..].
    + eapply rtc_r; [exact Hrl|]. right. cbn. by apply pointwise_fmap; [apply _|apply pointwise_refl, _|].
  - intros id _ x Hp. unfold ClearClassifyForce, force_classify.
    destruct (String.eqb id estr); [by destruct x|]. apply Hdoc; [done| |]; intros;
      (split; [by destruct a|by split; [left|]]).
Qed.

(** ** Marks and pauses *)

(** The entity is marked for a fresh classification. *)
Definition marked_in (id : string) (m : Docs) : Prop :=
  ∃ e, m !! id = Some e ∧ rv_ClassifyForce (ed_Review e) = true.
Definition marked (id : string) (g : Graph) : Prop := marked_in id (gr_docs g).

Lemma marked_alter id id' f m :
  (∀ e, rv_ClassifyForce (ed_Review e) = true → rv_ClassifyForce (ed_Review (f e)) = true) →
  marked_in id m → marked_in id (alter f id' m).
Proof.
  intros Hf (e & He & Hc). unfold marked_in. destruct (decide (id' = id)) as [->|Hn].
  - exists (f e). rewrite lookup_alter_eq, He. split; [done|by apply Hf].
  - exists e. by rewrite lookup_alter_ne.
Qed.

Lemma patch_marked `{Sorter} id id' p m :
  marked_in id m → marked_in id (alter (classificationPatchBSON p) id' m).
Proof.
  apply marked_alter. intros e He. unfold classificationPatchBSON, downgrade.
  by destruct (String.eqb (cp_HeatTierDowngrade _) _).
Qed.

(** A classification of the entity was written after the calls [calls0]. *)
Definition classified_since (calls0 : list graph_call) (id : string) (g : Graph) : Prop :=
  ∃ new p, gr_calls g = calls0 ++ new ∧ GPatch id p true ∈ new.

Lemma classified_more calls0 id g g' more :
  gr_calls g' = gr_calls g ++ more → classified_since calls0 id g → classified_since calls0 id g'.
Proof.
  intros E (new & p & E' & Hin). exists (new ++ more), p. rewrite E, E', app_assoc.
  split; [done|]. apply elem_of_app. by left.
Qed.

(** C37. A mark for classification is not lost. Whatever the workers do, whatever fails and
    whatever other writers do in between, as long as none of them takes a mark away or deletes a
    marked entity: an entity that is marked for a fresh classification when a run of events,
    flushes and scans begins is still marked after it, or a classification of it has been written
    during the run. (A mark that is set while the entity is being classified is cleared with the
    older one: [GraphRuns.mark_under_way_is_lost].) *)
Theorem marks_are_not_lost `{Sorter} (d : GraphDeps) (stored : string → EntityDoc → bool)
    (natural : Docs → list (string * EntityDoc))
    (visit : gmap string EntityClassifyEvent → list (string * EntityClassifyEvent))
    (visit_groups : gmap string (list EntityDoc) → list (string * list EntityDoc))
    (ops : list graph_op) (g : Graph) (id : string) :
  (∀ m p, p ∈ visit m → m !! p.1 = Some p.2) →
  (∀ calls m, marked_in id m → marked_in id (gd_others d calls m)) → marked id g →
  let g' := graph_run d stored natural visit visit_groups ops g in
  marked id g' ∨ classified_since (gr_calls g) id g'.
Proof.
  intros Hv Ho Hm g'. set (calls0 := gr_calls g) in *.
  pose (P := λ x, calls0 `prefix_of` gr_calls x ∧ (marked id x ∨ classified_since calls0 id x)).
  pose (U := λ (id' : string) (_ : Time) x, P x ∧ classified_since calls0 id' x).
  assert (Hmore : ∀ x x' more, gr_calls x' = gr_calls x ++ more → (marked id x → marked id x') → P x → P x').
  { intros x x' more E Hk [Hp Hx]. split; [rewrite E; by apply prefix_app_r|].
    destruct Hx as [Hx|Hx]; [left; auto|right]. by eapply classified_more. }
  assert (Hothers : ∀ m m', rtc (by_others d) m m' → marked_in id m → marked_in id m').
  { induction 1 as [|m1 m2 m3 [calls ->] _ IH]; auto. }
  assert (Hcalls : ∀ x x', only_calls d x x' → P x → P x').
  { intros x x' [(calls & _ & E) Hd _ _ _]. eapply Hmore; [exact E|]. by apply Hothers. }
  enough (W : Walks d True P U).
  { apply (run_walks d stored natural visit visit_groups Hv True P U ops g);
      [done..| |by split; [|left]]. apply Forall_forall. intros [] _; done. }
  assert (Hsame : ∀ x x', gr_calls x' = gr_calls x → (marked id x → marked id x') → P x → P x').
  { intros x x' E Hk. eapply (Hmore x x' []); [by rewrite app_nil_r|done]. }
  split.
  - exact Hcalls.
  - intros x id' p. by eapply Hmore.
  - intros x m Hp _. by eapply Hsame.
  - intros x _. by left.
  - intros x id' r. apply Hsame; [done|]. by apply marked_alter.
  - intros x id' e res t Hp _ _ p. split.
    + eapply (Hmore x); [done| |exact Hp]. apply patch_marked.
    + destruct Hp as [[new E] _]. eexists (new ++ [GPatch id' p true]), p. cbn.
      rewrite E, app_assoc. split; [done|]. apply elem_of_app. right. by left.
  - intros id' t x x' Hx [Hp Hc]. split; [by eapply Hcalls|].
    destruct (oc_calls _ _ _ Hx) as (calls & _ & E). by eapply classified_more.
  - intros id' t x f set [Hp Hc] _. split; [by eapply Hsame|done].
  - intros id' t x [Hp Hc]. split; [|done]. unfold ClearClassifyForce, force_classify.
    destruct (String.eqb id' estr); [by eapply Hsame|].
    destruct (decide (id' = id)) as [->|Hn].
    + split; [apply Hp|]. by right.
    + eapply (Hsame x); [done| |exact Hp]. intros (e & He & Hf). exists e. cbn.
      by rewrite lookup_alter_ne.
  - intros id' t x [Hp _]. by eapply Hsame.
Qed.

(** The times of the classifications of an entity that were written. *)
Definition written_at (id : string) (calls : list graph_call) : list Time :=
  omap (λ c, match c with
             | GPatch id' p true => if String.eqb id' id then Some (cp_EntityClassifiedAt p) else None
             | _ => None end) calls.

Lemma written_plain id calls : Forall plain calls → written_at id calls = [].
Proof. induction 1 as [|c calls Hc _ IH]; [done|]. unfold written_at in *. cbn. by destruct c. Qed.

(** C38. An entity rests between two classifications. When nothing asks for a fresh classification
    — no event of the channel and no polling —, the classifications of an entity that are written
    in any run are at least a pause apart, the shorter of the two configured ones, and the first
    one a pause after the last one the service remembers from before; whatever fails and whatever
    other writers do to the entity. *)
Theorem entity_rests `{Sorter} (d : GraphDeps) (stored : string → EntityDoc → bool)
    (natural : Docs → list (string * EntityDoc))
    (visit : gmap string EntityClassifyEvent → list (string * EntityClassifyEvent))
    (visit_groups : gmap string (list EntityDoc) → list (string * list EntityDoc))
    (ops : list graph_op) (g : Graph) (id : string) :
  (∀ m p, p ∈ visit m → m !! p.1 = Some p.2) →
  gd_force d = false → gd_lowConf d = false → 0 < pause d ≤ max_int64 →
  Forall (op_unforced False) ops → unforced False (gr_pending g) →
  let g' := graph_run d stored natural visit visit_groups ops g in
  ∃ new, gr_calls g' = gr_calls g ++ new
    ∧ Sorted (λ t t', t + pause d ≤ t') (option_list (gr_debounce g !! id) ++ written_at id new).
Proof.
  intros Hv Hf Hl Hd Hops Hu g'.
  pose (times := λ new, option_list (gr_debounce g !! id) ++ written_at id new).
  pose (R := λ (x : Graph) (known : option Time), unforced False (gr_pending x) ∧
    ∃ new, gr_calls x = gr_calls g ++ new ∧ Sorted (λ t t', t + pause d ≤ t') (times new)
      ∧ last (times new) = known).
  pose (P := λ x, R x (gr_debounce x !! id)).
  pose (U := λ (id' : string) (t : Time) x, R x (if String.eqb id' id then Some t else gr_debounce x !! id)).
  assert (Hplain : ∀ x x' known calls, gr_calls x' = gr_calls x ++ calls →
    gr_pending x' = gr_pending x → written_at id calls = [] → R x known → R x' known).
  { intros x x' known calls E Ep Ew (Hun & new & En & Hs & Hlast). split; [by rewrite Ep|].
    exists (new ++ calls). unfold times, written_at in *.
    rewrite omap_app, Ew, app_nil_r. split; [by rewrite E, En, app_assoc|done]. }
  enough (W : Walks d False P U).
  { destruct (run_walks d stored natural visit visit_groups Hv False P U ops g)
      as (_ & new & En & Hs & _); [congruence|congruence|done| |by exists new].
    split; [done|]. exists []. unfold times. cbn. rewrite !app_nil_r.
    by destruct (gr_debounce g !! id); repeat constructor. }
  split; unfold P, U.
  - intros x x' [(calls & Hc & E) _ _ Eb Ep] Hp. rewrite Eb. eapply Hplain; [exact E|exact Ep| |exact Hp].
    by apply written_plain.
  - intros x id' p Hp. by eapply (Hplain x _ _ [GPatch id' p false]).
  - intros x m [_ Hx] Hm. by split.
  - by intros x [Hx _].
  - intros x id' r Hp. by eapply (Hplain x _ _ []); rewrite ?app_nil_r.
  - intros x id' e res t (Hun & new & En & Hs & Hlast) _ [[]|Hr].
    set (p := (ApplyEntityClassification e res t).2). split; [done|].
    exists (new ++ [GPatch id' p true]). cbn [gr_calls set_docs set_calls gr_debounce].
    rewrite En, app_assoc. split; [done|]. unfold times in *. unfold written_at. rewrite omap_app.
    fold (written_at id new). cbn. destruct (String.eqb_spec id' id) as [->|Hn]; [|by rewrite app_nil_r].
    rewrite app_assoc. split; [|by rewrite last_snoc].
    apply Sorted_snoc; [done|]. unfold rested in Hr. rewrite <- Hlast in Hr.
    destruct (last (_ ++ _)) as [b|] eqn:E.
    + apply last_Some in E as [l' ->]. constructor. change (cp_EntityClassifiedAt p) with t.
      unfold time_sub, min_int64, max_int64 in *. lia.
    + apply last_None in E as ->. constructor.
  - intros id' t x x' [(calls & Hc & E) _ _ Eb Ep] Hp. rewrite Eb. eapply Hplain; [exact E|exact Ep| |exact Hp].
    by apply written_plain.
  - intros id' t x f set Hp _. by eapply (Hplain x _ _ []); rewrite ?app_nil_r.
  - intros id' t x Hp. by eapply (Hplain x _ _ []); rewrite ?app_nil_r.
  - intros id' t x Hp. cbn [gr_debounce set_debounce].
    eapply (Hplain x _ _ []); rewrite ?app_nil_r; try done.
    destruct (String.eqb_spec id' id) as [->|Hn]; [by rewrite lookup_insert_eq|].
    by rewrite lookup_insert_ne.
Qed.

(** The model is shown at most five sightings of an entity, whatever is read for it: also of
    an entity of low confidence, of which the worker reads up to twenty, with their contacts. *)
Theorem model_sees_five `{Sorter} (d : GraphDeps) (stored : string → EntityDoc → bool)
    (natural : Docs → list (string * EntityDoc))
    (visit : gmap string EntityClassifyEvent → list (string * EntityClassifyEvent))
    (visit_groups : gmap string (list EntityDoc) → list (string * list EntityDoc))
    (ops : list graph_op) (g : Graph) :
  (∀ m p, p ∈ visit m → m !! p.1 = Some p.2) → gr_calls g = [] →
  ∀ i ok, GClassify i ok ∈ gr_calls (graph_run d stored natural visit visit_groups ops g) →
    (length (ei_Sightings i) ≤ 5)%nat.
Proof.
  intros Hv Hg i ok Hi. set (P := λ x, Forall sane (gr_calls x)).
  enough (W : Walks d True P (λ _ _, P)).
  { assert (P (graph_run d stored natural visit visit_groups ops g)) as Hall.
    { apply (run_walks d stored natural visit visit_groups Hv True P (λ _ _, P) ops g);
        [done..| |unfold P; by rewrite Hg].
      apply Forall_forall. intros [] _; done. }
    unfold P in Hall. rewrite Forall_forall in Hall. exact (Hall _ Hi). }
  assert (∀ c, plain c → sane c) as Hps by by intros [].
  split; unfold P; try done.
  - intros x x' [(calls & Hc & ->) _ _ _ _] Hx. apply Forall_app. split; [done|].
    by eapply Forall_impl.
  - intros x id p Hx. apply Forall_app. by repeat constructor.
  - intros x _. by left.
  - intros x id e res t Hx _ _. cbn. apply Forall_app. by repeat constructor.
  - intros id t x x' [(calls & Hc & ->) _ _ _ _] Hx. apply Forall_app. split; [done|].
    by eapply Forall_impl.
Qed.

(** ** Concrete runs: the witnesses, and what the pollings and the scans repeat *)

Module GraphRuns.
#[local] Existing Instance insertion_sorter.
#[local] Existing Instance KeyWitnesses.plain_html.

(** A hot entity seen on two sources, never classified. *)
Definition two_sources : EntityDoc := Eval vm_compute in hot_doc.
Definition its_id : string := Eval vm_compute in ed_EntityID two_sources.

(** The model is not sure. *)
Definition unsure (calls : list graph_call) (i : EntityClassifyInput) : option entityClassifyResponse :=
  Some {| er_SameActor := true; er_ActorConfidence := f_ratio 3 10; er_UnifiedPain := " tracker ";
          er_BuyerIntent := "Warm"; er_SplitRecommended := false; er_Why := estr |}.

(** Every call succeeds; a call takes a second; another writer changes the entities. *)
Definition deps_with (others : list graph_call → Docs → Docs) (polling : bool)
    (answer : list graph_call → EntityClassifyInput → option entityClassifyResponse) : GraphDeps :=
  with_graph_defaults {|
    gd_Debounce := 0; gd_LowConfidenceDebounce := 0; gd_OutreachNarrativeEnabled := true;
    gd_force := polling; gd_lowConf := polling; gd_leadHeat := true; gd_contacts := true;
    gd_outreach := true; gd_narrator := false; gd_Limit := 0;
    gd_ok := λ _ _, true; gd_now := λ calls, at_noon + Z.of_nat (length calls) * second;
    gd_classify := answer; gd_narrate := λ _ _, None; gd_link := λ _ _, Some ("Merge", "same");
    gd_others := others; gd_other_leads := λ _ c, c |}.

(** Nobody else writes. *)
Definition deps : bool → (list graph_call → EntityClassifyInput → option entityClassifyResponse) → GraphDeps :=
  deps_with (λ _ m, m).

Lemma deps_idle polling answer : idle (deps polling answer).
Proof. done. Qed.

Definition start (docs : Docs) : Graph := {|
  gr_docs := docs;
  gr_leads := {["h1" := {["hash_id" := BStr "h1"; "entity_id" := BStr its_id; "score" := BInt 60]}]};
  gr_debounce := ∅; gr_pending := ∅; gr_calls := [] |}.

Definition always_stored (k : string) (e : EntityDoc) : bool := true.

Abbreviation runs polling := (graph_run (deps polling unsure) always_stored map_to_list map_to_list map_to_list).
Abbreviation one_entity := (start {[its_id := two_sources]}).

Lemma visits_map (m : gmap string EntityClassifyEvent) p : p ∈ map_to_list m → m !! p.1 = Some p.2.
Proof. destruct p. by intros ?%elem_of_map_to_list. Qed.

Definition classified_at (g : Graph) : nat :=
  length (List.filter (λ c, match c with GClassify _ _ => true | _ => false end) (gr_calls g)).

Lemma review_keeps_the_graph_witness :
  classified_at (runs true [Flushed] one_entity) = 1%nat
  ∧ pointwise reviewed (gr_docs one_entity) (gr_docs (runs true [Flushed] one_entity))
  ∧ pointwise synced (gr_leads one_entity) (gr_leads (runs true [Flushed] one_entity)).
Proof.
  split; [vm_compute; done|].
  exact (proj1 (review_keeps_the_graph (deps true unsure) always_stored map_to_list map_to_list map_to_list
    [Flushed] one_entity visits_map) (deps_idle true unsure)).
Defined.

(** The pollings ask for a fresh classification: an entity of low confidence is classified again
    at every tick, the pause of an hour notwithstanding. *)
Example low_confidence_never_rests :
  pause (deps true unsure) = hour
  ∧ classified_at (runs true [Flushed; Flushed; Flushed] one_entity) = 3%nat
  ∧ gd_now (deps true unsure) (gr_calls (runs true [Flushed; Flushed; Flushed] one_entity)) - at_noon < minute.
Proof. split; [|split]; vm_compute; done. Qed.

(** The CRM marks the entity while the model answers about it. *)
Definition marks_meanwhile (calls : list graph_call) (m : Docs) : Docs :=
  match last calls with Some (GClassify _ _) => MarkClassifyForce its_id m | _ => m end.

Abbreviation interrupted := (deps_with marks_meanwhile true).

Lemma marks_meanwhile_keeps calls m : marked_in its_id m → marked_in its_id (marks_meanwhile calls m).
Proof.
  unfold marks_meanwhile. destruct (last calls) as [[]|]; try done. unfold MarkClassifyForce, force_classify.
  destruct (String.eqb its_id estr); [done|]. by apply marked_alter.
Qed.

(** That mark is lost: the classification under way, of the entity as it was read before, clears
    it. *)
Example mark_under_way_is_lost :
  let g' := graph_run (interrupted unsure) always_stored map_to_list map_to_list map_to_list [Flushed] one_entity in
  classified_at g' = 1%nat
  ∧ (marks_meanwhile (take 6 (gr_calls g')) (gr_docs one_entity)) = MarkClassifyForce its_id (gr_docs one_entity)
  ∧ (λ e, rv_ClassifyForce (ed_Review e)) <$> gr_docs g' !! its_id = Some false.
Proof. split; [|split]; vm_compute; done. Qed.

(** A marked entity whose classification fails stays marked, also when it is marked again. *)
Definition marked_entity : Graph := start {[its_id := set_force true two_sources]}.

Lemma marks_are_not_lost_witness :
  let g' := graph_run (interrupted (λ _ _, None)) always_stored map_to_list map_to_list map_to_list
              [Flushed] marked_entity in
  marked its_id marked_entity
  ∧ (marked its_id g' ∨ classified_since (gr_calls marked_entity) its_id g').
Proof.
  assert (marked its_id marked_entity) as Hm by (exists (set_force true two_sources); split; vm_compute; done).
  split; [exact Hm|].
  exact (marks_are_not_lost (interrupted (λ _ _, None)) always_stored map_to_list map_to_list map_to_list
    [Flushed] marked_entity its_id visits_map marks_meanwhile_keeps Hm).
Defined.

(** Two events within the hour: the second one is not classified. *)
Definition arrives : graph_op := Received {| ce_EntityID := its_id; ce_ForceFresh := false; ce_TS := zero_time |}.

Lemma entity_rests_witness :
  let g' := runs false [arrives; Flushed; arrives; Flushed] one_entity in
  written_at its_id (gr_calls g') = [at_noon]
  ∧ ∃ new, gr_calls g' = gr_calls one_entity ++ new
      ∧ Sorted (λ t t', t + pause (deps false unsure) ≤ t')
          (option_list (gr_debounce one_entity !! its_id) ++ written_at its_id new).
Proof.
  split; [vm_compute; done|].
  assert (Forall (op_unforced False) [arrives; Flushed; arrives; Flushed]) as Ho
    by (repeat constructor; cbn; done).
  assert (unforced False (gr_pending one_entity)) as Hu.
  { right. intros i ev Hi. exfalso. vm_compute in Hi. done. }
  assert (0 < pause (deps false unsure) ≤ max_int64) as Hp by (vm_compute; split; [done|intros [=]]).
  exact (entity_rests (deps false unsure) always_stored map_to_list map_to_list map_to_list
    [arrives; Flushed; arrives; Flushed] one_entity its_id visits_map eq_refl eq_refl Hp Ho Hu).
Defined.

(** The entity has twenty rows and low confidence: all are read, five are shown. *)
Definition many_rows : EntityDoc :=
  set_time two_sources {|
    tl_Sightings := (λ n, {| sg_HashID := "h" +:+ Itoa (Z.of_nat n); sg_Source := "reddit:x"; sg_Family := "reddit";
        sg_PostedAt := at_noon + Z.of_nat n; sg_SeenAt := at_noon; sg_Matched := []; sg_Snippet := "s"; sg_Score := 1 |})
      <$> seq 0 20;
    tl_FirstSeen := at_noon; tl_LastSeen := at_noon |}.

Definition shown (g : Graph) : list nat :=
  omap (λ c, match c with GClassify i _ => Some (length (ei_Sightings i)) | _ => None end) (gr_calls g).
Definition contact_reads (g : Graph) : nat :=
  length (List.filter (λ c, match c with GRead what _ _ => String.eqb what "contacts" | _ => false end) (gr_calls g)).

Lemma model_sees_five_witness :
  let g' := runs true [Flushed] (start {[its_id := many_rows]}) in
  shown g' = [5%nat] ∧ contact_reads g' = 20%nat
  ∧ ∀ i ok, GClassify i ok ∈ gr_calls g' → (length (ei_Sightings i) ≤ 5)%nat.
Proof.
  split; [vm_compute; done|]. split; [vm_compute; done|].
  exact (model_sees_five (deps true unsure) always_stored map_to_list map_to_list map_to_list
    [Flushed] (start {[its_id := many_rows]}) visits_map eq_refl).
Defined.

(** Two entities with an identity in common: every scan pushes the same suggestions again. *)
Definition twin (id : string) : EntityDoc :=
  let e := two_sources in {|
  ed_EntityID := id; ed_PrimaryKind := ed_PrimaryKind e; ed_PrimaryValue := ed_PrimaryValue e;
  ed_AliasKeys := ["email:ops@acme.io"]; ed_Agg := ed_Agg e; ed_Time := ed_Time e; ed_Heat := ed_Heat e;
  ed_Review := ed_Review e; ed_MergeGeneration := 0 |}.

Definition suggested (id : string) (g : Graph) : list (string * string) :=
  match gr_docs g !! id with
  | Some e => (λ r, (rs_PeerEntityID r, rs_Action r)) <$> rv_ReviewSuggestions (ed_Review e)
  | None => []
  end.

Example suggestions_pile_up :
  let run ops := graph_run (deps false unsure) (λ _ _, false) map_to_list map_to_list map_to_list ops
                   (start {["e1" := twin "e1"; "e2" := twin "e2"]}) in
  suggested "e1" (run [Scanned]) = [("e2", "merge")] ∧ suggested "e2" (run [Scanned]) = [("e1", "merge")]
  ∧ suggested "e1" (run [Scanned; Scanned; Scanned]) = [("e2", "merge"); ("e2", "merge"); ("e2", "merge")].
Proof. split; [|split]; vm_compute; done. Qed.
End GraphRuns.
