(* ===== verification/Process.v ===== *)
(** The lead processor ([internal/pipeline/]: processor.go, task.go,
    telegram_cold_team.go, telegram_funnels.go, osint_triage.go): [Process] as
    the sequence of its stages, each a computation over the processor's mutable
    state that may return early.

    The interfaces of the processor (store, MX, language model, embedder, lead
    clusterer, entity recorder) and the settings it reads are fields of
    [Processor]; a nil field is [None].  An interface returns [None] on an error.
    What the call leaves behind (captured junk, statistics, store writes, warm
    events) is appended to the log of the state, in order. *)
From S2P Require Import Prelude Unicode GoStrings TextFacts GoSort SeenCache.
From S2P Require Import Matcher Validate Registry SourceRep Scoring Outreach.
From S2P Require Import Extract Geo Item Hashes FilterSignals FilterGates.
From S2P Require Import TgWeb WebPain Entity Gemini Enrich Effects.
From Stdlib Require Import SpecFloat.

Local Open Scope Z_scope.
Local Open Scope eff_scope.

(** ** Tasks, outcomes, the log *)

Record Task := { t_RoundID : string; t_Item : RawItem }.

Record ProcessOutcome := {
  o_Accepted : bool; o_RejectedGeo : bool; o_HardRejected : bool; o_Dedup : bool;
  o_DroppedMX : bool; o_RejectReason : string; o_Lead : option Lead }.

(** [ProcessOutcome{}]; the zero lead is [None]. *)
Definition no_outcome : ProcessOutcome := {|
  o_Accepted := false; o_RejectedGeo := false; o_HardRejected := false; o_Dedup := false;
  o_DroppedMX := false; o_RejectReason := estr; o_Lead := None |}.

Definition rejected (reason : string) : ProcessOutcome := {|
  o_Accepted := false; o_RejectedGeo := false; o_HardRejected := false; o_Dedup := false;
  o_DroppedMX := false; o_RejectReason := reason; o_Lead := None |}.

Definition rejected_geo : ProcessOutcome := {|
  o_Accepted := false; o_RejectedGeo := true; o_HardRejected := false; o_Dedup := false;
  o_DroppedMX := false; o_RejectReason := "geo"; o_Lead := None |}.

Definition hard_rejected (reason : string) : ProcessOutcome := {|
  o_Accepted := false; o_RejectedGeo := false; o_HardRejected := true; o_Dedup := false;
  o_DroppedMX := false; o_RejectReason := reason; o_Lead := None |}.

Definition deduped (reason : string) : ProcessOutcome := {|
  o_Accepted := false; o_RejectedGeo := false; o_HardRejected := false; o_Dedup := true;
  o_DroppedMX := false; o_RejectReason := reason; o_Lead := None |}.

Definition dropped_mx : ProcessOutcome := {|
  o_Accepted := false; o_RejectedGeo := false; o_HardRejected := false; o_Dedup := false;
  o_DroppedMX := true; o_RejectReason := "mx"; o_Lead := None |}.

Definition accepted (lead : Lead) : ProcessOutcome := {|
  o_Accepted := true; o_RejectedGeo := false; o_HardRejected := false; o_Dedup := false;
  o_DroppedMX := false; o_RejectReason := estr; o_Lead := Some lead |}.

(** [coldpath.Event]. *)
Record ColdEvent := {
  ce_RoundID : string; ce_Source : string; ce_Title : string; ce_Snippet : string;
  ce_ContactHint : string; ce_Reason : string; ce_ReasonDetail : string; ce_Score : Z;
  ce_Matched : list string }.

(** [warmpath.Event]. *)
Record WarmEvent := {
  we_HashID : string; we_RoundID : string; we_Source : string; we_Title : string;
  we_Snippet : string; we_Contacts : list string; we_ContactTypes : list string;
  we_Stack : list string; we_Score : Z; we_Priority : Priority; we_Matched : list string;
  we_Domain : string; we_RDAPCountry : string; we_DomainAgeDays : Z; we_DisplayName : string;
  we_EntityID : string; we_EntityHeat : spec_float; we_HeatTier : string;
  we_InlineICP : string; we_PostedAt : Time; we_DisplacementTier : DisplacementTier;
  we_EngagePriority : Z }.

Inductive upsert_result := Stored | DuplicateKey | UpsertFailed.

Inductive Event :=
  | LogJunk (reason : string)
  | LogCapture (e : ColdEvent)
  | LogKeyword (id : string) (junk : bool)
  | LogStats (e : stats_event)
  | LogSighting (i : SightingInput)
  | LogEntityClassify (entityID : string) (forceFresh : bool)
  | LogHeatPatch (hash tier : string) (boost : Z)
  | LogHotPatch (hash : string) (boost : Z)
  | LogModelCall (which : string)
  | LogExists (hash : string)
  | LogUpsert (lead : Lead) (r : upsert_result)
  | LogClusterRecord (hash : string)
  | LogWarm (e : WarmEvent)
  | LogSeed (lead : Lead) (domain : string)
  | LogAccepted (source : string) (priority : Priority).

(** ** State and configuration *)

Record World := {
  w_seen : option SeenCache;
  w_inflight : gset string;
  w_rep : option SourceReputation;
  w_thread : option ThreadBuffer;
  w_log : list Event }.

(** Points at which the call reads the clock, the LLM switch (which an operator
    may flip at any time) and the entity recorder. *)
Inductive clock_site := AtSeen | AtSeenSince | AtDedupMark | AtReserve | AtDupKeyMark
  | AtAcceptMark | AtScore | AtEnrich | AtLead | AtSighting.
Inductive llm_site := LlmPrescan | LlmCluster | LlmGeo | LlmICP | LlmIntent | LlmEngage
  | LlmSynth | LlmStatus | LlmRecord | LlmWarm.
Inductive sight_site := SightDedup | SightLead | SightDupKey.

Record StoreOps := {
  so_Exists : string → option bool;
  so_Upsert : Lead → upsert_result;
  so_HeatPatcher : bool;
  so_HotPatcher : bool }.

Record Prescanner := {
  ps_EvaluatePain : string → option PrescanVerdict;
  ps_EvaluateSpam : string → option PrescanVerdict }.

Record Processor := {
  p_Registry : option Registry;
  p_Store : option StoreOps;
  p_MX : option (string → option bool);
  p_Junk : bool;
  p_StatsWriter : option (string → Z);
  p_KeywordStats : bool;
  p_ICP : option (string → option ICPResult);
  p_ICPEnabled : bool; p_ICPTgWebEnabled : bool; p_TgWebPrescanMode : TgWebPrescanMode;
  p_Geo : option (string → list string → list string → option GeoResult);
  p_GeoEnabled : bool; p_GeoBlockCountries : list string;
  p_Engage : option (EngagementInput → option EngagementResult); p_EngageEnabled : bool;
  p_Intent : option (string → option IntentResult); p_IntentEnabled : bool;
  p_IntentMinConfidence : spec_float;
  p_LanderOutreachEnabled : bool;
  p_Prescan : option Prescanner; p_PrescanEnabled : bool;
  p_LeadCluster : option (string → string → option bool); p_LeadClusterEnabled : bool;
  p_Enricher : option Enricher; p_ProfileEnricher : option ProfileEnricher;
  p_EnrichSynth : option (EnrichSynthInput → option EnrichSynthResult); p_EnrichSynthEnabled : bool;
  p_TimeDecayEnabled : bool; p_PilotTagEnabled : bool; p_LeadStatusEnabled : bool;
  p_GeminiDefer : bool;
  p_OpsSettings : option (llm_site → bool);
  p_WarmPath : bool;
  p_EntityRecorder : option (sight_site → SightingInput → option RecordResult);
  p_EntitySightings : bool; p_CrossSourceHot : bool; p_CrossSourceBoost : Z;
  p_EntityClassifyEnabled : bool; p_EntityClassify : bool;
  p_EntityHeatEnabled : bool; p_EntityHeat : HeatConfig;
  p_HardRejectShadowPct : Z; p_AcceptMinScore : Z; p_TelegramAcceptMinScore : Z;
  p_SeedFeedback : bool }.

(** A call returns an outcome, or panics on a nil pointer. *)
Inductive exit := Return (o : ProcessOutcome) | Panic.

Abbreviation P := (eff World exit).

Definition log (e : Event) : P unit := modify (λ w, {|
  w_seen := w_seen w; w_inflight := w_inflight w; w_rep := w_rep w; w_thread := w_thread w;
  w_log := w_log w ++ [e] |}).

Definition set_seen (c : SeenCache) : P unit := modify (λ w, {|
  w_seen := Some c; w_inflight := w_inflight w; w_rep := w_rep w; w_thread := w_thread w;
  w_log := w_log w |}).

Definition set_rep (r : option SourceReputation) : P unit := modify (λ w, {|
  w_seen := w_seen w; w_inflight := w_inflight w; w_rep := r; w_thread := w_thread w;
  w_log := w_log w |}).

Definition set_thread (t : ThreadBuffer) : P unit := modify (λ w, {|
  w_seen := w_seen w; w_inflight := w_inflight w; w_rep := w_rep w; w_thread := Some t;
  w_log := w_log w |}).

Definition with_inflight (s : gset string) (w : World) : World := {|
  w_seen := w_seen w; w_inflight := s; w_rep := w_rep w; w_thread := w_thread w;
  w_log := w_log w |}.

Fixpoint log_all (es : list Event) : P unit :=
  match es with
  | [] => done tt
  | e :: es' => log e ;;! log_all es'
  end.

(** ** Team funnels ([telegram_cold_team.go], [telegram_funnels.go]) *)

Definition isTelegramColdTeam (item : RawItem) : bool :=
  EqualFold (TrimSpace (it_LeadType item)) "cold_team".

Definition isTelegramCPASupply (item : RawItem) : bool :=
  EqualFold (TrimSpace (it_LeadType item)) "cpa_supply".

Fixpoint cold_team_rest (source handle : string) (seen : gset string) (contacts : list Contact)
    : list Contact :=
  match contacts with
  | [] => []
  | c :: rest =>
      let val := TrimSpace (c_Value c) in
      if String.eqb val estr then cold_team_rest source handle seen rest
      else if EqualFold val handle then cold_team_rest source handle seen rest
      else if String.eqb (c_Type c) "telegram"
              && Contains (ToLower source) (TrimPrefix (ToLower val) "telegram:")
      then cold_team_rest source handle seen rest
      else if decide (val ∈ seen) then cold_team_rest source handle seen rest
      else c :: cold_team_rest source handle ({[val]} ∪ seen) rest
  end.

Definition telegramColdTeamContacts (item : RawItem) (contacts : list Contact) : list Contact :=
  let poster := TrimSpace (it_Username item) in
  if String.eqb poster estr then contacts
  else
    let handle := "telegram:@" +:+ TrimPrefix poster "@" in
    MkContact "telegram" handle :: cold_team_rest (it_Source item) handle {[handle]} contacts.

Definition mediumMinFromReg (reg : option Registry) : Z :=
  match reg with None => 25 | Some r => mediumMin r end.

(** With a registry; without one [PriorityFromScore] panics. *)
Definition scoreTeamHiringLead (reg : Registry) (title text : string) : LeadText * Priority :=
  let lt := {| lt_Title := title; lt_Context := text; lt_Score := mediumMinFromReg (Some reg);
               lt_Matched := ["team_hiring"]; lt_DisplacementTier := DisplacementNone |} in
  (lt, PriorityFromScore reg (lt_Score lt)).

(** ** Contact helpers *)

Fixpoint blacklistContact (st : validate_state) (contacts : list Contact) : option string :=
  match contacts with
  | [] => None
  | c :: rest =>
      if String.eqb (c_Type c) "email" && IsBlacklisted st (c_Value c) estr
      then Some "blacklisted email/domain"
      else if String.eqb (c_Type c) "domain" && IsBlacklisted st estr (c_Value c)
      then Some "blacklisted domain"
      else blacklistContact st rest
  end.

Definition hasEmailContact (contacts : list Contact) : bool :=
  existsb (λ c, String.eqb (c_Type c) "email") contacts.

Definition hasDirectMessengerContact (contacts : list Contact) : bool :=
  existsb (λ c, String.eqb (c_Type c) "telegram" || String.eqb (c_Type c) "skype") contacts.

(** The first e-mail contact, even with an empty value. *)
Definition primaryEmail (contacts : list Contact) : string :=
  match List.find (λ c, String.eqb (c_Type c) "email") contacts with
  | Some c => c_Value c
  | None => estr
  end.

Definition contactTypes (contacts : list Contact) : list string :=
  dedup_on id (List.filter (λ t, negb (String.eqb t estr))
                 ((λ c, ToLower (TrimSpace (c_Type c))) <$> contacts)).

Definition tgwebEmailAllowed (item : RawItem) (contacts : list Contact)
    (mode : TgWebPrescanMode) (text : string) : bool :=
  if hasDirectMessengerContact contacts then HasStrictPainContext text
  else if negb (Aggressive mode) then false
  else if HasSiteLPRContact (it_Source item) contacts then HasStrictPainContext text
  else AggressivePrescanFromContact (it_Source item) (it_Contact item)
       && HasStrictPainContext text.

Definition geoClassifyAboutMax : nat := 500.

Definition geoClassifyText (item : RawItem) (text : string) : string :=
  let about := TrimSpace (it_ChannelAbout item) in
  if String.eqb about estr then text
  else
    let about := if Nat.ltb geoClassifyAboutMax (slen about)
                 then stake geoClassifyAboutMax about else about in
    "Channel about: " +:+ about +:+ nl +:+ nl +:+ text.

(** ** Tags of the lead ([osint_triage.go]) *)

Definition TagPublisherSurface : string := "publisher-surface".
Definition TagPublisherAdsTxtContact : string := "publisher-ads-txt-contact".
Definition TagDiscordCommunityIntel : string := "discord-community-intel".
Definition TagForumTeamHiring : string := "forum-team-hiring".

Definition adsTxtPublisherContactTriage (source text : string) (contacts : list Contact)
    (tags : list string) : list string :=
  if negb (of_family "ads_txt:" source) then tags
  else if negb (Contains (ToUpper text) "CONTACT=") then tags
  else if existsb (λ c, String.eqb (c_Type c) "email"
                        && negb (String.eqb (TrimSpace (c_Value c)) estr)) contacts
  then AppendUniqueTag (AppendUniqueTag (AppendUniqueTag tags TagPublisherSurface)
                          TagPublisherAdsTxtContact) "outreach-email"
  else tags.

Definition applySourceFamilyTags (source : string) (tags : list string) : list string :=
  if IsDiscordSource source then AppendUniqueTag tags TagDiscordCommunityIntel else tags.

Definition applyOutreachQueue (lead : Lead) : Lead :=
  let base := ld_Base lead in
  let '(ch, action) :=
    AssignOutreachQueue (ld_Contacts base) (pl_OutreachChannel (ld_Pilot lead)) in
  let q := ScoreContactQuality (ld_Contacts base) in
  let quality := if String.eqb q estr then qu_ContactQuality (ld_Queue lead) else q in
  set_queue lead {|
    qu_ContactChannel := ch; qu_NextAction := action; qu_ContactQuality := quality;
    qu_EngagePriority := ComputeEngagePriority {|
      ep_Priority := ld_Priority lead; ep_Score := ld_Score lead;
      ep_DisplacementTier := ld_DisplacementTier base;
      ep_PilotQualified := pl_PilotQualified (ld_Pilot lead);
      ep_Stack := ld_Stack base; ep_EntityHeat := en_EntityHeat (ld_Entity lead);
      ep_ContactQuality := quality;
      ep_HasEngageDraft := negb (String.eqb (TrimSpace (pl_OutreachDraft (ld_Pilot lead))) estr);
      ep_SourceFamily := ld_Source base |} |}.

(** ** The call

    One call of [Process]: the libraries, the validation lists and forum hosts
    of the process, the processor, and the clock as this call reads it. *)

Section call.
Context `{Sorter} `{JsonLib} `{MailLib} (vst : validate_state) (hosts : forum_hosts)
  (p : Processor) (clock : clock_site → Time).

Definition llmScoringEnabled (site : llm_site) : bool :=
  match p_OpsSettings p with None => true | Some enabled => enabled site end.

Definition icpClassifierEnabled (source : string) : bool :=
  if negb (llmScoringEnabled LlmICP) || (match p_ICP p with None => true | _ => false end)
  then false
  else if p_ICPEnabled p then true
  else p_ICPTgWebEnabled p && IsTgWebSource source.

(** ** Junk, statistics, sightings *)

Definition recordKeywordOutcomes (matched : list string) (junk : bool) : P unit :=
  if negb (p_KeywordStats p) then done tt
  else match p_Registry p with
       | None => done tt
       | Some r =>
           if is_empty matched then done tt
           else log_all ((λ id, LogKeyword id junk) <$> KeywordIDsFromMatched (Some r) matched)
       end.

Definition has_writer : bool := match p_StatsWriter p with Some _ => true | None => false end.

Definition record_junk (source : string) : P unit :=
  let! w := get_state in
  let '(r, es) := RecordJunk has_writer (w_rep w) source in
  set_rep r ;;! log_all (LogStats <$> es).

Definition record_accepted (source : string) : P unit :=
  let! w := get_state in
  let '(r, es) := RecordAccepted has_writer (w_rep w) source in
  set_rep r ;;! log_all (LogStats <$> es).

Definition captureJunk (task : Task) (reason detail : string) (score : Z)
    (matched : list string) : P unit :=
  let item := t_Item task in
  log (LogJunk reason) ;;!
  recordKeywordOutcomes matched true ;;!
  record_junk (it_Source item) ;;!
  if p_Junk p then
    let contact := it_Contact item in
    let contact := if String.eqb contact estr then ContactTelegram item else contact in
    log (LogCapture {|
      ce_RoundID := t_RoundID task; ce_Source := it_Source item; ce_Title := it_Title item;
      ce_Snippet := Text item; ce_ContactHint := contact; ce_Reason := reason;
      ce_ReasonDetail := detail; ce_Score := score; ce_Matched := matched |})
  else done tt.

(** Captures the junk event and returns. *)
Definition reject {A} (task : Task) (out : ProcessOutcome) (reason detail : string)
    (score : Z) (matched : list string) : P A :=
  captureJunk task reason detail score matched ;;! exit_with (Return out).

(** [if cond { captureJunk; return }] before the lead is scored. *)
Definition reject_if (cond : bool) (task : Task) (out : ProcessOutcome) (reason detail : string)
    : P unit :=
  if cond then reject task out reason detail 0 [] else done tt.

(** The same on a filter that gives its reason. *)
Definition reject_on (r : option string) (task : Task) (out : ProcessOutcome) (reason : string)
    : P unit :=
  match r with
  | Some detail => reject task out reason detail 0 []
  | None => done tt
  end.

Definition telegramThreadText (task : Task) (text : string) : P string :=
  let item := t_Item task in
  let reply := TrimSpace (it_ReplyContext item) in
  let text := if String.eqb reply estr then text else "reply_to: " +:+ reply +:+ nl +:+ text in
  let! w := get_state in
  match w_thread w with
  | None => done text
  | Some buffer =>
      if negb (IsTelegramSource (it_Source item)) then done text
      else
        let author := TrimSpace (it_Username item) in
        let author :=
          if String.eqb author estr
          then TrimPrefix (TrimPrefix (TrimSpace (ContactTelegram item)) "telegram:") "@"
          else author in
        let '(win, buffer') := ThreadAdd buffer (it_Source item) author text in
        set_thread buffer' ;;!
        let bundled := BundleThreadMessages win 0 in
        done (if String.eqb bundled estr then text else bundled)
  end.

Definition entitySightingInput (task : Task) (contacts : list Contact) (hashID : string)
    (matched stack : list string) (text : string) (score : Z) (resolve : ResolveInput)
    : P SightingInput :=
  let item := t_Item task in
  let r := EnrichForumIdentity
    {| ri_CompanyName := ri_CompanyName resolve; ri_DisplayName := ri_DisplayName resolve;
       ri_GravatarName := ri_GravatarName resolve;
       ri_Source := if String.eqb (ri_Source resolve) estr then it_Source item
                    else ri_Source resolve;
       ri_ForumUser := ri_ForumUser resolve; ri_ForumUID := ri_ForumUID resolve;
       ri_Contacts := ri_Contacts resolve |}
    (it_Username item) (it_Title item) (it_ForumUserID item) in
  let company := ri_CompanyName r in
  let company := if String.eqb company estr && HasPrefix (ToLower (it_Source item)) "jobboard:"
                 then TrimSpace (it_Username item) else company in
  let company := if String.eqb company estr && isTelegramColdTeam item
                 then TrimSpace (it_CompanyHint item) else company in
  let! text' := telegramThreadText task text in
  done {|
    si_Resolve := {|
      ri_CompanyName := company; ri_DisplayName := ri_DisplayName r;
      ri_GravatarName := ri_GravatarName r; ri_Source := ri_Source r;
      ri_ForumUser := ri_ForumUser r; ri_ForumUID := ri_ForumUID r; ri_Contacts := contacts |};
    si_HashID := hashID; si_Matched := matched; si_Stack := stack; si_Text := text';
    si_Score := score; si_PostedAt := it_PostedAt item; si_SeenAt := clock AtSighting |}.

Definition maybeCaptureEntityClassify (result : RecordResult) : P unit :=
  if negb (p_EntityClassifyEnabled p) || negb (p_EntityClassify p) then done tt
  else if negb (ShouldTriggerEntityClassify result) then done tt
  else log (LogEntityClassify (rr_EntityID result) (rr_NewSourceFamily result)).

Definition recordEntitySighting (site : sight_site) (i : SightingInput) : P RecordResult :=
  match p_EntityRecorder p with
  | None => done no_result
  | Some record =>
      if negb (p_EntitySightings p) then done no_result
      else
        log (LogSighting i) ;;!
        match record site i with
        | None => done no_result
        | Some result =>
            if String.eqb (rr_EntityID result) estr then done result
            else maybeCaptureEntityClassify result ;;! done result
        end
  end.

Definition maybePatchCanonicalLead (currentHash : string) (result : RecordResult) : P unit :=
  let canonical := TrimSpace (rr_CanonicalHash result) in
  if String.eqb canonical estr || String.eqb canonical currentHash then done tt
  else match p_Store p with
       | None => done tt
       | Some store =>
           if p_EntityHeatEnabled p then
             if HeatTierRank (rr_HeatTier result) <? HeatTierRank HeatTierHot then done tt
             else if negb (so_HeatPatcher store) then done tt
             else log (LogHeatPatch canonical (rr_HeatTier result)
                         (heatBoostForTier (rr_HeatTier result) (p_EntityHeat p)))
           else if negb (p_CrossSourceHot p) || negb (rr_CrossSourceHot result) then done tt
           else if negb (so_HotPatcher store) then done tt
           else log (LogHotPatch canonical (p_CrossSourceBoost p))
       end.

(** ** The head of [Process]: the values every stage uses *)

Record Locals := {
  l_text : string; l_coldTeam : bool; l_forumTeam : bool; l_replyThreadBuyer : bool;
  l_stack : list string; l_structuredStack : bool }.

Definition prologue (task : Task) : Locals :=
  let item := t_Item task in
  let text := Text item in
  let bio := TrimSpace (it_SenderBio item) in
  let text := if String.eqb bio estr then text else text +:+ nl +:+ "user_bio: " +:+ bio in
  let '(stack, structured) := CollectStack (it_CrawlHTML item) in
  let lander := IsLanderSource (it_Source item) in
  {| l_text := text;
     l_coldTeam := isTelegramColdTeam item;
     l_forumTeam := ForumTeamHiringBypassContextDrop hosts (it_Source item) text (it_Title item);
     l_replyThreadBuyer :=
       IsTelegramSource (it_Source item)
       && TelegramReplyThreadBuyer (it_ReplyToMessageID item) (it_ReplyContext item) text
            (it_Username item);
     l_stack := if lander then [] else stack;
     l_structuredStack := if lander then false else structured |}.

(** ** Source and geography gates *)

Definition geo_verdict (task : Task) (l : Locals) : Geo.Result :=
  let item := t_Item task in
  FilterH1 (l_text l) (it_Username item) (it_ChannelAbout item)
    [it_Contact item; ContactTelegram item].

Definition source_gates (task : Task) (l : Locals) : P unit :=
  let item := t_Item task in
  let source := it_Source item in
  let text := l_text l in
  (if HasPrefix source "fixture:" then exit_with (Return no_outcome) else done tt) ;;!
  reject_if (IsTelegramSource source && isTelegramCPASupply item) task
    (rejected "intel_only") "intent_reject" "cpa_network_supply" ;;!
  (let res := geo_verdict task l in
   reject_if (negb (Geo.OK res)) task rejected_geo "geo_reject" (Geo.Reason res)) ;;!
  reject_on (RejectH8PaymentVertical text (it_Title item)) task
    (rejected "payment") "context_drop" ;;!
  reject_on (RejectCryptoPayoutOnly text) task (rejected "payment") "context_drop" ;;!
  (if IsTgWebSource source then
     reject_if (IsBlockedTLD (SiteDomainFromSource source)) task rejected_geo
       "geo_reject" "ru/by tld" ;;!
     reject_on (RejectHTMLBoilerplate vst text) task (rejected "lang") "lang_reject"
   else done tt) ;;!
  reject_if (IsLanderSource source && LanderBlacklistedSource vst source) task
    (rejected "blacklist") "blacklist" "competitor lander domain" ;;!
  reject_if (IsSerpSource source && SerpBlacklistedSource vst source) task
    (rejected "blacklist") "blacklist" "competitor serp domain" ;;!
  reject_if (IsIntelOnlySource source (p_LanderOutreachEnabled p)) task
    (rejected "intel_only") "intent_reject" "lander intel only" ;;!
  (if IsLanderSource source || IsWebPainSource source
   then reject_on (RejectHTMLBoilerplate vst text) task (rejected "lang") "lang_reject"
   else done tt) ;;!
  (if IsDiscordSource source
   then reject_on (DiscordInvoiceNoise text) task (rejected "context") "context_drop"
   else done tt).

(** ** Context and spam gates *)

Definition hard_reject_gate (task : Task) (l : Locals) : P unit :=
  let item := t_Item task in
  match p_Registry p with
  | None => done tt
  | Some r =>
      match Registry.HardReject (Some r) (l_text l) with
      | None => done tt
      | Some hit =>
          if IsTgWebSource (it_Source item)
             && AggressivePrescanFromContact (it_Source item) (it_Contact item)
          then done tt
          else
            (if (0 <? p_HardRejectShadowPct p)
                && ShouldSampleHardRejectShadow (l_text l) (p_HardRejectShadowPct p)
             then captureJunk task "hard_reject_shadow" (hr_Phrase hit) 0 []
             else done tt) ;;!
            exit_with (Return (hard_rejected "hard_reject"))
      end
  end.

Definition context_gates (task : Task) (l : Locals) : P unit :=
  let item := t_Item task in
  let source := it_Source item in
  let text := l_text l in
  let telegram := IsTelegramSource source in
  (if negb (l_coldTeam l) && negb (l_forumTeam l)
   then reject_on (RejectNonBuyerContext hosts source text (it_Title item)) task
          (rejected "context") "context_drop"
   else done tt) ;;!
  reject_on (SellerAuthorProfileForChannel (it_Username item) (it_ChannelAbout item)
               (it_Title item) (it_ChannelRole item)) task
    (rejected "author_seller") "context_drop" ;;!
  reject_on (InstantDropSellerSpam text) task (hard_rejected "instant_drop") "hard_reject" ;;!
  (if telegram && (0 <? it_ReplyToMessageID item)
   then reject_on (TelegramReplyHelperReject text) task
          (rejected "telegram_spam") "telegram_spam"
   else done tt) ;;!
  reject_if (telegram && negb (l_coldTeam l)
             && TelegramChannelBroadcastReject source (it_ChatType item)
                  (it_ReplyToMessageID item) text) task
    (rejected "telegram_spam") "telegram_spam" "channel broadcast" ;;!
  hard_reject_gate task l ;;!
  (if l_replyThreadBuyer l then done tt
   else reject_on (TelegramSpam source text) task (rejected "telegram_spam") "telegram_spam") ;;!
  reject_if (telegram && OnlyContactNoContext text) task
    (rejected "telegram_spam") "telegram_spam" "contact only".

(** ** Prescan *)

(** The keyword prescan and the aggressive tgweb mode. *)
Definition keyword_prescan (task : Task) (l : Locals) : bool :=
  let item := t_Item task in
  match p_Registry p with
  | None => true
  | Some r => PrescanPasses (it_Source item) (Some r) (l_text l)
  end
  || (Aggressive (p_TgWebPrescanMode p)
      && AggressivePrescanFromContact (it_Source item) (it_Contact item)).

(** The embedding prescan: it can only turn a miss into a pass, or reject spam. *)
Definition embed_prescan (task : Task) (l : Locals) (prescanOK : bool) : P bool :=
  match p_Prescan p with
  | None => done prescanOK
  | Some ps =>
      if negb (p_PrescanEnabled p) || negb (llmScoringEnabled LlmPrescan) then done prescanOK
      else if negb prescanOK then
        log (LogModelCall "embed_pain") ;;!
        done (match ps_EvaluatePain ps (l_text l) with
              | None => false
              | Some verdict => pv_PainMatch verdict
              end)
      else if IsTelegramSource (it_Source (t_Item task)) then
        log (LogModelCall "embed_spam") ;;!
        match ps_EvaluateSpam ps (l_text l) with
        | None => done prescanOK
        | Some verdict =>
            reject_if (pv_SpamMatch verdict) task (rejected "telegram_spam") "embed_spam" estr ;;!
            done prescanOK
        end
      else done prescanOK
  end.

Definition has_registry : bool := match p_Registry p with Some _ => true | None => false end.

Definition prescan_stage (task : Task) (l : Locals) : P unit :=
  let! prescanOK := embed_prescan task l (keyword_prescan task l) in
  let prescanOK := prescanOK
    || (has_registry
        && (InfraPainBypassPrescan (l_text l) || l_replyThreadBuyer l || l_coldTeam l
            || l_forumTeam l)) in
  reject_if (has_registry && negb prescanOK) task
    (rejected "low_priority") "keyword_prescan" estr.

(** ** Contacts *)

Definition extract_contacts (task : Task) (l : Locals) : Extract.Result :=
  let item := t_Item task in
  let hints := [it_Contact item; ContactTelegram item]
    ++ (if 0 <? it_SenderUserID item
        then ["telegram:user_id:" +:+ Itoa (it_SenderUserID item)] else []) in
  Extract vst (l_text l) hints.

Definition enriched_contacts (task : Task) (contacts : list Contact) : list Contact :=
  let item := t_Item task in
  FilterJunkContacts
    match p_ProfileEnricher p with
    | None => contacts
    | Some pe => ProfileMergeContacts vst pe (it_Source item) contacts (it_Username item)
                   (it_ForumUserID item)
    end.

(** The Telegram gates; the contacts of a cold-team post are reordered first. *)
Definition telegram_gates (task : Task) (l : Locals) (contacts : list Contact)
    : P (list Contact) :=
  let item := t_Item task in
  let source := it_Source item in
  let text := l_text l in
  if negb (IsTelegramSource source) then done contacts
  else
    let contacts := if l_coldTeam l then telegramColdTeamContacts item contacts else contacts in
    reject_if (TelegramInviteWithoutBuyerIntent source text) task
      (rejected "telegram_spam") "telegram_spam" "invite broadcast" ;;!
    reject_if (TelegramAgencyOutreachReject source text) task
      (rejected "telegram_spam") "telegram_spam" "agency outreach" ;;!
    reject_if (TelegramChannelSelfBroadcast source contacts) task
      (rejected "telegram_spam") "telegram_spam" "channel self broadcast" ;;!
    reject_if (negb (l_replyThreadBuyer l) && negb (l_coldTeam l)
               && negb (TelegramRequiresBuyerSignal text)) task
      (rejected "telegram_no_buyer_voice") "keyword_prescan" "telegram: no buyer voice" ;;!
    done contacts.

Definition family_gates (task : Task) (l : Locals) (contacts : list Contact) : P unit :=
  let item := t_Item task in
  let source := it_Source item in
  let text := l_text l in
  let lander := IsLanderSource source in
  let serp := IsSerpSource source in
  reject_if (lander && negb (LanderRequiresEmailOrSkype contacts)) task
    (rejected "contact") "contact_reject" "lander: email or skype required" ;;!
  reject_if (lander && negb (LanderRequiresBuyerSignal text)) task
    (rejected "lander_no_buyer_signal") "keyword_prescan" "lander: no buyer signal" ;;!
  reject_if (serp && negb (SerpRequiresBuyerSignal text)) task
    (rejected "serp_no_buyer_signal") "keyword_prescan" "serp: no buyer signal" ;;!
  reject_if (serp && negb (SerpHasReachableContact (it_Contact item) contacts)) task
    (rejected "no_reachable_contact") "no_reachable_contact" "serp: no outreach handle" ;;!
  reject_if (serp && SerpForumSnippetOnly hosts source contacts) task
    (rejected "serp_forum_snippet") "contact_reject" "serp: forum snippet without author" ;;!
  reject_if (IsForumSource source && negb (l_forumTeam l)
             && negb (ForumHasForumUserContact contacts)) task
    (rejected "forum_no_user_contact") "contact_reject" "forum: no forum_user handle" ;;!
  reject_if (negb (GitHubRequiresPainContext source text)) task
    (rejected (if GitHubVendorOrg source then "github_vendor" else "low_priority"))
    "keyword_prescan" "github: no pain context".

(** The collapse of site contacts to one. *)
Definition site_contacts (item : RawItem) (contacts : list Contact) : list Contact :=
  let source := it_Source item in
  let contacts := if IsTgWebSource source
                  then TgWeb.FilterPipelineContacts source (it_Contact item) contacts
                  else contacts in
  if IsWebPainSource source
  then WebPain.FilterPipelineContacts source (it_Contact item) contacts else contacts.

Definition contact_gates (task : Task) (l : Locals) (extracted : Extract.Result)
    (contacts : list Contact) : P unit :=
  let item := t_Item task in
  let text := l_text l in
  reject_if (Rejected extracted) task (rejected "contact") "contact_reject"
    (Extract.Reason extracted) ;;!
  reject_if (is_empty contacts) task (rejected "no_contacts") "no_contacts" estr ;;!
  reject_if (hasEmailContact contacts && EmailWithoutPainContext text
             && negb (IsTgWebSource (it_Source item)
                      && tgwebEmailAllowed item contacts (p_TgWebPrescanMode p) text)) task
    (rejected "email_no_context") "email_no_context" estr ;;!
  reject_on (blacklistContact vst contacts) task (rejected "blacklist") "blacklist" ;;!
  reject_if (OnlyRoleEmails contacts) task (rejected "role_email") "role_email" estr ;;!
  reject_if (negb (HasReachableContact contacts) && negb (HasEnrichableIdentity contacts)) task
    (rejected "no_reachable_contact") "no_reachable_contact" estr.

Definition contact_stage (task : Task) (l : Locals) : P (list Contact) :=
  let item := t_Item task in
  let extracted := extract_contacts task l in
  let contacts := enriched_contacts task (Contacts extracted) in
  reject_if (IsSyntheticContact (it_Contact item)) task
    (rejected "synthetic_contact") "contact_reject" "synthetic serp contact" ;;!
  let! contacts := telegram_gates task l contacts in
  family_gates task l contacts ;;!
  let contacts := site_contacts item contacts in
  contact_gates task l extracted contacts ;;!
  done contacts.

(** ** Enrichment and score *)

Definition enrich_stage (task : Task) (l : Locals) (contacts : list Contact)
    : P (EnrichResult * list string) :=
  match p_Enricher p with
  | None => done (no_enrich, l_stack l)
  | Some e =>
      let item := t_Item task in
      let r := Enrich e (it_Source item) contacts (it_Contact item) (clock AtEnrich) in
      log (LogModelCall "enrich") ;;!
      reject_if (en_GeoBlocked r) task rejected_geo "geo_reject" (en_GeoReason r) ;;!
      done (r, MergeStack (l_stack l) (CompetitorStackFromResult (en_Stack r)))
  end.

Definition set_score (lt : LeadText) (score : Z) : LeadText := {|
  lt_Title := lt_Title lt; lt_Context := lt_Context lt; lt_Score := score;
  lt_Matched := lt_Matched lt; lt_DisplacementTier := lt_DisplacementTier lt |}.

(** Raises the score to the medium threshold when it is below. *)
Definition floor_score (r : Registry) (cond : bool) (fixed : option Priority)
    (s : LeadText * Priority) : LeadText * Priority :=
  let '(lt, priority) := s in
  match priority with
  | PriorityLow =>
      if cond && (lt_Score lt <? mediumMinFromReg (Some r)) then
        let lt := set_score lt (mediumMinFromReg (Some r)) in
        (lt, default (PriorityFromScore r (lt_Score lt)) fixed)
      else s
  | _ => s
  end.

Definition score_lead (r : Registry) (task : Task) (l : Locals) (rep : option SourceReputation)
    (stack : list string) (contacts : list Contact) : LeadText * Priority :=
  let item := t_Item task in
  let source := it_Source item in
  let text := l_text l in
  let s :=
    if l_coldTeam l || l_forumTeam l then scoreTeamHiringLead r (it_Title item) text
    else
      let '(priority, lt) := ScoreWithBoosts r
        {| lt_Title := it_Title item; lt_Context := text; lt_Score := 0; lt_Matched := [];
           lt_DisplacementTier := DisplacementNone |} source stack
        (match rep with Some _ => Some (Boost (p_StatsWriter p) rep) | None => None end)
        {| PostedAt := it_PostedAt item; TimeDecay := p_TimeDecayEnabled p;
           StructuredStack := l_structuredStack l |} (clock AtScore) in
      (lt, priority) in
  let s := floor_score r
    (Aggressive (p_TgWebPrescanMode p) && IsTgWebSource source
     && HasSiteLPRContact source contacts && HasStrictPainContext text) None s in
  let s := floor_score r
    (HasBanContextSignal text || TechnicalAuthorSignal text (it_Title item)
     || TeamBuyingSignal text (it_Title item)) (Some PriorityMedium) s in
  let s := floor_score r (l_replyThreadBuyer l) None s in
  floor_score r (l_coldTeam l || l_forumTeam l) None s.

Definition min_accept_score (task : Task) : Z :=
  if IsTelegramSource (it_Source (t_Item task)) then p_TelegramAcceptMinScore p
  else p_AcceptMinScore p.

Definition score_stage (task : Task) (l : Locals) (stack : list string) (contacts : list Contact)
    : P (LeadText * Priority) :=
  let! w := get_state in
  match p_Registry p with
  | None => exit_with Panic
  | Some r =>
      let '(lt, priority) := score_lead r task l (w_rep w) stack contacts in
      let min := min_accept_score task in
      let low := match priority with PriorityLow => true | _ => false end in
      (if low || ((0 <? min) && (lt_Score lt <? min))
       then reject task (rejected "low_priority") "low_score" estr (lt_Score lt) (lt_Matched lt)
       else done tt) ;;!
      done (lt, priority)
  end.

(** ** Deduplication *)

Definition leadHashID (task : Task) (contacts : list Contact) : string :=
  let item := t_Item task in
  let source := it_Source item in
  let message := if IsTelegramSource source && (0 <? it_MessageID item)
                 then TelegramMessageHashID source (it_MessageID item) else estr in
  if negb (String.eqb message estr) then message
  else
    let domain := if IsTgWebSource source then SiteDomainFromSource source else estr in
    if negb (String.eqb domain estr) then LeadHashIDWithScope domain contacts
    else LeadHashIDFromExtract contacts.

Definition seen_check (hashID : string) : P bool :=
  let! w := get_state in
  match w_seen w with
  | None => done false
  | Some c =>
      let '(b, c') := Seen c hashID (clock AtSeen) (clock AtSeenSince) in
      set_seen c' ;;! done b
  end.

Definition seen_mark (site : clock_site) (hashID : string) : P unit :=
  let! w := get_state in
  match w_seen w with
  | None => done tt
  | Some c =>
      match Mark c hashID (clock site) with
      | None => exit_with Panic
      | Some c' => set_seen c'
      end
  end.

(** The values every later stage works with. *)
Record Scored := {
  s_contacts : list Contact; s_enrich : EnrichResult; s_stack : list string;
  s_lead : LeadText; s_priority : Priority; s_hash : string }.

(** Records the sighting of a duplicate and heats up the lead it repeats. *)
Definition sight_duplicate (site : sight_site) (task : Task) (l : Locals) (s : Scored)
    (resolve : ResolveInput) : P unit :=
  let! i := entitySightingInput task (s_contacts s) (s_hash s) (lt_Matched (s_lead s))
              (s_stack s) (l_text l) (lt_Score (s_lead s)) resolve in
  let! result := recordEntitySighting site i in
  maybePatchCanonicalLead (s_hash s) result.

Definition dedup_exit {A} (task : Task) (l : Locals) (s : Scored) : P A :=
  sight_duplicate SightDedup task l s no_resolve ;;!
  exit_with (Return (deduped "dedup")).

(** [LoadOrStore] of the in-flight map. *)
Definition acquireHash (hashID : string) : P bool :=
  let! w := get_state in
  if decide (hashID ∈ w_inflight w) then done false
  else modify (λ w, with_inflight ({[hashID]} ∪ w_inflight w) w) ;;! done true.

Definition releaseHash (hashID : string) (w : World) : World :=
  with_inflight (w_inflight w ∖ {[hashID]}) w.

Definition dedup_stage (task : Task) (l : Locals) (s : Scored) : P unit :=
  (if String.eqb (s_hash s) estr
   then reject task (rejected "empty_hash") "empty_hash" estr
          (lt_Score (s_lead s)) (lt_Matched (s_lead s))
   else done tt) ;;!
  let! seen := seen_check (s_hash s) in
  (if seen then dedup_exit task l s else done tt) ;;!
  let! acquired := acquireHash (s_hash s) in
  if acquired then done tt else dedup_exit task l s.

(** From here on the hash is held; the store is asked and the hash reserved. *)
Definition reserve_stage (task : Task) (l : Locals) (s : Scored) : P unit :=
  (match p_Store p with
   | None => done tt
   | Some store =>
       log (LogExists (s_hash s)) ;;!
       match so_Exists store (s_hash s) with
       | None => exit_with (Return (rejected "store_error"))
       | Some false => done tt
       | Some true =>
           sight_duplicate SightDedup task l s no_resolve ;;!
           seen_mark AtDedupMark (s_hash s) ;;!
           exit_with (Return (deduped "dedup"))
       end
   end) ;;!
  seen_mark AtReserve (s_hash s) ;;!
  match p_LeadCluster p with
  | None => done tt
  | Some check =>
      if llmScoringEnabled LlmCluster && p_LeadClusterEnabled p
         && MeetsMinPriority (s_priority s) PriorityHigh
      then
        log (LogModelCall "cluster") ;;!
        match check (s_hash s) (l_text l) with
        | Some true => dedup_exit task l s
        | _ => done tt
        end
      else done tt
  end.

(** ** The language model and MX gates *)

Definition blocked_countries : list string :=
  if is_empty (p_GeoBlockCountries p) then ["RU"; "BY"] else p_GeoBlockCountries p.

(** The rejects after scoring carry the score and the matched phrases. *)
Definition reject_scored {A} (task : Task) (s : Scored) (out : ProcessOutcome)
    (reason detail : string) : P A :=
  reject task out reason detail (lt_Score (s_lead s)) (lt_Matched (s_lead s)).

Definition geo_stage (task : Task) (l : Locals) (s : Scored) : P GeoResult :=
  match p_Geo p with
  | None => done no_geo
  | Some classify =>
      if llmScoringEnabled LlmGeo && p_GeoEnabled p && MeetsMinPriority (s_priority s) PriorityMedium
      then
        log (LogModelCall "geo") ;;!
        match classify (geoClassifyText (t_Item task) (l_text l)) (FormatAll (s_contacts s))
                blocked_countries with
        | None => done no_geo
        | Some res =>
            if ShouldReject res blocked_countries
            then reject_scored task s rejected_geo "geo_gemini_reject" (Detail res)
            else done res
        end
      else done no_geo
  end.

(** The priority and score after the ICP answer. *)
Definition rescored (r : Registry) (s : Scored) (icp : ICPResult) : Scored :=
  let score := (ApplyICPToScore (lt_Score (s_lead s)) icp (highMin r)).1 in
  {| s_contacts := s_contacts s; s_enrich := s_enrich s; s_stack := s_stack s;
     s_lead := set_score (s_lead s) score; s_priority := PriorityFromScore r score;
     s_hash := s_hash s |}.

Definition with_priority (s : Scored) (priority : Priority) : Scored :=
  {| s_contacts := s_contacts s; s_enrich := s_enrich s; s_stack := s_stack s;
     s_lead := s_lead s; s_priority := priority; s_hash := s_hash s |}.

Definition not_icp (icp : ICPResult) : bool :=
  String.eqb (icp_ICP icp) "none" && negb (icp_Hot icp).

Definition icp_stage (task : Task) (l : Locals) (s : Scored) : P (ICPResult * Scored) :=
  let source := it_Source (t_Item task) in
  match p_ICP p, p_Registry p with
  | Some classify, Some r =>
      if icpClassifierEnabled source && MeetsMinPriority (s_priority s) PriorityMedium then
        log (LogModelCall "icp") ;;!
        match classify (l_text l) with
        | None => done (no_icp, s)
        | Some icp =>
            let s := rescored r s icp in
            let low := match s_priority s with PriorityLow => true | _ => false end in
            (if not_icp icp && ((IsTgWebSource source && p_ICPTgWebEnabled p) || low)
             then reject_scored task s (rejected "icp") "icp_reject" (icp_Why icp)
             else done tt) ;;!
            done (icp, match s_priority s with
                       | PriorityMedium => if icp_Hot icp then with_priority s PriorityHigh else s
                       | _ => s
                       end)
        end
      else done (no_icp, s)
  | _, _ => done (no_icp, s)
  end.

Definition intent_stage (task : Task) (l : Locals) (s : Scored) : P unit :=
  let item := t_Item task in
  match p_Intent p with
  | None => done tt
  | Some classify =>
      if llmScoringEnabled LlmIntent && p_IntentEnabled p
         && SourceRequiresIntentGate (it_Source item) (it_ChatType item)
         && MeetsMinPriority (s_priority s) PriorityMedium
      then
        log (LogModelCall "intent") ;;!
        match classify (l_text l) with
        | None => done tt
        | Some res =>
            if IntentAccept res (p_IntentMinConfidence p) then done tt
            else reject_scored task s (rejected "intent") "intent_reject" (int_Intent res)
        end
      else done tt
  end.

Definition mx_stage (task : Task) (s : Scored) : P unit :=
  let email := primaryEmail (s_contacts s) in
  match p_MX p with
  | None => done tt
  | Some has_mx =>
      if MeetsMinPriority (s_priority s) PriorityMedium && negb (String.eqb email estr) then
        log (LogModelCall "mx") ;;!
        match has_mx email with
        | Some true => done tt
        | _ => reject_scored task s dropped_mx "mx_reject" "mx lookup failed or no records"
        end
      else done tt
  end.

(** ** The lead *)

Definition lead_company (task : Task) (l : Locals) (geo : GeoResult) : string :=
  let item := t_Item task in
  let name := geo_CompanyName geo in
  let name := if String.eqb name estr && HasPrefix (ToLower (it_Source item)) "jobboard:"
              then TrimSpace (it_Username item) else name in
  if String.eqb name estr && l_coldTeam l then TrimSpace (it_CompanyHint item) else name.

Definition base_lead (task : Task) (l : Locals) (s : Scored) (geo : GeoResult) (icp : ICPResult)
    : Lead :=
  let item := t_Item task in
  let lt := s_lead s in
  let e := s_enrich s in
  let tag := DisplacementTag (lt_DisplacementTier lt) in
  {| ld_Base := {|
       ld_TS := clock AtLead; ld_RoundID := t_RoundID task; ld_HashID := s_hash s;
       ld_Source := it_Source item; ld_Title := it_Title item;
       ld_Contacts := FormatAll (s_contacts s); ld_Matched := lt_Matched lt;
       ld_Snippet := l_text l; ld_ICP := icp_ICP icp; ld_SpendTier := icp_SpendTier icp;
       ld_ICPWhy := icp_Why icp; ld_GeoCountry := geo_PersonCountry geo;
       ld_CompanyCountry := geo_CompanyCountry geo; ld_CompanyName := lead_company task l geo;
       ld_GeoSignals := geo_RegistrationSignals geo ++ geo_RUBYSignals geo;
       ld_GeoWhy := geo_Why geo; ld_WhoisCountry := en_RDAPCountry e;
       ld_DomainAgeDays := en_DomainAgeDays e; ld_DisplayName := en_DisplayName e;
       ld_GravatarName := en_GravatarName e; ld_EmailVerified := en_SMTPValid e;
       ld_PostedAt := it_PostedAt item; ld_Stack := s_stack s;
       ld_DisplacementTier := lt_DisplacementTier lt; ld_Lang := DetectLanguage (l_text l) |};
     ld_Priority := s_priority s; ld_Score := lt_Score lt; ld_Hot := icp_Hot icp;
     ld_Tags := (if String.eqb tag estr then [] else [tag])
       ++ (if l_coldTeam l then ["cold_team"; "pilot-nurture"] else [])
       ++ (if l_forumTeam l then [TagForumTeamHiring; "pilot-nurture"] else []);
     ld_Status := estr; ld_AnalysisStatus := estr;
     ld_Pilot := no_pilot; ld_Synth := no_synth; ld_Entity := no_entity; ld_Queue := no_queue |}.

(** The rule-based pilot verdict. *)
Definition pilot_by_rules (lead : Lead) (icp : ICPResult) (stack : list string) (text : string)
    : Lead :=
  let '(qualified, tags) := PilotQualified (icp_SpendTier icp) stack text in
  let pilot := ld_Pilot lead in
  set_tags (set_pilot lead {|
    pl_PilotQualified := qualified; pl_PilotWhy := pl_PilotWhy pilot;
    pl_OutreachChannel := pl_OutreachChannel pilot;
    pl_OutreachSubject := pl_OutreachSubject pilot;
    pl_OutreachAngle := pl_OutreachAngle pilot; pl_OutreachDraft := pl_OutreachDraft pilot |})
    (ld_Tags lead ++ tags).

Definition applyPilotAndOutreach (lead : Lead) (l : Locals) (s : Scored) (icp : ICPResult)
    : P Lead :=
  let by_rules := pilot_by_rules lead icp (s_stack s) (l_text l) in
  match p_Engage p with
  | None => done by_rules
  | Some classify =>
      let high := match s_priority s with PriorityHigh => true | _ => false end in
      if llmScoringEnabled LlmEngage && p_EngageEnabled p && high then
        log (LogModelCall "engage") ;;!
        match classify {|
          ei_Text := l_text l; ei_Stack := s_stack s; ei_ICP := icp_ICP icp;
          ei_SpendTier := icp_SpendTier icp; ei_Hot := icp_Hot icp;
          ei_ContactTypes := contactTypes (s_contacts s);
          ei_Source := ld_Source (ld_Base lead) |} with
        | None => done by_rules
        | Some res =>
            let '(qualified, tags) := ApplyEngagementPilot res in
            done (set_tags (set_pilot lead {|
              pl_PilotQualified := qualified; pl_PilotWhy := er_PilotWhy res;
              pl_OutreachChannel := er_OutreachChannel res;
              pl_OutreachSubject := er_OutreachSubject res;
              pl_OutreachAngle := er_OutreachAngle res;
              pl_OutreachDraft := er_OutreachDraft res |}) (ld_Tags lead ++ tags))
        end
      else done by_rules
  end.

Definition applyEnrichSynth (lead : Lead) (task : Task) (l : Locals) (s : Scored)
    (geo : GeoResult) (icp : ICPResult) : P Lead :=
  let e := s_enrich s in
  let high := match s_priority s with PriorityHigh => true | _ => false end in
  match p_EnrichSynth p with
  | None => done lead
  | Some synthesize =>
      if negb (p_EnrichSynthEnabled p) || negb high then done lead
      else
        log (LogModelCall "synth") ;;!
        match synthesize {|
          es_Snippet := l_text l; es_Source := it_Source (t_Item task);
          es_Domain := en_Domain e; es_RDAPCountry := en_RDAPCountry e;
          es_DomainAgeDays := en_DomainAgeDays e; es_Stack := en_Stack e;
          es_DisplayName := en_DisplayName e; es_GeoCountry := geo_PersonCountry geo;
          es_CompanyCountry := geo_CompanyCountry geo; es_ICP := icp_ICP icp |} with
        | None => done lead
        | Some synth =>
            done (set_synth lead {|
              sy_CompanyType := es_CompanyType synth; sy_EnrichSummary := es_Summary synth;
              sy_GeoConfidence := es_GeoConfidence synth |})
        end
  end.

Definition lead_stage (task : Task) (l : Locals) (s : Scored) (geo : GeoResult) (icp : ICPResult)
    : P Lead :=
  let lead := base_lead task l s geo icp in
  let! lead :=
    (if p_PilotTagEnabled p then
       if p_GeminiDefer p then
         let tags := (PilotQualified estr (s_stack s) (l_text l)).2 in
         done (set_tags lead (ld_Tags lead
                 ++ List.filter (λ t, negb (String.eqb t "pilot-qualified")) tags))
       else applyPilotAndOutreach lead l s icp
     else done lead) in
  let! lead := (if negb (p_GeminiDefer p) && llmScoringEnabled LlmSynth
                then applyEnrichSynth lead task l s geo icp else done lead) in
  let lead := applyOutreachQueue lead in
  let status := if p_LeadStatusEnabled p then "new" else ld_Status lead in
  let analysis := if p_GeminiDefer p
                  then if llmScoringEnabled LlmStatus then "pending" else "raw"
                  else ld_AnalysisStatus lead in
  let lead := set_status lead status analysis in
  let source := ld_Source (ld_Base lead) in
  let tags := if HasPrefix (ToLower source) "ads_txt:"
              then AppendUniqueTag (ld_Tags lead) TagPublisherSurface else ld_Tags lead in
  let tags := adsTxtPublisherContactTriage source (l_text l) (s_contacts s) tags in
  done (set_tags lead (applySourceFamilyTags source tags)).

(** ** Entity heat, the store, the epilogue *)

Definition lead_resolve (lead : Lead) : ResolveInput :=
  let b := ld_Base lead in {|
  ri_CompanyName := ld_CompanyName b; ri_DisplayName := ld_DisplayName b;
  ri_GravatarName := ld_GravatarName b; ri_Source := ld_Source b;
  ri_ForumUser := estr; ri_ForumUID := estr; ri_Contacts := [] |}.

(** The lead with the entity of its sighting, and the priority after the boost. *)
Definition apply_entity (lead : Lead) (result : RecordResult) (priority : Priority)
    : Lead * Priority :=
  let lead := if String.eqb (rr_EntityID result) estr then lead
              else set_entity lead {|
                en_EntityID := rr_EntityID result;
                en_SightingCount := rr_SightingCount result;
                en_SourceCount := rr_SourceCount result;
                en_EntityHeat := en_EntityHeat (ld_Entity lead);
                en_HeatTier := en_HeatTier (ld_Entity lead) |} in
  if p_EntityHeatEnabled p then
    let lead := ApplyEntityHeatToLead lead result (p_Registry p) (p_EntityHeat p) in
    (lead, if rr_CrossSourceHot result then ld_Priority lead else priority)
  else if p_CrossSourceHot p && rr_CrossSourceHot result then
    let lead := ApplyCrossSourceHotBoost lead (p_Registry p) (p_CrossSourceBoost p) in
    (lead, ld_Priority lead)
  else (lead, priority).

Definition entity_stage (task : Task) (l : Locals) (s : Scored) (lead : Lead)
    : P (Lead * Scored) :=
  let! i := entitySightingInput task (s_contacts s) (s_hash s) (lt_Matched (s_lead s))
              (s_stack s) (l_text l) (lt_Score (s_lead s)) (lead_resolve lead) in
  let! result := recordEntitySighting SightLead i in
  let '(lead, priority) := apply_entity lead result (s_priority s) in
  done (applyOutreachQueue lead, with_priority s priority).

Definition store_stage (task : Task) (l : Locals) (s : Scored) (lead : Lead) : P unit :=
  match p_Store p with
  | None => done tt
  | Some store =>
      let r := so_Upsert store lead in
      log (LogUpsert lead r) ;;!
      match r with
      | Stored => done tt
      | DuplicateKey =>
          sight_duplicate SightDupKey task l s (lead_resolve lead) ;;!
          seen_mark AtDupKeyMark (s_hash s) ;;!
          exit_with (Return (deduped estr))
      | UpsertFailed => exit_with (Return no_outcome)
      end
  end.

Definition warm_event (task : Task) (l : Locals) (s : Scored) (lead : Lead) : WarmEvent :=
  let item := t_Item task in
  let e := s_enrich s in {|
  we_HashID := s_hash s; we_RoundID := t_RoundID task; we_Source := it_Source item;
  we_Title := it_Title item; we_Snippet := l_text l;
  we_Contacts := FormatAll (s_contacts s); we_ContactTypes := contactTypes (s_contacts s);
  we_Stack := s_stack s; we_Score := lt_Score (s_lead s); we_Priority := s_priority s;
  we_Matched := lt_Matched (s_lead s); we_Domain := en_Domain e;
  we_RDAPCountry := en_RDAPCountry e; we_DomainAgeDays := en_DomainAgeDays e;
  we_DisplayName := en_DisplayName e; we_EntityID := en_EntityID (ld_Entity lead);
  we_EntityHeat := en_EntityHeat (ld_Entity lead); we_HeatTier := en_HeatTier (ld_Entity lead);
  we_InlineICP := ld_ICP (ld_Base lead); we_PostedAt := it_PostedAt item;
  we_DisplacementTier := ld_DisplacementTier (ld_Base lead);
  we_EngagePriority := qu_EngagePriority (ld_Queue lead) |}.

Definition epilogue (task : Task) (l : Locals) (s : Scored) (lead : Lead) : P ProcessOutcome :=
  let source := it_Source (t_Item task) in
  let clustered := match p_LeadCluster p with Some _ => true | None => false end in
  (if llmScoringEnabled LlmRecord && p_LeadClusterEnabled p && clustered
      && MeetsMinPriority (s_priority s) PriorityHigh
   then log (LogClusterRecord (s_hash s)) else done tt) ;;!
  seen_mark AtAcceptMark (s_hash s) ;;!
  (if p_GeminiDefer p && p_WarmPath p && llmScoringEnabled LlmWarm
   then log (LogWarm (warm_event task l s lead)) else done tt) ;;!
  record_accepted source ;;!
  (if p_SeedFeedback p then log (LogSeed lead (en_Domain (s_enrich s))) else done tt) ;;!
  log (LogAccepted source (s_priority s)) ;;!
  recordKeywordOutcomes (lt_Matched (s_lead s)) false ;;!
  done (accepted lead).

(** ** [Process] *)

(** The stages that run while the hash is held. *)
Definition held_stages (task : Task) (l : Locals) (s : Scored) : P ProcessOutcome :=
  reserve_stage task l s ;;!
  let! geo := geo_stage task l s in
  let! (icp, s) := icp_stage task l s in
  intent_stage task l s ;;!
  mx_stage task s ;;!
  let! lead := lead_stage task l s geo icp in
  let! (lead, s) := entity_stage task l s lead in
  store_stage task l s lead ;;!
  epilogue task l s lead.

(** The stages up to the score. *)
Definition gate_stages (task : Task) (l : Locals) : P Scored :=
  source_gates task l ;;!
  context_gates task l ;;!
  prescan_stage task l ;;!
  let! contacts := contact_stage task l in
  let! (enriched, stack) := enrich_stage task l contacts in
  let! (lt, priority) := score_stage task l stack contacts in
  done {| s_contacts := contacts; s_enrich := enriched; s_stack := stack; s_lead := lt;
          s_priority := priority; s_hash := leadHashID task contacts |}.

Definition process_body (task : Task) : P ProcessOutcome :=
  let task := {| t_RoundID := t_RoundID task; t_Item := limit_item (t_Item task) |} in
  let l := prologue task in
  let! s := gate_stages task l in
  dedup_stage task l s ;;!
  deferring (releaseHash (s_hash s)) (held_stages task l s).

(** The outcome of the call and the state it leaves. *)
Definition Process (task : Task) (w : World) : exit * World :=
  match process_body task w with
  | (inl o, w') => (Return o, w')
  | (inr e, w') => (e, w')
  end.
End call.
