(* ===== verification/ProcessLogic.v ===== *)
(** A program logic for the stages of the processor ([Process.v]): the frame of
    a stage (what it may do to the state and the log) and the contract
    [contract reg h Q m] — from any sound state, [m] ends in a value that
    satisfies [Q] without having captured junk or written to the store, or exits
    with a rejecting outcome whose junk capture is accounted for. *)
From S2P Require Import Prelude GoStrings SeenCache Registry SourceRep Scoring.
From S2P Require Import Item Extract Entity Gemini Effects Process.

Local Open Scope Z_scope.
Local Open Scope eff_scope.

(** ** What the events of a call amount to *)

Definition junk_reasons (es : list Event) : list string :=
  omap (λ e, match e with LogJunk r => Some r | _ => None end) es.

(** The leads the store accepted. *)
Definition stored_leads (es : list Event) : list Lead :=
  omap (λ e, match e with LogUpsert l Stored => Some l | _ => None end) es.

(** Neither junk nor a store write. *)
Definition quiet (e : Event) : Prop := junk_reasons [e] = [] ∧ stored_leads [e] = [].

Lemma quiet_all es : Forall quiet es → junk_reasons es = [] ∧ stored_leads es = [].
Proof.
  induction 1 as [|e es [H1 H2] _ [IH1 IH2]]; [done|].
  change (e :: es) with ([e] ++ es).
  unfold junk_reasons, stored_leads in *. by rewrite !omap_app, H1, H2, IH1, IH2.
Qed.

(** ** Evolution of the seen cache *)

Section touched.
Context (clock : clock_site → Time) (h : option string).

Inductive touch : SeenCache → SeenCache → Prop :=
  | touch_seen k c now since : h = Some k → touch c (Seen c k (clock now) (clock since)).2
  | touch_mark k c c' now : h = Some k → Mark c k (clock now) = Some c' → touch c c'.

(** Any number of look-ups and marks of [h], none without a hash; a missing cache stays missing. *)
Inductive touched : option SeenCache → option SeenCache → Prop :=
  | touched_none : touched None None
  | touched_some c c' : rtc touch c c' → touched (Some c) (Some c').

Lemma touched_refl o : touched o o.
Proof. destruct o; constructor; apply rtc_refl. Qed.

Lemma touched_trans a b c : touched a b → touched b c → touched a c.
Proof.
  intros [|c1 c2 H1] H2; inversion H2 as [|c3 c4 H3]; subst; constructor.
  by etrans.
Qed.

Lemma touch_inv c c' : touch c c' → cache_inv c → cache_inv c'.
Proof.
  intros [k ? ? ? _|k ? ? ? _ Hm] Hc; [by apply Seen_inv|].
  pose proof Hc as (_ & _ & q & Hr & _).
  destruct (Mark_represents c0 q k (clock now) Hc Hr) as (c1 & Hm' & _ & Hi & _). congruence.
Qed.
End touched.

(** ** Frames *)

(** The cache of the state, if any, is in its invariant. *)
Definition sound (w : World) : Prop := ∀ c, w_seen w = Some c → cache_inv c.

Section frame.
Context (clock : clock_site → Time).

(** [n] junk captures and the store writes [S] separate the two states, which
    hold the same hashes; the cache was only consulted for [h], if at all. *)
Record frame (h : option string) (n : nat) (S : list Lead) (w w' : World) : Prop := {
  fr_inflight : w_inflight w' = w_inflight w;
  fr_seen : touched clock h (w_seen w) (w_seen w');
  fr_log : ∃ es, w_log w' = w_log w ++ es
             ∧ length (junk_reasons es) = n ∧ stored_leads es = S }.

Lemma frame_refl h w : frame h 0 [] w w.
Proof. split; [done|apply touched_refl|]. exists []. by rewrite app_nil_r. Qed.

Lemma frame_trans h n1 n2 S1 S2 w1 w2 w3 :
  frame h n1 S1 w1 w2 → frame h n2 S2 w2 w3 → frame h (n1 + n2) (S1 ++ S2) w1 w3.
Proof.
  intros [Hi1 Hs1 (es1 & Hl1 & Hj1 & Hw1)] [Hi2 Hs2 (es2 & Hl2 & Hj2 & Hw2)]. split.
  - congruence.
  - by eapply touched_trans.
  - exists (es1 ++ es2). rewrite Hl2, Hl1, app_assoc. split; [done|].
    unfold junk_reasons, stored_leads in *. rewrite !omap_app, length_app. split; congruence.
Qed.

(** Without a hash the cache is left alone, so any hash frames the step. *)
Lemma untouched n S w w' : frame None n S w w' → w_seen w' = w_seen w.
Proof.
  intros [_ Hs _]. inversion Hs as [H1 H2|c c' Hr H1 H2]; [done|]. f_equal. symmetry.
  clear -Hr. induction Hr as [|c1 c2 c3 Ht _ IH]; [done|]. by inversion Ht.
Qed.

Lemma frame_retouch h n S w w' : frame None n S w w' → frame h n S w w'.
Proof.
  intros F. pose proof (untouched _ _ _ _ F) as Hs. destruct F as [Hi _ Hl].
  split; [done|rewrite Hs; apply touched_refl|done].
Qed.

Lemma frame_sound h n S w w' : frame h n S w w' → sound w → sound w'.
Proof.
  intros [_ Hs _] Hw c' Hc'. rewrite Hc' in Hs. inversion Hs as [|c c1 Ht Hc]; subst.
  symmetry in Hc. specialize (Hw c Hc).
  clear -Ht Hw. induction Ht; [done|]. apply IHHt. by eapply touch_inv.
Qed.

End frame.

(** ** Rejecting outcomes *)

(** The outcomes whose rejection is reported as junk. *)
Definition audited (o : ProcessOutcome) : bool :=
  negb (o_Accepted o) && negb (o_Dedup o)
  && negb (existsb (String.eqb (o_RejectReason o)) [estr; "store_error"; "hard_reject"]).

(** The call rejects with [o] after [n] junk captures; a hard reject is sampled. *)
Definition rejects (o : ProcessOutcome) (n : nat) : Prop :=
  o_Accepted o = false ∧ o_Lead o = None ∧
  if String.eqb (o_RejectReason o) "hard_reject" then (n ≤ 1)%nat
  else n = if audited o then 1%nat else 0%nat.

(** ** Contracts *)

Section contract.
Context (clock : clock_site → Time) (rep : option SourceReputation) (h : option string).
Abbreviation frame := (frame clock).

Definition contract {A} (Q : A → Prop) (m : P A) : Prop := ∀ w,
  sound w → w_rep w = rep →
  wp m (λ a w', Q a ∧ w_rep w' = rep ∧ frame h 0 [] w w')
       (λ e w', ∃ o n, e = Return o ∧ rejects o n ∧ frame h n [] w w') w.

Lemma contract_done {A} (Q : A → Prop) a : Q a → contract Q (done a).
Proof. intros HQ w Hw Hr. apply wp_done. split; [done|]. split; [done|apply frame_refl]. Qed.

Lemma contract_mono {A} (Q Q' : A → Prop) m :
  (∀ a, Q a → Q' a) → contract Q m → contract Q' m.
Proof.
  intros HQ Hm w Hw Hr. eapply wp_mono; [| |by apply Hm]; [|done].
  intros a w' [? ?]. auto.
Qed.

Lemma contract_seq {A B} (Q : A → Prop) (R : B → Prop) m k :
  contract Q m → (∀ a, Q a → contract R (k a)) → contract R (seq_eff m k).
Proof.
  intros Hm Hk w Hw Hr. apply wp_bind. eapply wp_mono; [| |by apply Hm]; [|done].
  intros a w1 (HQ & Hr1 & Hf1).
  eapply wp_mono; [| |apply (Hk a HQ); [by eapply frame_sound|done]].
  - intros b w2 (HR & Hr2 & Hf2). split; [done|]. split; [done|].
    apply (frame_trans _ _ _ _ _ _ _ _ _ Hf1 Hf2).
  - intros e w2 (o & n & -> & Ho & Hf2). exists o, n. split; [done|]. split; [done|].
    apply (frame_trans _ _ _ _ _ _ _ _ _ Hf1 Hf2).
Qed.

(** Runs a stage from a state reached from [w0]. *)
Definition exits_from (w0 : World) (e : exit) (w' : World) : Prop :=
  ∃ o n, e = Return o ∧ rejects o n ∧ frame h n [] w0 w'.

Lemma wp_contract {A B} (Q : A → Prop) (m : P A) (k : A → P B) R w0 w :
  contract Q m → sound w0 → frame h 0 [] w0 w → w_rep w = rep →
  (∀ a w', Q a → frame h 0 [] w0 w' → w_rep w' = rep → wp (k a) R (exits_from w0) w') →
  wp (seq_eff m k) R (exits_from w0) w.
Proof.
  intros Hm Hw0 F0 Hr Hk. apply wp_bind.
  eapply wp_mono; [| |apply Hm; [by eapply frame_sound|done]].
  - intros a w1 (HQ & Hr1 & F1). apply Hk; [done| |done].
    apply (frame_trans _ _ _ _ _ _ _ _ _ F0 F1).
  - intros e w1 (o & n & -> & Ho & F1). exists o, n. split; [done|]. split; [done|].
    apply (frame_trans _ _ _ _ _ _ _ _ _ F0 F1).
Qed.

Lemma contract_exit {A} (Q : A → Prop) o : rejects o 0 → contract Q (exit_with (Return o)).
Proof.
  intros Ho w Hw Hr. apply wp_exit. exists o, O. split; [done|]. split; [done|apply frame_refl].
Qed.

(** [if cond { ... }] *)
Lemma contract_when (Q : unit → Prop) (b : bool) m :
  (b = true → contract Q m) → contract (λ u, b = true → Q u) (if b then m else done tt).
Proof.
  intros Hm. destruct b; [|by apply contract_done].
  eapply contract_mono; [|by apply Hm]. done.
Qed.

Lemma contract_quiet e : quiet e → contract (λ _, True) (log e).
Proof.
  intros [Hj Hs] w Hw Hr. apply wp_modify. split; [done|]. split; [done|].
  split; [done|apply touched_refl|]. exists [e]. by rewrite Hj, Hs.
Qed.

Lemma contract_log_all es : Forall quiet es → contract (λ _, True) (log_all es).
Proof.
  induction 1 as [|e es He _ IH]; [by apply contract_done|]. cbn [log_all].
  eapply contract_seq; [by apply contract_quiet|]. done.
Qed.
End contract.

(** ** The computations every stage is made of *)

Section process.
Context `{SO : Sorter} `{JL : JsonLib} `{ML : MailLib} (p : Processor) (clock : clock_site → Time).

(** Events that are neither junk nor store writes, and only the reputation. *)
Definition silent (w w' : World) : Prop :=
  w_seen w' = w_seen w ∧ w_inflight w' = w_inflight w ∧ w_thread w' = w_thread w ∧
  ∃ es, w_log w' = w_log w ++ es ∧ Forall quiet es.

Abbreviation frame := (frame clock).

Lemma silent_frame h w w' : silent w w' → frame h 0 [] w w'.
Proof.
  intros (Hs & Hi & _ & es & Hl & Hq). destruct (quiet_all es Hq) as [Hj Hw].
  split; [done|rewrite Hs; apply touched_refl|]. exists es. by rewrite Hj, Hw.
Qed.

Lemma silent_refl w : silent w w.
Proof. do 3 (split; [done|]). exists []. by rewrite app_nil_r. Qed.

Lemma silent_trans w1 w2 w3 : silent w1 w2 → silent w2 w3 → silent w1 w3.
Proof.
  intros (? & ? & ? & es & Hl & Hq) (? & ? & ? & es' & Hl' & Hq').
  split; [congruence|]. split; [congruence|]. split; [congruence|].
  exists (es ++ es'). rewrite Hl', Hl, app_assoc. split; [done|]. by apply Forall_app.
Qed.

(** [m] always ends in a value, after quiet events only. *)
Definition mute (m : P unit) : Prop := ∀ w, wp m (λ _ w', silent w w') (λ _ _, False) w.

Lemma mute_done : mute (done tt).
Proof. intros w. apply wp_done, silent_refl. Qed.

Lemma mute_seq m k : mute m → mute k → mute (m ;;! k).
Proof.
  intros Hm Hk w. apply wp_bind. eapply wp_mono; [| |apply Hm]; [|done].
  intros [] w1 H1. eapply wp_mono; [| |apply Hk]; [|done].
  intros [] w2 H2. by eapply silent_trans.
Qed.

Lemma mute_log e : quiet e → mute (log e).
Proof.
  intros He w. apply wp_modify. do 3 (split; [done|]). exists [e]. split; [done|]. by constructor.
Qed.

Lemma mute_log_all es : Forall quiet es → mute (log_all es).
Proof. induction 1; [apply mute_done|]. apply mute_seq; [by apply mute_log|done]. Qed.

Lemma mute_when (b : bool) e : quiet e → mute (if b then log e else done tt).
Proof. intros He. destruct b; [by apply mute_log|apply mute_done]. Qed.

Lemma wp_mute {A} m (k : P A) Q X w :
  mute m → (∀ w1, silent w w1 → wp k Q X w1) → wp (m ;;! k) Q X w.
Proof.
  intros Hm Hk. apply wp_bind. eapply wp_mono; [| |apply (Hm w)]; [|done].
  intros [] w1 H1. by apply Hk.
Qed.

Lemma mute_set_rep r : mute (set_rep r).
Proof. intros w. apply wp_modify. do 3 (split; [done|]). exists []. by rewrite app_nil_r. Qed.

Lemma mute_keywords matched junk : mute (recordKeywordOutcomes p matched junk).
Proof.
  unfold recordKeywordOutcomes.
  destruct (negb (p_KeywordStats p)); [apply mute_done|].
  destruct (p_Registry p); [|apply mute_done].
  destruct (is_empty matched); [apply mute_done|]. apply mute_log_all.
  apply Forall_fmap, Forall_true. done.
Qed.

Lemma mute_stats (r : option SourceReputation * list stats_event) :
  mute (set_rep r.1 ;;! log_all (LogStats <$> r.2)).
Proof. apply mute_seq; [apply mute_set_rep|]. apply mute_log_all, Forall_fmap, Forall_true. done. Qed.

Lemma mute_record_junk source : mute (record_junk p source).
Proof.
  intros w. unfold record_junk. apply wp_bind, wp_get.
  destruct (RecordJunk _ _ _) as [r es]. apply (mute_stats (r, es)).
Qed.

Lemma mute_record_accepted source : mute (record_accepted p source).
Proof.
  intros w. unfold record_accepted. apply wp_bind, wp_get.
  destruct (RecordAccepted _ _ _) as [r es]. apply (mute_stats (r, es)).
Qed.

(** One capture logs one junk event. *)
Lemma wp_captureJunk h task reason detail score matched X w :
  wp (captureJunk p task reason detail score matched)
     (λ _ w', frame h 1 [] w w') X w.
Proof.
  unfold captureJunk. apply wp_bind, wp_modify.
  match goal with |- wp ?m _ _ ?w1 =>
    assert (mute m) as Hm; [|assert (frame h 1 [] w w1) as H1] end.
  - apply mute_seq; [apply mute_keywords|]. apply mute_seq; [apply mute_record_junk|].
    destruct (p_Junk p); [by apply mute_log|apply mute_done].
  - split; [done|apply touched_refl|]. by exists [LogJunk reason].
  - eapply wp_mono; [| |apply Hm]; [|done]. intros [] w2 H2.
    apply (frame_trans _ _ _ _ _ _ _ _ _ H1 (silent_frame h _ _ H2)).
Qed.

Context (rep : option SourceReputation) (h : option string).
Abbreviation contract := (contract clock rep h).

Lemma contract_reject {A} (Q : A → Prop) task out reason detail score matched :
  rejects out 1 → contract Q (reject p task out reason detail score matched).
Proof.
  intros Ho w Hw Hr. unfold reject. apply wp_bind.
  eapply wp_mono; [| |apply (wp_captureJunk h)].
  - intros [] w1 H1. apply wp_exit. by exists out, 1%nat.
  - intros e w' HX. exact HX.
Qed.

Lemma contract_reject_if cond task out reason detail :
  rejects out 1 → contract (λ _, cond = false) (reject_if p cond task out reason detail).
Proof.
  intros Ho. unfold reject_if. destruct cond; [by apply contract_reject|by apply contract_done].
Qed.

Lemma contract_reject_on r task out reason :
  rejects out 1 → contract (λ _, r = None) (reject_on p r task out reason).
Proof.
  intros Ho. unfold reject_on. destruct r; [by apply contract_reject|by apply contract_done].
Qed.

Lemma contract_reject_when cond task s out reason detail :
  rejects out 1 →
  contract (λ _, cond = false)
    (if cond then reject_scored p task s out reason detail else done tt).
Proof.
  intros Ho. destruct cond; [by apply contract_reject|by apply contract_done].
Qed.
End process.

(** ** The steps of the held stages *)

Section held.
Context `{SO : Sorter} `{JL : JsonLib} `{ML : MailLib} (p : Processor)
  (clock : clock_site → Time) (rep : option SourceReputation) (h : option string).
Abbreviation contract := (contract clock rep h).

Lemma contract_set_thread t : contract (λ _, True) (set_thread t).
Proof.
  intros w Hw Hr. apply wp_modify. split; [done|]. split; [done|].
  split; [done|apply touched_refl|]. exists []. by rewrite app_nil_r.
Qed.

(** On a sound state a mark does not reach the panic of [Mark]. *)
Lemma contract_mark site k :
  h = Some k → contract (λ _, True) (seen_mark clock site k).
Proof.
  intros Hk w Hw Hr. unfold seen_mark. apply wp_bind, wp_get.
  destruct (w_seen w) as [c|] eqn:Hc; [|by apply (contract_done clock rep h (λ _, True))].
  pose proof (Hw c Hc) as Hi. pose proof Hi as (_ & _ & q & Hq & _).
  destruct (Mark_represents c q k (clock site) Hi Hq) as (c' & Hm & _). rewrite Hm.
  apply wp_modify. split; [done|]. split; [done|]. split; [done| |].
  - rewrite Hc. constructor. apply rtc_once. by eapply touch_mark.
  - exists []. by rewrite app_nil_r.
Qed.

Lemma contract_sighting task contacts hash matched stack text score res :
  contract (λ _, True)
    (entitySightingInput clock task contacts hash matched stack text score res).
Proof.
  unfold entitySightingInput. cbv zeta.
  eapply contract_seq with (Q := λ _, True); [|intros; by apply contract_done].
  unfold telegramThreadText. cbv zeta. intros w Hw Hr. apply wp_bind, wp_get.
  destruct (w_thread w) as [buffer|]; [|by apply (contract_done clock rep h (λ _, True))].
  destruct (negb _); [by apply (contract_done clock rep h (λ _, True))|].
  destruct (ThreadAdd _ _ _ _) as [win buffer'].
  apply (contract_seq clock rep h (λ _, True) (λ _, True)); [apply contract_set_thread| |done|done].
  intros _ _. by apply contract_done.
Qed.

Lemma contract_record site i : contract (λ _, True) (recordEntitySighting p site i).
Proof.
  unfold recordEntitySighting. destruct (p_EntityRecorder p) as [record|]; [|by apply contract_done].
  destruct (negb _); [by apply contract_done|].
  eapply contract_seq; [by apply contract_quiet|]. intros _ _.
  destruct (record site i) as [result|]; [|by apply contract_done].
  destruct (String.eqb _ _); [by apply contract_done|].
  eapply contract_seq with (Q := λ _, True); [|intros; by apply contract_done].
  unfold maybeCaptureEntityClassify.
  destruct (_ || _); [by apply contract_done|].
  destruct (negb _); [by apply contract_done|by apply contract_quiet].
Qed.

Lemma contract_patch hash result : contract (λ _, True) (maybePatchCanonicalLead p hash result).
Proof.
  unfold maybePatchCanonicalLead. cbv zeta.
  destruct (_ || _); [by apply contract_done|].
  destruct (p_Store p); [|by apply contract_done].
  repeat match goal with
  | |- contract _ (if ?b then _ else _) => destruct b
  | |- contract _ (done _) => by apply contract_done
  | |- contract _ (log _) => by apply contract_quiet
  end.
Qed.

Lemma contract_sight_duplicate site task l s res :
  contract (λ _, True) (sight_duplicate p clock site task l s res).
Proof.
  unfold sight_duplicate. eapply contract_seq; [apply contract_sighting|]. intros i _.
  eapply contract_seq; [apply contract_record|]. intros result _. apply contract_patch.
Qed.

Lemma contract_dedup_exit {A} (Q : A → Prop) task l s :
  contract Q (dedup_exit p clock task l s).
Proof.
  unfold dedup_exit. eapply contract_seq; [apply contract_sight_duplicate|].
  intros _ _. apply contract_exit. vm_compute. auto.
Qed.
End held.

(** The literal rejections. *)
Lemma rejects_rejected r :
  existsb (String.eqb r) [estr; "store_error"; "hard_reject"] = false → rejects (rejected r) 1.
Proof.
  intros Hr. split; [done|]. split; [done|]. unfold audited. cbn [o_RejectReason rejected].
  rewrite Hr. cbn [existsb] in Hr. rewrite !orb_false_iff in Hr.
  destruct Hr as (_ & _ & Hh & _). by rewrite Hh.
Qed.

#[export] Hint Extern 1 (rejects _ _) => (vm_compute; repeat split; auto) : core.
