(* ===== verification/ProcessFacts.v ===== *)
(** The stages of the processor against their specification: what every gate
    guarantees of a post it lets through ([qualified]), contract by contract. *)
From S2P Require Import Prelude Unicode GoStrings GoSort SeenCache Validate.
From S2P Require Import Registry SourceRep Scoring Outreach Extract Geo Item Hashes.
From S2P Require Import FilterSignals FilterGates TgWeb.
From S2P Require Import WebPain Entity Gemini Enrich.
From S2P Require Import Effects Process ProcessLogic.

Local Open Scope Z_scope.
Local Open Scope eff_scope.

(** ** What the gates let through *)

Section spec.
Context `{SO : Sorter} `{JL : JsonLib} `{ML : MailLib} (vst : validate_state)
  (hosts : forum_hosts) (p : Processor) (clock : clock_site → Time).

(** The source, payment and geography gates. *)
Record source_ok (task : Task) (l : Locals) : Prop := {
  ok_fixture : HasPrefix (it_Source (t_Item task)) "fixture:" = false;
  ok_supply : IsTelegramSource (it_Source (t_Item task)) && isTelegramCPASupply (t_Item task) = false;
  ok_geo : Geo.OK (geo_verdict task l) = true;
  ok_payment : RejectH8PaymentVertical (l_text l) (it_Title (t_Item task)) = None;
  ok_crypto : RejectCryptoPayoutOnly (l_text l) = None;
  ok_tld : IsTgWebSource (it_Source (t_Item task)) = true →
           IsBlockedTLD (SiteDomainFromSource (it_Source (t_Item task))) = false
           ∧ RejectHTMLBoilerplate vst (l_text l) = None;
  ok_lander : IsLanderSource (it_Source (t_Item task))
              && LanderBlacklistedSource vst (it_Source (t_Item task)) = false;
  ok_serp : IsSerpSource (it_Source (t_Item task))
            && SerpBlacklistedSource vst (it_Source (t_Item task)) = false;
  ok_intel : IsIntelOnlySource (it_Source (t_Item task)) (p_LanderOutreachEnabled p) = false;
  ok_html : IsLanderSource (it_Source (t_Item task)) || IsWebPainSource (it_Source (t_Item task)) = true →
            RejectHTMLBoilerplate vst (l_text l) = None;
  ok_discord : IsDiscordSource (it_Source (t_Item task)) = true →
               DiscordInvoiceNoise (l_text l) = None }.

(** The context, seller and spam gates. *)
Record context_ok (task : Task) (l : Locals) : Prop := {
  ok_buyer : negb (l_coldTeam l) && negb (l_forumTeam l) = true →
    RejectNonBuyerContext hosts (it_Source (t_Item task)) (l_text l) (it_Title (t_Item task)) = None;
  ok_author : SellerAuthorProfileForChannel (it_Username (t_Item task))
    (it_ChannelAbout (t_Item task)) (it_Title (t_Item task)) (it_ChannelRole (t_Item task)) = None;
  ok_drop : InstantDropSellerSpam (l_text l) = None;
  ok_helper : IsTelegramSource (it_Source (t_Item task))
    && (0 <? it_ReplyToMessageID (t_Item task)) = true →
    TelegramReplyHelperReject (l_text l) = None;
  ok_broadcast : IsTelegramSource (it_Source (t_Item task)) && negb (l_coldTeam l)
    && TelegramChannelBroadcastReject (it_Source (t_Item task)) (it_ChatType (t_Item task))
         (it_ReplyToMessageID (t_Item task)) (l_text l) = false;
  ok_hard : Registry.HardReject (p_Registry p) (l_text l) = None
    ∨ IsTgWebSource (it_Source (t_Item task))
      && AggressivePrescanFromContact (it_Source (t_Item task)) (it_Contact (t_Item task)) = true;
  ok_spam : l_replyThreadBuyer l = false →
    TelegramSpam (it_Source (t_Item task)) (l_text l) = None;
  ok_contact_only : IsTelegramSource (it_Source (t_Item task))
    && OnlyContactNoContext (l_text l) = false }.

(** The embedding prescan is there, switched on and let through by the operator. *)
Definition embed_on (ps : Prescanner) : Prop :=
  p_Prescan p = Some ps ∧ p_PrescanEnabled p = true ∧ llmScoringEnabled p LlmPrescan = true.

(** The two prescan gates.  A post passes on its keywords, on the embedding verdict
    or on one of the bypasses; a Telegram post that passes on its keywords is not
    spam to the embedding either. *)
Record prescan_ok (task : Task) (l : Locals) : Prop := {
  ok_pain : keyword_prescan p task l = true
    ∨ (∃ ps v, embed_on ps ∧ ps_EvaluatePain ps (l_text l) = Some v ∧ pv_PainMatch v = true)
    ∨ InfraPainBypassPrescan (l_text l) || l_replyThreadBuyer l || l_coldTeam l || l_forumTeam l
      = true;
  ok_embed_spam : ∀ ps v, embed_on ps → keyword_prescan p task l = true →
    IsTelegramSource (it_Source (t_Item task)) = true →
    ps_EvaluateSpam ps (l_text l) = Some v → pv_SpamMatch v = false }.

(** The contacts of the post: extracted and enriched, those of a cold-team post
    reordered. *)
Definition post_contacts (task : Task) (l : Locals) : list Contact :=
  let contacts := enriched_contacts vst p task (Contacts (extract_contacts vst task l)) in
  if IsTelegramSource (it_Source (t_Item task)) && l_coldTeam l
  then telegramColdTeamContacts (t_Item task) contacts else contacts.

(** The Telegram gates. *)
Record telegram_ok (task : Task) (l : Locals) : Prop := {
  ok_invite : TelegramInviteWithoutBuyerIntent (it_Source (t_Item task)) (l_text l) = false;
  ok_agency : TelegramAgencyOutreachReject (it_Source (t_Item task)) (l_text l) = false;
  ok_self : TelegramChannelSelfBroadcast (it_Source (t_Item task)) (post_contacts task l) = false;
  ok_voice : negb (l_replyThreadBuyer l) && negb (l_coldTeam l)
    && negb (TelegramRequiresBuyerSignal (l_text l)) = false }.

(** The gates of landers, search results, forums and GitHub. *)
Record family_ok (task : Task) (l : Locals) : Prop := {
  ok_lander_contact : IsLanderSource (it_Source (t_Item task))
    && negb (LanderRequiresEmailOrSkype (post_contacts task l)) = false;
  ok_lander_signal : IsLanderSource (it_Source (t_Item task))
    && negb (LanderRequiresBuyerSignal (l_text l)) = false;
  ok_serp_signal : IsSerpSource (it_Source (t_Item task))
    && negb (SerpRequiresBuyerSignal (l_text l)) = false;
  ok_serp_contact : IsSerpSource (it_Source (t_Item task))
    && negb (SerpHasReachableContact (it_Contact (t_Item task)) (post_contacts task l)) = false;
  ok_serp_forum : IsSerpSource (it_Source (t_Item task))
    && SerpForumSnippetOnly hosts (it_Source (t_Item task)) (post_contacts task l) = false;
  ok_forum_user : IsForumSource (it_Source (t_Item task)) && negb (l_forumTeam l)
    && negb (ForumHasForumUserContact (post_contacts task l)) = false;
  ok_github : GitHubRequiresPainContext (it_Source (t_Item task)) (l_text l) = true }.

(** The contacts the lead ends up with: those of the post, site contacts
    collapsed to one. *)
Record contacts_ok (task : Task) (l : Locals) (contacts : list Contact) : Prop := {
  ok_contacts : contacts = site_contacts (t_Item task) (post_contacts task l);
  ok_synthetic : IsSyntheticContact (it_Contact (t_Item task)) = false;
  ok_telegram : IsTelegramSource (it_Source (t_Item task)) = true → telegram_ok task l;
  ok_family : family_ok task l;
  ok_extract : Rejected (extract_contacts vst task l) = false;
  ok_nonempty : is_empty contacts = false;
  ok_email : hasEmailContact contacts && EmailWithoutPainContext (l_text l)
    && negb (IsTgWebSource (it_Source (t_Item task))
             && tgwebEmailAllowed (t_Item task) contacts (p_TgWebPrescanMode p) (l_text l)) = false;
  ok_blacklist : blacklistContact vst contacts = None;
  ok_role : OnlyRoleEmails contacts = false;
  ok_reachable : HasReachableContact contacts || HasEnrichableIdentity contacts = true }.

(** The score the lead is accepted with. *)
Record score_ok (rep : option SourceReputation) (task : Task) (l : Locals)
    (stack : list string) (contacts : list Contact) (s : LeadText * Priority) : Prop := {
  ok_score : ∃ r, p_Registry p = Some r ∧ s = score_lead p clock r task l rep stack contacts;
  ok_priority : s.2 ≠ PriorityLow;
  ok_min : 0 < min_accept_score p task → min_accept_score p task ≤ lt_Score s.1 }.

(** A scored lead that passed every gate. *)
Record qualified (rep : option SourceReputation) (task : Task) (l : Locals) (s : Scored)
    : Prop := {
  q_source : source_ok task l;
  q_context : context_ok task l;
  q_prescan : prescan_ok task l;
  q_contacts : contacts_ok task l (s_contacts s);
  q_enrich : ∀ e, p_Enricher p = Some e →
    s_enrich s = Enrich e (it_Source (t_Item task)) (s_contacts s) (it_Contact (t_Item task))
                   (clock AtEnrich)
    ∧ en_GeoBlocked (s_enrich s) = false;
  q_score : score_ok rep task l (s_stack s) (s_contacts s) (s_lead s, s_priority s);
  q_hash : s_hash s = leadHashID task (s_contacts s) }.

(** The priority after the ICP answer: a hot ICP raises medium to high. *)
Definition promoted (icp : ICPResult) (s : Scored) : Scored :=
  match s_priority s with
  | PriorityMedium => if icp_Hot icp then with_priority s PriorityHigh else s
  | _ => s
  end.

(** The ICP model is asked. *)
Definition icp_asked (task : Task) (s : Scored) : bool :=
  icpClassifierEnabled p (it_Source (t_Item task))
  && MeetsMinPriority (s_priority s) PriorityMedium.

(** The ICP answer and the lead it leaves. *)
Definition icp_answer (r : Registry) (task : Task) (l : Locals) (s : Scored)
    : ICPResult * Scored :=
  match p_ICP p with
  | Some classify =>
      match (if icp_asked task s then classify (l_text l) else None) with
      | Some icp => (icp, promoted icp (rescored r s icp))
      | None => (no_icp, s)
      end
  | None => (no_icp, s)
  end.

(** What the lead clusterer, the language models and the MX look-up did not object
    to, each when it is there, switched on and asked; the last two are asked with
    the priority the ICP answer leaves. *)
Record verdicts_ok (r : Registry) (task : Task) (l : Locals) (s : Scored) : Prop := {
  v_cluster : ∀ check, p_LeadCluster p = Some check →
    llmScoringEnabled p LlmCluster && p_LeadClusterEnabled p
      && MeetsMinPriority (s_priority s) PriorityHigh = true →
    check (s_hash s) (l_text l) ≠ Some true;
  v_geo : ∀ classify res, p_Geo p = Some classify →
    llmScoringEnabled p LlmGeo && p_GeoEnabled p
      && MeetsMinPriority (s_priority s) PriorityMedium = true →
    classify (geoClassifyText (t_Item task) (l_text l)) (FormatAll (s_contacts s))
      (blocked_countries p) = Some res →
    ShouldReject res (blocked_countries p) = false;
  v_icp : ∀ classify icp, p_ICP p = Some classify → icp_asked task s = true →
    classify (l_text l) = Some icp → not_icp icp = true →
    IsTgWebSource (it_Source (t_Item task)) && p_ICPTgWebEnabled p = false
    ∧ s_priority (rescored r s icp) ≠ PriorityLow;
  v_intent : ∀ classify res, p_Intent p = Some classify →
    llmScoringEnabled p LlmIntent && p_IntentEnabled p
      && SourceRequiresIntentGate (it_Source (t_Item task)) (it_ChatType (t_Item task))
      && MeetsMinPriority (s_priority (icp_answer r task l s).2) PriorityMedium = true →
    classify (l_text l) = Some res → IntentAccept res (p_IntentMinConfidence p) = true;
  v_mx : ∀ has_mx, p_MX p = Some has_mx →
    MeetsMinPriority (s_priority (icp_answer r task l s).2) PriorityMedium = true →
    primaryEmail (s_contacts s) ≠ estr → has_mx (primaryEmail (s_contacts s)) = Some true }.
End spec.

(** ** The contracts of the stages *)

Section stages.
Context `{SO : Sorter} `{JL : JsonLib} `{ML : MailLib} (vst : validate_state)
  (hosts : forum_hosts) (p : Processor) (clock : clock_site → Time)
  (rep : option SourceReputation) (h : option string).
Abbreviation contract := (contract clock rep h).

Lemma contract_reject_on_when (b : bool) r task out reason :
  rejects out 1 →
  contract (λ _, b = true → r = None) (if b then reject_on p r task out reason else done tt).
Proof. intros Ho. apply contract_when. intros _. by apply contract_reject_on. Qed.

Lemma contract_tgweb_source (b : bool) c r task :
  contract (λ _, b = true → c = false ∧ r = None)
    (if b then reject_if p c task rejected_geo "geo_reject" "ru/by tld" ;;!
               reject_on p r task (rejected "lang") "lang_reject"
     else done tt).
Proof.
  apply contract_when. intros _. eapply contract_seq; [by apply contract_reject_if; auto|].
  intros ? Hc. eapply contract_mono; [|by apply contract_reject_on; auto]. by intros ? Hr.
Qed.

Lemma contract_fixture (b : bool) :
  contract (λ _, b = false) (if b then exit_with (Return no_outcome) else done tt).
Proof. destruct b; [by apply contract_exit; auto|by apply contract_done]. Qed.

(** Runs the head of a stage by the rule of its form. *)
Ltac gate :=
  eapply contract_seq;
  [first [ apply contract_fixture | apply contract_reject_if; by auto
         | apply contract_reject_on; by auto | apply contract_tgweb_source
         | apply contract_reject_on_when; by auto ]
  | let u := fresh "u" in let H := fresh "G" in intros u H; cbv beta in H; clear u ].

(** The last gate of a stage. *)
Ltac last_gate :=
  first [ eapply contract_mono; [|apply contract_reject_if; by auto]
        | eapply contract_mono; [|apply contract_reject_on; by auto]
        | eapply contract_mono; [|apply contract_reject_on_when; by auto] ];
  let u := fresh "u" in let H := fresh "G" in intros u H; cbv beta in H; clear u.

Lemma source_gates_ok task l :
  contract (λ _, source_ok vst p task l) (source_gates vst p task l).
Proof.
  unfold source_gates. cbv zeta. do 10 gate. last_gate.
  constructor; try done. by destruct (Geo.OK _).
Qed.

Lemma hard_reject_gate_ok task l :
  contract (λ _, Registry.HardReject (p_Registry p) (l_text l) = None
    ∨ IsTgWebSource (it_Source (t_Item task))
      && AggressivePrescanFromContact (it_Source (t_Item task)) (it_Contact (t_Item task)) = true)
    (hard_reject_gate p task l).
Proof.
  unfold hard_reject_gate. destruct (p_Registry p) as [r|]; [|apply contract_done; by left].
  destruct (Registry.HardReject _ _) as [hit|]; [|apply contract_done; by left].
  destruct (_ && _) eqn:E; [apply contract_done; by right|].
  intros w Hw Hr. destruct (_ && ShouldSampleHardRejectShadow _ _) eqn:E2.
  - apply wp_bind. eapply wp_mono; [| |apply (wp_captureJunk p clock h)].
    + intros [] w1 H1. apply wp_exit. exists (hard_rejected "hard_reject"), 1%nat. auto.
    + intros e w' HX. exact HX.
  - apply wp_bind, wp_done, wp_exit. exists (hard_rejected "hard_reject"), O.
    split; [done|]. split; [auto|apply frame_refl].
Qed.

Lemma context_gates_ok task l :
  contract (λ _, context_ok hosts p task l) (context_gates hosts p task l).
Proof.
  unfold context_gates. cbv zeta. do 5 gate.
  eapply contract_seq; [apply hard_reject_gate_ok|]. intros ? Hhard. cbv beta in Hhard.
  eapply contract_seq with (Q := λ _, l_replyThreadBuyer l = false →
    TelegramSpam (it_Source (t_Item task)) (l_text l) = None).
  { destruct (l_replyThreadBuyer l); [by apply contract_done|].
    last_gate. done. }
  intros ? Hspam. cbv beta in Hspam. last_gate. by constructor.
Qed.

Lemma embed_prescan_ok task l ok :
  contract (λ ok', (ok' = ok
      ∨ (∃ ps v, embed_on p ps ∧ ps_EvaluatePain ps (l_text l) = Some v ∧ ok' = pv_PainMatch v)
      ∨ ok' = false)
    ∧ ∀ ps v, embed_on p ps → ok = true → IsTelegramSource (it_Source (t_Item task)) = true →
      ps_EvaluateSpam ps (l_text l) = Some v → pv_SpamMatch v = false)
    (embed_prescan p task l ok).
Proof.
  unfold embed_prescan. destruct (p_Prescan p) as [ps|] eqn:Hps;
    [|apply contract_done; split; [by left|by intros ps v [? _]; congruence]].
  destruct (p_PrescanEnabled p) eqn:He; cbn [negb orb];
    [|apply contract_done; split; [by left|by intros ? v (_ & ? & _); congruence]].
  destruct (llmScoringEnabled p LlmPrescan) eqn:Hl; cbn [negb orb];
    [|apply contract_done; split; [by left|by intros ? v (_ & _ & ?); congruence]].
  destruct ok; cbn [negb].
  - destruct (IsTelegramSource _); [|apply contract_done; split; [by left|done]].
    eapply contract_seq; [by apply contract_quiet|]. intros _ _.
    destruct (ps_EvaluateSpam ps (l_text l)) as [v|] eqn:E.
    + gate. apply contract_done. split; [by left|].
      intros ps' v' (Hps' & _) _ _ Hv. rewrite Hps in Hps'. by simplify_eq.
    + apply contract_done. split; [by left|].
      intros ps' v' (Hps' & _) _ _ Hv. rewrite Hps in Hps'. by simplify_eq.
  - eapply contract_seq; [by apply contract_quiet|]. intros _ _. apply contract_done.
    split; [|done].
    destruct (ps_EvaluatePain ps (l_text l)) as [v|] eqn:E; [|by left].
    right; left. exists ps, v. by unfold embed_on.
Qed.

Lemma prescan_stage_ok task l :
  contract (λ _, has_registry p = true → prescan_ok p task l) (prescan_stage p task l).
Proof.
  unfold prescan_stage. eapply contract_seq; [apply embed_prescan_ok|].
  intros ok [Hok Hspam]. cbv beta zeta in *. last_gate. intros Hr. rewrite Hr in *.
  cbn [andb] in *. constructor; [|done].
  destruct (InfraPainBypassPrescan _ || _ || _ || _) eqn:E; [by auto|].
  rewrite orb_false_r in *. destruct Hok as [->|[(ps & v & Hon & Hv & ->)| ->]].
  - left. by destruct (keyword_prescan _ _ _).
  - right. left. exists ps, v. by destruct (pv_PainMatch v).
  - done.
Qed.

Lemma telegram_gates_ok task l :
  contract (λ cs, cs = post_contacts vst p task l
      ∧ (IsTelegramSource (it_Source (t_Item task)) = true → telegram_ok vst p task l))
    (telegram_gates p task l (enriched_contacts vst p task (Contacts (extract_contacts vst task l)))).
Proof.
  unfold telegram_gates, post_contacts. cbv zeta.
  destruct (IsTelegramSource _) eqn:Ht; cbn [negb]; [|by apply contract_done].
  do 4 gate. apply contract_done. split; [by destruct (l_coldTeam l)|]. intros _.
  constructor; unfold post_contacts; rewrite ?Ht; try done.
Qed.

Lemma family_gates_ok task l :
  contract (λ _, family_ok vst hosts p task l)
    (family_gates hosts p task l (post_contacts vst p task l)).
Proof.
  unfold family_gates. cbv zeta. do 6 gate.
  eapply contract_mono; [|apply contract_reject_if; by destruct (GitHubVendorOrg _); auto].
  intros u Hg. cbv beta in Hg. constructor; try done. by destruct (GitHubRequiresPainContext _ _).
Qed.

Lemma contact_stage_ok task l :
  contract (contacts_ok vst hosts p task l) (contact_stage vst hosts p task l).
Proof.
  unfold contact_stage, contact_gates. cbv zeta. gate.
  eapply contract_seq; [apply telegram_gates_ok|]. intros cs [-> Ht].
  eapply contract_seq; [apply family_gates_ok|]. intros u Hf. cbv beta in Hf.
  eapply contract_seq with (Q := λ _, contacts_ok vst hosts p task l
    (site_contacts (t_Item task) (post_contacts vst p task l))).
  - do 5 gate. last_gate. constructor; try done.
    by destruct (HasReachableContact _), (HasEnrichableIdentity _).
  - intros _ Hc. by apply contract_done.
Qed.

Lemma enrich_stage_ok task l contacts :
  contract (λ r, (∀ e, p_Enricher p = Some e →
        r.1 = Enrich e (it_Source (t_Item task)) contacts (it_Contact (t_Item task)) (clock AtEnrich)
        ∧ en_GeoBlocked r.1 = false))
    (enrich_stage p clock task l contacts).
Proof.
  unfold enrich_stage. destruct (p_Enricher p) as [e|]; [|by apply contract_done].
  cbv zeta. eapply contract_seq; [by apply contract_quiet|]. intros _ _.
  gate. apply contract_done. intros e' [= <-]. done.
Qed.

Context (r : Registry) (Hreg : p_Registry p = Some r).

Lemma score_stage_ok task l stack contacts :
  contract (score_ok p clock rep task l stack contacts) (score_stage p clock task l stack contacts).
Proof.
  intros w Hw Hr. unfold score_stage. apply wp_bind, wp_get. rewrite Hreg, Hr.
  destruct (score_lead p clock r task l rep stack contacts) as [lt priority] eqn:Es. cbv zeta.
  revert w Hw Hr. change (contract (score_ok p clock rep task l stack contacts)
    ((if (match priority with PriorityLow => true | _ => false end
          || ((0 <? min_accept_score p task) && (lt_Score lt <? min_accept_score p task)))
      then reject p task (rejected "low_priority") "low_score" estr (lt_Score lt) (lt_Matched lt)
      else done tt) ;;! done (lt, priority))).
  destruct (_ || _) eqn:E.
  - eapply contract_seq with (Q := λ _, False); [by apply contract_reject; auto|done].
  - eapply contract_seq with (Q := λ _, True); [by apply contract_done|]. intros _ _.
    apply contract_done. apply orb_false_iff in E as [E1 E2].
    constructor; cbn [fst snd]; [by exists r|by destruct priority|]. intros Hmin.
    rewrite (proj2 (Z.ltb_lt _ _) Hmin) in E2. cbn [andb] in E2. by apply Z.ltb_ge in E2.
Qed.

Lemma gate_stages_ok task l :
  contract (qualified vst hosts p clock rep task l) (gate_stages vst hosts p clock task l).
Proof.
  unfold gate_stages.
  eapply contract_seq; [apply source_gates_ok|]. intros u1 H1. cbv beta in H1.
  eapply contract_seq; [apply context_gates_ok|]. intros u2 H2. cbv beta in H2.
  eapply contract_seq; [apply prescan_stage_ok|]. intros u3 H3. cbv beta in H3.
  eapply contract_seq; [apply contact_stage_ok|]. intros contacts H4.
  eapply contract_seq; [apply enrich_stage_ok|]. intros [en stack] H5.
  eapply contract_seq; [apply score_stage_ok|]. intros [lt priority] H6.
  apply contract_done. constructor; try done.
  apply H3. unfold has_registry. by rewrite Hreg.
Qed.
(** ** The stages that run while the hash is held *)

Lemma reserve_stage_ok task l s :
  h = Some (s_hash s) →
  contract (λ _, (∀ store, p_Store p = Some store → so_Exists store (s_hash s) = Some false)
      ∧ ∀ check, p_LeadCluster p = Some check →
        llmScoringEnabled p LlmCluster && p_LeadClusterEnabled p
          && MeetsMinPriority (s_priority s) PriorityHigh = true →
        check (s_hash s) (l_text l) ≠ Some true)
    (reserve_stage p clock task l s).
Proof.
  intros ->. unfold reserve_stage.
  eapply contract_seq with
    (Q := λ _, ∀ store, p_Store p = Some store → so_Exists store (s_hash s) = Some false).
  { destruct (p_Store p) as [store|]; [|by apply contract_done].
    eapply contract_seq; [by apply contract_quiet|]. intros _ _.
    destruct (so_Exists store (s_hash s)) as [[]|] eqn:E.
    - eapply contract_seq; [apply contract_sight_duplicate|]. intros _ _.
      eapply contract_seq; [by apply contract_mark|]. intros _ _. apply contract_exit. vm_compute. auto.
    - apply contract_done. by intros ? [= <-].
    - apply contract_exit. vm_compute. auto. }
  intros u Hs. eapply contract_seq; [by apply contract_mark|]. intros _ _.
  destruct (p_LeadCluster p) as [check|]; [|by apply contract_done].
  destruct (_ && _); [|by apply contract_done].
  eapply contract_seq; [by apply contract_quiet|]. intros _ _.
  destruct (check _ _) as [[]|] eqn:E; [apply contract_dedup_exit| |];
    (apply contract_done; split; [done|]; intros ? [= <-] _; congruence).
Qed.

(** The geography verdict of the model does not name a blocked country. *)
Lemma geo_stage_ok task l s :
  contract (λ _, ∀ classify res, p_Geo p = Some classify →
      llmScoringEnabled p LlmGeo && p_GeoEnabled p
        && MeetsMinPriority (s_priority s) PriorityMedium = true →
      classify (geoClassifyText (t_Item task) (l_text l)) (FormatAll (s_contacts s))
        (blocked_countries p) = Some res →
      ShouldReject res (blocked_countries p) = false)
    (geo_stage p task l s).
Proof.
  unfold geo_stage. destruct (p_Geo p) as [classify|]; [|by apply contract_done].
  destruct (_ && _); [|by apply contract_done].
  eapply contract_seq; [by apply contract_quiet|]. intros _ _.
  destruct (classify _ _ _) as [res|] eqn:E;
    [|apply contract_done; intros ? ? [= <-] _; congruence].
  destruct (ShouldReject _ _) eqn:Er; [by apply contract_reject; auto|].
  apply contract_done. intros ? ? [= <-] _. congruence.
Qed.

Lemma promoted_same icp s :
  s_hash (promoted icp s) = s_hash s ∧ s_contacts (promoted icp s) = s_contacts s.
Proof. unfold promoted. by repeat case_match. Qed.

Lemma icp_answer_same task l s :
  s_hash (icp_answer p r task l s).2 = s_hash s
  ∧ s_contacts (icp_answer p r task l s).2 = s_contacts s.
Proof.
  unfold icp_answer. repeat case_match; try done. cbn [snd].
  destruct (promoted_same i (rescored r s i)) as [-> ->]. done.
Qed.

Lemma icp_stage_ok task l s :
  contract (λ a, a = icp_answer p r task l s ∧
      ∀ classify icp, p_ICP p = Some classify → icp_asked p task s = true →
        classify (l_text l) = Some icp → not_icp icp = true →
        IsTgWebSource (it_Source (t_Item task)) && p_ICPTgWebEnabled p = false
        ∧ s_priority (rescored r s icp) ≠ PriorityLow)
    (icp_stage p task l s).
Proof.
  unfold icp_stage, icp_answer, icp_asked.
  destruct (p_ICP p) as [classify|]; [|by apply contract_done].
  rewrite Hreg. cbv zeta. destruct (_ && _); [|by apply contract_done].
  eapply contract_seq; [by apply contract_quiet|]. intros _ _.
  destruct (classify _) as [icp|] eqn:E;
    [|apply contract_done; split; [done|]; intros ? ? [= <-] _; congruence].
  eapply contract_seq with (Q := λ _, not_icp icp = true →
    IsTgWebSource (it_Source (t_Item task)) && p_ICPTgWebEnabled p = false
    ∧ s_priority (rescored r s icp) ≠ PriorityLow).
  - destruct (not_icp icp); cbn [andb]; [|by apply contract_done].
    destruct (IsTgWebSource _ && _); [by apply contract_reject; auto|].
    destruct (s_priority (rescored r s icp)); cbn [orb];
      [by apply contract_reject; auto|by apply contract_done..].
  - intros _ Hi. cbv beta in Hi. apply contract_done. split; [done|].
    intros ? ? [= <-] _ Hc. rewrite E in Hc. by simplify_eq.
Qed.

(** Where the intent gate is asked, it accepts. *)
Lemma intent_stage_ok task l s :
  contract (λ _, ∀ classify res, p_Intent p = Some classify →
      llmScoringEnabled p LlmIntent && p_IntentEnabled p
        && SourceRequiresIntentGate (it_Source (t_Item task)) (it_ChatType (t_Item task))
        && MeetsMinPriority (s_priority s) PriorityMedium = true →
      classify (l_text l) = Some res → IntentAccept res (p_IntentMinConfidence p) = true)
    (intent_stage p task l s).
Proof.
  unfold intent_stage. cbv zeta. destruct (p_Intent p) as [classify|]; [|by apply contract_done].
  destruct (_ && _); [|by apply contract_done].
  eapply contract_seq; [by apply contract_quiet|]. intros _ _.
  destruct (classify _) as [res|] eqn:E;
    [|apply contract_done; intros ? ? [= <-] _; congruence].
  destruct (IntentAccept _ _) eqn:Ei; [|by apply contract_reject; auto].
  apply contract_done. intros ? ? [= <-] _. congruence.
Qed.

(** With an MX checker, the first e-mail of a lead that reaches the end has MX. *)
Lemma mx_stage_ok task s :
  contract (λ _, ∀ has_mx, p_MX p = Some has_mx →
      MeetsMinPriority (s_priority s) PriorityMedium = true →
      primaryEmail (s_contacts s) ≠ estr → has_mx (primaryEmail (s_contacts s)) = Some true)
    (mx_stage p task s).
Proof.
  unfold mx_stage. cbv zeta. destruct (p_MX p) as [has_mx|]; [|by apply contract_done].
  destruct (MeetsMinPriority _ _); [|by apply contract_done].
  destruct (String.eqb_spec (primaryEmail (s_contacts s)) estr) as [He|He]; cbn [andb negb];
    [by apply contract_done|].
  eapply contract_seq; [by apply contract_quiet|]. intros _ _.
  destruct (has_mx _) as [[]|] eqn:E; [|by apply contract_reject; auto..].
  apply contract_done. intros ? [= <-]. done.
Qed.

(** The stages after [base_lead] keep the lead's identity. *)
Abbreviation same_base lead lead' := (ld_Base lead' = ld_Base lead).

Lemma pilot_by_rules_base lead icp stack text :
  same_base lead (pilot_by_rules lead icp stack text).
Proof. unfold pilot_by_rules. by destruct (PilotQualified _ _ _). Qed.

Lemma applyOutreachQueue_base lead : same_base lead (applyOutreachQueue lead).
Proof. unfold applyOutreachQueue. cbv zeta. by destruct (AssignOutreachQueue _ _). Qed.

Lemma applyPilotAndOutreach_ok lead l s icp :
  contract (λ lead', same_base lead lead') (applyPilotAndOutreach p lead l s icp).
Proof.
  unfold applyPilotAndOutreach. cbv zeta.
  destruct (p_Engage p) as [classify|]; [|apply contract_done, pilot_by_rules_base].
  destruct (_ && _); [|apply contract_done, pilot_by_rules_base].
  eapply contract_seq; [by apply contract_quiet|]. intros _ _.
  destruct (classify _) as [res|]; [|apply contract_done, pilot_by_rules_base].
  destruct (ApplyEngagementPilot res). by apply contract_done.
Qed.

Lemma applyEnrichSynth_ok lead task l s geo icp :
  contract (λ lead', same_base lead lead') (applyEnrichSynth p lead task l s geo icp).
Proof.
  unfold applyEnrichSynth. cbv zeta.
  destruct (p_EnrichSynth p) as [synthesize|]; [|by apply contract_done].
  destruct (_ || _); [by apply contract_done|].
  eapply contract_seq; [by apply contract_quiet|]. intros _ _.
  destruct (synthesize _) as [synth|]; by apply contract_done.
Qed.

Lemma lead_stage_ok task l s geo icp :
  contract (λ lead, same_base (base_lead clock task l s geo icp) lead)
    (lead_stage p clock task l s geo icp).
Proof.
  unfold lead_stage. cbv zeta.
  eapply contract_seq with (Q := λ lead, same_base (base_lead clock task l s geo icp) lead).
  { destruct (p_PilotTagEnabled p); [|by apply contract_done].
    destruct (p_GeminiDefer p); [by apply contract_done|]. apply applyPilotAndOutreach_ok. }
  intros lead1 H1.
  eapply contract_seq with (Q := λ lead, same_base (base_lead clock task l s geo icp) lead).
  { destruct (_ && _); [|by apply contract_done].
    eapply contract_mono; [|apply applyEnrichSynth_ok]. intros lead2 H2. congruence. }
  intros lead2 H2. apply contract_done. rewrite <- H2, <- (applyOutreachQueue_base lead2). done.
Qed.

Lemma apply_entity_base lead result priority :
  same_base lead (apply_entity p lead result priority).1.
Proof.
  unfold apply_entity, ApplyEntityHeatToLead, ApplyCrossSourceHotBoost. cbv zeta.
  repeat case_match; done.
Qed.

Lemma entity_stage_ok task l s lead :
  contract (λ r, same_base lead r.1 ∧ s_hash r.2 = s_hash s) (entity_stage p clock task l s lead).
Proof.
  unfold entity_stage. eapply contract_seq; [apply contract_sighting|]. intros i _.
  eapply contract_seq; [apply contract_record|]. intros result _.
  pose proof (apply_entity_base lead result (s_priority s)) as Hb.
  destruct (apply_entity p lead result (s_priority s)) as [lead' priority].
  apply contract_done. cbn [fst snd] in *. by rewrite applyOutreachQueue_base.
Qed.
End stages.

(** ** The last stages: the store write and the final mark *)

Section held.
Context `{SO : Sorter} `{JL : JsonLib} `{ML : MailLib} (vst : validate_state)
  (hosts : forum_hosts) (p : Processor) (clock : clock_site → Time) (h : string).
Abbreviation frame := (frame clock).

(** The last thing that happened to the cache is the mark of [h]. *)
Definition remembered (w w' : World) : Prop :=
  ∀ c, w_seen w = Some c → ∃ c1 c2, touched clock (Some h) (Some c) (Some c1)
    ∧ Mark c1 h (clock AtAcceptMark) = Some c2 ∧ w_seen w' = Some c2.

Lemma epilogue_wp task l s lead w :
  sound w → s_hash s = h →
  wp (epilogue p clock task l s lead)
     (λ o w', o = accepted lead ∧ frame (Some h) 0 [] w w' ∧ remembered w w') (λ _ _, False) w.
Proof.
  intros Hw Hh. unfold epilogue. cbv zeta. rewrite Hh.
  apply wp_mute; [by apply mute_when|]. intros w1 H1.
  pose proof (silent_frame clock (Some h) _ _ H1) as F1.
  assert (w_seen w1 = w_seen w) as Hs1 by apply H1.
  apply wp_bind. unfold seen_mark. apply wp_bind, wp_get.
  assert (∀ w2, frame (Some h) 0 [] w1 w2 → wp ((if p_GeminiDefer p && p_WarmPath p
        && llmScoringEnabled p LlmWarm then log (LogWarm (warm_event task l s lead)) else done tt) ;;!
      record_accepted p (it_Source (t_Item task)) ;;!
      (if p_SeedFeedback p then log (LogSeed lead (en_Domain (s_enrich s))) else done tt) ;;!
      log (LogAccepted (it_Source (t_Item task)) (s_priority s)) ;;!
      recordKeywordOutcomes p (lt_Matched (s_lead s)) false ;;!
      done (accepted lead))
      (λ o w3, o = accepted lead ∧ frame (Some h) 0 [] w w3 ∧ w_seen w3 = w_seen w2) (λ _ _, False) w2)
    as Htail.
  { intros w2 F2.
    apply wp_mute; [by apply mute_when|]. intros w3 H3.
    apply wp_mute; [apply mute_record_accepted|]. intros w4 H4.
    apply wp_mute; [by apply mute_when|]. intros w5 H5.
    apply wp_mute; [by apply mute_log|]. intros w6 H6.
    apply wp_mute; [apply mute_keywords|]. intros w7 H7. apply wp_done.
    pose proof (silent_trans _ _ _ H3 (silent_trans _ _ _ H4 (silent_trans _ _ _ H5
      (silent_trans _ _ _ H6 H7)))) as H37.
    split; [done|]. split; [|apply H37].
    apply (frame_trans _ _ _ _ _ _ _ _ _ F1).
    apply (frame_trans _ _ _ _ _ _ _ _ _ F2 (silent_frame clock (Some h) _ _ H37)). }
  destruct (w_seen w1) as [c|] eqn:Hc.
  - assert (cache_inv c) as Hi by (apply Hw; congruence).
    pose proof Hi as (_ & _ & q & Hq & _).
    destruct (Mark_represents c q h (clock AtAcceptMark) Hi Hq) as (c' & Hm & _).
    rewrite Hm. apply wp_modify. eapply wp_mono; [| |apply Htail]; [|done|].
    + intros o w3 (-> & F3 & Hs3). split; [done|]. split; [done|].
      intros c0 Hc0. exists c, c'. rewrite Hs3. split; [|done].
      rewrite <- Hs1 in Hc0. injection Hc0 as ->. apply touched_refl.
    + split; [done| |].
      * rewrite Hc. constructor. apply rtc_once. by eapply (touch_mark _ _ h).
      * exists []. by rewrite app_nil_r.
  - apply wp_done. eapply wp_mono; [| |apply (Htail w1), frame_refl]; [|done].
    intros o w3 (-> & F3 & Hs3). split; [done|]. split; [done|]. intros c0 Hc0. congruence.
Qed.

(** The leads an accepting call writes. *)
Definition written (lead : Lead) : list Lead :=
  match p_Store p with Some _ => [lead] | None => [] end.

Lemma store_stage_wp task l s lead w rep :
  sound w → w_rep w = rep → s_hash s = h →
  wp (store_stage p clock task l s lead)
     (λ _ w', frame (Some h) 0 (written lead) w w'
              ∧ ∀ store, p_Store p = Some store → so_Upsert store lead = Stored)
     (λ e w', ∃ o n, e = Return o ∧ rejects o n ∧ frame (Some h) n [] w w') w.
Proof.
  intros Hw Hr Hh. unfold store_stage, written. destruct (p_Store p) as [store|].
  2:{ apply wp_done. split; [apply frame_refl|done]. }
  cbv zeta. apply wp_bind, wp_modify.
  match goal with |- wp _ _ _ ?st => set (w1 := st) end.
  destruct (so_Upsert store lead) eqn:E.
  - apply wp_done. split; [|by intros ? [= <-]].
    split; [done|apply touched_refl|]. by exists [LogUpsert lead Stored].
  - assert (frame (Some h) 0 [] w w1) as F1.
    { split; [done|apply touched_refl|]. by exists [LogUpsert lead DuplicateKey]. }
    assert (contract clock rep (Some h) (λ _ : unit, False)
      (sight_duplicate p clock SightDupKey task l s (lead_resolve lead) ;;!
       seen_mark clock AtDupKeyMark (s_hash s) ;;! exit_with (Return (deduped estr)))) as Hc.
    { eapply contract_seq; [apply contract_sight_duplicate|]. intros _ _.
      rewrite Hh. eapply contract_seq; [by apply contract_mark|]. intros _ _.
      apply contract_exit. vm_compute. auto. }
    eapply wp_mono; [| |apply Hc; [by eapply frame_sound|done]]; [by intros ? ? [[] ?]|].
    intros e w2 (o & n & -> & Ho & F2). exists o, n. split; [done|]. split; [done|].
    apply (frame_trans _ _ _ _ _ _ _ _ _ F1 F2).
  - apply wp_exit. exists no_outcome, O. split; [done|]. split; [vm_compute; auto|].
    split; [done|apply touched_refl|]. by exists [LogUpsert lead UpsertFailed].
Qed.

(** What is known of a lead the call returns as accepted. *)
Record lead_ok (task : Task) (s : Scored) (lead : Lead) : Prop := {
  lk_hash : ld_HashID (ld_Base lead) = s_hash s;
  lk_contacts : ld_Contacts (ld_Base lead) = FormatAll (s_contacts s);
  lk_source : ld_Source (ld_Base lead) = it_Source (t_Item task);
  lk_round : ld_RoundID (ld_Base lead) = t_RoundID task;
  lk_new : ∀ store, p_Store p = Some store →
           so_Exists store (s_hash s) = Some false ∧ so_Upsert store lead = Stored }.

(** The outcome of the held stages: an accepted lead, written once and
    remembered, or an accounted rejection. *)
Lemma held_stages_wp r task l s w rep :
  p_Registry p = Some r → sound w → w_rep w = rep → s_hash s = h →
  wp (held_stages p clock task l s)
     (λ o w', ∃ lead, o = accepted lead ∧ (lead_ok task s lead ∧ verdicts_ok p r task l s)
              ∧ frame (Some h) 0 (written lead) w w' ∧ remembered w w')
     (λ e w', ∃ o n, e = Return o ∧ rejects o n ∧ frame (Some h) n [] w w') w.
Proof.
  intros Hreg Hw Hr Hh. unfold held_stages.
  change (wp (reserve_stage p clock task l s ;;!
     let! geo := geo_stage p task l s in
     let! (icp, s) := icp_stage p task l s in
     intent_stage p task l s ;;!
     mx_stage p task s ;;!
     let! lead := lead_stage p clock task l s geo icp in
     let! (lead, s) := entity_stage p clock task l s lead in
     store_stage p clock task l s lead ;;!
     epilogue p clock task l s lead)
    (λ o w', ∃ lead, o = accepted lead ∧ (lead_ok task s lead ∧ verdicts_ok p r task l s)
              ∧ frame (Some h) 0 (written lead) w w' ∧ remembered w w')
    (exits_from clock (Some h) w) w).
  pose proof (frame_refl clock (Some h) w) as F.
  eapply wp_contract; [apply reserve_stage_ok; congruence|done..|].
  intros u w1 [Hs Hcl] F1 Hr1.
  eapply wp_contract; [apply geo_stage_ok|done..|]. intros geo w2 Hgeo F2 Hr2. cbv beta in Hgeo.
  eapply wp_contract; [by eapply icp_stage_ok|done..|]. intros [icp s1] w3 [Ha Hicp] F3 Hr3.
  destruct (icp_answer_same p r task l s) as [Hh1 Hc1]. rewrite <- Ha in Hh1, Hc1.
  cbn [snd] in *.
  eapply wp_contract; [apply intent_stage_ok|done..|]. intros u4 w4 Hint F4 Hr4. cbv beta in Hint.
  eapply wp_contract; [apply mx_stage_ok|done..|]. intros u5 w5 Hmx F5 Hr5. cbv beta in Hmx.
  eapply wp_contract; [by eapply lead_stage_ok|done..|]. intros lead w6 Hl F6 Hr6. cbv beta in Hl.
  eapply wp_contract; [by eapply entity_stage_ok|done..|].
  intros [lead' s2] w7 [Hl' Hh2] F7 Hr7. cbn [fst snd] in *.
  apply wp_bind.
  eapply wp_mono; [| |apply (store_stage_wp task l s2 lead' w7 rep);
    [by eapply frame_sound|done|congruence]].
  2:{ intros e w8 (o & n & -> & Ho & F8). exists o, n. split; [done|]. split; [done|].
      apply (frame_trans _ _ _ _ _ _ _ _ _ F7 F8). }
  intros _ w8 (F8 & Hst).
  pose proof (frame_trans _ _ _ _ _ _ _ _ _ F7 F8) as F78.
  eapply wp_mono; [| |apply epilogue_wp; [by eapply frame_sound|congruence]]; [|done].
  intros o w9 (-> & F9 & Hrem). exists lead'. split; [done|].
  split; [|split].
  - split.
    + constructor; [rewrite Hl', Hl; cbn; congruence..|].
      intros store Hst'. split; [by apply Hs|by apply Hst].
    + constructor; rewrite <- ?Ha; cbn [snd]; try done. by rewrite <- Hc1.
  - pose proof (frame_trans _ _ _ _ _ _ _ _ _ F78 F9) as F09. by rewrite app_nil_r in F09.
  - intros c Hc. pose proof (fr_seen _ _ _ _ _ _ F78) as Ht. rewrite Hc in Ht.
    inversion Ht as [|c0 c1 Hrtc Heq Hc8]; subst.
    destruct (Hrem c1) as (c2 & c3 & Ht2 & Hm & Hw9); [done|].
    exists c2, c3. split; [|done]. eapply touched_trans; [|exact Ht2]. by constructor.
Qed.

(** The hash of the lead was not empty, not held and not remembered. *)
Record fresh (hash : string) (w : World) : Prop := {
  fresh_hash : hash ≠ estr;
  fresh_held : hash ∉ w_inflight w;
  fresh_seen : ∀ c, w_seen w = Some c → (Seen c hash (clock AtSeen) (clock AtSeenSince)).1 = false }.

(** It is held now, and nothing else changed. *)
Definition taken (s : Scored) (w w' : World) : Prop :=
  fresh (s_hash s) w ∧ w_rep w' = w_rep w ∧
  ∃ w1, frame (Some (s_hash s)) 0 [] w w1
    ∧ w' = with_inflight (({[s_hash s]} : gset string) ∪ w_inflight w1) w1.

Lemma dedup_stage_wp task l s w :
  sound w →
  wp (dedup_stage p clock task l s)
     (λ _ w', taken s w w')
     (exits_from clock (Some (s_hash s)) w) w.
Proof.
  intros Hw. unfold dedup_stage.
  pose proof (frame_refl clock (Some (s_hash s)) w) as F.
  destruct (String.eqb_spec (s_hash s) estr) as [He|Hne].
  { eapply wp_contract with (rep := w_rep w) (Q := λ _ : unit, False); [|done..].
    by apply contract_reject; auto. }
  apply wp_bind, wp_done.
  assert (∀ w1, frame (Some (s_hash s)) 0 [] w w1 → w_rep w1 = w_rep w →
    wp (dedup_exit p clock task l s) (λ (_ : unit) _, False) (exits_from clock (Some (s_hash s)) w) w1)
    as Hexit.
  { intros w1 F1 Hr1. eapply wp_mono; [| |apply (contract_dedup_exit p clock (w_rep w) (Some (s_hash s))
      (λ _ : unit, False)); [by eapply frame_sound|done]]; [by intros ? ? [[] ?]|].
    intros e w2 (o & n & -> & Ho & F2). exists o, n. split; [done|]. split; [done|].
    apply (frame_trans _ _ _ _ _ _ _ _ _ F1 F2). }
  assert (∀ w1, frame (Some (s_hash s)) 0 [] w w1 → w_rep w1 = w_rep w →
    (∀ c, w_seen w = Some c → (Seen c (s_hash s) (clock AtSeen) (clock AtSeenSince)).1 = false) →
    wp (let! acquired := acquireHash (s_hash s) in
        if acquired then done tt else dedup_exit p clock task l s)
     (λ _ w', taken s w w')
     (exits_from clock (Some (s_hash s)) w) w1) as Hacq.
  { intros w1 F1 Hr1 Hs. apply wp_bind. unfold acquireHash. apply wp_bind, wp_get.
    destruct (decide (s_hash s ∈ w_inflight w1)) as [Hin|Hin].
    - apply wp_done. eapply wp_mono; [| |by apply (Hexit w1)]; [done|]. done.
    - apply wp_bind, wp_modify, wp_done, wp_done.
      split; [|split; [done|by exists w1]].
      constructor; [done|by rewrite <- (fr_inflight _ _ _ _ _ _ F1)|done]. }
  unfold seen_check. apply wp_bind, wp_bind, wp_get.
  destruct (w_seen w) as [c|] eqn:Hc.
  - destruct (Seen c (s_hash s) (clock AtSeen) (clock AtSeenSince)) as [b c'] eqn:Es.
    apply wp_bind, wp_modify, wp_done.
    match goal with |- wp _ _ _ ?st => set (w1 := st) end.
    assert (frame (Some (s_hash s)) 0 [] w w1) as F1.
    { split; [done| |].
      - rewrite Hc. constructor. apply rtc_once.
        assert (c' = (Seen c (s_hash s) (clock AtSeen) (clock AtSeenSince)).2) as -> by by rewrite Es.
        by apply touch_seen.
      - exists []. by rewrite app_nil_r. }
    destruct b.
    + apply wp_bind. eapply wp_mono; [| |by apply (Hexit w1)]; done.
    + apply wp_bind, wp_done. apply Hacq; [done|done|]. intros c0 [= <-]. by rewrite Es.
  - apply wp_done, wp_bind, wp_done. by apply Hacq.
Qed.
End held.

(** ** The call *)

Section process.
Context `{SO : Sorter} `{JL : JsonLib} `{ML : MailLib} (vst : validate_state)
  (hosts : forum_hosts) (p : Processor) (clock : clock_site → Time)
  (r : Registry) (Hreg : p_Registry p = Some r).

Definition limited (task : Task) : Task :=
  {| t_RoundID := t_RoundID task; t_Item := limit_item (t_Item task) |}.

Abbreviation run := (Process vst hosts p clock).
Abbreviation frame := (frame clock).

(** Everything an accepting call establishes. *)
Record accepting (task : Task) (w : World) (o : ProcessOutcome) (w' : World)
    (s : Scored) (lead : Lead) : Prop := {
  ac_outcome : o = accepted lead;
  ac_qualified : qualified vst hosts p clock (w_rep w) (limited task)
                   (prologue hosts (limited task)) s;
  ac_lead : lead_ok p (limited task) s lead;
  ac_verdicts : verdicts_ok p r (limited task) (prologue hosts (limited task)) s;
  ac_fresh : fresh clock (s_hash s) w;
  ac_frame : frame (Some (s_hash s)) 0 (written p lead) w w';
  ac_remembered : remembered clock (s_hash s) w w' }.

(** What happens while the hash is held, seen from outside. *)
Lemma frame_held h n S w w1 w2 :
  h ∉ w_inflight w → frame (Some h) 0 [] w w1 →
  frame (Some h) n S (with_inflight (({[h]} : gset string) ∪ w_inflight w1) w1) w2 →
  frame (Some h) n S w (releaseHash h w2).
Proof.
  intros Hh F1 [Hi Hs Hl]. pose proof (fr_inflight _ _ _ _ _ _ F1) as Hi1.
  apply (frame_trans _ _ 0 n [] S _ _ _ F1). split; [|exact Hs|exact Hl].
  cbn [releaseHash with_inflight w_inflight] in *. rewrite Hi, Hi1. set_solver.
Qed.

Lemma Process_spec task w :
  sound w →
  ∃ o w', run task w = (Return o, w') ∧
    ((∃ s lead, accepting task w o w' s lead)
     ∨ ∃ h n, rejects o n ∧ frame h n [] w w').
Proof.
  intros Hw. unfold Process, process_body. cbv zeta. fold (limited task).
  set (t := limited task). set (l := prologue hosts t).
  unfold seq_eff at 1.
  pose proof (gate_stages_ok vst hosts p clock (w_rep w) None r Hreg t l w Hw eq_refl) as Hg.
  unfold wp in Hg.
  destruct (gate_stages vst hosts p clock t l w) as [[s|e] w1] eqn:Eg.
  2:{ destruct Hg as (o & n & -> & Ho & F). exists o, w1. split; [done|]. right. by exists None, n. }
  destruct Hg as (Hq & Hr1 & F1).
  assert (sound w1) as Hw1 by (by eapply frame_sound).
  assert (w_seen w1 = w_seen w) as Hs1 by by eapply untouched.
  pose proof (dedup_stage_wp p clock t l s w1 Hw1) as Hd. unfold wp in Hd. unfold seq_eff at 1.
  pose proof (frame_retouch clock (Some (s_hash s)) _ _ _ _ F1) as F1'.
  destruct (dedup_stage p clock t l s w1) as [[u|e] w2].
  2:{ destruct Hd as (o & n & -> & Ho & F). exists o, w2. split; [done|]. right.
      exists (Some (s_hash s)), n. split; [done|].
      apply (frame_trans _ _ _ _ _ _ _ _ _ F1' F). }
  destruct Hd as (Hfr & Hr2 & w3 & F3 & ->).
  pose proof (frame_trans _ _ _ _ _ _ _ _ _ F1' F3) as F13. cbn [app plus] in F13.
  assert (fresh clock (s_hash s) w) as Hfr'.
  { destruct Hfr as [Hf1 Hf2 Hf3]. rewrite Hs1 in Hf3. constructor; [done| |done].
    by rewrite <- (fr_inflight _ _ _ _ _ _ F1). }
  set (w4 := with_inflight _ _) in *.
  assert (sound w4) as Hw4 by (intros c Hc; by apply (frame_sound _ _ _ _ _ _ F13 Hw)).
  pose proof (held_stages_wp p clock (s_hash s) r t l s w4 (w_rep w4) Hreg Hw4 eq_refl eq_refl) as Hh.
  unfold wp in Hh. unfold deferring.
  destruct (held_stages p clock t l s w4) as [[o|e] w5].
  - destruct Hh as (lead & -> & [Hlead Hv] & F5 & Hrem). eexists _, _. split; [done|]. left.
    exists s, lead. constructor; try done.
    + eapply frame_held; [apply Hfr'|exact F13|exact F5].
    + intros c Hc. pose proof (fr_seen _ _ _ _ _ _ F13) as Ht. rewrite Hc in Ht.
      inversion Ht as [|c0 c1 Hrtc Heq Hc3]; subst.
      destruct (Hrem c1) as (c2 & c3 & Ht2 & Hm & Hw5); [done|].
      exists c2, c3. split; [|done]. eapply touched_trans; [|exact Ht2]. by constructor.
  - destruct Hh as (o & n & -> & Ho & F5). eexists _, _. split; [done|]. right.
    exists (Some (s_hash s)), n. split; [done|].
    eapply frame_held; [apply Hfr'|exact F13|exact F5].
Qed.
End process.
