(* ===== verification/ProcessProps.v ===== *)
(** The properties of the lead processor, drawn from its specification
    ([ProcessFacts.Process_spec]): sequences of calls, where the cache remembers every
    accepted hash as long as the calls fit its size and its time to live, so no hash is
    accepted twice; single calls; and their concrete instances, a processor with a
    one-keyword registry and an in-memory store. *)
From S2P Require Import Prelude Unicode GoStrings GoSort SeenCache Matcher Validate.
From S2P Require Import Registry SourceRep Scoring Outreach Extract Geo Item Hashes.
From S2P Require Import FilterSignals FilterGates TgWeb Entity Gemini Enrich.
From S2P Require Import Effects Process ProcessLogic ProcessFacts.
From Stdlib Require Import SpecFloat.

Local Open Scope Z_scope.

(** ** The cache within a time window *)

Definition add_key (k : string) (keys : list string) : list string :=
  if decide (k ∈ keys) then keys else keys ++ [k].

Lemma elem_add_key k keys : k ∈ add_key k keys.
Proof. unfold add_key. case_decide; [done|]. set_solver. Qed.

Lemma sub_add_key k keys : keys ⊆ add_key k keys.
Proof. unfold add_key. case_decide; set_solver. Qed.

Lemma add_key_idem k keys : add_key k (add_key k keys) = add_key k keys.
Proof. unfold add_key at 1. by rewrite decide_True by apply elem_add_key. Qed.

Lemma length_add_key k keys : (length (add_key k keys) ≤ length keys + 1)%nat.
Proof. unfold add_key. case_decide; [lia|]. rewrite length_app. cbn. lia. Qed.

Section window.
Context (t0 N T : Z) (HT : 0 < T < max_int64).

(** A reading of the clock during the window. *)
Definition within (t : Z) : Prop := t0 ≤ t ≤ t0 + T.

(** The cache holds exactly [keys], all stamped since [t0]. *)
Definition holds (keys : list string) (c : SeenCache) : Prop :=
  cache_inv c ∧ maxSize c = N ∧ ttl c = T ∧
  ∃ q, represents c q ∧ q.*1 = keys ∧ Forall (λ e, t0 ≤ e.2) q.

Lemma fresh_in_window now t : within now → t0 ≤ t → time_sub now t ≤ T.
Proof.
  unfold within. intros ? ?. apply time_sub_le; [|lia]. unfold min_int64. lia.
Qed.

Lemma purge_in_window q now :
  within now → Forall (λ e, t0 ≤ e.2) q → q_purge q now T = q.
Proof.
  intros Hn Hq. unfold q_purge. induction Hq as [|e q He _ IH]; [done|].
  rewrite filter_cons_True by (by apply fresh_in_window). by rewrite IH.
Qed.

Lemma q_put_stamps q k now :
  within now → Forall (λ e, t0 ≤ e.2) q → Forall (λ e, t0 ≤ e.2) (q_put q k now).
Proof.
  intros Hn Hq. unfold within in Hn. induction Hq as [|[k' t] q He Hq IH]; cbn [q_put].
  - repeat constructor. cbn. lia.
  - destruct (decide (k = k')); constructor; try done. cbn. lia.
Qed.

Lemma holds_seen keys c k now since :
  within now → within since → holds keys c →
  holds keys (Seen c k now since).2
  ∧ ((Seen c k now since).1 = false → k ∉ keys).
Proof.
  intros Hn Hs (Hi & Hm & Ht & q & Hq & <- & Hst).
  pose proof (Seen_represents c q k now since Hi Hq) as (Hb & Hr & Hm' & Ht').
  rewrite Ht, purge_in_window in Hb, Hr by done. split.
  - split; [by apply Seen_inv|]. split; [congruence|]. split; [congruence|]. by exists q.
  - rewrite Hb. intros Hf Hk.
    rewrite q_lookup_map in Hf. destruct ((list_to_map q : gmap string Z) !! k) as [t|] eqn:E.
    + apply Z.leb_gt in Hf. apply elem_of_list_to_map_2 in E.
      rewrite Forall_forall in Hst. specialize (Hst _ E). cbn in Hst.
      pose proof (fresh_in_window since t Hs Hst). lia.
    + by apply not_elem_of_list_to_map_2 in E.
Qed.

Lemma holds_mark keys c c' k now :
  within now → holds keys c → Z.of_nat (length (add_key k keys)) ≤ N →
  Mark c k now = Some c' → holds (add_key k keys) c'.
Proof.
  intros Hn (Hi & Hm & Ht & q & Hq & <- & Hst) Hlen Hmark.
  destruct (Mark_represents c q k now Hi Hq) as (c1 & Hmark' & Hr & Hi' & Hm' & Ht').
  assert (c1 = c') as -> by congruence.
  split; [done|]. split; [congruence|]. split; [congruence|].
  exists (q_put q k now). unfold q_mark in Hr. rewrite Ht, purge_in_window, Hm in Hr by done.
  assert ((q_put q k now).*1 = add_key k q.*1) as Hk by apply q_put_keys.
  split; [|split; [done|by apply q_put_stamps]].
  unfold q_bound in Hr. replace (_ - _)%nat with O in Hr; [done|].
  rewrite <- Hk, length_fmap in Hlen. lia.
Qed.

Context (clock : clock_site → Time) (Hclock : ∀ site, within (clock site)).

(** Look-ups and marks of [h] add at most the key [h]. *)
Lemma holds_touched h keys c c' :
  rtc (touch clock (Some h)) c c' → Z.of_nat (length (add_key h keys)) ≤ N →
  holds keys c ∨ holds (add_key h keys) c → holds keys c' ∨ holds (add_key h keys) c'.
Proof.
  intros Hr Hlen. induction Hr as [|c1 c2 c3 Ht _ IH]; [done|]. intros Hc. apply IH. clear IH.
  destruct Ht as [k c now since [= <-]|k c c' now [= <-] Hm].
  - destruct Hc as [Hc|Hc]; [left|right]; by apply holds_seen.
  - right. destruct Hc as [Hc|Hc]; [by eapply holds_mark|].
    rewrite <- (add_key_idem h keys). eapply holds_mark; eauto. by rewrite add_key_idem.
Qed.

Lemma holds_marked h keys c c' site :
  holds keys c ∨ holds (add_key h keys) c → Z.of_nat (length (add_key h keys)) ≤ N →
  Mark c h (clock site) = Some c' → holds (add_key h keys) c'.
Proof.
  intros [Hc|Hc] Hlen Hm; [by eapply holds_mark|].
  rewrite <- (add_key_idem h keys). eapply holds_mark; eauto. by rewrite add_key_idem.
Qed.
End window.

(** ** Sequences of calls *)

Section runs.
Context `{SO : Sorter} `{JL : JsonLib} `{ML : MailLib} (vst : validate_state)
  (hosts : forum_hosts) (p : Processor).

(** The calls of one worker, each with its task and its clock. *)
Fixpoint run_calls (calls : list ((clock_site → Time) * Task)) (w : World) : list exit * World :=
  match calls with
  | [] => ([], w)
  | (clock, task) :: rest =>
      let '(e, w1) := Process vst hosts p clock task w in
      let '(es, w2) := run_calls rest w1 in (e :: es, w2)
  end.

(** The hashes of the accepted leads. *)
Definition accepted_hashes (es : list exit) : list string :=
  omap (λ e, match e with
             | Return o => if o_Accepted o then ld_HashID ∘ ld_Base <$> o_Lead o else None
             | Panic => None
             end) es.

Context (r : Registry) (Hreg : p_Registry p = Some r).
Context (t0 N T : Z) (HT : 0 < T < max_int64).

Definition keyed (keys : list string) (w : World) : Prop :=
  ∃ c, w_seen w = Some c ∧ holds t0 N T keys c.

(** One call: the keys grow by at most one, and an accepted hash is new. *)
Lemma Process_keys clock task w keys :
  (∀ site, within t0 T (clock site)) → keyed keys w → Z.of_nat (length keys) < N →
  ∃ e w' keys', Process vst hosts p clock task w = (e, w') ∧ keyed keys' w'
    ∧ keys ⊆ keys' ∧ (length keys' ≤ length keys + 1)%nat
    ∧ (∀ h, h ∈ accepted_hashes [e] → (h ∉ keys) ∧ h ∈ keys').
Proof.
  intros Hcl (c & Hc & Hk) Hlen.
  assert (sound w) as Hw by (intros c0 Hc0; rewrite Hc in Hc0; injection Hc0 as <-; apply Hk).
  assert (∀ h, Z.of_nat (length (add_key h keys)) ≤ N) as Hadd
    by (intros h; pose proof (length_add_key h keys); lia).
  destruct (Process_spec vst hosts p clock r Hreg task w Hw)
    as (o & w' & Hrun & [(s & lead & Ha)|(h & n & (Hacc & _) & F)]);
    exists (Return o), w'; rewrite Hrun.
  - exists (add_key (s_hash s) keys). split; [done|].
    destruct Ha as [-> _ Hlead _ [_ _ Hseen] _ Hrem].
    destruct (Hrem c Hc) as (c1 & c2 & Ht & Hm & Hc2).
    inversion Ht as [|c3 c4 Hrtc]; subst.
    split; [|split; [apply sub_add_key|split; [apply length_add_key|]]].
    + exists c2. split; [done|].
      apply (holds_marked t0 N T HT clock Hcl _ _ c1 _ AtAcceptMark); [|by apply Hadd|done].
      apply (holds_touched t0 N T HT clock Hcl _ _ c); [done..|by left].
    + intros h. cbn [accepted_hashes omap list_omap o_Accepted accepted o_Lead fmap option_fmap option_map].
      intros ->%list_elem_of_singleton. cbn. rewrite (lk_hash _ _ _ _ Hlead).
      split; [|apply elem_add_key].
      eapply (holds_seen t0 N T HT); [apply Hcl|apply Hcl|exact Hk|by apply Hseen].
  - assert (accepted_hashes [Return o] = []) as Hnil by (cbn; by rewrite Hacc).
    assert (∃ k c', w_seen w' = Some c' ∧ (holds t0 N T keys c' ∨ holds t0 N T (add_key k keys) c'))
      as (k & c' & Hc' & Hk').
    { pose proof (fr_seen _ _ _ _ _ _ F) as Ht. rewrite Hc in Ht. destruct h as [k|].
      - exists k. inversion Ht as [|c0 c1 Hr Hc0 Hc1]; subst. exists c1. split; [done|].
        apply (holds_touched t0 N T HT clock Hcl _ _ c); [done..|by left].
      - exists estr, c. rewrite (untouched _ _ _ _ _ F). split; [done|by left]. }
    destruct Hk' as [Hk'|Hk']; [exists keys|exists (add_key k keys)];
      (split; [done|]; split; [by exists c'|]); rewrite Hnil.
    + split; [done|]. split; [lia|]. by intros h' ?%elem_of_nil.
    + split; [apply sub_add_key|]. split; [apply length_add_key|]. by intros h' ?%elem_of_nil.
Qed.

Lemma accepted_hashes_cons e es : accepted_hashes (e :: es) = accepted_hashes [e] ++ accepted_hashes es.
Proof. unfold accepted_hashes. change (e :: es) with ([e] ++ es). by rewrite omap_app. Qed.

Lemma accepted_hashes_one e : (length (accepted_hashes [e]) ≤ 1)%nat.
Proof. unfold accepted_hashes. cbn. destruct (match e with Return _ => _ | Panic => _ end); cbn; lia. Qed.

Lemma run_calls_distinct calls w keys :
  Forall (λ call, ∀ site, within t0 T (call.1 site)) calls → keyed keys w →
  Z.of_nat (length keys + length calls) ≤ N →
  NoDup (accepted_hashes (run_calls calls w).1)
  ∧ Forall (λ h, h ∉ keys) (accepted_hashes (run_calls calls w).1).
Proof.
  intros Hcl. revert w keys. induction Hcl as [|[clock task] calls Hc _ IH]; intros w keys Hk Hlen.
  { split; constructor. }
  cbn [run_calls length fst] in *.
  destruct (Process_keys clock task w keys Hc Hk ltac:(lia))
    as (e & w1 & keys' & -> & Hk' & Hsub & Hlen' & Hnew).
  destruct (IH w1 keys' Hk' ltac:(lia)) as [Hnd Hout].
  destruct (run_calls calls w1) as [es w2]. cbn [fst] in *.
  rewrite accepted_hashes_cons. rewrite Forall_forall in Hout. split.
  - apply NoDup_app. split; [|split; [|done]].
    + pose proof (accepted_hashes_one e). destruct (accepted_hashes [e]) as [|h [|]]; [constructor| |cbn in *; lia].
      apply NoDup_singleton.
    + intros h Hh Hin. by apply (Hout h Hin), Hnew.
  - apply Forall_app. rewrite !Forall_forall. split; intros h Hh.
    + by apply Hnew.
    + intros Hin. by apply (Hout h Hh), Hsub.
Qed.
End runs.

(** ** A concrete processor *)

Module Sample.

#[export] Instance no_json : JsonLib := {| Unmarshal := λ _, None |}.
#[export] Instance no_mail : MailLib := {| parse_other := λ _, None |}.
#[export] Instance sorter : Sorter := insertion_sorter.

Definition registry : Registry := {|
  keywordRules := [KeywordRule "k1" "voluum alternative" 30 "tracker"];
  titleRules := []; negativeRules := []; hardRejectRules := []; phraseSet := ∅;
  highMin := 70; mediumMin := 25; jsonPath := estr |}.

Definition memory (r : upsert_result) : StoreOps := {|
  so_Exists := λ _, Some false; so_Upsert := λ _, r;
  so_HeatPatcher := false; so_HotPatcher := false |}.

Definition processor (store : StoreOps) (icp : option (string → option ICPResult))
    (min : Z) : Processor := {|
  p_Registry := Some registry; p_Store := Some store; p_MX := None; p_Junk := true;
  p_StatsWriter := None; p_KeywordStats := true;
  p_ICP := icp; p_ICPEnabled := true; p_ICPTgWebEnabled := false;
  p_TgWebPrescanMode := TgWebPrescanStrict;
  p_Geo := None; p_GeoEnabled := false; p_GeoBlockCountries := []; p_Engage := None;
  p_EngageEnabled := false; p_Intent := None; p_IntentEnabled := false;
  p_IntentMinConfidence := S754_zero false; p_LanderOutreachEnabled := false;
  p_Prescan := None; p_PrescanEnabled := false; p_LeadCluster := None;
  p_LeadClusterEnabled := false; p_Enricher := None; p_ProfileEnricher := None;
  p_EnrichSynth := None; p_EnrichSynthEnabled := false; p_TimeDecayEnabled := false;
  p_PilotTagEnabled := true; p_LeadStatusEnabled := true; p_GeminiDefer := false;
  p_OpsSettings := None; p_WarmPath := false; p_EntityRecorder := None;
  p_EntitySightings := false; p_CrossSourceHot := false; p_CrossSourceBoost := 0;
  p_EntityClassifyEnabled := false; p_EntityClassify := false; p_EntityHeatEnabled := false;
  p_EntityHeat := DefaultHeatConfig;
  p_HardRejectShadowPct := 0; p_AcceptMinScore := min; p_TelegramAcceptMinScore := 0;
  p_SeedFeedback := false |}.

Definition plain : Processor := processor (memory Stored) None 0.

Definition start : World := {|
  w_seen := Some (NewSeenCache 100 0); w_inflight := ∅; w_rep := Some NewSourceReputation;
  w_thread := None; w_log := [] |}.

Definition post (contact : string) : Task :=
  {| t_RoundID := "r1"; t_Item := item_with "x" "need voluum alternative" contact zero_item |}.

Definition noon : clock_site → Time := λ _, 1000.

Abbreviation run p := (Process initial_state None p noon).

(** What a test looks at. *)
Definition verdict (r : exit * World) : option (bool * string) :=
  match r.1 with Return o => Some (o_Accepted o, o_RejectReason o) | Panic => None end.

Example accepts : verdict (run plain (post "telegram:@bobby") start) = Some (true, estr).
Proof. vm_compute. reflexivity. Qed.

Lemma verdict_accepts r reason :
  verdict r = Some (true, reason) → ∃ o w', r = (Return o, w') ∧ o_Accepted o = true.
Proof. destruct r as [[o|] w']; [|done]. intros [= Ho _]. by exists o, w'. Qed.

Lemma start_sound : sound start.
Proof. intros c [= <-]. by apply NewSeenCache_inv. Qed.

End Sample.

(** ** Acceptance *)

Section properties.
Context `{SO : Sorter} `{JL : JsonLib} `{ML : MailLib} (vst : validate_state)
  (hosts : forum_hosts) (p : Processor) (r : Registry).

(** C1. The processor accepts only qualified posts.  When a call returns an
    accepted outcome, the post passed every source, geography, context, spam,
    keyword and embedding prescan and contact gate, its contacts are reachable or
    enrichable and not blacklisted, its score reached the threshold, its hash was
    neither remembered nor held by another call, the store did not have it and took
    it, and the lead returned carries that hash and those contacts.  Nor did any
    model that was asked object: the lead clusterer does not call it a duplicate,
    the geography model names no blocked country, the ICP model does not call it
    nobody's customer on a site post or at a low priority, the intent model accepts
    it, and its first e-mail address has an MX record. *)
Theorem Process_accepts_qualified clock task w o w' :
  p_Registry p = Some r → sound w →
  Process vst hosts p clock task w = (Return o, w') → o_Accepted o = true →
  ∃ s lead, o = accepted lead
    ∧ qualified vst hosts p clock (w_rep w) (limited task) (prologue hosts (limited task)) s
    ∧ lead_ok p (limited task) s lead
    ∧ verdicts_ok p r (limited task) (prologue hosts (limited task)) s
    ∧ fresh clock (s_hash s) w.
Proof.
  intros Hreg Hw Hrun Hacc.
  destruct (Process_spec vst hosts p clock r Hreg task w Hw)
    as (o' & w'' & Hrun' & [(s & lead & Ha)|(h & n & (Hr & _) & _)]);
    rewrite Hrun in Hrun'; injection Hrun' as <- <-; [|congruence].
  exists s, lead. by destruct Ha.
Qed.

(** C15. Every call returns: with a registry and a cache in its invariant no panic
    is reached, whatever the stores, models and clocks answer; the hashes held
    before the call, and only those, are held after it; the cache is in its
    invariant again. *)
Theorem Process_returns_and_releases clock task w :
  p_Registry p = Some r → sound w →
  ∃ o w', Process vst hosts p clock task w = (Return o, w')
    ∧ w_inflight w' = w_inflight w ∧ sound w'.
Proof.
  intros Hreg Hw.
  destruct (Process_spec vst hosts p clock r Hreg task w Hw)
    as (o & w' & Hrun & [(s & lead & Ha)|(h & n & _ & F)]); exists o, w'; (split; [done|]).
  - destruct Ha as [_ _ _ _ _ F _]. split; [apply F|by eapply frame_sound].
  - split; [apply F|by eapply frame_sound].
Qed.

(** C35. The log tells the truth.  A call that accepts writes exactly the lead it
    returns to the store, once, and reports no junk; a call that rejects leaves
    nothing stored and reports one junk event, except that duplicates, store
    failures and fixtures report none and a hard reject reports at most one. *)
Theorem Process_audit clock task w o w' :
  p_Registry p = Some r → sound w →
  Process vst hosts p clock task w = (Return o, w') →
  ∃ es, w_log w' = w_log w ++ es
    ∧ stored_leads es = match o_Lead o with Some lead => written p lead | None => [] end
    ∧ if o_Accepted o then junk_reasons es = [] ∧ is_Some (o_Lead o)
      else if String.eqb (o_RejectReason o) "hard_reject"
      then (length (junk_reasons es) ≤ 1)%nat
      else length (junk_reasons es) = if audited o then 1%nat else 0%nat.
Proof.
  intros Hreg Hw Hrun.
  destruct (Process_spec vst hosts p clock r Hreg task w Hw)
    as (o' & w'' & Hrun' & [(s & lead & Ha)|(h & n & (Hr & Hl & Hn) & F)]);
    rewrite Hrun in Hrun'; injection Hrun' as <- <-.
  - destruct Ha as [-> _ _ _ _ [_ _ (es & Hes & Hj & Hs)] _]. exists es. split; [done|].
    split; [done|]. cbn. split; [by apply length_zero_iff_nil|by eexists].
  - destruct F as [_ _ (es & Hes & Hj & Hs)]. exists es. split; [done|].
    rewrite Hl, Hr. split; [done|]. rewrite Hj. done.
Qed.

(** C2. No lead twice.  Over any sequence of at most [N] calls whose clocks stay
    within one time to live, from a cache that is empty, the accepted hashes are
    pairwise distinct — even when the store never reports a duplicate. *)
Theorem run_calls_never_twice calls w t0 N T :
  p_Registry p = Some r → 0 < N → 0 < T < max_int64 →
  w_seen w = Some (NewSeenCache N T) →
  Forall (λ call, ∀ site, within t0 T (call.1 site)) calls →
  Z.of_nat (length calls) ≤ N →
  NoDup (accepted_hashes (run_calls vst hosts p calls w).1).
Proof.
  intros Hreg HN HT Hw Hcl Hlen.
  apply (run_calls_distinct vst hosts p r Hreg t0 N T HT calls w []); [done| |cbn; lia].
  exists (NewSeenCache N T). split; [done|].
  split; [apply NewSeenCache_inv; lia|]. unfold NewSeenCache.
  destruct (Z.leb_spec N 0); [lia|]. destruct (Z.leb_spec T 0); [lia|].
  split; [done|]. split; [done|]. exists []. split; [|done].
  constructor; [done|done|constructor].
Qed.

(** Contacts the store has no type for are worth nothing.  A post is accepted
    only if it is a Telegram message or one of its contacts has a type the store
    keeps; a post known by its forum user, its numeric Telegram id or its company
    alone is never accepted, although the contact gate counts such identities. *)
Theorem Process_needs_stored_contact clock task w o w' :
  p_Registry p = Some r → sound w →
  Process vst hosts p clock task w = (Return o, w') → o_Accepted o = true →
  IsTelegramSource (it_Source (t_Item task)) = true
  ∨ Exists (λ c, c_Type c ∈ stored_types)
      (site_contacts (limit_item (t_Item task))
         (post_contacts vst p (limited task) (prologue hosts (limited task)))).
Proof.
  intros Hreg Hw Hrun Hacc.
  destruct (Process_spec vst hosts p clock r Hreg task w Hw)
    as (o' & w'' & Hrun' & [(s & lead & Ha)|(h & n & (Hr & _) & _)]);
    rewrite Hrun in Hrun'; injection Hrun' as <- <-; [|congruence].
  destruct Ha as [_ [_ _ _ [Hc _ _ _ _ _ _ _ _ _] _ _ Hh] _ _ [Hne _ _] _ _].
  change (limit_item (t_Item task)) with (t_Item (limited task)). rewrite <- Hc.
  destruct (IsTelegramSource (it_Source (t_Item task))) eqn:Ht; [by left|right].
  destruct (decide (Exists (λ c, c_Type c ∈ stored_types) (s_contacts s))) as [|Hno]; [done|].
  destruct Hne. rewrite Hh. apply not_Exists_Forall in Hno; [|apply _].
  assert (IsTelegramSource (it_Source (t_Item (limited task))) = false) as Ht' by done.
  pose proof (ToStoredContacts_none _ Hno) as Hnone.
  unfold leadHashID. cbv zeta. rewrite Ht'. cbn [andb]. cbv iota.
  rewrite (String.eqb_refl estr). cbn [negb]. cbv iota.
  destruct (negb _); [by apply LeadHashIDWithScope_empty|by apply LeadHashIDFromExtract_empty].
Qed.
End properties.

(** ** Witnesses: a post with a Telegram contact, accepted *)

Module Witnesses.
Import Sample.

Lemma Process_accepts_qualified_witness :
  ∃ o w', run plain (post "telegram:@bobby") start = (Return o, w') ∧ o_Accepted o = true
    ∧ ∃ s lead, o = accepted lead
      ∧ qualified initial_state None plain noon (w_rep start) (limited (post "telegram:@bobby"))
          (prologue None (limited (post "telegram:@bobby"))) s
      ∧ lead_ok plain (limited (post "telegram:@bobby")) s lead
      ∧ verdicts_ok plain registry (limited (post "telegram:@bobby"))
          (prologue None (limited (post "telegram:@bobby"))) s
      ∧ fresh noon (s_hash s) start.
Proof.
  destruct (verdict_accepts _ _ accepts) as (o & w' & E & Ho).
  exists o, w'. split; [exact E|]. split; [exact Ho|].
  exact (Process_accepts_qualified initial_state None plain registry noon
           (post "telegram:@bobby") start o w' eq_refl start_sound E Ho).
Defined.

Lemma Process_returns_and_releases_witness :
  ∃ o w', run plain (post "telegram:@bobby") start = (Return o, w')
    ∧ w_inflight w' = ∅ ∧ sound w'.
Proof.
  exact (Process_returns_and_releases initial_state None plain registry noon
           (post "telegram:@bobby") start eq_refl start_sound).
Defined.

Lemma Process_audit_witness :
  ∃ w' es, run plain (post "forum:user/joe") start = (Return (rejected "empty_hash"), w')
    ∧ w_log w' = w_log start ++ es ∧ stored_leads es = []
    ∧ length (junk_reasons es) = 1%nat.
Proof.
  assert ((run plain (post "forum:user/joe") start).1 = Return (rejected "empty_hash")) as Hv
    by (vm_compute; reflexivity).
  destruct (run plain (post "forum:user/joe") start) as [e w'] eqn:E. cbn in Hv. subst e.
  destruct (Process_audit initial_state None plain registry noon
    (post "forum:user/joe") start _ w' eq_refl start_sound E) as (es & Hes & Hs & Hj).
  exists w', es. split; [reflexivity|]. split; [exact Hes|]. split; [exact Hs|exact Hj].
Defined.

Lemma run_calls_never_twice_witness :
  NoDup (accepted_hashes (run_calls initial_state None plain
    [(noon, post "telegram:@bobby"); (noon, post "telegram:@Bobby")] start).1).
Proof.
  apply (run_calls_never_twice initial_state None plain registry
    [(noon, post "telegram:@bobby"); (noon, post "telegram:@Bobby")] start 1000 100 (24 * hour));
    [reflexivity|lia|split; vm_compute; reflexivity|reflexivity| |cbn; lia].
  repeat constructor; vm_compute; discriminate.
Defined.

(** The same post twice: the second call is a duplicate. *)
Example second_is_duplicate :
  verdict (run plain (post "telegram:@Bobby") (run plain (post "telegram:@bobby") start).2)
  = Some (false, "dedup").
Proof. vm_compute. reflexivity. Qed.

Lemma Process_needs_stored_contact_witness :
  IsTelegramSource "x" = true
  ∨ Exists (λ c, c_Type c ∈ stored_types)
      (site_contacts (limit_item (t_Item (post "telegram:@bobby")))
         (post_contacts initial_state plain (limited (post "telegram:@bobby"))
            (prologue None (limited (post "telegram:@bobby"))))).
Proof.
  destruct (verdict_accepts _ _ accepts) as (o & w' & E & Ho).
  exact (Process_needs_stored_contact initial_state None plain registry noon
           (post "telegram:@bobby") start o w' eq_refl start_sound E Ho).
Defined.
End Witnesses.

(** ** Behaviour on the edges *)

Module Edges.
Import Sample.

(** An enrichable identity alone passes the contact gate and is then dropped
    with an empty hash. *)
Example forum_user_alone_is_dropped :
  (run plain (post "forum:user/joe") start).1 = Return (rejected "empty_hash")
  ∧ HasEnrichableIdentity [MkContact "forum_user" "joe"] = true.
Proof. vm_compute. split; reflexivity. Qed.

(** A store failure loses the lead: the call that fails to write has marked
    the hash, so the next attempt on a working store is a duplicate. *)
Theorem store_failure_loses_lead :
  let w := (run (processor (memory UpsertFailed) None 0) (post "telegram:@bobby") start).2 in
  stored_leads (w_log w) = [] ∧ verdict (run plain (post "telegram:@bobby") w) = Some (false, "dedup").
Proof. vm_compute. split; reflexivity. Qed.

Definition not_buyer : ICPResult :=
  {| icp_ICP := "none"; icp_SpendTier := estr; icp_Why := "vendor"; icp_Hot := false |}.

(** The minimum score is checked before the language model lowers the score:
    a lead may be accepted below the configured minimum. *)
Theorem accepted_below_minimum :
  match (run (processor (memory Stored) (Some (λ _, Some not_buyer)) 70)
           (post "telegram:@bobby") start).1 with
  | Return o => o_Accepted o = true ∧ (ld_Score <$> o_Lead o) = Some 62
  | Panic => False
  end.
Proof. vm_compute. split; reflexivity. Qed.

Definition no_registry : Processor := {|
  p_Registry := None; p_Store := p_Store plain; p_MX := None; p_Junk := true;
  p_StatsWriter := None; p_KeywordStats := true;
  p_ICP := None; p_ICPEnabled := true; p_ICPTgWebEnabled := false;
  p_TgWebPrescanMode := TgWebPrescanStrict;
  p_Geo := None; p_GeoEnabled := false; p_GeoBlockCountries := []; p_Engage := None;
  p_EngageEnabled := false; p_Intent := None; p_IntentEnabled := false;
  p_IntentMinConfidence := S754_zero false; p_LanderOutreachEnabled := false;
  p_Prescan := None; p_PrescanEnabled := false; p_LeadCluster := None;
  p_LeadClusterEnabled := false; p_Enricher := None; p_ProfileEnricher := None;
  p_EnrichSynth := None; p_EnrichSynthEnabled := false; p_TimeDecayEnabled := false;
  p_PilotTagEnabled := true; p_LeadStatusEnabled := true; p_GeminiDefer := false;
  p_OpsSettings := None; p_WarmPath := false; p_EntityRecorder := None;
  p_EntitySightings := false; p_CrossSourceHot := false; p_CrossSourceBoost := 0;
  p_EntityClassifyEnabled := false; p_EntityClassify := false; p_EntityHeatEnabled := false;
  p_EntityHeat := p_EntityHeat plain;
  p_HardRejectShadowPct := 0; p_AcceptMinScore := 0; p_TelegramAcceptMinScore := 0;
  p_SeedFeedback := false |}.

(** A processor without a registry panics on the first post that reaches the
    score, although the prescan allows a nil registry. *)
Example nil_registry_panics :
  (run no_registry (post "telegram:@bobby") start).1 = Panic.
Proof. vm_compute. reflexivity. Qed.
End Edges.
