(* ===== verification/Rounds.v ===== *)
(** Scan rounds ([internal/pipeline/]: worker.go, enqueue.go, stats.go): the
    counters of a round, what a worker records of an outcome, and the pool of
    workers with its bounded task channel as a step relation.

    A round's counters are int64 values that grow by one per task; they are kept
    as integers.  The tasks of the model all belong to one round. *)
From S2P Require Import Prelude Unicode GoStrings GoSort Hashes Matcher.
From S2P Require Import Scoring Item Process.

Local Open Scope Z_scope.

(** ** The counters of a round ([stats.go]) *)

Inductive counter :=
  | RawTotal | Accepted | RejectedGeo | HardRejected | Dedup | Dropped | High | Medium | Low
  | RejectedBlacklist | RejectedIntelOnly | RejectedLanderNoBuyer | RejectedGitHubVendor
  | RejectedTelegramSpam | RejectedLowPriority | RejectedICP | RejectedIntent | RejectedLang
  | RejectedContext | RejectedContact | RejectedNoContacts | RejectedNoReachableContact
  | RejectedEmailNoContext | RejectedRoleEmail | RejectedEmptyHash | RejectedMX | RejectedStore
  | SourcesOK | SourcesFail.

#[export] Instance counter_eq_dec : EqDecision counter.
Proof. solve_decision. Defined.

Definition all_counters : list counter :=
  [ RawTotal; Accepted; RejectedGeo; HardRejected; Dedup; Dropped; High; Medium; Low;
    RejectedBlacklist; RejectedIntelOnly; RejectedLanderNoBuyer; RejectedGitHubVendor;
    RejectedTelegramSpam; RejectedLowPriority; RejectedICP; RejectedIntent; RejectedLang;
    RejectedContext; RejectedContact; RejectedNoContacts; RejectedNoReachableContact;
    RejectedEmailNoContext; RejectedRoleEmail; RejectedEmptyHash; RejectedMX; RejectedStore;
    SourcesOK; SourcesFail ].

(** As in an outcome, the zero lead is [None]. *)
Record RoundState := { rs_count : counter → Z; rs_leads : list (option Lead) }.

Definition no_round : RoundState := {| rs_count := λ _, 0; rs_leads := [] |}.

Definition add (c : counter) (s : RoundState) : RoundState :=
  {| rs_count := λ c', if decide (c' = c) then rs_count s c + 1 else rs_count s c';
     rs_leads := rs_leads s |}.

Definition AddLead (lead : option Lead) (s : RoundState) : RoundState :=
  {| rs_count := rs_count s; rs_leads := rs_leads s ++ [lead] |}.

(** [recordRoundReject]: the counter of a reason. *)
Definition reject_counter (reason : string) : counter :=
  if String.eqb reason "geo" then RejectedGeo
  else if String.eqb reason "hard_reject" then HardRejected
  else if String.eqb reason "dedup" then Dedup
  else if String.eqb reason "mx" then RejectedMX
  else if String.eqb reason "blacklist" then RejectedBlacklist
  else if String.eqb reason "intel_only" then RejectedIntelOnly
  else if String.eqb reason "lander_no_buyer_signal" then RejectedLanderNoBuyer
  else if String.eqb reason "github_vendor" then RejectedGitHubVendor
  else if String.eqb reason "telegram_spam" then RejectedTelegramSpam
  else if String.eqb reason "low_priority" then RejectedLowPriority
  else if String.eqb reason "icp" then RejectedICP
  else if String.eqb reason "intent" then RejectedIntent
  else if String.eqb reason "lang" then RejectedLang
  else if String.eqb reason "context" || String.eqb reason "author_seller" then RejectedContext
  else if String.eqb reason "instant_drop" then HardRejected
  else if String.eqb reason "contact" then RejectedContact
  else if String.eqb reason "no_contacts" then RejectedNoContacts
  else if String.eqb reason "no_reachable_contact" then RejectedNoReachableContact
  else if String.eqb reason "email_no_context" then RejectedEmailNoContext
  else if String.eqb reason "role_email" then RejectedRoleEmail
  else if String.eqb reason "empty_hash" then RejectedEmptyHash
  else if String.eqb reason "store_error" then RejectedStore
  else Dropped.

Definition recordRoundReject (s : RoundState) (reason : string) : RoundState :=
  add (reject_counter reason) s.

(** ** What a worker does with a task ([worker.go])

    [process] is a sequence of atomic updates of the shared round; workers
    interleave between them. *)
Inductive op := Bump (c : counter) | Append (lead : option Lead) | FinishTask.

Definition priority_counter (lead : option Lead) : counter :=
  match ld_Priority <$> lead with
  | Some PriorityHigh => High
  | Some PriorityMedium => Medium
  | _ => Low
  end.

(** The updates an outcome leads to. *)
Definition outcome_ops (o : ProcessOutcome) : list op :=
  if o_RejectedGeo o then [Bump (reject_counter "geo")]
  else if o_HardRejected o then [Bump (reject_counter "hard_reject")]
  else if o_Dedup o then [Bump (reject_counter "dedup")]
  else if o_DroppedMX o then [Bump (reject_counter "mx")]
  else if negb (o_Accepted o) then
    [Bump (reject_counter (if String.eqb (o_RejectReason o) estr then "dropped"
                           else o_RejectReason o))]
  else [Bump Accepted; Bump (priority_counter (o_Lead o)); Append (o_Lead o)].

(** [process]: nothing but the deferred [FinishTask] when the context is done,
    only the total without a processor. *)
Definition process (cancelled : bool) (outcome : option ProcessOutcome) : list op :=
  if cancelled then [FinishTask]
  else Bump RawTotal
       :: match outcome with
          | None => []
          | Some o => outcome_ops o
          end ++ [FinishTask].

Definition apply_op (o : op) (s : RoundState) : RoundState :=
  match o with
  | Bump c => add c s
  | Append lead => AddLead lead s
  | FinishTask => s
  end.

(** ** The report of a round ([stats.go])

    The map literal of [TopRejectReasons] is the list of its entries; its keys are
    distinct and a [range] may visit them in any order. *)
Record RoundStats := {
  rt_RoundID : string; rt_Duration : Duration; rt_count : counter → Z; rt_Leads : list (option Lead) }.

Definition Snapshot (s : RoundState) (roundID : string) (duration : Duration) : RoundStats := {|
  rt_RoundID := roundID; rt_Duration := duration; rt_count := rs_count s;
  rt_Leads := rs_leads s |}.

Definition reject_buckets (s : RoundStats) : list (string * Z) := [
  ("geo", rt_count s RejectedGeo); ("hard_reject", rt_count s HardRejected);
  ("dedup", rt_count s Dedup); ("blacklist", rt_count s RejectedBlacklist);
  ("intel_only", rt_count s RejectedIntelOnly);
  ("lander_no_buyer_signal", rt_count s RejectedLanderNoBuyer);
  ("github_vendor", rt_count s RejectedGitHubVendor);
  ("telegram_spam", rt_count s RejectedTelegramSpam);
  ("low_priority", rt_count s RejectedLowPriority); ("icp", rt_count s RejectedICP);
  ("intent", rt_count s RejectedIntent); ("lang", rt_count s RejectedLang);
  ("context", rt_count s RejectedContext); ("contact", rt_count s RejectedContact);
  ("no_contacts", rt_count s RejectedNoContacts);
  ("no_reachable_contact", rt_count s RejectedNoReachableContact);
  ("email_no_context", rt_count s RejectedEmailNoContext);
  ("role_email", rt_count s RejectedRoleEmail); ("empty_hash", rt_count s RejectedEmptyHash);
  ("mx", rt_count s RejectedMX); ("store_error", rt_count s RejectedStore);
  ("dropped", rt_count s Dropped) ].

Definition more_frequent (p q : string * Z) : bool :=
  if p.2 =? q.2 then str_ltb p.1 q.1 else q.2 <? p.2.

(** [topRejectReasons], with the entries in the order the [range] visits them. *)
Definition topRejectReasons `{Sorter} (reasons : list (string * Z)) (n : Z) : list string :=
  let pairs := sort_slice more_frequent (List.filter (λ p, negb (p.2 <=? 0)) reasons) in
  let pairs := if (n >? 0) && (Z.of_nat (length pairs) >? n)
               then take (Z.to_nat n) pairs else pairs in
  (λ p, p.1 +:+ ":" +:+ Itoa p.2) <$> pairs.

Definition TopRejectReasons `{Sorter} (visit : list (string * Z) → list (string * Z))
    (s : RoundStats) (n : Z) : list string :=
  topRejectReasons (visit (reject_buckets s)) n.

(** ** The pool ([worker.go], [enqueue.go])

    [pl_sent] counts the calls of [TryEnqueue] that have sent their task and
    have not called [TrackTask] yet; [pl_lost] is the metric of tasks dropped on
    a full channel. *)
Inductive worker := Idle | Running (ops : list op) | Exited.

Record pool := {
  pl_queue : list Task; pl_sent : nat; pl_workers : list worker; pl_wg : Z;
  pl_state : RoundState; pl_lost : Z; pl_cancelled : bool; pl_closed : bool;
  pl_panicked : bool }.

Definition idle_workers (ws : list worker) : nat :=
  length (List.filter (λ w, match w with Idle => true | _ => false end) ws).

(** A send on the buffered channel goes through when there is room in the buffer
    or a receiver waiting. *)
Definition room (buffer : nat) (st : pool) : bool :=
  Nat.ltb (length (pl_queue st)) (buffer + idle_workers (pl_workers st)).

Definition with_queue (st : pool) (q : list Task) (sent : nat) : pool := {|
  pl_queue := q; pl_sent := sent; pl_workers := pl_workers st; pl_wg := pl_wg st;
  pl_state := pl_state st; pl_lost := pl_lost st; pl_cancelled := pl_cancelled st;
  pl_closed := pl_closed st; pl_panicked := pl_panicked st |}.

Definition with_worker (st : pool) (i : nat) (w : worker) : pool := {|
  pl_queue := pl_queue st; pl_sent := pl_sent st; pl_workers := <[i := w]> (pl_workers st);
  pl_wg := pl_wg st; pl_state := pl_state st; pl_lost := pl_lost st;
  pl_cancelled := pl_cancelled st; pl_closed := pl_closed st; pl_panicked := pl_panicked st |}.

Definition with_state (st : pool) (s : RoundState) (lost : Z) : pool := {|
  pl_queue := pl_queue st; pl_sent := pl_sent st; pl_workers := pl_workers st;
  pl_wg := pl_wg st; pl_state := s; pl_lost := lost; pl_cancelled := pl_cancelled st;
  pl_closed := pl_closed st; pl_panicked := pl_panicked st |}.

(** [WaitGroup.Add]: a negative counter panics. *)
Definition wg_add (st : pool) (d : Z) : pool := {|
  pl_queue := pl_queue st; pl_sent := pl_sent st; pl_workers := pl_workers st;
  pl_wg := pl_wg st + d; pl_state := pl_state st; pl_lost := pl_lost st;
  pl_cancelled := pl_cancelled st; pl_closed := pl_closed st;
  pl_panicked := pl_panicked st || (pl_wg st + d <? 0) |}.

Definition with_flags (st : pool) (cancelled closed : bool) : pool := {|
  pl_queue := pl_queue st; pl_sent := pl_sent st; pl_workers := pl_workers st;
  pl_wg := pl_wg st; pl_state := pl_state st; pl_lost := pl_lost st;
  pl_cancelled := cancelled; pl_closed := closed; pl_panicked := pl_panicked st |}.

(** Steps of the producers: [TryEnqueue], the cancellation of the context, the
    closing of the channel.  A call that has found the context alive may still
    send after the cancellation. *)
Inductive feed (buffer : nat) : pool → pool → Prop :=
  | feed_send st t :
      pl_closed st = false → room buffer st = true →
      feed buffer st (with_queue st (pl_queue st ++ [t]) (S (pl_sent st)))
  | feed_drop st :
      room buffer st = false →
      feed buffer st (with_state st (add Dropped (pl_state st)) (pl_lost st + 1))
  | feed_cancel st : feed buffer st (with_flags st true (pl_closed st))
  | feed_close st : pl_sent st = O → feed buffer st (with_flags st (pl_cancelled st) true).

(** Steps that need no new task: the pending [TrackTask]s and the workers, of a
    pool with a processor.  Any outcome is possible.  A task sent beyond the buffer
    has been handed to a waiting worker, so the last one waiting for it does not
    exit. *)
Inductive work (buffer : nat) : pool → pool → Prop :=
  | work_track st n :
      pl_sent st = S n → work buffer st (wg_add (with_queue st (pl_queue st) n) 1)
  | work_receive st i t q outcome :
      pl_workers st !! i = Some Idle → pl_queue st = t :: q →
      work buffer st (with_worker (with_queue st q (pl_sent st)) i
                 (Running (process (pl_cancelled st) (Some outcome))))
  | work_update st i o ops :
      pl_workers st !! i = Some (Running (o :: ops)) → o ≠ FinishTask →
      work buffer st (with_worker (with_state st (apply_op o (pl_state st)) (pl_lost st)) i
                 (Running ops))
  | work_finish st i ops :
      pl_workers st !! i = Some (Running (FinishTask :: ops)) →
      work buffer st (wg_add (with_worker st i (Running ops)) (-1))
  | work_next st i :
      pl_workers st !! i = Some (Running []) → work buffer st (with_worker st i Idle)
  | work_exit st i :
      pl_workers st !! i = Some Idle → room buffer st = true →
      (pl_cancelled st = true ∨ pl_closed st = true ∧ pl_queue st = []) →
      work buffer st (with_worker st i Exited).

Inductive step (buffer : nat) (st st' : pool) : Prop :=
  | step_feed : pl_panicked st = false → feed buffer st st' → step buffer st st'
  | step_work : pl_panicked st = false → work buffer st st' → step buffer st st'.

(** [NewPool] and [Run]. *)
Definition start (workers : nat) : pool := {|
  pl_queue := []; pl_sent := O; pl_workers := replicate workers Idle; pl_wg := 0;
  pl_state := no_round; pl_lost := 0; pl_cancelled := false; pl_closed := false;
  pl_panicked := false |}.

Definition reachable (buffer workers : nat) (st : pool) : Prop :=
  rtc (step buffer) (start workers) st.

(** ** Weighted sums over the counters and the pending updates *)

(** A weight for each update; the weight of the round is that of the updates
    applied to it so far. *)
Record weight := { w_bump : counter → Z; w_lead : Z; w_finish : Z }.

Definition op_weight (w : weight) (o : op) : Z :=
  match o with Bump c => w_bump w c | Append _ => w_lead w | FinishTask => w_finish w end.

Definition ops_weight (w : weight) (ops : list op) : Z := sum_Z (op_weight w <$> ops).

Definition round_weight (w : weight) (s : RoundState) : Z :=
  sum_Z ((λ c, w_bump w c * rs_count s c) <$> all_counters)
  + w_lead w * Z.of_nat (length (rs_leads s)).

Definition worker_weight (w : weight) (k : worker) : Z :=
  match k with Running ops => ops_weight w ops | _ => 0 end.

Definition workers_weight (w : weight) (ws : list worker) : Z := sum_Z (worker_weight w <$> ws).


Lemma sum_Z_cons x l : sum_Z (x :: l) = x + sum_Z l.
Proof. done. Qed.

Lemma ops_weight_cons w o l : ops_weight w (o :: l) = op_weight w o + ops_weight w l.
Proof. done. Qed.

Lemma ops_weight_app w l1 l2 : ops_weight w (l1 ++ l2) = ops_weight w l1 + ops_weight w l2.
Proof. unfold ops_weight. by rewrite fmap_app, sum_Z_app. Qed.

Lemma workers_weight_insert w ws i k k' :
  ws !! i = Some k →
  workers_weight w (<[i := k']> ws) = workers_weight w ws - worker_weight w k + worker_weight w k'.
Proof.
  unfold workers_weight. revert i. induction ws as [|k0 ws IH]; intros [|i] H; try done.
  - injection H as ->. cbn [insert list_insert]. rewrite !fmap_cons, !sum_Z_cons. lia.
  - change (<[S i:=k']> (k0 :: ws)) with (k0 :: <[i:=k']> ws).
    rewrite !fmap_cons, !sum_Z_cons. specialize (IH i H). lia.
Qed.

Lemma sum_add (f : counter → Z) (l : list counter) c s :
  NoDup l →
  sum_Z ((λ c', f c' * rs_count (add c s) c') <$> l)
  = sum_Z ((λ c', f c' * rs_count s c') <$> l) + if decide (c ∈ l) then f c else 0.
Proof.
  induction 1 as [|c0 l Hn Hl IH]; [done|]. rewrite !fmap_cons, !sum_Z_cons, IH.
  unfold add at 1. cbn [rs_count].
  destruct (decide (c0 = c)) as [->|Hc].
  - rewrite decide_False by done. rewrite decide_True by left. lia.
  - destruct (decide (c ∈ l)).
    + rewrite decide_True by (by right). lia.
    + rewrite decide_False; [lia|]. rewrite elem_of_cons. naive_solver.
Qed.

Lemma all_counters_NoDup : NoDup all_counters.
Proof. apply (bool_decide_unpack _). vm_compute. done. Qed.

Lemma all_counters_elem c : c ∈ all_counters.
Proof. apply (bool_decide_unpack _). by destruct c; vm_compute. Qed.

Lemma round_weight_op w o s :
  o ≠ FinishTask → round_weight w (apply_op o s) = round_weight w s + op_weight w o.
Proof.
  intros Ho. unfold round_weight. destruct o as [c|lead|]; [| |done]; cbn [apply_op op_weight].
  - rewrite sum_add by apply all_counters_NoDup. rewrite decide_True by apply all_counters_elem.
    cbn. lia.
  - cbn. rewrite length_app. cbn. lia.
Qed.

(** ** Invariants of the pool *)

Section invariant.
Context (w : weight) (drop : Z).

(** Every task a worker takes up has this weight in all. *)
Hypothesis process_balanced : ∀ cancelled outcome, ops_weight w (process cancelled (Some outcome)) = 0.
Hypothesis finish_free : w_finish w = 0.
Hypothesis drop_weight : w_bump w Dropped = drop.

Lemma workers_weight_start n : workers_weight w (replicate n Idle) = 0.
Proof.
  unfold workers_weight. induction n as [|n IH]; [done|].
  cbn [replicate]. rewrite fmap_cons, sum_Z_cons, IH. done.
Qed.

Lemma balanced_feed buffer st st' :
  feed buffer st st' →
  round_weight w (pl_state st') + workers_weight w (pl_workers st') - drop * pl_lost st'
  = round_weight w (pl_state st) + workers_weight w (pl_workers st) - drop * pl_lost st.
Proof.
  destruct 1; cbn [pl_state pl_workers pl_lost with_queue with_state with_flags]; try lia.
  pose proof (round_weight_op w (Bump Dropped) (pl_state st)) as H1. cbn in H1.
  rewrite H1 by done. lia.
Qed.

Lemma balanced_work buffer st st' :
  work buffer st st' →
  round_weight w (pl_state st') + workers_weight w (pl_workers st') - drop * pl_lost st'
  = round_weight w (pl_state st) + workers_weight w (pl_workers st) - drop * pl_lost st.
Proof.
  destruct 1;
    cbn [pl_state pl_workers pl_lost with_queue with_state with_worker wg_add];
    try erewrite workers_weight_insert by done; cbn [worker_weight]; try lia.
  - rewrite process_balanced. lia.
  - rewrite round_weight_op by done. unfold ops_weight. rewrite fmap_cons, sum_Z_cons. lia.
  - unfold ops_weight. rewrite fmap_cons, sum_Z_cons. cbn [op_weight]. lia.
  - unfold ops_weight. cbn. lia.
Qed.

Lemma balanced_invariant buffer workers st :
  reachable buffer workers st →
  round_weight w (pl_state st) + workers_weight w (pl_workers st) = drop * pl_lost st.
Proof.
  intros Hr. unfold reachable in Hr. revert st Hr. apply rtc_ind_r.
  - cbn [pl_state pl_workers pl_lost start]. rewrite workers_weight_start.
    unfold round_weight. cbn. lia.
  - intros y z _ [_ Hs|_ Hs] IH; [apply balanced_feed in Hs|apply balanced_work in Hs]; lia.
Qed.
End invariant.
