(* ===== verification/RoundFacts.v ===== *)
(** Properties of a scan round: its counters add up, [Wait] returns only when
    every task is done, the pool drains; and the two executions that break the
    accounting of the wait group. *)
From S2P Require Import Prelude Unicode GoStrings Matcher Scoring Item Process Rounds GoSort.
From S2P Require Import Hashes.
From Stdlib Require Import Sorted.
From stdpp Require Import relations.

Local Open Scope Z_scope.

(** ** Three weights *)

Definition rejections : list counter :=
  [ RejectedGeo; HardRejected; Dedup; Dropped; RejectedBlacklist; RejectedIntelOnly;
    RejectedLanderNoBuyer; RejectedGitHubVendor; RejectedTelegramSpam; RejectedLowPriority;
    RejectedICP; RejectedIntent; RejectedLang; RejectedContext; RejectedContact;
    RejectedNoContacts; RejectedNoReachableContact; RejectedEmailNoContext;
    RejectedRoleEmail; RejectedEmptyHash; RejectedMX; RejectedStore ].

(** One task: taken up once, decided once. *)
Definition verdicts : weight := {|
  w_bump := λ c, match c with
                 | RawTotal => 1
                 | High | Medium | Low | SourcesOK | SourcesFail => 0
                 | _ => -1
                 end;
  w_lead := 0; w_finish := 0 |}.

(** One accepted lead: one priority. *)
Definition priorities : weight := {|
  w_bump := λ c, match c with Accepted => 1 | High | Medium | Low => -1 | _ => 0 end;
  w_lead := 0; w_finish := 0 |}.

(** One accepted lead: one entry of the list. *)
Definition entries : weight := {|
  w_bump := λ c, match c with Accepted => 1 | _ => 0 end; w_lead := -1; w_finish := 0 |}.

Definition finishes : weight := {| w_bump := λ _, 0; w_lead := 0; w_finish := 1 |}.

Lemma reject_counter_weight reason :
  w_bump verdicts (reject_counter reason) = -1 ∧ w_bump priorities (reject_counter reason) = 0
  ∧ w_bump entries (reject_counter reason) = 0.
Proof. unfold reject_counter. by repeat case_match. Qed.

Lemma outcome_weights o :
  ops_weight verdicts (outcome_ops o) = -1 ∧ ops_weight priorities (outcome_ops o) = 0
  ∧ ops_weight entries (outcome_ops o) = 0.
Proof.
  unfold outcome_ops, ops_weight.
  repeat match goal with |- context [if ?b then _ else _] => destruct b end;
    cbn [fmap list_fmap op_weight w_lead verdicts priorities entries]; rewrite ?sum_Z_cons;
    cbn [sum_Z foldr];
    try match goal with |- context [reject_counter ?r] =>
      pose proof (reject_counter_weight r) as (H1 & H2 & H3); rewrite H1, H2, H3 end;
    try done.
  unfold priority_counter. by destruct (ld_Priority <$> o_Lead o) as [[]|].
Qed.

Lemma process_weights cancelled outcome :
  ops_weight verdicts (process cancelled (Some outcome)) = 0
  ∧ ops_weight priorities (process cancelled (Some outcome)) = 0
  ∧ ops_weight entries (process cancelled (Some outcome)) = 0.
Proof.
  unfold process. destruct cancelled; [done|]. rename outcome into o.
  pose proof (outcome_weights o) as (H1 & H2 & H3).
  change (?x :: outcome_ops o ++ [FinishTask])
    with ([x] ++ (outcome_ops o ++ [FinishTask])).
  rewrite !ops_weight_app, H1, H2, H3. done.
Qed.

(** ** The wait group *)

(** What is left of a task: its updates and then, once, [FinishTask]. *)
Definition task_ops (ops : list op) : Prop :=
  ops = [] ∨ ∃ pre, ops = pre ++ [FinishTask] ∧ FinishTask ∉ pre.

Lemma task_ops_weight ops :
  task_ops ops → ops_weight finishes ops = match ops with [] => 0 | _ => 1 end.
Proof.
  intros [->|(pre & -> & Hp)]; [done|]. rewrite ops_weight_app.
  assert (ops_weight finishes pre = 0) as ->.
  { induction pre as [|o pre IH]; [done|]. apply not_elem_of_cons in Hp as [Ho Hp].
    unfold ops_weight in *. rewrite fmap_cons, sum_Z_cons, IH by done. by destruct o. }
  by destruct pre.
Qed.

Lemma outcome_ops_no_finish o : FinishTask ∉ outcome_ops o.
Proof.
  unfold outcome_ops. repeat match goal with |- context [if ?b then _ else _] => destruct b end;
    rewrite ?elem_of_cons, ?elem_of_nil; naive_solver.
Qed.

Lemma process_task_ops cancelled outcome : task_ops (process cancelled outcome).
Proof.
  right. unfold process. destruct cancelled; [by exists []; split; [|apply not_elem_of_nil]|].
  destruct outcome as [o|].
  - exists (Bump RawTotal :: outcome_ops o). split; [done|].
    rewrite not_elem_of_cons. split; [done|apply outcome_ops_no_finish].
  - exists [Bump RawTotal]. split; [done|]. rewrite elem_of_cons, elem_of_nil. naive_solver.
Qed.

Lemma task_ops_tail o ops : task_ops (o :: ops) → task_ops ops.
Proof.
  intros [?|(pre & E & Hp)]; [done|]. destruct pre as [|o' pre]; simplify_eq/=; [by left|].
  apply not_elem_of_cons in Hp as [_ Hp]. right. by exists pre.
Qed.

Definition worker_ok (st : pool) (k : worker) : Prop :=
  match k with
  | Idle => True
  | Running ops => task_ops ops
  | Exited => pl_cancelled st = true ∨ pl_closed st = true ∧ pl_queue st = []
  end.

(** The wait group counts the tasks in the queue and at work, less those not yet
    tracked. *)
Record pool_ok (st : pool) : Prop := {
  po_workers : Forall (worker_ok st) (pl_workers st);
  po_wg : pl_wg st + Z.of_nat (pl_sent st)
          = Z.of_nat (length (pl_queue st)) + workers_weight finishes (pl_workers st);
  po_closed : pl_closed st = true → pl_sent st = O }.

Lemma worker_ok_mono st st' k :
  (pl_cancelled st = true → pl_cancelled st' = true) →
  (pl_closed st = true ∧ pl_queue st = [] →
   pl_cancelled st' = true ∨ pl_closed st' = true ∧ pl_queue st' = []) →
  worker_ok st k → worker_ok st' k.
Proof. intros H1 H2. destruct k; cbn; naive_solver. Qed.

Lemma workers_ok_insert st ws i k :
  Forall (worker_ok st) ws → worker_ok st k → Forall (worker_ok st) (<[i := k]> ws).
Proof. intros Hws Hk. by apply Forall_insert. Qed.

Ltac pool_simpl := cbn [pl_queue pl_sent pl_workers pl_wg pl_state pl_lost pl_cancelled
  pl_closed pl_panicked with_queue with_worker with_state wg_add with_flags] in *.

Lemma feed_ok buffer st st' : feed buffer st st' → pool_ok st → pool_ok st'.
Proof.
  intros Hf [Hw Hg Hc].
  destruct Hf as [st t Hcl _|st _|st|st Hs];
    (split; pool_simpl;
     [eapply Forall_impl; [exact Hw|]; intros k; apply worker_ok_mono; pool_simpl; auto| |]);
    try done; try (rewrite length_app; cbn; lia); intuition congruence.
Qed.

Lemma work_ok buffer st st' : work buffer st st' → pool_ok st → pool_ok st'.
Proof.
  intros Hf [Hw Hg Hc].
  assert (∀ i k, pl_workers st !! i = Some k → worker_ok st k) as Hk
    by (intros i k Hi; by eapply Forall_lookup_1).
  destruct Hf as [st n Hs|st i t q outcome Hi Hq|st i o ops Hi Ho|st i ops Hi|st i Hi|st i Hi Hr He];
    pose proof Hw as Hw'; split; pool_simpl; try done;
    try (apply workers_ok_insert; [|cbn; eauto using process_task_ops, task_ops_tail; by left]);
    try (eapply Forall_impl; [exact Hw|]; intros k; apply worker_ok_mono; pool_simpl; by auto);
    try (erewrite workers_weight_insert by done; cbn [worker_weight]).
  - lia.
  - intros Hcl. rewrite (Hc Hcl) in Hs. done.
  - eapply Forall_impl; [exact Hw|]. intros k. apply worker_ok_mono; pool_simpl; [done|].
    intros [_ E]. rewrite Hq in E. done.
  - rewrite (task_ops_weight _ (process_task_ops _ _)).
    rewrite Hq in Hg. cbn [length] in Hg. unfold process. destruct (pl_cancelled st); lia.
  - apply workers_ok_insert; [|exact (task_ops_tail _ _ (Hk _ _ Hi))].
    eapply Forall_impl; [exact Hw|]. intros k. apply worker_ok_mono; auto.
  - rewrite ops_weight_cons.
    destruct o; [| |done]; cbn [op_weight finishes w_bump w_lead]; lia.
  - apply workers_ok_insert; [|exact (task_ops_tail _ _ (Hk _ _ Hi))].
    eapply Forall_impl; [exact Hw|]. intros k. apply worker_ok_mono; auto.
  - rewrite ops_weight_cons. cbn [op_weight finishes w_finish]. lia.
  - cbn. lia.
  - lia.
Qed.

Lemma reachable_ok buffer workers st : reachable buffer workers st → pool_ok st.
Proof.
  unfold reachable. revert st. apply rtc_ind_r.
  - split; unfold start; pool_simpl; [by apply Forall_replicate| |done].
    rewrite workers_weight_start. done.
  - intros y z _ [_ Hs|_ Hs]; [by eapply feed_ok|by eapply work_ok].
Qed.

(** ** Properties *)

(** No update is pending. *)
Definition quiescent (st : pool) : Prop :=
  Forall (λ k, match k with Running (_ :: _) => False | _ => True end) (pl_workers st).

Lemma quiescent_weight w st : quiescent st → workers_weight w (pl_workers st) = 0.
Proof.
  unfold quiescent, workers_weight. induction 1 as [|k ws Hk _ IH]; [done|].
  rewrite fmap_cons, sum_Z_cons, IH. destruct k as [|[|]|]; done.
Qed.

Lemma finishes_nonneg st ws :
  Forall (worker_ok st) ws →
  0 ≤ workers_weight finishes ws
  ∧ (workers_weight finishes ws = 0 →
     Forall (λ k, match k with Running (_ :: _) => False | _ => True end) ws).
Proof.
  unfold workers_weight. induction 1 as [|k ws Hk _ [IH1 IH2]]; [done|].
  rewrite fmap_cons, sum_Z_cons.
  assert (0 ≤ worker_weight finishes k ∧ (worker_weight finishes k = 0 →
    match k with Running (_ :: _) => False | _ => True end)) as [H1 H2].
  { destruct k as [|ops|]; cbn [worker_weight]; [done| |done].
    rewrite (task_ops_weight _ Hk). destruct ops; by split. }
  split; [lia|]. intros H. constructor; [apply H2; lia|apply IH2; lia].
Qed.

(** C18. The counters of a round add up.  Once no worker is in the middle of a
    task, every task taken up and every task dropped on a full channel has been
    counted under exactly one verdict, every accepted lead has one priority and
    one entry in the list — whatever the interleaving of the workers. *)
Theorem round_adds_up buffer workers st :
  reachable buffer workers st → quiescent st →
  rs_count (pl_state st) RawTotal + pl_lost st
    = rs_count (pl_state st) Accepted + sum_Z (rs_count (pl_state st) <$> rejections)
  ∧ rs_count (pl_state st) Accepted
    = rs_count (pl_state st) High + rs_count (pl_state st) Medium + rs_count (pl_state st) Low
  ∧ Z.of_nat (length (rs_leads (pl_state st))) = rs_count (pl_state st) Accepted.
Proof.
  intros Hr Hq.
  pose proof (balanced_invariant verdicts (-1) (λ c o, proj1 (process_weights c o))
    eq_refl eq_refl buffer workers st Hr) as H1.
  pose proof (balanced_invariant priorities 0 (λ c o, proj1 (proj2 (process_weights c o)))
    eq_refl eq_refl buffer workers st Hr) as H2.
  pose proof (balanced_invariant entries 0 (λ c o, proj2 (proj2 (process_weights c o)))
    eq_refl eq_refl buffer workers st Hr) as H3.
  rewrite quiescent_weight in H1, H2, H3 by done.
  unfold round_weight in *. cbn in H1, H2, H3. cbn. lia.
Qed.

(** [Wait] is sound.  When every call of [TryEnqueue] has returned and the
    wait group is at zero, no task is queued or at work, so the snapshot that
    follows is complete. *)
Theorem wait_means_done buffer workers st :
  reachable buffer workers st → pl_sent st = O → pl_wg st = 0 →
  pl_queue st = [] ∧ quiescent st.
Proof.
  intros Hr Hs Hz. destruct (reachable_ok _ _ _ Hr) as [Hw Hg _].
  rewrite Hs, Hz in Hg.
  destruct (finishes_nonneg st (pl_workers st) Hw) as [H0 Hq].
  split; [|apply Hq; lia]. destruct (pl_queue st); [done|]. cbn [length] in Hg. lia.
Qed.

(** ** Executions *)

Lemma step_work_rtc buffer st st' :
  pl_panicked st = false → work buffer st st' → rtc (step buffer) st st'.
Proof. intros Hp Hw. apply rtc_once. by apply step_work. Qed.

(** A worker gets to its [FinishTask] whatever the others do. *)
Lemma run_updates buffer st i pre ops :
  pl_panicked st = false → pl_workers st !! i = Some (Running (pre ++ ops)) → FinishTask ∉ pre →
  ∃ s, rtc (step buffer) st (with_worker (with_state st s (pl_lost st)) i (Running ops)).
Proof.
  revert st. induction pre as [|o pre IH]; intros st Hp Hi Hf.
  - exists (pl_state st). destruct st; unfold with_worker, with_state; pool_simpl.
    by rewrite list_insert_id.
  - apply not_elem_of_cons in Hf as [Ho Hf].
    edestruct (IH (with_worker (with_state st (apply_op o (pl_state st)) (pl_lost st)) i
                     (Running (pre ++ ops)))) as [s Hs]; [done| |done|].
    { pool_simpl. rewrite list_lookup_insert_eq; [done|by eapply lookup_lt_Some]. }
    exists s. etrans.
    + apply step_work_rtc; [done|]. by eapply work_update.
    + etrans; [exact Hs|]. unfold with_worker, with_state; pool_simpl.
      by rewrite list_insert_insert_eq.
Qed.

(** The order of [TryEnqueue] is unsafe: a task is sent before it is tracked,
    so a worker may take it up and finish it first; the wait group then drops
    below zero and the program panics.  This holds for any number of workers, any
    buffer, any task and any outcome. *)
Theorem track_after_send_panics buffer workers (t : Task) (o : ProcessOutcome) :
  ∃ st, reachable buffer (S workers) st ∧ pl_panicked st = true.
Proof.
  set (st0 := start (S workers)).
  set (st1 := with_queue st0 [t] 1).
  set (st2 := with_worker (with_queue st1 [] 1) 0 (Running (process false (Some o)))).
  assert (rtc (step buffer) st0 st1) as H1.
  { apply rtc_once, step_feed; [done|]. apply (feed_send buffer st0 t); [done|].
    apply Nat.ltb_lt. cbn. lia. }
  assert (rtc (step buffer) st1 st2) as H2.
  { apply step_work_rtc; [done|]. by apply (work_receive buffer st1 0 t [] o). }
  destruct (run_updates buffer st2 0 (Bump RawTotal :: outcome_ops o) [FinishTask])
    as [s H3]; [done|done| |].
  { rewrite not_elem_of_cons. split; [done|apply outcome_ops_no_finish]. }
  eexists. split.
  - unfold reachable. etrans; [exact H1|]. etrans; [exact H2|].
    etrans; [exact H3|]. apply step_work_rtc; [done|].
    by apply (work_finish buffer _ 0 []).
  - done.
Qed.

(** The state after one call of [TryEnqueue]. *)
Definition tracked (workers : nat) (t : Task) : pool :=
  wg_add (with_queue (with_queue (start workers) [t] 1) [t] 0) 1.

Lemma tracked_reachable buffer workers t : reachable (S buffer) workers (tracked workers t).
Proof.
  unfold reachable. set (st1 := with_queue (start workers) [t] 1). etrans.
  { apply rtc_once, step_feed; [done|]. apply (feed_send (S buffer) (start workers) t); [done|].
    apply Nat.ltb_lt. cbn. lia. }
  apply (step_work_rtc _ st1); [done|]. by apply (work_track _ st1 0).
Qed.

Lemma exit_all buffer st k m :
  pl_panicked st = false → pl_cancelled st = true → (length (pl_queue st) ≤ buffer)%nat →
  pl_workers st = replicate k Exited ++ replicate m Idle →
  ∃ st', rtc (step buffer) st st' ∧ pl_workers st' = replicate (k + m) Exited
    ∧ pl_queue st' = pl_queue st ∧ pl_wg st' = pl_wg st ∧ pl_sent st' = pl_sent st
    ∧ pl_panicked st' = false.
Proof.
  revert k st. induction m as [|m IH]; intros k st Hp Hc Hq Hw.
  - exists st. rewrite Hw, Nat.add_0_r, app_nil_r. done.
  - assert (pl_workers st !! k = Some Idle) as Hi.
    { rewrite Hw. rewrite lookup_app_r by (rewrite length_replicate; lia).
      by rewrite length_replicate, Nat.sub_diag. }
    destruct (IH (S k) (with_worker st k Exited)) as (st' & Hs & Hw' & Hrest); [done..| |].
    { pool_simpl. rewrite Hw, insert_app_r_alt by (rewrite length_replicate; lia).
      rewrite length_replicate, Nat.sub_diag, (replicate_S_end k), <- app_assoc. done. }
    exists st'. split; [|by rewrite Hw', Nat.add_succ_comm].
    etrans; [|exact Hs]. apply step_work_rtc; [done|]. apply work_exit; [done| |by left].
    apply Nat.ltb_lt. unfold idle_workers. rewrite Hw, List.filter_app, length_app. cbn. lia.
Qed.

Lemma no_work_exited buffer st st' :
  pl_sent st = O → Forall (eq Exited) (pl_workers st) → ¬ work buffer st st'.
Proof.
  intros Hs Hw Hk. rewrite Forall_lookup in Hw.
  destruct Hk as [st n E|st i t q outcome E _|st i o ops E _|st i ops E|st i E|st i E _ _];
    first [congruence | by apply Hw in E].
Qed.

(** A cancelled round can hang.  With a buffer of at least one task and any
    number of workers, there is an execution in which the workers leave on the
    cancellation with a tracked task in the queue: no call of [TryEnqueue] is
    pending, no worker is left to take the task up, and the wait group stays
    above zero, so [Wait] never returns. *)
Theorem cancelled_pool_strands_tasks buffer workers (t : Task) :
  ∃ st, reachable (S buffer) workers st ∧ pl_sent st = O ∧ pl_queue st = [t] ∧ pl_wg st = 1
    ∧ ∀ st', ¬ work (S buffer) st st'.
Proof.
  set (st3 := with_flags (tracked workers t) true false).
  destruct (exit_all (S buffer) st3 0 workers) as (st & Hs & Hw & Hq & Hg & Ht & _);
    [done|done|cbn; lia|done|].
  exists st. repeat split; try done.
  - unfold reachable. etrans; [apply tracked_reachable|]. etrans; [|exact Hs].
    apply rtc_once, step_feed; [done|]. apply (feed_cancel (S buffer) (tracked workers t)).
  - intros st'. apply no_work_exited; [done|]. rewrite Hw. by apply Forall_replicate.
Qed.

(** ** A task from end to end *)

Module Sample.

(** One worker takes up a task that is rejected for its contact. *)
Lemma one_rejected (t : Task) :
  ∃ st, reachable 1 1 st ∧ pl_sent st = O ∧ pl_wg st = 0 ∧ quiescent st
    ∧ rs_count (pl_state st) RawTotal = 1 ∧ rs_count (pl_state st) RejectedContact = 1.
Proof.
  eexists. split.
  - unfold reachable. etrans; [apply (tracked_reachable 0 1 t)|].
    etrans; [apply step_work_rtc; [done|];
             by apply (work_receive 1 _ 0 t [] (rejected "contact"))|].
    etrans; [apply step_work_rtc; [done|]; by apply (work_update 1 _ 0 (Bump RawTotal))|].
    etrans; [apply step_work_rtc; [done|]; by apply (work_update 1 _ 0 (Bump RejectedContact))|].
    apply step_work_rtc; [done|]. by apply (work_finish 1 _ 0 []).
  - split_and!; [done..| |done|done]. by repeat constructor.
Qed.

Definition task : Task := {| t_RoundID := "r1"; t_Item := zero_item |}.
End Sample.

(** ** Draining *)

Definition worker_cost (k : worker) : nat :=
  match k with Idle => 1 | Running ops => 2 + length ops | Exited => 0 end.

Definition workers_cost (ws : list worker) : nat := foldr (λ k n, worker_cost k + n)%nat O ws.

(** A bound on the steps that need no new task. *)
Definition drain_bound (st : pool) : nat :=
  (8 * length (pl_queue st) + 2 * pl_sent st + workers_cost (pl_workers st))%nat.

Lemma workers_cost_cons k ws : workers_cost (k :: ws) = (worker_cost k + workers_cost ws)%nat.
Proof. done. Qed.

Lemma workers_cost_insert ws i k k' :
  ws !! i = Some k →
  (workers_cost (<[i := k']> ws) + worker_cost k = workers_cost ws + worker_cost k')%nat.
Proof.
  revert i. induction ws as [|k0 ws IH]; intros [|i] H; try done.
  - injection H as ->. cbn. lia.
  - specialize (IH i H). change (<[S i:=k']> (k0 :: ws)) with (k0 :: <[i:=k']> ws).
    rewrite !workers_cost_cons. lia.
Qed.

Lemma process_cost cancelled outcome : (length (process cancelled outcome) ≤ 5)%nat.
Proof.
  unfold process. destruct cancelled; [cbn; lia|]. destruct outcome as [o|]; [|cbn; lia].
  cbn [length]. rewrite length_app. unfold outcome_ops. repeat case_match; cbn [length]; lia.
Qed.

Lemma work_decreases buffer st st' : work buffer st st' → (drain_bound st' < drain_bound st)%nat.
Proof.
  unfold drain_bound.
  destruct 1 as [st n Hs|st i t q outcome Hi Hq|st i o ops Hi Ho|st i ops Hi|st i Hi|st i Hi Hr He];
    pool_simpl;
    try match goal with |- context [workers_cost (<[?i := ?k]> ?ws)] =>
      pose proof (workers_cost_insert ws i _ k Hi) end; cbn [worker_cost length] in *; try lia.
  rewrite Hq. pose proof (process_cost (pl_cancelled st) (Some outcome)). cbn [length]. lia.
Qed.

Lemma work_frame buffer st st' :
  work buffer st st' → pl_sent st = O →
  pl_sent st' = O ∧ pl_cancelled st' = pl_cancelled st
  ∧ length (pl_workers st') = length (pl_workers st).
Proof. destruct 1; intros Hz; pool_simpl; rewrite ?length_insert; naive_solver congruence. Qed.

(** Without a pending [TrackTask] the wait group does not go below zero. *)
Lemma work_no_panic buffer st st' :
  work buffer st st' → pool_ok st → pl_sent st = O → pl_panicked st = false →
  pl_panicked st' = false.
Proof.
  intros Hk Ho Hs Hp. pose proof (work_ok _ _ _ Hk Ho) as [Hw' Hg' _].
  destruct (finishes_nonneg _ _ Hw') as [Hn _].
  destruct (work_frame _ _ _ Hk Hs) as (Hs' & _). rewrite Hs' in Hg'.
  destruct Hk; pool_simpl; try done; rewrite Hp; apply orb_false_iff; split; try done;
    apply Z.ltb_ge; lia.
Qed.

Lemma draining buffer n st st' :
  pool_ok st → pl_sent st = O → pl_panicked st = false → nsteps (work buffer) n st st' →
  (n + drain_bound st' ≤ drain_bound st)%nat ∧ pool_ok st' ∧ pl_sent st' = O
  ∧ pl_panicked st' = false ∧ pl_cancelled st' = pl_cancelled st
  ∧ length (pl_workers st') = length (pl_workers st).
Proof.
  intros Ho Hs Hp Hn. revert Ho Hs Hp. induction Hn as [st|n st st1 st2 Hk _ IH]; [done|].
  intros Ho Hs Hp. destruct (work_frame _ _ _ Hk Hs) as (Hs1 & Hc1 & Hl1).
  destruct IH as (H1 & H2 & H3 & H4 & H5 & H6);
    [by eapply work_ok|done|by eapply work_no_panic|].
  apply work_decreases in Hk. rewrite H5, H6, Hc1, Hl1. split; [lia|done].
Qed.

(** Work goes on as long as there is any. *)
Lemma work_left buffer st :
  pool_ok st → pl_cancelled st = false → pl_workers st ≠ [] → (∀ st', ¬ work buffer st st') →
  pl_queue st = [] ∧ quiescent st.
Proof.
  intros [Hw Hg Hc] Hn Hne Hstop.
  assert (∀ i k, pl_workers st !! i = Some k → match k with Running _ => False | _ => True end) as Hk.
  { intros i k Hi. destruct k as [|[|o ops]|]; [done| | |done].
    - by eapply Hstop, work_next.
    - destruct o; [by eapply Hstop, work_update..|]. by eapply Hstop, work_finish. }
  split.
  - destruct (pl_queue st) as [|t q] eqn:Eq; [done|]. exfalso.
    destruct (pl_workers st) as [|k ws] eqn:Ew; [done|].
    pose proof (Hk O k eq_refl) as H0. inversion Hw as [|? ? Hk0 _]; subst.
    destruct k as [|ops|]; [|done|].
    + eapply Hstop. eapply (work_receive buffer st O t q no_outcome); [by rewrite Ew|done].
    + cbn in Hk0. rewrite Eq in Hk0. naive_solver congruence.
  - apply Forall_lookup. intros i k Hi. specialize (Hk i k Hi). by destruct k as [|[]|].
Qed.

Lemma step_workers buffer st st' :
  step buffer st st' → length (pl_workers st') = length (pl_workers st).
Proof. intros [_ H|_ H]; destruct H; pool_simpl; by rewrite ?length_insert. Qed.

Lemma reachable_workers buffer workers st :
  reachable buffer workers st → length (pl_workers st) = workers.
Proof.
  unfold reachable. revert st. apply rtc_ind_r.
  - apply length_replicate.
  - intros y z _ Hs IH. apply step_workers in Hs. congruence.
Qed.

(** C4. The pool drains.  From any state reached with no pending [TrackTask] and
    no cancellation, the workers take a bounded number of steps whatever they
    interleave; none of them panics; and when no step is left the queue is empty,
    no update is pending and the wait group is at zero, so [Wait] returns. *)
Theorem pool_drains buffer workers st :
  reachable buffer (S workers) st →
  pl_sent st = O → pl_cancelled st = false → pl_panicked st = false →
  ∀ n st', nsteps (work buffer) n st st' →
  (n ≤ drain_bound st)%nat ∧ pl_panicked st' = false
  ∧ ((∀ st'', ¬ work buffer st' st'') → pl_queue st' = [] ∧ quiescent st' ∧ pl_wg st' = 0).
Proof.
  intros Hr Hs Hc Hp n st' Hn.
  destruct (draining buffer n st st') as (H1 & Ho' & Hs' & Hp' & Hc' & Hl');
    [by eapply reachable_ok|done..|].
  split; [lia|]. split; [done|]. intros Hstop.
  destruct (work_left buffer st') as [Hq Hqu]; [done|congruence| |done|].
  { intros E. apply (reachable_workers _ _ _) in Hr. rewrite E, Hr in Hl'. done. }
  split; [done|]. split; [done|]. destruct Ho' as [_ Hg _].
  rewrite Hs', Hq, quiescent_weight in Hg by done. cbn in Hg. lia.
Qed.

(** ** The report *)

Lemma more_frequent_weak : weak_order more_frequent.
Proof.
  split; unfold more_frequent; intros *;
    z_cases; intros; first [done | lia | by apply str_ltb_asym | by eapply str_ltb_trans].
Qed.

Lemma more_frequent_antisymm p q :
  more_frequent q p = false → more_frequent p q = false → p = q.
Proof.
  destruct p as [r c], q as [r' c']. unfold more_frequent. cbn [fst snd].
  destruct (Z.eqb_spec c c') as [->|Hc].
  - rewrite Z.eqb_refl. intros H1 H2. f_equal. by apply str_ltb_antisymm.
  - rewrite (proj2 (Z.eqb_neq c' c)) by congruence. rewrite !Z.ltb_ge. lia.
Qed.

(** [TopRejectReasons] does not depend on the order in which Go visits the map
    nor on how [sort.Slice] treats equal elements.  The reasons it lists with
    their counts and the ones it leaves out are together the reasons that occurred;
    none left out is more frequent than one listed, and among equal counts the
    names are in byte order; at most [n] are listed when [n] is positive. *)
Theorem TopRejectReasons_top (S1 S2 : Sorter) visit1 visit2 s n :
  (∀ l, visit1 l ≡ₚ l) → (∀ l, visit2 l ≡ₚ l) →
  @TopRejectReasons S1 visit1 s n = @TopRejectReasons S2 visit2 s n
  ∧ ∃ listed rest,
      @TopRejectReasons S1 visit1 s n = (λ p, p.1 +:+ ":" +:+ Itoa p.2) <$> listed
      ∧ listed ++ rest ≡ₚ List.filter (λ p, negb (p.2 <=? 0)) (reject_buckets s)
      ∧ StronglySorted (λ p q, more_frequent q p = false) (listed ++ rest)
      ∧ (n > 0 → Z.of_nat (length listed) ≤ n)
      ∧ (rest = [] ∨ Z.of_nat (length listed) = n).
Proof.
  intros H1 H2.
  assert (List.filter (λ p : string * Z, negb (p.2 <=? 0)) (visit1 (reject_buckets s))
    ≡ₚ List.filter (λ p, negb (p.2 <=? 0)) (visit2 (reject_buckets s))) as Hv.
  { apply filter_bool_perm. by rewrite H1, H2. }
  unfold TopRejectReasons, topRejectReasons. split.
  - rewrite (sort_unique more_frequent S1 S2 _ _ more_frequent_weak more_frequent_antisymm Hv).
    done.
  - set (l := List.filter _ (visit1 (reject_buckets s))).
    pose proof (@sort_slice_sorted S1 _ more_frequent l more_frequent_weak) as Hsort.
    set (sorted := @sort_slice S1 _ more_frequent l) in *.
    assert (sorted ≡ₚ
      List.filter (λ p, negb (p.2 <=? 0)) (reject_buckets s)) as Hperm.
    { unfold sorted. rewrite sort_slice_perm. apply filter_bool_perm. by rewrite H1. }
    cbv zeta. destruct (_ && _) eqn:E.
    + apply andb_true_iff in E as [En El].
      exists (take (Z.to_nat n) sorted),
        (drop (Z.to_nat n) sorted).
      rewrite take_drop. split_and!; [reflexivity|done|done|rewrite length_take; lia|].
      right. rewrite length_take. lia.
    + exists sorted, []. rewrite app_nil_r.
      split_and!; [reflexivity|done|done| |by left]. intros Hn. apply andb_false_iff in E. lia.
Qed.

(** ** Witnesses *)

Module Witnesses.
Import Sample.

Example round_adds_up_witness :
  ∃ st, (reachable 1 1 st ∧ quiescent st ∧ rs_count (pl_state st) RawTotal = 1)
    ∧ rs_count (pl_state st) RawTotal + pl_lost st
      = rs_count (pl_state st) Accepted + sum_Z (rs_count (pl_state st) <$> rejections).
Proof.
  destruct (one_rejected task) as (st & H1 & H2 & H3 & H4 & H5 & H6). exists st.
  split; [done|]. apply (round_adds_up 1 1 st H1 H4).
Defined.

Example wait_means_done_witness :
  ∃ st, (reachable 1 1 st ∧ rs_count (pl_state st) RawTotal = 1)
    ∧ pl_queue st = [] ∧ quiescent st.
Proof.
  destruct (one_rejected task) as (st & H1 & H2 & H3 & H4 & H5 & H6). exists st.
  split; [done|]. apply (wait_means_done 1 1 st H1 H2 H3).
Defined.

Example pool_drains_witness :
  (pl_queue (tracked 2 task) = [task] ∧ reachable 1 2 (tracked 2 task))
  ∧ ∀ n st', nsteps (work 1) n (tracked 2 task) st' →
      (n ≤ 10)%nat ∧ pl_panicked st' = false
      ∧ ((∀ st'', ¬ work 1 st' st'') → pl_queue st' = [] ∧ quiescent st' ∧ pl_wg st' = 0).
Proof.
  split; [split; [done|apply tracked_reachable]|].
  apply (pool_drains 1 1 (tracked 2 task) (tracked_reachable 0 2 task)); done.
Defined.

Definition busy_round : RoundStats :=
  Snapshot (foldr add no_round [Dedup; RejectedGeo; Dropped; Dedup; RejectedMX]) "r1" 0.

Example TopRejectReasons_top_witness :
  @TopRejectReasons insertion_sorter reverse busy_round 3 = ["dedup:2"; "dropped:1"; "geo:1"]
  ∧ @TopRejectReasons insertion_sorter reverse busy_round 3
    = @TopRejectReasons insertion_sorter id busy_round 3.
Proof.
  split; [vm_compute; done|].
  apply (TopRejectReasons_top insertion_sorter insertion_sorter reverse id busy_round 3);
    intros l; [apply reverse_Permutation|done].
Defined.
End Witnesses.
